(* ===== verification/_CoqProject ===== *)
-Q . S2P
Prelude.v
HostArith.v
BitScan.v
Timers.v
DevState.v
Savevm.v
Snapshot.v
Pic.v
Pit.v
Dma.v
Rtc.v
Ps2.v
Ioport.v
Pckbd.v
Apic.v
ApicDelivery.v
Ioapic.v
IrqPath.v
CondCodes.v
X86Ops.v
Chains.v
SoftTlb.v
TbCache.v
TbJumps.v
TbLists.v
TbInv.v
TbGen.v
TbSmc.v
TbMachine.v
TbRuns.v
PhysMem.v
X86Mmu.v
X86Walk.v
X86Tlb.v
X86Run.v
Tcg.v
TcgLive.v
TcgSem.v
TcgMask.v
TcgGen.v
TcgReg.v
TcgRegInv.v
TcgRegOp.v
TcgRegArgs.v
TcgRegInsn.v
TcgRegCall.v
TcgHost.v
TcgBlock.v
TcgCode.v
TcgRun.v
Machine.v
