(* ===== verification/Prelude.v ===== *)
(** * Verification of the S2E virtual machine state and its PC devices

    S2E runs a whole PC in a modified QEMU and explores many execution states
    of it at once.  Each time it leaves one execution state for another it
    saves every device of the PC into a byte buffer and loads the devices of
    the other state ([S2EDeviceState]); disk writes go to sector maps that
    forked states share through their parents.  Guest code runs as translated
    blocks, which are cached, chained to each other, thrown away when the
    guest changes its code, and unchained where symbolic data could get into
    native code.  This development models the snapshot machinery, the disk
    overlay, the PC devices they carry, the cache of translated code, address
    translation and the intermediate code of blocks, from
    src/s2e/qemu/, and proves what each promises.

    ** Parts, files and source

    - [Prelude] (this file): C integers at their width as [Z], the result type
      [Res] of fallible code, record update, bit lemmas, the hint database
      [s2e].
    - [HostArith]: [muldiv64] of vl.c, 64x64->128 products of host-utils.c.
      [BitScan]: leading and trailing zeros of host-utils.h.
    - [Timers]: the sorted list of active timers, vl.c.
    - [DevState]: s2e/S2EDeviceState.cpp.  Module [Buffer] is the snapshot
      buffer, [Disk] the sector maps of the states; the class [ByteStream]
      (with [ByteStreamLaws]) is what the save and load code needs of a
      buffer, and [Buffer] discharges it.
    - [Savevm]: savevm.c and hw/hw.h, the big-endian accessors, the field types
      ([VMStateInfo]) and the interpreters [vmstate_save_state] and
      [vmstate_load_state], written against [ByteStream].  [InfoOk] is what a
      field type promises, [DescrOk] what a description needs.
    - [Snapshot]: the device registry of savevm.c and
      [saveDeviceState]/[restoreDeviceState].
    - [Pic] (hw/i8259.c), [Pit] (hw/i8254.c), [Dma] (hw/dma.c), [Rtc]
      (hw/mc146818rtc.c), [Ps2] (hw/ps2.c), [Pckbd] (hw/pckbd.c): one device
      each, in a Module of the same name, with its state as a record, one
      definition per C function (a [switch] arm or loop body may be a
      definition of its own), its saved fields, and its invariant.
    - [Ioport]: the I/O port tables of ioport.c.
    - [Apic] (hw/apic.c): the local APICs and their bus, the step relation
      [bus_step]; [ApicDelivery]: who receives a message, and the timer.
      [Ioapic]: the I/O APIC (hw/ioapic.c, Module [Ioapic]) and the interrupt
      wiring of hw/pc.c (Module [PcIrq]), the step relation [irq_step] of the
      whole interrupt subsystem.  [IrqPath]: the legacy path from an ISA line
      through the 8259 pair and a local APIC to the CPU.
    - [CondCodes]: the lazily computed x86 flags (target-i386:
      helper_template.h, op_helper.c and the code translate.c emits for
      arithmetic, shifts and conditional jumps).  [X86Ops]: registers,
      multiplication, division, rotation through the carry and the decimal
      instructions.
    - [SoftTlb]: guest RAM, the software TLB, write protection and dirty flags
      of exec.c.  [TbCache]: the blocks of exec.c and exec-all.h with their hash
      chains, page lists and circular jump lists, and S2E's unchaining
      (s2e/S2EExecutor.cpp).  [Chains], [TbLists], [TbJumps] and [TbInv] build
      their invariant: [Chains] is a theory of lists linked through pointers,
      [TbJumps] the jumps, [TbLists] the other two kinds of list, [TbInv] the
      whole ([cached]) and the operations that keep it.  [TbGen]: making and
      looking up blocks (exec.c, cpu-exec.c).  [TbSmc]: invalidation when the
      guest writes to its code.  [TbMachine]: a turn of the loop of cpu-exec.c
      and the step relation [step] of all of these.  [TbRuns]: runs on a small
      machine.
    - [PhysMem]: the accessors of physical memory of exec.c that page walks
      use, as a class [PhysMemory] with its laws [PhysMemoryLaws], which guest
      RAM discharges.  [X86Mmu]: control registers, page walk, page faults and
      TLB refill of target-i386 (helper.c, op_helper.c).  [X86Walk]: what a
      page table means ([arch_walk]), memories up to accessed and dirty bits
      ([ad_equiv]), and the walk proved against it.  [X86Tlb]: the handler on
      every branch, and the step relation [mmu_step] of the TLB.  [X86Run]:
      runs on page tables in the RAM of [TbRuns].
    - [Tcg]: the intermediate code of tcg/tcg.c and tcg-opc.h, the liveness
      pass, the table of helpers, and the registers a block touches.  [TcgLive]:
      blocks as instructions with their encoding in the buffers, and the pass
      on them.  [TcgSem]: runs of blocks for any meaning of the operations
      ([Meaning], with [CallFlags] for what tcg.h says of calls), and the pass
      proved against them.  [TcgMask]: the masks, with [RegMasks] for what the
      helpers' own masks promise.  [TcgGen]: temporaries and the emission of
      helper calls.
    - [TcgReg]: the register allocator of tcg/tcg.c with the operand
      constraints and registers of the 64-bit x86 host
      (tcg/x86_64/tcg-target.c).  [TcgRegInv]: the invariant of its tables
      ([ra_ok]), host registers and memory, where a temporary is found
      ([located]), and the functions that free, allocate and save.
      [TcgRegOp]: ends of basic blocks and moves.  [TcgRegArgs]: inputs and
      outputs of operations.  [TcgRegInsn]: the table of constraints and whole
      operations.  [TcgRegCall]: calls.  [TcgHost]: runs of host code.
      [TcgBlock]: the code of a block simulates the block.  [TcgCode]: code
      generation as a whole.  [TcgRun]: a meaning, two helpers, a block and the
      tables for its code.
    - [Machine]: the devices together under the state switch.

    ** How the model corresponds to the code

    A C function on a struct is a Rocq function from the old record to the new
    one, under the C name; a function that can reach [hw_error], [abort], an
    assertion or an index out of bounds returns [Res].  Integers are [Z], and
    every assignment to a field narrower than the computed value goes through
    [u8] .. [u64], [s8] .. [s64].  The current time is an argument.  An output
    line is the list of levels driven so far, newest first.  A device timer is
    [option Z], the pending deadline; [Timers] shows that the timer list
    implements this view.  Code outside the modelled files is a parameter: DMA
    transfer handlers ([Dma.TransferHandlers]), port devices
    ([Ioport.PortDevices]), the raw disk read, the HPET and reinjection
    settings of the clock ([Rtc.RtcEnv]).  A function of translate.c that emits
    code for an instruction is modelled by what the emitted code does to
    registers and flags; [T0] and [T1] are the translator's temporaries, and
    [junk] stands for what a discarded temporary holds.

    In the translator, a block is its index in the array of blocks, a tagged
    pointer a pair of index and tag; following NULL is [Fail NullDeref].  The
    code generator ([cpu_gen_code]), the mapping of code addresses
    ([get_phys_addr_code]), the symbolic-MMIO test and the state
    [cpu_restore_state] finds are parameters, with hypotheses on block size
    and code size ([translates]), on the mapping ([maps_code]) and on the
    range of the restored address.  [live] is the set of blocks that are in
    the cache.

    The MMU is that of the i386 target: 32-bit virtual and 64-bit physical
    addresses, no long mode.  Its theorems assume page tables in RAM and, with
    PAE, below 4 GB, and large pages only with the A20 gate open
    ([walkable]); [X86Run] shows what happens otherwise.  Physical addresses
    may share memory, as the laws of [PhysMemoryLaws] allow.

    Intermediate code is that of a 64-bit x86 host and a 32-bit guest.  The
    operations have no fixed meaning: the theorems hold for every [Meaning]
    that respects the flags of operations and calls, so that they do not depend
    on the host or the helpers.  ([RegMasks] asks in addition that the helpers'
    masks are right and that guest memory accesses involve no global.)  A block is well-formed ([insn_ok]) when its
    arguments are in range and in number; helpers are called through a constant
    of the same basic block ([calls_known]), which [TcgGen] shows to be how
    they are emitted.

    The register allocator emits a list of host operations, one per call of a
    [tcg_out] function, whose bytes are left open.  Host registers have 64 bits
    and host memory is bytes, per base register; moves copy registers, and loads,
    stores and constants move 4 or 8 bytes as their type says ([exec1]), so that
    the upper half of a register that holds a 32-bit value is arbitrary.  An
    operation of the host reads and writes the operands it
    is given if they satisfy its constraints ([op_fits]) and is stuck
    otherwise; calls and guest accesses destroy the registers the calling
    convention lets them ([clobber], [junk]).  [HostMeaning] asks that moves
    move, that extensions read the low half of their input, that branches name
    their labels, and that functions leave globals in fixed registers alone.  Blocks ([block_ok]) do not write fixed registers,
    write temporaries before they read them ([defined]), and use operations the
    host has on operands of their types ([op_typed]); in the runs considered,
    values fit the types of their temporaries ([typed_run]); the frame has room for all temporaries ([init_ok]), as the code
    aborts when it has not.  The allocator works on the instructions of a block
    where the code moves over their encoding, which [TcgLive] relates.

    Loops that do not recurse on their data carry fuel, and each bound is
    proved to be enough: 8 rounds for the priority scan of the interrupt
    controller, the total distance of the movement for mouse packets, the
    number of expired timers for [qemu_run_timers] (for callbacks that arm no
    timer for a time that has passed), the length in blocks for unused buffers; the APIC loops run over
    the 8 words of a vector table, the 256 places of the bus and the 24 pins.
    Walks over lists of blocks are bounded by twice the number of blocks plus
    two, the recursive unchaining by the number of chained exits, the search by
    host address by the number of blocks, the search for a helper by their
    number; a list that went on would be
    [Fail Diverges], and the theorems say that none does.
    The buffer laws hold up to 2^29 bytes, where the [unsigned] offset
    arithmetic cannot wrap.

    ** What the theorems show

    - Snapshots: a save followed by a load over the PC another state left says
      which registers come back, which lines and wiring stay, and what leaks
      because no description lists it ([pc_snapshot_restores]); the registry keeps names apart
      ([vmstate_register_find]).
    - Disks: reads return the newest copy of each sector, forked states are
      isolated ([readSector_correct], [write_read_sectors],
      [fork_isolates_disks]).
    - Devices: invariants over all reachable states ([pic_reachable_invariant],
      [pit_reachable_invariant], [kbd_controller_invariant]); functional
      behaviour (priority resolution, service episodes, next transitions,
      calendar steps, periodic rate, DMA passes, port dispatch); round trips
      (counter programming, DMA words, CMOS dates, mouse packets); refinements
      (the PS/2 ring as a FIFO, the timer list as deadlines).
    - Interrupts: in every reachable state the subsystem is well formed and no
      interrupt of an unmasked edge-triggered pin is left unsent
      ([irq_nothing_stuck]); a local APIC signals its CPU exactly when it should
      ([apic_update_irq_signals]) and serves interrupts by class
      ([apic_service_episode]); messages reach the APICs they are addressed to
      and no others ([apic_message_delivered]); the APIC timer keeps its beat
      ([apic_timer_keeps_beat]); the redirection table reads back as written
      ([redirection_roundtrip]); an edge raised while masked is delivered on
      unmasking ([masked_interrupt_not_lost]); a line change at the 8259 pair
      reaches the CPU ([isa_interrupt_reaches_cpu]).
    - CPU: whatever instruction recorded them, the lazy flags are those of the
      architecture ([alu_flags_correct], [inc_dec_flags],
      [shift_flags_correct]) and conditional jumps decide on them although
      they look at the operands ([jcc_decides_on_flags],
      [cmp_jcc_compares]); multiplication and division are exact, with the
      divide exception where it belongs ([mul_correct], [imul_correct],
      [div_correct], [idiv_correct], [mul_div_roundtrip]); rotations through
      the carry move the right bits and can be undone
      ([rotate_through_carry], [rotate_back]); decimal instructions compute
      decimal sums ([decimal_arithmetic], [ascii_arithmetic],
      [aam_aad_roundtrip]).
    - Translated code: in every state reachable by lookups, chaining, native
      preparation, stores, refills, flushes, mapping changes and interrupts,
      the pages with code are write protected and lookups enter the right
      block ([translator_safe]); a store leaves no stale block in the cache
      ([s2e_store_no_stale]), an invalidated block is found nowhere
      ([tb_phys_invalidate_forgets]), lookups find the block for the code that
      is mapped ([tb_find_fast_correct], [tlb_flush_page_forgets]; where code
      comes from is said byte by byte, by [source]), refills
      keep write protection ([tlb_set_page_keeps_guard],
      [mmu_fill_keeps_translator]), native code cannot
      reach a block that touches symbolic registers ([prepare_native_sound]),
      a CPU that is told to stop does ([cpu_unlink_tb_stops]), the search by
      host address is right ([tb_find_pc_finds]), and guest RAM and host
      pointers correspond ([ram_ptr_roundtrip]).
    - Address translation: the MMU translates, faults and marks entries as the
      architecture says ([mmu_fault_correct], [mmu_walk_again]), the TLB never
      allows what the tables in force forbid ([mmu_tlb_coherent]), and the
      debugger's translation agrees ([phys_page_debug_agrees]).
    - Code generation: temporaries are handed out once ([temps_refine]), helper
      calls are emitted in the form later passes rely on
      ([helper_call_emitted]), the liveness pass preserves every run of a block
      ([liveness_preserves]) and marks no input dead that is needed
      ([dead_inputs_sound]), code generation ends normally and the host code
      leaves a block as the block does ([tcg_gen_code_preserves]), whatever
      registers run out or calls destroy; helpers are found
      ([find_helper_correct]), and a block whose masks have no symbolic register runs the same whatever these
      registers hold ([native_ignores_symbolic]), which is what
      [prepare_native_sound] asks of the masks.
    - Arithmetic: [muldiv64], the wide products and the bit scans are exact.
    - Deviations: theorems that prove what the code does where it differs from
      its comments or its evident purpose (a disk read that skips a sector,
      DMA status left out of snapshots, reversed DMA blocks, the minutes alarm,
      a lost timer edge, truncated mouse packets, a disabled keyboard that
      scans, a stale interrupt line, the direction of a checked field, the start-up
      protocol left out of the APIC's snapshot, an acknowledge that ignores
      the vectors in service, lowest-priority delivery without priorities, a
      decimal carry lost by [daa], the least number divided by -1, a helper
      reached natively, a stale jump of a block that modifies itself, a page
      mapped twice in one block, PAE tables above 4 GB, the error code of a
      reserved bit, large pages that escape the A20 gate, the debugger's
      translation with PAE, a device on the cascade input that hides the slave,
      the clock's reinjection count left out of snapshots, the jump of an
      invalidated block to itself, an array of constants cleared beyond its end, reads
      that the read mask of a block does not show).

    ** Not modelled, and plan

    The KLEE engine, STP, the two executors and the plugins are C++ outside this
    development; the bytes of host code, the block layer, the other devices and targets are listed
    in the manifest with reasons.  In [TbMachine], a block is left through an
    exit only while it is in the cache: a block that was invalidated while it
    ran would be chained again by [cpu_exec], and [running_block_reaches_stale]
    shows what else can happen then.  Next: the serial port, and the segment and
    bit-test helpers of the x86 target.  Within the modelled files, the search
    of generated code for a host address (S2E does not use it), run-time sized
    VMState fields, old-style save callbacks, the memory-mapped keyboard controller, the host alarm
    behind [qemu_mod_timer] and the wake-up of another CPU's thread by
    [cpu_interrupt] are left out, and so are the flag [m_canTransferSector] of
    the disk functions, the TLB fill and faults of code fetches
    ([get_phys_addr_code] is a parameter), and devices that lag behind and arm a
    timer for a time that has passed. *)

From Stdlib Require Export ZArith Lia Bool Btauto.
From stdpp Require Export base list numbers option.

#[global] Open Scope Z_scope.

(** ** Results of fallible code *)

(** What stops a run of the modelled code: [hw_error] (prints and aborts),
    a failed [assert], an explicit [abort()], memory that was never written,
    an index outside its array, a null pointer dereferenced, and a loop that
    goes on beyond the bound given for it. *)
Inductive Err :=
| HwError
| AssertFail
| AbortCalled
| Uninitialised
| OutOfBounds
| NullDeref
| Diverges.

Inductive Res (A : Type) :=
| Ok (a : A)
| Fail (e : Err).
Arguments Ok {A} _.
Arguments Fail {A} _.

Definition res_bind {A B : Type} (m : Res A) (k : A -> Res B) : Res B :=
  match m with
  | Ok a => k a
  | Fail e => Fail e
  end.

Declare Scope res_scope.
Delimit Scope res_scope with res.
Notation "'let*' x ':=' m 'in' k" := (res_bind m (fun x => k))
  (at level 10, x pattern, m at level 100, k at level 200) : res_scope.
#[global] Open Scope res_scope.

Lemma res_bind_ok {A B : Type} (m : Res A) (k : A -> Res B) b :
  res_bind m k = Ok b -> exists a, m = Ok a /\ k a = Ok b.
Proof. destruct m; simpl; [eauto | discriminate]. Qed.

(** ** Record update *)

(** [RecordEta R] lists the fields of [R] once; the setter of each field is
    derived from it. *)
Definition eta_pure {R A : Type} (x : A) : R -> A := fun _ => x.
Definition eta_ap {R A B : Type} (f : R -> A -> B) (x : R -> A) : R -> B :=
  fun r => f r (x r).

Class RecordEta (R : Type) := record_eta : R -> R.
Class FieldSetter {R T : Type} (field : R -> T) := MkSetter {
  set_field : (T -> T) -> R -> R
}.
Arguments MkSetter {R T} field _.
Arguments set_field {R T} field {_} _ _ /.

Notation "'fields' mk < f1 ; .. ; fn >" :=
  (eta_ap .. (eta_ap (eta_pure mk) f1) .. fn)
  (at level 0, mk at level 9, f1 at level 9, fn at level 9, only parsing).

Ltac derive_setter field :=
  let R := lazymatch type of field with ?R -> _ => R end in
  let inst := constr:(_ : RecordEta R) in
  let i := eval red in inst in
  let e := eval cbv beta delta [eta_ap eta_pure] in i in
  lazymatch e with
  | context [field] =>
      lazymatch eval pattern field in e with
      | ?upd _ =>
          let u := eval cbv beta in (fun g => upd (fun r => g (field r))) in
          exact (MkSetter field u)
      end
  | _ => fail "not a field of the record"
  end.
#[export] Hint Extern 1 (FieldSetter ?f) => derive_setter f
  : typeclass_instances.

Notation "s <| f := v |>" := (set_field f (fun _ => v) s)
  (at level 1, f at level 9, v at level 99, left associativity,
   format "s <| f  :=  v |>").

(** ** C integers at their width *)

Definition u8 (x : Z) : Z := x mod 2 ^ 8.
Definition u16 (x : Z) : Z := x mod 2 ^ 16.
Definition u32 (x : Z) : Z := x mod 2 ^ 32.
Definition u64 (x : Z) : Z := x mod 2 ^ 64.
Definition s8 (x : Z) : Z := (x + 2 ^ 7) mod 2 ^ 8 - 2 ^ 7.
Definition s16 (x : Z) : Z := (x + 2 ^ 15) mod 2 ^ 16 - 2 ^ 15.
Definition s32 (x : Z) : Z := (x + 2 ^ 31) mod 2 ^ 32 - 2 ^ 31.
Definition s64 (x : Z) : Z := (x + 2 ^ 63) mod 2 ^ 64 - 2 ^ 63.

(** [1 << i] and the tests the code writes with it. *)
Definition BIT (i : Z) : Z := Z.shiftl 1 i.
Definition nz (x : Z) : bool := negb (x =? 0).
Definition b2z (b : bool) : Z := if b then 1 else 0.

Definition range (w x : Z) : Prop := 0 <= x < 2 ^ w.

Lemma u8_range x : range 8 (u8 x).
Proof. apply Z.mod_pos_bound. lia. Qed.
Lemma u16_range x : range 16 (u16 x).
Proof. apply Z.mod_pos_bound. lia. Qed.
Lemma u32_range x : range 32 (u32 x).
Proof. apply Z.mod_pos_bound. lia. Qed.
Lemma u64_range x : range 64 (u64 x).
Proof. apply Z.mod_pos_bound. lia. Qed.
Lemma s32_range x : - 2 ^ 31 <= s32 x < 2 ^ 31.
Proof. unfold s32. pose proof (Z.mod_pos_bound (x + 2 ^ 31) (2 ^ 32)). lia. Qed.
Lemma s64_range x : - 2 ^ 63 <= s64 x < 2 ^ 63.
Proof. unfold s64. pose proof (Z.mod_pos_bound (x + 2 ^ 63) (2 ^ 64)). lia. Qed.

Lemma u8_small x : range 8 x -> u8 x = x.
Proof. apply Z.mod_small. Qed.
Lemma u16_small x : range 16 x -> u16 x = x.
Proof. apply Z.mod_small. Qed.
Lemma u32_small x : range 32 x -> u32 x = x.
Proof. apply Z.mod_small. Qed.
Lemma u64_small x : range 64 x -> u64 x = x.
Proof. apply Z.mod_small. Qed.
Lemma s32_small x : - 2 ^ 31 <= x < 2 ^ 31 -> s32 x = x.
Proof. intros. unfold s32. rewrite Z.mod_small; lia. Qed.
Lemma s64_small x : - 2 ^ 63 <= x < 2 ^ 63 -> s64 x = x.
Proof. intros. unfold s64. rewrite Z.mod_small; lia. Qed.

Lemma s8_u8 v : - 2 ^ 7 <= v < 2 ^ 7 -> s8 (u8 v) = v.
Proof.
  intros. unfold s8, u8. rewrite Z.add_mod_idemp_l by lia. rewrite Z.mod_small; lia.
Qed.
Lemma s16_u16 v : - 2 ^ 15 <= v < 2 ^ 15 -> s16 (u16 v) = v.
Proof.
  intros. unfold s16, u16. rewrite Z.add_mod_idemp_l by lia. rewrite Z.mod_small; lia.
Qed.
Lemma s32_u32 v : - 2 ^ 31 <= v < 2 ^ 31 -> s32 (u32 v) = v.
Proof.
  intros. unfold s32, u32. rewrite Z.add_mod_idemp_l by lia. rewrite Z.mod_small; lia.
Qed.
Lemma s64_u64 v : - 2 ^ 63 <= v < 2 ^ 63 -> s64 (u64 v) = v.
Proof.
  intros. unfold s64, u64. rewrite Z.add_mod_idemp_l by lia. rewrite Z.mod_small; lia.
Qed.

Lemma range_weaken w w' x : 0 <= w <= w' -> range w x -> range w' x.
Proof.
  unfold range. intros. pose proof (Z.pow_le_mono_r 2 w w'). lia.
Qed.

Lemma b2z_range b : range 8 (b2z b).
Proof. destruct b; unfold range; simpl; lia. Qed.

(** ** Bits *)

Lemma testbit_mod_pow2 x w i :
  0 <= w -> Z.testbit (x mod 2 ^ w) i = (i <? w) && Z.testbit x i.
Proof.
  intros Hw. destruct (Z.ltb_spec i w) as [H|H]; simpl.
  - apply Z.mod_pow2_bits_low; lia.
  - apply Z.mod_pow2_bits_high; lia.
Qed.

Lemma testbit_high x w i : range w x -> 0 <= w -> w <= i -> Z.testbit x i = false.
Proof.
  intros Hx Hw Hi. rewrite <- (Z.mod_small x (2 ^ w)) by exact Hx.
  apply Z.mod_pow2_bits_high; lia.
Qed.

Lemma testbit_range x w :
  0 <= w -> 0 <= x -> (forall i, w <= i -> Z.testbit x i = false) -> range w x.
Proof.
  intros Hw Hx Hb. enough (x = x mod 2 ^ w) as ->.
  { apply Z.mod_pos_bound. lia. }
  apply Z.bits_inj'. intros i Hi. rewrite testbit_mod_pow2 by lia.
  destruct (Z.ltb_spec i w); simpl; [done | apply Hb; lia].
Qed.

Lemma nz_b2z (b : bool) : nz (b2z b) = b.
Proof. by destruct b. Qed.

Lemma BIT_testbit i j : 0 <= i -> Z.testbit (BIT i) j = (i =? j).
Proof.
  intros Hi. unfold BIT. rewrite Z.shiftl_1_l.
  destruct (Z.eqb_spec i j) as [->|H].
  - apply Z.pow2_bits_true. lia.
  - apply Z.pow2_bits_false. lia.
Qed.

Lemma BIT_range i w : 0 <= i < w -> range w (BIT i).
Proof.
  intros. unfold BIT, range. rewrite Z.shiftl_1_l.
  pose proof (Z.pow_lt_mono_r 2 i w). pose proof (Z.pow_pos_nonneg 2 i). lia.
Qed.

Lemma land_BIT_nz x i : 0 <= i -> nz (Z.land x (BIT i)) = Z.testbit x i.
Proof.
  intros Hi. unfold nz.
  destruct (Z.eqb_spec (Z.land x (BIT i)) 0) as [E|E]; simpl.
  - symmetry. transitivity (Z.testbit (Z.land x (BIT i)) i).
    + rewrite Z.land_spec, BIT_testbit, Z.eqb_refl by lia. btauto.
    + by rewrite E, Z.bits_0.
  - destruct (Z.testbit x i) eqn:T; [done|]. exfalso. apply E.
    apply Z.bits_inj'. intros j Hj.
    rewrite Z.land_spec, BIT_testbit, Z.bits_0 by lia.
    destruct (Z.eqb_spec i j) as [<-|]; [by rewrite T | btauto].
Qed.

Lemma land_range w x y : 0 <= w -> range w x -> range w (Z.land x y).
Proof.
  intros Hw Hx. apply testbit_range; [done| apply Z.land_nonneg; left; apply Hx |].
  intros i Hi. rewrite Z.land_spec, (testbit_high x w) by done. done.
Qed.

Lemma lor_range w x y : 0 <= w -> range w x -> range w y -> range w (Z.lor x y).
Proof.
  intros Hw Hx Hy. apply testbit_range; [done| apply Z.lor_nonneg; split; [apply Hx|apply Hy] |].
  intros i Hi. by rewrite Z.lor_spec, (testbit_high x w), (testbit_high y w).
Qed.

(** Setting and clearing one bit of a value of width [w]. *)
Lemma set_bit_testbit x i j :
  0 <= i -> Z.testbit (Z.lor x (BIT i)) j = Z.testbit x j || (i =? j).
Proof. intros. by rewrite Z.lor_spec, BIT_testbit. Qed.

Lemma clear_bit_testbit x i j :
  0 <= i -> 0 <= j ->
  Z.testbit (Z.land x (Z.lnot (BIT i))) j = Z.testbit x j && negb (i =? j).
Proof. intros. by rewrite Z.land_spec, Z.lnot_spec, BIT_testbit. Qed.

Lemma low_mask x w : 0 <= w -> Z.land x (2 ^ w - 1) = x mod 2 ^ w.
Proof. intros. rewrite <- Z.land_ones, Z.ones_equiv by lia. f_equal; lia. Qed.

Lemma land_7 x : Z.land x 7 = x mod 8.
Proof. exact (low_mask x 3 ltac:(lia)). Qed.
Lemma land_ff x : Z.land x 255 = x mod 256.
Proof. exact (low_mask x 8 ltac:(lia)). Qed.
Lemma land_ffff x : Z.land x 65535 = x mod 65536.
Proof. exact (low_mask x 16 ltac:(lia)). Qed.

(** [a | b] of values on disjoint bits is a sum. *)
Lemma lor_disjoint_add hi lo w :
  0 <= w -> range w lo -> Z.lor (Z.shiftl hi w) lo = hi * 2 ^ w + lo.
Proof.
  intros Hw Hlo. rewrite <- Z.shiftl_mul_pow2 by lia.
  rewrite <- Z.lxor_lor, Z.add_nocarry_lxor; [done| |];
  (apply Z.bits_inj'; intros j Hj;
   rewrite Z.land_spec, Z.bits_0, Z.shiftl_spec by lia;
   destruct (Z.lt_ge_cases j w);
   [rewrite (Z.testbit_neg_r hi) by lia; done
   |rewrite (testbit_high lo w) by done; btauto]).
Qed.

(** Keep bit operations and width conversions folded under [cbn]. *)
#[global] Arguments Z.testbit : simpl never.
#[global] Arguments Z.land : simpl never.
#[global] Arguments Z.lor : simpl never.
#[global] Arguments Z.lnot : simpl never.
#[global] Arguments Z.shiftl : simpl never.
#[global] Arguments Z.shiftr : simpl never.
#[global] Arguments Z.modulo : simpl never.
#[global] Arguments Z.div : simpl never.
#[global] Arguments Z.pow : simpl never.
#[global] Arguments u8 : simpl never.
#[global] Arguments u16 : simpl never.
#[global] Arguments u32 : simpl never.
#[global] Arguments u64 : simpl never.
#[global] Arguments s8 : simpl never.
#[global] Arguments s16 : simpl never.
#[global] Arguments s32 : simpl never.
#[global] Arguments s64 : simpl never.
#[global] Arguments BIT : simpl never.
#[global] Arguments nz : simpl never.

Create HintDb s2e discriminated.
#[export] Hint Resolve u8_range u16_range u32_range u64_range b2z_range
  land_range lor_range BIT_range : s2e.
#[export] Hint Extern 1 (0 <= _) => lia : s2e.
#[export] Hint Extern 1 (0 <= _ < _) => lia : s2e.
#[export] Hint Extern 2 (range _ _) => (unfold range; lia) : s2e.

(** Case analysis on the outermost boolean test of the goal, with the
    comparison reflected. *)
Ltac bcase :=
  match goal with
  | |- context [if ?b then _ else _] =>
      lazymatch b with
      | context [if _ then _ else _] => fail
      | _ => let E := fresh "E" in destruct b eqn:E
      end
  end.

(** ** Arrays *)

(** [a[i]] and [a[i] = v] on a C array held as a list. *)
Definition aget {A : Type} (d : A) (l : list A) (i : Z) : A :=
  nth (Z.to_nat i) l d.
Definition aset {A : Type} (l : list A) (i : Z) (v : A) : list A :=
  <[Z.to_nat i := v]> l.

Lemma aset_length {A : Type} (l : list A) i v : length (aset l i v) = length l.
Proof. apply length_insert. Qed.

Lemma aget_aset_eq {A : Type} (d : A) l i v :
  0 <= i < Z.of_nat (length l) -> aget d (aset l i v) i = v.
Proof.
  intros Hi. unfold aget, aset. apply nth_lookup_Some.
  rewrite list_lookup_insert_eq by lia. done.
Qed.

Lemma aget_aset_ne {A : Type} (d : A) l i j v :
  0 <= i -> 0 <= j -> i <> j -> aget d (aset l i v) j = aget d l j.
Proof.
  intros Hi Hj Hne. unfold aget, aset.
  rewrite !nth_lookup, list_lookup_insert_ne by lia. done.
Qed.
