(* ===== verification/HostArith.v ===== *)
(** * Wide host arithmetic

    [muldiv64] of src/s2e/qemu/vl.c (the clock-rate conversion every timed
    device uses) and the 64x64->128 products of src/s2e/qemu/host-utils.c.
    A pair of [uint64_t] out-parameters [plow]/[phigh] is a Rocq pair
    [(low, high)]. *)

From S2P Require Import Prelude.

(** ** Definitions *)

(** [muldiv64]: the union [u] splits [a] in 32-bit halves, [res] joins them. *)
Definition muldiv64 (a b c : Z) : Z :=
  let u_low := u32 a in
  let u_high := u32 (Z.shiftr a 32) in
  let rl := u64 (u_low * b) in
  let rh := u64 (u_high * b) in
  let rh := u64 (rh + Z.shiftr rl 32) in
  let res_high := u32 (rh / c) in
  let res_low := u32 (u64 (u64 (Z.shiftl (rh mod c) 32) + Z.land rl 0xffffffff) / c) in
  Z.lor (Z.shiftl res_high 32) res_low.

Definition add128 (plow phigh a b : Z) : Z * Z :=
  let plow := u64 (plow + a) in
  let phigh := if plow <? a then u64 (phigh + 1) else phigh in
  (plow, u64 (phigh + b)).

Definition neg128 (plow phigh : Z) : Z * Z :=
  let plow := u64 (Z.lnot plow) in
  let phigh := u64 (Z.lnot phigh) in
  add128 plow phigh 1 0.

Definition mul64 (a b : Z) : Z * Z :=
  let a0 := u32 a in
  let a1 := u32 (Z.shiftr a 32) in
  let b0 := u32 b in
  let b1 := u32 (Z.shiftr b 32) in
  let v := u64 (a0 * b0) in
  let '(plow, phigh) := (v, 0) in
  let v := u64 (a0 * b1) in
  let '(plow, phigh) := add128 plow phigh (u64 (Z.shiftl v 32)) (Z.shiftr v 32) in
  let v := u64 (a1 * b0) in
  let '(plow, phigh) := add128 plow phigh (u64 (Z.shiftl v 32)) (Z.shiftr v 32) in
  let v := u64 (a1 * b1) in
  (plow, u64 (phigh + v)).

Definition mulu64 (a b : Z) : Z * Z := mul64 a b.

(** [a] and [b] are [int64_t]; the negated values are passed to [mul64] as
    [uint64_t]. *)
Definition muls64 (a b : Z) : Z * Z :=
  let sa := a <? 0 in
  let a := if sa then s64 (- a) else a in
  let sb := b <? 0 in
  let b := if sb then s64 (- b) else b in
  let '(plow, phigh) := mul64 (u64 a) (u64 b) in
  if xorb sa sb then neg128 plow phigh else (plow, phigh).

(** The 128-bit number a [(low, high)] pair stands for. *)
Definition val128 (p : Z * Z) : Z := p.1 + p.2 * 2 ^ 64.

(** ** Lemmas *)

Lemma split32 a : range 64 a ->
  a = u32 (Z.shiftr a 32) * 2 ^ 32 + u32 a /\
  range 32 (u32 (Z.shiftr a 32)) /\ range 32 (u32 a).
Proof.
  intros Ha. split; [|auto with s2e].
  rewrite Z.shiftr_div_pow2 by lia.
  rewrite (u32_small (a / 2 ^ 32)).
  - unfold u32. rewrite Z.mul_comm. apply Z.div_mod. lia.
  - unfold range in *. split; [apply Z.div_pos; lia|].
    apply Z.div_lt_upper_bound; lia.
Qed.

Lemma div_split c rh lo :
  0 < c -> (rh * 2 ^ 32 + lo) / c = rh / c * 2 ^ 32 + ((rh mod c) * 2 ^ 32 + lo) / c.
Proof.
  intros Hc. rewrite (Z.div_mod rh c) at 1 by lia.
  replace ((c * (rh / c) + rh mod c) * 2 ^ 32 + lo)
    with (((rh mod c) * 2 ^ 32 + lo) + (rh / c * 2 ^ 32) * c) by ring.
  rewrite Z.div_add by lia. lia.
Qed.

Lemma muldiv64_spec a b c :
  range 64 a -> range 32 b -> 0 < c < 2 ^ 32 -> muldiv64 a b c = (a * b / c) mod 2 ^ 64.
Proof.
  intros Ha Hb Hc. destruct (split32 a Ha) as (Hsplit & Hh & Hl).
  unfold muldiv64. set (h := u32 (Z.shiftr a 32)) in *. set (l := u32 a) in *.
  unfold range in *.
  assert (Hlb : 0 <= l * b <= (2 ^ 32 - 1) * (2 ^ 32 - 1)) by nia.
  assert (Hhb : 0 <= h * b <= (2 ^ 32 - 1) * (2 ^ 32 - 1)) by nia.
  rewrite (u64_small (l * b)) by (unfold range; lia).
  rewrite (u64_small (h * b)) by (unfold range; lia).
  rewrite Z.shiftr_div_pow2 by lia.
  assert (Hc1 : 0 <= l * b / 2 ^ 32 < 2 ^ 32).
  { split; [apply Z.div_pos; lia|]. apply Z.div_lt_upper_bound; lia. }
  rewrite (u64_small (h * b + _)) by (unfold range; lia).
  set (rh := h * b + l * b / 2 ^ 32).
  change 0xffffffff with (2 ^ 32 - 1). rewrite low_mask by lia.
  set (lo := (l * b) mod 2 ^ 32).
  assert (Hlo : 0 <= lo < 2 ^ 32) by (apply Z.mod_pos_bound; lia).
  assert (Hab : a * b = rh * 2 ^ 32 + lo).
  { unfold rh, lo. rewrite Hsplit at 1. pose proof (Z.div_mod (l * b) (2 ^ 32)). lia. }
  pose proof (Z.mod_pos_bound rh c ltac:(lia)) as Hr.
  rewrite (Z.shiftl_mul_pow2 (rh mod c)) by lia.
  rewrite (u64_small (_ mod c * 2 ^ 32)) by (unfold range; lia).
  rewrite (u64_small (_ + lo)) by (unfold range; lia).
  assert (Hq : 0 <= ((rh mod c) * 2 ^ 32 + lo) / c < 2 ^ 32).
  { split; [apply Z.div_pos; lia|]. apply Z.div_lt_upper_bound; nia. }
  rewrite (u32_small ((_ + lo) / c)) by exact Hq.
  rewrite lor_disjoint_add by (unfold range; lia).
  rewrite Hab, (div_split c rh) by lia. unfold u32.
  set (r := (rh mod c * 2 ^ 32 + lo) / c) in *. set (q := rh / c).
  rewrite (Z.add_comm (q * 2 ^ 32) r).
  change (2 ^ 64) with (2 ^ 32 * 2 ^ 32).
  rewrite Z.rem_mul_r, Z.div_add, Z.mod_add by lia.
  rewrite (Z.div_small r), (Z.mod_small r) by lia. rewrite Z.add_0_l. lia.
Qed.

Lemma muldiv64_exact a b c :
  range 64 a -> range 32 b -> 0 < c < 2 ^ 32 -> a * b / c < 2 ^ 64 ->
  muldiv64 a b c = a * b / c.
Proof.
  intros Ha Hb Hc Hlt. rewrite muldiv64_spec by done. apply Z.mod_small.
  unfold range in *. split; [apply Z.div_pos; nia | lia].
Qed.

Lemma add128_val plow phigh a b :
  range 64 plow -> range 64 phigh -> range 64 a -> range 64 b ->
  val128 (add128 plow phigh a b) =
    (val128 (plow, phigh) + val128 (a, b)) mod 2 ^ 128.
Proof.
  intros Hl Hh Ha Hb. unfold add128, val128, range in *. simpl.
  assert (E : u64 (plow + a) = plow + a - (if plow + a <? 2 ^ 64 then 0 else 2 ^ 64)).
  { unfold u64. destruct (Z.ltb_spec (plow + a) (2 ^ 64)).
    - rewrite Z.mod_small; lia.
    - rewrite <- (Z.mod_small (plow + a - 2 ^ 64) (2 ^ 64)) by lia.
      rewrite <- (Z.mod_add (plow + a - 2 ^ 64) 1) by lia. f_equal. lia. }
  set (cy := if plow + a <? 2 ^ 64 then 0 else 1).
  assert (Ec : (if u64 (plow + a) <? a then u64 (phigh + 1) else phigh) = u64 (phigh + cy)).
  { rewrite E. unfold cy. destruct (Z.ltb_spec (plow + a) (2 ^ 64)); bcase;
      rewrite ?Z.ltb_lt, ?Z.ltb_ge in *; try lia.
    rewrite Z.add_0_r. symmetry. apply u64_small. done. }
  rewrite Ec. unfold u64 at 2 3. rewrite Z.add_mod_idemp_l by lia.
  change (2 ^ 128) with (2 ^ 64 * 2 ^ 64). rewrite Z.rem_mul_r by lia.
  replace (plow + phigh * 2 ^ 64 + (a + b * 2 ^ 64))
    with (u64 (plow + a) + (phigh + cy + b) * 2 ^ 64)
    by (rewrite E; unfold cy; destruct (plow + a <? 2 ^ 64); lia).
  pose proof (u64_range (plow + a)) as Hr. unfold range in Hr.
  rewrite Z.mod_add, Z.div_add, (Z.mod_small (u64 _)), (Z.div_small (u64 _)) by lia.
  rewrite Z.add_0_l. lia.
Qed.

Lemma add128_range plow phigh a b :
  range 64 (add128 plow phigh a b).1 /\ range 64 (add128 plow phigh a b).2.
Proof. unfold add128. simpl. auto with s2e. Qed.

Lemma val128_inj p q :
  range 64 p.1 -> range 64 p.2 -> range 64 q.1 -> range 64 q.2 ->
  val128 p = val128 q -> p = q.
Proof.
  destruct p as [a b], q as [c d]. unfold val128, range. simpl. intros.
  assert (b = d) by lia. subst. f_equal. lia.
Qed.

(** The cross product [v], shifted into the two halves the way [mul64] does. *)
Lemma cross_val v : range 64 v ->
  val128 (u64 (Z.shiftl v 32), Z.shiftr v 32) = v * 2 ^ 32 /\
  range 64 (u64 (Z.shiftl v 32)) /\ range 64 (Z.shiftr v 32).
Proof.
  unfold range. intros Hv. rewrite Z.shiftl_mul_pow2, Z.shiftr_div_pow2 by lia.
  assert (E : (v * 2 ^ 32) mod 2 ^ 64 = (v mod 2 ^ 32) * 2 ^ 32)
    by (change (2 ^ 64) with (2 ^ 32 * 2 ^ 32); apply Z.mul_mod_distr_r; lia).
  assert (0 <= v / 2 ^ 32 < 2 ^ 32)
    by (split; [apply Z.div_pos | apply Z.div_lt_upper_bound]; lia).
  split; [|split; [apply u64_range | lia]].
  unfold val128, u64. simpl fst. simpl snd. rewrite E.
  pose proof (Z.div_mod v (2 ^ 32)). lia.
Qed.

(** One accumulation step of [mul64] that does not overflow 128 bits. *)
Lemma add_cross plow phigh v acc :
  range 64 plow -> range 64 phigh -> range 64 v ->
  val128 (plow, phigh) = acc -> acc + v * 2 ^ 32 < 2 ^ 128 ->
  val128 (add128 plow phigh (u64 (Z.shiftl v 32)) (Z.shiftr v 32)) = acc + v * 2 ^ 32.
Proof.
  intros Hl Hh Hv <- Hlt. destruct (cross_val v Hv) as (V & X & Y).
  rewrite add128_val, V by done. apply Z.mod_small.
  unfold val128, range in *. simpl in *. lia.
Qed.

Lemma mul64_val a b : range 64 a -> range 64 b ->
  val128 (mul64 a b) = a * b /\ range 64 (mul64 a b).1 /\ range 64 (mul64 a b).2.
Proof.
  intros Ha Hb.
  destruct (split32 a Ha) as (Ea & Ha1 & Ha0). destruct (split32 b Hb) as (Eb & Hb1 & Hb0).
  unfold mul64. set (a1 := u32 (Z.shiftr a 32)) in *. set (a0 := u32 a) in *.
  set (b1 := u32 (Z.shiftr b 32)) in *. set (b0 := u32 b) in *.
  assert (Hp : forall x y, range 32 x -> range 32 y ->
    range 64 (x * y) /\ x * y <= (2 ^ 32 - 1) * (2 ^ 32 - 1)) by (unfold range; nia).
  destruct (Hp a0 b0) as [R00 L00], (Hp a0 b1) as [R01 L01],
    (Hp a1 b0) as [R10 L10], (Hp a1 b1) as [R11 L11]; try done.
  rewrite (u64_small (a0 * b0)), (u64_small (a0 * b1)), (u64_small (a1 * b0)),
    (u64_small (a1 * b1)) by done.
  pose proof (add_cross (a0 * b0) 0 (a0 * b1) (a0 * b0) R00 ltac:(unfold range; lia) R01
    ltac:(unfold val128; simpl; lia) ltac:(lia)) as S1.
  pose proof (add128_range (a0 * b0) 0 (u64 (Z.shiftl (a0 * b1) 32)) (Z.shiftr (a0 * b1) 32))
    as [Q1 Q1'].
  destruct (add128 (a0 * b0) 0 _ _) as [l1 h1]. simpl in Q1, Q1'.
  pose proof (add_cross l1 h1 (a1 * b0) _ Q1 Q1' R10 S1 ltac:(lia)) as S2.
  pose proof (add128_range l1 h1 (u64 (Z.shiftl (a1 * b0) 32)) (Z.shiftr (a1 * b0) 32))
    as [Q2 Q2'].
  destruct (add128 l1 h1 _ _) as [l2 h2]. simpl in Q2, Q2'.
  split; [|simpl; auto with s2e].
  unfold val128 in *. simpl fst in *. simpl snd in *. unfold range in *.
  assert (a * b = a0 * b0 + a0 * b1 * 2 ^ 32 + a1 * b0 * 2 ^ 32 + a1 * b1 * 2 ^ 64)
    by (rewrite Ea, Eb; ring).
  assert (a * b < 2 ^ 128) by (change (2 ^ 128) with (2 ^ 64 * 2 ^ 64); nia).
  rewrite u64_small by (unfold range; lia). lia.
Qed.

Lemma neg128_val plow phigh : range 64 plow -> range 64 phigh ->
  val128 (neg128 plow phigh) = (- val128 (plow, phigh)) mod 2 ^ 128.
Proof.
  intros Hl Hh. unfold neg128.
  assert (E : forall x, range 64 x -> u64 (Z.lnot x) = 2 ^ 64 - 1 - x).
  { unfold range. intros x Hx. unfold u64, Z.lnot.
    rewrite <- (Z.mod_add _ 1), Z.mod_small; lia. }
  rewrite !E by done. unfold range in *.
  rewrite add128_val by (unfold range; lia). unfold val128. simpl fst. simpl snd.
  rewrite <- (Z.mod_add (- _) 1) by lia. f_equal. lia.
Qed.

(** The two's complement bit pattern of a signed product. *)
Lemma muls64_val a b :
  - 2 ^ 63 <= a < 2 ^ 63 -> - 2 ^ 63 <= b < 2 ^ 63 ->
  val128 (muls64 a b) = (a * b) mod 2 ^ 128.
Proof.
  intros Ha Hb.
  assert (Habs : forall x, - 2 ^ 63 <= x < 2 ^ 63 ->
    u64 (if x <? 0 then s64 (- x) else x) = Z.abs x).
  { intros x Hx. destruct (Z.ltb_spec x 0); [|rewrite u64_small; unfold range; lia].
    destruct (Z.eq_dec x (- 2 ^ 63)) as [->|]; [reflexivity|].
    rewrite s64_small, u64_small by (unfold range; lia). lia. }
  unfold muls64. rewrite !Habs by done.
  destruct (mul64_val (Z.abs a) (Z.abs b)) as (V & R1 & R2); [unfold range; lia..|].
  destruct (mul64 (Z.abs a) (Z.abs b)) as [l h]. simpl in R1, R2.
  destruct (Z.ltb_spec a 0), (Z.ltb_spec b 0); simpl xorb; cbv iota;
    rewrite ?neg128_val, V by done; try (f_equal; nia);
    symmetry; rewrite Z.mod_small; nia.
Qed.

(** ** The two routines *)

(** C34: the clock-rate conversion is exact.  For a 64-bit [a], a 32-bit [b] and a
    non-zero 32-bit [c], the four 64-bit divisions and multiplications of
    [muldiv64] compute the low 64 bits of [a * b / c], where the product is
    the full 96-bit one; when the quotient fits 64 bits it is the quotient. *)
Theorem muldiv64_correct a b c :
  range 64 a -> range 32 b -> 0 < c < 2 ^ 32 ->
  muldiv64 a b c = (a * b / c) mod 2 ^ 64 /\
  (a * b / c < 2 ^ 64 -> muldiv64 a b c = a * b / c).
Proof. eauto using muldiv64_spec, muldiv64_exact. Qed.

Lemma muldiv64_correct_witness :
  muldiv64 (2 ^ 63 + 12345) 1193182 1000000000 =
    ((2 ^ 63 + 12345) * 1193182 / 1000000000) mod 2 ^ 64.
Proof. refine (proj1 (muldiv64_correct _ _ _ _ _ _)); unfold range; lia. Defined.

(** [mulu64] gives the full 128-bit product of two [uint64_t] in its two
    out-parameters, and [muls64] the two's complement 128-bit product of any
    two [int64_t], the most negative one included. *)
Theorem mul64_correct a b :
  range 64 a -> range 64 b ->
  val128 (mulu64 a b) = a * b /\
  val128 (muls64 (s64 a) (s64 b)) = (s64 a * s64 b) mod 2 ^ 128.
Proof.
  intros Ha Hb. split; [by apply mul64_val|]. apply muls64_val; apply s64_range.
Qed.

Lemma mul64_correct_witness :
  val128 (mulu64 (2 ^ 64 - 1) (2 ^ 63)) = (2 ^ 64 - 1) * 2 ^ 63 /\
  val128 (muls64 (- 2 ^ 63) (- 2 ^ 63)) = 2 ^ 126.
Proof.
  split; [apply (mul64_correct (2 ^ 64 - 1) (2 ^ 63)); unfold range; lia|].
  apply (mul64_correct (2 ^ 63) (2 ^ 63)); unfold range; lia.
Defined.
