(* ===== verification/BitScan.v ===== *)
(** * Bit scans

    The leading and trailing zero counts of src/s2e/qemu/host-utils.h, in
    their portable form (the binary searches used when the compiler has no
    builtin).  The local APIC finds its highest priority vector with them. *)

From S2P Require Import Prelude.

(** ** Definitions *)

Definition clz32 (val : Z) : Z :=
  let '(cnt, val) :=
    if Z.land val 0xFFFF0000 =? 0 then (16, u32 (Z.shiftl val 16)) else (0, val) in
  let '(cnt, val) :=
    if Z.land val 0xFF000000 =? 0 then (cnt + 8, u32 (Z.shiftl val 8)) else (cnt, val) in
  let '(cnt, val) :=
    if Z.land val 0xF0000000 =? 0 then (cnt + 4, u32 (Z.shiftl val 4)) else (cnt, val) in
  let '(cnt, val) :=
    if Z.land val 0xC0000000 =? 0 then (cnt + 2, u32 (Z.shiftl val 2)) else (cnt, val) in
  let '(cnt, val) :=
    if Z.land val 0x80000000 =? 0 then (cnt + 1, u32 (Z.shiftl val 1)) else (cnt, val) in
  if Z.land val 0x80000000 =? 0 then cnt + 1 else cnt.

Definition clo32 (val : Z) : Z := clz32 (u32 (Z.lnot val)).

Definition clz64 (val : Z) : Z :=
  let '(cnt, val) := if Z.shiftr val 32 =? 0 then (32, val) else (0, Z.shiftr val 32) in
  cnt + clz32 (u32 val).

Definition clo64 (val : Z) : Z := clz64 (u64 (Z.lnot val)).

Definition ctz32 (val : Z) : Z :=
  let '(cnt, val) :=
    if Z.land val 0x0000FFFF =? 0 then (16, Z.shiftr val 16) else (0, val) in
  let '(cnt, val) :=
    if Z.land val 0x000000FF =? 0 then (cnt + 8, Z.shiftr val 8) else (cnt, val) in
  let '(cnt, val) :=
    if Z.land val 0x0000000F =? 0 then (cnt + 4, Z.shiftr val 4) else (cnt, val) in
  let '(cnt, val) :=
    if Z.land val 0x00000003 =? 0 then (cnt + 2, Z.shiftr val 2) else (cnt, val) in
  let '(cnt, val) :=
    if Z.land val 0x00000001 =? 0 then (cnt + 1, Z.shiftr val 1) else (cnt, val) in
  if Z.land val 0x00000001 =? 0 then cnt + 1 else cnt.

Definition cto32 (val : Z) : Z := ctz32 (u32 (Z.lnot val)).

Definition ctz64 (val : Z) : Z :=
  let '(cnt, val) := if u32 val =? 0 then (32, Z.shiftr val 32) else (0, val) in
  cnt + ctz32 (u32 val).

Definition cto64 (val : Z) : Z := ctz64 (u64 (Z.lnot val)).

(** ** Leading zeros *)

Lemma top_mask val k :
  range 32 val -> 0 <= k <= 32 -> (Z.land val (2 ^ 32 - 2 ^ k) =? 0) = (val <? 2 ^ k).
Proof.
  intros Hv Hk.
  replace (2 ^ 32 - 2 ^ k) with (Z.shiftl (Z.ones (32 - k)) k).
  2: { rewrite Z.shiftl_mul_pow2, Z.ones_equiv by lia. unfold Z.pred.
       replace (2 ^ 32) with (2 ^ (32 - k) * 2 ^ k) by (rewrite <- Z.pow_add_r by lia; f_equal; lia).
       lia. }
  assert (E : Z.land val (Z.shiftl (Z.ones (32 - k)) k) = (val / 2 ^ k) mod 2 ^ (32 - k) * 2 ^ k).
  { rewrite <- Z.land_ones, <- Z.shiftr_div_pow2, <- Z.shiftl_mul_pow2, Z.shiftl_land by lia.
    apply Z.bits_inj'. intros i Hi. rewrite !Z.land_spec, !Z.shiftl_spec by lia.
    destruct (Z.lt_ge_cases i k); [rewrite !(Z.testbit_neg_r _ (i - k)) by lia; btauto|].
    rewrite Z.shiftr_spec by lia. by replace (i - k + k) with i by lia. }
  rewrite E. unfold range in Hv. pose proof (Z.pow_pos_nonneg 2 k).
  assert (H2 : 2 ^ 32 = 2 ^ (32 - k) * 2 ^ k) by (rewrite <- Z.pow_add_r by lia; f_equal; lia).
  assert (0 <= val / 2 ^ k < 2 ^ (32 - k))
    by (split; [apply Z.div_pos | apply Z.div_lt_upper_bound]; lia).
  rewrite Z.mod_small by lia.
  destruct (Z.ltb_spec val (2 ^ k)).
  - rewrite Z.div_small by lia. done.
  - apply Z.eqb_neq. pose proof (Z.div_str_pos val (2 ^ k)). nia.
Qed.

(** One step of the search: with [k = 32 - n], shifts by [n] unless one of the
    top [n] bits is set.  [x] is the number scanned, [b] a lower bound. *)
Lemma clz_step x cnt val n :
  0 < n <= 16 -> 0 < x -> val = x * 2 ^ cnt -> 0 <= cnt -> range 32 val -> 2 ^ (32 - 2 * n) <= val ->
  let p := if Z.land val (2 ^ 32 - 2 ^ (32 - n)) =? 0
           then (cnt + n, u32 (Z.shiftl val n)) else (cnt, val) in
  p.2 = x * 2 ^ p.1 /\ 0 <= p.1 /\ range 32 p.2 /\ 2 ^ (32 - n) <= p.2.
Proof.
  intros Hn Hx Hv Hc Hr Hb. rewrite top_mask by (done || lia).
  assert (H1 : 2 ^ 32 = 2 ^ (32 - n) * 2 ^ n) by (rewrite <- Z.pow_add_r by lia; f_equal; lia).
  assert (H2 : 2 ^ (32 - n) = 2 ^ (32 - 2 * n) * 2 ^ n)
    by (rewrite <- Z.pow_add_r by lia; f_equal; lia).
  unfold range in *. destruct (Z.ltb_spec val (2 ^ (32 - n))); cbn; [|lia].
  pose proof (Z.pow_pos_nonneg 2 n). rewrite Z.shiftl_mul_pow2 by lia.
  rewrite u32_small by (unfold range; nia).
  split; [rewrite Hv, Z.pow_add_r by lia; ring|]. split; [lia|]. split; nia.
Qed.

(** Feeds the facts [H] about one round (an instance of a step lemma) to the
    goal, whose mask [m] is a literal. *)
Ltac scan_round H m :=
  cbv zeta in H; let lit := eval compute in m in change m with lit in H;
  match type of H with context [if ?t then ?a else ?b] =>
    let c := fresh "c" in let v := fresh "v" in
    destruct (if t then a else b) as [c v]; cbn [fst snd] in H;
    destruct H as (? & ? & ? & ?)
  end.
Ltac clz_round n :=
  match goal with
  | E : ?v = ?x * 2 ^ ?c, C : 0 <= ?c, R : range 32 ?v, B : _ <= ?v |- _ =>
      let H := fresh "H" in
      pose proof (clz_step x c v n ltac:(lia) ltac:(lia) E C R B) as H; clear E C R B;
      scan_round H constr:(2 ^ 32 - 2 ^ (32 - n))
  end.

Lemma clz32_log2 val : 0 < val < 2 ^ 32 -> clz32 val = 31 - Z.log2 val.
Proof.
  intros Hv. unfold clz32.
  assert (E : val = val * 2 ^ 0) by lia. assert (C : 0 <= 0) by lia.
  assert (R : range 32 val) by (unfold range; lia).
  assert (B : 2 ^ (32 - 2 * 16) <= val) by (change (2 ^ (32 - 2 * 16)) with 1; lia).
  pose proof (clz_step val 0 val 16 ltac:(lia) ltac:(lia) E C R B) as H. clear E C R B.
  change (0 + 16) with 16 in H.
  scan_round H constr:(2 ^ 32 - 2 ^ (32 - 16)).
  clz_round 8. clz_round 4. clz_round 2. clz_round 1.
  match goal with E : ?v = val * 2 ^ ?c, R : range 32 ?v |- _ =>
    change 0x80000000 with (2 ^ 32 - 2 ^ (32 - 1)); rewrite (top_mask v) by (done || lia);
    destruct (Z.ltb_spec v (2 ^ (32 - 1))); [lia|];
    assert (L : Z.log2 v = 31) by (apply Z.log2_unique; [lia | unfold range in R; lia]);
    rewrite E, Z.log2_mul_pow2 in L by lia
  end. lia.
Qed.

(** ** Trailing zeros *)

Lemma ctz_step x cnt val n :
  0 < n <= 16 -> x = val * 2 ^ cnt -> 0 <= cnt -> 0 < val -> val mod 2 ^ (2 * n) <> 0 ->
  let p := if Z.land val (2 ^ n - 1) =? 0 then (cnt + n, Z.shiftr val n) else (cnt, val) in
  x = p.2 * 2 ^ p.1 /\ 0 <= p.1 /\ 0 < p.2 /\ p.2 mod 2 ^ n <> 0.
Proof.
  intros Hn Hx Hc Hv Hm. rewrite low_mask by lia. pose proof (Z.pow_pos_nonneg 2 n).
  destruct (Z.eqb_spec (val mod 2 ^ n) 0) as [E|E]; cbn; [|done].
  rewrite Z.shiftr_div_pow2 by lia. pose proof (Z.div_mod val (2 ^ n) ltac:(lia)) as D.
  split; [rewrite Hx, Z.pow_add_r by lia; nia|]. split; [lia|]. split; [nia|].
  intros Z0. apply Hm. replace (2 * n) with (n + n) by lia. rewrite Z.pow_add_r by lia.
  rewrite Z.rem_mul_r, E, Z0 by lia. lia.
Qed.

Ltac ctz_round n :=
  match goal with
  | E : ?x = ?v * 2 ^ ?c, C : 0 <= ?c, R : 0 < ?v, B : ?v mod _ <> 0 |- _ =>
      let H := fresh "H" in
      pose proof (ctz_step x c v n ltac:(lia) E C R B) as H; clear E C R B;
      scan_round H constr:(2 ^ n - 1)
  end.

Lemma ctz32_spec val : 0 < val < 2 ^ 32 ->
  0 <= ctz32 val /\ exists q, val = q * 2 ^ ctz32 val /\ q mod 2 = 1.
Proof.
  intros Hv. unfold ctz32.
  assert (E : val = val * 2 ^ 0) by lia. assert (C : 0 <= 0) by lia.
  assert (B : val mod 2 ^ (2 * 16) <> 0) by (rewrite Z.mod_small; lia).
  pose proof (ctz_step val 0 val 16 ltac:(lia) E C (proj1 Hv) B) as H. clear E C B.
  change (0 + 16) with 16 in H.
  scan_round H constr:(2 ^ 16 - 1).
  ctz_round 8. ctz_round 4. ctz_round 2. ctz_round 1.
  match goal with E : val = ?v * 2 ^ ?c |- _ =>
    change 0x00000001 with (2 ^ 1 - 1); rewrite (low_mask v) by lia;
    destruct (Z.eqb_spec (v mod 2 ^ 1) 0); [done|];
    split; [done|]; exists v; split; [done|]; pose proof (Z.mod_pos_bound v 2 ltac:(lia))
  end.
  change (2 ^ 1) with 2 in *. lia.
Qed.

Lemma ctz32_testbit val : 0 < val < 2 ^ 32 ->
  0 <= ctz32 val < 32 /\ Z.testbit val (ctz32 val) = true /\
  forall i, 0 <= i < ctz32 val -> Z.testbit val i = false.
Proof.
  intros Hv. destruct (ctz32_spec val Hv) as (H0 & q & E & Hq). set (c := ctz32 val) in *.
  assert (T : Z.testbit val c = true).
  { rewrite E, Z.mul_pow2_bits by lia. rewrite Z.sub_diag.
    apply Z.b2z_inj. by rewrite Z.bit0_mod. }
  split; [|split; [done|]].
  - split; [done|]. destruct (Z.lt_ge_cases c 32); [done|].
    rewrite (testbit_high val 32) in T; [done | unfold range; lia | lia | lia].
  - intros i Hi. rewrite E. apply Z.mul_pow2_bits_low. lia.
Qed.

Lemma clz32_testbit val : 0 < val < 2 ^ 32 ->
  0 <= 31 - clz32 val < 32 /\ Z.testbit val (31 - clz32 val) = true /\
  forall i, 31 - clz32 val < i -> Z.testbit val i = false.
Proof.
  intros Hv. rewrite clz32_log2 by done. replace (31 - (31 - Z.log2 val)) with (Z.log2 val) by lia.
  split; [|split].
  - split; [apply Z.log2_nonneg | apply Z.log2_lt_pow2; lia].
  - apply Z.bit_log2. lia.
  - intros i Hi. apply Z.bits_above_log2; lia.
Qed.

Lemma clz64_log2 val : 0 < val < 2 ^ 64 -> clz64 val = 63 - Z.log2 val.
Proof.
  intros Hv. unfold clz64. pose proof (Z.log2_nonneg val).
  destruct (Z.eqb_spec (Z.shiftr val 32) 0) as [E|E].
  - assert (val < 2 ^ 32).
    { rewrite Z.shiftr_div_pow2 in E by lia. apply Z.div_small_iff in E; lia. }
    rewrite u32_small, clz32_log2 by (unfold range; lia). lia.
  - assert (Hs : 0 < Z.shiftr val 32 < 2 ^ 32).
    { rewrite Z.shiftr_div_pow2 in * by lia. pose proof (Z.div_pos val (2 ^ 32)).
      split; [lia | apply Z.div_lt_upper_bound; lia]. }
    rewrite u32_small, clz32_log2 by (unfold range; lia).
    rewrite Z.log2_shiftr by lia.
    assert (32 <= Z.log2 val).
    { apply Z.log2_le_pow2; [lia|]. rewrite Z.shiftr_div_pow2 in Hs by lia.
      destruct (Z.lt_ge_cases val (2 ^ 32)); [|done]. rewrite Z.div_small in Hs; lia. }
    lia.
Qed.

(** The portable bit scans agree with what they name.  For a non-zero
    [uint32_t], [31 - clz32] is the position of the highest set bit and [ctz32]
    that of the lowest; for a non-zero [uint64_t] [63 - clz64] is the highest;
    on zero they return the width. *)
Theorem bit_scans_correct :
  (forall val, 0 < val < 2 ^ 32 ->
     (0 <= 31 - clz32 val < 32 /\ Z.testbit val (31 - clz32 val) = true /\
      forall i, 31 - clz32 val < i -> Z.testbit val i = false) /\
     (0 <= ctz32 val < 32 /\ Z.testbit val (ctz32 val) = true /\
      forall i, 0 <= i < ctz32 val -> Z.testbit val i = false)) /\
  (forall val, 0 < val < 2 ^ 64 -> clz64 val = 63 - Z.log2 val) /\
  clz32 0 = 32 /\ ctz32 0 = 32 /\ clz64 0 = 64.
Proof.
  split; [|split; [exact clz64_log2 | done]].
  intros val Hv. split; [by apply clz32_testbit | by apply ctz32_testbit].
Qed.

Lemma bit_scans_correct_witness :
  Z.testbit 0x00f0a000 (31 - clz32 0x00f0a000) = true /\ 31 - clz32 0x00f0a000 = 23 /\
  Z.testbit 0x00f0a000 (ctz32 0x00f0a000) = true /\ ctz32 0x00f0a000 = 13.
Proof.
  destruct bit_scans_correct as [H _]. destruct (H 0x00f0a000 ltac:(lia)) as [(_ & T & _) (_ & U & _)].
  repeat split; done.
Defined.
