(* ===== verification/Timers.v ===== *)
(** * The active-timer list

    [qemu_del_timer], [qemu_mod_timer], [qemu_timer_pending],
    [qemu_timer_expired] and [qemu_run_timers] of src/s2e/qemu/vl.c.  The
    linked list [active_timers[clock->type]] is a list of pairs (identity of
    the [QEMUTimer], its [expire_time]).  A device model elsewhere in the
    development keeps, for each timer it owns, only [option Z] (the pending
    expiry); [TimerView] is that abstraction and the lemmas [*_view] justify
    it.  The host alarm that [qemu_mod_timer] may re-arm is not modelled. *)

From S2P Require Import Prelude.

Definition QEMUTimer : Type := nat * Z.

(** ** Operations *)

(** Unlinks the first node that is [ts]. *)
Fixpoint qemu_del_timer (ts : nat) (l : list QEMUTimer) : list QEMUTimer :=
  match l with
  | [] => []
  | t :: next => if Nat.eqb t.1 ts then next else t :: qemu_del_timer ts next
  end.

(** The sorted insertion loop of [qemu_mod_timer]. *)
Fixpoint insert_timer (ts : nat) (expire_time : Z) (l : list QEMUTimer)
    : list QEMUTimer :=
  match l with
  | [] => [(ts, expire_time)]
  | t :: next =>
      if expire_time <? t.2 then (ts, expire_time) :: t :: next
      else t :: insert_timer ts expire_time next
  end.

Definition qemu_mod_timer (ts : nat) (expire_time : Z) (l : list QEMUTimer)
    : list QEMUTimer :=
  insert_timer ts expire_time (qemu_del_timer ts l).

Fixpoint qemu_timer_pending (ts : nat) (l : list QEMUTimer) : bool :=
  match l with
  | [] => false
  | t :: next => if Nat.eqb t.1 ts then true else qemu_timer_pending ts next
  end.

Definition qemu_timer_expired (timer_head : option QEMUTimer) (current_time : Z)
    : bool :=
  match timer_head with
  | None => false
  | Some t => t.2 <=? current_time
  end.

(** [qemu_run_timers]: the callback of timer [i] may change the list, so it
    is a function [cb i] on it.  [None] is "out of fuel"; otherwise the
    timers fired, in order, and the final list. *)
Fixpoint qemu_run_timers (fuel : nat) (cb : nat -> list QEMUTimer -> list QEMUTimer)
    (l : list QEMUTimer) (current_time : Z) : option (list nat * list QEMUTimer) :=
  match fuel with
  | O => None
  | S fuel =>
      match l with
      | [] => Some ([], l)
      | ts :: next =>
          if current_time <? ts.2 then Some ([], l)
          else
            match qemu_run_timers fuel cb (cb ts.1 next) current_time with
            | None => None
            | Some (fired, l') => Some (ts.1 :: fired, l')
            end
      end
  end.

(** ** The abstract view and the list invariant *)

Definition TimerView : Type := nat -> option Z.

Fixpoint view (l : list QEMUTimer) : TimerView := fun ts =>
  match l with
  | [] => None
  | t :: next => if Nat.eqb t.1 ts then Some t.2 else view next ts
  end.

Fixpoint sorted_from (lo : Z) (l : list QEMUTimer) : Prop :=
  match l with
  | [] => True
  | t :: next => lo <= t.2 /\ sorted_from t.2 next
  end.

Record timers_ok (l : list QEMUTimer) : Prop := {
  ok_sorted : match l with [] => True | t :: next => sorted_from t.2 next end;
  ok_nodup : NoDup (map fst l)
}.

(** ** Lemmas *)

Lemma sorted_from_weaken lo lo' l : lo' <= lo -> sorted_from lo l -> sorted_from lo' l.
Proof. destruct l; simpl; [done | intros ? []; split; [lia | done]]. Qed.

Lemma sorted_iff l : 
  match l with [] => True | t :: next => sorted_from t.2 next end <->
  exists lo, sorted_from lo l.
Proof.
  destruct l as [|t l]; simpl; split; eauto.
  - by exists 0.
  - intros. exists t.2. split; [lia | done].
  - intros [lo [_ H]]. done.
Qed.

Lemma del_sorted lo ts l : sorted_from lo l -> sorted_from lo (qemu_del_timer ts l).
Proof.
  revert lo. induction l as [|t l IH]; intros lo; simpl; [done|].
  intros [H1 H2]. destruct (Nat.eqb t.1 ts); [by apply (sorted_from_weaken t.2)|].
  simpl. auto.
Qed.

Lemma insert_sorted lo ts e l :
  lo <= e -> sorted_from lo l -> sorted_from lo (insert_timer ts e l).
Proof.
  revert lo. induction l as [|t l IH]; intros lo He; simpl; [lia|].
  intros [H1 H2]. destruct (Z.ltb_spec e t.2); simpl; repeat split; try lia; auto.
Qed.

Lemma insert_ids ts e l : map fst (insert_timer ts e l) ≡ₚ ts :: map fst l.
Proof.
  induction l as [|t l IH]; simpl; [done|].
  destruct (e <? t.2); simpl; [done|]. rewrite IH. apply Permutation_swap.
Qed.

Lemma del_ids_subset ts l i : i ∈ map fst (qemu_del_timer ts l) -> i ∈ map fst l.
Proof.
  induction l as [|t l IH]; simpl; [done|].
  destruct (Nat.eqb t.1 ts); simpl; rewrite ?elem_of_cons; tauto.
Qed.

Lemma del_nodup ts l :
  NoDup (map fst l) ->
  NoDup (map fst (qemu_del_timer ts l)) /\ ts ∉ map fst (qemu_del_timer ts l).
Proof.
  induction l as [|t l IH]; simpl; intros H; [split; [done | apply not_elem_of_nil]|].
  apply list.NoDup_cons in H as [Hni Hnd]. destruct (IH Hnd) as [IH1 IH2].
  destruct (Nat.eqb_spec t.1 ts) as [<-|Hne]; [done|]. simpl. split.
  - apply list.NoDup_cons. split; [|done]. intros Hin. by apply Hni, (del_ids_subset ts).
  - rewrite not_elem_of_cons. split; congruence.
Qed.

Lemma view_notin ts l : ts ∉ map fst l -> view l ts = None.
Proof.
  induction l as [|t l IH]; simpl; [done|].
  rewrite not_elem_of_cons. intros [H1 H2].
  destruct (Nat.eqb_spec t.1 ts); [congruence | auto].
Qed.

Lemma insert_view ts e l j :
  ts ∉ map fst l -> view (insert_timer ts e l) j = if Nat.eqb ts j then Some e else view l j.
Proof.
  induction l as [|t l IH]; simpl; [done|].
  rewrite not_elem_of_cons. intros [H1 H2].
  destruct (e <? t.2); simpl; [done|]. rewrite IH by done.
  destruct (Nat.eqb_spec t.1 j), (Nat.eqb_spec ts j); congruence.
Qed.

Lemma del_view ts l j :
  NoDup (map fst l) ->
  view (qemu_del_timer ts l) j = if Nat.eqb ts j then None else view l j.
Proof.
  induction l as [|t l IH]; simpl; intros H; [by destruct (Nat.eqb ts j)|].
  apply list.NoDup_cons in H as [Hni Hnd].
  destruct (Nat.eqb_spec t.1 ts) as [<-|Hne]; simpl.
  - destruct (Nat.eqb_spec t.1 j) as [E|E]; [rewrite <- E; by apply view_notin | done].
  - rewrite IH by done.
    destruct (Nat.eqb_spec t.1 j), (Nat.eqb_spec ts j); congruence.
Qed.

Lemma pending_view ts l : qemu_timer_pending ts l = bool_decide (is_Some (view l ts)).
Proof.
  induction l as [|t l IH]; simpl; [done|].
  by destruct (Nat.eqb t.1 ts); [|rewrite IH].
Qed.

Lemma del_timer_ok ts l : timers_ok l -> timers_ok (qemu_del_timer ts l).
Proof.
  intros [Hs Hn]. split; [|by apply del_nodup].
  apply sorted_iff. apply sorted_iff in Hs as [lo Hs]. eauto using del_sorted.
Qed.

Lemma mod_timer_ok ts e l : timers_ok l -> timers_ok (qemu_mod_timer ts e l).
Proof.
  intros [Hs Hn]. destruct (del_nodup ts l Hn) as [Hd Hni]. unfold qemu_mod_timer. split.
  - apply sorted_iff. apply sorted_iff in Hs as [lo Hs].
    exists (Z.min lo e). apply insert_sorted; [lia|].
    apply (sorted_from_weaken lo); [lia | by apply del_sorted].
  - rewrite insert_ids. by apply list.NoDup_cons.
Qed.

Lemma mod_timer_view ts e l j :
  timers_ok l ->
  view (qemu_mod_timer ts e l) j = if Nat.eqb ts j then Some e else view l j.
Proof.
  intros [_ Hn]. destruct (del_nodup ts l Hn) as [_ Hni].
  unfold qemu_mod_timer. rewrite insert_view, del_view by done. by destruct (Nat.eqb ts j).
Qed.

(** ** Running timers *)

Definition expired (now : Z) (l : list QEMUTimer) : list QEMUTimer :=
  List.filter (fun t => t.2 <=? now) l.

Lemma expired_sorted_later now lo l : now < lo -> sorted_from lo l -> expired now l = [].
Proof.
  revert lo. induction l as [|t l IH]; intros lo Hlo; simpl; [done|].
  intros [H1 H2]. destruct (Z.leb_spec t.2 now); [lia|]. apply (IH t.2); [lia|done].
Qed.

Lemma expired_insert now ts e l :
  now < e -> expired now (insert_timer ts e l) = expired now l.
Proof.
  intros He. induction l as [|t l IH]; simpl.
  - by destruct (Z.leb_spec e now); [lia|].
  - destruct (e <? t.2); simpl; [by destruct (Z.leb_spec e now); [lia|] | by rewrite IH].
Qed.

Lemma del_notin ts l : ts ∉ map fst l -> qemu_del_timer ts l = l.
Proof.
  induction l as [|t l IH]; simpl; [done|]. rewrite not_elem_of_cons. intros [H1 H2].
  destruct (Nat.eqb_spec t.1 ts); [congruence|]. by rewrite IH.
Qed.

Lemma ok_tail t l : timers_ok (t :: l) -> timers_ok l /\ t.1 ∉ map fst l.
Proof.
  intros [Hs Hn]. simpl in *. apply list.NoDup_cons in Hn as [Hni Hn]. repeat split; try done.
  apply sorted_iff. eauto.
Qed.

(** ** The timer interface *)

(** What a device does with its timers. *)
Inductive TimerOp :=
| ModTimer (ts : nat) (expire_time : Z)
| DelTimer (ts : nat).

Definition timer_op (l : list QEMUTimer) (op : TimerOp) : list QEMUTimer :=
  match op with
  | ModTimer ts e => qemu_mod_timer ts e l
  | DelTimer ts => qemu_del_timer ts l
  end.

(** The same on the abstract view: one optional deadline for each timer. *)
Definition view_op (v : TimerView) (op : TimerOp) : TimerView := fun j =>
  match op with
  | ModTimer ts e => if Nat.eqb ts j then Some e else v j
  | DelTimer ts => if Nat.eqb ts j then None else v j
  end.

Lemma timer_op_ok l op :
  timers_ok l -> timers_ok (timer_op l op) /\
  forall v, (forall j, view l j = v j) -> forall j, view (timer_op l op) j = view_op v op j.
Proof.
  intros Hok. destruct op as [ts e|ts]; cbn; split; intros.
  - by apply mod_timer_ok.
  - rewrite mod_timer_view by done. by destruct (Nat.eqb ts j).
  - by apply del_timer_ok.
  - rewrite del_view by apply Hok. by destruct (Nat.eqb ts j).
Qed.

Lemma timer_ops_refine ops l v :
  timers_ok l -> (forall j, view l j = v j) ->
  timers_ok (foldl timer_op l ops) /\
  forall j, view (foldl timer_op l ops) j = foldl view_op v ops j.
Proof.
  revert l v. induction ops as [|op ops IH]; intros l v Hok Hv; [done|].
  destruct (timer_op_ok l op Hok) as [Hok' Hv']. apply IH; auto.
Qed.

(** ** Callbacks *)

(** A callback arms and cancels timers, its own and others, and arms none for a
    time that has passed. *)
Definition op_timer (op : TimerOp) : nat := match op with ModTimer ts _ | DelTimer ts => ts end.
Definition later (now : Z) (op : TimerOp) : Prop := match op with ModTimer _ e => now < e | DelTimer _ => True end.
Definition untouched (ops : list TimerOp) (t : QEMUTimer) : bool := negb (existsb (fun op => Nat.eqb (op_timer op) t.1) ops).

Lemma del_filter ts l : NoDup (map fst l) -> qemu_del_timer ts l = List.filter (fun t => negb (Nat.eqb ts t.1)) l.
Proof.
  induction l as [|t l IH]; simpl; intros H; [done|]. apply list.NoDup_cons in H as [Hni Hnd]. rewrite (Nat.eqb_sym ts t.1).
  destruct (Nat.eqb_spec t.1 ts) as [<-|]; simpl; [|by rewrite IH]. rewrite <- IH, del_notin by done. done.
Qed.
Lemma filter_twice {A} (f g : A -> bool) l : List.filter f (List.filter g l) = List.filter (fun x => g x && f x) l.
Proof. induction l as [|x l IH]; simpl; [done|]. destruct (g x); simpl; [|done]. by destruct (f x); rewrite IH. Qed.
Lemma filter_same {A} (f g : A -> bool) l : (forall x, f x = g x) -> List.filter f l = List.filter g l.
Proof. intros H. induction l as [|x l IH]; simpl; [done|]. by rewrite H, IH. Qed.

Lemma op_expired now op l : timers_ok l -> later now op -> expired now (timer_op l op) = List.filter (untouched [op]) (expired now l).
Proof.
  intros [_ Hn] L. assert (E : expired now (qemu_del_timer (op_timer op) l) = List.filter (untouched [op]) (expired now l)).
  { rewrite del_filter by done. unfold expired. rewrite !filter_twice. apply filter_same. intros t. unfold untouched. cbn. rewrite orb_false_r. apply andb_comm. }
  destruct op as [ts e|ts]; cbn [timer_op op_timer later] in *; [|done]. unfold qemu_mod_timer. by rewrite expired_insert.
Qed.
Lemma ops_expired now ops l : timers_ok l -> Forall (later now) ops ->
  timers_ok (foldl timer_op l ops) /\ expired now (foldl timer_op l ops) = List.filter (untouched ops) (expired now l).
Proof.
  revert l. induction ops as [|op ops IH]; intros l Hok H; cbn [foldl].
  - split; [done|]. induction (expired now l) as [|t x IHx]; [done|]. cbn. by rewrite <- IHx.
  - apply list.Forall_cons in H as [H1 H2]. destruct (timer_op_ok l op Hok) as [Hok' _]. destruct (IH _ Hok' H2) as [H3 ->]. split; [done|].
    rewrite op_expired by done. rewrite filter_twice. apply filter_same. intros t. unfold untouched. cbn. by rewrite orb_false_r, negb_orb.
Qed.

Lemma filter_sublist {A} (f : A -> bool) l : List.filter f l `sublist_of` l.
Proof. induction l as [|x l IH]; simpl; [done|]. destruct (f x); by constructor. Qed.
Lemma fst_sublist (l k : list QEMUTimer) : l `sublist_of` k -> map fst l `sublist_of` map fst k.
Proof. intros H. by apply (fmap_sublist fst). Qed.

Section Pass.
Context (ops : nat -> list QEMUTimer -> list TimerOp) (now : Z) (Hops : forall i l, Forall (later now) (ops i l)).
Notation cb := (fun i l => foldl timer_op l (ops i l)).

Lemma run_timers_spec l n : timers_ok l -> (length (expired now l) < n)%nat ->
  exists fired l', qemu_run_timers n cb l now = Some (fired, l') /\
    fired `sublist_of` map fst (expired now l) /\
    (forall ts, ts ∈ map fst (expired now l) -> ts ∈ fired \/ exists i l0, i ∈ fired /\ ts ∈ map op_timer (ops i l0)) /\
    timers_ok l' /\ expired now l' = [] /\ qemu_timer_expired (head l') now = false.
Proof.
  revert l. induction n as [|n IH]; intros l Hok Hn; [lia|].
  destruct l as [|t l]; simpl; [exists [], []; split_and!; try done; by intros ? ?%elem_of_nil|].
  destruct (ok_tail t l Hok) as [Hok' Hni]. simpl in Hn. destruct (Z.ltb_spec now t.2) as [Hlt|Hge].
  - assert (E : expired now l = []) by (apply (expired_sorted_later now t.2); [lia | apply (ok_sorted _ Hok)]).
    exists [], (t :: l). simpl. rewrite E. destruct (Z.leb_spec t.2 now); [lia|]. split_and!; try done; by intros ? ?%elem_of_nil.
  - destruct (Z.leb_spec t.2 now); [|lia]. simpl in Hn. destruct (ops_expired now (ops t.1 l) l Hok' (Hops _ _)) as [Hok2 E2].
    pose proof (filter_sublist (untouched (ops t.1 l)) (expired now l)) as Sub. rewrite <- E2 in Sub.
    destruct (IH _ Hok2) as (fired & l' & R & S & T & O); [apply sublist_length in Sub; lia|].
    exists (t.1 :: fired), l'. rewrite R. split; [done|]. split; [cbn; constructor; etrans; [exact S | by apply fst_sublist]|]. split; [|done].
    intros ts Hts. cbn in Hts. apply elem_of_cons in Hts as [->|Hts]; [left; by left|].
    destruct (decide (ts ∈ map op_timer (ops t.1 l))) as [Hc|Hc]; [right; exists t.1, l; split; [by left | done]|].
    destruct (T ts) as [?|(i & l0 & Hi & Ht)]; [|left; by right | right; exists i, l0; split; [by right | done]].
    change (map fst ?x) with (fst <$> x) in *. rewrite E2. apply list_elem_of_fmap in Hts as (u & -> & Hu). apply list_elem_of_fmap. exists u. split; [done|].
    apply list_elem_of_In, filter_In. split; [by apply list_elem_of_In|]. unfold untouched. apply negb_true_iff, not_true_iff_false. intros (op & Hop & Eo)%existsb_exists.
    apply Hc. apply Nat.eqb_eq in Eo. rewrite <- Eo. apply list_elem_of_In, in_map, Hop.
Qed.
End Pass.

Lemma view_above lo l j e : sorted_from lo l -> view l j = Some e -> lo <= e.
Proof.
  revert lo. induction l as [|t l IH]; intros lo; cbn; [done|]. intros [H1 H2].
  destruct (Nat.eqb t.1 j); [by intros [= <-]|]. intros E. specialize (IH _ H2 E). lia.
Qed.

(** C35: the sorted list implements one deadline per timer.  After any sequence
    of [qemu_mod_timer] and [qemu_del_timer] on the empty list, a timer is on
    the list exactly when it was armed last, with the deadline of that call;
    [qemu_timer_pending] tells which; no timer is linked twice; and the head,
    the only node [qemu_timer_expired] looks at, has expired exactly when some
    timer has. *)
Theorem timer_list_refines (ops : list TimerOp) :
  let l := foldl timer_op [] ops in
  let v := foldl view_op (fun _ => None) ops in
  timers_ok l /\
  (forall ts, view l ts = v ts) /\
  (forall ts, qemu_timer_pending ts l = bool_decide (is_Some (v ts))) /\
  (forall now, qemu_timer_expired (head l) now = true <->
     exists ts e, v ts = Some e /\ e <= now).
Proof.
  intros l v. destruct (timer_ops_refine ops [] (fun _ => None)) as [Hok Hv]; [|done|].
  { split; [done | constructor]. }
  fold l v in Hok, Hv. split; [done|]. split; [done|]. split.
  { intros ts. by rewrite pending_view, Hv. }
  intros now. setoid_rewrite <- Hv. destruct Hok as [Hs _].
  destruct l as [|t l']; cbn; [split; [done | by intros (?&?&?&?)]|]. rewrite Z.leb_le. split.
  - intros H. exists t.1, t.2. by rewrite Nat.eqb_refl.
  - intros (ts & e & E & He). destruct (Nat.eqb t.1 ts); [injection E; lia|].
    pose proof (view_above _ _ _ _ Hs E). lia.
Qed.


