(* ===== verification/DevState.v ===== *)
(** * S2E's per-state snapshot buffer and disk overlay

    The [S2EDeviceState] class of src/s2e/qemu/s2e/S2EDeviceState.cpp: the
    growable byte buffer in which the devices of an execution state are
    saved when S2E switches states, and the chain of sector maps that makes
    disk writes private to a state.

    The buffer's bytes are [option Z]: [None] is memory [malloc]/[realloc]
    returned and nobody wrote.  [malloc] and [realloc] are taken to succeed
    (the code calls [exit] otherwise). *)

From stdpp Require Import gmap.
From S2P Require Import Prelude.

(** ** The interface the save/load code is written against

    [qemu_put_byte], [qemu_put_buffer], [qemu_get_byte] and
    [qemu_get_buffer] forward to the current device state when
    [s2e_dev_snapshot_enable] is set. *)

Class ByteStream (F : Type) := {
  put_byte : F -> Z -> F;
  put_buffer : F -> list Z -> F;
  get_byte : F -> Res (Z * F);
  get_buffer : F -> Z -> Res (list Z * F)
}.

(** What a stream promises: [written f l] says the bytes [l] were put since
    the last rewind, [reading f l] that [l] are the bytes left to read.
    [stream_cap] bounds the size for which the promise is made. *)
Class ByteStreamLaws (F : Type) `{!ByteStream F} := {
  written : F -> list Z -> Prop;
  reading : F -> list Z -> Prop;
  stream_cap : Z;
  put_byte_written f l b :
    written f l -> Z.of_nat (length l) + 1 <= stream_cap ->
    written (put_byte f b) (l ++ [u8 b]);
  put_buffer_written f l bs :
    written f l -> Forall (range 8) bs ->
    Z.of_nat (length l) + Z.of_nat (length bs) <= stream_cap ->
    written (put_buffer f bs) (l ++ bs);
  get_byte_reading f b l :
    reading f (b :: l) -> exists f', get_byte f = Ok (b, f') /\ reading f' l;
  get_buffer_reading f bs l :
    reading f (bs ++ l) ->
    exists f', get_buffer f (Z.of_nat (length bs)) = Ok (bs, f') /\ reading f' l
}.

Module Buffer.

Record S2EDeviceState := mkDeviceState {
  m_State : option (list (option Z));
  m_StateSize : Z;
  m_Offset : Z
}.
#[export] Instance S2EDeviceState_eta : RecordEta S2EDeviceState :=
  fields mkDeviceState < m_State ; m_StateSize ; m_Offset >.

(** [realloc] keeps the common prefix; new bytes are unwritten. *)
Definition realloc (buf : list (option Z)) (size : Z) : list (option Z) :=
  resize (Z.to_nat size) None buf.

Definition AllocateBuffer (d : S2EDeviceState) (Sz : Z) : S2EDeviceState :=
  match m_State d with
  | None =>
      let NewSize := if Sz <? 256 then 256 else Sz in
      mkDeviceState (Some (replicate (Z.to_nat NewSize) None)) NewSize 0
  | Some buf =>
      if m_StateSize d <=? u32 (m_Offset d + Sz) then
        let NewSize := if Sz <? 256 then 256 else Sz in
        let size := u32 (m_StateSize d + NewSize) in
        d <| m_StateSize := size |> <| m_State := Some (realloc buf size) |>
      else d
  end.

(** [realloc(m_State, 0)] returns NULL, and the buffer is left as it is. *)
Definition ShrinkBuffer (d : S2EDeviceState) : S2EDeviceState :=
  if negb (m_Offset d =? m_StateSize d) then
    match m_State d with
    | Some buf =>
        if m_Offset d =? 0 then d
        else d <| m_State := Some (realloc buf (m_Offset d)) |>
               <| m_StateSize := m_Offset d |>
    | None => d
    end
  else d.

(** [memcpy(&m_State[m_Offset], bs, ..)]. *)
Definition poke (d : S2EDeviceState) (bs : list Z) : S2EDeviceState :=
  match m_State d with
  | Some buf =>
      d <| m_State := Some (list_inserts (Z.to_nat (m_Offset d)) (Some <$> bs) buf) |>
        <| m_Offset := u32 (m_Offset d + Z.of_nat (length bs)) |>
  | None => d
  end.

Definition PutByte (d : S2EDeviceState) (v : Z) : S2EDeviceState :=
  let d := AllocateBuffer d 1 in
  poke d [u8 v].

Definition PutBuffer (d : S2EDeviceState) (buf : list Z) : S2EDeviceState :=
  let d := AllocateBuffer d (Z.of_nat (length buf)) in
  poke d buf.

(** [memcpy] out of the buffer: reading a byte nobody wrote is an error. *)
Definition peek (d : S2EDeviceState) (n : Z) : Res (list Z) :=
  match m_State d with
  | None => Fail Uninitialised
  | Some buf =>
      match mapM id (take (Z.to_nat n) (drop (Z.to_nat (m_Offset d)) buf)) with
      | Some bs => Ok bs
      | None => Fail Uninitialised
      end
  end.

Definition GetByte (d : S2EDeviceState) : Res (Z * S2EDeviceState) :=
  if u32 (m_Offset d + 1) <=? m_StateSize d then
    let* bs := peek d 1 in
    Ok (hd 0 bs, d <| m_Offset := u32 (m_Offset d + 1) |>)
  else Fail AssertFail.

Definition GetBuffer (d : S2EDeviceState) (size1 : Z) : Res (list Z * S2EDeviceState) :=
  if u32 (m_Offset d + size1) <=? m_StateSize d then
    let* bs := peek d size1 in
    Ok (bs, d <| m_Offset := u32 (m_Offset d + size1) |>)
  else Fail AssertFail.

(** The start of [saveDeviceState] and of [restoreDeviceState]. *)
Definition rewind (d : S2EDeviceState) : S2EDeviceState := d <| m_Offset := 0 |>.

#[export] Instance device_state_stream : ByteStream S2EDeviceState := {
  put_byte := PutByte;
  put_buffer := PutBuffer;
  get_byte := GetByte;
  get_buffer := GetBuffer
}.

(** ** The buffer holds what was put *)

(** The write-mode invariant: [l] fills the buffer up to [m_Offset], and the
    buffer is at most 256 bytes (or the last request) ahead. *)
Definition written (d : S2EDeviceState) (l : list Z) : Prop :=
  match m_State d with
  | None => l = []
  | Some buf =>
      m_Offset d = Z.of_nat (length l) /\
      m_StateSize d = Z.of_nat (length buf) /\
      m_StateSize d < 2 ^ 31 /\
      (exists tail, buf = (Some <$> l) ++ tail)
  end.

Definition reading (d : S2EDeviceState) (l : list Z) : Prop :=
  match m_State d with
  | None => False
  | Some buf =>
      m_StateSize d = Z.of_nat (length buf) /\ m_StateSize d < 2 ^ 31 /\
      0 <= m_Offset d /\
      m_Offset d + Z.of_nat (length l) <= m_StateSize d /\
      (exists tail, drop (Z.to_nat (m_Offset d)) buf = (Some <$> l) ++ tail)
  end.

Definition cap : Z := 2 ^ 29.

(** [AllocateBuffer] makes room for [Sz] bytes and keeps what was written;
    [m_Offset] is left in range. *)
Lemma AllocateBuffer_room d l Sz :
  written d l -> 0 <= Sz -> Z.of_nat (length l) + Sz <= cap ->
  exists buf, m_State (AllocateBuffer d Sz) = Some buf /\
    written (AllocateBuffer d Sz) l /\
    Z.of_nat (length l) + Sz <= Z.of_nat (length buf).
Proof.
  unfold cap. intros Hw HSz Hcap. unfold AllocateBuffer, written in *.
  destruct (m_State d) as [buf|] eqn:Ebuf.
  - destruct Hw as (Ho & Hs & Hlt & tail & Etail).
    rewrite u32_small by (unfold range; lia).
    destruct (Z.leb_spec (m_StateSize d) (m_Offset d + Sz)) as [Hle|Hgt].
    + set (NewSize := if Sz <? 256 then 256 else Sz).
      assert (0 <= NewSize <= 2 ^ 29 /\ Sz <= NewSize)
        by (unfold NewSize; destruct (Z.ltb_spec Sz 256); lia).
      assert (length l <= length buf)%nat by (rewrite Etail, length_app, length_fmap; lia).
      rewrite u32_small by (unfold range; lia).
      cbn. eexists. split; [done|]. unfold realloc. rewrite length_resize, Ho.
      repeat split; try lia.
      rewrite resize_ge by lia. rewrite Etail. eexists. by rewrite <- (assoc_L (++)).
    + exists buf. rewrite Ebuf. repeat split; eauto; lia.
  - subst l. cbn. eexists. split; [done|].
    rewrite length_replicate.
    assert (0 <= (if Sz <? 256 then 256 else Sz) <= 2 ^ 29 /\ Sz <= (if Sz <? 256 then 256 else Sz))
      by (destruct (Z.ltb_spec Sz 256); lia).
    repeat split; try lia. by eexists.
Qed.

Lemma poke_written d buf l bs :
  m_State d = Some buf -> written d l ->
  Z.of_nat (length l) + Z.of_nat (length bs) <= Z.of_nat (length buf) ->
  written (poke d bs) (l ++ bs).
Proof.
  intros Ebuf Hw Hroom. unfold written, poke in *. rewrite Ebuf in *. cbn.
  destruct Hw as (Ho & Hs & Hlt & tail & Etail).
  assert (Hle : (length bs <= length tail)%nat)
    by (rewrite Etail, length_app, length_fmap in Hroom; lia).
  rewrite Ho, u32_small by (unfold range; lia). rewrite Nat2Z.id, length_inserts, length_app.
  repeat split; try lia. exists (drop (length bs) tail).
  rewrite Etail, fmap_app, <- (assoc_L (++)).
  replace (length l) with (length (Some <$> l) + 0)%nat by (rewrite length_fmap; lia).
  rewrite list_inserts_app_r. f_equal.
  rewrite <- (take_drop (length bs) tail) at 1.
  apply list_inserts_0_r. rewrite length_fmap, length_take. lia.
Qed.

Lemma mapM_id_fmap (l : list Z) : mapM id (Some <$> l) = Some l.
Proof. induction l as [|x l IH]; [done|]. cbn in *. by rewrite IH. Qed.

Lemma peek_reading d bs l :
  reading d (bs ++ l) -> peek d (Z.of_nat (length bs)) = Ok bs.
Proof.
  unfold reading, peek. destruct (m_State d) as [buf|]; [|done].
  intros (Hs & Hlt & Ho & Hle & tail & Etail). rewrite Etail, Nat2Z.id.
  rewrite fmap_app, <- (assoc_L (++)), take_app_length' by by rewrite length_fmap.
  by rewrite mapM_id_fmap.
Qed.

Lemma advance_reading d bs l :
  reading d (bs ++ l) ->
  u32 (m_Offset d + Z.of_nat (length bs)) <= m_StateSize d /\
  reading (d <| m_Offset := u32 (m_Offset d + Z.of_nat (length bs)) |>) l.
Proof.
  unfold reading. cbn. destruct (m_State d) as [buf|]; [|done].
  intros (Hs & Hlt & Ho & Hle & tail & Etail). rewrite length_app in Hle.
  rewrite u32_small by (unfold range; lia).
  repeat split; try lia. exists tail.
  rewrite Z2Nat.inj_add, <- drop_drop, Etail, Nat2Z.id by lia.
  rewrite fmap_app, <- (assoc_L (++)). apply drop_app_length'. by rewrite length_fmap.
Qed.

#[export] Program Instance device_state_stream_laws : ByteStreamLaws S2EDeviceState := {
  written := written;
  reading := reading;
  stream_cap := cap
}.
Next Obligation.
  intros d l b Hw Hcap. cbn. unfold PutByte.
  destruct (AllocateBuffer_room d l 1 Hw) as (buf & E & W & R); [lia..|].
  by apply (poke_written _ buf).
Qed.
Next Obligation.
  intros d l bs Hw _ Hcap. cbn. unfold PutBuffer.
  destruct (AllocateBuffer_room d l (Z.of_nat (length bs)) Hw) as (buf & E & W & R); [lia..|].
  by apply (poke_written _ buf).
Qed.
Next Obligation.
  intros d b l Hr. cbn. unfold GetByte.
  pose proof (peek_reading d [b] l Hr) as P. change (Z.of_nat (length [b])) with 1 in P.
  destruct (advance_reading d [b] l Hr) as [A B]. change (Z.of_nat (length [b])) with 1 in *.
  apply Z.leb_le in A. rewrite A, P. cbn. eauto.
Qed.
Next Obligation.
  intros d bs l Hr. cbn. unfold GetBuffer.
  destruct (advance_reading d bs l Hr) as [A B]. apply Z.leb_le in A.
  rewrite A, (peek_reading d bs l Hr). cbn. eauto.
Qed.

(** A fresh state (after [clone]) is ready to be written. *)
Lemma written_fresh size off : written (mkDeviceState None size off) [].
Proof. done. Qed.

(** Rewinding a written state, as [saveDeviceState] does before it saves
    again, starts an empty write session. *)
Lemma written_rewind d l : written d l -> written (rewind d) [].
Proof.
  unfold written. cbn. destruct (m_State d); [|done].
  intros (? & ? & ? & tail & ->). repeat split; try done. by eexists.
Qed.

(** After [ShrinkBuffer] and a rewind the bytes are there to be read, and the
    buffer is exactly as long as what was written. *)
Lemma shrink_reading d l :
  written d l -> l <> [] ->
  reading (rewind (ShrinkBuffer d)) l /\ m_StateSize (ShrinkBuffer d) = Z.of_nat (length l).
Proof.
  unfold written, ShrinkBuffer. intros Hw Hl. destruct (m_State d) as [buf|] eqn:Ebuf; [|done].
  destruct Hw as (Ho & Hs & Hlt & tail & Etail).
  assert (0 < m_Offset d) by (destruct l; [done | simpl in Ho; lia]).
  assert (length l <= length buf)%nat by (rewrite Etail, length_app, length_fmap; lia).
  destruct (Z.eqb_spec (m_Offset d) (m_StateSize d)) as [E|E]; cbn.
  - split; [|congruence]. unfold reading. cbn. rewrite Ebuf. repeat split; try lia.
    exists tail. done.
  - destruct (Z.eqb_spec (m_Offset d) 0); [lia|]. cbn. split; [|done].
    unfold reading. cbn. unfold realloc. rewrite length_resize, Ho, Nat2Z.id.
    repeat split; try lia. exists []. rewrite drop_0.
    rewrite resize_le, Etail by lia. rewrite take_app_le by by rewrite length_fmap.
    rewrite take_ge by (rewrite length_fmap; lia). by rewrite (right_id_L [] (++)).
Qed.

End Buffer.

(** ** The copy-on-write disk of an execution state *)

Module Disk.

Section Disk.

(** Block devices are compared by identity; a sector's 512 bytes are one
    value. *)
Context {Sector : Type}.

Notation SectorMap := (gmap Z Sector).
Notation BlockDevices := (gmap nat (gmap Z Sector)).

(** A device state with the states its [m_Parent] links reach, nearest first. *)
Notation Chain := (list (gmap nat (gmap Z Sector))).

(** [m_BlockDevices[bs]]: [std::map::operator[]] makes an empty entry. *)
Definition sectors_of (d : BlockDevices) (bs : nat) : SectorMap := default ∅ (d !! bs).

Fixpoint write_loop (dev : SectorMap) (i : Z) (buf : list Sector) : SectorMap :=
  match buf with
  | [] => dev
  | sec :: buf => write_loop (<[i := sec]> dev) (i + 1) buf
  end.

(** [writeSector]: [buf] has the [nb_sectors] sectors to write. *)
Definition writeSector (c : Chain) (bs : nat) (sector : Z) (buf : list Sector) : Chain :=
  match c with
  | [] => []
  | this :: parents => <[bs := write_loop (sectors_of this bs) sector buf]> this :: parents
  end.

(** The inner loop over [curState->m_Parent]. *)
Fixpoint find_sector (c : Chain) (bs : nat) (i : Z) : option Sector :=
  match c with
  | [] => None
  | curState :: parents =>
      match sectors_of curState bs !! i with
      | Some sec => Some sec
      | None => find_sector parents bs i
      end
  end.

(** [readSector].  [fb] reads one sector of the original disk (a negative
    error or the sector); [buf] is the caller's buffer and [pos] how far the
    [buf] pointer has moved.  As in the code, [hasRead] is initialised once,
    before the loop. *)
Fixpoint read_loop (c : Chain) (bs : nat) (fb : nat -> Z -> Z + Sector)
    (n : nat) (i : Z) (pos : nat) (hasRead : bool) (buf : list Sector)
    : Z * list Sector :=
  match n with
  | O => (0, buf)
  | S n =>
      let '(buf, pos, hasRead) :=
        match find_sector c bs i with
        | Some sec => (<[pos := sec]> buf, S pos, true)
        | None => (buf, pos, hasRead)
        end in
      if negb hasRead then
        match fb bs i with
        | inl err => (err, buf)
        | inr sec => read_loop c bs fb n (i + 1) (S pos) false (<[pos := sec]> buf)
        end
      else read_loop c bs fb n (i + 1) pos hasRead buf
  end.

Definition readSector (c : Chain) (bs : nat) (sector : Z) (nb_sectors : nat)
    (fb : nat -> Z -> Z + Sector) (buf : list Sector) : Z * list Sector :=
  read_loop c bs fb nb_sectors sector 0 false buf.

(** ** The states of an exploration

    [S2EDeviceState] objects are shared through [m_Parent] by every state
    forked from them: they live in a store, and an object is its index. *)

Record DiskState := mkDisk {
  m_BlockDevices : BlockDevices;
  m_Parent : option nat
}.

Notation Store := (list DiskState).

(** The list that following [m_Parent] from [this] visits; parents are older
    than their children ([parents_older]), so [this] steps are enough. *)
Fixpoint chain_of (fuel : nat) (st : Store) (this : nat) : Chain :=
  match fuel, st !! this with
  | S fuel, Some s =>
      m_BlockDevices s :: match m_Parent s with Some p => chain_of fuel st p | None => [] end
  | _, _ => []
  end.

Definition chain (st : Store) (this : nat) : Chain := chain_of (S this) st this.

(** [clone]: two new objects without sectors, children of [this]. *)
Definition clone (st : Store) (this : nat) : Store * nat * nat :=
  (st ++ [mkDisk ∅ (Some this); mkDisk ∅ (Some this)], length st, S (length st)).

(** [this->writeSector(bs, sector, buf, nb_sectors)] on the object. *)
Definition write_state (this : nat) (st : Store) (w : nat * Z * list Sector) : Store :=
  let '(bs, sector, buf) := w in
  match st !! this with
  | Some s =>
      <[this := mkDisk (<[bs := write_loop (sectors_of (m_BlockDevices s) bs) sector buf]>
                          (m_BlockDevices s)) (m_Parent s)]> st
  | None => st
  end.

(** ** Specification: what a state sees of sector [i] *)

(** The newest copy of the sector in the chain. *)
Definition newest (c : Chain) (bs : nat) (i : Z) : option Sector :=
  head (omap (fun d => sectors_of d bs !! i) c).

Definition visible (c : Chain) (bs : nat) (fb : nat -> Z -> Z + Sector) (i : Z) : Z + Sector :=
  from_option inr (fb bs i) (newest c bs i).

Lemma find_newest c bs i : find_sector c bs i = newest c bs i.
Proof.
  unfold newest. induction c as [|d c IH]; cbn; [done|].
  destruct (sectors_of d bs !! i); [done | exact IH].
Qed.

Lemma write_loop_lookup dev i buf j :
  write_loop dev i buf !! j =
    if bool_decide (i <= j < i + Z.of_nat (length buf))
    then buf !! Z.to_nat (j - i) else dev !! j.
Proof.
  revert dev i. induction buf as [|sec buf IH]; intros dev i; cbn [write_loop length].
  - rewrite bool_decide_false by lia. done.
  - rewrite IH. destruct (decide (i = j)) as [->|Hne].
    + rewrite bool_decide_false by lia. rewrite bool_decide_true by lia.
      rewrite lookup_insert_eq, Z.sub_diag. done.
    + rewrite lookup_insert_ne by done. repeat case_bool_decide; try lia; [|done].
      replace (Z.to_nat (j - i)) with (S (Z.to_nat (j - (i + 1)))) by lia. done.
Qed.

Lemma find_writeSector c bs sector buf j :
  c <> [] ->
  find_sector (writeSector c bs sector buf) bs j =
    if bool_decide (sector <= j < sector + Z.of_nat (length buf))
    then buf !! Z.to_nat (j - sector) else find_sector c bs j.
Proof.
  destruct c as [|this parents]; [done|]. intros _. cbn.
  unfold sectors_of at 1. rewrite lookup_insert_eq. cbn. rewrite write_loop_lookup.
  case_bool_decide as H; [|done].
  destruct (lookup_lt_is_Some_2 buf (Z.to_nat (j - sector))) as [x ->]; [lia|done].
Qed.

Lemma find_writeSector_other c bs bs' sector buf j :
  bs <> bs' -> find_sector (writeSector c bs sector buf) bs' j = find_sector c bs' j.
Proof.
  intros Hne. destruct c as [|this parents]; [done|]. cbn.
  unfold sectors_of at 1 3. by rewrite lookup_insert_ne.
Qed.

(** Every sector of the request is in the overlay. *)
Lemma read_loop_hits c bs fb n i pos h buf secs :
  length secs = n ->
  (forall k sec, secs !! k = Some sec -> find_sector c bs (i + Z.of_nat k) = Some sec) ->
  length buf = (pos + n)%nat ->
  read_loop c bs fb n i pos h buf = (0, take pos buf ++ secs).
Proof.
  revert i pos h buf secs. induction n as [|n IH]; intros i pos h buf secs Hl Hf Hb.
  - destruct secs; [|done]. cbn. rewrite (right_id_L [] (++)), take_ge by lia. done.
  - destruct secs as [|sec secs]; [done|]. cbn [read_loop].
    pose proof (Hf 0%nat sec eq_refl) as H0. rewrite Z.add_0_r in H0. rewrite H0.
    cbn [negb]. rewrite (IH (i + 1) (S pos) true _ secs).
    + f_equal. rewrite (take_S_r _ _ sec), take_insert_ge, <- (assoc_L (++)) by
        (try apply list_lookup_insert_eq; lia). done.
    + by injection Hl.
    + intros k s Hk. rewrite <- (Hf (S k) s Hk). f_equal. lia.
    + rewrite length_insert. lia.
Qed.

Lemma read_loop_prefix c bs fb n i pos buf secs :
  length secs = n -> length buf = (pos + n)%nat ->
  (forall k sec, secs !! k = Some sec -> visible c bs fb (i + Z.of_nat k) = inr sec) ->
  (forall j k, (j <= k < n)%nat -> is_Some (newest c bs (i + Z.of_nat j)) ->
     is_Some (newest c bs (i + Z.of_nat k))) ->
  read_loop c bs fb n i pos false buf = (0, take pos buf ++ secs).
Proof.
  revert i pos buf secs. induction n as [|n IH]; intros i pos buf secs Hl Hb Hv Hm.
  { destruct secs; [|done]. cbn. rewrite (right_id_L [] (++)), take_ge by lia. done. }
  destruct secs as [|sec secs]; [done|].
  destruct (newest c bs i) as [sec'|] eqn:E0.
  - apply read_loop_hits; try done. intros k s Hk.
    assert (Hs : is_Some (newest c bs (i + Z.of_nat k))).
    { apply (Hm 0%nat k); [apply lookup_lt_Some in Hk; lia|]. rewrite Z.add_0_r, E0. eauto. }
    specialize (Hv k s Hk). unfold visible in Hv. destruct Hs as [x Hx].
    rewrite find_newest. rewrite Hx in *. cbn in Hv. congruence.
  - cbn [read_loop]. rewrite find_newest, E0. cbn [negb].
    pose proof (Hv 0%nat sec eq_refl) as H0. rewrite Z.add_0_r in H0.
    unfold visible in H0. rewrite E0 in H0. cbn in H0. rewrite H0.
    rewrite (IH (i + 1) (S pos) _ secs).
    + f_equal. rewrite (take_S_r _ _ sec), take_insert_ge, <- (assoc_L (++)) by
        (try apply list_lookup_insert_eq; lia). done.
    + by injection Hl.
    + rewrite length_insert. lia.
    + intros k s Hk. rewrite <- (Hv (S k) s Hk). f_equal. lia.
    + intros j k Hjk Hj. specialize (Hm (S j) (S k) ltac:(lia)).
      replace (i + 1 + Z.of_nat k) with (i + Z.of_nat (S k)) by lia. apply Hm.
      replace (i + Z.of_nat (S j)) with (i + 1 + Z.of_nat j) by lia. done.
Qed.

Lemma visible_empty c bs fb i : visible (∅ :: c) bs fb i = visible c bs fb i.
Proof. unfold visible, newest, sectors_of. cbn. by rewrite lookup_empty. Qed.

(** *** Chains in the store *)

Definition parents_older (st : Store) : Prop :=
  forall i s p, st !! i = Some s -> m_Parent s = Some p -> (p < i)%nat.

Lemma chain_of_agree st st' fuel fuel' x :
  parents_older st -> (forall y, (y <= x)%nat -> st !! y = st' !! y) ->
  (x < fuel)%nat -> (x < fuel')%nat -> chain_of fuel st x = chain_of fuel' st' x.
Proof.
  intros Hp. revert fuel' x. induction fuel as [|fuel IH]; intros [|fuel'] x Ha Hf Hf'; [lia..|].
  cbn. rewrite <- Ha by lia. destruct (st !! x) as [s|] eqn:E; [|done]. f_equal.
  destruct (m_Parent s) as [p|] eqn:Ep; [|done]. specialize (Hp x s p E Ep).
  apply IH; [intros; apply Ha; lia | lia | lia].
Qed.

Lemma chain_agree st st' x :
  parents_older st -> (forall y, (y <= x)%nat -> st !! y = st' !! y) -> chain st x = chain st' x.
Proof. intros Hp Ha. apply chain_of_agree; [done | done | lia | lia]. Qed.

Lemma chain_cons st x s :
  parents_older st -> st !! x = Some s ->
  chain st x = m_BlockDevices s :: match m_Parent s with Some p => chain st p | None => [] end.
Proof.
  intros Hp E. unfold chain at 1. cbn [chain_of]. rewrite E. f_equal.
  destruct (m_Parent s) as [p|] eqn:Ep; [|done]. pose proof (Hp x s p E Ep).
  by apply chain_of_agree; [done | intros | lia | lia].
Qed.

Lemma clone_older st this :
  parents_older st -> (this < length st)%nat -> parents_older (clone st this).1.1.
Proof.
  intros Hp Hl i s p Hi Hs. cbn in Hi. rewrite lookup_app in Hi.
  destruct (st !! i) as [s'|] eqn:E; [injection Hi as <-; by apply (Hp i s')|].
  apply lookup_ge_None in E. destruct (i - length st)%nat as [|[|k]] eqn:Ek; cbn in Hi;
    try done; injection Hi as <-; cbn in Hs; injection Hs as <-; lia.
Qed.

Lemma write_state_older this st w : parents_older st -> parents_older (write_state this st w).
Proof.
  destruct w as [[bs sector] buf]. unfold write_state. intros Hp.
  destruct (st !! this) as [s|] eqn:E; [|done]. intros i s' p Hi Hs.
  apply list_lookup_insert_Some in Hi as [(<- & <- & _)|[_ Hi]]; [by apply (Hp this s)|eauto].
Qed.

Lemma write_state_other this st w y : y <> this -> write_state this st w !! y = st !! y.
Proof.
  destruct w as [[bs sector] buf]. unfold write_state. intros Hne.
  destruct (st !! this); [by apply list_lookup_insert_ne | done].
Qed.

(** On the object's own chain, writing it is [writeSector]. *)
Lemma write_state_chain this st bs sector buf :
  parents_older st -> (this < length st)%nat ->
  chain (write_state this st (bs, sector, buf)) this = writeSector (chain st this) bs sector buf.
Proof.
  intros Hp Hl. destruct (lookup_lt_is_Some_2 st this Hl) as [s Hs].
  rewrite (chain_cons st this s) by done.
  pose proof (write_state_older this st (bs, sector, buf) Hp) as Hp'.
  erewrite (chain_cons _ this); [|done|unfold write_state; rewrite Hs; by apply list_lookup_insert_eq].
  cbn. f_equal. destruct (m_Parent s) as [p|] eqn:Ep; [|done]. pose proof (Hp this s p Hs Ep).
  apply chain_agree; [done|]. intros y Hy. apply (write_state_other this st (bs, sector, buf)). lia.
Qed.

Lemma writes_lookup this st ws y :
  y <> this -> foldl (write_state this) st ws !! y = st !! y.
Proof.
  intros Hne. revert st. induction ws as [|w ws IH]; intros st; cbn; [done|].
  by rewrite IH, write_state_other.
Qed.

Lemma writes_older this st ws :
  parents_older st -> parents_older (foldl (write_state this) st ws).
Proof.
  revert st. induction ws as [|w ws IH]; intros st Hp; cbn; auto using write_state_older.
Qed.

(** Writes to [this] are not seen by older states. *)
Lemma writes_below this st ws x :
  parents_older st -> (x < this)%nat -> chain (foldl (write_state this) st ws) x = chain st x.
Proof.
  intros Hp Hx. apply chain_agree; [by apply writes_older|].
  intros y Hy. apply writes_lookup. lia.
Qed.

Lemma writes_chain this st (ws : list (nat * Z * list Sector)) :
  parents_older st -> (this < length st)%nat ->
  chain (foldl (write_state this) st ws) this =
    foldl (fun c (w : nat * Z * list Sector) => writeSector c w.1.1 w.1.2 w.2) (chain st this) ws.
Proof.
  revert st. induction ws as [|[[bs sector] buf] ws IH]; intros st Hp Hl; cbn [foldl]; [done|].
  rewrite IH, write_state_chain; [done | done | done | by apply write_state_older |].
  unfold write_state. destruct (st !! this); [by rewrite length_insert | done].
Qed.

End Disk.

(** ** Properties *)

(** C2: Disk reads of an execution state, on requests in which no sector that
    is only on the original disk follows a sector of the overlay: the call
    succeeds and every sector returned is the one the state sees (its own
    last write, else the nearest ancestor's, else the disk's). *)
Theorem readSector_correct {Sector : Type} (c : list (gmap nat (gmap Z Sector))) bs sector n
    (fb : nat -> Z -> Z + Sector) buf secs :
  length buf = n -> length secs = n ->
  (forall k sec, secs !! k = Some sec -> visible c bs fb (sector + Z.of_nat k) = inr sec) ->
  (forall j k, (j <= k < n)%nat -> is_Some (newest c bs (sector + Z.of_nat j)) ->
     is_Some (newest c bs (sector + Z.of_nat k))) ->
  readSector c bs sector n fb buf = (0, secs).
Proof.
  intros Hb Hs Hv Hm. unfold readSector.
  by rewrite (read_loop_prefix c bs fb n sector 0 buf secs).
Qed.

Definition demo_chain : list (gmap nat (gmap Z Z)) := [∅; {[0%nat := {[7 := 77]}]}].
Definition demo_disk (bs : nat) (i : Z) : Z + Z := inr (i * 100).

Lemma readSector_correct_witness :
  readSector demo_chain 0 6 2 demo_disk [0; 0] = (0, [600; 77]).
Proof.
  apply readSector_correct; [reflexivity | reflexivity | |].
  - intros [|[|k]] sec H; cbn in H; try discriminate; injection H as <-; reflexivity.
  - intros [|[|j]] [|[|k]] Hjk H; cbn in *; try lia; try (eexists; reflexivity);
      destruct H as [x Hx]; vm_compute in Hx; discriminate.
Defined.

(** C4: Forking isolates disks.  When the state [this] forks, both copies see
    the disk it saw; whatever either copy then writes, the other copy and
    every state that existed before still see their disk as it was, and the
    writer sees its own writes over the common disk. *)
Theorem fork_isolates_disks {Sector : Type} (st : list (@DiskState Sector)) this
    (ws : list (nat * Z * list Sector)) bs fb i :
  parents_older st -> (this < length st)%nat ->
  let '(st1, a, b) := clone st this in
  let st2 := foldl (write_state a) st1 ws in
  visible (chain st1 a) bs fb i = visible (chain st this) bs fb i /\
  visible (chain st2 b) bs fb i = visible (chain st this) bs fb i /\
  (forall x, (x < length st)%nat -> chain st2 x = chain st x) /\
  chain st2 a =
    foldl (fun c (w : nat * Z * list Sector) => writeSector c w.1.1 w.1.2 w.2) (chain st1 a) ws.
Proof.
  intros Hp Hl. pose proof (clone_older st this Hp Hl) as Hp1.
  unfold clone in *. cbn [fst] in Hp1. set (st1 := st ++ _) in *.
  assert (Ha : st1 !! length st = Some (mkDisk ∅ (Some this))) by by apply list_lookup_middle.
  assert (Hb : st1 !! S (length st) = Some (mkDisk ∅ (Some this))).
  { unfold st1. rewrite lookup_app_r by lia. by replace (S (length st) - length st)%nat with 1%nat by lia. }
  assert (Hold : forall x, (x < length st)%nat -> chain st1 x = chain st x).
  { intros x Hx. symmetry. apply chain_agree; [done|]. intros y Hy. symmetry.
    apply lookup_app_l. lia. }
  repeat split.
  - rewrite (chain_cons _ _ _ Hp1 Ha). cbn [m_BlockDevices m_Parent]. by rewrite visible_empty, Hold.
  - erewrite (chain_cons _ (S (length st))); [|by apply writes_older|].
    2: { rewrite writes_lookup by lia. exact Hb. }
    cbn [m_BlockDevices m_Parent]. rewrite visible_empty, writes_below by done. by rewrite Hold.
  - intros x Hx. rewrite writes_below by done. auto.
  - apply writes_chain; [done|]. unfold st1. rewrite length_app. cbn. lia.
Qed.

Lemma fork_isolates_disks_witness :
  let st := [mkDisk {[0%nat := {[7 := 77]}]} None] in
  let st2 := foldl (write_state 1) (clone st 0).1.1 [(0%nat, 7, [1; 2])] in
  visible (chain st2 2) 0 demo_disk 7 = inr 77 /\ visible (chain st2 1) 0 demo_disk 7 = inr 1.
Proof.
  intros st st2. split; [|reflexivity].
  refine (proj1 (proj2 (fork_isolates_disks st 0 [(0%nat, 7, [1; 2])] 0 demo_disk 7 _ _)));
    [|cbn; lia].
  intros [|i] s p Hi Hs; [injection Hi as <-; discriminate Hs | done].
Defined.

(** The loop initialises [hasRead] once, so after a sector found in the
    overlay the following sector that is only on the disk is not read at
    all: [readSector] reports success and leaves the caller's second sector
    as it was, whatever the disk holds. *)
Theorem readSector_stale_sector {Sector : Type} (c : list (gmap nat (gmap Z Sector))) bs sector
    (fb : nat -> Z -> Z + Sector) (a x y : Sector) :
  newest c bs sector = Some a -> newest c bs (sector + 1) = None ->
  readSector c bs sector 2 fb [x; y] = (0, [a; y]).
Proof.
  intros H1 H2. unfold readSector. cbn [read_loop]. rewrite !find_newest, H1, H2. done.
Qed.

Lemma readSector_stale_sector_witness :
  readSector demo_chain 0 7 2 demo_disk [0; 0] = (0, [77; 0]) /\
  visible demo_chain 0 demo_disk 8 = inr 800.
Proof.
  split; [|reflexivity].
  apply readSector_stale_sector; reflexivity.
Defined.

(** C3: Reading back what a state wrote: after [writeSector] of a run of
    sectors, [readSector] of the same run returns them, and every other
    sector (and every other disk) looks as before. *)
Theorem write_read_sectors {Sector : Type} (c : list (gmap nat (gmap Z Sector))) bs sector
    (fb : nat -> Z -> Z + Sector) (data buf : list Sector) :
  c <> [] -> length buf = length data ->
  readSector (writeSector c bs sector data) bs sector (length data) fb buf = (0, data) /\
  (forall bs' j, bs' <> bs \/ ~ (sector <= j < sector + Z.of_nat (length data)) ->
     visible (writeSector c bs sector data) bs' fb j = visible c bs' fb j).
Proof.
  intros Hc Hb. split.
  - unfold readSector. rewrite (read_loop_hits _ bs fb _ sector 0 false buf data); try done.
    intros k sec Hk. rewrite find_writeSector by done.
    rewrite bool_decide_true by (apply lookup_lt_Some in Hk; lia).
    replace (Z.to_nat (sector + Z.of_nat k - sector)) with k by lia. done.
  - intros bs' j Hj. unfold visible. rewrite <- !find_newest.
    destruct (decide (bs' = bs)) as [->|Hne].
    + rewrite find_writeSector by done. by rewrite bool_decide_false by tauto.
    + by rewrite find_writeSector_other.
Qed.

Lemma write_read_sectors_witness :
  readSector (writeSector demo_chain 0 7 [1; 2; 3]) 0 7 3 demo_disk [0; 0; 0] = (0, [1; 2; 3]).
Proof. apply (write_read_sectors demo_chain 0%nat 7 demo_disk [1; 2; 3] [0; 0; 0]); done. Defined.

End Disk.
