(* ===== verification/Savevm.v ===== *)
(** * Saving and loading device state

    The big-endian accessors, the [VMStateInfo] table and the
    [vmstate_save_state]/[vmstate_load_state] interpreters of
    src/s2e/qemu/savevm.c and src/s2e/qemu/hw/hw.h.  S2E runs them on every
    device each time it switches execution states, with the bytes going to
    the [ByteStream] interface of [DevState].

    A [VMStateField] names its C field through a getter and the setter
    derived from it, so a description reads as its C table.  Fields with
    [VMS_SINGLE], [VMS_BUFFER], [VMS_ARRAY], [VMS_STRUCT] and timers behind
    [VMS_POINTER] are modelled; the run-time sized flags ([VMS_VARRAY_*],
    [VMS_VBUFFER]) are not. *)

From stdpp Require Import strings.
From S2P Require Import Prelude DevState.

Definition EINVAL : Z := 22.

Section Accessors.
Context {F : Type} `{!ByteStream F}.

Definition qemu_put_byte (f : F) (v : Z) : F := put_byte f v.
Definition qemu_get_byte (f : F) : Res (Z * F) := get_byte f.
Definition qemu_put_buffer (f : F) (buf : list Z) : F := put_buffer f buf.
Definition qemu_get_buffer (f : F) (size : Z) : Res (list Z * F) := get_buffer f size.

Definition qemu_put_be16 (f : F) (v : Z) : F :=
  let f := qemu_put_byte f (Z.shiftr v 8) in
  qemu_put_byte f v.

Definition qemu_put_be32 (f : F) (v : Z) : F :=
  let f := qemu_put_byte f (Z.shiftr v 24) in
  let f := qemu_put_byte f (Z.shiftr v 16) in
  let f := qemu_put_byte f (Z.shiftr v 8) in
  qemu_put_byte f v.

Definition qemu_put_be64 (f : F) (v : Z) : F :=
  let f := qemu_put_be32 f (u32 (Z.shiftr v 32)) in
  qemu_put_be32 f (u32 v).

Definition qemu_get_be16 (f : F) : Res (Z * F) :=
  let* (b1, f) := qemu_get_byte f in
  let v := u32 (Z.shiftl b1 8) in
  let* (b0, f) := qemu_get_byte f in
  Ok (Z.lor v b0, f).

Definition qemu_get_be32 (f : F) : Res (Z * F) :=
  let* (b3, f) := qemu_get_byte f in
  let v := u32 (Z.shiftl b3 24) in
  let* (b2, f) := qemu_get_byte f in
  let v := Z.lor v (u32 (Z.shiftl b2 16)) in
  let* (b1, f) := qemu_get_byte f in
  let v := Z.lor v (u32 (Z.shiftl b1 8)) in
  let* (b0, f) := qemu_get_byte f in
  Ok (Z.lor v b0, f).

Definition qemu_get_be64 (f : F) : Res (Z * F) :=
  let* (h, f) := qemu_get_be32 f in
  let v := u64 (Z.shiftl h 32) in
  let* (l, f) := qemu_get_be32 f in
  Ok (Z.lor v l, f).

(** ** Field types *)

(** [get] returns the code's [int] result and the new contents of the field;
    [put] may change the field only through the [pre_save]/[post_save] hooks
    of a nested description. *)
Record VMStateInfo (A : Type) := mkInfo {
  info_put : F -> A -> F * A;
  info_get : F -> A -> Res (Z * A * F)
}.

Definition scalar_info {A : Type} (put : F -> A -> F) (get : F -> Res (A * F))
    : VMStateInfo A :=
  mkInfo A (fun f a => (put f a, a))
    (fun f _ => let* (a, f) := get f in Ok (0, a, f)).

(** The [_equal]/[_le] checkers read a value and leave the field alone. *)
Definition checked_info (put : F -> Z -> F) (get : F -> Res (Z * F))
    (ok : Z -> Z -> bool) : VMStateInfo Z :=
  mkInfo Z (fun f a => (put f a, a))
    (fun f a => let* (v2, f) := get f in
                Ok (if ok a v2 then 0 else - EINVAL, a, f)).

Definition put_uint8 (f : F) (v : Z) : F := qemu_put_byte f v.
Definition get_uint8 (f : F) : Res (Z * F) :=
  let* (v, f) := qemu_get_byte f in Ok (u8 v, f).
Definition put_uint16 (f : F) (v : Z) : F := qemu_put_be16 f v.
Definition get_uint16 (f : F) : Res (Z * F) :=
  let* (v, f) := qemu_get_be16 f in Ok (u16 v, f).
Definition put_uint32 (f : F) (v : Z) : F := qemu_put_be32 f v.
Definition get_uint32 (f : F) : Res (Z * F) := qemu_get_be32 f.
Definition put_uint64 (f : F) (v : Z) : F := qemu_put_be64 f v.
Definition get_uint64 (f : F) : Res (Z * F) := qemu_get_be64 f.
Definition put_int8 (f : F) (v : Z) : F := qemu_put_byte f (u8 v).
Definition get_int8 (f : F) : Res (Z * F) :=
  let* (v, f) := qemu_get_byte f in Ok (s8 v, f).
Definition put_int16 (f : F) (v : Z) : F := qemu_put_be16 f (u16 v).
Definition get_int16 (f : F) : Res (Z * F) :=
  let* (v, f) := qemu_get_be16 f in Ok (s16 v, f).
Definition put_int32 (f : F) (v : Z) : F := qemu_put_be32 f (u32 v).
Definition get_int32 (f : F) : Res (Z * F) :=
  let* (v, f) := qemu_get_be32 f in Ok (s32 v, f).
Definition put_int64 (f : F) (v : Z) : F := qemu_put_be64 f (u64 v).
Definition get_int64 (f : F) : Res (Z * F) :=
  let* (v, f) := qemu_get_be64 f in Ok (s64 v, f).

(** [qemu_put_timer]/[qemu_get_timer]: [None] is a timer that is not pending. *)
Definition put_timer (f : F) (ts : option Z) : F :=
  let expire_time := match ts with Some e => u64 e | None => u64 (-1) end in
  qemu_put_be64 f expire_time.
Definition get_timer (f : F) : Res (option Z * F) :=
  let* (expire_time, f) := qemu_get_be64 f in
  Ok (if negb (expire_time =? u64 (-1)) then Some (s64 expire_time) else None, f).

Definition vmstate_info_uint8 : VMStateInfo Z := scalar_info put_uint8 get_uint8.
Definition vmstate_info_uint16 : VMStateInfo Z := scalar_info put_uint16 get_uint16.
Definition vmstate_info_uint32 : VMStateInfo Z := scalar_info put_uint32 get_uint32.
Definition vmstate_info_uint64 : VMStateInfo Z := scalar_info put_uint64 get_uint64.
Definition vmstate_info_int8 : VMStateInfo Z := scalar_info put_int8 get_int8.
Definition vmstate_info_int16 : VMStateInfo Z := scalar_info put_int16 get_int16.
Definition vmstate_info_int32 : VMStateInfo Z := scalar_info put_int32 get_int32.
Definition vmstate_info_int64 : VMStateInfo Z := scalar_info put_int64 get_int64.
Definition vmstate_info_uint8_equal : VMStateInfo Z :=
  checked_info put_uint8 get_uint8 Z.eqb.
Definition vmstate_info_uint16_equal : VMStateInfo Z :=
  checked_info put_uint16 get_uint16 Z.eqb.
Definition vmstate_info_int32_equal : VMStateInfo Z :=
  checked_info put_int32 get_int32 Z.eqb.
Definition vmstate_info_int32_le : VMStateInfo Z :=
  checked_info put_int32 get_int32 Z.leb.
Definition vmstate_info_timer : VMStateInfo (option Z) := scalar_info put_timer get_timer.
(** A [uint8_t] buffer of the field's static [size]. *)
Definition vmstate_info_buffer (size : Z) : VMStateInfo (list Z) :=
  scalar_info qemu_put_buffer (fun f => qemu_get_buffer f size).

(** Space of fields that no longer exist, in blocks of at most 1024 bytes;
    [Z.to_nat size] bounds the number of blocks. *)
Fixpoint put_unused (fuel : nat) (size : Z) (f : F) : F :=
  match fuel with
  | O => f
  | S fuel =>
      if 0 <? size then
        let block_len := Z.min 1024 size in
        put_unused fuel (size - block_len) (qemu_put_buffer f (replicate (Z.to_nat block_len) 0))
      else f
  end.
Fixpoint get_unused (fuel : nat) (size : Z) (f : F) : Res F :=
  match fuel with
  | O => Ok f
  | S fuel =>
      if 0 <? size then
        let block_len := Z.min 1024 size in
        let* (_, f) := qemu_get_buffer f block_len in
        get_unused fuel (size - block_len) f
      else Ok f
  end.
Definition vmstate_info_unused_buffer (size : Z) : VMStateInfo unit :=
  scalar_info (fun f _ => put_unused (Z.to_nat size) size f)
    (fun f => let* f := get_unused (Z.to_nat size) size f in Ok (tt, f)).

(** ** Descriptions *)

(** [vf_num] is 1 except for [VMS_ARRAY]; [vf_ld]/[vf_st] access element [i]
    at [base_addr + size * i]. *)
Record VMStateField (S : Type) := mkField {
  vf_type : Type;
  vf_version_id : Z;
  vf_exists : option (S -> Z -> bool);
  vf_info : VMStateInfo vf_type;
  vf_num : nat;
  vf_ld : S -> nat -> vf_type;
  vf_st : nat -> vf_type -> S -> S
}.

Record VMStateDescription (S : Type) := mkVMSD {
  vmsd_name : string;
  version_id : Z;
  minimum_version_id : Z;
  minimum_version_id_old : Z;
  load_state_old : option (F -> S -> Z -> Res (Z * S * F));
  pre_load : option (S -> Z * S);
  post_load : option (S -> Z -> Z * S);
  pre_save : option (S -> S);
  post_save : option (S -> S);
  vmsd_fields : list (VMStateField S)
}.

Arguments info_put {A} _ _ _.
Arguments info_get {A} _ _ _.
Arguments vf_type {S} _.
Arguments vf_version_id {S} _.
Arguments vf_exists {S} _.
Arguments vf_info {S} _.
Arguments vf_num {S} _.
Arguments vf_ld {S} _ _ _.
Arguments vf_st {S} _ _ _ _.
Arguments vmsd_name {S} _.
Arguments version_id {S} _.
Arguments minimum_version_id {S} _.
Arguments minimum_version_id_old {S} _.
Arguments load_state_old {S} _.
Arguments pre_load {S} _.
Arguments post_load {S} _.
Arguments pre_save {S} _.
Arguments post_save {S} _.
Arguments vmsd_fields {S} _.

Definition run_hook {S : Type} (h : option (S -> S)) (s : S) : S :=
  match h with Some g => g s | None => s end.

(** The element loop of [vmstate_save_state], from element [i] on. *)
Fixpoint save_elems {S : Type} (fl : VMStateField S) (n i : nat) (f : F) (s : S) : F * S :=
  match n with
  | O => (f, s)
  | Datatypes.S n =>
      let '(f, a) := info_put (vf_info fl) f (vf_ld fl s i) in
      save_elems fl n (Datatypes.S i) f (vf_st fl i a s)
  end.

Fixpoint save_fields {S : Type} (version : Z) (fls : list (VMStateField S)) (f : F) (s : S)
    : F * S :=
  match fls with
  | [] => (f, s)
  | fl :: fls =>
      let '(f, s) :=
        if match vf_exists fl with None => true | Some ex => ex s version end
        then save_elems fl (vf_num fl) 0 f s else (f, s) in
      save_fields version fls f s
  end.

Definition vmstate_save_state {S : Type} (f : F) (vmsd : VMStateDescription S) (s : S) : F * S :=
  let s := run_hook (pre_save vmsd) s in
  let '(f, s) := save_fields (version_id vmsd) (vmsd_fields vmsd) f s in
  (f, run_hook (post_save vmsd) s).

(** The element loop of [vmstate_load_state]: stops at a negative result. *)
Fixpoint load_elems {S : Type} (fl : VMStateField S) (n i : nat) (f : F) (s : S)
    : Res (Z * S * F) :=
  match n with
  | O => Ok (0, s, f)
  | Datatypes.S n =>
      let* (ret, a, f) := info_get (vf_info fl) f (vf_ld fl s i) in
      let s := vf_st fl i a s in
      if ret <? 0 then Ok (ret, s, f) else load_elems fl n (Datatypes.S i) f s
  end.

Fixpoint load_fields {S : Type} (version : Z) (fls : list (VMStateField S)) (f : F) (s : S)
    : Res (Z * S * F) :=
  match fls with
  | [] => Ok (0, s, f)
  | fl :: fls =>
      if match vf_exists fl with
         | Some ex => ex s version
         | None => vf_version_id fl <=? version
         end
      then
        let* (ret, s, f) := load_elems fl (vf_num fl) 0 f s in
        if ret <? 0 then Ok (ret, s, f) else load_fields version fls f s
      else load_fields version fls f s
  end.

Definition vmstate_load_state {S : Type} (f : F) (vmsd : VMStateDescription S) (s : S)
    (version : Z) : Res (Z * S * F) :=
  if version_id vmsd <? version then Ok (- EINVAL, s, f)
  else if version <? minimum_version_id_old vmsd then Ok (- EINVAL, s, f)
  else if version <? minimum_version_id vmsd then
    match load_state_old vmsd with
    | Some old => old f s version
    | None => Fail AbortCalled
    end
  else
    let '(ret, s) := match pre_load vmsd with Some h => h s | None => (0, s) end in
    if nz ret then Ok (ret, s, f)
    else
      let* (ret, s, f) := load_fields version (vmsd_fields vmsd) f s in
      if ret <? 0 then Ok (ret, s, f)
      else
        match post_load vmsd with
        | Some h => let '(ret, s) := h s version in Ok (ret, s, f)
        | None => Ok (0, s, f)
        end.

(** [VMS_STRUCT]: the field's own description does the work. *)
Definition vms_struct {T : Type} (vmsd : VMStateDescription T) : VMStateInfo T :=
  mkInfo T (fun f t => vmstate_save_state f vmsd t)
    (fun f t => vmstate_load_state f vmsd t (version_id vmsd)).

(** ** The field macros of hw.h *)

Definition VMSTATE_SINGLE {S A : Type} (fld : S -> A) `{!FieldSetter fld} (version : Z)
    (info : VMStateInfo A) : VMStateField S :=
  mkField S A version None info 1 (fun s _ => fld s) (fun _ a => set_field fld (fun _ => a)).

Definition VMSTATE_ARRAY {S A : Type} (d : A) (fld : S -> list A) `{!FieldSetter fld}
    (num : nat) (version : Z) (info : VMStateInfo A) : VMStateField S :=
  mkField S A version None info num (fun s i => nth i (fld s) d)
    (fun i a => set_field fld (fun l => <[i := a]> l)).

End Accessors.

Arguments VMStateInfo F A : clear implicits.
Arguments VMStateField F S : clear implicits.
Arguments VMStateDescription F S : clear implicits.
Arguments info_put {F A} _ _ _.
Arguments info_get {F A} _ _ _.
Arguments vf_type {F S} _.
Arguments vf_version_id {F S} _.
Arguments vf_exists {F S} _.
Arguments vf_info {F S} _.
Arguments vf_num {F S} _.
Arguments vf_ld {F S} _ _ _.
Arguments vf_st {F S} _ _ _ _.
Arguments mkVMSD {F S}.
Arguments vmsd_name {F S} _.
Arguments version_id {F S} _.
Arguments minimum_version_id {F S} _.
Arguments minimum_version_id_old {F S} _.
Arguments load_state_old {F S} _.
Arguments pre_load {F S} _.
Arguments post_load {F S} _.
Arguments pre_save {F S} _.
Arguments post_save {F S} _.
Arguments vmsd_fields {F S} _.

Notation VMSTATE_UINT8_V fld v := (VMSTATE_SINGLE fld v vmstate_info_uint8).
Notation VMSTATE_UINT16_V fld v := (VMSTATE_SINGLE fld v vmstate_info_uint16).
Notation VMSTATE_UINT32_V fld v := (VMSTATE_SINGLE fld v vmstate_info_uint32).
Notation VMSTATE_INT32_V fld v := (VMSTATE_SINGLE fld v vmstate_info_int32).
Notation VMSTATE_INT64_V fld v := (VMSTATE_SINGLE fld v vmstate_info_int64).
Notation VMSTATE_UINT8 fld := (VMSTATE_UINT8_V fld 0).
Notation VMSTATE_UINT16 fld := (VMSTATE_UINT16_V fld 0).
Notation VMSTATE_UINT32 fld := (VMSTATE_UINT32_V fld 0).
Notation VMSTATE_INT32 fld := (VMSTATE_INT32_V fld 0).
Notation VMSTATE_INT64 fld := (VMSTATE_INT64_V fld 0).
Notation VMSTATE_TIMER fld := (VMSTATE_SINGLE fld 0 vmstate_info_timer).
Notation VMSTATE_BUFFER fld size := (VMSTATE_SINGLE fld 0 (vmstate_info_buffer size)).
Notation VMSTATE_STRUCT fld v vmsd := (VMSTATE_SINGLE fld v (vms_struct vmsd)).
Notation VMSTATE_INT32_ARRAY fld n := (VMSTATE_ARRAY 0 fld n 0 vmstate_info_int32).
Notation VMSTATE_UINT16_ARRAY fld n := (VMSTATE_ARRAY 0 fld n 0 vmstate_info_uint16).
Notation VMSTATE_UINT32_ARRAY fld n := (VMSTATE_ARRAY 0 fld n 0 vmstate_info_uint32).
Notation VMSTATE_UINT64_ARRAY fld n := (VMSTATE_ARRAY 0 fld n 0 vmstate_info_uint64).
Notation VMSTATE_STRUCT_ARRAY d fld n v vmsd := (VMSTATE_ARRAY d fld n v (vms_struct vmsd)).

(** ** Encodings of the scalar types *)

Definition be16 (v : Z) : list Z := [u8 (Z.shiftr v 8); u8 v].
Definition be32 (v : Z) : list Z :=
  [u8 (Z.shiftr v 24); u8 (Z.shiftr v 16); u8 (Z.shiftr v 8); u8 v].
Definition be64 (v : Z) : list Z := be32 (u32 (Z.shiftr v 32)) ++ be32 (u32 v).

Lemma be16_join v : range 16 v -> Z.lor (u32 (Z.shiftl (u8 (Z.shiftr v 8)) 8)) (u8 v) = v.
Proof.
  intros Hv. unfold u8 at 1. unfold range in Hv. 
  rewrite u32_small, lor_disjoint_add, Z.shiftr_div_pow2 by
    (auto with s2e; rewrite ?Z.shiftl_mul_pow2 by lia;
     pose proof (Z.mod_pos_bound (Z.shiftr v 8) (2 ^ 8)); unfold range; lia).
  rewrite Z.mod_small by (split; [apply Z.div_pos | apply Z.div_lt_upper_bound]; lia).
  unfold u8. pose proof (Z.div_mod v (2 ^ 8)). lia.
Qed.

Lemma be32_join v : range 32 v ->
  Z.lor (Z.lor (Z.lor (u32 (Z.shiftl (u8 (Z.shiftr v 24)) 24))
                      (u32 (Z.shiftl (u8 (Z.shiftr v 16)) 16)))
               (u32 (Z.shiftl (u8 (Z.shiftr v 8)) 8))) (u8 v) = v.
Proof.
  intros Hv. apply Z.bits_inj'. intros i Hi. unfold u8, u32.
  repeat (rewrite ?Z.lor_spec, ?testbit_mod_pow2, ?Z.shiftl_spec by lia).
  destruct (Z.lt_ge_cases i 32) as [H|H].
  - assert (Hc : 24 <= i < 32 \/ 16 <= i < 24 \/ 8 <= i < 16 \/ 0 <= i < 8) by lia.
    destruct Hc as [C|[C|[C|C]]];
    repeat match goal with |- context [?a <? ?b] => destruct (Z.ltb_spec a b); try lia end;
    cbn [andb orb];
    repeat match goal with
    | |- context [Z.testbit ?x (i - ?k)] => rewrite (Z.testbit_neg_r x (i - k)) by lia
    | |- context [Z.testbit (Z.shiftr v ?k) (i - ?k)] =>
        rewrite (Z.shiftr_spec v k (i - k)) by lia; replace (i - k + k) with i by lia
    end; cbn [orb]; rewrite ?orb_false_r; done.
  - rewrite (testbit_high v 32 i) by (done || lia).
    repeat match goal with |- context [?a <? ?b] => destruct (Z.ltb_spec a b); try lia end; done.
Qed.

Lemma be64_join v : range 64 v -> Z.lor (u64 (Z.shiftl (u32 (Z.shiftr v 32)) 32)) (u32 v) = v.
Proof.
  intros Hv. pose proof (u32_range (Z.shiftr v 32)) as Hh. unfold range in *.
  rewrite u64_small by (rewrite Z.shiftl_mul_pow2 by lia; unfold range; lia).
  rewrite lor_disjoint_add by auto with s2e. unfold u32. rewrite Z.shiftr_div_pow2 by lia.
  rewrite (Z.mod_small (v / 2 ^ 32))
    by (split; [apply Z.div_pos | apply Z.div_lt_upper_bound]; lia).
  pose proof (Z.div_mod v (2 ^ 32)). lia.
Qed.

(** ** What a field type promises, and the round trip of a description *)

Section Laws.
Context {F : Type} `{!ByteStream F} `{!ByteStreamLaws F}.

(** [put] of a valid value appends its encoding, and [get] reads it back;
    [upd a a0] is what loading the encoding of [a] over [a0] leaves (a nested
    structure keeps the members its description does not list). *)
Record InfoOk {A : Type} (info : VMStateInfo F A) := mkInfoOk {
  enc : A -> list Z;
  valid : A -> Prop;
  upd : A -> A -> A;
  put_ok f l a :
    valid a -> written f l -> Z.of_nat (length l) + Z.of_nat (length (enc a)) <= stream_cap ->
    written (info_put info f a).1 (l ++ enc a) /\ (info_put info f a).2 = a;
  get_ok f l a a0 :
    valid a -> reading f (enc a ++ l) ->
    exists f', info_get info f a0 = Ok (0, upd a a0, f') /\ reading f' l
}.
Arguments enc {A info} _ _.
Arguments valid {A info} _ _.
Arguments upd {A info} _ _ _.
Arguments put_ok {A info} _ _ _ _.
Arguments get_ok {A info} _ _ _ _ _.

Lemma put_bytes_written f l (bs : list Z) :
  written f l -> Z.of_nat (length l) + Z.of_nat (length bs) <= stream_cap ->
  written (foldl put_byte f bs) (l ++ (u8 <$> bs)).
Proof.
  revert f l. induction bs as [|b bs IH]; intros f l Hw Hc; cbn in *.
  - by rewrite (right_id_L [] (++)).
  - replace (l ++ u8 b :: (u8 <$> bs)) with ((l ++ [u8 b]) ++ (u8 <$> bs))
      by (by rewrite <- (assoc_L (++))).
    apply IH; [apply put_byte_written; [done|lia]|]. rewrite length_app. cbn. lia.
Qed.

Lemma put_be16_written f l v :
  written f l -> Z.of_nat (length l) + 2 <= stream_cap ->
  written (qemu_put_be16 f v) (l ++ be16 v).
Proof. intros Hw Hc. exact (put_bytes_written f l [Z.shiftr v 8; v] Hw Hc). Qed.

Lemma put_be32_written f l v :
  written f l -> Z.of_nat (length l) + 4 <= stream_cap ->
  written (qemu_put_be32 f v) (l ++ be32 v).
Proof.
  intros Hw Hc.
  exact (put_bytes_written f l [Z.shiftr v 24; Z.shiftr v 16; Z.shiftr v 8; v] Hw Hc).
Qed.

Lemma put_be64_written f l v :
  written f l -> Z.of_nat (length l) + 8 <= stream_cap ->
  written (qemu_put_be64 f v) (l ++ be64 v).
Proof.
  intros Hw Hc. unfold qemu_put_be64, be64. rewrite (assoc_L (++)).
  apply put_be32_written; [apply put_be32_written; [done|lia]|].
  rewrite length_app. cbn. lia.
Qed.

(** Consume one expected byte. *)
Ltac next_byte H :=
  let f' := fresh "f" in let E := fresh "E" in
  destruct (get_byte_reading _ _ _ H) as (f' & E & ?); clear H; rename f' into f';
  unfold qemu_get_byte; rewrite E; cbn [res_bind];
  match goal with R : reading f' _ |- _ => rename R into H end.

Lemma get_be16_reading f l v :
  range 16 v -> reading f (be16 v ++ l) ->
  exists f', qemu_get_be16 f = Ok (v, f') /\ reading f' l.
Proof.
  intros Hv Hr. unfold qemu_get_be16, be16 in *. cbn in Hr.
  do 2 next_byte Hr. rewrite be16_join by done. eauto.
Qed.

Lemma get_be32_reading f l v :
  range 32 v -> reading f (be32 v ++ l) ->
  exists f', qemu_get_be32 f = Ok (v, f') /\ reading f' l.
Proof.
  intros Hv Hr. unfold qemu_get_be32, be32 in *. cbn in Hr.
  do 4 next_byte Hr. rewrite be32_join by done. eauto.
Qed.

Lemma get_be64_reading f l v :
  range 64 v -> reading f (be64 v ++ l) ->
  exists f', qemu_get_be64 f = Ok (v, f') /\ reading f' l.
Proof.
  intros Hv Hr. unfold qemu_get_be64, be64 in *. rewrite <- (assoc_L (++)) in Hr.
  destruct (get_be32_reading _ _ _ (u32_range _) Hr) as (f1 & E1 & R1).
  destruct (get_be32_reading _ _ _ (u32_range _) R1) as (f2 & E2 & R2).
  rewrite E1. cbn [res_bind]. rewrite E2. cbn [res_bind].
  rewrite be64_join by done. eauto.
Qed.

(** A scalar type whose value survives the trip unchanged. *)
Program Definition scalar_ok {A : Type} (put : F -> A -> F) (get : F -> Res (A * F))
    (e : A -> list Z) (v : A -> Prop)
    (Hput : forall f l a, v a -> written f l ->
       Z.of_nat (length l) + Z.of_nat (length (e a)) <= stream_cap ->
       written (put f a) (l ++ e a))
    (Hget : forall f l a, v a -> reading f (e a ++ l) ->
       exists f', get f = Ok (a, f') /\ reading f' l)
    : InfoOk (scalar_info put get) :=
  mkInfoOk A _ e v (fun a _ => a) _ _.
Next Obligation. intros. cbn. auto. Qed.
Next Obligation.
  intros A put get e v Hput Hget f l a a0 Hv Hr. cbn.
  destruct (Hget f l a Hv Hr) as (f' & E & R). rewrite E. cbn. eauto.
Qed.

Program Definition uint8_ok : InfoOk vmstate_info_uint8 :=
  scalar_ok put_uint8 get_uint8 (fun v => [v]) (range 8) _ _.
Next Obligation.
  intros f l a Ha Hw Hc. rewrite <- (u8_small a) at 2 by done.
  by apply put_byte_written.
Qed.
Next Obligation.
  intros f l a Ha Hr. unfold get_uint8. cbn in Hr. next_byte Hr.
  rewrite u8_small by done. eauto.
Qed.

Program Definition uint16_ok : InfoOk vmstate_info_uint16 :=
  scalar_ok put_uint16 get_uint16 be16 (range 16) _ _.
Next Obligation. intros f l a Ha Hw Hc. by apply put_be16_written. Qed.
Next Obligation.
  intros f l a Ha Hr. unfold get_uint16.
  destruct (get_be16_reading f l a Ha Hr) as (f' & E & R). rewrite E. cbn.
  rewrite u16_small by done. eauto.
Qed.

Program Definition uint32_ok : InfoOk vmstate_info_uint32 :=
  scalar_ok put_uint32 get_uint32 be32 (range 32) _ _.
Next Obligation. intros f l a Ha Hw Hc. by apply put_be32_written. Qed.
Next Obligation. intros f l a Ha Hr. by apply get_be32_reading. Qed.

Program Definition uint64_ok : InfoOk vmstate_info_uint64 :=
  scalar_ok put_uint64 get_uint64 be64 (range 64) _ _.
Next Obligation. intros f l a Ha Hw Hc. by apply put_be64_written. Qed.
Next Obligation. intros f l a Ha Hr. by apply get_be64_reading. Qed.

Program Definition int8_ok : InfoOk vmstate_info_int8 :=
  scalar_ok put_int8 get_int8 (fun v => [u8 v]) (fun v => - 2 ^ 7 <= v < 2 ^ 7) _ _.
Next Obligation.
  intros f l a Ha Hw Hc. pose proof (put_byte_written f l (u8 a) Hw Hc) as H.
  by rewrite (u8_small (u8 a)) in H by apply u8_range.
Qed.
Next Obligation.
  intros f l a Ha Hr. unfold get_int8. cbn in Hr. next_byte Hr.
  rewrite s8_u8 by done. eauto.
Qed.

Program Definition int16_ok : InfoOk vmstate_info_int16 :=
  scalar_ok put_int16 get_int16 (fun v => be16 (u16 v)) (fun v => - 2 ^ 15 <= v < 2 ^ 15) _ _.
Next Obligation. intros f l a Ha Hw Hc. by apply put_be16_written. Qed.
Next Obligation.
  intros f l a Ha Hr. unfold get_int16.
  destruct (get_be16_reading f l _ (u16_range a) Hr) as (f' & E & R). rewrite E. cbn.
  rewrite s16_u16 by done. eauto.
Qed.

Program Definition int32_ok : InfoOk vmstate_info_int32 :=
  scalar_ok put_int32 get_int32 (fun v => be32 (u32 v)) (fun v => - 2 ^ 31 <= v < 2 ^ 31) _ _.
Next Obligation. intros f l a Ha Hw Hc. by apply put_be32_written. Qed.
Next Obligation.
  intros f l a Ha Hr. unfold get_int32.
  destruct (get_be32_reading f l _ (u32_range a) Hr) as (f' & E & R). rewrite E. cbn.
  rewrite s32_u32 by done. eauto.
Qed.

Program Definition int64_ok : InfoOk vmstate_info_int64 :=
  scalar_ok put_int64 get_int64 (fun v => be64 (u64 v)) (fun v => - 2 ^ 63 <= v < 2 ^ 63) _ _.
Next Obligation. intros f l a Ha Hw Hc. by apply put_be64_written. Qed.
Next Obligation.
  intros f l a Ha Hr. unfold get_int64.
  destruct (get_be64_reading f l _ (u64_range a) Hr) as (f' & E & R). rewrite E. cbn.
  rewrite s64_u64 by done. eauto.
Qed.

(** A pending timer must not expire at time -1, the mark of a stopped one. *)
Definition timer_valid (ts : option Z) : Prop :=
  match ts with None => True | Some e => - 2 ^ 63 <= e < 2 ^ 63 /\ e <> -1 end.

Definition timer_word (ts : option Z) : Z :=
  match ts with Some e => u64 e | None => u64 (-1) end.

Program Definition timer_ok : InfoOk vmstate_info_timer :=
  scalar_ok put_timer get_timer (fun ts => be64 (timer_word ts)) timer_valid _ _.
Next Obligation. intros f l a Ha Hw Hc. by apply put_be64_written. Qed.
Next Obligation.
  intros f l a Ha Hr. unfold get_timer.
  assert (Hw : range 64 (timer_word a)) by (destruct a; apply u64_range).
  destruct (get_be64_reading f l _ Hw Hr) as (f' & E & R).
  rewrite E. cbn [res_bind]. unfold timer_word. destruct a as [e|]; cbn [timer_valid] in Ha.
  - destruct (Z.eqb_spec (u64 e) (u64 (-1))) as [He|He].
    + exfalso. apply (f_equal s64) in He. rewrite !s64_u64 in He by lia. lia.
    + cbn. rewrite s64_u64 by lia. eauto.
  - rewrite Z.eqb_refl. cbn. eauto.
Qed.

Program Definition buffer_ok (size : Z) : InfoOk (vmstate_info_buffer size) :=
  scalar_ok qemu_put_buffer (fun f => qemu_get_buffer f size) id
    (fun bs => Forall (range 8) bs /\ Z.of_nat (length bs) = size) _ _.
Next Obligation. intros size f l a [Ha _] Hw Hc. by apply put_buffer_written. Qed.
Next Obligation. intros size f l a [_ <-] Hr. by apply get_buffer_reading. Qed.

Lemma put_unused_written fuel size f l :
  0 <= size <= Z.of_nat fuel -> written f l -> Z.of_nat (length l) + size <= stream_cap ->
  written (put_unused fuel size f) (l ++ replicate (Z.to_nat size) 0).
Proof.
  revert size f l. induction fuel as [|n IH]; intros size f l Hs Hw Hc; cbn [put_unused].
  { replace (Z.to_nat size) with 0%nat by lia. cbn. by rewrite (right_id_L [] (++)). }
  destruct (Z.ltb_spec 0 size); 
    [|replace (Z.to_nat size) with 0%nat by lia; cbn; by rewrite (right_id_L [] (++))].
  set (b := Z.min 1024 size).
  replace (Z.to_nat size) with (Z.to_nat b + Z.to_nat (size - b))%nat by lia.
  rewrite replicate_add, (assoc_L (++)). apply IH; [lia| |].
  - apply put_buffer_written; [done | | rewrite length_replicate; lia].
    apply Forall_replicate. unfold range. lia.
  - rewrite length_app, length_replicate. lia.
Qed.

Lemma get_unused_reading fuel size f l :
  0 <= size <= Z.of_nat fuel -> reading f (replicate (Z.to_nat size) 0 ++ l) ->
  exists f', get_unused fuel size f = Ok f' /\ reading f' l.
Proof.
  revert size f l. induction fuel as [|n IH]; intros size f l Hs Hr; cbn [get_unused].
  { replace (Z.to_nat size) with 0%nat in Hr by lia. eauto. }
  destruct (Z.ltb_spec 0 size); [|replace (Z.to_nat size) with 0%nat in Hr by lia; eauto].
  set (b := Z.min 1024 size).
  replace (Z.to_nat size) with (Z.to_nat b + Z.to_nat (size - b))%nat in Hr by lia.
  rewrite replicate_add, <- (assoc_L (++)) in Hr.
  destruct (get_buffer_reading _ _ _ Hr) as (f1 & E & R).
  rewrite length_replicate, Z2Nat.id in E by lia. unfold qemu_get_buffer. rewrite E. cbn.
  apply IH; [lia | done].
Qed.

Program Definition unused_ok (size : Z) (Hs : 0 <= size) :
    InfoOk (vmstate_info_unused_buffer size) :=
  scalar_ok (fun f _ => put_unused (Z.to_nat size) size f) _
    (fun _ => replicate (Z.to_nat size) 0) (fun _ => True) _ _.
Next Obligation.
  intros size Hs f l a _ Hw Hc. cbn beta in Hc; rewrite length_replicate in Hc.
  apply put_unused_written; [lia | done | lia].
Qed.
Next Obligation.
  intros size Hs f l [] _ Hr. destruct (get_unused_reading (Z.to_nat size) size f l) as (f' & E & R);
    [lia | done |]. rewrite E. cbn. eauto.
Qed.

(** The checked field types guard the load.  Reading a sent value [v] over a
    field that holds [old] leaves the field alone; [vmstate_info_int32_equal]
    reports an error exactly when they differ, and [vmstate_info_int32_le]
    exactly when the sent value is smaller than the field (the comment above
    it says that the sent value must be the smaller one). *)
Theorem vmstate_checked_fields (f : F) (l : list Z) (old v : Z) :
  - 2 ^ 31 <= v < 2 ^ 31 -> reading f (be32 (u32 v) ++ l) ->
  (exists f', info_get vmstate_info_int32_equal f old =
     Ok (if old =? v then 0 else - EINVAL, old, f') /\ reading f' l) /\
  (exists f', info_get vmstate_info_int32_le f old =
     Ok (if v <? old then - EINVAL else 0, old, f') /\ reading f' l).
Proof.
  intros Hv Hr. destruct (get_be32_reading f l _ (u32_range v) Hr) as (f' & E & R).
  cbn. unfold get_int32. rewrite E. cbn. rewrite s32_u32 by done.
  split; exists f'; split; try done. by rewrite Z.ltb_antisym; destruct (old <=? v).
Qed.

(** *** Fields and descriptions *)

(** A field that is always present (from version [v] on) with a type that
    keeps its promise. *)
Record FieldOk (S : Type) := mkFieldOk {
  fo_field : VMStateField F S;
  fo_info : InfoOk (vf_info fo_field)
}.
Arguments fo_field {S} _.
Arguments fo_info {S} _.

Definition field_enc {S : Type} (fo : FieldOk S) (s : S) (i : nat) : list Z :=
  enc (fo_info fo) (vf_ld (fo_field fo) s i).
Definition field_upd {S : Type} (fo : FieldOk S) (s : S) (i : nat) (s0 : S) : S :=
  vf_st (fo_field fo) i (upd (fo_info fo) (vf_ld (fo_field fo) s i) (vf_ld (fo_field fo) s0 i)) s0.

(** Every element of the field is encodable, and storing it back is a no-op
    (the index is inside the array). *)
Definition field_valid {S : Type} (v : Z) (fo : FieldOk S) (s : S) : Prop :=
  vf_exists (fo_field fo) = None /\ vf_version_id (fo_field fo) <= v /\
  forall i, (i < vf_num (fo_field fo))%nat ->
    valid (fo_info fo) (vf_ld (fo_field fo) s i) /\
    vf_st (fo_field fo) i (vf_ld (fo_field fo) s i) s = s.

Fixpoint elems_enc {S : Type} (fo : FieldOk S) (n i : nat) (s : S) : list Z :=
  match n with
  | O => []
  | Datatypes.S n => field_enc fo s i ++ elems_enc fo n (Datatypes.S i) s
  end.
Fixpoint elems_upd {S : Type} (fo : FieldOk S) (n i : nat) (s s0 : S) : S :=
  match n with
  | O => s0
  | Datatypes.S n => elems_upd fo n (Datatypes.S i) s (field_upd fo s i s0)
  end.

Definition fields_enc {S : Type} (fos : list (FieldOk S)) (s : S) : list Z :=
  concat (map (fun fo => elems_enc fo (vf_num (fo_field fo)) 0 s) fos).
Definition fields_upd {S : Type} (fos : list (FieldOk S)) (s s0 : S) : S :=
  foldl (fun s0 fo => elems_upd fo (vf_num (fo_field fo)) 0 s s0) s0 fos.

Lemma save_elems_written {S : Type} v (fo : FieldOk S) s n i f l :
  field_valid v fo s -> (i + n <= vf_num (fo_field fo))%nat -> written f l ->
  Z.of_nat (length l) + Z.of_nat (length (elems_enc fo n i s)) <= stream_cap ->
  written (save_elems (fo_field fo) n i f s).1 (l ++ elems_enc fo n i s) /\
  (save_elems (fo_field fo) n i f s).2 = s.
Proof.
  intros (_ & _ & Hv). revert i f l. induction n as [|n IH]; intros i f l Hi Hw Hc; cbn in *.
  { by rewrite (right_id_L [] (++)). }
  rewrite length_app in Hc. destruct (Hv i ltac:(lia)) as [Va St].
  destruct (put_ok (fo_info fo) f l _ Va Hw) as [W E]; [unfold field_enc in Hc; lia|].
  destruct (info_put _ f _) as [f1 a1]. cbn in W, E. subst a1. rewrite St.
  rewrite (assoc_L (++)). apply IH; [lia|done|]. rewrite length_app. unfold field_enc in *. lia.
Qed.

Lemma load_elems_reading {S : Type} v (fo : FieldOk S) s n i f l s0 :
  field_valid v fo s -> (i + n <= vf_num (fo_field fo))%nat ->
  reading f (elems_enc fo n i s ++ l) ->
  exists f', load_elems (fo_field fo) n i f s0 = Ok (0, elems_upd fo n i s s0, f') /\
    reading f' l.
Proof.
  intros (_ & _ & Hv). revert i f s0. induction n as [|n IH]; intros i f s0 Hi Hr; cbn in *.
  { eauto. }
  destruct (Hv i ltac:(lia)) as [Va _]. rewrite <- (assoc_L (++)) in Hr.
  destruct (get_ok (fo_info fo) f _ _ (vf_ld (fo_field fo) s0 i) Va Hr) as (f1 & E & R).
  rewrite E. cbn. apply IH; [lia|done].
Qed.

Lemma save_fields_written {S : Type} v (fos : list (FieldOk S)) s f l :
  Forall (fun fo => field_valid v fo s) fos -> written f l ->
  Z.of_nat (length l) + Z.of_nat (length (fields_enc fos s)) <= stream_cap ->
  written (save_fields v (map fo_field fos) f s).1 (l ++ fields_enc fos s) /\
  (save_fields v (map fo_field fos) f s).2 = s.
Proof.
  revert f l. induction fos as [|fo fos IH]; intros f l Hv Hw Hc; cbn in *.
  { by rewrite (right_id_L [] (++)). }
  apply list.Forall_cons in Hv as [H1 H2]. rewrite (proj1 H1).
  fold (fields_enc fos s) in *. rewrite length_app in Hc.
  destruct (save_elems_written v fo s (vf_num (fo_field fo)) 0 f l H1) as [W E]; [lia|done|lia|].
  destruct (save_elems _ _ _ f s) as [f1 s1]. cbn in W, E. subst s1.
  rewrite (assoc_L (++)). apply IH; [done|done|]. rewrite length_app. lia.
Qed.

Lemma load_fields_reading {S : Type} v (fos : list (FieldOk S)) s f l s0 :
  Forall (fun fo => field_valid v fo s) fos ->
  reading f (fields_enc fos s ++ l) ->
  exists f', load_fields v (map fo_field fos) f s0 = Ok (0, fields_upd fos s s0, f') /\
    reading f' l.
Proof.
  revert f s0. induction fos as [|fo fos IH]; intros f s0 Hv Hr; cbn in *; [eauto|].
  apply list.Forall_cons in Hv as [H1 H2]. destruct H1 as (H1a & H1b & H1c).
  rewrite H1a. apply Z.leb_le in H1b as H1b'. rewrite H1b'.
  fold (fields_enc fos s) in *. rewrite <- (assoc_L (++)) in Hr.
  destruct (load_elems_reading v fo s (vf_num (fo_field fo)) 0 f _ s0
    (conj H1a (conj H1b H1c)) (le_n _) Hr) as (f1 & E & R).
  rewrite E. cbn. by apply IH.
Qed.

(** A description with these fields and no hooks that change the state
    before it is saved or loaded. *)
Record DescrOk {S : Type} (vmsd : VMStateDescription F S) (fos : list (FieldOk S)) : Prop := {
  do_fields : vmsd_fields vmsd = map fo_field fos;
  do_versions : minimum_version_id_old vmsd <= minimum_version_id vmsd <= version_id vmsd;
  do_pre_load : pre_load vmsd = None;
  do_pre_save : pre_save vmsd = None;
  do_post_save : post_save vmsd = None
}.

Definition state_valid {S : Type} (vmsd : VMStateDescription F S) (fos : list (FieldOk S)) (s : S)
    : Prop := Forall (fun fo => field_valid (version_id vmsd) fo s) fos.

Lemma save_state_written {S : Type} vmsd (fos : list (FieldOk S)) s f l :
  DescrOk vmsd fos -> state_valid vmsd fos s -> written f l ->
  Z.of_nat (length l) + Z.of_nat (length (fields_enc fos s)) <= stream_cap ->
  written (vmstate_save_state f vmsd s).1 (l ++ fields_enc fos s) /\
  (vmstate_save_state f vmsd s).2 = s.
Proof.
  intros [Hf Hver Hpl Hps Hqs] Hv Hw Hc. unfold vmstate_save_state.
  rewrite Hf, Hps, Hqs. cbn [run_hook].
  destruct (save_fields_written (version_id vmsd) fos s f l Hv Hw Hc) as [W E].
  destruct (save_fields _ _ f s) as [f1 s1]. cbn in *. done.
Qed.

(** The result of loading: the listed fields come from the saved state, the
    others stay, and [post_load] has run. *)
Definition load_result {S : Type} (vmsd : VMStateDescription F S) (fos : list (FieldOk S))
    (s s0 : S) : Z * S :=
  let s1 := fields_upd fos s s0 in
  match post_load vmsd with Some h => h s1 (version_id vmsd) | None => (0, s1) end.

Lemma load_state_reading {S : Type} vmsd (fos : list (FieldOk S)) s f l s0 :
  DescrOk vmsd fos -> state_valid vmsd fos s -> reading f (fields_enc fos s ++ l) ->
  exists f', vmstate_load_state f vmsd s0 (version_id vmsd) =
      Ok (load_result vmsd fos s s0, f') /\ reading f' l.
Proof.
  intros [Hf Hver Hpl Hps Hqs] Hv Hr. unfold vmstate_load_state, load_result.
  rewrite Z.ltb_irrefl.
  destruct (Z.ltb_spec (version_id vmsd) (minimum_version_id_old vmsd)); [lia|].
  destruct (Z.ltb_spec (version_id vmsd) (minimum_version_id vmsd)); [lia|].
  rewrite Hpl, Hf. cbn [nz negb Z.eqb].
  destruct (load_fields_reading (version_id vmsd) fos s f l s0 Hv Hr) as (f' & E & R).
  rewrite E. cbn. destruct (post_load vmsd) as [h|]; [destruct (h _ _)|]; eauto.
Qed.

(** Descriptions nest: a structure member is a field type like the others. *)
Program Definition struct_ok {T : Type} (vmsd : VMStateDescription F T) (fos : list (FieldOk T))
    (Hd : DescrOk vmsd fos) (Hpost : post_load vmsd = None) : InfoOk (vms_struct vmsd) :=
  mkInfoOk T _ (fields_enc fos) (state_valid vmsd fos) (fields_upd fos) _ _.
Next Obligation. intros. cbn. by apply save_state_written. Qed.
Next Obligation.
  intros T vmsd fos Hd Hpost f l a a0 Hv Hr. cbn.
  destruct (load_state_reading vmsd fos a f l a0 Hd Hv Hr) as (f' & E & R).
  unfold load_result in E. rewrite Hpost in E. eauto.
Qed.

(** An array of encodable elements, stored back in place. *)
Lemma array_field_valid {S A : Type} (d : A) (fld : S -> list A) `{!FieldSetter fld} n
    (info : VMStateInfo F A) (ok : InfoOk info) v s :
  0 <= v -> length (fld s) = n -> Forall (valid ok) (fld s) ->
  (forall g, g (fld s) = fld s -> set_field fld g s = s) ->
  field_valid v (mkFieldOk S (VMSTATE_ARRAY d fld n 0 info) ok) s.
Proof.
  intros Hv Hl Hw Hs. split; [done|]. split; [done|]. cbn. intros i Hi.
  assert (Hi' : is_Some (fld s !! i)) by (apply lookup_lt_is_Some; lia). destruct Hi' as [x E].
  rewrite nth_lookup, E. cbn. split; [by apply (Forall_lookup_1 _ _ _ _ Hw E)|].
  apply Hs. by apply list_insert_id.
Qed.

End Laws.

Arguments fo_field {F _ _ S} _.
Arguments fo_info {F _ _ S} _.
Arguments mkFieldOk {F _ _ S} _ _.

#[local] Existing Instances Buffer.device_state_stream Buffer.device_state_stream_laws.

Lemma vmstate_checked_fields_witness :
  let f := Buffer.mkDeviceState (Some (map Some (be32 3))) 4 0 in
  exists f', info_get vmstate_info_int32_le f 5 = Ok (- EINVAL, 5, f') /\ reading f' [].
Proof.
  intros f. refine (proj2 (vmstate_checked_fields f [] 5 3 _ _)); [lia|].
  change (Buffer.reading f (be32 3)). vm_compute. repeat split; congruence || eauto.
Defined.
