(* ===== verification/Snapshot.v ===== *)
(** * The device registry and S2E's state-switch snapshot

    The [SaveStateEntry] registry of src/s2e/qemu/savevm.c
    ([calculate_new_instance_id], [vmstate_register], [find_se], ...) and
    [S2EDeviceState::initDeviceState]/[saveDeviceState]/[restoreDeviceState]
    of src/s2e/qemu/s2e/S2EDeviceState.cpp, which save every registered
    device when S2E leaves an execution state and load it back when it
    returns.  Entries registered the old way (with [save_state]/[load_state]
    callbacks instead of a [VMStateDescription]) are not modelled. *)

From stdpp Require Import strings.
From S2P Require Import Prelude DevState Savevm.
Import Buffer.

Section Registry.
Context {F : Type} `{!ByteStream F}.

(** A device: its description and the state [opaque] points to. *)
Record Device := mkDevice {
  dev_type : Type;
  dev_vmsd : VMStateDescription F dev_type;
  dev_state : dev_type
}.

(** [se_vmsd] and [se_opaque] are the identities (addresses) of the description
    and of the state; [se_device] is what they point to. *)
Record SaveStateEntry := mkEntry {
  idstr : string;
  instance_id : Z;
  se_version_id : Z;
  section_id : Z;
  se_vmsd : nat;
  se_opaque : nat;
  se_device : Device
}.

Record Registry := mkRegistry {
  savevm_handlers : list SaveStateEntry;
  global_section_id : Z
}.

(** [pstrcpy(se->idstr, sizeof(se->idstr), ..)] with a 256-byte [idstr]. *)
Definition pstrcpy256 (s : string) : string := String.substring 0 255 s.

Fixpoint new_id_loop (id : string) (l : list SaveStateEntry) (instance : Z) : Z :=
  match l with
  | [] => instance
  | se :: l =>
      new_id_loop id l
        (if String.eqb id (idstr se) && (instance <=? instance_id se)
         then s32 (instance_id se + 1) else instance)
  end.

Definition calculate_new_instance_id (r : Registry) (id : string) : Z :=
  new_id_loop id (savevm_handlers r) 0.

Definition vmstate_register (r : Registry) (inst : Z) (vmsd opaque : nat) (dev : Device)
    : Registry :=
  let se := mkEntry
    (pstrcpy256 (vmsd_name (dev_vmsd dev)))
    (if inst =? -1 then calculate_new_instance_id r (vmsd_name (dev_vmsd dev)) else inst)
    (version_id (dev_vmsd dev))
    (global_section_id r) vmsd opaque dev in
  mkRegistry (savevm_handlers r ++ [se]) (s32 (global_section_id r + 1)).

Definition vmstate_unregister (r : Registry) (vmsd opaque : nat) : Registry :=
  mkRegistry
    (List.filter (fun se => negb (Nat.eqb (se_vmsd se) vmsd && Nat.eqb (se_opaque se) opaque))
       (savevm_handlers r))
    (global_section_id r).

Fixpoint find_se (l : list SaveStateEntry) (id : string) (inst : Z) : option SaveStateEntry :=
  match l with
  | [] => None
  | se :: l =>
      if String.eqb (idstr se) id && (inst =? instance_id se) then Some se
      else find_se l id inst
  end.

(** The devices S2E snapshots: all but the shared ones and the three it
    manages itself. *)
Definition initDeviceState (r : Registry) (SharedDevices : list string) : list SaveStateEntry :=
  let ignoreList := SharedDevices ++ ["ram"; "block"; "cpu"]%string in
  List.filter (fun se => negb (existsb (String.eqb (idstr se)) ignoreList)) (savevm_handlers r).

(** [s2e_qemu_save_state] and [s2e_qemu_load_state]: the latter drops the
    result of the load. *)
Definition s2e_qemu_save_state (f : F) (dev : Device) : F * Device :=
  let '(f, s) := vmstate_save_state f (dev_vmsd dev) (dev_state dev) in
  (f, mkDevice (dev_type dev) (dev_vmsd dev) s).

Definition s2e_qemu_load_state (f : F) (dev : Device) : Res (F * Device) :=
  let* (_, s, f) :=
    vmstate_load_state f (dev_vmsd dev) (dev_state dev) (version_id (dev_vmsd dev)) in
  Ok (f, mkDevice (dev_type dev) (dev_vmsd dev) s).

Fixpoint save_devices (f : F) (devs : list Device) : F * list Device :=
  match devs with
  | [] => (f, [])
  | dev :: devs =>
      let '(f, dev) := s2e_qemu_save_state f dev in
      let '(f, devs) := save_devices f devs in
      (f, dev :: devs)
  end.

Fixpoint load_devices (f : F) (devs : list Device) : Res (F * list Device) :=
  match devs with
  | [] => Ok (f, [])
  | dev :: devs =>
      let* (f, dev) := s2e_qemu_load_state f dev in
      let* (f, devs) := load_devices f devs in
      Ok (f, dev :: devs)
  end.

End Registry.
Arguments Device F : clear implicits.
Arguments SaveStateEntry F : clear implicits.
Arguments Registry F : clear implicits.

Definition saveDeviceState (d : S2EDeviceState) (devs : list (Device S2EDeviceState))
    : S2EDeviceState * list (Device S2EDeviceState) :=
  let '(d, devs) := save_devices (rewind d) devs in
  (ShrinkBuffer d, devs).

Definition restoreDeviceState (d : S2EDeviceState) (devs : list (Device S2EDeviceState))
    : Res (list (Device S2EDeviceState)) :=
  if (m_StateSize d =? 0) || bool_decide (m_State d = None) then Fail AssertFail
  else
    let* (_, devs) := load_devices (rewind d) devs in
    Ok devs.

(** ** The registry keeps (name, instance) keys apart *)

Section RegistryProofs.
Context {F : Type} `{!ByteStream F}.

Definition ids_bounded (l : list (SaveStateEntry F)) : Prop :=
  Forall (fun se => 0 <= instance_id se < 2 ^ 31 - 1) l.

Lemma new_id_loop_above id (l : list (SaveStateEntry F)) n :
  ids_bounded l ->
  n <= new_id_loop id l n /\
  Forall (fun se => idstr se = id -> instance_id se < new_id_loop id l n) l.
Proof.
  intros Hb. revert n. induction Hb as [|se l Hse Hl IH]; intros n; cbn [new_id_loop].
  { split; [lia | constructor]. }
  set (n' := if _ : bool then _ else _). destruct (IH n') as [H1 H2].
  assert (Hn : n <= n' /\ (idstr se = id -> instance_id se < n')).
  { unfold n'. destruct (String.eqb_spec id (idstr se)) as [->|Hne]; cbn.
    - destruct (Z.leb_spec n (instance_id se)); [rewrite s32_small by lia|]; split; intros; lia.
    - split; [lia | congruence]. }
  split; [lia|]. constructor; [|done]. intros E. apply (proj2 Hn) in E. lia.
Qed.

Lemma find_se_app (l1 l2 : list (SaveStateEntry F)) id inst :
  find_se (l1 ++ l2) id inst =
    match find_se l1 id inst with Some se => Some se | None => find_se l2 id inst end.
Proof. induction l1 as [|se l1 IH]; cbn; [done|]. by destruct (_ && _). Qed.

Lemma find_se_fresh (l : list (SaveStateEntry F)) id inst :
  Forall (fun se => idstr se = id -> instance_id se < inst) l -> find_se l id inst = None.
Proof.
  induction 1 as [|se l H _ IH]; cbn; [done|].
  destruct (String.eqb_spec (idstr se) id) as [E|]; cbn; [|done].
  destruct (Z.eqb_spec inst (instance_id se)); [specialize (H E); lia | done].
Qed.

Lemma filter_registered (l : list (SaveStateEntry F)) (se : SaveStateEntry F) vmsd opaque :
  se_vmsd se = vmsd -> se_opaque se = opaque ->
  Forall (fun se => se_vmsd se <> vmsd \/ se_opaque se <> opaque) l ->
  List.filter (fun se => negb (Nat.eqb (se_vmsd se) vmsd && Nat.eqb (se_opaque se) opaque))
    (l ++ [se]) = l.
Proof.
  intros Hv Ho. induction 1 as [|x l Hx _ IH]; cbn.
  - by rewrite Hv, Ho, !Nat.eqb_refl.
  - rewrite IH. destruct (Nat.eqb_spec (se_vmsd x) vmsd), (Nat.eqb_spec (se_opaque x) opaque);
      cbn; done || tauto.
Qed.

(** Registering a device with instance id -1 under a name that fits the
    256-byte [idstr] gives it a (name, instance) pair no other entry has:
    [find_se] then returns exactly the new entry for that pair, and every
    lookup that succeeded before returns what it did.  Unregistering it
    removes that entry and no other. *)
Theorem vmstate_register_find (r : Registry F) vmsd opaque (dev : Device F) :
  ids_bounded (savevm_handlers r) ->
  pstrcpy256 (vmsd_name (dev_vmsd dev)) = vmsd_name (dev_vmsd dev) ->
  let inst := calculate_new_instance_id r (vmsd_name (dev_vmsd dev)) in
  let r' := vmstate_register r (-1) vmsd opaque dev in
  find_se (savevm_handlers r) (vmsd_name (dev_vmsd dev)) inst = None /\
  (exists se, find_se (savevm_handlers r') (vmsd_name (dev_vmsd dev)) inst = Some se /\
     se_device se = dev /\ section_id se = global_section_id r) /\
  (forall id i se, find_se (savevm_handlers r) id i = Some se ->
     find_se (savevm_handlers r') id i = Some se) /\
  (Forall (fun se => se_vmsd se <> vmsd \/ se_opaque se <> opaque) (savevm_handlers r) ->
     savevm_handlers (vmstate_unregister r' vmsd opaque) = savevm_handlers r).
Proof.
  intros Hb Hn inst r'.
  destruct (new_id_loop_above (vmsd_name (dev_vmsd dev)) (savevm_handlers r) 0 Hb) as [H1 H2].
  assert (Hnone : find_se (savevm_handlers r) (vmsd_name (dev_vmsd dev)) inst = None)
    by by apply find_se_fresh.
  split; [done|]. split; [|split].
  - cbn. rewrite find_se_app, Hnone. cbn. rewrite Hn, String.eqb_refl.
    unfold inst. rewrite Z.eqb_refl. cbn. eauto.
  - intros id i se Hse. cbn. by rewrite find_se_app, Hse.
  - intros Hf. cbn. by apply filter_registered.
Qed.

End RegistryProofs.

(** ** The snapshot round trip *)

(** A device with the state to be saved ([dp_s]), the state it is loaded
    over ([dp_s0]) and what makes its description sound. *)
Record DevPair := mkDevPair {
  dp_type : Type;
  dp_vmsd : VMStateDescription S2EDeviceState dp_type;
  dp_fields : list (FieldOk dp_type);
  dp_ok : DescrOk dp_vmsd dp_fields;
  dp_s : dp_type;
  dp_s0 : dp_type;
  dp_valid : state_valid dp_vmsd dp_fields dp_s
}.

Definition dp_saved (p : DevPair) : Device S2EDeviceState :=
  mkDevice (dp_type p) (dp_vmsd p) (dp_s p).
Definition dp_target (p : DevPair) : Device S2EDeviceState :=
  mkDevice (dp_type p) (dp_vmsd p) (dp_s0 p).
Definition dp_loaded (p : DevPair) : Device S2EDeviceState :=
  mkDevice (dp_type p) (dp_vmsd p) (load_result (dp_vmsd p) (dp_fields p) (dp_s p) (dp_s0 p)).2.
Definition dp_enc (p : DevPair) : list Z := fields_enc (dp_fields p) (dp_s p).

Lemma save_devices_written (ps : list DevPair) f l :
  written f l ->
  Z.of_nat (length l) + Z.of_nat (length (concat (map dp_enc ps))) <= cap ->
  written (save_devices f (map dp_saved ps)).1 (l ++ concat (map dp_enc ps)) /\
  (save_devices f (map dp_saved ps)).2 = map dp_saved ps.
Proof.
  revert f l. induction ps as [|p ps IH]; intros f l Hw Hc; cbn in *.
  { by rewrite (right_id_L [] (++)). }
  rewrite length_app in Hc. unfold s2e_qemu_save_state. cbn.
  destruct (save_state_written (dp_vmsd p) (dp_fields p) (dp_s p) f l (dp_ok p) (dp_valid p) Hw)
    as [W E]; [unfold dp_enc in Hc; cbn; lia|].
  destruct (vmstate_save_state f (dp_vmsd p) (dp_s p)) as [f1 s1]. cbn in W, E. subst s1.
  destruct (IH f1 (l ++ dp_enc p) W) as [W2 E2]; [rewrite length_app; lia|].
  destruct (save_devices f1 (map dp_saved ps)) as [f2 ds]. cbn in W2, E2 |- *. subst ds.
  by rewrite (assoc_L (++)).
Qed.

Lemma load_devices_reading (ps : list DevPair) f l :
  reading f (concat (map dp_enc ps) ++ l) ->
  exists f', load_devices f (map dp_target ps) = Ok (f', map dp_loaded ps) /\ reading f' l.
Proof.
  revert f. induction ps as [|p ps IH]; intros f Hr; cbn in *; [eauto|].
  rewrite <- (assoc_L (++)) in Hr.
  destruct (load_state_reading (dp_vmsd p) (dp_fields p) (dp_s p) f _ (dp_s0 p)
    (dp_ok p) (dp_valid p) Hr) as (f1 & E & R).
  unfold s2e_qemu_load_state. cbn. rewrite E. cbn.
  destruct (IH f1 R) as (f2 & E2 & R2). exists f2. split; [|done]. unfold dp_loaded at 1.
  destruct (load_result (dp_vmsd p) (dp_fields p) (dp_s p) (dp_s0 p)) as [r s1]. cbn.
  by rewrite E2.
Qed.

(** Switching execution states loses nothing the descriptions list:
    [saveDeviceState] of any devices, into a buffer from any earlier session,
    leaves them unchanged, and [restoreDeviceState] of the buffer over any
    other states of the same devices succeeds and gives each device the
    saved value of every listed field (then its [post_load] hook). *)
Lemma save_restore (ps : list DevPair) (d : S2EDeviceState) (l : list Z) :
  written d l ->
  0 < Z.of_nat (length (concat (map dp_enc ps))) <= cap ->
  (saveDeviceState d (map dp_saved ps)).2 = map dp_saved ps /\
  restoreDeviceState (saveDeviceState d (map dp_saved ps)).1 (map dp_target ps)
    = Ok (map dp_loaded ps).
Proof.
  intros Hw Hsz. unfold saveDeviceState.
  destruct (save_devices_written ps (rewind d) [] (written_rewind d l Hw)) as [W E];
    [cbn; lia|].
  destruct (save_devices (rewind d) (map dp_saved ps)) as [d1 ds]. cbn [fst snd] in *.
  split; [done|]. set (bs := concat (map dp_enc ps)) in *.
  destruct (shrink_reading d1 bs W) as [R Hs]; [intros Hn; rewrite Hn in Hsz; cbn in Hsz; lia|].
  unfold restoreDeviceState. rewrite Hs.
  destruct (Z.eqb_spec (Z.of_nat (length bs)) 0); [lia|].
  rewrite bool_decide_false; cbn [orb].
  - rewrite <- (right_id_L [] (++) bs) in R.
    destruct (load_devices_reading ps _ [] R) as (f' & E2 & _). by rewrite E2.
  - intros Hn. unfold reading, rewind in R. cbn in R. by rewrite Hn in R.
Qed.
