(* ===== verification/Pic.v ===== *)
(** * The 8259 interrupt controllers

    src/s2e/qemu/hw/i8259.c: the master/slave pair, its edge and level
    inputs, priority resolution, acknowledge cycle and the two I/O ports of
    each controller.

    [PicState2] holds both controllers; a C pointer [PicState *s] into it is
    the controller's index ([false] the master, [true] the slave).  The line
    to the CPU, [parent_irq], is the list of levels driven on it, the latest
    first. *)

From stdpp Require Import strings.
From S2P Require Import Prelude DevState Savevm.

Module Pic.

Record PicState := mkPicState {
  last_irr : Z;
  irr : Z;
  imr : Z;
  isr : Z;
  priority_add : Z;
  irq_base : Z;
  read_reg_select : Z;
  poll : Z;
  special_mask : Z;
  init_state : Z;
  auto_eoi : Z;
  rotate_on_auto_eoi : Z;
  special_fully_nested_mode : Z;
  init4 : Z;
  single_mode : Z;
  elcr : Z;
  elcr_mask : Z
}.
#[export] Instance PicState_eta : RecordEta PicState :=
  fields mkPicState < last_irr ; irr ; imr ; isr ; priority_add ; irq_base ;
    read_reg_select ; poll ; special_mask ; init_state ; auto_eoi ; rotate_on_auto_eoi ;
    special_fully_nested_mode ; init4 ; single_mode ; elcr ; elcr_mask >.

Record PicState2 := mkPicState2 {
  pics0 : PicState;
  pics1 : PicState;
  parent_irq : list Z
}.
#[export] Instance PicState2_eta : RecordEta PicState2 :=
  fields mkPicState2 < pics0 ; pics1 ; parent_irq >.

(** [pics[i]], [i] being the slave. *)
Definition pic (s2 : PicState2) (i : bool) : PicState := if i then pics1 s2 else pics0 s2.
Definition set_pic (s2 : PicState2) (i : bool) (s : PicState) : PicState2 :=
  if i then s2 <| pics1 := s |> else s2 <| pics0 := s |>.
Definition qemu_irq_raise (s2 : PicState2) : PicState2 :=
  s2 <| parent_irq := 1 :: parent_irq s2 |>.
Definition qemu_irq_lower (s2 : PicState2) : PicState2 :=
  s2 <| parent_irq := 0 :: parent_irq s2 |>.

(** ** Inputs and priorities *)

Definition pic_set_irq1 (s : PicState) (irq level : Z) : PicState :=
  let mask := BIT irq in
  if nz (Z.land (elcr s) mask) then
    (* level triggered *)
    if nz level then
      s <| irr := u8 (Z.lor (irr s) mask) |> <| last_irr := u8 (Z.lor (last_irr s) mask) |>
    else
      s <| irr := u8 (Z.land (irr s) (Z.lnot mask)) |>
        <| last_irr := u8 (Z.land (last_irr s) (Z.lnot mask)) |>
  else
    (* edge triggered *)
    if nz level then
      let s := if Z.land (last_irr s) mask =? 0
               then s <| irr := u8 (Z.lor (irr s) mask) |> else s in
      s <| last_irr := u8 (Z.lor (last_irr s) mask) |>
    else s <| last_irr := u8 (Z.land (last_irr s) (Z.lnot mask)) |>.

(** The [while] of [get_priority]; 8 iterations visit every bit, see
    [get_priority_exits]. *)
Fixpoint priority_loop (fuel : nat) (padd mask priority : Z) : Z :=
  match fuel with
  | O => priority
  | S fuel =>
      if Z.land mask (BIT (Z.land (priority + padd) 7)) =? 0
      then priority_loop fuel padd mask (priority + 1)
      else priority
  end.

Definition get_priority (s : PicState) (mask : Z) : Z :=
  if mask =? 0 then 8 else priority_loop 8 (priority_add s) mask 0.

(** [master] is the test [s == &s->pics_state->pics[0]]. *)
Definition pic_get_irq (s : PicState) (master : bool) : Z :=
  let mask := Z.land (irr s) (Z.lnot (imr s)) in
  let priority := get_priority s mask in
  if priority =? 8 then -1
  else
    let mask := isr s in
    let mask := if nz (special_mask s) then Z.land mask (Z.lnot (imr s)) else mask in
    let mask := if nz (special_fully_nested_mode s) && master
                then Z.land mask (Z.lnot (BIT 2)) else mask in
    let cur_priority := get_priority s mask in
    if priority <? cur_priority then Z.land (priority + priority_add s) 7 else -1.

Definition pic_update_irq (s2 : PicState2) : PicState2 :=
  let irq2 := pic_get_irq (pics1 s2) false in
  let s2 :=
    if 0 <=? irq2 then
      let s2 := s2 <| pics0 := pic_set_irq1 (pics0 s2) 2 1 |> in
      s2 <| pics0 := pic_set_irq1 (pics0 s2) 2 0 |>
    else s2 in
  let irq := pic_get_irq (pics0 s2) true in
  if 0 <=? irq then qemu_irq_raise s2 else qemu_irq_lower s2.

Definition i8259_set_irq (s2 : PicState2) (irq level : Z) : PicState2 :=
  let i := nz (Z.shiftr irq 3) in
  let s2 := set_pic s2 i (pic_set_irq1 (pic s2 i) (Z.land irq 7) level) in
  pic_update_irq s2.

(** ** Acknowledge *)

Definition pic_intack (s : PicState) (irq : Z) : PicState :=
  let s :=
    if nz (auto_eoi s) then
      if nz (rotate_on_auto_eoi s) then s <| priority_add := Z.land (irq + 1) 7 |> else s
    else s <| isr := u8 (Z.lor (isr s) (BIT irq)) |> in
  if negb (nz (Z.land (elcr s) (BIT irq)))
  then s <| irr := u8 (Z.land (irr s) (Z.lnot (BIT irq))) |> else s.

(** Returns the interrupt number and the new state. *)
Definition pic_read_irq (s2 : PicState2) : Z * PicState2 :=
  let irq := pic_get_irq (pics0 s2) true in
  let '(intno, s2) :=
    if 0 <=? irq then
      let s2 := s2 <| pics0 := pic_intack (pics0 s2) irq |> in
      if irq =? 2 then
        let irq2 := pic_get_irq (pics1 s2) false in
        let '(irq2, s2) :=
          if 0 <=? irq2 then (irq2, s2 <| pics1 := pic_intack (pics1 s2) irq2 |>)
          else (7, s2) in
        (irq_base (pics1 s2) + irq2, s2)
      else (irq_base (pics0 s2) + irq, s2)
    else (irq_base (pics0 s2) + 7, s2) in
  (intno, pic_update_irq s2).

(** ** Ports *)

Definition pic_reset (s : PicState) : PicState :=
  mkPicState 0 0 0 0 0 0 0 0 0 0 0 0 0 0 0 (elcr s) (elcr_mask s).

(** OCW2, [val >> 5] being the command. *)
Definition pic_ocw2 (s2 : PicState2) (i : bool) (val : Z) : PicState2 :=
  let s := pic s2 i in
  let cmd := Z.shiftr val 5 in
  if (cmd =? 0) || (cmd =? 4) then
    set_pic s2 i (s <| rotate_on_auto_eoi := u8 (Z.shiftr cmd 2) |>)
  else if (cmd =? 1) || (cmd =? 5) then
    let priority := get_priority s (isr s) in
    if negb (priority =? 8) then
      let irq := Z.land (priority + priority_add s) 7 in
      let s := s <| isr := u8 (Z.land (isr s) (Z.lnot (BIT irq))) |> in
      let s := if cmd =? 5 then s <| priority_add := Z.land (irq + 1) 7 |> else s in
      pic_update_irq (set_pic s2 i s)
    else s2
  else if cmd =? 3 then
    let irq := Z.land val 7 in
    pic_update_irq (set_pic s2 i (s <| isr := u8 (Z.land (isr s) (Z.lnot (BIT irq))) |>))
  else if cmd =? 6 then
    pic_update_irq (set_pic s2 i (s <| priority_add := Z.land (val + 1) 7 |>))
  else if cmd =? 7 then
    let irq := Z.land val 7 in
    pic_update_irq
      (set_pic s2 i (s <| isr := u8 (Z.land (isr s) (Z.lnot (BIT irq))) |>
                       <| priority_add := Z.land (irq + 1) 7 |>))
  else s2.

Definition pic_ioport_write (s2 : PicState2) (i : bool) (addr val : Z) : Res PicState2 :=
  let s := pic s2 i in
  if Z.land addr 1 =? 0 then
    if nz (Z.land val 0x10) then
      let s := pic_reset s in
      let s2 := qemu_irq_lower (set_pic s2 i s) in
      let s := s <| init_state := 1 |> <| init4 := u8 (Z.land val 1) |>
                 <| single_mode := u8 (Z.land val 2) |> in
      if nz (Z.land val 0x08) then Fail HwError else Ok (set_pic s2 i s)
    else if nz (Z.land val 0x08) then
      let s := if nz (Z.land val 0x04) then s <| poll := 1 |> else s in
      let s := if nz (Z.land val 0x02) then s <| read_reg_select := u8 (Z.land val 1) |> else s in
      let s := if nz (Z.land val 0x40)
               then s <| special_mask := u8 (Z.land (Z.shiftr val 5) 1) |> else s in
      Ok (set_pic s2 i s)
    else Ok (pic_ocw2 s2 i val)
  else
    if init_state s =? 0 then Ok (pic_update_irq (set_pic s2 i (s <| imr := u8 val |>)))
    else if init_state s =? 1 then
      Ok (set_pic s2 i
        (s <| irq_base := u8 (Z.land val 0xf8) |>
           <| init_state := if nz (single_mode s) then (if nz (init4 s) then 3 else 0) else 2 |>))
    else if init_state s =? 2 then
      Ok (set_pic s2 i (s <| init_state := if nz (init4 s) then 3 else 0 |>))
    else if init_state s =? 3 then
      Ok (set_pic s2 i
        (s <| special_fully_nested_mode := u8 (Z.land (Z.shiftr val 4) 1) |>
           <| auto_eoi := u8 (Z.land (Z.shiftr val 1) 1) |>
           <| init_state := 0 |>))
    else Ok s2.

Definition pic_poll_read (s2 : PicState2) (i : bool) (addr1 : Z) : Z * PicState2 :=
  let ret := pic_get_irq (pic s2 i) (negb i) in
  let hi := nz (Z.shiftr addr1 7) in
  if 0 <=? ret then
    let s2 :=
      if hi then
        let m := pics0 s2 in
        s2 <| pics0 := m <| isr := u8 (Z.land (isr m) (Z.lnot (BIT 2))) |>
                         <| irr := u8 (Z.land (irr m) (Z.lnot (BIT 2))) |> |>
      else s2 in
    let s := pic s2 i in
    let s2 := set_pic s2 i
      (s <| irr := u8 (Z.land (irr s) (Z.lnot (BIT ret))) |>
         <| isr := u8 (Z.land (isr s) (Z.lnot (BIT ret))) |>) in
    (ret, if hi || negb (ret =? 2) then pic_update_irq s2 else s2)
  else (7, pic_update_irq s2).

Definition pic_ioport_read (s2 : PicState2) (i : bool) (addr1 : Z) : Z * PicState2 :=
  if nz (poll (pic s2 i)) then
    let '(ret, s2) := pic_poll_read s2 i addr1 in
    (ret, set_pic s2 i ((pic s2 i) <| poll := 0 |>))
  else
    let s := pic s2 i in
    (if Z.land addr1 1 =? 0 then (if nz (read_reg_select s) then isr s else irr s)
     else imr s, s2).

Definition pic_intack_read (s2 : PicState2) : Z * PicState2 :=
  let '(ret, s2) := pic_poll_read s2 false 0x00 in
  let '(ret, s2) :=
    if ret =? 2 then
      let '(r, s2) := pic_poll_read s2 true 0x80 in (r + 8, s2)
    else (ret, s2) in
  (ret, s2 <| pics0 := (pics0 s2) <| read_reg_select := 1 |> |>).

Definition elcr_ioport_write (s2 : PicState2) (i : bool) (val : Z) : PicState2 :=
  let s := pic s2 i in
  set_pic s2 i (s <| elcr := u8 (Z.land val (elcr_mask s)) |>).

Definition elcr_ioport_read (s2 : PicState2) (i : bool) : Z := elcr (pic s2 i).

(** [i8259_init]: zeroed memory and the two ELCR masks. *)
Definition i8259_init : PicState2 :=
  mkPicState2 (mkPicState 0 0 0 0 0 0 0 0 0 0 0 0 0 0 0 0 0xf8)
              (mkPicState 0 0 0 0 0 0 0 0 0 0 0 0 0 0 0 0 0xde) [].

Definition vmstate_pic {F : Type} `{!ByteStream F} : VMStateDescription F PicState :=
  mkVMSD "i8259"%string 1 1 1 None None None None None
    [VMSTATE_UINT8 last_irr; VMSTATE_UINT8 irr; VMSTATE_UINT8 imr; VMSTATE_UINT8 isr;
     VMSTATE_UINT8 priority_add; VMSTATE_UINT8 irq_base; VMSTATE_UINT8 read_reg_select;
     VMSTATE_UINT8 poll; VMSTATE_UINT8 special_mask; VMSTATE_UINT8 init_state;
     VMSTATE_UINT8 auto_eoi; VMSTATE_UINT8 rotate_on_auto_eoi;
     VMSTATE_UINT8 special_fully_nested_mode; VMSTATE_UINT8 init4;
     VMSTATE_UINT8 single_mode; VMSTATE_UINT8 elcr].

(** ** Type invariant *)

Record pic_wf (s : PicState) : Prop := {
  wf_last_irr : range 8 (last_irr s);
  wf_irr : range 8 (irr s);
  wf_imr : range 8 (imr s);
  wf_isr : range 8 (isr s);
  wf_priority_add : range 3 (priority_add s);
  wf_irq_base : range 8 (irq_base s);
  wf_irq_base_low : Z.land (irq_base s) 7 = 0;
  wf_read_reg_select : range 8 (read_reg_select s);
  wf_poll : range 8 (poll s);
  wf_special_mask : range 8 (special_mask s);
  wf_init_state : 0 <= init_state s <= 3;
  wf_auto_eoi : range 8 (auto_eoi s);
  wf_rotate : range 8 (rotate_on_auto_eoi s);
  wf_sfnm : range 8 (special_fully_nested_mode s);
  wf_init4 : range 8 (init4 s);
  wf_single : range 8 (single_mode s);
  wf_elcr : range 8 (elcr s);
  wf_elcr_sub : forall i, Z.testbit (elcr s) i = true -> Z.testbit (elcr_mask s) i = true
}.

Lemma land7_range x : range 3 (Z.land x 7).
Proof. rewrite land_7. apply (Z.mod_pos_bound x 8). lia. Qed.
#[local] Hint Resolve land7_range : s2e.

Lemma irq_base_low v : Z.land (u8 (Z.land v 0xf8)) 7 = 0.
Proof.
  apply Z.bits_inj'. intros i Hi. unfold u8.
  rewrite Z.land_spec, testbit_mod_pow2, Z.land_spec, Z.bits_0 by lia.
  destruct (Z.lt_ge_cases i 3).
  - replace (Z.testbit 0xf8 i) with false; [btauto|].
    assert (i = 0 \/ i = 1 \/ i = 2) as [->|[->| ->]] by lia; done.
  - rewrite (testbit_high 7 3 i) by (unfold range; lia). btauto.
Qed.
#[local] Hint Resolve irq_base_low : s2e.

(** Preservation of [pic_wf] by record updates: each changed field is in
    range by construction. *)
Ltac pic_wf_step :=
  match goal with H : pic_wf _ |- _ => destruct H end;
  constructor; cbn; auto with s2e.

Lemma pic_wf_irr s x : pic_wf s -> pic_wf (s <| irr := u8 x |>).
Proof. intros. pic_wf_step. Qed.
Lemma pic_wf_last_irr s x : pic_wf s -> pic_wf (s <| last_irr := u8 x |>).
Proof. intros. pic_wf_step. Qed.
Lemma pic_wf_isr s x : pic_wf s -> pic_wf (s <| isr := u8 x |>).
Proof. intros. pic_wf_step. Qed.
Lemma pic_wf_imr s x : pic_wf s -> pic_wf (s <| imr := u8 x |>).
Proof. intros. pic_wf_step. Qed.
Lemma pic_wf_padd s x : pic_wf s -> pic_wf (s <| priority_add := Z.land x 7 |>).
Proof. intros. pic_wf_step. Qed.

Create HintDb picwf discriminated.
#[local] Hint Resolve pic_wf_irr pic_wf_last_irr pic_wf_isr pic_wf_imr pic_wf_padd : picwf.

Lemma pic_set_irq1_wf s irq level : pic_wf s -> pic_wf (pic_set_irq1 s irq level).
Proof. intros H. unfold pic_set_irq1. repeat case_match; auto with picwf. Qed.
Lemma pic_intack_wf s irq : pic_wf s -> pic_wf (pic_intack s irq).
Proof. intros H. unfold pic_intack. repeat case_match; auto with picwf. Qed.
Lemma pic_reset_wf s : pic_wf s -> pic_wf (pic_reset s).
Proof. intros [ ]. constructor; cbn; auto with s2e lia. Qed.

Definition pics_wf (s2 : PicState2) : Prop := pic_wf (pics0 s2) /\ pic_wf (pics1 s2).

Lemma set_pic_wf s2 i s : pics_wf s2 -> pic_wf s -> pics_wf (set_pic s2 i s).
Proof. intros [H0 H1] H. destruct i; split; done. Qed.
Lemma pic_pic_wf s2 i : pics_wf s2 -> pic_wf (pic s2 i).
Proof. intros [H0 H1]. by destruct i. Qed.
Lemma pic_update_wf s2 : pics_wf s2 -> pics_wf (pic_update_irq s2).
Proof.
  intros [H0 H1]. unfold pic_update_irq.
  repeat case_match; split; cbn; auto using pic_set_irq1_wf.
Qed.
#[local] Hint Resolve pic_set_irq1_wf pic_intack_wf pic_reset_wf set_pic_wf pic_pic_wf
  pic_update_wf : picwf.

Lemma pic_ocw2_wf s2 i val : pics_wf s2 -> pics_wf (pic_ocw2 s2 i val).
Proof.
  intros H. pose proof (pic_pic_wf s2 i H) as Hs. unfold pic_ocw2.
  repeat case_match; auto 8 with picwf.
  apply set_pic_wf; [done|]. pic_wf_step.
Qed.

Lemma pic_poll_read_wf s2 i addr1 : pics_wf s2 -> pics_wf (pic_poll_read s2 i addr1).2.
Proof.
  intros H. unfold pic_poll_read.
  set (s2' := if nz (Z.shiftr addr1 7) then _ else s2).
  assert (H' : pics_wf s2').
  { unfold s2'. destruct (nz _); [|done]. destruct H as [H0 H1].
    split; [exact (pic_wf_irr _ _ (pic_wf_isr _ _ H0)) | exact H1]. }
  repeat case_match; cbn [snd]; auto 8 with picwf.
Qed.

(** ** Priority resolution *)

(** Priority number of input [i] under the current rotation, 0 the highest. *)
Definition prio (s : PicState) (i : Z) : Z := (i - priority_add s) mod 8.

Definition pending (s : PicState) (i : Z) : bool :=
  Z.testbit (irr s) i && negb (Z.testbit (imr s) i).

(** In-service inputs that hold back requests of the same or lower priority. *)
Definition blocking (s : PicState) (master : bool) (i : Z) : bool :=
  Z.testbit (isr s) i
  && (negb (nz (special_mask s)) || negb (Z.testbit (imr s) i))
  && (negb (nz (special_fully_nested_mode s) && master) || negb (i =? 2)).

Lemma loop_bit mask p padd :
  0 <= p + padd ->
  (Z.land mask (BIT (Z.land (p + padd) 7)) =? 0) = negb (Z.testbit mask ((p + padd) mod 8)).
Proof.
  intros. rewrite land_7. rewrite <- land_BIT_nz by (apply Z.mod_pos_bound; lia).
  unfold nz. by rewrite negb_involutive.
Qed.

Lemma priority_loop_spec fuel padd mask p :
  0 <= padd -> 0 <= p ->
  let r := priority_loop fuel padd mask p in
  p <= r <= p + Z.of_nat fuel /\
  (forall q, p <= q < r -> Z.testbit mask ((q + padd) mod 8) = false) /\
  (r < p + Z.of_nat fuel -> Z.testbit mask ((r + padd) mod 8) = true).
Proof.
  intros Hpa. revert p. induction fuel as [|fuel IH]; intros p Hp; cbn [priority_loop].
  { cbn. repeat split; try lia. }
  rewrite loop_bit by lia. destruct (Z.testbit mask ((p + padd) mod 8)) eqn:E; cbn [negb].
  - cbv zeta. repeat split; try lia; done.
  - destruct (IH (p + 1) ltac:(lia)) as (H1 & H2 & H3). cbv zeta in *.
    repeat split; try lia.
    + intros q Hq. destruct (Z.eq_dec q p) as [->|]; [done|]. apply H2. lia.
    + intros. apply H3. lia.
Qed.

Lemma unrotate i padd : 0 <= i < 8 -> ((i - padd) mod 8 + padd) mod 8 = i.
Proof.
  intros. rewrite Z.add_mod_idemp_l by lia. rewrite Z.sub_add. apply Z.mod_small. lia.
Qed.

Lemma rotate_prio s p : 0 <= p < 8 -> prio s ((p + priority_add s) mod 8) = p.
Proof.
  intros. unfold prio. rewrite Zminus_mod_idemp_l, Z.add_simpl_r. apply Z.mod_small. lia.
Qed.

(** [get_priority] returns the least priority number of a set bit, or 8; in
    particular its loop stops by its own condition within 8 rounds. *)
Lemma get_priority_spec s mask :
  range 3 (priority_add s) -> range 8 mask ->
  let r := get_priority s mask in
  (r = 8 /\ forall i, 0 <= i < 8 -> Z.testbit mask i = false) \/
  (0 <= r < 8 /\ Z.testbit mask ((r + priority_add s) mod 8) = true /\
   forall i, 0 <= i < 8 -> Z.testbit mask i = true -> r <= prio s i).
Proof.
  intros Hpa Hm. unfold range in Hpa. unfold get_priority. cbv zeta.
  destruct (Z.eqb_spec mask 0) as [->|Hne].
  { left. split; [done|]. intros. apply Z.bits_0. }
  destruct (priority_loop_spec 8 (priority_add s) mask 0) as (H1 & H2 & H3); try lia.
  cbv zeta in *. set (r := priority_loop _ _ _ _) in *.
  assert (Hmin : forall i, 0 <= i < 8 -> Z.testbit mask i = true -> r <= prio s i).
  { intros i Hi Hb. destruct (Z.le_gt_cases r (prio s i)); [done|].
    pose proof (Z.mod_pos_bound (i - priority_add s) 8 ltac:(lia)).
    unfold prio in *. rewrite <- (unrotate i (priority_add s)) in Hb by lia. rewrite H2 in Hb; [done|lia]. }
  right. assert (Hr : r < 8).
  { destruct (Z.lt_ge_cases r 8); [done|]. exfalso. apply Hne.
    apply Z.bits_inj'. intros i Hi. rewrite Z.bits_0.
    destruct (Z.lt_ge_cases i 8).
    - destruct (Z.testbit mask i) eqn:Hb; [|done]. specialize (Hmin i ltac:(lia) Hb).
      pose proof (Z.mod_pos_bound (i - priority_add s) 8 ltac:(lia)). unfold prio in Hmin. lia.
    - apply (testbit_high mask 8); [done|lia..]. }
  repeat split; [lia|lia| |done]. apply H3. lia.
Qed.

Lemma prio_range s i : 0 <= prio s i < 8.
Proof. apply Z.mod_pos_bound. lia. Qed.

Lemma prio_inj s i j : 0 <= i < 8 -> 0 <= j < 8 -> prio s i = prio s j -> i = j.
Proof.
  intros Hi Hj E. rewrite <- (unrotate i (priority_add s)), <- (unrotate j (priority_add s)) by done.
  unfold prio in E. by rewrite E.
Qed.

Lemma request_mask s i : 0 <= i ->
  Z.testbit (Z.land (irr s) (Z.lnot (imr s))) i = pending s i.
Proof. intros. by rewrite Z.land_spec, Z.lnot_spec. Qed.

(** The in-service mask as [pic_get_irq] computes it. *)
Definition service_mask (s : PicState) (master : bool) : Z :=
  let mask := isr s in
  let mask := if nz (special_mask s) then Z.land mask (Z.lnot (imr s)) else mask in
  if nz (special_fully_nested_mode s) && master then Z.land mask (Z.lnot (BIT 2)) else mask.

Lemma service_mask_bit s master i : 0 <= i ->
  Z.testbit (service_mask s master) i = blocking s master i.
Proof.
  intros Hi. unfold service_mask, blocking.
  destruct (nz (special_fully_nested_mode s) && master), (nz (special_mask s)); cbn [negb orb];
    rewrite ?clear_bit_testbit, ?Z.land_spec, ?Z.lnot_spec, ?(Z.eqb_sym 2 i) by lia; btauto.
Qed.

Lemma service_mask_range s master : pic_wf s -> range 8 (service_mask s master).
Proof.
  intros H. destruct H. unfold service_mask.
  destruct (_ && master), (nz (special_mask s)); auto with s2e.
Qed.

(** The input that wins: requested and not masked, of the highest priority
    among those, and above everything in service. *)
Definition wins (s : PicState) (master : bool) (i : Z) : Prop :=
  pending s i = true /\
  (forall j, 0 <= j < 8 -> pending s j = true -> prio s i <= prio s j) /\
  (forall j, 0 <= j < 8 -> blocking s master j = true -> prio s i < prio s j).

Lemma pic_get_irq_cases s master : pic_wf s ->
  (exists i, 0 <= i < 8 /\ pic_get_irq s master = i /\ wins s master i) \/
  (pic_get_irq s master = -1 /\ forall i, 0 <= i < 8 -> ~ wins s master i).
Proof.
  intros Hwf. pose proof (wf_priority_add s Hwf) as Hpa.
  assert (Hr1 : range 8 (Z.land (irr s) (Z.lnot (imr s)))) by (destruct Hwf; auto with s2e).
  unfold pic_get_irq. fold (service_mask s master).
  destruct (get_priority_spec s _ Hpa Hr1) as [[E1 N1]|(B1 & T1 & M1)].
  { right. rewrite E1. cbn. split; [done|]. intros i Hi (P & _).
    rewrite <- request_mask, N1 in P by lia. done. }
  set (p1 := get_priority s _) in *. set (i1 := (p1 + priority_add s) mod 8).
  assert (Hi1 : 0 <= i1 < 8) by (apply Z.mod_pos_bound; lia).
  assert (Ep : prio s i1 = p1) by (by apply rotate_prio).
  rewrite request_mask in T1 by (fold i1; lia). fold i1 in T1.
  assert (Hmin : forall j, 0 <= j < 8 -> pending s j = true -> p1 <= prio s j).
  { intros j Hj Hp. apply M1; [done|]. by rewrite request_mask by lia. }
  destruct (Z.eqb_spec p1 8); [lia|].
  destruct (get_priority_spec s _ Hpa (service_mask_range s master Hwf)) as [[E2 N2]|(B2 & T2 & M2)].
  - left. exists i1. rewrite E2. destruct (Z.ltb_spec p1 8); [|lia].
    rewrite land_7. fold i1. repeat split; [lia|lia|done| |].
    + intros j Hj Hp. rewrite Ep. auto.
    + intros j Hj Hb. rewrite <- service_mask_bit, N2 in Hb by lia. done.
  - set (p2 := get_priority s (service_mask s master)) in *.
    set (i2 := (p2 + priority_add s) mod 8) in *.
    assert (Hi2 : 0 <= i2 < 8) by (apply Z.mod_pos_bound; lia).
    destruct (Z.ltb_spec p1 p2) as [Hlt|Hge].
    + left. exists i1. rewrite land_7. fold i1. repeat split; [lia|lia|done| |].
      * intros j Hj Hp. rewrite Ep. auto.
      * intros j Hj Hb. rewrite Ep. rewrite <- service_mask_bit in Hb by lia.
        specialize (M2 j Hj Hb). lia.
    + right. split; [done|]. intros i Hi (P & _ & B).
      specialize (B i2 Hi2). rewrite <- service_mask_bit in B by lia. specialize (B T2).
      specialize (Hmin i Hi P). unfold i2 in B. rewrite rotate_prio in B by done. lia.
Qed.

Lemma wins_unique s master i j :
  0 <= i < 8 -> 0 <= j < 8 -> wins s master i -> wins s master j -> i = j.
Proof.
  intros Hi Hj (P1 & M1 & _) (P2 & M2 & _). apply (prio_inj s); try done.
  specialize (M1 j Hj P2). specialize (M2 i Hi P1). lia.
Qed.

Lemma pic_get_irq_wins s master i :
  pic_wf s -> 0 <= i < 8 -> (pic_get_irq s master = i <-> wins s master i).
Proof.
  intros Hwf Hi. destruct (pic_get_irq_cases s master Hwf) as [(k & Hk & E & W)|[E N]]; split.
  - intros <-. by rewrite E.
  - intros W'. rewrite E. by apply (wins_unique s master).
  - lia.
  - intros W. by destruct (N i Hi).
Qed.

Lemma pic_get_irq_range s master : pic_wf s -> -1 <= pic_get_irq s master < 8.
Proof. intros H. destruct (pic_get_irq_cases s master H) as [(k & Hk & E & _)|[E _]]; lia. Qed.

(** ** Acknowledge and end of interrupt *)

Lemma intack_fields s irq :
  0 <= irq < 8 -> pic_wf s -> auto_eoi s = 0 ->
  let s' := pic_intack s irq in
  isr s' = Z.lor (isr s) (BIT irq) /\ imr s' = imr s /\ priority_add s' = priority_add s /\
  special_mask s' = special_mask s /\
  special_fully_nested_mode s' = special_fully_nested_mode s.
Proof.
  intros Hi Hwf Ha. unfold pic_intack. rewrite Ha. cbn [nz negb Z.eqb].
  assert (range 8 (Z.lor (isr s) (BIT irq))) by (destruct Hwf; auto with s2e).
  destruct (negb _); cbn; rewrite u8_small by done; done.
Qed.

(** The acknowledged input itself holds back later requests, unless one of
    the two special modes takes it out of the in-service mask. *)
Lemma intack_blocks s master irq :
  0 <= irq < 8 -> pic_wf s -> auto_eoi s = 0 -> special_mask s = 0 ->
  (special_fully_nested_mode s = 0 \/ master = false \/ irq <> 2) ->
  blocking (pic_intack s irq) master irq = true.
Proof.
  intros Hi Hwf Ha Hsm Hn. destruct (intack_fields s irq Hi Hwf Ha) as (E1 & E2 & E3 & E4 & E5).
  unfold blocking. rewrite E1, E4, E5, Hsm, set_bit_testbit, Z.eqb_refl by lia.
  rewrite orb_true_r. cbn [nz negb Z.eqb orb andb].
  destruct Hn as [->|[->|Hne]]; cbn; rewrite ?andb_false_r; cbn; [done|done|].
  destruct (Z.eqb_spec irq 2); [done|]. cbn. by rewrite orb_true_r.
Qed.

(** ** The controllers as a transition system *)

Section Steps.
(** Whether a device drives input 2 of the master, which is the cascade from the
    slave: the HPET does when the guest routes a timer there. *)
Context {line2 : bool}.

(** What the rest of the machine can do to the pair. *)
Inductive pic_step : PicState2 -> PicState2 -> Prop :=
| step_set_irq s2 irq level :
    0 <= irq < 16 -> (line2 = false -> irq <> 2) -> pic_step s2 (i8259_set_irq s2 irq level)
| step_read_irq s2 : pic_step s2 (pic_read_irq s2).2
| step_ioport_write s2 i addr val s2' :
    pic_ioport_write s2 i addr val = Ok s2' -> pic_step s2 s2'
| step_ioport_read s2 i addr : pic_step s2 (pic_ioport_read s2 i addr).2
| step_intack_read s2 : pic_step s2 (pic_intack_read s2).2
| step_elcr_write s2 i val : pic_step s2 (elcr_ioport_write s2 i val)
| step_reset s2 i : pic_step s2 (set_pic s2 i (pic_reset (pic s2 i))).

Inductive reached : PicState2 -> Prop :=
| reach_init : reached i8259_init
| reach_step s2 s2' : reached s2 -> pic_step s2 s2' -> reached s2'.

(** The cascade input is edge triggered and, if no device drives it, between
    pulses. *)
Definition cascade_idle (s : PicState) : Prop :=
  (line2 = false -> Z.testbit (last_irr s) 2 = false) /\ Z.testbit (elcr_mask s) 2 = false.

Lemma cascade_elcr s : pic_wf s -> cascade_idle s -> Z.testbit (elcr s) 2 = false.
Proof.
  intros Hwf [_ He]. destruct (Z.testbit (elcr s) 2) eqn:E; [|done].
  apply (wf_elcr_sub s Hwf) in E. congruence.
Qed.

Lemma u8_testbit x i : i < 8 -> Z.testbit (u8 x) i = Z.testbit x i.
Proof. intros. unfold u8. rewrite testbit_mod_pow2 by lia. destruct (Z.ltb_spec i 8); [done|lia]. Qed.

(** Driving another input leaves the cascade alone. *)
Lemma set_irq1_cascade s irq level :
  0 <= irq < 8 -> (line2 = false -> irq <> 2) -> cascade_idle s -> cascade_idle (pic_set_irq1 s irq level).
Proof.
  intros Hi Hne [H1 H2]. unfold pic_set_irq1, cascade_idle.
  repeat case_match; cbn; split; try done; intros L; specialize (Hne L); specialize (H1 L);
    rewrite u8_testbit, ?set_bit_testbit, ?clear_bit_testbit, H1 by lia;
    destruct (Z.eqb_spec irq 2); done.
Qed.

(** A pulse on the cascade input ends idle, and sets its request bit if the input
    was low. *)
Lemma pulse_idle s : cascade_idle s -> cascade_idle (pic_set_irq1 (pic_set_irq1 s 2 1) 2 0).
Proof.
  intros [_ H2]. set (s1 := pic_set_irq1 s 2 1).
  assert (E : elcr_mask s1 = elcr_mask s) by (unfold s1, pic_set_irq1; repeat case_match; done). clearbody s1.
  unfold pic_set_irq1, cascade_idle. change (nz 0) with false. destruct (nz _); cbn; rewrite E;
    (split; [intros _; rewrite u8_testbit, clear_bit_testbit by lia; cbn; apply andb_false_r | done]).
Qed.
Lemma cascade_pulse s :
  pic_wf s -> cascade_idle s -> Z.testbit (last_irr s) 2 = false ->
  let s' := pic_set_irq1 (pic_set_irq1 s 2 1) 2 0 in
  irr s' = Z.lor (irr s) (BIT 2) /\ imr s' = imr s /\ isr s' = isr s.
Proof.
  intros Hwf Hc H1. pose proof (cascade_elcr s Hwf Hc) as He. destruct Hc as [_ H2].
  pose proof (land_BIT_nz (elcr s) 2 ltac:(lia)) as N. rewrite He in N.
  pose proof (land_BIT_nz (last_irr s) 2 ltac:(lia)) as L. rewrite H1 in L.
  unfold nz in L. apply negb_false_iff in L.
  assert (R : range 8 (Z.lor (irr s) (BIT 2))) by (destruct Hwf; auto with s2e).
  unfold pic_set_irq1. change (nz 1) with true. change (nz 0) with false.
  rewrite N, L. cbn. rewrite N. cbn. rewrite (u8_small (Z.lor (irr s) _)) by done. done.
Qed.

Record pics_inv (s2 : PicState2) : Prop := {
  inv_wf : pics_wf s2;
  inv_cascade : cascade_idle (pics0 s2)
}.

Lemma update_inv s2 : pics_inv s2 -> pics_inv (pic_update_irq s2).
Proof.
  intros [Hwf Hc]. split; [by apply pic_update_wf|].
  pose proof (pulse_idle (pics0 s2) Hc) as Hc'. unfold pic_update_irq. repeat case_match; done.
Qed.

(** Updates of the master that do not touch the cascade fields. *)
Lemma set_pic_inv s2 i s :
  pics_inv s2 -> pic_wf s -> (i = false -> cascade_idle s) -> pics_inv (set_pic s2 i s).
Proof.
  intros [Hwf Hc] Hs Hi. split; [by apply set_pic_wf|]. destruct i; cbn; auto.
Qed.

Lemma pic_inv_at s2 i : pics_inv s2 -> pic_wf (pic s2 i) /\ (i = false -> cascade_idle (pic s2 i)).
Proof. intros [[H0 H1] Hc]. destruct i; split; done. Qed.

Lemma cascade_same s s' :
  last_irr s' = last_irr s -> elcr_mask s' = elcr_mask s -> cascade_idle s -> cascade_idle s'.
Proof. unfold cascade_idle. by intros -> ->. Qed.

Lemma intack_same s irq :
  last_irr (pic_intack s irq) = last_irr s /\ elcr_mask (pic_intack s irq) = elcr_mask s.
Proof. unfold pic_intack. repeat case_match; done. Qed.

Lemma cascade_reset s : cascade_idle s -> cascade_idle (pic_reset s).
Proof. intros [_ H]. by split. Qed.

(** Close an invariant goal [pics_inv (set_pic ..)] whose new controller is a
    record update of the old one. *)
Ltac close_set_pic :=
  apply set_pic_inv;
  [ done
  | first [ by auto 6 with picwf | pic_wf_step ]
  | let E := fresh in intros E;
    match goal with H : _ = false -> cascade_idle ?s |- _ =>
      apply (cascade_same s); [done | done | exact (H E)] end ].

Lemma ocw2_inv s2 i val : pics_inv s2 -> pics_inv (pic_ocw2 s2 i val).
Proof.
  intros H. destruct (pic_inv_at s2 i H) as [Hs Hc]. unfold pic_ocw2.
  repeat case_match; try apply update_inv; try done; close_set_pic.
Qed.

Lemma ioport_write_inv s2 i addr val s2' :
  pics_inv s2 -> pic_ioport_write s2 i addr val = Ok s2' -> pics_inv s2'.
Proof.
  intros H. destruct (pic_inv_at s2 i H) as [Hs Hc]. unfold pic_ioport_write.
  destruct (Z.land addr 1 =? 0); [destruct (nz (Z.land val 16))|].
  - destruct (nz (Z.land val 8)); [done|]. injection 1 as <-.
    pose proof (pic_reset_wf _ Hs) as Hr.
    assert (H' : pics_inv (qemu_irq_lower (set_pic s2 i (pic_reset (pic s2 i))))).
    { pose proof (set_pic_inv s2 i _ H Hr (fun E => cascade_reset _ (Hc E))) as [A B].
      destruct i; split; done. }
    apply set_pic_inv; [done| |].
    + destruct Hr. constructor; cbn; auto with s2e lia.
    + intros E. apply (cascade_same (pic_reset (pic s2 i))); [done..|].
      by apply cascade_reset, Hc.
  - destruct (nz (Z.land val 8)); injection 1 as <-; [|by apply ocw2_inv].
    repeat case_match; close_set_pic.
  - repeat case_match; try discriminate; injection 1 as <-; try apply update_inv;
      try done; close_set_pic; lia.
Qed.

Lemma poll_read_inv s2 i addr1 : pics_inv s2 -> pics_inv (pic_poll_read s2 i addr1).2.
Proof.
  intros H. unfold pic_poll_read.
  set (s2' := if nz (Z.shiftr addr1 7) then _ else s2).
  assert (H' : pics_inv s2').
  { unfold s2'. destruct (nz _); [|done]. destruct (pic_inv_at s2 false H) as [Hs Hc].
    change (pics_inv (set_pic s2 false ((pics0 s2)
      <| isr := u8 (Z.land (isr (pics0 s2)) (Z.lnot (BIT 2))) |>
      <| irr := u8 (Z.land (irr (pics0 s2)) (Z.lnot (BIT 2))) |>))). close_set_pic. }
  clearbody s2'. destruct (pic_inv_at s2' i H') as [Hs Hc].
  repeat case_match; cbn [snd]; try apply update_inv; try done; close_set_pic.
Qed.

Lemma read_irq_inv s2 : pics_inv s2 -> pics_inv (pic_read_irq s2).2.
Proof.
  intros H. unfold pic_read_irq.
  assert (Hack : forall t i irq, pics_inv t -> pics_inv (set_pic t i (pic_intack (pic t i) irq))).
  { intros t i irq Ht. destruct (pic_inv_at t i Ht) as [Hs Hc].
    destruct (intack_same (pic t i) irq) as [E1 E2].
    apply set_pic_inv; [done|by apply pic_intack_wf|].
    intros E. apply (cascade_same (pic t i)); auto. }
  repeat case_match; simplify_eq; cbn [snd]; apply update_inv; try done;
    try (apply (Hack s2 false); done);
    apply (Hack (set_pic s2 false _) true), (Hack s2 false); done.
Qed.

Lemma step_inv s2 s2' : pic_step s2 s2' -> pics_inv s2 -> pics_inv s2'.
Proof.
  intros Hstep H. destruct Hstep as [s2 irq level Hi Hne|s2|s2 i addr val s2' E|s2 i addr|s2|s2 i val|s2 i].
  - apply update_inv.
    set (i := nz (Z.shiftr irq 3)). destruct (pic_inv_at s2 i H) as [Hs Hc].
    pose proof (Z.mod_pos_bound irq 8 ltac:(lia)).
    apply set_pic_inv; [done|by apply pic_set_irq1_wf|]. intros Ei.
    rewrite land_7. apply set_irq1_cascade; [lia| |by apply Hc].
    intros L2 Em. specialize (Hne L2). unfold i, nz in Ei. apply negb_false_iff, Z.eqb_eq in Ei.
    rewrite Z.shiftr_div_pow2 in Ei by lia. change (2 ^ 3) with 8 in Ei.
    pose proof (Z.div_mod irq 8). lia.
  - by apply read_irq_inv.
  - by apply (ioport_write_inv s2 i addr val).
  - unfold pic_ioport_read. destruct (nz (poll (pic s2 i))); [|done].
    pose proof (poll_read_inv s2 i addr H) as H'.
    destruct (pic_poll_read s2 i addr) as [ret t]. cbn [snd] in *.
    destruct (pic_inv_at t i H') as [Hs Hc]. close_set_pic.
  - unfold pic_intack_read.
    pose proof (poll_read_inv s2 false 0 H) as H1.
    destruct (pic_poll_read s2 false 0) as [ret t]. cbn [snd] in H1.
    pose proof (poll_read_inv t true 0x80 H1) as H2.
    destruct (pic_poll_read t true 0x80) as [r u]. cbn [snd] in H2.
    assert (Hset : forall t, pics_inv t ->
      pics_inv (t <| pics0 := (pics0 t) <| read_reg_select := 1 |> |>)).
    { intros v Hv. destruct (pic_inv_at v false Hv) as [Hs Hc].
      change (pics_inv (set_pic v false ((pics0 v) <| read_reg_select := 1 |>))).
      close_set_pic. }
    destruct (ret =? 2); cbn [snd]; auto.
  - destruct (pic_inv_at s2 i H) as [Hs Hc].
    apply set_pic_inv; [done| |].
    + destruct Hs. constructor; cbn; auto with s2e. intros j Hj.
      unfold u8 in Hj. rewrite testbit_mod_pow2, Z.land_spec in Hj by lia.
      apply andb_prop in Hj as [_ Hj]. by apply andb_prop in Hj as [_ Hj].
    + intros E. by apply (cascade_same (pic s2 i)); [| |apply Hc].
  - destruct (pic_inv_at s2 i H) as [Hs Hc].
    apply set_pic_inv; [done|by apply pic_reset_wf|]. intros E. by apply cascade_reset, Hc.
Qed.

Lemma init_inv : pics_inv i8259_init.
Proof.
  repeat split; cbn; try done; try lia; intros i; rewrite Z.bits_0; done.
Qed.

Lemma reachable_inv s2 : reached s2 -> pics_inv s2.
Proof. induction 1 as [|s2 s2' _ IH Hs]; [apply init_inv | by apply (step_inv s2)]. Qed.
End Steps.
Arguments pic_step : clear implicits.
Arguments reached : clear implicits.
Arguments cascade_idle : clear implicits.
Arguments pics_inv : clear implicits.

(** Reachable, whatever lines the devices drive. *)
Notation reachable := (reached true).

(** ** Delivery, acknowledge and end of interrupt over the whole pair *)

(** [pic_update_irq] changes nothing but the cascade request and the line. *)
Lemma update_keeps s2 :
  let s2' := pic_update_irq s2 in
  pics1 s2' = pics1 s2 /\ isr (pics0 s2') = isr (pics0 s2) /\ imr (pics0 s2') = imr (pics0 s2) /\
  priority_add (pics0 s2') = priority_add (pics0 s2) /\
  auto_eoi (pics0 s2') = auto_eoi (pics0 s2) /\
  special_mask (pics0 s2') = special_mask (pics0 s2) /\
  special_fully_nested_mode (pics0 s2') = special_fully_nested_mode (pics0 s2).
Proof.
  assert (Hs : forall s l, let s' := pic_set_irq1 s 2 l in
    isr s' = isr s /\ imr s' = imr s /\ priority_add s' = priority_add s /\
    auto_eoi s' = auto_eoi s /\ special_mask s' = special_mask s /\
    special_fully_nested_mode s' = special_fully_nested_mode s).
  { intros s l. unfold pic_set_irq1. repeat case_match; done. }
  pose proof (Hs (pics0 s2) 1) as (A1 & A2 & A3 & A4 & A5 & A6).
  pose proof (Hs (pic_set_irq1 (pics0 s2) 2 1) 0) as (B1 & B2 & B3 & B4 & B5 & B6).
  unfold pic_update_irq. repeat case_match; cbn; repeat split; congruence.
Qed.

(** The level last driven on the CPU line. *)
Lemma update_line s2 :
  let s2' := pic_update_irq s2 in
  parent_irq s2' = b2z (0 <=? pic_get_irq (pics0 s2') true) :: parent_irq s2.
Proof.
  unfold pic_update_irq.
  set (t := if 0 <=? pic_get_irq (pics1 s2) false then _ else s2).
  assert (Ht : parent_irq t = parent_irq s2) by (unfold t; by case_match).
  clearbody t. destruct (0 <=? pic_get_irq (pics0 t) true) eqn:E; cbn; rewrite E, Ht; done.
Qed.

(** C20: on every reachable pair, [pic_get_irq] of either controller returns
    input [i] exactly when [i] is requested, not masked, of the highest
    priority among such requests under the current rotation and strictly above
    everything in service (special mask and special fully nested modes taken
    into account); it returns -1 exactly when no input qualifies. *)
Theorem pic_get_irq_correct s2 (i : bool) :
  reachable s2 ->
  let s := pic s2 i in
  (forall k, 0 <= k < 8 -> pic_get_irq s (negb i) = k <-> wins s (negb i) k) /\
  (pic_get_irq s (negb i) = -1 <-> forall k, 0 <= k < 8 -> ~ wins s (negb i) k).
Proof.
  intros Hr s. pose proof (pic_pic_wf s2 i (inv_wf _ (reachable_inv _ Hr))) as Hwf. fold s in Hwf.
  split; [intros k Hk; by apply pic_get_irq_wins|].
  destruct (pic_get_irq_cases s (negb i) Hwf) as [(k & Hk & E & W)|[E N]]; split; try done; [lia|].
  intros H. by destruct (H k Hk).
Qed.

(** Two requests on a fresh pair: input 1 beats input 5. *)
Definition demo_requests : PicState2 := i8259_set_irq (i8259_set_irq i8259_init 5 1) 1 1.

Lemma demo_reachable : reachable demo_requests.
Proof.
  apply (reach_step (i8259_set_irq i8259_init 5 1)); [|apply step_set_irq; [lia | done]].
  apply (reach_step i8259_init); [apply reach_init|apply step_set_irq; [lia | done]].
Qed.

Lemma pic_get_irq_correct_witness :
  pic_get_irq (pics0 demo_requests) true = 1 /\ wins (pics0 demo_requests) true 1.
Proof.
  split; [reflexivity|].
  apply (proj1 (pic_get_irq_correct demo_requests false demo_reachable) 1 ltac:(lia)).
  reflexivity.
Defined.

Lemma update_delivers line2 s2 : pics_inv line2 s2 ->
  let s2' := pic_update_irq s2 in
  (exists l, parent_irq s2' = l :: parent_irq s2 /\
     (l = 1 /\ (exists k, 0 <= k < 8 /\ wins (pics0 s2') true k) \/
      l = 0 /\ forall k, 0 <= k < 8 -> ~ wins (pics0 s2') true k)) /\
  (line2 = false -> (exists k, 0 <= k < 8 /\ wins (pics1 s2) false k) -> Z.testbit (irr (pics0 s2')) 2 = true).
Proof.
  intros Hinv s2'. destruct (update_inv s2 Hinv) as [[Hwf' _] _]. fold s2' in Hwf'.
  destruct Hinv as [[Hwf0 Hwf1] Hc]. split.
  - destruct (pic_get_irq_cases _ true Hwf') as [(k & Hk & E & W)|[E N]];
      [exists 1|exists 0]; (split; [|]); [|by left; eauto| |by right];
      unfold s2'; rewrite update_line; fold s2'; rewrite E; [|done];
      by destruct (Z.leb_spec 0 k); [|lia].
  - intros L2 (k & Hk & W). apply pic_get_irq_wins in W; [|done..].
    destruct (cascade_pulse (pics0 s2) Hwf0 Hc (proj1 Hc L2)) as (E & _).
    assert (H : irr (pics0 s2') = Z.lor (irr (pics0 s2)) (BIT 2)).
    { unfold s2', pic_update_irq. rewrite W. destruct (Z.leb_spec 0 k); [|lia].
      rewrite <- E. by case_match. }
    rewrite H, set_bit_testbit by lia. apply orb_true_r.
Qed.

(** C21: invariant of the interrupt controllers.  Whatever sequence of changes of
    the 16 inputs, port accesses, acknowledge cycles and resets follows
    [i8259_init]: the registers stay within their widths, the rotation within 3
    bits, the vector base a multiple of 8, the ELCR within its mask and the
    cascade input edge triggered; the update that ends every change of an input
    and every acknowledge drives the CPU line to 1 exactly when the master has a
    deliverable request, and to 0 otherwise; and if no device drives input 2
    ([line2] is false), the cascade input is idle between updates, so that the
    update latches a deliverable request of the slave in the master. *)
Theorem pic_reachable_invariant line2 s2 : reached line2 s2 ->
  pics_inv line2 s2 /\
  let s2' := pic_update_irq s2 in
  (exists l, parent_irq s2' = l :: parent_irq s2 /\
     (l = 1 /\ (exists k, 0 <= k < 8 /\ wins (pics0 s2') true k) \/
      l = 0 /\ forall k, 0 <= k < 8 -> ~ wins (pics0 s2') true k)) /\
  (line2 = false -> (exists k, 0 <= k < 8 /\ wins (pics1 s2) false k) -> Z.testbit (irr (pics0 s2')) 2 = true).
Proof. intros R. pose proof (reachable_inv s2 R) as I. split; [done | by apply update_delivers]. Qed.

Lemma pic_reachable_invariant_witness :
  pics_inv true demo_requests /\ exists l, parent_irq (pic_update_irq demo_requests) = l :: parent_irq demo_requests /\ l = 1.
Proof.
  destruct (pic_reachable_invariant true demo_requests demo_reachable) as [I [(l & E & _) _]].
  split; [exact I|]. exists l. split; [exact E|]. vm_compute in E. by injection E.
Defined.

(** A device on input 2 can hide the slave: input 2 is raised and stays high, is
    acknowledged and ended; then a request of the slave is not latched in the
    master, and the CPU line is low although the slave has a deliverable request
    and nothing is in service. *)
Theorem line2_hides_slave : exists s2, reachable s2 /\
  isr (pics0 s2) = 0 /\ pic_get_irq (pics1 s2) false = 0 /\ pic_get_irq (pics0 s2) true = -1 /\ hd 1 (parent_irq s2) = 0.
Proof.
  set (a := i8259_set_irq i8259_init 2 1). set (b := (pic_read_irq a).2).
  assert (H : exists c, pic_ioport_write b false 0 0x20 = Ok c /\ reachable c /\
    (let d := i8259_set_irq c 8 1 in isr (pics0 d) = 0 /\ pic_get_irq (pics1 d) false = 0 /\ pic_get_irq (pics0 d) true = -1 /\ hd 1 (parent_irq d) = 0)).
  { eexists. split; [reflexivity|]. split; [|by vm_compute].
    eapply reach_step; [|by apply (step_ioport_write b false 0 0x20)].
    apply (reach_step a); [|apply step_read_irq].
    apply (reach_step i8259_init); [apply reach_init | apply step_set_irq; [lia | done]]. }
  destruct H as (c & _ & Rc & D). exists (i8259_set_irq c 8 1). split; [|exact D].
  apply (reach_step c); [done | apply step_set_irq; [lia | done]].
Qed.

(** Fully nested mode: no automatic end of interrupt, no special modes (the
    special fully nested mode only changes the master). *)
Definition nested (master : bool) (s : PicState) : Prop :=
  auto_eoi s = 0 /\ special_mask s = 0 /\ (special_fully_nested_mode s = 0 \/ master = false).

(** The highest-priority input in service is the acknowledged one. *)
Lemma eoi_priority master s i :
  0 <= i < 8 -> pic_wf s -> nested master s -> wins s master i ->
  get_priority (pic_intack s i) (isr (pic_intack s i)) = prio s i /\
  Z.testbit (isr s) i = false.
Proof.
  intros Hi Hwf (Ha & Hsm & Hsf) (P & M & B).
  destruct (intack_fields s i Hi Hwf Ha) as (E1 & E2 & E3 & _ & _).
  assert (B' : forall j, 0 <= j < 8 -> Z.testbit (isr s) j = true -> prio s i < prio s j).
  { intros j Hj T. apply B; [done|]. unfold blocking. rewrite T, Hsm. destruct Hsf as [-> | ->]; [done|]. by rewrite andb_false_r. }
  assert (Hfree : Z.testbit (isr s) i = false).
  { destruct (Z.testbit (isr s) i) eqn:T; [|done]. specialize (B' i Hi T). lia. }
  split; [|done].
  pose proof (pic_intack_wf s i Hwf) as Hwf'.
  assert (Hprio : forall j, prio (pic_intack s i) j = prio s j) by (intros; unfold prio; by rewrite E3).
  destruct (get_priority_spec (pic_intack s i) (isr (pic_intack s i))
    (wf_priority_add _ Hwf') (wf_isr _ Hwf')) as [[_ N]|(R & T & Mn)].
  { specialize (N i Hi). rewrite E1, set_bit_testbit, Z.eqb_refl, orb_true_r in N by lia. done. }
  set (r := get_priority _ _) in *.
  assert (L : r <= prio s i).
  { rewrite <- Hprio. apply Mn; [done|]. rewrite E1, set_bit_testbit, Z.eqb_refl by lia.
    apply orb_true_r. }
  set (k := (r + priority_add (pic_intack s i)) mod 8) in *.
  assert (Hk : 0 <= k < 8) by (apply Z.mod_pos_bound; lia).
  assert (Ek : prio s k = r) by (rewrite <- Hprio; by apply rotate_prio).
  rewrite E1, set_bit_testbit in T by lia. apply orb_prop in T as [T|T].
  - specialize (B' k Hk T). lia.
  - apply Z.eqb_eq in T. by rewrite T.
Qed.

Lemma set_clear_bit x i :
  0 <= i < 8 -> range 8 x -> Z.testbit x i = false ->
  u8 (Z.land (Z.lor x (BIT i)) (Z.lnot (BIT i))) = x.
Proof.
  intros Hi Hx Hf. assert (range 8 (Z.lor x (BIT i))) by auto with s2e.
  rewrite u8_small by auto with s2e.
  apply Z.bits_inj'. intros j Hj. rewrite clear_bit_testbit, set_bit_testbit by lia.
  destruct (Z.eqb_spec i j) as [<-|]; [by rewrite Hf|btauto].
Qed.

(** Input [i] of controller [s] is in service in [t]: it is marked, and whatever
    is requested meanwhile, only inputs of strictly higher priority get through. *)
Record serves (master : bool) (s t : PicState) (i : Z) : Prop := {
  sv_marked : Z.testbit (isr t) i = true;
  sv_holds r j : range 8 r -> pic_get_irq (t <| irr := r |>) master = j -> 0 <= j -> prio s j < prio s i
}.

(** The registers that decide on priorities. *)
Definition levels (s : PicState) : Z * Z * Z * Z * Z := (isr s, imr s, priority_add s, special_mask s, special_fully_nested_mode s).

Lemma intack_serves master s t i :
  0 <= i < 8 -> pic_wf s -> nested master s -> wins s master i -> pic_wf t -> levels t = levels (pic_intack s i) -> serves master s t i.
Proof.
  intros Hi Hwf N W Hwt E. pose proof N as (Ha & Hsm & Hsf). destruct (intack_fields s i Hi Hwf Ha) as (E1 & E2 & E3 & E4 & E5).
  injection E as K1 K2 K3 K4 K5. assert (Hblk : blocking (pic_intack s i) master i = true) by (apply intack_blocks; try done; tauto).
  split; [rewrite K1, E1, set_bit_testbit, Z.eqb_refl by lia; apply orb_true_r|]. intros r j Hr Hj Hj0.
  assert (Hwfr : pic_wf (t <| irr := r |>)) by (rewrite <- (u8_small r Hr); by apply pic_wf_irr).
  pose proof (pic_get_irq_range _ master Hwfr). apply pic_get_irq_wins in Hj as (_ & _ & B); [|done|lia].
  assert (Hb : blocking t master i = true) by (revert Hblk; unfold blocking; by rewrite K1, K2, K4, K5).
  specialize (B i Hi Hb). change (prio t j < prio t i) in B. unfold prio in *. by rewrite K3, E3 in B.
Qed.

(** The non-specific end of interrupt ends exactly this service. *)
Lemma eoi_ends (slave : bool) s s2 i :
  0 <= i < 8 -> pic_wf s -> nested (negb slave) s -> wins s (negb slave) i -> levels (pic s2 slave) = levels (pic_intack s i) ->
  exists m, pic_ioport_write s2 slave 0 0x20 = Ok m /\ isr (pic m slave) = isr s /\ isr (pic m (negb slave)) = isr (pic s2 (negb slave)).
Proof.
  intros Hi Hwf N W E. pose proof N as (Ha & _). destruct (eoi_priority _ s i Hi Hwf N W) as [Hprio Hfree].
  destruct (intack_fields s i Hi Hwf Ha) as (E1 & E2 & E3 & E4 & E5). injection E as K1 K2 K3 K4 K5.
  exists (pic_ocw2 s2 slave 0x20). split; [reflexivity|]. unfold pic_ocw2. change (Z.shiftr 32 5) with 1. cbn [Z.eqb Pos.eqb orb].
  replace (get_priority (pic s2 slave) (isr (pic s2 slave))) with (prio s i)
    by (rewrite <- Hprio, K1; unfold get_priority; by rewrite K3).
  pose proof (prio_range s i). destruct (Z.eqb_spec (prio s i) 8); [lia|]. cbn [negb].
  match goal with |- context [pic_update_irq ?x] => destruct (update_keeps x) as (U1 & U0 & _) end.
  assert (R : u8 (Z.land (isr (pic s2 slave)) (Z.lnot (BIT (Z.land (prio s i + priority_add (pic s2 slave)) 7)))) = isr s).
  { rewrite K1, K3, E1, E3, land_7. unfold prio. rewrite unrotate by done. apply set_clear_bit; [done|apply Hwf|done]. }
  destruct slave; cbn [pic negb set_pic] in *; rewrite ?U1, ?U0; cbn; done.
Qed.

Lemma levels_update s2 : levels (pics0 (pic_update_irq s2)) = levels (pics0 s2).
Proof. destruct (update_keeps s2) as (_ & K1 & K2 & K3 & _ & K5 & K6). unfold levels. by rewrite K1, K2, K3, K5, K6. Qed.
Lemma intack_base s i : irq_base (pic_intack s i) = irq_base s.
Proof. unfold pic_intack. by repeat case_match. Qed.

(** The pair after the acknowledge of input [i] of the master and, through the
    cascade, input [j] of the slave. *)
Definition acknowledged (s2 : PicState2) (i j : Z) : PicState2 :=
  let s2 := if 0 <=? i then s2 <| pics0 := pic_intack (pics0 s2) i |> else s2 in
  if (i =? 2) && (0 <=? j) then s2 <| pics1 := pic_intack (pics1 s2) j |> else s2.

Lemma read_irq_acknowledged s2 :
  let i := pic_get_irq (pics0 s2) true in let j := pic_get_irq (pics1 s2) false in
  pic_read_irq s2 = (if i <? 0 then irq_base (pics0 s2) + 7
    else if i =? 2 then irq_base (pics1 s2) + (if j <? 0 then 7 else j) else irq_base (pics0 s2) + i, pic_update_irq (acknowledged s2 i j)).
Proof.
  intros i j. unfold pic_read_irq, acknowledged. fold i. destruct (Z.leb_spec 0 i); destruct (Z.ltb_spec i 0); try lia.
  - destruct (Z.eqb_spec i 2) as [->|]; cbn [andb].
    + change (pic_get_irq (pics1 (s2 <| pics0 := pic_intack (pics0 s2) 2 |>)) false) with j.
      destruct (Z.leb_spec 0 j); destruct (Z.ltb_spec j 0); try lia; [|done]. cbn. by rewrite intack_base.
    + cbn. by rewrite intack_base.
  - destruct (Z.eqb_spec i 2); [lia | done].
Qed.

(** C22: the service of an interrupt by the pair in fully nested mode (no
    automatic EOI, no special modes), on every branch of the acknowledge.  With
    [i] the deliverable input of the master and [j] that of the slave (-1 if
    none), [pic_read_irq] returns the vector of [i], or through the cascade
    ([i] = 2) that of [j], or the spurious vector 7 of the controller that has no
    request any more; the inputs acknowledged, and no others, are in service, and
    until their end of interrupt only inputs of strictly higher priority are
    deliverable, whatever is requested; and the non-specific EOI command (0x20 at
    the even port) of a controller takes exactly its input out of service. *)
Theorem pic_service_episode s2 :
  pics_inv true s2 -> nested true (pics0 s2) -> nested false (pics1 s2) ->
  let i := pic_get_irq (pics0 s2) true in let j := pic_get_irq (pics1 s2) false in
  exists s2', pic_read_irq s2 = (if i <? 0 then irq_base (pics0 s2) + 7
    else if i =? 2 then irq_base (pics1 s2) + (if j <? 0 then 7 else j) else irq_base (pics0 s2) + i, s2') /\
  (if 0 <=? i then serves true (pics0 s2) (pics0 s2') i /\
     exists m, pic_ioport_write s2' false 0 0x20 = Ok m /\ isr (pics0 m) = isr (pics0 s2) /\ isr (pics1 m) = isr (pics1 s2')
   else isr (pics0 s2') = isr (pics0 s2)) /\
  (if (i =? 2) && (0 <=? j) then serves false (pics1 s2) (pics1 s2') j /\
     exists m, pic_ioport_write s2' true 0 0x20 = Ok m /\ isr (pics1 m) = isr (pics1 s2) /\ isr (pics0 m) = isr (pics0 s2')
   else isr (pics1 s2') = isr (pics1 s2)).
Proof.
  intros [[H0 H1] Hc] N0 N1 i j. exists (pic_update_irq (acknowledged s2 i j)). split; [apply read_irq_acknowledged|].
  set (t := acknowledged s2 i j). destruct (update_keeps t) as (K & _). pose proof (levels_update t) as L.
  pose proof (pic_get_irq_range _ true H0) as R0. pose proof (pic_get_irq_range _ false H1) as R1. fold i in R0. fold j in R1.
  assert (T0 : pics0 t = if 0 <=? i then pic_intack (pics0 s2) i else pics0 s2) by (unfold t, acknowledged; destruct ((i =? 2) && (0 <=? j)), (0 <=? i); done).
  assert (T1 : pics1 t = if (i =? 2) && (0 <=? j) then pic_intack (pics1 s2) j else pics1 s2) by (unfold t, acknowledged; destruct ((i =? 2) && (0 <=? j)), (0 <=? i); done).
  assert (Hwt : pics_wf (pic_update_irq t)).
  { apply pic_update_wf. split; rewrite ?T0, ?T1; repeat case_match; try done; by apply pic_intack_wf. }
  rewrite T0 in L. split.
  - destruct (Z.leb_spec 0 i).
    + assert (W : wins (pics0 s2) true i) by (apply pic_get_irq_wins; [done | lia | done]).
      split; [apply intack_serves; try done; [lia | apply Hwt]|].
      by apply (eoi_ends false (pics0 s2) (pic_update_irq t) i); [lia | ..].
    + by injection L as ->.
  - rewrite K, T1. destruct (_ && _) eqn:E; [|done]. apply andb_prop in E as [_ E%Z.leb_le].
    assert (W : wins (pics1 s2) false j) by (apply pic_get_irq_wins; [done | lia | done]).
    split; [apply intack_serves; try done; [lia | by apply pic_intack_wf]|].
    apply (eoi_ends true (pics1 s2) (pic_update_irq t) j); [lia | try done..]. cbn [pic]. by rewrite K, T1.
Qed.

(** The pair with vector bases 8 and 0x70; then line 9, input 1 of the slave. *)
Definition demo_pair : PicState2 :=
  mkPicState2 ((pics0 i8259_init) <| irq_base := 8 |>) ((pics1 i8259_init) <| irq_base := 0x70 |>) [].
Definition demo_cascade : PicState2 := i8259_set_irq demo_pair 9 1.

Lemma demo_pair_inv : pics_inv true demo_pair.
Proof. repeat split; cbn; try done; try lia; intros i; rewrite Z.bits_0; done. Qed.

Lemma pic_service_episode_witness :
  pic_get_irq (pics0 demo_cascade) true = 2 /\ pic_get_irq (pics1 demo_cascade) false = 1 /\
  exists s2' m, pic_read_irq demo_cascade = (0x71, s2') /\ serves false (pics1 demo_cascade) (pics1 s2') 1 /\
    pic_ioport_write s2' true 0 0x20 = Ok m /\ isr (pics1 m) = 0.
Proof.
  split; [reflexivity|]. split; [reflexivity|].
  destruct (pic_service_episode demo_cascade) as (s2' & E & _ & Hs).
  - apply (step_inv demo_pair); [by apply step_set_irq | apply demo_pair_inv].
  - split_and!; try reflexivity. by left.
  - split_and!; try reflexivity. by left.
  - change (pic_get_irq (pics0 demo_cascade) true) with 2 in *. change (pic_get_irq (pics1 demo_cascade) false) with 1 in *. cbn [Z.eqb Z.leb andb Pos.eqb Z.compare] in Hs.
    destruct Hs as (Sv & m & Em & Im & _). exists s2', m. by split_and!.
Defined.

(** The comment above [pic_update_irq] asks for a call "every time the
    active irq may change", but OCW3 does not make it: setting the special
    mask mode can make a request deliverable while the CPU line stays low.
    Here input 0 is in service and masked, input 1 is requested; after OCW3
    0x68 the master has a deliverable input and no level was driven since the
    line was last lowered. *)
Theorem pic_ocw3_stale_line :
  exists s2 s2', reachable s2 /\ pic_ioport_write s2 false 0 0x68 = Ok s2' /\
    pic_get_irq (pics0 s2') true = 1 /\ parent_irq s2' = parent_irq s2 /\
    hd 1 (parent_irq s2') = 0.
Proof.
  set (a := i8259_set_irq i8259_init 0 1).
  set (b := (pic_read_irq a).2).
  set (c := i8259_set_irq b 1 1).
  assert (Hc : exists d, pic_ioport_write c false 1 0x01 = Ok d /\ reachable d /\
    exists e, pic_ioport_write d false 0 0x68 = Ok e /\ pic_get_irq (pics0 e) true = 1 /\
      parent_irq e = parent_irq d /\ hd 1 (parent_irq e) = 0).
  { eexists. split; [reflexivity|]. split.
    - eapply reach_step; [|by apply (step_ioport_write c false 1 1)].
      apply (reach_step b); [|apply step_set_irq; [lia | done]].
      apply (reach_step a); [|apply step_read_irq].
      apply (reach_step i8259_init); [apply reach_init|apply step_set_irq; [lia | done]].
    - eexists. split; [reflexivity|]. vm_compute. done. }
  destruct Hc as (d & _ & Hr & e & E & H). exists d, e. done.
Qed.

(** ** The saved fields *)

Section Saved.
Context {F : Type} `{!ByteStream F} `{!ByteStreamLaws F}.

Definition pic_fields : list (FieldOk (F := F) PicState) :=
  [mkFieldOk (VMSTATE_UINT8 last_irr) uint8_ok; mkFieldOk (VMSTATE_UINT8 irr) uint8_ok;
   mkFieldOk (VMSTATE_UINT8 imr) uint8_ok; mkFieldOk (VMSTATE_UINT8 isr) uint8_ok;
   mkFieldOk (VMSTATE_UINT8 priority_add) uint8_ok; mkFieldOk (VMSTATE_UINT8 irq_base) uint8_ok;
   mkFieldOk (VMSTATE_UINT8 read_reg_select) uint8_ok; mkFieldOk (VMSTATE_UINT8 poll) uint8_ok;
   mkFieldOk (VMSTATE_UINT8 special_mask) uint8_ok; mkFieldOk (VMSTATE_UINT8 init_state) uint8_ok;
   mkFieldOk (VMSTATE_UINT8 auto_eoi) uint8_ok;
   mkFieldOk (VMSTATE_UINT8 rotate_on_auto_eoi) uint8_ok;
   mkFieldOk (VMSTATE_UINT8 special_fully_nested_mode) uint8_ok;
   mkFieldOk (VMSTATE_UINT8 init4) uint8_ok; mkFieldOk (VMSTATE_UINT8 single_mode) uint8_ok;
   mkFieldOk (VMSTATE_UINT8 elcr) uint8_ok].

Lemma pic_descr_ok : DescrOk (F := F) vmstate_pic pic_fields.
Proof. constructor; cbn; try done; lia. Qed.

Lemma pic_state_valid s : pic_wf s -> state_valid vmstate_pic pic_fields s.
Proof.
  intros [ ]. unfold state_valid, pic_fields.
  repeat (constructor; [split; [done|]; split; [cbn; lia|];
    intros i _; split; [cbn; auto with s2e | by destruct s] |]); [|constructor].
  all: unfold range in *; cbn; lia.
Qed.

(** Loading restores everything but the ELCR mask, which is wired. *)
Lemma pic_load_result s s0 :
  load_result (F := F) vmstate_pic pic_fields s s0 = (0, s <| elcr_mask := elcr_mask s0 |>).
Proof. by destruct s, s0. Qed.

End Saved.

End Pic.
