(* ===== verification/Pit.v ===== *)
(** * The 8254 interval timer

    src/s2e/qemu/hw/i8254.c: three counters, their count/latch/status
    protocol on the I/O ports, and the timer that drives the interrupt of
    counter 0.

    [qemu_get_clock(vm_clock)] is the argument [now] of the operations that
    read it.  [irq_timer] is [None] for the null pointer of counters 1 and 2
    and [Some ts] for the timer of counter 0, [ts] being its expiry when
    pending (the abstract view of Timers.v).  [irq] lists the levels driven on
    the interrupt line, the latest first. *)

From stdpp Require Import strings.
From S2P Require Import Prelude HostArith DevState Savevm.

Module Pit.

Definition PIT_FREQ : Z := 1193182.
Definition get_ticks_per_sec : Z := 1000000000.
Definition RW_STATE_LSB : Z := 1.
Definition RW_STATE_MSB : Z := 2.
Definition RW_STATE_WORD0 : Z := 3.
Definition RW_STATE_WORD1 : Z := 4.

Record PITChannelState := mkChannel {
  count : Z;
  latched_count : Z;
  count_latched : Z;
  status_latched : Z;
  status : Z;
  read_state : Z;
  write_state : Z;
  write_latch : Z;
  rw_mode : Z;
  mode : Z;
  bcd : Z;
  gate : Z;
  count_load_time : Z;
  next_transition_time : Z;
  irq_timer : option (option Z);
  irq : list Z
}.
#[export] Instance PITChannelState_eta : RecordEta PITChannelState :=
  fields mkChannel < count ; latched_count ; count_latched ; status_latched ; status ;
    read_state ; write_state ; write_latch ; rw_mode ; mode ; bcd ; gate ;
    count_load_time ; next_transition_time ; irq_timer ; irq >.

Record PITState := mkPIT { channels : list PITChannelState }.
#[export] Instance PITState_eta : RecordEta PITState := fields mkPIT < channels >.

(** ** Counting *)

Definition pit_get_count (s : PITChannelState) (now : Z) : Z :=
  let d := muldiv64 (u64 (now - count_load_time s)) PIT_FREQ get_ticks_per_sec in
  match mode s with
  | 0 | 1 | 4 | 5 => Z.land (u64 (count s - d)) 0xffff
  | 3 => s32 (u64 (count s - u64 (2 * d) mod count s))
  | _ => s32 (u64 (count s - d mod count s))
  end.

Definition pit_get_out1 (s : PITChannelState) (current_time : Z) : Z :=
  let d := muldiv64 (u64 (current_time - count_load_time s)) PIT_FREQ get_ticks_per_sec in
  match mode s with
  | 1 => b2z (d <? count s)
  | 2 => if (d mod count s =? 0) && negb (d =? 0) then 1 else 0
  | 3 => b2z (d mod count s <? Z.shiftr (count s + 1) 1)
  | 4 | 5 => b2z (d =? count s)
  | _ => b2z (count s <=? d)
  end.

(** The tick of the next transition after tick [d], or none. *)
Definition next_transition_tick (s : PITChannelState) (d : Z) : option Z :=
  match mode s with
  | 2 =>
      let base := u64 (d / count s * count s) in
      Some (if (u64 (d - base) =? 0) && negb (d =? 0) then u64 (base + count s)
            else u64 (base + count s + 1))
  | 3 =>
      let base := u64 (d / count s * count s) in
      let period2 := Z.shiftr (count s + 1) 1 in
      Some (if u64 (d - base) <? period2 then u64 (base + period2) else u64 (base + count s))
  | 4 | 5 =>
      if d <? count s then Some (count s)
      else if d =? count s then Some (count s + 1) else None
  | _ => if d <? count s then Some (count s) else None
  end.

(** -1 if no transition will occur. *)
Definition pit_get_next_transition_time (s : PITChannelState) (current_time : Z) : Z :=
  let d := muldiv64 (u64 (current_time - count_load_time s)) PIT_FREQ get_ticks_per_sec in
  match next_transition_tick s d with
  | None => -1
  | Some next_time =>
      let next_time := u64 (count_load_time s + muldiv64 next_time get_ticks_per_sec PIT_FREQ) in
      s64 (if next_time <=? u64 current_time then u64 (current_time + 1) else next_time)
  end.

Definition pit_irq_timer_update (s : PITChannelState) (current_time : Z) : PITChannelState :=
  match irq_timer s with
  | None => s
  | Some _ =>
      let expire_time := pit_get_next_transition_time s current_time in
      let irq_level := pit_get_out1 s current_time in
      s <| irq := irq_level :: irq s |>
        <| next_transition_time := expire_time |>
        <| irq_timer := Some (if negb (expire_time =? -1) then Some expire_time else None) |>
  end.

(** The callback of counter 0's timer; [qemu_run_timers] has taken it off
    the list before the call. *)
Definition pit_irq_timer (s : PITChannelState) : PITChannelState :=
  let s := s <| irq_timer := Some None |> in
  pit_irq_timer_update s (next_transition_time s).

(** ** Accessors of the other devices *)

Definition channel0 : PITChannelState := mkChannel 0 0 0 0 0 0 0 0 0 0 0 0 0 0 None [].
Definition chan (pit : PITState) (i : Z) : PITChannelState := aget channel0 (channels pit) i.
Definition set_chan (pit : PITState) (i : Z) (s : PITChannelState) : PITState :=
  pit <| channels := aset (channels pit) i s |>.

Definition pit_get_out (pit : PITState) (channel current_time : Z) : Z :=
  pit_get_out1 (chan pit channel) current_time.

Definition pit_set_gate (pit : PITState) (channel val now : Z) : PITState :=
  let s := chan pit channel in
  let s :=
    match mode s with
    | 1 | 5 | 2 | 3 =>
        if gate s <? val then
          let s := s <| count_load_time := now |> in
          pit_irq_timer_update s (count_load_time s)
        else s
    | _ => s
    end in
  set_chan pit channel (s <| gate := u8 val |>).

Definition pit_get_gate (pit : PITState) (channel : Z) : Z := gate (chan pit channel).
Definition pit_get_initial_count (pit : PITState) (channel : Z) : Z := count (chan pit channel).
Definition pit_get_mode (pit : PITState) (channel : Z) : Z := mode (chan pit channel).

Definition pit_load_count (s : PITChannelState) (val now : Z) : PITChannelState :=
  let val := if val =? 0 then 0x10000 else val in
  let s := s <| count_load_time := now |> <| count := val |> in
  pit_irq_timer_update s (count_load_time s).

Definition pit_latch_count (s : PITChannelState) (now : Z) : PITChannelState :=
  if count_latched s =? 0 then
    s <| latched_count := u16 (pit_get_count s now) |> <| count_latched := rw_mode s |>
  else s.

(** ** Ports *)

(** One round of the read-back loop. *)
Definition read_back (s : PITChannelState) (val now : Z) : PITChannelState :=
  let s := if negb (nz (Z.land val 0x20)) then pit_latch_count s now else s in
  if negb (nz (Z.land val 0x10)) && (status_latched s =? 0) then
    s <| status := u8 (Z.lor (Z.lor (Z.lor (Z.shiftl (pit_get_out1 s now) 7)
                                           (Z.shiftl (rw_mode s) 4))
                                    (Z.shiftl (mode s) 1)) (bcd s)) |>
      <| status_latched := 1 |>
  else s.

Definition read_back_at (pit : PITState) (channel val now : Z) : PITState :=
  if nz (Z.land val (Z.shiftl 2 channel))
  then set_chan pit channel (read_back (chan pit channel) val now) else pit.

(** The count registers. *)
Definition write_counter (s : PITChannelState) (val now : Z) : PITChannelState :=
  match write_state s with
  | 2 => pit_load_count s (s32 (u32 (Z.shiftl val 8))) now
  | 3 => s <| write_latch := u8 val |> <| write_state := RW_STATE_WORD1 |>
  | 4 =>
      let s := pit_load_count s (s32 (Z.lor (write_latch s) (u32 (Z.shiftl val 8)))) now in
      s <| write_state := RW_STATE_WORD0 |>
  | _ => pit_load_count s (s32 val) now
  end.

(** The control word of one counter. *)
Definition write_control (s : PITChannelState) (val now : Z) : PITChannelState :=
  let access := Z.land (Z.shiftr val 4) 3 in
  if access =? 0 then pit_latch_count s now
  else
    s <| rw_mode := u8 access |> <| read_state := u8 access |> <| write_state := u8 access |>
      <| mode := u8 (Z.land (Z.shiftr val 1) 7) |> <| bcd := u8 (Z.land val 1) |>.

Definition pit_ioport_write (pit : PITState) (addr val now : Z) : Res PITState :=
  let addr := Z.land addr 3 in
  if addr =? 3 then
    let channel := Z.shiftr val 6 in
    if channel =? 3 then
      Ok (read_back_at (read_back_at (read_back_at pit 0 val now) 1 val now) 2 val now)
    else if channel <? 3 then
      Ok (set_chan pit channel (write_control (chan pit channel) val now))
    else Fail OutOfBounds
  else Ok (set_chan pit addr (write_counter (chan pit addr) val now)).

Definition read_counter (s : PITChannelState) (now : Z) : Z * PITChannelState :=
  if nz (status_latched s) then (status s, s <| status_latched := 0 |>)
  else if nz (count_latched s) then
    match count_latched s with
    | 2 => (Z.shiftr (latched_count s) 8, s <| count_latched := 0 |>)
    | 3 => (Z.land (latched_count s) 0xff, s <| count_latched := RW_STATE_MSB |>)
    | _ => (Z.land (latched_count s) 0xff, s <| count_latched := 0 |>)
    end
  else
    let count := pit_get_count s now in
    match read_state s with
    | 2 => (Z.land (Z.shiftr count 8) 0xff, s)
    | 3 => (Z.land count 0xff, s <| read_state := RW_STATE_WORD1 |>)
    | 4 => (Z.land (Z.shiftr count 8) 0xff, s <| read_state := RW_STATE_WORD0 |>)
    | _ => (Z.land count 0xff, s)
    end.

(** Port 3 is not registered for reads: the index would be out of bounds. *)
Definition pit_ioport_read (pit : PITState) (addr now : Z) : Res (Z * PITState) :=
  let addr := Z.land addr 3 in
  if addr =? 3 then Fail OutOfBounds
  else
    let '(ret, s) := read_counter (chan pit addr) now in
    Ok (ret, set_chan pit addr s).

(** ** Reset and the HPET hooks *)

Definition reset_channel (pit : PITState) (i now : Z) : PITState :=
  let s := (chan pit i) <| mode := 3 |> <| gate := b2z (negb (i =? 2)) |> in
  set_chan pit i (pit_load_count s 0 now).

Definition pit_reset (pit : PITState) (now : Z) : PITState :=
  reset_channel (reset_channel (reset_channel pit 0 now) 1 now) 2 now.

Definition hpet_pit_disable (pit : PITState) : PITState :=
  let s := chan pit 0 in
  match irq_timer s with
  | Some _ => set_chan pit 0 (s <| irq_timer := Some None |>)
  | None => pit
  end.

Definition hpet_pit_enable (pit : PITState) (now : Z) : PITState :=
  let s := (chan pit 0) <| mode := 3 |> <| gate := 1 |> in
  set_chan pit 0 (pit_load_count s 0 now).

(** The static [pit_state], zeroed, after [pit_init]. *)
Definition pit_init : PITState :=
  mkPIT [channel0 <| irq_timer := Some None |>; channel0; channel0].

(** ** Saved state *)

(** [VMSTATE_TIMER(channels[0].irq_timer, PITState)] *)
Definition timer0 (pit : PITState) : option Z :=
  match irq_timer (chan pit 0) with Some ts => ts | None => None end.
#[export] Instance timer0_setter : FieldSetter timer0 :=
  MkSetter timer0 (fun g pit =>
    set_chan pit 0 ((chan pit 0) <| irq_timer := Some (g (timer0 pit)) |>)).

Section Vmstate.
Context {F : Type} `{!ByteStream F}.

Definition vmstate_pit_channel : VMStateDescription F PITChannelState :=
  mkVMSD "pit channel"%string 2 2 2 None None None None None
    [VMSTATE_INT32 count; VMSTATE_UINT16 latched_count; VMSTATE_UINT8 count_latched;
     VMSTATE_UINT8 status_latched; VMSTATE_UINT8 status; VMSTATE_UINT8 read_state;
     VMSTATE_UINT8 write_state; VMSTATE_UINT8 write_latch; VMSTATE_UINT8 rw_mode;
     VMSTATE_UINT8 mode; VMSTATE_UINT8 bcd; VMSTATE_UINT8 gate;
     VMSTATE_INT64 count_load_time; VMSTATE_INT64 next_transition_time].

(** One round of the loop of [pit_load_old]. *)
Definition load_old_channel (f : F) (s : PITChannelState) : Res (PITChannelState * F) :=
  let* (v, f) := qemu_get_be32 f in let s := s <| count := s32 v |> in
  let* (v, f) := qemu_get_be16 f in let s := s <| latched_count := u16 v |> in
  let* (v, f) := qemu_get_byte f in let s := s <| count_latched := u8 v |> in
  let* (v, f) := qemu_get_byte f in let s := s <| status_latched := u8 v |> in
  let* (v, f) := qemu_get_byte f in let s := s <| status := u8 v |> in
  let* (v, f) := qemu_get_byte f in let s := s <| read_state := u8 v |> in
  let* (v, f) := qemu_get_byte f in let s := s <| write_state := u8 v |> in
  let* (v, f) := qemu_get_byte f in let s := s <| write_latch := u8 v |> in
  let* (v, f) := qemu_get_byte f in let s := s <| rw_mode := u8 v |> in
  let* (v, f) := qemu_get_byte f in let s := s <| mode := u8 v |> in
  let* (v, f) := qemu_get_byte f in let s := s <| bcd := u8 v |> in
  let* (v, f) := qemu_get_byte f in let s := s <| gate := u8 v |> in
  let* (v, f) := qemu_get_be64 f in let s := s <| count_load_time := s64 v |> in
  match irq_timer s with
  | Some _ =>
      let* (v, f) := qemu_get_be64 f in let s := s <| next_transition_time := s64 v |> in
      let* (ts, f) := get_timer f in
      Ok (s <| irq_timer := Some ts |>, f)
  | None => Ok (s, f)
  end.

Definition pit_load_old (f : F) (pit : PITState) (version : Z) : Res (Z * PITState * F) :=
  if negb (version =? 1) then Ok (- EINVAL, pit, f)
  else
    let* (s0, f) := load_old_channel f (chan pit 0) in
    let* (s1, f) := load_old_channel f (chan pit 1) in
    let* (s2, f) := load_old_channel f (chan pit 2) in
    Ok (0, set_chan (set_chan (set_chan pit 0 s0) 1 s1) 2 s2, f).

Definition vmstate_pit : VMStateDescription F PITState :=
  mkVMSD "i8254"%string 2 2 1 (Some pit_load_old) None None None None
    [VMSTATE_STRUCT_ARRAY channel0 channels 3 2 vmstate_pit_channel; VMSTATE_TIMER timer0].

End Vmstate.

(** ** Ticks *)

(** The number of PIT clock periods since the count was loaded. *)
Definition ticks (s : PITChannelState) (t : Z) : Z :=
  (t - count_load_time s) * PIT_FREQ / get_ticks_per_sec.

(** Times the virtual clock can show: up to 146 years. *)
Definition time_ok (s : PITChannelState) (t : Z) : Prop :=
  0 <= count_load_time s <= t /\ t < 2 ^ 62.

Definition count_ok (s : PITChannelState) : Prop := 1 <= count s <= 65536.

Lemma ticks_bounds s t : time_ok s t -> 0 <= ticks s t <= t.
Proof.
  unfold time_ok, ticks, PIT_FREQ, get_ticks_per_sec. intros. split.
  - apply Z.div_pos; lia.
  - apply Z.div_le_upper_bound; lia.
Qed.

Lemma muldiv_ticks s t : time_ok s t ->
  muldiv64 (u64 (t - count_load_time s)) PIT_FREQ get_ticks_per_sec = ticks s t.
Proof.
  intros Ht. pose proof (ticks_bounds s t Ht) as Hb. unfold ticks, time_ok in *.
  rewrite u64_small by (unfold range; lia).
  apply muldiv64_exact; unfold range, PIT_FREQ, get_ticks_per_sec in *; lia.
Qed.

Lemma ticks_mono s t t' : t <= t' -> ticks s t <= ticks s t'.
Proof. intros. unfold ticks, PIT_FREQ, get_ticks_per_sec. apply Z.div_le_mono; lia. Qed.

(** Before the host time of tick [n] fewer than [n] ticks have passed. *)
Lemma ticks_before s t n :
  t < count_load_time s + n * get_ticks_per_sec / PIT_FREQ -> ticks s t < n.
Proof.
  unfold ticks, get_ticks_per_sec, PIT_FREQ. intros H. apply Z.div_lt_upper_bound; [lia|].
  pose proof (Z.mul_div_le (n * 1000000000) 1193182 ltac:(lia)). lia.
Qed.

(** The output as a function of the tick. *)
Definition out_tick (s : PITChannelState) (d : Z) : Z :=
  match mode s with
  | 1 => b2z (d <? count s)
  | 2 => if (d mod count s =? 0) && negb (d =? 0) then 1 else 0
  | 3 => b2z (d mod count s <? Z.shiftr (count s + 1) 1)
  | 4 | 5 => b2z (d =? count s)
  | _ => b2z (count s <=? d)
  end.

Lemma out_ticks s t : time_ok s t -> pit_get_out1 s t = out_tick s (ticks s t).
Proof. intros H. unfold pit_get_out1. by rewrite muldiv_ticks. Qed.

(** Case analysis on the mode. *)
Lemma mode_view m :
  m = 1 \/ m = 2 \/ m = 3 \/ m = 4 \/ m = 5 \/ (m <> 1 /\ m <> 2 /\ m <> 3 /\ m <> 4 /\ m <> 5).
Proof. lia. Qed.

Lemma mode_default {A : Type} (m : Z) (a b c d e f : A) :
  m <> 1 -> m <> 2 -> m <> 3 -> m <> 4 -> m <> 5 ->
  match m with 1 => a | 2 => b | 3 => c | 4 => d | 5 => e | _ => f end = f.
Proof.
  intros. destruct m as [|p|p]; try done. do 3 (destruct p as [p|p|]; try done).
Qed.


(** The positions of the two edges of a square wave. *)
Lemma square_low c d :
  1 <= c -> 0 <= d ->
  let base := d / c * c in
  let period2 := (c + 1) / 2 in
  (d mod c < period2 -> forall d', d <= d' < base + period2 -> d' mod c < period2) /\
  (period2 <= d mod c -> forall d', d <= d' < base + c -> period2 <= d' mod c).
Proof.
  intros Hc Hd base p2. pose proof (Z.div_mod d c ltac:(lia)) as E.
  pose proof (Z.mod_pos_bound d c ltac:(lia)).
  assert (Hp : p2 <= c).
  { unfold p2. destruct (Z.eq_dec c 1) as [->|]; [reflexivity|].
    apply Z.div_le_upper_bound; lia. }
  assert (Hm : forall d', base <= d' < base + c -> d' mod c = d' - base).
  { intros d' Hd'. symmetry. apply (Z.mod_unique _ _ (d / c)); unfold base in *; lia. }
  unfold base in *. split; intros Hlt d' Hd'; rewrite Hm by lia; lia.
Qed.

(** The tick computed by [pit_get_next_transition_time]: strictly later, not
    far, and the output does not change before it (mode 2 apart). *)
Lemma next_tick_sound s d :
  count_ok s -> 0 <= d < 2 ^ 62 ->
  match next_transition_tick s d with
  | Some n =>
      d < n <= d + 65537 /\
      (mode s <> 2 -> forall d', d <= d' < n -> out_tick s d' = out_tick s d)
  | None => forall d', d <= d' -> out_tick s d' = out_tick s d
  end.
Proof.
  unfold count_ok. intros Hc Hd. unfold next_transition_tick, out_tick.
  assert (Hb : 0 <= d / count s * count s <= d /\ d - d / count s * count s = d mod count s).
  { pose proof (Z.div_mod d (count s)). pose proof (Z.mod_pos_bound d (count s)).
    pose proof (Z.div_pos d (count s)). lia. }
  pose proof (Z.mod_pos_bound d (count s) ltac:(lia)).
  destruct (mode_view (mode s)) as [->|[->|[->|[->|[->|(N1 & N2 & N3 & N4 & N5)]]]]].
  - destruct (Z.ltb_spec d (count s)); [split; [lia|intros _]|]; intros d' Hd'; f_equal;
      destruct (Z.ltb_spec d' (count s)); (done || lia).
  - rewrite (u64_small (d / _ * _)) by (unfold range; lia).
    rewrite (u64_small (_ + count s)), (u64_small (_ + count s + 1)), (u64_small (d - _))
      by (unfold range; lia).
    destruct Hb as [Hb Eb]. rewrite Eb.
    destruct (Z.eqb_spec (d mod count s) 0), (Z.eqb_spec d 0); cbn; split; try lia; by intros [].
  - rewrite Z.shiftr_div_pow2 by lia. change (2 ^ 1) with 2.
    assert (1 <= (count s + 1) / 2 <= 65536).
    { split; [apply Z.div_le_lower_bound; lia | apply Z.div_le_upper_bound; lia]. }
    rewrite (u64_small (d / _ * _)) by (unfold range; lia).
    rewrite (u64_small (_ + count s)), (u64_small (_ + (count s + 1) / 2)), (u64_small (d - _))
      by (unfold range; lia).
    destruct Hb as [Hb E]. rewrite E.
    destruct (square_low (count s) d) as [L H']; [lia..|].
    destruct (Z.ltb_spec (d mod count s) ((count s + 1) / 2)) as [Hlt|Hge].
    + split; [lia|]. intros _ d' Hd'. f_equal. apply Z.ltb_lt. by apply L.
    + split; [lia|]. intros _ d' Hd'. f_equal. apply Z.ltb_ge. by apply H'.
  - destruct (Z.ltb_spec d (count s)); [split; [lia|intros _]|destruct (Z.eqb_spec d (count s));
      [split; [lia|intros _]|]]; intros d' Hd'; f_equal;
      destruct (Z.eqb_spec d' (count s)); destruct (Z.eqb_spec d (count s)); (done || lia).
  - destruct (Z.ltb_spec d (count s)); [split; [lia|intros _]|destruct (Z.eqb_spec d (count s));
      [split; [lia|intros _]|]]; intros d' Hd'; f_equal;
      destruct (Z.eqb_spec d' (count s)); destruct (Z.eqb_spec d (count s)); (done || lia).
  - rewrite mode_default by done.
    destruct (Z.ltb_spec d (count s)); [split; [lia|intros _]|]; intros d' Hd';
      rewrite !mode_default by done; f_equal; destruct (Z.leb_spec (count s) d');
      destruct (Z.leb_spec (count s) d); (done || lia).
Qed.

(** The host time of a nearby tick does not overflow. *)
Lemma tick_time s n t :
  time_ok s t -> 0 <= n <= ticks s t + 65537 ->
  u64 (count_load_time s + muldiv64 n get_ticks_per_sec PIT_FREQ) =
    count_load_time s + n * get_ticks_per_sec / PIT_FREQ /\
  count_load_time s + n * get_ticks_per_sec / PIT_FREQ < 2 ^ 62 + 2 ^ 60.
Proof.
  intros Ht Hn. assert (Hq : 0 <= n * get_ticks_per_sec / PIT_FREQ <=
    t - count_load_time s + 65537 * 839).
  { unfold get_ticks_per_sec, PIT_FREQ. split; [apply Z.div_pos; lia|].
    apply Z.div_le_upper_bound; [lia|].
    assert (ticks s t * 1000000000 <= (t - count_load_time s) * 1193182); [|lia].
    unfold ticks, PIT_FREQ, get_ticks_per_sec. rewrite Z.mul_comm. apply Z.mul_div_le. lia. }
  pose proof (ticks_bounds s t Ht). unfold time_ok in Ht.
  rewrite muldiv64_exact; [|unfold range, get_ticks_per_sec, PIT_FREQ in *; lia..].
  rewrite u64_small by (unfold range; lia). lia.
Qed.

Lemma next_time_sound s t :
  count_ok s -> time_ok s t ->
  let nt := pit_get_next_transition_time s t in
  (nt = -1 /\ forall t', t <= t' < 2 ^ 62 -> pit_get_out1 s t' = pit_get_out1 s t) \/
  (t < nt < 2 ^ 63 /\
   (mode s <> 2 -> forall t', t <= t' < nt -> t' < 2 ^ 62 -> pit_get_out1 s t' = pit_get_out1 s t)).
Proof.
  intros Hc Ht. pose proof (ticks_bounds s t Ht) as Hd.
  assert (Hok : forall t', t <= t' < 2 ^ 62 -> time_ok s t') by (unfold time_ok in *; lia).
  unfold pit_get_next_transition_time. rewrite muldiv_ticks by done.
  pose proof (next_tick_sound s (ticks s t) Hc) as Hn. unfold time_ok in Ht.
  specialize (Hn ltac:(lia)). destruct (next_transition_tick s (ticks s t)) as [n|]; cbv zeta.
  - right. destruct Hn as [Hn Ho].
    destruct (tick_time s n t ltac:(done) ltac:(lia)) as [-> Hlt].
    rewrite (u64_small t) by (unfold range; lia).
    rewrite (u64_small (t + 1)) by (unfold range; lia).
    set (nt := count_load_time s + _) in *.
    split; [destruct (Z.leb_spec nt t); rewrite s64_small by lia; lia|].
    intros Hm t' Ht' Hb. rewrite !out_ticks by (apply Hok; lia).
    destruct (Z.eq_dec t' t) as [->|]; [done|].
    apply Ho; [done|]. split; [apply ticks_mono; lia|]. apply ticks_before.
    destruct (Z.leb_spec nt t); rewrite s64_small in Ht' by lia; fold nt; lia.
  - left. split; [done|]. intros t' Ht'. rewrite !out_ticks by (apply Hok; lia).
    apply Hn, ticks_mono. lia.
Qed.


(** ** Invariant *)

Record chan_base (now : Z) (s : PITChannelState) : Prop := {
  cb_count : count_ok s;
  cb_latched_count : range 16 (latched_count s);
  cb_count_latched : range 8 (count_latched s);
  cb_status_latched : range 8 (status_latched s);
  cb_status : range 8 (status s);
  cb_read_state : range 8 (read_state s);
  cb_write_state : range 8 (write_state s);
  cb_write_latch : range 8 (write_latch s);
  cb_rw_mode : range 2 (rw_mode s);
  cb_mode : range 3 (mode s);
  cb_bcd : range 1 (bcd s);
  cb_gate : range 8 (gate s);
  cb_load_time : 0 <= count_load_time s <= now;
  cb_next : - 2 ^ 63 <= next_transition_time s < 2 ^ 63
}.

(** The timer, when pending, expires at the recorded transition, after the
    count was loaded. *)
Definition timer_inv (s : PITChannelState) : Prop :=
  forall e, irq_timer s = Some (Some e) ->
    e = next_transition_time s /\ count_load_time s < e.

Definition chan_wf (now : Z) (s : PITChannelState) : Prop := chan_base now s /\ timer_inv s.

(** Only counter 0 has a timer. *)
Record pit_wf (now : Z) (pit : PITState) : Prop := {
  pw_len : length (channels pit) = 3%nat;
  pw_chan : forall i, 0 <= i < 3 -> chan_wf now (chan pit i);
  pw_timer0 : irq_timer (chan pit 0) <> None;
  pw_timer12 : irq_timer (chan pit 1) = None /\ irq_timer (chan pit 2) = None
}.

Lemma range_small w a : 0 <= w -> range w a -> forall w', w <= w' -> range w' a.
Proof. intros. apply (range_weaken w); [lia|done]. Qed.

Lemma irq_timer_update_wf now s t :
  now < 2 ^ 62 -> chan_base now s -> count_load_time s <= t <= now ->
  (irq_timer s = None -> timer_inv s) -> chan_wf now (pit_irq_timer_update s t).
Proof.
  intros Hnow Hb Ht Hi. unfold pit_irq_timer_update.
  destruct (irq_timer s) as [ts|] eqn:E; [|split; [done|by apply Hi]].
  assert (Hok : time_ok s t) by (destruct Hb; unfold time_ok; lia).
  pose proof (next_time_sound s t (cb_count _ _ Hb) Hok) as Hn. cbv zeta in Hn.
  set (nt := pit_get_next_transition_time s t) in *.
  assert (Hnt : nt = -1 \/ t < nt < 2 ^ 63) by (destruct Hn as [[? _]|[? _]]; auto).
  split.
  - destruct Hb. constructor; cbn; try done. lia.
  - intros e. cbn. destruct (Z.eqb_spec nt (-1)); cbn; [done|]. injection 1 as <-. lia.
Qed.

Lemma update_irq_timer s t : (irq_timer (pit_irq_timer_update s t) = None) <-> irq_timer s = None.
Proof. unfold pit_irq_timer_update. destruct (irq_timer s) eqn:E; cbn; by rewrite ?E. Qed.

Lemma rw_state_range :
  range 8 RW_STATE_MSB /\ range 8 RW_STATE_WORD0 /\ range 8 RW_STATE_WORD1.
Proof. unfold range, RW_STATE_MSB, RW_STATE_WORD0, RW_STATE_WORD1. lia. Qed.
#[local] Hint Extern 1 (range 8 RW_STATE_MSB) => apply rw_state_range : s2e.
#[local] Hint Extern 1 (range 8 RW_STATE_WORD0) => apply rw_state_range : s2e.
#[local] Hint Extern 1 (range 8 RW_STATE_WORD1) => apply rw_state_range : s2e.

Ltac chan_base_step := match goal with H : chan_base _ _ |- _ => destruct H end;
  constructor; cbn; auto with s2e.

Lemma load_count_wf now s val :
  0 <= now < 2 ^ 62 -> chan_base now s -> 0 <= val < 65536 ->
  chan_wf now (pit_load_count s val now).
Proof.
  intros Hnow Hb Hv. unfold pit_load_count. apply irq_timer_update_wf.
  - lia.
  - chan_base_step; [|lia]. unfold count_ok. cbn. destruct (Z.eqb_spec val 0); lia.
  - cbn. lia.
  - cbn. intros E e He. cbn in He. congruence.
Qed.

Lemma load_count_timer s val now :
  irq_timer (pit_load_count s val now) = None <-> irq_timer s = None.
Proof. unfold pit_load_count. by rewrite update_irq_timer. Qed.

(** Updates that leave the timing fields alone keep [timer_inv]. *)
Lemma timer_inv_same s s' :
  irq_timer s' = irq_timer s -> next_transition_time s' = next_transition_time s ->
  count_load_time s' = count_load_time s -> timer_inv s -> timer_inv s'.
Proof. unfold timer_inv. by intros -> -> ->. Qed.

Lemma latch_count_wf now s t : chan_wf now s -> chan_wf now (pit_latch_count s t).
Proof.
  intros [Hb Ht]. unfold pit_latch_count. destruct (count_latched s =? 0); [|done].
  split; [|by apply (timer_inv_same s)]. chan_base_step.
  apply (range_weaken 2); [lia|done].
Qed.

Lemma read_back_wf now s val t : chan_wf now s -> chan_wf now (read_back s val t).
Proof.
  intros H. unfold read_back.
  set (s1 := if negb (nz (Z.land val 32)) then _ else s).
  assert (H1 : chan_wf now s1) by (unfold s1; case_match; [by apply latch_count_wf|done]).
  clearbody s1. destruct (negb _ && _); [|done]. destruct H1 as [Hb Ht].
  split; [|by apply (timer_inv_same s1)]. chan_base_step.
Qed.

Lemma word_range lo hi : range 8 lo -> range 8 hi -> 0 <= Z.lor lo (u32 (Z.shiftl hi 8)) < 65536.
Proof.
  intros Hl Hh. assert (E : u32 (Z.shiftl hi 8) = hi * 2 ^ 8).
  { rewrite Z.shiftl_mul_pow2 by lia. apply u32_small. unfold range in *. lia. }
  rewrite E, Z.lor_comm, <- Z.shiftl_mul_pow2, lor_disjoint_add by (done || lia).
  unfold range in *. lia.
Qed.

Lemma write_counter_wf now s val :
  0 <= now < 2 ^ 62 -> chan_wf now s -> range 8 val -> chan_wf now (write_counter s val now).
Proof.
  intros Hnow [Hb Ht] Hv.
  assert (Hl : range 8 (write_latch s)) by apply Hb.
  assert (Hw : forall lo, range 8 lo -> s32 (Z.lor lo (u32 (Z.shiftl val 8))) =
    Z.lor lo (u32 (Z.shiftl val 8))).
  { intros lo Hlo. pose proof (word_range lo val Hlo Hv). apply s32_small. lia. }
  assert (Hlsb : chan_wf now (pit_load_count s (s32 val) now)).
  { unfold range in Hv. rewrite s32_small by lia. apply load_count_wf; [done|done|lia]. }
  unfold write_counter.
  destruct (write_state s) as [|[[p|p|]|[p|[p|p|]|]|]|p]; try exact Hlsb.
  - split; [|by apply (timer_inv_same s)]. chan_base_step.
  - assert (H : chan_wf now (pit_load_count s (s32 (Z.lor (write_latch s) (u32 (Z.shiftl val 8)))) now)).
    { rewrite Hw by done. apply load_count_wf; [done|done|by apply word_range]. }
    destruct H as [Hb' Ht']. split; [|by eapply timer_inv_same; [..|exact Ht']].
    chan_base_step.
  - pose proof (Hw 0 ltac:(unfold range; lia)) as E. rewrite Z.lor_0_l in E. rewrite E.
    apply load_count_wf; [done|done|]. pose proof (word_range 0 val ltac:(unfold range; lia) Hv) as R.
    by rewrite Z.lor_0_l in R.
Qed.

Lemma low_bits w x m : 0 <= w <= 8 -> m = 2 ^ w - 1 -> range w (u8 (Z.land x m)).
Proof.
  intros Hw ->. rewrite low_mask by lia. pose proof (Z.mod_pos_bound x (2 ^ w) ltac:(lia)).
  rewrite u8_small; [done|]. by apply (range_weaken w).
Qed.

Lemma write_control_wf now s val t : chan_wf now s -> chan_wf now (write_control s val t).
Proof.
  intros H. unfold write_control. destruct (_ =? 0); [by apply latch_count_wf|].
  destruct H as [Hb Ht]. split; [|by apply (timer_inv_same s)].
  chan_base_step; apply low_bits; lia.
Qed.

Lemma read_counter_wf now s t : chan_wf now s -> chan_wf now (read_counter s t).2.
Proof.
  intros [Hb Ht]. unfold read_counter.
  destruct (nz (status_latched s)); [|destruct (nz (count_latched s))];
    repeat case_match; cbn [snd];
    first [ by split
          | split; [chan_base_step | by apply (timer_inv_same s)] ].
Qed.


(** No operation on a counter creates or drops its timer. *)
Lemma latch_timer s t : irq_timer (pit_latch_count s t) = irq_timer s.
Proof. unfold pit_latch_count. by case_match. Qed.
Lemma read_back_timer s val t : irq_timer (read_back s val t) = irq_timer s.
Proof.
  unfold read_back. set (s1 := if negb (nz (Z.land val 32)) then _ else s).
  assert (H1 : irq_timer s1 = irq_timer s) by (unfold s1; case_match; [apply latch_timer|done]).
  clearbody s1. by case_match.
Qed.
Lemma write_control_timer s val t : irq_timer (write_control s val t) = irq_timer s.
Proof. unfold write_control. case_match; [apply latch_timer|done]. Qed.
Lemma read_counter_timer s t : irq_timer (read_counter s t).2 = irq_timer s.
Proof. unfold read_counter. repeat case_match; done. Qed.
Lemma write_counter_timer s val t :
  irq_timer (write_counter s val t) = None <-> irq_timer s = None.
Proof.
  unfold write_counter.
  repeat (match goal with |- context [match ?x with _ => _ end] => destruct x end);
    first [apply load_count_timer | done].
Qed.

Lemma set_chan_wf now pit i s :
  pit_wf now pit -> 0 <= i < 3 -> chan_wf now s ->
  (irq_timer s = None <-> irq_timer (chan pit i) = None) -> pit_wf now (set_chan pit i s).
Proof.
  intros [Hl Hc H0 [H1 H2]] Hi Hs Ht.
  assert (Hg : forall j, 0 <= j < 3 -> chan (set_chan pit i s) j = if i =? j then s else chan pit j).
  { intros j Hj. unfold chan, set_chan. cbn. destruct (Z.eqb_spec i j) as [->|].
    - apply aget_aset_eq. rewrite Hl. lia.
    - apply aget_aset_ne; lia. }
  constructor.
  - cbn. by rewrite aset_length.
  - intros j Hj. rewrite Hg by done. case_match; [done|by apply Hc].
  - rewrite Hg by lia. destruct (Z.eqb_spec i 0) as [->|]; [|done]. by rewrite Ht.
  - split; rewrite Hg by lia; case_match; rewrite ?Z.eqb_eq in *; subst; rewrite ?Ht; done.
Qed.

Lemma read_back_at_wf now pit i val :
  pit_wf now pit -> 0 <= i < 3 -> pit_wf now (read_back_at pit i val now).
Proof.
  intros H Hi. unfold read_back_at. case_match; [|done].
  apply set_chan_wf; [done|done|apply read_back_wf, H; lia|]. by rewrite read_back_timer.
Qed.

Lemma reset_channel_wf now pit i :
  0 <= now < 2 ^ 62 -> pit_wf now pit -> 0 <= i < 3 -> pit_wf now (reset_channel pit i now).
Proof.
  intros Hnow H Hi. pose proof (pw_chan _ _ H i Hi) as [Hb Ht]. unfold reset_channel.
  apply set_chan_wf; [done|done| |by rewrite load_count_timer].
  apply load_count_wf; [done| |lia]. chan_base_step.
Qed.

(** What the machine does to the timer, with the virtual clock: time passes,
    the guest writes a byte or reads a port, the speaker port moves a gate, the machine
    is reset, the HPET takes over or hands back, and the pending timer of
    counter 0 runs once it has expired. *)
Inductive pit_step : Z * PITState -> Z * PITState -> Prop :=
| ps_time now now' pit : now <= now' < 2 ^ 62 -> pit_step (now, pit) (now', pit)
| ps_write now pit addr val pit' :
    range 8 val -> pit_ioport_write pit addr val now = Ok pit' -> pit_step (now, pit) (now, pit')
| ps_read now pit addr ret pit' :
    pit_ioport_read pit addr now = Ok (ret, pit') -> pit_step (now, pit) (now, pit')
| ps_gate now pit ch val :
    0 <= ch < 3 -> pit_step (now, pit) (now, pit_set_gate pit ch (b2z val) now)
| ps_reset now pit : pit_step (now, pit) (now, pit_reset pit now)
| ps_hpet_disable now pit : pit_step (now, pit) (now, hpet_pit_disable pit)
| ps_hpet_enable now pit : pit_step (now, pit) (now, hpet_pit_enable pit now)
| ps_timer now pit e :
    irq_timer (chan pit 0) = Some (Some e) -> e <= now ->
    pit_step (now, pit) (now, set_chan pit 0 (pit_irq_timer (chan pit 0))).

(** The machine starts with a reset. *)
Inductive pit_reachable : Z * PITState -> Prop :=
| pr_init now : 0 <= now < 2 ^ 62 -> pit_reachable (now, pit_reset pit_init now)
| pr_step p p' : pit_reachable p -> pit_step p p' -> pit_reachable p'.

Lemma init_wf now : 0 <= now < 2 ^ 62 -> pit_wf now (pit_reset pit_init now).
Proof.
  intros Hnow.
  set (pre ts m g := channel0 <| irq_timer := ts |> <| mode := m |> <| gate := g |>
    <| count := 0x10000 |> <| count_load_time := now |>).
  assert (Hp : forall ts g, (ts = None \/ ts = Some None) -> range 8 g ->
    chan_wf now (pit_irq_timer_update (pre ts 3 g) now)).
  { intros ts g Hts Hg. apply irq_timer_update_wf; [lia| |cbn; lia|].
    - constructor; cbn; unfold count_ok; cbn; try (unfold range; lia). done.
    - intros _ e. cbn. destruct Hts as [->| ->]; done. }
  constructor.
  - done.
  - intros i Hi. assert (i = 0 \/ i = 1 \/ i = 2) as [->|[->| ->]] by lia;
      [apply (Hp (Some None) 1)|apply (Hp None 1)|apply (Hp None 0)]; (by auto) || (unfold range; lia).
  - done.
  - done.
Qed.

Lemma time_wf now now' pit : now <= now' -> pit_wf now pit -> pit_wf now' pit.
Proof.
  intros Hle [Hl Hc H0 H1]. constructor; try done. intros i Hi.
  destruct (Hc i Hi) as [Hb Ht]. split; [|done]. destruct Hb. constructor; try done. lia.
Qed.

Lemma land_3_cases a : Z.land a 3 = 3 \/ 0 <= Z.land a 3 < 3.
Proof.
  assert (E : Z.land a 3 = a mod 4) by exact (low_mask a 2 ltac:(lia)). rewrite E.
  pose proof (Z.mod_pos_bound a 4). lia.
Qed.

Lemma shiftr6_cases val : range 8 val -> 0 <= Z.shiftr val 6 <= 3.
Proof.
  unfold range. intros. rewrite Z.shiftr_div_pow2 by lia.
  split; [apply Z.div_pos; lia|]. apply Z.lt_succ_r, Z.div_lt_upper_bound; lia.
Qed.

Lemma write_wf now pit addr val pit' :
  0 <= now < 2 ^ 62 -> pit_wf now pit -> range 8 val ->
  pit_ioport_write pit addr val now = Ok pit' -> pit_wf now pit'.
Proof.
  intros Hnow H Hv. unfold pit_ioport_write. destruct (land_3_cases addr) as [->|Ha].
  - cbn [Z.eqb Pos.eqb]. pose proof (shiftr6_cases val Hv).
    destruct (Z.eqb_spec (Z.shiftr val 6) 3); [|destruct (Z.ltb_spec (Z.shiftr val 6) 3); [|lia]];
      injection 1 as <-.
    + repeat (apply read_back_at_wf; [|lia]). done.
    + apply set_chan_wf; [done|lia|apply write_control_wf, H; lia|].
      by rewrite write_control_timer.
  - destruct (Z.eqb_spec (Z.land addr 3) 3); [lia|]. injection 1 as <-.
    apply set_chan_wf; [done|done|apply write_counter_wf; [done|apply H; lia|done]|].
    apply write_counter_timer.
Qed.

Lemma set_gate_wf now pit ch v :
  0 <= now < 2 ^ 62 -> pit_wf now pit -> 0 <= ch < 3 ->
  pit_wf now (pit_set_gate pit ch (b2z v) now).
Proof.
  intros Hnow H Hch. pose proof (pw_chan _ _ H ch Hch) as Hc. unfold pit_set_gate.
  set (s := chan pit ch) in *. set (s1 := match mode s with 0 => s | _ => _ end).
  assert (Hs : chan_wf now s1 /\ (irq_timer s1 = None <-> irq_timer s = None)).
  { set (r := pit_irq_timer_update (s <| count_load_time := now |>) now).
    assert (Hr : chan_wf now r /\ (irq_timer r = None <-> irq_timer s = None)).
    { split; [|unfold r; by rewrite update_irq_timer]. destruct Hc as [Hb Ht].
      apply irq_timer_update_wf; [lia| |cbn; lia|].
      - chan_base_step. lia.
      - cbn. intros E e He. cbn in He. congruence. }
    unfold s1. clear s1.
    repeat (match goal with |- context [match ?x with _ => _ end] => destruct x end);
      first [exact Hr | by split]. }
  clearbody s1. destruct Hs as [[Hb Ht] Hn].
  apply set_chan_wf; [done|done| |done].
  split; [|by apply (timer_inv_same s1)]. chan_base_step.
Qed.

Lemma step_wf now pit now' pit' :
  pit_step (now, pit) (now', pit') -> 0 <= now < 2 ^ 62 -> pit_wf now pit ->
  0 <= now' < 2 ^ 62 /\ pit_wf now' pit'.
Proof.
  intros Hs Hnow H. pose proof (pw_chan _ _ H 0 ltac:(lia)) as [Hb Ht]. inversion Hs; subst.
  - split; [lia|]. by apply (time_wf now); [lia|].
  - split; [done|]. by apply (write_wf now' pit addr val).
  - split; [done|]. match goal with E : pit_ioport_read _ _ _ = _ |- _ => revert E end.
    unfold pit_ioport_read.
    destruct (land_3_cases addr) as [->|Ha]; [done|].
    destruct (Z.eqb_spec (Z.land addr 3) 3); [lia|].
    pose proof (read_counter_wf now' _ now' (pw_chan _ _ H _ Ha)) as Hr.
    pose proof (read_counter_timer (chan pit (Z.land addr 3)) now') as Et.
    destruct (read_counter _ _) as [r s]. injection 1 as <- <-. cbn in *.
    apply set_chan_wf; [done|done|done|by rewrite Et].
  - split; [done|]. by apply set_gate_wf.
  - split; [done|]. repeat (apply reset_channel_wf; [done| |lia]). done.
  - split; [done|]. unfold hpet_pit_disable. destruct (irq_timer (chan pit 0)) eqn:E; [|done].
    apply set_chan_wf; [done|lia| |cbn; by rewrite E]. split; [chan_base_step|done].
  - split; [done|]. unfold hpet_pit_enable. apply set_chan_wf; [done|lia| |by rewrite load_count_timer].
    apply load_count_wf; [done| |lia]. chan_base_step; unfold range; lia.
  - split; [done|]. destruct (Ht e) as [-> Hlt]; [done|].
    apply set_chan_wf; [done|lia| |].
    + unfold pit_irq_timer. apply irq_timer_update_wf; [lia|chan_base_step|cbn; lia|done].
    + unfold pit_irq_timer. rewrite update_irq_timer. cbn.
      match goal with E : irq_timer _ = Some _ |- _ => by rewrite E end.
Qed.

Lemma reachable_wf p : pit_reachable p -> 0 <= p.1 < 2 ^ 62 /\ pit_wf p.1 p.2.
Proof.
  induction 1 as [now Hn|[now pit] [now' pit'] _ [IH1 IH2] Hs]; cbn in *.
  - split; [done|by apply init_wf].
  - by apply (step_wf now pit).
Qed.


(** ** Properties *)

(** type and timer invariant of the interval timer.  After a reset and
    any sequence of byte writes, reads, gate changes, resets, HPET hand-overs
    and expiries of counter 0's timer, every register stays within its width,
    each count is between 1 and 65536 (so no division by zero), only counter 0
    has a timer and, when pending, it expires at the recorded transition, after
    the count was loaded; and no byte write to the ports fails. *)
Theorem pit_reachable_invariant now pit :
  pit_reachable (now, pit) ->
  pit_wf now pit /\
  forall addr val, range 8 val -> exists pit', pit_ioport_write pit addr val now = Ok pit'.
Proof.
  intros Hr. split; [apply (reachable_wf _ Hr)|].
  intros addr val Hv. unfold pit_ioport_write. pose proof (shiftr6_cases val Hv).
  repeat (case_match; eauto); rewrite ?Z.eqb_neq, ?Z.ltb_ge in *; lia.
Qed.

Lemma pit_reachable_invariant_witness : pit_wf 5 (pit_reset pit_init 5).
Proof. apply pit_reachable_invariant. apply pr_init. lia. Defined.

(** C37: [pit_get_next_transition_time] of a counter of a reachable timer at
    any time [t] from its load on: either it answers -1 and the output never
    changes again, or it answers a strictly later time, before which (in every
    mode but 2) the output stays what it is at [t].  So the timer of counter 0
    always advances and misses no edge in those modes. *)
Theorem pit_next_transition_sound now pit i t :
  pit_reachable (now, pit) -> 0 <= i < 3 ->
  let s := chan pit i in
  count_load_time s <= t < 2 ^ 62 ->
  let nt := pit_get_next_transition_time s t in
  (nt = -1 /\ forall t', t <= t' < 2 ^ 62 -> pit_get_out1 s t' = pit_get_out1 s t) \/
  (t < nt /\
   (mode s <> 2 -> forall t', t <= t' < nt -> t' < 2 ^ 62 -> pit_get_out1 s t' = pit_get_out1 s t)).
Proof.
  intros Hr Hi s Ht. destruct (reachable_wf _ Hr) as [_ Hwf].
  destruct (pw_chan _ _ Hwf i Hi) as [Hb _]. cbn [snd] in Hb. fold s in Hb.
  destruct (next_time_sound s t (cb_count _ _ Hb)) as [H|[H1 H2]].
  - destruct Hb. unfold time_ok. cbn in *. lia.
  - by left.
  - right. split; [lia|done].
Qed.

Lemma pit_next_transition_sound_witness :
  0 < pit_get_next_transition_time (chan (pit_reset pit_init 0) 0) 0.
Proof.
  destruct (pit_next_transition_sound 0 (pit_reset pit_init 0) 0 0 (pr_init 0 ltac:(lia)))
    as [[E _]|[H _]]; [lia | vm_compute; intuition discriminate | vm_compute in E; discriminate | exact H].
Defined.

(** The value a counter shows [d] ticks after it was loaded with [v]. *)
Definition counter_value (m v d : Z) : Z :=
  match m with
  | 0 | 1 | 4 | 5 => v - d
  | 3 => v - (2 * d) mod v
  | _ => v - d mod v
  end mod 65536.

Lemma u16_value x : u16 (s32 (u64 x)) = x mod 65536.
Proof.
  assert (D : forall z, (z mod 2 ^ 64) mod 2 ^ 16 = z mod 2 ^ 16).
  { intros z. symmetry. apply Znumtheory.Zmod_div_mod; [lia|lia|]. by exists (2 ^ 48). }
  unfold u16, s32, u64.
  rewrite <- (Zminus_mod_idemp_l _ (2 ^ 31) (2 ^ 16)).
  rewrite <- (Znumtheory.Zmod_div_mod (2 ^ 16) (2 ^ 32)) by (try lia; by exists (2 ^ 16)).
  rewrite Zminus_mod_idemp_l, Z.add_simpl_r. apply D.
Qed.

Lemma latched_value s t :
  count_ok s -> time_ok s t ->
  u16 (pit_get_count s t) = counter_value (mode s) (count s) (ticks s t).
Proof.
  intros Hc Ht. pose proof (ticks_bounds s t Ht). unfold pit_get_count, counter_value.
  rewrite muldiv_ticks by done. unfold time_ok in Ht.
  rewrite (u64_small (2 * ticks s t)) by (unfold range; lia).
  assert (E : forall x, u16 (Z.land (u64 x) 65535) = x mod 65536).
  { intros x. rewrite land_ffff, u16_small by (apply Z.mod_pos_bound; lia).
    unfold u64. symmetry. apply Znumtheory.Zmod_div_mod; [lia|lia|]. by exists (2 ^ 48). }
  repeat (match goal with |- context [match ?x with _ => _ end] => destruct x end);
    rewrite ?E, ?u16_value; done.
Qed.

(** Programming one counter with a 16-bit count, then latching and reading. *)
Definition program_and_latch (s : PITChannelState) (ctl lo hi t0 t : Z) : PITChannelState :=
  let s := write_control s ctl t0 in
  let s := write_counter s lo t0 in
  let s := write_counter s hi t0 in
  pit_latch_count s t.

(** A control word for two-byte access in mode [m]. *)
Definition control_word (m : Z) : Z := 0x30 + 2 * m.

Lemma control_word_fields s m t :
  range 3 m -> let s' := write_control s (control_word m) t in
  mode s' = m /\ write_state s' = 3 /\ rw_mode s' = 3 /\
  count_latched s' = count_latched s /\ status_latched s' = status_latched s.
Proof.
  unfold range. intros Hm. unfold control_word.
  assert (m = 0 \/ m = 1 \/ m = 2 \/ m = 3 \/ m = 4 \/ m = 5 \/ m = 6 \/ m = 7) as
    [->|[->|[->|[->|[->|[->|[->| ->]]]]]]] by lia; done.
Qed.

Lemma pit_update_keeps s t :
  let s' := pit_irq_timer_update s t in
  mode s' = mode s /\ count s' = count s /\ rw_mode s' = rw_mode s /\
  count_latched s' = count_latched s /\ status_latched s' = status_latched s /\
  count_load_time s' = count_load_time s.
Proof. unfold pit_irq_timer_update. by case_match. Qed.

(** Reading a latched 16-bit count. *)
Lemma read_latched s x t1 t2 :
  status_latched s = 0 -> count_latched s = 3 -> latched_count s = x ->
  (read_counter s t1).1 = x mod 256 /\
  (read_counter (read_counter s t1).2 t2).1 = x / 256 /\
  count_latched (read_counter (read_counter s t1).2 t2).2 = 0.
Proof.
  intros H1 H2 H3.
  assert (E : read_counter s t1 = (x mod 256, s <| count_latched := RW_STATE_MSB |>)).
  { unfold read_counter. rewrite H1, H2, H3, land_ff. done. }
  assert (E' : read_counter (s <| count_latched := RW_STATE_MSB |>) t2 =
    (x / 256, s <| count_latched := RW_STATE_MSB |> <| count_latched := 0 |>)).
  { unfold read_counter. cbn [status_latched count_latched latched_count set_field].
    rewrite H1, H3, Z.shiftr_div_pow2 by lia. done. }
  rewrite E. cbn [fst snd]. rewrite E'. done.
Qed.

(** programming a counter and reading it back.  With no latch pending, after
    the control word for two-byte access in mode [m] and the two bytes of a
    count [v] at time [t0] (0 standing for 65536), a latch command at time [t]
    followed by two reads, at whatever later times, returns the low and the
    high byte of the value the counter had at [t]. *)
Theorem pit_program_latch_roundtrip s m lo hi t0 t t1 t2 :
  range 3 m -> range 8 lo -> range 8 hi -> 0 <= t0 <= t -> t < 2 ^ 62 ->
  count_latched s = 0 -> status_latched s = 0 ->
  let v := if hi * 256 + lo =? 0 then 65536 else hi * 256 + lo in
  let x := counter_value m v ((t - t0) * PIT_FREQ / get_ticks_per_sec) in
  let s' := program_and_latch s (control_word m) lo hi t0 t in
  (read_counter s' t1).1 = x mod 256 /\
  (read_counter (read_counter s' t1).2 t2).1 = x / 256 /\
  count_latched (read_counter (read_counter s' t1).2 t2).2 = 0.
Proof.
  intros Hm Hlo Hhi Ht0 Ht Hcl Hsl v x s'.
  destruct (control_word_fields s m t0 Hm) as (E1 & E2 & E3 & E4 & E5).
  unfold s', program_and_latch. set (a := write_control s (control_word m) t0) in *.
  assert (Eb : write_counter a lo t0 =
    a <| write_latch := u8 lo |> <| write_state := RW_STATE_WORD1 |>)
    by (unfold write_counter; by rewrite E2).
  rewrite Eb. set (b := a <| write_latch := u8 lo |> <| write_state := RW_STATE_WORD1 |>).
  assert (Hv : s32 (Z.lor (u8 lo) (u32 (Z.shiftl hi 8))) = hi * 256 + lo).
  { pose proof (word_range lo hi Hlo Hhi). rewrite (u8_small lo) by done.
    rewrite s32_small by lia. rewrite (u32_small (Z.shiftl hi 8)).
    - rewrite Z.lor_comm. by apply lor_disjoint_add.
    - rewrite Z.shiftl_mul_pow2 by lia. unfold range in *. lia. }
  set (ld := b <| count_load_time := t0 |> <| count := v |>).
  assert (Ec : write_counter b hi t0 =
    (pit_irq_timer_update ld t0) <| write_state := RW_STATE_WORD0 |>).
  { change (write_counter b hi t0) with
      ((pit_load_count b (s32 (Z.lor (u8 lo) (u32 (Z.shiftl hi 8)))) t0)
        <| write_state := RW_STATE_WORD0 |>). by rewrite Hv. }
  rewrite Ec. destruct (pit_update_keeps ld t0) as (K1 & K2 & K3 & K4 & K5 & K6).
  set (c := (pit_irq_timer_update ld t0) <| write_state := RW_STATE_WORD0 |>).
  assert (Hx : u16 (pit_get_count c t) = x).
  { rewrite latched_value.
    - unfold x, ticks. change (mode c) with (mode (pit_irq_timer_update ld t0)).
      change (count c) with (count (pit_irq_timer_update ld t0)).
      change (count_load_time c) with (count_load_time (pit_irq_timer_update ld t0)).
      rewrite K1, K2, K6. change (mode ld) with (mode a). by rewrite E1.
    - unfold count_ok. change (count c) with (count (pit_irq_timer_update ld t0)). rewrite K2.
      cbn. unfold v, range in *. destruct (Z.eqb_spec (hi * 256 + lo) 0); lia.
    - unfold time_ok. change (count_load_time c) with (count_load_time (pit_irq_timer_update ld t0)).
      rewrite K6. cbn. lia. }
  assert (Hcl' : count_latched c = 0)
    by (change (count_latched (pit_irq_timer_update ld t0) = 0); rewrite K4; cbn; congruence).
  assert (Hsl' : status_latched c = 0)
    by (change (status_latched (pit_irq_timer_update ld t0) = 0); rewrite K5; cbn; congruence).
  assert (Hrw : rw_mode c = 3)
    by (change (rw_mode (pit_irq_timer_update ld t0) = 3); by rewrite K3).
  apply read_latched; unfold pit_latch_count; rewrite Hcl'; cbn [Z.eqb]; [exact Hsl'|exact Hrw|exact Hx].
Qed.

Lemma pit_program_latch_roundtrip_witness :
  (read_counter (program_and_latch channel0 0x34 0x10 0x27 0 1000000) 1000000).1 =
    counter_value 2 10000 1193 mod 256.
Proof.
  exact (proj1 (pit_program_latch_roundtrip channel0 2 0x10 0x27 0 1000000 1000000 1000000
    ltac:(unfold range; lia) ltac:(unfold range; lia) ltac:(unfold range; lia)
    ltac:(lia) ltac:(lia) eq_refl eq_refl)).
Defined.


(** Counter 0 in mode 2, loaded with 59659 (20 Hz) at time 0. *)
Definition rate_20hz : PITChannelState :=
  pit_load_count (channel0 <| irq_timer := Some None |> <| mode := 2 |>) 59659 0.

(** In mode 2 the transition times rely on the rounding of [muldiv64]: the
    rising edge of each period is found by asking for one tick too many and
    rounding down.  When that tick falls on a whole nanosecond the edge is lost.
    Counter 0 loaded with 59659: the timer runs at 499.999161 ms and next at
    500 ms and drives 0 both times, while the output is 1 in between; the tenth
    interrupt of the series never happens. *)
Theorem pit_mode2_missed_edge :
  let s := Nat.iter 18 pit_irq_timer rate_20hz in
  next_transition_time (Nat.iter 17 pit_irq_timer rate_20hz) = 499999161 /\
  next_transition_time s = 500000000 /\
  take 4 (irq (pit_irq_timer s)) = [0; 0; 1; 0] /\
  pit_get_out1 s 499999500 = 1.
Proof. vm_compute. done. Qed.

(** ** The saved fields *)

Section Saved.
Context {F : Type} `{!ByteStream F} `{!ByteStreamLaws F}.

Definition channel_fields : list (FieldOk (F := F) PITChannelState) :=
  [mkFieldOk (VMSTATE_INT32 count) int32_ok; mkFieldOk (VMSTATE_UINT16 latched_count) uint16_ok;
   mkFieldOk (VMSTATE_UINT8 count_latched) uint8_ok;
   mkFieldOk (VMSTATE_UINT8 status_latched) uint8_ok; mkFieldOk (VMSTATE_UINT8 status) uint8_ok;
   mkFieldOk (VMSTATE_UINT8 read_state) uint8_ok; mkFieldOk (VMSTATE_UINT8 write_state) uint8_ok;
   mkFieldOk (VMSTATE_UINT8 write_latch) uint8_ok; mkFieldOk (VMSTATE_UINT8 rw_mode) uint8_ok;
   mkFieldOk (VMSTATE_UINT8 mode) uint8_ok; mkFieldOk (VMSTATE_UINT8 bcd) uint8_ok;
   mkFieldOk (VMSTATE_UINT8 gate) uint8_ok;
   mkFieldOk (VMSTATE_INT64 count_load_time) int64_ok;
   mkFieldOk (VMSTATE_INT64 next_transition_time) int64_ok].

Lemma channel_descr_ok : DescrOk (F := F) vmstate_pit_channel channel_fields.
Proof. constructor; cbn; try done; lia. Qed.

Lemma channel_valid now s :
  now < 2 ^ 62 -> chan_wf now s -> state_valid vmstate_pit_channel channel_fields s.
Proof.
  intros Hnow [[ ] _]. unfold state_valid, channel_fields, count_ok, range in *.
  repeat (constructor; [split; [done|]; split; [cbn; lia|];
    intros i _; split; [cbn; unfold range; lia | by destruct s] |]). constructor.
Qed.

Definition pit_fields : list (FieldOk (F := F) PITState) :=
  [mkFieldOk (VMSTATE_STRUCT_ARRAY channel0 channels 3 2 vmstate_pit_channel)
     (struct_ok vmstate_pit_channel channel_fields channel_descr_ok eq_refl);
   mkFieldOk (VMSTATE_TIMER timer0) timer_ok].

Lemma pit_descr_ok : DescrOk (F := F) vmstate_pit pit_fields.
Proof. constructor; cbn; try done; lia. Qed.

Lemma pit_state_valid now pit :
  0 <= now < 2 ^ 62 -> pit_wf now pit -> state_valid vmstate_pit pit_fields pit.
Proof.
  intros Hnow H. pose proof (pw_chan _ _ H 0 ltac:(lia)) as [Hb Ht].
  destruct H as [Hl Hc H0 [H1 H2]]. destruct pit as [cs].
  destruct cs as [|c0 [|c1 [|c2 [|]]]]; try done.
  unfold state_valid, pit_fields. constructor; [|constructor; [|constructor]].
  - split; [done|]. split; [cbn; lia|]. intros i Hi. split.
    + apply (channel_valid now); [lia|].
      specialize (Hc (Z.of_nat i)). unfold chan, aget in Hc. rewrite Nat2Z.id in Hc.
      apply Hc. cbn in Hi. lia.
    + destruct i as [|[|[|i]]]; [done..|cbn in Hi; lia].
  - split; [done|]. split; [cbn; lia|]. intros i _.
    change (chan_base now c0) in Hb. change (timer_inv c0) in Ht. change (irq_timer c0 <> None) in H0.
    split; [|by destruct c0 as [? ? ? ? ? ? ? ? ? ? ? ? ? ? [ts|] ?]].
    change (timer_valid (match irq_timer c0 with Some ts => ts | None => None end)).
    destruct (irq_timer c0) as [[e|]|] eqn:E; [|done..].
    destruct (Ht e E) as [-> Hlt]. destruct Hb. cbn. lia.
Qed.

(** Loading restores every register of the counters and counter 0's timer;
    the interrupt line is not part of the saved state. *)
Definition restored (s s0 : PITChannelState) : PITChannelState :=
  s <| irq_timer := irq_timer s0 |> <| irq := irq s0 |>.

Lemma pit_load_result c0 c1 c2 d0 d1 d2 :
  irq_timer c0 <> None ->
  load_result (F := F) vmstate_pit pit_fields (mkPIT [c0; c1; c2]) (mkPIT [d0; d1; d2]) =
    (0, mkPIT [(restored c0 d0) <| irq_timer := irq_timer c0 |>; restored c1 d1; restored c2 d2]).
Proof.
  intros Hn. destruct c0 as [? ? ? ? ? ? ? ? ? ? ? ? ? ? [ts|] ?]; [|done].
  destruct c1, c2, d0, d1, d2. done.
Qed.

End Saved.

End Pit.
