(* ===== verification/Dma.v ===== *)
(** * The 8237 DMA controllers

    src/s2e/qemu/hw/dma.c: two controllers of four channels, their flip-flop
    addressed registers, the command/mask/mode ports, and [DMA_run], which
    calls the transfer handler of every channel that is requested and not
    masked.

    A [struct dma_cont *] is the controller's index.  The transfer handlers are
    function pointers of the devices: here [transfer_handler] is the pointer's
    identity ([0] for [dma_phony_handler]) and [TransferHandlers] gives what
    each does to the whole state, the DMA controllers included, since a device
    may call back [DMA_release_DREQ].  [world] is the state of the rest of the
    machine.  Guest memory, reached by [cpu_physical_memory_read]/[_write], is
    RAM: a byte per address. *)

From stdpp Require Import strings.
From S2P Require Import Prelude DevState Savevm.

Module Dma.

Record dma_regs := mkRegs {
  now : list Z;
  base : list Z;
  mode : Z;
  page : Z;
  pageh : Z;
  dack : Z;
  eop : Z;
  transfer_handler : nat;
  opaque : Z
}.
#[export] Instance dma_regs_eta : RecordEta dma_regs :=
  fields mkRegs < now ; base ; mode ; page ; pageh ; dack ; eop ; transfer_handler ; opaque >.

Definition ADDR : Z := 0.
Definition COUNT : Z := 1.

Record dma_cont := mkCont {
  status : Z;
  command : Z;
  mask : Z;
  flip_flop : Z;
  dshift : Z;
  regs : list dma_regs
}.
#[export] Instance dma_cont_eta : RecordEta dma_cont :=
  fields mkCont < status ; command ; mask ; flip_flop ; dshift ; regs >.

Record DmaState (W : Type) := mkDma {
  dma_controllers : list dma_cont;
  dma_bh : bool;
  world : W
}.
Arguments mkDma {W}.
Arguments dma_controllers {W}.
Arguments dma_bh {W}.
Arguments world {W}.
#[export] Instance DmaState_eta {W} : RecordEta (DmaState W) :=
  fields mkDma < dma_controllers ; dma_bh ; world >.

(** What a device promises the DMA controller: a handler that, given its
    opaque pointer, the channel, the position and the size of the transfer,
    returns the new position. *)
Class TransferHandlers (W : Type) :=
  transfer : nat -> DmaState W -> Z -> Z -> Z -> Z -> Z * DmaState W.

Definition CMD_NOT_SUPPORTED : Z :=
  Z.lor (Z.lor (Z.lor (Z.lor (Z.lor (Z.lor 0x01 0x02) 0x08) 0x10) 0x20) 0x40) 0x80.

Definition channels : list Z := [-1; 2; 3; 1; -1; -1; -1; 0].

Definition regs0 : dma_regs := mkRegs [0; 0] [0; 0] 0 0 0 0 0 0 0.
Definition cont0 : dma_cont := mkCont 0 0 0 0 0 [regs0; regs0; regs0; regs0].

(** [d->regs[ichan]] and the controller [d]. *)
Definition reg (d : dma_cont) (ichan : Z) : dma_regs := aget regs0 (regs d) ichan.
Definition set_reg (d : dma_cont) (ichan : Z) (r : dma_regs) : dma_cont :=
  d <| regs := aset (regs d) ichan r |>.

Definition page_chan (nport : Z) : Z := aget 0 channels (Z.land nport 7).

Definition write_page (d : dma_cont) (nport data : Z) : dma_cont :=
  let ichan := page_chan nport in
  if -1 =? ichan then d else set_reg d ichan ((reg d ichan) <| page := u8 data |>).

Definition write_pageh (d : dma_cont) (nport data : Z) : dma_cont :=
  let ichan := page_chan nport in
  if -1 =? ichan then d else set_reg d ichan ((reg d ichan) <| pageh := u8 data |>).

Definition read_page (d : dma_cont) (nport : Z) : Z :=
  let ichan := page_chan nport in
  if -1 =? ichan then 0 else page (reg d ichan).

Definition read_pageh (d : dma_cont) (nport : Z) : Z :=
  let ichan := page_chan nport in
  if -1 =? ichan then 0 else pageh (reg d ichan).

Definition init_chan (d : dma_cont) (ichan : Z) : dma_cont :=
  let r := reg d ichan in
  let r := r <| now := aset (now r) ADDR (Z.shiftl (aget 0 (base r) ADDR) (dshift d)) |> in
  let r := r <| now := aset (now r) COUNT 0 |> in
  set_reg d ichan r.

Definition getff (d : dma_cont) : Z * dma_cont :=
  let ff := flip_flop d in
  (ff, d <| flip_flop := b2z (negb (nz ff)) |>).

(** Only [iport] 0 to 7 are registered for the channel registers; beyond,
    [regs[ichan]] would be out of bounds. *)
Definition read_chan (d : dma_cont) (nport : Z) : Res (Z * dma_cont) :=
  let iport := Z.land (Z.shiftr nport (dshift d)) 0x0f in
  let ichan := Z.shiftr iport 1 in
  let nreg := Z.land iport 1 in
  if 4 <=? ichan then Fail OutOfBounds
  else
    let r := reg d ichan in
    let dir := if nz (Z.land (Z.shiftr (mode r) 5) 1) then -1 else 1 in
    let '(ff, d) := getff d in
    let val :=
      if nz nreg then s32 (Z.shiftl (aget 0 (base r) COUNT) (dshift d) - aget 0 (now r) COUNT)
      else s32 (aget 0 (now r) ADDR + aget 0 (now r) COUNT * dir) in
    Ok (Z.land (Z.shiftr val (dshift d + Z.shiftl ff 3)) 0xff, d).

Definition write_chan (d : dma_cont) (nport data : Z) : Res dma_cont :=
  let iport := Z.land (Z.shiftr nport (dshift d)) 0x0f in
  let ichan := Z.shiftr iport 1 in
  let nreg := Z.land iport 1 in
  if 4 <=? ichan then Fail OutOfBounds
  else
    let '(ff, d) := getff d in
    let r := reg d ichan in
    if nz ff then
      let b := Z.lor (Z.land (aget 0 (base r) nreg) 0xff) (Z.land (Z.shiftl data 8) 0xff00) in
      let d := set_reg d ichan (r <| base := aset (base r) nreg (u16 b) |>) in
      Ok (init_chan d ichan)
    else
      let b := Z.lor (Z.land (aget 0 (base r) nreg) 0xff00) (Z.land data 0xff) in
      Ok (set_reg d ichan (r <| base := aset (base r) nreg (u16 b) |>)).

Section Run.
Context {W : Type} `{!TransferHandlers W}.

Definition cont (s : DmaState W) (icont : Z) : dma_cont := aget cont0 (dma_controllers s) icont.
Definition set_cont (s : DmaState W) (icont : Z) (d : dma_cont) : DmaState W :=
  s <| dma_controllers := aset (dma_controllers s) icont d |>.

(** Warns and does nothing. *)
Definition dma_phony_handler (s : DmaState W) (opq nchan dma_pos dma_len : Z)
    : Z * DmaState W := (dma_pos, s).

Definition call_handler (h : nat) : DmaState W -> Z -> Z -> Z -> Z -> Z * DmaState W :=
  match h with O => dma_phony_handler | _ => transfer h end.

Definition channel_run (s : DmaState W) (ncont ichan : Z) : DmaState W :=
  let r := reg (cont s ncont) ichan in
  let '(n, s) :=
    call_handler (transfer_handler r) s (opaque r) (ichan + Z.shiftl ncont 2)
      (aget 0 (now r) COUNT) (Z.shiftl (aget 0 (base r) COUNT + 1) ncont) in
  let d := cont s ncont in
  let r := reg d ichan in
  set_cont s ncont (set_reg d ichan (r <| now := aset (now r) COUNT n |>)).

(** One iteration of the inner loop of [DMA_run]; [rearm] is the local. *)
Definition run_step (icont ichan : Z) (p : DmaState W * Z) : DmaState W * Z :=
  let '(s, rearm) := p in
  let d := cont s icont in
  let m := BIT ichan in
  if (0 =? Z.land (mask d) m) && negb (0 =? Z.land (status d) (Z.shiftl m 4))
  then (channel_run s icont ichan, 1) else (s, rearm).

(** The two nested loops, in their order. *)
Definition all_channels : list (Z * Z) :=
  [(0, 0); (0, 1); (0, 2); (0, 3); (1, 0); (1, 1); (1, 2); (1, 3)].

Definition DMA_run (s : DmaState W) : DmaState W :=
  let '(s, rearm) := foldl (fun p c => run_step c.1 c.2 p) (s, 0) all_channels in
  if nz rearm then s <| dma_bh := true |> else s.

Definition DMA_run_bh (s : DmaState W) : DmaState W := DMA_run (s <| dma_bh := false |>).

Definition upd_cont (s : DmaState W) (i : Z) (f : dma_cont -> dma_cont) : DmaState W :=
  set_cont s i (f (cont s i)).

Definition write_cont (s : DmaState W) (i nport data : Z) : DmaState W :=
  let iport := Z.land (Z.shiftr nport (dshift (cont s i))) 0x0f in
  match iport with
  | 0x08 =>
      if negb (data =? 0) && nz (Z.land data CMD_NOT_SUPPORTED) then s
      else upd_cont s i (fun d => d <| command := u8 data |>)
  | 0x09 =>
      let ichan := Z.land data 3 in
      let s := upd_cont s i (fun d =>
        let d := if nz (Z.land data 4)
                 then d <| status := u8 (Z.lor (status d) (BIT (ichan + 4))) |>
                 else d <| status := u8 (Z.land (status d) (Z.lnot (BIT (ichan + 4)))) |> in
        d <| status := u8 (Z.land (status d) (Z.lnot (BIT ichan))) |>) in
      DMA_run s
  | 0x0a =>
      DMA_run (upd_cont s i (fun d =>
        if nz (Z.land data 4) then d <| mask := u8 (Z.lor (mask d) (BIT (Z.land data 3))) |>
        else d <| mask := u8 (Z.land (mask d) (Z.lnot (BIT (Z.land data 3)))) |>))
  | 0x0b =>
      let ichan := Z.land data 3 in
      upd_cont s i (fun d => set_reg d ichan ((reg d ichan) <| mode := u8 data |>))
  | 0x0c => upd_cont s i (fun d => d <| flip_flop := 0 |>)
  | 0x0d =>
      upd_cont s i (fun d =>
        d <| flip_flop := 0 |> <| mask := u8 (Z.lnot 0) |> <| status := 0 |> <| command := 0 |>)
  | 0x0e => DMA_run (upd_cont s i (fun d => d <| mask := 0 |>))
  | 0x0f => DMA_run (upd_cont s i (fun d => d <| mask := u8 data |>))
  | _ => s
  end.

Definition read_cont (d : dma_cont) (nport : Z) : Z * dma_cont :=
  match Z.land (Z.shiftr nport (dshift d)) 0x0f with
  | 0x08 => (status d, d <| status := u8 (Z.land (status d) 0xf0) |>)
  | 0x0f => (mask d, d)
  | _ => (0, d)
  end.

(** [ncont = nchan > 3] and [ichan = nchan & 3]. *)
Definition ncont_of (nchan : Z) : Z := b2z (3 <? nchan).

Definition DMA_get_channel_mode (s : DmaState W) (nchan : Z) : Z :=
  mode (reg (cont s (ncont_of nchan)) (Z.land nchan 3)).

Definition DMA_hold_DREQ (s : DmaState W) (nchan : Z) : DmaState W :=
  DMA_run (upd_cont s (ncont_of nchan) (fun d =>
    d <| status := u8 (Z.lor (status d) (BIT (Z.land nchan 3 + 4))) |>)).

Definition DMA_release_DREQ (s : DmaState W) (nchan : Z) : DmaState W :=
  DMA_run (upd_cont s (ncont_of nchan) (fun d =>
    d <| status := u8 (Z.land (status d) (Z.lnot (BIT (Z.land nchan 3 + 4)))) |>)).

Definition DMA_register_channel (s : DmaState W) (nchan : Z) (h : nat) (opq : Z) : DmaState W :=
  upd_cont s (ncont_of nchan) (fun d =>
    let ichan := Z.land nchan 3 in
    set_reg d ichan ((reg d ichan) <| transfer_handler := h |> <| opaque := opq |>)).

Definition dma_reset (s : DmaState W) (i : Z) : DmaState W :=
  write_cont s i (Z.shiftl 0x0d (dshift (cont s i))) 0.

(** The registrations with the I/O port table apart. *)
Definition dma_init2 (s : DmaState W) (i shift : Z) : DmaState W :=
  let s := upd_cont s i (fun d => d <| dshift := shift |>) in
  let s := dma_reset s i in
  upd_cont s i (fun d => d <| regs := map (fun r => r <| transfer_handler := O |>) (regs d) |>).

(** The zeroed static controllers. *)
Definition DMA_init (w : W) : DmaState W :=
  dma_init2 (dma_init2 (mkDma [cont0; cont0] false w) 0 0) 1 1.

(** ** Memory transfers *)

Definition RAM : Type := Z -> Z.
Definition cpu_physical_memory_read (m : RAM) (addr : Z) (len : nat) : list Z :=
  map (fun i => m (addr + Z.of_nat i)) (seq 0 len).
Definition cpu_physical_memory_write (m : RAM) (addr : Z) (buf : list Z) : RAM :=
  fun a => if (addr <=? a) && (a <? addr + Z.of_nat (length buf))
           then aget 0 buf (a - addr) else m a.

(** [for (i = 0; i < n; i++) { b = p[len - i - 1]; p[i] = b; }] from [i]. *)
Fixpoint copy_back (n i len : nat) (p : list Z) : list Z :=
  match n with
  | O => p
  | S n => copy_back n (S i) len (<[i := nth (len - i - 1) p 0]> p)
  end.

(** [target_phys_addr_t] is 32 bits wide for the i386 target. *)
Definition dma_addr (r : dma_regs) : Z :=
  u32 (Z.lor (Z.lor (Z.shiftl (Z.land (pageh r) 0x7f) 24) (Z.shiftl (page r) 16))
    (aget 0 (now r) ADDR)).

(** Both fill or leave [buf] and return [len]. *)
Definition DMA_read_memory (s : DmaState W) (m : RAM) (nchan pos : Z) (len : nat) : list Z :=
  let r := reg (cont s (ncont_of nchan)) (Z.land nchan 3) in
  let addr := dma_addr r in
  if nz (Z.land (mode r) 0x20) then
    copy_back (Nat.div2 len) 0 len (cpu_physical_memory_read m (u32 (addr - pos - Z.of_nat len)) len)
  else cpu_physical_memory_read m (u32 (addr + pos)) len.

Definition DMA_write_memory (s : DmaState W) (m : RAM) (nchan : Z) (buf : list Z) (pos : Z)
    : RAM * list Z :=
  let r := reg (cont s (ncont_of nchan)) (Z.land nchan 3) in
  let addr := dma_addr r in
  let len := length buf in
  if nz (Z.land (mode r) 0x20) then
    (cpu_physical_memory_write m (u32 (addr - pos - Z.of_nat len)) buf, copy_back len 0 len buf)
  else (cpu_physical_memory_write m (u32 (addr + pos)) buf, buf).

End Run.


(** ** Registers *)

Record regs_wf (r : dma_regs) : Prop := {
  rw_now : length (now r) = 2%nat /\ Forall (fun x => - 2 ^ 31 <= x < 2 ^ 31) (now r);
  rw_base : length (base r) = 2%nat /\ Forall (range 16) (base r);
  rw_mode : range 8 (mode r);
  rw_page : range 8 (page r);
  rw_pageh : range 8 (pageh r);
  rw_dack : range 8 (dack r);
  rw_eop : range 8 (eop r)
}.

Record cont_wf (d : dma_cont) : Prop := {
  cw_status : range 8 (status d);
  cw_command : range 8 (command d);
  cw_mask : range 8 (mask d);
  cw_flip_flop : flip_flop d = 0 \/ flip_flop d = 1;
  cw_dshift : dshift d = 0 \/ dshift d = 1;
  cw_len : length (regs d) = 4%nat;
  cw_regs : forall i, 0 <= i < 4 -> regs_wf (reg d i)
}.

Lemma reg_set_eq d i r : cont_wf d -> 0 <= i < 4 -> reg (set_reg d i r) i = r.
Proof. intros H Hi. unfold reg, set_reg. cbn. apply aget_aset_eq. rewrite (cw_len d H). lia. Qed.

Lemma reg_set_ne d i j r : 0 <= i -> 0 <= j -> i <> j -> reg (set_reg d i r) j = reg d j.
Proof. intros. unfold reg, set_reg. cbn. by apply aget_aset_ne. Qed.

Lemma set_reg_wf d i r : cont_wf d -> 0 <= i < 4 -> regs_wf r -> cont_wf (set_reg d i r).
Proof.
  intros H Hi Hr. pose proof (reg_set_eq d i r H Hi) as E. destruct H.
  constructor; cbn; try done; [by rewrite aset_length|]. intros j Hj. change (regs_wf (reg (set_reg d i r) j)).
  destruct (Z.eq_dec i j) as [<-|]; [by rewrite E|]. rewrite reg_set_ne by lia. auto.
Qed.

(** Register [nreg] of channel [ichan] is at this offset. *)
Definition chan_port (d : dma_cont) (ichan nreg : Z) : Z := Z.shiftl (2 * ichan + nreg) (dshift d).

Lemma chan_port_decode d ichan nreg :
  cont_wf d -> 0 <= ichan < 4 -> (nreg = 0 \/ nreg = 1) ->
  let iport := Z.land (Z.shiftr (chan_port d ichan nreg) (dshift d)) 0x0f in
  Z.shiftr iport 1 = ichan /\ Z.land iport 1 = nreg.
Proof.
  intros H Hi Hn. unfold chan_port. destruct (cw_dshift d H) as [-> | ->];
  assert (ichan = 0 \/ ichan = 1 \/ ichan = 2 \/ ichan = 3) as [->|[->|[->| ->]]] by lia;
  destruct Hn as [-> | ->]; done.
Qed.

Lemma two_list (l : list Z) : length l = 2%nat -> l = [aget 0 l 0; aget 0 l 1].
Proof. destruct l as [|a [|b [|]]]; done. Qed.

Lemma Forall_aget (P : Z -> Prop) l i :
  Forall P l -> 0 <= i < Z.of_nat (length l) -> P (aget 0 l i).
Proof. intros H Hi. by apply (proj1 (List.Forall_nth P l) H); lia. Qed.

(** The word assembled by two byte writes. *)
Lemma word_bytes b lo hi :
  range 8 lo -> range 8 hi ->
  let b1 := u16 (Z.lor (Z.land b 0xff00) (Z.land lo 0xff)) in
  u16 (Z.lor (Z.land b1 0xff) (Z.land (Z.shiftl hi 8) 0xff00)) = hi * 256 + lo.
Proof.
  intros Hlo Hhi b1.
  replace (hi * 256 + lo) with (Z.lor (Z.shiftl hi 8) lo) by by apply lor_disjoint_add.
  apply Z.bits_inj'. intros i Hi. unfold b1, u16.
  rewrite testbit_mod_pow2, !Z.lor_spec, !Z.land_spec, testbit_mod_pow2, !Z.lor_spec, !Z.land_spec,
    Z.shiftl_spec by lia.
  change 0xff00 with (Z.shiftl (Z.ones 8) 8). change 0xff with (Z.ones 8).
  rewrite Z.shiftl_spec, !Z.testbit_ones by lia.
  destruct (Z.lt_ge_cases i 8).
  - rewrite (Z.testbit_neg_r hi) by lia.
    destruct (Z.leb_spec 0 (i - 8)), (Z.ltb_spec i 8), (Z.ltb_spec i 16), (Z.leb_spec 0 i); cbn;
      try lia; btauto.
  - rewrite (testbit_high lo 8) by (done || lia).
    destruct (Z.lt_ge_cases i 16).
    + destruct (Z.leb_spec 0 (i - 8)), (Z.ltb_spec (i - 8) 8), (Z.ltb_spec i 8), (Z.ltb_spec i 16);
        cbn; try lia; btauto.
    + rewrite (testbit_high hi 8) by (done || lia). destruct (Z.ltb_spec i 16); [lia|]. btauto.
Qed.

Lemma read_bytes v sh :
  0 <= sh -> 0 <= v < 65536 ->
  Z.land (Z.shiftr (Z.shiftl v sh) (sh + Z.shiftl 0 3)) 0xff = v mod 256 /\
  Z.land (Z.shiftr (Z.shiftl v sh) (sh + Z.shiftl 1 3)) 0xff = v / 256.
Proof.
  intros Hs Hv. change (Z.shiftl 0 3) with 0. change (Z.shiftl 1 3) with 8. rewrite Z.add_0_r.
  rewrite <- (Z.shiftr_shiftr (Z.shiftl v sh) sh 8) by lia.
  rewrite Z.shiftr_shiftl_l by lia. rewrite Z.sub_diag, Z.shiftl_0_r, !land_ff.
  split; [done|]. rewrite Z.shiftr_div_pow2 by lia. apply Z.mod_small.
  change (2 ^ 8) with 256. split; [apply Z.div_pos; lia|]. apply Z.div_lt_upper_bound; lia.
Qed.


(** The two halves of a word write, as updates. *)
Definition base_word (r : dma_regs) (nreg v : Z) : dma_regs :=
  r <| base := aset (base r) nreg v |>.

Lemma write_lo d ichan nreg lo :
  cont_wf d -> 0 <= ichan < 4 -> (nreg = 0 \/ nreg = 1) -> flip_flop d = 0 ->
  write_chan d (chan_port d ichan nreg) lo =
    Ok (set_reg (d <| flip_flop := 1 |>) ichan (base_word (reg d ichan) nreg
      (u16 (Z.lor (Z.land (aget 0 (base (reg d ichan)) nreg) 0xff00) (Z.land lo 0xff))))).
Proof.
  intros H Hi Hn Hf. destruct (chan_port_decode d ichan nreg H Hi Hn) as [E1 E2].
  unfold write_chan. rewrite E1, E2. destruct (Z.leb_spec 4 ichan); [lia|].
  unfold getff. rewrite Hf. done.
Qed.

Lemma write_hi d ichan nreg hi :
  cont_wf d -> 0 <= ichan < 4 -> (nreg = 0 \/ nreg = 1) -> flip_flop d = 1 ->
  write_chan d (chan_port d ichan nreg) hi =
    Ok (init_chan (set_reg (d <| flip_flop := 0 |>) ichan (base_word (reg d ichan) nreg
      (u16 (Z.lor (Z.land (aget 0 (base (reg d ichan)) nreg) 0xff)
                  (Z.land (Z.shiftl hi 8) 0xff00))))) ichan).
Proof.
  intros H Hi Hn Hf. destruct (chan_port_decode d ichan nreg H Hi Hn) as [E1 E2].
  unfold write_chan. rewrite E1, E2. destruct (Z.leb_spec 4 ichan); [lia|].
  unfold getff. rewrite Hf. done.
Qed.

Lemma ff_wf d v : cont_wf d -> v = 0 \/ v = 1 -> cont_wf (d <| flip_flop := v |>).
Proof. intros [ ] Hv. constructor; done. Qed.

Lemma base_word_wf r nreg v : regs_wf r -> range 16 v -> regs_wf (base_word r nreg v).
Proof.
  intros [? [Hl Hb] ? ? ? ? ?] Hv. constructor; cbn; try done.
  split; [by rewrite aset_length | by apply Forall_insert].
Qed.

Lemma set_set_reg d ff i r r' :
  (set_reg ((set_reg d i r) <| flip_flop := ff |>) i r') = set_reg (d <| flip_flop := ff |>) i r'.
Proof. unfold set_reg, aset. cbn. by rewrite list_insert_insert_eq. Qed.

(** The state after the word [v] was written to register [nreg]. *)
Definition loaded (r : dma_regs) (sh nreg v : Z) : dma_regs :=
  let r := base_word r nreg v in
  r <| now := [Z.shiftl (aget 0 (base r) 0) sh; 0] |>.

Lemma init_now r x :
  length (now r) = 2%nat ->
  let r1 := r <| now := aset (now r) ADDR x |> in
  r1 <| now := aset (now r1) COUNT 0 |> = r <| now := [x; 0] |>.
Proof. intros H. destruct r as [n ? ? ? ? ? ? ? ?]. cbn in H. by destruct n as [|? [|? [|]]]. Qed.

Lemma write_word d ichan nreg lo hi :
  cont_wf d -> 0 <= ichan < 4 -> (nreg = 0 \/ nreg = 1) -> flip_flop d = 0 ->
  range 8 lo -> range 8 hi ->
  exists d1, write_chan d (chan_port d ichan nreg) lo = Ok d1 /\
    write_chan d1 (chan_port d ichan nreg) hi =
      Ok (set_reg d ichan (loaded (reg d ichan) (dshift d) nreg (hi * 256 + lo))).
Proof.
  intros H Hi Hn Hf Hlo Hhi. eexists. split; [by apply write_lo|].
  set (b1 := u16 _). set (d1 := set_reg (d <| flip_flop := 1 |>) ichan _).
  pose proof (cw_regs d H ichan Hi) as Hr.
  assert (Hd' : cont_wf (d <| flip_flop := 1 |>)) by (apply ff_wf; auto).
  assert (H1 : cont_wf d1).
  { apply set_reg_wf; [done|done|]. apply base_word_wf; [done|apply u16_range]. }
  change (chan_port d ichan nreg) with (chan_port d1 ichan nreg).
  rewrite write_hi by done. unfold d1 at 2 3. rewrite reg_set_eq by done.
  assert (Hlen : length (base (reg d ichan)) = 2%nat) by apply Hr.
  assert (Eb : aget 0 (base (base_word (reg d ichan) nreg b1)) nreg = b1)
    by (cbn; apply aget_aset_eq; rewrite Hlen; lia).
  rewrite Eb. unfold b1. rewrite word_bytes by done. fold b1.
  unfold d1, init_chan. rewrite set_set_reg. f_equal.
  set (d0 := (d <| flip_flop := 1 |>) <| flip_flop := 0 |>).
  assert (Ed : d0 = d) by (unfold d0; destruct d; cbn in Hf; by subst).
  rewrite Ed, reg_set_eq by done. cbn [dshift set_reg].
  assert (Ew : base_word (base_word (reg d ichan) nreg b1) nreg (hi * 256 + lo) =
    base_word (reg d ichan) nreg (hi * 256 + lo)).
  { unfold base_word, aset. cbn. by rewrite list_insert_insert_eq. }
  rewrite Ew. set (rw := base_word (reg d ichan) nreg (hi * 256 + lo)).
  change (dshift (set_reg d ichan rw)) with (dshift d).
  rewrite (init_now rw) by apply Hr. unfold loaded. fold rw.
  unfold set_reg, aset. cbn. by rewrite list_insert_insert_eq.
Qed.


Lemma read_word d ichan nreg v :
  cont_wf d -> 0 <= ichan < 4 -> (nreg = 0 \/ nreg = 1) -> flip_flop d = 0 -> 0 <= v < 65536 ->
  aget 0 (now (reg d ichan)) COUNT = 0 ->
  (if nz nreg then Z.shiftl (aget 0 (base (reg d ichan)) COUNT) (dshift d)
   else aget 0 (now (reg d ichan)) ADDR) = Z.shiftl v (dshift d) ->
  read_chan d (chan_port d ichan nreg) = Ok (v mod 256, d <| flip_flop := 1 |>) /\
  read_chan (d <| flip_flop := 1 |>) (chan_port d ichan nreg) = Ok (v / 256, d).
Proof.
  intros H Hi Hn Hf Hv Hc Hval.
  assert (Hd : 0 <= dshift d <= 1) by (destruct (cw_dshift d H); lia).
  destruct (read_bytes v (dshift d) ltac:(lia) Hv) as [R0 R1].
  assert (Hs : s32 (Z.shiftl v (dshift d)) = Z.shiftl v (dshift d)).
  { apply s32_small. rewrite Z.shiftl_mul_pow2 by lia.
    assert (dshift d = 0 \/ dshift d = 1) as [-> | ->] by lia;
      change (2 ^ 0) with 1; change (2 ^ 1) with 2; lia. }
  assert (Hcore : forall d', regs d' = regs d -> dshift d' = dshift d -> cont_wf d' ->
    read_chan d' (chan_port d ichan nreg) =
      Ok (Z.land (Z.shiftr (Z.shiftl v (dshift d)) (dshift d + Z.shiftl (flip_flop d') 3)) 0xff,
          d' <| flip_flop := b2z (negb (nz (flip_flop d'))) |>)).
  { intros d' Er Ed H'. destruct (chan_port_decode d' ichan nreg H' Hi Hn) as [E1 E2].
    unfold read_chan. replace (chan_port d ichan nreg) with (chan_port d' ichan nreg)
      by (unfold chan_port; by rewrite Ed). rewrite E1, E2.
    destruct (Z.leb_spec 4 ichan); [lia|]. unfold getff. cbn [dshift set_field].
    replace (reg d' ichan) with (reg d ichan) by (unfold reg; by rewrite Er).
    rewrite Hc, Z.mul_0_l, Z.add_0_r, Z.sub_0_r, Ed.
    destruct (nz nreg); by rewrite Hval, Hs. }
  split.
  - rewrite Hcore, Hf, R0 by done. done.
  - rewrite Hcore by (try apply ff_wf; auto). cbn [flip_flop set_field]. rewrite R1.
    destruct d. cbn in Hf |- *. by subst.
Qed.

(** The flip-flop protocol of a channel register.  With the flip-flop
    clear, writing two bytes to the address or count port of a channel stores
    the 16-bit word they form, restarts the channel at that address (shifted
    for the 16-bit controller) with nothing transferred, touches no other
    channel, and reading the port twice gives the two bytes back; each pair of
    accesses leaves the flip-flop clear. *)
Theorem dma_word_roundtrip d ichan nreg lo hi :
  cont_wf d -> 0 <= ichan < 4 -> (nreg = 0 \/ nreg = 1) -> flip_flop d = 0 ->
  range 8 lo -> range 8 hi ->
  let port := chan_port d ichan nreg in
  exists d1 d2 d3,
    write_chan d port lo = Ok d1 /\ write_chan d1 port hi = Ok d2 /\
    aget 0 (base (reg d2 ichan)) nreg = hi * 256 + lo /\
    now (reg d2 ichan) = [Z.shiftl (aget 0 (base (reg d2 ichan)) ADDR) (dshift d); 0] /\
    (forall j, 0 <= j < 4 -> j <> ichan -> reg d2 j = reg d j) /\
    flip_flop d2 = 0 /\
    read_chan d2 port = Ok (lo, d3) /\ read_chan d3 port = Ok (hi, d2).
Proof.
  intros H Hi Hn Hf Hlo Hhi port. destruct (write_word d ichan nreg lo hi) as (d1 & E1 & E2); try done.
  set (v := hi * 256 + lo) in *. unfold range in Hlo, Hhi.
  set (d2 := set_reg d ichan _) in E2. pose proof (cw_regs d H ichan Hi) as Hr.
  assert (Hv : range 16 v) by (unfold v, range; lia).
  assert (Er : reg d2 ichan = loaded (reg d ichan) (dshift d) nreg v) by by apply reg_set_eq.
  assert (Eb : aget 0 (base (reg d2 ichan)) nreg = v).
  { rewrite Er. cbn. apply aget_aset_eq. destruct Hr as [_ [-> _] _ _ _ _ _]. lia. }
  assert (Hw : regs_wf (loaded (reg d ichan) (dshift d) nreg v)).
  { pose proof (base_word_wf (reg d ichan) nreg v Hr Hv) as Hb.
    assert (Ha : range 16 (aget 0 (base (base_word (reg d ichan) nreg v)) 0)).
    { apply Forall_aget; [apply Hb|]. rewrite (proj1 (rw_base _ Hb)). lia. }
    destruct Hb. constructor; try done. cbn. split; [done|].
    unfold range in Ha. cbn in Ha. destruct (cw_dshift d H) as [-> | ->];
      rewrite Z.shiftl_mul_pow2 by lia; repeat constructor; lia. }
  assert (H2 : cont_wf d2) by by apply set_reg_wf.
  destruct (read_word d2 ichan nreg v) as [R1 R2];
    [done|done|done|done|exact Hv|by rewrite Er|..].
  { transitivity (Z.shiftl (aget 0 (base (reg d2 ichan)) nreg) (dshift d)); [|by rewrite Eb].
    destruct Hn as [-> | ->]; by rewrite Er. }
  exists d1, d2, (d2 <| flip_flop := 1 |>). change (chan_port d2 ichan nreg) with port in R1, R2.
  assert (Elo : v mod 256 = lo) by (unfold v; rewrite Z.add_comm, Z.mod_add, Z.mod_small by lia; lia).
  assert (Ehi : v / 256 = hi) by (unfold v; rewrite Z.add_comm, Z.div_add, Z.div_small by lia; lia).
  split; [done|]. split; [done|]. split; [done|]. split; [by rewrite Er|].
  rewrite Elo in R1. rewrite Ehi in R2. split; [|done].
  intros j Hj Hne. apply reg_set_ne; lia.
Qed.

Lemma regs0_wf : regs_wf regs0.
Proof.
  constructor; cbn; unfold range; try lia;
    (split; [done|]; repeat (apply Forall_cons_2; [lia|]); apply Forall_nil_2).
Qed.

Lemma cont0_wf : cont_wf cont0.
Proof.
  constructor; cbn; try (unfold range; lia); auto.
  intros i Hi. assert (i = 0 \/ i = 1 \/ i = 2 \/ i = 3) as [->|[->|[->| ->]]] by lia;
    exact regs0_wf.
Qed.

Lemma dma_word_roundtrip_witness :
  exists d1 d2, write_chan cont0 5 0x34 = Ok d1 /\ write_chan d1 5 0x12 = Ok d2 /\
    aget 0 (base (reg d2 2)) 1 = 0x1234.
Proof.
  destruct (dma_word_roundtrip cont0 2 1 0x34 0x12 cont0_wf ltac:(lia) ltac:(lia) eq_refl
    ltac:(unfold range; lia) ltac:(unfold range; lia)) as (d1 & d2 & _ & E1 & E2 & E3 & _).
  exists d1, d2. auto.
Defined.


(** ** Serving the requests *)

Section Serve.
Context {W : Type} `{!TransferHandlers W}.

(** Channel [c] is requested and not masked. *)
Definition enabled (s : DmaState W) (c : Z * Z) : bool :=
  negb (Z.testbit (mask (cont s c.1)) c.2) && Z.testbit (status (cont s c.1)) (c.2 + 4).

(** Handlers that move data but leave the DMA controllers alone. *)
Definition quiet : Prop := forall h s o n p l,
  let s' := (transfer h s o n p l).2 in
  dma_controllers s' = dma_controllers s /\ dma_bh s' = dma_bh s.

Definition serve (s : DmaState W) (cs : list (Z * Z)) : DmaState W :=
  foldl (fun s c => channel_run s c.1 c.2) s cs.

Lemma handler_quiet h s o n p l :
  quiet -> dma_controllers (call_handler h s o n p l).2 = dma_controllers s /\
  dma_bh (call_handler h s o n p l).2 = dma_bh s.
Proof. intros Hq. destruct h; [done|]. apply Hq. Qed.

Lemma cont_set (s : DmaState W) i j d :
  0 <= i < Z.of_nat (length (dma_controllers s)) -> 0 <= j ->
  cont (set_cont s i d) j = if i =? j then d else cont s j.
Proof.
  intros Hi Hj. unfold cont, set_cont. cbn. destruct (Z.eqb_spec i j) as [<-|].
  - by apply aget_aset_eq.
  - apply aget_aset_ne; lia.
Qed.

(** What one transfer changes: the position of its own channel. *)
Lemma channel_run_cont s a b j :
  quiet -> 0 <= a < Z.of_nat (length (dma_controllers s)) -> 0 <= j ->
  exists n, cont (channel_run s a b) j =
    if a =? j then set_reg (cont s a) b
      ((reg (cont s a) b) <| now := aset (now (reg (cont s a) b)) COUNT n |>)
    else cont s j.
Proof.
  intros Hq Ha Hj. unfold channel_run. set (r := reg (cont s a) b).
  set (args := call_handler _ _ _ _ _ _).
  assert (Hh : dma_controllers args.2 = dma_controllers s) by by apply handler_quiet.
  destruct args as [n s1]. cbn [snd] in Hh. exists n.
  assert (Ec : forall i, cont s1 i = cont s i) by (intros i; unfold cont; by rewrite Hh).
  rewrite !Ec. rewrite cont_set by (rewrite ?Hh; done). by rewrite Ec.
Qed.

Lemma channel_run_keeps s a b :
  quiet -> 0 <= a < Z.of_nat (length (dma_controllers s)) ->
  length (dma_controllers (channel_run s a b)) = length (dma_controllers s) /\
  dma_bh (channel_run s a b) = dma_bh s /\
  (forall c, 0 <= c.1 -> enabled (channel_run s a b) c = enabled s c) /\
  (forall i j, 0 <= i -> 0 <= j -> 0 <= b -> (i, j) <> (a, b) ->
     reg (cont (channel_run s a b) i) j = reg (cont s i) j).
Proof.
  intros Hq Ha. split; [|split; [|split]].
  1,2: unfold channel_run; set (args := call_handler _ _ _ _ _ _);
    assert (Hh : dma_controllers args.2 = dma_controllers s /\ dma_bh args.2 = dma_bh s)
      by (by apply handler_quiet);
    destruct args as [n s1]; cbn in *; destruct Hh as [Hh Hb]; rewrite ?aset_length; congruence.
  - intros [i j] Hi. cbn in Hi. unfold enabled. cbn.
    destruct (channel_run_cont s a b i Hq Ha Hi) as [n ->].
    destruct (Z.eqb_spec a i) as [->|]; done.
  - intros i j Hi Hj Hb Hne. destruct (channel_run_cont s a b i Hq Ha Hi) as [n ->].
    destruct (Z.eqb_spec a i) as [->|]; [|done]. apply reg_set_ne; [done|done|]. congruence.
Qed.

Lemma run_step_enabled s icont ichan rearm :
  0 <= ichan < 4 ->
  run_step icont ichan (s, rearm) =
    if enabled s (icont, ichan) then (channel_run s icont ichan, 1) else (s, rearm).
Proof.
  intros Hi. unfold run_step, enabled. cbn [fst snd].
  rewrite <- !land_BIT_nz by lia. unfold nz. rewrite !(Z.eqb_sym 0), negb_involutive.
  replace (Z.shiftl (BIT ichan) 4) with (BIT (ichan + 4)); [done|].
  unfold BIT. by rewrite Z.shiftl_shiftl by lia.
Qed.

(** The loop of [DMA_run] over the channels [cs], when the enabled ones are
    known beforehand. *)
Lemma run_loop cs s rearm en :
  quiet -> length (dma_controllers s) = 2%nat ->
  Forall (fun c => 0 <= c.1 < 2 /\ 0 <= c.2 < 4) cs ->
  (forall c, 0 <= c.1 -> enabled s c = en c) ->
  let served := List.filter en cs in
  foldl (fun p c => run_step c.1 c.2 p) (s, rearm) cs =
    (serve s served, match served with [] => rearm | _ => 1 end) /\
  dma_bh (serve s served) = dma_bh s /\
  (forall i j, 0 <= i -> 0 <= j -> ~ In (i, j) served ->
     reg (cont (serve s served) i) j = reg (cont s i) j).
Proof.
  intros Hq. revert s rearm. induction cs as [|[a b] cs IH]; intros s rearm Hl Hcs Hen; [done|].
  apply list.Forall_cons in Hcs as [[Ha Hb] Hcs]. cbn [foldl List.filter fst snd] in *.
  rewrite run_step_enabled by done. rewrite <- (Hen (a, b)) by (cbn; lia).
  destruct (enabled s (a, b)) eqn:E; [|by apply IH].
  destruct (channel_run_keeps s a b Hq ltac:(rewrite Hl; lia)) as (K1 & K2 & K3 & K4).
  destruct (IH (channel_run s a b) 1) as (I1 & I2 & I3); [congruence|done| |].
  { intros c Hc. rewrite K3 by done. by apply Hen. }
  rewrite I1. cbn. split; [|split].
  - f_equal. by case_match.
  - change (dma_bh (serve (channel_run s a b) (List.filter en cs)) = dma_bh s). congruence.
  - intros i j Hi Hj Hn. change (reg (cont (serve (channel_run s a b) (List.filter en cs)) i) j =
      reg (cont s i) j).
    rewrite I3; [|done|done|tauto]. apply K4; [done|done|lia|]. intros Heq. apply Hn. by left.
Qed.

(** one pass of [DMA_run], with handlers that do not call back into the
    controllers: it runs each channel that was requested and not masked, once,
    in channel order, calls nothing for the others and leaves their registers
    unchanged, and schedules the bottom half exactly when some channel ran. *)
Theorem DMA_run_serves s :
  quiet -> length (dma_controllers s) = 2%nat ->
  let served := List.filter (enabled s) all_channels in
  let s' := DMA_run s in
  dma_controllers s' = dma_controllers (serve s served) /\ world s' = world (serve s served) /\
  dma_bh s' = dma_bh s || negb (bool_decide (served = [])) /\
  (forall i j, 0 <= i < 2 -> 0 <= j < 4 -> enabled s (i, j) = false ->
     reg (cont s' i) j = reg (cont s i) j).
Proof.
  intros Hq Hl served s'.
  destruct (run_loop all_channels s 0 (enabled s) Hq Hl) as (E & B & K); [|done|].
  { repeat (apply Forall_cons_2; [cbn; lia|]). apply Forall_nil_2. }
  fold served in E, B, K. unfold s', DMA_run. rewrite E.
  assert (Hs : forall t : DmaState W, (if nz (match served with [] => 0 | _ => 1 end)
    then t <| dma_bh := true |> else t) =
    t <| dma_bh := dma_bh t || negb (bool_decide (served = [])) |>).
  { intros [c b w]. destruct served; cbn; by rewrite ?orb_false_r, ?orb_true_r. }
  rewrite Hs. split; [done|]. split; [done|]. split; [by cbn [dma_bh set_field]; rewrite B|].
  intros i j Hi Hj Hen. apply K; [lia|lia|]. intros Hin. apply filter_In in Hin as [_ Ht]. congruence.
Qed.

End Serve.

(** Two channels requested, one of them masked: only channel 2 runs. *)
#[local] Instance counting : TransferHandlers Z :=
  fun h s o n p l => (p + 1, s <| world := world s + 1 |>).

Definition demo_dma : DmaState Z :=
  mkDma [cont0 <| status := 0x60 |> <| mask := 0x02 |>
           <| regs := map (fun r => r <| transfer_handler := 1%nat |>) (regs cont0) |>; cont0] false 0.

Lemma demo_dma_wf : cont_wf (cont demo_dma 0).
Proof.
  constructor; try (vm_compute; intuition congruence). intros i Hi.
  assert (i = 0 \/ i = 1 \/ i = 2 \/ i = 3) as [->|[->|[->| ->]]] by lia;
    destruct regs0_wf; by constructor.
Qed.

Lemma DMA_run_serves_witness :
  List.filter (enabled demo_dma) all_channels = [(0, 2)] /\ world (DMA_run demo_dma) = 1.
Proof.
  assert (Hq : quiet (W := Z)) by (intros h s o n p l; by split).
  destruct (DMA_run_serves demo_dma Hq eq_refl) as (_ & Ew & _).
  split; [reflexivity|]. rewrite Ew. vm_compute. reflexivity.
Defined.


(** ** Memory transfers in address decrement mode *)

Lemma copy_back_spec n i len p k :
  (i + n <= Nat.div2 len)%nat -> length p = len -> (k < len)%nat ->
  nth k (copy_back n i len p) 0 =
    if bool_decide (i <= k < i + n)%nat then nth (len - k - 1) p 0 else nth k p 0.
Proof.
  revert i p. induction n as [|n IH]; intros i p Hn Hl Hk; cbn [copy_back].
  { rewrite bool_decide_false; [done|lia]. }
  pose proof (Nat.div2_decr len len ltac:(lia)) as _.
  assert (Hd : (2 * Nat.div2 len <= len)%nat).
  { pose proof (Nat.div2_odd len). destruct (Nat.odd len); cbn in *; lia. }
  rewrite IH; [|lia|by rewrite length_insert|done].
  assert (Hnth : forall j x, (j < len)%nat ->
    nth j (<[i:=x]> p) 0 = if decide (i = j) then x else nth j p 0).
  { intros j x Hj. rewrite !nth_lookup. destruct (decide (i = j)) as [->|].
    - by rewrite list_lookup_insert_eq by lia.
    - by rewrite list_lookup_insert_ne. }
  rewrite !Hnth by lia.
  repeat case_bool_decide; repeat case_decide; subst; try lia; done.
Qed.

Lemma copy_back_length n i len p : length (copy_back n i len p) = length p.
Proof.
  revert i p. induction n as [|n IH]; intros i p; cbn; [done|]. by rewrite IH, length_insert.
Qed.

(** In address decrement mode [DMA_read_memory] is meant to hand the block
    over in reverse, but its loop copies the upper half of the buffer over the
    lower half without exchanging them: byte [i] of the result is byte
    [max i (len - 1 - i)] of the block, so the lower half of the block is lost
    and the result is a palindrome whatever the memory holds. *)
Theorem DMA_read_memory_decrement {W : Type} (s : DmaState W) m nchan pos len i :
  nz (Z.land (mode (reg (cont s (ncont_of nchan)) (Z.land nchan 3))) 0x20) = true ->
  (i < len)%nat ->
  let block := cpu_physical_memory_read m
    (u32 (dma_addr (reg (cont s (ncont_of nchan)) (Z.land nchan 3)) - pos - Z.of_nat len)) len in
  let buf := DMA_read_memory s m nchan pos len in
  nth i buf 0 = nth (Nat.max i (len - 1 - i)) block 0 /\
  nth i buf 0 = nth (len - 1 - i) buf 0.
Proof.
  intros Hm Hi block buf. unfold buf, DMA_read_memory. rewrite Hm. fold block.
  assert (Hl : length block = len) by (unfold block, cpu_physical_memory_read; by rewrite length_map, length_seq).
  assert (Hd : (2 * Nat.div2 len <= len <= S (2 * Nat.div2 len))%nat).
  { pose proof (Nat.div2_odd len). destruct (Nat.odd len); cbn in *; lia. }
  rewrite !copy_back_spec by lia.
  repeat case_bool_decide; split; f_equal; lia.
Qed.

Lemma DMA_read_memory_decrement_witness :
  let s := mkDma [cont0 <| regs := [regs0 <| mode := 0x20 |> <| now := [100; 0] |>] |>; cont0] false tt in
  let buf := DMA_read_memory s (fun a => a) 0 0 4 in
  buf = [99; 98; 98; 99] /\ nth 1 buf 0 = nth 2 buf 0.
Proof.
  intros s buf. split; [reflexivity|].
  exact (proj2 (DMA_read_memory_decrement s (fun a => a) 0 0 4 1 eq_refl ltac:(lia))).
Defined.

(** ** Saved state *)

Section Vmstate.
Context {F : Type} `{!ByteStream F} {W : Type} `{!TransferHandlers W}.

Definition vmstate_dma_regs : VMStateDescription F dma_regs :=
  mkVMSD "dma_regs"%string 1 1 1 None None None None None
    [VMSTATE_INT32_ARRAY now 2; VMSTATE_UINT16_ARRAY base 2; VMSTATE_UINT8 mode;
     VMSTATE_UINT8 page; VMSTATE_UINT8 pageh; VMSTATE_UINT8 dack; VMSTATE_UINT8 eop].

Definition vmstate_dma_fields : list (VMStateField F dma_cont) :=
  [VMSTATE_UINT8 command; VMSTATE_UINT8 mask; VMSTATE_UINT8 flip_flop; VMSTATE_INT32 dshift;
   VMSTATE_STRUCT_ARRAY regs0 regs 4 1 vmstate_dma_regs].

(** [dma_post_load] runs the channels of both controllers, so that the state
    of the description is the whole [DmaState], of which the fields are those
    of controller [i]. *)
Definition field_at (i : Z) (fl : VMStateField F dma_cont) : VMStateField F (DmaState W) :=
  mkField (DmaState W) (vf_type fl) (vf_version_id fl)
    (option_map (fun ex (s : DmaState W) v => ex (cont s i) v) (vf_exists fl))
    (vf_info fl) (vf_num fl)
    (fun s k => vf_ld fl (cont s i) k)
    (fun k a s => set_cont s i (vf_st fl k a (cont s i))).

Definition dma_post_load (s : DmaState W) (version : Z) : Z * DmaState W := (0, DMA_run s).

Definition vmstate_dma (i : Z) : VMStateDescription F (DmaState W) :=
  mkVMSD "dma"%string 1 1 1 None None (Some dma_post_load) None None
    (map (field_at i) vmstate_dma_fields).

End Vmstate.


Section Saved.
Context {F : Type} `{!ByteStream F} `{!ByteStreamLaws F} {W : Type} `{!TransferHandlers W}.

Definition regs_fields : list (FieldOk (F := F) dma_regs) :=
  [mkFieldOk (VMSTATE_INT32_ARRAY now 2) int32_ok; mkFieldOk (VMSTATE_UINT16_ARRAY base 2) uint16_ok;
   mkFieldOk (VMSTATE_UINT8 mode) uint8_ok; mkFieldOk (VMSTATE_UINT8 page) uint8_ok;
   mkFieldOk (VMSTATE_UINT8 pageh) uint8_ok; mkFieldOk (VMSTATE_UINT8 dack) uint8_ok;
   mkFieldOk (VMSTATE_UINT8 eop) uint8_ok].

Lemma regs_descr_ok : DescrOk (F := F) vmstate_dma_regs regs_fields.
Proof. constructor; cbn; try done; lia. Qed.

Lemma array2_valid (P : Z -> Prop) (l : list Z) i :
  length l = 2%nat -> Forall P l -> (i < 2)%nat -> P (nth i l 0) /\ <[i := nth i l 0]> l = l.
Proof.
  intros Hl HP Hi. destruct l as [|a [|b [|]]]; try done.
  apply list.Forall_cons in HP as [Ha HP]. apply list.Forall_cons in HP as [Hb _].
  by destruct i as [|[|i]]; [..|lia].
Qed.

Lemma regs_valid r : regs_wf r -> state_valid vmstate_dma_regs regs_fields r.
Proof.
  intros [[Hln Hn] [Hlb Hb] ? ? ? ? ?]. unfold state_valid, regs_fields.
  constructor; [|constructor; [|repeat (constructor; [split; [done|]; split; [cbn; lia|];
    intros i _; split; [done | by destruct r] |]); constructor]].
  - split; [done|]. split; [cbn; lia|]. intros i Hi.
    destruct (array2_valid _ (now r) i Hln Hn Hi) as [V E]. split; [exact V|].
    cbn in *. rewrite E. by destruct r.
  - split; [done|]. split; [cbn; lia|]. intros i Hi.
    destruct (array2_valid _ (base r) i Hlb Hb Hi) as [V E]. split; [exact V|].
    cbn in *. rewrite E. by destruct r.
Qed.

Definition cont_fields : list (FieldOk (F := F) dma_cont) :=
  [mkFieldOk (VMSTATE_UINT8 command) uint8_ok; mkFieldOk (VMSTATE_UINT8 mask) uint8_ok;
   mkFieldOk (VMSTATE_UINT8 flip_flop) uint8_ok; mkFieldOk (VMSTATE_INT32 dshift) int32_ok;
   mkFieldOk (VMSTATE_STRUCT_ARRAY regs0 regs 4 1 vmstate_dma_regs)
     (struct_ok vmstate_dma_regs regs_fields regs_descr_ok eq_refl)].

Definition lift (i : Z) (fo : FieldOk (F := F) dma_cont) : FieldOk (F := F) (DmaState W) :=
  mkFieldOk (field_at i (fo_field fo)) (fo_info fo).
Definition dma_fields (i : Z) : list (FieldOk (F := F) (DmaState W)) := map (lift i) cont_fields.

Lemma dma_descr_ok i : DescrOk (F := F) (vmstate_dma i) (dma_fields i).
Proof. constructor; cbn; try done; lia. Qed.

Lemma set_cont_same (s : DmaState W) i : 0 <= i -> set_cont s i (cont s i) = s.
Proof.
  intros Hi. destruct s as [c b w]. unfold set_cont, cont, aset, aget. cbn. f_equal.
  destruct (decide (Z.to_nat i < length c)%nat) as [Hlt|Hge].
  - apply list_insert_id. rewrite nth_lookup.
    destruct (c !! Z.to_nat i) eqn:E; [done|]. apply lookup_ge_None in E. lia.
  - apply list_insert_ge. lia.
Qed.

Lemma cont_state_valid d : cont_wf d -> Forall (fun fo => field_valid 1 fo d) cont_fields.
Proof.
  intros [H1 H2 H3 H4 H5 H6 H7]. unfold cont_fields.
  assert (range 8 (flip_flop d)) by (unfold range; lia).
  do 4 (constructor; [split; [done|]; split; [cbn; lia|]; intros i _; split;
    [cbn; unfold range in *; lia | by destruct d] |]).
  constructor; [|constructor]. split; [done|]. split; [cbn; lia|]. intros i Hi. cbn in Hi.
  split.
  - apply regs_valid. specialize (H7 (Z.of_nat i)). unfold reg, aget in H7.
    rewrite Nat2Z.id in H7. apply H7. lia.
  - cbn. destruct d as [? ? ? ? ? rs]. cbn in *. f_equal.
    destruct rs as [|r0 [|r1 [|r2 [|r3 [|]]]]]; try done.
    destruct i as [|[|[|[|i]]]]; [done..|lia].
Qed.

Lemma dma_state_valid i s :
  0 <= i -> cont_wf (cont s i) -> state_valid (vmstate_dma i) (dma_fields i) s.
Proof.
  intros Hi Hd. unfold state_valid, dma_fields. apply Forall_map.
  eapply List.Forall_impl; [|exact (cont_state_valid _ Hd)].
  intros fo (He & Hv & Hf). split; [cbn; by rewrite He|]. split; [done|].
  intros k Hk. destruct (Hf k Hk) as [V E]. split; [exact V|].
  cbn. rewrite E. by apply set_cont_same.
Qed.

(** Loading restores the registers of the channels, not their handlers. *)
Definition keep_handler (r r0 : dma_regs) : dma_regs :=
  r <| transfer_handler := transfer_handler r0 |> <| opaque := opaque r0 |>.

Lemma regs_upd r r0 :
  regs_wf r -> regs_wf r0 -> fields_upd (F := F) regs_fields r r0 = keep_handler r r0.
Proof.
  intros H H0. destruct r as [n b ? ? ? ? ? ? ?], r0 as [n0 b0 ? ? ? ? ? ? ?].
  destruct H as [[L _] [L' _] _ _ _ _ _], H0 as [[L0 _] [L0' _] _ _ _ _ _]. cbn in *.
  destruct n as [|? [|? [|]]], b as [|? [|? [|]]], n0 as [|? [|? [|]]], b0 as [|? [|? [|]]]; done.
Qed.

Lemma cont_upd d d0 :
  cont_wf d -> cont_wf d0 ->
  fields_upd (F := F) cont_fields d d0 =
    d <| status := status d0 |> <| regs := zip_with keep_handler (regs d) (regs d0) |>.
Proof.
  intros H H0. pose proof (cw_len d H) as L. pose proof (cw_len d0 H0) as L0.
  assert (Hr : forall i, 0 <= i < 4 -> fields_upd (F := F) regs_fields (reg d i) (reg d0 i) =
    keep_handler (reg d i) (reg d0 i)) by (intros i Hi; apply regs_upd; [apply H|apply H0]; lia).
  pose proof (Hr 0 ltac:(lia)) as E0. pose proof (Hr 1 ltac:(lia)) as E1.
  pose proof (Hr 2 ltac:(lia)) as E2. pose proof (Hr 3 ltac:(lia)) as E3. clear H H0 Hr.
  destruct d as [? ? ? ? ? rs], d0 as [? ? ? ? ? ss]. cbn in L, L0.
  destruct rs as [|r0 [|r1 [|r2 [|r3 [|]]]]], ss as [|t0 [|t1 [|t2 [|t3 [|]]]]]; try done.
  change (fields_upd (F := F) regs_fields r0 t0 = keep_handler r0 t0) in E0.
  change (fields_upd (F := F) regs_fields r1 t1 = keep_handler r1 t1) in E1.
  change (fields_upd (F := F) regs_fields r2 t2 = keep_handler r2 t2) in E2.
  change (fields_upd (F := F) regs_fields r3 t3 = keep_handler r3 t3) in E3.
  cbn [regs zip_with]. rewrite <- E0, <- E1, <- E2, <- E3. done.
Qed.

Lemma lift_upd i fos (s s0 : DmaState W) :
  0 <= i < Z.of_nat (length (dma_controllers s0)) ->
  fields_upd (F := F) (map (lift i) fos) s s0 =
    set_cont s0 i (fields_upd fos (cont s i) (cont s0 i)).
Proof.
  assert (Hs : forall t : DmaState W, 0 <= i < Z.of_nat (length (dma_controllers t)) ->
    forall d d', cont (set_cont t i d) i = d /\ set_cont (set_cont t i d) i d' = set_cont t i d' /\
      length (dma_controllers (set_cont t i d)) = length (dma_controllers t)).
  { intros t Ht d d'. rewrite cont_set, Z.eqb_refl by lia. split; [done|].
    unfold set_cont, aset. cbn. by rewrite list_insert_insert_eq, length_insert. }
  assert (He : forall fo n k t, 0 <= i < Z.of_nat (length (dma_controllers t)) ->
    elems_upd (F := F) (lift i fo) n k s t = set_cont t i (elems_upd fo n k (cont s i) (cont t i))).
  { intros fo n. induction n as [|n IH]; intros k t Ht; cbn [elems_upd].
    { symmetry. apply set_cont_same. lia. }
    destruct (Hs t Ht (field_upd fo (cont s i) k (cont t i)) (cont t i)) as (A & _ & C).
    change (field_upd (lift i fo) s k t) with (set_cont t i (field_upd fo (cont s i) k (cont t i))).
    rewrite IH by (rewrite C; done). rewrite A. apply Hs; done. }
  intros Hi. revert s0 Hi. induction fos as [|fo fos IH]; intros s0 Hi; cbn.
  { symmetry. apply set_cont_same. lia. }
  unfold fields_upd in IH. change (vf_num (fo_field (lift i fo))) with (vf_num (fo_field fo)).
  rewrite He by done. destruct (Hs s0 Hi (elems_upd fo (vf_num (fo_field fo)) 0 (cont s i) (cont s0 i))
    (cont s0 i)) as (A & _ & C).
  rewrite IH by (rewrite C; done). rewrite A. apply Hs; done.
Qed.

(** Loading controller [i]: all but [status] and the handlers come back, then
    [DMA_run] starts what is enabled. *)
Lemma dma_load_result i (s s0 : DmaState W) :
  0 <= i < Z.of_nat (length (dma_controllers s0)) -> cont_wf (cont s i) -> cont_wf (cont s0 i) ->
  load_result (F := F) (vmstate_dma i) (dma_fields i) s s0 =
    (0, DMA_run (set_cont s0 i ((cont s i) <| status := status (cont s0 i) |>
          <| regs := zip_with keep_handler (regs (cont s i)) (regs (cont s0 i)) |>))).
Proof.
  intros Hi Hw Hw0. unfold load_result, dma_fields. rewrite lift_upd, cont_upd by done. done.
Qed.

End Saved.

End Dma.
