(* ===== verification/Rtc.v ===== *)
(** * The MC146818 real-time clock

    src/s2e/qemu/hw/mc146818rtc.c, as built for the i386 target: the CMOS
    registers behind ports 0x70/0x71, the calendar with its BCD and 12-hour
    encodings, the two-stage update of each second, the alarm and the periodic
    interrupt with its coalescing.

    What the device asks of the rest of the machine is in [RtcEnv]: the time of
    [rtc_clock], whether the HPET has taken over, the [rtc_td_hack] option and
    whether the interrupt just raised reached a CPU.  Timers are their expiry
    when pending (the abstract view of Timers.v).  [irq] lists the levels driven
    on the interrupt line, the latest first; [sqw_irq] is [None] when not
    connected. *)

From stdpp Require Import strings.
From S2P Require Import Prelude HostArith DevState Savevm.

Module Rtc.

Definition get_ticks_per_sec : Z := 1000000000.

Definition RTC_SECONDS : Z := 0.
Definition RTC_SECONDS_ALARM : Z := 1.
Definition RTC_MINUTES : Z := 2.
Definition RTC_MINUTES_ALARM : Z := 3.
Definition RTC_HOURS : Z := 4.
Definition RTC_HOURS_ALARM : Z := 5.
Definition RTC_DAY_OF_WEEK : Z := 6.
Definition RTC_DAY_OF_MONTH : Z := 7.
Definition RTC_MONTH : Z := 8.
Definition RTC_YEAR : Z := 9.
Definition RTC_REG_A : Z := 10.
Definition RTC_REG_B : Z := 11.
Definition RTC_REG_C : Z := 12.
Definition RTC_REG_D : Z := 13.

Definition REG_A_UIP : Z := 0x80.
Definition REG_B_SET : Z := 0x80.
Definition REG_B_PIE : Z := 0x40.
Definition REG_B_AIE : Z := 0x20.
Definition REG_B_UIE : Z := 0x10.
Definition REG_B_SQWE : Z := 0x08.
Definition REG_B_DM : Z := 0x04.
Definition REG_C_UF : Z := 0x10.
Definition REG_C_IRQF : Z := 0x80.
Definition REG_C_PF : Z := 0x40.
Definition REG_C_AF : Z := 0x20.
Definition RTC_REINJECT_ON_ACK_COUNT : Z := 1000.

Record tm := mkTm {
  tm_sec : Z;
  tm_min : Z;
  tm_hour : Z;
  tm_mday : Z;
  tm_mon : Z;
  tm_year : Z;
  tm_wday : Z
}.
#[export] Instance tm_eta : RecordEta tm :=
  fields mkTm < tm_sec ; tm_min ; tm_hour ; tm_mday ; tm_mon ; tm_year ; tm_wday >.

Record RTCState := mkRTC {
  cmos_data : list Z;
  cmos_index : Z;
  current_tm : tm;
  base_year : Z;
  irq : list Z;
  sqw_irq : option (list Z);
  periodic_timer : option Z;
  next_periodic_time : Z;
  next_second_time : Z;
  irq_reinject_on_ack_count : Z;
  irq_coalesced : Z;
  period : Z;
  coalesced_timer : option Z;
  second_timer : option Z;
  second_timer2 : option Z
}.
#[export] Instance RTCState_eta : RecordEta RTCState :=
  fields mkRTC < cmos_data ; cmos_index ; current_tm ; base_year ; irq ; sqw_irq ;
    periodic_timer ; next_periodic_time ; next_second_time ; irq_reinject_on_ack_count ;
    irq_coalesced ; period ; coalesced_timer ; second_timer ; second_timer2 >.

Record RtcEnv := mkEnv {
  now : Z;
  hpet_in_legacy_mode : bool;
  rtc_td_hack : bool;
  apic_get_irq_delivered : bool
}.

Definition cmos (s : RTCState) (i : Z) : Z := aget 0 (cmos_data s) i.
Definition set_cmos (s : RTCState) (i v : Z) : RTCState :=
  s <| cmos_data := aset (cmos_data s) i (u8 v) |>.

(** ** Interrupts and the periodic timer *)

Definition qemu_irq_raise (s : RTCState) : RTCState := s <| irq := 1 :: irq s |>.
Definition qemu_irq_lower (s : RTCState) : RTCState := s <| irq := 0 :: irq s |>.

Definition rtc_irq_raise (e : RtcEnv) (s : RTCState) : RTCState :=
  if negb (hpet_in_legacy_mode e) then qemu_irq_raise s else s.

Definition rtc_coalesced_timer_update (e : RtcEnv) (s : RTCState) : RTCState :=
  if irq_coalesced s =? 0 then s <| coalesced_timer := None |>
  else
    let c := Z.min (irq_coalesced s) 7 + 1 in
    let next_clock := s64 (now e + muldiv64 (period s / c) get_ticks_per_sec 32768) in
    s <| coalesced_timer := Some next_clock |>.

(** The timer callbacks run after [qemu_run_timers] took their timer off. *)
Definition rtc_coalesced_timer (e : RtcEnv) (s : RTCState) : RTCState :=
  let s := s <| coalesced_timer := None |> in
  let s :=
    if negb (irq_coalesced s =? 0) then
      let s := set_cmos s RTC_REG_C (Z.lor (cmos s RTC_REG_C) 0xc0) in
      let s := rtc_irq_raise e s in
      if apic_get_irq_delivered e
      then s <| irq_coalesced := u32 (irq_coalesced s - 1) |> else s
    else s in
  rtc_coalesced_timer_update e s.

Definition periodic_enabled (e : RtcEnv) (s : RTCState) : bool :=
  negb (Z.land (cmos s RTC_REG_A) 0x0f =? 0) &&
  ((nz (Z.land (cmos s RTC_REG_B) REG_B_PIE) && negb (hpet_in_legacy_mode e)) ||
   (nz (Z.land (cmos s RTC_REG_B) REG_B_SQWE) && bool_decide (sqw_irq s <> None))).

Definition rtc_timer_update (e : RtcEnv) (s : RTCState) (current_time : Z) : RTCState :=
  let period_code := Z.land (cmos s RTC_REG_A) 0x0f in
  if periodic_enabled e s then
    let period_code := if period_code <=? 2 then period_code + 7 else period_code in
    let per := BIT (period_code - 1) in
    let s := if negb (per =? period s)
             then s <| irq_coalesced := u32 (irq_coalesced s * period s) / per |> else s in
    let s := s <| period := per |> in
    let cur_clock := s64 (muldiv64 (u64 current_time) 32768 get_ticks_per_sec) in
    let next_irq_clock := Z.land cur_clock (Z.lnot (per - 1)) + per in
    let s := s <| next_periodic_time :=
      s64 (u64 (muldiv64 (u64 next_irq_clock) get_ticks_per_sec 32768 + 1)) |> in
    s <| periodic_timer := Some (next_periodic_time s) |>
  else s <| irq_coalesced := 0 |> <| periodic_timer := None |>.

Definition rtc_periodic_timer (e : RtcEnv) (s : RTCState) : RTCState :=
  let s := s <| periodic_timer := None |> in
  let s := rtc_timer_update e s (next_periodic_time s) in
  let s :=
    if nz (Z.land (cmos s RTC_REG_B) REG_B_PIE) then
      let s := set_cmos s RTC_REG_C (Z.lor (cmos s RTC_REG_C) 0xc0) in
      if rtc_td_hack e then
        let s := if RTC_REINJECT_ON_ACK_COUNT <=? irq_reinject_on_ack_count s
                 then s <| irq_reinject_on_ack_count := 0 |> else s in
        let s := rtc_irq_raise e s in
        if negb (apic_get_irq_delivered e) then
          rtc_coalesced_timer_update e (s <| irq_coalesced := u32 (irq_coalesced s + 1) |>)
        else s
      else rtc_irq_raise e s
    else s in
  if nz (Z.land (cmos s RTC_REG_B) REG_B_SQWE)
  then s <| sqw_irq := option_map (cons 1) (sqw_irq s) |> else s.

(** ** The calendar *)

Definition rtc_to_bcd (s : RTCState) (a : Z) : Z :=
  if nz (Z.land (cmos s RTC_REG_B) REG_B_DM) then a
  else Z.lor (Z.shiftl (Z.quot a 10) 4) (Z.rem a 10).

Definition rtc_from_bcd (s : RTCState) (a : Z) : Z :=
  if nz (Z.land (cmos s RTC_REG_B) REG_B_DM) then a
  else Z.shiftr a 4 * 10 + Z.land a 0x0f.

Definition rtc_set_time (s : RTCState) : RTCState :=
  let hour := rtc_from_bcd s (Z.land (cmos s RTC_HOURS) 0x7f) in
  let hour :=
    if negb (nz (Z.land (cmos s RTC_REG_B) 0x02)) && nz (Z.land (cmos s RTC_HOURS) 0x80)
    then hour + 12 else hour in
  s <| current_tm := mkTm
    (rtc_from_bcd s (cmos s RTC_SECONDS))
    (rtc_from_bcd s (cmos s RTC_MINUTES))
    hour
    (rtc_from_bcd s (cmos s RTC_DAY_OF_MONTH))
    (rtc_from_bcd s (cmos s RTC_MONTH) - 1)
    (rtc_from_bcd s (cmos s RTC_YEAR) + base_year s - 1900)
    (rtc_from_bcd s (cmos s RTC_DAY_OF_WEEK) - 1) |>.

Definition rtc_copy_date (s : RTCState) : RTCState :=
  let tm := current_tm s in
  let s := set_cmos s RTC_SECONDS (rtc_to_bcd s (tm_sec tm)) in
  let s := set_cmos s RTC_MINUTES (rtc_to_bcd s (tm_min tm)) in
  let s :=
    if nz (Z.land (cmos s RTC_REG_B) 0x02) then
      set_cmos s RTC_HOURS (rtc_to_bcd s (tm_hour tm))
    else
      let s := set_cmos s RTC_HOURS (rtc_to_bcd s (Z.rem (tm_hour tm) 12)) in
      if 12 <=? tm_hour tm then set_cmos s RTC_HOURS (Z.lor (cmos s RTC_HOURS) 0x80) else s in
  let s := set_cmos s RTC_DAY_OF_WEEK (rtc_to_bcd s (tm_wday tm + 1)) in
  let s := set_cmos s RTC_DAY_OF_MONTH (rtc_to_bcd s (tm_mday tm)) in
  let s := set_cmos s RTC_MONTH (rtc_to_bcd s (tm_mon tm + 1)) in
  let year := Z.rem (tm_year tm - base_year s) 100 in
  let year := if year <? 0 then year + 100 else year in
  set_cmos s RTC_YEAR (rtc_to_bcd s year).

Definition days_tab : list Z := [31; 28; 31; 30; 31; 30; 31; 31; 30; 31; 30; 31].

Definition get_days_in_month (month year : Z) : Z :=
  if 12 <=? u32 month then 31
  else
    let d := aget 0 days_tab month in
    if month =? 1 then
      if (Z.rem year 4 =? 0) && (negb (Z.rem year 100 =? 0) || (Z.rem year 400 =? 0))
      then d + 1 else d
    else d.

(** The nested blocks of [rtc_next_second], innermost first: the day of the
    month carries into the month and the year. *)
Definition next_day (t : tm) : tm :=
  let days_in_month := get_days_in_month (tm_mon t) (tm_year t + 1900) in
  let t := t <| tm_mday := tm_mday t + 1 |> in
  if tm_mday t <? 1 then t <| tm_mday := 1 |>
  else if days_in_month <? tm_mday t then
    let t := t <| tm_mday := 1 |> <| tm_mon := tm_mon t + 1 |> in
    if 12 <=? tm_mon t then t <| tm_mon := 0 |> <| tm_year := tm_year t + 1 |> else t
  else t.

Definition next_date (t : tm) : tm :=
  let t := t <| tm_hour := 0 |> <| tm_wday := tm_wday t + 1 |> in
  let t := if 7 <=? u32 (tm_wday t) then t <| tm_wday := 0 |> else t in
  next_day t.

Definition next_hour (t : tm) : tm :=
  let t := t <| tm_min := 0 |> <| tm_hour := tm_hour t + 1 |> in
  if 24 <=? u32 (tm_hour t) then next_date t else t.

Definition next_minute (t : tm) : tm :=
  let t := t <| tm_sec := 0 |> <| tm_min := tm_min t + 1 |> in
  if 60 <=? u32 (tm_min t) then next_hour t else t.

Definition rtc_next_second (t : tm) : tm :=
  let t := t <| tm_sec := tm_sec t + 1 |> in
  if 60 <=? u32 (tm_sec t) then next_minute t else t.

(** ** The update of each second *)

Definition rtc_update_second (s : RTCState) : RTCState :=
  let s := s <| second_timer := None |> in
  if negb (Z.land (cmos s RTC_REG_A) 0x70 =? 0x20) then
    let s := s <| next_second_time := s64 (next_second_time s + get_ticks_per_sec) |> in
    s <| second_timer := Some (next_second_time s) |>
  else
    let s := s <| current_tm := rtc_next_second (current_tm s) |> in
    let s := if negb (nz (Z.land (cmos s RTC_REG_B) REG_B_SET))
             then set_cmos s RTC_REG_A (Z.lor (cmos s RTC_REG_A) REG_A_UIP) else s in
    let delay := Z.quot (get_ticks_per_sec * 1) 100 in
    let delay := if delay <? 1 then 1 else delay in
    s <| second_timer2 := Some (s64 (next_second_time s + delay)) |>.

(** The alarm condition, as written. *)
Definition alarm_matches (s : RTCState) : bool :=
  ((Z.land (cmos s RTC_SECONDS_ALARM) 0xc0 =? 0xc0) ||
   (cmos s RTC_SECONDS_ALARM =? tm_sec (current_tm s))) &&
  ((Z.land (cmos s RTC_MINUTES_ALARM) 0xc0 =? 0xc0) ||
   (cmos s RTC_MINUTES_ALARM =? tm_mon (current_tm s))) &&
  ((Z.land (cmos s RTC_HOURS_ALARM) 0xc0 =? 0xc0) ||
   (cmos s RTC_HOURS_ALARM =? tm_hour (current_tm s))).

Definition rtc_update_second2 (e : RtcEnv) (s : RTCState) : RTCState :=
  let s := s <| second_timer2 := None |> in
  let s := if negb (nz (Z.land (cmos s RTC_REG_B) REG_B_SET)) then rtc_copy_date s else s in
  let s :=
    if nz (Z.land (cmos s RTC_REG_B) REG_B_AIE) && alarm_matches s then
      rtc_irq_raise e (set_cmos s RTC_REG_C (Z.lor (cmos s RTC_REG_C) 0xa0))
    else s in
  let s := set_cmos s RTC_REG_C (Z.lor (cmos s RTC_REG_C) REG_C_UF) in
  let s :=
    if nz (Z.land (cmos s RTC_REG_B) REG_B_UIE) then
      rtc_irq_raise e (set_cmos s RTC_REG_C (Z.lor (cmos s RTC_REG_C) REG_C_IRQF))
    else s in
  let s := set_cmos s RTC_REG_A (Z.land (cmos s RTC_REG_A) (Z.lnot REG_A_UIP)) in
  let s := s <| next_second_time := s64 (next_second_time s + get_ticks_per_sec) |> in
  s <| second_timer := Some (next_second_time s) |>.

(** ** Ports *)

Definition cmos_ioport_write (e : RtcEnv) (s : RTCState) (addr data : Z) : RTCState :=
  if Z.land addr 1 =? 0 then s <| cmos_index := u8 (Z.land data 0x7f) |>
  else
    match cmos_index s with
    | 1 | 3 | 5 => set_cmos s (cmos_index s) data
    | 0 | 2 | 4 | 6 | 7 | 8 | 9 =>
        let s := set_cmos s (cmos_index s) data in
        if negb (nz (Z.land (cmos s RTC_REG_B) REG_B_SET)) then rtc_set_time s else s
    | 10 =>
        let s := set_cmos s RTC_REG_A
          (Z.lor (Z.land data (Z.lnot REG_A_UIP)) (Z.land (cmos s RTC_REG_A) REG_A_UIP)) in
        rtc_timer_update e s (now e)
    | 11 =>
        let '(data, s) :=
          if nz (Z.land data REG_B_SET) then
            (Z.land data (Z.lnot REG_B_UIE),
             set_cmos s RTC_REG_A (Z.land (cmos s RTC_REG_A) (Z.lnot REG_A_UIP)))
          else
            (data, if nz (Z.land (cmos s RTC_REG_B) REG_B_SET) then rtc_set_time s else s) in
        let s := set_cmos s RTC_REG_B data in
        rtc_timer_update e s (now e)
    | 12 | 13 => s
    | _ => set_cmos s (cmos_index s) data
    end.

Definition cmos_ioport_read (e : RtcEnv) (s : RTCState) (addr : Z) : Z * RTCState :=
  if Z.land addr 1 =? 0 then (0xff, s)
  else
    match cmos_index s with
    | 12 =>
        let ret := cmos s (cmos_index s) in
        let s := qemu_irq_lower s in
        if negb (irq_coalesced s =? 0) &&
           (irq_reinject_on_ack_count s <? RTC_REINJECT_ON_ACK_COUNT) then
          let s := s <| irq_reinject_on_ack_count := u16 (irq_reinject_on_ack_count s + 1) |> in
          let s := qemu_irq_raise s in
          (ret, if apic_get_irq_delivered e
                then s <| irq_coalesced := u32 (irq_coalesced s - 1) |> else s)
        else (ret, set_cmos s RTC_REG_C 0x00)
    | _ => (cmos s (cmos_index s), s)
    end.

Definition rtc_set_memory (s : RTCState) (addr val : Z) : RTCState :=
  if (0 <=? addr) && (addr <=? 127) then set_cmos s addr val else s.

Definition rtc_set_date (s : RTCState) (t : tm) : RTCState :=
  rtc_copy_date (s <| current_tm := t |>).

(** [t] is what [qemu_get_timedate] returns. *)
Definition rtc_set_date_from_host (s : RTCState) (t : tm) : RTCState :=
  let s := rtc_set_date s t in
  let val := rtc_to_bcd s (Z.quot (tm_year t) 100 + 19) in
  rtc_set_memory (rtc_set_memory s 0x32 val) 0x37 val.

Definition rtc_post_load (e : RtcEnv) (s : RTCState) (version : Z) : Z * RTCState :=
  let s := if (2 <=? version) && rtc_td_hack e then rtc_coalesced_timer_update e s else s in
  let s := s <| next_second_time := s64 (now e + Z.quot (get_ticks_per_sec * 99) 100) |> in
  (0, s <| second_timer2 := Some (next_second_time s) |>
        <| second_timer := Some (next_second_time s) |>).

Definition rtc_reset (e : RtcEnv) (s : RTCState) : RTCState :=
  let s := set_cmos s RTC_REG_B
    (Z.land (cmos s RTC_REG_B) (Z.lnot (Z.lor (Z.lor REG_B_PIE REG_B_AIE) REG_B_SQWE))) in
  let s := set_cmos s RTC_REG_C
    (Z.land (cmos s RTC_REG_C)
       (Z.lnot (Z.lor (Z.lor (Z.lor REG_C_UF REG_C_IRQF) REG_C_PF) REG_C_AF))) in
  let s := qemu_irq_lower s in
  if rtc_td_hack e then s <| irq_coalesced := 0 |> else s.

(** From zeroed memory, the [base_year] property and the host date [t]. *)
Definition rtc_initfn (e : RtcEnv) (base : Z) (t : tm) : RTCState :=
  let s := mkRTC (replicate 128 0) 0 (mkTm 0 0 0 0 0 0 0) base [] None None 0 0 0 0 0 None None None in
  let s := set_cmos s RTC_REG_A 0x26 in
  let s := set_cmos s RTC_REG_B 0x02 in
  let s := set_cmos s RTC_REG_C 0x00 in
  let s := set_cmos s RTC_REG_D 0x80 in
  let s := rtc_set_date_from_host s t in
  let s := s <| next_second_time := s64 (now e + Z.quot (get_ticks_per_sec * 99) 100) |> in
  s <| second_timer2 := Some (next_second_time s) |>.


(** ** CMOS cells *)

Definition cmos_ok (s : RTCState) : Prop :=
  length (cmos_data s) = 128%nat /\ Forall (range 8) (cmos_data s).

Lemma set_cmos_ok s i v : cmos_ok s -> cmos_ok (set_cmos s i v).
Proof.
  intros [Hl Hf]. split; cbn; [by rewrite aset_length|].
  apply Forall_insert; [done|apply u8_range].
Qed.

Lemma cmos_set s i j v :
  cmos_ok s -> 0 <= i < 128 -> 0 <= j < 128 ->
  cmos (set_cmos s i v) j = if i =? j then u8 v else cmos s j.
Proof.
  intros [Hl _] Hi Hj. unfold cmos, set_cmos. cbn. destruct (Z.eqb_spec i j) as [<-|].
  - apply aget_aset_eq. rewrite Hl. lia.
  - apply aget_aset_ne; lia.
Qed.

Lemma cmos_range s i : cmos_ok s -> 0 <= i < 128 -> range 8 (cmos s i).
Proof.
  intros [Hl Hf] Hi. apply (proj1 (List.Forall_nth (range 8) (cmos_data s)) Hf). lia.
Qed.

#[local] Hint Resolve set_cmos_ok : core.

(** ** Encodings *)

Definition to_bcd (dm : bool) (a : Z) : Z :=
  if dm then a else Z.lor (Z.shiftl (Z.quot a 10) 4) (Z.rem a 10).
Definition from_bcd (dm : bool) (a : Z) : Z :=
  if dm then a else Z.shiftr a 4 * 10 + Z.land a 0x0f.

Lemma to_bcd_val dm a : 0 <= a < 100 ->
  to_bcd dm a = (if dm then a else 16 * (a / 10) + a mod 10) /\ range 8 (to_bcd dm a).
Proof.
  intros Ha. destruct dm; cbn; [unfold range; lia|].
  rewrite Z.quot_div_nonneg, Z.rem_mod_nonneg by lia.
  pose proof (Z.mod_pos_bound a 10 ltac:(lia)).
  assert (0 <= a / 10 < 10) by (split; [apply Z.div_pos; lia | apply Z.div_lt_upper_bound; lia]).
  rewrite lor_disjoint_add by (unfold range; lia). unfold range. lia.
Qed.

Lemma bcd_roundtrip dm a : 0 <= a < 100 -> from_bcd dm (to_bcd dm a) = a.
Proof.
  intros Ha. destruct (to_bcd_val dm a Ha) as [-> _]. destruct dm; cbn; [done|].
  pose proof (Z.mod_pos_bound a 10 ltac:(lia)). pose proof (Z.div_mod a 10 ltac:(lia)).
  rewrite Z.shiftr_div_pow2 by lia. change (2 ^ 4) with 16. change 15 with (2 ^ 4 - 1).
  rewrite low_mask by lia. change (2 ^ 4) with 16.
  rewrite <- (Z.div_unique (16 * (a / 10) + a mod 10) 16 (a / 10) (a mod 10)) by lia.
  rewrite <- (Z.mod_unique (16 * (a / 10) + a mod 10) 16 (a / 10) (a mod 10)) by lia. lia.
Qed.

Lemma land_low x w m : 0 <= w -> m = 2 ^ w - 1 -> range w x -> Z.land x m = x.
Proof. intros Hw -> Hx. rewrite low_mask by done. by apply Z.mod_small. Qed.

Lemma hour_byte dm h (pm : bool) :
  0 <= h < 24 -> (pm = true -> h < 12) ->
  let b := if pm then u8 (Z.lor (u8 (to_bcd dm h)) 0x80) else u8 (to_bcd dm h) in
  from_bcd dm (Z.land b 0x7f) = h /\ nz (Z.land b 0x80) = pm.
Proof.
  intros Hh Hpm.
  assert (Hc : forall k, 0 <= k < 24 -> (pm = true -> k < 12) ->
    (from_bcd dm (Z.land (if pm then u8 (Z.lor (u8 (to_bcd dm k)) 0x80) else u8 (to_bcd dm k)) 0x7f) =? k)
    && Bool.eqb (nz (Z.land (if pm then u8 (Z.lor (u8 (to_bcd dm k)) 0x80) else u8 (to_bcd dm k)) 0x80)) pm
    = true).
  { intros k Hk Hp.
    assert (forallb (fun n => let k := Z.of_nat n in
      (from_bcd dm (Z.land (if pm then u8 (Z.lor (u8 (to_bcd dm k)) 0x80) else u8 (to_bcd dm k)) 0x7f) =? k)
      && Bool.eqb (nz (Z.land (if pm then u8 (Z.lor (u8 (to_bcd dm k)) 0x80) else u8 (to_bcd dm k)) 0x80)) pm)
      (seq 0 (if pm then 12 else 24)) = true) as HF by (destruct dm, pm; vm_compute; done).
    rewrite forallb_forall in HF. specialize (HF (Z.to_nat k)). cbv zeta in HF.
    rewrite Z2Nat.id in HF by lia. apply HF. apply in_seq. destruct pm; lia. }
  specialize (Hc h Hh Hpm). apply andb_prop in Hc as [H1 H2].
  apply Z.eqb_eq in H1. apply Bool.eqb_prop in H2. done.
Qed.

(** Mode bits of register B. *)
Definition dm_mode (s : RTCState) : bool := nz (Z.land (cmos s RTC_REG_B) REG_B_DM).
Definition h24_mode (s : RTCState) : bool := nz (Z.land (cmos s RTC_REG_B) 0x02).

(** The hours cell [rtc_copy_date] writes. *)
Definition hours_cell (dm h24 : bool) (h : Z) : Z :=
  if h24 then u8 (to_bcd dm h)
  else if 12 <=? h then u8 (Z.lor (u8 (to_bcd dm (Z.rem h 12))) 0x80)
  else u8 (to_bcd dm (Z.rem h 12)).

Definition year_cell (dm : bool) (year base : Z) : Z :=
  let y := Z.rem (year - base) 100 in u8 (to_bcd dm (if y <? 0 then y + 100 else y)).

(** A cell of a state built by [set_cmos], and the encodings under it. *)
Ltac cells :=
  repeat (first [ rewrite cmos_set by (auto 12; unfold RTC_SECONDS, RTC_MINUTES, RTC_HOURS,
                    RTC_DAY_OF_WEEK, RTC_DAY_OF_MONTH, RTC_MONTH, RTC_YEAR, RTC_REG_A, RTC_REG_B,
                    RTC_REG_C, RTC_REG_D, RTC_SECONDS_ALARM, RTC_MINUTES_ALARM, RTC_HOURS_ALARM; lia)
                | progress cbn [Z.eqb Pos.eqb] ]).

Lemma copy_date_spec s :
  cmos_ok s ->
  let s' := rtc_copy_date s in let t := current_tm s in let dm := dm_mode s in
  cmos_ok s' /\ current_tm s' = t /\ base_year s' = base_year s /\
  cmos s' RTC_SECONDS = u8 (to_bcd dm (tm_sec t)) /\
  cmos s' RTC_MINUTES = u8 (to_bcd dm (tm_min t)) /\
  cmos s' RTC_HOURS = hours_cell dm (h24_mode s) (tm_hour t) /\
  cmos s' RTC_DAY_OF_WEEK = u8 (to_bcd dm (tm_wday t + 1)) /\
  cmos s' RTC_DAY_OF_MONTH = u8 (to_bcd dm (tm_mday t)) /\
  cmos s' RTC_MONTH = u8 (to_bcd dm (tm_mon t + 1)) /\
  cmos s' RTC_YEAR = year_cell dm (tm_year t) (base_year s) /\
  (forall i, 10 <= i < 128 -> cmos s' i = cmos s i) /\
  cmos s' RTC_SECONDS_ALARM = cmos s RTC_SECONDS_ALARM /\
  cmos s' RTC_MINUTES_ALARM = cmos s RTC_MINUTES_ALARM /\
  cmos s' RTC_HOURS_ALARM = cmos s RTC_HOURS_ALARM.
Proof.
  intros Hok.
  assert (Hb : forall t i v a, cmos_ok t -> 0 <= i < 10 ->
    rtc_to_bcd (set_cmos t i v) a = rtc_to_bcd t a).
  { intros t i v a Ht Hi. unfold rtc_to_bcd, RTC_REG_B.
    rewrite cmos_set by (done || lia). destruct (Z.eqb_spec i 11); [lia|done]. }
  assert (Hd : forall a, rtc_to_bcd s a = to_bcd (dm_mode s) a) by done.
  assert (Hh : forall t i v, cmos_ok t -> 0 <= i < 10 -> h24_mode (set_cmos t i v) = h24_mode t).
  { intros t i v Ht Hi. unfold h24_mode, RTC_REG_B.
    rewrite cmos_set by (done || lia). destruct (Z.eqb_spec i 11); [lia|done]. }
  unfold rtc_copy_date, hours_cell, year_cell.
  fold (h24_mode (set_cmos (set_cmos s RTC_SECONDS (rtc_to_bcd s (tm_sec (current_tm s)))) RTC_MINUTES
    (rtc_to_bcd (set_cmos s RTC_SECONDS (rtc_to_bcd s (tm_sec (current_tm s)))) (tm_min (current_tm s))))).
  unfold RTC_SECONDS, RTC_MINUTES, RTC_HOURS, RTC_DAY_OF_WEEK, RTC_DAY_OF_MONTH, RTC_MONTH, RTC_YEAR,
    RTC_SECONDS_ALARM, RTC_MINUTES_ALARM, RTC_HOURS_ALARM.
  rewrite !Hh by (auto; lia).
  destruct (h24_mode s), (12 <=? tm_hour (current_tm s));
    rewrite !Hb by (auto 10; lia); rewrite !Hd;
    (split; [auto 10|]); repeat split; cells; try done;
    intros i Hi; rewrite !cmos_set by (auto 10; lia);
    repeat (match goal with |- context [?a =? i] => destruct (Z.eqb_spec a i); [lia|] end); done.
Qed.


(** A date in the century window of [base]. *)
Definition date_ok (t : tm) (base : Z) : Prop :=
  0 <= tm_sec t < 60 /\ 0 <= tm_min t < 60 /\ 0 <= tm_hour t < 24 /\
  1 <= tm_mday t <= 31 /\ 0 <= tm_mon t < 12 /\ 0 <= tm_wday t < 7 /\
  base - 1900 <= tm_year t < base - 1800.

Lemma rem_fix z : (let y := Z.rem z 100 in if y <? 0 then y + 100 else y) = z mod 100.
Proof.
  cbv zeta. pose proof (Z.quot_rem' z 100) as E. pose proof (Z.rem_bound_abs z 100 ltac:(lia)).
  destruct (Z.ltb_spec (Z.rem z 100) 0).
  - apply (Z.mod_unique _ _ (Z.quot z 100 - 1)); lia.
  - apply (Z.mod_unique _ _ (Z.quot z 100)); lia.
Qed.

(** the calendar survives the CMOS encoding.  For every date within the
    century that starts at [base_year], whatever the format bits of register B
    (BCD or binary, 12 or 24 hours), decoding the cells written by
    [rtc_copy_date] with [rtc_set_time] gives the same date back. *)
Theorem rtc_date_roundtrip s :
  cmos_ok s -> date_ok (current_tm s) (base_year s) ->
  current_tm (rtc_set_time (rtc_copy_date s)) = current_tm s.
Proof.
  intros Hok (Hs & Hm & Hh & Hd & Hmo & Hw & Hy).
  destruct (copy_date_spec s Hok) as (Hok' & Et & Eb & Cs & Cm & Ch & Cw & Cd & Cmo & Cy & Cr & _).
  set (s' := rtc_copy_date s) in *.
  assert (Edm : forall a, rtc_from_bcd s' a = from_bcd (dm_mode s) a).
  { intros a. unfold rtc_from_bcd. rewrite (Cr RTC_REG_B) by (unfold RTC_REG_B; lia). done. }
  unfold rtc_set_time. rewrite !Edm, Cs, Cm, Ch, Cw, Cd, Cmo, Cy, Eb.
  rewrite (Cr RTC_REG_B) by (unfold RTC_REG_B; lia). fold (h24_mode s). set (dm := dm_mode s).
  assert (R : forall a, 0 <= a < 100 -> from_bcd dm (u8 (to_bcd dm a)) = a).
  { intros a Ha. rewrite u8_small by (apply to_bcd_val; lia). by apply bcd_roundtrip. }
  assert (Ey : year_cell dm (tm_year (current_tm s)) (base_year s) =
    u8 (to_bcd dm (tm_year (current_tm s) - base_year s + 1900))).
  { unfold year_cell. rewrite rem_fix. do 2 f_equal. symmetry.
    apply (Z.mod_unique _ _ (-19)); lia. }
  assert (Eh : from_bcd dm (Z.land (hours_cell dm (h24_mode s) (tm_hour (current_tm s))) 0x7f) +
    (if negb (h24_mode s) && nz (Z.land (hours_cell dm (h24_mode s) (tm_hour (current_tm s))) 0x80)
     then 12 else 0) = tm_hour (current_tm s)).
  { unfold hours_cell. destruct (h24_mode s); cbn [negb andb].
    - destruct (hour_byte dm (tm_hour (current_tm s)) false) as [-> _]; [done..|]. lia.
    - rewrite Z.rem_mod_nonneg by lia. destruct (Z.leb_spec 12 (tm_hour (current_tm s))).
      + rewrite <- (Z.mod_unique (tm_hour (current_tm s)) 12 1 (tm_hour (current_tm s) - 12)) by lia.
        destruct (hour_byte dm (tm_hour (current_tm s) - 12) true) as [-> ->]; lia.
      + rewrite Z.mod_small by lia.
        destruct (hour_byte dm (tm_hour (current_tm s)) false) as [-> ->]; [lia|done|]. lia. }
  rewrite Ey, !R by lia. cbn. destruct (current_tm s) as [a b h c d f g]. cbn in *.
  f_equal; try lia. destruct (_ && _); lia.
Qed.

(** Saturday 15 October 2011, 16:45:30, BCD and 24 hours as at power-on. *)
Definition demo_tm : tm := mkTm 30 45 16 15 9 111 6.
Definition demo_rtc : RTCState := rtc_initfn (mkEnv 0 false false false) 2000 demo_tm.

Lemma demo_rtc_ok : cmos_ok demo_rtc.
Proof.
  split; [reflexivity|]. unfold range. vm_compute.
  repeat (apply Forall_cons_2; [split; [discriminate|reflexivity]|]). apply Forall_nil_2.
Qed.

Lemma rtc_date_roundtrip_witness :
  current_tm (rtc_set_time (rtc_copy_date demo_rtc)) = demo_tm.
Proof.
  rewrite (rtc_date_roundtrip demo_rtc demo_rtc_ok); [reflexivity|].
  change (date_ok demo_tm 2000). unfold date_ok. cbn. lia.
Defined.

(** ** The calendar *)

Definition leap (y : Z) : bool :=
  (y mod 4 =? 0) && (negb (y mod 100 =? 0) || (y mod 400 =? 0)).

(** Days before 1 January of year [y], counted from year 0. *)
Definition days_before_year (y : Z) : Z := 365 * y + (y + 3) / 4 - (y + 99) / 100 + (y + 399) / 400.

(** Thirty days have April, June, September and November, and February has 28 or
    29 (months are counted from 0). *)
Definition month_days (m y : Z) : Z :=
  if m =? 1 then (if leap y then 29 else 28)
  else if (m =? 3) || (m =? 5) || (m =? 8) || (m =? 10) then 30 else 31.

Fixpoint days_before_month (m : nat) (y : Z) : Z :=
  match m with
  | O => 0
  | S m => days_before_month m y + month_days (Z.of_nat m) y
  end.

Definition days (t : tm) : Z :=
  days_before_year (tm_year t + 1900) + days_before_month (Z.to_nat (tm_mon t)) (tm_year t + 1900)
  + tm_mday t - 1.
Definition secs (t : tm) : Z := ((days t * 24 + tm_hour t) * 60 + tm_min t) * 60 + tm_sec t.

Definition tm_valid (t : tm) : Prop :=
  0 <= tm_sec t < 60 /\ 0 <= tm_min t < 60 /\ 0 <= tm_hour t < 24 /\
  1 <= tm_mday t <= month_days (tm_mon t) (tm_year t + 1900) /\
  0 <= tm_mon t < 12 /\ 0 <= tm_year t + 1900 /\ 0 <= tm_wday t < 7.

Lemma div_next a b : 0 < b -> (a + 1 + (b - 1)) / b - (a + (b - 1)) / b = if a mod b =? 0 then 1 else 0.
Proof.
  intros Hb. replace (a + 1 + (b - 1)) with (a + 1 * b) by lia. rewrite Z.div_add by lia.
  pose proof (Z.div_mod a b ltac:(lia)) as E. pose proof (Z.mod_pos_bound a b Hb).
  destruct (Z.eqb_spec (a mod b) 0) as [E0|E0].
  - rewrite <- (Z.div_unique (a + (b - 1)) b (a / b) (b - 1)) by lia. lia.
  - rewrite <- (Z.div_unique (a + (b - 1)) b (a / b + 1) (a mod b - 1)) by lia. lia.
Qed.

Lemma mod_400_4 y : y mod 400 = 0 -> y mod 100 = 0 /\ y mod 4 = 0.
Proof.
  intros H. apply Z.mod_divide in H; [|lia]. destruct H as [k ->].
  split; apply Z.mod_divide; try lia; [exists (k * 4)|exists (k * 100)]; lia.
Qed.

Lemma mod_100_4 y : y mod 100 = 0 -> y mod 4 = 0.
Proof.
  intros H. apply Z.mod_divide in H; [|lia]. destruct H as [k ->].
  apply Z.mod_divide; try lia; exists (k * 25); lia.
Qed.

Lemma year_length y : days_before_year (y + 1) - days_before_year y = 365 + b2z (leap y).
Proof.
  unfold days_before_year, leap.
  pose proof (div_next y 4 ltac:(lia)) as A. pose proof (div_next y 100 ltac:(lia)) as B.
  pose proof (div_next y 400 ltac:(lia)) as C.
  change (4 - 1) with 3 in A. change (100 - 1) with 99 in B. change (400 - 1) with 399 in C.
  pose proof (mod_400_4 y). pose proof (mod_100_4 y).
  destruct (Z.eqb_spec (y mod 4) 0), (Z.eqb_spec (y mod 100) 0), (Z.eqb_spec (y mod 400) 0);
    cbn; try lia.
Qed.

(** The table of the code has these lengths. *)
Lemma days_in_month_ok m y : 0 <= m < 12 -> 0 <= y -> get_days_in_month m y = month_days m y.
Proof.
  intros Hm Hy. unfold get_days_in_month, month_days, leap. rewrite !Z.rem_mod_nonneg by lia.
  destruct (Z_of_nat_complete m ltac:(lia)) as [k ->].
  do 12 (destruct k as [|k]; [cbn; try (destruct (_ && _); reflexivity); reflexivity|]). lia.
Qed.

Lemma year_months y : days_before_month 12 y = 365 + b2z (leap y).
Proof. unfold days_before_month, month_days. destruct (leap y); reflexivity. Qed.

#[local] Arguments get_days_in_month : simpl never.
#[local] Arguments month_days : simpl never.
#[local] Arguments days_before_year : simpl never.

Lemma days_in_month_pos m y : 28 <= month_days m y.
Proof. unfold month_days. repeat case_match; lia. Qed.

Lemma next_day_spec t :
  tm_valid t -> let t' := next_day t in
  days t' = days t + 1 /\ 0 <= tm_mon t' < 12 /\ 0 <= tm_year t' + 1900 /\
  1 <= tm_mday t' <= month_days (tm_mon t') (tm_year t' + 1900) /\
  tm_sec t' = tm_sec t /\ tm_min t' = tm_min t /\ tm_hour t' = tm_hour t /\ tm_wday t' = tm_wday t.
Proof.
  intros (_ & _ & _ & Hd & Hm & Hy & _). unfold next_day. cbn [tm_mday set_field].
  rewrite (days_in_month_ok _ _ Hm Hy). destruct (Z.ltb_spec (tm_mday t + 1) 1); [lia|].
  destruct (Z.ltb_spec (month_days (tm_mon t) (tm_year t + 1900)) (tm_mday t + 1)).
  - assert (Ed : tm_mday t = month_days (tm_mon t) (tm_year t + 1900)) by lia.
    cbn. destruct (Z.leb_spec 12 (tm_mon t + 1)).
    + assert (Em : tm_mon t = 11) by lia. cbn.
      pose proof (days_in_month_pos 0 (tm_year t + 1 + 1900)).
      split; [|repeat split; lia]. unfold days. cbn.
      pose proof (year_months (tm_year t + 1900)) as L.
      pose proof (year_length (tm_year t + 1900)) as Y.
      replace (tm_year t + 1 + 1900) with (tm_year t + 1900 + 1) by lia.
      rewrite Ed, Em. change (Z.to_nat 11) with 11%nat. cbn [days_before_month] in L |- *.
      change (Z.of_nat 11) with 11 in L. change (Z.to_nat 0) with 0%nat. cbn [days_before_month]. lia.
    + cbn. pose proof (days_in_month_pos (tm_mon t + 1) (tm_year t + 1900)).
      split; [|repeat split; lia]. unfold days. cbn.
      replace (Z.to_nat (tm_mon t + 1)) with (S (Z.to_nat (tm_mon t))) by lia.
      cbn [days_before_month]. rewrite Z2Nat.id by lia. lia.
  - cbn. split; [unfold days; cbn; lia|]. repeat split; lia.
Qed.

Lemma u32_lt x : 0 <= x < 2 ^ 31 -> u32 x = x.
Proof. intros. apply u32_small. unfold range. lia. Qed.

(** A carry into the next unit: [t'] is [t] plus [n] seconds, a valid date of
    the right weekday. *)
Definition advanced (t t' : tm) (n : Z) : Prop :=
  tm_valid t' /\ secs t' = secs t + n /\
  (tm_wday t' - days t') mod 7 = (tm_wday t - days t) mod 7.

Lemma next_date_spec t :
  tm_valid t -> tm_hour t = 23 -> tm_min t = 0 -> tm_sec t = 0 -> advanced t (next_date t) 3600.
Proof.
  intros Hv Hh Hm Hs. pose proof Hv as (_ & _ & _ & Hd & Hmo & Hy & Hw). unfold next_date.
  set (t1 := if 7 <=? _ then _ else _).
  assert (H1 : tm_valid t1 /\ days t1 = days t /\ tm_sec t1 = 0 /\ tm_min t1 = 0 /\ tm_hour t1 = 0 /\
    tm_wday t1 = (tm_wday t + 1) mod 7).
  { unfold t1. cbn [tm_wday set_field]. rewrite u32_lt by lia.
    destruct (Z.leb_spec 7 (tm_wday t + 1)).
    - replace (tm_wday t + 1) with 7 by lia. repeat split; cbn; lia.
    - rewrite Z.mod_small by lia. repeat split; cbn; lia. }
  clearbody t1. destruct H1 as (V1 & D1 & S1 & M1 & H1 & W1).
  destruct (next_day_spec t1 V1) as (D & Vm & Vy & Vd & Es & Emi & Eh & Ew).
  destruct V1 as (V1 & V2 & V3 & _ & _ & _ & V7).
  split; [|split].
  - unfold tm_valid. rewrite Es, Emi, Eh, Ew. done.
  - unfold secs. rewrite Es, Emi, Eh, D, D1, S1, M1, H1. lia.
  - rewrite D, D1, Ew, W1. rewrite Zminus_mod_idemp_l. f_equal. lia.
Qed.

Lemma next_hour_spec t :
  tm_valid t -> tm_min t = 59 -> tm_sec t = 0 -> advanced t (next_hour t) 60.
Proof.
  intros Hv Hm Hs. pose proof Hv as (_ & _ & Hh & Hd & Hmo & Hy & Hw). unfold next_hour.
  cbn [tm_hour set_field]. rewrite u32_lt by lia.
  destruct (Z.leb_spec 24 (tm_hour t + 1)).
  - set (t0 := t <| tm_min := 0 |>). destruct (next_date_spec t0) as (V & S & W);
      [repeat split; cbn; lia|cbn; lia|done|done|].
    change (advanced t (next_date t0) 60). split; [done|]. split; [|exact W].
    rewrite S. unfold secs, days, t0. cbn. lia.
  - split; [repeat split; cbn; lia|]. split; [unfold secs, days; cbn; lia|done].
Qed.

Lemma next_minute_spec t :
  tm_valid t -> tm_sec t = 59 -> advanced t (next_minute t) 1.
Proof.
  intros Hv Hs. pose proof Hv as (_ & Hmi & Hh & Hd & Hmo & Hy & Hw). unfold next_minute.
  cbn [tm_min set_field]. rewrite u32_lt by lia.
  destruct (Z.leb_spec 60 (tm_min t + 1)).
  - set (t0 := t <| tm_sec := 0 |>). destruct (next_hour_spec t0) as (V & S & W);
      [repeat split; cbn; lia|cbn; lia|done|].
    change (advanced t (next_hour t0) 1). split; [done|]. split; [|exact W].
    rewrite S. unfold secs, days, t0. cbn. lia.
  - split; [repeat split; cbn; lia|]. split; [unfold secs, days; cbn; lia|done].
Qed.

(** C38: [rtc_next_second] implements the Gregorian calendar: a valid date goes
    to a valid date one second later, the day of the week advancing with the
    day, leap years and month ends included.  The lengths of months and years are
    those of the calendar ([month_days], [days_before_year]), not the code's. *)
Theorem rtc_next_second_correct t :
  tm_valid t -> let t' := rtc_next_second t in
  tm_valid t' /\ secs t' = secs t + 1 /\
  (tm_wday t' - days t') mod 7 = (tm_wday t - days t) mod 7.
Proof.
  intros Hv t'. pose proof Hv as (Hs & Hmi & Hh & Hd & Hm & Hy & Hw).
  unfold t', rtc_next_second. cbn [tm_sec set_field]. rewrite u32_lt by lia.
  destruct (Z.leb_spec 60 (tm_sec t + 1)).
  - change (advanced t (next_minute t) 1). by apply next_minute_spec; [|lia].
  - split; [repeat split; cbn; lia|]. split; [unfold secs, days; cbn; lia|done].
Qed.

Lemma rtc_next_second_correct_witness :
  let t := mkTm 59 59 23 28 1 112 2 in
  rtc_next_second t = mkTm 0 0 0 29 1 112 3 /\ secs (rtc_next_second t) = secs t + 1.
Proof.
  intros t. split; [reflexivity|]. apply (rtc_next_second_correct t).
  unfold tm_valid. vm_compute. intuition discriminate.
Defined.


(** ** The periodic interrupt *)

(** The period selected by register A, in ticks of the 32768 Hz clock. *)
Definition period_of (s : RTCState) : Z :=
  let code := Z.land (cmos s RTC_REG_A) 0x0f in
  BIT ((if code <=? 2 then code + 7 else code) - 1).

(** The 32768 Hz clock at host time [t], and the host time just after its
    tick [k]. *)
Definition clock32k (t : Z) : Z := t * 32768 / get_ticks_per_sec.
Definition tick_time (k : Z) : Z := k * get_ticks_per_sec / 32768 + 1.

Lemma clear_low x j : 0 <= j -> Z.land x (Z.lnot (2 ^ j - 1)) = 2 ^ j * (x / 2 ^ j).
Proof.
  intros Hj. rewrite <- Z.ldiff_land. replace (2 ^ j - 1) with (Z.ones j)
    by (rewrite Z.ones_equiv; lia).
  rewrite Z.ldiff_ones_r, Z.shiftl_mul_pow2, Z.shiftr_div_pow2 by lia. lia.
Qed.

Lemma period_pow s :
  Z.land (cmos s RTC_REG_A) 0x0f <> 0 -> exists j, 2 <= j <= 14 /\ period_of s = 2 ^ j.
Proof.
  intros Hn. unfold period_of. set (c := Z.land _ 15) in *.
  assert (Hc : 0 <= c < 16).
  { unfold c. change 15 with (2 ^ 4 - 1). rewrite low_mask by lia. apply Z.mod_pos_bound. lia. }
  destruct (Z.leb_spec c 2);
    [exists (c + 7 - 1) | exists (c - 1)]; unfold BIT; rewrite Z.shiftl_1_l; (split; [lia|done]).
Qed.

Lemma clock_bounds t : 0 <= t < 2 ^ 62 -> 0 <= clock32k t <= t.
Proof.
  unfold clock32k, get_ticks_per_sec. intros. split; [apply Z.div_pos; lia|].
  apply Z.div_le_upper_bound; lia.
Qed.

(** The clock at the time of a tick shows that tick. *)
Lemma clock_tick k : 0 <= k -> clock32k (tick_time k) = k.
Proof.
  intros Hk. unfold clock32k, tick_time, get_ticks_per_sec. symmetry.
  set (q := k * 1000000000 / 32768).
  pose proof (Z.div_mod (k * 1000000000) 32768 ltac:(lia)) as E.
  pose proof (Z.mod_pos_bound (k * 1000000000) 32768 ltac:(lia)). fold q in E.
  apply (Z.div_unique _ _ _ ((q + 1) * 32768 - k * 1000000000)); lia.
Qed.

Lemma tick_after t k : 0 <= t -> clock32k t < k -> t < tick_time k.
Proof.
  unfold clock32k, tick_time, get_ticks_per_sec. intros Ht Hk.
  assert (t * 32768 < k * 1000000000).
  { pose proof (Z.div_mod (t * 32768) 1000000000 ltac:(lia)).
    pose proof (Z.mod_pos_bound (t * 32768) 1000000000 ltac:(lia)). lia. }
  assert (t <= k * 1000000000 / 32768); [|lia].
  apply Z.div_le_lower_bound; lia.
Qed.

Definition next_tick (s : RTCState) (t : Z) : Z := period_of s * (clock32k t / period_of s + 1).

Lemma timer_update_enabled e s t :
  periodic_enabled e s = true -> 0 <= t < 2 ^ 61 ->
  let s' := rtc_timer_update e s t in
  next_periodic_time s' = tick_time (next_tick s t) /\
  periodic_timer s' = Some (tick_time (next_tick s t)) /\
  cmos_data s' = cmos_data s /\ sqw_irq s' = sqw_irq s.
Proof.
  intros He Ht.
  assert (Hn : Z.land (cmos s RTC_REG_A) 0x0f <> 0).
  { unfold periodic_enabled in He. apply andb_prop in He as [He _].
    apply negb_true_iff, Z.eqb_neq in He. done. }
  destruct (period_pow s Hn) as (j & Hj & Ej). pose proof (clock_bounds t ltac:(lia)) as Hb.
  unfold rtc_timer_update. rewrite He. fold (period_of s). set (per := period_of s) in *.
  assert (Hp : 4 <= per <= 16384).
  { rewrite Ej. pose proof (Z.pow_le_mono_r 2 2 j). pose proof (Z.pow_le_mono_r 2 j 14). lia. }
  assert (Hclk : muldiv64 (u64 t) 32768 get_ticks_per_sec = clock32k t).
  { rewrite u64_small by (unfold range; lia). apply muldiv64_exact;
      [unfold range; lia | unfold range; lia | unfold get_ticks_per_sec; lia|].
    change (clock32k t < 2 ^ 64). lia. }
  assert (Hcl : Z.land (clock32k t) (Z.lnot (per - 1)) = per * (clock32k t / per))
    by (rewrite Ej; apply clear_low; lia).
  rewrite Hclk, (s64_small (clock32k t)), Hcl by lia.
  assert (Hk : per * (clock32k t / per) + per = next_tick s t) by (unfold next_tick; fold per; lia).
  rewrite Hk. assert (Hnt : 0 <= next_tick s t <= clock32k t + 16384).
  { rewrite <- Hk. pose proof (Z.mul_div_le (clock32k t) per ltac:(lia)).
    pose proof (Z.div_pos (clock32k t) per ltac:(lia) ltac:(lia)). nia. }
  assert (Hq : 0 <= next_tick s t * get_ticks_per_sec / 32768 <= t + 16384 * 30518).
  { unfold get_ticks_per_sec. split; [apply Z.div_pos; lia|]. apply Z.div_le_upper_bound; [lia|].
    pose proof (Z.mul_div_le (t * 32768) 1000000000 ltac:(lia)).
    unfold clock32k, get_ticks_per_sec in Hnt. lia. }
  assert (Hmul : muldiv64 (u64 (next_tick s t)) get_ticks_per_sec 32768 =
    next_tick s t * get_ticks_per_sec / 32768).
  { rewrite u64_small by (unfold range; lia).
    apply muldiv64_exact; unfold range, get_ticks_per_sec in *; lia. }
  rewrite Hmul, u64_small, s64_small by (unfold range; lia).
  fold (tick_time (next_tick s t)). by destruct (negb (per =? period s)).
Qed.

(** What [rtc_periodic_timer] does after re-arming leaves the timer alone. *)
Lemma periodic_timer_next e s :
  next_periodic_time (rtc_periodic_timer e s) =
    next_periodic_time (rtc_timer_update e (s <| periodic_timer := None |>) (next_periodic_time s)).
Proof.
  assert (Hr : forall t, next_periodic_time (rtc_irq_raise e t) = next_periodic_time t)
    by (intros t; unfold rtc_irq_raise; by case_match).
  assert (Hc : forall t, next_periodic_time (rtc_coalesced_timer_update e t) = next_periodic_time t)
    by (intros t; unfold rtc_coalesced_timer_update; by case_match).
  unfold rtc_periodic_timer. cbv zeta.
  match goal with |- next_periodic_time (if ?b then _ else ?X) = _ =>
    transitivity (next_periodic_time X); [by destruct b|] end.
  change (next_periodic_time (s <| periodic_timer := None |>)) with (next_periodic_time s).
  set (u := rtc_timer_update _ _ _). clearbody u.
  destruct (nz _); [|done]. destruct (rtc_td_hack e); [|by rewrite Hr].
  match goal with |- next_periodic_time (if ?b then _ else ?X) = _ =>
    transitivity (next_periodic_time X); [destruct b; [by rewrite Hc|done]|] end.
  rewrite Hr. by case_match.
Qed.

(** the periodic interrupt has the programmed rate exactly.  Whenever it is
    enabled, updating the timer at time [t] arms it strictly after [t], at the
    next tick of the 32768 Hz clock that is a multiple of the period; and each
    expiry re-arms it exactly one period later, with no drift, skip or
    repetition. *)
Theorem rtc_periodic_rate e s t :
  periodic_enabled e s = true -> 0 <= t < 2 ^ 60 ->
  let per := period_of s in
  let s' := rtc_timer_update e s t in
  exists k, next_periodic_time s' = tick_time k /\ periodic_timer s' = Some (tick_time k) /\
    k mod per = 0 /\ k - per <= clock32k t < k /\ t < tick_time k /\
    next_periodic_time (rtc_periodic_timer e s') = tick_time (k + per).
Proof.
  intros He Ht per s'.
  destruct (timer_update_enabled e s t He ltac:(lia)) as (E1 & E2 & E3 & E4). fold s' in E1, E2, E3, E4.
  assert (Hn : Z.land (cmos s RTC_REG_A) 0x0f <> 0).
  { unfold periodic_enabled in He. apply andb_prop in He as [He' _].
    apply negb_true_iff, Z.eqb_neq in He'. done. }
  destruct (period_pow s Hn) as (j & Hj & Ej). fold per in Ej.
  assert (Hp : 4 <= per <= 16384).
  { rewrite Ej. pose proof (Z.pow_le_mono_r 2 2 j). pose proof (Z.pow_le_mono_r 2 j 14). lia. }
  pose proof (clock_bounds t ltac:(lia)) as Hb. set (k := next_tick s t) in *.
  assert (Hk : k = per * (clock32k t / per + 1)) by done.
  assert (Hr : k - per <= clock32k t < k).
  { rewrite Hk. pose proof (Z.div_mod (clock32k t) per ltac:(lia)).
    pose proof (Z.mod_pos_bound (clock32k t) per ltac:(lia)). nia. }
  exists k. split; [done|]. split; [done|]. split; [|split; [done|split; [by apply tick_after; lia|]]].
  { rewrite Hk, Z.mul_comm. apply Z.mod_mul. lia. }
  rewrite periodic_timer_next, E1. set (u := s' <| periodic_timer := None |>).
  assert (Hc : forall i, cmos u i = cmos s i) by (intros i; unfold cmos; cbn; by rewrite E3).
  assert (Hu : periodic_enabled e u = true).
  { unfold periodic_enabled in *. rewrite !Hc. cbn [sqw_irq u set_field].
    change (sqw_irq u) with (sqw_irq s'). by rewrite E4. }
  assert (Hku : tick_time k < 2 ^ 61).
  { unfold tick_time, get_ticks_per_sec. assert (k * 1000000000 / 32768 < 2 ^ 61 - 1); [|lia].
    apply Z.div_lt_upper_bound; [lia|].
    pose proof (Z.mul_div_le (t * 32768) 1000000000 ltac:(lia)).
    unfold clock32k, get_ticks_per_sec in Hr. lia. }
  assert (Htp : 0 <= tick_time k) by (pose proof (tick_after t k); lia).
  destruct (timer_update_enabled e u (tick_time k) Hu ltac:(lia)) as (-> & _).
  f_equal. unfold next_tick, period_of. rewrite Hc. fold (period_of s). fold per.
  rewrite clock_tick by lia.
  assert (Hd : k / per = clock32k t / per + 1) by (rewrite Hk, Z.mul_comm; apply Z.div_mul; lia).
  rewrite Hd. lia.
Qed.

(** Register A 0x26 (1024 Hz) with the periodic interrupt enabled. *)
Definition demo_periodic : RTCState := set_cmos demo_rtc RTC_REG_B 0x42.

Lemma rtc_periodic_rate_witness :
  let e := mkEnv 0 false false false in
  exists k, next_periodic_time (rtc_timer_update e demo_periodic 5000000) = tick_time k /\ k = 192.
Proof.
  intros e.
  destruct (rtc_periodic_rate e demo_periodic 5000000 eq_refl ltac:(lia)) as (k & E & _ & M & R & _).
  exists k. split; [exact E|]. change (period_of demo_periodic) with 32 in *.
  change (clock32k 5000000) with 163 in R.
  assert (k = 32 * (k / 32)) by (pose proof (Z.div_mod k 32); lia). lia.
Defined.


(** ** The alarm *)

Definition dont_care (v : Z) : bool := Z.land v 0xc0 =? 0xc0.

(** Alarm at any second of [h]:[m], interrupt enabled, binary and 24 hours. *)
Definition with_alarm (s : RTCState) (h m : Z) : RTCState :=
  set_cmos (set_cmos (set_cmos (set_cmos s RTC_REG_B 0x26) RTC_SECONDS_ALARM 0xff)
    RTC_MINUTES_ALARM m) RTC_HOURS_ALARM h.

(** The alarm compares the minutes alarm with the month.  With seconds and
    hours set to "don't care", [alarm_matches] is the test that the minutes
    alarm equals [tm_mon].  On 15 October at 16:45 an alarm set for 16:45 does
    not fire, and one set for minute 9 does. *)
Theorem rtc_alarm_compares_month :
  (forall s, dont_care (cmos s RTC_SECONDS_ALARM) = true ->
     dont_care (cmos s RTC_HOURS_ALARM) = true -> dont_care (cmos s RTC_MINUTES_ALARM) = false ->
     alarm_matches s = (cmos s RTC_MINUTES_ALARM =? tm_mon (current_tm s))) /\
  (let e := mkEnv 0 false false false in
   tm_hour (current_tm demo_rtc) = 16 /\ tm_min (current_tm demo_rtc) = 45 /\
   irq (rtc_update_second2 e (with_alarm demo_rtc 16 45)) = [] /\
   irq (rtc_update_second2 e (with_alarm demo_rtc 16 9)) = [1]).
Proof.
  split.
  - intros s H1 H2 H3. unfold alarm_matches, dont_care in *. rewrite H1, H2, H3. cbn [orb andb].
    btauto.
  - vm_compute. done.
Qed.

Lemma rtc_alarm_compares_month_witness :
  alarm_matches (with_alarm demo_rtc 0xff 9) = true.
Proof.
  rewrite (proj1 rtc_alarm_compares_month); reflexivity.
Defined.

(** ** Saved state *)

(** [current_tm.field] as a field of [RTCState]. *)
Definition in_tm (fld : tm -> Z) (s : RTCState) : Z := fld (current_tm s).
#[export] Instance in_tm_setter (fld : tm -> Z) `{!FieldSetter fld} : FieldSetter (in_tm fld) :=
  MkSetter (in_tm fld) (fun g s => s <| current_tm := set_field fld g (current_tm s) |>).

Definition vmstate_rtc {F : Type} `{!ByteStream F} (e : RtcEnv) : VMStateDescription F RTCState :=
  mkVMSD "mc146818rtc"%string 2 1 1 None None (Some (rtc_post_load e)) None None
    [VMSTATE_BUFFER cmos_data 128; VMSTATE_UINT8 cmos_index;
     VMSTATE_INT32 (in_tm tm_sec); VMSTATE_INT32 (in_tm tm_min); VMSTATE_INT32 (in_tm tm_hour);
     VMSTATE_INT32 (in_tm tm_wday); VMSTATE_INT32 (in_tm tm_mday); VMSTATE_INT32 (in_tm tm_mon);
     VMSTATE_INT32 (in_tm tm_year);
     VMSTATE_TIMER periodic_timer; VMSTATE_INT64 next_periodic_time;
     VMSTATE_INT64 next_second_time; VMSTATE_TIMER second_timer; VMSTATE_TIMER second_timer2;
     VMSTATE_UINT32_V irq_coalesced 2; VMSTATE_UINT32_V period 2].

Section Saved.
Context {F : Type} `{!ByteStream F} `{!ByteStreamLaws F}.

Definition rtc_fields : list (FieldOk (F := F) RTCState) :=
  [mkFieldOk (VMSTATE_BUFFER cmos_data 128) (buffer_ok 128);
   mkFieldOk (VMSTATE_UINT8 cmos_index) uint8_ok;
   mkFieldOk (VMSTATE_INT32 (in_tm tm_sec)) int32_ok;
   mkFieldOk (VMSTATE_INT32 (in_tm tm_min)) int32_ok;
   mkFieldOk (VMSTATE_INT32 (in_tm tm_hour)) int32_ok;
   mkFieldOk (VMSTATE_INT32 (in_tm tm_wday)) int32_ok;
   mkFieldOk (VMSTATE_INT32 (in_tm tm_mday)) int32_ok;
   mkFieldOk (VMSTATE_INT32 (in_tm tm_mon)) int32_ok;
   mkFieldOk (VMSTATE_INT32 (in_tm tm_year)) int32_ok;
   mkFieldOk (VMSTATE_TIMER periodic_timer) timer_ok;
   mkFieldOk (VMSTATE_INT64 next_periodic_time) int64_ok;
   mkFieldOk (VMSTATE_INT64 next_second_time) int64_ok;
   mkFieldOk (VMSTATE_TIMER second_timer) timer_ok;
   mkFieldOk (VMSTATE_TIMER second_timer2) timer_ok;
   mkFieldOk (VMSTATE_UINT32_V irq_coalesced 2) uint32_ok;
   mkFieldOk (VMSTATE_UINT32_V period 2) uint32_ok].

Lemma rtc_descr_ok e : DescrOk (F := F) (vmstate_rtc e) rtc_fields.
Proof. constructor; cbn; try done; lia. Qed.

Definition int32_val (x : Z) : Prop := - 2 ^ 31 <= x < 2 ^ 31.
Definition int64_val (x : Z) : Prop := - 2 ^ 63 <= x < 2 ^ 63.

Record rtc_wf (s : RTCState) : Prop := {
  rtc_cmos : cmos_ok s;
  rtc_index : range 8 (cmos_index s);
  rtc_sec : int32_val (tm_sec (current_tm s));
  rtc_min : int32_val (tm_min (current_tm s));
  rtc_hour : int32_val (tm_hour (current_tm s));
  rtc_wday : int32_val (tm_wday (current_tm s));
  rtc_mday : int32_val (tm_mday (current_tm s));
  rtc_mon : int32_val (tm_mon (current_tm s));
  rtc_year : int32_val (tm_year (current_tm s));
  rtc_ptimer : timer_valid (periodic_timer s);
  rtc_npt : int64_val (next_periodic_time s);
  rtc_nst : int64_val (next_second_time s);
  rtc_stimer : timer_valid (second_timer s);
  rtc_stimer2 : timer_valid (second_timer2 s);
  rtc_coalesced : range 32 (irq_coalesced s);
  rtc_period : range 32 (period s)
}.

Lemma rtc_state_valid e s : rtc_wf s -> state_valid (vmstate_rtc e) rtc_fields s.
Proof.
  intros [[Hl Hf] ? ? ? ? ? ? ? ? ? ? ? ? ? ? ?]. unfold state_valid, rtc_fields.
  constructor.
  { split; [done|]. split; [cbn; lia|]. intros i _. split; [|by destruct s].
    cbn. split; [done|]. rewrite Hl. done. }
  repeat (constructor; [split; [done|]; split; [cbn; lia|];
    intros i _; split; [done | by destruct s as [? ? [ ] ? ? ? ? ? ? ? ? ? ? ? ?]] |]).
  constructor.
Qed.

(** Loading restores the registers and the calendar; then [rtc_post_load]
    re-arms both second timers 0.99 s from now, whatever they were. *)
Lemma rtc_load_result e s s0 :
  load_result (F := F) (vmstate_rtc e) rtc_fields s s0 =
    rtc_post_load e (s <| base_year := base_year s0 |> <| irq := irq s0 |>
      <| sqw_irq := sqw_irq s0 |> <| irq_reinject_on_ack_count := irq_reinject_on_ack_count s0 |>
      <| coalesced_timer := coalesced_timer s0 |>) 2.
Proof. by destruct s as [? ? [ ] ? ? ? ? ? ? ? ? ? ? ? ?], s0 as [? ? [ ] ? ? ? ? ? ? ? ? ? ? ? ?]. Qed.

End Saved.

End Rtc.
