(* ===== verification/Ps2.v ===== *)
(** * PS/2 keyboard and mouse

    src/s2e/qemu/hw/ps2.c: the 256-byte ring each device queues its bytes in,
    the keyboard and mouse command protocols and the mouse packets.

    [update_irq] is a callback of the keyboard controller; [irq_log] lists the
    levels it was called with, the latest first. *)

From stdpp Require Import strings.
From S2P Require Import Prelude DevState Savevm.

Module Ps2.

Definition KBD_CMD_SET_LEDS : Z := 0xED.
Definition KBD_CMD_ECHO : Z := 0xEE.
Definition KBD_CMD_SCANCODE : Z := 0xF0.
Definition KBD_CMD_GET_ID : Z := 0xF2.
Definition KBD_CMD_SET_RATE : Z := 0xF3.
Definition KBD_CMD_ENABLE : Z := 0xF4.
Definition KBD_CMD_RESET_DISABLE : Z := 0xF5.
Definition KBD_CMD_RESET_ENABLE : Z := 0xF6.
Definition KBD_CMD_RESET : Z := 0xFF.
Definition KBD_REPLY_POR : Z := 0xAA.
Definition KBD_REPLY_ID : Z := 0xAB.
Definition KBD_REPLY_ACK : Z := 0xFA.
Definition KBD_REPLY_RESEND : Z := 0xFE.

Definition AUX_RESET_WRAP : Z := 0xEC.
Definition AUX_SET_RES : Z := 0xE8.
Definition AUX_GET_TYPE : Z := 0xF2.
Definition AUX_SET_SAMPLE : Z := 0xF3.
Definition AUX_RESET : Z := 0xFF.
Definition AUX_ACK : Z := 0xFA.
Definition MOUSE_STATUS_REMOTE : Z := 0x40.
Definition MOUSE_STATUS_ENABLED : Z := 0x20.
Definition MOUSE_STATUS_SCALE21 : Z := 0x10.

Definition PS2_QUEUE_SIZE : Z := 256.

Record PS2Queue := mkQueue { data : list Z; rptr : Z; wptr : Z; count : Z }.
#[export] Instance PS2Queue_eta : RecordEta PS2Queue :=
  fields mkQueue < data ; rptr ; wptr ; count >.

Record PS2State := mkPS2 { queue : PS2Queue; write_cmd : Z; irq_log : list Z }.
#[export] Instance PS2State_eta : RecordEta PS2State :=
  fields mkPS2 < queue ; write_cmd ; irq_log >.

Record PS2KbdState := mkKbd {
  kcommon : PS2State;
  scan_enabled : Z;
  translate : Z;
  scancode_set : Z
}.
#[export] Instance PS2KbdState_eta : RecordEta PS2KbdState :=
  fields mkKbd < kcommon ; scan_enabled ; translate ; scancode_set >.

Record PS2MouseState := mkMouse {
  common : PS2State;
  mouse_status : Z;
  mouse_resolution : Z;
  mouse_sample_rate : Z;
  mouse_wrap : Z;
  mouse_type : Z;
  mouse_detect_state : Z;
  mouse_dx : Z;
  mouse_dy : Z;
  mouse_dz : Z;
  mouse_buttons : Z
}.
#[export] Instance PS2MouseState_eta : RecordEta PS2MouseState :=
  fields mkMouse < common ; mouse_status ; mouse_resolution ; mouse_sample_rate ; mouse_wrap ;
    mouse_type ; mouse_detect_state ; mouse_dx ; mouse_dy ; mouse_dz ; mouse_buttons >.

Definition ps2_raw_keycode : list Z := [
    0;118; 22; 30; 38; 37; 46; 54; 61; 62; 70; 69; 78; 85;102; 13;
   21; 29; 36; 45; 44; 53; 60; 67; 68; 77; 84; 91; 90; 20; 28; 27;
   35; 43; 52; 51; 59; 66; 75; 76; 82; 14; 18; 93; 26; 34; 33; 42;
   50; 49; 58; 65; 73; 74; 89;124; 17; 41; 88;  5;  6;  4; 12;  3;
   11;  2; 10;  1;  9;119;126;108;117;125;123;107;115;116;121;105;
  114;122;112;113;127; 96; 97;120;  7; 15; 23; 31; 39; 47; 55; 63;
   71; 79; 86; 94;  8; 16; 24; 32; 40; 48; 56; 64; 72; 80; 87;111;
   19; 25; 57; 81; 83; 92; 95; 98; 99;100;101;103;104;106;109;110].

(** ** The queue *)

Definition update_irq (s : PS2State) (level : Z) : PS2State :=
  s <| irq_log := level :: irq_log s |>.

Definition ps2_queue (s : PS2State) (b : Z) : PS2State :=
  let q := queue s in
  if PS2_QUEUE_SIZE <=? count q then s
  else
    let q := q <| data := aset (data q) (wptr q) (u8 b) |> in
    let q := q <| wptr := if wptr q + 1 =? PS2_QUEUE_SIZE then 0 else wptr q + 1 |> in
    let q := q <| count := count q + 1 |> in
    update_irq (s <| queue := q |>) 1.

Definition ps2_read_data (s : PS2State) : Z * PS2State :=
  let q := queue s in
  if count q =? 0 then
    let index := rptr q - 1 in
    let index := if index <? 0 then PS2_QUEUE_SIZE - 1 else index in
    (aget 0 (data q) index, s)
  else
    let val := aget 0 (data q) (rptr q) in
    let q := q <| rptr := if rptr q + 1 =? PS2_QUEUE_SIZE then 0 else rptr q + 1 |> in
    let q := q <| count := count q - 1 |> in
    let s := update_irq (s <| queue := q |>) 0 in
    (val, update_irq s (b2z (negb (count q =? 0)))).

Definition ps2_common_reset (s : PS2State) : PS2State :=
  let s := s <| write_cmd := -1 |> in
  let q := (queue s) <| rptr := 0 |> <| wptr := 0 |> <| count := 0 |> in
  update_irq (s <| queue := q |>) 0.

(** ** Keyboard *)

Definition kbd_queue (s : PS2KbdState) (b : Z) : PS2KbdState :=
  s <| kcommon := ps2_queue (kcommon s) b |>.
Definition kbd_write_cmd (s : PS2KbdState) (v : Z) : PS2KbdState :=
  s <| kcommon := (kcommon s) <| write_cmd := v |> |>.

Definition ps2_put_keycode (s : PS2KbdState) (keycode : Z) : PS2KbdState :=
  let '(s, keycode) :=
    if (translate s =? 0) && (keycode <? 0xe0) && (scancode_set s =? 2) then
      let s := if nz (Z.land keycode 0x80) then kbd_queue s 0xf0 else s in
      (s, aget 0 ps2_raw_keycode (Z.land keycode 0x7f))
    else (s, keycode) in
  kbd_queue s keycode.

Definition ps2_reset_keyboard (s : PS2KbdState) : PS2KbdState :=
  s <| scan_enabled := 1 |> <| scancode_set := 2 |>.

(** The commands, [write_cmd] being none. *)
Definition kbd_command (s : PS2KbdState) (val : Z) : PS2KbdState :=
  match val with
  | 0x00 => kbd_queue s KBD_REPLY_ACK
  | 0x05 => kbd_queue s KBD_REPLY_RESEND
  | 0xF2 =>
      let s := kbd_queue s KBD_REPLY_ACK in
      let s := kbd_queue s KBD_REPLY_ID in
      if nz (translate s) then kbd_queue s 0x41 else kbd_queue s 0x83
  | 0xEE => kbd_queue s KBD_CMD_ECHO
  | 0xF4 => kbd_queue (s <| scan_enabled := 1 |>) KBD_REPLY_ACK
  | 0xF0 | 0xED | 0xF3 => kbd_queue (kbd_write_cmd s val) KBD_REPLY_ACK
  | 0xF5 => kbd_queue ((ps2_reset_keyboard s) <| scan_enabled := 0 |>) KBD_REPLY_ACK
  | 0xF6 => kbd_queue ((ps2_reset_keyboard s) <| scan_enabled := 1 |>) KBD_REPLY_ACK
  | 0xFF => kbd_queue (kbd_queue (ps2_reset_keyboard s) KBD_REPLY_ACK) KBD_REPLY_POR
  | _ => kbd_queue s KBD_REPLY_ACK
  end.

Definition ps2_write_keyboard (s : PS2KbdState) (val : Z) : PS2KbdState :=
  match write_cmd (kcommon s) with
  | 0xF0 =>
      let s :=
        if val =? 0 then
          if scancode_set s =? 1 then ps2_put_keycode s 0x43
          else if scancode_set s =? 2 then ps2_put_keycode s 0x41
          else if scancode_set s =? 3 then ps2_put_keycode s 0x3f
          else s
        else
          let s := if (1 <=? val) && (val <=? 3) then s <| scancode_set := val |> else s in
          kbd_queue s KBD_REPLY_ACK in
      kbd_write_cmd s (-1)
  | 0xED | 0xF3 => kbd_write_cmd (kbd_queue s KBD_REPLY_ACK) (-1)
  | _ => kbd_command s val
  end.

Definition ps2_keyboard_set_translation (s : PS2KbdState) (mode : Z) : PS2KbdState :=
  s <| translate := mode |>.

Definition ps2_kbd_reset (s : PS2KbdState) : PS2KbdState :=
  mkKbd (ps2_common_reset (kcommon s)) 0 0 0.

(** ** Mouse *)

Definition mouse_queue (s : PS2MouseState) (b : Z) : PS2MouseState :=
  s <| common := ps2_queue (common s) b |>.
Definition mouse_write_cmd (s : PS2MouseState) (v : Z) : PS2MouseState :=
  s <| common := (common s) <| write_cmd := v |> |>.

Definition clamp (m x : Z) : Z := if m <? x then m else if x <? - m then - m else x.

Definition ps2_mouse_send_packet (s : PS2MouseState) : PS2MouseState :=
  let dx1 := clamp 127 (mouse_dx s) in
  let dy1 := clamp 127 (mouse_dy s) in
  let dz1 := mouse_dz s in
  let b := Z.lor (Z.lor (Z.lor 0x08 (Z.shiftl (b2z (dx1 <? 0)) 4)) (Z.shiftl (b2z (dy1 <? 0)) 5))
             (Z.land (mouse_buttons s) 0x07) in
  let s := mouse_queue s b in
  let s := mouse_queue s (Z.land dx1 0xff) in
  let s := mouse_queue s (Z.land dy1 0xff) in
  let '(s, dz1) :=
    match mouse_type s with
    | 3 => let dz1 := clamp 127 dz1 in (mouse_queue s (Z.land dz1 0xff), dz1)
    | 4 =>
        let dz1 := clamp 7 dz1 in
        (mouse_queue s
           (Z.lor (Z.land dz1 0x0f) (Z.shiftl (Z.land (mouse_buttons s) 0x18) 1)), dz1)
    | _ => (s, dz1)
    end in
  s <| mouse_dx := s32 (mouse_dx s - dx1) |> <| mouse_dy := s32 (mouse_dy s - dy1) |>
    <| mouse_dz := s32 (mouse_dz s - dz1) |>.

Definition no_motion (s : PS2MouseState) : bool :=
  (mouse_dx s =? 0) && (mouse_dy s =? 0) && (mouse_dz s =? 0).

(** The [for(;;)] loop, [None] when the fuel runs out. *)
Fixpoint packet_loop (fuel : nat) (s : PS2MouseState) : option PS2MouseState :=
  match fuel with
  | O => None
  | S fuel =>
      let s := ps2_mouse_send_packet s in
      if no_motion s then Some s else packet_loop fuel s
  end.

(** Each packet takes at least 7 off every coordinate that is not yet 0; see
    [packet_loop_terminates]. *)
Definition packet_fuel (s : PS2MouseState) : nat :=
  S (Z.to_nat (Z.abs (mouse_dx s) + Z.abs (mouse_dy s) + Z.abs (mouse_dz s))).

Definition ps2_mouse_event (s : PS2MouseState) (dx dy dz buttons_state : Z)
    : option PS2MouseState :=
  if negb (nz (Z.land (mouse_status s) MOUSE_STATUS_ENABLED)) then Some s
  else
    let s := s <| mouse_dx := s32 (mouse_dx s + dx) |> <| mouse_dy := s32 (mouse_dy s - dy) |>
               <| mouse_dz := s32 (mouse_dz s + dz) |> in
    if no_motion s && (mouse_buttons s =? buttons_state) then Some s
    else
      let s := s <| mouse_buttons := u8 buttons_state |> in
      if negb (nz (Z.land (mouse_status s) MOUSE_STATUS_REMOTE)) &&
         (count (queue (common s)) <? PS2_QUEUE_SIZE - 16)
      then packet_loop (packet_fuel s) s
      else Some s.

Definition ps2_mouse_fake_event (s : PS2MouseState) : option PS2MouseState :=
  ps2_mouse_event s 1 0 0 0.

Definition mouse_command (s : PS2MouseState) (val : Z) : PS2MouseState :=
  match val with
  | 0xE6 => mouse_queue (s <| mouse_status :=
                u8 (Z.land (mouse_status s) (Z.lnot MOUSE_STATUS_SCALE21)) |>) AUX_ACK
  | 0xE7 => mouse_queue (s <| mouse_status :=
                u8 (Z.lor (mouse_status s) MOUSE_STATUS_SCALE21) |>) AUX_ACK
  | 0xEA => mouse_queue (s <| mouse_status :=
                u8 (Z.land (mouse_status s) (Z.lnot MOUSE_STATUS_REMOTE)) |>) AUX_ACK
  | 0xEE => mouse_queue (s <| mouse_wrap := 1 |>) AUX_ACK
  | 0xF0 => mouse_queue (s <| mouse_status :=
                u8 (Z.lor (mouse_status s) MOUSE_STATUS_REMOTE) |>) AUX_ACK
  | 0xF2 => let s := mouse_queue s AUX_ACK in mouse_queue s (mouse_type s)
  | 0xE8 | 0xF3 => mouse_queue (mouse_write_cmd s val) AUX_ACK
  | 0xE9 =>
      let s := mouse_queue s AUX_ACK in
      let s := mouse_queue s (mouse_status s) in
      let s := mouse_queue s (mouse_resolution s) in
      mouse_queue s (mouse_sample_rate s)
  | 0xEB => ps2_mouse_send_packet (mouse_queue s AUX_ACK)
  | 0xF4 => mouse_queue (s <| mouse_status :=
                u8 (Z.lor (mouse_status s) MOUSE_STATUS_ENABLED) |>) AUX_ACK
  | 0xF5 => mouse_queue (s <| mouse_status :=
                u8 (Z.land (mouse_status s) (Z.lnot MOUSE_STATUS_ENABLED)) |>) AUX_ACK
  | 0xF6 => mouse_queue (s <| mouse_sample_rate := 100 |> <| mouse_resolution := 2 |>
                           <| mouse_status := 0 |>) AUX_ACK
  | 0xFF =>
      let s := s <| mouse_sample_rate := 100 |> <| mouse_resolution := 2 |>
                 <| mouse_status := 0 |> <| mouse_type := 0 |> in
      let s := mouse_queue s AUX_ACK in
      let s := mouse_queue s 0xaa in
      mouse_queue s (mouse_type s)
  | _ => s
  end.

(** The detection of IMPS/2 and IMEX drivers by their sample rate sequence. *)
Definition detect (s : PS2MouseState) (val : Z) : PS2MouseState :=
  match mouse_detect_state s with
  | 1 =>
      if val =? 100 then s <| mouse_detect_state := 2 |>
      else if val =? 200 then s <| mouse_detect_state := 3 |>
      else s <| mouse_detect_state := 0 |>
  | 2 => (if val =? 80 then s <| mouse_type := 3 |> else s) <| mouse_detect_state := 0 |>
  | 3 => (if val =? 80 then s <| mouse_type := 4 |> else s) <| mouse_detect_state := 0 |>
  | _ => if val =? 200 then s <| mouse_detect_state := 1 |> else s
  end.

Definition ps2_write_mouse (s : PS2MouseState) (val : Z) : PS2MouseState :=
  match write_cmd (common s) with
  | 0xF3 =>
      let s := s <| mouse_sample_rate := u8 val |> in
      let s := detect s val in
      mouse_write_cmd (mouse_queue s AUX_ACK) (-1)
  | 0xE8 =>
      mouse_write_cmd (mouse_queue (s <| mouse_resolution := u8 val |>) AUX_ACK) (-1)
  | _ =>
      if nz (mouse_wrap s) && (val =? AUX_RESET_WRAP) then
        mouse_queue (s <| mouse_wrap := 0 |>) AUX_ACK
      else if nz (mouse_wrap s) && negb (val =? AUX_RESET) then mouse_queue s val
      else mouse_command s val
  end.

Definition ps2_mouse_reset (s : PS2MouseState) : PS2MouseState :=
  mkMouse (ps2_common_reset (common s)) 0 0 0 0 0 0 0 0 0 0.

(** Zeroed memory. *)
Definition ps2_zero : PS2State := mkPS2 (mkQueue (replicate 256 0) 0 0 0) 0 [].
Definition ps2_kbd_init : PS2KbdState := mkKbd ps2_zero 0 0 2.
Definition ps2_mouse_init : PS2MouseState := mkMouse ps2_zero 0 0 0 0 0 0 0 0 0 0.

(** ** Saved state *)

Definition in_queue {A : Type} (fld : PS2Queue -> A) (s : PS2State) : A := fld (queue s).
#[export] Instance in_queue_setter {A : Type} (fld : PS2Queue -> A) `{!FieldSetter fld}
    : FieldSetter (in_queue fld) :=
  MkSetter (in_queue fld) (fun g s => s <| queue := set_field fld g (queue s) |>).

Section Vmstate.
Context {F : Type} `{!ByteStream F}.

Definition vmstate_ps2_common : VMStateDescription F PS2State :=
  mkVMSD "PS2 Common State"%string 3 2 2 None None None None None
    [VMSTATE_INT32 write_cmd; VMSTATE_INT32 (in_queue rptr); VMSTATE_INT32 (in_queue wptr);
     VMSTATE_INT32 (in_queue count); VMSTATE_BUFFER (in_queue data) 256].

Definition ps2_kbd_post_load (s : PS2KbdState) (version : Z) : Z * PS2KbdState :=
  (0, if version =? 2 then s <| scancode_set := 2 |> else s).

Definition vmstate_ps2_keyboard : VMStateDescription F PS2KbdState :=
  mkVMSD "ps2kbd"%string 3 2 2 None None (Some ps2_kbd_post_load) None None
    [VMSTATE_STRUCT kcommon 0 vmstate_ps2_common; VMSTATE_INT32 scan_enabled;
     VMSTATE_INT32 translate; VMSTATE_INT32_V scancode_set 3].

Definition vmstate_ps2_mouse : VMStateDescription F PS2MouseState :=
  mkVMSD "ps2mouse"%string 2 2 2 None None None None None
    [VMSTATE_STRUCT common 0 vmstate_ps2_common; VMSTATE_UINT8 mouse_status;
     VMSTATE_UINT8 mouse_resolution; VMSTATE_UINT8 mouse_sample_rate; VMSTATE_UINT8 mouse_wrap;
     VMSTATE_UINT8 mouse_type; VMSTATE_UINT8 mouse_detect_state; VMSTATE_INT32 mouse_dx;
     VMSTATE_INT32 mouse_dy; VMSTATE_INT32 mouse_dz; VMSTATE_UINT8 mouse_buttons].

End Vmstate.


(** ** The ring as a bounded FIFO *)

Record queue_ok (q : PS2Queue) : Prop := {
  qo_len : length (data q) = 256%nat;
  qo_bytes : Forall (range 8) (data q);
  qo_rptr : 0 <= rptr q < 256;
  qo_count : 0 <= count q <= 256;
  qo_wptr : wptr q = (rptr q + count q) mod 256
}.

(** The queued bytes, oldest first. *)
Definition slot (q : PS2Queue) (i : nat) : Z := aget 0 (data q) ((rptr q + Z.of_nat i) mod 256).
Definition contents (q : PS2Queue) : list Z := map (slot q) (seq 0 (Z.to_nat (count q))).

(** The byte an empty queue repeats. *)
Definition last_byte (q : PS2Queue) : Z :=
  aget 0 (data q) (if rptr q - 1 <? 0 then PS2_QUEUE_SIZE - 1 else rptr q - 1).

(** The controller is told whether bytes are waiting: the latest level, or
    [b] before the first call. *)
Definition ps2_wired (b : Z) (s : PS2State) : Prop :=
  queue_ok (queue s) /\ hd b (irq_log s) = b2z (negb (count (queue s) =? 0)).
Notation ps2_inv := (ps2_wired 0).

Lemma wrap_inc x : 0 <= x < 256 -> (if x + 1 =? PS2_QUEUE_SIZE then 0 else x + 1) = (x + 1) mod 256.
Proof.
  intros Hx. unfold PS2_QUEUE_SIZE. destruct (Z.eqb_spec (x + 1) 256) as [->|]; [done|].
  rewrite Z.mod_small; lia.
Qed.

Lemma wptr_range q : queue_ok q -> 0 <= wptr q < 256.
Proof. intros []. rewrite qo_wptr0. apply Z.mod_pos_bound. lia. Qed.

Lemma mod256_inj r i j : 0 <= i < 256 -> 0 <= j < 256 -> (r + i) mod 256 = (r + j) mod 256 -> i = j.
Proof.
  intros Hi Hj E. pose proof (Z.div_mod (r + i) 256 ltac:(lia)).
  pose proof (Z.div_mod (r + j) 256 ltac:(lia)). lia.
Qed.

Lemma contents_length q : queue_ok q -> Z.of_nat (length (contents q)) = count q.
Proof. intros H. unfold contents. rewrite length_map, length_seq. destruct H. lia. Qed.

Lemma queue_put lvl s b :
  ps2_wired lvl s -> count (queue s) < 256 ->
  ps2_wired lvl (ps2_queue s b) /\
  contents (queue (ps2_queue s b)) = contents (queue s) ++ [u8 b].
Proof.
  intros [Hq Hi] Hc. pose proof (wptr_range _ Hq) as Hw. unfold ps2_queue.
  set (q := queue s) in *. pose proof Hq as [Hl Hb Hr Hcn Hwp].
  destruct (Z.leb_spec PS2_QUEUE_SIZE (count q)); [unfold PS2_QUEUE_SIZE in *; lia|].
  set (q' := mkQueue (aset (data q) (wptr q) (u8 b)) (rptr q)
    (if wptr q + 1 =? PS2_QUEUE_SIZE then 0 else wptr q + 1) (count q + 1)).
  change (ps2_wired lvl (update_irq (s <| queue := q' |>) 1) /\ contents q' = contents q ++ [u8 b]).
  split; [split|].
  - constructor; cbn; [by rewrite aset_length|apply Forall_insert; [done|apply u8_range]|done|lia|].
    rewrite wrap_inc by done. rewrite Hwp, Z.add_mod_idemp_l by lia. f_equal. lia.
  - cbn. destruct (Z.eqb_spec (count q + 1) 0); [lia|done].
  - unfold contents. cbn [count q']. replace (Z.to_nat (count q + 1)) with (Z.to_nat (count q) + 1)%nat by lia.
    rewrite seq_app, map_app. f_equal.
    + apply map_ext_in. intros i Hin. apply in_seq in Hin. unfold slot, q'. cbn [data rptr].
      apply aget_aset_ne; [lia|apply Z.mod_pos_bound; lia|].
      rewrite Hwp. intros E. apply mod256_inj in E; lia.
    + cbn. f_equal. unfold slot, q'. cbn [data rptr].
      replace ((rptr q + Z.of_nat (Z.to_nat (count q))) mod 256) with (wptr q)
        by (rewrite Z2Nat.id by lia; done).
      apply aget_aset_eq. rewrite Hl. lia.
Qed.

Lemma queue_full s b : count (queue s) = 256 -> ps2_queue s b = s.
Proof. intros E. unfold ps2_queue. by rewrite E. Qed.

Lemma queue_get lvl s :
  ps2_wired lvl s -> ps2_wired lvl (ps2_read_data s).2 /\
  match contents (queue s) with
  | [] => ps2_read_data s = (last_byte (queue s), s)
  | x :: l => (ps2_read_data s).1 = x /\ contents (queue (ps2_read_data s).2) = l /\
              last_byte (queue (ps2_read_data s).2) = x
  end.
Proof.
  intros Hinv. pose proof (proj1 Hinv) as Hq.
  pose proof (contents_length _ Hq) as Hlen. unfold ps2_read_data.
  set (q := queue s) in Hq, Hlen |- *. pose proof Hq as [Hl Hb Hr Hcn Hwp].
  destruct (Z.eqb_spec (count q) 0) as [E|E].
  { split; [exact Hinv|]. destruct (contents q); [done|cbn in Hlen; lia]. }
  set (q' := mkQueue (data q) (if rptr q + 1 =? PS2_QUEUE_SIZE then 0 else rptr q + 1) (wptr q)
    (count q - 1)).
  set (s' := update_irq (update_irq (s <| queue := q' |>) 0) (b2z (negb (count q - 1 =? 0)))).
  change (ps2_wired lvl s' /\
    match contents q with [] => (aget 0 (data q) (rptr q), s') = (last_byte q, s)
    | x :: l => aget 0 (data q) (rptr q) = x /\ contents q' = l /\ last_byte q' = x end).
  assert (Er : rptr q' = (rptr q + 1) mod 256) by (unfold q'; cbn; by apply wrap_inc).
  assert (Ec : contents q = aget 0 (data q) (rptr q) :: contents q').
  { unfold contents. cbn [count q'].
    replace (Z.to_nat (count q)) with (S (Z.to_nat (count q - 1))) by lia.
    cbn [seq map]. f_equal.
    - unfold slot. f_equal. rewrite Z.add_0_r. apply Z.mod_small. lia.
    - rewrite <- seq_shift, map_map. apply map_ext_in. intros i _. unfold slot. rewrite Er.
      cbn [data q']. f_equal. rewrite Z.add_mod_idemp_l by lia. f_equal. lia. }
  split; [split|].
  - constructor; [done|done| |cbn; lia|].
    + change (0 <= rptr q' < 256). rewrite Er. apply Z.mod_pos_bound. lia.
    + change (wptr q' = (rptr q' + count q') mod 256). rewrite Er. cbn [wptr count q'].
      rewrite Z.add_mod_idemp_l, Hwp by lia. f_equal. lia.
  - done.
  - rewrite Ec. split; [done|]. split; [done|]. unfold last_byte. cbn [data q' rptr].
    f_equal. unfold PS2_QUEUE_SIZE. destruct (Z.eqb_spec (rptr q + 1) 256).
    + destruct (Z.ltb_spec (0 - 1) 0); lia.
    + destruct (Z.ltb_spec (rptr q + 1 - 1) 0); lia.
Qed.

(** The abstract queue: at most 256 bytes, further ones dropped; reading an
    empty queue repeats the last byte read. *)
Inductive qop := Put (b : Z) | Get.

Definition fifo_step (st : list Z * Z) (o : qop) : (list Z * Z) * option Z :=
  match o, st with
  | Put b, (l, last) => ((if 256 <=? Z.of_nat (length l) then l else l ++ [u8 b], last), None)
  | Get, ([], last) => (([], last), Some last)
  | Get, (x :: l, _) => ((l, x), Some x)
  end.

Fixpoint fifo_run (st : list Z * Z) (os : list qop) : list (option Z) :=
  match os with
  | [] => []
  | o :: os => let '(st, r) := fifo_step st o in r :: fifo_run st os
  end.

Definition ps2_step (s : PS2State) (o : qop) : PS2State * option Z :=
  match o with
  | Put b => (ps2_queue s b, None)
  | Get => let '(v, s) := ps2_read_data s in (s, Some v)
  end.

Fixpoint ps2_run (s : PS2State) (os : list qop) : PS2State * list (option Z) :=
  match os with
  | [] => (s, [])
  | o :: os =>
      let '(s, r) := ps2_step s o in
      let '(s, rs) := ps2_run s os in (s, r :: rs)
  end.

(** [st] describes [s]: the queued bytes, and the last byte read once they run
    out. *)
Definition fifo_rel (s : PS2State) (st : list Z * Z) : Prop :=
  ps2_inv s /\ contents (queue s) = st.1 /\ (st.1 = [] -> last_byte (queue s) = st.2).

Lemma fifo_simulation s st o :
  fifo_rel s st ->
  fifo_rel (ps2_step s o).1 (fifo_step st o).1 /\ (ps2_step s o).2 = (fifo_step st o).2.
Proof.
  intros (Hi & Hc & Hlast). destruct st as [l last], o as [b|]; cbn in Hc, Hlast.
  - pose proof (contents_length _ (proj1 Hi)) as Hlen. rewrite Hc in Hlen.
    cbn [ps2_step fifo_step fst snd]. split; [|done].
    destruct (Z.leb_spec 256 (Z.of_nat (length l))).
    + rewrite queue_full; [done|]. destruct Hi as [[ ] _]. lia.
    + destruct (queue_put 0 s b Hi) as [H1 H2]; [lia|]. split; [done|]. cbn.
      rewrite H2, Hc. split; [done|]. by destruct l.
  - destruct (queue_get 0 s Hi) as [H1 H2]. rewrite Hc in H2.
    unfold ps2_step. destruct l as [|x l].
    + rewrite H2. cbn. rewrite Hlast by done. split; [|done]. split; [done|]. auto.
    + destruct H2 as (E1 & E2 & E3). destruct (ps2_read_data s) as [v s']. cbn in *. subst v.
      done.
Qed.

Lemma fifo_sim_run os s st :
  fifo_rel s st -> (ps2_run s os).2 = fifo_run st os /\ ps2_inv (ps2_run s os).1.
Proof.
  revert s st. induction os as [|o os IH]; intros s st H; [by split; [|apply H]|].
  destruct (fifo_simulation s st o H) as [H1 H2]. cbn.
  destruct (ps2_step s o) as [s1 r1], (fifo_step st o) as [st1 r2]. cbn in H1, H2. subst r2.
  destruct (IH s1 st1 H1) as [I1 I2]. destruct (ps2_run s1 os) as [s2 rs]. cbn in *.
  by rewrite I1.
Qed.

(** C39: the PS/2 ring implements a bounded FIFO.  For every sequence of queued
    and read bytes, from any state of the ring, the bytes read are those of the
    abstract queue of at most 256 bytes (bytes beyond that are dropped, reading
    an empty queue repeats the last byte); and after the sequence the level
    last given to [update_irq] tells whether bytes are waiting. *)
Theorem ps2_queue_refines_fifo s os :
  ps2_inv s ->
  (ps2_run s os).2 = fifo_run (contents (queue s), last_byte (queue s)) os /\
  let s' := (ps2_run s os).1 in
  hd 0 (irq_log s') = b2z (negb (count (queue s') =? 0)).
Proof.
  intros H. destruct (fifo_sim_run os s (contents (queue s), last_byte (queue s))) as [E I].
  - split; [done|]. done.
  - split; [done|]. apply I.
Qed.

Lemma zero_inv : ps2_inv ps2_zero.
Proof.
  split; [|done]. constructor; [reflexivity| |cbn; lia|cbn; lia|reflexivity].
  apply (Forall_replicate (range 8) 256). unfold range. lia.
Qed.

Lemma ps2_queue_refines_fifo_witness :
  (ps2_run ps2_zero [Put 7; Put 9; Get; Get; Get]).2 = [None; None; Some 7; Some 9; Some 9].
Proof.
  rewrite (proj1 (ps2_queue_refines_fifo ps2_zero [Put 7; Put 9; Get; Get; Get] zero_inv)).
  vm_compute. reflexivity.
Defined.


(** ** Mouse packets *)

Definition int32_val (x : Z) : Prop := - 2 ^ 31 <= x < 2 ^ 31.

(** The deltas fit their type. *)
Definition deltas_ok (s : PS2MouseState) : Prop :=
  int32_val (mouse_dx s) /\ int32_val (mouse_dy s) /\ int32_val (mouse_dz s).

(** The wheel movement one packet reports. *)
Definition dz_part (s : PS2MouseState) : Z :=
  match mouse_type s with 3 => clamp 127 (mouse_dz s) | 4 => clamp 7 (mouse_dz s) | _ => mouse_dz s end.

Lemma type_view t :
  t = 3 \/ t = 4 \/ forall (A : Type) (a b c : A), match t with 3 => a | 4 => b | _ => c end = c.
Proof.
  destruct (decide (t = 3)), (decide (t = 4)); auto. right. right. intros A a b c.
  destruct t as [|p|p]; try done. do 3 (destruct p as [p|p|]; try done).
Qed.

Lemma dz_part_cases s :
  dz_part s = mouse_dz s \/ exists m, 0 < m <= 127 /\ dz_part s = clamp m (mouse_dz s).
Proof.
  unfold dz_part.
  repeat (match goal with |- context [match ?x with _ => _ end] => destruct x end);
    first [by left | right; by exists 127 | right; by exists 7].
Qed.

(** What is left of a delta after a packet. *)
Lemma left_clamp m x :
  0 < m <= 127 -> int32_val x ->
  int32_val (x - clamp m x) /\ Z.abs (x - clamp m x) <= Z.abs x /\
  (x <> 0 -> Z.abs (x - clamp m x) < Z.abs x).
Proof.
  unfold int32_val, clamp. intros Hm Hx.
  destruct (Z.ltb_spec m x); [lia|]. destruct (Z.ltb_spec x (- m)); lia.
Qed.

Lemma left_dz s :
  int32_val (mouse_dz s) ->
  int32_val (mouse_dz s - dz_part s) /\ Z.abs (mouse_dz s - dz_part s) <= Z.abs (mouse_dz s) /\
  (mouse_dz s <> 0 -> Z.abs (mouse_dz s - dz_part s) < Z.abs (mouse_dz s)).
Proof.
  intros Hz. destruct (dz_part_cases s) as [-> | (m & Hm & ->)]; [|by apply left_clamp].
  rewrite Z.sub_diag. unfold int32_val. lia.
Qed.

(** The wheel byte, when the mouse type has one. *)
Definition wheel_byte (s : PS2MouseState) : option Z :=
  match mouse_type s with
  | 3 => Some (Z.land (clamp 127 (mouse_dz s)) 0xff)
  | 4 => Some (Z.lor (Z.land (clamp 7 (mouse_dz s)) 0x0f)
                 (Z.shiftl (Z.land (mouse_buttons s) 0x18) 1))
  | _ => None
  end.

Definition head_byte (s : PS2MouseState) : Z :=
  Z.lor (Z.lor (Z.lor 0x08 (Z.shiftl (b2z (clamp 127 (mouse_dx s) <? 0)) 4))
    (Z.shiftl (b2z (clamp 127 (mouse_dy s) <? 0)) 5)) (Z.land (mouse_buttons s) 0x07).

(** The bytes of the packet. *)
Definition packet (s : PS2MouseState) : list Z :=
  [head_byte s; Z.land (clamp 127 (mouse_dx s)) 0xff; Z.land (clamp 127 (mouse_dy s)) 0xff]
  ++ match wheel_byte s with Some b => [b] | None => [] end.

Definition queue_all (s : PS2State) (bs : list Z) : PS2State := foldl ps2_queue s bs.

Lemma send_packet_spec s :
  deltas_ok s ->
  ps2_mouse_send_packet s =
    s <| common := queue_all (common s) (packet s) |>
      <| mouse_dx := mouse_dx s - clamp 127 (mouse_dx s) |>
      <| mouse_dy := mouse_dy s - clamp 127 (mouse_dy s) |>
      <| mouse_dz := mouse_dz s - dz_part s |>.
Proof.
  intros (Hx & Hy & Hz).
  destruct (left_clamp 127 (mouse_dx s) ltac:(lia) Hx) as [Lx _].
  destruct (left_clamp 127 (mouse_dy s) ltac:(lia) Hy) as [Ly _].
  destruct (left_dz s Hz) as [Lz _]. unfold int32_val in Lx, Ly, Lz.
  rewrite <- (s32_small (mouse_dx s - _)) by exact Lx.
  rewrite <- (s32_small (mouse_dy s - _)) by exact Ly.
  rewrite <- (s32_small (mouse_dz s - _)) by exact Lz.
  unfold packet, wheel_byte, dz_part, ps2_mouse_send_packet.
  assert (Ht : forall b1 b2 b3,
    mouse_type (mouse_queue (mouse_queue (mouse_queue s b1) b2) b3) = mouse_type s) by done.
  rewrite Ht. unfold mouse_queue, queue_all, head_byte.
  destruct (type_view (mouse_type s)) as [-> | [-> | Hd]]; rewrite ?Hd;
    cbn -[ps2_queue clamp]; reflexivity.
Qed.

(** The remaining movement. *)
Definition motion (s : PS2MouseState) : Z :=
  Z.abs (mouse_dx s) + Z.abs (mouse_dy s) + Z.abs (mouse_dz s).

Lemma send_packet_progress s :
  deltas_ok s ->
  let s' := ps2_mouse_send_packet s in
  deltas_ok s' /\ motion s' <= motion s /\ (motion s <> 0 -> motion s' < motion s).
Proof.
  intros H. rewrite send_packet_spec by done. destruct H as (Hx & Hy & Hz).
  destruct (left_clamp 127 (mouse_dx s) ltac:(lia) Hx) as (Lx & Ax & Bx).
  destruct (left_clamp 127 (mouse_dy s) ltac:(lia) Hy) as (Ly & Ay & By).
  destruct (left_dz s Hz) as (Lz & Az & Bz).
  split; [done|]. unfold motion. cbn. lia.
Qed.

Lemma no_motion_iff s : no_motion s = true <-> motion s = 0.
Proof. unfold no_motion, motion. rewrite !andb_true_iff, !Z.eqb_eq. lia. Qed.

Lemma packet_loop_terminates fuel s :
  deltas_ok s -> motion s < Z.of_nat fuel ->
  exists s', packet_loop fuel s = Some s' /\ no_motion s' = true.
Proof.
  revert s. induction fuel as [|fuel IH]; intros s Hd Hf; [unfold motion in Hf; lia|].
  cbn [packet_loop]. destruct (send_packet_progress s Hd) as (Hd' & Hle & Hlt).
  destruct (no_motion (ps2_mouse_send_packet s)) eqn:E; [eauto|].
  apply IH; [done|]. destruct (Z.eq_dec (motion s) 0) as [E0|]; [|lia].
  assert (motion (ps2_mouse_send_packet s) = 0) by (unfold motion in *; lia).
  apply no_motion_iff in H. congruence.
Qed.

(** the packet loop of [ps2_mouse_event] ends: for every state and every
    event, the model's fuel suffices, and when the mouse is enabled, not in
    remote mode, with room in its queue, and there is something to report, all of
    the movement has been handed over when the event returns. *)
Theorem ps2_mouse_event_terminates s dx dy dz buttons :
  exists s', ps2_mouse_event s dx dy dz buttons = Some s' /\
    (nz (Z.land (mouse_status s) MOUSE_STATUS_ENABLED) = true ->
     nz (Z.land (mouse_status s) MOUSE_STATUS_REMOTE) = false ->
     count (queue (common s)) < 240 -> no_motion s' = true).
Proof.
  unfold ps2_mouse_event.
  destruct (nz (Z.land (mouse_status s) MOUSE_STATUS_ENABLED)); cbn [negb]; [|by exists s].
  set (t := s <| mouse_dx := s32 (mouse_dx s + dx) |> <| mouse_dy := s32 (mouse_dy s - dy) |>
    <| mouse_dz := s32 (mouse_dz s + dz) |>).
  assert (Ht : deltas_ok t) by (repeat split; apply s32_range).
  destruct (no_motion t && (mouse_buttons t =? buttons)) eqn:E.
  { exists t. split; [done|]. intros _ _ _. by apply andb_prop in E as [-> _]. }
  set (u := t <| mouse_buttons := u8 buttons |>).
  change (mouse_status u) with (mouse_status s). change (common u) with (common s).
  destruct (nz (Z.land (mouse_status s) MOUSE_STATUS_REMOTE)); cbn [negb andb]; [by exists u|].
  destruct (Z.ltb_spec (count (queue (common s))) (PS2_QUEUE_SIZE - 16)).
  - destruct (packet_loop_terminates (packet_fuel u) u Ht) as (s' & -> & Hn); [|by eauto].
    unfold packet_fuel. fold (motion u). assert (0 <= motion u) by (unfold motion; lia). lia.
  - eexists. split; [done|]. unfold PS2_QUEUE_SIZE in *. lia.
Qed.

Lemma ps2_mouse_event_terminates_witness :
  let s := ps2_mouse_init <| mouse_status := 0x20 |> in
  exists s', ps2_mouse_event s 300 0 0 0 = Some s' /\ no_motion s' = true.
Proof.
  intros s. destruct (ps2_mouse_event_terminates s 300 0 0 0) as (s' & E & H).
  exists s'. split; [exact E|]. apply H; reflexivity.
Defined.


(** The driver's reading of the first three bytes: nine-bit two's complement
    movements and the three main buttons. *)
Definition decode (bs : list Z) : Z * Z * Z :=
  let b := nth 0 bs 0 in
  (nth 1 bs 0 - (if Z.testbit b 4 then 256 else 0),
   nth 2 bs 0 - (if Z.testbit b 5 then 256 else 0), Z.land b 7).

Lemma head_bits x y b :
  let h := Z.lor (Z.lor (Z.lor 8 (Z.shiftl (b2z x) 4)) (Z.shiftl (b2z y) 5)) (Z.land b 7) in
  Z.testbit h 4 = x /\ Z.testbit h 5 = y /\ Z.land h 7 = Z.land b 7.
Proof.
  cbv zeta. rewrite !Z.lor_spec, !Z.land_spec.
  change (Z.testbit 7 4) with false. change (Z.testbit 7 5) with false.
  change (Z.testbit 8 4) with false. change (Z.testbit 8 5) with false.
  split; [destruct x, y; rewrite andb_false_r; reflexivity|].
  split; [destruct x, y; rewrite andb_false_r; reflexivity|].
  rewrite Z.land_lor_distr_l, <- Z.land_assoc, Z.land_diag.
  replace (Z.land (Z.lor (Z.lor 8 (Z.shiftl (b2z x) 4)) (Z.shiftl (b2z y) 5)) 7) with 0
    by (destruct x, y; reflexivity).
  done.
Qed.

Lemma delta_byte x :
  Z.abs x <= 127 -> Z.land x 255 - (if x <? 0 then 256 else 0) = x.
Proof.
  intros Hx. rewrite land_ff. destruct (Z.ltb_spec x 0).
  - rewrite <- (Z.mod_unique x 256 (-1) (x + 256)); lia.
  - rewrite Z.mod_small; lia.
Qed.

Lemma clamp_bound m x : 0 < m -> Z.abs (clamp m x) <= m.
Proof.
  intros. unfold clamp. destruct (Z.ltb_spec m x); [lia|]. destruct (Z.ltb_spec x (- m)); lia.
Qed.

Lemma packet_range s b : In b (packet s) -> range 8 b.
Proof.
  assert (Hm : forall x m, 0 <= m < 256 -> range 8 (Z.land x m)).
  { intros x m Hm. rewrite Z.land_comm. apply land_range; [lia|]. unfold range. lia. }
  assert (Hw : match wheel_byte s with Some b => range 8 b | None => True end).
  { unfold wheel_byte.
    destruct (type_view (mouse_type s)) as [-> | [-> | Hd]]; [by apply Hm| |by rewrite Hd].
    apply lor_range; [lia|by apply Hm|]. rewrite Z.shiftl_mul_pow2 by lia.
    assert (range 5 (Z.land (mouse_buttons s) 24)).
    { rewrite Z.land_comm. apply land_range; [lia|]. unfold range. lia. }
    unfold range in *. lia. }
  assert (Hh : range 8 (head_byte s)).
  { unfold head_byte. apply lor_range; [lia| |by apply Hm].
    destruct (clamp 127 (mouse_dx s) <? 0), (clamp 127 (mouse_dy s) <? 0); cbn [b2z];
      (split; [discriminate | reflexivity]). }
  unfold packet. intros Hin. apply in_app_iff in Hin as [Hin|Hin].
  - destruct Hin as [<-|[<-|[<-|[]]]]; [done|by apply Hm..].
  - destruct (wheel_byte s); [|done]. by destruct Hin as [<-|[]].
Qed.

Lemma queue_all_contents bs s :
  ps2_inv s -> Forall (range 8) bs -> count (queue s) + Z.of_nat (length bs) <= 256 ->
  ps2_inv (queue_all s bs) /\ contents (queue (queue_all s bs)) = contents (queue s) ++ bs.
Proof.
  revert s. induction bs as [|b bs IH]; intros s Hi Hb Hc; cbn in *.
  { by rewrite (right_id_L [] (++)). }
  apply list.Forall_cons in Hb as [Hr Hb].
  destruct (queue_put 0 s b Hi) as [H1 H2]; [lia|]. rewrite (u8_small b) in H2 by done.
  assert (Hn : count (queue (ps2_queue s b)) = count (queue s) + 1).
  { rewrite <- !contents_length by (apply H1 || apply Hi). rewrite H2, length_app. cbn. lia. }
  destruct (IH (ps2_queue s b) H1 Hb) as [I1 I2]; [lia|]. split; [done|].
  unfold queue_all in I2. rewrite I2, H2, <- (assoc_L (++)). done.
Qed.

(** Mouse packets carry the movement.  With room for four bytes in the
    queue, [ps2_mouse_send_packet] appends one packet to the queued bytes, whose
    first three bytes decode (nine-bit two's complement) to the clamped
    movement and the main buttons, and takes exactly the reported amounts off
    the pending movement: what is reported plus what is left is what there was. *)
Theorem ps2_packet_roundtrip s :
  deltas_ok s -> ps2_inv (common s) -> count (queue (common s)) <= 252 ->
  let s' := ps2_mouse_send_packet s in
  exists p, contents (queue (common s')) = contents (queue (common s)) ++ p /\
    ps2_inv (common s') /\
    exists dx dy, decode p = (dx, dy, Z.land (mouse_buttons s) 7) /\
      Z.abs dx <= 127 /\ Z.abs dy <= 127 /\
      mouse_dx s' + dx = mouse_dx s /\ mouse_dy s' + dy = mouse_dy s.
Proof.
  intros Hd Hi Hc. rewrite send_packet_spec by done. cbv zeta. exists (packet s).
  destruct (queue_all_contents (packet s) (common s) Hi) as [I1 I2].
  - apply List.Forall_forall. apply packet_range.
  - unfold packet. rewrite length_app. destruct (wheel_byte s); cbn; lia.
  - split; [done|]. split; [done|].
    exists (clamp 127 (mouse_dx s)), (clamp 127 (mouse_dy s)).
    pose proof (clamp_bound 127 (mouse_dx s) ltac:(lia)).
    pose proof (clamp_bound 127 (mouse_dy s) ltac:(lia)).
    split; [|split; [done|split; [done|split; [change (mouse_dx s - clamp 127 (mouse_dx s) + clamp 127 (mouse_dx s) = mouse_dx s); lia|
      change (mouse_dy s - clamp 127 (mouse_dy s) + clamp 127 (mouse_dy s) = mouse_dy s); lia]]]].
    unfold decode. change (nth 0 (packet s) 0) with (head_byte s).
    change (nth 1 (packet s) 0) with (Z.land (clamp 127 (mouse_dx s)) 255).
    change (nth 2 (packet s) 0) with (Z.land (clamp 127 (mouse_dy s)) 255).
    destruct (head_bits (clamp 127 (mouse_dx s) <? 0) (clamp 127 (mouse_dy s) <? 0) (mouse_buttons s))
      as (B1 & B2 & B3).
    unfold head_byte. rewrite B1, B2, B3, !delta_byte by done. done.
Qed.

Lemma ps2_packet_roundtrip_witness :
  let s := ps2_mouse_init <| mouse_dx := -200 |> <| mouse_buttons := 1 |> in
  exists p dx dy, contents (queue (common (ps2_mouse_send_packet s))) = p /\
    decode p = (dx, dy, 1) /\ dx = -127.
Proof.
  intros s. destruct (ps2_packet_roundtrip s) as (p & E & _ & dx & dy & D & _ & _ & X & _).
  - repeat split; cbn; lia.
  - exact zero_inv.
  - cbn. lia.
  - exists p, dx, dy. split; [exact E|]. split; [exact D|]. change (-73 + dx = -200) in X. lia.
Defined.

(** A mouse in stream mode with 239 bytes waiting. *)
Definition busy_mouse : PS2MouseState :=
  ps2_mouse_init <| mouse_status := MOUSE_STATUS_ENABLED |>
    <| common := queue_all ps2_zero (replicate 239 0) |>.

(** [ps2_mouse_event] checks once for 16 free bytes and then queues as many
    packets as the movement takes.  With 239 bytes waiting, a movement of 800
    needs seven packets: the sixth is cut after two bytes and the seventh is
    dropped, so that the driver loses the packet boundaries, while the pending
    movement is zero, as if all of it had been delivered. *)
Theorem ps2_mouse_packet_truncated :
  exists s', ps2_mouse_event busy_mouse 800 0 0 0 = Some s' /\
    count (queue (common busy_mouse)) = 239 /\
    drop 239 (contents (queue (common s'))) =
      [8; 127; 0; 8; 127; 0; 8; 127; 0; 8; 127; 0; 8; 127; 0; 8; 127] /\
    no_motion s' = true.
Proof. eexists. split; [vm_compute; reflexivity|]. vm_compute. done. Qed.

(** The keyboard command "reset and disable scanning" (0xF5) records that
    scanning is off, but nothing reads the flag: a key pressed afterwards is
    queued exactly as if scanning were on. *)
Theorem ps2_disabled_keyboard_scans s v keycode :
  kcommon (ps2_put_keycode (s <| scan_enabled := v |>) keycode) = kcommon (ps2_put_keycode s keycode) /\
  let off := ps2_write_keyboard (ps2_kbd_init <| kcommon := ps2_common_reset ps2_zero |>)
               KBD_CMD_RESET_DISABLE in
  scan_enabled off = 0 /\ contents (queue (kcommon (ps2_put_keycode off 0x1e))) = [0xfa; 0x1c].
Proof.
  split; [|vm_compute; done]. unfold ps2_put_keycode.
  change (translate (s <| scan_enabled := v |>)) with (translate s).
  change (scancode_set (s <| scan_enabled := v |>)) with (scancode_set s).
  by repeat case_match; simplify_eq.
Qed.


(** ** The saved fields *)

Section Saved.
Context {F : Type} `{!ByteStream F} `{!ByteStreamLaws F}.

Definition common_fields : list (FieldOk (F := F) PS2State) :=
  [mkFieldOk (VMSTATE_INT32 write_cmd) int32_ok; mkFieldOk (VMSTATE_INT32 (in_queue rptr)) int32_ok;
   mkFieldOk (VMSTATE_INT32 (in_queue wptr)) int32_ok;
   mkFieldOk (VMSTATE_INT32 (in_queue count)) int32_ok;
   mkFieldOk (VMSTATE_BUFFER (in_queue data) 256) (buffer_ok 256)].

Lemma common_descr_ok : DescrOk (F := F) vmstate_ps2_common common_fields.
Proof. constructor; cbn; try done; lia. Qed.

Definition common_wf (s : PS2State) : Prop := queue_ok (queue s) /\ int32_val (write_cmd s).

Lemma common_valid s : common_wf s -> state_valid vmstate_ps2_common common_fields s.
Proof.
  intros [Hq Hw]. pose proof (wptr_range _ Hq). destruct Hq as [Hl Hb Hr Hc _].
  unfold state_valid, common_fields.
  do 4 (constructor; [split; [done|]; split; [cbn; lia|]; intros i _; split;
    [unfold int32_val in *; cbn; unfold in_queue; lia | by destruct s as [[ ] ? ?]] |]).
  constructor; [|constructor]. split; [done|]. split; [cbn; lia|]. intros i _.
  split; [|by destruct s as [[ ] ? ?]]. cbn. unfold in_queue. split; [done|]. by rewrite Hl.
Qed.

Definition kbd_fields : list (FieldOk (F := F) PS2KbdState) :=
  [mkFieldOk (VMSTATE_STRUCT kcommon 0 vmstate_ps2_common)
     (struct_ok vmstate_ps2_common common_fields common_descr_ok eq_refl);
   mkFieldOk (VMSTATE_INT32 scan_enabled) int32_ok; mkFieldOk (VMSTATE_INT32 translate) int32_ok;
   mkFieldOk (VMSTATE_INT32_V scancode_set 3) int32_ok].

Lemma kbd_descr_ok : DescrOk (F := F) vmstate_ps2_keyboard kbd_fields.
Proof. constructor; cbn; try done; lia. Qed.

Definition kbd_wf (s : PS2KbdState) : Prop :=
  common_wf (kcommon s) /\ int32_val (scan_enabled s) /\ int32_val (translate s) /\
  int32_val (scancode_set s).

Lemma kbd_state_valid s : kbd_wf s -> state_valid vmstate_ps2_keyboard kbd_fields s.
Proof.
  intros (Hc & ? & ? & ?). unfold state_valid, kbd_fields.
  constructor; [|repeat (constructor; [split; [done|]; split; [cbn; lia|]; intros i _; split;
    [done | by destruct s] |]); constructor].
  split; [done|]. split; [cbn; lia|]. intros i _. split; [by apply common_valid | by destruct s].
Qed.

(** Everything but the record of the interrupt callback comes back. *)
Lemma kbd_load_result s s0 :
  load_result (F := F) vmstate_ps2_keyboard kbd_fields s s0 =
    (0, s <| kcommon := (kcommon s) <| irq_log := irq_log (kcommon s0) |> |>).
Proof. by destruct s as [[[ ] ? ?] ? ? ?], s0 as [[[ ] ? ?] ? ? ?]. Qed.

Definition mouse_fields : list (FieldOk (F := F) PS2MouseState) :=
  [mkFieldOk (VMSTATE_STRUCT common 0 vmstate_ps2_common)
     (struct_ok vmstate_ps2_common common_fields common_descr_ok eq_refl);
   mkFieldOk (VMSTATE_UINT8 mouse_status) uint8_ok;
   mkFieldOk (VMSTATE_UINT8 mouse_resolution) uint8_ok;
   mkFieldOk (VMSTATE_UINT8 mouse_sample_rate) uint8_ok;
   mkFieldOk (VMSTATE_UINT8 mouse_wrap) uint8_ok; mkFieldOk (VMSTATE_UINT8 mouse_type) uint8_ok;
   mkFieldOk (VMSTATE_UINT8 mouse_detect_state) uint8_ok;
   mkFieldOk (VMSTATE_INT32 mouse_dx) int32_ok; mkFieldOk (VMSTATE_INT32 mouse_dy) int32_ok;
   mkFieldOk (VMSTATE_INT32 mouse_dz) int32_ok; mkFieldOk (VMSTATE_UINT8 mouse_buttons) uint8_ok].

Lemma mouse_descr_ok : DescrOk (F := F) vmstate_ps2_mouse mouse_fields.
Proof. constructor; cbn; try done; lia. Qed.

Record mouse_wf (s : PS2MouseState) : Prop := {
  mw_common : common_wf (common s);
  mw_status : range 8 (mouse_status s);
  mw_resolution : range 8 (mouse_resolution s);
  mw_sample : range 8 (mouse_sample_rate s);
  mw_wrap : range 8 (mouse_wrap s);
  mw_type : range 8 (mouse_type s);
  mw_detect : range 8 (mouse_detect_state s);
  mw_deltas : deltas_ok s;
  mw_buttons : range 8 (mouse_buttons s)
}.

Lemma mouse_state_valid s : mouse_wf s -> state_valid vmstate_ps2_mouse mouse_fields s.
Proof.
  intros [Hc ? ? ? ? ? ? (? & ? & ?) ?]. unfold state_valid, mouse_fields.
  constructor; [|repeat (constructor; [split; [done|]; split; [cbn; lia|]; intros i _; split;
    [done | by destruct s] |]); constructor].
  split; [done|]. split; [cbn; lia|]. intros i _. split; [by apply common_valid | by destruct s].
Qed.

Lemma mouse_load_result s s0 :
  load_result (F := F) vmstate_ps2_mouse mouse_fields s s0 =
    (0, s <| common := (common s) <| irq_log := irq_log (common s0) |> |>).
Proof.
  by destruct s as [[[ ] ? ?] ? ? ? ? ? ? ? ? ? ?], s0 as [[[ ] ? ?] ? ? ? ? ? ? ? ? ? ?].
Qed.

End Saved.

End Ps2.
