(* ===== verification/Ioport.v ===== *)
(** * I/O port dispatch

    src/s2e/qemu/ioport.c: the tables of read and write functions by access
    size and port, their registration, and the [cpu_in]/[cpu_out] entry points
    through which the guest reaches the devices.

    A device function is known by its pointer's identity; the interface
    [PortDevices] gives what each does to the state [W] of the machine. *)

From stdpp Require Import gmap.
From S2P Require Import Prelude.

Module Ioport.

Definition MAX_IOPORTS : Z := 65536.
Definition IOPORTS_MASK : Z := MAX_IOPORTS - 1.

(** What the devices provide: functions of their opaque pointer and the port. *)
Class PortDevices (W : Type) := {
  port_read : nat -> W -> Z -> Z -> Z * W;
  port_write : nat -> W -> Z -> Z -> Z -> W
}.

(** A table entry that is not null: one of the [default_ioport_*] functions or
    a device's. *)
Inductive PortFunc :=
| DefaultFunc
| DeviceFunc (h : nat).

(** The tables, by (size index, port); an absent key is a null pointer, and 0
    the null opaque pointer. *)
Record Ports := mkPorts {
  ioport_opaque : gmap Z Z;
  ioport_read_table : gmap (Z * Z) PortFunc;
  ioport_write_table : gmap (Z * Z) PortFunc
}.
#[export] Instance Ports_eta : RecordEta Ports :=
  fields mkPorts < ioport_opaque ; ioport_read_table ; ioport_write_table >.

Definition opaque_at (p : Ports) (address : Z) : Z := default 0 (ioport_opaque p !! address).

Section Dispatch.
Context {W : Type} `{!PortDevices W}.

(** [ioport_read(0, ..)] with [default_ioport_readb]. *)
Definition ioport_readb (p : Ports) (w : W) (address : Z) : Z * W :=
  match ioport_read_table p !! (0, address) with
  | Some (DeviceFunc h) => port_read h w (opaque_at p address) address
  | _ => (0xff, w)
  end.

Definition default_ioport_readw (p : Ports) (w : W) (address : Z) : Z * W :=
  let '(data, w) := ioport_readb p w address in
  let address := Z.land (address + 1) IOPORTS_MASK in
  let '(hi, w) := ioport_readb p w address in
  (Z.lor data (u32 (Z.shiftl hi 8)), w).

Definition ioport_read (p : Ports) (w : W) (index address : Z) : Z * W :=
  if index =? 0 then ioport_readb p w address
  else
    match ioport_read_table p !! (index, address) with
    | Some (DeviceFunc h) => port_read h w (opaque_at p address) address
    | _ => if index =? 1 then default_ioport_readw p w address else (0xffffffff, w)
    end.

Definition ioport_writeb (p : Ports) (w : W) (address data : Z) : W :=
  match ioport_write_table p !! (0, address) with
  | Some (DeviceFunc h) => port_write h w (opaque_at p address) address data
  | _ => w
  end.

Definition default_ioport_writew (p : Ports) (w : W) (address data : Z) : W :=
  let w := ioport_writeb p w address (Z.land data 0xff) in
  let address := Z.land (address + 1) IOPORTS_MASK in
  ioport_writeb p w address (Z.land (Z.shiftr data 8) 0xff).

Definition ioport_write (p : Ports) (w : W) (index address data : Z) : W :=
  if index =? 0 then ioport_writeb p w address data
  else
    match ioport_write_table p !! (index, address) with
    | Some (DeviceFunc h) => port_write h w (opaque_at p address) address data
    | _ => if index =? 1 then default_ioport_writew p w address data else w
    end.

Definition cpu_outb (p : Ports) (w : W) (addr val : Z) : W := ioport_write p w 0 addr (u8 val).
Definition cpu_outw (p : Ports) (w : W) (addr val : Z) : W := ioport_write p w 1 addr (u16 val).
Definition cpu_outl (p : Ports) (w : W) (addr val : Z) : W := ioport_write p w 2 addr (u32 val).
Definition cpu_inb (p : Ports) (w : W) (addr : Z) : Z * W :=
  let '(v, w) := ioport_read p w 0 addr in (u8 v, w).
Definition cpu_inw (p : Ports) (w : W) (addr : Z) : Z * W :=
  let '(v, w) := ioport_read p w 1 addr in (u16 v, w).
Definition cpu_inl (p : Ports) (w : W) (addr : Z) : Z * W :=
  let '(v, w) := ioport_read p w 2 addr in (u32 v, w).

End Dispatch.

(** ** Registration *)

Definition ioport_bsize (size : Z) : option Z :=
  if size =? 1 then Some 0 else if size =? 2 then Some 1 else if size =? 4 then Some 2 else None.

(** The body of the registration loops for port [i]. *)
Definition claim_opaque (p : Ports) (i opaque : Z) : Res Ports :=
  if negb (opaque_at p i =? 0) && negb (opaque_at p i =? opaque) then Fail HwError
  else Ok (p <| ioport_opaque := <[i := opaque]> (ioport_opaque p) |>).

Definition in_table (i : Z) : bool := (0 <=? i) && (i <? MAX_IOPORTS).

(** [for (i = start; i < start + length; i += size)], [n] rounds from [i]. *)
Fixpoint register_read_loop (n : nat) (i size bsize : Z) (h : nat) (opaque : Z) (p : Ports)
    : Res Ports :=
  match n with
  | O => Ok p
  | S n =>
      if in_table i then
        let p := p <| ioport_read_table := <[(bsize, i) := DeviceFunc h]> (ioport_read_table p) |> in
        let* p := claim_opaque p i opaque in
        register_read_loop n (i + size) size bsize h opaque p
      else Fail OutOfBounds
  end.

Fixpoint register_write_loop (n : nat) (i size bsize : Z) (h : nat) (opaque : Z) (p : Ports)
    : Res Ports :=
  match n with
  | O => Ok p
  | S n =>
      if in_table i then
        let p := p <| ioport_write_table := <[(bsize, i) := DeviceFunc h]> (ioport_write_table p) |> in
        let* p := claim_opaque p i opaque in
        register_write_loop n (i + size) size bsize h opaque p
      else Fail OutOfBounds
  end.

(** Number of rounds: [ceil(length / size)]. *)
Definition rounds (length size : Z) : nat := Z.to_nat ((length + size - 1) / size).

Definition register_ioport_read (p : Ports) (start length size : Z) (h : nat) (opaque : Z)
    : Res Ports :=
  match ioport_bsize size with
  | None => Fail HwError
  | Some bsize => register_read_loop (rounds length size) start size bsize h opaque p
  end.

Definition register_ioport_write (p : Ports) (start length size : Z) (h : nat) (opaque : Z)
    : Res Ports :=
  match ioport_bsize size with
  | None => Fail HwError
  | Some bsize => register_write_loop (rounds length size) start size bsize h opaque p
  end.

Definition unassign_one (p : Ports) (i : Z) : Ports :=
  p <| ioport_read_table := <[(0, i) := DefaultFunc]> (<[(1, i) := DefaultFunc]>
         (<[(2, i) := DefaultFunc]> (ioport_read_table p))) |>
    <| ioport_write_table := <[(0, i) := DefaultFunc]> (<[(1, i) := DefaultFunc]>
         (<[(2, i) := DefaultFunc]> (ioport_write_table p))) |>
    <| ioport_opaque := delete i (ioport_opaque p) |>.

Fixpoint isa_unassign_ioport (p : Ports) (start : Z) (length : nat) : Ports :=
  match length with
  | O => p
  | S n => isa_unassign_ioport (unassign_one p start) (start + 1) n
  end.

(** ** Properties *)

(** Registration of bytes: every port of the range is the device's, every
    other entry is as before. *)
Lemma register_write_spec n i h o p p' :
  register_write_loop n i 1 0 h o p = Ok p' ->
  (forall a, i <= a < i + Z.of_nat n ->
     ioport_write_table p' !! (0, a) = Some (DeviceFunc h) /\ ioport_opaque p' !! a = Some o) /\
  (forall b a, ~ (b = 0 /\ i <= a < i + Z.of_nat n) ->
     ioport_write_table p' !! (b, a) = ioport_write_table p !! (b, a)) /\
  (forall a, ~ (i <= a < i + Z.of_nat n) -> ioport_opaque p' !! a = ioport_opaque p !! a) /\
  ioport_read_table p' = ioport_read_table p.
Proof.
  revert i p. induction n as [|n IH]; intros i p; cbn [register_write_loop].
  { injection 1 as <-. repeat split; intros; try lia; done. }
  destruct (in_table i); [|done].
  set (p1 := p <| ioport_write_table := _ |>). intros H.
  apply res_bind_ok in H as (p2 & Hc & H).
  assert (Ho : ioport_opaque p2 !! i = Some o /\
    (forall a, a <> i -> ioport_opaque p2 !! a = ioport_opaque p !! a) /\
    ioport_write_table p2 = ioport_write_table p1 /\ ioport_read_table p2 = ioport_read_table p).
  { unfold claim_opaque in Hc. destruct (_ && _); [done|]. injection Hc as <-. cbn.
    split; [by rewrite lookup_insert_eq|]. split; [|done].
    intros a Ha. by rewrite lookup_insert_ne. }
  destruct Ho as (Ho1 & Ho2 & Ho3 & Ho4).
  destruct (IH _ _ H) as (I1 & I2 & I3 & I4). clear IH.
  assert (Hself : ioport_write_table p' !! (0, i) = Some (DeviceFunc h)).
  { rewrite I2 by lia. rewrite Ho3. cbn. by rewrite lookup_insert_eq. }
  split; [|split; [|split]].
  - intros a Ha. destruct (Z.eq_dec a i) as [->|]; [|apply I1; lia].
    split; [done|]. rewrite I3 by lia. done.
  - intros b a Ha. rewrite I2 by lia. rewrite Ho3. cbn.
    rewrite lookup_insert_ne; [done|]. intros Heq. injection Heq as <- <-. lia.
  - intros a Ha. rewrite I3 by lia. apply Ho2. lia.
  - by rewrite I4.
Qed.

Lemma rounds_bytes length : 0 <= length -> rounds length 1 = Z.to_nat length.
Proof. intros. unfold rounds. rewrite Z.div_1_r. f_equal. lia. Qed.

(** once a device has registered its byte ports, [cpu_outb] to a port of
    the range calls exactly its function with its opaque pointer and the byte
    written, and writes to every port outside the range do what they did; a
    16-bit write with no 16-bit function is the two byte writes, low byte first,
    wrapping at the last port. *)
Theorem ioport_write_dispatch {W : Type} `{!PortDevices W} p p' start length h o (w : W) :
  0 <= length -> register_ioport_write p start length 1 h o = Ok p' ->
  (forall a v, start <= a < start + length -> cpu_outb p' w a v = port_write h w o a (u8 v)) /\
  (forall a v, ~ (start <= a < start + length) -> cpu_outb p' w a v = cpu_outb p w a v) /\
  (forall a v, ioport_write_table p' !! (1, a) = None ->
     cpu_outw p' w a v =
       cpu_outb p' (cpu_outb p' w a (u16 v mod 256)) ((a + 1) mod MAX_IOPORTS) (u16 v / 256)).
Proof.
  intros Hl H. unfold register_ioport_write in H. cbn [ioport_bsize Z.eqb Pos.eqb] in H.
  rewrite rounds_bytes in H by done. apply register_write_spec in H as (H1 & H2 & H3 & _).
  rewrite Z2Nat.id in * by done.
  split; [|split].
  - intros a v Ha. destruct (H1 a Ha) as [E1 E2]. unfold cpu_outb, ioport_write, ioport_writeb. cbn [Z.eqb].
    rewrite E1. unfold opaque_at. by rewrite E2.
  - intros a v Ha. unfold cpu_outb, ioport_write, ioport_writeb. cbn [Z.eqb].
    rewrite H2 by tauto. unfold opaque_at. by rewrite H3.
  - intros a v E. unfold cpu_outw, ioport_write. cbn [Z.eqb Pos.eqb]. rewrite E.
    unfold default_ioport_writew, cpu_outb, ioport_write. cbn [Z.eqb].
    pose proof (u16_range v) as Hr. unfold range in Hr.
    assert (Eh : u16 v / 256 < 256) by (apply Z.div_lt_upper_bound; lia).
    pose proof (Z.div_pos (u16 v) 256 ltac:(lia) ltac:(lia)).
    pose proof (Z.mod_pos_bound (u16 v) 256 ltac:(lia)).
    rewrite !land_ff, Z.shiftr_div_pow2 by lia. change (2 ^ 8) with 256.
    change IOPORTS_MASK with (2 ^ 16 - 1). rewrite low_mask by lia.
    rewrite (u8_small (u16 v mod 256)), (u8_small (u16 v / 256)), (Z.mod_small (u16 v / 256) 256)
      by (unfold range; lia). done.
Qed.

(** A machine that logs the writes. *)
#[local] Instance log_devices : PortDevices (list (Z * Z * Z)) := {
  port_read := fun h w o a => (0, w);
  port_write := fun h w o a v => (o, a, v) :: w
}.

Lemma ioport_write_dispatch_witness :
  exists p', register_ioport_write (mkPorts ∅ ∅ ∅) 0x70 2 1 1 7 = Ok p' /\
    cpu_outb p' [] 0x71 0x126 = [(7, 0x71, 0x26)].
Proof.
  eexists. split; [vm_compute; reflexivity|].
  match goal with |- cpu_outb ?p _ _ _ = _ => pose (p' := p); change p with p' end.
  assert (H : register_ioport_write (mkPorts ∅ ∅ ∅) 0x70 2 1 1 7 = Ok p') by (vm_compute; reflexivity).
  rewrite (proj1 (ioport_write_dispatch _ p' 0x70 2 1 7 [] ltac:(lia) H) 0x71 0x126 ltac:(lia)).
  reflexivity.
Defined.

End Ioport.
