(* ===== verification/Pckbd.v ===== *)
(** * The 8042 keyboard controller

    src/s2e/qemu/hw/pckbd.c over Ps2.v: the command and data ports, the status
    and mode registers, and the [pending] mask that the [update_irq] callbacks
    of the two PS/2 devices keep.

    The devices call [kbd_update_kbd_irq]/[kbd_update_aux_irq] while they run
    and never look at the controller, so that a device operation is run first
    and the callbacks it made ([Ps2.irq_log]) are then replayed in order
    ([with_kbd], [with_mouse]).  [irq_kbd] and [irq_mouse] list the levels driven
    on the two lines, the latest first.  The A20 gate and the reset request are
    fields of the state. *)

From stdpp Require Import strings.
From S2P Require Import Prelude DevState Savevm Ps2.
#[local] Existing Instances Ps2.PS2Queue_eta Ps2.PS2State_eta Ps2.PS2KbdState_eta Ps2.PS2MouseState_eta.

Module Pckbd.

Definition KBD_STAT_OBF : Z := 0x01.
Definition KBD_STAT_SELFTEST : Z := 0x04.
Definition KBD_STAT_CMD : Z := 0x08.
Definition KBD_STAT_UNLOCKED : Z := 0x10.
Definition KBD_STAT_MOUSE_OBF : Z := 0x20.
Definition KBD_MODE_KBD_INT : Z := 0x01.
Definition KBD_MODE_MOUSE_INT : Z := 0x02.
Definition KBD_MODE_DISABLE_KBD : Z := 0x10.
Definition KBD_MODE_DISABLE_MOUSE : Z := 0x20.
Definition KBD_MODE_KCC : Z := 0x40.
Definition KBD_PENDING_KBD : Z := 1.
Definition KBD_PENDING_AUX : Z := 2.

Record KBDState := mkKBD {
  write_cmd : Z;
  status : Z;
  mode : Z;
  pending : Z;
  kbd : Ps2.PS2KbdState;
  mouse : Ps2.PS2MouseState;
  irq_kbd : list Z;
  irq_mouse : list Z;
  a20 : Z;
  reset_requested : bool
}.
#[export] Instance KBDState_eta : RecordEta KBDState :=
  fields mkKBD < write_cmd ; status ; mode ; pending ; kbd ; mouse ; irq_kbd ; irq_mouse ;
    a20 ; reset_requested >.

Definition kbd_update_irq (s : KBDState) : KBDState :=
  let s := s <| status := u8 (Z.land (status s) (Z.lnot (Z.lor KBD_STAT_OBF KBD_STAT_MOUSE_OBF))) |> in
  let '(s, irq_kbd_level, irq_mouse_level) :=
    if nz (pending s) then
      let s := s <| status := u8 (Z.lor (status s) KBD_STAT_OBF) |> in
      if pending s =? KBD_PENDING_AUX then
        let s := s <| status := u8 (Z.lor (status s) KBD_STAT_MOUSE_OBF) |> in
        (s, 0, if nz (Z.land (mode s) KBD_MODE_MOUSE_INT) then 1 else 0)
      else
        (s, if nz (Z.land (mode s) KBD_MODE_KBD_INT) && negb (nz (Z.land (mode s) KBD_MODE_DISABLE_KBD))
            then 1 else 0, 0)
    else (s, 0, 0) in
  s <| irq_kbd := irq_kbd_level :: irq_kbd s |> <| irq_mouse := irq_mouse_level :: irq_mouse s |>.

Definition kbd_update_kbd_irq (s : KBDState) (level : Z) : KBDState :=
  kbd_update_irq
    (if nz level then s <| pending := u8 (Z.lor (pending s) KBD_PENDING_KBD) |>
     else s <| pending := u8 (Z.land (pending s) (Z.lnot KBD_PENDING_KBD)) |>).

Definition kbd_update_aux_irq (s : KBDState) (level : Z) : KBDState :=
  kbd_update_irq
    (if nz level then s <| pending := u8 (Z.lor (pending s) KBD_PENDING_AUX) |>
     else s <| pending := u8 (Z.land (pending s) (Z.lnot KBD_PENDING_AUX)) |>).

(** Run a device operation, then the callbacks it made, oldest first. *)
Definition set_klog (k : Ps2.PS2KbdState) (l : list Z) : Ps2.PS2KbdState :=
  k <| Ps2.kcommon := (Ps2.kcommon k) <| Ps2.irq_log := l |> |>.
Definition set_mlog (m : Ps2.PS2MouseState) (l : list Z) : Ps2.PS2MouseState :=
  m <| Ps2.common := (Ps2.common m) <| Ps2.irq_log := l |> |>.

Definition with_kbd (s : KBDState) (f : Ps2.PS2KbdState -> Ps2.PS2KbdState) : KBDState :=
  let k := f (set_klog (kbd s) []) in
  foldl kbd_update_kbd_irq (s <| kbd := set_klog k [] |>) (rev (Ps2.irq_log (Ps2.kcommon k))).

Definition with_mouse (s : KBDState) (f : Ps2.PS2MouseState -> Ps2.PS2MouseState) : KBDState :=
  let m := f (set_mlog (mouse s) []) in
  foldl kbd_update_aux_irq (s <| mouse := set_mlog m [] |>) (rev (Ps2.irq_log (Ps2.common m))).

Definition kbd_read_status (s : KBDState) : Z := status s.

(** [kbd_queue] of pckbd.c. *)
Definition ctl_queue (s : KBDState) (b : Z) (aux : bool) : KBDState :=
  if aux then with_mouse s (fun m => Ps2.mouse_queue m b)
  else with_kbd s (fun k => Ps2.kbd_queue k b).

Definition kbd_write_command (s : KBDState) (val : Z) : KBDState :=
  match val with
  | 0x20 => ctl_queue s (mode s) false
  | 0x60 | 0xD2 | 0xD3 | 0xD4 | 0xD1 => s <| write_cmd := u8 val |>
  | 0xA7 => s <| mode := u8 (Z.lor (mode s) KBD_MODE_DISABLE_MOUSE) |>
  | 0xA8 => s <| mode := u8 (Z.land (mode s) (Z.lnot KBD_MODE_DISABLE_MOUSE)) |>
  | 0xA9 => ctl_queue s 0x00 false
  | 0xAA => ctl_queue (s <| status := u8 (Z.lor (status s) KBD_STAT_SELFTEST) |>) 0x55 false
  | 0xAB => ctl_queue s 0x00 false
  | 0xAD => kbd_update_irq (s <| mode := u8 (Z.lor (mode s) KBD_MODE_DISABLE_KBD) |>)
  | 0xAE => kbd_update_irq (s <| mode := u8 (Z.land (mode s) (Z.lnot KBD_MODE_DISABLE_KBD)) |>)
  | 0xC0 => ctl_queue s 0x00 false
  | 0xD0 =>
      let v := Z.lor 0x01 (u32 (Z.shiftl (a20 s) 1)) in
      let v := if nz (Z.land (status s) KBD_STAT_OBF) then Z.lor v 0x10 else v in
      let v := if nz (Z.land (status s) KBD_STAT_MOUSE_OBF) then Z.lor v 0x20 else v in
      ctl_queue s v false
  | 0xDF => s <| a20 := 1 |>
  | 0xDD => s <| a20 := 0 |>
  | 0xFE => s <| reset_requested := true |>
  | _ => s
  end.

Definition kbd_read_data (s : KBDState) : Z * KBDState :=
  if pending s =? KBD_PENDING_AUX then
    ((Ps2.ps2_read_data (Ps2.common (mouse s))).1,
     with_mouse s (fun m => m <| Ps2.common := (Ps2.ps2_read_data (Ps2.common m)).2 |>))
  else
    ((Ps2.ps2_read_data (Ps2.kcommon (kbd s))).1,
     with_kbd s (fun k => k <| Ps2.kcommon := (Ps2.ps2_read_data (Ps2.kcommon k)).2 |>)).

Definition kbd_write_data (s : KBDState) (val : Z) : KBDState :=
  let s :=
    match write_cmd s with
    | 0 => with_kbd s (fun k => Ps2.ps2_write_keyboard k val)
    | 0x60 =>
        let s := s <| mode := u8 val |> in
        let s := with_kbd s (fun k =>
          Ps2.ps2_keyboard_set_translation k (b2z (nz (Z.land (mode s) KBD_MODE_KCC)))) in
        kbd_update_irq s
    | 0xD2 => ctl_queue s val false
    | 0xD3 => ctl_queue s val true
    | 0xD1 =>
        let s := s <| a20 := Z.land (Z.shiftr val 1) 1 |> in
        if negb (nz (Z.land val 1)) then s <| reset_requested := true |> else s
    | 0xD4 => with_mouse s (fun m => Ps2.ps2_write_mouse m val)
    | _ => s
    end in
  s <| write_cmd := 0 |>.

Definition kbd_reset (s : KBDState) : KBDState :=
  s <| mode := Z.lor KBD_MODE_KBD_INT KBD_MODE_MOUSE_INT |>
    <| status := Z.lor KBD_STAT_CMD KBD_STAT_UNLOCKED |>.

(** Events from the host, through the handlers the PS/2 devices register. *)
Definition key_event (s : KBDState) (keycode : Z) : KBDState :=
  with_kbd s (fun k => Ps2.ps2_put_keycode k keycode).
Definition mouse_event (s : KBDState) (dx dy dz buttons : Z) : KBDState :=
  with_mouse s (fun m => default m (Ps2.ps2_mouse_event m dx dy dz buttons)).

(** The reset handlers, in the order [i8042_initfn] registers them. *)
Definition system_reset (s : KBDState) : KBDState :=
  kbd_reset (with_mouse (with_kbd s Ps2.ps2_kbd_reset) Ps2.ps2_mouse_reset).

Definition i8042_initfn : KBDState :=
  mkKBD 0 0 0 0 Ps2.ps2_kbd_init Ps2.ps2_mouse_init [] [] 0 false.

Definition vmstate_kbd {F : Type} `{!ByteStream F} : VMStateDescription F KBDState :=
  mkVMSD "pckbd"%string 3 3 3 None None None None None
    [VMSTATE_UINT8 write_cmd; VMSTATE_UINT8 status; VMSTATE_UINT8 mode; VMSTATE_UINT8 pending].


(** ** The levels the devices report *)

(** Both operations on the ring keep the wiring. *)
Lemma queue_wired b s x : Ps2.ps2_wired b s -> Ps2.ps2_wired b (Ps2.ps2_queue s x).
Proof.
  intros H. destruct (Z.lt_ge_cases (Ps2.count (Ps2.queue s)) 256).
  - by apply Ps2.queue_put.
  - rewrite Ps2.queue_full; [done|]. destruct H as [[ ] _]. lia.
Qed.

Lemma read_wired b s : Ps2.ps2_wired b s -> Ps2.ps2_wired b (Ps2.ps2_read_data s).2.
Proof. intros H. by apply Ps2.queue_get. Qed.

Lemma reset_wired b s : Ps2.ps2_wired b s -> Ps2.ps2_wired b (Ps2.ps2_common_reset s).
Proof. intros [[ ] _]. split; [|done]. constructor; cbn; done || lia. Qed.

Definition kwired (b : Z) (k : Ps2.PS2KbdState) : Prop := Ps2.ps2_wired b (Ps2.kcommon k).
Definition mwired (b : Z) (m : Ps2.PS2MouseState) : Prop := Ps2.ps2_wired b (Ps2.common m).

Lemma kqueue_wired b k x : kwired b k -> kwired b (Ps2.kbd_queue k x).
Proof. apply queue_wired. Qed.
Lemma mqueue_wired b m x : mwired b m -> mwired b (Ps2.mouse_queue m x).
Proof. apply queue_wired. Qed.
Lemma kcmd_wired b k v : kwired b k -> kwired b (Ps2.kbd_write_cmd k v).
Proof. intros [H1 H2]. by split. Qed.
Lemma mcmd_wired b m v : mwired b m -> mwired b (Ps2.mouse_write_cmd m v).
Proof. intros [H1 H2]. by split. Qed.
Lemma kfields_wired b k k' : Ps2.kcommon k' = Ps2.kcommon k -> kwired b k -> kwired b k'.
Proof. unfold kwired. by intros ->. Qed.
Lemma mfields_wired b m m' : Ps2.common m' = Ps2.common m -> mwired b m -> mwired b m'.
Proof. unfold mwired. by intros ->. Qed.

(** Peel the operations off a device state, down to the hypothesis. *)
Ltac wired :=
  repeat first
    [ assumption
    | apply kqueue_wired | apply mqueue_wired | apply kcmd_wired | apply mcmd_wired
    | match goal with
      | H : kwired _ ?k |- kwired _ _ => apply (kfields_wired _ k); [reflexivity|]
      | H : mwired _ ?m |- mwired _ _ => apply (mfields_wired _ m); [reflexivity|]
      end ].

Lemma put_keycode_wired b k c : kwired b k -> kwired b (Ps2.ps2_put_keycode k c).
Proof. intros H. unfold Ps2.ps2_put_keycode. repeat case_match; simplify_eq; wired. Qed.

Lemma send_packet_wired b m : mwired b m -> mwired b (Ps2.ps2_mouse_send_packet m).
Proof.
  intros H. unfold Ps2.ps2_mouse_send_packet. cbv zeta.
  match goal with |- context [let '(_, _) := ?p in _] => destruct p as [t dz] eqn:E end.
  assert (Ht : mwired b t).
  { revert E.
    repeat (match goal with |- context [match ?x with _ => _ end] => destruct x end);
      injection 1 as <- <-; wired. }
  clear E. wired.
Qed.

Lemma packet_loop_wired b fuel m m' :
  mwired b m -> Ps2.packet_loop fuel m = Some m' -> mwired b m'.
Proof.
  revert m. induction fuel as [|fuel IH]; intros m H; cbn [Ps2.packet_loop]; [done|].
  pose proof (send_packet_wired b m H) as H'. case_match; [by injection 1 as <-|]. by apply IH.
Qed.

Lemma mouse_event_wired b m dx dy dz bs m' :
  mwired b m -> Ps2.ps2_mouse_event m dx dy dz bs = Some m' -> mwired b m'.
Proof.
  intros H. unfold Ps2.ps2_mouse_event. cbv zeta.
  repeat case_match; try (by injection 1 as <-; wired).
  intros E. eapply packet_loop_wired; [|exact E]. wired.
Qed.


(** Case analysis on a command byte. *)
Ltac cases_on_byte :=
  repeat (match goal with
    | |- context [match ?x with Z0 => _ | _ => _ end] => is_var x; destruct x
    | |- context [match ?x with xH => _ | _ => _ end] => is_var x; destruct x
    end).

Lemma kbd_command_wired b k v : kwired b k -> kwired b (Ps2.kbd_command k v).
Proof.
  intros H. unfold Ps2.kbd_command. cases_on_byte; cbv zeta; try case_match; wired.
Qed.

Lemma write_keyboard_wired b k v : kwired b k -> kwired b (Ps2.ps2_write_keyboard k v).
Proof.
  intros H. unfold Ps2.ps2_write_keyboard. generalize (Ps2.write_cmd (Ps2.kcommon k)). intros c.
  assert (Hcmd : kwired b (Ps2.kbd_command k v)) by by apply kbd_command_wired.
  assert (Hp : forall x, kwired b (Ps2.ps2_put_keycode k x)) by (intros; by apply put_keycode_wired).
  cases_on_byte; try exact Hcmd; cbv zeta; repeat case_match; wired; auto.
Qed.

Lemma mouse_command_wired b m v : mwired b m -> mwired b (Ps2.mouse_command m v).
Proof.
  intros H. unfold Ps2.mouse_command.
  assert (Hp : mwired b (Ps2.ps2_mouse_send_packet (Ps2.mouse_queue m Ps2.AUX_ACK)))
    by (apply send_packet_wired; wired).
  cases_on_byte; try exact Hp; cbv zeta; wired.
Qed.

Lemma detect_wired b m v : mwired b m -> mwired b (Ps2.detect m v).
Proof.
  intros H. unfold Ps2.detect. generalize (Ps2.mouse_detect_state m). intros c.
  cases_on_byte; repeat case_match; wired.
Qed.

Lemma write_mouse_wired b m v : mwired b m -> mwired b (Ps2.ps2_write_mouse m v).
Proof.
  intros H. unfold Ps2.ps2_write_mouse. generalize (Ps2.write_cmd (Ps2.common m)). intros c.
  assert (Hc : mwired b (Ps2.mouse_command m v)) by by apply mouse_command_wired.
  assert (Hd : mwired b (Ps2.detect (m <| Ps2.mouse_sample_rate := u8 v |>) v))
    by (apply detect_wired; wired).
  cases_on_byte; cbv zeta; repeat case_match; wired; auto.
Qed.

(** ** The controller invariant *)

Definition nonempty (s : Ps2.PS2State) : bool := negb (Ps2.count (Ps2.queue s) =? 0).

(** The status bits agree with [pending]. *)
Definition obf_ok (s : KBDState) : Prop :=
  Z.testbit (status s) 0 = nz (pending s) /\ Z.testbit (status s) 5 = (pending s =? 2).

Record ctl_inv (s : KBDState) : Prop := {
  ci_kbd : Ps2.queue_ok (Ps2.queue (Ps2.kcommon (kbd s)));
  ci_mouse : Ps2.queue_ok (Ps2.queue (Ps2.common (mouse s)));
  ci_pending : pending s = b2z (nonempty (Ps2.kcommon (kbd s))) + 2 * b2z (nonempty (Ps2.common (mouse s)));
  ci_obf : obf_ok s
}.

(** [kbd_update_irq] changes only the status and the lines. *)
Lemma update_irq_keeps s :
  let s' := kbd_update_irq s in
  pending s' = pending s /\ kbd s' = kbd s /\ mouse s' = mouse s /\ mode s' = mode s.
Proof. unfold kbd_update_irq. repeat case_match; simplify_eq; done. Qed.

Lemma update_irq_status s :
  status (kbd_update_irq s) =
    let st := u8 (Z.land (status s) (Z.lnot 0x21)) in
    if nz (pending s) then
      if pending s =? 2 then u8 (Z.lor (u8 (Z.lor st 1)) 0x20) else u8 (Z.lor st 1)
    else st.
Proof.
  unfold kbd_update_irq. cbn [pending set_field]. unfold KBD_PENDING_AUX.
  destruct (nz (pending s)); [destruct (pending s =? 2)|]; done.
Qed.

Lemma update_irq_obf s : obf_ok (kbd_update_irq s).
Proof.
  assert (T : forall x i, i = 0 \/ i = 5 -> Z.testbit (u8 (Z.land x (Z.lnot 0x21))) i = false).
  { intros x i Hi. unfold u8. rewrite testbit_mod_pow2, Z.land_spec by lia.
    destruct Hi as [-> | ->]; [change (Z.testbit (Z.lnot 0x21) 0) with false
                              |change (Z.testbit (Z.lnot 0x21) 5) with false];
      by rewrite !andb_false_r. }
  assert (S : forall x m i, 0 <= i < 8 ->
    Z.testbit (u8 (Z.lor x m)) i = Z.testbit x i || Z.testbit m i).
  { intros x m i Hi. unfold u8. rewrite testbit_mod_pow2, Z.lor_spec by lia.
    destruct (Z.ltb_spec i 8); [done|lia]. }
  pose proof (T (status s) 0 ltac:(lia)) as T0. pose proof (T (status s) 5 ltac:(lia)) as T5.
  unfold obf_ok. destruct (update_irq_keeps s) as (-> & _). rewrite update_irq_status.
  unfold nz. destruct (Z.eqb_spec (pending s) 0) as [E|E]; cbn [negb].
  - by rewrite T0, T5, E.
  - destruct (Z.eqb_spec (pending s) 2); rewrite !S, T0, T5 by lia; done.
Qed.

Lemma pending_bits x y lvl :
  let p := b2z x + 2 * b2z y in
  (if nz lvl then u8 (Z.lor p KBD_PENDING_KBD) else u8 (Z.land p (Z.lnot KBD_PENDING_KBD)))
    = b2z (nz lvl) + 2 * b2z y /\
  (if nz lvl then u8 (Z.lor p KBD_PENDING_AUX) else u8 (Z.land p (Z.lnot KBD_PENDING_AUX)))
    = b2z x + 2 * b2z (nz lvl).
Proof. destruct x, y, (nz lvl); done. Qed.

Lemma last_indep (l : list Z) z d d' : List.last (z :: l) d = List.last (z :: l) d'.
Proof. revert z. induction l as [|y l IH]; intros z; [done|]. apply (IH y). Qed.

Lemma last_level lvl (l : list Z) d :
  nz (List.last (lvl :: l) d) = nz (List.last l (b2z (nz lvl))).
Proof.
  destruct l as [|z l]; [cbn; by destruct (nz lvl)|]. f_equal.
  exact (last_indep l z d (b2z (nz lvl))).
Qed.

Lemma replay_kbd l s x y :
  pending s = b2z x + 2 * b2z y -> obf_ok s ->
  let s' := foldl kbd_update_kbd_irq s l in
  pending s' = b2z (nz (List.last l (b2z x))) + 2 * b2z y /\ obf_ok s' /\
  kbd s' = kbd s /\ mouse s' = mouse s.
Proof.
  revert s x. induction l as [|lvl l IH]; intros s x Hp Ho; cbn [foldl].
  { cbn. rewrite Hp. by destruct x. }
  set (t := if nz lvl then s <| pending := u8 (Z.lor (pending s) KBD_PENDING_KBD) |>
            else s <| pending := u8 (Z.land (pending s) (Z.lnot KBD_PENDING_KBD)) |>).
  assert (Et : pending t = b2z (nz lvl) + 2 * b2z y /\ kbd t = kbd s /\ mouse t = mouse s).
  { pose proof (proj1 (pending_bits x y lvl)) as B. rewrite <- Hp in B. unfold t.
    destruct (nz lvl); done. }
  change (kbd_update_kbd_irq s lvl) with (kbd_update_irq t).
  destruct (update_irq_keeps t) as (K1 & K2 & K3 & _). destruct Et as (E1 & E2 & E3).
  destruct (IH (kbd_update_irq t) (nz lvl)) as (I1 & I2 & I3 & I4); [congruence|apply update_irq_obf|].
  split; [|split; [done|split; congruence]]. rewrite I1. by rewrite last_level.
Qed.

Lemma replay_aux l s x y :
  pending s = b2z x + 2 * b2z y -> obf_ok s ->
  let s' := foldl kbd_update_aux_irq s l in
  pending s' = b2z x + 2 * b2z (nz (List.last l (b2z y))) /\ obf_ok s' /\
  kbd s' = kbd s /\ mouse s' = mouse s.
Proof.
  revert s y. induction l as [|lvl l IH]; intros s y Hp Ho; cbn [foldl].
  { cbn. rewrite Hp. by destruct y. }
  set (t := if nz lvl then s <| pending := u8 (Z.lor (pending s) KBD_PENDING_AUX) |>
            else s <| pending := u8 (Z.land (pending s) (Z.lnot KBD_PENDING_AUX)) |>).
  assert (Et : pending t = b2z x + 2 * b2z (nz lvl) /\ kbd t = kbd s /\ mouse t = mouse s).
  { pose proof (proj2 (pending_bits x y lvl)) as B. rewrite <- Hp in B. unfold t.
    destruct (nz lvl); done. }
  change (kbd_update_aux_irq s lvl) with (kbd_update_irq t).
  destruct (update_irq_keeps t) as (K1 & K2 & K3 & _). destruct Et as (E1 & E2 & E3).
  destruct (IH (kbd_update_irq t) (nz lvl)) as (I1 & I2 & I3 & I4); [congruence|apply update_irq_obf|].
  split; [|split; [done|split; congruence]]. rewrite I1. by rewrite last_level.
Qed.

Lemma last_rev (l : list Z) d : List.last (rev l) d = hd d l.
Proof. destruct l as [|x l]; cbn; [done|]. by rewrite List.last_last. Qed.


(** A keyboard operation that keeps its wiring keeps the invariant. *)
Lemma with_kbd_inv s f :
  ctl_inv s -> (forall b k, kwired b k -> kwired b (f k)) ->
  ctl_inv (with_kbd s f) /\ mouse (with_kbd s f) = mouse s /\
  kbd (with_kbd s f) = set_klog (f (set_klog (kbd s) [])) [].
Proof.
  intros [Hk Hm Hp Ho] Hf. unfold with_kbd. set (k := f (set_klog (kbd s) [])).
  assert (Hw : kwired (b2z (nonempty (Ps2.kcommon (kbd s)))) k) by (apply Hf; by split).
  destruct Hw as [Hq Hh].
  set (t := s <| kbd := set_klog k [] |>).
  destruct (replay_kbd (rev (Ps2.irq_log (Ps2.kcommon k))) t
    (nonempty (Ps2.kcommon (kbd s))) (nonempty (Ps2.common (mouse s))) Hp Ho) as (E1 & E2 & E3 & E4).
  rewrite last_rev, Hh in E1.
  split; [|split; [exact E4|exact E3]]. constructor; rewrite ?E3, ?E4; [done..| |done].
  rewrite E1. unfold nonempty. cbn. by destruct (negb (Ps2.count _ =? 0)).
Qed.

Lemma with_mouse_inv s f :
  ctl_inv s -> (forall b m, mwired b m -> mwired b (f m)) ->
  ctl_inv (with_mouse s f) /\ kbd (with_mouse s f) = kbd s /\
  mouse (with_mouse s f) = set_mlog (f (set_mlog (mouse s) [])) [].
Proof.
  intros [Hk Hm Hp Ho] Hf. unfold with_mouse. set (m := f (set_mlog (mouse s) [])).
  assert (Hw : mwired (b2z (nonempty (Ps2.common (mouse s)))) m) by (apply Hf; by split).
  destruct Hw as [Hq Hh].
  set (t := s <| mouse := set_mlog m [] |>).
  destruct (replay_aux (rev (Ps2.irq_log (Ps2.common m))) t
    (nonempty (Ps2.kcommon (kbd s))) (nonempty (Ps2.common (mouse s))) Hp Ho) as (E1 & E2 & E3 & E4).
  rewrite last_rev, Hh in E1.
  split; [|split; [exact E3|exact E4]]. constructor; rewrite ?E3, ?E4; [done..| |done].
  rewrite E1. unfold nonempty. cbn. by destruct (negb (Ps2.count _ =? 0)).
Qed.

(** Changes to the other registers. *)
Lemma regs_inv s s' :
  kbd s' = kbd s -> mouse s' = mouse s -> pending s' = pending s ->
  (status s' = status s \/ obf_ok s') -> ctl_inv s -> ctl_inv s'.
Proof.
  intros Ek Em Ep Es [Hk Hm Hp Ho]. constructor; rewrite ?Ek, ?Em, ?Ep; try done.
  destruct Es as [Es|]; [|done]. unfold obf_ok. by rewrite Es, Ep.
Qed.

Lemma update_irq_inv s : ctl_inv s -> ctl_inv (kbd_update_irq s).
Proof.
  intros H. destruct (update_irq_keeps s) as (E1 & E2 & E3 & _).
  apply (regs_inv s); try done. right. apply update_irq_obf.
Qed.

Lemma ctl_queue_inv s b aux : ctl_inv s -> ctl_inv (ctl_queue s b aux).
Proof.
  intros H. destruct aux; cbn.
  - apply with_mouse_inv; [done|]. intros. by apply mqueue_wired.
  - apply with_kbd_inv; [done|]. intros. by apply kqueue_wired.
Qed.

Lemma selftest_inv s : ctl_inv s -> ctl_inv (s <| status := u8 (Z.lor (status s) KBD_STAT_SELFTEST) |>).
Proof.
  intros H. apply (regs_inv s); try done. right. destruct (ci_obf s H) as [O1 O2].
  unfold obf_ok. cbn. unfold u8. rewrite !testbit_mod_pow2, !Z.lor_spec, O1, O2 by lia.
  change (Z.testbit KBD_STAT_SELFTEST 0) with false. change (Z.testbit KBD_STAT_SELFTEST 5) with false.
  by rewrite !orb_false_r.
Qed.

Lemma write_command_inv s v : ctl_inv s -> ctl_inv (kbd_write_command s v).
Proof.
  intros H. unfold kbd_write_command.
  assert (Hq : forall b, ctl_inv (ctl_queue s b false)) by (intros; by apply ctl_queue_inv).
  assert (Hs : ctl_inv (ctl_queue (s <| status := u8 (Z.lor (status s) KBD_STAT_SELFTEST) |>) 0x55 false))
    by (by apply ctl_queue_inv, selftest_inv).
  cases_on_byte; cbv zeta; try exact Hs; try apply Hq; try apply update_irq_inv;
    (exact H || by apply (regs_inv s); auto).
Qed.

Lemma write_data_inv s v : ctl_inv s -> ctl_inv (kbd_write_data s v).
Proof.
  intros H. unfold kbd_write_data.
  match goal with |- ctl_inv (set_field _ _ ?t) => enough (Ht : ctl_inv t)
    by (apply (regs_inv t); auto) end.
  assert (Hm : ctl_inv (s <| mode := u8 v |>)) by (apply (regs_inv s); auto).
  assert (Hq : forall b a, ctl_inv (ctl_queue s b a)) by (intros; by apply ctl_queue_inv).
  assert (Hk : ctl_inv (with_kbd s (fun k => Ps2.ps2_write_keyboard k v)))
    by (apply with_kbd_inv; [done|intros; by apply write_keyboard_wired]).
  assert (Hw : ctl_inv (with_mouse s (fun m => Ps2.ps2_write_mouse m v)))
    by (apply with_mouse_inv; [done|intros; by apply write_mouse_wired]).
  assert (Ht : forall x, ctl_inv (kbd_update_irq (with_kbd (s <| mode := u8 v |>)
    (fun k => Ps2.ps2_keyboard_set_translation k x)))).
  { intros x. apply update_irq_inv, with_kbd_inv; [done|].
    intros b k Hb. by apply (kfields_wired b k). }
  generalize (write_cmd s). intros c. cases_on_byte; cbv zeta;
    try exact Hk; try exact Hw; try apply Hq; try apply Ht; try exact H.
  case_match; apply (regs_inv s); auto.
Qed.

Lemma read_data_inv s : ctl_inv s -> ctl_inv (kbd_read_data s).2.
Proof.
  intros H. unfold kbd_read_data. case_match; cbn [snd].
  - apply with_mouse_inv; [done|]. intros b m Hb. by apply read_wired.
  - apply with_kbd_inv; [done|]. intros b k Hb. by apply read_wired.
Qed.

Lemma system_reset_inv s : ctl_inv s -> ctl_inv (system_reset s).
Proof.
  intros H. unfold system_reset.
  destruct (with_kbd_inv s Ps2.ps2_kbd_reset H) as (H1 & _ & E1); [intros b k Hb; by apply reset_wired|].
  destruct (with_mouse_inv _ Ps2.ps2_mouse_reset H1) as (H2 & E2 & E3);
    [intros b m Hb; by apply reset_wired|].
  set (t := with_mouse _ _) in *. apply (regs_inv t); try done. right.
  assert (E : pending t = 0) by (rewrite (ci_pending t H2), E2, E3, E1; done).
  change (Z.testbit 0x18 0 = nz (pending t) /\ Z.testbit 0x18 5 = (pending t =? 2)).
  by rewrite E.
Qed.

(** The accesses of the guest and the events of the host. *)
Inductive ctl_step : KBDState -> KBDState -> Prop :=
| cs_command s v : ctl_step s (kbd_write_command s v)
| cs_data s v : ctl_step s (kbd_write_data s v)
| cs_read s : ctl_step s (kbd_read_data s).2
| cs_key s c : ctl_step s (key_event s c)
| cs_mouse s dx dy dz b : ctl_step s (mouse_event s dx dy dz b)
| cs_reset s : ctl_step s (system_reset s).

Inductive ctl_reachable : KBDState -> Prop :=
| cr_init : ctl_reachable i8042_initfn
| cr_step s s' : ctl_reachable s -> ctl_step s s' -> ctl_reachable s'.

Lemma ctl_init_inv : ctl_inv i8042_initfn.
Proof.
  pose proof (proj1 Ps2.zero_inv) as Hz.
  constructor; [exact Hz|exact Hz|reflexivity|split; reflexivity].
Qed.

Lemma ctl_reachable_inv s : ctl_reachable s -> ctl_inv s.
Proof.
  induction 1 as [|s s' _ IH Hs]; [apply ctl_init_inv|]. destruct Hs.
  - by apply write_command_inv.
  - by apply write_data_inv.
  - by apply read_data_inv.
  - apply with_kbd_inv; [done|]. intros. by apply put_keycode_wired.
  - apply with_mouse_inv; [done|]. intros b' m Hb.
    destruct (Ps2.ps2_mouse_event m dx dy dz b) eqn:E; cbn; [|done].
    by apply (mouse_event_wired b' m dx dy dz b).
  - by apply system_reset_inv.
Qed.


(** C40: keyboard controller invariant.  Whatever the guest writes or reads on
    ports 0x60/0x64 and whatever keys and movements the host sends, the
    [pending] mask says exactly which of the two PS/2 queues hold bytes, and
    the status bits follow it: "output buffer full" when a byte waits, "mouse
    output buffer full" when only mouse bytes do. *)
Theorem kbd_controller_invariant s :
  ctl_reachable s ->
  pending s = b2z (nonempty (Ps2.kcommon (kbd s))) + 2 * b2z (nonempty (Ps2.common (mouse s))) /\
  Z.testbit (kbd_read_status s) 0 =
    nonempty (Ps2.kcommon (kbd s)) || nonempty (Ps2.common (mouse s)) /\
  Z.testbit (kbd_read_status s) 5 =
    negb (nonempty (Ps2.kcommon (kbd s))) && nonempty (Ps2.common (mouse s)).
Proof.
  intros H. destruct (ctl_reachable_inv s H) as [_ _ Hp [O1 O2]].
  unfold kbd_read_status. rewrite O1, O2, Hp. split; [done|].
  by destruct (nonempty (Ps2.kcommon (kbd s))), (nonempty (Ps2.common (mouse s))).
Qed.

(** A key press, then a movement of an enabled mouse (commands 0xD4, 0xF4). *)
Definition demo_ctl : KBDState :=
  mouse_event (kbd_write_data (kbd_write_command (key_event i8042_initfn 0x1e) 0xD4) 0xF4) 5 0 0 0.

Lemma demo_ctl_reachable : ctl_reachable demo_ctl.
Proof.
  eapply cr_step; [|apply cs_mouse]. eapply cr_step; [|apply cs_data].
  eapply cr_step; [|apply cs_command]. eapply cr_step; [|apply cs_key]. apply cr_init.
Qed.

Lemma kbd_controller_invariant_witness : pending demo_ctl = 3 /\ Z.testbit (kbd_read_status demo_ctl) 0 = true.
Proof.
  destruct (kbd_controller_invariant demo_ctl demo_ctl_reachable) as (E1 & E2 & _).
  rewrite E1, E2. split; reflexivity.
Defined.

(** reading the data port takes the oldest keyboard byte when there is one,
    otherwise the oldest mouse byte, and leaves the other device alone; with
    nothing waiting it takes nothing. *)
Theorem kbd_read_data_order s :
  ctl_reachable s ->
  let q := Ps2.contents (Ps2.queue (Ps2.kcommon (kbd s))) in
  let m := Ps2.contents (Ps2.queue (Ps2.common (mouse s))) in
  let s' := (kbd_read_data s).2 in
  let q' := Ps2.contents (Ps2.queue (Ps2.kcommon (kbd s'))) in
  let m' := Ps2.contents (Ps2.queue (Ps2.common (mouse s'))) in
  match q, m with
  | x :: l, _ => (kbd_read_data s).1 = x /\ q' = l /\ m' = m
  | [], y :: l => (kbd_read_data s).1 = y /\ q' = [] /\ m' = l
  | [], [] => q' = [] /\ m' = []
  end.
Proof.
  intros Hr q m s' q' m'. pose proof (ctl_reachable_inv s Hr) as Hinv.
  assert (Hn : forall t : Ps2.PS2State, Ps2.queue_ok (Ps2.queue t) ->
    nonempty t = match Ps2.contents (Ps2.queue t) with [] => false | _ => true end).
  { intros t Ht. pose proof (Ps2.contents_length _ Ht) as L. unfold nonempty.
    destruct (Ps2.contents (Ps2.queue t)); cbn in L; rewrite <- L; [done|].
    by destruct (Z.eqb_spec (Z.of_nat (S (length l))) 0); [lia|]. }
  pose proof (ci_pending s Hinv) as Hp. rewrite !Hn in Hp by apply Hinv. fold q m in Hp.
  assert (Hg : forall t, Ps2.queue_ok (Ps2.queue t) -> forall lg,
    let r := Ps2.ps2_read_data (t <| Ps2.irq_log := lg |>) in
    match Ps2.contents (Ps2.queue t) with
    | [] => Ps2.contents (Ps2.queue r.2) = []
    | x :: l => (Ps2.ps2_read_data t).1 = x /\ Ps2.contents (Ps2.queue r.2) = l
    end).
  { intros t Ht lg.
    destruct (Ps2.queue_get (b2z (nonempty t)) (t <| Ps2.irq_log := [b2z (nonempty t)] |>)) as [_ H].
    { by split. }
    assert (E : forall lg', (Ps2.ps2_read_data (t <| Ps2.irq_log := lg' |>)).1 = (Ps2.ps2_read_data t).1 /\
      Ps2.queue (Ps2.ps2_read_data (t <| Ps2.irq_log := lg' |>)).2 = Ps2.queue (Ps2.ps2_read_data t).2).
    { intros lg'. unfold Ps2.ps2_read_data. cbn [Ps2.queue set_field]. destruct (Ps2.count (Ps2.queue t) =? 0); done. }
    cbv zeta. rewrite (proj2 (E lg)). change (Ps2.queue (t <| Ps2.irq_log := [b2z (nonempty t)] |>)) with (Ps2.queue t) in H.
    destruct (Ps2.contents (Ps2.queue t)) as [|x l] eqn:Ec.
    - apply (f_equal snd), (f_equal Ps2.queue) in H. rewrite (proj2 (E _)) in H. by rewrite H.
    - destruct H as (H1 & H2 & _). rewrite (proj1 (E _)) in H1. rewrite (proj2 (E _)) in H2. done. }
  unfold q', m', s', kbd_read_data, KBD_PENDING_AUX.
  destruct (Z.eqb_spec (pending s) 2) as [E|E].
  - destruct q as [|x l] eqn:Eq, m as [|y l'] eqn:Em; cbn in Hp; try lia. cbn [fst snd].
    destruct (with_mouse_inv s (fun m => m <| Ps2.common := (Ps2.ps2_read_data (Ps2.common m)).2 |>) Hinv)
      as (_ & E1 & E2); [intros b k Hb; by apply read_wired|].
    rewrite E1, E2. pose proof (Hg _ (ci_mouse s Hinv) []) as G. fold m in G. rewrite Em in G.
    destruct G as [G1 G2]. done.
  - destruct (with_kbd_inv s (fun k => k <| Ps2.kcommon := (Ps2.ps2_read_data (Ps2.kcommon k)).2 |>) Hinv)
      as (_ & E1 & E2); [intros b k Hb; by apply read_wired|].
    cbn [fst snd]. rewrite E1, E2. pose proof (Hg _ (ci_kbd s Hinv) []) as G. fold q in G.
    destruct q as [|x l] eqn:Eq.
    + destruct m as [|y l'] eqn:Em; cbn in Hp; [|lia]. done.
    + destruct G as [G1 G2]. done.
Qed.

Lemma kbd_read_data_order_witness :
  (kbd_read_data demo_ctl).1 = 0x1c.
Proof.
  pose proof (kbd_read_data_order demo_ctl demo_ctl_reachable) as H.
  assert (Eq : Ps2.contents (Ps2.queue (Ps2.kcommon (kbd demo_ctl))) = [0x1c]) by (vm_compute; reflexivity).
  cbv zeta in H. rewrite Eq in H. apply H.
Defined.

End Pckbd.
