(* ===== verification/Apic.v ===== *)
(** * The local APICs

    src/s2e/qemu/hw/apic.c: the local interrupt controllers of the CPUs, their
    bus ([local_apics]), the register page and the APIC timer.  A [CPUState]
    and its [APICState] point to each other; here the APIC holds the part of
    its CPU it uses.  [cpu_interrupt] is its effect on [interrupt_request];
    [cpu_x86_load_seg_cache] its effect on the selector and base of CS.
    [target_phys_addr_t] addresses are non-negative [Z]. *)

From stdpp Require Import strings.
From S2P Require Import Prelude BitScan DevState Savevm.

Module Apic.

Definition APIC_LVT_TIMER : Z := 0.
Definition APIC_LVT_LINT0 : Z := 3.
Definition APIC_LVT_LINT1 : Z := 4.
Definition APIC_LVT_NB : Z := 6.

Definition APIC_LVT_TIMER_PERIODIC : Z := BIT 17.
Definition APIC_LVT_MASKED : Z := BIT 16.
Definition APIC_LVT_LEVEL_TRIGGER : Z := BIT 15.
Definition ESR_ILLEGAL_ADDRESS : Z := BIT 7.
Definition APIC_SV_ENABLE : Z := BIT 8.
Definition MAX_APICS : Z := 255.
Definition MAX_APIC_WORDS : Z := 8.

Definition CPU_INTERRUPT_HARD : Z := 0x02.
Definition CPU_INTERRUPT_SMI : Z := 0x40.
Definition CPU_INTERRUPT_NMI : Z := 0x200.
Definition CPU_INTERRUPT_INIT : Z := 0x400.
Definition CPU_INTERRUPT_SIPI : Z := 0x800.
Definition MSR_IA32_APICBASE_BSP : Z := BIT 8.
Definition MSR_IA32_APICBASE_ENABLE : Z := BIT 11.
Definition CPUID_APIC : Z := BIT 9.

(** ** State *)

Record CPUState := mkCPU {
  interrupt_request : Z;
  halted : Z;
  eip : Z;
  cs_selector : Z;
  cs_base : Z;
  cpuid_apic_id : Z;
  cpuid_features : Z;
  timer_interrupt_disabled : Z;
  all_apic_interrupts_disabled : Z
}.
#[export] Instance CPUState_eta : RecordEta CPUState :=
  fields mkCPU < interrupt_request ; halted ; eip ; cs_selector ; cs_base ; cpuid_apic_id ;
    cpuid_features ; timer_interrupt_disabled ; all_apic_interrupts_disabled >.

Record APICState := mkAPIC {
  cpu_env : CPUState;
  apicbase : Z;
  id : Z;
  arb_id : Z;
  tpr : Z;
  spurious_vec : Z;
  log_dest : Z;
  dest_mode : Z;
  isr : list Z;
  tmr : list Z;
  irr : list Z;
  lvt : list Z;
  esr : Z;
  icr : list Z;
  divide_conf : Z;
  count_shift : Z;
  initial_count : Z;
  initial_count_load_time : Z;
  next_time : Z;
  idx : Z;
  timer : option Z;
  sipi_vector : Z;
  wait_for_sipi : Z
}.
#[export] Instance APICState_eta : RecordEta APICState :=
  fields mkAPIC < cpu_env ; apicbase ; id ; arb_id ; tpr ; spurious_vec ; log_dest ; dest_mode ;
    isr ; tmr ; irr ; lvt ; esr ; icr ; divide_conf ; count_shift ; initial_count ;
    initial_count_load_time ; next_time ; idx ; timer ; sipi_vector ; wait_for_sipi >.

Definition cpu_interrupt (s : APICState) (mask : Z) : APICState :=
  s <| cpu_env := (cpu_env s)
         <| interrupt_request := u32 (Z.lor (interrupt_request (cpu_env s)) mask) |> |>.
Definition cpu_reset_interrupt (s : APICState) (mask : Z) : APICState :=
  s <| cpu_env := (cpu_env s)
         <| interrupt_request := u32 (Z.land (interrupt_request (cpu_env s)) (Z.lnot mask)) |> |>.

(** ** Bit tables *)

Definition fls_bit (value : Z) : Z := 31 - clz32 value.
Definition ffs_bit (value : Z) : Z := ctz32 value.

Definition set_bit (tab : list Z) (index : Z) : list Z :=
  let i := Z.shiftr index 5 in
  let mask := BIT (Z.land index 0x1f) in
  aset tab i (u32 (Z.lor (aget 0 tab i) mask)).

Definition reset_bit (tab : list Z) (index : Z) : list Z :=
  let i := Z.shiftr index 5 in
  let mask := BIT (Z.land index 0x1f) in
  aset tab i (u32 (Z.land (aget 0 tab i) (Z.lnot mask))).

Definition get_bit (tab : list Z) (index : Z) : bool :=
  let i := Z.shiftr index 5 in
  let mask := BIT (Z.land index 0x1f) in
  nz (Z.land (aget 0 tab i) mask).

(** The loop of [get_highest_priority_int], over words [n - 1] to 0. *)
Fixpoint highest_loop (n : nat) (tab : list Z) : Z :=
  match n with
  | O => -1
  | S n =>
      let i := Z.of_nat n in
      if nz (aget 0 tab i) then i * 32 + fls_bit (aget 0 tab i) else highest_loop n tab
  end.

Definition get_highest_priority_int (tab : list Z) : Z := highest_loop 8 tab.

(** ** Priorities *)

Definition apic_get_ppr (s : APICState) : Z :=
  let tpr4 := Z.shiftr (tpr s) 4 in
  let isrv := get_highest_priority_int (isr s) in
  let isrv := if isrv <? 0 then 0 else isrv in
  let isrv := Z.shiftr isrv 4 in
  if isrv <=? tpr4 then tpr s else Z.shiftl isrv 4.

Definition apic_get_arb_pri (s : APICState) : Z := 0.

Definition apic_update_irq (s : APICState) : APICState :=
  if negb (nz (Z.land (spurious_vec s) APIC_SV_ENABLE)) then s
  else
    let irrv := get_highest_priority_int (irr s) in
    if irrv <? 0 then s
    else
      let ppr := apic_get_ppr s in
      if nz ppr && (Z.land irrv 0xf0 <=? Z.land ppr 0xf0) then s
      else if nz (all_apic_interrupts_disabled (cpu_env s)) then s
      else cpu_interrupt s CPU_INTERRUPT_HARD.

(** The first component is the global [apic_irq_delivered]. *)
Definition apic_set_irq (delivered : Z) (s : APICState) (vector_num trigger_mode : Z)
    : Z * APICState :=
  let delivered := s32 (delivered + b2z (negb (get_bit (irr s) vector_num))) in
  let s := s <| irr := set_bit (irr s) vector_num |> in
  let s := if nz trigger_mode then s <| tmr := set_bit (tmr s) vector_num |>
           else s <| tmr := reset_bit (tmr s) vector_num |> in
  (delivered, apic_update_irq s).

Definition apic_eoi (s : APICState) : APICState :=
  let isrv := get_highest_priority_int (isr s) in
  if isrv <? 0 then s
  else apic_update_irq (s <| isr := reset_bit (isr s) isrv |>).

Definition apic_get_interrupt (apic : option APICState) : Z * option APICState :=
  match apic with
  | None => (-1, None)
  | Some s =>
      if negb (nz (Z.land (spurious_vec s) APIC_SV_ENABLE)) then (-1, Some s)
      else
        let intno := get_highest_priority_int (irr s) in
        if intno <? 0 then (-1, Some s)
        else if nz (tpr s) && (intno <=? tpr s) then (Z.land (spurious_vec s) 0xff, Some s)
        else
          let s := s <| irr := reset_bit (irr s) intno |> in
          let s := s <| isr := set_bit (isr s) intno |> in
          (intno, Some (apic_update_irq s))
  end.

Definition apic_accept_pic_intr (apic : option APICState) : Z :=
  match apic with
  | None => -1
  | Some s =>
      let lvt0 := aget 0 (lvt s) APIC_LVT_LINT0 in
      if (Z.land (apicbase s) MSR_IA32_APICBASE_ENABLE =? 0) ||
         (Z.land lvt0 APIC_LVT_MASKED =? 0) then 1 else 0
  end.

(** ** Local sources *)

Definition apic_local_deliver (delivered : Z) (s : APICState) (vector : Z) : Z * APICState :=
  let lvt := aget 0 (lvt s) vector in
  if nz (Z.land lvt APIC_LVT_MASKED) then (delivered, s)
  else
    match Z.land (Z.shiftr lvt 8) 7 with
    | 2 => (delivered, cpu_interrupt s CPU_INTERRUPT_SMI)
    | 4 => (delivered, cpu_interrupt s CPU_INTERRUPT_NMI)
    | 7 => (delivered, if nz (all_apic_interrupts_disabled (cpu_env s)) then s
                       else cpu_interrupt s CPU_INTERRUPT_HARD)
    | 0 =>
        let trigger_mode :=
          if ((vector =? APIC_LVT_LINT0) || (vector =? APIC_LVT_LINT1)) &&
             nz (Z.land lvt APIC_LVT_LEVEL_TRIGGER) then 1 else 0 in
        apic_set_irq delivered s (Z.land lvt 0xff) trigger_mode
    | _ => (delivered, s)
    end.

Definition apic_deliver_pic_intr (delivered : Z) (s : APICState) (level : Z) : Z * APICState :=
  if nz level then apic_local_deliver delivered s APIC_LVT_LINT0
  else
    let lvt := aget 0 (lvt s) APIC_LVT_LINT0 in
    match Z.land (Z.shiftr lvt 8) 7 with
    | 0 =>
        if negb (nz (Z.land lvt APIC_LVT_LEVEL_TRIGGER)) then (delivered, s)
        else
          let s := s <| irr := reset_bit (irr s) (Z.land lvt 0xff) |> in
          (delivered, cpu_reset_interrupt s CPU_INTERRUPT_HARD)
    | 7 => (delivered, cpu_reset_interrupt s CPU_INTERRUPT_HARD)
    | _ => (delivered, s)
    end.

(** ** The timer *)

Definition apic_get_current_count (s : APICState) (now : Z) : Z :=
  let d := Z.shiftr (s64 (now - initial_count_load_time s)) (count_shift s) in
  if nz (Z.land (aget 0 (lvt s) APIC_LVT_TIMER) APIC_LVT_TIMER_PERIODIC) then
    u32 (initial_count s - u64 d mod (initial_count s + 1))
  else if initial_count s <=? d then 0
  else u32 (initial_count s - d).

Definition apic_timer_update (s : APICState) (current_time : Z) : APICState :=
  let no_timer := s <| timer := None |> in
  if negb (nz (Z.land (aget 0 (lvt s) APIC_LVT_TIMER) APIC_LVT_MASKED)) then
    let d := Z.shiftr (s64 (current_time - initial_count_load_time s)) (count_shift s) in
    let arm d :=
      let next := s64 (initial_count_load_time s + s64 (Z.shiftl d (count_shift s))) in
      s <| timer := Some next |> <| next_time := next |> in
    if nz (Z.land (aget 0 (lvt s) APIC_LVT_TIMER) APIC_LVT_TIMER_PERIODIC) then
      if initial_count s =? 0 then no_timer
      else arm (s64 (u64 ((u64 d / (initial_count s + 1) + 1) * (initial_count s + 1))))
    else if initial_count s <=? d then no_timer
    else arm (initial_count s + 1)
  else no_timer.

(** The timer callback; [qemu_run_timers] has taken the timer off the list. *)
Definition apic_timer (delivered : Z) (s : APICState) : Z * APICState :=
  let s := s <| timer := None |> in
  let '(delivered, s) :=
    if nz (timer_interrupt_disabled (cpu_env s)) then (delivered, s)
    else apic_local_deliver delivered s APIC_LVT_TIMER in
  (delivered, apic_timer_update s (next_time s)).

(** ** The APIC bus *)

(** [local_apics] has [MAX_APICS + 1] entries. *)
Record ApicBus := mkBus {
  local_apics : list (option APICState);
  last_apic_idx : Z;
  apic_irq_delivered : Z
}.
#[export] Instance ApicBus_eta : RecordEta ApicBus :=
  fields mkBus < local_apics ; last_apic_idx ; apic_irq_delivered >.

Definition apic_at (bus : ApicBus) (n : Z) : option APICState := aget None (local_apics bus) n.

(** Runs [code] on the APIC at [n], if there is one. *)
Definition on_apic (code : Z -> APICState -> Z * APICState) (bus : ApicBus) (n : Z) : ApicBus :=
  match apic_at bus n with
  | None => bus
  | Some s =>
      let '(delivered, s) := code (apic_irq_delivered bus) s in
      bus <| local_apics := aset (local_apics bus) n (Some s) |> <| apic_irq_delivered := delivered |>
  end.

Definition foreach_word (deliver_bitmask : list Z) (code : Z -> APICState -> Z * APICState)
    (bus : ApicBus) (i : Z) : ApicBus :=
  let mask := aget 0 deliver_bitmask i in
  if nz mask then
    foldl (fun bus j => if nz (Z.land mask (BIT j)) then on_apic code bus (i * 32 + j) else bus)
      bus (seqZ 0 32)
  else bus.

Definition foreach_apic (deliver_bitmask : list Z) (code : Z -> APICState -> Z * APICState)
    (bus : ApicBus) : ApicBus :=
  foldl (foreach_word deliver_bitmask code) bus (seqZ 0 MAX_APIC_WORDS).

(** A [code] that does not touch the counter. *)
Definition plain (f : APICState -> APICState) : Z -> APICState -> Z * APICState :=
  fun delivered s => (delivered, f s).

(** The destination of a lowest-priority message: the first bit set. *)
Fixpoint lowpri_loop (words : list Z) (i : Z) : Z :=
  match words with
  | [] => -1
  | w :: words => if nz w then i * 32 + ffs_bit w else lowpri_loop words (i + 1)
  end.

Definition apic_bus_deliver (bus : ApicBus) (deliver_bitmask : list Z)
    (delivery_mode vector_num polarity trigger_mode : Z) : ApicBus :=
  let set_irq delivered s := apic_set_irq delivered s vector_num trigger_mode in
  match delivery_mode with
  | 1 =>
      let d := lowpri_loop deliver_bitmask 0 in
      if 0 <=? d then on_apic set_irq bus d else bus
  | 2 => foreach_apic deliver_bitmask (plain (fun s => cpu_interrupt s CPU_INTERRUPT_SMI)) bus
  | 4 => foreach_apic deliver_bitmask (plain (fun s => cpu_interrupt s CPU_INTERRUPT_NMI)) bus
  | 5 => foreach_apic deliver_bitmask (plain (fun s => cpu_interrupt s CPU_INTERRUPT_INIT)) bus
  | 0 | 7 => foreach_apic deliver_bitmask set_irq bus
  | _ => bus
  end.

(** The search loop of [apic_find_dest] from [i] on. *)
Fixpoint find_dest_loop (n : nat) (bus : ApicBus) (dest i : Z) : Z :=
  match n with
  | O => -1
  | S n =>
      if match apic_at bus i with Some apic => id apic =? dest | None => false end then i
      else find_dest_loop n bus dest (i + 1)
  end.

Definition apic_find_dest (bus : ApicBus) (dest : Z) : Z :=
  if match apic_at bus dest with Some apic => id apic =? dest | None => false end then dest
  else find_dest_loop (Z.to_nat MAX_APICS) bus dest 0.

Definition no_apics : list Z := replicate 8 0.
Definition all_apics : list Z := replicate 8 0xffffffff.

(** Whether an APIC answers to a logical destination. *)
Definition logical_match (dest : Z) (apic : APICState) : bool :=
  if dest_mode apic =? 0xf then nz (Z.land dest (log_dest apic))
  else if dest_mode apic =? 0x0 then
    (Z.land dest 0xf0 =? Z.land (log_dest apic) 0xf0) &&
    nz (Z.land (Z.land dest (log_dest apic)) 0x0f)
  else false.

Definition apic_get_delivery_bitmask (bus : ApicBus) (dest dest_mode : Z) : list Z :=
  if dest_mode =? 0 then
    if dest =? 0xff then all_apics
    else
      let i := apic_find_dest bus dest in
      if 0 <=? i then set_bit no_apics i else no_apics
  else
    foldl (fun tab i =>
             match apic_at bus i with
             | Some apic => if logical_match dest apic then set_bit tab i else tab
             | None => tab
             end) no_apics (seqZ 0 MAX_APICS).

Definition apic_deliver_irq (bus : ApicBus)
    (dest dest_mode delivery_mode vector_num polarity trigger_mode : Z) : ApicBus :=
  apic_bus_deliver bus (apic_get_delivery_bitmask bus dest dest_mode) delivery_mode vector_num
    polarity trigger_mode.

Definition apic_startup (s : APICState) (vector_num : Z) : APICState :=
  cpu_interrupt (s <| sipi_vector := vector_num |>) CPU_INTERRUPT_SIPI.

(** [apic_deliver(s, ..)] for the APIC [s] of the bus. *)
Definition apic_deliver (bus : ApicBus) (s : APICState)
    (dest dest_mode delivery_mode vector_num polarity trigger_mode : Z) : ApicBus :=
  let icr0 := aget 0 (icr s) 0 in
  let deliver_bitmask :=
    match Z.land (Z.shiftr icr0 18) 3 with
    | 0 => apic_get_delivery_bitmask bus dest dest_mode
    | 1 => set_bit no_apics (idx s)
    | 2 => all_apics
    | _ => reset_bit all_apics (idx s)
    end in
  let trig_mode := Z.land (Z.shiftr icr0 15) 1 in
  let level := Z.land (Z.shiftr icr0 14) 1 in
  if (delivery_mode =? 5) && (level =? 0) && (trig_mode =? 1) then
    foreach_apic deliver_bitmask (plain (fun s => s <| arb_id := id s |>)) bus
  else if delivery_mode =? 6 then
    foreach_apic deliver_bitmask (plain (fun s => apic_startup s vector_num)) bus
  else apic_bus_deliver bus deliver_bitmask delivery_mode vector_num polarity trigger_mode.

Definition apic_send_msi (bus : ApicBus) (addr data : Z) : ApicBus :=
  let dest := u8 (Z.shiftr (Z.land addr 0x00ffff0) 12) in
  let vector := u8 (Z.land data 0xff) in
  let dest_mode := Z.land (Z.shiftr addr 2) 1 in
  let trigger_mode := Z.land (Z.shiftr data 15) 1 in
  let delivery := Z.land (Z.shiftr data 8) 7 in
  apic_deliver_irq bus dest dest_mode delivery vector 0 trigger_mode.

(** ** Registers *)

Definition in_range (lo hi index : Z) : bool := (lo <=? index) && (index <=? hi).

(** A long read by the CPU of APIC [s]; byte and word reads return 0. *)
Definition apic_mem_readl (s : APICState) (addr now : Z) : Z * APICState :=
  let index := Z.land (Z.shiftr addr 4) 0xff in
  if in_range 0x10 0x17 index then (aget 0 (isr s) (Z.land index 7), s)
  else if in_range 0x18 0x1f index then (aget 0 (tmr s) (Z.land index 7), s)
  else if in_range 0x20 0x27 index then (aget 0 (irr s) (Z.land index 7), s)
  else if in_range 0x30 0x31 index then (aget 0 (icr s) (Z.land index 1), s)
  else if in_range 0x32 0x37 index then (aget 0 (lvt s) (index - 0x32), s)
  else
    match index with
    | 0x02 => (u32 (Z.shiftl (id s) 24), s)
    | 0x03 => (Z.lor 0x11 (Z.shiftl (APIC_LVT_NB - 1) 16), s)
    | 0x08 => (tpr s, s)
    | 0x09 => (apic_get_arb_pri s, s)
    | 0x0a => (apic_get_ppr s, s)
    | 0x0b => (0, s)
    | 0x0d => (u32 (Z.shiftl (log_dest s) 24), s)
    | 0x0e => (u32 (Z.shiftl (dest_mode s) 28), s)
    | 0x0f => (spurious_vec s, s)
    | 0x28 => (esr s, s)
    | 0x38 => (initial_count s, s)
    | 0x39 => (apic_get_current_count s now, s)
    | 0x3e => (divide_conf s, s)
    | _ => (0, s <| esr := u32 (Z.lor (esr s) ESR_ILLEGAL_ADDRESS) |>)
    end.

Definition set_apic (bus : ApicBus) (n : Z) (s : APICState) : ApicBus :=
  bus <| local_apics := aset (local_apics bus) n (Some s) |>.

(** The registers whose write stays within the APIC. *)
Definition write_register (s : APICState) (index val now : Z) : APICState :=
  if in_range 0x10 0x28 index then s
  else if in_range 0x32 0x37 index then
    let n := index - 0x32 in
    let s := s <| lvt := aset (lvt s) n val |> in
    if n =? APIC_LVT_TIMER then apic_timer_update s now else s
  else
    match index with
    | 0x02 => s <| id := u8 (Z.shiftr val 24) |>
    | 0x03 | 0x09 | 0x0a | 0x39 => s
    | 0x08 => apic_update_irq (s <| tpr := u8 val |>)
    | 0x0b => apic_eoi s
    | 0x0d => s <| log_dest := u8 (Z.shiftr val 24) |>
    | 0x0e => s <| dest_mode := u8 (Z.shiftr val 28) |>
    | 0x0f => apic_update_irq (s <| spurious_vec := Z.land val 0x1ff |>)
    | 0x31 => s <| icr := aset (icr s) 1 val |>
    | 0x38 =>
        let s := s <| initial_count := val |> <| initial_count_load_time := now |> in
        apic_timer_update s (initial_count_load_time s)
    | 0x3e =>
        let s := s <| divide_conf := Z.land val 0xb |> in
        let v := Z.lor (Z.land (divide_conf s) 3) (Z.land (Z.shiftr (divide_conf s) 1) 4) in
        s <| count_shift := Z.land (v + 1) 7 |>
    | _ => s <| esr := u32 (Z.lor (esr s) ESR_ILLEGAL_ADDRESS) |>
    end.

(** A long write; [cpu] is the place on the bus of the APIC of [cpu_single_env]
    ([None] outside a CPU). *)
Definition apic_mem_writel (bus : ApicBus) (cpu : option Z) (addr val now : Z) : ApicBus :=
  let index := Z.land (Z.shiftr addr 4) 0xff in
  if (0xfff <? addr) || (index =? 0) then apic_send_msi bus addr val
  else
    match cpu with
    | None => bus
    | Some n =>
        match apic_at bus n with
        | None => bus
        | Some s =>
            if index =? 0x30 then
              let s := s <| icr := aset (icr s) 0 val |> in
              let icr0 := aget 0 (icr s) 0 in
              apic_deliver (set_apic bus n s) s
                (Z.land (Z.shiftr (aget 0 (icr s) 1) 24) 0xff) (Z.land (Z.shiftr icr0 11) 1)
                (Z.land (Z.shiftr icr0 8) 7) (Z.land icr0 0xff)
                (Z.land (Z.shiftr icr0 14) 1) (Z.land (Z.shiftr icr0 15) 1)
            else set_apic bus n (write_register s index val now)
        end
    end.

(** ** Access from the CPU and reset *)

Definition cpu_set_apic_base (apic : option APICState) (val : Z) : option APICState :=
  match apic with
  | None => None
  | Some s =>
      let s := s <| apicbase :=
        Z.lor (Z.land val 0xfffff000)
          (Z.land (apicbase s) (Z.lor MSR_IA32_APICBASE_BSP MSR_IA32_APICBASE_ENABLE)) |> in
      Some
        (if negb (nz (Z.land val MSR_IA32_APICBASE_ENABLE)) then
           s <| apicbase := Z.land (apicbase s) (Z.lnot MSR_IA32_APICBASE_ENABLE) |>
             <| cpu_env := (cpu_env s)
                  <| cpuid_features := Z.land (cpuid_features (cpu_env s)) (Z.lnot CPUID_APIC) |> |>
             <| spurious_vec := Z.land (spurious_vec s) (Z.lnot APIC_SV_ENABLE) |>
         else s)
  end.

Definition cpu_get_apic_base (apic : option APICState) : Z :=
  match apic with Some s => apicbase s | None => 0 end.

Definition cpu_set_apic_tpr (apic : option APICState) (val : Z) : option APICState :=
  match apic with
  | None => None
  | Some s => Some (apic_update_irq (s <| tpr := Z.shiftl (Z.land val 0x0f) 4 |>))
  end.

Definition cpu_get_apic_tpr (apic : option APICState) : Z :=
  match apic with Some s => Z.shiftr (tpr s) 4 | None => 0 end.

Definition apic_init_reset (s : APICState) : APICState :=
  let s := s <| tpr := 0 |> <| spurious_vec := 0xff |> <| log_dest := 0 |> <| dest_mode := 0xf |>
    <| isr := replicate 8 0 |> <| tmr := replicate 8 0 |> <| irr := replicate 8 0 |>
    <| lvt := replicate 6 (BIT 16) |> <| esr := 0 |> <| icr := replicate 2 0 |>
    <| divide_conf := 0 |> <| count_shift := 0 |> <| initial_count := 0 |>
    <| initial_count_load_time := 0 |> <| next_time := 0 |> <| wait_for_sipi := 1 |> in
  s <| cpu_env := (cpu_env s)
         <| halted := b2z (negb (nz (Z.land (apicbase s) MSR_IA32_APICBASE_BSP))) |> |>.

Definition apic_sipi (s : APICState) : APICState :=
  let s := cpu_reset_interrupt s CPU_INTERRUPT_SIPI in
  if negb (nz (wait_for_sipi s)) then s
  else
    s <| cpu_env := (cpu_env s) <| eip := 0 |>
           <| cs_selector := u32 (Z.shiftl (sipi_vector s) 8) |>
           <| cs_base := u32 (Z.shiftl (sipi_vector s) 12) |> <| halted := 0 |> |>
      <| wait_for_sipi := 0 |>.

Definition cpu_is_bsp (env : CPUState) : bool := cpuid_apic_id env =? 0.

(** [cpu_reset] of target-i386/helper.c is an argument. *)
Definition apic_reset (cpu_reset : CPUState -> CPUState) (s : APICState) : APICState :=
  let bsp := cpu_is_bsp (cpu_env s) in
  let s := s <| apicbase := Z.lor (Z.lor 0xfee00000 (if bsp then MSR_IA32_APICBASE_BSP else 0))
                              MSR_IA32_APICBASE_ENABLE |> in
  let s := s <| cpu_env := cpu_reset (cpu_env s) |> in
  let s := apic_init_reset s in
  if bsp then s <| lvt := aset (lvt s) APIC_LVT_LINT0 0x700 |> else s.

(** Zeroed memory. *)
Definition apic_zero (env : CPUState) : APICState :=
  mkAPIC env 0 0 0 0 0 0 0 (replicate 8 0) (replicate 8 0) (replicate 8 0) (replicate 6 0) 0
    (replicate 2 0) 0 0 0 0 0 0 None 0 0.

Definition apic_init (bus : ApicBus) (env : CPUState) : Z * ApicBus :=
  if MAX_APICS <=? last_apic_idx bus then (-1, bus)
  else
    let n := last_apic_idx bus in
    let s := (apic_zero env) <| idx := n |> <| id := u8 (cpuid_apic_id env) |> in
    (0, (set_apic bus n s) <| last_apic_idx := n + 1 |>).

Definition no_bus : ApicBus := mkBus (replicate 256 None) 0 0.

(** ** Saved state *)

Section Vmstate.
Context {F : Type} `{!ByteStream F}.

(** The loop of [apic_load_old] over word [i] of the three tables. *)
Fixpoint load_old_words (n : nat) (i : Z) (f : F) (s : APICState) : Res (APICState * F) :=
  match n with
  | O => Ok (s, f)
  | S n =>
      let* (a, f) := qemu_get_be32 f in
      let s := s <| isr := aset (isr s) i a |> in
      let* (b, f) := qemu_get_be32 f in
      let s := s <| tmr := aset (tmr s) i b |> in
      let* (c, f) := qemu_get_be32 f in
      let s := s <| irr := aset (irr s) i c |> in
      load_old_words n (i + 1) f s
  end.

Fixpoint load_old_lvt (n : nat) (i : Z) (f : F) (s : APICState) : Res (APICState * F) :=
  match n with
  | O => Ok (s, f)
  | S n =>
      let* (a, f) := qemu_get_be32 f in
      load_old_lvt n (i + 1) f (s <| lvt := aset (lvt s) i a |>)
  end.

Definition apic_load_old (f : F) (s : APICState) (version : Z) : Res (Z * APICState * F) :=
  if 2 <? version then Ok (- EINVAL, s, f)
  else
    let* (v, f) := qemu_get_be32 f in let s := s <| apicbase := v |> in
    let* (v, f) := qemu_get_byte f in let s := s <| id := u8 v |> in
    let* (v, f) := qemu_get_byte f in let s := s <| arb_id := u8 v |> in
    let* (v, f) := qemu_get_byte f in let s := s <| tpr := u8 v |> in
    let* (v, f) := qemu_get_be32 f in let s := s <| spurious_vec := v |> in
    let* (v, f) := qemu_get_byte f in let s := s <| log_dest := u8 v |> in
    let* (v, f) := qemu_get_byte f in let s := s <| dest_mode := u8 v |> in
    let* (s, f) := load_old_words 8 0 f s in
    let* (s, f) := load_old_lvt 6 0 f s in
    let* (v, f) := qemu_get_be32 f in let s := s <| esr := v |> in
    let* (v, f) := qemu_get_be32 f in let s := s <| icr := aset (icr s) 0 v |> in
    let* (v, f) := qemu_get_be32 f in let s := s <| icr := aset (icr s) 1 v |> in
    let* (v, f) := qemu_get_be32 f in let s := s <| divide_conf := v |> in
    let* (v, f) := qemu_get_be32 f in let s := s <| count_shift := s32 v |> in
    let* (v, f) := qemu_get_be32 f in let s := s <| initial_count := v |> in
    let* (v, f) := qemu_get_be64 f in let s := s <| initial_count_load_time := s64 v |> in
    let* (v, f) := qemu_get_be64 f in let s := s <| next_time := s64 v |> in
    if 2 <=? version then
      let* (ts, f) := get_timer f in Ok (0, s <| timer := ts |>, f)
    else Ok (0, s, f).

Definition vmstate_apic : VMStateDescription F APICState :=
  mkVMSD "apic"%string 3 3 1 (Some apic_load_old) None None None None
    [VMSTATE_UINT32 apicbase; VMSTATE_UINT8 id; VMSTATE_UINT8 arb_id; VMSTATE_UINT8 tpr;
     VMSTATE_UINT32 spurious_vec; VMSTATE_UINT8 log_dest; VMSTATE_UINT8 dest_mode;
     VMSTATE_UINT32_ARRAY isr 8; VMSTATE_UINT32_ARRAY tmr 8; VMSTATE_UINT32_ARRAY irr 8;
     VMSTATE_UINT32_ARRAY lvt 6; VMSTATE_UINT32 esr; VMSTATE_UINT32_ARRAY icr 2;
     VMSTATE_UINT32 divide_conf; VMSTATE_INT32 count_shift; VMSTATE_UINT32 initial_count;
     VMSTATE_INT64 initial_count_load_time; VMSTATE_INT64 next_time; VMSTATE_TIMER timer].

End Vmstate.

(** ** Bit tables as sets of vectors *)

Record tab_ok (tab : list Z) : Prop := {
  tab_len : length tab = 8%nat;
  tab_words : Forall (range 32) tab
}.

(** Vector [v] is in the table. *)
Definition bit (tab : list Z) (v : Z) : bool := Z.testbit (aget 0 tab (v / 32)) (v mod 32).

Lemma index_split v : Z.shiftr v 5 = v / 32 /\ Z.land v 0x1f = v mod 32.
Proof.
  split; [apply (Z.shiftr_div_pow2 v 5); lia|]. change 0x1f with (2 ^ 5 - 1). by rewrite low_mask by lia.
Qed.

Lemma split_range v : 0 <= v < 256 -> 0 <= v / 32 < 8 /\ 0 <= v mod 32 < 32.
Proof.
  intros. split; [|apply Z.mod_pos_bound; lia].
  split; [apply Z.div_pos | apply Z.div_lt_upper_bound]; lia.
Qed.

Lemma apic_word_range tab i : tab_ok tab -> range 32 (aget 0 tab i).
Proof.
  intros [_ Hw]. unfold aget. rewrite nth_lookup.
  destruct (tab !! Z.to_nat i) eqn:E; cbn; [|unfold range; lia].
  by apply (Forall_lookup_1 _ _ _ _ Hw E).
Qed.

Lemma get_bit_spec tab v : get_bit tab v = bit tab v.
Proof.
  unfold get_bit, bit. destruct (index_split v) as [-> ->]. apply land_BIT_nz.
  apply Z.mod_pos_bound. lia.
Qed.

Lemma aset_tab_ok tab i x : tab_ok tab -> tab_ok (aset tab i (u32 x)).
Proof.
  intros [Hl Hw]. split; [by rewrite aset_length|]. unfold aset.
  apply Forall_insert; [done | apply u32_range].
Qed.

Lemma bit_aset tab i x v :
  tab_ok tab -> 0 <= i < 8 -> 0 <= v < 256 ->
  bit (aset tab i x) v = if i =? v / 32 then Z.testbit x (v mod 32) else bit tab v.
Proof.
  intros [Hl _] Hi Hv. unfold bit. destruct (split_range v Hv) as [Hd _].
  destruct (Z.eqb_spec i (v / 32)) as [->|Hne].
  - rewrite aget_aset_eq by lia. done.
  - rewrite aget_aset_ne by lia. done.
Qed.

Lemma vector_eq v w : (v =? w) = (v / 32 =? w / 32) && (v mod 32 =? w mod 32).
Proof.
  destruct (Z.eqb_spec v w) as [->|Hne]; [by rewrite !Z.eqb_refl|].
  pose proof (Z.div_mod v 32). pose proof (Z.div_mod w 32).
  destruct (Z.eqb_spec (v / 32) (w / 32)), (Z.eqb_spec (v mod 32) (w mod 32)); lia || done.
Qed.

Lemma set_bit_ok tab v : tab_ok tab -> tab_ok (set_bit tab v).
Proof. apply aset_tab_ok. Qed.
Lemma reset_bit_ok tab v : tab_ok tab -> tab_ok (reset_bit tab v).
Proof. apply aset_tab_ok. Qed.

Lemma set_bit_bit tab v w :
  tab_ok tab -> 0 <= v < 256 -> 0 <= w < 256 -> bit (set_bit tab v) w = (v =? w) || bit tab w.
Proof.
  intros Ht Hv Hw. unfold set_bit. destruct (index_split v) as [-> ->].
  destruct (split_range v Hv) as [Hvd Hvm], (split_range w Hw) as [_ Hwm].
  rewrite bit_aset by done. rewrite (vector_eq v w).
  destruct (Z.eqb_spec (v / 32) (w / 32)) as [E|]; cbn [andb orb negb]; [|done].
  unfold u32. rewrite testbit_mod_pow2, Z.lor_spec, BIT_testbit by lia.
  destruct (Z.ltb_spec (w mod 32) 32); [|lia]. unfold bit. rewrite E. btauto.
Qed.

Lemma reset_bit_bit tab v w :
  tab_ok tab -> 0 <= v < 256 -> 0 <= w < 256 -> bit (reset_bit tab v) w = negb (v =? w) && bit tab w.
Proof.
  intros Ht Hv Hw. unfold reset_bit. destruct (index_split v) as [-> ->].
  destruct (split_range v Hv) as [Hvd Hvm], (split_range w Hw) as [_ Hwm].
  rewrite bit_aset by done. rewrite (vector_eq v w).
  destruct (Z.eqb_spec (v / 32) (w / 32)) as [E|]; cbn [andb orb negb]; [|done].
  unfold u32. rewrite testbit_mod_pow2, Z.land_spec, Z.lnot_spec, BIT_testbit by lia.
  destruct (Z.ltb_spec (w mod 32) 32); [|lia]. unfold bit. rewrite E. btauto.
Qed.

(** [v] is the largest member of the table. *)
Definition highest (tab : list Z) (v : Z) : Prop :=
  0 <= v < 256 /\ bit tab v = true /\ forall w, v < w < 256 -> bit tab w = false.

Lemma zero_word tab w : aget 0 tab (w / 32) = 0 -> bit tab w = false.
Proof. intros E. unfold bit. by rewrite E, Z.bits_0. Qed.

Lemma highest_loop_spec n tab :
  tab_ok tab -> (n <= 8)%nat -> (forall w, 32 * Z.of_nat n <= w < 256 -> bit tab w = false) ->
  (highest tab (highest_loop n tab)) \/
  (highest_loop n tab = -1 /\ forall w, 0 <= w < 256 -> bit tab w = false).
Proof.
  intros Ht. induction n as [|n IH]; intros Hn Hz; cbn [highest_loop].
  { right. split; [done|]. intros w Hw. apply Hz. lia. }
  set (i := Z.of_nat n) in *. pose proof (apic_word_range tab i Ht) as Hr.
  destruct (nz (aget 0 tab i)) eqn:E.
  - left. unfold nz in E. apply negb_true_iff, Z.eqb_neq in E. unfold range in Hr.
    destruct (clz32_testbit (aget 0 tab i) ltac:(lia)) as (B & T & U).
    unfold fls_bit. set (k := 31 - clz32 (aget 0 tab i)) in *.
    assert (D : (i * 32 + k) / 32 = i) by (rewrite Z.div_add_l by lia; rewrite Z.div_small; lia).
    assert (M : (i * 32 + k) mod 32 = k) by (rewrite Z.add_comm, Z.mod_add, Z.mod_small; lia).
    split; [lia|]. split; [unfold bit; by rewrite D, M|].
    intros w Hw. destruct (Z.lt_ge_cases w (32 * Z.of_nat (S n))) as [Hlt|]; [|apply Hz; lia].
    assert (Dw : w / 32 = i) by (symmetry; apply (Z.div_unique w 32 i (w - 32 * i)); lia).
    unfold bit. rewrite Dw. apply U. pose proof (Z.div_mod w 32). lia.
  - apply IH; [lia|]. intros w Hw. destruct (Z.lt_ge_cases w (32 * Z.of_nat (S n))); [|apply Hz; lia].
    apply zero_word. unfold nz in E. apply negb_false_iff, Z.eqb_eq in E.
    replace (w / 32) with i; [done|]. apply (Z.div_unique w 32 i (w - 32 * i)); lia.
Qed.

Lemma highest_cases tab : tab_ok tab ->
  (highest tab (get_highest_priority_int tab)) \/
  (get_highest_priority_int tab = -1 /\ forall w, 0 <= w < 256 -> bit tab w = false).
Proof. intros Ht. apply highest_loop_spec; [done | lia | lia]. Qed.

Lemma highest_unique tab v w : highest tab v -> highest tab w -> v = w.
Proof.
  intros (Hv & Bv & Uv) (Hw & Bw & Uw). destruct (Z.lt_trichotomy v w) as [H|[H|H]]; [|done|].
  - rewrite Uv in Bw by lia. done.
  - rewrite Uw in Bv by lia. done.
Qed.

Lemma highest_int tab v : tab_ok tab -> highest tab v -> get_highest_priority_int tab = v.
Proof.
  intros Ht Hv. destruct (highest_cases tab Ht) as [H|[_ H]].
  - by apply (highest_unique tab).
  - destruct Hv as (Hv & B & _). by rewrite H in B.
Qed.

Lemma highest_none tab :
  tab_ok tab -> (forall w, 0 <= w < 256 -> bit tab w = false) -> get_highest_priority_int tab = -1.
Proof.
  intros Ht H. destruct (highest_cases tab Ht) as [(Hv & B & _)|[E _]]; [|done].
  by rewrite H in B.
Qed.

(** ** Type invariant *)

Definition words (n : nat) (l : list Z) : Prop := length l = n /\ Forall (range 32) l.

Record apic_wf (s : APICState) : Prop := {
  aw_request : range 32 (interrupt_request (cpu_env s));
  aw_base : range 32 (apicbase s);
  aw_id : range 8 (id s);
  aw_arb_id : range 8 (arb_id s);
  aw_tpr : range 8 (tpr s);
  aw_spurious : range 32 (spurious_vec s);
  aw_log_dest : range 8 (log_dest s);
  aw_dest_mode : range 8 (dest_mode s);
  aw_isr : tab_ok (isr s);
  aw_tmr : tab_ok (tmr s);
  aw_irr : tab_ok (irr s);
  aw_lvt : words 6 (lvt s);
  aw_esr : range 32 (esr s);
  aw_icr : words 2 (icr s);
  aw_divide : range 32 (divide_conf s);
  aw_shift : 0 <= count_shift s < 8;
  aw_initial : range 32 (initial_count s);
  aw_load_time : - 2 ^ 63 <= initial_count_load_time s < 2 ^ 63;
  aw_next_time : - 2 ^ 63 <= next_time s < 2 ^ 63
}.

Lemma aset_words n l i x : words n l -> range 32 x -> words n (aset l i x).
Proof.
  intros [Hl Hw] Hx. split; [by rewrite aset_length|]. unfold aset. by apply Forall_insert.
Qed.

Lemma words_range n l i : words n l -> range 32 (aget 0 l i).
Proof.
  intros [_ Hw]. unfold aget. rewrite nth_lookup.
  destruct (l !! Z.to_nat i) eqn:E; cbn; [|unfold range; lia].
  by apply (Forall_lookup_1 _ _ _ _ Hw E).
Qed.

Lemma replicate_words n x : range 32 x -> words n (replicate n x).
Proof. intros. split; [apply length_replicate | by apply Forall_replicate]. Qed.
Lemma replicate_tab x : range 32 x -> tab_ok (replicate 8 x).
Proof. intros H. split; apply (replicate_words 8 x H). Qed.

Create HintDb apicwf discriminated.
#[local] Hint Resolve set_bit_ok reset_bit_ok aset_words replicate_words replicate_tab
  aw_request aw_base aw_id aw_arb_id aw_tpr aw_spurious aw_log_dest aw_dest_mode aw_isr aw_tmr
  aw_irr aw_lvt aw_esr aw_icr aw_divide aw_shift aw_initial aw_load_time aw_next_time
  u8_range u32_range s64_range : apicwf.

(** A state whose fields are those of a well-formed one but for updates that
    [apicwf] knows. *)
Ltac apic_step := constructor; cbn; auto with apicwf.

Lemma cpu_interrupt_wf s m : apic_wf s -> apic_wf (cpu_interrupt s m).
Proof. intros. apic_step. Qed.
Lemma cpu_reset_interrupt_wf s m : apic_wf s -> apic_wf (cpu_reset_interrupt s m).
Proof. intros. apic_step. Qed.
#[local] Hint Resolve cpu_interrupt_wf cpu_reset_interrupt_wf : apicwf.

Lemma update_irq_wf s : apic_wf s -> apic_wf (apic_update_irq s).
Proof. intros. unfold apic_update_irq. repeat case_match; auto with apicwf. Qed.
#[local] Hint Resolve update_irq_wf : apicwf.

Lemma set_irq_wf d s v t : apic_wf s -> apic_wf (apic_set_irq d s v t).2.
Proof.
  intros. unfold apic_set_irq. cbn [snd].
  destruct (nz t); apply update_irq_wf; apic_step.
Qed.
#[local] Hint Resolve set_irq_wf : apicwf.

Lemma eoi_wf s : apic_wf s -> apic_wf (apic_eoi s).
Proof. intros. unfold apic_eoi. case_match; [done|]. apply update_irq_wf. apic_step. Qed.

Lemma local_deliver_wf d s v : apic_wf s -> apic_wf (apic_local_deliver d s v).2.
Proof. intros. unfold apic_local_deliver. repeat case_match; cbn [snd]; auto with apicwf. Qed.
#[local] Hint Resolve eoi_wf local_deliver_wf : apicwf.

Lemma deliver_pic_wf d s l : apic_wf s -> apic_wf (apic_deliver_pic_intr d s l).2.
Proof.
  intros. unfold apic_deliver_pic_intr.
  repeat case_match; cbn [snd]; auto with apicwf; apply cpu_reset_interrupt_wf; apic_step.
Qed.

Lemma timer_update_wf s t : apic_wf s -> apic_wf (apic_timer_update s t).
Proof. intros. unfold apic_timer_update. repeat case_match; apic_step. Qed.
#[local] Hint Resolve deliver_pic_wf timer_update_wf : apicwf.

Lemma timer_wf d s : apic_wf s -> apic_wf (apic_timer d s).2.
Proof.
  intros. unfold apic_timer. assert (H' : apic_wf (s <| timer := None |>)) by apic_step.
  destruct (nz _); cbn [snd]; [auto with apicwf|].
  pose proof (local_deliver_wf d _ APIC_LVT_TIMER H') as H2.
  destruct (apic_local_deliver _ _ _) as [d' s']. cbn [snd] in *. auto with apicwf.
Qed.

Lemma land_pos_range w x m : range w m -> 0 <= w -> range w (Z.land x m).
Proof. intros. rewrite Z.land_comm. by apply land_range. Qed.

Lemma write_register_wf s index val now :
  apic_wf s -> range 32 val -> - 2 ^ 63 <= now < 2 ^ 63 -> apic_wf (write_register s index val now).
Proof.
  intros H Hv Hn. unfold write_register.
  assert (Hm : forall m, range 32 m -> range 32 (Z.land val m)) by (intros; by apply land_range; [lia|]).
  repeat case_match; auto with apicwf; try apply update_irq_wf; try apply timer_update_wf;
    apic_step.
  - apply Hm. unfold range. lia.
  - apply Hm. unfold range. lia.
  - change 7 with (2 ^ 3 - 1). rewrite low_mask by lia. apply Z.mod_pos_bound. lia.
Qed.

Lemma readl_wf s addr now : apic_wf s -> apic_wf (apic_mem_readl s addr now).2.
Proof. intros. unfold apic_mem_readl. repeat case_match; cbn [snd]; try done; apic_step. Qed.

Lemma get_interrupt_wf s : apic_wf s -> forall s', (apic_get_interrupt (Some s)).2 = Some s' -> apic_wf s'.
Proof.
  intros H s'. unfold apic_get_interrupt. repeat case_match; cbn [snd]; intros [= <-]; try done.
  apply update_irq_wf. apic_step.
Qed.

(** ** The bus invariant *)

(** What a piece of [code] run on an APIC must keep. *)
Definition keeps (f : APICState -> APICState) : Prop :=
  forall s, apic_wf s -> apic_wf (f s) /\ idx (f s) = idx s.
Definition code_keeps (code : Z -> APICState -> Z * APICState) : Prop :=
  forall d, keeps (fun s => (code d s).2).

Record bus_ok (bus : ApicBus) : Prop := {
  bo_len : length (local_apics bus) = 256%nat;
  bo_last : 0 <= last_apic_idx bus <= MAX_APICS;
  bo_apics n s : 0 <= n -> apic_at bus n = Some s -> n < last_apic_idx bus /\ apic_wf s /\ idx s = n;
  bo_dense n : 0 <= n < last_apic_idx bus -> apic_at bus n <> None
}.

Lemma apic_at_range bus n s : bus_ok bus -> 0 <= n -> apic_at bus n = Some s -> n < 255.
Proof.
  intros Hb Hn E. destruct (bo_apics bus Hb n s Hn E). pose proof (bo_last bus Hb).
  unfold MAX_APICS in *. lia.
Qed.

Lemma apic_at_set bus n s m :
  length (local_apics bus) = 256%nat -> 0 <= n < 256 -> 0 <= m ->
  apic_at (set_apic bus n s) m = if n =? m then Some s else apic_at bus m.
Proof.
  intros Hl Hn Hm. unfold apic_at, set_apic. cbn. destruct (Z.eqb_spec n m) as [->|Hne].
  - apply aget_aset_eq. lia.
  - by apply aget_aset_ne; [lia..|].
Qed.

Lemma on_apic_eq code bus n :
  on_apic code bus n =
    match apic_at bus n with
    | None => bus
    | Some s => (set_apic bus n (code (apic_irq_delivered bus) s).2)
                  <| apic_irq_delivered := (code (apic_irq_delivered bus) s).1 |>
    end.
Proof. unfold on_apic, set_apic. destruct (apic_at bus n); [|done]. by destruct (code _ _). Qed.

Lemma set_apic_ok bus n s s' :
  bus_ok bus -> 0 <= n -> apic_at bus n = Some s -> apic_wf s' -> idx s' = idx s ->
  bus_ok (set_apic bus n s').
Proof.
  intros H Hn E Hw Hi. pose proof (apic_at_range bus n s H Hn E). destruct H as [Hl Hb Ha Hd].
  constructor; [by cbn; rewrite aset_length | done | |].
  - intros m t Hm. rewrite apic_at_set by (done || lia).
    destruct (Z.eqb_spec n m) as [<-|]; [|by apply Ha].
    intros [= <-]. destruct (Ha n s Hn E) as (? & _ & ?). cbn. rewrite Hi. auto.
  - intros m Hm. rewrite apic_at_set by (done || lia).
    destruct (Z.eqb_spec n m); [done | by apply Hd].
Qed.

Lemma on_apic_ok code bus n : code_keeps code -> 0 <= n -> bus_ok bus -> bus_ok (on_apic code bus n).
Proof.
  intros Hc Hn H. rewrite on_apic_eq. destruct (apic_at bus n) as [s|] eqn:E; [|done].
  destruct (bo_apics bus H n s Hn E) as (_ & Hw & _).
  destruct (Hc (apic_irq_delivered bus) s Hw) as [Hw' Hi].
  pose proof (set_apic_ok bus n s _ H Hn E Hw' Hi) as H'.
  constructor; [apply (bo_len _ H') | apply (bo_last _ H') | apply (bo_apics _ H') | apply (bo_dense _ H')].
Qed.

Lemma foldl_ok {A : Type} (P : ApicBus -> Prop) (f : ApicBus -> A -> ApicBus) l bus :
  (forall b x, x ∈ l -> P b -> P (f b x)) -> P bus -> P (foldl f bus l).
Proof.
  revert bus. induction l as [|x l IH]; intros bus Hf Hb; cbn; [done|].
  apply IH; [|apply Hf; [left|done]]. intros b y Hy. apply Hf. by right.
Qed.

Lemma foreach_ok bm code bus : code_keeps code -> bus_ok bus -> bus_ok (foreach_apic bm code bus).
Proof.
  intros Hc. unfold foreach_apic. apply foldl_ok. intros b i Hi Hb. unfold foreach_word.
  apply elem_of_seqZ in Hi. destruct (nz _); [|done]. revert Hb. apply foldl_ok.
  intros b' j Hj Hb'. apply elem_of_seqZ in Hj. destruct (nz _); [|done].
  apply on_apic_ok; [done | lia | done].
Qed.

Lemma update_irq_idx s : idx (apic_update_irq s) = idx s.
Proof. unfold apic_update_irq. by repeat case_match. Qed.
Lemma set_irq_idx d s v t : idx (apic_set_irq d s v t).2 = idx s.
Proof. unfold apic_set_irq. cbn [snd]. rewrite update_irq_idx. by destruct (nz t). Qed.
Lemma timer_update_idx s t : idx (apic_timer_update s t) = idx s.
Proof. unfold apic_timer_update. by repeat case_match. Qed.
Lemma local_deliver_idx d s v : idx (apic_local_deliver d s v).2 = idx s.
Proof. unfold apic_local_deliver. repeat case_match; cbn [snd]; by rewrite ?set_irq_idx. Qed.
Lemma eoi_idx s : idx (apic_eoi s) = idx s.
Proof. unfold apic_eoi. case_match; [done|]. by rewrite update_irq_idx. Qed.

Lemma set_irq_keeps v t : code_keeps (fun d s => apic_set_irq d s v t).
Proof. intros d s H. split; [by apply set_irq_wf | apply set_irq_idx]. Qed.
Lemma interrupt_keeps m : code_keeps (plain (fun s => cpu_interrupt s m)).
Proof. intros d s H. split; [by apply cpu_interrupt_wf | done]. Qed.
Lemma startup_keeps v : code_keeps (plain (fun s => apic_startup s v)).
Proof. intros d s H. split; [apply cpu_interrupt_wf; apic_step | done]. Qed.
Lemma arb_keeps : code_keeps (plain (fun s => s <| arb_id := id s |>)).
Proof. intros d s H. split; [apic_step | done]. Qed.
Lemma pic_intr_keeps l : code_keeps (fun d s => apic_deliver_pic_intr d s l).
Proof.
  intros d s H. split; [by apply deliver_pic_wf|]. unfold apic_deliver_pic_intr.
  repeat case_match; cbn [snd]; by rewrite ?local_deliver_idx.
Qed.
Lemma timer_keeps : code_keeps apic_timer.
Proof.
  intros d s H. split; [by apply timer_wf|]. unfold apic_timer.
  destruct (nz _); cbn [snd]; [by rewrite timer_update_idx|].
  destruct (apic_local_deliver d _ _) as [d' s'] eqn:E. cbn [snd].
  rewrite timer_update_idx. apply (f_equal snd) in E. cbn in E. by rewrite <- E, local_deliver_idx.
Qed.
Lemma write_register_keeps index val now :
  range 32 val -> - 2 ^ 63 <= now < 2 ^ 63 -> keeps (fun s => write_register s index val now).
Proof.
  intros Hv Hn s H. split; [by apply write_register_wf|]. unfold write_register.
  repeat case_match; by rewrite ?update_irq_idx, ?timer_update_idx, ?eoi_idx.
Qed.

Lemma lowpri_nonneg words i : 0 <= i -> -1 <= lowpri_loop words i.
Proof.
  revert i. induction words as [|w words IH]; intros i Hi; cbn; [lia|].
  destruct (nz w); [|apply IH; lia]. unfold ffs_bit, ctz32.
  repeat match goal with |- context [if ?b then _ else _] => destruct b end; lia.
Qed.

Lemma bus_deliver_ok bus bm dm v p t : bus_ok bus -> bus_ok (apic_bus_deliver bus bm dm v p t).
Proof.
  intros H. pose proof (set_irq_keeps v t). unfold apic_bus_deliver.
  repeat case_match; try done; try (by apply foreach_ok; auto using interrupt_keeps).
  apply on_apic_ok; [done | by apply Z.leb_le | done].
Qed.

Lemma deliver_ok bus s dest dmode dm v p t : bus_ok bus -> bus_ok (apic_deliver bus s dest dmode dm v p t).
Proof.
  intros H. unfold apic_deliver. destruct (_ && _); [by apply foreach_ok; [apply arb_keeps|]|].
  destruct (dm =? 6); [by apply foreach_ok; [apply startup_keeps|]|]. by apply bus_deliver_ok.
Qed.

Lemma writel_ok bus cpu addr val now :
  bus_ok bus -> (forall n, cpu = Some n -> 0 <= n) -> range 32 val -> - 2 ^ 63 <= now < 2 ^ 63 ->
  bus_ok (apic_mem_writel bus cpu addr val now).
Proof.
  intros H Hc Hv Hn. unfold apic_mem_writel, apic_send_msi, apic_deliver_irq.
  destruct (_ || _); [by apply bus_deliver_ok|]. destruct cpu as [n|]; [|done].
  specialize (Hc n eq_refl). destruct (apic_at bus n) as [s|] eqn:E; [|done].
  destruct (bo_apics bus H n s Hc E) as (_ & Hw & _). destruct (_ =? 0x30).
  - apply deliver_ok. apply (set_apic_ok bus n s); try done. apic_step.
  - destruct (write_register_keeps (Z.land (Z.shiftr addr 4) 0xff) val now Hv Hn s Hw).
    by apply (set_apic_ok bus n s).
Qed.

(** ** Reachable buses *)

Definition int64 (x : Z) : Prop := - 2 ^ 63 <= x < 2 ^ 63.

(** Everything the CPUs, the timers, the 8259 and the I/O APIC can do. *)
Inductive bus_step (bus : ApicBus) : ApicBus -> Prop :=
| bs_init env : range 32 (interrupt_request env) -> bus_step bus (apic_init bus env).2
| bs_write cpu addr val now :
    (forall n, cpu = Some n -> 0 <= n) -> range 32 val -> int64 now ->
    bus_step bus (apic_mem_writel bus cpu addr val now)
| bs_read n s addr now :
    0 <= n -> apic_at bus n = Some s -> bus_step bus (set_apic bus n (apic_mem_readl s addr now).2)
| bs_pic n level :
    0 <= n -> bus_step bus (on_apic (fun d s => apic_deliver_pic_intr d s level) bus n)
| bs_timer n : 0 <= n -> bus_step bus (on_apic apic_timer bus n)
| bs_deliver dest dest_mode delivery_mode v polarity trigger_mode :
    bus_step bus (apic_deliver_irq bus dest dest_mode delivery_mode v polarity trigger_mode)
| bs_get n s s' :
    0 <= n -> apic_at bus n = Some s -> (apic_get_interrupt (Some s)).2 = Some s' ->
    bus_step bus (set_apic bus n s')
| bs_base n s s' val :
    0 <= n -> apic_at bus n = Some s -> cpu_set_apic_base (Some s) val = Some s' ->
    bus_step bus (set_apic bus n s')
| bs_tpr n s s' val :
    0 <= n -> apic_at bus n = Some s -> cpu_set_apic_tpr (Some s) val = Some s' ->
    bus_step bus (set_apic bus n s')
| bs_init_reset n s :
    0 <= n -> apic_at bus n = Some s -> bus_step bus (set_apic bus n (apic_init_reset s))
| bs_sipi n s :
    0 <= n -> apic_at bus n = Some s -> bus_step bus (set_apic bus n (apic_sipi s))
| bs_reset n s cpu_reset :
    0 <= n -> apic_at bus n = Some s ->
    range 32 (interrupt_request (cpu_reset (cpu_env s))) ->
    bus_step bus (set_apic bus n (apic_reset cpu_reset s)).

Inductive bus_reachable : ApicBus -> Prop :=
| br_start : bus_reachable no_bus
| br_step bus bus' : bus_reachable bus -> bus_step bus bus' -> bus_reachable bus'.

Lemma reset_tables_wf s :
  range 32 (interrupt_request (cpu_env s)) -> range 32 (apicbase s) -> range 8 (id s) ->
  range 8 (arb_id s) -> apic_wf (apic_init_reset s).
Proof.
  intros. assert (range 32 0) by (unfold range; lia).
  assert (range 32 (BIT 16)) by by apply BIT_range.
  constructor; cbn; try (apply replicate_tab || by apply (replicate_words 6) ||
    by apply (replicate_words 2)); auto; unfold range; lia.
Qed.

Lemma get_interrupt_idx s s' : (apic_get_interrupt (Some s)).2 = Some s' -> idx s' = idx s.
Proof.
  unfold apic_get_interrupt. repeat case_match; cbn [snd]; intros [= <-]; try done.
  by rewrite update_irq_idx.
Qed.

Lemma apic_base_wf s s' val : apic_wf s -> cpu_set_apic_base (Some s) val = Some s' -> apic_wf s' /\ idx s' = idx s.
Proof.
  intros H. cbn. intros [= <-].
  assert (R : range 32 (Z.lor (Z.land val 0xfffff000)
    (Z.land (apicbase s) (Z.lor MSR_IA32_APICBASE_BSP MSR_IA32_APICBASE_ENABLE)))).
  { apply lor_range; [lia| |apply land_range; [lia|apply H]].
    rewrite Z.land_comm. apply land_range; unfold range; lia. }
  destruct (negb _); split; try done; [|apic_step].
  constructor; cbn; auto with apicwf; apply land_range; try lia; [exact R | apply H].
Qed.

Lemma apic_init_ok bus env :
  bus_ok bus -> range 32 (interrupt_request env) -> bus_ok (apic_init bus env).2.
Proof.
  intros [Hl Hb Ha Hd] Hr. unfold apic_init, MAX_APICS in *. destruct (Z.leb_spec 255 (last_apic_idx bus)); [done|].
  cbn [snd]. set (s := _ <| id := _ |>).
  assert (Hw : apic_wf s).
  { assert (range 32 0) by (unfold range; lia).
    constructor; cbn; try (apply replicate_tab || by apply (replicate_words 6) ||
      by apply (replicate_words 2)); auto with apicwf; unfold range; lia. }
  constructor; [by cbn; rewrite aset_length | cbn; unfold MAX_APICS; lia | |].
  - intros n t Hn. change (apic_at _ n) with (apic_at (set_apic bus (last_apic_idx bus) s) n).
    rewrite apic_at_set by (done || lia). cbn [last_apic_idx set_field].
    destruct (Z.eqb_spec (last_apic_idx bus) n) as [<-|].
    + intros [= <-]. split; [cbn; lia|done].
    + intros E. destruct (Ha n t Hn E). split; [cbn; lia|done].
  - intros n Hn. change (apic_at _ n) with (apic_at (set_apic bus (last_apic_idx bus) s) n).
    cbn in Hn. rewrite apic_at_set by (done || lia).
    destruct (Z.eqb_spec (last_apic_idx bus) n); [done | apply Hd; lia].
Qed.

Lemma set_lvt_wf s i x :
  apic_wf s -> range 32 x -> apic_wf (s <| lvt := aset (lvt s) i x |>).
Proof. intros. apic_step. Qed.

Lemma bus_step_ok bus bus' : bus_step bus bus' -> bus_ok bus -> bus_ok bus'.
Proof.
  intros Hs Hb. destruct Hs;
    try match goal with E : apic_at bus ?n = Some ?s, Hn : 0 <= ?n |- _ =>
      destruct (bo_apics bus Hb n s Hn E) as (_ & Hw & _); apply (set_apic_ok bus n s); try done end.
  - by apply apic_init_ok.
  - by apply writel_ok.
  - by apply readl_wf.
  - unfold apic_mem_readl. by repeat case_match.
  - apply on_apic_ok; [apply pic_intr_keeps | done | done].
  - apply on_apic_ok; [apply timer_keeps | done | done].
  - by apply bus_deliver_ok.
  - by apply (get_interrupt_wf s).
  - by apply get_interrupt_idx.
  - by apply (apic_base_wf s s' val).
  - by apply (apic_base_wf s s' val).
  - cbn in *. simplify_eq. apply update_irq_wf. apic_step.
    rewrite Z.shiftl_mul_pow2 by lia. change 0x0f with (2 ^ 4 - 1). rewrite low_mask by lia.
    pose proof (Z.mod_pos_bound val (2 ^ 4)). unfold range. lia.
  - cbn in *. simplify_eq. by rewrite update_irq_idx.
  - apply reset_tables_wf; apply Hw.
  - unfold apic_sipi. case_match; [by apply cpu_reset_interrupt_wf|].
    pose proof (cpu_reset_interrupt_wf s CPU_INTERRUPT_SIPI Hw). apic_step.
  - unfold apic_sipi. by case_match.
  - unfold apic_reset. set (t := apic_init_reset _).
    assert (Ht : apic_wf t).
    { apply reset_tables_wf; try apply Hw; [done|]. cbn. unfold range.
      destruct (cpu_is_bsp _); vm_compute; split; congruence. }
    destruct (cpu_is_bsp _); [|done]. apply set_lvt_wf; [done | unfold range; lia].
  - unfold apic_reset. by destruct (cpu_is_bsp _).
Qed.

Lemma no_bus_ok : bus_ok no_bus.
Proof.
  constructor; [reflexivity | cbn; unfold MAX_APICS; lia | | cbn; lia]. intros n s Hn.
  unfold apic_at, aget, no_bus. cbn [local_apics]. rewrite nth_lookup.
  destruct (replicate 256 None !! Z.to_nat n) eqn:E; cbn; [|done].
  by apply lookup_replicate in E as [-> _].
Qed.

Lemma bus_reachable_ok bus : bus_reachable bus -> bus_ok bus.
Proof. induction 1; [apply no_bus_ok | by eapply bus_step_ok]. Qed.

(** ** Signalling the CPU *)

Definition enabled (s : APICState) : Prop := nz (Z.land (spurious_vec s) APIC_SV_ENABLE) = true.

(** The pending vector [v] is above the processor priority: its class beats
    the task priority and every vector in service (with no priority at all,
    any vector will do). *)
Definition deliverable (s : APICState) (v : Z) : Prop :=
  0 <= v < 256 /\ bit (irr s) v = true /\
  ((tpr s = 0 /\ forall w, 0 <= w < 256 -> bit (isr s) w = true -> w < 16) \/
   (tpr s / 16 < v / 16 /\ forall w, 0 <= w < 256 -> bit (isr s) w = true -> w / 16 < v / 16)).

Lemma class_bits v : 0 <= v < 256 -> Z.land v 0xf0 = v / 16 * 16.
Proof.
  intros Hv. change 0xf0 with (Z.shiftl 15 4).
  assert (E : Z.land v (Z.shiftl 15 4) = Z.shiftl (Z.land (Z.shiftr v 4) 15) 4).
  { apply Z.bits_inj'. intros i Hi. rewrite Z.land_spec, !Z.shiftl_spec by lia.
    destruct (Z.lt_ge_cases i 4); [rewrite !(Z.testbit_neg_r _ (i - 4)) by lia; btauto|].
    rewrite Z.land_spec, Z.shiftr_spec by lia. by replace (i - 4 + 4) with i by lia. }
  rewrite E. change 15 with (2 ^ 4 - 1). rewrite low_mask, Z.shiftl_mul_pow2, Z.shiftr_div_pow2 by lia.
  change (2 ^ 4) with 16. rewrite (Z.mod_small (v / 16)); [done|].
  split; [apply Z.div_pos | apply Z.div_lt_upper_bound]; lia.
Qed.

(** The class of the highest vector in service, 0 if there is none. *)
Definition service_class (s : APICState) : Z := Z.max 0 (get_highest_priority_int (isr s)) / 16.

Lemma service_class_bound s c : apic_wf s -> 0 < c ->
  service_class s < c <-> forall w, 0 <= w < 256 -> bit (isr s) w = true -> w / 16 < c.
Proof.
  intros H Hc. unfold service_class.
  destruct (highest_cases (isr s) (aw_isr s H)) as [(Hv & B & U)|[E N]].
  - rewrite Z.max_r by lia. split; intros Hlt.
    + intros w Hw Bw. destruct (Z.lt_ge_cases (get_highest_priority_int (isr s)) w).
      * rewrite U in Bw by lia. done.
      * pose proof (Z.div_le_mono w (get_highest_priority_int (isr s)) 16). lia.
    + by apply Hlt.
  - rewrite E. change (Z.max 0 (-1) / 16) with 0. split; [|done]. intros _ w Hw Bw.
    by rewrite N in Bw.
Qed.

Lemma ppr_view s : apic_wf s ->
  0 <= apic_get_ppr s < 256 /\
  (apic_get_ppr s = 0 <-> tpr s = 0 /\ service_class s = 0) /\
  apic_get_ppr s / 16 = Z.max (tpr s / 16) (service_class s).
Proof.
  intros H. unfold apic_get_ppr. pose proof (aw_tpr s H) as Ht. unfold range in Ht.
  assert (Ei : (if get_highest_priority_int (isr s) <? 0 then 0 else get_highest_priority_int (isr s))
    = Z.max 0 (get_highest_priority_int (isr s))) by (bcase; rewrite ?Z.ltb_lt, ?Z.ltb_ge in *; lia).
  rewrite Ei, !Z.shiftr_div_pow2 by lia. change (2 ^ 4) with 16. fold (service_class s).
  assert (Hs : 0 <= service_class s < 16).
  { unfold service_class. destruct (highest_cases (isr s) (aw_isr s H)) as [(Hv & _)|[E _]].
    - rewrite Z.max_r by lia. split; [apply Z.div_pos | apply Z.div_lt_upper_bound]; lia.
    - rewrite E. change (Z.max 0 (-1) / 16) with 0. lia. }
  assert (0 <= tpr s / 16 < 16) by (split; [apply Z.div_pos | apply Z.div_lt_upper_bound]; lia).
  pose proof (Z.div_mod (tpr s) 16 ltac:(lia)). pose proof (Z.mod_pos_bound (tpr s) 16 ltac:(lia)).
  destruct (Z.leb_spec (service_class s) (tpr s / 16)).
  - split; [lia|]. split; lia.
  - rewrite Z.shiftl_mul_pow2 by lia. change (2 ^ 4) with 16. rewrite Z.div_mul by lia.
    split; [lia|]. split; lia.
Qed.

Lemma deliverable_top s v : apic_wf s -> highest (irr s) v ->
  (exists w, deliverable s w) <-> deliverable s v.
Proof.
  intros H (Hv & B & U). split; [|by exists v]. intros (w & Hw & Bw & D).
  assert (w <= v) by (destruct (Z.lt_ge_cases v w); [rewrite U in Bw by lia; done | done]).
  pose proof (Z.div_le_mono w v 16 ltac:(lia) ltac:(lia)).
  split; [done|]. split; [done|]. destruct D as [D|[D1 D2]]; [by left|]. right.
  split; [lia|]. intros x Hx Bx. specialize (D2 x Hx Bx). lia.
Qed.

Lemma deliverable_ppr s v : apic_wf s -> 0 <= v < 256 -> bit (irr s) v = true ->
  deliverable s v <->
  nz (apic_get_ppr s) && (Z.land v 0xf0 <=? Z.land (apic_get_ppr s) 0xf0) = false.
Proof.
  intros H Hv B. destruct (ppr_view s H) as (Hr & Hz & Hc).
  rewrite !class_bits, Hc by lia.
  assert (Hs : 0 <= service_class s) by (unfold service_class; apply Z.div_pos; lia).
  assert (Hone : service_class s = 0 <-> forall w, 0 <= w < 256 -> bit (isr s) w = true -> w < 16).
  { assert (Ez : service_class s = 0 <-> service_class s < 1) by lia. rewrite Ez. split.
    - intros E w Hw Bw. destruct (service_class_bound s 1 H ltac:(lia)) as [K _].
      specialize (K ltac:(lia) w Hw Bw). destruct (Z.lt_ge_cases w 16); [done|].
      pose proof (Z.div_le_mono 16 w 16 ltac:(lia) ltac:(lia)). change (16 / 16) with 1 in *. lia.
    - intros K. apply (service_class_bound s 1 H ltac:(lia)). intros w Hw Bw.
      rewrite Z.div_small by (specialize (K w Hw Bw); lia). lia. }
  assert (Htv : 0 <= tpr s / 16) by (apply Z.div_pos; [apply (aw_tpr s H) | lia]).
  unfold nz. destruct (Z.eqb_spec (apic_get_ppr s) 0) as [E|E]; cbn [negb andb].
  - split; [done|]. intros _. split; [done|]. split; [done|]. left. tauto.
  - rewrite Z.leb_gt. split.
    + intros (_ & _ & [[D1 D2]|[D1 D2]]); [exfalso; tauto|].
      apply (service_class_bound s (v / 16) H ltac:(lia)) in D2. lia.
    + intros D. split; [done|]. split; [done|]. right. split; [lia|].
      apply (service_class_bound s (v / 16) H); lia.
Qed.

Lemma update_irq_cases s : apic_wf s ->
  let signal := enabled s /\ all_apic_interrupts_disabled (cpu_env s) = 0 /\
                exists v, deliverable s v in
  (signal /\ apic_update_irq s = cpu_interrupt s CPU_INTERRUPT_HARD) \/
  (~ signal /\ apic_update_irq s = s).
Proof.
  intros H signal. unfold apic_update_irq, signal, enabled.
  destruct (nz (Z.land (spurious_vec s) APIC_SV_ENABLE)); cbn [negb]; [|right; split; [by intros [? _]|done]].
  destruct (highest_cases (irr s) (aw_irr s H)) as [Hh|[E N]].
  - pose proof Hh as (Hv & B & _). destruct (Z.ltb_spec (get_highest_priority_int (irr s)) 0); [lia|].
    rewrite (deliverable_top s _ H Hh), (deliverable_ppr s _ H Hv B).
    destruct (_ && _); [right; split; [by intros (_ & _ & ?)|done]|].
    change (nz (all_apic_interrupts_disabled (cpu_env s)))
      with (negb (all_apic_interrupts_disabled (cpu_env s) =? 0)).
    destruct (Z.eqb_spec (all_apic_interrupts_disabled (cpu_env s)) 0); cbn [negb].
    + by left.
    + right. split; [intros (_ & Hd & _); congruence | done].
  - rewrite E. cbn. right. split; [|done]. intros (_ & _ & v & Hv & B & _). by rewrite N in B.
Qed.

(** C26: [apic_update_irq] interrupts the CPU exactly when it should.  For every
    APIC of a reachable bus: the hardware interrupt request is raised when the
    APIC is enabled, its interrupts are not suppressed, and some pending vector
    has a class above the task priority and above all vectors in service;
    otherwise nothing changes. *)
Theorem apic_update_irq_signals bus n s :
  bus_reachable bus -> 0 <= n -> apic_at bus n = Some s ->
  let signal := enabled s /\ all_apic_interrupts_disabled (cpu_env s) = 0 /\
                exists v, deliverable s v in
  (signal /\ apic_update_irq s = cpu_interrupt s CPU_INTERRUPT_HARD) \/
  (~ signal /\ apic_update_irq s = s).
Proof.
  intros Hr Hn E. destruct (bo_apics bus (bus_reachable_ok bus Hr) n s Hn E) as (_ & Hw & _).
  by apply update_irq_cases.
Qed.

(** ** Acknowledge and end of interrupt *)

Lemma update_irq_tables s :
  isr (apic_update_irq s) = isr s /\ irr (apic_update_irq s) = irr s /\
  tpr (apic_update_irq s) = tpr s.
Proof. unfold apic_update_irq. by repeat case_match. Qed.

Lemma get_interrupt_top s v :
  apic_wf s -> enabled s -> highest (irr s) v -> (tpr s = 0 \/ tpr s < v) ->
  apic_get_interrupt (Some s) =
    (v, Some (apic_update_irq (s <| irr := reset_bit (irr s) v |> <| isr := set_bit (isr s) v |>))).
Proof.
  intros H En Hh Ht. unfold apic_get_interrupt. rewrite En. cbn [negb].
  rewrite (highest_int (irr s) v (aw_irr s H) Hh). destruct Hh as (Hv & _).
  destruct (Z.ltb_spec v 0); [lia|].
  assert (E : nz (tpr s) && (v <=? tpr s) = false).
  { destruct Ht as [->|Ht]; [done|]. destruct (Z.leb_spec v (tpr s)); [lia | btauto]. }
  by rewrite E.
Qed.

Lemma eoi_tables s v :
  apic_wf s -> highest (isr s) v -> isr (apic_eoi s) = reset_bit (isr s) v /\ irr (apic_eoi s) = irr s.
Proof.
  intros H Hh. unfold apic_eoi. rewrite (highest_int (isr s) v (aw_isr s H) Hh).
  destruct Hh as (Hv & _). destruct (Z.ltb_spec v 0); [lia|].
  destruct (update_irq_tables (s <| isr := reset_bit (isr s) v |>)) as (-> & -> & _). done.
Qed.

(** an interrupt service episode.  On an enabled APIC of a reachable bus,
    let [v] be the highest pending vector, above the task priority and all
    vectors in service.  The acknowledge returns [v] and moves it, and only it,
    from the request to the service register; until the end of interrupt only
    vectors of a higher class can interrupt; the end of interrupt restores the
    service register. *)
Theorem apic_service_episode bus n s v :
  bus_reachable bus -> 0 <= n -> apic_at bus n = Some s ->
  enabled s -> highest (irr s) v -> 16 <= v -> (tpr s = 0 \/ tpr s < v) ->
  (forall w, 0 <= w < 256 -> bit (isr s) w = true -> w < v) ->
  exists s1, apic_get_interrupt (Some s) = (v, Some s1) /\
    (forall w, 0 <= w < 256 ->
       bit (irr s1) w = negb (v =? w) && bit (irr s) w /\
       bit (isr s1) w = (v =? w) || bit (isr s) w) /\
    (forall w, deliverable s1 w -> v / 16 < w / 16) /\
    (forall w, 0 <= w < 256 -> bit (isr (apic_eoi s1)) w = bit (isr s) w).
Proof.
  intros Hr Hn E En Hh H16 Ht Hs.
  destruct (bo_apics bus (bus_reachable_ok bus Hr) n s Hn E) as (_ & Hw & _).
  pose proof (get_interrupt_top s v Hw En Hh Ht) as Eg.
  pose proof (get_interrupt_wf s Hw _ (f_equal snd Eg)) as Hw1.
  eexists. split; [exact Eg|]. set (s0 := s <| irr := _ |> <| isr := _ |>) in *.
  destruct (update_irq_tables s0) as (Ei & Er & Et). destruct Hh as (Hv & B & U).
  assert (Bi : forall w, 0 <= w < 256 -> bit (isr (apic_update_irq s0)) w = (v =? w) || bit (isr s) w)
    by (intros w Hw'; rewrite Ei; by apply set_bit_bit; [apply aw_isr|..]).
  assert (Hh1 : highest (isr (apic_update_irq s0)) v).
  { split; [done|]. split; [by rewrite Bi, Z.eqb_refl by done|]. intros w Hw'. rewrite Bi by lia.
    destruct (Z.eqb_spec v w); [lia|]. destruct (bit (isr s) w) eqn:Bw; [|done].
    specialize (Hs w ltac:(lia) Bw). lia. }
  split; [|split].
  - intros w Hw'. split; [|by apply Bi]. rewrite Er. by apply reset_bit_bit; [apply aw_irr|..].
  - assert (Bv : bit (isr (apic_update_irq s0)) v = true) by apply Hh1.
    intros w (_ & _ & [[_ D]|[_ D]]); specialize (D v Hv Bv); lia.
  - intros w Hw'. rewrite (proj1 (eoi_tables _ v Hw1 Hh1)).
    rewrite reset_bit_bit by (done || apply (aw_isr _ Hw1)). rewrite Bi by done.
    destruct (Z.eqb_spec v w) as [<-|]; cbn; [|done].
    destruct (bit (isr s) v) eqn:Bv; [|done]. specialize (Hs v Hv Bv). lia.
Qed.

(** ** Example buses *)

(** Facts about all vectors of a concrete table, by evaluation. *)
Lemma all_vectors (p : Z -> bool) :
  forallb p (seqZ 0 256) = true -> forall w, 0 <= w < 256 -> p w = true.
Proof.
  rewrite forallb_forall. intros H w Hw. apply H. rewrite <- list_elem_of_In, elem_of_seqZ. lia.
Qed.

Definition is_highest (tab : list Z) (v : Z) : bool :=
  in_range 0 255 v && bit tab v && forallb (fun w => negb (v <? w) || negb (bit tab w)) (seqZ 0 256).

Lemma is_highest_ok tab v : is_highest tab v = true -> highest tab v.
Proof.
  unfold is_highest, in_range. rewrite !andb_true_iff, !Z.leb_le. intros [[Hv B] U].
  split; [lia|]. split; [done|]. intros w Hw. pose proof (all_vectors _ U w ltac:(lia)) as Uw.
  cbn in Uw. destruct (Z.ltb_spec v w); [|lia]. by apply negb_true_iff in Uw.
Qed.

Definition serves_below (s : APICState) (v : Z) : bool :=
  forallb (fun w => negb (bit (isr s) w) || (w <? v)) (seqZ 0 256).

Lemma serves_below_ok s v : serves_below s v = true ->
  forall w, 0 <= w < 256 -> bit (isr s) w = true -> w < v.
Proof.
  intros H w Hw Bw. pose proof (all_vectors _ H w Hw) as U. cbn in U. rewrite Bw in U.
  by apply Z.ltb_lt.
Qed.

Definition demo_cpu : CPUState := mkCPU 0 0 0 0 0 0 0 0 0.

(** One CPU after reset, with the APIC enabled by software. *)
Definition demo_bus : ApicBus :=
  let bus := (apic_init no_bus demo_cpu).2 in
  let bus := match apic_at bus 0 with
             | Some s => set_apic bus 0 (apic_reset (fun c => c) s) | None => bus end in
  apic_mem_writel bus (Some 0) 0xf0 0x1ff 0.

Definition deliver_fixed (bus : ApicBus) (v : Z) : ApicBus := apic_deliver_irq bus 0 0 0 v 0 0.

Lemma demo_bus_reachable : bus_reachable demo_bus.
Proof.
  eapply br_step; [|apply bs_write; [intros n [= <-]; lia | unfold range; lia | unfold int64; lia]].
  set (bus := (apic_init no_bus demo_cpu).2).
  assert (Hb : bus_reachable bus).
  { eapply br_step; [apply br_start|]. apply bs_init. unfold range. cbn. lia. }
  destruct (apic_at bus 0) as [s|] eqn:E; [|done].
  eapply br_step; [exact Hb|]. apply bs_reset; [lia | done |].
  vm_compute in E. injection E as <-. unfold range. cbn. lia.
Qed.

Lemma deliver_fixed_reachable bus v : bus_reachable bus -> bus_reachable (deliver_fixed bus v).
Proof. intros H. eapply br_step; [exact H|]. apply bs_deliver. Qed.

Lemma apic_update_irq_signals_witness :
  exists s, apic_at (deliver_fixed demo_bus 0x41) 0 = Some s /\
    apic_update_irq s = cpu_interrupt s CPU_INTERRUPT_HARD.
Proof.
  destruct (apic_at (deliver_fixed demo_bus 0x41) 0) as [s|] eqn:E; [|by vm_compute in E].
  exists s. split; [done|].
  destruct (apic_update_irq_signals _ 0 s (deliver_fixed_reachable _ 0x41 demo_bus_reachable)
    ltac:(lia) E) as [[_ H]|[H _]]; [exact H|].
  exfalso. apply H. vm_compute in E. injection E as <-.
  split; [reflexivity|]. split; [reflexivity|]. exists 0x41. split; [lia|]. split; [reflexivity|].
  left. split; [reflexivity|]. apply serves_below_ok. reflexivity.
Defined.

Lemma apic_service_episode_witness :
  exists s s1, apic_at (deliver_fixed (deliver_fixed demo_bus 0x41) 0x93) 0 = Some s /\
    apic_get_interrupt (Some s) = (0x93, Some s1) /\
    (forall w, 0 <= w < 256 -> bit (isr (apic_eoi s1)) w = bit (isr s) w).
Proof.
  set (bus := deliver_fixed (deliver_fixed demo_bus 0x41) 0x93).
  assert (Hr : bus_reachable bus) by (do 2 apply deliver_fixed_reachable; apply demo_bus_reachable).
  destruct (apic_at bus 0) as [s|] eqn:E; [|by vm_compute in E]. exists s.
  pose proof E as Es. vm_compute in Es. injection Es as Es.
  destruct (apic_service_episode bus 0 s 0x93 Hr ltac:(lia) E) as (s1 & Eg & _ & _ & Eo).
  - subst s. reflexivity.
  - apply is_highest_ok. subst s. reflexivity.
  - lia.
  - left. subst s. reflexivity.
  - apply serves_below_ok. subst s. reflexivity.
  - exists s1. exact (conj eq_refl (conj Eg Eo)).
Defined.

(** The acknowledge does not look at the vectors in service.  With no task
    priority it returns the highest pending vector whatever is in service; so
    on a reachable bus, with 0x80 in service, 0x41 is pending and not
    deliverable, [apic_update_irq] rightly does not signal it, and yet
    [apic_get_interrupt] (called for an interrupt of the 8259, say) returns it. *)
Theorem apic_acknowledge_ignores_service :
  (forall s v, apic_wf s -> enabled s -> tpr s = 0 -> highest (irr s) v ->
     (apic_get_interrupt (Some s)).1 = v) /\
  exists bus s, bus_reachable bus /\ apic_at bus 0 = Some s /\ bit (isr s) 0x80 = true /\
    apic_update_irq s = s /\ (apic_get_interrupt (Some s)).1 = 0x41.
Proof.
  split.
  { intros s v Hw En Ht Hh. by rewrite (get_interrupt_top s v) by auto. }
  set (bus := deliver_fixed demo_bus 0x80).
  assert (Hr : bus_reachable bus) by apply deliver_fixed_reachable, demo_bus_reachable.
  destruct (apic_at bus 0) as [s|] eqn:E; [|by vm_compute in E].
  destruct (apic_get_interrupt (Some s)) as [i [s1|]] eqn:Eg; vm_compute in E; injection E as Es;
    rewrite <- Es in Eg; [|by vm_compute in Eg].
  exists (deliver_fixed (set_apic bus 0 s1) 0x41).
  eexists. split; [apply deliver_fixed_reachable; eapply br_step; [exact Hr|];
    eapply (bs_get _ 0 s); [lia | rewrite <- Es; vm_compute; reflexivity | rewrite <- Es, Eg; done]|].
  vm_compute in Eg. injection Eg as _ <-.
  split; [vm_compute; reflexivity|]. split; [reflexivity|]. split; vm_compute; reflexivity.
Qed.

(** ** Saved state *)

Section Saved.
Context {F : Type} `{!ByteStream F} `{!ByteStreamLaws F}.

Definition apic_fields : list (FieldOk (F := F) APICState) :=
  [mkFieldOk (VMSTATE_UINT32 apicbase) uint32_ok; mkFieldOk (VMSTATE_UINT8 id) uint8_ok;
   mkFieldOk (VMSTATE_UINT8 arb_id) uint8_ok; mkFieldOk (VMSTATE_UINT8 tpr) uint8_ok;
   mkFieldOk (VMSTATE_UINT32 spurious_vec) uint32_ok; mkFieldOk (VMSTATE_UINT8 log_dest) uint8_ok;
   mkFieldOk (VMSTATE_UINT8 dest_mode) uint8_ok;
   mkFieldOk (VMSTATE_UINT32_ARRAY isr 8) uint32_ok; mkFieldOk (VMSTATE_UINT32_ARRAY tmr 8) uint32_ok;
   mkFieldOk (VMSTATE_UINT32_ARRAY irr 8) uint32_ok; mkFieldOk (VMSTATE_UINT32_ARRAY lvt 6) uint32_ok;
   mkFieldOk (VMSTATE_UINT32 esr) uint32_ok; mkFieldOk (VMSTATE_UINT32_ARRAY icr 2) uint32_ok;
   mkFieldOk (VMSTATE_UINT32 divide_conf) uint32_ok; mkFieldOk (VMSTATE_INT32 count_shift) int32_ok;
   mkFieldOk (VMSTATE_UINT32 initial_count) uint32_ok;
   mkFieldOk (VMSTATE_INT64 initial_count_load_time) int64_ok;
   mkFieldOk (VMSTATE_INT64 next_time) int64_ok; mkFieldOk (VMSTATE_TIMER timer) timer_ok].

Lemma apic_descr_ok : DescrOk (F := F) vmstate_apic apic_fields.
Proof. constructor; cbn; try done; lia. Qed.

Lemma apic_state_valid s :
  apic_wf s -> timer_valid (timer s) -> state_valid vmstate_apic apic_fields s.
Proof.
  intros [? ? ? ? ? ? ? ? [] [] [] [] ? [] ? ? ? ? ?] Ht. unfold state_valid, apic_fields.
  repeat (constructor; [first
    [ by apply array_field_valid; [cbn; lia | done | done | destruct s; cbn; intros g -> ]
    | split; [done|]; split; [cbn; lia|]; intros i _; split; [cbn; auto | by destruct s] ] |]);
    [|constructor].
  cbn. lia.
Qed.

(** Loading restores everything but the CPU, which is saved elsewhere, the
    place on the bus, and the two fields of the start-up protocol. *)
Lemma apic_load_result s s0 :
  apic_wf s -> apic_wf s0 ->
  load_result (F := F) vmstate_apic apic_fields s s0 =
    (0, s <| cpu_env := cpu_env s0 |> <| idx := idx s0 |>
          <| sipi_vector := sipi_vector s0 |> <| wait_for_sipi := wait_for_sipi s0 |>).
Proof.
  intros [_ _ _ _ _ _ _ _ [L1 _] [L2 _] [L3 _] [L4 _] _ [L5 _] _ _ _ _ _]
    [_ _ _ _ _ _ _ _ [M1 _] [M2 _] [M3 _] [M4 _] _ [M5 _] _ _ _ _ _].
  destruct s, s0. cbn in *.
  repeat match goal with
  | H : length ?l = _ |- _ => destruct l; cbn in H; try discriminate H; try injection H as H
  end. reflexivity.
Qed.

End Saved.

End Apic.
