(* ===== verification/ApicDelivery.v ===== *)
(** * Messages on the APIC bus

    Which local APICs a message reaches: the destination bit mask of
    [apic_get_delivery_bitmask], the [foreach_apic] macro and the modes of
    [apic_bus_deliver] (src/s2e/qemu/hw/apic.c), and the periods of the APIC
    timer. *)

From S2P Require Import Prelude BitScan Apic.
Import Apic.

Module ApicDelivery.

(** ** The macro [foreach_apic] *)

(** The effect of [code] on an APIC, whatever the delivery counter. *)
Definition acts (code : Z -> APICState -> Z * APICState) (f : APICState -> APICState) : Prop :=
  forall d s, (code d s).2 = f s.

Definition run_if (b : bool) (f : APICState -> APICState) (o : option APICState) : option APICState :=
  if b then f <$> o else o.

Lemma on_apic_length code bus n : length (local_apics (on_apic code bus n)) = length (local_apics bus).
Proof.
  rewrite on_apic_eq. destruct (apic_at bus n); [|done]. cbn. apply aset_length.
Qed.

Lemma on_apic_at code f bus n m :
  acts code f -> length (local_apics bus) = 256%nat -> 0 <= n < 256 -> 0 <= m ->
  apic_at (on_apic code bus n) m = run_if (n =? m) f (apic_at bus m).
Proof.
  intros Hf Hl Hn Hm. rewrite on_apic_eq. destruct (apic_at bus n) as [s|] eqn:E.
  - change (apic_at (_ <| apic_irq_delivered := _ |>) m)
      with (apic_at (set_apic bus n (code (apic_irq_delivered bus) s).2) m).
    rewrite apic_at_set, Hf by done. destruct (Z.eqb_spec n m) as [<-|]; [by rewrite E | done].
  - destruct (Z.eqb_spec n m) as [<-|]; [by rewrite E | done].
Qed.

Section Foreach.
Context (code : Z -> APICState -> Z * APICState) (f : APICState -> APICState) (Hf : acts code f).

(** A loop that runs [code] at the selected places, each at most once. *)
Lemma select_loop (sel : Z -> bool) (base : Z) l bus m :
  NoDup l -> length (local_apics bus) = 256%nat -> 0 <= m ->
  (forall j, j ∈ l -> 0 <= base + j < 256) ->
  let bus' := foldl (fun b j => if sel j then on_apic code b (base + j) else b) bus l in
  length (local_apics bus') = 256%nat /\
  apic_at bus' m = run_if (bool_decide (m - base ∈ l) && sel (m - base)) f (apic_at bus m).
Proof.
  intros Hd Hl Hm. revert bus Hl. induction l as [|j l IH]; intros bus Hl Hr; cbn; [done|].
  inversion_clear Hd as [|? ? Hj Hd'].
  assert (Hj' : 0 <= base + j < 256) by (apply Hr; left).
  set (b := if sel j then on_apic code bus (base + j) else bus).
  assert (Hlb : length (local_apics b) = 256%nat)
    by (unfold b; destruct (sel j); [by rewrite on_apic_length | done]).
  destruct (IH Hd' b Hlb ltac:(intros; apply Hr; by right)) as [L E]. split; [exact L|].
  rewrite E. assert (Eb : apic_at b m = run_if (sel j && (base + j =? m)) f (apic_at bus m)).
  { unfold b. destruct (sel j); [by rewrite (on_apic_at code f) | done]. }
  rewrite Eb. destruct (Z.eqb_spec (base + j) m) as [Ej|Ej].
  - replace (m - base) with j by lia. rewrite (bool_decide_false (j ∈ l)) by done.
    rewrite (bool_decide_true (j ∈ j :: l)) by left. cbn. by rewrite andb_true_r.
  - rewrite andb_false_r. cbn. f_equal. f_equal.
    apply bool_decide_ext. rewrite elem_of_cons. split; [by right | intros [?|?]; [lia | done]].
Qed.

Lemma foreach_word_at bm bus i m :
  tab_ok bm -> length (local_apics bus) = 256%nat -> 0 <= m < 256 -> 0 <= i < 8 ->
  let bus' := foreach_word bm code bus i in
  length (local_apics bus') = 256%nat /\
  apic_at bus' m = run_if ((i =? m / 32) && bit bm m) f (apic_at bus m).
Proof.
  intros Ht Hl Hm Hi. unfold foreach_word. destruct (nz (aget 0 bm i)) eqn:E.
  - destruct (select_loop (fun j => nz (Z.land (aget 0 bm i) (BIT j))) (i * 32) (seqZ 0 32) bus m)
      as [L A]; [apply NoDup_seqZ | done | lia | intros j Hj; apply elem_of_seqZ in Hj; lia |].
    split; [exact L|]. rewrite A. f_equal.
    destruct (Z.eqb_spec i (m / 32)) as [->|Hne].
    + pose proof (Z.div_mod m 32 ltac:(lia)). pose proof (Z.mod_pos_bound m 32 ltac:(lia)).
      rewrite bool_decide_true by (apply elem_of_seqZ; lia).
      replace (m - m / 32 * 32) with (m mod 32) by lia. by rewrite land_BIT_nz by lia.
    + rewrite bool_decide_false; [done|]. rewrite elem_of_seqZ. intros [? ?]. apply Hne.
      apply (Z.div_unique m 32 i (m - i * 32)); lia.
  - split; [done|]. destruct (Z.eqb_spec i (m / 32)) as [->|]; [|done].
    rewrite zero_word; [done|]. apply negb_false_iff, Z.eqb_eq in E. exact E.
Qed.

Lemma foreach_words_at bm l bus m :
  tab_ok bm -> NoDup l -> (forall i, i ∈ l -> 0 <= i < 8) ->
  length (local_apics bus) = 256%nat -> 0 <= m < 256 ->
  apic_at (foldl (foreach_word bm code) bus l) m =
    run_if (bool_decide (m / 32 ∈ l) && bit bm m) f (apic_at bus m).
Proof.
  intros Ht Hd Hr Hl Hm. revert bus Hl. induction l as [|i l IH]; intros bus Hl; cbn; [done|].
  inversion_clear Hd as [|? ? Hi Hd'].
  destruct (foreach_word_at bm bus i m Ht Hl Hm ltac:(apply Hr; left)) as [L E].
  rewrite IH by (done || intros; apply Hr; by right). rewrite E.
  destruct (Z.eqb_spec i (m / 32)) as [->|Hne].
  - rewrite (bool_decide_false (m / 32 ∈ l)) by done.
    by rewrite (bool_decide_true (m / 32 ∈ m / 32 :: l)) by left.
  - cbn. f_equal. f_equal. apply bool_decide_ext. rewrite elem_of_cons.
    split; [by right | intros [?|?]; [congruence | done]].
Qed.

Lemma foreach_apic_at bm bus m :
  tab_ok bm -> bus_ok bus -> 0 <= m < 256 ->
  apic_at (foreach_apic bm code bus) m = run_if (bit bm m) f (apic_at bus m).
Proof.
  intros Ht Hb Hm. unfold foreach_apic.
  rewrite foreach_words_at; [| done | apply NoDup_seqZ | intros i Hi; apply elem_of_seqZ in Hi;
    unfold MAX_APIC_WORDS in *; lia | apply (bo_len _ Hb) | done].
  rewrite bool_decide_true; [done|]. apply elem_of_seqZ. unfold MAX_APIC_WORDS.
  pose proof (split_range m Hm). lia.
Qed.

End Foreach.

(** ** Destinations *)

(** Two sets of members, as bits, have one of the first [n] in common. *)
Definition in_common (n x y : Z) : bool := existsb (fun i => Z.testbit x i && Z.testbit y i) (seqZ 0 n).

(** Whether the APIC [s] is meant by a destination field, after the manual: a
    physical destination is an id or the broadcast 0xff; a logical destination is
    a set of up to 8 members in the flat model, and in the cluster model the
    number of a cluster (bits 4 to 7) and a set of up to 4 of its members. *)
Definition addressed (destination dmode : Z) (s : APICState) : bool :=
  if dmode =? 0 then (destination =? 0xff) || (id s =? destination)
  else if dest_mode s =? 0xf then in_common 8 destination (log_dest s)
  else (dest_mode s =? 0) && (destination / 16 =? log_dest s / 16) && in_common 4 destination (log_dest s).

Lemma common_bits n x y : 0 <= n -> nz (Z.land (Z.land x y) (Z.ones n)) = in_common n x y.
Proof.
  intros Hn. destruct (in_common n x y) eqn:E.
  - apply existsb_exists in E as (i & Hi & E). apply list_elem_of_In, elem_of_seqZ in Hi.
    unfold nz. apply negb_true_iff, Z.eqb_neq. intros H. apply (f_equal (fun z => Z.testbit z i)) in H.
    rewrite !Z.land_spec, Z.ones_spec_low, E, Z.bits_0 in H by lia. done.
  - apply negb_false_iff, Z.eqb_eq. apply Z.bits_inj. intros i. rewrite !Z.land_spec, Z.bits_0.
    destruct (decide (0 <= i < n)) as [Hi|Hi].
    + apply andb_false_intro1. apply not_true_iff_false. intros T. apply not_true_iff_false in E. apply E.
      apply existsb_exists. exists i. split; [|done]. apply list_elem_of_In, elem_of_seqZ. lia.
    + destruct (Z.lt_ge_cases i 0); [by rewrite (Z.testbit_neg_r x)|].
      rewrite Z.ones_spec_high by lia. by rewrite andb_false_r.
Qed.

Lemma cluster_number x y : range 8 x -> range 8 y -> (Z.land x 0xf0 =? Z.land y 0xf0) = (x / 16 =? y / 16).
Proof.
  intros Hx Hy. assert (K : forall z, range 8 z -> Z.land z 0xf0 = 16 * (z / 16)).
  { intros z Hz. change 0xf0 with (Z.land (Z.ones 8) (Z.lnot (Z.ones 4))). unfold range in Hz.
    rewrite Z.land_assoc, Z.land_ones, Z.mod_small, <- Z.ldiff_land, Z.ldiff_ones_r by lia.
    rewrite Z.shiftl_mul_pow2, Z.shiftr_div_pow2 by lia. change (2 ^ 4) with 16. lia. }
  rewrite !K by done. destruct (Z.eqb_spec (x / 16) (y / 16)) as [->|]; [apply Z.eqb_refl | apply Z.eqb_neq; lia].
Qed.

(** The comparison of the code is that of the manual. *)
Lemma logical_match_ok destination s : range 8 destination -> range 8 (log_dest s) ->
  logical_match destination s = addressed destination 1 s.
Proof.
  intros Hd Hl. unfold logical_match, addressed. cbn [Z.eqb]. destruct (dest_mode s =? 0xf).
  - unfold range in *. rewrite <- (common_bits 8), <- Z.land_assoc, (Z.land_comm (log_dest s)), Z.land_assoc by lia.
    by rewrite Z.land_ones, Z.mod_small by lia.
  - destruct (dest_mode s =? 0x0); [|done]. by rewrite cluster_number, <- (common_bits 4) by (done || lia).
Qed.

(** The guest has given no two APICs the same id. *)
Definition unique_ids (bus : ApicBus) : Prop :=
  forall n m s t, 0 <= n -> 0 <= m -> apic_at bus n = Some s -> apic_at bus m = Some t ->
    id s = id t -> n = m.

Lemma find_dest_loop_spec k bus dest i :
  0 <= i ->
  (exists s, i <= find_dest_loop k bus dest i < i + Z.of_nat k /\
     apic_at bus (find_dest_loop k bus dest i) = Some s /\ id s = dest) \/
  (find_dest_loop k bus dest i = -1 /\
   forall n s, i <= n < i + Z.of_nat k -> apic_at bus n = Some s -> id s <> dest).
Proof.
  revert i. induction k as [|k IH]; intros i Hi; cbn [find_dest_loop]; [right; split; [done|lia]|].
  destruct (match apic_at bus i with Some apic => id apic =? dest | None => false end) eqn:E.
  - left. destruct (apic_at bus i) as [s|] eqn:A; [|done]. exists s.
    apply Z.eqb_eq in E. split; [lia | done].
  - destruct (IH (i + 1) ltac:(lia)) as [(s & Hr & Hs)|[-> Hn]]; [left; exists s; split; [lia|done]|].
    right. split; [done|]. intros n s Hr A. destruct (Z.eq_dec n i) as [->|]; [|apply (Hn n s); [lia|done]].
    rewrite A in E. by apply Z.eqb_neq.
Qed.

Lemma find_dest_spec bus dest :
  bus_ok bus -> range 8 dest ->
  (exists s, 0 <= apic_find_dest bus dest < 255 /\
     apic_at bus (apic_find_dest bus dest) = Some s /\ id s = dest) \/
  (apic_find_dest bus dest = -1 /\ forall n s, 0 <= n -> apic_at bus n = Some s -> id s <> dest).
Proof.
  intros Hb Hd. unfold range in Hd. unfold apic_find_dest.
  destruct (match apic_at bus dest with Some apic => id apic =? dest | None => false end) eqn:E.
  - left. destruct (apic_at bus dest) as [s|] eqn:A; [|done]. apply Z.eqb_eq in E.
    pose proof (apic_at_range bus dest s Hb ltac:(lia) A). exists s. split; [lia | done].
  - destruct (find_dest_loop_spec (Z.to_nat MAX_APICS) bus dest 0 ltac:(lia)) as [(s & Hr & Hs)|[-> Hn]];
      unfold MAX_APICS in *; [left; exists s; split; [lia | done]|].
    right. split; [done|]. intros n s Hn0 A. pose proof (apic_at_range bus n s Hb Hn0 A).
    apply (Hn n s); [lia | done].
Qed.

Lemma no_apics_ok : tab_ok no_apics.
Proof. apply replicate_tab. unfold range. lia. Qed.
Lemma all_apics_ok : tab_ok all_apics.
Proof. apply replicate_tab. unfold range. lia. Qed.

Lemma bit_replicate x n : 0 <= n < 256 -> bit (replicate 8 x) n = Z.testbit x (n mod 32).
Proof.
  intros Hn. destruct (split_range n Hn) as [Hd _]. unfold bit, aget. rewrite nth_lookup.
  by rewrite lookup_replicate_2 by lia.
Qed.

Lemma no_apics_bit n : 0 <= n < 256 -> bit no_apics n = false.
Proof. intros. unfold no_apics. rewrite bit_replicate by done. apply Z.bits_0. Qed.
Lemma all_apics_bit n : 0 <= n < 256 -> bit all_apics n = true.
Proof.
  intros Hn. unfold all_apics. rewrite bit_replicate by done. destruct (split_range n Hn) as [_ Hm].
  change 0xffffffff with (Z.ones 32). by apply Z.ones_spec_low.
Qed.

Lemma logical_loop bus dest l tab n :
  tab_ok tab -> (forall i, i ∈ l -> 0 <= i < 256) -> 0 <= n < 256 ->
  let tab' := foldl (fun tab i =>
    match apic_at bus i with
    | Some apic => if logical_match dest apic then set_bit tab i else tab
    | None => tab
    end) tab l in
  tab_ok tab' /\
  bit tab' n = bit tab n || (bool_decide (n ∈ l) &&
                 match apic_at bus n with Some s => logical_match dest s | None => false end).
Proof.
  intros Ht Hr Hn. revert tab Ht. induction l as [|i l IH]; intros tab Ht; cbn.
  { split; [done|]. by rewrite orb_false_r. }
  set (tab1 := match apic_at bus i with Some _ => _ | None => _ end).
  assert (Hi : 0 <= i < 256) by (apply Hr; left).
  set (hit k := match apic_at bus k with Some s => logical_match dest s | None => false end).
  assert (H1 : tab_ok tab1 /\ bit tab1 n = bit tab n || ((i =? n) && hit i)).
  { unfold tab1, hit. destruct (apic_at bus i) as [s|]; [destruct (logical_match dest s)|].
    - split; [by apply set_bit_ok | rewrite set_bit_bit by done; btauto].
    - split; [done | btauto].
    - split; [done | btauto]. }
  destruct H1 as [Ht1 E1]. destruct (IH ltac:(intros; apply Hr; by right) tab1 Ht1) as [Ht2 E2].
  split; [exact Ht2|]. rewrite E2, E1. fold (hit n).
  destruct (Z.eqb_spec i n) as [->|Hne].
  - rewrite (bool_decide_true (n ∈ n :: l)) by left. destruct (bool_decide (n ∈ l)); btauto.
  - replace (bool_decide (n ∈ i :: l)) with (bool_decide (n ∈ l)); [btauto|].
    apply bool_decide_ext. rewrite elem_of_cons. split; [by right | intros [?|?]; [lia | done]].
Qed.

(** The destination mask selects exactly the addressed APICs. *)
Lemma bitmask_spec bus dest dest_mode n :
  bus_ok bus -> unique_ids bus -> range 8 dest -> 0 <= n < 256 ->
  tab_ok (apic_get_delivery_bitmask bus dest dest_mode) /\
  forall s, apic_at bus n = Some s ->
    bit (apic_get_delivery_bitmask bus dest dest_mode) n = addressed dest dest_mode s.
Proof.
  intros Hb Hu Hd Hn. unfold apic_get_delivery_bitmask, addressed.
  destruct (dest_mode =? 0).
  - destruct (dest =? 0xff); cbn [orb].
    { split; [apply all_apics_ok|]. intros. by apply all_apics_bit. }
    destruct (find_dest_spec bus dest Hb Hd) as [(t & Hr & At & Et)|[-> Hnone]].
    + destruct (Z.leb_spec 0 (apic_find_dest bus dest)); [|lia].
      split; [apply set_bit_ok, no_apics_ok|]. intros s As.
      rewrite set_bit_bit, no_apics_bit, orb_false_r by (apply no_apics_ok || lia).
      destruct (Z.eqb_spec (apic_find_dest bus dest) n) as [E|E].
      * rewrite E in At. simplify_eq. by rewrite Z.eqb_refl.
      * symmetry. apply Z.eqb_neq. intros Es. apply E.
        apply (Hu _ n t s); [lia | lia | done | done | congruence].
    + split; [apply no_apics_ok|]. intros s As. cbn. rewrite no_apics_bit by done.
      symmetry. apply Z.eqb_neq. apply (Hnone n s); [lia | done].
  - destruct (logical_loop bus dest (seqZ 0 MAX_APICS) no_apics n no_apics_ok) as [H E]; [|done|].
    { intros i Hi. apply elem_of_seqZ in Hi. unfold MAX_APICS in Hi. lia. }
    split; [exact H|]. intros s As. pose proof (apic_at_range bus n s Hb ltac:(lia) As).
    rewrite E, no_apics_bit, As by done. cbn [orb]. destruct (bo_apics bus Hb n s ltac:(lia) As) as (_ & Hw & _).
    rewrite (logical_match_ok dest s Hd (aw_log_dest s Hw)). rewrite bool_decide_true; [done|].
    apply elem_of_seqZ. unfold MAX_APICS. lia.
Qed.

(** ** Delivery *)

Definition accept (v trigger_mode : Z) (s : APICState) : APICState :=
  (apic_set_irq 0 s v trigger_mode).2.

Lemma set_irq_acts v t : acts (fun d s => apic_set_irq d s v t) (accept v t).
Proof. done. Qed.
Lemma plain_acts f : acts (plain f) f.
Proof. done. Qed.

(** What the modes that reach every addressed APIC do to it. *)
Definition effect (delivery_mode v trigger_mode : Z) : option (APICState -> APICState) :=
  match delivery_mode with
  | 0 | 7 => Some (accept v trigger_mode)
  | 2 => Some (fun s => cpu_interrupt s CPU_INTERRUPT_SMI)
  | 4 => Some (fun s => cpu_interrupt s CPU_INTERRUPT_NMI)
  | 5 => Some (fun s => cpu_interrupt s CPU_INTERRUPT_INIT)
  | _ => None
  end.

Lemma bus_deliver_at bus bm mode v p t f m :
  tab_ok bm -> bus_ok bus -> 0 <= m < 256 -> effect mode v t = Some f ->
  apic_at (apic_bus_deliver bus bm mode v p t) m = run_if (bit bm m) f (apic_at bus m).
Proof.
  intros Ht Hb Hm. unfold effect, apic_bus_deliver.
  repeat case_match; intros [= <-]; apply foreach_apic_at; auto using set_irq_acts, plain_acts.
Qed.

Lemma accept_tables s v t w :
  apic_wf s -> 0 <= v < 256 -> 0 <= w < 256 ->
  bit (irr (accept v t s)) w = (v =? w) || bit (irr s) w /\
  bit (tmr (accept v t s)) w = (if v =? w then nz t else bit (tmr s) w) /\
  isr (accept v t s) = isr s.
Proof.
  intros H Hv Hw. unfold accept, apic_set_irq. cbn [snd].
  set (s1 := if nz t then _ else _).
  assert (Et : tmr (apic_update_irq s1) = tmr s1) by (unfold apic_update_irq; by repeat case_match).
  destruct (update_irq_tables s1) as (-> & -> & _). rewrite Et. unfold s1.
  destruct (nz t); cbn; rewrite set_bit_bit, ?set_bit_bit, ?reset_bit_bit by (done || apply H);
    destruct (v =? w); auto.
Qed.

(** C27: a message reaches the APICs it is addressed to and no other.  On a
    reachable bus whose APICs have different ids, a message in a mode other
    than lowest priority acts on exactly the APICs whose physical id (or the
    broadcast id 0xff) or logical destination (flat or cluster model, after the
    manual) matches, and leaves the others as they are; a fixed interrupt adds its vector, and nothing else, to the
    request register, with its trigger mode, and touches no vector in service. *)
Theorem apic_message_delivered bus dest dest_mode mode v polarity t f n :
  bus_reachable bus -> unique_ids bus -> range 8 dest -> range 8 v -> 0 <= n < 256 ->
  effect mode v t = Some f ->
  apic_at (apic_deliver_irq bus dest dest_mode mode v polarity t) n =
    (fun s => if addressed dest dest_mode s then f s else s) <$> apic_at bus n /\
  (mode = 0 -> forall s w, apic_at bus n = Some s -> 0 <= w < 256 ->
     bit (irr (f s)) w = (v =? w) || bit (irr s) w /\
     bit (tmr (f s)) w = (if v =? w then nz t else bit (tmr s) w) /\
     isr (f s) = isr s).
Proof.
  intros Hr Hu Hd Hv Hn Hf. pose proof (bus_reachable_ok bus Hr) as Hb. split.
  - destruct (bitmask_spec bus dest dest_mode n Hb Hu Hd Hn) as [Ht Hs].
    unfold apic_deliver_irq. rewrite (bus_deliver_at _ _ _ _ _ _ f n Ht Hb Hn Hf).
    destruct (apic_at bus n) as [s|]; cbn; [|by destruct (bit _ n)].
    rewrite (Hs s eq_refl). by destruct (addressed dest dest_mode s).
  - intros -> s w As Hw. cbn in Hf. simplify_eq. apply accept_tables; [|done..].
    by apply (bo_apics bus Hb n s); [lia|].
Qed.

Lemma lowpri_spec words i :
  Forall (range 32) words -> 0 <= i ->
  (lowpri_loop words i = -1 /\ forall k, 0 <= k -> aget 0 words k = 0) \/
  (exists k j, 0 <= k < Z.of_nat (length words) /\ 0 <= j < 32 /\
     lowpri_loop words i = (i + k) * 32 + j /\ Z.testbit (aget 0 words k) j = true /\
     (forall k', 0 <= k' < k -> aget 0 words k' = 0) /\
     (forall j', 0 <= j' < j -> Z.testbit (aget 0 words k) j' = false)).
Proof.
  intros Hw. revert i. induction Hw as [|w words Hr Hw IH]; intros i Hi; cbn [lowpri_loop].
  { left. split; [done|]. intros k _. unfold aget. by destruct (Z.to_nat k). }
  assert (Hs : forall k, 0 < k -> aget 0 (w :: words) k = aget 0 words (k - 1)).
  { intros k Hk. unfold aget. by replace (Z.to_nat k) with (S (Z.to_nat (k - 1))) by lia. }
  destruct (nz w) eqn:E.
  - right. apply negb_true_iff, Z.eqb_neq in E. unfold range in Hr.
    destruct (ctz32_testbit w ltac:(lia)) as (Hc & T & U). exists 0, (ffs_bit w). cbn [length].
    unfold ffs_bit. split; [lia|]. split; [done|]. split; [lia|]. split; [exact T|].
    split; [lia | exact U].
  - apply negb_false_iff, Z.eqb_eq in E. subst w. destruct (IH (i + 1) ltac:(lia)) as [[-> Hz]|IH'].
    + left. split; [done|]. intros k Hk. destruct (Z.eq_dec k 0) as [->|]; [done|].
      rewrite Hs by lia. apply Hz. lia.
    + right. destruct IH' as (k & j & Hk & Hj & -> & T & Z1 & Z2). exists (k + 1), j.
      cbn [length]. rewrite Hs by lia. replace (k + 1 - 1) with k by lia.
      split; [lia|]. split; [done|]. split; [lia|]. split; [done|]. split; [|done].
      intros k' Hk'. destruct (Z.eq_dec k' 0) as [->|]; [done|]. rewrite Hs by lia. apply Z1. lia.
Qed.

(** The place chosen for a lowest-priority message is the first bit set. *)
Lemma lowpri_first bm n :
  tab_ok bm -> 0 <= n < 256 -> bit bm n = true -> (forall m, 0 <= m < n -> bit bm m = false) ->
  lowpri_loop bm 0 = n.
Proof.
  intros [Hl Hw] Hn B U. destruct (split_range n Hn) as [Hd Hm].
  pose proof (Z.div_mod n 32 ltac:(lia)) as En.
  destruct (lowpri_spec bm 0 Hw ltac:(lia)) as [[_ Hz]|(k & j & Hk & Hj & -> & T & Z1 & Z2)].
  { rewrite zero_word in B; [done | apply Hz; lia]. }
  rewrite Hl in Hk. cbn in Hk.
  assert (Ek : (k * 32 + j) / 32 = k) by (symmetry; apply (Z.div_unique _ 32 k j); lia).
  assert (Ej : (k * 32 + j) mod 32 = j) by (symmetry; apply (Z.mod_unique _ 32 k j); lia).
  assert (Bk : bit bm (k * 32 + j) = true) by (unfold bit; by rewrite Ek, Ej).
  cbn. destruct (Z.lt_trichotomy (k * 32 + j) n) as [Hlt|[?|Hlt]]; [|done|].
  { rewrite U in Bk by lia. done. }
  exfalso. unfold bit in B. destruct (Z.eq_dec (n / 32) k) as [E|].
  - rewrite E, Z2 in B by lia. done.
  - rewrite Z1, Z.bits_0 in B by lia. done.
Qed.

(** A lowest-priority message goes to one APIC.  Of the addressed APICs of a
    reachable bus with different ids, the one with the smallest place on the
    bus accepts the interrupt (the code does not look at priorities), and all
    other APICs stay as they are. *)
Theorem apic_lowest_priority_first bus dest dest_mode v polarity t n s m :
  bus_reachable bus -> unique_ids bus -> range 8 dest -> 0 <= n -> 0 <= m ->
  apic_at bus n = Some s -> addressed dest dest_mode s = true ->
  (forall k u, 0 <= k < n -> apic_at bus k = Some u -> addressed dest dest_mode u = false) ->
  apic_at (apic_deliver_irq bus dest dest_mode 1 v polarity t) m =
    if n =? m then Some (accept v t s) else apic_at bus m.
Proof.
  intros Hr Hu Hd Hn Hm A Ha Hfirst. pose proof (bus_reachable_ok bus Hr) as Hb.
  destruct (bo_apics bus Hb n s Hn A) as (Hlast & _).
  pose proof (apic_at_range bus n s Hb Hn A) as Hn'.
  assert (Hbit : forall k u, 0 <= k < 256 -> apic_at bus k = Some u ->
    bit (apic_get_delivery_bitmask bus dest dest_mode) k = addressed dest dest_mode u)
    by (intros; by apply bitmask_spec).
  assert (E : lowpri_loop (apic_get_delivery_bitmask bus dest dest_mode) 0 = n).
  { apply lowpri_first; [by apply (bitmask_spec bus dest dest_mode 0 Hb Hu Hd) | lia | |].
    - by rewrite (Hbit n s) by (done || lia).
    - intros k Hk. destruct (apic_at bus k) as [u|] eqn:Ak; [|by apply (bo_dense bus Hb) in Ak; [|lia]].
      rewrite (Hbit k u) by (done || lia). by apply (Hfirst k u). }
  unfold apic_deliver_irq, apic_bus_deliver. rewrite E. destruct (Z.leb_spec 0 n); [|lia].
  rewrite (on_apic_at _ _ bus n m (set_irq_acts v t) (bo_len _ Hb) ltac:(lia) Hm).
  destruct (Z.eqb_spec n m) as [<-|]; [by rewrite A | done].
Qed.

(** ** An example bus *)

(** Register writes [(cpu, address, value)], in order. *)
Definition writes (bus : ApicBus) (l : list (Z * Z * Z)) : ApicBus :=
  foldl (fun bus '(n, addr, val) => apic_mem_writel bus (Some n) addr val 0) bus l.

Lemma writes_reachable l bus :
  Forall (fun '(n, addr, val) => 0 <= n /\ range 32 val) l -> bus_reachable bus ->
  bus_reachable (writes bus l).
Proof.
  intros H. revert bus. induction H as [|[[n addr] val] l [Hn Hv] _ IH]; intros bus Hb; [done|].
  apply IH. eapply br_step; [exact Hb|]. apply bs_write; [by intros ? [= <-] | done | unfold int64; lia].
Qed.

(** Two CPUs in flat mode with logical destinations 1 and 2. *)
Definition two_cpus : ApicBus :=
  writes (apic_init (apic_init no_bus demo_cpu).2 (demo_cpu <| cpuid_apic_id := 1 |>)).2
    [(0, 0xf0, 0x1ff); (0, 0xd0, 0x01000000); (0, 0xe0, 0xf0000000);
     (1, 0xf0, 0x1ff); (1, 0xd0, 0x02000000); (1, 0xe0, 0xf0000000)].

Lemma two_cpus_reachable : bus_reachable two_cpus.
Proof.
  apply writes_reachable; [repeat constructor; unfold range; lia|].
  do 2 (eapply br_step; [|apply bs_init; unfold range; cbn; lia]). apply br_start.
Qed.

Lemma two_cpus_ids : unique_ids two_cpus.
Proof.
  intros n m s t Hn Hm As At E. pose proof (bus_reachable_ok _ two_cpus_reachable) as Hb.
  destruct (bo_apics _ Hb n s Hn As) as [Ln _], (bo_apics _ Hb m t Hm At) as [Lm _].
  change (last_apic_idx two_cpus) with 2 in *.
  assert (n = 0 \/ n = 1) as [->| ->] by lia; assert (m = 0 \/ m = 1) as [->| ->] by lia; try done;
    vm_compute in As, At; injection As as <-; injection At as <-; done.
Qed.

(** The logical destination 2 of vector 0x51 is the second CPU. *)
Lemma apic_message_delivered_witness :
  exists s, apic_at two_cpus 1 = Some s /\
    apic_at (apic_deliver_irq two_cpus 2 1 0 0x51 0 0) 1 = Some (accept 0x51 0 s) /\
    apic_at (apic_deliver_irq two_cpus 2 1 0 0x51 0 0) 0 = apic_at two_cpus 0.
Proof.
  pose proof (fun n Hn => proj1 (apic_message_delivered two_cpus 2 1 0 0x51 0 0 (accept 0x51 0) n
    two_cpus_reachable two_cpus_ids ltac:(unfold range; lia) ltac:(unfold range; lia) Hn eq_refl)) as H.
  destruct (apic_at two_cpus 1) as [s|] eqn:E; [|by vm_compute in E]. exists s.
  split; [done|]. split.
  - rewrite (H 1 ltac:(lia)), E. cbn [fmap option_fmap option_map]. vm_compute in E.
    injection E as <-. reflexivity.
  - rewrite (H 0 ltac:(lia)). destruct (apic_at two_cpus 0) as [t|] eqn:E0; [|done].
    cbn [fmap option_fmap option_map]. vm_compute in E0. injection E0 as <-. reflexivity.
Defined.

(** Both CPUs are meant by destination 3: the first one takes it. *)
Lemma apic_lowest_priority_first_witness :
  exists s, apic_at two_cpus 0 = Some s /\
    apic_at (apic_deliver_irq two_cpus 3 1 1 0x51 0 0) 0 = Some (accept 0x51 0 s) /\
    apic_at (apic_deliver_irq two_cpus 3 1 1 0x51 0 0) 1 = apic_at two_cpus 1.
Proof.
  destruct (apic_at two_cpus 0) as [s|] eqn:E; [|by vm_compute in E]. exists s.
  assert (Ha : addressed 3 1 s = true) by (vm_compute in E; injection E as <-; reflexivity).
  pose proof (fun m Hm => apic_lowest_priority_first two_cpus 3 1 0x51 0 0 0 s m two_cpus_reachable
    two_cpus_ids ltac:(unfold range; lia) ltac:(lia) Hm E Ha ltac:(intros; lia)) as H.
  split; [done|]. split; [apply (H 0); lia | apply (H 1); lia].
Defined.

(** ** The APIC timer *)

Definition timer_lvt (s : APICState) : Z := aget 0 (lvt s) APIC_LVT_TIMER.
Definition unmasked (s : APICState) : Prop := nz (Z.land (timer_lvt s) APIC_LVT_MASKED) = false.
Definition periodic (s : APICState) : bool := nz (Z.land (timer_lvt s) APIC_LVT_TIMER_PERIODIC).

(** The period in nanoseconds. *)
Definition period (s : APICState) : Z := (initial_count s + 1) * 2 ^ count_shift s.

(** The fields that [apic_timer_update] reads. *)
Definition same_timer (s s' : APICState) : Prop :=
  lvt s' = lvt s /\ initial_count s' = initial_count s /\ count_shift s' = count_shift s /\
  initial_count_load_time s' = initial_count_load_time s /\ next_time s' = next_time s.

Lemma local_deliver_timer d s v : same_timer s (apic_local_deliver d s v).2.
Proof.
  assert (U : forall s, same_timer s (apic_update_irq s))
    by (intros; unfold apic_update_irq; repeat case_match; done).
  unfold apic_local_deliver, apic_set_irq. repeat case_match; cbn [snd]; try done;
    match goal with |- same_timer _ (apic_update_irq ?x) => exact (U x) end.
Qed.

Lemma period_bounds s : apic_wf s -> 0 < 2 ^ count_shift s <= 128 /\ 0 < period s < 2 ^ 40.
Proof.
  intros H. pose proof (aw_shift s H). pose proof (aw_initial s H) as Hi. unfold range in Hi.
  assert (B : 0 < 2 ^ count_shift s <= 2 ^ 7)
    by (split; [apply Z.pow_pos_nonneg | apply Z.pow_le_mono_r]; lia).
  unfold period. split; [lia | nia].
Qed.

(** With a sane clock the shifts and the widths of the source are exact: the
    ticks since the load, and the expiry that is [k] periods after it. *)
Lemma timer_ticks s t : 0 <= count_shift s -> 0 <= initial_count_load_time s <= t -> t < 2 ^ 62 ->
  Z.shiftr (s64 (t - initial_count_load_time s)) (count_shift s) =
    (t - initial_count_load_time s) / 2 ^ count_shift s.
Proof. intros. rewrite s64_small by lia. by rewrite Z.shiftr_div_pow2. Qed.

Lemma periods s t : apic_wf s ->
  (t - initial_count_load_time s) / 2 ^ count_shift s / (initial_count s + 1) =
    (t - initial_count_load_time s) / period s.
Proof.
  intros H. pose proof (period_bounds s H). pose proof (aw_initial s H) as Hi. unfold range in Hi.
  rewrite Z.div_div by lia. unfold period. f_equal. lia.
Qed.

Lemma expiry s k : apic_wf s -> 0 <= k -> 0 <= initial_count_load_time s ->
  initial_count_load_time s + k * period s < 2 ^ 63 ->
  s64 (initial_count_load_time s + s64 (Z.shiftl (k * (initial_count s + 1)) (count_shift s))) =
    initial_count_load_time s + k * period s.
Proof.
  intros H Hk Hl Hp. pose proof (period_bounds s H). pose proof (aw_shift s H).
  rewrite Z.shiftl_mul_pow2 by lia.
  replace (k * (initial_count s + 1) * 2 ^ count_shift s) with (k * period s) by (unfold period; lia).
  assert (0 <= k * period s) by nia.
  rewrite (s64_small (k * period s)) by lia. apply s64_small. lia.
Qed.

Lemma timer_update_periodic s t :
  apic_wf s -> unmasked s -> periodic s = true -> 0 < initial_count s ->
  0 <= initial_count_load_time s <= t -> t < 2 ^ 62 ->
  let next := initial_count_load_time s + ((t - initial_count_load_time s) / period s + 1) * period s in
  apic_timer_update s t = s <| timer := Some next |> <| next_time := next |>.
Proof.
  intros H Hm Hp Hi Hl Ht next. destruct (period_bounds s H) as [Hb Hq].
  unfold unmasked, periodic, timer_lvt in *. unfold apic_timer_update. rewrite Hm, Hp. cbn [negb].
  destruct (Z.eqb_spec (initial_count s) 0); [lia|].
  rewrite timer_ticks by (lia || apply (aw_shift s H)). set (x := t - initial_count_load_time s) in *.
  assert (Hd : 0 <= x / 2 ^ count_shift s < 2 ^ 62).
  { split; [apply Z.div_pos; lia|]. apply Z.div_lt_upper_bound; [lia|]. nia. }
  assert (Hx : 0 <= x / period s * period s <= x).
  { pose proof (Z.mul_div_le x (period s) ltac:(lia)).
    pose proof (Z.div_pos x (period s) ltac:(lia) ltac:(lia)). nia. }
  pose proof (aw_initial s H) as Hr. unfold range in Hr.
  rewrite (u64_small (x / _)) by (unfold range; lia). unfold x. rewrite periods by done. fold x.
  assert (0 <= x / period s) by (apply Z.div_pos; lia).
  assert (Hk : 0 <= (x / period s + 1) * (initial_count s + 1) < 2 ^ 63).
  { split; [nia|]. unfold period in *. nia. }
  rewrite u64_small by (unfold range; lia).
  rewrite (s64_small ((x / period s + 1) * _)) by lia. rewrite expiry by (done || lia). done.
Qed.

(** The moments a whole number of periods after the load. *)
Lemma count_at_period s k :
  apic_wf s -> periodic s = true -> 0 <= k -> 0 <= initial_count_load_time s ->
  initial_count_load_time s + k * period s < 2 ^ 62 ->
  apic_get_current_count s (initial_count_load_time s + k * period s) = initial_count s.
Proof.
  intros H Hp Hk Hl Ht. destruct (period_bounds s H) as [Hb Hq]. assert (0 <= k * period s) by nia.
  unfold apic_get_current_count, periodic, timer_lvt in *.
  rewrite Hp, timer_ticks by (lia || apply (aw_shift s H)).
  replace (_ - initial_count_load_time s) with (k * (initial_count s + 1) * 2 ^ count_shift s)
    by (unfold period; lia).
  pose proof (aw_initial s H) as Hi. unfold range in Hi.
  rewrite Z.div_mul by lia. rewrite u64_small, Z.mod_mul by (unfold range, period in *; nia).
  rewrite Z.sub_0_r. apply u32_small, H.
Qed.

Lemma timer_rearms d s k :
  apic_wf s -> unmasked s -> periodic s = true -> 0 < initial_count s -> 0 <= k ->
  0 <= initial_count_load_time s -> next_time s = initial_count_load_time s + k * period s ->
  next_time s < 2 ^ 62 -> timer (apic_timer d s).2 = Some (next_time s + period s).
Proof.
  intros H Hm Hp Hi Hk Hl En Hn. destruct (period_bounds s H) as [_ Hq].
  assert (0 <= k * period s) by nia. unfold apic_timer. set (s2 := s <| timer := None |>).
  assert (H2 : apic_wf s2) by (constructor; apply H).
  assert (G : forall s3, apic_wf s3 -> same_timer s2 s3 ->
    timer (apic_timer_update s3 (next_time s3)) = Some (next_time s + period s)).
  { intros s3 H3 (El & Ei & Ec & Et & En3). cbn in El, Ei, Ec, Et, En3.
    assert (EP : period s3 = period s) by (unfold period; by rewrite Ei, Ec).
    unfold unmasked, periodic, timer_lvt in Hm, Hp. rewrite <- El in Hm, Hp.
    rewrite timer_update_periodic by (done || lia). cbn. rewrite EP, Et, En3, En.
    replace (_ - _) with (k * period s) by lia. rewrite Z.div_mul by lia. f_equal. lia. }
  destruct (nz (timer_interrupt_disabled (cpu_env s2))); cbn [snd]; [by apply G|].
  pose proof (local_deliver_timer d s2 APIC_LVT_TIMER).
  pose proof (local_deliver_wf d s2 APIC_LVT_TIMER H2).
  destruct (apic_local_deliver d s2 APIC_LVT_TIMER). by apply G.
Qed.

(** C28: the periodic timer keeps its beat.  While the guest leaves the timer of
    a well-formed APIC unmasked, periodic and with a non-zero count, it is
    armed at the next multiple of the period after the load, never more than
    one period ahead; at that moment the current count reads the initial
    count; and its callback arms it again exactly one period later. *)
Theorem apic_timer_keeps_beat s t d :
  apic_wf s -> unmasked s -> periodic s = true -> 0 < initial_count s ->
  0 <= initial_count_load_time s <= t -> t < 2 ^ 61 ->
  exists next, let s1 := apic_timer_update s t in
    timer s1 = Some next /\ t < next <= t + period s /\
    (next - initial_count_load_time s) mod period s = 0 /\
    apic_get_current_count s1 next = initial_count s /\
    timer (apic_timer d s1).2 = Some (next + period s).
Proof.
  intros H Hm Hp Hi Hl Ht. destruct (period_bounds s H) as [_ Hq].
  pose proof (timer_update_wf s t H) as W. set (x := t - initial_count_load_time s).
  exists (initial_count_load_time s + (x / period s + 1) * period s).
  rewrite (timer_update_periodic s t) in * by (done || lia). fold x in W |- *.
  pose proof (Z.div_mod x (period s) ltac:(lia)). pose proof (Z.mod_pos_bound x (period s) ltac:(lia)).
  assert (0 <= x / period s) by (apply Z.div_pos; lia).
  set (q := x / period s) in *. set (next := initial_count_load_time s + (q + 1) * period s) in *.
  assert (Hn : t < next <= t + period s) by (unfold next, x in *; nia).
  split; [done|]. split; [done|]. split; [|split].
  - unfold next. replace (_ - _) with ((q + 1) * period s) by lia. apply Z.mod_mul. lia.
  - refine (count_at_period _ (q + 1) W Hp _ (_ : 0 <= initial_count_load_time s) (_ : next < 2 ^ 62)); lia.
  - refine (timer_rearms d _ (q + 1) W Hm Hp Hi _ (_ : 0 <= initial_count_load_time s)
      (_ : next = next) (_ : next < 2 ^ 62)); lia.
Qed.

(** The example timer: period 100 * 2 ns, vector 0x60, armed by the last write. *)
Definition ticking : ApicBus :=
  writes two_cpus [(0, 0x3e0, 0); (0, 0x320, 0x20060); (0, 0x380, 99)].

Lemma apic_timer_keeps_beat_witness :
  exists s next, apic_at ticking 0 = Some s /\ 1000 < next <= 1200 /\
    timer (apic_timer_update s 1000) = Some next /\
    timer (apic_timer 0 (apic_timer_update s 1000)).2 = Some (next + 200).
Proof.
  assert (Hb : bus_ok ticking).
  { apply bus_reachable_ok, writes_reachable; [|apply two_cpus_reachable].
    repeat constructor; unfold range; lia. }
  destruct (apic_at ticking 0) as [s|] eqn:E; [|by vm_compute in E].
  destruct (bo_apics _ Hb 0 s ltac:(lia) E) as (_ & W & _). vm_compute in E. injection E as E.
  exists s. destruct (apic_timer_keeps_beat s 1000 0 W) as (next & Et & Hn & _ & _ & Er);
    try (subst s; reflexivity || (cbn; lia)).
  assert (Ep : period s = 200) by (subst s; reflexivity). rewrite Ep in *.
  exists next. exact (conj eq_refl (conj Hn (conj Et Er))).
Defined.

End ApicDelivery.
