(* ===== verification/Ioapic.v ===== *)
(** * The I/O APIC and the routing of interrupts

    src/s2e/qemu/hw/ioapic.c and the interrupt wiring of hw/pc.c: the 8259
    pair drives the local interrupt input of the CPUs ([pic_irq_request]), the
    I/O APIC sends messages on the APIC bus, an ISA line goes to both
    ([isa_irq_handler]), and the CPU asks [cpu_get_pic_interrupt] for a vector. *)

From stdpp Require Import strings relations.
From S2P Require Import Prelude BitScan DevState Savevm Pic Apic ApicDelivery.
Import Apic ApicDelivery.

(** ** The interrupt wiring of the PC *)

Module PcIrq.

(** [isa_pic], the CPUs with their APICs, and [interrupt_request] of the CPU
    of a machine without APICs. *)
Record World := mkWorld {
  isa_pic : Pic.PicState2;
  bus : ApicBus;
  lone_request : Z
}.
#[export] Instance World_eta : RecordEta World := fields mkWorld < isa_pic ; bus ; lone_request >.

(** The body of the loop over the CPUs. *)
Definition request_cpu (level : Z) (d : Z) (s : APICState) : Z * APICState :=
  if nz (apic_accept_pic_intr (Some s)) then apic_deliver_pic_intr d s level else (d, s).

Definition pic_irq_request (w : World) (level : Z) : World :=
  if 0 <? last_apic_idx (bus w) then
    w <| bus := foldl (on_apic (request_cpu level)) (bus w) (seqZ 0 (last_apic_idx (bus w))) |>
  else if nz level then w <| lone_request := u32 (Z.lor (lone_request w) CPU_INTERRUPT_HARD) |>
  else w <| lone_request := u32 (Z.land (lone_request w) (Z.lnot CPU_INTERRUPT_HARD)) |>.

(** The 8259 pair drives [parent_irq] last in each of its operations: the
    levels it has added to its log go to [pic_irq_request]. *)
Definition set_pics (w : World) (s2 : Pic.PicState2) : World :=
  let new := (length (Pic.parent_irq s2) - length (Pic.parent_irq (isa_pic w)))%nat in
  foldl pic_irq_request (w <| isa_pic := s2 |>) (rev (take new (Pic.parent_irq s2))).

Definition wired_update_irq (w : World) : World := set_pics w (Pic.pic_update_irq (isa_pic w)).

Definition wired_read_irq (w : World) : Z * World :=
  let '(intno, s2) := Pic.pic_read_irq (isa_pic w) in (intno, set_pics w s2).

(** The interrupt number for CPU [n] (-1 if none). *)
Definition cpu_get_pic_interrupt (w : World) (n : Z) : Z * World :=
  let '(intno, apic) := apic_get_interrupt (apic_at (bus w) n) in
  let w := match apic with Some s => w <| bus := set_apic (bus w) n s |> | None => w end in
  if 0 <=? intno then (intno, wired_update_irq w)
  else if negb (nz (apic_accept_pic_intr (apic_at (bus w) n))) then (-1, w)
  else wired_read_irq w.

End PcIrq.

(** ** The I/O APIC *)

Module Ioapic.
Import PcIrq.

Definition IOAPIC_NUM_PINS : Z := 0x18.
Definition IOAPIC_LVT_MASKED : Z := BIT 16.
Definition IOAPIC_TRIGGER_EDGE : Z := 0.
Definition IOAPIC_DM_EXTINT : Z := 0x7.

Record IOAPICState := mkIOAPIC {
  id : Z;
  ioregsel : Z;
  irr : Z;
  ioredtbl : list Z
}.
#[export] Instance IOAPICState_eta : RecordEta IOAPICState :=
  fields mkIOAPIC < id ; ioregsel ; irr ; ioredtbl >.

(** The I/O APIC in its world. *)
Definition St : Type := IOAPICState * World.

(** One pin of [ioapic_service]. *)
Definition service_pin (st : St) (i : Z) : St :=
  let '(s, w) := st in
  let mask := BIT i in
  if nz (Z.land (irr s) mask) then
    let entry := aget 0 (ioredtbl s) i in
    if negb (nz (Z.land entry IOAPIC_LVT_MASKED)) then
      let trig_mode := Z.land (Z.shiftr entry 15) 1 in
      let dest := u8 (Z.shiftr entry 56) in
      let dest_mode := Z.land (Z.shiftr entry 11) 1 in
      let delivery_mode := Z.land (Z.shiftr entry 8) 7 in
      let polarity := Z.land (Z.shiftr entry 13) 1 in
      let s := if trig_mode =? IOAPIC_TRIGGER_EDGE
               then s <| irr := u32 (Z.land (irr s) (Z.lnot mask)) |> else s in
      let '(vector, w) :=
        if delivery_mode =? IOAPIC_DM_EXTINT
        then let '(intno, w) := wired_read_irq w in (u8 intno, w)
        else (Z.land entry 0xff, w) in
      (s, w <| bus := apic_deliver_irq (bus w) dest dest_mode delivery_mode vector polarity trig_mode |>)
    else (s, w)
  else (s, w).

Definition ioapic_service (st : St) : St := foldl service_pin st (seqZ 0 IOAPIC_NUM_PINS).

Definition ioapic_set_irq (st : St) (vector level : Z) : St :=
  let '(s, w) := st in
  let vector := if vector =? 0 then 2 else vector in
  if (0 <=? vector) && (vector <? IOAPIC_NUM_PINS) then
    let mask := BIT vector in
    let entry := aget 0 (ioredtbl s) vector in
    let raised := (s <| irr := u32 (Z.lor (irr s) mask) |>, w) in
    if nz (Z.land (Z.shiftr entry 15) 1) then
      (* level triggered *)
      if nz level then ioapic_service raised
      else (s <| irr := u32 (Z.land (irr s) (Z.lnot mask)) |>, w)
    else
      (* edge triggered *)
      if nz level then ioapic_service raised else (s, w)
  else (s, w).

Definition ioapic_mem_readl (s : IOAPICState) (addr : Z) : Z :=
  let addr := Z.land addr 0xff in
  if addr =? 0x00 then ioregsel s
  else if addr =? 0x10 then
    match ioregsel s with
    | 0x00 => u32 (Z.shiftl (id s) 24)
    | 0x01 => Z.lor 0x11 (Z.shiftl (IOAPIC_NUM_PINS - 1) 16)
    | 0x02 => 0
    | _ =>
        let index := Z.shiftr (ioregsel s - 0x10) 1 in
        if (0 <=? index) && (index <? IOAPIC_NUM_PINS) then
          if nz (Z.land (ioregsel s) 1) then u32 (Z.shiftr (aget 0 (ioredtbl s) index) 32)
          else Z.land (aget 0 (ioredtbl s) index) 0xffffffff
        else 0
    end
  else 0.

Definition ioapic_mem_writel (st : St) (addr val : Z) : St :=
  let '(s, w) := st in
  let addr := Z.land addr 0xff in
  if addr =? 0x00 then (s <| ioregsel := u8 val |>, w)
  else if addr =? 0x10 then
    match ioregsel s with
    | 0x00 => (s <| id := Z.land (Z.shiftr val 24) 0xff |>, w)
    | 0x01 | 0x02 => (s, w)
    | _ =>
        let index := Z.shiftr (ioregsel s - 0x10) 1 in
        if (0 <=? index) && (index <? IOAPIC_NUM_PINS) then
          let entry := aget 0 (ioredtbl s) index in
          let entry :=
            if nz (Z.land (ioregsel s) 1)
            then Z.lor (Z.land entry 0xffffffff) (u64 (Z.shiftl val 32))
            else Z.lor (u64 (Z.land entry (Z.lnot 0xffffffff))) val in
          ioapic_service (s <| ioredtbl := aset (ioredtbl s) index entry |>, w)
        else (s, w)
    end
  else (s, w).

Definition ioapic_reset (s : IOAPICState) : IOAPICState := mkIOAPIC 0 0 0 (replicate 24 (BIT 16)).

(** [qemu_mallocz], then reset. *)
Definition ioapic_init : IOAPICState := ioapic_reset (mkIOAPIC 0 0 0 (replicate 24 0)).

Definition vmstate_ioapic {F : Type} `{!ByteStream F} : VMStateDescription F IOAPICState :=
  mkVMSD "ioapic"%string 1 1 1 None None None None None
    [VMSTATE_UINT8 id; VMSTATE_UINT8 ioregsel; VMSTATE_UINT32 irr; VMSTATE_UINT64_ARRAY ioredtbl 24].

(** ** ISA lines *)

(** The I/O APIC is absent on an ISA-only machine. *)
Definition isa_irq_handler (ioapic : option IOAPICState) (w : World) (n level : Z)
    : option IOAPICState * World :=
  let w := if n <? 16 then set_pics w (Pic.i8259_set_irq (isa_pic w) n level) else w in
  match ioapic with
  | Some s => let '(s, w) := ioapic_set_irq (s, w) n level in (Some s, w)
  | None => (None, w)
  end.

(** ** Type invariant *)

Record ioapic_wf (s : IOAPICState) : Prop := {
  iw_id : range 8 (id s);
  iw_sel : range 8 (ioregsel s);
  iw_irr : range 24 (irr s);
  iw_len : length (ioredtbl s) = 24%nat;
  iw_entries : Forall (range 64) (ioredtbl s)
}.

Record world_ok (w : World) : Prop := {
  wo_pics : Pic.pics_inv true (isa_pic w);
  wo_bus : bus_ok (bus w);
  wo_lone : range 32 (lone_request w)
}.

Definition irq_ok (st : St) : Prop := ioapic_wf st.1 /\ world_ok st.2.

(** A property of single steps holds over a loop. *)
Lemma foldl_keeps {A B : Type} (P : A -> Prop) (f : A -> B -> A) l a :
  (forall a x, x ∈ l -> P a -> P (f a x)) -> P a -> P (foldl f a l).
Proof.
  revert a. induction l as [|x l IH]; intros a Hf Ha; cbn; [done|].
  apply IH; [|apply Hf; [left | done]]. intros b y Hy. apply Hf. by right.
Qed.

Lemma request_keeps level : code_keeps (request_cpu level).
Proof.
  intros d s H. unfold request_cpu. destruct (nz _); [|done]. exact (pic_intr_keeps level d s H).
Qed.

Lemma request_ok w level : world_ok w -> world_ok (pic_irq_request w level).
Proof.
  intros [Hp Hb Hl]. unfold pic_irq_request. destruct (0 <? _); [|destruct (nz level)].
  - constructor; cbn; try done. apply foldl_keeps; [|done]. intros b n Hn H.
    apply elem_of_seqZ in Hn. apply on_apic_ok; [apply request_keeps | lia | done].
  - constructor; cbn; auto using u32_range.
  - constructor; cbn; auto using u32_range.
Qed.

Lemma set_pics_ok w s2 : world_ok w -> Pic.pics_inv true s2 -> world_ok (set_pics w s2).
Proof.
  intros [Hp Hb Hl] Hs. unfold set_pics. apply foldl_keeps; [|done].
  intros w' level _. apply request_ok.
Qed.

Lemma read_irq_ok w : world_ok w -> world_ok (wired_read_irq w).2.
Proof.
  intros H. unfold wired_read_irq. destruct (Pic.pic_read_irq (isa_pic w)) as [intno s2] eqn:E.
  apply set_pics_ok; [done|]. change s2 with (intno, s2).2. rewrite <- E.
  apply Pic.read_irq_inv, H.
Qed.

Lemma with_bus_ok w b : world_ok w -> bus_ok b -> world_ok (w <| bus := b |>).
Proof. intros [] ?. by constructor. Qed.

Lemma intack_ok w n : world_ok w -> 0 <= n -> world_ok (cpu_get_pic_interrupt w n).2.
Proof.
  intros H Hn. unfold cpu_get_pic_interrupt.
  destruct (apic_get_interrupt (apic_at (bus w) n)) as [intno apic] eqn:E.
  set (w1 := match apic with Some _ => _ | None => _ end).
  assert (H1 : world_ok w1).
  { unfold w1. destruct apic as [s1|]; [|done]. apply with_bus_ok; [done|].
    destruct (apic_at (bus w) n) as [s|] eqn:A; [|by cbn in E; simplify_eq].
    apply (f_equal snd) in E. cbn [snd] in E.
    destruct (bo_apics _ (wo_bus w H) n s Hn A) as (_ & Hw & _).
    apply (set_apic_ok _ n s); [apply H | done | done | by apply (get_interrupt_wf s) |
      by apply get_interrupt_idx]. }
  destruct (0 <=? intno); [cbn; apply set_pics_ok; [done | apply Pic.update_inv, H1]|].
  destruct (negb _); [done | by apply read_irq_ok].
Qed.

Lemma clear_irr s m : ioapic_wf s -> ioapic_wf (s <| irr := u32 (Z.land (irr s) m) |>).
Proof.
  intros []. constructor; cbn; try done. assert (range 24 (Z.land (irr s) m)) by by apply land_range.
  by rewrite u32_small by (by apply (range_weaken 24)).
Qed.

Lemma raise_irr s i : ioapic_wf s -> 0 <= i < 24 -> ioapic_wf (s <| irr := u32 (Z.lor (irr s) (BIT i)) |>).
Proof.
  intros [] Hi. constructor; cbn; try done.
  assert (range 24 (Z.lor (irr s) (BIT i))) by (apply lor_range; [lia | done | by apply BIT_range]).
  by rewrite u32_small by (by apply (range_weaken 24)).
Qed.

Lemma service_pin_ok st i : irq_ok st -> irq_ok (service_pin st i).
Proof.
  destruct st as [s w]. intros [Hs Hw]. cbn in Hs, Hw. unfold service_pin.
  destruct (nz _); [|done]. destruct (negb _); [|done].
  set (s1 := if _ =? IOAPIC_TRIGGER_EDGE then _ else _).
  assert (H1 : ioapic_wf s1) by (unfold s1; destruct (_ =? _); [by apply clear_irr | done]).
  destruct (_ =? IOAPIC_DM_EXTINT).
  - pose proof (read_irq_ok w Hw) as H2. destruct (wired_read_irq w) as [intno w2]. cbn in H2.
    split; [done|]. apply with_bus_ok; [done|]. apply bus_deliver_ok, H2.
  - split; [done|]. apply with_bus_ok; [done|]. apply bus_deliver_ok, Hw.
Qed.

Lemma service_ok st : irq_ok st -> irq_ok (ioapic_service st).
Proof. apply foldl_keeps. intros st' i _. apply service_pin_ok. Qed.

Lemma ioapic_set_irq_ok st n level : irq_ok st -> irq_ok (ioapic_set_irq st n level).
Proof.
  destruct st as [s w]. intros [Hs Hw]. cbn in Hs, Hw. unfold ioapic_set_irq, IOAPIC_NUM_PINS.
  set (n' := if n =? 0 then 2 else n).
  destruct (Z.leb_spec 0 n'), (Z.ltb_spec n' 0x18); cbn [andb]; try done.
  assert (R : irq_ok (s <| irr := u32 (Z.lor (irr s) (BIT n')) |>, w))
    by (split; [apply raise_irr; [done | lia] | done]).
  destruct (nz (Z.land _ 1)), (nz level); auto using service_ok.
  - split; [by apply clear_irr | done].
  - by split.
Qed.

(** The value a write puts in the entry: the other half stays. *)
Definition merge (entry sel val : Z) : Z :=
  if nz (Z.land sel 1) then Z.lor (Z.land entry 0xffffffff) (u64 (Z.shiftl val 32))
  else Z.lor (u64 (Z.land entry (Z.lnot 0xffffffff))) val.

Lemma merge_range entry sel val : range 64 entry -> range 32 val -> range 64 (merge entry sel val).
Proof.
  intros He Hv. unfold merge. destruct (nz _); apply lor_range; try lia.
  - by apply land_range.
  - apply u64_range.
  - apply u64_range.
  - by apply (range_weaken 32).
Qed.

Lemma entry_range s i : ioapic_wf s -> range 64 (aget 0 (ioredtbl s) i).
Proof.
  intros H. unfold aget. rewrite nth_lookup.
  destruct (ioredtbl s !! Z.to_nat i) eqn:E; cbn; [|unfold range; lia].
  by apply (Forall_lookup_1 _ _ _ _ (iw_entries s H) E).
Qed.

Lemma set_entry_wf s i e : ioapic_wf s -> range 64 e -> ioapic_wf (s <| ioredtbl := aset (ioredtbl s) i e |>).
Proof.
  intros [] He. constructor; cbn; try done; [by rewrite aset_length|]. by apply Forall_insert.
Qed.

Lemma ioapic_writel_ok st addr val :
  irq_ok st -> range 32 val -> irq_ok (ioapic_mem_writel st addr val).
Proof.
  destruct st as [s w]. intros [Hs Hw] Hv. cbn in Hs, Hw. unfold ioapic_mem_writel.
  destruct (_ =? 0x00); [split; [destruct Hs; constructor; cbn; auto using u8_range | done]|].
  destruct (_ =? 0x10); [|done].
  assert (D : forall index, irq_ok (if (0 <=? index) && (index <? IOAPIC_NUM_PINS)
    then ioapic_service (s <| ioredtbl :=
           aset (ioredtbl s) index (merge (aget 0 (ioredtbl s) index) (ioregsel s) val) |>, w)
    else (s, w))).
  { intros index. destruct (_ && _); [|done]. apply service_ok. split; [|done].
    apply set_entry_wf; [done|]. apply merge_range; [by apply entry_range | done]. }
  assert (Hid : irq_ok (s <| id := Z.land (Z.shiftr val 24) 0xff |>, w)).
  { split; [|done]. destruct Hs. constructor; cbn; try done. rewrite land_ff.
    apply (Z.mod_pos_bound _ 256). lia. }
  fold (merge (aget 0 (ioredtbl s) (Z.shiftr (ioregsel s - 0x10) 1)) (ioregsel s) val).
  specialize (D (Z.shiftr (ioregsel s - 0x10) 1)).
  repeat case_match; done || exact Hid || exact D.
Qed.

(** Everything the devices, the guest and the CPUs can do, resets of the I/O
    APIC apart. *)
Inductive irq_event : St -> St -> Prop :=
| irq_isa s w n level s' w' :
    0 <= n < 24 -> isa_irq_handler (Some s) w n level = (Some s', w') ->
    irq_event (s, w) (s', w')
| irq_write st addr val : range 32 val -> irq_event st (ioapic_mem_writel st addr val)
| irq_pic s w s2 : Pic.pic_step true (isa_pic w) s2 -> irq_event (s, w) (s, set_pics w s2)
| irq_bus s w b : bus_step (bus w) b -> irq_event (s, w) (s, w <| bus := b |>)
| irq_ack s w n : 0 <= n -> irq_event (s, w) (s, (cpu_get_pic_interrupt w n).2).

Inductive irq_step : St -> St -> Prop :=
| irq_run st st' : irq_event st st' -> irq_step st st'
| irq_reset s w : irq_step (s, w) (ioapic_reset s, w).

Definition boot : St := (ioapic_init, mkWorld Pic.i8259_init no_bus 0).

Lemma reset_wf s : ioapic_wf (ioapic_reset s).
Proof. constructor; cbn; try (unfold range; lia). by repeat constructor. Qed.

Lemma isa_line_ok w n level :
  world_ok w -> 0 <= n < 16 -> world_ok (set_pics w (Pic.i8259_set_irq (isa_pic w) n level)).
Proof.
  intros H Hn. apply set_pics_ok; [done|]. apply (Pic.step_inv (isa_pic w)); [|apply H].
  by constructor.
Qed.

Lemma irq_event_ok st st' : irq_event st st' -> irq_ok st -> irq_ok st'.
Proof.
  intros Hs H. destruct Hs as [s w n level s' w' Hn E|st addr val Hv|s w s2 Hp|s w b Hb|s w n Hn].
  - destruct H as [Hs Hw]. cbn in Hs, Hw. unfold isa_irq_handler in E.
    set (w1 := if n <? 16 then _ else _) in E.
    assert (H1 : world_ok w1).
    { unfold w1. destruct (Z.ltb_spec n 16); [|done]. apply isa_line_ok; [done | lia]. }
    pose proof (ioapic_set_irq_ok (s, w1) n level (conj Hs H1)) as K.
    destruct (ioapic_set_irq (s, w1) n level). by simplify_eq.
  - by apply ioapic_writel_ok.
  - destruct H as [Hs Hw]. split; [done|]. apply set_pics_ok; [done|].
    by apply (Pic.step_inv (isa_pic w)); [|apply Hw].
  - destruct H as [Hs Hw]. split; [done|]. apply with_bus_ok; [done|].
    by apply (bus_step_ok (bus w)); [|apply Hw].
  - destruct H as [Hs Hw]. split; [done|]. by apply intack_ok.
Qed.

Lemma irq_step_ok st st' : irq_step st st' -> irq_ok st -> irq_ok st'.
Proof.
  intros [st1 st2 He|s w] H; [by apply (irq_event_ok st1)|].
  destruct H as [_ Hw]. split; [apply reset_wf | done].
Qed.

Lemma irq_reachable_ok st : rtc irq_step boot st -> irq_ok st.
Proof.
  intros H. assert (B : irq_ok boot).
  { split; [apply reset_wf|]. constructor; [apply Pic.init_inv | apply no_bus_ok | unfold range; cbn; lia]. }
  revert B. induction H as [st|st1 st2 st3 H12 _ IH]; [done|]. intros B. by apply IH, (irq_step_ok st1).
Qed.

(** ** What a service pass does to the registers *)

Definition entry_of (s : IOAPICState) (i : Z) : Z := aget 0 (ioredtbl s) i.
Definition pending (s : IOAPICState) (i : Z) : bool := Z.testbit (irr s) i.
Definition masked (entry : Z) : bool := Z.testbit entry 16.
Definition level_triggered (entry : Z) : bool := Z.testbit entry 15.

Lemma low_bit x k : 0 <= k -> Z.land (Z.shiftr x k) 1 = Z.b2z (Z.testbit x k).
Proof.
  intros Hk. change 1 with (2 ^ 1 - 1). rewrite low_mask by lia. change (2 ^ 1) with 2.
  by rewrite <- Z.bit0_mod, Z.shiftr_spec, Z.add_0_l by lia.
Qed.

Lemma service_pin_regs s w i :
  let s' := (service_pin (s, w) i).1 in
  id s' = id s /\ ioregsel s' = ioregsel s /\ ioredtbl s' = ioredtbl s.
Proof. unfold service_pin. repeat case_match; cbn; simplify_eq; done. Qed.

(** The pin is done with: unmasked and edge triggered. *)
Definition retires (s : IOAPICState) (i : Z) : bool :=
  negb (masked (entry_of s i)) && negb (level_triggered (entry_of s i)).

Lemma service_pin_irr s w i j :
  0 <= i -> 0 <= j < 32 -> range 32 (irr s) ->
  pending (service_pin (s, w) i).1 j = pending s j && negb ((i =? j) && retires s i).
Proof.
  intros Hi Hj Hr. unfold service_pin, retires, masked, level_triggered, pending.
  rewrite land_BIT_nz, <- (land_BIT_nz _ 16) by lia. fold (entry_of s i).
  assert (Et : (Z.land (Z.shiftr (entry_of s i) 15) 1 =? IOAPIC_TRIGGER_EDGE)
    = negb (Z.testbit (entry_of s i) 15)) by (rewrite low_bit by lia; by destruct (Z.testbit _ 15)).
  fold IOAPIC_LVT_MASKED. rewrite Et.
  set (m := nz (Z.land (entry_of s i) IOAPIC_LVT_MASKED)). set (e := Z.testbit (entry_of s i) 15).
  assert (P : pending (if negb e then s <| irr := u32 (Z.land (irr s) (Z.lnot (BIT i))) |> else s) j
    = Z.testbit (irr s) j && negb ((i =? j) && negb e)).
  { unfold pending. destruct e; cbn; [by rewrite andb_false_r, andb_true_r|].
    unfold u32. rewrite testbit_mod_pow2, clear_bit_testbit by lia.
    destruct (Z.ltb_spec j 32); [|lia]. cbn. by rewrite andb_true_r. }
  destruct (Z.testbit (irr s) i) eqn:Ti.
  - destruct m; cbn [negb andb]; [by rewrite andb_false_r, andb_true_r|].
    rewrite <- P. destruct (_ =? IOAPIC_DM_EXTINT); [destruct (wired_read_irq w)|]; done.
  - cbn. destruct (Z.eqb_spec i j) as [<-|]; [by rewrite Ti | by rewrite andb_true_r].
Qed.

Lemma retires_table s s' i : ioredtbl s' = ioredtbl s -> retires s' i = retires s i.
Proof. intros E. unfold retires, entry_of. by rewrite E. Qed.

Lemma service_regs l s w :
  let s' := (foldl service_pin (s, w) l).1 in
  id s' = id s /\ ioregsel s' = ioregsel s /\ ioredtbl s' = ioredtbl s.
Proof.
  revert s w. induction l as [|i l IH]; intros s w; cbn [foldl]; [done|].
  destruct (service_pin (s, w) i) as [s1 w1] eqn:E.
  pose proof (service_pin_regs s w i) as H. rewrite E in H. cbn [fst] in H.
  destruct (IH s1 w1) as (-> & -> & ->). done.
Qed.

Lemma service_loop_irr l s w j :
  (forall i, i ∈ l -> 0 <= i) -> 0 <= j < 32 -> irq_ok (s, w) ->
  pending (foldl service_pin (s, w) l).1 j = pending s j && negb (bool_decide (j ∈ l) && retires s j).
Proof.
  intros Hl Hj. revert s w. induction l as [|i l IH]; intros s w H; cbn [foldl].
  { cbn. by rewrite andb_true_r. }
  pose proof (service_pin_ok (s, w) i H) as H1.
  pose proof (service_pin_regs s w i) as (_ & _ & Et).
  assert (Hr : range 32 (irr s)) by (apply (range_weaken 24); [lia | apply H]).
  pose proof (service_pin_irr s w i j ltac:(apply Hl; left) Hj Hr) as Ei.
  destruct (service_pin (s, w) i) as [s1 w1]. cbn [fst] in Et, Ei.
  rewrite IH by (done || intros; apply Hl; by right). rewrite Ei, (retires_table s s1 j Et).
  destruct (Z.eqb_spec i j) as [->|Hne].
  - rewrite (bool_decide_true (j ∈ j :: l)) by left.
    destruct (pending s j), (retires s j), (bool_decide (j ∈ l)); done.
  - cbn. rewrite andb_true_r. replace (bool_decide (j ∈ i :: l)) with (bool_decide (j ∈ l)); [done|].
    apply bool_decide_ext. rewrite elem_of_cons. split; [by right | intros [?|?]; [lia | done]].
Qed.

(** After a pass the pending pins are those that are masked or level triggered. *)
Lemma service_irr s w j :
  irq_ok (s, w) -> 0 <= j < 24 ->
  pending (ioapic_service (s, w)).1 j = pending s j && negb (retires s j).
Proof.
  intros H Hj. unfold ioapic_service. rewrite service_loop_irr; [|intros i Hi; apply elem_of_seqZ in Hi; lia | lia | done].
  rewrite bool_decide_true; [done|]. apply elem_of_seqZ. unfold IOAPIC_NUM_PINS. lia.
Qed.

(** ** Register access *)

(** Selects register [sel] and writes [val] to it. *)
Definition write_reg (st : St) (sel val : Z) : St :=
  ioapic_mem_writel (ioapic_mem_writel st 0x00 sel) 0x10 val.
Definition read_reg (st : St) (sel : Z) : Z :=
  ioapic_mem_readl (ioapic_mem_writel st 0x00 sel).1 0x10.

(** The window of a table register. *)
Lemma table_window s w sel val index :
  ioregsel s = sel -> 0x10 <= sel < 0x40 -> index = (sel - 0x10) / 2 ->
  ioapic_mem_writel (s, w) 0x10 val =
    ioapic_service (s <| ioredtbl := aset (ioredtbl s) index (merge (entry_of s index) sel val) |>, w) /\
  ioapic_mem_readl s 0x10 =
    (if nz (Z.land sel 1) then u32 (Z.shiftr (entry_of s index) 32)
     else Z.land (entry_of s index) 0xffffffff).
Proof.
  intros Es Hs Hi. unfold ioapic_mem_writel, ioapic_mem_readl. cbn [Z.land Z.eqb Pos.eqb].
  change (Z.land 16 255) with 16. cbn [Z.eqb Pos.eqb]. rewrite Es.
  assert (Ei : Z.shiftr (sel - 0x10) 1 = index) by (rewrite Z.shiftr_div_pow2 by lia; done).
  rewrite Ei. fold (entry_of s index). fold (merge (entry_of s index) sel val).
  assert (Hd : 0 <= index < 24) by (subst index; split; [apply Z.div_pos | apply Z.div_lt_upper_bound]; lia).
  unfold IOAPIC_NUM_PINS.
  destruct (Z.leb_spec 0 index), (Z.ltb_spec index 0x18); try lia. cbn [andb].
  split; repeat case_match; done || lia.
Qed.

Lemma select_ok st sel : irq_ok st -> range 8 sel ->
  ioapic_mem_writel st 0x00 sel = (st.1 <| ioregsel := sel |>, st.2) /\
  irq_ok (st.1 <| ioregsel := sel |>, st.2).
Proof.
  destruct st as [s w]. intros H Hs.
  assert (E : ioapic_mem_writel (s, w) 0x00 sel = (s <| ioregsel := sel |>, w))
    by (unfold ioapic_mem_writel; cbn; by rewrite u8_small).
  split; [exact E|]. change (irq_ok (s <| ioregsel := sel |>, w)). rewrite <- E. apply ioapic_writel_ok; [done | by apply (range_weaken 8)].
Qed.

(** A write to a table register, seen from the registers. *)
Lemma write_reg_table st sel val :
  irq_ok st -> 0x10 <= sel < 0x40 -> range 32 val ->
  irq_ok (write_reg st sel val) /\
  forall j, 0 <= j < 24 -> entry_of (write_reg st sel val).1 j =
    if (sel - 0x10) / 2 =? j then merge (entry_of st.1 j) sel val else entry_of st.1 j.
Proof.
  intros H Hs Hv. unfold write_reg.
  destruct (select_ok st sel H) as [-> H1]; [unfold range; lia|].
  split; [by apply ioapic_writel_ok|]. intros j Hj.
  destruct (table_window (st.1 <| ioregsel := sel |>) st.2 sel val ((sel - 0x10) / 2)) as [-> _];
    [done..|].
  unfold entry_of at 1, ioapic_service. set (i := (sel - 0x10) / 2).
  assert (Hi : 0 <= i < 24) by (unfold i; split; [apply Z.div_pos | apply Z.div_lt_upper_bound]; lia).
  destruct (service_regs (seqZ 0 IOAPIC_NUM_PINS) (st.1 <| ioregsel := sel |>
    <| ioredtbl := aset (ioredtbl st.1) i (merge (entry_of st.1 i) sel val) |>) st.2) as (_ & _ & E).
  change (foldl service_pin _ _) with (foldl service_pin (st.1 <| ioregsel := sel |>
    <| ioredtbl := aset (ioredtbl st.1) i (merge (entry_of st.1 i) sel val) |>, st.2)
    (seqZ 0 IOAPIC_NUM_PINS)). rewrite E. cbn [ioredtbl set_field].
  pose proof (iw_len _ (proj1 H)) as Hl. destruct (Z.eqb_spec i j) as [<-|].
  - cbn. by rewrite aget_aset_eq by lia.
  - cbn. by rewrite aget_aset_ne by lia.
Qed.

Lemma read_reg_table st sel :
  irq_ok st -> 0x10 <= sel < 0x40 ->
  read_reg st sel = (if nz (Z.land sel 1) then u32 (Z.shiftr (entry_of st.1 ((sel - 0x10) / 2)) 32)
                     else Z.land (entry_of st.1 ((sel - 0x10) / 2)) 0xffffffff).
Proof.
  intros H Hs. unfold read_reg. destruct (select_ok st sel H) as [-> _]; [unfold range; lia|].
  cbn [fst].
  by destruct (table_window (st.1 <| ioregsel := sel |>) st.2 sel 0 ((sel - 0x10) / 2)) as [_ ->].
Qed.

Lemma parity i : Z.land (0x10 + 2 * i) 1 = 0 /\ Z.land (0x11 + 2 * i) 1 = 1 /\
  (0x10 + 2 * i - 0x10) / 2 = i /\ (0x11 + 2 * i - 0x10) / 2 = i.
Proof.
  assert (M : forall x, Z.land x 1 = x mod 2) by (intros; exact (low_mask x 1 ltac:(lia))).
  rewrite !M. repeat split.
  - replace (0x10 + 2 * i) with ((8 + i) * 2) by lia. apply Z.mod_mul. lia.
  - replace (0x11 + 2 * i) with (1 + (8 + i) * 2) by lia. by rewrite Z.mod_add by lia.
  - replace (0x10 + 2 * i - 0x10) with (i * 2) by lia. apply Z.div_mul. lia.
  - replace (0x11 + 2 * i - 0x10) with (1 + i * 2) by lia. by rewrite Z.div_add by lia.
Qed.

Lemma merge_low entry sel val :
  nz (Z.land sel 1) = false -> range 64 entry -> range 32 val ->
  Z.land (merge entry sel val) 0xffffffff = val /\
  Z.shiftr (merge entry sel val) 32 = Z.shiftr entry 32.
Proof.
  intros E He Hv. unfold merge. rewrite E. change 0xffffffff with (Z.ones 32).
  split; apply Z.bits_inj'; intros k Hk; unfold u64.
  - rewrite Z.land_spec, Z.lor_spec, testbit_mod_pow2, Z.land_spec, Z.lnot_spec, Z.testbit_ones_nonneg by lia.
    destruct (Z.ltb_spec k 32); [btauto|]. rewrite (testbit_high val 32) by (done || lia). btauto.
  - rewrite !Z.shiftr_spec, Z.lor_spec, testbit_mod_pow2, Z.land_spec, Z.lnot_spec, Z.testbit_ones_nonneg by lia.
    rewrite (testbit_high val 32) by (done || lia). destruct (Z.ltb_spec (k + 32) 32); [lia|].
    destruct (Z.ltb_spec (k + 32) 64); cbn; [btauto|]. rewrite (testbit_high entry 64) by (done || lia). done.
Qed.

Lemma merge_high entry sel val :
  nz (Z.land sel 1) = true -> range 64 entry -> range 32 val ->
  Z.land (merge entry sel val) 0xffffffff = Z.land entry 0xffffffff /\
  Z.shiftr (merge entry sel val) 32 = val.
Proof.
  intros E He Hv. unfold merge. rewrite E. change 0xffffffff with (Z.ones 32).
  split; apply Z.bits_inj'; intros k Hk; unfold u64.
  - rewrite !Z.land_spec, Z.lor_spec, testbit_mod_pow2, Z.land_spec, Z.testbit_ones_nonneg, Z.shiftl_spec by lia.
    destruct (Z.ltb_spec k 32); [|btauto]. rewrite (Z.testbit_neg_r val) by lia. btauto.
  - rewrite Z.shiftr_spec, Z.lor_spec, testbit_mod_pow2, Z.land_spec, Z.testbit_ones_nonneg, Z.shiftl_spec by lia.
    replace (k + 32 - 32) with k by lia. destruct (Z.ltb_spec (k + 32) 32); [lia|].
    destruct (Z.ltb_spec (k + 32) 64); cbn; [btauto|]. rewrite (testbit_high val 32) by (done || lia). btauto.
Qed.

(** The redirection table keeps what the guest programs.  In every
    well-typed state, writing the high and then the low half of entry [i]
    through the register window makes the two registers read back exactly
    those values, and leaves every other entry alone; whatever interrupts the
    two writes send do not disturb the table. *)
Theorem redirection_roundtrip st i lo hi :
  irq_ok st -> 0 <= i < 24 -> range 32 lo -> range 32 hi ->
  let st' := write_reg (write_reg st (0x11 + 2 * i) hi) (0x10 + 2 * i) lo in
  read_reg st' (0x10 + 2 * i) = lo /\ read_reg st' (0x11 + 2 * i) = hi /\
  forall j, 0 <= j < 24 -> j <> i -> entry_of st'.1 j = entry_of st.1 j.
Proof.
  intros H Hi Hlo Hhi st'. destruct (parity i) as (P0 & P1 & D0 & D1).
  destruct (write_reg_table st (0x11 + 2 * i) hi H ltac:(lia) Hhi) as [H1 T1].
  destruct (write_reg_table _ (0x10 + 2 * i) lo H1 ltac:(lia) Hlo) as [H2 T2]. fold st' in H2, T2.
  rewrite D1 in T1. rewrite D0 in T2.
  assert (R0 : range 64 (entry_of st.1 i)) by apply entry_range, H.
  assert (R1 : range 64 (entry_of (write_reg st (0x11 + 2 * i) hi).1 i)) by apply entry_range, H1.
  rewrite !read_reg_table, P0, P1, D0, D1 by (done || lia). cbn [nz Z.eqb negb].
  rewrite (T2 i Hi), Z.eqb_refl.
  destruct (merge_low _ (0x10 + 2 * i) lo ltac:(by rewrite P0) R1 Hlo) as [-> ->].
  rewrite (T1 i Hi), Z.eqb_refl.
  destruct (merge_high _ (0x11 + 2 * i) hi ltac:(by rewrite P1) R0 Hhi) as [_ ->].
  split; [done|]. split; [by apply u32_small|]. intros j Hj Hne.
  rewrite (T2 j Hj), (T1 j Hj). by destruct (Z.eqb_spec i j); [lia|].
Qed.

(** ** Messages only add requests *)

(** [a'] is [a] with more requests: same address, no pending vector lost. *)
Definition grows (a a' : APICState) : Prop :=
  Apic.id a' = Apic.id a /\ log_dest a' = log_dest a /\ Apic.dest_mode a' = Apic.dest_mode a /\
  forall v, 0 <= v < 256 -> bit (Apic.irr a) v = true -> bit (Apic.irr a') v = true.

Definition bus_grows (b b' : ApicBus) : Prop :=
  forall n, 0 <= n < 256 ->
    match apic_at b n with
    | Some a => exists a', apic_at b' n = Some a' /\ grows a a'
    | None => apic_at b' n = None
    end.

#[local] Instance grows_preorder : PreOrder grows.
Proof.
  split; [done|]. intros a b c (? & ? & ? & F) (? & ? & ? & G).
  repeat split; try congruence. auto.
Qed.

#[local] Instance bus_grows_preorder : PreOrder bus_grows.
Proof.
  split.
  - intros b n Hn. destruct (apic_at b n); [eexists; split; [done | reflexivity] | done].
  - intros x y z F G n Hn. specialize (F n Hn). specialize (G n Hn).
    destruct (apic_at x n); [|by rewrite F in G].
    destruct F as (a1 & E1 & R1). rewrite E1 in G. destruct G as (a2 & E2 & R2).
    exists a2. split; [done | by transitivity a1].
Qed.

Lemma accept_grows v t a : apic_wf a -> 0 <= v < 256 -> grows a (accept v t a).
Proof.
  intros H Hv. assert (U : forall s, Apic.id (apic_update_irq s) = Apic.id s /\
    log_dest (apic_update_irq s) = log_dest s /\ Apic.dest_mode (apic_update_irq s) = Apic.dest_mode s)
    by (intros; unfold apic_update_irq; repeat case_match; done).
  assert (A : forall v', 0 <= v' < 256 -> bit (Apic.irr a) v' = true -> bit (Apic.irr (accept v t a)) v' = true).
  { intros v' Hv' B. destruct (accept_tables a v t v' H Hv Hv') as [-> _]. rewrite B. btauto. }
  unfold grows, accept, apic_set_irq in *. cbn [snd] in *.
  match goal with |- context [Apic.id (apic_update_irq ?x)] => destruct (U x) as (U1 & U2 & U3) end.
  split; [|split; [|split]]; [rewrite U1|rewrite U2|rewrite U3|exact A]; by destruct (nz t).
Qed.

Lemma effect_grows mode v t f a :
  apic_wf a -> 0 <= v < 256 -> effect mode v t = Some f -> grows a (f a).
Proof.
  intros H Hv. unfold effect. repeat case_match; intros [= <-]; auto using accept_grows; done.
Qed.

(** Running [f], which only adds requests, at some places of the bus. *)
Lemma run_grows b b' f (sel : Z -> bool) :
  bus_ok b -> (forall a, apic_wf a -> grows a (f a)) ->
  (forall n, 0 <= n < 256 -> apic_at b' n = run_if (sel n) f (apic_at b n)) -> bus_grows b b'.
Proof.
  intros Hb Hf E n Hn. rewrite (E n Hn). destruct (apic_at b n) as [a|] eqn:A; [|by destruct (sel n)].
  destruct (bo_apics b Hb n a ltac:(lia) A) as (_ & Hw & _).
  destruct (sel n); cbn; eexists; (split; [done|]); [by apply Hf | reflexivity].
Qed.

Lemma deliver_grows b dest dmode mode v p t :
  bus_ok b -> unique_ids b -> range 8 dest -> 0 <= v < 256 ->
  bus_grows b (apic_deliver_irq b dest dmode mode v p t).
Proof.
  intros Hb Hu Hd Hv. unfold apic_deliver_irq. set (bm := apic_get_delivery_bitmask b dest dmode).
  assert (Ht : tab_ok bm) by apply (bitmask_spec b dest dmode 0 Hb Hu Hd ltac:(lia)).
  destruct (effect mode v t) as [f|] eqn:E.
  - apply (run_grows b _ f (bit bm) Hb); [intros; by apply (effect_grows mode v t)|].
    intros n Hn. by apply bus_deliver_at.
  - destruct (Z.eq_dec mode 1) as [->|].
    + cbn. destruct (Z.leb_spec 0 (lowpri_loop bm 0)); [|reflexivity].
      destruct (Z.lt_ge_cases (lowpri_loop bm 0) 256) as [Hlt|Hge].
      * apply (run_grows b _ (accept v t) (fun n => lowpri_loop bm 0 =? n) Hb);
          [intros; by apply accept_grows|]. intros n Hn.
        apply on_apic_at; [apply set_irq_acts | apply (bo_len b Hb) | lia | lia].
      * rewrite on_apic_eq. destruct (apic_at b (lowpri_loop bm 0)) eqn:A; [|reflexivity].
        apply (apic_at_range b) in A; [lia | done | done].
    + unfold effect in E. unfold apic_bus_deliver. repeat case_match; simplify_eq; reflexivity.
Qed.

Lemma grows_unique b b' : bus_grows b b' -> unique_ids b -> bus_ok b' -> unique_ids b'.
Proof.
  intros G Hu Hb n m s t Hn Hm As At E.
  pose proof (apic_at_range b' n s Hb Hn As). pose proof (apic_at_range b' m t Hb Hm At).
  pose proof (G n ltac:(lia)) as Gn. pose proof (G m ltac:(lia)) as Gm.
  destruct (apic_at b n) as [s0|] eqn:As0; [|congruence].
  destruct (apic_at b m) as [t0|] eqn:At0; [|congruence].
  destruct Gn as (s1 & E1 & I1 & _), Gm as (t1 & E2 & I2 & _).
  apply (Hu n m s0 t0); try done. congruence.
Qed.

Lemma grows_addressed a a' dest dmode : grows a a' -> addressed dest dmode a' = addressed dest dmode a.
Proof.
  intros (E1 & E2 & E3 & _). unfold addressed. by rewrite E1, E2, E3.
Qed.

(** ** Delivery of a pending pin *)

Definition entry_dest (e : Z) : Z := u8 (Z.shiftr e 56).
Definition entry_dest_mode (e : Z) : Z := Z.land (Z.shiftr e 11) 1.
Definition entry_mode (e : Z) : Z := Z.land (Z.shiftr e 8) 7.
Definition entry_vector (e : Z) : Z := Z.land e 0xff.

Lemma vector_range e : 0 <= entry_vector e < 256.
Proof. unfold entry_vector. rewrite land_ff. apply Z.mod_pos_bound. lia. Qed.

(** No pin other than [i] would fetch its vector from the 8259 pair now. *)
Definition no_extint (s : IOAPICState) (i : Z) : Prop :=
  forall j, 0 <= j < 24 -> j <> i -> pending s j = true -> masked (entry_of s j) = false ->
    entry_mode (entry_of s j) <> IOAPIC_DM_EXTINT.

(** A pin that is sent, in a mode other than ExtINT. *)
Lemma service_pin_sends s w i :
  0 <= i -> pending s i = true -> masked (entry_of s i) = false ->
  entry_mode (entry_of s i) <> IOAPIC_DM_EXTINT ->
  (service_pin (s, w) i).2 = w <| bus :=
    apic_deliver_irq (bus w) (entry_dest (entry_of s i)) (entry_dest_mode (entry_of s i))
      (entry_mode (entry_of s i)) (entry_vector (entry_of s i))
      (Z.land (Z.shiftr (entry_of s i) 13) 1) (Z.land (Z.shiftr (entry_of s i) 15) 1) |>.
Proof.
  intros Hi Hp Hm He. unfold pending, masked in *. unfold service_pin.
  rewrite land_BIT_nz, Hp by lia. fold (entry_of s i). unfold IOAPIC_LVT_MASKED.
  rewrite land_BIT_nz, Hm by lia. cbn [negb]. fold (entry_mode (entry_of s i)).
  by destruct (Z.eqb_spec (entry_mode (entry_of s i)) IOAPIC_DM_EXTINT).
Qed.

Lemma service_pin_rests s w i :
  0 <= i -> pending s i && negb (masked (entry_of s i)) = false -> (service_pin (s, w) i).2 = w.
Proof.
  intros Hi H. unfold pending, masked in *. unfold service_pin.
  rewrite land_BIT_nz by lia. fold (entry_of s i). unfold IOAPIC_LVT_MASKED.
  rewrite land_BIT_nz by lia. destruct (Z.testbit (irr s) i), (Z.testbit (entry_of s i) 16); done.
Qed.

Lemma service_pin_grows s w i :
  0 <= i -> world_ok w -> unique_ids (bus w) ->
  (pending s i = true -> masked (entry_of s i) = false -> entry_mode (entry_of s i) <> IOAPIC_DM_EXTINT) ->
  bus_grows (bus w) (bus (service_pin (s, w) i).2).
Proof.
  intros Hi Hw Hu He. destruct (pending s i && negb (masked (entry_of s i))) eqn:E.
  - apply andb_true_iff in E as [Hp Hm%negb_true_iff]. rewrite service_pin_sends by auto. cbn [bus].
    apply deliver_grows; [apply Hw | done | apply u8_range | apply vector_range].
  - rewrite service_pin_rests by done. reflexivity.
Qed.

(** The pins [l] of a pass, none of which needs the 8259 pair. *)
Definition loop_ok (s : IOAPICState) (l : list Z) : Prop :=
  forall j, j ∈ l -> 0 <= j < 24 /\
    (pending s j = true -> masked (entry_of s j) = false -> entry_mode (entry_of s j) <> IOAPIC_DM_EXTINT).

Lemma service_step s w i l :
  irq_ok (s, w) -> unique_ids (bus w) -> loop_ok s (i :: l) ->
  let st := service_pin (s, w) i in
  irq_ok st /\ bus_grows (bus w) (bus st.2) /\ unique_ids (bus st.2) /\ loop_ok st.1 l /\
  (forall j, entry_of st.1 j = entry_of s j) /\
  (forall j, j <> i -> 0 <= j < 24 -> pending st.1 j = pending s j).
Proof.
  intros H Hu He st. destruct (He i ltac:(left)) as [Hi Hei].
  pose proof (service_pin_ok (s, w) i H) as H1.
  pose proof (service_pin_grows s w i (proj1 Hi) (proj2 H) Hu Hei) as G1.
  pose proof (service_pin_regs s w i) as (_ & _ & Et).
  assert (Hr : range 32 (irr s)) by (apply (range_weaken 24); [lia | apply H]).
  pose proof (fun j (Hj : 0 <= j < 32) => service_pin_irr s w i j (proj1 Hi) Hj Hr) as Ei.
  fold st in H1, G1, Et, Ei.
  assert (Ee : forall j, entry_of st.1 j = entry_of s j) by (intros; unfold entry_of; by rewrite Et).
  split; [done|]. split; [done|].
  split; [by apply (grows_unique (bus w)); [| |apply H1]|]. split; [|split; [done|]].
  - intros j Hj. destruct (He j ltac:(by right)) as [Hj0 Hje]. split; [done|].
    rewrite Ei, Ee by lia. intros [Hp _]%andb_true_iff. by apply Hje.
  - intros j Hne Hj. rewrite Ei by lia. destruct (Z.eqb_spec i j); [lia | by rewrite andb_true_r].
Qed.

Lemma service_loop_grows l s w :
  irq_ok (s, w) -> unique_ids (bus w) -> loop_ok s l ->
  bus_grows (bus w) (bus (foldl service_pin (s, w) l).2).
Proof.
  revert s w. induction l as [|i l IH]; intros s w H Hu He; cbn [foldl]; [reflexivity|].
  destruct (service_step s w i l H Hu He) as (H1 & G1 & U1 & L1 & _).
  destruct (service_pin (s, w) i) as [s1 w1]. transitivity (bus w1); [done | by apply IH].
Qed.

(** A fixed-mode message puts its vector at every APIC it is addressed to. *)
Lemma deliver_fixed_lands b dest dmode v p t n a :
  bus_ok b -> unique_ids b -> range 8 dest -> 0 <= v < 256 -> 0 <= n < 256 ->
  apic_at b n = Some a -> addressed dest dmode a = true ->
  exists a', apic_at (apic_deliver_irq b dest dmode 0 v p t) n = Some a' /\ bit (Apic.irr a') v = true.
Proof.
  intros Hb Hu Hd Hv Hn A Ha. destruct (bitmask_spec b dest dmode n Hb Hu Hd Hn) as [Ht Hs].
  exists (accept v t a). split.
  - unfold apic_deliver_irq. rewrite (bus_deliver_at b _ 0 v p t (accept v t) n Ht Hb Hn eq_refl).
    by rewrite (Hs a A), Ha, A.
  - destruct (bo_apics b Hb n a ltac:(lia) A) as (_ & Hw & _).
    destruct (accept_tables a v t v Hw Hv Hv) as [-> _]. by rewrite Z.eqb_refl.
Qed.

(** A pass over the pins delivers a pending, unmasked pin in fixed mode. *)
Lemma service_loop_lands l s w i n a :
  irq_ok (s, w) -> unique_ids (bus w) -> loop_ok s l -> i ∈ l -> 0 <= n < 256 ->
  pending s i = true -> masked (entry_of s i) = false -> entry_mode (entry_of s i) = 0 ->
  apic_at (bus w) n = Some a ->
  addressed (entry_dest (entry_of s i)) (entry_dest_mode (entry_of s i)) a = true ->
  exists a', apic_at (bus (foldl service_pin (s, w) l).2) n = Some a' /\
    bit (Apic.irr a') (entry_vector (entry_of s i)) = true.
Proof.
  intros H Hu HL Hil Hn. revert s w a H Hu HL. induction l as [|k l IH].
  { by apply not_elem_of_nil in Hil. }
  intros s w a H Hu HL Hp Hm He A Ha. cbn [foldl].
  destruct (service_step s w k l H Hu HL) as (H1 & G1 & U1 & L1 & Ee & Ep).
  destruct (HL i Hil) as [Hi _]. pose proof (G1 n Hn) as Gn. rewrite A in Gn.
  destruct Gn as (a1 & A1 & R1). destruct (Z.eq_dec k i) as [->|Hne].
  - pose proof (service_pin_sends s w i ltac:(lia) Hp Hm ltac:(by rewrite He)) as Es. rewrite He in Es.
    destruct (deliver_fixed_lands (bus w) (entry_dest (entry_of s i)) (entry_dest_mode (entry_of s i))
      (entry_vector (entry_of s i)) (Z.land (Z.shiftr (entry_of s i) 13) 1)
      (Z.land (Z.shiftr (entry_of s i) 15) 1) n a) as (a2 & A2 & B2);
      [apply H | done | apply u8_range | apply vector_range | done..|].
    destruct (service_pin (s, w) i) as [s1 w1]. cbn [fst snd] in *.
    pose proof (service_loop_grows l s1 w1 H1 U1 L1 n Hn) as Gl.
    subst w1. change (bus (w <| bus := ?b |>)) with b in Gl. rewrite A2 in Gl.
    destruct Gl as (a3 & A3 & R3). exists a3. split; [exact A3|]. by apply R3; [apply vector_range|].
  - assert (Hil' : i ∈ l) by (apply elem_of_cons in Hil as [?|?]; [congruence | done]).
    destruct (service_pin (s, w) k) as [s1 w1]. cbn [fst snd] in *.
    rewrite <- (Ee i). apply (IH Hil' s1 w1 a1); try done; rewrite ?Ee, ?Ep; try done.
    by rewrite (grows_addressed a a1).
Qed.

(** ** A masked pin *)

(** Pin [i] waits: pending, masked and edge triggered. *)
Definition held (i : Z) (st : St) : Prop :=
  pending st.1 i = true /\ masked (entry_of st.1 i) = true /\ level_triggered (entry_of st.1 i) = false.

(** Any event after which the pin is still masked and edge triggered. *)
Definition quiet (i : Z) (st st' : St) : Prop :=
  irq_event st st' /\ masked (entry_of st'.1 i) = true /\ level_triggered (entry_of st'.1 i) = false.

Lemma masked_service s w i :
  irq_ok (s, w) -> 0 <= i < 24 -> masked (entry_of s i) = true ->
  pending (ioapic_service (s, w)).1 i = pending s i.
Proof.
  intros H Hi Hm. rewrite service_irr by done. unfold retires. rewrite Hm. cbn. by rewrite andb_true_r.
Qed.

Lemma raise_pending s k i : 0 <= k < 24 -> 0 <= i < 24 ->
  pending (s <| irr := u32 (Z.lor (irr s) (BIT k)) |>) i = pending s i || (k =? i).
Proof.
  intros Hk Hi. unfold pending. cbn. unfold u32. rewrite testbit_mod_pow2, set_bit_testbit by lia.
  by destruct (Z.ltb_spec i 32); [|lia].
Qed.

(** Raising a line, for a pin whose entry is masked and edge triggered. *)
Lemma set_irq_masked s w n level i :
  irq_ok (s, w) -> 0 <= i < 24 -> masked (entry_of s i) = true -> level_triggered (entry_of s i) = false ->
  pending (ioapic_set_irq (s, w) n level).1 i =
    pending s i || (((if n =? 0 then 2 else n) =? i) && nz level).
Proof.
  intros H Hi Hm Hl. unfold ioapic_set_irq, IOAPIC_NUM_PINS. set (k := if n =? 0 then 2 else n).
  destruct (Z.leb_spec 0 k), (Z.ltb_spec k 0x18); cbn [andb];
    try (destruct (Z.eqb_spec k i); [lia | by rewrite orb_false_r]).
  assert (R : irq_ok (s <| irr := u32 (Z.lor (irr s) (BIT k)) |>, w))
    by (split; [apply raise_irr; [apply H | lia] | apply H]).
  pose proof (masked_service _ w i R Hi Hm) as Es. rewrite raise_pending in Es by lia.
  fold (entry_of s k). rewrite low_bit by lia.
  destruct (nz level); [rewrite !andb_true_r; by destruct (nz _)|]. rewrite andb_false_r, orb_false_r.
  fold (level_triggered (entry_of s k)).
  assert (Eb : forall b, nz (Z.b2z b) = b) by by intros []. rewrite Eb.
  destruct (level_triggered (entry_of s k)) eqn:E; [|done].
  unfold pending. cbn [fst irr set_field]. unfold u32. rewrite testbit_mod_pow2, clear_bit_testbit by lia.
  destruct (Z.ltb_spec i 32); [|lia]. destruct (Z.eqb_spec k i) as [->|]; [congruence|].
  cbn. by rewrite andb_true_r.
Qed.

(** A register write: the entry may change, and then a pass follows. *)
Lemma write_pending st addr val i :
  irq_ok st -> range 32 val -> 0 <= i < 24 ->
  masked (entry_of (ioapic_mem_writel st addr val).1 i) = true ->
  pending (ioapic_mem_writel st addr val).1 i = pending st.1 i.
Proof.
  destruct st as [s w]. intros H Hv Hi.
  pose proof (ioapic_writel_ok (s, w) addr val H Hv) as _. revert H. unfold ioapic_mem_writel.
  destruct (_ =? 0x00); [done|]. destruct (_ =? 0x10); [|done]. intros H.
  assert (D : forall index e, range 64 e ->
    let st' := ioapic_service (s <| ioredtbl := aset (ioredtbl s) index e |>, w) in
    masked (entry_of st'.1 i) = true -> pending st'.1 i = pending s i).
  { intros index e He st' Hm. unfold st' in *.
    assert (K : irq_ok (s <| ioredtbl := aset (ioredtbl s) index e |>, w))
      by (split; [apply set_entry_wf; [apply H | done] | apply H]).
    rewrite masked_service; [done | done | done |].
    pose proof (service_regs (seqZ 0 IOAPIC_NUM_PINS) (s <| ioredtbl := aset (ioredtbl s) index e |>) w)
      as (_ & _ & E). unfold entry_of in Hm |- *. unfold ioapic_service in Hm. by rewrite E in Hm. }
  set (index := Z.shiftr (ioregsel s - 0x10) 1) in *.
  fold (merge (aget 0 (ioredtbl s) index) (ioregsel s) val).
  specialize (D index (merge (aget 0 (ioredtbl s) index) (ioregsel s) val)
    (merge_range _ _ _ (entry_range s index (proj1 H)) Hv)).
  repeat case_match; done || exact D.
Qed.

Lemma quiet_held i st st' : irq_ok st -> 0 <= i < 24 -> held i st -> quiet i st st' -> held i st'.
Proof.
  intros H Hi (Hp & Hm & Hl) (He & Hm' & Hl'). split; [|done]. revert Hm'. revert Hp Hm Hl.
  destruct He as [s w n level s' w' Hn E|st addr val Hv|s w s2 _|s w b _|s w n _]; try done.
  - intros Hp Hm Hl _. cbn [fst] in *. unfold isa_irq_handler in E.
    set (w1 := if n <? 16 then _ else _) in E.
    assert (H1 : irq_ok (s, w1)).
    { split; [apply H|]. unfold w1. destruct (Z.ltb_spec n 16); [|apply H].
      apply isa_line_ok; [apply H | lia]. }
    pose proof (set_irq_masked s w1 n level i H1 Hi Hm Hl) as P.
    destruct (ioapic_set_irq (s, w1) n level). simplify_eq. cbn in P. rewrite P, Hp. done.
  - intros Hp _ _ Hm'. by rewrite write_pending.
Qed.

Lemma quiets_held i st st' :
  irq_ok st -> 0 <= i < 24 -> held i st -> rtc (quiet i) st st' -> irq_ok st' /\ held i st'.
Proof.
  intros H Hi Hh Hq. induction Hq as [st|st1 st2 st3 H12 _ IH]; [done|].
  apply IH; [|by apply (quiet_held i st1)]. destruct H12 as [He _]. by apply (irq_event_ok st1).
Qed.

Lemma raise_held st i level :
  irq_ok st -> 0 < i < 24 -> level <> 0 ->
  masked (entry_of st.1 i) = true -> level_triggered (entry_of st.1 i) = false ->
  held i (ioapic_set_irq st i level).
Proof.
  destruct st as [s w]. intros H Hi Hlev Hm Hl. cbn [fst] in *.
  assert (T : entry_of (ioapic_set_irq (s, w) i level).1 i = entry_of s i).
  { unfold ioapic_set_irq, ioapic_service, entry_of. destruct (Z.eqb_spec i 0); [lia|].
    destruct (service_regs (seqZ 0 IOAPIC_NUM_PINS) (s <| irr := u32 (Z.lor (irr s) (BIT i)) |>) w)
      as (_ & _ & E). repeat case_match; cbn [fst]; rewrite ?E; done. }
  split; [|by rewrite T]. rewrite set_irq_masked by (done || lia).
  destruct (Z.eqb_spec i 0); [lia|]. rewrite Z.eqb_refl. unfold nz.
  destruct (Z.eqb_spec level 0); [done | btauto].
Qed.

(** The write of a low half is a service pass over the updated entry. *)
Lemma unmask_write st i lo :
  irq_ok st -> 0 <= i < 24 -> range 32 lo ->
  exists s1, write_reg st (0x10 + 2 * i) lo = ioapic_service (s1, st.2) /\ irq_ok (s1, st.2) /\
    entry_of s1 i = merge (entry_of st.1 i) (0x10 + 2 * i) lo /\
    (forall j, 0 <= j < 24 -> j <> i -> entry_of s1 j = entry_of st.1 j) /\
    (forall j, 0 <= j < 24 -> pending s1 j = pending st.1 j).
Proof.
  intros H Hi Hlo. destruct (parity i) as (P0 & _ & D0 & _). unfold write_reg.
  destruct (select_ok st (0x10 + 2 * i) H ltac:(unfold range; lia)) as [-> H1].
  set (s0 := st.1 <| ioregsel := 0x10 + 2 * i |>) in *.
  destruct (table_window s0 st.2 (0x10 + 2 * i) lo i) as [-> _]; [done | lia | done |].
  eexists. split; [reflexivity|]. pose proof (iw_len _ (proj1 H)) as Hl.
  split; [|split; [|split]].
  - split; [|apply H]. apply set_entry_wf; [apply H1|].
    apply merge_range; [apply entry_range, H1 | done].
  - exact (aget_aset_eq 0 (ioredtbl st.1) i _ ltac:(lia)).
  - intros j Hj Hne. exact (aget_aset_ne 0 (ioredtbl st.1) i j _ ltac:(lia) ltac:(lia) ltac:(lia)).
  - done.
Qed.

(** The fields of an entry whose low half was written. *)
Lemma field_eq x y k m w :
  0 <= k -> 0 <= w -> k + w <= 32 -> range w m -> Z.land x 0xffffffff = Z.land y 0xffffffff ->
  Z.land (Z.shiftr x k) m = Z.land (Z.shiftr y k) m.
Proof.
  intros Hk Hw0 Hw Hm E. apply Z.bits_inj'. intros j Hj. rewrite !Z.land_spec, !Z.shiftr_spec by lia.
  destruct (Z.lt_ge_cases j w); [|rewrite (testbit_high m w) by (done || lia); btauto].
  f_equal. change 0xffffffff with (Z.ones 32) in E.
  apply (f_equal (fun z => Z.testbit z (j + k))) in E.
  by rewrite !Z.land_spec, Z.ones_spec_low, !andb_true_r in E by lia.
Qed.

Lemma merged_fields e sel lo :
  nz (Z.land sel 1) = false -> range 64 e -> range 32 lo ->
  masked (merge e sel lo) = masked lo /\ level_triggered (merge e sel lo) = level_triggered lo /\
  entry_mode (merge e sel lo) = entry_mode lo /\
  entry_dest_mode (merge e sel lo) = entry_dest_mode lo /\
  entry_vector (merge e sel lo) = entry_vector lo /\ entry_dest (merge e sel lo) = entry_dest e.
Proof.
  intros Hs He Hl. destruct (merge_low e sel lo Hs He Hl) as [L Hh].
  assert (E : Z.land (merge e sel lo) 0xffffffff = Z.land lo 0xffffffff).
  { rewrite L. change 0xffffffff with (2 ^ 32 - 1). rewrite low_mask by lia. symmetry. by apply Z.mod_small. }
  assert (B : forall k, 0 <= k < 32 -> Z.testbit (merge e sel lo) k = Z.testbit lo k).
  { intros k Hk. pose proof (field_eq _ lo k 1 1 ltac:(lia) ltac:(lia) ltac:(lia) ltac:(unfold range; lia) E) as F.
    rewrite !low_bit in F by lia. by destruct (Z.testbit (merge e sel lo) k), (Z.testbit lo k). }
  unfold masked, level_triggered, entry_mode, entry_dest_mode, entry_vector, entry_dest.
  split; [apply B; lia|]. split; [apply B; lia|].
  split; [apply (field_eq _ _ _ _ 3); unfold range; lia || done|].
  split; [apply (field_eq _ _ _ _ 1); unfold range; lia || done|].
  split; [apply (field_eq _ _ 0 _ 8); unfold range; lia || done|].
  change 56 with (32 + 24). by rewrite <- !Z.shiftr_shiftr, Hh by lia.
Qed.

(** C23: an interrupt raised while masked is not lost.  In every reachable state,
    a device raises edge-triggered pin [i] while the guest has it masked; then
    anything may happen (other lines, register accesses, acknowledges, bus
    traffic) as long as the pin stays masked and edge triggered.  When the
    guest writes an unmasked low half [lo] in fixed mode to the entry, every
    APIC that the entry addresses has the vector of [lo] in its request
    register at the end of that write, and the pin is no longer pending unless
    it was made level triggered.  (APIC ids are unique, and no other pin is
    about to fetch a vector from the 8259 pair.) *)
Theorem masked_interrupt_not_lost st0 st i level lo n a :
  rtc irq_step boot st0 -> 0 < i < 24 -> level <> 0 ->
  masked (entry_of st0.1 i) = true -> level_triggered (entry_of st0.1 i) = false ->
  rtc (quiet i) (ioapic_set_irq st0 i level) st ->
  unique_ids (bus st.2) -> no_extint st.1 i ->
  range 32 lo -> masked lo = false -> entry_mode lo = 0 ->
  0 <= n < 256 -> apic_at (bus st.2) n = Some a ->
  addressed (entry_dest (entry_of st.1 i)) (entry_dest_mode lo) a = true ->
  let st' := write_reg st (0x10 + 2 * i) lo in
  (exists a', apic_at (bus st'.2) n = Some a' /\ bit (Apic.irr a') (entry_vector lo) = true) /\
  pending st'.1 i = level_triggered lo.
Proof.
  intros Hr Hi Hlev Hm0 Hl0 Hq Hu Hx Hlo Hm Hmode Hn A Ha st'.
  pose proof (irq_reachable_ok st0 Hr) as H0. destruct (parity i) as (P0 & _ & D0 & _).
  destruct (quiets_held i (ioapic_set_irq st0 i level) st) as [H Hh];
    [by apply ioapic_set_irq_ok | lia | by apply raise_held; [done | lia | ..] | done |].
  destruct (unmask_write st i lo H ltac:(lia) Hlo) as (s1 & E1 & K1 & Ei & Eo & Ep).
  fold st' in E1. pose proof (merged_fields (entry_of st.1 i) (0x10 + 2 * i) lo ltac:(by rewrite P0)
    (entry_range _ i (proj1 H)) Hlo) as (Fm & Fl & Fmode & Fdm & Fv & Fd).
  rewrite E1, <- Ei in *. split.
  - rewrite <- Fv. apply (service_loop_lands (seqZ 0 IOAPIC_NUM_PINS) s1 st.2 i n a); try done; try congruence.
    + intros j Hj. apply elem_of_seqZ in Hj. unfold IOAPIC_NUM_PINS in Hj. split; [lia|].
      destruct (Z.eq_dec j i) as [->|Hne]; [rewrite Fmode, Hmode; done|].
      rewrite Ep, Eo by lia. apply Hx; [lia | done].
    + apply elem_of_seqZ. unfold IOAPIC_NUM_PINS. lia.
    + rewrite Ep by lia. apply Hh.
  - rewrite service_irr by (done || lia). unfold retires. rewrite Fm, Fl, Hm, Ep by lia.
    destruct Hh as [-> _]. by destruct (level_triggered lo).
Qed.

(** ** Nothing is stuck *)

(** No pin is pending that a pass would retire. *)
Definition settled (s : IOAPICState) : Prop :=
  forall j, 0 <= j < 24 -> pending s j = true -> masked (entry_of s j) = true \/ level_triggered (entry_of s j) = true.

Lemma service_settled s w : irq_ok (s, w) -> settled (ioapic_service (s, w)).1.
Proof.
  intros H j Hj. rewrite service_irr by done. unfold retires.
  destruct (service_regs (seqZ 0 IOAPIC_NUM_PINS) s w) as (_ & _ & E).
  unfold entry_of, ioapic_service. rewrite E. fold (entry_of s j).
  destruct (masked (entry_of s j)), (level_triggered (entry_of s j)), (pending s j); cbn; auto.
Qed.

Lemma set_irq_settled s w n level :
  irq_ok (s, w) -> settled s -> settled (ioapic_set_irq (s, w) n level).1.
Proof.
  intros H Hs. unfold ioapic_set_irq, IOAPIC_NUM_PINS. set (k := if n =? 0 then 2 else n).
  destruct (Z.leb_spec 0 k), (Z.ltb_spec k 0x18); cbn [andb fst]; try done.
  assert (R : irq_ok (s <| irr := u32 (Z.lor (irr s) (BIT k)) |>, w))
    by (split; [apply raise_irr; [apply H | lia] | apply H]).
  pose proof (service_settled _ w R) as K. destruct (nz level); [by destruct (nz _)|].
  destruct (nz _); [|done]. intros j Hj Hp. apply (Hs j Hj). revert Hp. unfold pending. cbn [fst irr set_field].
  unfold u32. rewrite testbit_mod_pow2, clear_bit_testbit by lia. by intros [_ [? _]%andb_true_iff]%andb_true_iff.
Qed.

Lemma write_settled st addr val :
  irq_ok st -> range 32 val -> settled st.1 -> settled (ioapic_mem_writel st addr val).1.
Proof.
  destruct st as [s w]. intros H Hv Hs. unfold ioapic_mem_writel.
  destruct (_ =? 0x00); [exact Hs|]. destruct (_ =? 0x10); [|exact Hs].
  set (index := Z.shiftr (ioregsel s - 0x10) 1) in *.
  fold (merge (aget 0 (ioredtbl s) index) (ioregsel s) val).
  assert (K : irq_ok (s <| ioredtbl := aset (ioredtbl s) index (merge (aget 0 (ioredtbl s) index) (ioregsel s) val) |>, w)).
  { split; [|apply H]. apply set_entry_wf; [apply H|]. apply merge_range; [apply entry_range, H | done]. }
  pose proof (service_settled _ w K). repeat case_match; done || exact Hs.
Qed.

Lemma irq_step_settled st st' : irq_ok st -> settled st.1 -> irq_step st st' -> settled st'.1.
Proof.
  intros H Hs St. destruct St as [st1 st2 He|s w].
  - revert H Hs. destruct He as [s w n level s' w' Hn E|st3 addr val Hv|s w s2 _|s w b _|s w n _]; try done; intros H Hs.
    + unfold isa_irq_handler in E. set (w1 := if n <? 16 then _ else _) in E.
      assert (H1 : irq_ok (s, w1)).
      { split; [apply H|]. unfold w1. destruct (Z.ltb_spec n 16); [|apply H]. apply isa_line_ok; [apply H | lia]. }
      pose proof (set_irq_settled s w1 n level H1 Hs) as P.
      destruct (ioapic_set_irq (s, w1) n level). by simplify_eq.
    + by apply write_settled.
  - intros j Hj Hp. unfold pending in Hp. cbn in Hp. by rewrite Z.bits_0 in Hp.
Qed.

(** C25: no interrupt is stuck in the I/O APIC, and the interrupt subsystem is
    well formed, in every reachable state.  From boot, under any sequence of
    changes of the 24 ISA lines (line 2, which the HPET drives, included),
    register accesses of the I/O APIC, the 8259 pair and the local APICs,
    acknowledges and resets: a pin that is still pending is masked or level
    triggered, so that no interrupt of an unmasked edge-triggered pin waits
    unsent; the I/O APIC has 24 entries and pending bits for its 24 pins only,
    the 8259 pair keeps its invariant, and every local APIC is well formed and
    in its place on the bus. *)
Theorem irq_nothing_stuck st : rtc irq_step boot st -> irq_ok st /\ settled st.1.
Proof.
  intros H. assert (B : irq_ok boot /\ settled boot.1).
  { split; [apply irq_reachable_ok, rtc_refl|]. intros j Hj Hp. unfold pending in Hp. cbn in Hp. by rewrite Z.bits_0 in Hp. }
  revert B. induction H as [st|st1 st2 st3 H12 _ IH]; [done|]. intros [B1 B2].
  apply IH. split; [by apply (irq_step_ok st1) | by apply (irq_step_settled st1)].
Qed.

(** ** Examples *)

(** Any reachable bus is part of a reachable machine. *)
Lemma with_bus_reachable b :
  bus_reachable b -> rtc irq_step boot (ioapic_init, mkWorld Pic.i8259_init b 0).
Proof.
  induction 1 as [|b b' _ IH Hs]; [apply rtc_refl|]. eapply rtc_r; [exact IH|].
  apply irq_run. exact (irq_bus ioapic_init (mkWorld Pic.i8259_init b 0) b' Hs).
Qed.

Lemma write_reg_steps st sel val :
  range 32 sel -> range 32 val -> rtc irq_step st (write_reg st sel val).
Proof.
  intros Hs Hv. eapply rtc_l; [by apply irq_run, (irq_write st 0x00 sel)|].
  apply rtc_once. by apply irq_run, irq_write.
Qed.

(** Two CPUs; entry 4 addressed to APIC 1, still masked. *)
Definition demo_irq : St :=
  write_reg (ioapic_init, mkWorld Pic.i8259_init two_cpus 0) 0x19 0x01000000.

Lemma demo_irq_reachable : rtc irq_step boot demo_irq.
Proof.
  etransitivity; [apply with_bus_reachable, two_cpus_reachable|].
  apply write_reg_steps; unfold range; lia.
Qed.

(** Line 4 is raised while masked: still pending there. *)
Lemma irq_nothing_stuck_witness :
  irq_ok demo_irq /\ settled demo_irq.1 /\ pending (ioapic_set_irq demo_irq 4 1).1 4 = true.
Proof.
  destruct (irq_nothing_stuck demo_irq demo_irq_reachable) as [H Hs].
  split; [exact H|]. split; [exact Hs|]. vm_compute. reflexivity.
Defined.

Lemma redirection_roundtrip_witness :
  let st := write_reg (write_reg demo_irq 0x21 0x02000000) 0x20 0x8151 in
  read_reg st 0x20 = 0x8151 /\ read_reg st 0x21 = 0x02000000.
Proof.
  destruct (redirection_roundtrip demo_irq 8 0x8151 0x02000000) as (E1 & E2 & _);
    [apply irq_reachable_ok, demo_irq_reachable | lia | unfold range; lia | unfold range; lia |].
  exact (conj E1 E2).
Defined.

Definition ids_distinct (b : ApicBus) : bool :=
  forallb (fun n => forallb (fun m =>
    match apic_at b n, apic_at b m with
    | Some s, Some t => negb (Apic.id s =? Apic.id t) || (n =? m)
    | _, _ => true
    end) (seqZ 0 (last_apic_idx b))) (seqZ 0 (last_apic_idx b)).

Lemma ids_distinct_ok b : bus_ok b -> ids_distinct b = true -> unique_ids b.
Proof.
  intros Hb H n m s t Hn Hm As At E.
  destruct (bo_apics b Hb n s Hn As) as [Ln _], (bo_apics b Hb m t Hm At) as [Lm _].
  unfold ids_distinct in H. rewrite forallb_forall in H.
  specialize (H n). rewrite forallb_forall in H.
  specialize (H ltac:(apply list_elem_of_In, elem_of_seqZ; lia) m
    ltac:(apply list_elem_of_In, elem_of_seqZ; lia)).
  rewrite As, At, E, Z.eqb_refl in H. by apply Z.eqb_eq.
Qed.

Definition extint_free (s : IOAPICState) : bool :=
  forallb (fun j => negb (pending s j && negb (masked (entry_of s j)) &&
    (entry_mode (entry_of s j) =? IOAPIC_DM_EXTINT))) (seqZ 0 24).

Lemma extint_free_ok s i : extint_free s = true -> no_extint s i.
Proof.
  unfold extint_free. rewrite forallb_forall. intros H j Hj _ Hp Hm.
  specialize (H j ltac:(apply list_elem_of_In, elem_of_seqZ; lia)).
  rewrite Hp, Hm in H. by apply negb_true_iff, Z.eqb_neq in H.
Qed.

(** After line 5 was raised too. *)
Definition demo_later : St :=
  let st := ioapic_set_irq demo_irq 4 1 in
  match isa_irq_handler (Some st.1) st.2 5 1 with (Some s, w) => (s, w) | (None, w) => (st.1, w) end.

Lemma demo_quiet : quiet 4 (ioapic_set_irq demo_irq 4 1) demo_later.
Proof.
  split; [|vm_compute; split; reflexivity]. unfold demo_later.
  destruct (ioapic_set_irq demo_irq 4 1) as [s w] eqn:E. cbn [fst snd].
  destruct (isa_irq_handler (Some s) w 5 1) as [[s'|] w'] eqn:E'; [by apply (irq_isa _ _ 5 1); [lia|]|].
  unfold isa_irq_handler in E'. destruct (ioapic_set_irq _ 5 1). discriminate E'.
Qed.

Lemma demo_later_ok : irq_ok demo_later.
Proof.
  apply (irq_event_ok _ _ (proj1 demo_quiet)), ioapic_set_irq_ok, irq_reachable_ok, demo_irq_reachable.
Qed.

(** Line 4 was raised while masked, then line 5; the unmasking write delivers
    vector 0x51 to the second CPU. *)
Lemma masked_interrupt_not_lost_witness :
  exists a', apic_at (bus (write_reg demo_later 0x18 0x51).2) 1 = Some a' /\
    bit (Apic.irr a') 0x51 = true /\ pending (write_reg demo_later 0x18 0x51).1 4 = false.
Proof.
  destruct (apic_at (bus demo_later.2) 1) as [a|] eqn:A; [|vm_compute in A; discriminate A].
  assert (Ha : addressed (entry_dest (entry_of demo_later.1 4)) (entry_dest_mode 0x51) a = true)
    by (vm_compute in A; injection A as <-; vm_compute; reflexivity).
  assert (Hu : unique_ids (bus demo_later.2))
    by (apply ids_distinct_ok; [apply demo_later_ok | vm_compute; reflexivity]).
  assert (Hx : no_extint demo_later.1 4) by (apply extint_free_ok; vm_compute; reflexivity).
  destruct (masked_interrupt_not_lost demo_irq demo_later 4 1 0x51 1 a) as [(a' & A' & B') P'];
    [apply demo_irq_reachable | lia | lia | vm_compute; reflexivity | vm_compute; reflexivity |
     apply rtc_once, demo_quiet | exact Hu | exact Hx | unfold range; lia | reflexivity | reflexivity |
     lia | exact A | exact Ha |].
  exists a'. exact (conj A' (conj B' P')).
Defined.

(** ** Saved state *)

Section Saved.
Context {F : Type} `{!ByteStream F} `{!ByteStreamLaws F}.

Definition ioapic_fields : list (FieldOk (F := F) IOAPICState) :=
  [mkFieldOk (VMSTATE_UINT8 id) uint8_ok; mkFieldOk (VMSTATE_UINT8 ioregsel) uint8_ok;
   mkFieldOk (VMSTATE_UINT32 irr) uint32_ok; mkFieldOk (VMSTATE_UINT64_ARRAY ioredtbl 24) uint64_ok].

Lemma ioapic_descr_ok : DescrOk (F := F) vmstate_ioapic ioapic_fields.
Proof. constructor; cbn; try done; lia. Qed.

Lemma ioapic_state_valid s : ioapic_wf s -> state_valid vmstate_ioapic ioapic_fields s.
Proof.
  intros [Hid Hsel Hirr Hl He]. apply (range_weaken 24 32) in Hirr; [|lia].
  unfold state_valid, ioapic_fields.
  repeat (constructor; [first
    [ by apply array_field_valid; [cbn; lia | done | done | destruct s; cbn; intros g -> ]
    | split; [done|]; split; [cbn; lia|]; intros i _; split; [cbn; auto | by destruct s] ] |]);
    constructor.
Qed.

(** Everything comes back. *)
Lemma ioapic_load_result s s0 :
  ioapic_wf s -> ioapic_wf s0 -> load_result (F := F) vmstate_ioapic ioapic_fields s s0 = (0, s).
Proof.
  intros [_ _ _ Hl _] [_ _ _ Hl0 _]. destruct s as [? ? ? t], s0 as [? ? ? t0]. cbn in Hl, Hl0.
  unfold load_result. cbn -[VMSTATE_ARRAY elems_upd]. unfold fields_upd. cbn [foldl ioapic_fields].
  do 24 (destruct t as [|? t]; [discriminate Hl|]). destruct t; [|discriminate Hl].
  do 24 (destruct t0 as [|? t0]; [discriminate Hl0|]). destruct t0; [|discriminate Hl0].
  reflexivity.
Qed.

End Saved.

End Ioapic.
