(* ===== verification/IrqPath.v ===== *)
(** * From a device to the CPU through the 8259 pair

    The legacy interrupt path of a PC with APICs ("virtual wire" mode, the
    state after reset): a line change at the 8259 pair (hw/i8259.c), its
    output to the local interrupt pin of the APIC ([pic_irq_request] of
    hw/pc.c, [apic_deliver_pic_intr] of hw/apic.c), the interrupt request of
    the CPU, and the acknowledge ([cpu_get_pic_interrupt]). *)

From stdpp Require Import strings.
From S2P Require Import Prelude BitScan DevState Savevm Pic Apic ApicDelivery Ioapic.
Import Apic ApicDelivery PcIrq Ioapic.

Module IrqPath.

Definition lint0 (a : APICState) : Z := aget 0 (lvt a) APIC_LVT_LINT0.

(** LINT0 is unmasked and in ExtINT mode. *)
Definition virtual_wire (a : APICState) : Prop :=
  nz (Z.land (lint0 a) APIC_LVT_MASKED) = false /\ Z.land (Z.shiftr (lint0 a) 8) 7 = 7 /\
  all_apic_interrupts_disabled (cpu_env a) = 0.

(** The APIC has nothing of its own to deliver. *)
Definition idle (a : APICState) : Prop := (apic_get_interrupt (Some a)).1 = -1.

(** The CPU with its hardware interrupt request set or cleared. *)
Definition with_line (b : bool) (a : APICState) : APICState :=
  if b then cpu_interrupt a CPU_INTERRUPT_HARD else cpu_reset_interrupt a CPU_INTERRUPT_HARD.

Lemma with_line_keeps b a :
  virtual_wire a -> idle a ->
  virtual_wire (with_line b a) /\ apic_get_interrupt (Some (with_line b a)) = (-1, Some (with_line b a)).
Proof.
  intros Hv Hi. split; [by destruct b|]. unfold idle, apic_get_interrupt in *.
  assert (E : spurious_vec (with_line b a) = spurious_vec a /\ Apic.irr (with_line b a) = Apic.irr a /\
    tpr (with_line b a) = tpr a) by by destruct b.
  destruct E as (-> & -> & ->). destruct (negb _); [done|].
  destruct (Z.ltb_spec (get_highest_priority_int (Apic.irr a)) 0); [done|].
  destruct (_ && _); cbn [fst] in Hi; [|lia].
  rewrite land_ff in Hi. pose proof (Z.mod_pos_bound (spurious_vec a) 256). lia.
Qed.

Lemma request_wire level d a : virtual_wire a -> (request_cpu level d a).2 = with_line (nz level) a.
Proof.
  intros (Hm & Hx & Ha). unfold request_cpu, apic_accept_pic_intr. fold (lint0 a).
  assert (M : (Z.land (lint0 a) APIC_LVT_MASKED =? 0) = true) by by apply negb_false_iff in Hm.
  rewrite M, orb_true_r. cbn [nz Z.eqb negb]. unfold apic_deliver_pic_intr.
  destruct (nz level); unfold apic_local_deliver; fold (lint0 a); rewrite ?Hm, Hx, ?Ha; done.
Qed.

Lemma request_acts level : acts (request_cpu level) (fun s => (request_cpu level 0 s).2).
Proof.
  intros d s. unfold request_cpu, apic_deliver_pic_intr, apic_local_deliver, apic_set_irq.
  by repeat case_match.
Qed.

Lemma request_at w level n a :
  world_ok w -> 0 <= n -> apic_at (bus w) n = Some a -> virtual_wire a ->
  apic_at (bus (pic_irq_request w level)) n = Some (with_line (nz level) a) /\
  isa_pic (pic_irq_request w level) = isa_pic w.
Proof.
  intros Hw Hn A Hv. pose proof (wo_bus w Hw) as Hb. pose proof (bo_last _ Hb) as Hl.
  destruct (bo_apics _ Hb n a Hn A) as (Hlt & _). unfold pic_irq_request, MAX_APICS in *.
  destruct (Z.ltb_spec 0 (last_apic_idx (bus w))); [|lia]. split; [|done].
  change (apic_at (foldl (fun b j => if true then on_apic (request_cpu level) b (0 + j) else b) (bus w)
    (seqZ 0 (last_apic_idx (bus w)))) n = Some (with_line (nz level) a)).
  destruct (select_loop _ _ (request_acts level) (fun _ => true) 0 (seqZ 0 (last_apic_idx (bus w)))
    (bus w) n) as [_ ->]; [apply NoDup_seqZ | apply (bo_len _ Hb) | done | |].
  - intros j Hj. apply elem_of_seqZ in Hj. lia.
  - rewrite bool_decide_true by (apply elem_of_seqZ; lia). cbn [andb run_if]. rewrite A. cbn.
    by rewrite (request_wire level 0 a Hv).
Qed.

(** One new level on the output of the 8259 pair. *)
Lemma set_pics_at w s2 l n a :
  world_ok w -> Pic.parent_irq s2 = l :: Pic.parent_irq (isa_pic w) -> Pic.pics_inv true s2 ->
  0 <= n -> apic_at (bus w) n = Some a -> virtual_wire a ->
  apic_at (bus (set_pics w s2)) n = Some (with_line (nz l) a) /\ isa_pic (set_pics w s2) = s2.
Proof.
  intros Hw El Hi Hn A Hv. unfold set_pics. rewrite El. cbn [length].
  rewrite Nat.sub_succ_l, Nat.sub_diag by done. cbn [take].
  rewrite take_0. cbn [rev app foldl].
  assert (H1 : world_ok (w <| isa_pic := s2 |>)) by (constructor; [done | apply Hw..]).
  exact (request_at (w <| isa_pic := s2 |>) l n a H1 Hn A Hv).
Qed.

(** The pair as it is when [pic_read_irq] updates the line. *)
Lemma read_irq_line s2 :
  Pic.parent_irq (Pic.pic_read_irq s2).2 =
    b2z (0 <=? Pic.pic_get_irq (Pic.pics0 (Pic.pic_read_irq s2).2) true) :: Pic.parent_irq s2.
Proof.
  unfold Pic.pic_read_irq.
  repeat match goal with |- context [if ?b then _ else _] => destruct b end; cbn [fst snd];
    rewrite Pic.update_line; done.
Qed.

Lemma set_irq_line s2 k level :
  Pic.parent_irq (Pic.i8259_set_irq s2 k level) =
    b2z (0 <=? Pic.pic_get_irq (Pic.pics0 (Pic.i8259_set_irq s2 k level)) true) :: Pic.parent_irq s2.
Proof. unfold Pic.i8259_set_irq. rewrite Pic.update_line. f_equal. by destruct (nz _). Qed.

(** The acknowledge by a CPU whose APIC is idle and in virtual-wire mode. *)
Lemma ack_wire w n a :
  world_ok w -> 0 <= n -> apic_at (bus w) n = Some a -> virtual_wire a ->
  apic_get_interrupt (Some a) = (-1, Some a) ->
  exists w2, cpu_get_pic_interrupt w n = ((Pic.pic_read_irq (isa_pic w)).1, w2) /\
    isa_pic w2 = (Pic.pic_read_irq (isa_pic w)).2 /\
    apic_at (bus w2) n = Some (with_line (0 <=? Pic.pic_get_irq (Pic.pics0 (isa_pic w2)) true) a).
Proof.
  intros Hw Hn A Hv Hg. unfold cpu_get_pic_interrupt. rewrite A, Hg. cbn [Z.leb Z.compare].
  set (w0 := w <| bus := set_apic (bus w) n a |>).
  destruct (bo_apics _ (wo_bus w Hw) n a Hn A) as (_ & Ha & _).
  assert (H0 : world_ok w0) by (apply with_bus_ok; [done|]; by apply (set_apic_ok _ n a); [apply Hw|..]).
  assert (A0 : apic_at (bus w0) n = Some a).
  { pose proof (apic_at_range _ n a (wo_bus w Hw) Hn A). change (bus w0) with (set_apic (bus w) n a).
    rewrite apic_at_set; [by rewrite Z.eqb_refl | apply (bo_len _ (wo_bus w Hw)) | lia | done]. }
  assert (Hacc : apic_accept_pic_intr (apic_at (bus w0) n) = 1).
  { rewrite A0. unfold apic_accept_pic_intr. fold (lint0 a). destruct Hv as (Hm & _).
    apply negb_false_iff in Hm. by rewrite Hm, orb_true_r. }
  rewrite Hacc. cbn [nz Z.eqb negb]. unfold wired_read_irq. change (isa_pic w0) with (isa_pic w).
  pose proof (read_irq_line (isa_pic w)) as El. pose proof (Pic.read_irq_inv _ (wo_pics w Hw)) as Hi.
  destruct (Pic.pic_read_irq (isa_pic w)) as [intno s2]. cbn [fst snd] in *.
  destruct (set_pics_at w0 s2 _ n a H0 El Hi Hn A0 Hv) as [A2 P2]. rewrite nz_b2z in A2.
  eexists. split; [reflexivity|]. rewrite P2. done.
Qed.

(** [pic_get_irq] finds an input exactly when one is deliverable. *)
Lemma deliverable s :
  Pic.pic_wf s -> 0 <= Pic.pic_get_irq s true <-> exists m, 0 <= m < 8 /\ Pic.wins s true m.
Proof.
  intros H. pose proof (Pic.pic_get_irq_range s true H) as R. split.
  - intros Hi. eexists. split; [|apply Pic.pic_get_irq_wins; [done | | reflexivity]]; lia.
  - intros (m & Hm & W). apply Pic.pic_get_irq_wins in W; lia || done.
Qed.

(** C24: the legacy interrupt path works end to end.  In a well-formed machine
    where the APIC of CPU [n] is in virtual-wire mode and has nothing of its own
    to deliver, let a device change any of the 16 lines of the 8259 pair.  Then
    the hardware interrupt request of the CPU is set exactly when some input of
    the master is deliverable; and the acknowledge of the CPU returns, with [i]
    the deliverable input of the master and [j] that of the slave (-1 if none),
    the vector of [i], or through the cascade ([i] = 2) that of [j], or the
    spurious vector of the controller without a request, takes it from the pair,
    and leaves the CPU's request telling whether another one is deliverable. *)
Theorem isa_interrupt_reaches_cpu w n a k level :
  world_ok w -> 0 <= n -> apic_at (bus w) n = Some a -> virtual_wire a -> idle a ->
  0 <= k < 16 ->
  let w1 := set_pics w (Pic.i8259_set_irq (isa_pic w) k level) in
  let wanted w := Pic.pic_get_irq (Pic.pics0 (isa_pic w)) true in
  let i := wanted w1 in let j := Pic.pic_get_irq (Pic.pics1 (isa_pic w1)) false in
  apic_at (bus w1) n = Some (with_line (0 <=? i) a) /\
  (0 <= i <-> exists m, 0 <= m < 8 /\ Pic.wins (Pic.pics0 (isa_pic w1)) true m) /\
  exists w2, cpu_get_pic_interrupt w1 n =
      (if i <? 0 then Pic.irq_base (Pic.pics0 (isa_pic w1)) + 7
       else if i =? 2 then Pic.irq_base (Pic.pics1 (isa_pic w1)) + (if j <? 0 then 7 else j)
       else Pic.irq_base (Pic.pics0 (isa_pic w1)) + i, w2) /\
    isa_pic w2 = (Pic.pic_read_irq (isa_pic w1)).2 /\
    apic_at (bus w2) n = Some (with_line (0 <=? wanted w2) (with_line (0 <=? i) a)).
Proof.
  intros Hw Hn A Hv Hidle Hk w1 wanted i j.
  assert (Hs : Pic.pics_inv true (Pic.i8259_set_irq (isa_pic w) k level))
    by (apply (Pic.step_inv (isa_pic w)); [by constructor | apply Hw]).
  destruct (set_pics_at w _ _ n a Hw (set_irq_line (isa_pic w) k level) Hs Hn A Hv) as [A1 P1].
  rewrite nz_b2z in A1. fold w1 in A1, P1. rewrite <- P1 in A1, Hs. fold (wanted w1) i in A1.
  split; [exact A1|]. split; [by apply deliverable, Hs|].
  destruct (with_line_keeps (0 <=? i) a Hv Hidle) as [Hv1 G1].
  assert (Hw1 : world_ok w1) by (rewrite P1 in Hs; by apply set_pics_ok).
  destruct (ack_wire w1 n _ Hw1 Hn A1 Hv1 G1) as (w2 & E & P2 & A2).
  exists w2. split; [|done]. rewrite E. f_equal. by rewrite Pic.read_irq_acknowledged.
Qed.

(** Line 9, input 1 of the slave, on a machine with one CPU after reset and the
    vector bases 8 and 0x70. *)
Definition demo_world : World := mkWorld Pic.demo_pair demo_bus 0.

Lemma isa_interrupt_reaches_cpu_witness :
  let w1 := set_pics demo_world (Pic.i8259_set_irq (isa_pic demo_world) 9 1) in
  exists w2 a, apic_at (bus w1) 0 = Some a /\
    nz (Z.land (interrupt_request (cpu_env a)) CPU_INTERRUPT_HARD) = true /\
    cpu_get_pic_interrupt w1 0 = (0x71, w2).
Proof.
  intros w1. destruct (apic_at demo_bus 0) as [a|] eqn:A; [|vm_compute in A; discriminate A].
  assert (Hw : world_ok demo_world).
  { constructor; [apply Pic.demo_pair_inv | apply bus_reachable_ok, demo_bus_reachable | unfold range; cbn; lia]. }
  pose proof A as Ev. vm_compute in Ev. injection Ev as Ev.
  destruct (isa_interrupt_reaches_cpu demo_world 0 a 9 1 Hw ltac:(lia) A) as (A1 & _ & w2 & E & _).
  - subst a. repeat split; reflexivity.
  - subst a. reflexivity.
  - lia.
  - exists w2. eexists. split; [exact A1|]. split; [subst a; vm_compute; reflexivity|]. exact E.
Defined.

End IrqPath.
