(* ===== verification/CondCodes.v ===== *)
(** * x86 condition codes

    The lazy flags of the x86 CPU (src/s2e/qemu/target-i386): translated code
    does not compute EFLAGS after each instruction but records the kind of
    operation ([cc_op]) with two operands ([cc_src], [cc_dst]);
    helper_template.h and op_helper.c recover the flags when they are needed,
    and translate.c has short cuts for conditional jumps.  [gen_op], [gen_inc],
    [gen_shift_rm_T1] and [gen_jcc1] are what the code emitted by the functions
    of these names does.  The target is i386, as S2E builds it: [target_ulong]
    has 32 bits, and operand sizes [ot] are 0 (8 bits), 1 (16) and 2 (32). *)

From S2P Require Import Prelude.

Module CondCodes.

Definition CC_C : Z := 0x0001.
Definition CC_P : Z := 0x0004.
Definition CC_A : Z := 0x0010.
Definition CC_Z : Z := 0x0040.
Definition CC_S : Z := 0x0080.
Definition CC_O : Z := 0x0800.

Definition CC_OP_EFLAGS : Z := 1.
Definition CC_OP_MULB : Z := 2.
Definition CC_OP_ADDB : Z := 6.
Definition CC_OP_ADCB : Z := 10.
Definition CC_OP_SUBB : Z := 14.
Definition CC_OP_SBBB : Z := 18.
Definition CC_OP_LOGICB : Z := 22.
Definition CC_OP_INCB : Z := 26.
Definition CC_OP_DECB : Z := 30.
Definition CC_OP_SHLB : Z := 34.
Definition CC_OP_SARB : Z := 38.

(** The fields of the CPU state that hold the lazy flags. *)
Record CC := mkCC {
  cc_op : Z;
  cc_src : Z;
  cc_dst : Z
}.
#[export] Instance CC_eta : RecordEta CC := fields mkCC < cc_op ; cc_src ; cc_dst >.

Definition parity_table : list Z :=
  [CC_P; 0; 0; CC_P; 0; CC_P; CC_P; 0; 0; CC_P; CC_P; 0; CC_P; 0; 0; CC_P;
   0; CC_P; CC_P; 0; CC_P; 0; 0; CC_P; CC_P; 0; 0; CC_P; 0; CC_P; CC_P; 0;
   0; CC_P; CC_P; 0; CC_P; 0; 0; CC_P; CC_P; 0; 0; CC_P; 0; CC_P; CC_P; 0;
   CC_P; 0; 0; CC_P; 0; CC_P; CC_P; 0; 0; CC_P; CC_P; 0; CC_P; 0; 0; CC_P;
   0; CC_P; CC_P; 0; CC_P; 0; 0; CC_P; CC_P; 0; 0; CC_P; 0; CC_P; CC_P; 0;
   CC_P; 0; 0; CC_P; 0; CC_P; CC_P; 0; 0; CC_P; CC_P; 0; CC_P; 0; 0; CC_P;
   CC_P; 0; 0; CC_P; 0; CC_P; CC_P; 0; 0; CC_P; CC_P; 0; CC_P; 0; 0; CC_P;
   0; CC_P; CC_P; 0; CC_P; 0; 0; CC_P; CC_P; 0; 0; CC_P; 0; CC_P; CC_P; 0;
   0; CC_P; CC_P; 0; CC_P; 0; 0; CC_P; CC_P; 0; 0; CC_P; 0; CC_P; CC_P; 0;
   CC_P; 0; 0; CC_P; 0; CC_P; CC_P; 0; 0; CC_P; CC_P; 0; CC_P; 0; 0; CC_P;
   CC_P; 0; 0; CC_P; 0; CC_P; CC_P; 0; 0; CC_P; CC_P; 0; CC_P; 0; 0; CC_P;
   0; CC_P; CC_P; 0; CC_P; 0; 0; CC_P; CC_P; 0; 0; CC_P; 0; CC_P; CC_P; 0;
   CC_P; 0; 0; CC_P; 0; CC_P; CC_P; 0; 0; CC_P; CC_P; 0; CC_P; 0; 0; CC_P;
   0; CC_P; CC_P; 0; CC_P; 0; 0; CC_P; CC_P; 0; 0; CC_P; 0; CC_P; CC_P; 0;
   0; CC_P; CC_P; 0; CC_P; 0; 0; CC_P; CC_P; 0; 0; CC_P; 0; CC_P; CC_P; 0;
   CC_P; 0; 0; CC_P; 0; CC_P; CC_P; 0; 0; CC_P; CC_P; 0; CC_P; 0; 0; CC_P].

Definition lshift (x n : Z) : Z := if 0 <=? n then s32 (Z.shiftl x n) else Z.shiftr x (- n).

(** ** helper_template.h, included once per operand size *)

Section Template.
Context (DATA_BITS : Z).

Definition DATA_TYPE (x : Z) : Z := x mod 2 ^ DATA_BITS.
Definition DATA_MASK : Z := 2 ^ DATA_BITS - 1.
Definition SIGN_MASK : Z := BIT (DATA_BITS - 1).

(** The lines every [compute_all] shares. *)
Definition flag_p (dst : Z) : Z := Z.land (aget 0 parity_table (u8 dst)) CC_P.
Definition flag_a (dst src1 src2 : Z) : Z := Z.land (Z.lxor (Z.lxor dst src1) src2) 0x10.
Definition flag_z (dst : Z) : Z := Z.shiftl (b2z (DATA_TYPE dst =? 0)) 6.
Definition flag_s (dst : Z) : Z := Z.land (lshift (s32 dst) (8 - DATA_BITS)) 0x80.

Definition join (cf pf af zf sf o_f : Z) : Z :=
  Z.lor (Z.lor (Z.lor (Z.lor (Z.lor cf pf) af) zf) sf) o_f.

Definition compute_all_add (env : CC) : Z :=
  let src1 := s32 (cc_src env) in
  let src2 := s32 (cc_dst env - cc_src env) in
  let cf := b2z (DATA_TYPE (cc_dst env) <? DATA_TYPE src1) in
  let o_f := Z.land (lshift (s32 (Z.land (Z.lxor (Z.lxor src1 src2) (-1)) (Z.lxor src1 (cc_dst env))))
                      (12 - DATA_BITS)) CC_O in
  join cf (flag_p (cc_dst env)) (flag_a (cc_dst env) src1 src2) (flag_z (cc_dst env))
    (flag_s (cc_dst env)) o_f.

Definition compute_c_add (env : CC) : Z :=
  b2z (DATA_TYPE (cc_dst env) <? DATA_TYPE (s32 (cc_src env))).

Definition compute_all_adc (env : CC) : Z :=
  let src1 := s32 (cc_src env) in
  let src2 := s32 (cc_dst env - cc_src env - 1) in
  let cf := b2z (DATA_TYPE (cc_dst env) <=? DATA_TYPE src1) in
  let o_f := Z.land (lshift (s32 (Z.land (Z.lxor (Z.lxor src1 src2) (-1)) (Z.lxor src1 (cc_dst env))))
                      (12 - DATA_BITS)) CC_O in
  join cf (flag_p (cc_dst env)) (flag_a (cc_dst env) src1 src2) (flag_z (cc_dst env))
    (flag_s (cc_dst env)) o_f.

Definition compute_c_adc (env : CC) : Z :=
  b2z (DATA_TYPE (cc_dst env) <=? DATA_TYPE (s32 (cc_src env))).

Definition compute_all_sub (env : CC) : Z :=
  let src1 := s32 (cc_dst env + cc_src env) in
  let src2 := s32 (cc_src env) in
  let cf := b2z (DATA_TYPE src1 <? DATA_TYPE src2) in
  let o_f := Z.land (lshift (s32 (Z.land (Z.lxor src1 src2) (Z.lxor src1 (cc_dst env))))
                      (12 - DATA_BITS)) CC_O in
  join cf (flag_p (cc_dst env)) (flag_a (cc_dst env) src1 src2) (flag_z (cc_dst env))
    (flag_s (cc_dst env)) o_f.

Definition compute_c_sub (env : CC) : Z :=
  b2z (DATA_TYPE (s32 (cc_dst env + cc_src env)) <? DATA_TYPE (s32 (cc_src env))).

Definition compute_all_sbb (env : CC) : Z :=
  let src1 := s32 (cc_dst env + cc_src env + 1) in
  let src2 := s32 (cc_src env) in
  let cf := b2z (DATA_TYPE src1 <=? DATA_TYPE src2) in
  let o_f := Z.land (lshift (s32 (Z.land (Z.lxor src1 src2) (Z.lxor src1 (cc_dst env))))
                      (12 - DATA_BITS)) CC_O in
  join cf (flag_p (cc_dst env)) (flag_a (cc_dst env) src1 src2) (flag_z (cc_dst env))
    (flag_s (cc_dst env)) o_f.

Definition compute_c_sbb (env : CC) : Z :=
  b2z (DATA_TYPE (s32 (cc_dst env + cc_src env + 1)) <=? DATA_TYPE (s32 (cc_src env))).

Definition compute_all_logic (env : CC) : Z :=
  join 0 (flag_p (cc_dst env)) 0 (flag_z (cc_dst env)) (flag_s (cc_dst env)) 0.

Definition compute_c_logic (env : CC) : Z := 0.

Definition compute_all_inc (env : CC) : Z :=
  let src1 := s32 (cc_dst env - 1) in
  let src2 := 1 in
  let o_f := Z.shiftl (b2z (Z.land (cc_dst env) DATA_MASK =? SIGN_MASK)) 11 in
  join (cc_src env) (flag_p (cc_dst env)) (flag_a (cc_dst env) src1 src2) (flag_z (cc_dst env))
    (flag_s (cc_dst env)) o_f.

(** Used for the three sizes of [inc] and [dec]. *)
Definition compute_c_incl (env : CC) : Z := cc_src env.

Definition compute_all_dec (env : CC) : Z :=
  let src1 := s32 (cc_dst env + 1) in
  let src2 := 1 in
  let o_f := Z.shiftl (b2z (Z.land (cc_dst env) DATA_MASK =? SIGN_MASK - 1)) 11 in
  join (cc_src env) (flag_p (cc_dst env)) (flag_a (cc_dst env) src1 src2) (flag_z (cc_dst env))
    (flag_s (cc_dst env)) o_f.

Definition compute_all_shl (env : CC) : Z :=
  let cf := Z.land (Z.shiftr (cc_src env) (DATA_BITS - 1)) CC_C in
  let o_f := Z.land (lshift (s32 (Z.lxor (cc_src env) (cc_dst env))) (12 - DATA_BITS)) CC_O in
  join cf (flag_p (cc_dst env)) 0 (flag_z (cc_dst env)) (flag_s (cc_dst env)) o_f.

Definition compute_c_shl (env : CC) : Z := Z.land (Z.shiftr (cc_src env) (DATA_BITS - 1)) CC_C.

Definition compute_c_sarl (env : CC) : Z := Z.land (cc_src env) 1.

Definition compute_all_sar (env : CC) : Z :=
  let cf := Z.land (cc_src env) 1 in
  let o_f := Z.land (lshift (s32 (Z.lxor (cc_src env) (cc_dst env))) (12 - DATA_BITS)) CC_O in
  join cf (flag_p (cc_dst env)) 0 (flag_z (cc_dst env)) (flag_s (cc_dst env)) o_f.

Definition compute_c_mull (env : CC) : Z := b2z (nz (cc_src env)).

Definition compute_all_mul (env : CC) : Z :=
  let cf := b2z (nz (cc_src env)) in
  join cf (flag_p (cc_dst env)) 0 (flag_z (cc_dst env)) (flag_s (cc_dst env)) (Z.shiftl cf 11).

End Template.

Definition compute_all_eflags (env : CC) : Z := cc_src env.
Definition compute_c_eflags (env : CC) : Z := Z.land (cc_src env) CC_C.

(** The cases are the members of the enumeration of cpu.h, [CC_OP_EFLAGS]
    first, then four sizes of each operation of which the last is 64-bit. *)
Definition helper_cc_compute_all (env : CC) (op : Z) : Z :=
  match op with
  | 1 => compute_all_eflags env
  | 2 => compute_all_mul 8 env | 3 => compute_all_mul 16 env | 4 => compute_all_mul 32 env
  | 6 => compute_all_add 8 env | 7 => compute_all_add 16 env | 8 => compute_all_add 32 env
  | 10 => compute_all_adc 8 env | 11 => compute_all_adc 16 env | 12 => compute_all_adc 32 env
  | 14 => compute_all_sub 8 env | 15 => compute_all_sub 16 env | 16 => compute_all_sub 32 env
  | 18 => compute_all_sbb 8 env | 19 => compute_all_sbb 16 env | 20 => compute_all_sbb 32 env
  | 22 => compute_all_logic 8 env | 23 => compute_all_logic 16 env | 24 => compute_all_logic 32 env
  | 26 => compute_all_inc 8 env | 27 => compute_all_inc 16 env | 28 => compute_all_inc 32 env
  | 30 => compute_all_dec 8 env | 31 => compute_all_dec 16 env | 32 => compute_all_dec 32 env
  | 34 => compute_all_shl 8 env | 35 => compute_all_shl 16 env | 36 => compute_all_shl 32 env
  | 38 => compute_all_sar 8 env | 39 => compute_all_sar 16 env | 40 => compute_all_sar 32 env
  | _ => 0
  end.

Definition helper_cc_compute_c (env : CC) (op : Z) : Z :=
  match op with
  | 1 => compute_c_eflags env
  | 2 | 3 | 4 => compute_c_mull env
  | 6 => compute_c_add 8 env | 7 => compute_c_add 16 env | 8 => compute_c_add 32 env
  | 10 => compute_c_adc 8 env | 11 => compute_c_adc 16 env | 12 => compute_c_adc 32 env
  | 14 => compute_c_sub 8 env | 15 => compute_c_sub 16 env | 16 => compute_c_sub 32 env
  | 18 => compute_c_sbb 8 env | 19 => compute_c_sbb 16 env | 20 => compute_c_sbb 32 env
  | 22 | 23 | 24 => compute_c_logic env
  | 26 | 27 | 28 | 30 | 31 | 32 => compute_c_incl env
  | 34 => compute_c_shl 8 env | 35 => compute_c_shl 16 env | 36 => compute_c_shl 32 env
  | 38 | 39 | 40 => compute_c_sarl env
  | _ => 0
  end.

(** ** Emitted code *)

Inductive AluOp := OP_ADDL | OP_ORL | OP_ADCL | OP_SBBL | OP_ANDL | OP_SUBL | OP_XORL | OP_CMPL.

(** The operand and the flags after the code of [gen_op]; [junk] is what the
    discarded [cpu_cc_src] holds after [gen_op_update1_cc]. *)
Definition gen_op (junk : Z) (env : CC) (op : AluOp) (ot T0 T1 : Z) : Z * CC :=
  match op with
  | OP_ADCL =>
      let tmp4 := helper_cc_compute_c env (cc_op env) in
      let T0 := u32 (T0 + T1) in
      let T0 := u32 (T0 + tmp4) in
      (T0, mkCC (u32 (Z.shiftl tmp4 2) + (CC_OP_ADDB + ot)) T1 T0)
  | OP_SBBL =>
      let tmp4 := helper_cc_compute_c env (cc_op env) in
      let T0 := u32 (T0 - T1) in
      let T0 := u32 (T0 - tmp4) in
      (T0, mkCC (u32 (Z.shiftl tmp4 2) + (CC_OP_SUBB + ot)) T1 T0)
  | OP_ADDL => let T0 := u32 (T0 + T1) in (T0, mkCC (CC_OP_ADDB + ot) T1 T0)
  | OP_SUBL => let T0 := u32 (T0 - T1) in (T0, mkCC (CC_OP_SUBB + ot) T1 T0)
  | OP_ANDL => let T0 := Z.land T0 T1 in (T0, mkCC (CC_OP_LOGICB + ot) junk T0)
  | OP_ORL => let T0 := Z.lor T0 T1 in (T0, mkCC (CC_OP_LOGICB + ot) junk T0)
  | OP_XORL => let T0 := Z.lxor T0 T1 in (T0, mkCC (CC_OP_LOGICB + ot) junk T0)
  | OP_CMPL => (T0, mkCC (CC_OP_SUBB + ot) T1 (u32 (T0 - T1)))
  end.

Definition gen_inc (env : CC) (ot c T0 : Z) : Z * CC :=
  let carry := helper_cc_compute_c env (cc_op env) in
  if 0 <? c then let T0 := u32 (T0 + 1) in (T0, mkCC (CC_OP_INCB + ot) carry T0)
  else let T0 := u32 (T0 + -1) in (T0, mkCC (CC_OP_DECB + ot) carry T0).

Definition gen_extu (ot x : Z) : Z := x mod 2 ^ (8 * 2 ^ ot).
Definition gen_exts (ot x : Z) : Z :=
  match ot with 0 => s8 x | 1 => s16 x | _ => s32 x end.

(** A zero count leaves the flags alone ([shift_label]). *)
Definition gen_shift_rm_T1 (env : CC) (ot T0 T1 : Z) (is_right is_arith : bool) : Z * CC :=
  let T1 := Z.land T1 0x1f in
  let tmp5 := T1 - 1 in
  let '(T3, T0) :=
    if is_right then
      if is_arith then
        let T0 := gen_exts ot T0 in (u32 (Z.shiftr T0 tmp5), u32 (Z.shiftr T0 T1))
      else let T0 := gen_extu ot T0 in (Z.shiftr T0 tmp5, Z.shiftr T0 T1)
    else (u32 (Z.shiftl T0 tmp5), u32 (Z.shiftl T0 T1)) in
  (T0, if T1 =? 0 then env
       else mkCC ((if is_right then CC_OP_SARB else CC_OP_SHLB) + ot) T3 T0).

(** ** Conditions *)

Inductive Jcc := JCC_O | JCC_B | JCC_Z | JCC_BE | JCC_S | JCC_P | JCC_L | JCC_LE.

(** [(b >> 1) & 7] *)
Definition jcc_op (b : Z) : Jcc :=
  match Z.land (Z.shiftr b 1) 7 with
  | 0 => JCC_O | 1 => JCC_B | 2 => JCC_Z | 3 => JCC_BE | 4 => JCC_S | 5 => JCC_P | 6 => JCC_L
  | _ => JCC_LE
  end.

Definition gen_setcc_slow_T0 (env : CC) (jcc : Jcc) : Z :=
  let all := helper_cc_compute_all env (cc_op env) in
  match jcc with
  | JCC_O => Z.land (Z.shiftr all 11) 1
  | JCC_B => helper_cc_compute_c env (cc_op env)
  | JCC_Z => Z.land (Z.shiftr all 6) 1
  | JCC_BE => Z.land (Z.lor (Z.shiftr all 6) all) 1
  | JCC_S => Z.land (Z.shiftr all 7) 1
  | JCC_P => Z.land (Z.shiftr all 2) 1
  | JCC_L => Z.land (Z.lxor (Z.shiftr all 11) (Z.shiftr all 7)) 1
  | JCC_LE => Z.land (Z.lor (Z.lxor (Z.shiftr all 11) (Z.shiftr all 7)) (Z.shiftr all 6)) 1
  end.

(** The short cuts of [gen_jcc1]: the condition they branch on. *)
Definition fast_jcc_z (env : CC) (size : Z) : bool :=
  match size with
  | 0 => Z.land (cc_dst env) 0xff =? 0
  | 1 => Z.land (cc_dst env) 0xffff =? 0
  | _ => cc_dst env =? 0
  end.
Definition fast_jcc_s (env : CC) (size : Z) : bool :=
  match size with
  | 0 => nz (Z.land (cc_dst env) 0x80)
  | 1 => nz (Z.land (cc_dst env) 0x8000)
  | _ => s32 (cc_dst env) <? 0
  end.
Definition fast_jcc_b (cond : Z -> Z -> bool) (env : CC) (size : Z) : bool :=
  let tmp4 := u32 (cc_dst env + cc_src env) in
  match size with
  | 0 => cond (Z.land tmp4 0xff) (Z.land (cc_src env) 0xff)
  | 1 => cond (Z.land tmp4 0xffff) (Z.land (cc_src env) 0xffff)
  | _ => cond tmp4 (cc_src env)
  end.
Definition fast_jcc_l (cond : Z -> Z -> bool) (env : CC) (size : Z) : bool :=
  let tmp4 := u32 (cc_dst env + cc_src env) in
  match size with
  | 0 => cond (s8 tmp4) (s8 (cc_src env))
  | 1 => cond (s16 tmp4) (s16 (cc_src env))
  | _ => cond (s32 tmp4) (s32 (cc_src env))
  end.

(** The condition chosen when the flags are known to come from [cc_op]
    (statically, by the translator); [None] is the slow path. *)
Definition fast_jcc (env : CC) (op : Z) (jcc : Jcc) : option bool :=
  if (CC_OP_SUBB <=? op) && (op <? CC_OP_SBBB) then
    let size := op - CC_OP_SUBB in
    match jcc with
    | JCC_Z => Some (fast_jcc_z env size)
    | JCC_S => Some (fast_jcc_s env size)
    | JCC_B => Some (fast_jcc_b Z.ltb env size)
    | JCC_BE => Some (fast_jcc_b Z.leb env size)
    | JCC_L => Some (fast_jcc_l Z.ltb env size)
    | JCC_LE => Some (fast_jcc_l Z.leb env size)
    | _ => None
    end
  else if (CC_OP_ADDB <=? op) && (op <? CC_OP_SARB + 4) then
    let size := Z.land (op - CC_OP_ADDB) 3 in
    match jcc with
    | JCC_Z => Some (fast_jcc_z env size)
    | JCC_S => Some (fast_jcc_s env size)
    | _ => None
    end
  else None.

(** Whether the emitted code jumps, for opcode [b], of which the low bit
    inverts.  [static] is what the translator knows of [cc_op]: its value, or
    [CC_OP_DYNAMIC] (0). *)
Definition gen_jcc1 (static : Z) (env : CC) (b : Z) : bool :=
  let inv := nz (Z.land b 1) in
  match fast_jcc env static (jcc_op b) with
  | Some taken => xorb inv taken
  | None =>
      let env := if nz static then env <| cc_op := static |> else env in
      xorb inv (nz (gen_setcc_slow_T0 env (jcc_op b)))
  end.

(** ** The flags of the architecture *)

Definition eflags (c p a z s o : bool) : Z :=
  b2z c + 4 * b2z p + 16 * b2z a + 64 * b2z z + 128 * b2z s + 2048 * b2z o.

(** An even number of ones in the low byte. *)
Definition parity (r : Z) : bool :=
  negb (foldl xorb false (map (fun i => Z.testbit r i) (seqZ 0 8))).

(** The two's complement value of a [w]-bit pattern. *)
Definition sgn (w x : Z) : Z := if x <? 2 ^ (w - 1) then x else x - 2 ^ w.

Definition signed_fits (w v : Z) : bool := (- 2 ^ (w - 1) <=? v) && (v <? 2 ^ (w - 1)).

(** [x + y + c] at width [w]. *)
Definition add_flags (w x y c : Z) : Z :=
  let r := x + y + c in
  eflags (2 ^ w <=? r) (parity r) (16 <=? x mod 16 + y mod 16 + c) (r mod 2 ^ w =? 0)
    (2 ^ (w - 1) <=? r mod 2 ^ w) (negb (signed_fits w (sgn w x + sgn w y + c))).

(** [x - y - c] at width [w]. *)
Definition sub_flags (w x y c : Z) : Z :=
  let r := x - y - c in
  eflags (x <? y + c) (parity r) (x mod 16 <? y mod 16 + c) (r mod 2 ^ w =? 0)
    (2 ^ (w - 1) <=? r mod 2 ^ w) (negb (signed_fits w (sgn w x - sgn w y - c))).

Definition logic_flags (w r : Z) : Z :=
  eflags false (parity r) false (r =? 0) (2 ^ (w - 1) <=? r) false.

(** ** Bits *)

Definition width (w : Z) : Prop := w = 8 \/ w = 16 \/ w = 32.

Lemma congr_testbit a b k n : 0 <= k < n -> a mod 2 ^ n = b mod 2 ^ n -> Z.testbit a k = Z.testbit b k.
Proof.
  intros Hk E. rewrite <- (Z.mod_pow2_bits_low a n k), <- (Z.mod_pow2_bits_low b n k) by lia. by rewrite E.
Qed.

Lemma s32_mod x : s32 x mod 2 ^ 32 = x mod 2 ^ 32.
Proof.
  unfold s32. rewrite Zminus_mod_idemp_l. f_equal. lia.
Qed.

Lemma u32_mod x : u32 x mod 2 ^ 32 = x mod 2 ^ 32.
Proof. unfold u32. by rewrite Z.mod_mod by lia. Qed.

Lemma s32_testbit x k : 0 <= k < 32 -> Z.testbit (s32 x) k = Z.testbit x k.
Proof. intros. apply (congr_testbit _ _ k 32); [done | apply s32_mod]. Qed.

Lemma mod_width w a b : width w -> a mod 2 ^ 32 = b mod 2 ^ 32 -> a mod 2 ^ w = b mod 2 ^ w.
Proof.
  intros Hw E. assert (D : (2 ^ w | 2 ^ 32)).
  { exists (2 ^ (32 - w)). rewrite <- Z.pow_add_r by (destruct Hw as [->|[->| ->]]; lia). f_equal. lia. }
  by rewrite <- (Z.mod_mod_divide a (2 ^ 32)), <- (Z.mod_mod_divide b (2 ^ 32)), E by done.
Qed.

Lemma msb z w : 0 < w -> Z.testbit z (w - 1) = (2 ^ (w - 1) <=? z mod 2 ^ w).
Proof.
  intros Hw. rewrite <- (Z.mod_pow2_bits_low z w) by lia.
  pose proof (Z.mod_pos_bound z (2 ^ w) ltac:(lia)) as B. set (m := z mod 2 ^ w) in *.
  rewrite Z.testbit_odd, Z.shiftr_div_pow2 by lia.
  assert (E : 2 ^ w = 2 * 2 ^ (w - 1)) by (rewrite <- Z.pow_succ_r by lia; f_equal; lia).
  destruct (Z.leb_spec (2 ^ (w - 1)) m).
  - replace (m / 2 ^ (w - 1)) with 1; [done|]. apply (Z.div_unique _ _ 1 (m - 2 ^ (w - 1))); lia.
  - by rewrite Z.div_small by lia.
Qed.

(** The bit of a sum is that of the operands and the carry into it. *)
Lemma sum_bit a b c k : 0 <= k -> 0 <= c <= 1 ->
  Z.testbit (a + b + c) k =
    xorb (xorb (Z.testbit a k) (Z.testbit b k)) (2 ^ k <=? a mod 2 ^ k + b mod 2 ^ k + c).
Proof.
  intros Hk Hc. rewrite !Z.testbit_odd, !Z.shiftr_div_pow2 by lia.
  pose proof (Z.pow_pos_nonneg 2 k ltac:(lia) Hk) as Hp. set (P := 2 ^ k) in *.
  pose proof (Z.div_mod a P ltac:(lia)). pose proof (Z.div_mod b P ltac:(lia)).
  pose proof (Z.mod_pos_bound a P Hp). pose proof (Z.mod_pos_bound b P Hp).
  set (carry := b2z (P <=? a mod P + b mod P + c)).
  assert (E : (a + b + c) / P = a / P + b / P + carry).
  { symmetry. apply (Z.div_unique _ _ _ (a mod P + b mod P + c - P * carry)).
    - left. unfold carry. destruct (Z.leb_spec P (a mod P + b mod P + c)); cbn; lia.
    - lia. }
  rewrite E, !Z.odd_add. f_equal. unfold carry. by destruct (P <=? _).
Qed.

Lemma land_bit x k : 0 <= k -> Z.land x (BIT k) = b2z (Z.testbit x k) * 2 ^ k.
Proof.
  intros Hk. apply Z.bits_inj'. intros j Hj. rewrite Z.land_spec, BIT_testbit by done.
  destruct (Z.testbit x k) eqn:E; cbn [b2z].
  - rewrite Z.mul_1_l. destruct (Z.eqb_spec k j) as [<-|].
    + by rewrite E, Z.pow2_bits_true.
    + rewrite Z.pow2_bits_false by done. btauto.
  - rewrite Z.mul_0_l, Z.bits_0. destruct (Z.eqb_spec k j) as [<-|]; [by rewrite E | btauto].
Qed.

Lemma lshift_bit x n k : 0 <= k < 32 -> 0 <= k - n -> Z.testbit (lshift x n) k = Z.testbit x (k - n).
Proof.
  intros Hk Hn. unfold lshift. destruct (Z.leb_spec 0 n).
  - rewrite s32_testbit, Z.shiftl_spec by lia. done.
  - rewrite Z.shiftr_spec by lia. f_equal.
Qed.

(** ** The flags that only depend on the result *)

Lemma parity_low a b : a mod 2 ^ 8 = b mod 2 ^ 8 -> parity a = parity b.
Proof.
  intros E. unfold parity. cbn [seqZ map]. change (seqZ 0 8) with [0; 1; 2; 3; 4; 5; 6; 7]. cbn [map foldl].
  by rewrite !(congr_testbit a b _ 8) by (done || lia).
Qed.

Lemma parity_table_ok v : 0 <= v < 256 -> Z.land (aget 0 parity_table v) CC_P = 4 * b2z (parity v).
Proof.
  intros Hv. assert (A : forallb (fun v => Z.land (aget 0 parity_table v) CC_P =? 4 * b2z (parity v))
    (seqZ 0 256) = true) by (vm_compute; reflexivity).
  rewrite forallb_forall in A. apply Z.eqb_eq, A. apply list_elem_of_In, elem_of_seqZ. lia.
Qed.

Section Result.
Context (w : Z) (Hw : width w) (dst r : Z) (E : dst mod 2 ^ w = r mod 2 ^ w).

Lemma flag_p_ok : flag_p dst = 4 * b2z (parity r).
Proof.
  unfold flag_p. rewrite parity_table_ok by apply u8_range. do 2 f_equal. apply parity_low.
  unfold u8. rewrite Z.mod_mod by lia.
  assert (D : (2 ^ 8 | 2 ^ w)) by (exists (2 ^ (w - 8)); rewrite <- Z.pow_add_r
    by (destruct Hw as [->|[->| ->]]; lia); f_equal; lia).
  by rewrite <- (Z.mod_mod_divide dst (2 ^ w)), <- (Z.mod_mod_divide r (2 ^ w)), E by done.
Qed.

Lemma flag_z_ok : flag_z w dst = 64 * b2z (r mod 2 ^ w =? 0).
Proof. unfold flag_z, DATA_TYPE. rewrite E. by destruct (_ =? 0). Qed.

Lemma flag_s_ok : flag_s w dst = 128 * b2z (2 ^ (w - 1) <=? r mod 2 ^ w).
Proof.
  unfold flag_s. change 0x80 with (BIT 7).
  assert (0 < w <= 32) by (destruct Hw as [->|[->| ->]]; lia).
  rewrite land_bit, lshift_bit, s32_testbit by lia.
  replace (7 - (8 - w)) with (w - 1) by lia. rewrite msb, E by lia. apply Z.mul_comm.
Qed.

End Result.

(** The overflow expressions test the sign bit. *)
Lemma flag_o_ok w x : width w ->
  Z.land (lshift (s32 x) (12 - w)) CC_O = 2048 * b2z (Z.testbit x (w - 1)).
Proof.
  intros Hw. change CC_O with (BIT 11). assert (0 < w <= 32) by (destruct Hw as [->|[->| ->]]; lia).
  rewrite land_bit, lshift_bit, s32_testbit by (destruct Hw as [->|[->| ->]]; lia).
  replace (11 - (12 - w)) with (w - 1) by lia. apply Z.mul_comm.
Qed.

Lemma join_ok (c p a z s o : bool) :
  join (b2z c) (4 * b2z p) (16 * b2z a) (64 * b2z z) (128 * b2z s) (2048 * b2z o) = eflags c p a z s o.
Proof. by destruct c, p, a, z, s, o. Qed.

Lemma flag_a_ok dst s1 s2 :
  flag_a dst s1 s2 = 16 * b2z (xorb (xorb (Z.testbit dst 4) (Z.testbit s1 4)) (Z.testbit s2 4)).
Proof.
  unfold flag_a. change 0x10 with (BIT 4). rewrite land_bit, !Z.lxor_spec by lia. apply Z.mul_comm.
Qed.

(** ** Addition and subtraction *)

(** Decides every comparison of a goal between booleans. *)
Ltac compare_all :=
  repeat match goal with
  | |- context [?a <=? ?b] => destruct (Z.leb_spec a b)
  | |- context [?a <? ?b] => destruct (Z.ltb_spec a b)
  end; cbn; first [reflexivity | lia].

Lemma signs_add w x y c r : 0 < w -> 0 <= x < 2 ^ w -> 0 <= y < 2 ^ w -> 0 <= c <= 1 -> r = x + y + c ->
  let M := 2 ^ (w - 1) in
  negb (xorb (M <=? y) (M <=? x)) && xorb (M <=? y) (M <=? r mod 2 ^ w) =
    negb (signed_fits w (sgn w x + sgn w y + c)).
Proof.
  intros Hw Hx Hy Hc Hr M. assert (E : 2 ^ w = 2 * M).
  { unfold M. rewrite <- Z.pow_succ_r by lia. f_equal. lia. }
  assert (R : (r < 2 ^ w /\ r mod 2 ^ w = r) \/ (2 ^ w <= r /\ r mod 2 ^ w = r - 2 ^ w)).
  { destruct (Z.lt_ge_cases r (2 ^ w)); [left; split; [done | apply Z.mod_small; lia]|].
    right. split; [done|]. symmetry. apply (Z.mod_unique _ _ 1); lia. }
  unfold signed_fits, sgn. fold M.
  destruct R as [[? ->]|[? ->]], (Z.ltb_spec x M), (Z.ltb_spec y M); compare_all.
Qed.

Lemma signs_sub w x y c r : 0 < w -> 0 <= x < 2 ^ w -> 0 <= y < 2 ^ w -> 0 <= c <= 1 -> r = x - y - c ->
  let M := 2 ^ (w - 1) in
  xorb (M <=? x) (M <=? y) && xorb (M <=? x) (M <=? r mod 2 ^ w) =
    negb (signed_fits w (sgn w x - sgn w y - c)).
Proof.
  intros Hw Hx Hy Hc Hr M. assert (E : 2 ^ w = 2 * M).
  { unfold M. rewrite <- Z.pow_succ_r by lia. f_equal. lia. }
  assert (R : (0 <= r /\ r mod 2 ^ w = r) \/ (r < 0 /\ r mod 2 ^ w = r + 2 ^ w)).
  { destruct (Z.lt_ge_cases r 0); [right | left; split; [lia | apply Z.mod_small; lia]].
    split; [done|]. symmetry. apply (Z.mod_unique _ _ (-1)); lia. }
  unfold signed_fits, sgn. fold M.
  destruct R as [[? ->]|[? ->]], (Z.ltb_spec x M), (Z.ltb_spec y M); compare_all.
Qed.

Lemma low_nibble w x : width w -> x mod 2 ^ w mod 16 = x mod 16.
Proof.
  intros Hw. apply Z.mod_mod_divide. exists (2 ^ (w - 4)). change 16 with (2 ^ 4).
  rewrite <- Z.pow_add_r by (destruct Hw as [->|[->| ->]]; lia). f_equal. lia.
Qed.

Lemma width_bounds w : width w -> 0 < w <= 32 /\ 0 < 2 ^ w.
Proof. intros Hw. destruct Hw as [->|[->| ->]]; lia. Qed.

Lemma xorb_cancel p q d : xorb (xorb (xorb (xorb p q) d) q) p = d.
Proof. by destruct p, q, d. Qed.

Section Sums.
Context (w : Z) (Hw : width w) (a b c : Z) (Hc : 0 <= c <= 1).
Context (s1 s2 dst : Z).

(** The flags computed from the operands [s2], [s1] and the result of an
    addition with carry, whatever stands above bit [w]. *)
Lemma sum_flags :
  s1 mod 2 ^ 32 = b mod 2 ^ 32 -> s2 mod 2 ^ 32 = a mod 2 ^ 32 -> dst mod 2 ^ 32 = (a + b + c) mod 2 ^ 32 ->
  join (b2z (2 ^ w <=? a mod 2 ^ w + b mod 2 ^ w + c)) (flag_p dst) (flag_a dst s1 s2) (flag_z w dst)
    (flag_s w dst)
    (Z.land (lshift (s32 (Z.land (Z.lxor (Z.lxor s1 s2) (-1)) (Z.lxor s1 dst))) (12 - w)) CC_O) =
  add_flags w (a mod 2 ^ w) (b mod 2 ^ w) c.
Proof.
  intros E1 E2 Ed. destruct (width_bounds w Hw) as [Hb Hp].
  assert (Er : dst mod 2 ^ w = (a mod 2 ^ w + b mod 2 ^ w + c) mod 2 ^ w).
  { rewrite (mod_width w dst (a + b + c)) by done.
    rewrite <- (Z.add_mod_idemp_l (a + b)), (Z.add_mod a b), (Z.add_mod_idemp_l (_ + _)) by lia. done. }
  set (r := a mod 2 ^ w + b mod 2 ^ w + c) in *.
  rewrite (flag_p_ok w Hw dst r Er), (flag_z_ok w dst r Er), (flag_s_ok w Hw dst r Er),
    flag_a_ok, flag_o_ok by done.
  rewrite join_ok. unfold add_flags. fold r. f_equal.
  - rewrite (congr_testbit dst (a + b + c) 4 32), (congr_testbit s1 b 4 32), (congr_testbit s2 a 4 32) by (done || lia).
    rewrite sum_bit, xorb_cancel by lia. change (2 ^ 4) with 16. by rewrite !low_nibble.
  - rewrite Z.land_spec, !Z.lxor_spec, Z.bits_m1, xorb_true_r by lia.
    rewrite !msb, Er, (mod_width w s1 b), (mod_width w s2 a) by (done || lia).
    apply (signs_add w (a mod 2 ^ w) (b mod 2 ^ w) c r); try done; try lia; by apply Z.mod_pos_bound.
Qed.

(** And for a subtraction with borrow [a - b - c]. *)
Lemma difference_flags :
  s1 mod 2 ^ 32 = a mod 2 ^ 32 -> s2 mod 2 ^ 32 = b mod 2 ^ 32 -> dst mod 2 ^ 32 = (a - b - c) mod 2 ^ 32 ->
  join (b2z (a mod 2 ^ w <? b mod 2 ^ w + c)) (flag_p dst) (flag_a dst s1 s2) (flag_z w dst)
    (flag_s w dst) (Z.land (lshift (s32 (Z.land (Z.lxor s1 s2) (Z.lxor s1 dst))) (12 - w)) CC_O) =
  sub_flags w (a mod 2 ^ w) (b mod 2 ^ w) c.
Proof.
  intros E1 E2 Ed. destruct (width_bounds w Hw) as [Hb Hp].
  assert (Er : dst mod 2 ^ w = (a mod 2 ^ w - b mod 2 ^ w - c) mod 2 ^ w).
  { rewrite (mod_width w dst (a - b - c)) by done.
    rewrite <- (Zminus_mod_idemp_l (a - b)), (Zminus_mod a b), (Zminus_mod_idemp_l (_ - _)). done. }
  set (r := a mod 2 ^ w - b mod 2 ^ w - c) in *.
  rewrite (flag_p_ok w Hw dst r Er), (flag_z_ok w dst r Er), (flag_s_ok w Hw dst r Er),
    flag_a_ok, flag_o_ok by done.
  rewrite join_ok. unfold sub_flags. fold r. f_equal.
  - rewrite (congr_testbit dst (a - b - c) 4 32), (congr_testbit s1 a 4 32), (congr_testbit s2 b 4 32) by (done || lia).
    replace a with (a - b - c + b + c) at 2 by lia. rewrite sum_bit by lia. change (2 ^ 4) with 16.
    rewrite !low_nibble by done.
    assert (D : (a - b - c) mod 16 = (a mod 16 - b mod 16 - c) mod 16)
      by (rewrite <- (Zminus_mod_idemp_l (a - b)), (Zminus_mod a b), (Zminus_mod_idemp_l (_ - _)); done).
    pose proof (Z.mod_pos_bound a 16 ltac:(lia)). pose proof (Z.mod_pos_bound b 16 ltac:(lia)).
    assert (K : (16 <=? (a - b - c) mod 16 + b mod 16 + c) = (a mod 16 <? b mod 16 + c)).
    { rewrite D. destruct (Z.lt_ge_cases (a mod 16 - b mod 16 - c) 0).
      - rewrite <- (Z.mod_unique (a mod 16 - b mod 16 - c) 16 (-1) (a mod 16 - b mod 16 - c + 16)) by lia.
        compare_all.
      - rewrite Z.mod_small by lia. compare_all. }
    rewrite K. by destruct (Z.testbit (a - b - c) 4), (Z.testbit b 4), (a mod 16 <? _).
  - rewrite Z.land_spec, !Z.lxor_spec.
    rewrite !msb, Er, (mod_width w s1 a), (mod_width w s2 b) by (done || lia).
    apply (signs_sub w (a mod 2 ^ w) (b mod 2 ^ w) c r); try done; try lia; by apply Z.mod_pos_bound.
Qed.

End Sums.

(** ** The arithmetic instructions *)

Definition size (ot : Z) : Z := 8 * 2 ^ ot.
Definition flags (env : CC) : Z := helper_cc_compute_all env (cc_op env).
Definition carry (env : CC) : Z := helper_cc_compute_c env (cc_op env).

Lemma size_width ot : 0 <= ot <= 2 -> width (size ot).
Proof.
  intros. assert (ot = 0 \/ ot = 1 \/ ot = 2) as [->|[->| ->]] by lia; [by left | by right; left | by right; right].
Qed.

Lemma carry_out w x y c : 0 <= x < 2 ^ w -> 0 <= y < 2 ^ w -> 0 <= c <= 1 ->
  (c = 0 -> ((x + y + c) mod 2 ^ w <? y) = (2 ^ w <=? x + y + c)) /\
  (c = 1 -> ((x + y + c) mod 2 ^ w <=? y) = (2 ^ w <=? x + y + c)).
Proof.
  intros Hx Hy Hc. set (r := x + y + c) in *.
  assert (R : (r < 2 ^ w /\ r mod 2 ^ w = r) \/ (2 ^ w <= r /\ r mod 2 ^ w = r - 2 ^ w)).
  { destruct (Z.lt_ge_cases r (2 ^ w)); [left; split; [done | apply Z.mod_small; lia]|].
    right. split; [done|]. symmetry. apply (Z.mod_unique _ _ 1); lia. }
  split; intros ->; destruct R as [[? ->]|[? ->]]; unfold r in *; compare_all.
Qed.

Lemma add_case w env a : width w -> cc_dst env mod 2 ^ 32 = (a + cc_src env) mod 2 ^ 32 ->
  compute_all_add w env = add_flags w (a mod 2 ^ w) (cc_src env mod 2 ^ w) 0.
Proof.
  intros Hw Ed. destruct (width_bounds w Hw) as [_ Hp]. unfold compute_all_add, DATA_TYPE.
  rewrite (mod_width w (s32 (cc_src env)) (cc_src env)) by (done || apply s32_mod).
  rewrite (mod_width w (cc_dst env) (a + cc_src env)), Z.add_mod by (done || lia).
  rewrite <- (sum_flags w Hw a (cc_src env) 0 ltac:(lia) (s32 (cc_src env))
    (s32 (cc_dst env - cc_src env)) (cc_dst env)).
  - do 2 f_equal. rewrite <- (proj1 (carry_out w (a mod 2 ^ w) (cc_src env mod 2 ^ w) 0
      (Z.mod_pos_bound _ _ Hp) (Z.mod_pos_bound _ _ Hp) ltac:(lia)) eq_refl). by rewrite Z.add_0_r.
  - apply s32_mod.
  - rewrite s32_mod, Zminus_mod, Ed, <- Zminus_mod. f_equal. lia.
  - by rewrite Z.add_0_r.
Qed.

Lemma adc_case w env a : width w -> cc_dst env mod 2 ^ 32 = (a + cc_src env + 1) mod 2 ^ 32 ->
  compute_all_adc w env = add_flags w (a mod 2 ^ w) (cc_src env mod 2 ^ w) 1.
Proof.
  intros Hw Ed. destruct (width_bounds w Hw) as [_ Hp]. unfold compute_all_adc, DATA_TYPE.
  rewrite (mod_width w (s32 (cc_src env)) (cc_src env)) by (done || apply s32_mod).
  assert (Er : cc_dst env mod 2 ^ w = (a mod 2 ^ w + cc_src env mod 2 ^ w + 1) mod 2 ^ w).
  { rewrite (mod_width w (cc_dst env) (a + cc_src env + 1)) by done.
    rewrite <- (Z.add_mod_idemp_l (a + _)), (Z.add_mod a), (Z.add_mod_idemp_l (_ + _)) by lia. done. }
  rewrite Er, (proj2 (carry_out w (a mod 2 ^ w) (cc_src env mod 2 ^ w) 1
      (Z.mod_pos_bound _ _ Hp) (Z.mod_pos_bound _ _ Hp) ltac:(lia)) eq_refl).
  apply (sum_flags w Hw a (cc_src env) 1); [lia | apply s32_mod | | done].
  rewrite s32_mod. rewrite <- (Zminus_mod_idemp_l (_ - _)), (Zminus_mod _ (cc_src env)), Ed, <- Zminus_mod,
    Zminus_mod_idemp_l. f_equal. lia.
Qed.

Lemma sub_case w env a : width w -> cc_dst env mod 2 ^ 32 = (a - cc_src env) mod 2 ^ 32 ->
  compute_all_sub w env = sub_flags w (a mod 2 ^ w) (cc_src env mod 2 ^ w) 0.
Proof.
  intros Hw Ed. unfold compute_all_sub, DATA_TYPE.
  assert (E1 : s32 (cc_dst env + cc_src env) mod 2 ^ 32 = a mod 2 ^ 32).
  { rewrite s32_mod, Z.add_mod, Ed, <- Z.add_mod by lia. f_equal. lia. }
  rewrite (mod_width w _ _ Hw E1), (mod_width w _ _ Hw (s32_mod (cc_src env))).
  rewrite <- (difference_flags w Hw a (cc_src env) 0 ltac:(lia) _ _ _ E1 (s32_mod _))
    by (by rewrite Z.sub_0_r). by rewrite Z.add_0_r.
Qed.

Lemma sbb_case w env a : width w -> cc_dst env mod 2 ^ 32 = (a - cc_src env - 1) mod 2 ^ 32 ->
  compute_all_sbb w env = sub_flags w (a mod 2 ^ w) (cc_src env mod 2 ^ w) 1.
Proof.
  intros Hw Ed. unfold compute_all_sbb, DATA_TYPE.
  assert (E1 : s32 (cc_dst env + cc_src env + 1) mod 2 ^ 32 = a mod 2 ^ 32).
  { rewrite s32_mod, <- Z.add_assoc, Z.add_mod, Ed, <- Z.add_mod by lia. f_equal. lia. }
  rewrite (mod_width w _ _ Hw E1), (mod_width w _ _ Hw (s32_mod (cc_src env))).
  rewrite <- (difference_flags w Hw a (cc_src env) 1 ltac:(lia) _ _ _ E1 (s32_mod _) Ed).
  do 2 f_equal. compare_all.
Qed.

Lemma logic_case w env : width w -> compute_all_logic w env = logic_flags w (cc_dst env mod 2 ^ w).
Proof.
  intros Hw. destruct (width_bounds w Hw) as [_ Hp]. unfold compute_all_logic.
  assert (E : cc_dst env mod 2 ^ w = (cc_dst env mod 2 ^ w) mod 2 ^ w) by (by rewrite Z.mod_mod by lia).
  rewrite (flag_p_ok w Hw _ _ E), (flag_z_ok w _ _ E), (flag_s_ok w Hw _ _ E), <- E.
  exact (join_ok false _ false _ _ false).
Qed.

(** [cc_src] holds the carry for [inc] and [dec]. *)
Definition cc_ok (env : CC) : Prop :=
  match cc_op env with
  | 26 | 27 | 28 | 30 | 31 | 32 => cc_src env = 0 \/ cc_src env = 1
  | _ => True
  end.

Lemma land_one x : Z.land x 1 = b2z (Z.testbit x 0).
Proof. change 1 with (BIT 0) at 1. rewrite land_bit by lia. cbn. lia. Qed.

(** The shape all the computations share: [c] is the carry of the flags [v],
    and zero and sign flag come from the result. *)
Definition regular (w : Z) (env : CC) (c v : Z) : Prop :=
  exists (b : bool) a o,
    c = b2z b /\
    v = join (b2z b) (flag_p (cc_dst env)) (Z.land a CC_A) (flag_z w (cc_dst env)) (flag_s w (cc_dst env))
          (Z.land o CC_O).

Lemma regular_bits w env c v : regular w env c v ->
  exists b, c = b2z b /\ Z.testbit v 0 = b /\ Z.testbit v 6 = (DATA_TYPE w (cc_dst env) =? 0) /\
    Z.testbit v 7 = Z.testbit (flag_s w (cc_dst env)) 7.
Proof.
  intros (b & a & o & -> & ->). exists b. split; [done|]. unfold join, flag_p, flag_z, flag_s.
  rewrite !Z.lor_spec, !Z.land_spec.
  change (Z.testbit CC_P 0) with false. change (Z.testbit CC_P 6) with false. change (Z.testbit CC_P 7) with false.
  change (Z.testbit CC_A 0) with false. change (Z.testbit CC_A 6) with false. change (Z.testbit CC_A 7) with false.
  change (Z.testbit CC_O 0) with false. change (Z.testbit CC_O 6) with false. change (Z.testbit CC_O 7) with false.
  change (Z.testbit 0x80 0) with false. change (Z.testbit 0x80 6) with false.
  rewrite !andb_false_r, !orb_false_r. destruct b, (DATA_TYPE w (cc_dst env) =? 0); done.
Qed.

Section Regular.
Context (w : Z) (env : CC).

Lemma no_flag m : 0 = Z.land 0 m.
Proof. by rewrite Z.land_0_l. Qed.
Lemma bit11 (b : bool) : Z.shiftl (b2z b) 11 = Z.land (Z.shiftl (b2z b) 11) CC_O.
Proof. by destruct b. Qed.

Lemma add_regular : regular w env (compute_c_add w env) (compute_all_add w env).
Proof. by repeat eexists. Qed.
Lemma adc_regular : regular w env (compute_c_adc w env) (compute_all_adc w env).
Proof. by repeat eexists. Qed.
Lemma sub_regular : regular w env (compute_c_sub w env) (compute_all_sub w env).
Proof. by repeat eexists. Qed.
Lemma sbb_regular : regular w env (compute_c_sbb w env) (compute_all_sbb w env).
Proof. by repeat eexists. Qed.
Lemma logic_regular : regular w env (compute_c_logic env) (compute_all_logic w env).
Proof. by exists false, 0, 0. Qed.
Lemma mul_regular : regular w env (compute_c_mull env) (compute_all_mul w env).
Proof. exists (nz (cc_src env)), 0, (Z.shiftl (b2z (nz (cc_src env))) 11). by rewrite <- bit11. Qed.
Lemma shl_regular : regular w env (compute_c_shl w env) (compute_all_shl w env).
Proof.
  unfold compute_c_shl, compute_all_shl. change CC_C with 1. rewrite land_one.
  exists (Z.testbit (Z.shiftr (cc_src env) (w - 1)) 0), 0. by eexists.
Qed.
Lemma sar_regular : regular w env (compute_c_sarl env) (compute_all_sar w env).
Proof.
  unfold compute_c_sarl, compute_all_sar. rewrite land_one. exists (Z.testbit (cc_src env) 0), 0. by eexists.
Qed.
Lemma inc_regular : cc_src env = 0 \/ cc_src env = 1 -> regular w env (compute_c_incl env) (compute_all_inc w env).
Proof.
  unfold compute_c_incl, compute_all_inc. rewrite bit11.
  intros [->| ->]; [exists false | exists true]; by repeat eexists.
Qed.
Lemma dec_regular : cc_src env = 0 \/ cc_src env = 1 -> regular w env (compute_c_incl env) (compute_all_dec w env).
Proof.
  unfold compute_c_incl, compute_all_dec. rewrite bit11.
  intros [->| ->]; [exists false | exists true]; by repeat eexists.
Qed.

End Regular.

(** [c] is the carry of the flags [all]. *)
Definition carry_of (c all : Z) : Prop := exists b, c = b2z b /\ Z.testbit all 0 = b.

Lemma regular_carry w env c v : regular w env c v -> carry_of c v.
Proof. intros H. destruct (regular_bits w env c v H) as (b & E & B & _). by exists b. Qed.

Lemma eflags_carry env : carry_of (compute_c_eflags env) (compute_all_eflags env).
Proof. eexists. split; [apply land_one | done]. Qed.

Lemma no_carry : carry_of 0 0.
Proof. by exists false. Qed.

Lemma carry_case env : cc_ok env -> carry_of (carry env) (flags env).
Proof.
  unfold cc_ok, carry, flags, helper_cc_compute_c, helper_cc_compute_all.
  repeat case_match; intros K;
    eauto using regular_carry, add_regular, adc_regular, sub_regular, sbb_regular, logic_regular, mul_regular,
      shl_regular, sar_regular, inc_regular, dec_regular, eflags_carry, no_carry.
Qed.

Lemma carry_range env : cc_ok env -> 0 <= carry env <= 1.
Proof. intros H. destruct (carry_case env H) as (b & -> & _). destruct b; cbn; lia. Qed.

(** What each instruction does at width [w]: the result and the flags. *)
Definition alu_spec (w : Z) (op : AluOp) (x y c : Z) : Z * Z :=
  match op with
  | OP_ADDL => ((x + y) mod 2 ^ w, add_flags w x y 0)
  | OP_ADCL => ((x + y + c) mod 2 ^ w, add_flags w x y c)
  | OP_SUBL => ((x - y) mod 2 ^ w, sub_flags w x y 0)
  | OP_SBBL => ((x - y - c) mod 2 ^ w, sub_flags w x y c)
  | OP_CMPL => (x, sub_flags w x y 0)
  | OP_ANDL => (Z.land x y, logic_flags w (Z.land x y))
  | OP_ORL => (Z.lor x y, logic_flags w (Z.lor x y))
  | OP_XORL => (Z.lxor x y, logic_flags w (Z.lxor x y))
  end.

Lemma size_cases (P : Z -> Prop) ot : 0 <= ot <= 2 -> P 0 -> P 1 -> P 2 -> P ot.
Proof. intros H. assert (ot = 0 \/ ot = 1 \/ ot = 2) as [->|[->| ->]] by lia; done. Qed.

(** A bitwise operation commutes with the truncation to [w] bits. *)
Lemma bitwise_low (f : Z -> Z -> Z) (g : bool -> bool -> bool) w x y :
  0 <= w -> (forall a b k, 0 <= k -> Z.testbit (f a b) k = g (Z.testbit a k) (Z.testbit b k)) ->
  g false false = false -> f x y mod 2 ^ w = f (x mod 2 ^ w) (y mod 2 ^ w).
Proof.
  intros Hw Hf Hg. apply Z.bits_inj'. intros k Hk. rewrite Hf, !testbit_mod_pow2, Hf by done.
  by destruct (k <? w).
Qed.

Lemma land_low_w w x y : 0 <= w -> Z.land x y mod 2 ^ w = Z.land (x mod 2 ^ w) (y mod 2 ^ w).
Proof. intros. apply (bitwise_low _ andb); [done | intros; apply Z.land_spec | done]. Qed.
Lemma lor_low w x y : 0 <= w -> Z.lor x y mod 2 ^ w = Z.lor (x mod 2 ^ w) (y mod 2 ^ w).
Proof. intros. apply (bitwise_low _ orb); [done | intros; apply Z.lor_spec | done]. Qed.
Lemma lxor_low w x y : 0 <= w -> Z.lxor x y mod 2 ^ w = Z.lxor (x mod 2 ^ w) (y mod 2 ^ w).
Proof. intros. apply (bitwise_low _ xorb); [done | intros; apply Z.lxor_spec | done]. Qed.

Lemma sum_low w a b c : width w -> u32 (a + b + c) mod 2 ^ w = (a mod 2 ^ w + b mod 2 ^ w + c) mod 2 ^ w.
Proof.
  intros Hw. destruct (width_bounds w Hw). rewrite (mod_width w _ _ Hw (u32_mod _)).
  rewrite <- (Z.add_mod_idemp_l (a + b)), (Z.add_mod a b), (Z.add_mod_idemp_l (_ + _)) by lia. done.
Qed.
Lemma difference_low w a b c : width w -> u32 (a - b - c) mod 2 ^ w = (a mod 2 ^ w - b mod 2 ^ w - c) mod 2 ^ w.
Proof.
  intros Hw. destruct (width_bounds w Hw). rewrite (mod_width w _ _ Hw (u32_mod _)).
  rewrite <- (Zminus_mod_idemp_l (a - b)), (Zminus_mod a b), (Zminus_mod_idemp_l (_ - _)). done.
Qed.

(** Adding the carry to the truncated sum. *)
Lemma u32_plus a b : u32 (u32 a + b) = u32 (a + b).
Proof. unfold u32. apply Z.add_mod_idemp_l. lia. Qed.
Lemma u32_minus a b : u32 (u32 a - b) = u32 (a - b).
Proof. unfold u32. apply Zminus_mod_idemp_l. Qed.

(** The operation recorded by [adc] and [sbb] depends on the carry. *)
Lemma adc_flags ot s d c : 0 <= ot <= 2 -> c = 0 \/ c = 1 ->
  flags (mkCC (u32 (Z.shiftl c 2) + (CC_OP_ADDB + ot)) s d) =
    if c =? 0 then compute_all_add (size ot) (mkCC (CC_OP_ADDB + ot) s d)
    else compute_all_adc (size ot) (mkCC (CC_OP_ADCB + ot) s d).
Proof. intros Hot [->| ->]; by pattern ot; apply size_cases. Qed.
Lemma sbb_flags ot s d c : 0 <= ot <= 2 -> c = 0 \/ c = 1 ->
  flags (mkCC (u32 (Z.shiftl c 2) + (CC_OP_SUBB + ot)) s d) =
    if c =? 0 then compute_all_sub (size ot) (mkCC (CC_OP_SUBB + ot) s d)
    else compute_all_sbb (size ot) (mkCC (CC_OP_SBBB + ot) s d).
Proof. intros Hot [->| ->]; by pattern ot; apply size_cases. Qed.
Lemma logic_op_flags ot s d : 0 <= ot <= 2 ->
  flags (mkCC (CC_OP_LOGICB + ot) s d) = compute_all_logic (size ot) (mkCC (CC_OP_LOGICB + ot) s d).
Proof. intros Hot. by pattern ot; apply size_cases. Qed.

Lemma add_op_flags ot s d a : 0 <= ot <= 2 -> d mod 2 ^ 32 = (a + s) mod 2 ^ 32 ->
  flags (mkCC (CC_OP_ADDB + ot) s d) = add_flags (size ot) (a mod 2 ^ size ot) (s mod 2 ^ size ot) 0.
Proof.
  intros Hot E. etransitivity; [exact (adc_flags ot s d 0 Hot (or_introl eq_refl))|].
  exact (add_case (size ot) (mkCC (CC_OP_ADDB + ot) s d) a (size_width ot Hot) E).
Qed.
Lemma sub_op_flags ot s d a : 0 <= ot <= 2 -> d mod 2 ^ 32 = (a - s) mod 2 ^ 32 ->
  flags (mkCC (CC_OP_SUBB + ot) s d) = sub_flags (size ot) (a mod 2 ^ size ot) (s mod 2 ^ size ot) 0.
Proof.
  intros Hot E. etransitivity; [exact (sbb_flags ot s d 0 Hot (or_introl eq_refl))|].
  exact (sub_case (size ot) (mkCC (CC_OP_SUBB + ot) s d) a (size_width ot Hot) E).
Qed.

Lemma alu_flags junk env op ot T0 T1 :
  0 <= ot <= 2 -> cc_ok env ->
  let w := size ot in
  let '(T0', env') := gen_op junk env op ot T0 T1 in
  (T0' mod 2 ^ w, flags env') = alu_spec w op (T0 mod 2 ^ w) (T1 mod 2 ^ w) (carry env).
Proof.
  intros Hot Hok w. pose proof (size_width ot Hot) as Hw. fold w in Hw.
  destruct (width_bounds w Hw) as [Hb Hp].
  assert (Hc : carry env = 0 \/ carry env = 1) by (pose proof (carry_range env Hok); lia).
  destruct op; cbn [gen_op alu_spec]; f_equal; fold (carry env).
  - rewrite <- (Z.add_0_r (T0 + T1)), sum_low by done. by rewrite !Z.add_0_r.
  - apply add_op_flags; [done | apply u32_mod].
  - apply lor_low. lia.
  - rewrite logic_op_flags, logic_case by done. cbn [cc_dst]. by rewrite lor_low by lia.
  - rewrite u32_plus. by apply sum_low.
  - rewrite u32_plus, adc_flags by done. destruct Hc as [-> | ->]; cbn [Z.eqb].
    + apply (add_case w (mkCC _ T1 _) T0 Hw). cbn [cc_dst cc_src]. rewrite u32_mod. f_equal. lia.
    + apply (adc_case w (mkCC _ T1 _) T0 Hw). apply u32_mod.
  - rewrite u32_minus. by apply difference_low.
  - rewrite u32_minus, sbb_flags by done. destruct Hc as [-> | ->]; cbn [Z.eqb].
    + apply (sub_case w (mkCC _ T1 _) T0 Hw). cbn [cc_dst cc_src]. rewrite u32_mod. f_equal. lia.
    + apply (sbb_case w (mkCC _ T1 _) T0 Hw). apply u32_mod.
  - apply land_low_w. lia.
  - rewrite logic_op_flags, logic_case by done. cbn [cc_dst]. by rewrite land_low_w by lia.
  - rewrite <- (Z.sub_0_r (T0 - T1)), difference_low by done. by rewrite !Z.sub_0_r.
  - apply sub_op_flags; [done | apply u32_mod].
  - apply lxor_low. lia.
  - rewrite logic_op_flags, logic_case by done. cbn [cc_dst]. by rewrite lxor_low by lia.
  - apply sub_op_flags; [done | apply u32_mod].
Qed.

(** C29: the flags of the arithmetic instructions are those of the architecture.
    For each of the eight operations, every operand size, operands with
    anything above their size, and any preceding flags: the code emitted by
    [gen_op] computes the result, and [helper_cc_compute_all] on what it
    records gives exactly the carry, parity, adjust, zero, sign and overflow
    flags of the operation on the operands at their size (with the preceding
    carry for [adc] and [sbb]). *)
Theorem alu_flags_correct junk env op ot T0 T1 :
  0 <= ot <= 2 -> cc_ok env ->
  let w := size ot in
  let '(T0', env') := gen_op junk env op ot T0 T1 in
  (T0' mod 2 ^ w, flags env') = alu_spec w op (T0 mod 2 ^ w) (T1 mod 2 ^ w) (carry env).
Proof. apply alu_flags. Qed.

(** ** Conditional jumps *)

(** The condition of the architecture on the flags [f]. *)
Definition holds (jcc : Jcc) (f : Z) : bool :=
  match jcc with
  | JCC_O => Z.testbit f 11
  | JCC_B => Z.testbit f 0
  | JCC_Z => Z.testbit f 6
  | JCC_BE => Z.testbit f 0 || Z.testbit f 6
  | JCC_S => Z.testbit f 7
  | JCC_P => Z.testbit f 2
  | JCC_L => xorb (Z.testbit f 11) (Z.testbit f 7)
  | JCC_LE => xorb (Z.testbit f 11) (Z.testbit f 7) || Z.testbit f 6
  end.

Lemma shifted_bit x k : 0 <= k -> Z.testbit (Z.shiftr x k) 0 = Z.testbit x k.
Proof. intros. by rewrite Z.shiftr_spec, Z.add_0_l by lia. Qed.

Lemma slow_ok env jcc : cc_ok env -> nz (gen_setcc_slow_T0 env jcc) = holds jcc (flags env).
Proof.
  intros H. unfold gen_setcc_slow_T0. fold (flags env) (carry env).
  destruct jcc; cbn [holds]; rewrite ?land_one, ?nz_b2z, ?Z.lor_spec, ?Z.lxor_spec, ?shifted_bit by lia; try done.
  - destruct (carry_case env H) as (b & -> & ->). apply nz_b2z.
  - apply orb_comm.
Qed.

Lemma eflags_bits c p a z s o :
  let f := eflags c p a z s o in
  Z.testbit f 0 = c /\ Z.testbit f 6 = z /\ Z.testbit f 7 = s /\ Z.testbit f 11 = o.
Proof. by destruct c, p, a, z, s, o. Qed.

(** The conditions after a comparison of [x] and [y] at width [w]. *)
Definition compares (w : Z) (jcc : Jcc) (x y : Z) : bool :=
  match jcc with
  | JCC_B => x <? y
  | JCC_BE => x <=? y
  | JCC_Z => x =? y
  | JCC_L => sgn w x <? sgn w y
  | JCC_LE => sgn w x <=? sgn w y
  | _ => holds jcc (sub_flags w x y 0)
  end.

Lemma sub_compares w x y jcc :
  width w -> 0 <= x < 2 ^ w -> 0 <= y < 2 ^ w -> holds jcc (sub_flags w x y 0) = compares w jcc x y.
Proof.
  intros Hw Hx Hy. destruct (width_bounds w Hw) as [Hb Hp].
  assert (E : 2 ^ w = 2 * 2 ^ (w - 1)) by (rewrite <- Z.pow_succ_r by lia; f_equal; lia).
  destruct (eflags_bits (x <? y + 0) (parity (x - y - 0)) (x mod 16 <? y mod 16 + 0)
    ((x - y - 0) mod 2 ^ w =? 0) (2 ^ (w - 1) <=? (x - y - 0) mod 2 ^ w)
    (negb (signed_fits w (sgn w x - sgn w y - 0)))) as (B0 & B6 & B7 & B11).
  fold (sub_flags w x y 0) in B0, B6, B7, B11.
  assert (R : (0 <= x - y - 0 /\ (x - y - 0) mod 2 ^ w = x - y) \/
              (x - y - 0 < 0 /\ (x - y - 0) mod 2 ^ w = x - y + 2 ^ w)).
  { destruct (Z.lt_ge_cases (x - y - 0) 0); [right | left; split; [lia | rewrite Z.mod_small; lia]].
    split; [done|]. symmetry. apply (Z.mod_unique _ _ (-1)); lia. }
  assert (Ez : ((x - y - 0) mod 2 ^ w =? 0) = (x =? y)).
  { destruct R as [[? ->]|[? ->]]; destruct (Z.eqb_spec x y);
      [apply Z.eqb_eq | apply Z.eqb_neq | lia | apply Z.eqb_neq]; lia. }
  assert (Ec : (x <? y + 0) = (x <? y)) by (by rewrite Z.add_0_r).
  assert (El : xorb (negb (signed_fits w (sgn w x - sgn w y - 0))) (2 ^ (w - 1) <=? (x - y - 0) mod 2 ^ w)
    = (sgn w x <? sgn w y)).
  { unfold signed_fits, sgn. set (M := 2 ^ (w - 1)) in *.
    destruct R as [[? ->]|[? ->]], (Z.ltb_spec x M), (Z.ltb_spec y M); compare_all. }
  destruct jcc; cbn [holds compares]; rewrite ?B0, ?B6, ?B7, ?B11, ?Ez, ?Ec, ?El; try done.
  - destruct (Z.eqb_spec x y); compare_all.
  - assert (Es : (x =? y) = (sgn w x =? sgn w y)).
    { assert (sgn w x = sgn w y <-> x = y)
        by (unfold sgn; destruct (Z.ltb_spec x (2 ^ (w - 1))), (Z.ltb_spec y (2 ^ (w - 1))); lia).
      destruct (Z.eqb_spec x y), (Z.eqb_spec (sgn w x) (sgn w y)); tauto. }
    rewrite Es. destruct (Z.eqb_spec (sgn w x) (sgn w y)); compare_all.
Qed.

(** An operation on one of the three sizes. *)
Definition sized (op : Z) : Prop := 2 <= op < 42 /\ op mod 4 <> 1.

Lemma flags_regular env : cc_ok env -> sized (cc_op env) ->
  regular (size ((cc_op env - 2) mod 4)) env (carry env) (flags env).
Proof.
  unfold cc_ok, carry, flags, helper_cc_compute_c, helper_cc_compute_all, sized. intros K [H1 H2].
  assert (E : In (cc_op env) (seqZ 2 40)) by (apply list_elem_of_In, elem_of_seqZ; lia).
  generalize dependent (cc_op env). intros op K H1 H2 E. vm_compute in E. repeat (destruct E as [E|E]; [rewrite <- E in *|]); try done;
    try (exfalso; by apply H2);
    auto using add_regular, adc_regular, sub_regular, sbb_regular, logic_regular, mul_regular,
      shl_regular, sar_regular, inc_regular, dec_regular.
Qed.

Lemma operand_size op : sized op -> 0 <= (op - 2) mod 4 <= 2.
Proof.
  intros [H1 H2]. pose proof (Z.div_mod (op - 2) 4). pose proof (Z.mod_pos_bound (op - 2) 4).
  pose proof (Z.div_mod op 4). pose proof (Z.mod_pos_bound op 4). lia.
Qed.

(** The zero and sign flags, and the short cuts for them. *)
Lemma zero_sign env : cc_ok env -> sized (cc_op env) ->
  let w := size ((cc_op env - 2) mod 4) in
  holds JCC_Z (flags env) = (cc_dst env mod 2 ^ w =? 0) /\
  holds JCC_S (flags env) = (2 ^ (w - 1) <=? cc_dst env mod 2 ^ w).
Proof.
  intros H Hs w. pose proof (size_width _ (operand_size _ Hs)) as Hw. fold w in Hw.
  destruct (regular_bits _ _ _ _ (flags_regular env H Hs)) as (b & _ & _ & B6 & B7). fold w in B6, B7.
  cbn [holds]. split; [exact B6|]. rewrite B7, (flag_s_ok w Hw (cc_dst env) (cc_dst env) eq_refl).
  by destruct (_ <=? _).
Qed.

Lemma fast_z_ok env ot : 0 <= ot <= 2 -> range 32 (cc_dst env) ->
  fast_jcc_z env ot = (cc_dst env mod 2 ^ size ot =? 0).
Proof.
  intros Hot Hd. unfold fast_jcc_z. pattern ot. apply size_cases; [done|..].
  - by rewrite (low_mask _ 8).
  - by rewrite (low_mask _ 16).
  - change (2 ^ size 2) with (2 ^ 32). by rewrite Z.mod_small.
Qed.

Lemma fast_s_ok env ot : 0 <= ot <= 2 -> range 32 (cc_dst env) ->
  fast_jcc_s env ot = (2 ^ (size ot - 1) <=? cc_dst env mod 2 ^ size ot).
Proof.
  intros Hot Hd. rewrite <- msb by (pattern ot; apply size_cases; done). unfold fast_jcc_s.
  pattern ot. apply size_cases; [done|..].
  - apply (land_BIT_nz _ 7). lia.
  - apply (land_BIT_nz _ 15). lia.
  - change (size 2) with 32. rewrite msb, Z.mod_small by (done || lia). unfold s32, range in *.
    destruct (Z.lt_ge_cases (cc_dst env) (2 ^ 31)).
    + rewrite Z.mod_small by lia. compare_all.
    + rewrite <- (Z.mod_unique (cc_dst env + 2 ^ 31) (2 ^ 32) 1 (cc_dst env - 2 ^ 31)) by lia. compare_all.
Qed.

Lemma sgn_mod w x : 0 < w -> (x + 2 ^ (w - 1)) mod 2 ^ w - 2 ^ (w - 1) = sgn w (x mod 2 ^ w).
Proof.
  intros Hw. assert (E : 2 ^ w = 2 * 2 ^ (w - 1)) by (rewrite <- Z.pow_succ_r by lia; f_equal; lia).
  rewrite <- Z.add_mod_idemp_l by lia. pose proof (Z.mod_pos_bound x (2 ^ w) ltac:(lia)) as B.
  set (m := x mod 2 ^ w) in *. unfold sgn. destruct (Z.ltb_spec m (2 ^ (w - 1))).
  - rewrite Z.mod_small by lia. lia.
  - rewrite <- (Z.mod_unique (m + 2 ^ (w - 1)) (2 ^ w) 1 (m - 2 ^ (w - 1))) by lia. lia.
Qed.

(** The short cuts that compare the operands. *)
Lemma fast_b_ok cond env ot : 0 <= ot <= 2 -> range 32 (cc_src env) ->
  fast_jcc_b cond env ot =
    cond ((cc_dst env + cc_src env) mod 2 ^ size ot) (cc_src env mod 2 ^ size ot).
Proof.
  intros Hot Hs. pose proof (mod_width (size ot) _ _ (size_width ot Hot) (u32_mod (cc_dst env + cc_src env))) as E.
  rewrite <- E. clear E. unfold fast_jcc_b. pattern ot. apply size_cases; [done|..].
  - by rewrite !(low_mask _ 8).
  - by rewrite !(low_mask _ 16).
  - change (2 ^ size 2) with (2 ^ 32). by rewrite u32_mod, (Z.mod_small (cc_src env)).
Qed.

Lemma fast_l_ok cond env ot : 0 <= ot <= 2 ->
  fast_jcc_l cond env ot =
    cond (sgn (size ot) ((cc_dst env + cc_src env) mod 2 ^ size ot)) (sgn (size ot) (cc_src env mod 2 ^ size ot)).
Proof.
  intros Hot. pose proof (mod_width (size ot) _ _ (size_width ot Hot) (u32_mod (cc_dst env + cc_src env))) as E.
  rewrite <- E. clear E. unfold fast_jcc_l. pattern ot. apply size_cases; [done|..].
  - exact (f_equal2 cond (sgn_mod 8 _ eq_refl) (sgn_mod 8 _ eq_refl)).
  - exact (f_equal2 cond (sgn_mod 16 _ eq_refl) (sgn_mod 16 _ eq_refl)).
  - exact (f_equal2 cond (sgn_mod 32 _ eq_refl) (sgn_mod 32 _ eq_refl)).
Qed.

Lemma fast_ok env jcc taken :
  cc_ok env -> sized (cc_op env) -> range 32 (cc_src env) -> range 32 (cc_dst env) ->
  fast_jcc env (cc_op env) jcc = Some taken -> taken = holds jcc (flags env).
Proof.
  intros H Hs Hsrc Hdst. destruct (zero_sign env H Hs) as [Ez Es].
  pose proof (operand_size _ Hs) as Ho. unfold fast_jcc, CC_OP_SUBB, CC_OP_SBBB, CC_OP_ADDB, CC_OP_SARB.
  destruct (Z.leb_spec 14 (cc_op env)), (Z.ltb_spec (cc_op env) 18); cbn [andb].
  2-4: destruct (_ && _); [|done];
    assert (E3 : Z.land (cc_op env - 6) 3 = (cc_op env - 2) mod 4)
      by (rewrite (low_mask _ 2) by lia; change (2 ^ 2) with 4;
          replace (cc_op env - 2) with (cc_op env - 6 + 1 * 4) by lia; by rewrite Z.mod_add by lia);
    rewrite E3; destruct jcc; intros [= <-]; [rewrite Ez; by apply fast_z_ok | rewrite Es; by apply fast_s_ok].
  assert (Et : (cc_op env - 2) mod 4 = cc_op env - 14) by (symmetry; apply (Z.mod_unique _ 4 3); lia).
  rewrite Et in *. set (ot := cc_op env - 14) in *.
  assert (Ef : flags env = sub_flags (size ot) ((cc_dst env + cc_src env) mod 2 ^ size ot)
    (cc_src env mod 2 ^ size ot) 0).
  { replace env with (mkCC (CC_OP_SUBB + ot) (cc_src env) (cc_dst env)) at 1
      by (destruct env as [op s d]; unfold ot, CC_OP_SUBB; cbn; f_equal; lia).
    apply sub_op_flags; [done|]. f_equal. lia. }
  pose proof (size_width ot Ho) as Hw. destruct (width_bounds _ Hw) as [_ Hp].
  pose proof (fun jcc => sub_compares (size ot) _ _ jcc Hw
    (Z.mod_pos_bound (cc_dst env + cc_src env) _ Hp) (Z.mod_pos_bound (cc_src env) _ Hp)) as Ec.
  destruct jcc; intros [= <-].
  - rewrite Ef, Ec. by apply fast_b_ok.
  - rewrite Ez. by apply fast_z_ok.
  - rewrite Ef, Ec. by apply fast_b_ok.
  - rewrite Es. by apply fast_s_ok.
  - rewrite Ef, Ec. by apply fast_l_ok.
  - rewrite Ef, Ec. by apply fast_l_ok.
Qed.

(** What [cc_op] holds between instructions. *)
Definition recorded (op : Z) : Prop := op = CC_OP_EFLAGS \/ sized op.

Lemma jcc_on_flags static env b :
  cc_ok env -> recorded (cc_op env) -> range 32 (cc_src env) -> range 32 (cc_dst env) ->
  static = 0 \/ static = cc_op env ->
  gen_jcc1 static env b = xorb (Z.testbit b 0) (holds (jcc_op b) (flags env)).
Proof.
  intros H Hs Hsrc Hdst Hst. unfold gen_jcc1. rewrite land_one, nz_b2z.
  destruct (fast_jcc env static (jcc_op b)) as [taken|] eqn:E.
  - destruct Hst as [->| ->]; [by destruct (jcc_op b)|].
    destruct Hs as [Hs|Hs]; [rewrite Hs in E; by destruct (jcc_op b)|]. by rewrite (fast_ok env (jcc_op b) taken).
  - assert (Ee : (if nz static then env <| cc_op := static |> else env) = env)
      by (destruct env, Hst as [->| ->]; [done | by destruct (nz _)]).
    rewrite Ee. by rewrite slow_ok.
Qed.

(** C30: conditional jumps decide on the flags.  Whatever operation recorded the
    flags, and whether or not the translator knows which, the code emitted by
    [gen_jcc1] (with its short cuts that look at the operands instead of the
    flags) jumps exactly when the condition of the opcode holds of the flags
    that [helper_cc_compute_all] would compute, or does not hold for the odd
    opcodes. *)
Theorem jcc_decides_on_flags static env b :
  cc_ok env -> recorded (cc_op env) -> range 32 (cc_src env) -> range 32 (cc_dst env) ->
  static = 0 \/ static = cc_op env ->
  gen_jcc1 static env b = xorb (Z.testbit b 0) (holds (jcc_op b) (flags env)).
Proof. apply jcc_on_flags. Qed.

(** Comparing and jumping is comparing.  After [cmp] of two operands, of any
    size and with anything above it, the jumps decide the unsigned and signed
    order and the equality of the operands at their size. *)
Theorem cmp_jcc_compares junk env ot T0 T1 b :
  0 <= ot <= 2 -> range 32 T0 -> range 32 T1 ->
  let env' := (gen_op junk env OP_CMPL ot T0 T1).2 in
  gen_jcc1 (cc_op env') env' b =
    xorb (Z.testbit b 0) (compares (size ot) (jcc_op b) (T0 mod 2 ^ size ot) (T1 mod 2 ^ size ot)).
Proof.
  intros Hot H0 H1 env'. unfold env'. cbn [gen_op snd cc_op].
  assert (Hsz : sized (CC_OP_SUBB + ot)) by (pattern ot; apply size_cases; [done | by split..]).
  rewrite jcc_on_flags; [| | by right | done | apply u32_range | by right].
  - destruct (width_bounds _ (size_width ot Hot)) as [_ Hp].
    rewrite (sub_op_flags ot T1 _ T0 Hot (u32_mod _)).
    by rewrite sub_compares by (apply size_width, Hot || by apply Z.mod_pos_bound).
  - unfold cc_ok. cbn [cc_op]. pattern ot. by apply size_cases.
Qed.

(** ** Increment and decrement *)

(** The flags [f] with the carry [c]. *)
Definition keep_carry (c f : Z) : Z := Z.lor (Z.land f (Z.lnot CC_C)) c.

Lemma keep_carry_eflags b c p a z s o : keep_carry (b2z b) (eflags c p a z s o) = eflags b p a z s o.
Proof. by destruct b, c, p, a, z, s, o. Qed.

Lemma inc_overflow w x : width w -> 0 <= x < 2 ^ w ->
  ((x + 1) mod 2 ^ w =? 2 ^ (w - 1)) = negb (signed_fits w (sgn w x + sgn w 1 + 0)) /\
  ((x - 1) mod 2 ^ w =? 2 ^ (w - 1) - 1) = negb (signed_fits w (sgn w x - sgn w 1 - 0)).
Proof.
  intros Hw Hx. destruct (width_bounds w Hw) as [Hb Hp].
  assert (E : 2 ^ w = 2 * 2 ^ (w - 1)) by (rewrite <- Z.pow_succ_r by lia; f_equal; lia).
  assert (E1 : sgn w 1 = 1) by by destruct Hw as [->|[->| ->]].
  rewrite E1. unfold signed_fits, sgn. set (M := 2 ^ (w - 1)) in *.
  assert (1 < M) by (unfold M; destruct Hw as [->|[->| ->]]; lia).
  split.
  - assert (R : (x + 1) mod 2 ^ w = x + 1 \/ (x + 1 = 2 ^ w /\ (x + 1) mod 2 ^ w = 0)).
    { destruct (Z.eq_dec (x + 1) (2 ^ w)) as [Ex|]; [right | left; apply Z.mod_small; lia].
      by rewrite Ex, Z.mod_same by lia. }
    destruct R as [->|[? ->]], (Z.ltb_spec x M);
      match goal with |- context [?a =? ?b] => destruct (Z.eqb_spec a b) end; compare_all.
  - assert (R : (x - 1) mod 2 ^ w = x - 1 \/ (x = 0 /\ (x - 1) mod 2 ^ w = 2 ^ w - 1)).
    { destruct (Z.eq_dec x 0) as [->|]; [right | left; apply Z.mod_small; lia].
      split; [done|]. symmetry. apply (Z.mod_unique _ _ (-1)); lia. }
    destruct R as [->|[? ->]], (Z.ltb_spec x M);
      match goal with |- context [?a =? ?b] => destruct (Z.eqb_spec a b) end; compare_all.
Qed.

Lemma masked_dst w x : 0 <= w -> Z.land x (DATA_MASK w) = x mod 2 ^ w.
Proof. apply low_mask. Qed.

Lemma mod_one w : width w -> 1 mod 2 ^ w = 1.
Proof. intros Hw. by destruct Hw as [->|[->| ->]]. Qed.

Lemma sign_mask w : width w -> SIGN_MASK w = 2 ^ (w - 1).
Proof. intros Hw. unfold SIGN_MASK, BIT. by destruct Hw as [->|[->| ->]]. Qed.

Lemma overflow_bit (b : bool) : Z.shiftl (b2z b) 11 = 2048 * b2z b.
Proof. by destruct b. Qed.

Section IncDec.
Context (w : Z) (Hw : width w) (env : CC) (a : Z) (b : bool) (Hc : cc_src env = b2z b).

Lemma inc_case : cc_dst env mod 2 ^ 32 = (a + 1) mod 2 ^ 32 ->
  compute_all_inc w env = keep_carry (b2z b) (add_flags w (a mod 2 ^ w) 1 0).
Proof.
  intros Ed. destruct (width_bounds w Hw) as [Hb Hp].
  assert (Er : cc_dst env mod 2 ^ w = (a mod 2 ^ w + 1 + 0) mod 2 ^ w).
  { rewrite (mod_width w _ _ Hw Ed), <- Z.add_mod_idemp_l by lia. by rewrite Z.add_0_r. }
  unfold compute_all_inc. rewrite Hc, masked_dst, sign_mask, Er, overflow_bit by (done || lia).
  rewrite (flag_p_ok w Hw _ _ Er), (flag_z_ok w _ _ Er), (flag_s_ok w Hw _ _ Er), flag_a_ok, join_ok.
  unfold add_flags. rewrite keep_carry_eflags. f_equal.
  - assert (E1 : s32 (cc_dst env - 1) mod 2 ^ 32 = a mod 2 ^ 32).
    { rewrite s32_mod, Zminus_mod, Ed, <- Zminus_mod. f_equal. lia. }
    rewrite (congr_testbit (cc_dst env) (a + 1 + 0) 4 32), (congr_testbit (s32 _) a 4 32)
      by (done || lia || rewrite Z.add_0_r; done).
    rewrite sum_bit, low_nibble by (done || lia). change (2 ^ 4) with 16.
    by destruct (Z.testbit a 4), (16 <=? _).
  - rewrite Z.add_0_r. by apply (inc_overflow w); [|apply Z.mod_pos_bound].
Qed.

Lemma dec_case : cc_dst env mod 2 ^ 32 = (a - 1) mod 2 ^ 32 ->
  compute_all_dec w env = keep_carry (b2z b) (sub_flags w (a mod 2 ^ w) 1 0).
Proof.
  intros Ed. destruct (width_bounds w Hw) as [Hb Hp].
  assert (Er : cc_dst env mod 2 ^ w = (a mod 2 ^ w - 1 - 0) mod 2 ^ w).
  { rewrite (mod_width w _ _ Hw Ed), <- Zminus_mod_idemp_l. by rewrite Z.sub_0_r. }
  unfold compute_all_dec. rewrite Hc, masked_dst, sign_mask, Er, overflow_bit by (done || lia).
  rewrite (flag_p_ok w Hw _ _ Er), (flag_z_ok w _ _ Er), (flag_s_ok w Hw _ _ Er), flag_a_ok, join_ok.
  assert (E1 : s32 (cc_dst env + 1) mod 2 ^ 32 = a mod 2 ^ 32).
  { rewrite s32_mod, Z.add_mod, Ed, <- Z.add_mod by lia. f_equal. lia. }
  pose proof (difference_flags w Hw a 1 0 ltac:(lia) (s32 (cc_dst env + 1)) 1 (cc_dst env) E1 eq_refl
    ltac:(by rewrite Z.sub_0_r)) as D.
  rewrite (flag_p_ok w Hw _ _ Er), (flag_z_ok w _ _ Er), (flag_s_ok w Hw _ _ Er), flag_a_ok, flag_o_ok,
    join_ok in D by done.
  rewrite (mod_one w Hw) in D. rewrite <- D, keep_carry_eflags. f_equal.
  rewrite Z.sub_0_r. rewrite (proj2 (inc_overflow w (a mod 2 ^ w) Hw (Z.mod_pos_bound _ _ Hp))).
  rewrite Z.land_spec, !Z.lxor_spec, !msb, Er, (mod_width w _ a Hw E1), (mod_one w Hw) by lia.
  symmetry. apply (signs_sub w (a mod 2 ^ w) 1 0); try lia; [by apply Z.mod_pos_bound|].
  by destruct Hw as [->|[->| ->]].
Qed.

End IncDec.

(** [inc] and [dec] keep the carry.  For every operand size and preceding
    flags, the code of [gen_inc] adds or subtracts one; the flags are those of
    the addition or subtraction, except for the carry, which is the one the
    preceding flags had. *)
Theorem inc_dec_flags env ot c T0 :
  0 <= ot <= 2 -> cc_ok env ->
  let w := size ot in
  let x := T0 mod 2 ^ w in
  let '(T0', env') := gen_inc env ot c T0 in
  (T0' mod 2 ^ w, flags env') =
    (if 0 <? c then ((x + 1) mod 2 ^ w, keep_carry (carry env) (add_flags w x 1 0))
     else ((x - 1) mod 2 ^ w, keep_carry (carry env) (sub_flags w x 1 0))) /\
  cc_ok env'.
Proof.
  intros Hot Hok w x. pose proof (size_width ot Hot) as Hw. fold w in Hw.
  destruct (width_bounds w Hw) as [Hb Hp]. destruct (carry_case env Hok) as (b & Eb & _).
  assert (Hb2 : b2z b = 0 \/ b2z b = 1) by (destruct b; [by right | by left]).
  unfold gen_inc. fold (carry env). rewrite Eb. destruct (0 <? c); (split; [f_equal|]).
  - rewrite <- (Z.add_0_r (T0 + 1)), sum_low, mod_one, Z.add_0_r by done. done.
  - etransitivity;
      [|exact (inc_case w Hw (mkCC (CC_OP_INCB + ot) (b2z b) (u32 (T0 + 1))) T0 b eq_refl (u32_mod _))].
    unfold w. pattern ot. by apply size_cases.
  - unfold cc_ok. cbn [cc_op cc_src]. pattern ot. by apply size_cases.
  - change (T0 + -1) with (T0 - 1).
    rewrite <- (Z.sub_0_r (T0 - 1)), difference_low, mod_one, Z.sub_0_r by done. done.
  - change (T0 + -1) with (T0 - 1).
    etransitivity;
      [|exact (dec_case w Hw (mkCC (CC_OP_DECB + ot) (b2z b) (u32 (T0 - 1))) T0 b eq_refl (u32_mod _))].
    unfold w. pattern ot. by apply size_cases.
  - unfold cc_ok. cbn [cc_op cc_src]. pattern ot. by apply size_cases.
Qed.

(** ** Shifts *)

(** [x] shifted by [n] at width [w]. *)
Definition shifted (w : Z) (is_right is_arith : bool) (x n : Z) : Z :=
  if is_right then if is_arith then Z.shiftr (sgn w x) n mod 2 ^ w else Z.shiftr x n
  else Z.shiftl x n mod 2 ^ w.

(** The flags of a shift by one from [prev] to [r]. *)
Definition shift_flags (w : Z) (is_right : bool) (prev r : Z) : Z :=
  eflags (if is_right then Z.odd prev else 2 ^ (w - 1) <=? prev) (parity r) false (r =? 0) (2 ^ (w - 1) <=? r)
    (xorb (2 ^ (w - 1) <=? prev) (2 ^ (w - 1) <=? r)).

Lemma shift_case w env (c : bool) : width w ->
  join (b2z c) (flag_p (cc_dst env)) 0 (flag_z w (cc_dst env)) (flag_s w (cc_dst env))
    (Z.land (lshift (s32 (Z.lxor (cc_src env) (cc_dst env))) (12 - w)) CC_O) =
  let r := cc_dst env mod 2 ^ w in
  eflags c (parity r) false (r =? 0) (2 ^ (w - 1) <=? r)
    (xorb (2 ^ (w - 1) <=? cc_src env mod 2 ^ w) (2 ^ (w - 1) <=? r)).
Proof.
  intros Hw. destruct (width_bounds w Hw) as [Hb Hp]. set (r := cc_dst env mod 2 ^ w).
  assert (E : cc_dst env mod 2 ^ w = r mod 2 ^ w) by (unfold r; by rewrite Z.mod_mod by lia).
  rewrite (flag_p_ok w Hw _ _ E), (flag_z_ok w _ _ E), (flag_s_ok w Hw _ _ E), flag_o_ok by done.
  rewrite Z.lxor_spec, !msb, <- !E by lia. exact (join_ok c _ false _ _ _).
Qed.

Lemma shl_case w env : width w ->
  compute_all_shl w env = shift_flags w false (cc_src env mod 2 ^ w) (cc_dst env mod 2 ^ w).
Proof.
  intros Hw. destruct (width_bounds w Hw). unfold compute_all_shl. change CC_C with 1.
  rewrite land_one, shifted_bit, shift_case by (done || lia). unfold shift_flags. by rewrite msb by lia.
Qed.

Lemma sar_case w env : width w ->
  compute_all_sar w env = shift_flags w true (cc_src env mod 2 ^ w) (cc_dst env mod 2 ^ w).
Proof.
  intros Hw. destruct (width_bounds w Hw). unfold compute_all_sar.
  rewrite land_one, shift_case by done. unfold shift_flags. f_equal.
  rewrite <- Z.bit0_odd. by rewrite Z.mod_pow2_bits_low by lia.
Qed.

Lemma shift_op_flags ot (is_right : bool) p d : 0 <= ot <= 2 ->
  flags (mkCC ((if is_right then CC_OP_SARB else CC_OP_SHLB) + ot) p d) =
    shift_flags (size ot) is_right (p mod 2 ^ size ot) (d mod 2 ^ size ot).
Proof.
  intros Hot. pose proof (size_width ot Hot) as Hw. destruct is_right.
  - etransitivity; [|exact (sar_case (size ot) (mkCC (CC_OP_SARB + ot) p d) Hw)]. pattern ot. by apply size_cases.
  - etransitivity; [|exact (shl_case (size ot) (mkCC (CC_OP_SHLB + ot) p d) Hw)]. pattern ot. by apply size_cases.
Qed.

Lemma exts_sgn ot x : 0 <= ot <= 2 -> gen_exts ot x = sgn (size ot) (x mod 2 ^ size ot).
Proof.
  intros Hot. pattern ot. apply size_cases; [done|..].
  - exact (sgn_mod 8 x eq_refl).
  - exact (sgn_mod 16 x eq_refl).
  - exact (sgn_mod 32 x eq_refl).
Qed.

(** The two shifts of the emitted code, by [count] and by [count - 1]. *)
Lemma emitted_shift ot x n (is_right is_arith : bool) : 0 <= ot <= 2 -> 0 <= n ->
  (if is_right then if is_arith then u32 (Z.shiftr (gen_exts ot x) n) else Z.shiftr (gen_extu ot x) n
   else u32 (Z.shiftl x n)) mod 2 ^ size ot = shifted (size ot) is_right is_arith (x mod 2 ^ size ot) n.
Proof.
  intros Hot Hn. pose proof (size_width ot Hot) as Hw. destruct (width_bounds _ Hw) as [Hb Hp].
  unfold shifted. destruct is_right; [destruct is_arith|].
  - by rewrite (mod_width _ _ _ Hw (u32_mod _)), exts_sgn.
  - change (gen_extu ot x) with (x mod 2 ^ size ot). rewrite Z.shiftr_div_pow2 by done.
    pose proof (Z.mod_pos_bound x _ Hp). pose proof (Z.pow_pos_nonneg 2 n ltac:(lia) Hn).
    apply Z.mod_small. split; [apply Z.div_pos; lia | apply Z.div_lt_upper_bound; nia].
  - rewrite (mod_width _ _ _ Hw (u32_mod _)), !Z.shiftl_mul_pow2 by done. by rewrite Z.mul_mod_idemp_l by lia.
Qed.

(** C31: shifts, and the flags of the last bit shifted.  For every operand size,
    direction and count, the code of [gen_shift_rm_T1] shifts the operand at
    its size by the low five bits of the count; a zero count leaves the flags
    as they were, any other gives the flags of the last of that many shifts by
    one bit: the carry is the bit that left, overflow a change of sign. *)
Theorem shift_flags_correct env ot T0 T1 is_right is_arith :
  0 <= ot <= 2 ->
  let w := size ot in
  let n := Z.land T1 0x1f in
  let sh := shifted w is_right is_arith (T0 mod 2 ^ w) in
  let '(T0', env') := gen_shift_rm_T1 env ot T0 T1 is_right is_arith in
  T0' mod 2 ^ w = sh n /\
  flags env' = (if n =? 0 then flags env else shift_flags w is_right (sh (n - 1)) (sh n)).
Proof.
  intros Hot w n sh. pose proof (size_width ot Hot) as Hw. fold w in Hw.
  assert (Hn : 0 <= n) by (apply Z.land_nonneg; by right).
  pose proof (emitted_shift ot T0 n is_right is_arith Hot Hn) as En. fold w sh in En.
  pose proof (fun H => emitted_shift ot T0 (n - 1) is_right is_arith Hot H) as Ep. fold w sh in Ep.
  unfold gen_shift_rm_T1. fold n. destruct is_right; [destruct is_arith|]; (split; [exact En|]);
    (destruct (Z.eqb_spec n 0); [done|]); rewrite <- En, <- Ep by lia;
    [by apply (shift_op_flags ot true) | by apply (shift_op_flags ot true) | by apply (shift_op_flags ot false)].
Qed.

(** ** Concrete cases *)

(** [add] of the bytes 0xff and 1: zero, with carry and adjust. *)
Lemma alu_flags_correct_witness :
  flags (gen_op 7 (mkCC CC_OP_EFLAGS 0 0) OP_ADDL 0 0x2ff 0x101).2 = CC_C + CC_P + CC_A + CC_Z.
Proof.
  exact (f_equal snd (alu_flags_correct 7 (mkCC CC_OP_EFLAGS 0 0) OP_ADDL 0 0x2ff 0x101
    ltac:(lia) ltac:(exact I))).
Defined.

(** [jc] on restored flags that hold the carry. *)
Lemma jcc_decides_on_flags_witness : gen_jcc1 0 (mkCC CC_OP_EFLAGS CC_C 0) 0x72 = true.
Proof.
  rewrite (jcc_decides_on_flags 0 (mkCC CC_OP_EFLAGS CC_C 0) 0x72
    ltac:(exact I) ltac:(by left) ltac:(done) ltac:(done) ltac:(by left)). reflexivity.
Defined.

(** [jl] after comparing the words 0x8000 and 1: signed, the first is less. *)
Lemma cmp_jcc_compares_witness :
  let env' := (gen_op 0 (mkCC CC_OP_EFLAGS 0 0) OP_CMPL 1 0x8000 1).2 in
  gen_jcc1 (cc_op env') env' 0x7c = true.
Proof.
  cbv zeta. rewrite (cmp_jcc_compares 0 (mkCC CC_OP_EFLAGS 0 0) 1 0x8000 1 0x7c
    ltac:(lia) ltac:(done) ltac:(done)). vm_compute. reflexivity.
Defined.

(** [inc] of the byte 0x7f after a carry: overflow, sign, adjust, and the carry. *)
Lemma inc_dec_flags_witness :
  flags (gen_inc (mkCC CC_OP_EFLAGS CC_C 0) 0 1 0x7f).2 = CC_O + CC_S + CC_A + CC_C.
Proof.
  exact (f_equal snd (proj1 (inc_dec_flags (mkCC CC_OP_EFLAGS CC_C 0) 0 1 0x7f
    ltac:(lia) ltac:(exact I)))).
Defined.

(** [sar] of the byte 0x81 by one keeps the sign and moves a one to the carry. *)
Lemma shift_flags_correct_witness :
  flags (gen_shift_rm_T1 (mkCC CC_OP_EFLAGS 0 0) 0 0x81 1 true true).2 = CC_S + CC_P + CC_C.
Proof.
  exact (proj2 (shift_flags_correct (mkCC CC_OP_EFLAGS 0 0) 0 0x81 1 true true ltac:(lia))).
Defined.

End CondCodes.
