(* ===== verification/X86Ops.v ===== *)
(** * x86 multiplication, division, rotation through carry and decimal adjust

    The general registers with their partial reads and writes, and the
    instructions that need more than the arithmetic of [CondCodes]:
    [mul], [imul], [div], [idiv] (translate.c emits the first two in line and
    calls op_helper.c for the others), [rcl] and [rcr] (helper_template.h), and
    the decimal instructions (op_helper.c).  A definition named after a
    function of translate.c is what the code it emits does. *)

From S2P Require Import Prelude CondCodes.

Module X86Ops.
Import CondCodes.

(** ** State *)

Definition R_EAX : Z := 0.
Definition R_EDX : Z := 2.

(** The general registers and the lazy flags. *)
Record CPUX86 := mkCPUX86 {
  regs : list Z;
  cc : CC
}.
#[export] Instance CPUX86_eta : RecordEta CPUX86 := fields mkCPUX86 < regs ; cc >.

Definition EAX (s : CPUX86) : Z := aget 0 (regs s) R_EAX.
Definition EDX (s : CPUX86) : Z := aget 0 (regs s) R_EDX.
Definition EAX_W (s : CPUX86) (v : Z) : CPUX86 := s <| regs := aset (regs s) R_EAX (u32 v) |>.
Definition EDX_W (s : CPUX86) (v : Z) : CPUX86 := s <| regs := aset (regs s) R_EDX (u32 v) |>.
Definition CC_SRC_W (s : CPUX86) (v : Z) : CPUX86 := s <| cc := (cc s) <| cc_src := u32 v |> |>.
Definition CC_DST_W (s : CPUX86) (v : Z) : CPUX86 := s <| cc := (cc s) <| cc_dst := u32 v |> |>.
Definition CC_OP_W (s : CPUX86) (v : Z) : CPUX86 := s <| cc := (cc s) <| cc_op := v |> |>.

(** Byte registers 4 to 7 are the second bytes of registers 0 to 3. *)
Definition gen_op_mov_reg_v (s : CPUX86) (ot reg t0 : Z) : CPUX86 :=
  let put i v := s <| regs := aset (regs s) i v |> in
  let get i := aget 0 (regs s) i in
  match ot with
  | 0 =>
      let tmp := u8 t0 in
      if reg <? 4 then put reg (Z.lor (Z.land (get reg) (Z.lnot 0xff)) tmp)
      else put (reg - 4) (Z.lor (Z.land (get (reg - 4)) (Z.lnot 0xff00)) (u32 (Z.shiftl tmp 8)))
  | 1 => put reg (Z.lor (Z.land (get reg) (Z.lnot 0xffff)) (u16 t0))
  | _ => put reg (u32 t0)
  end.

Definition gen_op_mov_v_reg (s : CPUX86) (ot reg : Z) : Z :=
  match ot with
  | 0 => if reg <? 4 then aget 0 (regs s) reg else u8 (Z.shiftr (aget 0 (regs s) (reg - 4)) 8)
  | _ => aget 0 (regs s) reg
  end.

(** ** Multiplication *)

(** The code of the case [mul] of group 3: [T0] is the operand. *)
Definition gen_mul (s : CPUX86) (ot T0 : Z) : CPUX86 :=
  let T1 := gen_op_mov_v_reg s ot R_EAX in
  match ot with
  | 0 =>
      let T0 := u32 (u8 T0 * u8 T1) in
      let s := gen_op_mov_reg_v s 1 R_EAX T0 in
      s <| cc := mkCC CC_OP_MULB (Z.land T0 0xff00) T0 |>
  | 1 =>
      let T0 := u32 (u16 T0 * u16 T1) in
      let s := gen_op_mov_reg_v s 1 R_EAX T0 in
      let cc_dst := T0 in
      let T0 := Z.shiftr T0 16 in
      let s := gen_op_mov_reg_v s 1 R_EDX T0 in
      s <| cc := mkCC (CC_OP_MULB + 1) T0 cc_dst |>
  | _ =>
      let t0 := u64 (u32 T0 * u32 T1) in
      let T0 := u32 t0 in
      let s := gen_op_mov_reg_v s 2 R_EAX T0 in
      let cc_dst := T0 in
      let T0 := u32 (Z.shiftr t0 32) in
      let s := gen_op_mov_reg_v s 2 R_EDX T0 in
      s <| cc := mkCC (CC_OP_MULB + 2) T0 cc_dst |>
  end.

(** The case [imul]; [t0] of the last size is the 64-bit pattern. *)
Definition gen_imul (s : CPUX86) (ot T0 : Z) : CPUX86 :=
  let T1 := gen_op_mov_v_reg s ot R_EAX in
  match ot with
  | 0 =>
      let T0 := u32 (u32 (s8 T0) * u32 (s8 T1)) in
      let s := gen_op_mov_reg_v s 1 R_EAX T0 in
      s <| cc := mkCC CC_OP_MULB (u32 (T0 - u32 (s8 T0))) T0 |>
  | 1 =>
      let T0 := u32 (u32 (s16 T0) * u32 (s16 T1)) in
      let s := gen_op_mov_reg_v s 1 R_EAX T0 in
      let cc_dst := T0 in
      let cc_src := u32 (T0 - u32 (s16 T0)) in
      let T0 := Z.shiftr T0 16 in
      let s := gen_op_mov_reg_v s 1 R_EDX T0 in
      s <| cc := mkCC (CC_OP_MULB + 1) cc_src cc_dst |>
  | _ =>
      let t0 := u64 (u64 (s32 T0) * u64 (s32 T1)) in
      let T0 := u32 t0 in
      let s := gen_op_mov_reg_v s 2 R_EAX T0 in
      let cc_dst := T0 in
      let tmp0 := u32 (Z.shiftr (s32 T0) 31) in
      let T0 := u32 (Z.shiftr t0 32) in
      let s := gen_op_mov_reg_v s 2 R_EDX T0 in
      s <| cc := mkCC (CC_OP_MULB + 2) (u32 (T0 - tmp0)) cc_dst |>
  end.

(** ** Division *)

Definition EXCP00_DIVZ : Z := 0.

(** [raise_exception] does not return; [Overflow] is the quotient of C that
    its type cannot hold, whose behaviour C leaves undefined (x86 hosts trap). *)
Inductive Outcome :=
| Done (s : CPUX86)
| Raise (excp : Z)
| Overflow.

Definition helper_divb_AL (s : CPUX86) (t0 : Z) : Outcome :=
  let num := Z.land (EAX s) 0xffff in
  let den := Z.land t0 0xff in
  if den =? 0 then Raise EXCP00_DIVZ
  else
    let q := num / den in
    if 0xff <? q then Raise EXCP00_DIVZ
    else
      let q := Z.land q 0xff in
      let r := Z.land (num mod den) 0xff in
      Done (EAX_W s (Z.lor (Z.lor (Z.land (EAX s) (Z.lnot 0xffff)) (Z.shiftl r 8)) q)).

Definition helper_idivb_AL (s : CPUX86) (t0 : Z) : Outcome :=
  let num := s16 (EAX s) in
  let den := s8 t0 in
  if den =? 0 then Raise EXCP00_DIVZ
  else
    let q := Z.quot num den in
    if negb (q =? s8 q) then Raise EXCP00_DIVZ
    else
      let r := Z.land (Z.rem num den) 0xff in
      let q := Z.land q 0xff in
      Done (EAX_W s (Z.lor (Z.lor (Z.land (EAX s) (Z.lnot 0xffff)) (Z.shiftl r 8)) q)).

Definition helper_divw_AX (s : CPUX86) (t0 : Z) : Outcome :=
  let num := Z.lor (Z.land (EAX s) 0xffff) (u32 (Z.shiftl (Z.land (EDX s) 0xffff) 16)) in
  let den := Z.land t0 0xffff in
  if den =? 0 then Raise EXCP00_DIVZ
  else
    let q := num / den in
    if 0xffff <? q then Raise EXCP00_DIVZ
    else
      let q := Z.land q 0xffff in
      let r := Z.land (num mod den) 0xffff in
      let s := EAX_W s (Z.lor (Z.land (EAX s) (Z.lnot 0xffff)) q) in
      Done (EDX_W s (Z.lor (Z.land (EDX s) (Z.lnot 0xffff)) r)).

Definition helper_idivw_AX (s : CPUX86) (t0 : Z) : Outcome :=
  let num := s32 (Z.lor (Z.land (EAX s) 0xffff) (u32 (Z.shiftl (Z.land (EDX s) 0xffff) 16))) in
  let den := s16 t0 in
  if den =? 0 then Raise EXCP00_DIVZ
  else if (num =? - 2 ^ 31) && (den =? -1) then Overflow
  else
    let q := Z.quot num den in
    if negb (q =? s16 q) then Raise EXCP00_DIVZ
    else
      let r := Z.land (Z.rem num den) 0xffff in
      let q := Z.land q 0xffff in
      let s := EAX_W s (Z.lor (Z.land (EAX s) (Z.lnot 0xffff)) q) in
      Done (EDX_W s (Z.lor (Z.land (EDX s) (Z.lnot 0xffff)) r)).

Definition helper_divl_EAX (s : CPUX86) (t0 : Z) : Outcome :=
  let num := Z.lor (u32 (EAX s)) (u64 (Z.shiftl (u32 (EDX s)) 32)) in
  let den := u32 t0 in
  if den =? 0 then Raise EXCP00_DIVZ
  else
    let q := num / den in
    let r := u32 (num mod den) in
    if 0xffffffff <? q then Raise EXCP00_DIVZ
    else Done (EDX_W (EAX_W s (u32 q)) (u32 r)).

Definition helper_idivl_EAX (s : CPUX86) (t0 : Z) : Outcome :=
  let num := s64 (Z.lor (u32 (EAX s)) (u64 (Z.shiftl (u32 (EDX s)) 32))) in
  let den := s32 t0 in
  if den =? 0 then Raise EXCP00_DIVZ
  else if (num =? - 2 ^ 63) && (den =? -1) then Overflow
  else
    let q := Z.quot num den in
    let r := s32 (Z.rem num den) in
    if negb (q =? s32 q) then Raise EXCP00_DIVZ
    else Done (EDX_W (EAX_W s (u32 q)) (u32 r)).

(** The cases [div] and [idiv] of group 3. *)
Definition gen_div (s : CPUX86) (ot T0 : Z) : Outcome :=
  match ot with 0 => helper_divb_AL s T0 | 1 => helper_divw_AX s T0 | _ => helper_divl_EAX s T0 end.
Definition gen_idiv (s : CPUX86) (ot T0 : Z) : Outcome :=
  match ot with 0 => helper_idivb_AL s T0 | 1 => helper_idivw_AX s T0 | _ => helper_idivl_EAX s T0 end.

(** ** Rotation through the carry *)

Definition rclw_table : list Z :=
  [0; 1; 2; 3; 4; 5; 6; 7; 8; 9; 10; 11; 12; 13; 14; 15;
   16; 0; 1; 2; 3; 4; 5; 6; 7; 8; 9; 10; 11; 12; 13; 14].

Definition rclb_table : list Z :=
  [0; 1; 2; 3; 4; 5; 6; 7; 8; 0; 1; 2; 3; 4; 5; 6;
   7; 8; 0; 1; 2; 3; 4; 5; 6; 7; 8; 0; 1; 2; 3; 4].

Section Rotate.
Context (DATA_BITS : Z).

(** The result and [cc_tmp]. *)
Definition helper_rcl (env : CC) (t0 t1 : Z) : Z * Z :=
  let count := Z.land t1 0x1f in
  let count :=
    if DATA_BITS =? 16 then aget 0 rclw_table count
    else if DATA_BITS =? 8 then aget 0 rclb_table count else count in
  if nz count then
    let eflags := helper_cc_compute_all env (cc_op env) in
    let t0 := Z.land t0 (DATA_MASK DATA_BITS) in
    let src := t0 in
    let res := Z.lor (u32 (Z.shiftl t0 count)) (u32 (Z.shiftl (Z.land eflags CC_C) (count - 1))) in
    let res := if 1 <? count then Z.lor res (Z.shiftr t0 (DATA_BITS + 1 - count)) else res in
    let t0 := res in
    (t0, u32 (Z.lor (Z.lor (Z.land eflags (Z.lnot (Z.lor CC_C CC_O)))
                (Z.land (lshift (s32 (Z.lxor src t0)) (11 - (DATA_BITS - 1))) CC_O))
              (Z.land (Z.shiftr src (DATA_BITS - count)) CC_C)))
  else (t0, u32 (-1)).

Definition helper_rcr (env : CC) (t0 t1 : Z) : Z * Z :=
  let count := Z.land t1 0x1f in
  let count :=
    if DATA_BITS =? 16 then aget 0 rclw_table count
    else if DATA_BITS =? 8 then aget 0 rclb_table count else count in
  if nz count then
    let eflags := helper_cc_compute_all env (cc_op env) in
    let t0 := Z.land t0 (DATA_MASK DATA_BITS) in
    let src := t0 in
    let res := Z.lor (Z.shiftr t0 count) (u32 (Z.shiftl (Z.land eflags CC_C) (DATA_BITS - count))) in
    let res := if 1 <? count then Z.lor res (u32 (Z.shiftl t0 (DATA_BITS + 1 - count))) else res in
    let t0 := res in
    (t0, u32 (Z.lor (Z.lor (Z.land eflags (Z.lnot (Z.lor CC_C CC_O)))
                (Z.land (lshift (s32 (Z.lxor src t0)) (11 - (DATA_BITS - 1))) CC_O))
              (Z.land (Z.shiftr src (count - 1)) CC_C)))
  else (t0, u32 (-1)).

End Rotate.

(** [junk] is what the discarded [cpu_cc_dst] holds. *)
Definition gen_rotc_rm_T1 (junk : Z) (env : CC) (ot T0 T1 : Z) (is_right : bool) : Z * CC :=
  let '(T0, cc_tmp) :=
    if is_right then
      match ot with 0 => helper_rcr 8 env T0 T1 | 1 => helper_rcr 16 env T0 T1 | _ => helper_rcr 32 env T0 T1 end
    else
      match ot with 0 => helper_rcl 8 env T0 T1 | 1 => helper_rcl 16 env T0 T1 | _ => helper_rcl 32 env T0 T1 end in
  (T0, if cc_tmp =? u32 (-1) then env else mkCC CC_OP_EFLAGS cc_tmp junk).

(** ** Decimal adjust *)

Definition helper_aam (s : CPUX86) (base : Z) : CPUX86 :=
  let al := Z.land (EAX s) 0xff in
  let ah := Z.quot al base in
  let al := Z.rem al base in
  let s := EAX_W s (Z.lor (Z.lor (Z.land (EAX s) (Z.lnot 0xffff)) al) (Z.shiftl ah 8)) in
  CC_DST_W s al.

Definition helper_aad (s : CPUX86) (base : Z) : CPUX86 :=
  let al := Z.land (EAX s) 0xff in
  let ah := Z.land (Z.shiftr (EAX s) 8) 0xff in
  let al := Z.land (ah * base + al) 0xff in
  let s := EAX_W s (Z.lor (Z.land (EAX s) (Z.lnot 0xffff)) al) in
  CC_DST_W s al.

Definition helper_aaa (s : CPUX86) : CPUX86 :=
  let eflags := helper_cc_compute_all (cc s) (cc_op (cc s)) in
  let af := Z.land eflags CC_A in
  let al := Z.land (EAX s) 0xff in
  let ah := Z.land (Z.shiftr (EAX s) 8) 0xff in
  let icarry := b2z (0xf9 <? al) in
  let '(al, ah, eflags) :=
    if (9 <? Z.land al 0x0f) || nz af then
      (Z.land (al + 6) 0x0f, Z.land (ah + 1 + icarry) 0xff, Z.lor eflags (Z.lor CC_C CC_A))
    else (Z.land al 0x0f, ah, Z.land eflags (Z.lnot (Z.lor CC_C CC_A))) in
  let s := EAX_W s (Z.lor (Z.lor (Z.land (EAX s) (Z.lnot 0xffff)) al) (Z.shiftl ah 8)) in
  CC_SRC_W s eflags.

Definition helper_aas (s : CPUX86) : CPUX86 :=
  let eflags := helper_cc_compute_all (cc s) (cc_op (cc s)) in
  let af := Z.land eflags CC_A in
  let al := Z.land (EAX s) 0xff in
  let ah := Z.land (Z.shiftr (EAX s) 8) 0xff in
  let icarry := b2z (al <? 6) in
  let '(al, ah, eflags) :=
    if (9 <? Z.land al 0x0f) || nz af then
      (Z.land (al - 6) 0x0f, Z.land (ah - 1 - icarry) 0xff, Z.lor eflags (Z.lor CC_C CC_A))
    else (Z.land al 0x0f, ah, Z.land eflags (Z.lnot (Z.lor CC_C CC_A))) in
  let s := EAX_W s (Z.lor (Z.lor (Z.land (EAX s) (Z.lnot 0xffff)) al) (Z.shiftl ah 8)) in
  CC_SRC_W s eflags.

(** The flags [daa] and [das] compute by hand. *)
Definition hand_flags (eflags al : Z) : Z :=
  let eflags := Z.lor eflags (Z.shiftl (b2z (al =? 0)) 6) in
  let eflags := Z.lor eflags (Z.land (aget 0 parity_table al) CC_P) in
  Z.lor eflags (Z.land al 0x80).

Definition helper_daa (s : CPUX86) : CPUX86 :=
  let eflags := helper_cc_compute_all (cc s) (cc_op (cc s)) in
  let cf := Z.land eflags CC_C in
  let af := Z.land eflags CC_A in
  let al := Z.land (EAX s) 0xff in
  let eflags := 0 in
  let '(al, eflags) :=
    if (9 <? Z.land al 0x0f) || nz af then (Z.land (al + 6) 0xff, Z.lor eflags CC_A) else (al, eflags) in
  let '(al, eflags) :=
    if (0x9f <? al) || nz cf then (Z.land (al + 0x60) 0xff, Z.lor eflags CC_C) else (al, eflags) in
  let s := EAX_W s (Z.lor (Z.land (EAX s) (Z.lnot 0xff)) al) in
  CC_SRC_W s (hand_flags eflags al).

Definition helper_das (s : CPUX86) : CPUX86 :=
  let eflags := helper_cc_compute_all (cc s) (cc_op (cc s)) in
  let cf := Z.land eflags CC_C in
  let af := Z.land eflags CC_A in
  let al := Z.land (EAX s) 0xff in
  let eflags := 0 in
  let al1 := al in
  let '(al, eflags) :=
    if (9 <? Z.land al 0x0f) || nz af then
      let eflags := Z.lor eflags CC_A in
      let eflags := if (al <? 6) || nz cf then Z.lor eflags CC_C else eflags in
      (Z.land (al - 6) 0xff, eflags)
    else (al, eflags) in
  let '(al, eflags) :=
    if (0x99 <? al1) || nz cf then (Z.land (al - 0x60) 0xff, Z.lor eflags CC_C) else (al, eflags) in
  let s := EAX_W s (Z.lor (Z.land (EAX s) (Z.lnot 0xff)) al) in
  CC_SRC_W s (hand_flags eflags al).

(** The decimal instructions as translated: the helper, then the operation the
    flags come from. *)
Inductive BcdOp := DAA | DAS | AAA | AAS | AAM (val : Z) | AAD (val : Z).

Definition disas_bcd (s : CPUX86) (op : BcdOp) : Outcome :=
  match op with
  | DAA => Done (CC_OP_W (helper_daa s) CC_OP_EFLAGS)
  | DAS => Done (CC_OP_W (helper_das s) CC_OP_EFLAGS)
  | AAA => Done (CC_OP_W (helper_aaa s) CC_OP_EFLAGS)
  | AAS => Done (CC_OP_W (helper_aas s) CC_OP_EFLAGS)
  | AAM val => if val =? 0 then Raise EXCP00_DIVZ else Done (CC_OP_W (helper_aam s val) CC_OP_LOGICB)
  | AAD val => Done (CC_OP_W (helper_aad s val) CC_OP_LOGICB)
  end.

(** ** The register file *)

Definition x86_ok (s : CPUX86) : Prop := length (regs s) = 8%nat /\ Forall (range 32) (regs s).

Lemma reg_range s i : x86_ok s -> range 32 (aget 0 (regs s) i).
Proof.
  intros [_ H]. unfold aget. rewrite nth_lookup. destruct (regs s !! Z.to_nat i) eqn:E; [|done].
  exact (proj1 (Forall_lookup _ _) H _ _ E).
Qed.

Lemma put_ok s i v : x86_ok s -> range 32 v -> x86_ok (s <| regs := aset (regs s) i v |>).
Proof.
  intros [L H] Hv. split; cbn; [by rewrite aset_length|]. by apply Forall_insert.
Qed.

Lemma put_get s i j v : x86_ok s -> 0 <= i < 8 -> 0 <= j ->
  aget 0 (aset (regs s) i v) j = if i =? j then v else aget 0 (regs s) j.
Proof.
  intros [L _] Hi Hj. destruct (Z.eqb_spec i j) as [<-|]; [apply aget_aset_eq; lia | apply aget_aset_ne; lia].
Qed.

Section RegW.
Context (s : CPUX86) (Hs : x86_ok s) (v : Z).

Lemma EAX_W_ok : x86_ok (EAX_W s v).
Proof. apply put_ok; [done | apply u32_range]. Qed.
Lemma EDX_W_ok : x86_ok (EDX_W s v).
Proof. apply put_ok; [done | apply u32_range]. Qed.
Lemma EAX_EAX_W : EAX (EAX_W s v) = u32 v.
Proof. by apply (put_get s R_EAX R_EAX (u32 v) Hs). Qed.
Lemma EDX_EAX_W : EDX (EAX_W s v) = EDX s.
Proof. by apply (put_get s R_EAX R_EDX (u32 v) Hs). Qed.
Lemma EDX_EDX_W : EDX (EDX_W s v) = u32 v.
Proof. by apply (put_get s R_EDX R_EDX (u32 v) Hs). Qed.
Lemma EAX_EDX_W : EAX (EDX_W s v) = EAX s.
Proof. by apply (put_get s R_EDX R_EAX (u32 v) Hs). Qed.
End RegW.

(** Replacing the low [w] bits. *)
Lemma put_low w r v : 0 <= w -> range w v -> Z.lor (Z.land r (Z.lnot (2 ^ w - 1))) v = r / 2 ^ w * 2 ^ w + v.
Proof.
  intros Hw Hv. rewrite <- Z.ldiff_land. replace (2 ^ w - 1) with (Z.ones w) by (rewrite Z.ones_equiv; lia).
  rewrite Z.ldiff_ones_r, lor_disjoint_add, Z.shiftr_div_pow2 by done. done.
Qed.

Lemma put_low_range w r v : 0 <= w <= 32 -> range 32 r -> range w v -> range 32 (r / 2 ^ w * 2 ^ w + v).
Proof.
  intros Hw Hr Hv. rewrite <- put_low by (done || lia).
  apply lor_range; [lia | by apply land_range; [lia|] | by apply (range_weaken w)].
Qed.

Lemma low_part w q v : range w v -> (q * 2 ^ w + v) mod 2 ^ w = v.
Proof. intros Hv. rewrite Z.add_comm, Z.mod_add, Z.mod_small by (done || unfold range in Hv; lia). done. Qed.
Lemma high_part w q v : range w v -> (q * 2 ^ w + v) / 2 ^ w = q.
Proof. intros Hv. rewrite Z.div_add_l, Z.div_small by (done || unfold range in Hv; lia). lia. Qed.

(** ** Division *)

(** The dividend (and the product), at twice the operand size. *)
Definition dividend (ot : Z) (s : CPUX86) : Z :=
  match ot with
  | 0 => EAX s mod 2 ^ 16
  | 1 => EDX s mod 2 ^ 16 * 2 ^ 16 + EAX s mod 2 ^ 16
  | _ => EDX s * 2 ^ 32 + EAX s
  end.

(** Where quotient and remainder go, and what of the registers stays. *)
Definition results (ot : Z) (s : CPUX86) : Z * Z :=
  match ot with
  | 0 => (EAX s mod 2 ^ 8, EAX s / 2 ^ 8 mod 2 ^ 8)
  | 1 => (EAX s mod 2 ^ 16, EDX s mod 2 ^ 16)
  | _ => (EAX s, EDX s)
  end.
Definition above (ot : Z) (s : CPUX86) : Z * Z :=
  match ot with
  | 0 => (EAX s / 2 ^ 16, EDX s)
  | 1 => (EAX s / 2 ^ 16, EDX s / 2 ^ 16)
  | _ => (0, 0)
  end.

(** The writes at the end of the division helpers. *)
Definition divided (ot : Z) (s : CPUX86) (q r : Z) : CPUX86 :=
  match ot with
  | 0 => EAX_W s (Z.lor (Z.lor (Z.land (EAX s) (Z.lnot 0xffff)) (Z.shiftl r 8)) q)
  | 1 =>
      let s := EAX_W s (Z.lor (Z.land (EAX s) (Z.lnot 0xffff)) q) in
      EDX_W s (Z.lor (Z.land (EDX s) (Z.lnot 0xffff)) r)
  | _ => EDX_W (EAX_W s (u32 q)) (u32 r)
  end.

Lemma two_bytes x r q : range 8 r -> range 8 q ->
  Z.lor (Z.lor (Z.land x (Z.lnot 0xffff)) (Z.shiftl r 8)) q = x / 2 ^ 16 * 2 ^ 16 + (r * 2 ^ 8 + q) /\
  range 16 (r * 2 ^ 8 + q).
Proof.
  intros Hr Hq. assert (range 16 (r * 2 ^ 8 + q)) by (unfold range in *; lia).
  split; [|done]. rewrite <- Z.lor_assoc, lor_disjoint_add by (done || lia). by apply (put_low 16).
Qed.

Lemma divided_ok ot s q r : 0 <= ot <= 2 -> x86_ok s -> range (size ot) q -> range (size ot) r ->
  results ot (divided ot s q r) = (q, r) /\ above ot (divided ot s q r) = above ot s /\ x86_ok (divided ot s q r).
Proof.
  intros Hot Hs. pose proof (reg_range s R_EAX Hs) as Ha. pose proof (reg_range s R_EDX Hs) as Hd.
  fold (EAX s) in Ha. fold (EDX s) in Hd. pattern ot. apply size_cases; [done|..]; clear dependent ot;
    intros Hq Hr; unfold divided, results, above.
  - destruct (two_bytes (EAX s) r q Hr Hq) as [-> H16].
    rewrite EAX_EAX_W, EDX_EAX_W, u32_small by (done || by apply (put_low_range 16)).
    rewrite high_part by done. split; [|split; [done | by apply EAX_W_ok]].
    replace (EAX s / 2 ^ 16 * 2 ^ 16 + (r * 2 ^ 8 + q)) with ((EAX s / 2 ^ 16 * 2 ^ 8 + r) * 2 ^ 8 + q) by lia.
    by rewrite low_part, high_part, low_part.
  - cbv zeta. pose proof (EAX_W_ok s Hs) as Hs1.
    rewrite EDX_EAX_W, (put_low 16 (EDX s)), (put_low 16 (EAX s)) by done.
    rewrite EAX_EDX_W, EDX_EDX_W, EAX_EAX_W, !u32_small by (done || by apply (put_low_range 16)).
    rewrite !low_part, !high_part by done. repeat split; by apply EDX_W_ok.
  - rewrite EAX_EDX_W, EDX_EDX_W, EAX_EAX_W, !(u32_small q), !(u32_small r) by (done || by apply EAX_W_ok).
    repeat split; by apply EDX_W_ok, EAX_W_ok.
Qed.

Lemma joined_words s :
  Z.lor (Z.land (EAX s) 0xffff) (u32 (Z.shiftl (Z.land (EDX s) 0xffff) 16)) = dividend 1 s.
Proof.
  rewrite !land_ffff. pose proof (Z.mod_pos_bound (EDX s) 65536 ltac:(lia)).
  pose proof (Z.mod_pos_bound (EAX s) 65536 ltac:(lia)).
  rewrite u32_small by (rewrite Z.shiftl_mul_pow2 by lia; unfold range; lia).
  rewrite Z.lor_comm. by apply lor_disjoint_add.
Qed.

Lemma joined_longs s : x86_ok s ->
  Z.lor (u32 (EAX s)) (u64 (Z.shiftl (u32 (EDX s)) 32)) = dividend 2 s.
Proof.
  intros Hs. pose proof (reg_range s R_EAX Hs) as Ha. pose proof (reg_range s R_EDX Hs) as Hd.
  fold (EAX s) in Ha. fold (EDX s) in Hd. rewrite !u32_small by done.
  rewrite u64_small by (rewrite Z.shiftl_mul_pow2 by lia; unfold range in *; lia).
  rewrite Z.lor_comm. by apply lor_disjoint_add.
Qed.

Lemma dividend_range ot s : 0 <= ot <= 2 -> x86_ok s -> 0 <= dividend ot s < 2 ^ (2 * size ot).
Proof.
  intros Hot Hs. pose proof (reg_range s R_EAX Hs) as Ha. pose proof (reg_range s R_EDX Hs) as Hd.
  fold (EAX s) in Ha. fold (EDX s) in Hd. unfold range in *.
  pattern ot. apply size_cases; [done|..]; unfold dividend.
  - by apply Z.mod_pos_bound.
  - pose proof (Z.mod_pos_bound (EDX s) (2 ^ 16)). pose proof (Z.mod_pos_bound (EAX s) (2 ^ 16)).
    change (2 ^ (2 * size 1)) with (2 ^ 32). lia.
  - change (2 ^ (2 * size 2)) with (2 ^ 64). lia.
Qed.

(** The unsigned helpers at their common shape. *)
Lemma gen_div_shape ot s T0 : 0 <= ot <= 2 -> x86_ok s ->
  let w := size ot in
  let d := T0 mod 2 ^ w in
  let q := dividend ot s / d in
  gen_div s ot T0 =
    (if d =? 0 then Raise EXCP00_DIVZ
     else if 2 ^ w - 1 <? q then Raise EXCP00_DIVZ
     else Done (divided ot s (q mod 2 ^ w) ((dividend ot s mod d) mod 2 ^ w))).
Proof.
  intros Hot Hs. pattern ot. apply size_cases; [done|..]; cbv zeta; unfold gen_div.
  - unfold helper_divb_AL. by rewrite !land_ff, !land_ffff.
  - unfold helper_divw_AX. by rewrite joined_words, !land_ffff.
  - unfold helper_divl_EAX. rewrite joined_longs by done. unfold divided, u32.
    by rewrite ?Z.mod_mod by lia.
Qed.

(** [div] divides.  For every operand size and operand: the exception is
    raised exactly when the divisor is zero or the quotient needs more than
    the operand size; otherwise quotient and remainder of the double-width
    dividend are in their registers, and the rest of the registers is
    unchanged. *)
Theorem div_correct s ot T0 :
  x86_ok s -> 0 <= ot <= 2 ->
  let w := size ot in
  let n := dividend ot s in
  let d := T0 mod 2 ^ w in
  match gen_div s ot T0 with
  | Done s' =>
      d <> 0 /\ n / d < 2 ^ w /\ results ot s' = (n / d, n mod d) /\ above ot s' = above ot s /\ x86_ok s'
  | Raise e => e = EXCP00_DIVZ /\ (d = 0 \/ 2 ^ w <= n / d)
  | Overflow => False
  end.
Proof.
  intros Hs Hot w n d. rewrite gen_div_shape by done. cbv zeta. fold w n d.
  destruct (width_bounds w (size_width ot Hot)) as [_ Hp]. pose proof (dividend_range ot s Hot Hs) as Hn. fold w n in Hn.
  pose proof (Z.mod_pos_bound T0 (2 ^ w) Hp) as Hd. fold d in Hd.
  destruct (Z.eqb_spec d 0) as [|Hd0]; [by split; [|left]|].
  destruct (Z.ltb_spec (2 ^ w - 1) (n / d)) as [|Hq]; [split; [done | right; lia]|].
  pose proof (Z.mod_pos_bound n d ltac:(lia)). pose proof (Z.div_pos n d ltac:(lia) ltac:(lia)).
  rewrite (Z.mod_small (n / d)), (Z.mod_small (n mod d)) by lia.
  pose proof (divided_ok ot s (n / d) (n mod d) Hot Hs) as H3. unfold range in H3. fold w in H3.
  destruct H3 as (-> & -> & ?); [lia..|]. split_and!; done || lia.
Qed.

Lemma sgn_of_pattern w x : 0 < w -> 0 <= x < 2 ^ w -> (x + 2 ^ (w - 1)) mod 2 ^ w - 2 ^ (w - 1) = sgn w x.
Proof. intros Hw Hx. by rewrite sgn_mod, Z.mod_small. Qed.

Lemma fits_cast w q : 0 < w -> (q =? (q + 2 ^ (w - 1)) mod 2 ^ w - 2 ^ (w - 1)) = signed_fits w q.
Proof.
  intros Hw. assert (E : 2 ^ w = 2 * 2 ^ (w - 1)) by (rewrite <- Z.pow_succ_r by lia; f_equal; lia).
  pose proof (Z.mod_pos_bound (q + 2 ^ (w - 1)) (2 ^ w) ltac:(lia)) as B. unfold signed_fits.
  destruct (Z.leb_spec (- 2 ^ (w - 1)) q), (Z.ltb_spec q (2 ^ (w - 1))); cbn [andb];
    [apply Z.eqb_eq | apply Z.eqb_neq; lia..]. rewrite Z.mod_small; lia.
Qed.

Lemma gen_idiv_shape ot s T0 : 0 <= ot <= 2 -> x86_ok s ->
  let w := size ot in
  let n := sgn (2 * w) (dividend ot s) in
  let d := sgn w (T0 mod 2 ^ w) in
  gen_idiv s ot T0 =
    (if d =? 0 then Raise EXCP00_DIVZ
     else if (1 <=? ot) && ((n =? - 2 ^ (2 * w - 1)) && (d =? -1)) then Overflow
     else if negb (signed_fits w (Z.quot n d)) then Raise EXCP00_DIVZ
     else Done (divided ot s (Z.quot n d mod 2 ^ w) (Z.rem n d mod 2 ^ w))).
Proof.
  intros Hot Hs. pose proof (dividend_range ot s Hot Hs) as Hn. revert Hn.
  pattern ot. apply size_cases; [done|..]; intros Hn; cbv zeta; unfold gen_idiv.
  - unfold helper_idivb_AL. rewrite !land_ff. change (s16 (EAX s)) with ((EAX s + 2 ^ (16 - 1)) mod 2 ^ 16 - 2 ^ (16 - 1)).
    change (s8 T0) with ((T0 + 2 ^ (8 - 1)) mod 2 ^ 8 - 2 ^ (8 - 1)). rewrite !sgn_mod by done.
    rewrite <- (fits_cast (size 0)) by done. done.
  - unfold helper_idivw_AX. rewrite joined_words, !land_ffff.
    change (s16 T0) with ((T0 + 2 ^ (16 - 1)) mod 2 ^ 16 - 2 ^ (16 - 1)). rewrite sgn_mod by done.
    change (s32 (dividend 1 s)) with ((dividend 1 s + 2 ^ (32 - 1)) mod 2 ^ 32 - 2 ^ (32 - 1)).
    rewrite sgn_of_pattern by done. rewrite <- (fits_cast (size 1)) by done. done.
  - unfold helper_idivl_EAX. rewrite joined_longs by done.
    change (s32 T0) with ((T0 + 2 ^ (32 - 1)) mod 2 ^ 32 - 2 ^ (32 - 1)). rewrite sgn_mod by done.
    change (s64 (dividend 2 s)) with ((dividend 2 s + 2 ^ (64 - 1)) mod 2 ^ 64 - 2 ^ (64 - 1)).
    rewrite sgn_of_pattern by done. rewrite <- (fits_cast (size 2)) by done.
    unfold divided, u32. rewrite s32_mod. by rewrite ?Z.mod_mod by lia.
Qed.

(** C32: [idiv] divides signed numbers.  The exception is raised when the divisor
    is zero or the truncated quotient is not a signed number of the operand
    size; otherwise quotient and remainder are in their registers, the
    remainder with the sign of the dividend.  The one exception is the least
    dividend of 32 or 64 bits divided by -1: the helper divides in C before it
    looks at the quotient, and C cannot hold that quotient. *)
Theorem idiv_correct s ot T0 :
  x86_ok s -> 0 <= ot <= 2 ->
  let w := size ot in
  let n := sgn (2 * w) (dividend ot s) in
  let d := sgn w (T0 mod 2 ^ w) in
  match gen_idiv s ot T0 with
  | Done s' =>
      d <> 0 /\ signed_fits w (Z.quot n d) = true /\
      results ot s' = (Z.quot n d mod 2 ^ w, Z.rem n d mod 2 ^ w) /\ above ot s' = above ot s /\ x86_ok s'
  | Raise e => e = EXCP00_DIVZ /\ (d = 0 \/ signed_fits w (Z.quot n d) = false)
  | Overflow => 1 <= ot /\ n = - 2 ^ (2 * w - 1) /\ d = -1
  end.
Proof.
  intros Hs Hot w n d. rewrite gen_idiv_shape by done. cbv zeta. fold w n d.
  destruct (width_bounds w (size_width ot Hot)) as [_ Hp].
  destruct (Z.eqb_spec d 0); [by split; [|left]|].
  destruct (Z.leb_spec 1 ot), (Z.eqb_spec n (- 2 ^ (2 * w - 1))), (Z.eqb_spec d (-1)); cbn [andb]; [done|..].
  all: destruct (signed_fits w (Z.quot n d)); cbn [negb]; [|by split; [|right]].
  all: destruct (divided_ok ot s (Z.quot n d mod 2 ^ w) (Z.rem n d mod 2 ^ w) Hot Hs) as (-> & -> & ?);
    [by apply Z.mod_pos_bound..|done].
Qed.

(** [idiv] of the least 64-bit number by -1 divides by -1 on the host. *)
Lemma idiv_least_traps :
  gen_idiv (mkCPUX86 [0; 0; 0x80000000; 0; 0; 0; 0; 0] (mkCC CC_OP_EFLAGS 0 0)) 2 0xffffffff = Overflow.
Proof. vm_compute. reflexivity. Qed.

(** ** Multiplication *)

Lemma mov_word s reg v : x86_ok s -> 0 <= reg < 8 ->
  let s' := gen_op_mov_reg_v s 1 reg v in
  x86_ok s' /\ cc s' = cc s /\
  forall j, 0 <= j -> aget 0 (regs s') j =
    if reg =? j then aget 0 (regs s) reg / 2 ^ 16 * 2 ^ 16 + v mod 2 ^ 16 else aget 0 (regs s) j.
Proof.
  intros Hs Hr s'. pose proof (u16_range v) as Hv. pose proof (reg_range s reg Hs) as Hg.
  unfold s', gen_op_mov_reg_v. cbv zeta. change 0xffff with (2 ^ 16 - 1). rewrite put_low by done.
  split; [|split; [done|]].
  - apply put_ok; [done | by apply put_low_range].
  - intros j Hj. by apply (put_get s reg j).
Qed.

Lemma mov_long s reg v : x86_ok s -> 0 <= reg < 8 ->
  let s' := gen_op_mov_reg_v s 2 reg v in
  x86_ok s' /\ cc s' = cc s /\
  forall j, 0 <= j -> aget 0 (regs s') j = if reg =? j then v mod 2 ^ 32 else aget 0 (regs s) j.
Proof.
  intros Hs Hr s'. split; [|split; [done|]].
  - apply put_ok; [done | apply u32_range].
  - intros j Hj. by apply (put_get s reg j).
Qed.

(** Where the product goes. *)
Definition produced (ot : Z) (s : CPUX86) (p : Z) : CPUX86 :=
  match ot with
  | 0 => gen_op_mov_reg_v s 1 R_EAX p
  | 1 => gen_op_mov_reg_v (gen_op_mov_reg_v s 1 R_EAX p) 1 R_EDX (Z.shiftr p 16)
  | _ => gen_op_mov_reg_v (gen_op_mov_reg_v s 2 R_EAX (u32 p)) 2 R_EDX (u32 (Z.shiftr p 32))
  end.

Lemma halves w p : 0 <= w -> (p / 2 ^ w) mod 2 ^ w * 2 ^ w + p mod 2 ^ w = p mod 2 ^ (2 * w).
Proof.
  intros Hw. replace (2 * w) with (w + w) by lia. rewrite Z.pow_add_r by lia.
  pose proof (Z.pow_pos_nonneg 2 w ltac:(lia) Hw). rewrite Z.rem_mul_r by lia. lia.
Qed.

Lemma produced_ok ot s p : 0 <= ot <= 2 -> x86_ok s ->
  dividend ot (produced ot s p) = p mod 2 ^ (2 * size ot) /\ above ot (produced ot s p) = above ot s /\
  x86_ok (produced ot s p).
Proof.
  intros Hot Hs. pattern ot. apply size_cases; [done|..]; unfold produced, dividend, above, EAX, EDX.
  - destruct (mov_word s R_EAX p Hs ltac:(done)) as (Ok1 & _ & G). rewrite !G by done.
    change (R_EAX =? R_EAX) with true. change (R_EAX =? R_EDX) with false. cbv iota.
    rewrite low_part, high_part by apply u16_range. done.
  - destruct (mov_word s R_EAX p Hs ltac:(done)) as (Ok1 & _ & G1).
    destruct (mov_word _ R_EDX (Z.shiftr p 16) Ok1 ltac:(done)) as (Ok2 & _ & G2). rewrite !G2, !G1 by done.
    change (R_EAX =? R_EAX) with true. change (R_EAX =? R_EDX) with false.
    change (R_EDX =? R_EAX) with false. change (R_EDX =? R_EDX) with true. cbv iota.
    rewrite !low_part, !high_part by apply u16_range. split; [|done].
    rewrite Z.shiftr_div_pow2 by lia. by apply (halves 16).
  - destruct (mov_long s R_EAX (u32 p) Hs ltac:(done)) as (Ok1 & _ & G1).
    destruct (mov_long _ R_EDX (u32 (Z.shiftr p 32)) Ok1 ltac:(done)) as (Ok2 & _ & G2). rewrite !G2, !G1 by done.
    change (R_EAX =? R_EAX) with true. change (R_EDX =? R_EAX) with false.
    change (R_EDX =? R_EDX) with true. cbv iota. split; [|done].
    rewrite !u32_mod, Z.shiftr_div_pow2 by lia. by apply (halves 32).
Qed.

Lemma mul_op_flags ot c d : 0 <= ot <= 2 ->
  let f := flags (mkCC (CC_OP_MULB + ot) c d) in
  Z.testbit f 0 = nz c /\ Z.testbit f 11 = nz c.
Proof.
  intros Hot f. pose proof (size_width ot Hot) as Hw.
  assert (E : f = compute_all_mul (size ot) (mkCC (CC_OP_MULB + ot) c d))
    by (unfold f; pattern ot; by apply size_cases).
  rewrite E. unfold compute_all_mul. cbn [cc_src cc_dst]. rewrite overflow_bit.
  rewrite (flag_p_ok _ Hw d d eq_refl), (flag_z_ok _ d d eq_refl), (flag_s_ok _ Hw d d eq_refl).
  rewrite (join_ok _ _ false). by destruct (eflags_bits (nz c) (parity d) false (d mod 2 ^ size ot =? 0)
    (2 ^ (size ot - 1) <=? d mod 2 ^ size ot) (nz c)) as (-> & _ & _ & ->).
Qed.

(** A flag state and the registers are separate. *)
Lemma with_cc ot s c : dividend ot (s <| cc := c |>) = dividend ot s /\ above ot (s <| cc := c |>) = above ot s /\
  (x86_ok s -> x86_ok (s <| cc := c |>)).
Proof. done. Qed.

Lemma high_byte p : 0 <= p < 2 ^ 16 -> nz (Z.land p 0xff00) = (2 ^ 8 <=? p).
Proof.
  intros Hp. change 0xff00 with (Z.land (Z.lnot 0xff) 0xffff). rewrite (Z.land_comm (Z.lnot 0xff)), Z.land_assoc.
  rewrite land_ffff, Z.mod_small by lia. rewrite <- (Z.lor_0_r (Z.land _ _)). change 0xff with (2 ^ 8 - 1).
  rewrite put_low by done. pose proof (Z.div_mod p (2 ^ 8)). pose proof (Z.mod_pos_bound p (2 ^ 8)).
  unfold nz. destruct (Z.leb_spec (2 ^ 8) p), (Z.eqb_spec (p / 2 ^ 8 * 2 ^ 8 + 0) 0); cbn; lia.
Qed.

Lemma high_half w p : 0 <= w -> 0 <= p -> nz (p / 2 ^ w) = (2 ^ w <=? p).
Proof.
  intros Hw Hp. pose proof (Z.pow_pos_nonneg 2 w ltac:(lia) Hw). unfold nz.
  destruct (Z.leb_spec (2 ^ w) p), (Z.eqb_spec (p / 2 ^ w) 0) as [e|n]; cbn; try done.
  - apply Z.div_small_iff in e; lia.
  - by rewrite Z.div_small in n by lia.
Qed.

Lemma product_range w x y : 0 <= w -> 0 <= x < 2 ^ w -> 0 <= y < 2 ^ w -> 0 <= x * y < 2 ^ (2 * w).
Proof. intros. replace (2 * w) with (w + w) by lia. rewrite Z.pow_add_r by lia. nia. Qed.

Lemma gen_mul_shape ot s T0 : 0 <= ot <= 2 ->
  let w := size ot in
  let p := (T0 mod 2 ^ w) * (EAX s mod 2 ^ w) in
  exists c d, gen_mul s ot T0 = (produced ot s p) <| cc := mkCC (CC_OP_MULB + ot) c d |> /\ nz c = (2 ^ w <=? p).
Proof.
  intros Hot w p. assert (Hp : 0 <= p < 2 ^ (2 * w)).
  { destruct (width_bounds w (size_width ot Hot)). apply product_range; [lia | by apply Z.mod_pos_bound..]. }
  revert w p Hp. pattern ot. apply size_cases; [done|..]; intros w p Hp; unfold gen_mul.
  - exists (Z.land p 0xff00), p. change (gen_op_mov_v_reg s 0 R_EAX) with (EAX s).
    change (u8 T0 * u8 (EAX s)) with p. rewrite u32_small by (apply (range_weaken 16); [lia | exact Hp]).
    split; [done | by apply high_byte].
  - exists (Z.shiftr p 16), p. change (gen_op_mov_v_reg s 1 R_EAX) with (EAX s).
    change (u16 T0 * u16 (EAX s)) with p. rewrite u32_small by done. split; [done|].
    rewrite Z.shiftr_div_pow2 by done. apply (high_half 16); [done | apply Hp].
  - exists (u32 (Z.shiftr p 32)), (u32 p). change (gen_op_mov_v_reg s 2 R_EAX) with (EAX s).
    change (u32 T0 * u32 (EAX s)) with p. rewrite u64_small by done. split; [done|].
    rewrite Z.shiftr_div_pow2 by done. change w with 32 in *.
    rewrite u32_small by (split; [apply Z.div_pos; lia | apply Z.div_lt_upper_bound; lia]).
    apply (high_half 32); [done | apply Hp].
Qed.

(** [mul] multiplies.  For every operand size the double-width product of the
    operand and the accumulator is where [div] expects its dividend, the rest
    of the registers is unchanged, and carry and overflow say whether the
    product needs more than the operand size. *)
Theorem mul_correct s ot T0 :
  x86_ok s -> 0 <= ot <= 2 ->
  let w := size ot in
  let p := (T0 mod 2 ^ w) * (EAX s mod 2 ^ w) in
  let s' := gen_mul s ot T0 in
  dividend ot s' = p /\ above ot s' = above ot s /\ x86_ok s' /\
  Z.testbit (flags (cc s')) 0 = (2 ^ w <=? p) /\ Z.testbit (flags (cc s')) 11 = (2 ^ w <=? p).
Proof.
  intros Hs Hot w p s'. destruct (width_bounds w (size_width ot Hot)) as [Hb Hp].
  destruct (gen_mul_shape ot s T0 Hot) as (c & d & E & Ec). fold w p in E, Ec. unfold s'. rewrite E. clear s' E.
  destruct (produced_ok ot s p Hot Hs) as (E1 & E2 & E3). fold w in E1.
  destruct (with_cc ot (produced ot s p) (mkCC (CC_OP_MULB + ot) c d)) as (-> & -> & H).
  rewrite E1, E2. destruct (mul_op_flags ot c d Hot) as [F0 F11].
  split_and!; [|done|by apply H | exact (eq_trans F0 Ec) | exact (eq_trans F11 Ec)].
  apply Z.mod_small, product_range; [lia | by apply Z.mod_pos_bound..].
Qed.

(** The difference of two patterns vanishes for equal numbers only. *)
Lemma u32_differ p q : - 2 ^ 31 <= p < 2 ^ 31 -> - 2 ^ 31 <= q < 2 ^ 31 ->
  nz (u32 (u32 p - u32 q)) = negb (p =? q).
Proof.
  intros Hp Hq. rewrite u32_minus. unfold u32. rewrite Zminus_mod_idemp_r. unfold nz. f_equal.
  destruct (Z.eqb_spec p q) as [->|]; [by rewrite Z.sub_diag|].
  apply Z.eqb_neq. intros H. apply Z.mod_divide in H as [k Hk]; lia.
Qed.

Lemma sgn_bound w x : 0 < w -> 0 <= x < 2 ^ w -> - 2 ^ (w - 1) <= sgn w x < 2 ^ (w - 1).
Proof.
  intros Hw Hx. assert (E : 2 ^ w = 2 * 2 ^ (w - 1)) by (rewrite <- Z.pow_succ_r by lia; f_equal; lia).
  unfold sgn. destruct (Z.ltb_spec x (2 ^ (w - 1))); lia.
Qed.

Lemma u32_product a b : u32 (u32 a * u32 b) = u32 (a * b).
Proof. unfold u32. by rewrite <- Z.mul_mod by lia. Qed.
Lemma u64_product a b : u64 (u64 a * u64 b) = u64 (a * b).
Proof. unfold u64. by rewrite <- Z.mul_mod by lia. Qed.

(** The sign of the low half, as the code spreads it. *)
Lemma sign_spread p : - 2 ^ 62 <= p <= 2 ^ 62 ->
  nz (u32 (u32 (Z.shiftr (u64 p) 32) - u32 (Z.shiftr (s32 (u32 (u64 p))) 31))) = negb (signed_fits 32 p).
Proof.
  intros Hp. assert (Eh : u32 (Z.shiftr (u64 p) 32) = u32 (p / 2 ^ 32)).
  { rewrite Z.shiftr_div_pow2 by lia. unfold u32, u64. pose proof (halves 32 p ltac:(lia)) as H.
    change (2 * 32) with 64 in H. rewrite <- H, Z.div_add_l, (Z.div_small (p mod _)), Z.add_0_r by
      (lia || by apply Z.mod_pos_bound). by rewrite Z.mod_mod by lia. }
  assert (El : s32 (u32 (u64 p)) = s32 p).
  { unfold s32, u32, u64. f_equal. rewrite Z.add_mod_idemp_l by lia.
    rewrite <- (Z.mod_mod_divide (p mod 2 ^ 64 + 2 ^ 31) (2 ^ 64) (2 ^ 32)) by (by exists (2 ^ 32)).
    rewrite Z.add_mod_idemp_l by lia. by rewrite Z.mod_mod_divide by (by exists (2 ^ 32)). }
  rewrite Eh, El, Z.shiftr_div_pow2 by lia. pose proof (s32_range p) as Hs.
  assert (Hh : - 2 ^ 31 <= p / 2 ^ 32 < 2 ^ 31)
    by (split; [apply Z.div_le_lower_bound; lia | apply Z.div_lt_upper_bound; lia]).
  assert (Hq : - 2 ^ 31 <= s32 p / 2 ^ 31 < 2 ^ 31)
    by (split; [apply Z.div_le_lower_bound; lia | apply Z.div_lt_upper_bound; lia]).
  rewrite u32_differ by done. f_equal. rewrite <- (fits_cast 32) by lia. change (32 - 1) with 31.
  fold (s32 p). pose proof (Z.div_mod p (2 ^ 32) ltac:(lia)). pose proof (Z.mod_pos_bound p (2 ^ 32) ltac:(lia)).
  pose proof (Z.div_mod (s32 p) (2 ^ 31) ltac:(lia)). pose proof (Z.mod_pos_bound (s32 p) (2 ^ 31) ltac:(lia)).
  assert (exists k, s32 p = p + k * 2 ^ 32) as [k Hk].
  { unfold s32. pose proof (Z.div_mod (p + 2 ^ 31) (2 ^ 32) ltac:(lia)).
    exists (- ((p + 2 ^ 31) / 2 ^ 32)). lia. }
  destruct (Z.eqb_spec (p / 2 ^ 32) (s32 p / 2 ^ 31)), (Z.eqb_spec p (s32 p)); done || lia.
Qed.

Lemma signed_product w x y : 0 < w -> 0 <= x < 2 ^ w -> 0 <= y < 2 ^ w ->
  - 2 ^ (2 * w - 2) <= sgn w x * sgn w y <= 2 ^ (2 * w - 2).
Proof.
  intros Hw Hx Hy. pose proof (sgn_bound w x Hw Hx). pose proof (sgn_bound w y Hw Hy).
  replace (2 * w - 2) with ((w - 1) + (w - 1)) by lia. rewrite Z.pow_add_r by lia. nia.
Qed.

Lemma s8_u32 x : s8 (u32 x) = s8 x.
Proof.
  unfold s8, u32. f_equal. rewrite <- (Z.mod_mod_divide (x mod 2 ^ 32 + 2 ^ 7) (2 ^ 32) (2 ^ 8)) by (by exists (2 ^ 24)).
  rewrite Z.add_mod_idemp_l by lia. by rewrite Z.mod_mod_divide by (by exists (2 ^ 24)).
Qed.
Lemma s16_u32 x : s16 (u32 x) = s16 x.
Proof.
  unfold s16, u32. f_equal. rewrite <- (Z.mod_mod_divide (x mod 2 ^ 32 + 2 ^ 15) (2 ^ 32) (2 ^ 16)) by (by exists (2 ^ 16)).
  rewrite Z.add_mod_idemp_l by lia. by rewrite Z.mod_mod_divide by (by exists (2 ^ 16)).
Qed.

Lemma gen_imul_shape ot s T0 : 0 <= ot <= 2 ->
  let w := size ot in
  let v := sgn w (T0 mod 2 ^ w) * sgn w (EAX s mod 2 ^ w) in
  exists p c d, gen_imul s ot T0 = (produced ot s p) <| cc := mkCC (CC_OP_MULB + ot) c d |> /\
    p mod 2 ^ (2 * w) = v mod 2 ^ (2 * w) /\ nz c = negb (signed_fits w v).
Proof.
  intros Hot w v. assert (Hv : - 2 ^ (2 * w - 2) <= v <= 2 ^ (2 * w - 2)).
  { destruct (width_bounds w (size_width ot Hot)). apply signed_product; [lia | by apply Z.mod_pos_bound..]. }
  revert w v Hv. pattern ot. apply size_cases; [done|..]; intros w v Hv; unfold gen_imul.
  - change (gen_op_mov_v_reg s 0 R_EAX) with (EAX s). rewrite u32_product.
    assert (E : s8 T0 * s8 (EAX s) = v) by (exact (f_equal2 Z.mul (sgn_mod 8 T0 eq_refl) (sgn_mod 8 _ eq_refl))).
    rewrite E, s8_u32. do 3 eexists. split; [done|]. split; [by apply (mod_width 16); [right; left | apply u32_mod]|].
    change (2 * w - 2) with 14 in Hv. pose proof (Z.mod_pos_bound (v + 2 ^ 7) (2 ^ 8) ltac:(lia)).
    rewrite u32_differ by (unfold s8; lia). f_equal. by apply (fits_cast 8).
  - change (gen_op_mov_v_reg s 1 R_EAX) with (EAX s). rewrite u32_product.
    assert (E : s16 T0 * s16 (EAX s) = v) by (exact (f_equal2 Z.mul (sgn_mod 16 T0 eq_refl) (sgn_mod 16 _ eq_refl))).
    rewrite E, s16_u32. do 3 eexists. split; [done|]. split; [apply u32_mod|].
    change (2 * w - 2) with 30 in Hv. pose proof (Z.mod_pos_bound (v + 2 ^ 15) (2 ^ 16) ltac:(lia)).
    rewrite u32_differ by (unfold s16; lia). f_equal. by apply (fits_cast 16).
  - change (gen_op_mov_v_reg s 2 R_EAX) with (EAX s). rewrite u64_product.
    assert (E : s32 T0 * s32 (EAX s) = v) by (exact (f_equal2 Z.mul (sgn_mod 32 T0 eq_refl) (sgn_mod 32 _ eq_refl))).
    rewrite E. exists (u64 v). do 2 eexists. split; [done|]. split; [by apply Z.mod_mod|].
    by apply sign_spread.
Qed.

(** [imul] multiplies signed numbers.  For every operand size the
    double-width pattern left where [idiv] expects its dividend is that of the
    product of the operands read as two's complement numbers, the rest of the
    registers is unchanged, and carry and overflow say whether the product is
    no signed number of the operand size. *)
Theorem imul_correct s ot T0 :
  x86_ok s -> 0 <= ot <= 2 ->
  let w := size ot in
  let v := sgn w (T0 mod 2 ^ w) * sgn w (EAX s mod 2 ^ w) in
  let s' := gen_imul s ot T0 in
  sgn (2 * w) (dividend ot s') = v /\ above ot s' = above ot s /\ x86_ok s' /\
  Z.testbit (flags (cc s')) 0 = negb (signed_fits w v) /\ Z.testbit (flags (cc s')) 11 = negb (signed_fits w v).
Proof.
  intros Hs Hot w v s'. destruct (width_bounds w (size_width ot Hot)) as [Hb Hp].
  destruct (gen_imul_shape ot s T0 Hot) as (p & c & d & E & Em & Ec). fold w v in E, Em, Ec.
  unfold s'. rewrite E. clear s' E. destruct (produced_ok ot s p Hot Hs) as (E1 & E2 & E3). fold w in E1.
  destruct (with_cc ot (produced ot s p) (mkCC (CC_OP_MULB + ot) c d)) as (-> & -> & H).
  rewrite E1, E2, Em. destruct (mul_op_flags ot c d Hot) as [F0 F11].
  split_and!; [|done|by apply H | exact (eq_trans F0 Ec) | exact (eq_trans F11 Ec)].
  pose proof (signed_product w (T0 mod 2 ^ w) (EAX s mod 2 ^ w) ltac:(lia) (Z.mod_pos_bound _ _ Hp)
    (Z.mod_pos_bound _ _ Hp)) as Hv. fold v in Hv.
  pose proof (Z.pow_lt_mono_r 2 (2 * w - 2) (2 * w - 1) ltac:(lia) ltac:(lia) ltac:(lia)).
  assert (2 ^ (2 * w) = 2 * 2 ^ (2 * w - 1)) by (rewrite <- Z.pow_succ_r by lia; f_equal; lia).
  rewrite <- sgn_mod, Z.mod_small by lia. lia.
Qed.

(** Dividing the product by one factor gives the other.  After [mul] with a
    nonzero operand, [div] by the same operand raises no exception: the
    accumulator is as before, the remainder zero. *)
Theorem mul_div_roundtrip s ot T0 :
  x86_ok s -> 0 <= ot <= 2 -> T0 mod 2 ^ size ot <> 0 ->
  exists s', gen_div (gen_mul s ot T0) ot T0 = Done s' /\ results ot s' = (EAX s mod 2 ^ size ot, 0).
Proof.
  intros Hs Hot Hd. set (w := size ot) in *. destruct (width_bounds w (size_width ot Hot)) as [Hb Hp].
  destruct (gen_mul_shape ot s T0 Hot) as (c & d & E & _). fold w in E.
  pose proof (Z.mod_pos_bound T0 _ Hp) as H0. pose proof (Z.mod_pos_bound (EAX s) _ Hp) as Ha.
  set (x := T0 mod 2 ^ w) in *. set (a := EAX s mod 2 ^ w) in *.
  destruct (produced_ok ot s (x * a) Hot Hs) as (E1 & _ & E3). fold w in E1.
  destruct (with_cc ot (produced ot s (x * a)) (mkCC (CC_OP_MULB + ot) c d)) as (Ed & _ & Hk).
  rewrite E, gen_div_shape by (done || by apply Hk). cbv zeta. fold w x. rewrite Ed, E1.
  pose proof (product_range w x a ltac:(lia) H0 Ha).
  assert (Ep : x * a / x = a /\ (x * a) mod x = 0) by (rewrite Z.mul_comm, Z.div_mul, Z.mod_mul by lia; done).
  rewrite (Z.mod_small (x * a)), (proj1 Ep), (proj2 Ep) by lia.
  destruct (Z.eqb_spec x 0); [done|]. destruct (Z.ltb_spec (2 ^ w - 1) a); [lia|].
  eexists. split; [done|]. rewrite (Z.mod_small a), (Z.mod_small 0) by lia.
  apply divided_ok; [done | by apply Hk | done | unfold range; fold w; lia].
Qed.

(** ** Rotation through the carry *)

(** The carry above the operand, as [w + 1] bits. *)
Definition through_carry (w : Z) (env : CC) (x i : Z) : bool :=
  if i =? w then Z.testbit (flags env) 0 else Z.testbit x i.

(** The tables reduce the count. *)
Definition rot_count (w t1 : Z) : Z := Z.land t1 0x1f mod (w + 1).

Lemma table_mod (tbl : list Z) m c :
  forallb (fun c => aget 0 tbl c =? c mod m) (seqZ 0 32) = true -> 0 <= c < 32 -> aget 0 tbl c = c mod m.
Proof.
  intros A Hc. rewrite forallb_forall in A. apply Z.eqb_eq, A. apply list_elem_of_In, elem_of_seqZ. lia.
Qed.

Lemma count_ok w t1 : width w ->
  (if w =? 16 then aget 0 rclw_table (Z.land t1 0x1f)
   else if w =? 8 then aget 0 rclb_table (Z.land t1 0x1f) else Z.land t1 0x1f) = rot_count w t1.
Proof.
  intros Hw. assert (0 <= Z.land t1 0x1f < 32)
    by (change 0x1f with (2 ^ 5 - 1); rewrite low_mask by lia; by apply Z.mod_pos_bound).
  unfold rot_count. destruct Hw as [->|[->| ->]]; cbn [Z.eqb Pos.eqb].
  - by apply table_mod.
  - by apply table_mod.
  - by rewrite Z.mod_small by lia.
Qed.

Lemma bit_times (b : bool) k i : 0 <= k -> Z.testbit (BIT k * b2z b) i = b && (k =? i).
Proof.
  intros Hk. destruct b; cbn [b2z andb]; [by rewrite Z.mul_1_r, BIT_testbit | by rewrite Z.mul_0_r, Z.bits_0].
Qed.

(** The flags both rotations compute. *)
Section Flags.
Context (w : Z) (Hw : width w) (f : Z) (Hf : range 12 f) (x y : Z).

Definition rot_flags : Z :=
  u32 (Z.lor (Z.lor (Z.land f (Z.lnot (Z.lor CC_C CC_O))) (Z.land (lshift (s32 x) (11 - (w - 1))) CC_O))
         (Z.land y CC_C)).

Lemma rot_flags_bit k : 0 <= k ->
  Z.testbit rot_flags k =
    if k =? 0 then Z.testbit y 0 else if k =? 11 then Z.testbit x (w - 1) else Z.testbit f k.
Proof.
  intros Hk. unfold rot_flags, u32. rewrite testbit_mod_pow2 by lia. rewrite !Z.lor_spec, Z.land_spec.
  rewrite (Z.lnot_spec _ k), Z.lor_spec by done.
  replace (11 - (w - 1)) with (12 - w) by lia. rewrite flag_o_ok by done.
  change CC_C with (BIT 0). change CC_O with (BIT 11). change 2048 with (BIT 11).
  rewrite bit_times, Z.land_spec, !BIT_testbit by lia.
  destruct (Z.ltb_spec k 32); cbn [andb].
  - destruct (Z.eqb_spec 0 k) as [<-|]; [cbn [Z.eqb Pos.eqb orb negb]; btauto|].
    destruct (Z.eqb_spec 11 k) as [<-|]; [cbn [Z.eqb Pos.eqb orb negb]; btauto|].
    destruct (Z.eqb_spec k 0), (Z.eqb_spec k 11); try lia. cbn [orb negb]. btauto.
  - destruct (Z.eqb_spec k 0), (Z.eqb_spec k 11); try lia. symmetry. by apply (testbit_high f 12); [|lia|lia].
Qed.

Lemma rot_flags_valid : (rot_flags =? u32 (-1)) = false.
Proof.
  apply Z.eqb_neq. intros E. pose proof (rot_flags_bit 20 ltac:(lia)) as B. rewrite E in B.
  change (Z.testbit (u32 (-1)) 20) with true in B. cbn in B.
  rewrite (testbit_high f 12) in B by (done || lia). done.
Qed.

Lemma rot_flags_range : range 12 rot_flags.
Proof.
  apply testbit_range; [lia | apply u32_range|]. intros i Hi. rewrite rot_flags_bit by lia.
  destruct (Z.eqb_spec i 0), (Z.eqb_spec i 11); try lia. by apply (testbit_high f 12); [|lia|].
Qed.

End Flags.

Lemma wrapped j m : 0 < m -> - m <= j < m -> j mod m = if j <? 0 then j + m else j.
Proof.
  intros Hm Hj. destruct (Z.ltb_spec j 0); [|apply Z.mod_small; lia].
  symmetry. apply (Z.mod_unique _ _ (-1)); lia.
Qed.
Lemma wrapped_up j m : 0 < m -> 0 <= j < 2 * m -> j mod m = if j <? m then j else j - m.
Proof.
  intros Hm Hj. destruct (Z.ltb_spec j m); [apply Z.mod_small; lia|].
  symmetry. apply (Z.mod_unique _ _ 1); lia.
Qed.

Lemma u32_shiftl_bit x n i : 0 <= i < 32 -> 0 <= n -> Z.testbit (u32 (Z.shiftl x n)) i = Z.testbit x (i - n).
Proof. intros Hi Hn. unfold u32. rewrite Z.mod_pow2_bits_low, Z.shiftl_spec by lia. done. Qed.

Section Rotated.
Context (w : Z) (Hw : width w) (env : CC) (t0 t1 : Z) (Hn : rot_count w t1 <> 0).

Lemma rot_count_range : 0 < rot_count w t1 <= w.
Proof.
  destruct (width_bounds w Hw). pose proof (Z.mod_pos_bound (Z.land t1 0x1f) (w + 1) ltac:(lia)).
  unfold rot_count in *. lia.
Qed.

(** The bits of the masked operand and of the carry. *)
Lemma masked_bit i : Z.testbit (Z.land t0 (DATA_MASK w)) i = (i <? w) && Z.testbit t0 i.
Proof. destruct (width_bounds w Hw). rewrite masked_dst, testbit_mod_pow2 by lia. done. Qed.
Lemma carry_bit i : Z.testbit (Z.land (flags env) CC_C) i = Z.testbit (flags env) 0 && (0 =? i).
Proof. change CC_C with 1. rewrite land_one, <- (bit_times _ 0) by lia. change (BIT 0) with 1. by rewrite Z.mul_1_l. Qed.

Lemma rcl_shape : exists r,
  helper_rcl w env t0 t1 =
    (r, rot_flags w (flags env) (Z.lxor (Z.land t0 (DATA_MASK w)) r)
          (Z.shiftr (Z.land t0 (DATA_MASK w)) (w - rot_count w t1))) /\
  forall i, 0 <= i < w -> Z.testbit r i = through_carry w env t0 ((i - rot_count w t1) mod (w + 1)).
Proof.
  pose proof rot_count_range as Hr. destruct (width_bounds w Hw) as [Hb _].
  unfold helper_rcl. rewrite count_ok by done. set (n := rot_count w t1) in *. fold (flags env).
  replace (nz n) with true by (unfold nz; by destruct (Z.eqb_spec n 0)).
  eexists. split; [reflexivity|]. intros i Hi. rewrite wrapped by lia. unfold through_carry.
  assert (E : Z.testbit (Z.shiftr (Z.land t0 (DATA_MASK w)) (w + 1 - n)) i = (i <? n - 1) && Z.testbit t0 (i - n + (w + 1))).
  { rewrite Z.shiftr_spec, masked_bit by lia. f_equal; [|f_equal; lia].
    destruct (Z.ltb_spec (i + (w + 1 - n)) w), (Z.ltb_spec i (n - 1)); done || lia. }
  assert (Eo : forall x, Z.testbit (if 1 <? n then Z.lor x (Z.shiftr (Z.land t0 (DATA_MASK w)) (w + 1 - n)) else x) i =
    Z.testbit x i || ((i <? n - 1) && Z.testbit t0 (i - n + (w + 1)))).
  { intros x. destruct (Z.ltb_spec 1 n); [by rewrite Z.lor_spec, E|].
    destruct (Z.ltb_spec i (n - 1)); [lia | by rewrite orb_false_r]. }
  rewrite Eo, Z.lor_spec, !u32_shiftl_bit, masked_bit, carry_bit by lia.
  destruct (Z.ltb_spec (i - n) 0).
  - rewrite (Z.testbit_neg_r t0 (i - n)) by lia. rewrite andb_false_r.
    destruct (Z.eqb_spec 0 (i - (n - 1))), (Z.eqb_spec (i - n + (w + 1)) w), (Z.ltb_spec i (n - 1)); try lia; cbn; btauto.
  - destruct (Z.eqb_spec 0 (i - (n - 1))), (Z.eqb_spec (i - n) w), (Z.ltb_spec i (n - 1)), (Z.ltb_spec (i - n) w);
      try lia; cbn; btauto.
Qed.

Lemma rcr_shape : exists r,
  helper_rcr w env t0 t1 =
    (r, rot_flags w (flags env) (Z.lxor (Z.land t0 (DATA_MASK w)) r)
          (Z.shiftr (Z.land t0 (DATA_MASK w)) (rot_count w t1 - 1))) /\
  forall i, 0 <= i < w -> Z.testbit r i = through_carry w env t0 ((i + rot_count w t1) mod (w + 1)).
Proof.
  pose proof rot_count_range as Hr. destruct (width_bounds w Hw) as [Hb _].
  unfold helper_rcr. rewrite count_ok by done. set (n := rot_count w t1) in *. fold (flags env).
  replace (nz n) with true by (unfold nz; by destruct (Z.eqb_spec n 0)).
  eexists. split; [reflexivity|]. intros i Hi. rewrite wrapped_up by lia. unfold through_carry.
  assert (E : Z.testbit (u32 (Z.shiftl (Z.land t0 (DATA_MASK w)) (w + 1 - n))) i = Z.testbit t0 (i + n - (w + 1))).
  { rewrite u32_shiftl_bit, masked_bit by lia. replace (i - (w + 1 - n)) with (i + n - (w + 1)) by lia.
    destruct (Z.ltb_spec (i + n - (w + 1)) w); [done | lia]. }
  assert (Eo : forall x, Z.testbit (if 1 <? n then Z.lor x (u32 (Z.shiftl (Z.land t0 (DATA_MASK w)) (w + 1 - n))) else x) i =
    Z.testbit x i || Z.testbit t0 (i + n - (w + 1))).
  { intros x. destruct (Z.ltb_spec 1 n); [by rewrite Z.lor_spec, E|].
    rewrite (Z.testbit_neg_r t0) by lia. by rewrite orb_false_r. }
  rewrite Eo, Z.lor_spec, u32_shiftl_bit, Z.shiftr_spec, masked_bit, carry_bit by lia.
  destruct (Z.ltb_spec (i + n) (w + 1)).
  - rewrite (Z.testbit_neg_r t0 (i + n - (w + 1))) by lia.
    destruct (Z.eqb_spec 0 (i - (w - n))), (Z.eqb_spec (i + n) w), (Z.ltb_spec (i + n) w); try lia; cbn; btauto.
  - destruct (Z.eqb_spec 0 (i - (w - n))), (Z.eqb_spec (i + n - (w + 1)) w), (Z.ltb_spec (i + n) w); try lia; cbn; btauto.
Qed.

End Rotated.

(** What a rotation does, [pos i] being the place bit [i] comes from. *)
Definition rotates (w : Z) (env : CC) (t0 : Z) (env' : CC) (r : Z) (pos : Z -> Z) : Prop :=
  (forall i, 0 <= i <= w -> through_carry w env' r i = through_carry w env t0 (pos i)) /\
  (forall k, 0 <= k -> k <> 0 -> k <> 11 -> Z.testbit (flags env') k = Z.testbit (flags env) k) /\
  range 12 (flags env').

Lemma rotates_by_flags w env t0 r y junk pos : width w -> range 12 (flags env) ->
  (forall i, 0 <= i < w -> Z.testbit r i = through_carry w env t0 (pos i)) ->
  Z.testbit y 0 = through_carry w env t0 (pos w) ->
  let tmp := rot_flags w (flags env) (Z.lxor (Z.land t0 (DATA_MASK w)) r) y in
  let env' := if tmp =? u32 (-1) then env else mkCC CC_OP_EFLAGS tmp junk in
  rotates w env t0 env' r pos /\
  Z.testbit (flags env') 11 = xorb (Z.testbit t0 (w - 1)) (Z.testbit r (w - 1)).
Proof.
  intros Hw Hf Hr Hy tmp env'. unfold env', tmp. rewrite rot_flags_valid by done.
  set (t := rot_flags _ _ _ _). assert (Ef : flags (mkCC CC_OP_EFLAGS t junk) = t) by done.
  pose proof (rot_flags_bit w Hw (flags env) Hf (Z.lxor (Z.land t0 (DATA_MASK w)) r) y) as B. fold t in B.
  unfold rotates. rewrite Ef. split; [split; [|split]|].
  - intros i Hi. unfold through_carry at 1. rewrite Ef. destruct (Z.eqb_spec i w) as [->|]; [|apply Hr; lia].
    by rewrite B.
  - intros k Hk H0 H11. rewrite B by done. by destruct (Z.eqb_spec k 0), (Z.eqb_spec k 11).
  - by apply rot_flags_range.
  - destruct (width_bounds w Hw). rewrite B by done. cbn [Z.eqb Pos.eqb].
    rewrite Z.lxor_spec, masked_bit by done. by destruct (Z.ltb_spec (w - 1) w); [|lia].
Qed.

Lemma rotc_unfold junk env ot T0 T1 (is_right : bool) : 0 <= ot <= 2 ->
  gen_rotc_rm_T1 junk env ot T0 T1 is_right =
    let '(r, tmp) := if is_right then helper_rcr (size ot) env T0 T1 else helper_rcl (size ot) env T0 T1 in
    (r, if tmp =? u32 (-1) then env else mkCC CC_OP_EFLAGS tmp junk).
Proof. intros Hot. pattern ot. by apply size_cases. Qed.

Lemma rotate_zero w env t0 t1 : width w -> rot_count w t1 = 0 ->
  helper_rcl w env t0 t1 = (t0, u32 (-1)) /\ helper_rcr w env t0 t1 = (t0, u32 (-1)).
Proof. intros Hw E. unfold helper_rcl, helper_rcr. by rewrite count_ok, E. Qed.

Lemma rotation junk env ot T0 T1 is_right :
  0 <= ot <= 2 -> range 12 (flags env) ->
  let w := size ot in
  let n := rot_count w T1 in
  let '(T0', env') := gen_rotc_rm_T1 junk env ot T0 T1 is_right in
  rotates w env T0 env' T0' (fun i => (if is_right then i + n else i - n) mod (w + 1)) /\
  (n <> 0 -> Z.testbit (flags env') 11 = xorb (Z.testbit T0 (w - 1)) (Z.testbit T0' (w - 1))).
Proof.
  intros Hot Hf w n. pose proof (size_width ot Hot) as Hw. destruct (width_bounds _ Hw) as [Hb _].
  rewrite rotc_unfold by done. fold w in Hw, Hb |- *. destruct (Z.eq_dec n 0) as [E|Hn].
  - destruct (rotate_zero w env T0 T1 Hw E) as [El Er]. rewrite El, Er, E.
    destruct is_right; cbv iota; rewrite Z.eqb_refl; (split; [|done]); (split; [|done]); intros i Hi;
      rewrite Z.mod_small by lia; f_equal; lia.
  - pose proof (rot_count_range w Hw T1 Hn) as Hr. fold n in Hr. destruct is_right.
    + destruct (rcr_shape w Hw env T0 T1 Hn) as (r & -> & Br). fold n in Br |- *.
      enough (Z.testbit (Z.shiftr (Z.land T0 (DATA_MASK w)) (n - 1)) 0 = through_carry w env T0 ((w + n) mod (w + 1)))
        as C by (by destruct (rotates_by_flags w env T0 r _ junk (fun i => (i + n) mod (w + 1)) Hw Hf Br C)).
      rewrite shifted_bit, masked_bit, wrapped_up by (done || lia). unfold through_carry.
      destruct (Z.ltb_spec (n - 1) w), (Z.ltb_spec (w + n) (w + 1)); try lia.
      replace (w + n - (w + 1)) with (n - 1) by lia. by destruct (Z.eqb_spec (n - 1) w); [lia|].
    + destruct (rcl_shape w Hw env T0 T1 Hn) as (r & -> & Br). fold n in Br |- *.
      enough (Z.testbit (Z.shiftr (Z.land T0 (DATA_MASK w)) (w - n)) 0 = through_carry w env T0 ((w - n) mod (w + 1)))
        as C by (by destruct (rotates_by_flags w env T0 r _ junk (fun i => (i - n) mod (w + 1)) Hw Hf Br C)).
      rewrite shifted_bit, masked_bit, wrapped by (done || lia). unfold through_carry.
      destruct (Z.ltb_spec (w - n) w), (Z.ltb_spec (w - n) 0); try lia. by destruct (Z.eqb_spec (w - n) w); [lia|].
Qed.

(** [rcl] and [rcr] rotate the operand and the carry together.  For every
    operand size, direction and count, each of the [w + 1] bits made of the
    operand and the carry above it goes to the place the count says, modulo
    [w + 1] (which the code looks up in tables); the other flags are kept,
    except that overflow says whether the sign changed when the count is not
    a multiple of [w + 1]. *)
Theorem rotate_through_carry junk env ot T0 T1 is_right :
  0 <= ot <= 2 -> range 12 (flags env) ->
  let w := size ot in
  let n := rot_count w T1 in
  let '(T0', env') := gen_rotc_rm_T1 junk env ot T0 T1 is_right in
  rotates w env T0 env' T0' (fun i => (if is_right then i + n else i - n) mod (w + 1)) /\
  (n <> 0 -> Z.testbit (flags env') 11 = xorb (Z.testbit T0 (w - 1)) (Z.testbit T0' (w - 1))).
Proof. apply rotation. Qed.

(** Rotating back restores operand and carry.  For every operand size, count
    and direction, a rotation through the carry followed by the opposite one
    with the same count gives back the operand at its size and the carry. *)
Theorem rotate_back junk env ot T0 T1 is_right :
  0 <= ot <= 2 -> range 12 (flags env) ->
  let w := size ot in
  let '(T0', env') := gen_rotc_rm_T1 junk env ot T0 T1 is_right in
  let '(T0'', env'') := gen_rotc_rm_T1 junk env' ot T0' T1 (negb is_right) in
  T0'' mod 2 ^ w = T0 mod 2 ^ w /\ Z.testbit (flags env'') 0 = Z.testbit (flags env) 0.
Proof.
  intros Hot Hf w. destruct (width_bounds w (size_width ot Hot)) as [Hb _].
  pose proof (rotation junk env ot T0 T1 is_right Hot Hf) as H1. cbv zeta in H1. fold w in H1.
  destruct (gen_rotc_rm_T1 junk env ot T0 T1 is_right) as [T0' env']. destruct H1 as [(R1 & _ & F1) _].
  pose proof (rotation junk env' ot T0' T1 (negb is_right) Hot F1) as H2. cbv zeta in H2. fold w in H2.
  destruct (gen_rotc_rm_T1 junk env' ot T0' T1 (negb is_right)) as [T0'' env'']. destruct H2 as [(R2 & _ & _) _].
  set (n := rot_count w T1) in *.
  assert (R : forall i, 0 <= i <= w -> through_carry w env'' T0'' i = through_carry w env T0 i).
  { intros i Hi. pose proof (Z.mod_pos_bound (if negb is_right then i + n else i - n) (w + 1) ltac:(lia)).
    rewrite R2, R1 by lia. f_equal.
    destruct is_right; cbn [negb]; [rewrite Z.add_mod_idemp_l by lia | rewrite Zminus_mod_idemp_l];
      rewrite Z.mod_small by lia; lia. }
  split.
  - apply Z.bits_inj'. intros i Hi. rewrite !testbit_mod_pow2 by lia. destruct (Z.ltb_spec i w); [|done].
    specialize (R i ltac:(lia)). unfold through_carry in R. by destruct (Z.eqb_spec i w); [lia|].
  - specialize (R w ltac:(lia)). unfold through_carry in R. by rewrite Z.eqb_refl in R.
Qed.

(** ** Decimal adjust *)

(** The adjustments on the byte and the two flags they look at. *)
Definition daa8 (al : Z) (cf af : bool) : Z * Z :=
  let '(al, f) := if (9 <? Z.land al 0x0f) || af then (Z.land (al + 6) 0xff, CC_A) else (al, 0) in
  let '(al, f) := if (0x9f <? al) || cf then (Z.land (al + 0x60) 0xff, Z.lor f CC_C) else (al, f) in
  (al, hand_flags f al).
Definition das8 (al : Z) (cf af : bool) : Z * Z :=
  let al1 := al in
  let '(al, f) :=
    if (9 <? Z.land al 0x0f) || af then
      (Z.land (al - 6) 0xff, if (al <? 6) || cf then Z.lor CC_A CC_C else CC_A)
    else (al, 0) in
  let '(al, f) := if (0x99 <? al1) || cf then (Z.land (al - 0x60) 0xff, Z.lor f CC_C) else (al, f) in
  (al, hand_flags f al).

(** The adjustments of the processor manual: the high digit is looked at before
    the low one is adjusted. *)
Definition daa_manual (al : Z) (cf af : bool) : Z * Z :=
  let low := (9 <? al mod 16) || af in
  let high := (0x99 <? al) || cf in
  let r := (al + (if low then 6 else 0) + (if high then 0x60 else 0)) mod 256 in
  (r, eflags high (parity r) low (r =? 0) (0x80 <=? r) false).
Definition das_manual (al : Z) (cf af : bool) : Z * Z :=
  let low := (9 <? al mod 16) || af in
  let high := (0x99 <? al) || cf in
  let r := (al - (if low then 6 else 0) - (if high then 0x60 else 0)) mod 256 in
  (r, eflags (high || (low && (al <? 6))) (parity r) low (r =? 0) (0x80 <=? r) false).

Definition eqp (p q : Z * Z) : bool := (p.1 =? q.1) && (p.2 =? q.2).
Lemma eqp_eq p q : eqp p q = true -> p = q.
Proof. destruct p, q. unfold eqp. cbn. intros [H1%Z.eqb_eq H2%Z.eqb_eq]%andb_prop. congruence. Qed.

Lemma forall_bytes (P : Z -> bool) : forallb P (seqZ 0 256) = true -> forall al, 0 <= al < 256 -> P al = true.
Proof. intros A al H. rewrite forallb_forall in A. apply A. apply list_elem_of_In, elem_of_seqZ. lia. Qed.

Definition daa_differs (al : Z) (cf : bool) : bool := (0xfa <=? al) && negb cf.

Lemma daa8_manual al cf af : 0 <= al < 256 ->
  eqp (daa8 al cf af) (daa_manual al cf af) = negb (daa_differs al cf).
Proof.
  intros H. apply Bool.eqb_prop.
  refine (forall_bytes (fun al => Bool.eqb (eqp (daa8 al cf af) (daa_manual al cf af)) (negb (daa_differs al cf))) _ al H).
  destruct cf, af; vm_compute; reflexivity.
Qed.
Lemma das8_manual al cf af : 0 <= al < 256 -> das8 al cf af = das_manual al cf af.
Proof.
  intros H. apply eqp_eq. refine (forall_bytes (fun al => eqp (das8 al cf af) (das_manual al cf af)) _ al H).
  destruct cf, af; vm_compute; reflexivity.
Qed.

Lemma hand_flags_range f al : 0 <= al < 256 -> range 8 f -> range 8 (hand_flags f al).
Proof.
  intros Ha Hf. unfold hand_flags. rewrite parity_table_ok by done.
  repeat apply lor_range; try done; [destruct (al =? 0) | destruct (parity al)| apply land_range]; done.
Qed.
Lemma land_ff_range x : 0 <= Z.land x 0xff < 256.
Proof. rewrite land_ff. by apply Z.mod_pos_bound. Qed.
Lemma daa8_range al cf af : 0 <= al < 256 -> range 8 (daa8 al cf af).1 /\ range 8 (daa8 al cf af).2.
Proof.
  intros Ha. unfold daa8. pose proof land_ff_range as L.
  destruct (_ || af), (_ || cf); cbn [fst snd]; (split; [by try apply L | apply hand_flags_range; by try apply L]).
Qed.
Lemma das8_range al cf af : 0 <= al < 256 -> range 8 (das8 al cf af).1 /\ range 8 (das8 al cf af).2.
Proof.
  intros Ha. unfold das8. pose proof land_ff_range as L.
  destruct (_ || af), (al <? 6), cf, (0x99 <? al); cbn [orb fst snd];
    (split; [by try apply L | apply hand_flags_range; by try apply L]).
Qed.

Lemma flag_tests f : nz (Z.land f CC_C) = Z.testbit f 0 /\ nz (Z.land f CC_A) = Z.testbit f 4.
Proof. split; [by apply (land_BIT_nz f 0) | by apply (land_BIT_nz f 4)]. Qed.

(** The state after a decimal instruction that leaves [al] and flags [f]. *)
Definition adjusted (s : CPUX86) (p : Z * Z) (s' : CPUX86) : Prop :=
  EAX s' = EAX s / 2 ^ 8 * 2 ^ 8 + p.1 /\ flags (cc s') = p.2 /\ x86_ok s'.

Lemma al_written s al f : x86_ok s -> range 8 al -> range 8 f ->
  adjusted s (al, f) (CC_OP_W (CC_SRC_W (EAX_W s (Z.lor (Z.land (EAX s) (Z.lnot 0xff)) al)) f) CC_OP_EFLAGS).
Proof.
  intros Hs Ha Hf. pose proof (reg_range s R_EAX Hs) as Hr. fold (EAX s) in Hr.
  change 0xff with (2 ^ 8 - 1). rewrite put_low by done. split; [|split].
  - etransitivity; [by apply EAX_EAX_W|]. apply u32_small. by apply put_low_range.
  - apply u32_small. by apply (range_weaken 8).
  - by apply EAX_W_ok.
Qed.

Lemma daa_adjusts s : x86_ok s -> exists s', disas_bcd s DAA = Done s' /\
  adjusted s (daa8 (EAX s mod 2 ^ 8) (Z.testbit (flags (cc s)) 0) (Z.testbit (flags (cc s)) 4)) s'.
Proof.
  intros Hs. eexists. split; [reflexivity|]. unfold helper_daa. fold (flags (cc s)).
  destruct (flag_tests (flags (cc s))) as [-> ->]. rewrite !(land_ff (EAX s)). change (2 ^ 8) with 256.
  set (al := EAX s mod 256). assert (Ha : 0 <= al < 256) by by apply Z.mod_pos_bound.
  set (cf := Z.testbit _ 0). set (af := Z.testbit _ 4).
  destruct (daa8_range al cf af Ha) as [R1 R2]. revert R1 R2. unfold daa8. fold al.
  destruct (_ || af), (_ || cf); cbn [fst snd]; intros; by apply al_written.
Qed.

Lemma das_adjusts s : x86_ok s -> exists s', disas_bcd s DAS = Done s' /\
  adjusted s (das8 (EAX s mod 2 ^ 8) (Z.testbit (flags (cc s)) 0) (Z.testbit (flags (cc s)) 4)) s'.
Proof.
  intros Hs. eexists. split; [reflexivity|]. unfold helper_das. fold (flags (cc s)).
  destruct (flag_tests (flags (cc s))) as [-> ->]. rewrite !(land_ff (EAX s)). change (2 ^ 8) with 256.
  set (al := EAX s mod 256). assert (Ha : 0 <= al < 256) by by apply Z.mod_pos_bound.
  set (cf := Z.testbit _ 0). set (af := Z.testbit _ 4).
  destruct (das8_range al cf af Ha) as [R1 R2]. revert R1 R2. unfold das8. fold al.
  destruct (_ || af), (al <? 6), cf, (0x99 <? al); cbn [orb fst snd]; intros; by apply al_written.
Qed.

(** Where decimal adjust follows the manual.  [das] leaves in [AL] and in the
    flags exactly what the processor manual gives, for every byte and flags;
    [daa] does for every byte up to 0xf9, and for the others when the carry
    was set. *)
Theorem decimal_adjust_manual s :
  x86_ok s ->
  let al := EAX s mod 2 ^ 8 in
  let cf := Z.testbit (flags (cc s)) 0 in
  let af := Z.testbit (flags (cc s)) 4 in
  (exists s', disas_bcd s DAS = Done s' /\ adjusted s (das_manual al cf af) s') /\
  (al <= 0xf9 \/ cf = true -> exists s', disas_bcd s DAA = Done s' /\ adjusted s (daa_manual al cf af) s').
Proof.
  intros Hs al cf af. assert (Ha : 0 <= al < 256) by by apply Z.mod_pos_bound. split.
  - rewrite <- das8_manual by done. by apply das_adjusts.
  - intros H. rewrite <- (eqp_eq (daa8 al cf af) (daa_manual al cf af)); [by apply daa_adjusts|]. rewrite daa8_manual by done.
    unfold daa_differs. destruct H as [H|H]; [|rewrite H; btauto].
    by destruct (Z.leb_spec 0xfa al); [lia|].
Qed.

(** *** Decimal arithmetic *)

(** A number below 100 as two decimal digits. *)
Definition bcd (n : Z) : Z := n / 10 * 16 + n mod 10.

(** An arithmetic instruction on [AL]. *)
Definition alu_AL (junk : Z) (s : CPUX86) (op : AluOp) (T1 : Z) : CPUX86 :=
  let '(T0, c) := gen_op junk (cc s) op 0 (gen_op_mov_v_reg s 0 R_EAX) T1 in
  (gen_op_mov_reg_v s 0 R_EAX T0) <| cc := c |>.

Lemma alu_AL_ok junk s op T1 : x86_ok s -> cc_ok (cc s) ->
  let s' := alu_AL junk s op T1 in
  let '(r, f) := alu_spec 8 op (EAX s mod 2 ^ 8) (T1 mod 2 ^ 8) (carry (cc s)) in
  EAX s' = EAX s / 2 ^ 8 * 2 ^ 8 + r /\ flags (cc s') = f /\ x86_ok s'.
Proof.
  intros Hs Hc. unfold alu_AL. change (gen_op_mov_v_reg s 0 R_EAX) with (EAX s).
  pose proof (alu_flags junk (cc s) op 0 (EAX s) T1 ltac:(lia) Hc) as H. cbv zeta in H. change (size 0) with 8 in H.
  destruct (gen_op junk (cc s) op 0 (EAX s) T1) as [T0 c]. rewrite <- H. cbv zeta.
  pose proof (reg_range s R_EAX Hs) as Hr. fold (EAX s) in Hr. pose proof (u8_range T0) as Ht.
  assert (E : gen_op_mov_reg_v s 0 R_EAX T0 =
    s <| regs := aset (regs s) R_EAX (EAX s / 2 ^ 8 * 2 ^ 8 + T0 mod 2 ^ 8) |>).
  { unfold gen_op_mov_reg_v. cbv zeta. change (R_EAX <? 4) with true. cbv iota. fold (EAX s).
    change 0xff with (2 ^ 8 - 1). by rewrite put_low. }
  rewrite E. split; [by apply (put_get s R_EAX R_EAX)|]. split; [done|].
  apply put_ok; [done | by apply put_low_range].
Qed.

(** *** Every pair of digits *)

Definition all_below (n : Z) (P : Z -> bool) : bool := forallb P (seqZ 0 n).
Lemma all_below_ok n P k : all_below n P = true -> 0 <= k < n -> P k = true.
Proof. intros A H. unfold all_below in A. rewrite forallb_forall in A. apply A, list_elem_of_In, elem_of_seqZ. lia. Qed.

(** The arithmetic instructions before an adjustment, and their carry in. *)
Definition sum_of (op : AluOp) : option (bool * bool) :=
  match op with
  | OP_ADDL => Some (true, false) | OP_ADCL => Some (true, true)
  | OP_SUBL => Some (false, false) | OP_SBBL => Some (false, true)
  | _ => None
  end.
Definition carry_in (with_carry : bool) (env : CC) : Z := if with_carry then carry env else 0.

(** The sum or difference of [a], [b] and [c] at base [m]: digits and carry. *)
Definition total (plus : bool) (m a b c : Z) : Z * bool :=
  if plus then ((a + b + c) mod m, m <=? a + b + c) else ((a - b - c) mod m, a <? b + c).

Lemma sum_spec op plus wc x y env : sum_of op = Some (plus, wc) ->
  alu_spec 8 op x y (carry env) =
    let c := carry_in wc env in
    if plus then ((x + y + c) mod 2 ^ 8, add_flags 8 x y c) else ((x - y - c) mod 2 ^ 8, sub_flags 8 x y c).
Proof. destruct op; intros [= <- <-]; cbn [alu_spec carry_in]; by rewrite ?Z.add_0_r, ?Z.sub_0_r. Qed.

Definition packed_check (plus : bool) (a b c : Z) : bool :=
  let x := bcd a in
  let y := bcd b in
  let '(r, f) := if plus then ((x + y + c) mod 2 ^ 8, add_flags 8 x y c) else ((x - y - c) mod 2 ^ 8, sub_flags 8 x y c) in
  let '(al, f') := if plus then daa8 r (Z.testbit f 0) (Z.testbit f 4) else das8 r (Z.testbit f 0) (Z.testbit f 4) in
  let '(n, c') := total plus 100 a b c in
  (al =? bcd n) && Bool.eqb (Z.testbit f' 0) c'.

(** The binary sums [daa] gets wrong. *)
Definition lost_sum (plus : bool) (x : Z) : bool := plus && (0xfa <=? x) && (x <=? 0xff).

Lemma packed_digits plus a b c : 0 <= a < 100 -> 0 <= b < 100 -> 0 <= c < 2 ->
  packed_check plus a b c = negb (lost_sum plus (bcd a + bcd b + c)).
Proof.
  intros Ha Hb Hc. apply Bool.eqb_prop.
  pose (P a b c := Bool.eqb (packed_check plus a b c) (negb (lost_sum plus (bcd a + bcd b + c)))).
  assert (A : all_below 100 (fun a => all_below 100 (fun b => all_below 2 (P a b))) = true)
    by (destruct plus; vm_compute; reflexivity).
  exact (all_below_ok _ _ _ (all_below_ok _ _ _ (all_below_ok _ _ _ A Ha) Hb) Hc).
Qed.

(** C33: decimal arithmetic on two digits.  With two decimal digits in [AL] and in
    the operand, [add] or [adc] followed by [daa], and [sub] or [sbb] followed
    by [das], leave the two digits of the sum or difference modulo 100 in [AL],
    the rest of [EAX] as it was, and the decimal carry or borrow in the carry
    flag; additions whose binary sum is 0xfa to 0xff, such as 61 + 99, are
    excepted, and subtractions are not. *)
Theorem decimal_arithmetic junk s op plus wc T1 a b :
  x86_ok s -> cc_ok (cc s) -> sum_of op = Some (plus, wc) ->
  0 <= a < 100 -> 0 <= b < 100 -> EAX s mod 2 ^ 8 = bcd a -> T1 mod 2 ^ 8 = bcd b ->
  lost_sum plus (bcd a + bcd b + carry_in wc (cc s)) = false ->
  let '(n, c') := total plus 100 a b (carry_in wc (cc s)) in
  exists s', disas_bcd (alu_AL junk s op T1) (if plus then DAA else DAS) = Done s' /\
    EAX s' = EAX s / 2 ^ 8 * 2 ^ 8 + bcd n /\ Z.testbit (flags (cc s')) 0 = c'.
Proof.
  intros Hs Hc Hop Ha Hb Ea Eb Hl. set (c := carry_in wc (cc s)) in *.
  assert (Hcr : 0 <= c < 2) by (unfold c, carry_in; pose proof (carry_range (cc s) Hc); destruct wc; lia).
  pose proof (packed_digits plus a b c Ha Hb Hcr) as K. rewrite Hl in K. unfold packed_check in K.
  pose proof (alu_AL_ok junk s op T1 Hs Hc) as H. cbv zeta in H. rewrite Ea, Eb in H.
  rewrite (sum_spec op plus wc _ _ _ Hop) in H. cbv zeta in H. fold c in H.
  set (s1 := alu_AL junk s op T1) in *. destruct (total plus 100 a b c) as [n c'].
  destruct plus; destruct H as (E1 & F1 & Ok1);
    [destruct (daa_adjusts s1 Ok1) as (s' & E' & A1 & A2 & _) | destruct (das_adjusts s1 Ok1) as (s' & E' & A1 & A2 & _)];
    exists s'; (split; [exact E'|]); rewrite E1, F1, low_part, high_part in A1 by (by apply Z.mod_pos_bound);
    rewrite E1, F1, low_part in A2 by (by apply Z.mod_pos_bound);
    [destruct (daa8 _ _ _) | destruct (das8 _ _ _)]; apply andb_prop in K as [K1%Z.eqb_eq K2%Bool.eqb_prop];
    cbn [fst snd] in *; by rewrite A1, A2, K1, K2.
Qed.

(** 61 + 99 in decimal: [daa] leaves 00 without carry instead of 60 with carry. *)
Lemma daa_loses_carry :
  exists s', disas_bcd (alu_AL 0 (mkCPUX86 [0x61; 0; 0; 0; 0; 0; 0; 0] (mkCC CC_OP_EFLAGS 0 0)) OP_ADDL 0x99) DAA = Done s' /\
    EAX s' = 0 /\ Z.testbit (flags (cc s')) 0 = false /\ total true 100 61 99 0 = (60, true).
Proof. eexists. split; [reflexivity|]. by vm_compute. Qed.

(** *** Unpacked digits *)

(** What [aaa] and [aas] do, by the test they share. *)
Definition ascii_adjusts (plus : bool) (s s' : CPUX86) : Prop :=
  let al := EAX s mod 2 ^ 8 in
  let ah := EAX s / 2 ^ 8 mod 2 ^ 8 in
  let adj := (9 <? al mod 16) || Z.testbit (flags (cc s)) 4 in
  let icarry := b2z (if plus then 0xf9 <? al else al <? 6) in
  let sign v := if plus then v else - v in
  let al' := (if adj then al + sign 6 else al) mod 16 in
  let ah' := (if adj then ah + sign (1 + icarry) else ah) mod 2 ^ 8 in
  EAX s' = EAX s / 2 ^ 16 * 2 ^ 16 + (ah' * 2 ^ 8 + al') /\ Z.testbit (flags (cc s')) 0 = adj /\ x86_ok s'.

Lemma ax_written s al ah f : x86_ok s -> range 8 al -> range 8 ah ->
  let s' := CC_OP_W (CC_SRC_W (EAX_W s (Z.lor (Z.lor (Z.land (EAX s) (Z.lnot 0xffff)) al) (Z.shiftl ah 8))) f) CC_OP_EFLAGS in
  EAX s' = EAX s / 2 ^ 16 * 2 ^ 16 + (ah * 2 ^ 8 + al) /\ flags (cc s') = u32 f /\ x86_ok s'.
Proof.
  intros Hs Hl Hh s'. pose proof (reg_range s R_EAX Hs) as Hr. fold (EAX s) in Hr.
  unfold s'. rewrite <- Z.lor_assoc, (Z.lor_comm al), Z.lor_assoc.
  destruct (two_bytes (EAX s) ah al Hh Hl) as [-> H16]. split; [|split; [done | by apply EAX_W_ok]].
  etransitivity; [by apply EAX_EAX_W|]. apply u32_small. by apply put_low_range.
Qed.

Lemma low_digit x : Z.land x 0x0f = x mod 16.
Proof. exact (low_mask x 4 ltac:(lia)). Qed.

Lemma high_byte_of s : Z.land (Z.shiftr (EAX s) 8) 0xff = EAX s / 2 ^ 8 mod 2 ^ 8.
Proof. rewrite land_ff, Z.shiftr_div_pow2 by lia. done. Qed.

(** Setting and clearing carry and adjust. *)
Lemma carry_set f : Z.testbit (u32 (Z.lor f (Z.lor CC_C CC_A))) 0 = true.
Proof. unfold u32. rewrite Z.mod_pow2_bits_low, Z.lor_spec by lia. apply orb_true_r. Qed.
Lemma carry_cleared f : Z.testbit (u32 (Z.land f (Z.lnot (Z.lor CC_C CC_A)))) 0 = false.
Proof. unfold u32. rewrite Z.mod_pow2_bits_low, Z.land_spec by lia. apply andb_false_r. Qed.

Lemma ascii_adjust s (plus : bool) : x86_ok s ->
  exists s', disas_bcd s (if plus then AAA else AAS) = Done s' /\ ascii_adjusts plus s s'.
Proof.
  intros Hs. assert (R8 : forall x, range 8 (x mod 2 ^ 8)) by (intros; by apply Z.mod_pos_bound).
  assert (R4 : forall x, range 8 (x mod 16)) by (intros x; pose proof (Z.mod_pos_bound x 16); unfold range; lia).
  destruct plus; eexists; (split; [reflexivity|]);
    unfold helper_aaa, helper_aas, ascii_adjusts; fold (flags (cc s)); rewrite (proj2 (flag_tests (flags (cc s)))),
      high_byte_of, !land_ff, !low_digit; change 256 with (2 ^ 8); cbv zeta;
    destruct ((9 <? (EAX s mod 2 ^ 8) mod 16) || _).
  - rewrite <- Z.add_assoc.
    destruct (ax_written s ((EAX s mod 2 ^ 8 + 6) mod 16)
      ((EAX s / 2 ^ 8 mod 2 ^ 8 + (1 + b2z (0xf9 <? EAX s mod 2 ^ 8))) mod 2 ^ 8) (Z.lor (flags (cc s)) (Z.lor CC_C CC_A))
      Hs (R4 _) (R8 _)) as (-> & -> & ?). by rewrite carry_set.
  - destruct (ax_written s ((EAX s mod 2 ^ 8) mod 16) (EAX s / 2 ^ 8 mod 2 ^ 8)
      (Z.land (flags (cc s)) (Z.lnot (Z.lor CC_C CC_A))) Hs (R4 _) (R8 _)) as (-> & -> & ?).
    by rewrite carry_cleared, (Z.mod_mod (_ / _)) by lia.
  - rewrite <- Z.sub_add_distr.
    destruct (ax_written s ((EAX s mod 2 ^ 8 - 6) mod 16)
      ((EAX s / 2 ^ 8 mod 2 ^ 8 - (1 + b2z (EAX s mod 2 ^ 8 <? 6))) mod 2 ^ 8) (Z.lor (flags (cc s)) (Z.lor CC_C CC_A))
      Hs (R4 _) (R8 _)) as (-> & -> & ?). by rewrite carry_set.
  - destruct (ax_written s ((EAX s mod 2 ^ 8) mod 16) (EAX s / 2 ^ 8 mod 2 ^ 8)
      (Z.land (flags (cc s)) (Z.lnot (Z.lor CC_C CC_A))) Hs (R4 _) (R8 _)) as (-> & -> & ?).
    by rewrite carry_cleared, (Z.mod_mod (_ / _)) by lia.
Qed.

Definition unpacked_check (plus : bool) (a b c : Z) : bool :=
  let '(r, f) := if plus then ((a + b + c) mod 2 ^ 8, add_flags 8 a b c) else ((a - b - c) mod 2 ^ 8, sub_flags 8 a b c) in
  let adj := (9 <? r mod 16) || Z.testbit f 4 in
  let icarry := if plus then 0xf9 <? r else r <? 6 in
  let '(n, c') := total plus 10 a b c in
  ((if adj then r + (if plus then 6 else -6) else r) mod 16 =? n) && Bool.eqb adj c' && negb (adj && icarry).

Lemma unpacked_digits plus a b c : 0 <= a < 10 -> 0 <= b < 10 -> 0 <= c < 2 -> unpacked_check plus a b c = true.
Proof.
  intros Ha Hb Hc.
  assert (A : all_below 10 (fun a => all_below 10 (fun b => all_below 2 (unpacked_check plus a b))) = true)
    by (destruct plus; vm_compute; reflexivity).
  exact (all_below_ok _ _ _ (all_below_ok _ _ _ (all_below_ok _ _ _ A Ha) Hb) Hc).
Qed.

(** Arithmetic on unpacked digits.  With one decimal digit in [AL] and in the
    operand, [add] or [adc] followed by [aaa], and [sub] or [sbb] followed by
    [aas], leave the digit of the sum or difference modulo 10 in [AL], carry
    or borrow one into [AH], leave the upper half of [EAX], and set the carry
    flag to the carry or borrow. *)
Theorem ascii_arithmetic junk s op plus wc T1 a b :
  x86_ok s -> cc_ok (cc s) -> sum_of op = Some (plus, wc) ->
  0 <= a < 10 -> 0 <= b < 10 -> EAX s mod 2 ^ 8 = a -> T1 mod 2 ^ 8 = b ->
  let '(n, c') := total plus 10 a b (carry_in wc (cc s)) in
  let ah := EAX s / 2 ^ 8 in
  exists s', disas_bcd (alu_AL junk s op T1) (if plus then AAA else AAS) = Done s' /\
    EAX s' = EAX s / 2 ^ 16 * 2 ^ 16 + ((if plus then ah + b2z c' else ah - b2z c') mod 2 ^ 8 * 2 ^ 8 + n) /\
    Z.testbit (flags (cc s')) 0 = c'.
Proof.
  intros Hs Hc Hop Ha Hb Ea Eb. set (c := carry_in wc (cc s)) in *.
  assert (Hcr : 0 <= c < 2) by (unfold c, carry_in; pose proof (carry_range (cc s) Hc); destruct wc; lia).
  pose proof (unpacked_digits plus a b c Ha Hb Hcr) as K. unfold unpacked_check in K.
  pose proof (alu_AL_ok junk s op T1 Hs Hc) as H. cbv zeta in H. rewrite Ea, Eb in H.
  rewrite (sum_spec op plus wc _ _ _ Hop) in H. cbv zeta in H. fold c in H.
  set (s1 := alu_AL junk s op T1) in *. destruct (total plus 10 a b c) as [n c']. cbv zeta.
  assert (exists r f, (if plus then ((a + b + c) mod 2 ^ 8, add_flags 8 a b c)
    else ((a - b - c) mod 2 ^ 8, sub_flags 8 a b c)) = (r, f) /\ range 8 r) as (r & f & E & Hr)
    by (destruct plus; (do 2 eexists; split; [done | by apply Z.mod_pos_bound])).
  rewrite E in H, K. destruct H as (E1 & F1 & Ok1).
  destruct (ascii_adjust s1 plus Ok1) as (s' & E' & A1 & A2 & _). exists s'. split; [exact E'|].
  rewrite E1, F1, low_part in A1, A2 by done. rewrite high_part in A1 by done.
  assert (Eh : (EAX s / 2 ^ 8 * 2 ^ 8 + r) / 2 ^ 16 = EAX s / 2 ^ 16).
  { change (2 ^ 16) with (2 ^ 8 * 2 ^ 8). rewrite <- !Z.div_div, high_part by (done || lia). done. }
  rewrite Eh in A1. rewrite A1, A2. clear A1 A2 E1 E' Eh.
  apply andb_prop in K as [[K1%Z.eqb_eq K2%Bool.eqb_prop]%andb_prop K3%negb_true_iff].
  rewrite K2 in K1, K3 |- *. split; [|done]. f_equal.
  destruct c', plus; cbn [andb b2z] in *; rewrite ?K3, <- K1; cbn [b2z]; f_equal; f_equal;
    rewrite ?Z.add_mod_idemp_l, ?Z.add_0_r, ?Z.sub_0_r, ?Z.mod_mod by lia; try done.
Qed.

(** The state after [aam] and [aad]. *)
Lemma logic_written s v al : x86_ok s -> range 16 v -> range 8 al ->
  let s' := CC_OP_W (CC_DST_W (EAX_W s (Z.lor (Z.land (EAX s) (Z.lnot 0xffff)) v)) al) CC_OP_LOGICB in
  EAX s' = EAX s / 2 ^ 16 * 2 ^ 16 + v /\ flags (cc s') = logic_flags 8 al /\ x86_ok s'.
Proof.
  intros Hs Hv Ha s'. pose proof (reg_range s R_EAX Hs) as Hr. fold (EAX s) in Hr.
  split; [|split; [|by apply EAX_W_ok]].
  - unfold s'. change 0xffff with (2 ^ 16 - 1). rewrite put_low by done.
    etransitivity; [by apply EAX_EAX_W|]. apply u32_small. by apply put_low_range.
  - etransitivity; [exact (logic_op_flags 0 (cc_src (cc s)) (u32 al) ltac:(lia))|].
    rewrite logic_case by by left. cbn [cc_dst]. rewrite u32_small by (apply (range_weaken 8); [lia | done]).
    by rewrite Z.mod_small.
Qed.

(** [aam] and [aad] are inverse.  For every base but zero, [aam] splits [AL]
    into quotient (in [AH]) and remainder (in [AL]) with the flags of the
    remainder, and [aad] with the same base puts them together again with a
    zero [AH]; base zero raises the divide exception. *)
Theorem aam_aad_roundtrip s base :
  x86_ok s -> 0 <= base < 256 ->
  let al := EAX s mod 2 ^ 8 in
  match disas_bcd s (AAM base) with
  | Done s1 =>
      EAX s1 = EAX s / 2 ^ 16 * 2 ^ 16 + (al / base * 2 ^ 8 + al mod base) /\
      flags (cc s1) = logic_flags 8 (al mod base) /\
      exists s2, disas_bcd s1 (AAD base) = Done s2 /\
        EAX s2 = EAX s / 2 ^ 16 * 2 ^ 16 + al /\ flags (cc s2) = logic_flags 8 al
  | Raise e => base = 0 /\ e = EXCP00_DIVZ
  | Overflow => False
  end.
Proof.
  intros Hs Hb al. cbn [disas_bcd]. destruct (Z.eqb_spec base 0) as [|H0]; [done|].
  assert (Ha : 0 <= al < 256) by by apply Z.mod_pos_bound.
  pose proof (Z.div_mod al base H0). pose proof (Z.mod_pos_bound al base ltac:(lia)).
  assert (0 <= al / base < 256) by (split; [apply Z.div_pos; lia | apply Z.div_lt_upper_bound; nia]).
  unfold helper_aam. rewrite land_ff. fold al. change 256 with (2 ^ 8) in *. fold al.
  rewrite Z.quot_div_nonneg, Z.rem_mod_nonneg by lia. cbv zeta. rewrite <- Z.lor_assoc, (Z.lor_comm (al mod base)),
    (lor_disjoint_add (al / base) (al mod base) 8) by (unfold range; lia).
  destruct (logic_written s (al / base * 2 ^ 8 + al mod base) (al mod base) Hs) as (E1 & F1 & Ok1);
    [unfold range in *; lia..|].
  split; [exact E1|]. split; [exact F1|]. set (s1 := CC_OP_W _ _) in *. eexists. split; [reflexivity|].
  assert (R16 : range 16 (al / base * 2 ^ 8 + al mod base)) by (unfold range; lia).
  assert (R8 : range 8 (al mod base)) by (unfold range; lia).
  assert (El : EAX s1 mod 2 ^ 8 = al mod base).
  { rewrite E1. replace (EAX s / 2 ^ 16 * 2 ^ 16 + (al / base * 2 ^ 8 + al mod base))
      with ((EAX s / 2 ^ 16 * 2 ^ 8 + al / base) * 2 ^ 8 + al mod base) by lia. by apply low_part. }
  assert (Eh : EAX s1 / 2 ^ 8 mod 2 ^ 8 = al / base).
  { rewrite E1. replace (EAX s / 2 ^ 16 * 2 ^ 16 + (al / base * 2 ^ 8 + al mod base))
      with ((EAX s / 2 ^ 16 * 2 ^ 8 + al / base) * 2 ^ 8 + al mod base) by lia.
    by rewrite high_part, low_part. }
  unfold helper_aad. rewrite high_byte_of, !land_ff. change 256 with (2 ^ 8). rewrite El, Eh. cbv zeta.
  replace (al / base * base + al mod base) with al by lia. rewrite (Z.mod_small al) by lia.
  destruct (logic_written s1 al al Ok1) as (E2 & F2 & _); [unfold range; lia..|].
  split; [|exact F2]. etransitivity; [exact E2|]. by rewrite E1, high_part by done.
Qed.

(** ** Concrete cases *)

Definition sample (eax edx : Z) : CPUX86 := mkCPUX86 [eax; 0; edx; 0; 0; 0; 0; 0] (mkCC CC_OP_EFLAGS 0 0).

Lemma sample_ok eax edx : range 32 eax -> range 32 edx -> x86_ok (sample eax edx).
Proof.
  intros. split; [done|]. repeat apply Forall_cons_2; try done; apply Forall_nil_2.
Qed.

Lemma div_correct_witness :
  match gen_div (sample 1000 0) 0 7 with Done s' => results 0 s' = (142, 6) | _ => False end.
Proof. exact (proj1 (proj2 (proj2 (div_correct (sample 1000 0) 0 7 (sample_ok 1000 0 ltac:(done) ltac:(done)) ltac:(lia))))). Defined.

(** -1000 / 7 is -142 remainder -6. *)
Lemma idiv_correct_witness :
  match gen_idiv (sample 0xfffffc18 0xffffffff) 2 7 with
  | Done s' => results 2 s' = (2 ^ 32 - 142, 2 ^ 32 - 6)
  | _ => False
  end.
Proof.
  exact (proj1 (proj2 (proj2 (idiv_correct (sample 0xfffffc18 0xffffffff) 2 7
    (sample_ok 0xfffffc18 0xffffffff ltac:(done) ltac:(done)) ltac:(lia))))).
Defined.

Lemma mul_correct_witness : dividend 1 (gen_mul (sample 0x12345678 0) 1 0x100) = 0x567800.
Proof. exact (proj1 (mul_correct (sample 0x12345678 0) 1 0x100 (sample_ok 0x12345678 0 ltac:(done) ltac:(done)) ltac:(lia))). Defined.

Lemma imul_correct_witness : sgn 16 (dividend 0 (gen_imul (sample 0xfb 0) 0 20)) = -100.
Proof. exact (proj1 (imul_correct (sample 0xfb 0) 0 20 (sample_ok 0xfb 0 ltac:(done) ltac:(done)) ltac:(lia))). Defined.

Lemma mul_div_roundtrip_witness :
  exists s', gen_div (gen_mul (sample 77 0) 2 1000000000) 2 1000000000 = Done s' /\ results 2 s' = (77, 0).
Proof.
  exact (mul_div_roundtrip (sample 77 0) 2 1000000000 (sample_ok 77 0 ltac:(done) ltac:(done)) ltac:(lia) ltac:(done)).
Defined.

(** [rcl] of the byte 0x80 with carry, by one: the carry moves in, the sign out. *)
Lemma rotate_through_carry_witness :
  through_carry 8 (gen_rotc_rm_T1 0 (mkCC CC_OP_EFLAGS CC_C 0) 0 0x80 1 false).2
    (gen_rotc_rm_T1 0 (mkCC CC_OP_EFLAGS CC_C 0) 0 0x80 1 false).1 0 = true.
Proof.
  exact (proj1 (proj1 (rotate_through_carry 0 (mkCC CC_OP_EFLAGS CC_C 0) 0 0x80 1 false ltac:(lia) ltac:(done)))
    0 ltac:(done)).
Defined.

Lemma rotate_back_witness :
  let p := gen_rotc_rm_T1 0 (mkCC CC_OP_EFLAGS CC_C 0) 1 0x1234 5 false in
  (gen_rotc_rm_T1 0 p.2 1 p.1 5 true).1 mod 2 ^ 16 = 0x1234.
Proof. exact (proj1 (rotate_back 0 (mkCC CC_OP_EFLAGS CC_C 0) 1 0x1234 5 false ltac:(lia) ltac:(done))). Defined.

Lemma decimal_adjust_manual_witness :
  exists s', disas_bcd (sample 0x9b 0) DAA = Done s' /\ adjusted (sample 0x9b 0) (1, CC_C + CC_A) s'.
Proof.
  exact (proj2 (decimal_adjust_manual (sample 0x9b 0) (sample_ok 0x9b 0 ltac:(done) ltac:(done))) ltac:(by left)).
Defined.

(** 45 + 38 = 83 *)
Lemma decimal_arithmetic_witness :
  exists s', disas_bcd (alu_AL 0 (sample 0x45 0) OP_ADDL 0x38) DAA = Done s' /\
    EAX s' = 0x83 /\ Z.testbit (flags (cc s')) 0 = false.
Proof.
  exact (decimal_arithmetic 0 (sample 0x45 0) OP_ADDL true false 0x38 45 38
    (sample_ok 0x45 0 ltac:(done) ltac:(done)) I eq_refl ltac:(done) ltac:(done) eq_refl eq_refl eq_refl).
Defined.

(** 13 - 5 = 8, on unpacked digits *)
Lemma ascii_arithmetic_witness :
  exists s', disas_bcd (alu_AL 0 (sample 0x103 0) OP_SUBL 5) AAS = Done s' /\
    EAX s' = 8 /\ Z.testbit (flags (cc s')) 0 = true.
Proof.
  exact (ascii_arithmetic 0 (sample 0x103 0) OP_SUBL false false 5 3 5
    (sample_ok 0x103 0 ltac:(done) ltac:(done)) I eq_refl ltac:(done) ltac:(done) eq_refl eq_refl).
Defined.

Lemma aam_aad_roundtrip_witness :
  match disas_bcd (sample 63 0) (AAM 10) with Done s1 => EAX s1 = 0x603 | _ => False end.
Proof. exact (proj1 (aam_aad_roundtrip (sample 63 0) 10 (sample_ok 63 0 ltac:(done) ltac:(done)) ltac:(lia))). Defined.

End X86Ops.
