(* ===== verification/Chains.v ===== *)
(** * Linked lists in a store

    A store of links is a function [nxt] from places to the place that follows;
    [chain nxt hd last l] says that the links from [hd] to [last] go through
    the places of [l].  The lists of translation blocks are such chains; the
    lemmas say what removing a place from one does. *)

From stdpp Require Import sets.
From S2P Require Import Prelude.

Section Chain.
Context {A : Type}.
Implicit Types (nxt : A -> option A) (hd last : option A) (l : list A).

Fixpoint chain nxt hd last l : Prop :=
  match l with
  | [] => hd = last
  | x :: l => hd = Some x /\ chain nxt (nxt x) last l
  end.

Lemma chain_app nxt hd last l1 l2 :
  chain nxt hd last (l1 ++ l2) <-> exists mid, chain nxt hd mid l1 /\ chain nxt mid last l2.
Proof.
  revert hd. induction l1 as [|x l1 IH]; intros hd; cbn.
  - split; [by eauto | by intros (mid & -> & H)].
  - rewrite IH. split; [intros (H1 & mid & H2 & H3) | intros (mid & (H1 & H2) & H3)]; eauto.
Qed.

Lemma chain_ext nxt nxt' hd last l :
  (forall x, x ∈ l -> nxt' x = nxt x) -> chain nxt hd last l -> chain nxt' hd last l.
Proof.
  revert hd. induction l as [|x l IH]; intros hd E; [done|]. intros [-> H]. split; [done|].
  rewrite E by left. apply IH; [|done]. intros y Hy. apply E. by right.
Qed.

(** The place before the end of a list that starts after [r]. *)
Definition before (r : A) (l : list A) : A := List.last l r.

Lemma before_cons r x l : before r (x :: l) = before x l.
Proof.
  unfold before. revert r x. induction l as [|y l IH]; intros r x; [done|]. cbn in *. by rewrite (IH r), (IH x).
Qed.

Lemma before_elem r l : before r l = r \/ before r l ∈ l.
Proof.
  revert r. induction l as [|x l IH]; intros r; [by left|]. rewrite before_cons.
  destruct (IH x) as [->|H]; right; [left | by right].
Qed.

Lemma before_app r l1 x l2 : before r (l1 ++ x :: l2) = before x l2.
Proof. revert r. induction l1 as [|y l1 IH]; intros r; cbn [app]; rewrite before_cons; [done | apply IH]. Qed.

(** The links of a chain never are NULL when the end is not. *)
Lemma chain_some nxt hd z l x : chain nxt hd (Some z) l -> x ∈ l -> exists y, nxt x = Some y.
Proof.
  revert hd. induction l as [|y l IH]; intros hd; [by intros ? ?%elem_of_nil|].
  intros [-> H] [->|Hx]%elem_of_cons; [|by eapply IH].
  destruct l as [|y2 l]; cbn in H; [by exists z | by exists y2; apply H].
Qed.

(** Taking [x] out of a chain that starts at the link of [r]. *)
Lemma chain_unlink nxt nxt' r last l1 x l2 :
  chain nxt (nxt r) last (l1 ++ x :: l2) -> NoDup (r :: l1 ++ x :: l2) ->
  (forall y, y ∈ r :: l1 ++ x :: l2 -> y <> x -> y <> before r l1 -> nxt' y = nxt y) ->
  nxt' (before r l1) = nxt x ->
  chain nxt' (nxt' r) last (l1 ++ l2).
Proof.
  revert r. induction l1 as [|y l1 IH]; intros r; cbn [app]; intros C N E B.
  - cbn in *. destruct C as [C1 C2]. rewrite B.
    apply list.NoDup_cons in N as [N1 N2]. apply list.NoDup_cons in N2 as [N2 N3].
    apply (chain_ext nxt); [|done]. intros y Hy. apply E; [set_solver|intros ->..]; [done|]. apply N1. by right.
  - rewrite before_cons in *. cbn in C. destruct C as [C1 C2].
    apply list.NoDup_cons in N as [N1 N2].
    assert (Hr : nxt' r = nxt r).
    { apply E; [by left|..].
      - intros ->. apply N1. set_solver.
      - intros ->. apply N1. destruct (before_elem y l1) as [->|H]; [left | right; set_solver]. }
    split; [by rewrite Hr|]. apply IH; [done | done | | done].
    intros z Hz. apply E. by right.
Qed.

(** A circular chain, entered elsewhere. *)
Lemma chain_rotate nxt r l1 x l2 :
  chain nxt (nxt r) (Some r) (l1 ++ x :: l2) -> chain nxt (nxt x) (Some x) (l2 ++ r :: l1).
Proof.
  intros (mid & C1 & C2)%chain_app. cbn in C2. destruct C2 as [-> C2]. apply chain_app.
  exists (Some r). split; [done|]. by split.
Qed.

Lemma chain_functional nxt hd l l' :
  chain nxt hd None l -> chain nxt hd None l' -> l = l'.
Proof.
  revert hd l'. induction l as [|x l IH]; intros hd l'; cbn.
  - intros ->. destruct l'; [done|]. by intros [? _].
  - intros [-> C]. destruct l' as [|y l']; [done|]. intros [[= <-] C']. f_equal. by eapply IH.
Qed.

End Chain.

(** ** Removing by a filter *)

Section Remove.
Context {A : Type} `{EqDecision A}.

Lemma filter_neq_notin (x : A) (l : list A) : x ∉ l -> filter (fun y => y <> x) l = l.
Proof.
  intros H. induction l as [|y l IH]; [done|]. rewrite filter_cons_True by (intros ->; set_solver).
  f_equal. apply IH. set_solver.
Qed.

Lemma filter_neq_split (x : A) (l1 l2 : list A) : NoDup (l1 ++ x :: l2) -> filter (fun y => y <> x) (l1 ++ x :: l2) = l1 ++ l2.
Proof.
  intros N. apply list.NoDup_app in N as (N1 & N2 & N3). apply list.NoDup_cons in N3 as [N3 _].
  rewrite list.filter_app, filter_cons_False by tauto. rewrite !filter_neq_notin; [done | done | set_solver].
Qed.

End Remove.
