(* ===== verification/SoftTlb.v ===== *)
(** * RAM blocks, dirty flags and the software TLB

    The part of src/s2e/qemu/exec.c that finds host memory for guest RAM,
    tracks which pages are dirty, and keeps the software TLB through which
    translated code reads and writes.  Addresses of the guest have 32 bits,
    those of the host 64; a RAM address is an offset into the guest's RAM.
    The cache of object states S2E keeps beside the TLB is not modelled. *)

From stdpp Require Import gmap.
From S2P Require Import Prelude.

Module SoftTlb.

(** ** Constants *)

Definition TARGET_PAGE_BITS : Z := 12.
Definition TARGET_PAGE_SIZE : Z := 0x1000.
Definition page_start (a : Z) : Z := Z.land a (Z.lnot 0xfff).  (* a & TARGET_PAGE_MASK *)
Definition page_offset (a : Z) : Z := Z.land a 0xfff.          (* a & ~TARGET_PAGE_MASK *)
Definition IO_MEM_RAM : Z := 0.
Definition IO_MEM_ROM : Z := 0x8.
Definition IO_MEM_UNASSIGNED : Z := 0x10.
Definition IO_MEM_NOTDIRTY : Z := 0x18.
Definition IO_MEM_ROMD : Z := 1.
Definition TLB_INVALID_MASK : Z := 0x8.
Definition TLB_NOTDIRTY : Z := 0x10.
Definition TLB_MMIO : Z := 0x20.
Definition CODE_DIRTY_FLAG : Z := 0x02.
Definition CPU_TLB_SIZE : Z := 256.
Definition TB_JMP_PAGE_SIZE : Z := 64.
Definition TB_JMP_PAGE_MASK : Z := 0xfc0.
Definition TB_JMP_ADDR_MASK : Z := 0x3f.
Definition PAGE_READ : Z := 1.
Definition PAGE_WRITE : Z := 2.
Definition PAGE_EXEC : Z := 4.

(** ** RAM *)

Record RAMBlock := mkRAMBlock {
  rb_host : Z;
  rb_offset : Z;
  rb_length : Z
}.

Definition block_has (b : RAMBlock) (addr : Z) : bool :=
  negb ((addr <? rb_offset b) || (rb_offset b + rb_length b <=? addr)).

(** The pointer, 0 when there is no such block, and the blocks afterwards: a
    block that is not the first changes places with the one before it. *)
Fixpoint qemu_get_ram_ptr (ram_blocks : list RAMBlock) (addr : Z) : Z * list RAMBlock :=
  match ram_blocks with
  | [] => (0, [])
  | prev :: rest =>
      if block_has prev addr then (rb_host prev + (addr - rb_offset prev), ram_blocks)
      else
        match rest with
        | [] => (0, ram_blocks)
        | block :: next =>
            if block_has block addr then (rb_host block + (addr - rb_offset block), block :: prev :: next)
            else let '(p, rest) := qemu_get_ram_ptr rest addr in (p, prev :: rest)
        end
  end.

Definition host_in (b : RAMBlock) (host : Z) : bool :=
  negb ((host <? rb_host b) || (rb_host b + rb_length b <=? host)).

Fixpoint qemu_ram_addr_from_host (ram_blocks : list RAMBlock) (host : Z) : Res Z :=
  match ram_blocks with
  | [] => Fail AbortCalled
  | block :: next =>
      if host_in block host then Ok (rb_offset block + (host - rb_host block))
      else qemu_ram_addr_from_host next host
  end.

(** ** TLB entries and CPUs *)

Record CPUTLBEntry := mkTlbEntry {
  addr_read : Z;
  addr_write : Z;
  addr_code : Z;
  addend : Z
}.
#[export] Instance CPUTLBEntry_eta : RecordEta CPUTLBEntry :=
  fields mkTlbEntry < addr_read ; addr_write ; addr_code ; addend >.

Definition s_cputlb_empty_entry : CPUTLBEntry := mkTlbEntry (u32 (-1)) (u32 (-1)) (u32 (-1)) (u64 (-1)).

(** The fields of a CPU this part of the code uses.  [tb_jmp_cache] holds
    indices of translation blocks; a missing entry is NULL. *)
Record CPUCommon := mkCPUCommon {
  tlb_table : list (list CPUTLBEntry);
  iotlb : list (list Z);
  tb_jmp_cache : gmap Z nat;
  current_tb : option nat;
  watchpoints : list Z;
  mem_io_vaddr : Z;
  mem_io_pc : Z
}.
#[export] Instance CPUCommon_eta : RecordEta CPUCommon :=
  fields mkCPUCommon < tlb_table ; iotlb ; tb_jmp_cache ; current_tb ; watchpoints ; mem_io_vaddr ; mem_io_pc >.

Definition tb_jmp_cache_hash_page (pc : Z) : Z :=
  let tmp := Z.lxor pc (Z.shiftr pc 6) in
  Z.land (Z.shiftr tmp 6) TB_JMP_PAGE_MASK.

Definition tb_jmp_cache_hash_func (pc : Z) : Z :=
  let tmp := Z.lxor pc (Z.shiftr pc 6) in
  Z.lor (Z.land (Z.shiftr tmp 6) TB_JMP_PAGE_MASK) (Z.land tmp TB_JMP_ADDR_MASK).

(** The two [memset] calls: 64 entries from the first one of a page. *)
Definition clear_cache_page (i : Z) (c : gmap Z nat) : gmap Z nat :=
  filter (fun kv => ~ (i <= kv.1 < i + TB_JMP_PAGE_SIZE)) c.

Definition tlb_flush_jmp_cache (env : CPUCommon) (addr : Z) : CPUCommon :=
  let i := tb_jmp_cache_hash_page (u32 (addr - TARGET_PAGE_SIZE)) in
  let env := env <| tb_jmp_cache := clear_cache_page i (tb_jmp_cache env) |> in
  let i := tb_jmp_cache_hash_page addr in
  env <| tb_jmp_cache := clear_cache_page i (tb_jmp_cache env) |>.

Definition tlb_flush (env : CPUCommon) : CPUCommon :=
  let env := env <| current_tb := None |> in
  let env := env <| tlb_table := map (map (fun _ => s_cputlb_empty_entry)) (tlb_table env) |> in
  env <| tb_jmp_cache := ∅ |>.

(** The part of an entry that tells which page it is for. *)
Definition tlb_page (tlb_addr : Z) : Z := Z.land tlb_addr (Z.lor (Z.lnot 0xfff) TLB_INVALID_MASK).

Definition tlb_index (addr : Z) : Z := Z.land (Z.shiftr addr TARGET_PAGE_BITS) (CPU_TLB_SIZE - 1).

Definition update_entry (i : Z) (f : CPUTLBEntry -> CPUTLBEntry) (t : list CPUTLBEntry) : list CPUTLBEntry :=
  alter f (Z.to_nat i) t.

Definition tlb_flush_page (env : CPUCommon) (addr : Z) : CPUCommon :=
  let env := env <| current_tb := None |> in
  let addr := page_start addr in
  let i := tlb_index addr in
  let flush e :=
    if (addr =? tlb_page (addr_read e)) || (addr =? tlb_page (addr_write e)) || (addr =? tlb_page (addr_code e))
    then s_cputlb_empty_entry else e in
  let env := env <| tlb_table := map (update_entry i flush) (tlb_table env) |> in
  tlb_flush_jmp_cache env addr.

(** ** Dirty pages *)

Record Ram := mkRam {
  ram_blocks : list RAMBlock;
  phys_ram_dirty : list Z
}.
#[export] Instance Ram_eta : RecordEta Ram := fields mkRam < ram_blocks ; phys_ram_dirty >.

Definition dirty_flags_of (m : Ram) (ram_addr : Z) : Z := aget 0 (phys_ram_dirty m) (Z.shiftr ram_addr TARGET_PAGE_BITS).
Definition set_dirty_flags (m : Ram) (ram_addr v : Z) : Ram :=
  m <| phys_ram_dirty := aset (phys_ram_dirty m) (Z.shiftr ram_addr TARGET_PAGE_BITS) (u8 v) |>.
Definition cpu_physical_memory_is_dirty (m : Ram) (addr : Z) : bool := dirty_flags_of m addr =? 0xff.

Definition tlb_reset_dirty_range (start length : Z) (e : CPUTLBEntry) : CPUTLBEntry :=
  if page_offset (addr_write e) =? IO_MEM_RAM then
    let addr := u64 (page_start (addr_write e) + addend e) in
    if u64 (addr - start) <? length then
      e <| addr_write := Z.lor (page_start (addr_write e)) TLB_NOTDIRTY |>
    else e
  else e.

(** Clearing the flags of [n] pages from page [p]. *)
Fixpoint reset_dirty_loop (n : nat) (p mask : Z) (dirty : list Z) : list Z :=
  match n with
  | O => dirty
  | S n => reset_dirty_loop n (p + 1) mask (aset dirty p (Z.land (aget 0 dirty p) mask))
  end.

Definition cpu_physical_memory_reset_dirty (m : Ram) (cpus : list CPUCommon) (start end_ dirty_flags : Z)
    : Res (Ram * list CPUCommon) :=
  let start := page_start start in
  let end_ := page_start (end_ + TARGET_PAGE_SIZE - 1) in
  let length := end_ - start in
  if length =? 0 then Ok (m, cpus)
  else
    let len := Z.shiftr length TARGET_PAGE_BITS in
    let mask := Z.lnot dirty_flags in
    let m := m <| phys_ram_dirty :=
      reset_dirty_loop (Z.to_nat len) (Z.shiftr start TARGET_PAGE_BITS) mask (phys_ram_dirty m) |> in
    let '(start1, bs) := qemu_get_ram_ptr (ram_blocks m) start in
    let '(last, bs) := qemu_get_ram_ptr bs (end_ - 1) in
    let m := m <| ram_blocks := bs |> in
    if negb (u64 (last - start1) =? u64 (end_ - 1 - start)) then Fail AbortCalled
    else
      Ok (m, map (fun env => env <| tlb_table :=
        map (map (tlb_reset_dirty_range start1 length)) (tlb_table env) |>) cpus).

Definition tlb_protect_code (m : Ram) (cpus : list CPUCommon) (ram_addr : Z) : Res (Ram * list CPUCommon) :=
  cpu_physical_memory_reset_dirty m cpus ram_addr (ram_addr + TARGET_PAGE_SIZE) CODE_DIRTY_FLAG.

Definition tlb_unprotect_code_phys (m : Ram) (ram_addr : Z) : Ram :=
  set_dirty_flags m ram_addr (Z.lor (dirty_flags_of m ram_addr) CODE_DIRTY_FLAG).

Definition tlb_update_dirty (m : Ram) (e : CPUTLBEntry) : Res CPUTLBEntry :=
  if page_offset (addr_write e) =? IO_MEM_RAM then
    let p := u64 (page_start (addr_write e) + addend e) in
    let* ram_addr := qemu_ram_addr_from_host (ram_blocks m) p in
    if negb (cpu_physical_memory_is_dirty m ram_addr) then
      Ok (e <| addr_write := Z.lor (addr_write e) TLB_NOTDIRTY |>)
    else Ok e
  else Ok e.

Definition tlb_set_dirty1 (vaddr : Z) (e : CPUTLBEntry) : CPUTLBEntry :=
  if addr_write e =? Z.lor vaddr TLB_NOTDIRTY then e <| addr_write := vaddr |> else e.

Definition tlb_set_dirty (env : CPUCommon) (vaddr : Z) : CPUCommon :=
  let vaddr := page_start vaddr in
  let i := tlb_index vaddr in
  env <| tlb_table := map (update_entry i (tlb_set_dirty1 vaddr)) (tlb_table env) |>.

(** ** Physical pages *)

Record PhysPageDesc := mkPhysPageDesc {
  phys_offset : Z;
  region_offset : Z
}.

(** [l1_phys_map]: the second-level tables that exist. *)
Definition PhysMap : Type := gmap Z (list PhysPageDesc).

Definition L2_SIZE : Z := 1024.

Definition phys_page_find (l1_phys_map : PhysMap) (index : Z) : option PhysPageDesc :=
  l1_phys_map !! Z.shiftr index 10 ≫= fun pd => pd !! Z.to_nat (Z.land index (L2_SIZE - 1)).

(** The table with the descriptor of [index], made if it is missing: entry [i]
    of a new table is unassigned, with the region offset of page [index + i]. *)
Definition phys_page_find_alloc (l1_phys_map : PhysMap) (index : Z) : PhysMap :=
  match l1_phys_map !! Z.shiftr index 10 with
  | Some _ => l1_phys_map
  | None =>
      let pd := map (fun i => mkPhysPageDesc IO_MEM_UNASSIGNED (u64 (Z.shiftl (index + i) TARGET_PAGE_BITS)))
                  (seqZ 0 L2_SIZE) in
      <[Z.shiftr index 10 := pd]> l1_phys_map
  end.

(** ** A new entry *)

(** [symbolic] is S2E's test for pages with symbolic MMIO
    ([s2e_is_mmio_symbolic]), [io_mem_watch] the index of the watch handlers. *)
Definition tlb_set_page_exec (symbolic : Z -> bool) (io_mem_watch : Z) (l1_phys_map : PhysMap) (m : Ram)
    (env : CPUCommon) (vaddr paddr prot mmu_idx : Z) : Ram * CPUCommon :=
  let p := phys_page_find l1_phys_map (Z.shiftr paddr TARGET_PAGE_BITS) in
  let pd := match p with None => IO_MEM_UNASSIGNED | Some p => phys_offset p end in
  let address := vaddr in
  let address :=
    if (IO_MEM_ROM <? page_offset pd) && negb (nz (Z.land pd IO_MEM_ROMD)) then Z.lor address TLB_MMIO
    else address in
  let '(addend0, bs) := qemu_get_ram_ptr (ram_blocks m) (page_start pd) in
  let m := m <| ram_blocks := bs |> in
  let iotlb0 :=
    if page_offset pd <=? IO_MEM_ROM then
      Z.lor (page_start pd) (if page_offset pd =? IO_MEM_RAM then IO_MEM_NOTDIRTY else IO_MEM_ROM)
    else u64 (page_offset pd + match p with Some p => region_offset p | None => paddr end) in
  let code_address := address in
  let watched := existsb (fun wp => vaddr =? page_start wp) (watchpoints env) in
  let iotlb0 := if watched then u64 (io_mem_watch + paddr) else iotlb0 in
  let address := if watched then Z.lor address TLB_MMIO else address in
  let index := tlb_index vaddr in
  let r := if nz (Z.land prot PAGE_READ) then address else u32 (-1) in
  let r := if symbolic paddr then Z.lor r TLB_NOTDIRTY else r in
  let x := if nz (Z.land prot PAGE_EXEC) then code_address else u32 (-1) in
  let w :=
    if nz (Z.land prot PAGE_WRITE) then
      if (page_offset pd =? IO_MEM_ROM) || nz (Z.land pd IO_MEM_ROMD) then Z.lor address TLB_MMIO
      else if (page_offset pd =? IO_MEM_RAM) && negb (cpu_physical_memory_is_dirty m pd) then
        Z.lor address TLB_NOTDIRTY
      else address
    else u32 (-1) in
  let te := mkTlbEntry r w x (u64 (addend0 - vaddr)) in
  (m, env <| iotlb := alter (fun t => aset t index (u64 (iotlb0 - vaddr))) (Z.to_nat mmu_idx) (iotlb env) |>
          <| tlb_table := alter (update_entry index (fun _ => te)) (Z.to_nat mmu_idx) (tlb_table env) |>).

(** ** Guest RAM and host memory *)

(** Whole pages, and no two blocks overlap in the guest or in the host. *)
Record ram_ok (bs : list RAMBlock) : Prop := {
  rb_pages b : b ∈ bs -> rb_offset b mod 4096 = 0 /\ rb_length b mod 4096 = 0 /\ 0 <= rb_offset b /\
    0 < rb_host b /\ rb_host b + rb_length b <= 2 ^ 64;
  rb_apart b b' a : b ∈ bs -> b' ∈ bs -> block_has b a = true -> block_has b' a = true -> b = b';
  rb_hosts b b' h : b ∈ bs -> b' ∈ bs -> host_in b h = true -> host_in b' h = true -> b = b'
}.

Lemma block_has_spec b a : block_has b a = true <-> rb_offset b <= a < rb_offset b + rb_length b.
Proof. unfold block_has. rewrite negb_true_iff, orb_false_iff, Z.ltb_ge, Z.leb_gt. tauto. Qed.
Lemma host_in_spec b h : host_in b h = true <-> rb_host b <= h < rb_host b + rb_length b.
Proof. unfold host_in. rewrite negb_true_iff, orb_false_iff, Z.ltb_ge, Z.leb_gt. tauto. Qed.

Lemma ram_ok_perm bs bs' : bs ≡ₚ bs' -> ram_ok bs -> ram_ok bs'.
Proof. intros P []. split; setoid_rewrite <- P; auto. Qed.

Lemma get_ram_ptr_step p q next a : qemu_get_ram_ptr (p :: q :: next) a =
  if block_has p a then (rb_host p + (a - rb_offset p), p :: q :: next)
  else if block_has q a then (rb_host q + (a - rb_offset q), q :: p :: next)
  else let '(x, rest) := qemu_get_ram_ptr (q :: next) a in (x, p :: rest).
Proof. reflexivity. Qed.

(** The lookup only reorders the list. *)
Lemma get_ram_ptr_perm bs a : (qemu_get_ram_ptr bs a).2 ≡ₚ bs.
Proof.
  induction bs as [|p [|q next] IH]; [done | by cbn; destruct (block_has p a)|].
  rewrite get_ram_ptr_step. destruct (block_has p a); [done|].
  destruct (block_has q a); [apply Permutation_swap|]. destruct (qemu_get_ram_ptr (q :: next) a). cbn in *. by f_equiv.
Qed.

Lemma get_ram_ptr_some bs a b : ram_ok bs -> b ∈ bs -> block_has b a = true ->
  (qemu_get_ram_ptr bs a).1 = rb_host b + (a - rb_offset b).
Proof.
  intros [_ U _] Hb Ha. assert (V : forall b', b' ∈ bs -> block_has b' a = true -> b' = b) by eauto. clear U.
  induction bs as [|p [|q next] IH]; [by apply elem_of_nil in Hb| |].
  - apply list_elem_of_singleton in Hb as ->. cbn. by rewrite Ha.
  - rewrite get_ram_ptr_step. destruct (block_has p a) eqn:Ep; [by rewrite (V p) by (done || by left)|].
    destruct (block_has q a) eqn:Eq; [by rewrite (V q) by (done || set_solver)|].
    assert (Hr : b ∈ q :: next) by (apply elem_of_cons in Hb as [->|]; [congruence | done]).
    specialize (IH Hr ltac:(intros; apply V; [by right | done])). by destruct (qemu_get_ram_ptr (q :: next) a).
Qed.

Lemma from_host_some bs h b : ram_ok bs -> b ∈ bs -> host_in b h = true ->
  qemu_ram_addr_from_host bs h = Ok (rb_offset b + (h - rb_host b)).
Proof.
  intros [_ _ U] Hb Ha. assert (V : forall b', b' ∈ bs -> host_in b' h = true -> b' = b) by eauto. clear U.
  induction bs as [|p rest IH]; [by apply elem_of_nil in Hb|]. cbn.
  destruct (host_in p h) eqn:Ep; [by rewrite (V p) by (done || by left)|].
  apply IH; [|intros; apply V; [by right | done]]. apply elem_of_cons in Hb as [->|]; [congruence | done].
Qed.

(** The two directions between guest RAM and host memory are inverse: the
    host pointer of a RAM address leads back to it, whatever order earlier
    lookups left the blocks in, and a lookup keeps all blocks. *)
Theorem ram_ptr_roundtrip bs a b : ram_ok bs -> b ∈ bs -> block_has b a = true ->
  let '(p, bs') := qemu_get_ram_ptr bs a in
  bs' ≡ₚ bs /\ ram_ok bs' /\ 0 < p < 2 ^ 64 /\ qemu_ram_addr_from_host bs' p = Ok a /\
  (qemu_get_ram_ptr bs' a).1 = p.
Proof.
  intros R Hb Ha. pose proof (get_ram_ptr_perm bs a) as P. pose proof (get_ram_ptr_some bs a b R Hb Ha) as E.
  destruct (qemu_get_ram_ptr bs a) as [p bs']. cbn in P, E. subst p.
  assert (R' : ram_ok bs') by (by apply (ram_ok_perm bs); [symmetry|]).
  assert (Hb' : b ∈ bs') by (by rewrite P). destruct (rb_pages _ R b Hb) as (_ & _ & _ & H1 & H2).
  pose proof Ha as Ha'. apply block_has_spec in Ha'.
  split_and!; [done | done | lia | lia | | by apply get_ram_ptr_some].
  rewrite (from_host_some bs' _ b); [f_equal; lia | done | done |]. apply host_in_spec. lia.
Qed.

(** ** Write protection of pages with code *)

Lemma page_start_eq a : page_start a = a / 4096 * 4096.
Proof.
  unfold page_start. change 0xfff with (Z.ones 12). rewrite <- Z.ldiff_land, Z.ldiff_ones_r by lia.
  by rewrite Z.shiftl_mul_pow2, Z.shiftr_div_pow2 by lia.
Qed.
Lemma page_offset_eq a : page_offset a = a mod 4096.
Proof. unfold page_offset. change 0xfff with (Z.ones 12). by rewrite Z.land_ones by lia. Qed.

(** Stores through the entry go straight to the host page [h]: no flag makes
    them take the slow path. *)
Definition direct (e : CPUTLBEntry) (h : Z) : Prop :=
  page_offset (addr_write e) = 0 /\ u64 (page_start (addr_write e) + addend e) = h.

Definition no_direct (cs : list CPUCommon) (h : Z) : Prop :=
  forall env t e, env ∈ cs -> t ∈ tlb_table env -> e ∈ t -> ~ direct e h.

Lemma no_direct_tables cs cs' h : map tlb_table cs' = map tlb_table cs -> no_direct cs h -> no_direct cs' h.
Proof.
  intros E N env t e He Ht. assert (H : tlb_table env ∈ map tlb_table cs') by (apply list_elem_of_fmap; by exists env).
  rewrite E in H. apply list_elem_of_fmap in H as (env0 & E0 & H0). rewrite E0 in Ht. by apply (N env0 t e).
Qed.

(** The RAM page [p] is write protected: it is not dirty for code, and no CPU
    writes to it without a check. *)
Definition host_of (m : Ram) (p : Z) : Z := (qemu_get_ram_ptr (ram_blocks m) p).1.
Definition protected (m : Ram) (cs : list CPUCommon) (p : Z) : Prop :=
  Z.testbit (dirty_flags_of m p) 1 = false /\ no_direct cs (host_of m p).

(** A page of RAM. *)
Definition ram_page (m : Ram) (p : Z) : Prop :=
  p mod 4096 = 0 /\ exists b, b ∈ ram_blocks m /\ block_has b p = true.

Lemma host_of_perm m m' p : ram_ok (ram_blocks m) -> ram_blocks m' ≡ₚ ram_blocks m -> ram_page m p -> host_of m' p = host_of m p.
Proof.
  intros R P (_ & b & Hb & Ha). unfold host_of. rewrite (get_ram_ptr_some (ram_blocks m) p b) by done.
  apply get_ram_ptr_some; [by apply (ram_ok_perm (ram_blocks m)) | by rewrite P | done].
Qed.

(** Different pages are in different host pages. *)
Lemma host_of_inj m p q : ram_ok (ram_blocks m) -> ram_page m p -> ram_page m q -> host_of m p = host_of m q -> p = q.
Proof.
  intros R (_ & b & Hb & Ha) (_ & c & Hc & Hd). unfold host_of.
  rewrite (get_ram_ptr_some _ p b), (get_ram_ptr_some _ q c) by done. intros E.
  pose proof Ha as Ha'. pose proof Hd as Hd'. apply block_has_spec in Ha', Hd'.
  assert (b = c) as ->; [|lia]. apply (rb_hosts _ R _ _ (rb_host b + (p - rb_offset b))); [done | done | apply host_in_spec; lia|].
  rewrite E. apply host_in_spec. lia.
Qed.

Lemma reset_dirty_direct start e h : direct (tlb_reset_dirty_range start 4096 e) h ->
  direct e h /\ u64 (h - start) >= 4096.
Proof.
  unfold tlb_reset_dirty_range. destruct (page_offset (addr_write e) =? IO_MEM_RAM) eqn:E; [|intros [D _]; apply Z.eqb_neq in E; done].
  destruct (u64 (u64 (page_start (addr_write e) + addend e) - start) <? 4096) eqn:L.
  - intros [D _]. cbn in D. exfalso. revert D. unfold page_offset, page_start.
    rewrite Z.land_lor_distr_l, <- Z.land_assoc. change (Z.land (Z.lnot 4095) 4095) with 0. by rewrite Z.land_0_r.
  - intros [D1 D2]. split; [done|]. apply Z.ltb_ge in L. rewrite D2 in L. lia.
Qed.

(** What [tlb_protect_code] does to a page of RAM. *)
Lemma protect_ok m cs p : ram_ok (ram_blocks m) -> ram_page m p -> 0 <= p -> p / 4096 < Z.of_nat (length (phys_ram_dirty m)) ->
  exists m' cs', tlb_protect_code m cs p = Ok (m', cs') /\ ram_blocks m' ≡ₚ ram_blocks m /\
    phys_ram_dirty m' = aset (phys_ram_dirty m) (p / 4096) (Z.land (dirty_flags_of m p) (Z.lnot CODE_DIRTY_FLAG)) /\
    cs' = map (fun env => env <| tlb_table := map (map (tlb_reset_dirty_range (host_of m p) 4096)) (tlb_table env) |>) cs.
Proof.
  intros R (Hp & b & Hb & Ha) H0 Hlen. unfold tlb_protect_code, cpu_physical_memory_reset_dirty.
  rewrite !page_start_eq. change TARGET_PAGE_SIZE with 4096.
  replace (p / 4096 * 4096) with p by (pose proof (Z.div_mod p 4096); lia).
  replace ((p + 4096 + 4096 - 1) / 4096 * 4096) with (p + 4096).
  2: { replace (p + 4096 + 4096 - 1) with (4095 + (p / 4096 + 1) * 4096) by (pose proof (Z.div_mod p 4096); lia).
       rewrite Z.div_add by lia. change (4095 / 4096) with 0. pose proof (Z.div_mod p 4096). lia. }
  replace (p + 4096 - p) with 4096 by lia. cbn [Z.eqb Pos.eqb]. change (Z.to_nat (Z.shiftr 4096 TARGET_PAGE_BITS)) with 1%nat.
  cbn [reset_dirty_loop ram_blocks phys_ram_dirty].
  assert (Hs : Z.shiftr p TARGET_PAGE_BITS = p / 4096) by (by rewrite Z.shiftr_div_pow2).
  set (m1 := m <| phys_ram_dirty := _ |>). change (ram_blocks m1) with (ram_blocks m).
  pose proof (get_ram_ptr_perm (ram_blocks m) p) as P1. pose proof (get_ram_ptr_some _ p b R Hb Ha) as E1.
  unfold host_of. destruct (qemu_get_ram_ptr (ram_blocks m) p) as [start1 bs1]. cbn [fst snd] in *.
  assert (R1 : ram_ok bs1) by (by apply (ram_ok_perm (ram_blocks m)); [symmetry|]).
  destruct (rb_pages _ R b Hb) as (Po & Pl & _). pose proof Ha as Ha'. apply block_has_spec in Ha'.
  assert (He : block_has b (p + 4096 - 1) = true).
  { apply block_has_spec. clear -Hp Po Pl Ha'. apply Z.mod_divide in Hp as [k ->], Po as [j Ej], Pl as [l El]; lia. }
  pose proof (get_ram_ptr_perm bs1 (p + 4096 - 1)) as P2.
  pose proof (get_ram_ptr_some bs1 (p + 4096 - 1) b R1 ltac:(by rewrite P1) He) as E2.
  destruct (qemu_get_ram_ptr bs1 (p + 4096 - 1)) as [last bs2]. cbn [fst snd] in *.
  replace (last - start1) with (p + 4096 - 1 - p) by lia. rewrite Z.eqb_refl. cbn [negb].
  eexists _, _. split; [reflexivity|]. split_and!; [cbn; by rewrite P2 | | done].
  cbn. unfold dirty_flags_of. by rewrite Hs.
Qed.

(** RAM with a dirty flag for every page. *)
Record mem_ok (m : Ram) : Prop := {
  m_ram : ram_ok (ram_blocks m);
  m_dirty p : ram_page m p -> p / 4096 < Z.of_nat (length (phys_ram_dirty m))
}.

(** The same RAM, with other dirty flags. *)
Definition same_ram (m m' : Ram) : Prop :=
  ram_blocks m' ≡ₚ ram_blocks m /\ length (phys_ram_dirty m') = length (phys_ram_dirty m).

Lemma same_ram_refl m : same_ram m m.
Proof. by split. Qed.
Lemma same_ram_trans m1 m2 m3 : same_ram m1 m2 -> same_ram m2 m3 -> same_ram m1 m3.
Proof. intros [P1 L1] [P2 L2]. split; [by rewrite P2 | congruence]. Qed.
Lemma same_ram_page m m' p : same_ram m m' -> ram_page m' p <-> ram_page m p.
Proof. intros [P _]. unfold ram_page. by setoid_rewrite P. Qed.
Lemma same_ram_ok m m' : same_ram m m' -> mem_ok m -> mem_ok m'.
Proof.
  intros S [R D]. pose proof S as [P L]. split; [by apply (ram_ok_perm (ram_blocks m))|].
  intros p Hp. rewrite L. apply D. by apply (same_ram_page m m').
Qed.
Lemma same_ram_host m m' p : mem_ok m -> same_ram m m' -> ram_page m p -> host_of m' p = host_of m p.
Proof. intros [R _] [P _]. by apply host_of_perm. Qed.

Lemma ram_page_pos m p : mem_ok m -> ram_page m p -> 0 <= p.
Proof.
  intros [R _] (_ & b & Hb & Ha). apply block_has_spec in Ha. destruct (rb_pages _ R b Hb) as (_ & _ & H & _). lia.
Qed.

Lemma dirty_aset m q p v : 0 <= q -> 0 <= p -> p / 4096 < Z.of_nat (length (phys_ram_dirty m)) -> q mod 4096 = 0 -> p mod 4096 = 0 ->
  dirty_flags_of (m <| phys_ram_dirty := aset (phys_ram_dirty m) (p / 4096) v |>) q =
  if decide (q = p) then v else dirty_flags_of m q.
Proof.
  intros Hq Hp Hl Mq Mp. unfold dirty_flags_of. cbn. rewrite Z.shiftr_div_pow2 by done. change (2 ^ TARGET_PAGE_BITS) with 4096.
  case_decide as D; [subst; apply aget_aset_eq; split; [by apply Z.div_pos | done]|].
  apply aget_aset_ne; [by apply Z.div_pos.. |]. intros E. apply D.
  pose proof (Z.div_mod q 4096 ltac:(done)). pose proof (Z.div_mod p 4096 ltac:(done)). lia.
Qed.

(** What a CPU runs: its jump cache and the block it is in. *)
Definition run_view (e : CPUCommon) := (tb_jmp_cache e, current_tb e).

(** A page that gets its first translated code becomes write protected:
    [tlb_protect_code] does not abort on a page of RAM, afterwards no TLB entry
    of any CPU stores to the page directly and the page is not dirty for
    code; pages that were protected stay so. *)
Lemma protect_protects m cs p : mem_ok m -> ram_page m p ->
  exists m' cs', tlb_protect_code m cs p = Ok (m', cs') /\ same_ram m m' /\ protected m' cs' p /\
    (forall q, ram_page m q -> protected m cs q -> protected m' cs' q) /\ map run_view cs' = map run_view cs.
Proof.
  intros M Hp. pose proof (ram_page_pos m p M Hp) as H0.
  destruct (protect_ok m cs p (m_ram _ M) Hp H0 (m_dirty _ M p Hp)) as (m' & cs' & E & P & D & ->).
  exists m'. eexists. split; [done|].
  assert (S : same_ram m m') by (split; [done | by rewrite D, aset_length]).
  assert (Df : forall q, ram_page m q -> dirty_flags_of m' q =
    if decide (q = p) then Z.land (dirty_flags_of m p) (Z.lnot CODE_DIRTY_FLAG) else dirty_flags_of m q).
  { intros q Hq. pose proof (ram_page_pos m q M Hq).
    rewrite <- (dirty_aset m q p) by (done || by apply Hq || by apply Hp || by apply (m_dirty _ M)).
    unfold dirty_flags_of. by rewrite D. }
  assert (Hk : forall q, ram_page m q -> no_direct cs (host_of m q) \/ q = p ->
    no_direct (map (fun env => env <| tlb_table := map (map (tlb_reset_dirty_range (host_of m p) 4096)) (tlb_table env) |>) cs) (host_of m' q)).
  { intros q Hq Hor env t e He Ht Hin. rewrite (same_ram_host m m') by done.
    apply list_elem_of_fmap in He as (env0 & -> & He). cbn in Ht. apply list_elem_of_fmap in Ht as (t0 & -> & Ht).
    apply list_elem_of_fmap in Hin as (e0 & -> & Hin). intros [Hd Hge]%reset_dirty_direct.
    destruct Hor as [Hn| ->]; [by apply (Hn env0 t0 e0)|]. rewrite Z.sub_diag in Hge. by cbn in Hge. }
  split_and!; [done | split; [rewrite Df, decide_True, Z.land_spec by done; by rewrite andb_false_r | apply Hk; [done | by right]]| |
    by rewrite map_map].
  intros q Hq [Hd Hn]. split; [|apply Hk; [done | by left]]. rewrite Df by done. case_decide as Dq; [|done].
  rewrite Z.land_spec. by rewrite andb_false_r.
Qed.

(** ** The jump cache and the mapping of code *)

Lemma page_start_bit x i : 0 <= i -> Z.testbit (page_start x) i = if i <? 12 then false else Z.testbit x i.
Proof.
  intros Hi. unfold page_start. change 0xfff with (Z.ones 12). rewrite Z.land_spec, Z.lnot_spec, Z.testbit_ones by lia.
  destruct (Z.ltb_spec i 12), (Z.leb_spec 0 i); cbn; rewrite ?andb_false_r, ?andb_true_r; done || lia.
Qed.

Lemma hash_page_start pc : tb_jmp_cache_hash_page (page_start pc) = tb_jmp_cache_hash_page pc.
Proof.
  unfold tb_jmp_cache_hash_page, TB_JMP_PAGE_MASK. apply Z.bits_inj'. intros i Hi. rewrite !Z.land_spec.
  destruct (decide (6 <= i < 12)) as [Hr|Hr].
  - f_equal. rewrite !Z.shiftr_spec, !Z.lxor_spec, !Z.shiftr_spec, !page_start_bit by lia.
    destruct (Z.ltb_spec (i + 6) 12), (Z.ltb_spec (i + 6 + 6) 12); lia || done.
  - assert (Z.testbit 0xfc0 i = false) as ->; [|by rewrite !andb_false_r].
    change 0xfc0 with (Z.shiftl (Z.ones 6) 6). rewrite Z.shiftl_spec by lia. destruct (Z.lt_ge_cases i 6); [by apply Z.testbit_neg_r; lia|].
    rewrite Z.testbit_ones_nonneg by lia. apply Z.ltb_ge. lia.
Qed.

(** The entries of a page of code are together in the cache. *)
Lemma hash_func_page pc : tb_jmp_cache_hash_page pc <= tb_jmp_cache_hash_func pc < tb_jmp_cache_hash_page pc + TB_JMP_PAGE_SIZE.
Proof.
  unfold tb_jmp_cache_hash_func. fold (tb_jmp_cache_hash_page pc). set (l := Z.land _ TB_JMP_ADDR_MASK).
  assert (Hl : 0 <= l < 64).
  { unfold l. change TB_JMP_ADDR_MASK with (Z.ones 6). rewrite Z.land_ones by lia. by apply Z.mod_pos_bound. }
  assert (H0 : Z.land (tb_jmp_cache_hash_page pc) l = 0).
  { unfold tb_jmp_cache_hash_page, l, TB_JMP_PAGE_MASK, TB_JMP_ADDR_MASK.
    rewrite <- !Z.land_assoc. rewrite (Z.land_assoc 0xfc0), (Z.land_comm 0xfc0), <- Z.land_assoc.
    change (Z.land 0xfc0 0x3f) with 0. by rewrite !Z.land_0_r. }
  rewrite <- (Z.add_nocarry_lor _ _ H0). unfold TB_JMP_PAGE_SIZE. lia.
Qed.

Lemma flush_jmp_keeps env a h t : tb_jmp_cache (tlb_flush_jmp_cache env a) !! h = Some t ->
  tb_jmp_cache env !! h = Some t /\
  ~ (tb_jmp_cache_hash_page a <= h < tb_jmp_cache_hash_page a + TB_JMP_PAGE_SIZE) /\
  ~ (tb_jmp_cache_hash_page (u32 (a - TARGET_PAGE_SIZE)) <= h < tb_jmp_cache_hash_page (u32 (a - TARGET_PAGE_SIZE)) + TB_JMP_PAGE_SIZE).
Proof.
  unfold tlb_flush_jmp_cache, clear_cache_page. cbn. rewrite map_lookup_filter_Some. cbn. rewrite map_lookup_filter_Some. cbn. tauto.
Qed.

End SoftTlb.
