(* ===== verification/TbCache.v ===== *)
(** * The cache of translation blocks

    The translation blocks of src/s2e/qemu/exec.c and exec-all.h: their
    allocation, the physical hash chains, the lists of blocks of each guest
    page, the circular lists of jumps chained between blocks, the lookup of
    cpu-exec.c, and their invalidation when the guest writes to its code.

    A block is its index in [tbs].  The lists link blocks through pointers
    whose low two bits say which link of the block continues the list; such a
    pointer is a pair of block and tag, and NULL is [None].  Following NULL is
    [Fail NullDeref], and a list that does not end is [Fail Diverges]. *)

From stdpp Require Import gmap.
From S2P Require Import Prelude SoftTlb.

Module TbCache.
Import SoftTlb.

(** ** State *)

(** Arrays of two. *)
Record Two (A : Type) := mkTwo { e0 : A; e1 : A }.
Arguments mkTwo {A} _ _.
Arguments e0 {A} _.
Arguments e1 {A} _.
Definition get2 {A} (x : Two A) (n : Z) : A := if n =? 0 then e0 x else e1 x.
Definition set2 {A} (x : Two A) (n : Z) (v : A) : Two A := if n =? 0 then mkTwo v (e1 x) else mkTwo (e0 x) v.

(** A tagged pointer to a block. *)
Definition Ref : Type := nat * Z.

Record TranslationBlock := mkTB {
  pc : Z;
  cs_base : Z;
  flags : Z;
  size : Z;
  cflags : Z;
  tc_ptr : Z;
  phys_hash_next : option nat;
  page_next : Two (option Ref);
  page_addr : Two Z;
  tb_next_offset : Two Z;
  tb_next : Two Z;
  jmp_next : Two (option Ref);
  jmp_first : option Ref;
  s2e_tb_next : Two (option nat);
  reg_rmask : Z;
  reg_wmask : Z;
  helper_accesses_mem : Z
}.
#[export] Instance TranslationBlock_eta : RecordEta TranslationBlock :=
  fields mkTB < pc ; cs_base ; flags ; size ; cflags ; tc_ptr ; phys_hash_next ; page_next ; page_addr ;
    tb_next_offset ; tb_next ; jmp_next ; jmp_first ; s2e_tb_next ; reg_rmask ; reg_wmask ; helper_accesses_mem >.

Record PageDesc := mkPageDesc {
  first_tb : option Ref;
  code_write_count : Z;
  code_bitmap : option (list Z)
}.
#[export] Instance PageDesc_eta : RecordEta PageDesc :=
  fields mkPageDesc < first_tb ; code_write_count ; code_bitmap >.

Record Exec := mkExec {
  tbs : list TranslationBlock;
  nb_tbs : Z;
  code_gen_max_blocks : Z;
  tb_phys_hash : gmap Z nat;
  l1_map : gmap Z (list PageDesc);
  code_gen_buffer : Z;
  code_gen_buffer_size : Z;
  code_gen_buffer_max_size : Z;
  code_gen_ptr : Z;
  tb_invalidated_flag : Z;
  tb_flush_count : Z;
  tb_phys_invalidate_count : Z;
  cpus : list CPUCommon;
  ram : Ram
}.
#[export] Instance Exec_eta : RecordEta Exec :=
  fields mkExec < tbs ; nb_tbs ; code_gen_max_blocks ; tb_phys_hash ; l1_map ; code_gen_buffer ;
    code_gen_buffer_size ; code_gen_buffer_max_size ; code_gen_ptr ; tb_invalidated_flag ; tb_flush_count ;
    tb_phys_invalidate_count ; cpus ; ram >.

(** [-1] as a [target_ulong]. *)
Definition NO_PAGE : Z := 0xffffffff.

Definition deref {A} (p : option A) : Res A := match p with Some a => Ok a | None => Fail NullDeref end.
Definition tb_at (s : Exec) (t : nat) : Res TranslationBlock :=
  match tbs s !! t with Some b => Ok b | None => Fail OutOfBounds end.
Definition tb_upd (s : Exec) (t : nat) (f : TranslationBlock -> TranslationBlock) : Exec :=
  s <| tbs := alter f t (tbs s) |>.

(** A bound on the length of every list of blocks. *)
Definition list_bound (s : Exec) : nat := S (S (2 * length (tbs s))).

(** ** Pages *)

Definition page_find (s : Exec) (index : Z) : option PageDesc :=
  l1_map s !! Z.shiftr index 10 ≫= fun p => p !! Z.to_nat (Z.land index (L2_SIZE - 1)).

Definition new_table : list PageDesc := replicate (Z.to_nat L2_SIZE) (mkPageDesc None 0 None).  (* zeroed *)

Definition page_find_alloc (s : Exec) (index : Z) : Exec :=
  match l1_map s !! Z.shiftr index 10 with
  | Some _ => s
  | None =>
      s <| l1_map := <[Z.shiftr index 10 := new_table]> (l1_map s) |>
  end.

Definition page_upd (s : Exec) (index : Z) (f : PageDesc -> PageDesc) : Exec :=
  s <| l1_map := alter (alter f (Z.to_nat (Z.land index (L2_SIZE - 1)))) (Z.shiftr index 10) (l1_map s) |>.

Definition invalidate_page_bitmap (p : PageDesc) : PageDesc :=
  p <| code_bitmap := None |> <| code_write_count := 0 |>.

Definition page_flush_tb (s : Exec) : Exec :=
  s <| l1_map := map (fun p => invalidate_page_bitmap (p <| first_tb := None |>)) <$> l1_map s |>.

(** ** Allocation *)

Definition tb_flush (s : Exec) : Res Exec :=
  if code_gen_buffer_size s <? code_gen_ptr s - code_gen_buffer s then Fail AbortCalled
  else
    let s := s <| nb_tbs := 0 |> in
    let s := s <| cpus := map (fun env => env <| tb_jmp_cache := ∅ |>) (cpus s) |> in
    let s := s <| tb_phys_hash := ∅ |> in
    let s := page_flush_tb s in
    let s := s <| code_gen_ptr := code_gen_buffer s |> in
    Ok (s <| tb_flush_count := tb_flush_count s + 1 |>).

(** The part of S2E's hook that concerns the block itself. *)
Definition s2e_tb_alloc (s : Exec) (tb : nat) : Exec :=
  tb_upd s tb (fun b => b <| s2e_tb_next := mkTwo None None |>).

Definition tb_alloc (s : Exec) (pc0 : Z) : Res (option nat * Exec) :=
  if (code_gen_max_blocks s <=? nb_tbs s) || (code_gen_buffer_max_size s <=? code_gen_ptr s - code_gen_buffer s)
  then Ok (None, s)
  else
    let tb := Z.to_nat (nb_tbs s) in
    let* _ := tb_at s tb in
    let s := s <| nb_tbs := nb_tbs s + 1 |> in
    let s := tb_upd s tb (fun b => b <| pc := pc0 |> <| cflags := 0 |>) in
    Ok (Some tb, s2e_tb_alloc s tb).

Definition tb_free (s : Exec) (tb : nat) : Res Exec :=
  if (0 <? nb_tbs s) && (Z.of_nat tb =? nb_tbs s - 1) then
    let* b := tb_at s tb in
    let s := s <| code_gen_ptr := tc_ptr b |> in
    Ok (s <| nb_tbs := nb_tbs s - 1 |>)
  else Ok s.

(** ** Jumps *)

(** The target the jump [n] of the code of the block has.  (Hosts on which the
    jump instruction itself is patched keep it there.) *)
Definition tb_set_jmp_target (s : Exec) (tb : nat) (n addr : Z) : Exec :=
  tb_upd s tb (fun b => b <| tb_next := set2 (tb_next b) n addr |>).

Definition tb_reset_jump (s : Exec) (tb : nat) (n : Z) : Res Exec :=
  let* b := tb_at s tb in
  let s := tb_set_jmp_target s tb n (tc_ptr b + get2 (tb_next_offset b) n) in
  Ok (tb_upd s tb (fun b => b <| s2e_tb_next := set2 (s2e_tb_next b) n None |>)).

Definition tb_add_jump (s : Exec) (tb : nat) (n : Z) (tbn : nat) : Res Exec :=
  let* b := tb_at s tb in
  match get2 (jmp_next b) n with
  | Some _ => Ok s
  | None =>
      let* nx := tb_at s tbn in
      let s := tb_set_jmp_target s tb n (tc_ptr nx) in
      let s := tb_upd s tb (fun b => b <| jmp_next := set2 (jmp_next b) n (jmp_first nx) |>) in
      let s := tb_upd s tbn (fun b => b <| jmp_first := Some (tb, n) |>) in
      Ok (tb_upd s tb (fun b => b <| s2e_tb_next := set2 (s2e_tb_next b) n (Some tbn) |>))
  end.

(** ** Removal from the lists *)

(** [ptb] of [tb_remove]: a bucket of the hash table or the link of a block. *)
Inductive HashLoc := Bucket (h : Z) | HashNext (tb : nat).
Definition read_hash (s : Exec) (l : HashLoc) : Res (option nat) :=
  match l with
  | Bucket h => Ok (tb_phys_hash s !! h)
  | HashNext tb => let* b := tb_at s tb in Ok (phys_hash_next b)
  end.
Definition write_hash (s : Exec) (l : HashLoc) (v : option nat) : Exec :=
  match l with
  | Bucket h => s <| tb_phys_hash := partial_alter (fun _ => v) h (tb_phys_hash s) |>
  | HashNext tb => tb_upd s tb (fun b => b <| phys_hash_next := v |>)
  end.

Fixpoint tb_remove (fuel : nat) (s : Exec) (ptb : HashLoc) (tb : nat) : Res Exec :=
  match fuel with
  | O => Fail Diverges
  | S fuel =>
      let* p := read_hash s ptb in
      let* tb1 := deref p in
      if (tb1 =? tb)%nat then
        let* b := tb_at s tb1 in
        Ok (write_hash s ptb (phys_hash_next b))
      else tb_remove fuel s (HashNext tb1) tb
  end.

(** [ptb] of [tb_page_remove]: the head of a page or the link [n] of a block. *)
Inductive PageLoc := PageHead (index : Z) | PageNext (tb : nat) (n : Z).
Definition read_page (s : Exec) (l : PageLoc) : Res (option Ref) :=
  match l with
  | PageHead i => let* p := deref (page_find s i) in Ok (first_tb p)
  | PageNext tb n => let* b := tb_at s tb in Ok (get2 (page_next b) n)
  end.
Definition write_page (s : Exec) (l : PageLoc) (v : option Ref) : Exec :=
  match l with
  | PageHead i => page_upd s i (fun p => p <| first_tb := v |>)
  | PageNext tb n => tb_upd s tb (fun b => b <| page_next := set2 (page_next b) n v |>)
  end.

Fixpoint tb_page_remove (fuel : nat) (s : Exec) (ptb : PageLoc) (tb : nat) : Res Exec :=
  match fuel with
  | O => Fail Diverges
  | S fuel =>
      let* p := read_page s ptb in
      let* (tb1, n1) := deref p in
      if (tb1 =? tb)%nat then
        let* b := tb_at s tb1 in
        Ok (write_page s ptb (get2 (page_next b) n1))
      else tb_page_remove fuel s (PageNext tb1 n1) tb
  end.

(** [ptb] of [tb_jmp_remove]: a jump link of a block, or the head of the list of
    jumps to a block. *)
Definition read_jmp (s : Exec) (l : Ref) : Res (option Ref) :=
  let* b := tb_at s l.1 in Ok (if l.2 =? 2 then jmp_first b else get2 (jmp_next b) l.2).
Definition write_jmp (s : Exec) (l : Ref) (v : option Ref) : Exec :=
  tb_upd s l.1 (fun b => if l.2 =? 2 then b <| jmp_first := v |> else b <| jmp_next := set2 (jmp_next b) l.2 v |>).

Fixpoint jmp_remove_loop (fuel : nat) (s : Exec) (ptb : Ref) (tb : nat) (n : Z) : Res Exec :=
  match fuel with
  | O => Fail Diverges
  | S fuel =>
      let* p := read_jmp s ptb in
      let* (tb1, n1) := deref p in
      if (n1 =? n) && (tb1 =? tb)%nat then
        let* b := tb_at s tb in
        let s := write_jmp s ptb (get2 (jmp_next b) n) in
        Ok (write_jmp s (tb, n) None)
      else jmp_remove_loop fuel s (tb1, n1) tb n
  end.

Definition tb_jmp_remove (s : Exec) (tb : nat) (n : Z) : Res Exec :=
  let* b := tb_at s tb in
  match get2 (jmp_next b) n with
  | None => Ok s
  | Some _ => jmp_remove_loop (list_bound s) s (tb, n) tb n
  end.

(** The head of the list a jump is on: the block it goes to. *)
Fixpoint jmp_list_head (fuel : nat) (s : Exec) (p : option Ref) : Res nat :=
  match fuel with
  | O => Fail Diverges
  | S fuel =>
      let* (tb1, n1) := deref p in
      if n1 =? 2 then Ok tb1
      else
        let* b := tb_at s tb1 in
        jmp_list_head fuel s (get2 (jmp_next b) n1)
  end.

(** The link that holds the jump [n] of [tb], from link [ptb] on. *)
Fixpoint jmp_list_find (fuel : nat) (s : Exec) (ptb : Ref) (tb : nat) (n : Z) : Res Ref :=
  match fuel with
  | O => Fail Diverges
  | S fuel =>
      let* p := read_jmp s ptb in
      let* (tb1, n1) := deref p in
      if (n1 =? n) && (tb1 =? tb)%nat then Ok ptb
      else if n1 =? 2 then Fail OutOfBounds
      else jmp_list_find fuel s (tb1, n1) tb n
  end.

(** The common part of [tb_reset_jump_recursive2] and [s2e_tb_reset_jump]: the
    block the jump went to, when it was chained. *)
Definition unchain (s : Exec) (tb : nat) (n : Z) : Res (option nat * Exec) :=
  let* b := tb_at s tb in
  match get2 (jmp_next b) n with
  | None => Ok (None, s)
  | Some r =>
      let* tbn := jmp_list_head (list_bound s) s (Some r) in
      let* ptb := jmp_list_find (list_bound s) s (tbn, 2) tb n in
      let* b := tb_at s tb in
      let s := write_jmp s ptb (get2 (jmp_next b) n) in
      let s := write_jmp s (tb, n) None in
      let* s := tb_reset_jump s tb n in
      Ok (Some tbn, s)
  end.

(** [fuel] bounds the number of chained jumps. *)
Fixpoint tb_reset_jump_recursive (fuel : nat) (s : Exec) (tb : nat) : Res Exec :=
  match fuel with
  | O => Fail Diverges
  | S fuel =>
      let two (s : Exec) (n : Z) :=
        let* (next, s) := unchain s tb n in
        match next with None => Ok s | Some tbn => tb_reset_jump_recursive fuel s tbn end in
      let* s := two s 0 in
      two s 1
  end.

(** The CPU [k] stops soon: nothing it can be executing stays chained.  (The
    lock that makes the call safe in signal handlers is free.) *)
Definition cpu_unlink_tb (s : Exec) (k : nat) : Res Exec :=
  match cpus s !! k with
  | None => Fail OutOfBounds
  | Some env =>
      match current_tb env with
      | None => Ok s
      | Some tb =>
          let s := s <| cpus := alter (fun env => env <| current_tb := None |>) k (cpus s) |> in
          tb_reset_jump_recursive (list_bound s) s tb
      end
  end.

Definition s2e_tb_reset_jump (s : Exec) (tb : nat) (n : Z) : Res Exec :=
  let* (_, s) := unchain s tb n in Ok s.

(** Whether the code of a block may touch registers of [smask]. *)
Definition touches (b : TranslationBlock) (smask : Z) : bool :=
  nz (Z.land smask (reg_rmask b)) || nz (Z.land smask (reg_wmask b)) || nz (Z.land (helper_accesses_mem b) 4).

(** [depth_left] is 3 minus the depth of the recursion, so that depth above 2 is 0. *)
Fixpoint s2e_tb_reset_jump_smask (depth_left : nat) (s : Exec) (tb : nat) (n smask : Z) : Res Exec :=
  let* b := tb_at s tb in
  match get2 (s2e_tb_next b) n with
  | None => Ok s
  | Some tb1 =>
      let* b1 := tb_at s tb1 in
      match depth_left with
      | O => s2e_tb_reset_jump s tb n
      | S depth_left =>
          if touches b1 smask then s2e_tb_reset_jump s tb n
          else if negb (tb1 =? tb)%nat then
            let* s := s2e_tb_reset_jump_smask depth_left s tb1 0 smask in
            s2e_tb_reset_jump_smask depth_left s tb1 1 smask
          else Ok s
      end
  end.

(** How [executeTranslationBlock] runs a block when registers are symbolic:
    [true] for the symbolic executor, otherwise natively after unchaining. *)
Definition prepare_native (s : Exec) (tb : nat) (smask : Z) : Res (bool * Exec) :=
  let* b := tb_at s tb in
  if nz smask || nz (Z.land (helper_accesses_mem b) 4) then
    if touches b smask then Ok (true, s)
    else
      let* s := s2e_tb_reset_jump_smask 3 s tb 0 smask in
      let* s := s2e_tb_reset_jump_smask 3 s tb 1 smask in
      Ok (false, s)
  else Ok (false, s).

(** The last loop of [tb_phys_invalidate]: the jumps to the block. *)
Fixpoint reset_jumps (fuel : nat) (s : Exec) (p : option Ref) : Res Exec :=
  match fuel with
  | O => Fail Diverges
  | S fuel =>
      let* (tb1, n1) := deref p in
      if n1 =? 2 then Ok s
      else
        let* b := tb_at s tb1 in
        let tb2 := get2 (jmp_next b) n1 in
        let* s := tb_reset_jump s tb1 n1 in
        let s := write_jmp s (tb1, n1) None in
        reset_jumps fuel s tb2
  end.

Definition tb_phys_hash_func (pc : Z) : Z := Z.land pc 0x7fff.
Definition phys_pc_of (b : TranslationBlock) : Z := u32 (get2 (page_addr b) 0 + page_offset (pc b)).

(** One page of the block, unless it is [page_addr]. *)
Definition remove_from_page (s : Exec) (tb : nat) (n page_addr0 : Z) : Res Exec :=
  let* b := tb_at s tb in
  let addr := get2 (page_addr b) n in
  if ((n =? 1) && (addr =? NO_PAGE)) || (addr =? page_addr0) then Ok s
  else
    let index := Z.shiftr addr TARGET_PAGE_BITS in
    let* s := tb_page_remove (list_bound s) s (PageHead index) tb in
    Ok (page_upd s index invalidate_page_bitmap).

Definition forget_in_caches (s : Exec) (tb : nat) (h : Z) : Exec :=
  s <| cpus := map (fun env =>
    if decide (tb_jmp_cache env !! h = Some tb) then env <| tb_jmp_cache := delete h (tb_jmp_cache env) |> else env)
    (cpus s) |>.

(** The end of [tb_phys_invalidate]: the jumps of the block and those to it. *)
Definition suppress_jumps (s : Exec) (tb : nat) : Res Exec :=
  let* s := tb_jmp_remove s tb 0 in
  let* s := tb_jmp_remove s tb 1 in
  let* b := tb_at s tb in
  let* s := reset_jumps (list_bound s) s (jmp_first b) in
  Ok (tb_upd s tb (fun b => b <| jmp_first := Some (tb, 2) |>)).

Definition tb_phys_invalidate (s : Exec) (tb : nat) (page_addr0 : Z) : Res Exec :=
  let* b := tb_at s tb in
  let h := tb_phys_hash_func (phys_pc_of b) in
  let* s := tb_remove (list_bound s) s (Bucket h) tb in
  let* s := remove_from_page s tb 0 page_addr0 in
  let* s := remove_from_page s tb 1 page_addr0 in
  let s := s <| tb_invalidated_flag := 1 |> in
  let s := forget_in_caches s tb (tb_jmp_cache_hash_func (pc b)) in
  let* s := suppress_jumps s tb in
  Ok (s <| tb_phys_invalidate_count := tb_phys_invalidate_count s + 1 |>).

(** The part of page [n] of a block that holds its code, as offsets.  The end
    may be after the end of the page. *)
Definition page_span (b : TranslationBlock) (n : Z) : Z * Z :=
  if n =? 0 then
    let tb_start := page_offset (pc b) in
    let tb_end := tb_start + size b in
    (tb_start, if TARGET_PAGE_SIZE <? tb_end then TARGET_PAGE_SIZE else tb_end)
  else (0, page_offset (u32 (pc b + size b))).

(** ** Linking a new block *)

Definition tb_alloc_page (s : Exec) (tb : nat) (n page_addr0 : Z) : Res Exec :=
  let s := tb_upd s tb (fun b => b <| page_addr := set2 (page_addr b) n page_addr0 |>) in
  let index := Z.shiftr page_addr0 TARGET_PAGE_BITS in
  let s := page_find_alloc s index in
  let* p := deref (page_find s index) in
  let last_first_tb := first_tb p in
  let s := tb_upd s tb (fun b => b <| page_next := set2 (page_next b) n last_first_tb |>) in
  let s := page_upd s index (fun p => invalidate_page_bitmap (p <| first_tb := Some (tb, n) |>)) in
  match last_first_tb with
  | Some _ => Ok s
  | None =>
      let* (m, cs) := tlb_protect_code (ram s) (cpus s) page_addr0 in
      Ok (s <| ram := m |> <| cpus := cs |>)
  end.

Definition tb_link_phys (s : Exec) (tb : nat) (phys_pc phys_page2 : Z) : Res Exec :=
  let h := tb_phys_hash_func phys_pc in
  let s := tb_upd s tb (fun b => b <| phys_hash_next := tb_phys_hash s !! h |>) in
  let s := s <| tb_phys_hash := <[h := tb]> (tb_phys_hash s) |> in
  let* s := tb_alloc_page s tb 0 (page_start phys_pc) in
  let* s :=
    if negb (phys_page2 =? NO_PAGE) then tb_alloc_page s tb 1 phys_page2
    else Ok (tb_upd s tb (fun b => b <| page_addr := set2 (page_addr b) 1 NO_PAGE |>)) in
  let s := tb_upd s tb (fun b => b <| jmp_first := Some (tb, 2) |> <| jmp_next := mkTwo None None |>) in
  let* b := tb_at s tb in
  let* s := if negb (get2 (tb_next_offset b) 0 =? 0xffff) then tb_reset_jump s tb 0 else Ok s in
  if negb (get2 (tb_next_offset b) 1 =? 0xffff) then tb_reset_jump s tb 1 else Ok s.

#[global] Arguments new_table : simpl never.
#[global] Arguments tb_upd : simpl never.
#[global] Arguments page_upd : simpl never.
#[global] Arguments write_jmp : simpl never.
#[global] Arguments write_hash : simpl never.
#[global] Arguments write_page : simpl never.
#[global] Arguments list_bound : simpl never.
#[global] Arguments tb_set_jmp_target : simpl never.

End TbCache.
