(* ===== verification/TbJumps.v ===== *)
(** * Chained jumps between translation blocks

    The circular lists of jumps of [TbCache]: each block has a list of the
    jumps that go to it, which [tb_add_jump] extends and [tb_jmp_remove],
    [s2e_tb_reset_jump] and [tb_phys_invalidate] take apart.  [jumps] is their
    shape; the last part shows what unchaining before a native run achieves. *)

From stdpp Require Import gmap.
From S2P Require Import Prelude Chains SoftTlb TbCache.

Module TbJumps.
Import SoftTlb TbCache.

(** ** Links and targets *)

Definition link (s : Exec) (r : Ref) : option Ref :=
  match tbs s !! r.1 with
  | Some b => if r.2 =? 2 then jmp_first b else get2 (jmp_next b) r.2
  | None => None
  end.

Definition target (s : Exec) (r : Ref) : option nat :=
  match tbs s !! r.1 with Some b => get2 (s2e_tb_next b) r.2 | None => None end.

(** A jump of a block, and a link of one. *)
Definition is_jump (r : Ref) : Prop := r.2 = 0 \/ r.2 = 1.
Definition is_link (r : Ref) : Prop := r.2 = 0 \/ r.2 = 1 \/ r.2 = 2.

Lemma jump_link r : is_jump r -> is_link r.
Proof. unfold is_jump, is_link. tauto. Qed.

Lemma get2_set2 {A} (x : Two A) n m v : (n = 0 \/ n = 1) -> (m = 0 \/ m = 1) ->
  get2 (set2 x n v) m = if n =? m then v else get2 x m.
Proof. by intros [-> | ->] [-> | ->]. Qed.

Lemma lookup_upd s t f u : tbs (tb_upd s t f) !! u = if decide (t = u) then f <$> tbs s !! u else tbs s !! u.
Proof.
  unfold tb_upd. cbn. destruct (decide (t = u)) as [->|]; [apply list_lookup_alter_eq | by apply list_lookup_alter_ne].
Qed.

Lemma length_upd s t f : length (tbs (tb_upd s t f)) = length (tbs s).
Proof. unfold tb_upd. cbn. apply length_alter. Qed.

Lemma link_write s l v r : is_link l -> is_link r -> (l.1 < length (tbs s))%nat ->
  link (write_jmp s l v) r = if decide (r = l) then v else link s r.
Proof.
  intros Hl Hr Hb. destruct l as [t n], r as [u m]. cbn in *. unfold link, write_jmp. cbn [fst snd].
  rewrite lookup_upd. destruct (decide (t = u)) as [<-|Ht].
  - apply lookup_lt_is_Some in Hb as [b ->]. cbn. unfold is_link in *. cbn in *.
    case_decide as Hd; [injection Hd as -> | assert (m <> n) by congruence].
    + by destruct Hl as [-> | [-> | ->]].
    + by destruct Hl as [-> | [-> | ->]], Hr as [-> | [-> | ->]].
  - rewrite decide_False by congruence. done.
Qed.

Lemma target_write s l v r : target (write_jmp s l v) r = target s r.
Proof.
  unfold target, write_jmp. rewrite lookup_upd. destruct (decide (l.1 = r.1)) as [<-|]; [|done].
  destruct (tbs s !! l.1); [|done]. cbn. by destruct (l.2 =? 2).
Qed.

(** ** Frames *)

(** Two blocks that differ in their jumps only. *)
Definition jmp_same (b b' : TranslationBlock) : Prop :=
  b' = b <| jmp_next := jmp_next b' |> <| jmp_first := jmp_first b' |> <| tb_next := tb_next b' |>
         <| s2e_tb_next := s2e_tb_next b' |>.

Definition jmp_frame (s s' : Exec) : Prop :=
  s' = s <| tbs := tbs s' |> /\ Forall2 jmp_same (tbs s) (tbs s').

Lemma jmp_same_refl b : jmp_same b b.
Proof. by destruct b. Qed.
Lemma jmp_same_trans b1 b2 b3 : jmp_same b1 b2 -> jmp_same b2 b3 -> jmp_same b1 b3.
Proof. unfold jmp_same. destruct b1, b2, b3. cbn. intros [=] [=]. by subst. Qed.

Lemma jmp_frame_refl s : jmp_frame s s.
Proof. split; [by destruct s|]. apply Forall2_same_length_lookup. split; [done|]. intros i x y -> [= ->]. apply jmp_same_refl. Qed.
Lemma jmp_frame_trans s1 s2 s3 : jmp_frame s1 s2 -> jmp_frame s2 s3 -> jmp_frame s1 s3.
Proof.
  intros [E1 F1] [E2 F2]. split; [rewrite E2, E1; by destruct s1|].
  revert F1 F2. generalize (tbs s1), (tbs s2), (tbs s3). intros l1 l2 l3 F1. revert l3.
  induction F1; intros l3 F2; inversion F2; subst; constructor; [by eapply jmp_same_trans | by apply IHF1].
Qed.

Lemma jmp_frame_upd s t f : (forall b, jmp_same b (f b)) -> jmp_frame s (tb_upd s t f).
Proof.
  intros H. split; [by destruct s|]. unfold tb_upd. cbn. apply Forall2_same_length_lookup.
  split; [by rewrite length_alter|]. intros i x y Hx Hy. destruct (decide (i = t)) as [->|].
  - rewrite list_lookup_alter_eq, Hx in Hy. injection Hy as <-. apply H.
  - rewrite list_lookup_alter_ne, Hx in Hy by done. injection Hy as <-. apply jmp_same_refl.
Qed.

Lemma jmp_frame_length s s' : jmp_frame s s' -> length (tbs s') = length (tbs s).
Proof. intros [_ F]. by apply Forall2_length in F. Qed.

Lemma jmp_frame_at s s' t b : jmp_frame s s' -> tbs s !! t = Some b ->
  exists b', tbs s' !! t = Some b' /\ jmp_same b b'.
Proof. intros [_ F] E. exact (Forall2_lookup_l _ _ _ _ _ F E). Qed.

Lemma write_frame s l v : jmp_frame s (write_jmp s l v).
Proof. apply jmp_frame_upd. intros b. destruct (l.2 =? 2); by destruct b. Qed.

(** ** The shape of the jump lists *)

(** [L t] is the list of jumps to the block [t]. *)
Record jumps (s : Exec) (live : gset nat) (L : nat -> list Ref) : Prop := {
  j_live t : t ∈ live -> (t < length (tbs s))%nat;
  j_chain t : t ∈ live -> chain (link s) (link s (t, 2)) (Some (t, 2)) (L t);
  j_nodup t : t ∈ live -> NoDup (L t);
  j_jump t r : t ∈ live -> r ∈ L t -> is_jump r /\ r.1 ∈ live;
  j_disj t t' r : t ∈ live -> t' ∈ live -> r ∈ L t -> r ∈ L t' -> t = t';
  j_free r : r.1 ∈ live -> is_jump r -> (forall t, t ∈ live -> r ∉ L t) -> link s r = None
}.

(** The jumps of [k] blocks. *)
Definition all_jumps (k : nat) : list Ref := flat_map (fun u => [(u, 0); (u, 1)]) (seq 0 k).

Lemma all_jumps_elem k r : r ∈ all_jumps k <-> is_jump r /\ (r.1 < k)%nat.
Proof.
  destruct r as [u n]. unfold all_jumps, is_jump. rewrite list_elem_of_In, in_flat_map. setoid_rewrite in_seq. cbn.
  split.
  - intros (v & Hv & [[= -> <-] | [[= -> <-] | []]]); lia.
  - intros [Hn Hu]. exists u. split; [lia|]. destruct Hn as [-> | ->]; tauto.
Qed.

Lemma all_jumps_length k : length (all_jumps k) = (2 * k)%nat.
Proof.
  unfold all_jumps. assert (H : forall k i, length (flat_map (fun u => [(u, 0); (u, 1)]) (seq i k)) = (2 * k)%nat).
  { clear k. induction k as [|k IH]; intros i; [done|]. cbn [flat_map seq app length]. rewrite IH. lia. }
  apply H.
Qed.

Lemma jumps_ext s live L L' : jumps s live L -> (forall t, t ∈ live -> L' t = L t) -> jumps s live L'.
Proof.
  intros [] E. split; intros; rewrite ?E in * by done; eauto.
  apply j_free0; [done..|]. intros t Ht. rewrite <- E by done. auto.
Qed.

Section Jumps.
Context (s : Exec) (live : gset nat) (L : nat -> list Ref) (HJ : jumps s live L).

Lemma j_root t : t ∈ live -> NoDup ((t, 2) :: L t).
Proof.
  intros Ht. apply list.NoDup_cons. split; [|by apply (j_nodup s live L HJ)].
  intros H. destruct (j_jump s live L HJ t _ Ht H) as [[H2|H2] _]; discriminate.
Qed.

Lemma j_link t r : t ∈ live -> r ∈ (t, 2) :: L t -> is_link r /\ r.1 ∈ live.
Proof.
  intros Ht [->|H]%elem_of_cons; [split; [right; right; done | done]|].
  destruct (j_jump s live L HJ t r Ht H). split; [by apply jump_link | done].
Qed.

(** The lists are short enough for the loops. *)
Lemma j_length t : t ∈ live -> (length (L t) < list_bound s - 1)%nat.
Proof.
  intros Ht. pose proof (all_jumps_length (length (tbs s))) as Hall.
  assert (length (L t) <= length (all_jumps (length (tbs s))))%nat; [|unfold list_bound; lia].
  apply submseteq_length, NoDup_submseteq; [by apply (j_nodup s live L HJ)|].
  intros r H. destruct (j_jump s live L HJ t _ Ht H) as [Hn Hu]. apply all_jumps_elem.
  split; [done | by apply (j_live s live L HJ)].
Qed.

(** Taking a jump out of its list: what the new links must be. *)
Lemma jumps_unlink s' t l1 r l2 :
  t ∈ live -> L t = l1 ++ r :: l2 -> length (tbs s') = length (tbs s) ->
  (forall y, is_link y -> y.1 ∈ live -> link s' y =
    if decide (y = r) then None else if decide (y = before (t, 2) l1) then link s r else link s y) ->
  jumps s' live (fun u => filter (fun y => y <> r) (L u)).
Proof.
  intros Ht E Hlen Hl. pose proof (j_root t Ht) as N. rewrite E in N.
  assert (Hr : r ∈ L t) by (rewrite E; set_solver).
  destruct (j_jump s live L HJ t r Ht Hr) as [Jr Lr].
  assert (Hp : before (t, 2) l1 ∈ (t, 2) :: l1) by (destruct (before_elem (t, 2) l1) as [->|]; set_solver).
  assert (Hpr : before (t, 2) l1 <> r).
  { intros B. rewrite B in Hp. apply list.NoDup_cons in N as [N1 N2]. apply list.NoDup_app in N2 as (_ & N2 & _).
    apply elem_of_cons in Hp as [->|Hp]; [apply N1; set_solver | apply (N2 r Hp); by left]. }
  split.
  - intros u Hu. rewrite Hlen. by apply (j_live s live L HJ).
  - intros u Hu. destruct (decide (u = t)) as [->|Hut].
    + rewrite E, filter_neq_split by (by apply list.NoDup_cons in N as [_ N]).
      apply (chain_unlink (link s) (link s') (t, 2) (Some (t, 2)) l1 r l2); [|done|..].
      * rewrite <- E. by apply (j_chain s live L HJ).
      * intros y Hy H1 H2. destruct (j_link t y Ht) as [Ky Ly]; [by rewrite E|].
        rewrite Hl by done. by rewrite decide_False, decide_False.
      * destruct (j_link t (before (t, 2) l1) Ht) as [Ky Ly]; [rewrite E; set_solver|].
        rewrite Hl by done. by rewrite decide_False, decide_True.
    + assert (Hru : r ∉ L u) by (intros H; apply Hut; by apply (j_disj s live L HJ u t r)).
      rewrite filter_neq_notin by done.
      assert (Hk : forall y, y ∈ (u, 2) :: L u -> link s' y = link s y).
      { intros y Hy. destruct (j_link u y Hu Hy) as [Ky Ly]. rewrite Hl by done.
        rewrite decide_False by (intros ->; destruct Jr as [Jr|Jr]; set_solver).
        rewrite decide_False; [done|]. intros ->. apply elem_of_cons in Hp as [Hp|Hp].
        - rewrite Hp in *. apply elem_of_cons in Hy as [Hy|Hy]; [congruence|].
          destruct (j_jump s live L HJ u _ Hu Hy) as [[?|?] _]; discriminate.
        - assert (Hpt : before (t, 2) l1 ∈ L t) by (rewrite E; set_solver).
          apply elem_of_cons in Hy as [Hy|Hy].
          + rewrite Hy in Hpt. destruct (j_jump s live L HJ t _ Ht Hpt) as [[?|?] _]; discriminate.
          + apply Hut. by apply (j_disj s live L HJ u t (before (t, 2) l1)). }
      rewrite Hk by left. apply (chain_ext (link s)); [|by apply (j_chain s live L HJ)].
      intros y Hy. apply Hk. by right.
  - intros u Hu. apply list.NoDup_filter. by apply (j_nodup s live L HJ).
  - intros u y Hu [_ Hy]%list_elem_of_filter. by apply (j_jump s live L HJ u).
  - intros u u' y Hu Hu' [_ Hy]%list_elem_of_filter [_ Hy']%list_elem_of_filter. by apply (j_disj s live L HJ u u' y).
  - intros y Hy Jy Hn. rewrite Hl by (done || by apply jump_link). case_decide; [done|].
    assert (Hy0 : link s y = None).
    { apply (j_free s live L HJ y Hy Jy). intros u Hu Hyu. apply (Hn u Hu). by apply list_elem_of_filter. }
    case_decide as Eb; [|done].
    exfalso. rewrite <- Eb in Hp. apply elem_of_cons in Hp as [->|Hp]; [by destruct Jy|].
    apply (Hn t Ht). apply list_elem_of_filter. split; [done|]. rewrite E. set_solver.
Qed.

End Jumps.

(** ** The loops *)

Lemma tb_at_ok s t : (t < length (tbs s))%nat -> exists b, tbs s !! t = Some b /\ tb_at s t = Ok b.
Proof. intros [b E]%lookup_lt_is_Some. exists b. unfold tb_at. by rewrite E. Qed.

Lemma read_link s l : (l.1 < length (tbs s))%nat -> read_jmp s l = Ok (link s l).
Proof. intros H. destruct (tb_at_ok s l.1 H) as (b & E & A). unfold read_jmp, link. by rewrite A, E. Qed.

Lemma jump_next s r : is_jump r -> (r.1 < length (tbs s))%nat ->
  exists b, tb_at s r.1 = Ok b /\ get2 (jmp_next b) r.2 = link s r.
Proof.
  intros J H. destruct (tb_at_ok s r.1 H) as (b & E & A). exists b. split; [done|]. unfold link. rewrite E.
  by destruct J as [-> | ->].
Qed.

Definition in_range (s : Exec) (r : Ref) : Prop := is_link r /\ (r.1 < length (tbs s))%nat.

Lemma head_walk fuel s hd t l : chain (link s) hd (Some (t, 2)) l ->
  (forall r, r ∈ l -> is_jump r /\ (r.1 < length (tbs s))%nat) -> (length l < fuel)%nat ->
  jmp_list_head fuel s hd = Ok t.
Proof.
  revert fuel hd. induction l as [|r l IH]; intros [|fuel] hd C R F; cbn in F; try lia; cbn.
  - by rewrite C.
  - destruct C as [-> C]. cbn. destruct r as [u n]. destruct (R (u, n)) as [J Hu]; [by left|].
    destruct (jump_next s (u, n) J Hu) as (b & A & E). cbn [fst snd] in *.
    assert (n =? 2 = false) as -> by (by destruct J as [Hn|Hn]; cbn in Hn; rewrite Hn).
    rewrite A. cbn. rewrite E. apply IH; [done | | lia]. intros r Hr. apply R. by right.
Qed.

Lemma find_walk fuel s ptb u n l : chain (link s) (link s ptb) (Some (u, n)) l -> (u, n) ∉ l ->
  (forall r, r ∈ l -> is_jump r /\ (r.1 < length (tbs s))%nat) -> (ptb.1 < length (tbs s))%nat -> (length l < fuel)%nat ->
  jmp_list_find fuel s ptb u n = Ok (before ptb l).
Proof.
  revert fuel ptb. induction l as [|[v m] l IH]; intros [|fuel] ptb C N R Hp F; cbn in F; try lia;
    cbn [jmp_list_find]; rewrite read_link by done; cbn [res_bind].
  - cbn in C. rewrite C. cbn. by rewrite Z.eqb_refl, Nat.eqb_refl.
  - cbn in C. destruct C as [-> C]. cbn [deref res_bind]. destruct (R (v, m)) as [J Hv]; [by left|].
    destruct (Z.eqb_spec m n) as [->|Hmn], (Nat.eqb_spec v u) as [->|Hvu]; cbn [andb]; [set_solver|..];
      (replace (_ =? 2) with false by (by destruct J as [Hn|Hn]; cbn in Hn; rewrite Hn));
      rewrite before_cons; (apply IH; [done | set_solver | | done | lia]); intros r Hr; apply R; by right.
Qed.

Lemma remove_walk fuel s ptb u n l b : chain (link s) (link s ptb) (Some (u, n)) l -> (u, n) ∉ l ->
  (forall r, r ∈ l -> (r.1 < length (tbs s))%nat) -> (ptb.1 < length (tbs s))%nat -> (length l < fuel)%nat ->
  tb_at s u = Ok b ->
  jmp_remove_loop fuel s ptb u n = Ok (write_jmp (write_jmp s (before ptb l) (get2 (jmp_next b) n)) (u, n) None).
Proof.
  intros C N R Hp F A. revert fuel ptb C N R Hp F.
  induction l as [|[v m] l IH]; intros [|fuel] ptb C N R Hp F; cbn in F; try lia;
    cbn [jmp_remove_loop]; rewrite read_link by done; cbn [res_bind].
  - cbn in C. rewrite C. cbn. by rewrite Z.eqb_refl, Nat.eqb_refl, A.
  - cbn in C. destruct C as [-> C]. cbn [deref res_bind].
    destruct (Z.eqb_spec m n) as [->|Hmn], (Nat.eqb_spec v u) as [->|Hvu]; cbn [andb]; [set_solver|..];
      rewrite before_cons; (apply IH; [done | set_solver | | eapply (R (_, _)); by left | lia]); intros r Hr; apply R; by right.
Qed.

(** ** Resetting a jump *)

Definition jmp_addr (s : Exec) (r : Ref) : Z :=
  match tbs s !! r.1 with Some b => get2 (tb_next b) r.2 | None => 0 end.
Definition own_addr (s : Exec) (r : Ref) : Z :=
  match tbs s !! r.1 with Some b => tc_ptr b + get2 (tb_next_offset b) r.2 | None => 0 end.

Lemma jump_eq (u v : nat) (n m : Z) : (v, m) = (u, n) :> Ref <-> u = v /\ (n =? m) = true.
Proof. rewrite Z.eqb_eq. split; [by intros [= -> ->] | by intros [-> ->]]. Qed.

Lemma reset_jump_ok s u n : is_jump (u, n) -> (u < length (tbs s))%nat ->
  exists s', tb_reset_jump s u n = Ok s' /\ jmp_frame s s' /\
    (forall y, link s' y = link s y) /\
    (forall y, is_jump y -> target s' y = if decide (y = (u, n)) then None else target s y) /\
    (forall y, is_jump y -> jmp_addr s' y = if decide (y = (u, n)) then own_addr s y else jmp_addr s y).
Proof.
  intros J Hu. destruct (tb_at_ok s u Hu) as (b & E & A). unfold tb_reset_jump. rewrite A. cbn [res_bind].
  eexists. split; [reflexivity|]. split; [|split; [|split]].
  - eapply jmp_frame_trans; apply jmp_frame_upd; intros []; done.
  - intros [v m]. unfold link, tb_set_jmp_target. rewrite !lookup_upd. cbn [fst snd].
    destruct (decide (u = v)) as [<-|]; [|done]. rewrite E. done.
  - intros [v m] Jm. unfold target, tb_set_jmp_target. rewrite !lookup_upd. cbn [fst snd].
    destruct (decide (u = v)) as [<-|]; [|by rewrite decide_False by congruence]. rewrite E. cbn.
    rewrite get2_set2 by done. case_decide as D; apply jump_eq in D || rewrite jump_eq in D.
    + by destruct D as [_ ->].
    + destruct (n =? m); [tauto | done].
  - intros [v m] Jm. unfold jmp_addr, own_addr, tb_set_jmp_target. rewrite !lookup_upd. cbn [fst snd].
    destruct (decide (u = v)) as [<-|]; [|by rewrite decide_False by congruence]. rewrite E. cbn.
    rewrite get2_set2 by done. case_decide as D; apply jump_eq in D || rewrite jump_eq in D.
    + destruct D as [_ D]. rewrite D. by apply Z.eqb_eq in D as ->.
    + destruct (n =? m); [tauto | done].
Qed.

(** ** Taking a jump out *)

(** [s'] is [s] without the jump [r], as far as links are concerned. *)
Definition drop (r : Ref) (L : nat -> list Ref) (t : nat) : list Ref := filter (fun y => y <> r) (L t).

Section Ops.
Context (s : Exec) (live : gset nat) (L : nat -> list Ref) (HJ : jumps s live L).

Lemma range_of (r : Ref) : r.1 ∈ live -> (r.1 < length (tbs s))%nat.
Proof. apply (j_live s live L HJ). Qed.

(** A jump that is on no list has a NULL link, one that is on a list has not. *)
Lemma link_on_list t r : t ∈ live -> r ∈ L t -> exists y, link s r = Some y.
Proof. intros Ht Hr. exact (chain_some _ _ _ _ _ (j_chain s live L HJ t Ht) Hr). Qed.

Lemma split_at t r : t ∈ live -> r ∈ L t ->
  exists l1 l2, L t = l1 ++ r :: l2 /\ r ∉ l1 /\ r ∉ l2 /\
    chain (link s) (link s (t, 2)) (Some r) l1 /\ chain (link s) (link s r) (Some (t, 2)) l2 /\
    (forall y, y ∈ l1 \/ y ∈ l2 -> is_jump y /\ (y.1 < length (tbs s))%nat) /\
    (length l1 + length l2 < list_bound s - 2)%nat.
Proof.
  intros Ht Hr. destruct (list_elem_of_split _ _ Hr) as (l1 & l2 & E). exists l1, l2.
  pose proof (j_nodup s live L HJ t Ht) as N. rewrite E in N.
  apply list.NoDup_app in N as (_ & N1 & N2). apply list.NoDup_cons in N2 as [N2 _].
  pose proof (j_chain s live L HJ t Ht) as C. rewrite E in C. apply chain_app in C as (mid & C1 & C2).
  cbn in C2. destruct C2 as [-> C2]. pose proof (j_length s live L HJ t Ht) as Hl. rewrite E, length_app in Hl. cbn in Hl.
  split_and!; [done | intros H; apply (N1 r H); by left | done | done | done | | lia].
  intros y Hy. destruct (j_jump s live L HJ t y Ht) as [J Ly]; [rewrite E; set_solver|].
  split; [done | by apply range_of].
Qed.

(** The two writes both removals end in. *)
Lemma jumps_writes t l1 r l2 : t ∈ live -> L t = l1 ++ r :: l2 ->
  let s' := write_jmp (write_jmp s (before (t, 2) l1) (link s r)) r None in
  jumps s' live (drop r L) /\ jmp_frame s s' /\ (forall y, target s' y = target s y) /\
  (forall y, is_link y -> y.1 ∉ live -> link s' y = link s y).
Proof.
  intros Ht E s'.
  assert (Hr : r ∈ L t) by (rewrite E; set_solver). destruct (j_jump s live L HJ t r Ht Hr) as [Jr Lr].
  assert (Hb : is_link (before (t, 2) l1) /\ (before (t, 2) l1).1 ∈ live).
  { apply (j_link s live L HJ t _ Ht). destruct (before_elem (t, 2) l1) as [->|H]; [left | rewrite E; set_solver]. }
  destruct Hb as [Jb Lb].
  assert (Hk : forall y, is_link y -> link s' y =
    if decide (y = r) then None else if decide (y = before (t, 2) l1) then link s r else link s y).
  { intros y Jy. unfold s'. rewrite !link_write; unfold write_jmp; rewrite ?length_upd;
      done || (by apply jump_link) || by apply range_of. }
  split; [|split; [|split]]; [|eapply jmp_frame_trans; apply write_frame | intros y; unfold s'; by rewrite !target_write |].
  2: { intros y Jy Ny. rewrite Hk by done. rewrite !decide_False; [done | |]; intros ->; done. }
  apply (jumps_unlink s live L HJ s' t l1 r l2 Ht E); [|auto].
  unfold s', write_jmp. by rewrite !length_upd.
Qed.

Lemma unchain_free u n : u ∈ live -> is_jump (u, n) -> (forall t, t ∈ live -> (u, n) ∉ L t) ->
  unchain s u n = Ok (None, s).
Proof.
  intros Hu J F. destruct (jump_next s (u, n) J (range_of (u, n) Hu)) as (b & A & E). cbn [fst snd] in *.
  unfold unchain. rewrite A. cbn. by rewrite E, (j_free s live L HJ (u, n) Hu J F).
Qed.

Lemma unchain_ok u n t : t ∈ live -> (u, n) ∈ L t ->
  exists s', unchain s u n = Ok (Some t, s') /\ jumps s' live (drop (u, n) L) /\ jmp_frame s s' /\
    (forall y, is_jump y -> target s' y = if decide (y = (u, n)) then None else target s y) /\
    (forall y, is_jump y -> jmp_addr s' y = if decide (y = (u, n)) then own_addr s y else jmp_addr s y).
Proof.
  intros Ht Hr. destruct (j_jump s live L HJ t _ Ht Hr) as [J Lu]. cbn in Lu.
  destruct (split_at t (u, n) Ht Hr) as (l1 & l2 & E & N1 & N2 & C1 & C2 & R & F).
  destruct (jump_next s (u, n) J (range_of (u, n) Lu)) as (b & A & Eb). cbn [fst snd] in *.
  destruct (link_on_list t (u, n) Ht Hr) as [y Ey].
  unfold unchain. rewrite A. cbn [res_bind]. rewrite Eb, Ey. rewrite <- Ey.
  rewrite (head_walk _ _ _ t l2); [|done | intros; apply R; by right | lia]. cbn [res_bind].
  rewrite (find_walk _ _ _ u n l1); [|done | done | intros; apply R; by left | by apply (range_of (t, 2)) | lia].
  cbn [res_bind]. rewrite ?A. cbn [res_bind]. rewrite ?Eb.
  destruct (jumps_writes t l1 (u, n) l2 Ht E) as (HJ' & Fr & Tg & _).
  set (s1 := write_jmp _ (u, n) None) in *.
  destruct (reset_jump_ok s1 u n J) as (s' & A' & Fr' & Lk & Tg' & Ad').
  { rewrite (jmp_frame_length _ _ Fr). by apply (range_of (u, n)). }
  rewrite A'. cbn [res_bind]. exists s'. split; [done|]. split; [|split; [|split]].
  - destruct HJ'. split; intros; rewrite ?(jmp_frame_length _ _ Fr'), ?Lk; eauto.
    apply (chain_ext (link s1)); [intros; apply Lk | auto].
  - by eapply jmp_frame_trans.
  - intros z Jz. rewrite Tg' by done. by rewrite Tg.
  - intros z Jz. rewrite Ad' by done. clear -Fr Jz.
    assert (Ho : own_addr s1 z = own_addr s z /\ jmp_addr s1 z = jmp_addr s z); [|by destruct Ho as [-> ->]].
    unfold own_addr, jmp_addr, s1, write_jmp. rewrite !lookup_upd.
    destruct (tbs s !! z.1); [|by repeat case_decide]. repeat case_decide; cbn; repeat (destruct (_ =? 2)); done.
Qed.

End Ops.

(** ** Jumps that are wired *)

(** A block whose code jumps somewhere through its exit [n] is on the list of
    the block it jumps to, and [s2e_tb_next] names that block; an exit that is
    not chained returns to the execution loop. *)
Record wired (s : Exec) (live : gset nat) (L : nat -> list Ref) : Prop := {
  w_jumps : jumps s live L;
  w_target r t : r.1 ∈ live -> is_jump r -> target s r = Some t <-> t ∈ live /\ r ∈ L t;
  w_addr r t : r.1 ∈ live -> is_jump r -> target s r = Some t ->
    exists b, tbs s !! t = Some b /\ jmp_addr s r = tc_ptr b;
  w_own r b : r.1 ∈ live -> is_jump r -> target s r = None -> tbs s !! r.1 = Some b ->
    get2 (tb_next_offset b) r.2 <> 0xffff -> jmp_addr s r = own_addr s r
}.

(** [s'] is [s] with some jumps taken out. *)
Definition fewer (s s' : Exec) : Prop :=
  jmp_frame s s' /\ forall r, is_jump r -> target s' r = target s r \/ target s' r = None.

Lemma fewer_refl s : fewer s s.
Proof. split; [apply jmp_frame_refl | by left]. Qed.
Lemma fewer_trans s1 s2 s3 : fewer s1 s2 -> fewer s2 s3 -> fewer s1 s3.
Proof.
  intros [F1 T1] [F2 T2]. split; [by eapply jmp_frame_trans|]. intros r J.
  destruct (T2 r J) as [->|]; [by apply T1 | by right].
Qed.

Lemma same_const b b' : jmp_same b b' ->
  tc_ptr b' = tc_ptr b /\ tb_next_offset b' = tb_next_offset b /\ (forall m, touches b' m = touches b m).
Proof. unfold jmp_same. destruct b, b'. cbn. by intros [=]; subst. Qed.

Lemma frame_own s s' r : jmp_frame s s' -> own_addr s' r = own_addr s r.
Proof.
  intros F. unfold own_addr. destruct (tbs s !! r.1) as [b|] eqn:E.
  - destruct (jmp_frame_at _ _ _ _ F E) as (b' & -> & S). by destruct (same_const _ _ S) as (-> & -> & _).
  - apply lookup_ge_None in E. rewrite <- (jmp_frame_length _ _ F) in E. by apply lookup_ge_None in E as ->.
Qed.

Lemma frame_back s s' t b' : jmp_frame s s' -> tbs s' !! t = Some b' -> exists b, tbs s !! t = Some b /\ jmp_same b b'.
Proof. intros [_ F] E. exact (Forall2_lookup_r _ _ _ _ _ F E). Qed.

(** Taking out a chained jump. *)
Lemma wired_unchain s live L u n t : wired s live L -> u ∈ live -> is_jump (u, n) -> target s (u, n) = Some t ->
  exists s', unchain s u n = Ok (Some t, s') /\ wired s' live (drop (u, n) L) /\ fewer s s' /\
    (forall r, is_jump r -> target s' r = if decide (r = (u, n)) then None else target s r).
Proof.
  intros W Hu J T. pose proof (w_jumps _ _ _ W) as HJ.
  apply (w_target _ _ _ W (u, n) t Hu J) in T as [Ht Hr].
  destruct (unchain_ok s live L HJ u n t Ht Hr) as (s' & A & HJ' & F & T' & Ad). exists s'.
  split; [done|]. split; [|split; [split; [done|]; intros r Jr; rewrite T' by done; case_decide; tauto | done]].
  split; [done|..].
  - intros r v Hl Jr. rewrite T' by done. unfold drop. rewrite list_elem_of_filter. case_decide.
    + split; [done | tauto].
    + rewrite (w_target _ _ _ W r v Hl Jr). tauto.
  - intros r v Hl Jr. rewrite T', Ad by done. case_decide; [done|]. intros T.
    destruct (w_addr _ _ _ W r v Hl Jr T) as (b & E & ->). destruct (jmp_frame_at _ _ _ _ F E) as (b' & E' & S).
    exists b'. split; [done|]. by destruct (same_const _ _ S) as (-> & _).
  - intros r b' Hl Jr. rewrite T', Ad by done. rewrite (frame_own s s') by done. case_decide; [done|]. intros T E' Ho.
    destruct (frame_back _ _ _ _ F E') as (b & E & S). destruct (same_const _ _ S) as (_ & Eo & _). rewrite Eo in Ho.
    by apply (w_own _ _ _ W r b).
Qed.

Lemma unchained s live L u n : wired s live L -> u ∈ live -> is_jump (u, n) -> target s (u, n) = None ->
  unchain s u n = Ok (None, s).
Proof.
  intros W Hu J T. apply (unchain_free s live L (w_jumps _ _ _ W)); [done..|]. intros t Ht Hr.
  assert (target s (u, n) = Some t) by (by apply (w_target _ _ _ W)). congruence.
Qed.

(** Some list of jumps wires the blocks of [live]. *)
Definition Wired (s : Exec) (live : gset nat) : Prop := exists L, wired s live L.

Lemma target_live s live u n t : Wired s live -> u ∈ live -> is_jump (u, n) -> target s (u, n) = Some t -> t ∈ live.
Proof. intros [L W] Hu J T. by apply (w_target _ _ _ W (u, n)) in T as [Ht _]. Qed.

Lemma unchained_Wired s live u n : Wired s live -> u ∈ live -> is_jump (u, n) -> target s (u, n) = None ->
  unchain s u n = Ok (None, s).
Proof. intros [L W]. by apply unchained with L. Qed.

Lemma Wired_unchain s live u n t : Wired s live -> u ∈ live -> is_jump (u, n) -> target s (u, n) = Some t ->
  exists s', unchain s u n = Ok (Some t, s') /\ Wired s' live /\ fewer s s' /\
    (forall r, is_jump r -> target s' r = if decide (r = (u, n)) then None else target s r).
Proof.
  intros [L W] Hu J T. destruct (wired_unchain s live L u n t W Hu J T) as (s' & A & W' & F & T').
  exists s'. split_and!; [done | by eexists | done | done].
Qed.

(** ** Unchaining before a native run *)

Definition clean (s : Exec) (smask : Z) (t : nat) : Prop :=
  exists b, tbs s !! t = Some b /\ touches b smask = false.

(** Following the exit [n] of [u] leads to clean blocks only: the exit is not
    chained, or goes to a clean block that is [u] itself or has such exits. *)
Inductive safe (s : Exec) (smask : Z) : nat -> Z -> Prop :=
| safe_exit u n : target s (u, n) = None -> safe s smask u n
| safe_loop u n : target s (u, n) = Some u -> clean s smask u -> safe s smask u n
| safe_step u n t : target s (u, n) = Some t -> clean s smask t ->
    safe s smask t 0 -> safe s smask t 1 -> safe s smask u n.

Lemma clean_fewer s s' smask t : fewer s s' -> clean s smask t -> clean s' smask t.
Proof.
  intros [F _] (b & E & T). destruct (jmp_frame_at _ _ _ _ F E) as (b' & E' & S). exists b'. split; [done|].
  by destruct (same_const _ _ S) as (_ & _ & ->).
Qed.

(** Taking jumps out keeps it so. *)
Lemma safe_fewer s s' smask u n : fewer s s' -> is_jump (u, n) -> safe s smask u n -> safe s' smask u n.
Proof.
  intros F J S. revert J. induction S as [u n T | u n T C | u n t T C S0 IH0 S1 IH1]; intros J;
    destruct F as [Fr Tg] eqn:EF; destruct (Tg _ J) as [E|E]; rewrite ?T in E; try (by apply safe_exit).
  - by apply safe_loop; [|eapply clean_fewer].
  - apply (safe_step _ _ _ _ t); [done | by eapply clean_fewer | apply IH0; by left | apply IH1; by right].
Qed.

(** The blocks native code can reach without returning to the execution loop. *)
Inductive reach (s : Exec) (u : nat) : nat -> Prop :=
| reach_here : reach s u u
| reach_jump v n t : reach s u v -> is_jump (v, n) -> target s (v, n) = Some t -> reach s u t.

Lemma safe_next s smask u n t : safe s smask u n -> target s (u, n) = Some t ->
  clean s smask t /\ (t = u \/ safe s smask t 0 /\ safe s smask t 1).
Proof. intros S T. destruct S; simplify_eq; eauto. Qed.

Lemma reach_clean s smask u t : clean s smask u -> safe s smask u 0 -> safe s smask u 1 -> reach s u t -> clean s smask t.
Proof.
  intros C S0 S1 R. cut (clean s smask t /\ safe s smask t 0 /\ safe s smask t 1); [tauto|].
  induction R as [|v n t R (Cv & V0 & V1) J T]; [done|].
  assert (Sn : safe s smask v n) by (by destruct J as [Hn|Hn]; cbn in Hn; subst).
  destruct (safe_next _ _ _ _ _ Sn T) as [Ct [->|[T0 T1]]]; done.
Qed.

Lemma target_field s u n b : tbs s !! u = Some b -> get2 (s2e_tb_next b) n = target s (u, n).
Proof. intros E. unfold target. cbn. by rewrite E. Qed.

Lemma live_at s live u : Wired s live -> u ∈ live -> exists b, tbs s !! u = Some b /\ tb_at s u = Ok b.
Proof. intros [L W] Hu. apply tb_at_ok. by apply (j_live _ _ _ (w_jumps _ _ _ W)). Qed.

Lemma reset_ok s live u n t smask : Wired s live -> u ∈ live -> is_jump (u, n) -> target s (u, n) = Some t ->
  exists s', s2e_tb_reset_jump s u n = Ok s' /\ Wired s' live /\ fewer s s' /\ safe s' smask u n.
Proof.
  intros W Hu J T. destruct (Wired_unchain s live u n t W Hu J T) as (s' & A & W' & F & T').
  exists s'. unfold s2e_tb_reset_jump. rewrite A. split_and!; [done | done | done | apply safe_exit; by rewrite T', decide_True].
Qed.

(** One call of the recursion: no failure, and the exit is safe. *)
Lemma smask_ok d s live u n smask : Wired s live -> u ∈ live -> is_jump (u, n) ->
  exists s', s2e_tb_reset_jump_smask d s u n smask = Ok s' /\ Wired s' live /\ fewer s s' /\ safe s' smask u n.
Proof.
  revert s u n. induction d as [|d IH]; intros s u n W Hu J; cbn [s2e_tb_reset_jump_smask];
    destruct (live_at s live u W Hu) as (b & E & ->); cbn [res_bind]; rewrite (target_field s u n b E);
    (destruct (target s (u, n)) as [t|] eqn:T;
      [|exists s; split_and!; [done | done | apply fewer_refl | by apply safe_exit]]);
    pose proof (target_live _ _ _ _ _ W Hu J T) as Ht;
    destruct (live_at s live t W Ht) as (bt & Et & ->); cbn [res_bind]; [by eapply reset_ok|].
  destruct (touches bt smask) eqn:Tb; [by eapply reset_ok|].
  assert (Ct : clean s smask t) by (by exists bt).
  destruct (Nat.eqb_spec t u) as [->|Hne]; cbn [negb].
  { exists s. split_and!; [done | done | apply fewer_refl | by apply safe_loop]. }
  destruct (IH s t 0 W Ht (or_introl eq_refl)) as (s1 & -> & W1 & F1 & S1). cbn [res_bind].
  destruct (IH s1 t 1 W1 Ht (or_intror eq_refl)) as (s2 & -> & W2 & F2 & S2).
  assert (F : fewer s s2) by (by eapply fewer_trans).
  exists s2. split_and!; [done | done | done |].
  destruct F as [Fr Tg] eqn:EF. destruct (Tg _ J) as [E2|E2]; [|by apply safe_exit].
  apply (safe_step _ _ _ _ t); [congruence | by apply (clean_fewer s) | | done].
  apply (safe_fewer s1); [done | by left | done].
Qed.

Lemma prepare_ok s live tb smask : Wired s live -> tb ∈ live ->
  exists klee s', prepare_native s tb smask = Ok (klee, s') /\ Wired s' live /\ fewer s s' /\
    (smask <> 0 -> (klee = true <-> ~ clean s smask tb) /\ (klee = false -> forall t, reach s' tb t -> clean s' smask t)).
Proof.
  intros W Ht. destruct (live_at s live tb W Ht) as (b & E & A). unfold prepare_native. rewrite A. cbn [res_bind].
  destruct (nz smask || nz (Z.land (helper_accesses_mem b) 4)) eqn:Hm.
  2: { exists false, s. split_and!; [done | done | apply fewer_refl|]. intros Hs. apply orb_false_iff in Hm as [Hm _].
       by apply negb_false_iff, Z.eqb_eq in Hm. }
  destruct (touches b smask) eqn:Tb.
  { exists true, s. split_and!; [done | done | apply fewer_refl |]. intros _. split; [|done]. split; [|done].
    intros _ (b' & E' & T'). congruence. }
  assert (Ct : clean s smask tb) by (by exists b).
  destruct (smask_ok 3 s live tb 0 smask W Ht (or_introl eq_refl)) as (s1 & -> & W1 & F1 & S1). cbn [res_bind].
  destruct (smask_ok 3 s1 live tb 1 smask W1 Ht (or_intror eq_refl)) as (s2 & -> & W2 & F2 & S2). cbn [res_bind].
  assert (F : fewer s s2) by (by eapply fewer_trans).
  exists false, s2. split_and!; [done | done | done |]. intros _. split; [by split | intros _ t R].
  apply (reach_clean s2 smask tb); [by eapply clean_fewer | | done | done].
  apply (safe_fewer s1); [done | by left | done].
Qed.

(** C7: When some register is symbolic, the choice between the two executors
    is sound: on a state whose jumps are wired, the preparation always
    returns, and when it chooses native execution, no block that native code
    can reach through chained jumps touches a symbolic register or may read
    symbolic memory in a helper; the jumps stay wired and none is added. *)
Theorem prepare_native_sound s live tb smask : Wired s live -> tb ∈ live -> smask <> 0 ->
  exists klee s', prepare_native s tb smask = Ok (klee, s') /\ Wired s' live /\ fewer s s' /\
    (klee = true <-> ~ clean s smask tb) /\
    (klee = false -> forall t, reach s' tb t -> clean s' smask t).
Proof.
  intros W Ht Hm. destruct (prepare_ok s live tb smask W Ht) as (klee & s' & ? & ? & ? & H). destruct (H Hm). by exists klee, s'.
Qed.

(** ** Unchaining everything a CPU may be executing *)

(** The number of chained jumps. *)
Definition chained (s : Exec) : nat :=
  length (filter (fun r => is_Some (target s r)) (all_jumps (length (tbs s)))).

Lemma filter_length_le {A} (P Q : A -> Prop) `{!forall x, Decision (P x)} `{!forall x, Decision (Q x)} (l : list A) :
  (forall x, x ∈ l -> P x -> Q x) ->
  (length (filter P l) <= length (filter Q l))%nat.
Proof.
  induction l as [|x l IH]; intros HPQ; [done|]. assert (length (filter P l) <= length (filter Q l))%nat.
  { apply IH. intros y Hy. apply HPQ. by right. }
  rewrite !filter_cons. destruct (decide (P x)); [rewrite decide_True by (apply HPQ; [by left | done]); cbn; lia|].
  case_decide; cbn; lia.
Qed.

Lemma filter_length_lt {A} (P Q : A -> Prop) `{!forall x, Decision (P x)} `{!forall x, Decision (Q x)} (l : list A) y :
  (forall x, x ∈ l -> P x -> Q x) -> y ∈ l -> Q y -> ~ P y -> (length (filter P l) < length (filter Q l))%nat.
Proof.
  intros HPQ (l1 & l2 & ->)%list_elem_of_split Hq Hp. rewrite !list.filter_app, !length_app.
  rewrite filter_cons_False, (filter_cons_True Q) by done. cbn.
  pose proof (filter_length_le P Q l1 ltac:(intros; apply HPQ; set_solver)).
  pose proof (filter_length_le P Q l2 ltac:(intros; apply HPQ; set_solver)). lia.
Qed.

Lemma chained_fewer s s' : fewer s s' -> (chained s' <= chained s)%nat.
Proof.
  intros [F T]. unfold chained. rewrite (jmp_frame_length _ _ F). apply filter_length_le.
  intros r [J _]%all_jumps_elem. destruct (T r J) as [->| ->]; [done | by intros []].
Qed.

Lemma chained_less s s' r : fewer s s' -> is_jump r -> is_Some (target s r) -> target s' r = None -> (chained s' < chained s)%nat.
Proof.
  intros [F T] J H N. unfold chained. rewrite (jmp_frame_length _ _ F). apply (filter_length_lt _ _ _ r); [| |done|].
  - intros x [Jx _]%all_jumps_elem. destruct (T x Jx) as [->| ->]; [done | by intros []].
  - apply all_jumps_elem. split; [done|]. unfold target in H. destruct (tbs s !! r.1) eqn:E; [|by destruct H].
    by apply lookup_lt_Some in E.
  - rewrite N. by intros [].
Qed.

Lemma chained_bound s : (chained s < list_bound s)%nat.
Proof.
  pose proof (length_filter (fun r => is_Some (target s r)) (all_jumps (length (tbs s)))) as H.
  rewrite all_jumps_length in H. unfold chained, list_bound. lia.
Qed.

(** No exit of [u] is chained. *)
Definition isolated (s : Exec) (u : nat) : Prop := target s (u, 0) = None /\ target s (u, 1) = None.

(** What unchaining from [s] to [s'] has taken out leads to isolated blocks. *)
Definition swept (s s' : Exec) : Prop :=
  forall r t, is_jump r -> target s r = Some t -> target s' r = Some t \/ isolated s' t.

Lemma isolated_fewer s s' u : fewer s s' -> isolated s u -> isolated s' u.
Proof.
  intros [_ T] [H0 H1]. destruct (T (u, 0)) as [E0|E0], (T (u, 1)) as [E1|E1]; try (by left); try (by right); split; congruence.
Qed.

Lemma swept_trans s1 s2 s3 : fewer s2 s3 -> swept s1 s2 -> swept s2 s3 -> swept s1 s3.
Proof.
  intros F H1 H2 r t J T. destruct (H1 r t J T) as [T2|I]; [by apply H2 | right; by eapply isolated_fewer].
Qed.

Definition recursive2 fuel (s : Exec) (tb : nat) (n : Z) : Res Exec :=
  let* (next, s) := unchain s tb n in
  match next with None => Ok s | Some tbn => tb_reset_jump_recursive fuel s tbn end.

Lemma recursive_ok fuel s live u : Wired s live -> u ∈ live -> (chained s < fuel)%nat ->
  exists s', tb_reset_jump_recursive fuel s u = Ok s' /\ Wired s' live /\ fewer s s' /\ isolated s' u /\ swept s s'.
Proof.
  revert s u. induction fuel as [|fuel IH]; intros s u W Hu Hf; [lia|].
  change (tb_reset_jump_recursive (S fuel) s u) with (let* s := recursive2 fuel s u 0 in recursive2 fuel s u 1).
  assert (Two : forall s n, Wired s live -> is_jump (u, n) -> (chained s < S fuel)%nat ->
    exists s', recursive2 fuel s u n = Ok s' /\ Wired s' live /\ fewer s s' /\ target s' (u, n) = None /\ swept s s').
  { clear s W Hf. intros s n W J Hf. unfold recursive2. destruct (target s (u, n)) as [t|] eqn:T.
    - destruct (Wired_unchain s live u n t W Hu J T) as (s1 & -> & W1 & F1 & T1). cbn [res_bind].
      pose proof (target_live _ _ _ _ _ W Hu J T) as Ht.
      assert (T1n : target s1 (u, n) = None) by (by rewrite T1, decide_True).
      pose proof (chained_less _ _ _ F1 J (ex_intro _ t T) T1n).
      destruct (IH s1 t W1 Ht ltac:(lia)) as (s2 & -> & W2 & F2 & I2 & S2).
      exists s2. split_and!; [done | done | by eapply fewer_trans | |].
      + destruct (proj2 F2 _ J); congruence.
      + intros r v Jr Tr. pose proof (T1 r Jr) as Er. case_decide; [right; congruence | apply S2; congruence].
    - rewrite (unchained_Wired s live u n W Hu J T). exists s. cbn.
      split_and!; [done | done | apply fewer_refl | done | by left]. }
  destruct (Two s 0 W ltac:(by left) Hf) as (s1 & -> & W1 & F1 & T1 & S1). cbn [res_bind].
  pose proof (chained_fewer _ _ F1).
  destruct (Two s1 1 W1 ltac:(by right) ltac:(lia)) as (s2 & -> & W2 & F2 & T2 & S2).
  exists s2. split_and!; [done | done | by eapply fewer_trans | split; [|done] | by apply (swept_trans s s1)].
  destruct (proj2 F2 (u, 0) ltac:(by left)); congruence.
Qed.

Lemma swept_reach s s' u t : isolated s' u -> swept s s' -> reach s u t -> isolated s' t.
Proof.
  intros I S R. induction R as [|v n t R [I0 I1] J T]; [done|].
  destruct (S _ _ J T) as [T'|]; [|done]. destruct J as [Hn|Hn]; cbn in Hn; subst; congruence.
Qed.

(** C15: A CPU that is told to stop returns to the execution loop after the
    block it is in: on wired jumps [cpu_unlink_tb] terminates without failing,
    and afterwards no exit of any block the CPU could have reached from its
    current block, cycles included, is chained; the CPU has no current block
    any more and the jumps stay wired. *)
Theorem cpu_unlink_tb_stops s live k env tb : Wired s live -> cpus s !! k = Some env ->
  current_tb env = Some tb -> tb ∈ live ->
  exists s', cpu_unlink_tb s k = Ok s' /\ Wired s' live /\
    current_tb <$> cpus s' !! k = Some None /\
    (forall t, reach s tb t -> isolated s' t) /\ (forall t, reach s' tb t -> t = tb).
Proof.
  intros W Ek Ec Ht. unfold cpu_unlink_tb. rewrite Ek, Ec. set (s0 := s <| cpus := _ |>).
  assert (W0 : Wired s0 live) by (destruct W as [L [[] ]]; exists L; split; [split|..]; done).
  destruct (recursive_ok (list_bound s0) s0 live tb W0 Ht (chained_bound s0)) as (s' & -> & W' & F & I & S).
  exists s'. split_and!; [done | done | | |].
  - destruct F as [[-> _] _]. cbn. by rewrite list_lookup_alter_eq, Ek.
  - intros t R. apply (swept_reach s0 _ tb); [done | done |]. induction R; [constructor | by eapply reach_jump].
  - intros t R. induction R as [|v n t R -> J T]; [done|]. destruct I, J as [Hn|Hn]; cbn in Hn; subst; congruence.
Qed.

(** ** Chaining a jump *)

Definition set_next (s : Exec) (u : nat) (n : Z) (v : option nat) : Exec :=
  tb_upd s u (fun b => b <| s2e_tb_next := set2 (s2e_tb_next b) n v |>).

Section Fields.
Context (s : Exec) (u : nat) (n : Z).

Lemma link_set_addr a r : link (tb_set_jmp_target s u n a) r = link s r.
Proof. unfold link, tb_set_jmp_target. rewrite lookup_upd. case_decide; [subst|done]. by destruct (tbs s !! r.1). Qed.
Lemma link_set_next v r : link (set_next s u n v) r = link s r.
Proof. unfold link, set_next. rewrite lookup_upd. case_decide; [subst|done]. by destruct (tbs s !! r.1). Qed.
Lemma target_set_addr a r : target (tb_set_jmp_target s u n a) r = target s r.
Proof. unfold target, tb_set_jmp_target. rewrite lookup_upd. case_decide; [subst|done]. by destruct (tbs s !! r.1). Qed.
Lemma addr_set_next v r : jmp_addr (set_next s u n v) r = jmp_addr s r.
Proof. unfold jmp_addr, set_next. rewrite lookup_upd. case_decide; [subst|done]. by destruct (tbs s !! r.1). Qed.
Lemma jmp_addr_write l v r : jmp_addr (write_jmp s l v) r = jmp_addr s r.
Proof.
  unfold jmp_addr, write_jmp. rewrite lookup_upd. case_decide; [|done]. destruct (tbs s !! r.1); [|done].
  cbn. by destruct (l.2 =? 2).
Qed.

Context (J : is_jump (u, n)) (Hu : (u < length (tbs s))%nat).

Lemma target_set_next v r : is_jump r -> target (set_next s u n v) r = if decide (r = (u, n)) then v else target s r.
Proof.
  intros Jr. destruct r as [w m]. unfold target, set_next. rewrite lookup_upd. cbn [fst snd].
  destruct (decide (u = w)) as [<-|]; [|by rewrite decide_False by congruence].
  destruct (tb_at_ok s u Hu) as (b & -> & _). cbn. rewrite get2_set2 by done.
  case_decide as D; apply jump_eq in D || rewrite jump_eq in D; [by destruct D as [_ ->] | destruct (n =? m); [tauto | done]].
Qed.
Lemma addr_set_addr a r : is_jump r ->
  jmp_addr (tb_set_jmp_target s u n a) r = if decide (r = (u, n)) then a else jmp_addr s r.
Proof.
  intros Jr. destruct r as [w m]. unfold jmp_addr, tb_set_jmp_target. rewrite lookup_upd. cbn [fst snd].
  destruct (decide (u = w)) as [<-|]; [|by rewrite decide_False by congruence].
  destruct (tb_at_ok s u Hu) as (b & -> & _). cbn. rewrite get2_set2 by done.
  case_decide as D; apply jump_eq in D || rewrite jump_eq in D; [by destruct D as [_ ->] | destruct (n =? m); [tauto | done]].
Qed.
End Fields.

(** The lists after [tb_add_jump]. *)
Definition with_jump (r : Ref) (t : nat) (L : nat -> list Ref) (v : nat) : list Ref :=
  if decide (v = t) then r :: L v else L v.

Lemma with_jump_elem r t L v y : y ∈ with_jump r t L v <-> (v = t /\ y = r) \/ y ∈ L v.
Proof. unfold with_jump. case_decide; rewrite ?elem_of_cons; naive_solver. Qed.

Lemma jumps_with s s' live L u n t : jumps s live L -> u ∈ live -> t ∈ live -> is_jump (u, n) ->
  (forall v, v ∈ live -> (u, n) ∉ L v) -> length (tbs s') = length (tbs s) ->
  (forall y, is_link y -> link s' y =
    if decide (y = (t, 2)) then Some (u, n) else if decide (y = (u, n)) then link s (t, 2) else link s y) ->
  jumps s' live (with_jump (u, n) t L).
Proof.
  intros HJ Hu Ht J Fr Hlen Hl.
  assert (Hn2 : (u, n) <> (t, 2)) by (intros [= -> ->]; by destruct J).
  assert (Hk : forall v y, v ∈ live -> y ∈ L v -> link s' y = link s y).
  { intros v y Hv Hy. destruct (j_jump _ _ _ HJ v y Hv Hy) as [Jy _]. rewrite Hl by (by apply jump_link).
    rewrite decide_False by (intros ->; by destruct Jy). rewrite decide_False; [done|]. intros ->. by apply (Fr v). }
  split.
  - intros v Hv. rewrite Hlen. by apply (j_live _ _ _ HJ).
  - intros v Hv. unfold with_jump. rewrite Hl by (right; by right). destruct (decide (v = t)) as [->|Hvt].
    + rewrite decide_True by done. split; [done|]. rewrite Hl by (by apply jump_link).
      rewrite decide_False, decide_True by done. apply (chain_ext (link s)); [|by apply (j_chain _ _ _ HJ)].
      intros y Hy. by apply (Hk t).
    + rewrite decide_False by congruence. rewrite decide_False by (intros [= -> <-]; by destruct J).
      apply (chain_ext (link s)); [|by apply (j_chain _ _ _ HJ)]. intros y Hy. by apply (Hk v).
  - intros v Hv. unfold with_jump. pose proof (j_nodup _ _ _ HJ v Hv). case_decide; [|done].
    apply list.NoDup_cons. split; [by apply Fr | done].
  - intros v r Hv [[-> ->]|Hr]%with_jump_elem; [done | by apply (j_jump _ _ _ HJ v)].
  - intros v v' r Hv Hv' [[-> ->]|Hr]%with_jump_elem [[-> E]|Hr']%with_jump_elem; try done.
    + by apply Fr in Hr'.
    + subst. by apply Fr in Hr.
    + by apply (j_disj _ _ _ HJ v v' r).
  - intros r Hr Jr Hn. rewrite Hl by (by apply jump_link). rewrite decide_False by (intros ->; by destruct Jr).
    case_decide as D.
    + exfalso. apply (Hn t Ht). apply with_jump_elem. by left.
    + apply (j_free _ _ _ HJ); [done | done |]. intros v Hv Hy. apply (Hn v Hv). apply with_jump_elem. by right.
Qed.

Lemma write_jump_upd s u n v : is_jump (u, n) ->
  tb_upd s u (fun b => b <| jmp_next := set2 (jmp_next b) n v |>) = write_jmp s (u, n) v.
Proof. intros [Hn|Hn]; cbn in Hn; by subst. Qed.

Lemma set_addr_frame s u n a : jmp_frame s (tb_set_jmp_target s u n a).
Proof. apply jmp_frame_upd. by intros []. Qed.
Lemma set_next_frame s u n v : jmp_frame s (set_next s u n v).
Proof. apply jmp_frame_upd. by intros []. Qed.

(** The new jump in its four places. *)
Lemma wired_add s live L (W : wired s live L) u n t bt : u ∈ live -> t ∈ live -> is_jump (u, n) ->
  target s (u, n) = None -> tbs s !! t = Some bt ->
  wired (set_next (write_jmp (write_jmp (tb_set_jmp_target s u n (tc_ptr bt)) (u, n) (link s (t, 2))) (t, 2) (Some (u, n)))
    u n (Some t)) live (with_jump (u, n) t L).
Proof.
  intros Hu Ht J T Et. pose proof (w_jumps _ _ _ W) as HJ. set (s' := set_next _ u n (Some t)).
  pose proof (j_live _ _ _ HJ u Hu) as Lu. pose proof (j_live _ _ _ HJ t Ht) as Lt.
  assert (F : jmp_frame s s').
  { eapply jmp_frame_trans; [|apply set_next_frame]. do 2 (eapply jmp_frame_trans; [|apply write_frame]). apply set_addr_frame. }
  assert (Fr : forall v, v ∈ live -> (u, n) ∉ L v).
  { intros v Hv Hr. assert (target s (u, n) = Some v) by (by apply (w_target _ _ _ W)). congruence. }
  assert (Tg : forall r, is_jump r -> target s' r = if decide (r = (u, n)) then Some t else target s r).
  { intros r Jr. unfold s'. rewrite target_set_next, !target_write, target_set_addr
      by (done || unfold write_jmp, tb_set_jmp_target; by rewrite ?length_upd). done. }
  assert (Ad : forall r, is_jump r -> jmp_addr s' r = if decide (r = (u, n)) then tc_ptr bt else jmp_addr s r).
  { intros r Jr. unfold s'. by rewrite addr_set_next, !jmp_addr_write, addr_set_addr. }
  split.
  - apply (jumps_with s); [done.. | by apply jmp_frame_length |]. intros y Jy. unfold s'.
    rewrite link_set_next, !link_write, link_set_addr; [done|..];
      done || (by (right; right)) || (by apply jump_link) || unfold write_jmp, tb_set_jmp_target; by rewrite ?length_upd.
  - intros r v Hr Jr. rewrite Tg, with_jump_elem by done. case_decide as D.
    + subst r. split; [intros [= <-]; by auto|]. intros [Hv [[-> _]|Hl]]; [done|]. by apply Fr in Hl.
    + rewrite (w_target _ _ _ W r v Hr Jr). naive_solver.
  - intros r v Hr Jr. rewrite Tg, Ad by done. case_decide as D.
    + intros [= <-]. destruct (jmp_frame_at _ _ _ _ F Et) as (b' & E' & S). exists b'.
      by destruct (same_const _ _ S) as (-> & _).
    + intros Tr. destruct (w_addr _ _ _ W r v Hr Jr Tr) as (b & E & ->).
      destruct (jmp_frame_at _ _ _ _ F E) as (b' & E' & S). exists b'. by destruct (same_const _ _ S) as (-> & _).
  - intros r b' Hr Jr. rewrite Tg, Ad, (frame_own s) by done. case_decide as D; [done|]. intros Tr E' Ho.
    destruct (frame_back _ _ _ _ F E') as (b & E & S). destruct (same_const _ _ S) as (_ & Eo & _). rewrite Eo in Ho.
    by apply (w_own _ _ _ W r b).
Qed.

Lemma add_jump_ok s live u n t : Wired s live -> u ∈ live -> t ∈ live -> is_jump (u, n) ->
  exists s', tb_add_jump s u n t = Ok s' /\ Wired s' live /\ jmp_frame s s' /\
    (forall r, is_jump r -> target s' r =
      if decide (r = (u, n)) then Some (default t (target s r)) else target s r).
Proof.
  intros [L W] Hu Ht J. pose proof (w_jumps _ _ _ W) as HJ.
  destruct (jump_next s (u, n) J (range_of s live L HJ (u, n) Hu)) as (b & A & El). cbn [fst snd] in *.
  destruct (tb_at_ok s t (j_live _ _ _ HJ t Ht)) as (bt & Et & At).
  unfold tb_add_jump. rewrite A. cbn [res_bind]. rewrite El.
  destruct (target s (u, n)) as [v|] eqn:T.
  - pose proof T as T2. apply (w_target _ _ _ W (u, n) v Hu J) in T2 as [Hv Hr]. destruct (link_on_list s live L HJ v _ Hv Hr) as [y ->].
    exists s. split_and!; [done | by exists L | apply jmp_frame_refl |]. intros r Jr. case_decide as D; [by rewrite D, T | done].
  - assert (Fr : forall v, v ∈ live -> (u, n) ∉ L v).
    { intros v Hv Hr. assert (target s (u, n) = Some v) by (by apply (w_target _ _ _ W)). congruence. }
    rewrite (j_free _ _ _ HJ (u, n) Hu J Fr), At. cbn [res_bind].
    assert (jmp_first bt = link s (t, 2)) as -> by (unfold link; cbn; by rewrite Et).
    exists (set_next (write_jmp (write_jmp (tb_set_jmp_target s u n (tc_ptr bt)) (u, n) (link s (t, 2)))
      (t, 2) (Some (u, n))) u n (Some t)).
    split; [by rewrite <- (write_jump_upd _ u n)|]. split.
    + exists (with_jump (u, n) t L). by apply (wired_add s live L W u n t bt).
    + split; [by repeat (eapply jmp_frame_trans; [|first [apply set_next_frame | apply write_frame]]); apply set_addr_frame|].
      intros r Jr. rewrite target_set_next, !target_write, target_set_addr
        by (done || unfold write_jmp, tb_set_jmp_target; rewrite ?length_upd; by apply (j_live _ _ _ HJ)).
      case_decide as D; [by rewrite D, T | done].
Qed.

(** Chaining keeps the jumps wired: [tb_add_jump] does nothing when the
    exit is chained already, and otherwise the exit, and only it, now goes to
    the code of the new block, which lists it. *)
Theorem tb_add_jump_wired s live u n t : Wired s live -> u ∈ live -> t ∈ live -> is_jump (u, n) ->
  exists s', tb_add_jump s u n t = Ok s' /\ Wired s' live /\
    (forall r, is_jump r -> target s' r =
      if decide (r = (u, n)) then Some (default t (target s r)) else target s r).
Proof. intros W Hu Ht J. destruct (add_jump_ok s live u n t W Hu Ht J) as (s' & ? & ? & _ & ?). by exists s'. Qed.

(** ** Taking a block out *)

Lemma jmp_remove_ok s live L u n : jumps s live L -> u ∈ live -> is_jump (u, n) ->
  exists s', tb_jmp_remove s u n = Ok s' /\ jumps s' live (drop (u, n) L) /\ jmp_frame s s' /\
    (forall y, target s' y = target s y) /\ (forall y, jmp_addr s' y = jmp_addr s y) /\
    (forall y, is_link y -> y.1 ∉ live -> link s' y = link s y).
Proof.
  intros HJ Hu J. destruct (jump_next s (u, n) J (range_of s live L HJ (u, n) Hu)) as (b & A & Eb). cbn [fst snd] in *.
  unfold tb_jmp_remove. rewrite A. cbn [res_bind]. rewrite Eb. destruct (link s (u, n)) as [y|] eqn:Ey.
  - assert (HL : exists t, t ∈ live /\ (u, n) ∈ L t).
    { destruct (decide (set_Exists (fun t => (u, n) ∈ L t) live)) as [(t & Ht & Hr)|N]; [by exists t|].
      rewrite (j_free _ _ _ HJ (u, n) Hu J) in Ey; [done|]. intros t Ht Hr. apply N. by exists t. }
    destruct HL as (t & Ht & Hr).
    destruct (split_at s live L HJ t _ Ht Hr) as (l1 & l2 & E & N1 & N2 & C1 & C2 & R & F).
    pose proof (j_chain _ _ _ HJ t Ht) as C. rewrite E in C. apply chain_rotate in C.
    rewrite (remove_walk _ s (u, n) u n (l2 ++ (t, 2) :: l1) b); [|done| | | by apply (j_live _ _ _ HJ) | | done].
    + rewrite before_app, Eb. destruct (jumps_writes s live L HJ t l1 (u, n) l2 Ht E) as (HJ' & Fr & Tg & Fl).
      rewrite Ey in *. eexists. split; [reflexivity|]. split_and!; [done | done | done | intros; by rewrite !jmp_addr_write | done].
    + rewrite elem_of_app, elem_of_cons. intros [?|[[= ? ->]|?]]; [done | by destruct J | done].
    + intros r [H|[->|H]%elem_of_cons]%elem_of_app; [by apply R; right | by apply (j_live _ _ _ HJ) | by apply R; left].
    + rewrite length_app. cbn. lia.
  - exists s. split_and!; [done | | apply jmp_frame_refl | done | done | done].
    assert (Fr : forall t, t ∈ live -> (u, n) ∉ L t).
    { intros t Ht Hr. destruct (link_on_list s live L HJ t _ Ht Hr). congruence. }
    apply (jumps_ext s live L); [done|]. intros t Ht. unfold drop. by rewrite filter_neq_notin by auto.
Qed.

(** The loop over the jumps to the block. *)
Lemma reset_jumps_ok fuel s p t l : chain (link s) p (Some (t, 2)) l -> NoDup l ->
  (forall r, r ∈ l -> is_jump r /\ (r.1 < length (tbs s))%nat) -> (length l < fuel)%nat ->
  exists s', reset_jumps fuel s p = Ok s' /\ jmp_frame s s' /\
    (forall y, is_link y -> link s' y = if decide (y ∈ l) then None else link s y) /\
    (forall y, is_jump y -> target s' y = if decide (y ∈ l) then None else target s y) /\
    (forall y, is_jump y -> jmp_addr s' y = if decide (y ∈ l) then own_addr s y else jmp_addr s y).
Proof.
  revert fuel s p. induction l as [|[u n] l IH]; intros [|fuel] s p C N R F; cbn in F; try lia; cbn [reset_jumps].
  - cbn in C. subst p. exists s. cbn. split_and!; [done | apply jmp_frame_refl |..]; intros; by rewrite decide_False by set_solver.
  - cbn in C. destruct C as [-> C]. cbn [deref res_bind]. apply list.NoDup_cons in N as [Nu N].
    destruct (R (u, n)) as [J Hu]; [by left|]. cbn in Hu.
    replace (n =? 2) with false by (by destruct J as [Hn|Hn]; cbn in Hn; rewrite Hn).
    destruct (jump_next s (u, n) J Hu) as (b & A & Eb). cbn [fst snd] in *. rewrite A. cbn [res_bind]. rewrite Eb.
    destruct (reset_jump_ok s u n J Hu) as (s1 & -> & F1 & L1 & T1 & A1). cbn [res_bind].
    set (s2 := write_jmp s1 (u, n) None).
    assert (F2 : jmp_frame s s2) by (eapply jmp_frame_trans; [done | apply write_frame]).
    assert (L2 : forall y, is_link y -> link s2 y = if decide (y = (u, n)) then None else link s y).
    { intros y Jy. unfold s2. rewrite link_write, L1; [done | by apply jump_link | done |]. by rewrite (jmp_frame_length _ _ F1). }
    destruct (IH fuel s2 (link s (u, n))) as (s' & -> & F' & L' & T' & A').
    + apply (chain_ext (link s)); [|done]. intros y Hy. destruct (R y) as [Jy _]; [by right|].
      rewrite L2 by (by apply jump_link). rewrite decide_False; [done|]. intros ->. done.
    + done.
    + intros r Hr. rewrite (jmp_frame_length _ _ F2). apply R. by right.
    + lia.
    + exists s'. split_and!; [done | by eapply jmp_frame_trans |..]; intros y Jy; rewrite ?L', ?T', ?A', ?L2 by done;
        unfold s2; rewrite ?target_write, ?jmp_addr_write, ?T1, ?A1 by done; rewrite ?(frame_own s (write_jmp s1 (u, n) None)) by done;
        destruct (decide (y = (u, n))) as [->|D]; rewrite ?(decide_True (P := (u, n) ∈ _ :: _)) by (by left);
        repeat case_decide; set_solver.
Qed.

Lemma drop_elem r L t y : y ∈ drop r L t <-> y <> r /\ y ∈ L t.
Proof. unfold drop. by rewrite list_elem_of_filter. Qed.

Lemma jumps_without s s' live L tb : jumps s live L -> tb ∈ live ->
  (forall t r, t ∈ live -> r ∈ L t -> r.1 <> tb) -> length (tbs s') = length (tbs s) ->
  (forall y, is_link y -> y.1 <> tb -> link s' y = if decide (y ∈ L tb) then None else link s y) ->
  jumps s' (live ∖ {[tb]}) L.
Proof.
  intros HJ Ht Hn Hlen Hl.
  assert (Hk : forall t y, t ∈ live -> t <> tb -> y ∈ (t, 2) :: L t -> link s' y = link s y).
  { intros t y Hlt Hne Hy. destruct (j_link _ _ _ HJ t y Hlt Hy) as [Jy _]. apply elem_of_cons in Hy as [->|Hy].
    - rewrite Hl by done. rewrite decide_False; [done|]. intros H. by destruct (j_jump _ _ _ HJ tb _ Ht H) as [[]].
    - rewrite Hl by (done || by apply (Hn t)). rewrite decide_False; [done|]. intros H. apply Hne. by apply (j_disj _ _ _ HJ t tb y). }
  split; try (intros t [Hlt Hne%not_elem_of_singleton]%elem_of_difference).
  - rewrite Hlen. by apply (j_live _ _ _ HJ).
  - rewrite (Hk t) by (done || by left). apply (chain_ext (link s)); [|by apply (j_chain _ _ _ HJ)].
    intros y Hy. apply (Hk t); [done | done | by right].
  - by apply (j_nodup _ _ _ HJ).
  - intros t r [Hlt _]%elem_of_difference Hr. destruct (j_jump _ _ _ HJ t r Hlt Hr). pose proof (Hn t r Hlt Hr). set_solver.
  - intros t t' r [Hlt _]%elem_of_difference [Hlt' _]%elem_of_difference. by apply (j_disj _ _ _ HJ).
  - intros Jr Hno. rewrite Hl by (done || by apply jump_link).
    case_decide as D; [done|]. apply (j_free _ _ _ HJ); [done..|]. intros v Hlv Hy.
    destruct (decide (v = tb)) as [->|]; [done|]. apply (Hno v); [set_solver | done].
Qed.

Lemma suppress_ok s live L tb : wired s live L -> tb ∈ live ->
  exists s', suppress_jumps s tb = Ok s' /\ Wired s' (live ∖ {[tb]}) /\ jmp_frame s s' /\
    (forall r, is_jump r -> r.1 ∈ live -> r.1 <> tb ->
      target s' r = if decide (target s r = Some tb) then None else target s r) /\
    (forall n, is_jump (tb, n) -> link s' (tb, n) = None) /\ (forall y, is_link y -> y.1 ∉ live -> link s' y = link s y).
Proof.
  intros W Ht. pose proof (w_jumps _ _ _ W) as HJ. unfold suppress_jumps.
  destruct (jmp_remove_ok s live L tb 0 HJ Ht (or_introl eq_refl)) as (s1 & -> & J1 & F1 & T1 & A1 & D1). cbn [res_bind].
  destruct (jmp_remove_ok s1 live _ tb 1 J1 Ht (or_intror eq_refl)) as (s2 & -> & J2 & F2 & T2 & A2 & D2). cbn [res_bind].
  set (L2 := drop (tb, 1) (drop (tb, 0) L)) in *.
  destruct (tb_at_ok s2 tb (j_live _ _ _ J2 tb Ht)) as (b & E & ->). cbn [res_bind].
  pose proof (j_chain _ _ _ J2 tb Ht) as C. unfold link at 2 in C. cbn in C. rewrite E in C.
  destruct (reset_jumps_ok (list_bound s2) s2 (jmp_first b) tb (L2 tb) C) as (s3 & -> & F3 & L3 & T3 & A3).
  { by apply (j_nodup _ _ _ J2). }
  { intros r Hr. destruct (j_jump _ _ _ J2 tb r Ht Hr). split; [done | by apply (j_live _ _ _ J2)]. }
  { pose proof (j_length _ _ _ J2 tb Ht). lia. }
  cbn [res_bind]. change (tb_upd s3 tb _) with (write_jmp s3 (tb, 2) (Some (tb, 2))).
  set (s4 := write_jmp s3 (tb, 2) (Some (tb, 2))).
  assert (HL : forall r t, r.1 ∈ live -> is_jump r -> r.1 <> tb -> r ∈ L2 t <-> r ∈ L t).
  { intros [u n] t _ _ Hu. unfold L2. rewrite !drop_elem. cbn in Hu.
    split; [tauto|]. intros H. split_and!; [by intros [= -> _].. | done]. }
  assert (F : jmp_frame s s4).
  { eapply jmp_frame_trans; [done|]. eapply jmp_frame_trans; [done|]. eapply jmp_frame_trans; [done|]. apply write_frame. }
  assert (Tg : forall r, is_jump r -> r.1 ∈ live -> r.1 <> tb ->
      target s4 r = if decide (target s r = Some tb) then None else target s r).
  { intros r Jr Hr Hb. unfold s4. rewrite target_write, T3, T2, T1 by done.
    destruct (w_target _ _ _ W r tb Hr Jr) as [W1 W2]. destruct (HL r tb Hr Jr Hb).
    case_decide; case_decide; done || tauto. }
  assert (Lk : forall y, is_link y -> y <> (tb, 2) -> link s4 y = if decide (y ∈ L2 tb) then None else link s2 y).
  { intros y Jy Hy. unfold s4. rewrite link_write; [|by right; right | done | rewrite (jmp_frame_length _ _ F3); by apply (j_live _ _ _ J2)].
    rewrite decide_False by done. by apply L3. }
  exists s4. split_and!; [done | | done | done | |].
  2: { intros n Jn. rewrite Lk; [|by apply jump_link | intros [= ->]; by destruct Jn]. case_decide; [done|].
       apply (j_free _ _ _ J2); [done | done|]. intros v _ Hv. unfold L2 in Hv. rewrite !drop_elem in Hv.
       destruct Jn as [Q|Q]; cbn in Q; subst; tauto. }
  2: { intros y Jy Ny. rewrite Lk; [|done | by intros ->]. rewrite decide_False; [rewrite D2, D1; done|].
       intros Hy. by destruct (j_jump _ _ _ J2 tb y Ht Hy). }
  exists L2. split.
  - apply (jumps_without s2 s4); [done | done | | |].
    + intros t [u n] Ht' Hr. destruct (j_jump _ _ _ J2 t _ Ht' Hr) as [Jr _]. unfold L2 in Hr. rewrite !drop_elem in Hr.
      cbn. intros ->. destruct Jr as [Hn|Hn]; cbn in Hn; subst; tauto.
    + unfold s4, write_jmp. by rewrite length_upd, (jmp_frame_length _ _ F3).
    + intros y Jy Hy. apply Lk; [done | by intros ->].
  - intros r t [Hr Hb%not_elem_of_singleton]%elem_of_difference Jr. rewrite Tg by done.
    rewrite elem_of_difference, not_elem_of_singleton, HL by done. pose proof (w_target _ _ _ W r t Hr Jr) as Wt.
    case_decide as D; [split; [done|]; intros [[Hl Hne] Hi]; rewrite D in Wt; destruct Hne; by injection (proj2 Wt (conj Hl Hi))|].
    rewrite Wt. split; [|tauto]. intros [Hl Hi]. split_and!; [done | | done]. intros ->. apply D. tauto.
  - intros r t [Hr Hb%not_elem_of_singleton]%elem_of_difference Jr. rewrite Tg by done. case_decide as D; [done|].
    intros T. destruct (w_addr _ _ _ W r t Hr Jr T) as (bt & Et & Ad).
    destruct (jmp_frame_at _ _ _ _ F Et) as (b' & E' & S). exists b'. split; [done|]. destruct (same_const _ _ S) as (-> & _).
    unfold s4. rewrite jmp_addr_write, A3, A2, A1 by done. rewrite decide_False; [done|]. intros H. apply D.
    apply (w_target _ _ _ W r tb Hr Jr). split; [done|]. by apply HL in H.
  - intros r b' [Hr Hb%not_elem_of_singleton]%elem_of_difference Jr. rewrite Tg by done. intros T E' Ho.
    assert (HT : r ∈ L2 tb \/ target s r = None).
    { case_decide as D; [left; apply HL; [done..|]; by apply (w_target _ _ _ W r tb Hr Jr) | by right]. }
    clear T. rewrite (frame_own s) by done. unfold s4. rewrite jmp_addr_write, A3, A2, A1 by done.
    rewrite (frame_own s s2) by (exact (jmp_frame_trans _ _ _ F1 F2)). case_decide as H; [done|].
    destruct (frame_back _ _ _ _ F E') as (b0 & E0 & S). destruct (same_const _ _ S) as (_ & Eo & _). rewrite Eo in Ho.
    apply (w_own _ _ _ W r b0); tauto.
Qed.

(** ** A new block *)

(** A block nothing is chained from or to. *)
Definition unlinked (b : TranslationBlock) (t : nat) : Prop :=
  jmp_first b = Some (t, 2) /\ jmp_next b = mkTwo None None /\ s2e_tb_next b = mkTwo None None /\
  forall n, n = 0 \/ n = 1 -> get2 (tb_next_offset b) n <> 0xffff -> get2 (tb_next b) n = tc_ptr b + get2 (tb_next_offset b) n.

Lemma wired_new s s' live t b : Wired s live -> t ∉ live -> length (tbs s') = length (tbs s) ->
  (forall u, u <> t -> tbs s' !! u = tbs s !! u) -> tbs s' !! t = Some b -> unlinked b t -> Wired s' ({[t]} ∪ live).
Proof.
  intros [L W] Nt Hlen Ho Eb (U1 & U2 & U3 & U4). pose proof (w_jumps _ _ _ W) as HJ.
  assert (K : forall r, r.1 ∈ live -> link s' r = link s r /\ target s' r = target s r /\ jmp_addr s' r = jmp_addr s r /\ own_addr s' r = own_addr s r).
  { intros r Hr. unfold link, target, jmp_addr, own_addr. rewrite !Ho by (intros <-; done). done. }
  assert (Kt : forall n, n = 0 \/ n = 1 -> link s' (t, n) = None /\ target s' (t, n) = None).
  { intros n Hn. unfold link, target. cbn. rewrite Eb, U2, U3. by destruct Hn as [-> | ->]. }
  exists (fun u => if decide (u = t) then [] else L u). split; [split|..].
  - intros u [->%elem_of_singleton|Hu]%elem_of_union; [by apply lookup_lt_Some in Eb|]. rewrite Hlen. by apply (j_live _ _ _ HJ).
  - intros u Hu. destruct (decide (u = t)) as [->|Hut]; [unfold link; cbn; by rewrite Eb, U1|].
    assert (Hl : u ∈ live) by set_solver. rewrite (proj1 (K (u, 2) Hl)).
    apply (chain_ext (link s)); [|by apply (j_chain _ _ _ HJ)]. intros r Hr. apply K. by apply (j_jump _ _ _ HJ u).
  - intros u Hu. case_decide; [constructor|]. apply (j_nodup _ _ _ HJ). set_solver.
  - intros u r Hu Hr. case_decide; [by apply elem_of_nil in Hr|].
    destruct (j_jump _ _ _ HJ u r ltac:(set_solver) Hr). set_solver.
  - intros u u' r Hu Hu' Hr Hr'. repeat case_decide; try (by apply elem_of_nil in Hr); try (by apply elem_of_nil in Hr').
    apply (j_disj _ _ _ HJ u u' r); set_solver.
  - intros [u n] Hu Jr Hn. cbn [fst] in Hu; apply elem_of_union in Hu as [->%elem_of_singleton|Hu]; [by apply Kt|].
    rewrite (proj1 (K (u, n) Hu)). apply (j_free _ _ _ HJ); [done..|]. intros v Hv. pose proof (Hn v ltac:(set_solver)) as Hnv.
    rewrite decide_False in Hnv by (intros ->; done). done.
  - intros [u n] v Hu Jr. cbn [fst] in Hu; apply elem_of_union in Hu as [->%elem_of_singleton|Hu].
    + rewrite (proj2 (Kt n Jr)). split; [done|]. intros [Hv Hi]. case_decide; [by apply elem_of_nil in Hi|].
      destruct (j_jump _ _ _ HJ v _ ltac:(set_solver) Hi) as [_ ?]. done.
    + destruct (K (u, n) Hu) as (_ & -> & _). rewrite (w_target _ _ _ W (u, n) v Hu Jr). split; [intros [Hv Hi]|intros [Hv Hi]].
      * split; [set_solver|]. rewrite decide_False; [done|]. intros ->. done.
      * case_decide; [by apply elem_of_nil in Hi|]. set_solver.
  - intros [u n] v Hu Jr T. cbn [fst] in Hu; apply elem_of_union in Hu as [->%elem_of_singleton|Hu]; [by rewrite (proj2 (Kt n Jr)) in T|].
    destruct (K (u, n) Hu) as (_ & Et & -> & _). rewrite Et in T. destruct (w_addr _ _ _ W (u, n) v Hu Jr T) as (bv & Ev & ->).
    exists bv. split; [|done]. rewrite Ho; [done|]. intros ->. by apply (w_target _ _ _ W (u, n) t Hu Jr) in T as [? _].
  - intros [u n] bu Hu Jr T E Hoff. cbn [fst] in Hu; apply elem_of_union in Hu as [->%elem_of_singleton|Hu].
    + cbn in E, Hoff. rewrite Eb in E. injection E as <-. unfold jmp_addr, own_addr. cbn. rewrite Eb. by apply U4.
    + destruct (K (u, n) Hu) as (_ & Et & -> & ->). rewrite Et in T. apply (w_own _ _ _ W (u, n) bu Hu Jr T); [|done].
      rewrite <- Ho; [done|]. cbn. intros ->. done.
Qed.

(** Only the blocks of [live] matter. *)
Lemma wired_local s s' live : Wired s live -> length (tbs s') = length (tbs s) ->
  (forall u, u ∈ live -> tbs s' !! u = tbs s !! u) -> Wired s' live.
Proof.
  intros [L W] Hlen Ho. pose proof (w_jumps _ _ _ W) as HJ.
  assert (K : forall r, r.1 ∈ live -> link s' r = link s r /\ target s' r = target s r /\ jmp_addr s' r = jmp_addr s r /\ own_addr s' r = own_addr s r).
  { intros r Hr. unfold link, target, jmp_addr, own_addr. by rewrite !Ho. }
  exists L. split; [split|..].
  - intros t Ht. rewrite Hlen. by apply (j_live _ _ _ HJ).
  - intros t Ht. rewrite (proj1 (K (t, 2) Ht)). apply (chain_ext (link s)); [|by apply (j_chain _ _ _ HJ)].
    intros r Hr. apply K. by apply (j_jump _ _ _ HJ t).
  - apply (j_nodup _ _ _ HJ).
  - apply (j_jump _ _ _ HJ).
  - apply (j_disj _ _ _ HJ).
  - intros r Hr. rewrite (proj1 (K r Hr)). by apply (j_free _ _ _ HJ).
  - intros r t Hr. destruct (K r Hr) as (_ & -> & _). by apply (w_target _ _ _ W).
  - intros r t Hr Jr. destruct (K r Hr) as (_ & -> & -> & _). intros T.
    rewrite Ho; [by apply (w_addr _ _ _ W)|]. by apply (w_target _ _ _ W r t Hr Jr) in T as [? _].
  - intros r b Hr. destruct (K r Hr) as (_ & -> & -> & ->). rewrite Ho by done. by apply (w_own _ _ _ W).
Qed.

End TbJumps.
