(* ===== verification/TbLists.v ===== *)
(** * The lists blocks are found through

    The chains of the physical hash table and the lists of blocks of each guest
    page of [TbCache]: their shape, as properties of the links alone, and what
    inserting and removing a block does to them. *)

From stdpp Require Import gmap.
From S2P Require Import Prelude Chains SoftTlb TbCache TbJumps.

Module TbLists.
Import SoftTlb TbCache TbJumps.

(** ** Hash chains *)

Definition hlink (hn : list (option nat)) (hash : gmap Z nat) (l : HashLoc) : option HashLoc :=
  HashNext <$> match l with Bucket h => hash !! h | HashNext t => mjoin (hn !! t) end.

(** [H h] are the blocks of bucket [h]: those of [live] for which [hf] is [h]. *)
Record hashed (hn : list (option nat)) (hash : gmap Z nat) (live : gset nat) (hf : nat -> Z) (H : Z -> list nat) : Prop := {
  h_range t : t ∈ live -> (t < length hn)%nat;
  h_chain h : chain (hlink hn hash) (hlink hn hash (Bucket h)) None (HashNext <$> H h);
  h_nodup h : NoDup (H h);
  h_elem h t : t ∈ H h <-> t ∈ live /\ hf t = h
}.

#[global] Arguments hlink : simpl never.
#[export] Instance HashNext_inj : Inj (=) (=) HashNext.
Proof. by intros x y [=]. Qed.
#[export] Instance HashLoc_dec : EqDecision HashLoc.
Proof. solve_decision. Defined.

Lemma hashed_nil hn hf : hashed hn ∅ ∅ hf (fun _ => []).
Proof. split; [set_solver | by unfold hlink; cbn; setoid_rewrite lookup_empty | constructor |]. intros h t. split; set_solver. Qed.

Lemma hashed_root hn hash live hf H h : hashed hn hash live hf H -> NoDup (Bucket h :: (HashNext <$> H h)).
Proof.
  intros W. apply list.NoDup_cons. split; [|apply (NoDup_fmap_2 _), (h_nodup _ _ _ _ _ W)].
  intros (t & ? & _)%list_elem_of_fmap. done.
Qed.

(** A new block at the head of a bucket. *)
Lemma hashed_insert hn hash live hf hf' H h t : hashed hn hash live hf H -> (t < length hn)%nat -> t ∉ live ->
  hf' t = h -> (forall u, u ∈ live -> hf' u = hf u) ->
  hashed (<[t := hash !! h]> hn) (<[h := t]> hash) ({[t]} ∪ live) hf' (fun k => if decide (k = h) then t :: H k else H k).
Proof.
  intros W Ht Nt Eh Eu.
  assert (Hk : forall k x, x ∈ HashNext <$> H k -> hlink (<[t := hash !! h]> hn) (<[h := t]> hash) x = hlink hn hash x).
  { intros k x (u & -> & Hu)%list_elem_of_fmap. apply (h_elem _ _ _ _ _ W) in Hu as [Hu _]. unfold hlink.
    rewrite list_lookup_insert_ne; [done|]. by intros ->. }
  split.
  - intros u [->%elem_of_singleton|Hu]%elem_of_union; rewrite length_insert; [done | by apply (h_range _ _ _ _ _ W)].
  - intros k. case_decide as D.
    + subst k. split; [unfold hlink; by rewrite lookup_insert_eq|].
      assert (hlink (<[t := hash !! h]> hn) (<[h := t]> hash) (HashNext t) = hlink hn hash (Bucket h)) as ->
        by (unfold hlink; by rewrite list_lookup_insert_eq).
      apply (chain_ext (hlink hn hash)); [apply Hk | apply (h_chain _ _ _ _ _ W)].
    + assert (hlink (<[t := hash !! h]> hn) (<[h := t]> hash) (Bucket k) = hlink hn hash (Bucket k)) as ->
        by (unfold hlink; by rewrite lookup_insert_ne).
      apply (chain_ext (hlink hn hash)); [apply Hk | apply (h_chain _ _ _ _ _ W)].
  - intros k. pose proof (h_nodup _ _ _ _ _ W k). case_decide; [|done]. apply list.NoDup_cons. split; [|done].
    by intros [? _]%(h_elem _ _ _ _ _ W).
  - intros k u. rewrite elem_of_union, elem_of_singleton. pose proof (h_elem _ _ _ _ _ W k u) as He.
    destruct (decide (u = t)) as [->|Hne].
    + rewrite Eh. case_decide; [subst; rewrite elem_of_cons; tauto|]. split; [tauto | intros [_ ?]; congruence].
    + transitivity (u ∈ H k); [case_decide; rewrite ?elem_of_cons; tauto|]. rewrite He.
      split; [intros [? <-]; rewrite Eu by done; tauto | intros [[?|?] <-]; [done | by rewrite Eu]].
Qed.

(** Taking a block out of its bucket. *)
Definition hset (hn : list (option nat)) (hash : gmap Z nat) (l : HashLoc) (v : option nat) : list (option nat) * gmap Z nat :=
  match l with
  | Bucket h => (hn, partial_alter (fun _ => v) h hash)
  | HashNext t => (<[t := v]> hn, hash)
  end.

Lemma hlink_set hn hash l v x : (forall t, l = HashNext t -> (t < length hn)%nat) ->
  hlink (hset hn hash l v).1 (hset hn hash l v).2 x = if decide (x = l) then HashNext <$> v else hlink hn hash x.
Proof.
  intros Hl. unfold hlink. destruct l as [h|t], x as [k|u]; cbn; try done.
  - destruct (decide (k = h)) as [->|]; [rewrite lookup_partial_alter_eq, decide_True | rewrite lookup_partial_alter_ne, decide_False]; congruence.
  - destruct (decide (u = t)) as [->|].
    + rewrite list_lookup_insert_eq by auto. cbn. by rewrite decide_True.
    + rewrite list_lookup_insert_ne by congruence. by rewrite decide_False by congruence.
Qed.

Lemma hashed_remove hn hash live hf H t l1 l2 : hashed hn hash live hf H -> t ∈ live -> H (hf t) = l1 ++ t :: l2 ->
  let p := hset hn hash (before (Bucket (hf t)) (HashNext <$> l1)) (mjoin (hn !! t)) in
  hashed p.1 p.2 (live ∖ {[t]}) hf (fun k => filter (fun u => u <> t) (H k)).
Proof.
  intros W Ht E p. set (b := before _ _) in p.
  assert (Hb : b ∈ Bucket (hf t) :: (HashNext <$> l1)).
  { destruct (before_elem (Bucket (hf t)) (HashNext <$> l1)) as [Eb|?]; [unfold b; rewrite Eb; left | by right]. }
  assert (Rb : forall u, b = HashNext u -> (u < length hn)%nat).
  { intros u Eb. rewrite Eb in Hb. apply elem_of_cons in Hb as [?|(v & [= ->] & Hu)%list_elem_of_fmap]; [done|].
    apply (h_range _ _ _ _ _ W). apply (h_elem _ _ _ _ _ W (hf t)). rewrite E. set_solver. }
  assert (L : forall x, hlink p.1 p.2 x = if decide (x = b) then hlink hn hash (HashNext t) else hlink hn hash x).
  { intros x. unfold p. by rewrite hlink_set. }
  pose proof (hashed_root _ _ _ _ _ (hf t) W) as N. rewrite E, fmap_app, fmap_cons in N.
  split.
  - intros u [Hu _]%elem_of_difference. assert (length p.1 = length hn) as -> by (unfold p; destruct b; cbn; [|rewrite length_insert]; done).
    by apply (h_range _ _ _ _ _ W).
  - intros h. destruct (decide (h = hf t)) as [->|Hne].
    + rewrite E, filter_neq_split by (rewrite <- E; apply (h_nodup _ _ _ _ _ W)). rewrite fmap_app.
      apply (chain_unlink (hlink hn hash) _ _ _ _ (HashNext t)); [|done|..].
      * rewrite <- fmap_cons, <- fmap_app, <- E. apply (h_chain _ _ _ _ _ W).
      * intros y _ _ Hy. by rewrite L, decide_False.
      * by rewrite L, decide_True.
    + rewrite filter_neq_notin by (intros [_ ?]%(h_elem _ _ _ _ _ W); congruence).
      assert (K : forall x, x ∈ Bucket h :: (HashNext <$> H h) -> hlink p.1 p.2 x = hlink hn hash x).
      { intros x Hx. rewrite L, decide_False; [done|]. intros ->.
        apply elem_of_cons in Hx as [Ex|(u & Ex & Hu)%list_elem_of_fmap]; rewrite Ex in Hb; apply elem_of_cons in Hb as [Eb|Hb].
        - by injection Eb.
        - by apply list_elem_of_fmap in Hb as (? & ? & _).
        - done.
        - apply list_elem_of_fmap_inj in Hb; [|apply _]. apply Hne. apply (h_elem _ _ _ _ _ W) in Hu as [_ <-].
          symmetry. assert (Hu : u ∈ H (hf t)) by (rewrite E; set_solver). by apply (h_elem _ _ _ _ _ W) in Hu as [_ ?]. }
      rewrite K by left. apply (chain_ext (hlink hn hash)); [|apply (h_chain _ _ _ _ _ W)]. intros x Hx. apply K. by right.
  - intros h. apply list.NoDup_filter, (h_nodup _ _ _ _ _ W).
  - intros h u. rewrite list_elem_of_filter, (h_elem _ _ _ _ _ W), elem_of_difference, not_elem_of_singleton. tauto.
Qed.

(** ** Page lists *)

Definition pref (r : Ref) : PageLoc := PageNext r.1 r.2.

Definition plink (pn : list (Two (option Ref))) (first : Z -> option Ref) (l : PageLoc) : option PageLoc :=
  pref <$> match l with PageHead i => first i | PageNext t n => pn !! t ≫= fun x => get2 x n end.

(** [P i] are the links of blocks on page [i]: those of [M] for which [idx] is [i]. *)
Record paged (pn : list (Two (option Ref))) (first : Z -> option Ref) (M : Ref -> Prop) (idx : Ref -> option Z)
    (P : Z -> list Ref) : Prop := {
  p_range r : M r -> is_jump r /\ (r.1 < length pn)%nat;
  p_chain i : chain (plink pn first) (plink pn first (PageHead i)) None (pref <$> P i);
  p_nodup i : NoDup (P i);
  p_elem i r : r ∈ P i <-> M r /\ idx r = Some i
}.

#[global] Arguments plink : simpl never.
#[export] Instance pref_inj : Inj (=) (=) pref.
Proof. intros [] [] [=]. by subst. Qed.
#[export] Instance PageLoc_dec : EqDecision PageLoc.
Proof. solve_decision. Defined.

Lemma paged_ext pn first first' M M' idx idx' P : paged pn first M idx P -> (forall i, first' i = first i) ->
  (forall r, M' r <-> M r) -> (forall r, M r -> idx' r = idx r) -> paged pn first' M' idx' P.
Proof.
  intros W Ef Em Ei. split.
  - intros r Hr%Em. by apply (p_range _ _ _ _ _ W).
  - intros i. assert (K : forall x, plink pn first' x = plink pn first x) by (intros []; unfold plink; by rewrite ?Ef).
    rewrite K. apply (chain_ext (plink pn first)); [intros; apply K | apply (p_chain _ _ _ _ _ W)].
  - apply (p_nodup _ _ _ _ _ W).
  - intros i r. rewrite Em, (p_elem _ _ _ _ _ W). split; intros [Hr E]; split; try done; [by rewrite Ei | by rewrite <- Ei].
Qed.

Lemma paged_nil pn first idx : (forall i, first i = None) -> paged pn first (fun _ => False) idx (fun _ => []).
Proof. intros E. split; [done | intros i; unfold plink; cbn; by rewrite E | constructor |]. intros i r. split; [by intros ?%elem_of_nil | tauto]. Qed.

Lemma paged_root pn first M idx P i : paged pn first M idx P -> NoDup (PageHead i :: (pref <$> P i)).
Proof.
  intros W. apply list.NoDup_cons. split; [|apply (NoDup_fmap_2 _), (p_nodup _ _ _ _ _ W)].
  intros (t & ? & _)%list_elem_of_fmap. done.
Qed.

(** Links written through a place. *)
Definition pset (pn : list (Two (option Ref))) (first : Z -> option Ref) (l : PageLoc) (v : option Ref) :
    list (Two (option Ref)) * (Z -> option Ref) :=
  match l with
  | PageHead i => (pn, fun k => if decide (k = i) then v else first k)
  | PageNext t n => (alter (fun x => set2 x n v) t pn, first)
  end.

Definition place_ok (pn : list (Two (option Ref))) (l : PageLoc) : Prop :=
  match l with PageHead _ => True | PageNext t n => is_jump (t, n) /\ (t < length pn)%nat end.

Lemma plink_set pn first l v x : place_ok pn l -> place_ok pn x ->
  plink (pset pn first l v).1 (pset pn first l v).2 x = if decide (x = l) then pref <$> v else plink pn first x.
Proof.
  intros Hl Hx. unfold plink. destruct l as [h|t n], x as [k|u m]; cbn in *; try done.
  - by destruct (decide (k = h)) as [->|]; [rewrite decide_True | rewrite decide_False by congruence].
  - destruct Hl as [Jn Ht], Hx as [Jm Hu]. destruct (decide (u = t)) as [->|].
    + rewrite list_lookup_alter_eq. apply lookup_lt_is_Some in Ht as [y ->]. cbn. rewrite get2_set2 by done.
      destruct (Z.eqb_spec n m) as [->|]; [by rewrite decide_True | by rewrite decide_False by congruence].
    + rewrite list_lookup_alter_ne by congruence. by rewrite decide_False by congruence.
Qed.

Lemma pset_length pn first l v : length (pset pn first l v).1 = length pn.
Proof. destruct l; cbn; [done | apply length_alter]. Qed.

Lemma place_ok_set pn first l v x : place_ok pn x -> place_ok (pset pn first l v).1 x.
Proof. destruct x; cbn; [done|]. by rewrite pset_length. Qed.

Lemma member_place pn first M idx P i x : paged pn first M idx P -> x ∈ PageHead i :: (pref <$> P i) -> place_ok pn x.
Proof.
  intros W [->|(r & -> & Hr)%list_elem_of_fmap]%elem_of_cons; [done|].
  apply (p_elem _ _ _ _ _ W) in Hr as [Hr _]. apply (p_range _ _ _ _ _ W) in Hr. by destruct r.
Qed.

(** The place of a list that is not the one written to. *)
Lemma page_apart pn first M idx P i k x : paged pn first M idx P -> k <> i ->
  x ∈ PageHead i :: (pref <$> P i) -> x ∈ PageHead k :: (pref <$> P k) -> False.
Proof.
  intros W Hne [->|(r & -> & Hr)%list_elem_of_fmap]%elem_of_cons [Ex|(r' & Ex & Hr')%list_elem_of_fmap]%elem_of_cons; try done.
  - by injection Ex.
  - apply (inj pref) in Ex as ->. apply (p_elem _ _ _ _ _ W) in Hr as [_ ?], Hr' as [_ ?]. congruence.
Qed.

(** A new link at the head of a page. *)
Lemma paged_insert pn first M idx idx' P i t n : paged pn first M idx P -> is_jump (t, n) -> (t < length pn)%nat -> ~ M (t, n) ->
  idx' (t, n) = Some i -> (forall r, M r -> idx' r = idx r) ->
  let q := pset pn first (PageNext t n) (first i) in
  let p := pset q.1 q.2 (PageHead i) (Some (t, n)) in
  paged p.1 p.2 (fun r => r = (t, n) \/ M r) idx' (fun k => if decide (k = i) then (t, n) :: P k else P k).
Proof.
  intros W J Ht Nt Ei Eu q p.
  assert (L : forall x, place_ok pn x -> plink p.1 p.2 x =
    if decide (x = PageHead i) then Some (PageNext t n) else if decide (x = PageNext t n) then plink pn first (PageHead i)
    else plink pn first x).
  { intros x Hx. unfold p, q. rewrite !plink_set; try done; by apply place_ok_set. }
  assert (K : forall k x, x ∈ pref <$> P k -> plink p.1 p.2 x = plink pn first x).
  { intros k x Hx. rewrite L by (eapply (member_place pn first M idx P k); [done | by right]).
    apply list_elem_of_fmap in Hx as (r & -> & Hr). rewrite decide_False by done. rewrite decide_False; [done|].
    intros E. apply (inj pref r (t, n)) in E as ->. by apply (p_elem _ _ _ _ _ W) in Hr as [? _]. }
  assert (Hi : forall k, chain (plink p.1 p.2) (plink pn first (PageHead k)) None (pref <$> P k)).
  { intros k. apply (chain_ext (plink pn first)); [apply K | apply (p_chain _ _ _ _ _ W)]. }
  split.
  - intros r [->|Hr]; unfold p, q; rewrite !pset_length; [done | by apply (p_range _ _ _ _ _ W)].
  - intros k. case_decide as D.
    + subst k. split; [by rewrite L, decide_True|]. change (pref (t, n)) with (PageNext t n). rewrite L by done.
      rewrite decide_False, decide_True by done. apply Hi.
    + rewrite L, decide_False, decide_False by (done || congruence). apply Hi.
  - intros k. pose proof (p_nodup _ _ _ _ _ W k). case_decide; [|done]. apply list.NoDup_cons. split; [|done].
    by intros [? _]%(p_elem _ _ _ _ _ W).
  - intros k r. pose proof (p_elem _ _ _ _ _ W k r) as He. destruct (decide (r = (t, n))) as [->|Hne].
    + rewrite Ei. case_decide; [subst; rewrite elem_of_cons; tauto|]. split; [tauto | intros [_ ?]; congruence].
    + transitivity (r ∈ P k); [case_decide; rewrite ?elem_of_cons; tauto|]. rewrite He.
      split; [intros [? <-]; rewrite Eu by done; tauto | intros [[?|?] <-]; [done | by rewrite Eu]].
Qed.

Lemma paged_remove pn first M idx P i r l1 l2 : paged pn first M idx P -> P i = l1 ++ r :: l2 ->
  let p := pset pn first (before (PageHead i) (pref <$> l1)) (pn !! r.1 ≫= fun x => get2 x r.2) in
  paged p.1 p.2 (fun y => M y /\ y <> r) idx (fun k => filter (fun y => y <> r) (P k)).
Proof.
  intros W E p. set (b := before _ _) in p.
  assert (Hb : b ∈ PageHead i :: (pref <$> P i)).
  { rewrite E, fmap_app. destruct (before_elem (PageHead i) (pref <$> l1)) as [Eb|?]; [unfold b; rewrite Eb; left | right; set_solver]. }
  pose proof (member_place _ _ _ _ _ _ _ W Hb) as Rb.
  assert (Hr : idx r = Some i) by (apply (p_elem _ _ _ _ _ W i); rewrite E; set_solver).
  assert (L : forall k x, x ∈ PageHead k :: (pref <$> P k) -> plink p.1 p.2 x =
    if decide (x = b) then plink pn first (pref r) else plink pn first x).
  { intros k x Hx. unfold p. rewrite plink_set; [done | done | by eapply member_place]. }
  pose proof (paged_root _ _ _ _ _ i W) as N. rewrite E, fmap_app, fmap_cons in N.
  split.
  - intros y [Hy _]. unfold p. rewrite pset_length. by apply (p_range _ _ _ _ _ W).
  - intros k. destruct (decide (k = i)) as [->|Hne].
    + rewrite E, filter_neq_split by (rewrite <- E; apply (p_nodup _ _ _ _ _ W)). rewrite fmap_app.
      apply (chain_unlink (plink pn first) _ _ _ _ (pref r)); [|done|..].
      * rewrite <- fmap_cons, <- fmap_app, <- E. apply (p_chain _ _ _ _ _ W).
      * intros y Hy _ Hne. rewrite (L i), decide_False; [done | done |]. by rewrite E, fmap_app, fmap_cons.
      * by rewrite (L i), decide_True.
    + rewrite filter_neq_notin by (intros [_ ?]%(p_elem _ _ _ _ _ W); congruence).
      assert (K : forall x, x ∈ PageHead k :: (pref <$> P k) -> plink p.1 p.2 x = plink pn first x).
      { intros x Hx. rewrite (L k), decide_False; [done | | done]. intros ->. by eapply (page_apart _ _ _ _ _ i k). }
      rewrite K by left. apply (chain_ext (plink pn first)); [|apply (p_chain _ _ _ _ _ W)]. intros x Hx. apply K. by right.
  - intros k. apply list.NoDup_filter, (p_nodup _ _ _ _ _ W).
  - intros k y. rewrite list_elem_of_filter, (p_elem _ _ _ _ _ W). tauto.
Qed.

(** ** The loops that remove a block *)

Lemma alter_const {A} (t : nat) (v : A) (l : list A) : alter (fun _ => v) t l = <[t := v]> l.
Proof.
  apply list_eq. intros i. destruct (decide (t = i)) as [->|].
  - rewrite list_lookup_alter_eq. destruct (decide (i < length l)%nat) as [H|H].
    + rewrite list_lookup_insert_eq by done. by apply lookup_lt_is_Some in H as [x ->].
    + rewrite list_insert_ge by lia. by rewrite lookup_ge_None_2 by lia.
  - by rewrite list_lookup_alter_ne, list_lookup_insert_ne.
Qed.

(** What an update of a block does to one field of all blocks. *)
Lemma view_upd {A} (f : TranslationBlock -> A) g h s t : (forall b, f (g b) = h (f b)) ->
  f <$> tbs (tb_upd s t g) = alter h t (f <$> tbs s).
Proof.
  intros E. apply list_eq. intros i. rewrite list_lookup_fmap, lookup_upd. destruct (decide (t = i)) as [->|].
  - rewrite list_lookup_alter_eq, list_lookup_fmap. destruct (tbs s !! i); cbn; [by rewrite E | done].
  - by rewrite list_lookup_alter_ne, list_lookup_fmap.
Qed.

Lemma view_same {A} (f : TranslationBlock -> A) g s t : (forall b, f (g b) = f b) ->
  f <$> tbs (tb_upd s t g) = f <$> tbs s.
Proof.
  intros E. apply list_eq. intros i. rewrite !list_lookup_fmap, lookup_upd. case_decide; [|done].
  destruct (tbs s !! i); cbn; [by rewrite E | done].
Qed.

Lemma view_at {A} (f : TranslationBlock -> A) s t b : tbs s !! t = Some b -> (f <$> tbs s) !! t = Some (f b).
Proof. intros E. by rewrite list_lookup_fmap, E. Qed.

Definition hviews (s : Exec) : list (option nat) * gmap Z nat := (phys_hash_next <$> tbs s, tb_phys_hash s).

Lemma hviews_write s l v : hviews (write_hash s l v) = hset (hviews s).1 (hviews s).2 l v.
Proof.
  destruct l as [h|t]; [done|]. unfold write_hash, hviews. cbn [fst snd hset]. f_equal.
  by rewrite (view_upd _ _ (fun _ => v)), alter_const.
Qed.

Definition hash_place (s : Exec) (l : HashLoc) : Prop :=
  match l with Bucket _ => True | HashNext t => (t < length (tbs s))%nat end.

Lemma read_hash_ok s l : hash_place s l ->
  exists p, read_hash s l = Ok p /\ hlink (hviews s).1 (hviews s).2 l = HashNext <$> p.
Proof.
  destruct l as [h|t]; cbn; [by eauto|]. intros H. destruct (tb_at_ok s t H) as (b & E & ->). eexists. split; [done|].
  unfold hlink. by rewrite (view_at _ _ _ _ E).
Qed.

Lemma hash_walk fuel s ptb t l1 l2 : chain (hlink (hviews s).1 (hviews s).2) (hlink (hviews s).1 (hviews s).2 ptb) None
    (HashNext <$> l1 ++ t :: l2) ->
  t ∉ l1 -> (forall u, u ∈ l1 ++ t :: l2 -> (u < length (tbs s))%nat) -> hash_place s ptb -> (length l1 < fuel)%nat ->
  tb_remove fuel s ptb t = Ok (write_hash s (before ptb (HashNext <$> l1)) (mjoin ((hviews s).1 !! t))).
Proof.
  revert fuel ptb. induction l1 as [|u l1 IH]; intros [|fuel] ptb C N R Hp F; cbn in F; try lia; cbn [tb_remove];
    destruct (read_hash_ok s ptb Hp) as (p & -> & E); rewrite E in C; cbn [res_bind]; cbn in C; destruct C as [C1 C2];
    (destruct p as [u'|]; [|done]); injection C1 as ->; cbn [deref res_bind].
  - rewrite Nat.eqb_refl. destruct (tb_at_ok s t) as (b & Eb & ->); [apply R; by left|]. cbn.
    by rewrite list_lookup_fmap, Eb.
  - destruct (Nat.eqb_spec u t) as [->|]; [set_solver|]. rewrite fmap_cons, before_cons. apply IH; [done | set_solver | | | lia].
    + intros v Hv. apply R. by right.
    + apply R. by left.
Qed.

Definition first_of (s : Exec) (i : Z) : option Ref := page_find s i ≫= first_tb.
Definition next_of (s : Exec) : list (Two (option Ref)) := page_next <$> tbs s.

Definition page_place (s : Exec) (l : PageLoc) : Prop :=
  match l with PageHead i => is_Some (page_find s i) | PageNext t _ => (t < length (tbs s))%nat end.

Lemma read_page_ok s l : page_place s l ->
  exists p, read_page s l = Ok p /\ plink (next_of s) (first_of s) l = pref <$> p.
Proof.
  destruct l as [i|t n]; cbn.
  - intros [p E]. rewrite E. eexists. split; [done|]. unfold plink, first_of. by rewrite E.
  - intros H. destruct (tb_at_ok s t H) as (b & E & ->). eexists. split; [done|].
    unfold plink, next_of. by rewrite (view_at _ _ _ _ E).
Qed.

Lemma page_walk fuel s ptb t n l1 l2 : chain (plink (next_of s) (first_of s)) (plink (next_of s) (first_of s) ptb) None
    (pref <$> l1 ++ (t, n) :: l2) ->
  t ∉ l1.*1 -> (forall r, r ∈ l1 ++ (t, n) :: l2 -> (r.1 < length (tbs s))%nat) -> page_place s ptb -> (length l1 < fuel)%nat ->
  tb_page_remove fuel s ptb t = Ok (write_page s (before ptb (pref <$> l1)) (next_of s !! t ≫= fun x => get2 x n)).
Proof.
  revert fuel ptb. induction l1 as [|[u m] l1 IH]; intros [|fuel] ptb C N R Hp F; cbn in F; try lia; cbn [tb_page_remove];
    destruct (read_page_ok s ptb Hp) as (p & -> & E); rewrite E in C; cbn [res_bind]; cbn in C; destruct C as [C1 C2];
    (destruct p as [[u' m']|]; [|done]); injection C1 as -> ->; cbn [deref res_bind].
  - rewrite Nat.eqb_refl. destruct (tb_at_ok s t) as (b & Eb & ->); [apply (R (t, n)); by left|]. cbn.
    unfold next_of. by rewrite list_lookup_fmap, Eb.
  - destruct (Nat.eqb_spec u t) as [->|]; [set_solver|]. rewrite fmap_cons, before_cons. apply IH; [done | set_solver | | | lia].
    + intros v Hv. apply R. by right.
    + apply (R (u, m)). by left.
Qed.

Lemma page_parts i j : Z.shiftr i 10 = Z.shiftr j 10 -> Z.land i (L2_SIZE - 1) = Z.land j (L2_SIZE - 1) -> i = j.
Proof.
  change (L2_SIZE - 1) with (Z.ones 10). rewrite !Z.land_ones, !Z.shiftr_div_pow2 by lia. change (2 ^ 10) with 1024.
  pose proof (Z.div_mod i 1024). pose proof (Z.div_mod j 1024). lia.
Qed.

Lemma land_l2 i : 0 <= Z.land i (L2_SIZE - 1) < 1024.
Proof. change (L2_SIZE - 1) with (Z.ones 10). rewrite Z.land_ones by lia. by apply Z.mod_pos_bound. Qed.

Lemma page_find_upd s i f j : page_find (page_upd s i f) j = if decide (i = j) then f <$> page_find s j else page_find s j.
Proof.
  unfold page_find, page_upd. cbn. destruct (decide (Z.shiftr i 10 = Z.shiftr j 10)) as [E1|E1].
  - rewrite <- E1, lookup_alter_eq. destruct (l1_map s !! Z.shiftr i 10) as [l|]; cbn; [|by destruct (decide _)].
    destruct (decide (i = j)) as [->|Hne]; [apply list_lookup_alter_eq|].
    apply list_lookup_alter_ne. intros E2. apply Hne, page_parts; [done|]. pose proof (land_l2 i). pose proof (land_l2 j). lia.
  - rewrite lookup_alter_ne by done. by rewrite decide_False by congruence.
Qed.

(** ** Only the members matter *)

Lemma hashed_local hn hn' hash live hf hf' H : hashed hn hash live hf H -> length hn' = length hn ->
  (forall t, t ∈ live -> hn' !! t = hn !! t) -> (forall t, t ∈ live -> hf' t = hf t) -> hashed hn' hash live hf' H.
Proof.
  intros W Hl Hn Hf. split.
  - intros t Ht. rewrite Hl. by apply (h_range _ _ _ _ _ W).
  - intros h. change (hlink hn' hash (Bucket h)) with (hlink hn hash (Bucket h)).
    apply (chain_ext (hlink hn hash)); [|apply (h_chain _ _ _ _ _ W)].
    intros x (t & -> & Ht)%list_elem_of_fmap. apply (h_elem _ _ _ _ _ W) in Ht as [Ht _]. unfold hlink. by rewrite Hn.
  - apply (h_nodup _ _ _ _ _ W).
  - intros h t. rewrite (h_elem _ _ _ _ _ W). split; intros [Ht <-]; (split; [done|]); [|symmetry]; by apply Hf.
Qed.

Lemma paged_local pn pn' first M M' idx idx' P : paged pn first M idx P -> length pn' = length pn ->
  (forall r, M r -> pn' !! r.1 = pn !! r.1) -> (forall r, M' r <-> M r) -> (forall r, M r -> idx' r = idx r) -> paged pn' first M' idx' P.
Proof.
  intros W Hl Hn Hm Hi. apply (paged_ext _ first _ M _ idx); [|done | done | done]. split.
  - intros r Hr. rewrite Hl. by apply (p_range _ _ _ _ _ W).
  - intros i. change (plink pn' first (PageHead i)) with (plink pn first (PageHead i)).
    apply (chain_ext (plink pn first)); [|apply (p_chain _ _ _ _ _ W)].
    intros x (r & -> & Hr)%list_elem_of_fmap. apply (p_elem _ _ _ _ _ W) in Hr as [Hr _]. unfold plink. cbn. by rewrite Hn.
  - apply (p_nodup _ _ _ _ _ W).
  - apply (p_elem _ _ _ _ _ W).
Qed.

End TbLists.
