(* ===== verification/TbInv.v ===== *)
(** * The invariant of the translation-block cache

    What ties the blocks of [TbCache] together: every live block is in the
    bucket of its physical address, on the list of each page its code is on
    and on the lists of the blocks its exits are chained to; nothing else is
    on a list, and the jump caches of the CPUs hold live blocks only.  The
    operations that allocate, link, invalidate and flush blocks keep it. *)

From stdpp Require Import gmap.
From S2P Require Import Prelude Chains SoftTlb TbCache TbJumps TbLists.

Module TbInv.
Import SoftTlb TbCache TbJumps TbLists.

(** ** Views *)

Definition jview (b : TranslationBlock) := (jmp_next b, jmp_first b, tb_next b, s2e_tb_next b, tc_ptr b, tb_next_offset b).
Definition cview (b : TranslationBlock) := (pc b, size b, page_addr b, (cs_base b, flags b)).

Definition block_pc (s : Exec) (t : nat) : Z := match tbs s !! t with Some b => pc b | None => 0 end.
Definition block_hash (s : Exec) (t : nat) : Z :=
  match tbs s !! t with Some b => tb_phys_hash_func (phys_pc_of b) | None => 0 end.
(** The page link [n] of a block is for, if there is one. *)
Definition block_page (s : Exec) (r : Ref) : option Z :=
  match tbs s !! r.1 with
  | Some b =>
      if (r.2 =? 1) && (get2 (page_addr b) 1 =? NO_PAGE) then None
      else Some (Z.shiftr (get2 (page_addr b) r.2) TARGET_PAGE_BITS)
  | None => None
  end.

(** The code of the block covers byte [k] of the page of link [n]. *)
Definition covers (s : Exec) (k : Z) (r : Ref) : bool :=
  match tbs s !! r.1 with
  | Some b => let '(a, e) := page_span b r.2 in (a <=? k) && (k <? e)
  | None => false
  end.

Definition bitmap_bit (bm : list Z) (k : Z) : bool := Z.testbit (nth (Z.to_nat (k / 8)) bm 0) (k mod 8).
Definition bitmap_for (s : Exec) (l : list Ref) (bm : list Z) : Prop :=
  length bm = 512%nat /\ forall k, 0 <= k < 4096 -> bitmap_bit bm k = existsb (covers s k) l.

(** ** The invariant *)

Definition links (live : gset nat) (r : Ref) : Prop := r.1 ∈ live /\ is_jump r.

Definition hash_ok (s : Exec) (live : gset nat) : Prop :=
  exists H, hashed (hviews s).1 (hviews s).2 live (block_hash s) H.
Definition page_ok (s : Exec) (M : Ref -> Prop) : Prop :=
  exists P, paged (next_of s) (first_of s) (fun r => M r /\ block_page s r <> None) (block_page s) P /\
    forall i p bm, page_find s i = Some p -> code_bitmap p = Some bm -> bitmap_for s (P i) bm.
Definition caches_ok (s : Exec) (live : gset nat) : Prop :=
  forall env h t, env ∈ cpus s -> tb_jmp_cache env !! h = Some t ->
    t ∈ live /\ h = tb_jmp_cache_hash_func (block_pc s t).

(** The pages with code are write protected. *)
Definition guarded (s : Exec) (M : Ref -> Prop) : Prop :=
  forall r i, M r -> block_page s r = Some i -> ram_page (ram s) (i * 4096) /\ protected (ram s) (cpus s) (i * 4096).

(** RAM addresses have 32 bits, and the last two pages are never used, so that
    the end of a block does not wrap around. *)
Definition RAM_LIMIT : Z := 2 ^ 32 - 8192.

(** The addresses of a block: its code is at most a page, and its second page
    is there exactly when the code reaches into it. *)
Record addrs_ok (b : TranslationBlock) : Prop := {
  ad_pc : 0 <= pc b < 2 ^ 32;
  ad_size : 1 <= size b <= 4096;
  ad_page : get2 (page_addr b) 0 mod 4096 = 0 /\ 0 <= get2 (page_addr b) 0 < RAM_LIMIT;
  ad_page2 : get2 (page_addr b) 1 = NO_PAGE /\ page_offset (pc b) + size b <= 4096 \/
    (get2 (page_addr b) 1 mod 4096 = 0 /\ 0 <= get2 (page_addr b) 1 < RAM_LIMIT) /\ 4096 < page_offset (pc b) + size b
}.

Lemma addrs_view b b' : cview b' = cview b -> addrs_ok b -> addrs_ok b'.
Proof. intros [= E1 E2 E3 _ _] []. split; rewrite ?E1, ?E2, ?E3; done. Qed.

(** The physical address byte [i] of a block's code was read from: on the first of
    its pages up to the end of the page, then on the second. *)
Definition source (b : TranslationBlock) (i : Z) : Z :=
  let o := pc b mod 4096 + i in
  if o <? 4096 then get2 (page_addr b) 0 + o else get2 (page_addr b) 1 + (o - 4096).

Lemma source_view b b' i : cview b' = cview b -> source b' i = source b i.
Proof. intros [= E1 _ E3 _ _]. unfold source. by rewrite E1, E3. Qed.

Lemma aligned_no_page a : a mod 4096 = 0 -> a <> NO_PAGE.
Proof. intros H ->. by vm_compute in H. Qed.

Record base_ok (s : Exec) (live : gset nat) : Prop := {
  b_nb : 0 <= nb_tbs s <= code_gen_max_blocks s;
  b_length : Z.of_nat (length (tbs s)) = code_gen_max_blocks s;
  b_live t : t ∈ live -> Z.of_nat t < nb_tbs s;
  b_l2 k l : l1_map s !! k = Some l -> length l = Z.to_nat L2_SIZE;
  b_addrs t b : t ∈ live -> tbs s !! t = Some b -> addrs_ok b
}.

Record cached (s : Exec) (live : gset nat) : Prop := {
  c_base : base_ok s live;
  c_wired : Wired s live;
  c_hash : hash_ok s live;
  c_page : page_ok s (links live);
  c_caches : caches_ok s live;
  c_mem : mem_ok (ram s);
  c_guard : guarded s (links live)
}.

(** ** What depends on which fields *)

Lemma view_lookup {A} (f : TranslationBlock -> A) s s' t b' : f <$> tbs s' = f <$> tbs s -> tbs s' !! t = Some b' ->
  exists b, tbs s !! t = Some b /\ f b' = f b.
Proof.
  intros E Eb. assert (H : (f <$> tbs s) !! t = Some (f b')) by (rewrite <- E; by apply view_at).
  rewrite list_lookup_fmap in H. destruct (tbs s !! t) as [b|]; [|done]. injection H as H. by exists b.
Qed.

Lemma view_length {A} (f : TranslationBlock -> A) s s' : f <$> tbs s' = f <$> tbs s -> length (tbs s') = length (tbs s).
Proof. intros E. by rewrite <- (length_fmap f), E, length_fmap. Qed.

(** A function of one field agrees when the field does. *)
Lemma view_match {A B} (f : TranslationBlock -> A) (g : A -> B) d s s' t : f <$> tbs s' = f <$> tbs s ->
  match tbs s' !! t with Some b => g (f b) | None => d end = match tbs s !! t with Some b => g (f b) | None => d end.
Proof.
  intros E. destruct (tbs s' !! t) as [b'|] eqn:E'.
  - by destruct (view_lookup f s s' t b' E E') as (b & -> & ->).
  - apply lookup_ge_None in E'. rewrite (view_length f s s' E) in E'. by apply lookup_ge_None in E' as ->.
Qed.

Section SameJumps.
Context (s s' : Exec) (E : jview <$> tbs s' = jview <$> tbs s).

Lemma jview_link r : link s' r = link s r.
Proof. exact (view_match jview (fun '(nx, fs, _, _, _, _) => if r.2 =? 2 then fs else get2 nx r.2) None s s' r.1 E). Qed.
Lemma jview_target r : target s' r = target s r.
Proof. exact (view_match jview (fun '(_, _, _, x, _, _) => get2 x r.2) None s s' r.1 E). Qed.
Lemma jview_addr r : jmp_addr s' r = jmp_addr s r.
Proof. exact (view_match jview (fun '(_, _, x, _, _, _) => get2 x r.2) 0 s s' r.1 E). Qed.
Lemma jview_own r : own_addr s' r = own_addr s r.
Proof. exact (view_match jview (fun '(_, _, _, _, p, o) => p + get2 o r.2) 0 s s' r.1 E). Qed.

Lemma jview_tc : tc_ptr <$> tbs s' = tc_ptr <$> tbs s.
Proof.
  assert (K : forall s, tc_ptr <$> tbs s = (fun '(_, _, _, _, p, _) => p) <$> (jview <$> tbs s))
    by (intros; by rewrite <- list_fmap_compose).
  by rewrite !K, E.
Qed.

Lemma jview_wired live L : wired s live L -> wired s' live L.
Proof.
  intros [[] W2 W3 W4]. split; [split|..]; intros; rewrite ?(view_length jview s s' E), ?jview_link; eauto.
  - apply (chain_ext (link s)); [intros; apply jview_link | auto].
  - rewrite jview_target. auto.
  - rewrite jview_target in *. rewrite jview_addr. destruct (W3 r t) as (b & Eb & Ea); [done..|].
    destruct (view_lookup jview s' s t b) as (b' & Eb' & V); [done | done|]. exists b'. injection V as _ _ _ _ V _. by rewrite <- V.
  - rewrite jview_target in *. rewrite jview_addr, jview_own. destruct (view_lookup jview s s' r.1 b) as (b0 & Eb0 & V); [done..|].
    injection V as _ _ _ _ _ V. rewrite V in *. by apply (W4 r b0).
Qed.
End SameJumps.

Section SameCode.
Context (s s' : Exec) (E : cview <$> tbs s' = cview <$> tbs s).

Lemma cview_pc t : block_pc s' t = block_pc s t.
Proof. exact (view_match cview (fun '(p, _, _, _) => p) 0 s s' t E). Qed.
Lemma cview_hash t : block_hash s' t = block_hash s t.
Proof. exact (view_match cview (fun '(p, _, a, _) => tb_phys_hash_func (u32 (get2 a 0 + page_offset p))) 0 s s' t E). Qed.
Lemma cview_page r : block_page s' r = block_page s r.
Proof.
  exact (view_match cview (fun '(_, _, a, _) => if (r.2 =? 1) && (get2 a 1 =? NO_PAGE) then None
    else Some (Z.shiftr (get2 a r.2) TARGET_PAGE_BITS)) None s s' r.1 E).
Qed.
End SameCode.

(** The bitmaps depend on the addresses and sizes of the code. *)
Definition span_view (b : TranslationBlock) : Z * Z := (pc b, size b).

Lemma covers_view s s' k r : span_view <$> tbs s' = span_view <$> tbs s -> covers s' k r = covers s k r.
Proof.
  intros E. unfold covers, page_span.
  exact (view_match span_view (fun '(p, z) => let '(x, e) := (if r.2 =? 0
    then (page_offset p, if TARGET_PAGE_SIZE <? page_offset p + z then TARGET_PAGE_SIZE else page_offset p + z)
    else (0, page_offset (u32 (p + z)))) in (x <=? k) && (k <? e)) false s s' r.1 E).
Qed.

Lemma bitmap_keeps s s' l bm : span_view <$> tbs s' = span_view <$> tbs s -> bitmap_for s l bm -> bitmap_for s' l bm.
Proof.
  intros E [H1 H2]. split; [done|]. intros k Hk. rewrite H2 by done. clear H2. induction l as [|r l IH]; [done|].
  cbn. by rewrite IH, (covers_view s s').
Qed.

Lemma cview_span s s' : cview <$> tbs s' = cview <$> tbs s -> span_view <$> tbs s' = span_view <$> tbs s.
Proof.
  intros E. assert (K : forall s, span_view <$> tbs s = (fun '(p, z, _, _) => (p, z)) <$> (cview <$> tbs s))
    by (intros; by rewrite <- list_fmap_compose).
  by rewrite !K, E.
Qed.

(** ** Taking a block off its lists *)

(** Only the lists blocks are found through differ. *)
Record keeps (s s' : Exec) : Prop := {
  k_jumps : jview <$> tbs s' = jview <$> tbs s;
  k_code : cview <$> tbs s' = cview <$> tbs s;
  k_rest : s' = s <| tbs := tbs s' |> <| tb_phys_hash := tb_phys_hash s' |> <| l1_map := l1_map s' |>;
  k_pages i : is_Some (page_find s i) -> is_Some (page_find s' i);
  k_l2 : (forall k l, l1_map s !! k = Some l -> length l = Z.to_nat L2_SIZE) ->
    forall k l, l1_map s' !! k = Some l -> length l = Z.to_nat L2_SIZE
}.

Lemma keeps_refl s : keeps s s.
Proof. split; [done | done | by destruct s | done | done]. Qed.
Lemma keeps_trans s1 s2 s3 : keeps s1 s2 -> keeps s2 s3 -> keeps s1 s3.
Proof.
  intros [J1 C1 R1 P1 L1] [J2 C2 R2 P2 L2]. split; [congruence | congruence | | auto | exact (fun H => L2 (L1 H))].
  clear -R1 R2. destruct s1, s2, s3. cbn in *. injection R1; injection R2; intros; subst; reflexivity.
Qed.

Lemma keeps_write_hash s l v : keeps s (write_hash s l v).
Proof.
  destruct l as [h|t]; split; try done; try (by destruct s); cbn [write_hash]; by apply view_same.
Qed.

Lemma page_upd_l2 s i f k l : (forall k l, l1_map s !! k = Some l -> length l = Z.to_nat L2_SIZE) ->
  l1_map (page_upd s i f) !! k = Some l -> length l = Z.to_nat L2_SIZE.
Proof.
  intros H. unfold page_upd. cbn. rewrite lookup_alter. case_decide; [|apply H].
  subst. intros (l0 & E & ->)%fmap_Some. rewrite length_alter. by eapply H.
Qed.

Lemma keeps_page_upd s i f : keeps s (page_upd s i f).
Proof.
  split; [done | done | by destruct s | | intros H k l; by apply page_upd_l2].
  intros k [p E]. rewrite page_find_upd. case_decide; rewrite E; by eexists.
Qed.
Lemma keeps_write_page s l v : keeps s (write_page s l v).
Proof.
  destruct l as [i|t n]; [apply keeps_page_upd|]. split; try done; try (by destruct s); cbn [write_page]; by apply view_same.
Qed.

Lemma hash_list_short s live H h : hashed (hviews s).1 (hviews s).2 live (block_hash s) H -> (length (H h) <= length (tbs s))%nat.
Proof.
  intros W. rewrite <- (length_seq (length (tbs s)) 0). apply submseteq_length, NoDup_submseteq; [apply (h_nodup _ _ _ _ _ W)|].
  intros t Ht%(h_elem _ _ _ _ _ W). apply elem_of_seq. destruct Ht as [Ht _]. apply (h_range _ _ _ _ _ W) in Ht.
  cbn in Ht. rewrite length_fmap in Ht. lia.
Qed.

Lemma tb_remove_ok s live t : hash_ok s live -> t ∈ live ->
  exists s', tb_remove (list_bound s) s (Bucket (block_hash s t)) t = Ok s' /\ hash_ok s' (live ∖ {[t]}) /\ keeps s s' /\
    next_of s' = next_of s /\ (forall i, page_find s' i = page_find s i).
Proof.
  intros [H W] Ht. assert (He : t ∈ H (block_hash s t)) by (by apply (h_elem _ _ _ _ _ W)).
  destruct (list_elem_of_split _ _ He) as (l1 & l2 & E).
  pose proof (h_nodup _ _ _ _ _ W (block_hash s t)) as N. rewrite E in N. apply list.NoDup_app in N as (_ & N & _).
  pose proof (hash_list_short s live H (block_hash s t) W) as Hl. rewrite E, length_app in Hl. cbn in Hl.
  rewrite (hash_walk _ s _ t l1 l2).
  - eexists. split; [done|]. split; [|split; [apply keeps_write_hash | split]].
    + eexists. pose proof (hashed_remove _ _ _ _ H t l1 l2 W Ht E) as W'. cbv zeta in W'. rewrite <- hviews_write in W'.
      assert (K : forall u, block_hash (write_hash s (before (Bucket (block_hash s t)) (HashNext <$> l1)) (mjoin ((hviews s).1 !! t))) u = block_hash s u).
      { intros u. apply cview_hash, keeps_write_hash. }
      destruct W' as [W1 W2 W3 W4]. split; [done | exact W2 | done |]. intros h u. rewrite K. apply W4.
    + unfold next_of. destruct (before _ _); cbn [write_hash]; [done | by apply view_same].
    + intros i. by destruct (before _ _).
  - rewrite <- E. apply (h_chain _ _ _ _ _ W).
  - intros H1. apply (N t H1). by left.
  - intros u Hu. rewrite <- E in Hu. apply (h_elem _ _ _ _ _ W) in Hu as [Hu _]. apply (h_range _ _ _ _ _ W) in Hu.
    cbn in Hu. by rewrite length_fmap in Hu.
  - done.
  - unfold list_bound. lia.
Qed.

Lemma first_split (t : nat) (l : list Ref) : t ∈ l.*1 -> exists l1 n l2, l = l1 ++ (t, n) :: l2 /\ t ∉ l1.*1.
Proof.
  induction l as [|[u m] l IH]; [by intros ?%elem_of_nil|]. cbn. intros H. destruct (decide (u = t)) as [->|Hne].
  - exists [], m, l. split; [done|]. by intros ?%elem_of_nil.
  - destruct IH as (l1 & n & l2 & -> & N); [set_solver|]. exists ((u, m) :: l1), n, l2. split; [done|]. cbn. set_solver.
Qed.

(** The lists of pages are short enough for the loops. *)
Lemma page_list_short s first M idx P i : paged (next_of s) first M idx P -> (length (P i) < list_bound s - 1)%nat.
Proof.
  intros W. assert (length (P i) <= length (all_jumps (length (tbs s))))%nat; [|rewrite all_jumps_length in *; unfold list_bound; lia].
  apply submseteq_length, NoDup_submseteq; [apply (p_nodup _ _ _ _ _ W)|].
  intros r [Hr _]%(p_elem _ _ _ _ _ W). apply all_jumps_elem. apply (p_range _ _ _ _ _ W) in Hr.
  unfold next_of in Hr. by rewrite length_fmap in Hr.
Qed.

Lemma pset_first s l v : (forall i, l = PageHead i -> is_Some (page_find s i)) ->
  next_of (write_page s l v) = (pset (next_of s) (first_of s) l v).1 /\
  forall k, first_of (write_page s l v) k = (pset (next_of s) (first_of s) l v).2 k.
Proof.
  intros Hl. destruct l as [i|t n]; unfold write_page; cbn [pset fst snd].
  - split; [done|]. intros k. unfold first_of. rewrite page_find_upd. destruct (Hl i eq_refl) as [p E].
    destruct (decide (i = k)) as [<-|]; [by rewrite decide_True, E | by rewrite decide_False].
  - split; [|done]. unfold next_of. by apply view_upd.
Qed.

(** [l] is the list of page [k]. *)
Definition listed (s : Exec) (k : Z) (l : list Ref) : Prop :=
  chain (plink (next_of s) (first_of s)) (plink (next_of s) (first_of s) (PageHead k)) None (pref <$> l).

Lemma listed_paged s M idx P k l : paged (next_of s) (first_of s) M idx P -> listed s k l -> l = P k.
Proof. intros W L. apply (inj (fmap pref)). exact (chain_functional _ _ _ _ L (p_chain _ _ _ _ _ W k)). Qed.

Lemma listed_same s s' k l : next_of s' = next_of s -> (forall i, first_of s' i = first_of s i) -> listed s k l -> listed s' k l.
Proof.
  intros En Ef L. unfold listed in *. rewrite En.
  assert (K : forall x, plink (next_of s) (first_of s') x = plink (next_of s) (first_of s) x) by (intros []; unfold plink; by rewrite ?Ef).
  rewrite K. apply (chain_ext (plink (next_of s) (first_of s))); [intros; apply K | done].
Qed.

(** Taking a block off the list of page [i] once: one of its links there goes. *)
Definition page_remove (s : Exec) (i : Z) (t : nat) : Res Exec :=
  let* s := tb_page_remove (list_bound s) s (PageHead i) t in
  Ok (page_upd s i invalidate_page_bitmap).

Lemma first_of_bitmap s i k : first_of (page_upd s i invalidate_page_bitmap) k = first_of s k.
Proof. unfold first_of. rewrite page_find_upd. case_decide; [|done]. by destruct (page_find s k). Qed.

Lemma write_page_bitmap s l v k p bm : page_find (write_page s l v) k = Some p -> code_bitmap p = Some bm ->
  exists p0, page_find s k = Some p0 /\ code_bitmap p0 = Some bm.
Proof.
  destruct l as [i|t n]; unfold write_page; [|by eauto]. rewrite page_find_upd. case_decide; [|by eauto].
  intros (p0 & E & ->)%fmap_Some Hb. by exists p0.
Qed.

Lemma page_remove_ok s M t m i : page_ok s M -> M (t, m) -> block_page s (t, m) = Some i ->
  exists n s', M (t, n) /\ is_jump (t, n) /\ block_page s (t, n) = Some i /\ page_remove s i t = Ok s' /\
    page_ok s' (fun r => M r /\ r <> (t, n)) /\ keeps s s' /\ hviews s' = hviews s /\
    (forall k l, listed s k l -> listed s' k (filter (fun y => y <> (t, n)) l)).
Proof.
  intros (P & W & B) Hm Em.
  assert (He : (t, m) ∈ P i) by (apply (p_elem _ _ _ _ _ W); split_and!; [done | congruence | done]).
  destruct (first_split t (P i)) as (l1 & n & l2 & E & N); [apply list_elem_of_fmap; by exists (t, m)|].
  assert (Hn : (t, n) ∈ P i) by (rewrite E; set_solver). apply (p_elem _ _ _ _ _ W) in Hn as [[Hn Hb] En].
  destruct (p_range _ _ _ _ _ W (t, n) (conj Hn Hb)) as [Jn _].
  pose proof (p_chain _ _ _ _ _ W i) as C. pose proof (page_list_short s _ _ _ P i W) as Hl. rewrite E in C, Hl.
  rewrite length_app in Hl. cbn in Hl.
  assert (Hf : is_Some (page_find s i)).
  { destruct (page_find s i) eqn:Ef; [done|]. exfalso. unfold plink at 2, first_of in C. rewrite Ef in C.
    destruct l1; cbn in C; by destruct C. }
  unfold page_remove. rewrite (page_walk _ s _ t n l1 l2); [|done|done| |done|lia].
  2: { intros r Hr. rewrite <- E in Hr. apply (p_elem _ _ _ _ _ W) in Hr as [Hr _]. apply (p_range _ _ _ _ _ W) in Hr as [_ Hr].
       unfold next_of in Hr. by rewrite length_fmap in Hr. }
  cbn [res_bind]. set (v := _ ≫= _). set (l := before _ _). set (s1 := write_page s l v).
  assert (K : keeps s (page_upd s1 i invalidate_page_bitmap)).
  { eapply keeps_trans; [apply keeps_write_page | apply keeps_page_upd]. }
  set (s2 := page_upd s1 i invalidate_page_bitmap) in *.
  assert (W2 : paged (next_of s2) (first_of s2) (fun r => (M r /\ r <> (t, n)) /\ block_page s2 r <> None) (block_page s2)
    (fun k => filter (fun y => y <> (t, n)) (P k))).
  { destruct (pset_first s l v) as [F1 F2].
    { intros j Ej. destruct (before_elem (PageHead i) (pref <$> l1)) as [Eb|Hb1]; fold l in Eb || fold l in Hb1.
      - rewrite Ej in Eb. by injection Eb as ->.
      - rewrite Ej in Hb1. by apply list_elem_of_fmap in Hb1 as (? & ? & _). }
    pose proof (paged_remove _ _ _ _ P i (t, n) l1 l2 W E) as W'. cbv zeta in W'. cbn [fst snd] in W'. fold v l in W'.
    rewrite <- F1 in W'. eapply paged_ext; [exact W'| | |].
    + intros k. unfold s2. rewrite first_of_bitmap. apply F2.
    + intros r. rewrite (cview_page s _ (k_code _ _ K)). tauto.
    + intros r _. apply (cview_page s _ (k_code _ _ K)). }
  exists n, s2. split_and!; [done | done | done | done | | done | |].
  2: { unfold s2, s1. destruct l as [j|u k]; [done|]. unfold hviews. cbn [page_upd]. f_equal. by apply view_same. }
  2: { intros k l0 Hl0. rewrite (listed_paged s _ _ P k l0 W Hl0). exact (p_chain _ _ _ _ _ W2 k). }
  exists (fun k => filter (fun y => y <> (t, n)) (P k)). split; [exact W2|].
  intros k p bm Ep Eb. apply (bitmap_keeps s _ _ _ (cview_span s _ (k_code _ _ K))). unfold s2 in Ep. rewrite page_find_upd in Ep.
  destruct (decide (i = k)) as [->|Hne].
  - apply fmap_Some in Ep as (p0 & _ & ->). done.
  - destruct (write_page_bitmap s l v k p bm Ep Eb) as (p0 & E0 & B0). rewrite filter_neq_notin; [by apply (B k p0)|].
    intros [_ H]%(p_elem _ _ _ _ _ W). congruence.
Qed.

Lemma page_ok_ext s M M' : page_ok s M -> (forall r, is_jump r -> block_page s r <> None -> M' r <-> M r) ->
  (forall r, M' r -> is_jump r) -> page_ok s M'.
Proof.
  intros (P & W & B) E J. exists P. split; [|done]. eapply paged_ext; [exact W | done | | done].
  intros r. split; intros [H1 H2].
  - apply E in H1; [done | by apply J | done].
  - split; [|done]. apply E; [|done..]. by apply (p_range _ _ _ _ _ W r).
Qed.

Lemma remove_from_page_eq s t n b : tbs s !! t = Some b -> is_jump (t, n) -> addrs_ok b ->
  remove_from_page s t n NO_PAGE = match block_page s (t, n) with Some i => page_remove s i t | None => Ok s end.
Proof.
  intros E J A. destruct (ad_page _ A) as [A0 _]. apply aligned_no_page in A0. clear A.
  unfold remove_from_page, tb_at, block_page. cbn [fst snd]. rewrite E. cbn [res_bind].
  destruct J as [Hn|Hn]; cbn in Hn; subst n; cbn [Z.eqb Pos.eqb andb orb].
  - apply Z.eqb_neq in A0. by rewrite A0.
  - by destruct (get2 (page_addr b) 1 =? NO_PAGE).
Qed.

Lemma listed_jump s live k l r : page_ok s (links live) -> listed s k l -> r ∈ l -> block_page s r = Some k /\ is_jump r.
Proof.
  intros (P & W & _) L Hr. rewrite (listed_paged s _ _ P k l W L) in Hr. apply (p_elem _ _ _ _ _ W) in Hr as [[[_ J] _] E]. done.
Qed.

Lemma list_filter_iff_elem {A} (P Q : A -> Prop) `{!forall x, Decision (P x)} `{!forall x, Decision (Q x)} (l : list A) :
  (forall x, x ∈ l -> P x <-> Q x) -> filter P l = filter Q l.
Proof.
  induction l as [|x l IH]; intros HPQ; [done|]. rewrite !filter_cons.
  rewrite IH by (intros; apply HPQ; by right). pose proof (HPQ x ltac:(by left)). repeat case_decide; tauto || done.
Qed.

Lemma remove_from_pages_ok s live t b : page_ok s (links live) -> t ∈ live -> tbs s !! t = Some b -> addrs_ok b ->
  exists s', (let* s := remove_from_page s t 0 NO_PAGE in remove_from_page s t 1 NO_PAGE) = Ok s' /\
    page_ok s' (links (live ∖ {[t]})) /\ keeps s s' /\ hviews s' = hviews s /\
    (forall k l, listed s k l -> listed s' k (filter (fun y => y.1 <> t) l)).
Proof.
  intros PO Ht E A.
  assert (Hl : forall n, is_jump (t, n) -> links live (t, n)) by (intros; split; done).
  assert (H0 : exists i, block_page s (t, 0) = Some i) by (unfold block_page; cbn; rewrite E; cbn; by eauto).
  destruct H0 as [i E0]. rewrite (remove_from_page_eq s t 0 b), E0 by (done || by left).
  destruct (page_remove_ok s (links live) t 0 i PO (Hl 0 ltac:(by left)) E0) as (n1 & s1 & L1 & J1 & B1 & -> & P1 & K1 & V1 & Q1).
  cbn [res_bind].
  destruct (view_lookup cview s1 s t b (eq_sym (k_code _ _ K1)) E) as (b1 & E1 & C1).
  assert (A1 : addrs_ok b1) by (by apply (addrs_view b)).
  rewrite (remove_from_page_eq s1 t 1 b1), (cview_page s s1 (k_code _ _ K1)) by (done || by right).
  destruct (block_page s (t, 1)) as [j|] eqn:Ej.
  - assert (H2 : exists n2, is_jump (t, n2) /\ n2 <> n1 /\ block_page s1 (t, n2) = Some j).
    { setoid_rewrite (cview_page s s1 (k_code _ _ K1)).
      destruct J1 as [Hn|Hn]; cbn in Hn; subst n1; [exists 1 | exists 0; replace j with i by congruence]; (split; [by (left + right) | done]). }
    destruct H2 as (n2 & J2 & Hne & B2).
    destruct (page_remove_ok s1 _ t n2 j P1) as (n3 & s2 & [L3 N3] & J3 & B3 & -> & P2 & K2 & V2 & Q2);
      [split; [by apply Hl | congruence] | done |].
    exists s2. split_and!; [done | | by eapply keeps_trans | congruence |].
    2: { intros k l Hl0. pose proof (Q2 k _ (Q1 k l Hl0)) as Q.
         assert (Ef : filter (fun y => y <> (t, n3)) (filter (fun y => y <> (t, n1)) l) = filter (fun y => y.1 <> t) l);
           [|by rewrite Ef in Q].
         rewrite list_filter_filter. apply list_filter_iff_elem. intros [u m] Hy. destruct (listed_jump s live k l (u, m) PO Hl0 Hy) as [_ Jy]. cbn.
         assert (n3 <> n1) by congruence. split; [intros [Y1 Y2] -> | intros Y; split; congruence].
         destruct J1 as [O1|O1], J3 as [O3|O3], Jy as [Oy|Oy]; cbn in *; subst; congruence. }
    eapply page_ok_ext; [exact P2 | | by intros r [_ ?]].
    intros [u m] Jr _. unfold links. rewrite elem_of_difference, not_elem_of_singleton. cbn.
    assert (n3 <> n1) by congruence. split; [intros [[? ?] _]; split_and!; congruence || done|].
    intros [[[Hu _] H1] H3]. split; [split; [done|]|done]. intros ->.
    destruct J1 as [O1|O1], J3 as [O3|O3], Jr as [Qr|Qr]; cbn in *; subst; congruence.
  - exists s1. split_and!; [done | | done | done |].
    2: { intros k l Hl0. pose proof (Q1 k l Hl0) as Q.
         assert (Ef : filter (fun y => y <> (t, n1)) l = filter (fun y => y.1 <> t) l); [|by rewrite Ef in Q].
         apply list_filter_iff_elem. intros [u m] Hy. destruct (listed_jump s live k l (u, m) PO Hl0 Hy) as [By Jy]. cbn.
         split; [intros Y -> | intros Y; congruence].
         destruct J1 as [O1|O1], Jy as [Oy|Oy]; cbn in *; subst; congruence. }
    eapply page_ok_ext; [exact P1 | | by intros r [_ ?]].
    intros [u m] Jr Br. rewrite (cview_page s s1 (k_code _ _ K1)) in Br. unfold links.
    rewrite elem_of_difference, not_elem_of_singleton. cbn.
    assert (n1 = 0) as -> by (destruct J1 as [Q|Q]; cbn in Q; subst; congruence).
    split; [intros [[? ?] _]; split_and!; congruence || done|].
    intros [[Hu _] H1]. split; [split; [done|]|done]. intros ->. destruct Jr as [Q|Q]; cbn in Q; subst; congruence.
Qed.

Lemma forget_ok s live t : caches_ok s live ->
  caches_ok (forget_in_caches s t (tb_jmp_cache_hash_func (block_pc s t))) (live ∖ {[t]}).
Proof.
  intros C env h u He Hu. unfold forget_in_caches in He. cbn in He. apply list_elem_of_fmap in He as (env0 & -> & He).
  change (block_pc (forget_in_caches _ _ _) u) with (block_pc s u).
  rewrite elem_of_difference, not_elem_of_singleton. case_decide as D.
  - cbn in Hu. destruct (decide (tb_jmp_cache_hash_func (block_pc s t) = h)) as [<-|].
    + by rewrite lookup_delete_eq in Hu.
    + rewrite lookup_delete_ne in Hu by done. destruct (C env0 h u He Hu) as [H1 H2]. split; [|done]. split; [done|]. congruence.
  - destruct (C env0 h u He Hu) as [H1 H2]. split; [|done]. split; [done|]. congruence.
Qed.

Lemma frame_views s s' : jmp_frame s s' -> cview <$> tbs s' = cview <$> tbs s /\ next_of s' = next_of s /\ hviews s' = hviews s /\
  tc_ptr <$> tbs s' = tc_ptr <$> tbs s.
Proof.
  intros [E F]. unfold next_of, hviews. assert (tb_phys_hash s' = tb_phys_hash s) as -> by (by rewrite E).
  assert (K : forall A (f : TranslationBlock -> A), (forall b b', jmp_same b b' -> f b' = f b) -> f <$> tbs s' = f <$> tbs s).
  { intros A f Hf. clear E. induction F as [|b b' l l' H F IH]; [done|]. cbn. by rewrite IH, (Hf b b'). }
  split_and!; [apply K | apply K | f_equal; apply K | apply K]; intros b b' H; rewrite H; by destruct b, b'.
Qed.

(** ** Invalidation *)

Lemma base_keeps s s' live live' : base_ok s live -> live' ⊆ live -> nb_tbs s' = nb_tbs s ->
  code_gen_max_blocks s' = code_gen_max_blocks s -> cview <$> tbs s' = cview <$> tbs s ->
  (forall k l, l1_map s' !! k = Some l -> length l = Z.to_nat L2_SIZE) -> base_ok s' live'.
Proof.
  intros [] Hs E1 E2 Ec Hl. split; rewrite ?E1, ?E2, ?(view_length cview s s' Ec); auto.
  intros t b' Ht E'. destruct (view_lookup cview s s' t b' Ec E') as (b & Eb & C).
  apply (addrs_view b); [done|]. by apply (b_addrs0 t); [apply Hs|].
Qed.

Lemma caches_keeps s s' live : caches_ok s live -> cpus s' = cpus s -> cview <$> tbs s' = cview <$> tbs s -> caches_ok s' live.
Proof. intros C E Ec env h t. rewrite E, (cview_pc s s' Ec). apply C. Qed.

Lemma hash_keeps s s' live : hash_ok s live -> hviews s' = hviews s -> cview <$> tbs s' = cview <$> tbs s -> hash_ok s' live.
Proof.
  intros [H W] E Ec. exists H. rewrite E. destruct W. split; [done..|]. intros h t. rewrite (cview_hash s s' Ec). auto.
Qed.

Lemma page_move s s' M : page_ok s M -> next_of s' = next_of s -> (forall i, page_find s' i = page_find s i) ->
  span_view <$> tbs s' = span_view <$> tbs s -> (forall r, M r -> block_page s' r = block_page s r) -> page_ok s' M.
Proof.
  intros (P & W & B) En Ep Ec Eb. exists P. rewrite En. split.
  - eapply paged_ext; [exact W | intros i; unfold first_of; by rewrite Ep | | intros r [? _]; auto].
    intros r. split; intros [H1 H2]; (split; [done|]); rewrite Eb in *; done.
  - intros i p bm E Em. rewrite Ep in E. apply (bitmap_keeps s s' _ _ Ec). by apply (B i p).
Qed.

Lemma page_keeps s s' M : page_ok s M -> next_of s' = next_of s -> (forall i, page_find s' i = page_find s i) ->
  cview <$> tbs s' = cview <$> tbs s -> page_ok s' M.
Proof.
  intros PO En Ep Ec. apply (page_move s); [done.. | by apply cview_span | intros; by apply cview_page].
Qed.

Lemma guard_keeps s s' M M' : guarded s M -> (forall r, M' r -> M r) -> ram s' = ram s ->
  map tlb_table (cpus s') = map tlb_table (cpus s) -> cview <$> tbs s' = cview <$> tbs s -> guarded s' M'.
Proof.
  intros G Hm Er Et Ec r i Hr E. rewrite (cview_page s s' Ec) in E. destruct (G r i (Hm r Hr) E) as [R [D N]]. rewrite Er.
  split; [done|]. split; [done|]. by apply (no_direct_tables (cpus s)).
Qed.

Lemma forget_tables s t h : map tlb_table (cpus (forget_in_caches s t h)) = map tlb_table (cpus s).
Proof. unfold forget_in_caches. cbn. rewrite map_map. apply map_ext. intros env. by case_decide. Qed.

Lemma links_mono live live' r : live' ⊆ live -> links live' r -> links live r.
Proof. intros Hs [H J]. split; [by apply Hs | done]. Qed.

Lemma at_hash s t b : tbs s !! t = Some b -> block_hash s t = tb_phys_hash_func (phys_pc_of b).
Proof. unfold block_hash. by intros ->. Qed.
Lemma at_pc s t b : tbs s !! t = Some b -> block_pc s t = pc b.
Proof. unfold block_pc. by intros ->. Qed.

(** What stays when a block is invalidated: everything but the lists; of the
    chained exits of other blocks, those to the block are gone. *)
Record invalidated (s s' : Exec) (live : gset nat) (t : nat) : Prop := {
  i_code : cview <$> tbs s' = cview <$> tbs s;
  i_tc : tc_ptr <$> tbs s' = tc_ptr <$> tbs s;
  i_rest : s' = s <| tbs := tbs s' |> <| tb_phys_hash := tb_phys_hash s' |> <| l1_map := l1_map s' |>
    <| tb_invalidated_flag := 1 |> <| cpus := cpus s' |> <| tb_phys_invalidate_count := tb_phys_invalidate_count s + 1 |>;
  i_cpus : cpus s' = cpus (forget_in_caches s t (tb_jmp_cache_hash_func (block_pc s t)));
  i_jumps r : is_jump r -> r.1 ∈ live -> r.1 <> t ->
    target s' r = if decide (target s r = Some t) then None else target s r;
  i_pages k : is_Some (page_find s k) -> is_Some (page_find s' k);
  i_dead n : is_jump (t, n) -> link s' (t, n) = None;
  i_others y : is_link y -> y.1 ∉ live -> link s' y = link s y;
  i_lists k l : listed s k l -> listed s' k (filter (fun y => y.1 <> t) l)
}.

Lemma invalidate_ok s live t : cached s live -> t ∈ live ->
  exists s', tb_phys_invalidate s t NO_PAGE = Ok s' /\ cached s' (live ∖ {[t]}) /\ invalidated s s' live t.
Proof.
  intros [CB [L W] CH CP CC CM CG] Ht. destruct (tb_at_ok s t (j_live _ _ _ (w_jumps _ _ _ W) t Ht)) as (b & E & A).
  unfold tb_phys_invalidate. rewrite A. cbn [res_bind]. rewrite <- (at_hash s t b E).
  destruct (tb_remove_ok s live t CH Ht) as (s1 & -> & CH1 & K1 & N1 & F1). cbn [res_bind].
  assert (CP1 : page_ok s1 (links live)) by (by apply (page_keeps s); [.. | apply K1]).
  destruct (view_lookup cview s1 s t b (eq_sym (k_code _ _ K1)) E) as (b1 & E1 & C1).
  assert (A1 : addrs_ok b1) by (apply (addrs_view b); [done | by apply (b_addrs _ _ CB t)]).
  destruct (remove_from_pages_ok s1 live t b1 CP1 Ht E1 A1) as (s2 & A2 & CP2 & K2 & V2 & Q2).
  destruct (remove_from_page s1 t 0 NO_PAGE) as [s1'|]; [|done]. cbn [res_bind] in A2 |- *. rewrite A2. cbn [res_bind].
  assert (K : keeps s s2) by (by eapply keeps_trans).
  set (s3 := forget_in_caches _ _ _).
  assert (W3 : wired s3 live L).
  { apply (jview_wired s); [|done]. exact (k_jumps _ _ K). }
  destruct (suppress_ok s3 live L t W3 Ht) as (s4 & -> & W4 & F4 & T4 & Dt & Dl). cbn [res_bind].
  destruct (frame_views s3 s4 F4) as (V4 & N4 & H4 & P4). pose proof F4 as [R4 _].
  assert (V : cview <$> tbs s4 = cview <$> tbs s) by (rewrite V4; exact (k_code _ _ K)).
  set (s5 := s4 <| tb_phys_invalidate_count := _ |>).
  assert (R : s5 = s <| tbs := tbs s5 |> <| tb_phys_hash := tb_phys_hash s5 |> <| l1_map := l1_map s5 |>
    <| tb_invalidated_flag := 1 |> <| cpus := cpus s5 |> <| tb_phys_invalidate_count := tb_phys_invalidate_count s + 1 |>).
  { unfold s5. rewrite R4. unfold s3, forget_in_caches. cbn. rewrite (k_rest _ _ K). by destruct s. }
  assert (Ecs : cpus s5 = cpus (forget_in_caches s t (tb_jmp_cache_hash_func (block_pc s t)))).
  { change (cpus s4 = cpus (forget_in_caches s t (tb_jmp_cache_hash_func (block_pc s t)))). rewrite R4, (at_pc s t b E).
    unfold s3, forget_in_caches. cbn. by rewrite (k_rest _ _ K). }
  exists s5. split; [done|]. split; [split|].
  - apply (base_keeps s _ live); [done | set_solver | by rewrite R | by rewrite R | done |].
    change (forall k l, l1_map s4 !! k = Some l -> length l = Z.to_nat L2_SIZE). rewrite R4. cbn.
    apply (k_l2 _ _ K). apply (b_l2 _ _ CB).
  - destruct W4 as [L4 W4]. exists L4. by apply (jview_wired s4).
  - apply (hash_keeps s1); [done | | etrans; [exact V | by rewrite (k_code _ _ K1)]]. change (hviews s4 = hviews s1). by rewrite H4, <- V2.
  - apply (page_keeps s2); [done | exact N4 | intros i; change (page_find s4 i = page_find s2 i); by rewrite R4 |].
    etrans; [exact V | by rewrite (k_code _ _ K)].
  - apply (caches_keeps s3); [|change (cpus s4 = cpus s3); by rewrite R4 | done].
    unfold s3. rewrite <- (at_pc s t b E), <- (cview_pc s s2 (k_code _ _ K)).
    change (block_pc s2 t) with (block_pc (s2 <| tb_invalidated_flag := 1 |>) t). apply forget_ok. apply (caches_keeps s); [done | cbn; by rewrite (k_rest _ _ K) | apply K].
  - by rewrite R.
  - apply (guard_keeps s s5 (links live)); [done | intros r; apply links_mono; set_solver | by rewrite R | | done].
    by rewrite Ecs, forget_tables.
  - split; [done | | done | done | | | exact Dt | |].
    3: { intros k Hk. change (page_find s5 k) with (page_find s4 k). rewrite R4. exact (k_pages _ _ K k Hk). }
    3: { intros y Jy Ny. change (link s4 y = link s y). rewrite Dl by done. apply (jview_link s s3 (k_jumps _ _ K)). }
    3: { intros k l Hk. apply (listed_same s2 s5); [exact N4 | |].
         - intros i. unfold first_of. change (page_find s5 i) with (page_find s4 i). by rewrite R4.
         - apply Q2. apply (listed_same s s1); [done | intros i; unfold first_of; by rewrite F1 | done]. }
    + change (tc_ptr <$> tbs s4 = tc_ptr <$> tbs s). rewrite P4. exact (jview_tc s s2 (k_jumps _ _ K)).
    + intros r Jr Hr Hne. change (target s5 r) with (target s4 r). rewrite T4 by done.
      by rewrite (jview_target s s3 (k_jumps _ _ K)).
Qed.

(** ** Linking a block *)

Lemma page_alloc_at s i : (forall k l, l1_map s !! k = Some l -> length l = Z.to_nat L2_SIZE) ->
  is_Some (page_find (page_find_alloc s i) i).
Proof.
  intros H. unfold page_find_alloc. destruct (l1_map s !! Z.shiftr i 10) as [l|] eqn:E; unfold page_find.
  - rewrite E. apply lookup_lt_is_Some. rewrite (H _ _ E). pose proof (land_l2 i). unfold L2_SIZE in *. lia.
  - cbn. rewrite lookup_insert_eq. apply lookup_lt_is_Some. unfold new_table. rewrite length_replicate. pose proof (land_l2 i). unfold L2_SIZE in *. lia.
Qed.

(** A page a new table adds is empty. *)
Lemma page_alloc_find s i j p : page_find (page_find_alloc s i) j = Some p ->
  page_find s j = Some p \/ page_find s j = None /\ p = mkPageDesc None 0 None.
Proof.
  unfold page_find_alloc. destruct (l1_map s !! Z.shiftr i 10) as [l|] eqn:E; [by left|]. unfold page_find. cbn.
  destruct (decide (Z.shiftr i 10 = Z.shiftr j 10)) as [Ej|]; [|rewrite lookup_insert_ne by done; by left].
  rewrite <- Ej, lookup_insert_eq, E. cbn. unfold new_table. intros [-> _]%lookup_replicate. by right.
Qed.
Lemma page_alloc_keep s i j p : page_find s j = Some p -> page_find (page_find_alloc s i) j = Some p.
Proof.
  unfold page_find_alloc. destruct (l1_map s !! Z.shiftr i 10) as [l|] eqn:E; [done|]. unfold page_find. cbn.
  destruct (decide (Z.shiftr i 10 = Z.shiftr j 10)) as [Ej|]; [by rewrite <- Ej, E | by rewrite lookup_insert_ne].
Qed.
Lemma page_alloc_first s i j : first_of (page_find_alloc s i) j = first_of s j.
Proof.
  unfold first_of. destruct (page_find s j) as [p|] eqn:E; [by rewrite (page_alloc_keep s i j p E)|].
  destruct (page_find (page_find_alloc s i) j) as [p|] eqn:E'; [|done].
  apply page_alloc_find in E' as [?|[_ ->]]; [congruence | done].
Qed.
Lemma page_alloc_l2 s i : (forall k l, l1_map s !! k = Some l -> length l = Z.to_nat L2_SIZE) ->
  forall k l, l1_map (page_find_alloc s i) !! k = Some l -> length l = Z.to_nat L2_SIZE.
Proof.
  intros H k l. unfold page_find_alloc. destruct (l1_map s !! Z.shiftr i 10) eqn:E; [apply H|]. cbn.
  rewrite lookup_insert. case_decide; [|apply H]. intros [= <-]. apply length_replicate.
Qed.

(** The state with the block on a page, before the page is protected. *)
Definition on_page (s : Exec) (t : nat) (n a : Z) : Exec :=
  let i := Z.shiftr a TARGET_PAGE_BITS in
  page_upd (write_page (page_find_alloc (tb_upd s t (fun b => b <| page_addr := set2 (page_addr b) n a |>)) i)
    (PageNext t n) (first_of s i)) i (fun p => invalidate_page_bitmap (p <| first_tb := Some (t, n) |>)).

Lemma page_alloc_rest s i : tbs (page_find_alloc s i) = tbs s /\ page_find_alloc s i = s <| l1_map := l1_map (page_find_alloc s i) |>.
Proof. unfold page_find_alloc. destruct (l1_map s !! _); by destruct s. Qed.

Section OnPage.
Context (s : Exec) (t : nat) (n a : Z) (J : is_jump (t, n)) (Ht : (t < length (tbs s))%nat).
Context (Hl : forall k l, l1_map s !! k = Some l -> length l = Z.to_nat L2_SIZE).
Let i := Z.shiftr a TARGET_PAGE_BITS.
Let s' := on_page s t n a.

Lemma on_page_l2 : forall k l, l1_map s' !! k = Some l -> length l = Z.to_nat L2_SIZE.
Proof.
  intros k l. apply page_upd_l2. intros k' l'. unfold write_page, tb_upd. cbn. apply page_alloc_l2. apply Hl.
Qed.

Lemma on_page_view {A} (f : TranslationBlock -> A) :
  (forall b, f (b <| page_addr := set2 (page_addr b) n a |>) = f b) ->
  (forall b v, f (b <| page_next := set2 (page_next b) n v |>) = f b) -> f <$> tbs s' = f <$> tbs s.
Proof.
  intros H1 H2. unfold s', on_page, page_upd, write_page. cbn [tbs]. change (f <$> tbs (tb_upd (page_find_alloc
    (tb_upd s t (fun b => b <| page_addr := set2 (page_addr b) n a |>)) i) t
    (fun b => b <| page_next := set2 (page_next b) n (first_of s i) |>)) = f <$> tbs s).
  rewrite view_same by auto. destruct (page_alloc_rest (tb_upd s t (fun b => b <| page_addr := set2 (page_addr b) n a |>)) i) as [-> _].
  by apply view_same.
Qed.

Lemma on_page_next : next_of s' = (pset (next_of s) (first_of s) (PageNext t n) (first_of s i)).1.
Proof.
  unfold s', on_page. change (next_of (page_upd ?x _ _)) with (next_of x). unfold write_page, next_of. cbn [pset fst].
  rewrite (view_upd _ _ (fun x => set2 x n (first_of s i))) by done. f_equal.
  destruct (page_alloc_rest (tb_upd s t (fun b => b <| page_addr := set2 (page_addr b) n a |>)) (Z.shiftr a TARGET_PAGE_BITS)) as [-> _].
  by apply view_same.
Qed.

Lemma on_page_find k p : page_find s' k = Some p ->
  k = i /\ first_tb p = Some (t, n) /\ code_bitmap p = None \/
  k <> i /\ (page_find s k = Some p \/ page_find s k = None /\ p = mkPageDesc None 0 None).
Proof.
  unfold s', on_page. rewrite page_find_upd. fold i. destruct (decide (i = k)) as [<-|Hne].
  - intros (p0 & _ & ->)%fmap_Some. by left.
  - intros E. right. split; [done|]. by apply (page_alloc_find _ i) in E.
Qed.

Lemma on_page_first k : first_of s' k = if decide (k = i) then Some (t, n) else first_of s k.
Proof.
  unfold s', on_page, first_of at 1. fold i. rewrite page_find_upd. destruct (decide (i = k)) as [<-|Hne].
  - rewrite decide_True by done. change (page_find (write_page ?x (PageNext _ _) _) i) with (page_find x i).
    by destruct (page_alloc_at (tb_upd s t (fun b => b <| page_addr := set2 (page_addr b) n a |>)) i) as [p ->].
  - rewrite decide_False by done. exact (page_alloc_first (tb_upd s t _) i k).
Qed.

Lemma on_page_tb : exists b b', tbs s !! t = Some b /\ tbs s' !! t = Some b' /\ page_addr b' = set2 (page_addr b) n a.
Proof.
  destruct (tb_at_ok s t Ht) as (b & E & _). exists b. unfold s', on_page, page_upd, write_page. cbn [tbs].
  change (exists b', tbs s !! t = Some b /\ tbs (tb_upd (page_find_alloc
    (tb_upd s t (fun b => b <| page_addr := set2 (page_addr b) n a |>)) i) t
    (fun b => b <| page_next := set2 (page_next b) n (first_of s i) |>)) !! t = Some b' /\ page_addr b' = set2 (page_addr b) n a).
  rewrite lookup_upd, decide_True by done.
  destruct (page_alloc_rest (tb_upd s t (fun b => b <| page_addr := set2 (page_addr b) n a |>)) i) as [-> _].
  rewrite lookup_upd, decide_True, E by done. cbn. by eexists.
Qed.

Lemma on_page_other u : u <> t -> tbs s' !! u = tbs s !! u.
Proof.
  intros Hu. unfold s', on_page, page_upd, write_page. cbn [tbs]. change (tbs (tb_upd (page_find_alloc
    (tb_upd s t (fun b => b <| page_addr := set2 (page_addr b) n a |>)) i) t
    (fun b => b <| page_next := set2 (page_next b) n (first_of s i) |>)) !! u = tbs s !! u).
  rewrite lookup_upd, decide_False by done.
  destruct (page_alloc_rest (tb_upd s t (fun b => b <| page_addr := set2 (page_addr b) n a |>)) i) as [-> _].
  by rewrite lookup_upd, decide_False.
Qed.

Lemma on_page_page r : is_jump r -> a <> NO_PAGE -> block_page s' r = if decide (r = (t, n)) then Some i else block_page s r.
Proof.
  intros Jr Ha. destruct r as [u m]. unfold block_page. cbn [fst snd]. destruct (decide (u = t)) as [->|Hu].
  - destruct on_page_tb as (b & b' & -> & -> & ->). apply Z.eqb_neq in Ha. unfold i.
    destruct J as [Q|Q], Jr as [Qr|Qr]; cbn in Q, Qr; subst; cbn; rewrite ?Ha; case_decide as D; done || congruence.
  - rewrite on_page_other by done. by rewrite decide_False by congruence.
Qed.

Lemma on_page_bitmap l bm : bitmap_for s l bm -> bitmap_for s' l bm.
Proof. apply bitmap_keeps. by apply on_page_view. Qed.

Lemma on_page_ok M : page_ok s M -> (forall r, M r -> is_jump r) -> ~ M (t, n) -> a <> NO_PAGE -> page_ok s' (fun r => r = (t, n) \/ M r).
Proof.
  intros (P & W & B) Jm Nm Ha. exists (fun k => if decide (k = i) then (t, n) :: P k else P k). split.
  - pose proof (paged_insert (next_of s) (first_of s) _ (block_page s) (block_page s') P i t n W J) as W'. cbv zeta in W'.
    rewrite <- on_page_next in W'. eapply paged_ext; [apply W'| | |].
    + unfold next_of. by rewrite length_fmap.
    + tauto.
    + by rewrite on_page_page, decide_True.
    + intros r Hr. destruct (p_range _ _ _ _ _ W r Hr) as [Jr _]. rewrite on_page_page by done.
      rewrite decide_False; [done|]. intros ->. tauto.
    + intros k. rewrite on_page_first. cbn. done.
    + intros r. destruct (decide (r = (t, n))) as [->|Hr]; [rewrite on_page_page, decide_True by done; naive_solver|].
      assert (Hj : M r -> block_page s' r = block_page s r) by (intros Hm; rewrite on_page_page, decide_False by auto; done).
      split; [intros [[?|Hm] Hb]; [done|] | intros [?|[Hm Hb]]; [done|]]; rewrite Hj in * by done; tauto.
    + intros r _. done.
  - intros k p bm Ep Eb. apply on_page_bitmap. apply on_page_find in Ep as [(_ & _ & ?)|[Hk [Ep|[_ ->]]]]; [congruence | | done].
    rewrite decide_False by done. by apply (B k p).
Qed.
End OnPage.

Lemma first_member s M i r : page_ok s M -> first_of s i = Some r -> M r /\ block_page s r = Some i.
Proof.
  intros (P & W & _) E. pose proof (p_chain _ _ _ _ _ W i) as C. unfold plink at 2 in C. rewrite E in C. cbn in C.
  destruct (P i) as [|r' l] eqn:Ep; [done|]. cbn in C. destruct C as [C _]. injection C as C1 C2.
  assert (r = r') by (destruct r, r'; cbn in *; congruence). subst r'.
  assert (Hr : r ∈ P i) by (rewrite Ep; by left). apply (p_elem _ _ _ _ _ W) in Hr. tauto.
Qed.

Lemma ram_page_index m p : ram_page m p -> Z.shiftr p TARGET_PAGE_BITS * 4096 = p.
Proof. intros [H _]. rewrite Z.shiftr_div_pow2 by done. change (2 ^ TARGET_PAGE_BITS) with 4096. pose proof (Z.div_mod p 4096 ltac:(done)). lia. Qed.

(** The code of a block gets on a page, which is write protected then. *)
Lemma alloc_page_ok s M t n a : mem_ok (ram s) -> (forall k l, l1_map s !! k = Some l -> length l = Z.to_nat L2_SIZE) ->
  (t < length (tbs s))%nat -> page_ok s M -> guarded s M -> ram_page (ram s) a ->
  exists m cs, tb_alloc_page s t n a = Ok ((on_page s t n a) <| ram := m |> <| cpus := cs |>) /\
    same_ram (ram s) m /\ map run_view cs = map run_view (cpus s) /\ protected m cs a /\
    (forall q, ram_page (ram s) q -> protected (ram s) (cpus s) q -> protected m cs q).
Proof.
  intros Hm Hl Ht PO G Ra. unfold tb_alloc_page. set (i := Z.shiftr a TARGET_PAGE_BITS).
  set (s0 := tb_upd s t _).
  destruct (page_alloc_at s0 i Hl) as [p Ep]. rewrite Ep. cbn [deref res_bind].
  assert (first_tb p = first_of s i) as ->.
  { pose proof (page_alloc_first s0 i i) as Ef. unfold first_of at 1 in Ef. rewrite Ep in Ef. exact Ef. }
  change (page_upd (tb_upd (page_find_alloc s0 i) t (fun b => b <| page_next := set2 (page_next b) n (first_of s i) |>)) i
    (fun p => invalidate_page_bitmap (p <| first_tb := Some (t, n) |>))) with (on_page s t n a).
  assert (Er : ram (on_page s t n a) = ram s /\ cpus (on_page s t n a) = cpus s).
  { change (ram (page_find_alloc s0 i) = ram s /\ cpus (page_find_alloc s0 i) = cpus s). by rewrite (proj2 (page_alloc_rest s0 i)). }
  destruct Er as [Er Ec]. destruct (first_of s i) as [r|] eqn:Ef.
  - exists (ram s), (cpus s). split; [rewrite <- Er, <- Ec; by destruct (on_page s t n a)|].
    destruct (first_member s M i r PO Ef) as [Mr Br]. destruct (G r i Mr Br) as [_ Pr].
    unfold i in Pr. rewrite (ram_page_index _ _ Ra) in Pr. split_and!; [apply same_ram_refl | done | done | done].
  - rewrite Er, Ec. destruct (protect_protects (ram s) (cpus s) a Hm Ra) as (m & cs & -> & S & Pa & Pq & Jc).
    cbn [res_bind]. by exists m, cs.
Qed.

(** [s'] differs from [s] in block [t], the lists, the RAM and the CPUs only,
    and the code of [t] is the same. *)
Definition kview (b : TranslationBlock) :=
  (pc b, size b, tc_ptr b, tb_next_offset b, (cs_base b, flags b, cflags b), (reg_rmask b, reg_wmask b, helper_accesses_mem b)).

Record only (t : nat) (s s' : Exec) : Prop := {
  o_other u : u <> t -> tbs s' !! u = tbs s !! u;
  o_code : kview <$> tbs s' = kview <$> tbs s;
  o_rest : s' = s <| tbs := tbs s' |> <| tb_phys_hash := tb_phys_hash s' |> <| l1_map := l1_map s' |>
    <| ram := ram s' |> <| cpus := cpus s' |>
}.

Lemma only_trans t s1 s2 s3 : only t s1 s2 -> only t s2 s3 -> only t s1 s3.
Proof.
  intros [O1 C1 R1] [O2 C2 R2]. split; [intros u Hu; by rewrite O2, O1 | congruence|].
  clear -R1 R2. destruct s1, s2, s3. cbn in *. injection R1; injection R2; intros; subst; reflexivity.
Qed.
Lemma only_upd t s f : (forall b, kview (f b) = kview b) -> only t s (tb_upd s t f).
Proof. intros H. split; [intros u Hu; by rewrite lookup_upd, decide_False | by apply view_same | by destruct s]. Qed.
Lemma only_length t s s' : only t s s' -> length (tbs s') = length (tbs s).
Proof. intros O. apply (view_length kview), (o_code _ _ _ O). Qed.
Lemma only_span t s s' : only t s s' -> span_view <$> tbs s' = span_view <$> tbs s.
Proof.
  intros O. assert (K : forall s, span_view <$> tbs s = (fun '(p, z, _, _, _, _) => (p, z)) <$> (kview <$> tbs s))
    by (intros; by rewrite <- list_fmap_compose).
  by rewrite !K, (o_code _ _ _ O).
Qed.
Lemma only_page t s s' r : only t s s' -> r.1 <> t -> block_page s' r = block_page s r.
Proof. intros O H. unfold block_page. by rewrite (o_other _ _ _ O). Qed.

Lemma only_on_page s t n a m cs : only t s ((on_page s t n a) <| ram := m |> <| cpus := cs |>).
Proof.
  split.
  - intros u Hu. by apply on_page_other.
  - by apply (on_page_view s t n a kview).
  - unfold on_page. set (i := Z.shiftr a _). set (s0 := tb_upd s t _).
    pose proof (proj2 (page_alloc_rest s0 i)) as E. unfold write_page, page_upd, tb_upd at 1 2. cbn.
    rewrite E. unfold s0, tb_upd. by destruct s.
Qed.

(** The pages of the new block: one or two. *)
Definition put_page (s : Exec) (t : nat) (p2 : Z) : Res Exec :=
  if negb (p2 =? NO_PAGE) then tb_alloc_page s t 1 p2
  else Ok (tb_upd s t (fun b => b <| page_addr := set2 (page_addr b) 1 NO_PAGE |>)).

(** The state while the block is being put on its pages: [M] are the links done. *)
Record paging (s : Exec) (M : Ref -> Prop) : Prop := {
  g_mem : mem_ok (ram s);
  g_l2 k l : l1_map s !! k = Some l -> length l = Z.to_nat L2_SIZE;
  g_jump r : M r -> is_jump r;
  g_page : page_ok s M;
  g_guard : guarded s M
}.

Lemma no_page_ram m p : ram_page m p -> p <> NO_PAGE.
Proof. intros [H _] ->. by vm_compute in H. Qed.

Lemma paging_alloc s M t n a : paging s M -> (t < length (tbs s))%nat -> is_jump (t, n) -> ~ M (t, n) -> ram_page (ram s) a ->
  exists s', tb_alloc_page s t n a = Ok s' /\ paging s' (fun r => r = (t, n) \/ M r) /\ only t s s' /\
    same_ram (ram s) (ram s') /\ map run_view (cpus s') = map run_view (cpus s) /\ hviews s' = hviews s /\
    (exists b b', tbs s !! t = Some b /\ tbs s' !! t = Some b' /\ page_addr b' = set2 (page_addr b) n a /\
      s2e_tb_next b' = s2e_tb_next b).
Proof.
  intros [Gm Gl Gj Gp Gg] Ht J Nm Ra. pose proof (no_page_ram _ _ Ra) as Hne.
  destruct (alloc_page_ok s M t n a Gm Gl Ht Gp Gg Ra) as (m & cs & -> & S & Jc & Pa & Pq).
  set (s' := (on_page s t n a) <| ram := m |> <| cpus := cs |>). exists s'.
  split; [done|]. split; [split|split_and!].
  - by apply (same_ram_ok (ram s)).
  - by apply (on_page_l2 s t n a).
  - intros r [->|Hr]; [done | by apply Gj].
  - apply (page_move (on_page s t n a)); [by apply on_page_ok | done..].
  - intros r i Hr Ei. change (block_page (on_page s t n a) r = Some i) in Ei. change (ram s') with m. change (cpus s') with cs.
    assert (Jr : is_jump r) by (destruct Hr as [->|Hr]; [done | by apply Gj]). rewrite on_page_page in Ei by done.
    destruct (decide (r = (t, n))) as [->|Hrt].
    + injection Ei as <-. rewrite (ram_page_index _ _ Ra). split; [by apply (same_ram_page (ram s)) | done].
    + destruct Hr as [?|Hr]; [done|]. destruct (Gg r i Hr Ei) as [R P]. split; [by apply (same_ram_page (ram s)) | by apply Pq].
  - apply only_on_page.
  - done.
  - done.
  - unfold hviews. f_equal; [by apply (on_page_view s t n a phys_hash_next)|].
    change (tb_phys_hash (page_find_alloc (tb_upd s t (fun b => b <| page_addr := set2 (page_addr b) n a |>))
      (Z.shiftr a TARGET_PAGE_BITS)) = tb_phys_hash s). by rewrite (proj2 (page_alloc_rest _ _)).
  - destruct (on_page_tb s t n a Ht) as (b & b' & E & E' & Ea). exists b, b'. split_and!; [done..|].
    destruct (view_lookup s2e_tb_next s (on_page s t n a) t b') as (b0 & E0 & ->); [by apply (on_page_view s t n a) | done | congruence].
Qed.

(** What is known of the new block after its pages. *)
Definition placed (s : Exec) (t : nat) (a p2 : Z) : Prop :=
  exists b, tbs s !! t = Some b /\ page_addr b = mkTwo a p2 /\ s2e_tb_next b = mkTwo None None.

Lemma pages_ok s live t b a p2 : paging s (links live) -> t ∉ live -> tbs s !! t = Some b -> s2e_tb_next b = mkTwo None None ->
  ram_page (ram s) a -> p2 = NO_PAGE \/ ram_page (ram s) p2 ->
  exists s', (let* s := tb_alloc_page s t 0 a in put_page s t p2) = Ok s' /\ paging s' (links ({[t]} ∪ live)) /\
    only t s s' /\ same_ram (ram s) (ram s') /\ map run_view (cpus s') = map run_view (cpus s) /\
    hviews s' = hviews s /\ placed s' t a p2.
Proof.
  intros G Nt E Es Ra Rp. pose proof (lookup_lt_Some _ _ _ E) as Ht.
  destruct (paging_alloc s (links live) t 0 a G Ht) as (s1 & -> & G1 & O1 & S1 & J1 & H1 & (b0 & b1 & Eb0 & Eb1 & Ea1 & Es1));
    [by left | by intros [? _] | done|]. cbn [res_bind]. rewrite E in Eb0. injection Eb0 as <-.
  assert (Ht1 : (t < length (tbs s1))%nat) by (by rewrite (only_length _ _ _ O1)).
  assert (Hx : forall s2 r, is_jump r -> block_page s2 r <> None ->
    links ({[t]} ∪ live) r <-> (r = (t, 1) \/ r = (t, 0) \/ links live r)).
  { intros s2 [u n] Jr _. unfold links. cbn. rewrite elem_of_union, elem_of_singleton. split.
    - intros [[->|Hu] _]; [destruct Jr as [Q|Q]; cbn in Q; subst; auto | auto].
    - intros [[= -> ->]|[[= -> ->]|[Hu _]]]; auto. }
  unfold put_page. destruct (Z.eqb_spec p2 NO_PAGE) as [->|Hp2]; cbn [negb].
  - eexists. split; [done|]. set (s2 := tb_upd s1 t _).
    assert (O2 : only t s1 s2) by (by apply only_upd).
    assert (B2 : forall r, r = (t, 0) \/ links live r -> block_page s2 r = block_page s1 r).
    { intros r [->|[Hr _]]; [|apply (only_page t); [done | by intros <-]]. unfold block_page, s2. cbn [fst snd].
      rewrite lookup_upd, decide_True, Eb1 by done. done. }
    destruct G1 as [Gm Gl Gj Gp Gg].
    assert (P2 : page_ok s2 (fun r => r = (t, 0) \/ links live r)).
    { apply (page_move s1); [done | by apply view_same | done | by apply (only_span t) | done]. }
    split_and!; [split | by eapply only_trans | done | done | by rewrite <- H1; unfold hviews, s2; rewrite view_same |].
    + done.
    + done.
    + by intros r [_ ?].
    + apply (page_ok_ext _ _ _ P2); [|by intros r [_ ?]]. intros r Jr Br. rewrite (Hx s2 r Jr Br).
      assert (r <> (t, 1)); [|tauto]. intros ->. apply Br. unfold block_page, s2. cbn [fst snd].
      rewrite lookup_upd, decide_True, Eb1 by done. done.
    + intros r i [Hr Jr] Ei. assert (Hor : r = (t, 0) \/ links live r).
      { destruct (proj1 (Hx s2 r Jr ltac:(congruence)) (conj Hr Jr)) as [->|H]; [|done]. exfalso. revert Ei.
        unfold block_page, s2. cbn [fst snd]. rewrite lookup_upd, decide_True, Eb1 by done. done. }
      rewrite B2 in Ei by done. exact (Gg r i Hor Ei).
    + eexists. unfold s2. rewrite lookup_upd, decide_True, Eb1 by done. split; [done|]. cbn. rewrite Ea1, Es1. by destruct (page_addr b).
  - destruct Rp as [?|Rp]; [done|].
    destruct (paging_alloc s1 _ t 1 p2 G1 Ht1) as (s2 & -> & [Gm Gl Gj Gp Gg] & O2 & S2 & J2 & H2 & (b0 & b2 & Eb0 & Eb2 & Ea2 & Es2));
      [by right | by intros [?|[? _]] | by apply (same_ram_page (ram s))|]. rewrite Eb1 in Eb0. injection Eb0 as <-.
    exists s2. split_and!; [done | split | by eapply only_trans | by eapply same_ram_trans | congruence | congruence |].
    + done.
    + done.
    + by intros r [_ ?].
    + apply (page_ok_ext _ _ _ Gp); [|by intros r [_ ?]]. intros r Jr Br. by rewrite (Hx s2 r Jr Br).
    + intros r i [Hr Jr] Ei. apply (Gg r i); [|done]. by apply (Hx s2 r Jr ltac:(congruence)).
    + exists b2. split; [done|]. rewrite Ea2, Ea1, Es2, Es1. by destruct (page_addr b).
Qed.

(** A block that has been translated and is not linked yet. *)
Record linkable (s : Exec) (live : gset nat) (t : nat) (b : TranslationBlock) (phys_pc p2 : Z) : Prop := {
  l_at : tbs s !! t = Some b;
  l_new : t ∉ live;
  l_nb : Z.of_nat t < nb_tbs s;
  l_next : s2e_tb_next b = mkTwo None None;
  l_pc : page_offset (pc b) = page_offset phys_pc;
  l_range : 0 <= phys_pc < RAM_LIMIT;
  l_page : ram_page (ram s) (page_start phys_pc);
  l_pc_range : 0 <= pc b < 2 ^ 32;
  l_size : 1 <= size b <= 4096;
  l_page2 : p2 = NO_PAGE /\ page_offset (pc b) + size b <= 4096 \/
    ram_page (ram s) p2 /\ 0 <= p2 < RAM_LIMIT /\ 4096 < page_offset (pc b) + size b
}.

Lemma linkable_addrs s live t b phys_pc p2 b' : linkable s live t b phys_pc p2 -> kview b' = kview b ->
  page_addr b' = mkTwo (page_start phys_pc) p2 -> addrs_ok b'.
Proof.
  intros [] [= E1 E2 _ _ _ _ _ _ _ _] Ea. split; rewrite ?E1, ?E2, ?Ea; cbn [get2 e0 e1 Z.eqb]; try done.
  - split; [apply l_page0|]. rewrite page_start_eq. pose proof (Z.div_mod phys_pc 4096 ltac:(done)).
    pose proof (Z.mod_pos_bound phys_pc 4096 ltac:(done)). pose proof (Z.div_pos phys_pc 4096). lia.
  - destruct l_page3 as [?|[[? _] ?]]; [by left | right]. tauto.
Qed.

(** The exits of the new block. *)
Definition init_jumps (s : Exec) (t : nat) : Res Exec :=
  let s := tb_upd s t (fun b => b <| jmp_first := Some (t, 2) |> <| jmp_next := mkTwo None None |>) in
  let* b := tb_at s t in
  let* s := if negb (get2 (tb_next_offset b) 0 =? 0xffff) then tb_reset_jump s t 0 else Ok s in
  if negb (get2 (tb_next_offset b) 1 =? 0xffff) then tb_reset_jump s t 1 else Ok s.

Lemma upd_upd s t f g : tb_upd (tb_upd s t f) t g = tb_upd s t (fun b => g (f b)).
Proof.
  unfold tb_upd. cbn. f_equal. apply list_eq. intros i. destruct (decide (t = i)) as [->|].
  - rewrite !list_lookup_alter_eq. by destruct (tbs s !! i).
  - by rewrite !list_lookup_alter_ne.
Qed.

(** The effect of resetting an exit whose offset is known. *)
Definition reset_exit (n p o : Z) (b : TranslationBlock) : TranslationBlock :=
  b <| tb_next := set2 (tb_next b) n (p + o) |> <| s2e_tb_next := set2 (s2e_tb_next b) n None |>.

Lemma reset_jump_upd s t n b : tbs s !! t = Some b ->
  tb_reset_jump s t n = Ok (tb_upd s t (reset_exit n (tc_ptr b) (get2 (tb_next_offset b) n))).
Proof.
  intros E. unfold tb_reset_jump, tb_at, tb_set_jmp_target. rewrite E. cbn [res_bind]. by rewrite upd_upd.
Qed.

Lemma init_jumps_ok s t b : tbs s !! t = Some b -> s2e_tb_next b = mkTwo None None ->
  exists f, init_jumps s t = Ok (tb_upd s t f) /\ (forall b, jmp_same b (f b)) /\ unlinked (f b) t.
Proof.
  intros E Es. unfold init_jumps. set (g := fun b : TranslationBlock => b <| jmp_first := Some (t, 2) |> <| jmp_next := mkTwo None None |>).
  assert (E1 : forall h, tbs (tb_upd s t h) !! t = Some (h b)) by (intros h; by rewrite lookup_upd, decide_True, E).
  cbv zeta. unfold tb_at. rewrite E1. cbn [res_bind]. change (tb_next_offset (g b)) with (tb_next_offset b).
  destruct (Z.eqb_spec (get2 (tb_next_offset b) 0) 65535) as [H0|H0], (Z.eqb_spec (get2 (tb_next_offset b) 1) 65535) as [H1|H1];
    cbn [negb res_bind]; repeat (erewrite reset_jump_upd by apply E1; cbn [res_bind]; rewrite ?upd_upd); cbn [res_bind];
    (eexists; split; [reflexivity|]; split; [by intros []|]);
    (split_and!; [done | done | destruct b; cbn in *; by subst | intros n [-> | ->] Hn; cbn in *; done]).
Qed.

Lemma phys_pc_split p : 0 <= p < 2 ^ 32 -> u32 (page_start p + page_offset p) = p.
Proof. intros H. rewrite page_start_eq, page_offset_eq. unfold u32. rewrite Z.mod_small; pose proof (Z.div_mod p 4096 ltac:(done)); lia. Qed.

Lemma frame_only t s f : (forall b, jmp_same b (f b)) -> only t s (tb_upd s t f).
Proof. intros H. apply only_upd. intros b. rewrite (H b). by destruct b. Qed.

Lemma run_caches cs cs' : map run_view cs' = map run_view cs -> map tb_jmp_cache cs' = map tb_jmp_cache cs.
Proof.
  intros E. assert (K : forall l, map tb_jmp_cache l = map fst (map run_view l)) by (intros; by rewrite map_map). by rewrite !K, E.
Qed.

Lemma caches_new s s' live live' : caches_ok s live -> live ⊆ live' -> map tb_jmp_cache (cpus s') = map tb_jmp_cache (cpus s) ->
  (forall u, u ∈ live -> tbs s' !! u = tbs s !! u) -> caches_ok s' live'.
Proof.
  intros C Hs E Ho env h t He Ht.
  assert (H : tb_jmp_cache env ∈ map tb_jmp_cache (cpus s)) by (rewrite <- E; apply list_elem_of_fmap; by exists env).
  apply list_elem_of_fmap in H as (env0 & E0 & H0). rewrite E0 in Ht. destruct (C env0 h t H0 Ht) as [Hl ->].
  split; [by apply Hs|]. unfold block_pc. by rewrite Ho.
Qed.

Lemma link_phys_ok s live t b phys_pc p2 : cached s live -> linkable s live t b phys_pc p2 ->
  exists s', tb_link_phys s t phys_pc p2 = Ok s' /\ cached s' ({[t]} ∪ live) /\ only t s s' /\
    same_ram (ram s) (ram s') /\ map run_view (cpus s') = map run_view (cpus s) /\ (exists b', tbs s' !! t = Some b' /\ page_addr b' = mkTwo (page_start phys_pc) p2 /\
      s2e_tb_next b' = mkTwo None None).
Proof.
  intros [CB CW [H CH] CP CC CM CG] Lk. pose proof Lk as [E Nt Hnb Es Hpc Hr Ra _ _ Rp'].
  assert (Rp : p2 = NO_PAGE \/ ram_page (ram s) p2) by (clear -Rp'; tauto).
  unfold tb_link_phys. set (h := tb_phys_hash_func phys_pc).
  set (s1 := (tb_upd s t (fun b => b <| phys_hash_next := tb_phys_hash s !! h |>)) <| tb_phys_hash := <[h := t]> (tb_phys_hash s) |>).
  change ((tb_upd s t _) <| tb_phys_hash := _ |>) with s1.
  assert (O1 : only t s s1).
  { split; [intros u Hu; cbn; unfold s1; cbn; by rewrite lookup_upd, decide_False | by apply view_same | by destruct s]. }
  assert (E1 : tbs s1 !! t = Some (b <| phys_hash_next := tb_phys_hash s !! h |>)).
  { cbn. by rewrite lookup_upd, decide_True, E. }
  assert (Hl : forall r, links live r -> r.1 <> t) by (intros r [Hx _] <-; done).
  assert (G1 : paging s1 (links live)).
  { split; [done | apply (b_l2 _ _ CB) | by intros r [_ ?] | |].
    - apply (page_move s); [done | by apply view_same | done | by apply (only_span t) | intros; by apply (only_page t), Hl].
    - intros r i Hri Ei. rewrite (only_page t s s1) in Ei by auto. exact (CG r i Hri Ei). }
  destruct (pages_ok s1 live t _ (page_start phys_pc) p2 G1 Nt E1 Es Ra Rp) as (s3 & A & [Gm Gl Gj Gp Gg] & O3 & S3 & J3 & H3 & (b3 & E3 & Ea3 & Es3)).
  destruct (tb_alloc_page s1 t 0 (page_start phys_pc)) as [s2|]; [|done]. cbn [res_bind] in A |- *. unfold put_page in A. rewrite A. cbn [res_bind].
  destruct (init_jumps_ok s3 t b3 E3 Es3) as (f & Ai & Sf & Uf). unfold init_jumps in Ai. rewrite Ai.
  set (s4 := tb_upd s3 t f) in *. exists s4. split; [done|].
  assert (O34 : only t s3 s4) by (by apply frame_only). assert (O : only t s s4) by (eapply only_trans; [done | by eapply only_trans]).
  assert (Ec4 : cview <$> tbs s4 = cview <$> tbs s3) by (apply view_same; intros b0; rewrite (Sf b0); by destruct b0).
  assert (E4 : tbs s4 !! t = Some (f b3)) by (unfold s4; by rewrite lookup_upd, decide_True, E3).
  assert (Ho : forall u, u ∈ live -> tbs s4 !! u = tbs s !! u) by (intros u Hu; apply (o_other _ _ _ O); by intros ->).
  assert (Ea4 : page_addr (f b3) = mkTwo (page_start phys_pc) p2) by (rewrite (Sf b3); by destruct b3).
  assert (Ck4 : kview (f b3) = kview b).
  { destruct (view_lookup kview s s4 t (f b3) (o_code _ _ _ O) E4) as (b' & Eb' & ->). congruence. }
  split; [split|split_and!].
  - destruct CB. split; try (rewrite (o_rest _ _ _ O); cbn; rewrite ?(only_length _ _ _ O); done).
    + intros u [->%elem_of_singleton|Hu]%elem_of_union; rewrite (o_rest _ _ _ O); cbn; auto.
    + intros u bu [->%elem_of_singleton|Hu]%elem_of_union Eu; [|rewrite Ho in Eu by done; by apply (b_addrs0 u)].
      rewrite E4 in Eu. injection Eu as <-. by apply (linkable_addrs s live t b phys_pc p2).
  - by apply (wired_new s s4 live t (f b3)); [.. | apply (only_length t) | apply O | |].
  - exists (fun k => if decide (k = h) then t :: H k else H k).
    assert (hviews s4 = (<[t := tb_phys_hash s !! h]> (hviews s).1, <[h := t]> (hviews s).2)) as ->.
    { transitivity (hviews s1); [rewrite <- H3; unfold hviews, s4; rewrite view_same; [done | intros b0; rewrite (Sf b0); by destruct b0]|].
      unfold hviews, s1. cbn. f_equal. by rewrite (view_upd _ _ (fun _ => tb_phys_hash s !! h)), alter_const. }
    apply (hashed_insert _ _ _ (block_hash s)); [done | unfold hviews; cbn [fst]; rewrite length_fmap; by apply lookup_lt_Some in E | done | |].
    + rewrite (at_hash s4 t (f b3) E4). unfold h, phys_pc_of. rewrite Ea4. cbn [get2 e0 Z.eqb]. f_equal.
      destruct (view_lookup kview s s4 t (f b3) (o_code _ _ _ O) E4) as (b' & Eb' & V). rewrite E in Eb'. injection Eb' as <-.
      injection V as V _ _ _ _ _ _ _ _ _. rewrite V, Hpc. apply phys_pc_split. unfold RAM_LIMIT in Hr. lia.
    + intros u Hu. unfold block_hash. by rewrite Ho.
  - apply (page_keeps s3); [done | unfold next_of, s4; apply view_same; intros b0; rewrite (Sf b0); by destruct b0 | done | done].
  - apply (caches_new s s4 live); [done | set_solver | by apply run_caches, J3 | done].
  - done.
  - apply (guard_keeps s3 s4 (links ({[t]} ∪ live))); done.
  - done.
  - done.
  - exact J3.
  - exists (f b3). split_and!; [done | done | apply Uf].
Qed.

(** ** Flushing, allocating and freeing *)

Lemma wired_empty s : Wired s ∅.
Proof. exists (fun _ => []). split; [split|..]; set_solver. Qed.

Lemma page_flush_first s i : first_of (page_flush_tb s) i = None.
Proof.
  unfold first_of, page_find, page_flush_tb. cbn. rewrite lookup_fmap. destruct (l1_map s !! Z.shiftr i 10) as [l|]; [|done].
  cbn. rewrite list_lookup_fmap. by destruct (l !! _).
Qed.
Lemma page_flush_bitmap s i p : page_find (page_flush_tb s) i = Some p -> code_bitmap p = None.
Proof.
  unfold page_find, page_flush_tb. cbn. rewrite lookup_fmap. destruct (l1_map s !! Z.shiftr i 10) as [l|]; [|done].
  cbn. rewrite list_lookup_fmap. destruct (l !! _); [|done]. by intros [= <-].
Qed.

Lemma flush_ok s live : cached s live -> code_gen_ptr s - code_gen_buffer s <= code_gen_buffer_size s ->
  exists s', tb_flush s = Ok s' /\ cached s' ∅ /\ nb_tbs s' = 0 /\ code_gen_ptr s' = code_gen_buffer s /\
    s' = s <| nb_tbs := 0 |> <| cpus := cpus s' |> <| tb_phys_hash := ∅ |> <| l1_map := l1_map s' |>
      <| code_gen_ptr := code_gen_buffer s |> <| tb_flush_count := tb_flush_count s + 1 |> /\
    map tlb_table (cpus s') = map tlb_table (cpus s) /\ map run_view (cpus s') = map (fun e => (∅, current_tb e)) (cpus s).
Proof.
  intros [CB CW CH CP CC CM CG] Hs. unfold tb_flush. apply Z.ltb_ge in Hs. rewrite Hs. eexists. split; [done|]. cbv zeta.
  set (s' := _ <| tb_flush_count := _ |>).
  split; [split|split_and!; [done | done | by destruct s | unfold s'; cbn; rewrite map_map; by apply map_ext | by unfold s'; cbn; rewrite map_map]].
  - pose proof (b_l2 _ _ CB) as Hl2. destruct CB. split; unfold s'; cbn; [lia | done | set_solver | | set_solver].
    intros k l. rewrite lookup_fmap. intros (l0 & E & ->)%fmap_Some. rewrite length_map. by eapply Hl2.
  - apply wired_empty.
  - exists (fun _ => []). apply hashed_nil.
  - exists (fun _ => []). split.
    + eapply paged_ext; [apply (paged_nil _ (fun _ => None) (block_page s')); done | | unfold links; set_solver | done].
      intros i. exact (page_flush_first s i).
    + intros i p bm E Eb. assert (code_bitmap p = None); [|congruence].
      exact (page_flush_bitmap s i p E).
  - intros env h t He Ht. unfold s' in He. cbn in He. apply list_elem_of_fmap in He as (e0 & -> & _). by cbn in Ht.
  - done.
  - intros r i [Hr _]. set_solver.
Qed.

(** A state that has the same live blocks and lists. *)
Lemma cached_local s s' live : cached s live -> base_ok s' live -> length (tbs s') = length (tbs s) ->
  (forall u, u ∈ live -> tbs s' !! u = tbs s !! u) -> tb_phys_hash s' = tb_phys_hash s -> l1_map s' = l1_map s ->
  map tb_jmp_cache (cpus s') = map tb_jmp_cache (cpus s) -> map tlb_table (cpus s') = map tlb_table (cpus s) ->
  ram s' = ram s -> cached s' live.
Proof.
  intros [CB CW [H CH] (P & W & B) CC CM CG] B' Hlen Ho Eh El Ej Et Er.
  assert (Hr : forall r, links live r -> block_page s' r = block_page s r) by (intros r [Hr _]; unfold block_page; by rewrite Ho).
  assert (Ef : forall i, page_find s' i = page_find s i) by (intros i; unfold page_find; by rewrite El).
  assert (W' : paged (next_of s') (first_of s) (fun r => links live r /\ block_page s' r <> None) (block_page s') P).
  { eapply paged_local; [exact W | unfold next_of; by rewrite !length_fmap | | | intros r [? _]; auto].
    - intros r [[Hl _] _]. unfold next_of. rewrite !list_lookup_fmap. by rewrite Ho.
    - intros r. split; intros [? ?]; (split; [done|]); rewrite Hr in *; done. }
  split.
  - done.
  - by apply (wired_local s).
  - exists H. unfold hviews in *. cbn in *. rewrite Eh. eapply hashed_local; [done | by rewrite !length_fmap | |].
    + intros t Ht. rewrite !list_lookup_fmap. by rewrite Ho.
    + intros t Ht. unfold block_hash. by rewrite Ho.
  - exists P. split; [eapply paged_ext; [exact W' | intros i; unfold first_of; by rewrite Ef | done | done]|].
    intros i p bm Ep Eb. rewrite Ef in Ep. destruct (B i p bm Ep Eb) as [L1 L2]. split; [done|]. intros k Hk. rewrite L2 by done.
    apply eq_true_iff_eq. rewrite !existsb_exists.
    assert (Hc : forall r, r ∈ P i -> covers s' k r = covers s k r).
    { intros r [[[Hl _] _] _]%(p_elem _ _ _ _ _ W). unfold covers. by rewrite Ho. }
    setoid_rewrite <- list_elem_of_In. split; intros (r & Hin & Hcov); exists r; (split; [done|]); rewrite Hc in * by done; done.
  - by apply (caches_new s s' live).
  - by rewrite Er.
  - intros r i Hri Ei. rewrite Hr in Ei by done. destruct (CG r i Hri Ei) as [R [D N]]. rewrite Er.
    split; [done|]. split; [done|]. by apply (no_direct_tables (cpus s)).
Qed.

Lemma alloc_ok s live pc0 : cached s live -> nb_tbs s < code_gen_max_blocks s ->
  code_gen_ptr s - code_gen_buffer s < code_gen_buffer_max_size s ->
  exists t s' b', tb_alloc s pc0 = Ok (Some t, s') /\ Z.of_nat t = nb_tbs s /\ t ∉ live /\ cached s' live /\
    nb_tbs s' = nb_tbs s + 1 /\ s' = s <| tbs := tbs s' |> <| nb_tbs := nb_tbs s + 1 |> /\ length (tbs s') = length (tbs s) /\
    (forall u, u <> t -> tbs s' !! u = tbs s !! u) /\
    tbs s' !! t = Some b' /\ pc b' = pc0 /\ s2e_tb_next b' = mkTwo None None.
Proof.
  intros C Hn Hc. pose proof (c_base _ _ C) as CB. unfold tb_alloc.
  apply Z.leb_gt in Hn as Hn', Hc as Hc'. rewrite Hn', Hc'. cbn [orb]. set (t := Z.to_nat (nb_tbs s)).
  destruct (b_nb _ _ CB) as [N1 N2]. pose proof (b_length _ _ CB) as N3.
  destruct (tb_at_ok s t ltac:(lia)) as (b & E & ->). cbn [res_bind]. unfold s2e_tb_alloc.
  set (s' := tb_upd _ t _). exists t, s'.
  assert (E' : exists b', tbs s' !! t = Some b' /\ pc b' = pc0 /\ s2e_tb_next b' = mkTwo None None).
  { unfold s'. rewrite !lookup_upd, !decide_True by done. change (tbs (s <| nb_tbs := nb_tbs s + 1 |>)) with (tbs s). rewrite E. eexists. split; [reflexivity|]. by destruct b. }
  destruct E' as (b' & E' & P1 & P2). exists b'.
  assert (Nt : t ∉ live) by (intros Ht; pose proof (b_live _ _ CB t Ht); lia).
  assert (Ho : forall u, u <> t -> tbs s' !! u = tbs s !! u) by (intros u Hu; unfold s'; by rewrite !lookup_upd, !decide_False).
  assert (Hlen : length (tbs s') = length (tbs s)) by (unfold s'; by rewrite !length_upd).
  assert (Hl : forall u, u ∈ live -> tbs s' !! u = tbs s !! u) by (intros u Hu; apply Ho; by intros ->).
  split_and!; [done | lia | done | | done | by destruct s | done | done | done | done | done].
  apply (cached_local s); try done.
  destruct CB. split; [change (0 <= nb_tbs s + 1 <= code_gen_max_blocks s); lia | by rewrite Hlen | | done |].
  { intros u Hu. pose proof (b_live0 u Hu). change (Z.of_nat u < nb_tbs s + 1). lia. }
  intros u bu Hu Eu. rewrite Hl in Eu by done. by apply (b_addrs0 u).
Qed.

Lemma free_ok s live t b : cached s live -> t ∉ live -> tbs s !! t = Some b ->
  exists s', tb_free s t = Ok s' /\ cached s' live /\
    (s' = s \/ Z.of_nat t = nb_tbs s - 1 /\ s' = s <| code_gen_ptr := tc_ptr b |> <| nb_tbs := nb_tbs s - 1 |>).
Proof.
  intros C Nt E. unfold tb_free. destruct ((0 <? nb_tbs s) && (Z.of_nat t =? nb_tbs s - 1)) eqn:D.
  - apply andb_true_iff in D as [D1%Z.ltb_lt D2%Z.eqb_eq]. unfold tb_at. rewrite E. cbn [res_bind]. eexists. split; [done|].
    split; [|right; split; [done | by destruct s]]. apply (cached_local s); try done.
    pose proof (c_base _ _ C) as CB. destruct CB. split; cbn; [lia | done | | done | done].
    intros u Hu. pose proof (b_live0 u Hu). assert (Z.of_nat u <> Z.of_nat t); [|lia]. intros Eq. apply Nat2Z.inj in Eq as ->. done.
  - exists s. split; [done|]. split; [done | by left].
Qed.

End TbInv.
