(* ===== verification/TbGen.v ===== *)
(** * Finding and making translation blocks

    [tb_gen_code] of src/s2e/qemu/exec.c, the lookups [tb_find_slow] and
    [tb_find_fast] of cpu-exec.c and the search [tb_find_pc] for the block that
    host code belongs to.  The translation of guest code itself
    ([cpu_gen_code]) and the mapping of code addresses to physical ones
    ([get_phys_addr_code]) are parameters. *)

From stdpp Require Import gmap.
From S2P Require Import Prelude Chains SoftTlb TbCache TbJumps TbLists TbInv.

Module TbGen.
Import SoftTlb TbCache TbJumps TbLists TbInv.

(** What [cpu_gen_code] finds out about a block. *)
Record GenResult := mkGenResult {
  gen_size : Z;
  gen_next_offset : Two Z;
  gen_rmask : Z;
  gen_wmask : Z;
  gen_helper_mem : Z;
  code_gen_size : Z
}.

(** ** The search for host code *)

Fixpoint find_pc_loop (fuel : nat) (s : Exec) (p m_min m_max : Z) : Res nat :=
  match fuel with
  | O => Fail Diverges
  | S fuel =>
      if m_min <=? m_max then
        let m := Z.shiftr (m_min + m_max) 1 in
        let* b := tb_at s (Z.to_nat m) in
        let v := tc_ptr b in
        if v =? p then Ok (Z.to_nat m)
        else if p <? v then find_pc_loop fuel s p m_min (m - 1)
        else find_pc_loop fuel s p (m + 1) m_max
      else if m_max <? 0 then Fail OutOfBounds
      else Ok (Z.to_nat m_max)
  end.

Definition tb_find_pc (s : Exec) (p : Z) : Res (option nat) :=
  if nb_tbs s <=? 0 then Ok None
  else if (p <? code_gen_buffer s) || (code_gen_ptr s <=? p) then Ok None
  else
    let* t := find_pc_loop (S (Z.to_nat (nb_tbs s))) s p 0 (nb_tbs s - 1) in
    Ok (Some t).

(** ** Making a block *)

Definition CODE_GEN_ALIGN : Z := 16.

Section Gen.
Context (get_phys_addr_code : Z -> Z) (cpu_gen_code : TranslationBlock -> GenResult).

Definition set_generated (g : GenResult) (b : TranslationBlock) : TranslationBlock :=
  b <| size := gen_size g |> <| tb_next_offset := gen_next_offset g |> <| reg_rmask := gen_rmask g |>
    <| reg_wmask := gen_wmask g |> <| helper_accesses_mem := gen_helper_mem g |>.

(** A block, after a flush when there is no room. *)
Definition alloc_or_flush (s : Exec) (pc0 : Z) : Res (nat * Exec) :=
  let* (o, s) := tb_alloc s pc0 in
  match o with
  | Some tb => Ok (tb, s)
  | None =>
      let* s := tb_flush s in
      let* (o, s) := tb_alloc s pc0 in
      let* tb := deref o in
      Ok (tb, s <| tb_invalidated_flag := 1 |>)
  end.

Definition tb_gen_code (s : Exec) (pc0 cs_base0 flags0 cflags0 : Z) : Res (nat * Exec) :=
  let phys_pc := get_phys_addr_code pc0 in
  let* (tb, s) := alloc_or_flush s pc0 in
  let s := tb_upd s tb (fun b => b <| tc_ptr := code_gen_ptr s |> <| cs_base := cs_base0 |> <| flags := flags0 |>
    <| cflags := u16 cflags0 |>) in
  let* b := tb_at s tb in
  let g := cpu_gen_code b in
  let s := tb_upd s tb (set_generated g) in
  let s := s <| code_gen_ptr := Z.land (code_gen_ptr s + code_gen_size g + CODE_GEN_ALIGN - 1) (Z.lnot (CODE_GEN_ALIGN - 1)) |> in
  let virt_page2 := page_start (u32 (pc0 + gen_size g - 1)) in
  let phys_page2 := if negb (page_start pc0 =? virt_page2) then get_phys_addr_code virt_page2 else NO_PAGE in
  let* s := tb_link_phys s tb phys_pc phys_page2 in
  Ok (tb, s).

(** ** Finding a block *)

(** Whether a block is the one for the given state of the CPU. *)
Definition tb_matches (b : TranslationBlock) (pc0 cs_base0 flags0 phys_page1 : Z) : bool :=
  (pc b =? pc0) && (get2 (page_addr b) 0 =? phys_page1) && (cs_base b =? cs_base0) && (flags b =? flags0) &&
  (if negb (get2 (page_addr b) 1 =? NO_PAGE) then
     let virt_page2 := u32 (page_start pc0 + TARGET_PAGE_SIZE) in
     get2 (page_addr b) 1 =? get_phys_addr_code virt_page2
   else true).

Fixpoint find_in_bucket (fuel : nat) (s : Exec) (p : option nat) (pc0 cs_base0 flags0 phys_page1 : Z) : Res (option nat) :=
  match fuel with
  | O => Fail Diverges
  | S fuel =>
      match p with
      | None => Ok None
      | Some tb =>
          let* b := tb_at s tb in
          if tb_matches b pc0 cs_base0 flags0 phys_page1 then Ok (Some tb)
          else find_in_bucket fuel s (phys_hash_next b) pc0 cs_base0 flags0 phys_page1
      end
  end.

(** The lookup for CPU [k]. *)
Definition tb_find_slow (s : Exec) (k : nat) (pc0 cs_base0 flags0 : Z) : Res (nat * Exec) :=
  let s := s <| tb_invalidated_flag := 0 |> in
  let phys_pc := get_phys_addr_code pc0 in
  let* found := find_in_bucket (list_bound s) s (tb_phys_hash s !! tb_phys_hash_func phys_pc) pc0 cs_base0 flags0 (page_start phys_pc) in
  let* (tb, s) :=
    match found with
    | Some tb => Ok (tb, s)
    | None => tb_gen_code s pc0 cs_base0 flags0 0
    end in
  Ok (tb, s <| cpus := alter (fun env =>
    env <| tb_jmp_cache := <[tb_jmp_cache_hash_func pc0 := tb]> (tb_jmp_cache env) |>) k (cpus s) |>).

Definition tb_find_fast (s : Exec) (k : nat) (pc0 cs_base0 flags0 : Z) : Res (nat * Exec) :=
  let* env := deref (cpus s !! k) in
  match tb_jmp_cache env !! tb_jmp_cache_hash_func pc0 with
  | None => tb_find_slow s k pc0 cs_base0 flags0
  | Some tb =>
      let* b := tb_at s tb in
      if negb (pc b =? pc0) || negb (cs_base b =? cs_base0) || negb (flags b =? flags0)
      then tb_find_slow s k pc0 cs_base0 flags0
      else Ok (tb, s)
  end.

End Gen.

(** ** The host code of the blocks *)

(** The code of the blocks lies in the buffer in the order of the blocks. *)
Record codes_ok (s : Exec) : Prop := {
  k_low : code_gen_buffer s <= code_gen_ptr s;
  k_high : code_gen_ptr s - code_gen_buffer s <= code_gen_buffer_size s;
  k_none : nb_tbs s = 0 -> code_gen_ptr s = code_gen_buffer s;
  k_zero b : 0 < nb_tbs s -> tbs s !! 0%nat = Some b -> tc_ptr b = code_gen_buffer s;
  k_sorted i j bi bj : (i < j)%nat -> Z.of_nat j < nb_tbs s -> tbs s !! i = Some bi -> tbs s !! j = Some bj -> tc_ptr bi < tc_ptr bj;
  k_below i b : Z.of_nat i < nb_tbs s -> tbs s !! i = Some b -> tc_ptr b < code_gen_ptr s
}.

Lemma find_loop_ok fuel s p lo hi : 0 < nb_tbs s <= Z.of_nat (length (tbs s)) -> codes_ok s ->
  0 <= lo -> lo <= hi + 1 -> hi < nb_tbs s -> hi - lo + 1 < Z.of_nat fuel -> code_gen_buffer s <= p ->
  (forall i b, Z.of_nat i < lo -> tbs s !! i = Some b -> tc_ptr b <= p) ->
  (forall i b, hi < Z.of_nat i < nb_tbs s -> tbs s !! i = Some b -> p < tc_ptr b) ->
  exists t b, find_pc_loop fuel s p lo hi = Ok t /\ Z.of_nat t < nb_tbs s /\ tbs s !! t = Some b /\ tc_ptr b <= p /\
    forall u b', (t < u)%nat -> Z.of_nat u < nb_tbs s -> tbs s !! u = Some b' -> p < tc_ptr b'.
Proof.
  intros Hnb K. revert lo hi. induction fuel as [|fuel IH]; intros lo hi H0 Hle Hhi Hf Hp Lo Hi; [lia|]. cbn [find_pc_loop].
  destruct (Z.leb_spec lo hi) as [Hlh|Hlh].
  - set (m := Z.shiftr (lo + hi) 1). assert (Hm : lo <= m <= hi).
    { unfold m. rewrite Z.shiftr_div_pow2 by lia. change (2 ^ 1) with 2. split; [apply Z.div_le_lower_bound | apply Z.div_le_upper_bound]; lia. }
    destruct (tb_at_ok s (Z.to_nat m)) as (b & E & ->); [lia|]. cbn [res_bind].
    destruct (Z.eqb_spec (tc_ptr b) p) as [Ev|Hv]; [|destruct (Z.ltb_spec p (tc_ptr b))].
    + exists (Z.to_nat m), b. split_and!; [done | lia | done | lia|]. intros u b' Hu Hn Eu. rewrite <- Ev.
      by apply (k_sorted _ K (Z.to_nat m) u).
    + apply IH; try lia; [done|]. intros i b' Hx Ei. destruct (decide (i = Z.to_nat m)) as [->|]; [congruence|].
      destruct (Z.lt_ge_cases hi (Z.of_nat i)); [apply (Hi i); [lia | done]|].
      assert (tc_ptr b < tc_ptr b'); [apply (k_sorted _ K (Z.to_nat m) i); [lia.. | done | done] | lia].
    + apply IH; try lia; [|done]. intros i b' Hx Ei. destruct (decide (i = Z.to_nat m)) as [->|]; [assert (b' = b) as -> by congruence; lia|].
      assert (tc_ptr b' < tc_ptr b); [apply (k_sorted _ K i (Z.to_nat m)); [lia.. | done | done] | lia].
  - assert (hi = lo - 1) as -> by lia. destruct (Z.ltb_spec (lo - 1) 0) as [Hneg|Hpos].
    + exfalso. assert (lo = 0) as -> by lia. destruct (tb_at_ok s 0) as (b & E & _); [lia|].
      pose proof (k_zero _ K b ltac:(lia) E). pose proof (Hi 0%nat b ltac:(lia) E). lia.
    + destruct (tb_at_ok s (Z.to_nat (lo - 1))) as (b & E & _); [lia|]. exists (Z.to_nat (lo - 1)), b.
      split_and!; [done | lia | done | apply (Lo (Z.to_nat (lo - 1))); [lia | done]|].
      intros u b' Hu Hn Eu. apply (Hi u); [lia | done].
Qed.

(** The binary search for the block of a host address always ends and finds
    it: outside the generated code the answer is none; inside, it is the last
    block whose code starts at or before the address, and the search never
    looks at a block that is not there. *)
Theorem tb_find_pc_finds s p : 0 <= nb_tbs s <= Z.of_nat (length (tbs s)) -> codes_ok s ->
  if decide (code_gen_buffer s <= p < code_gen_ptr s) then
    exists t b, tb_find_pc s p = Ok (Some t) /\ Z.of_nat t < nb_tbs s /\ tbs s !! t = Some b /\ tc_ptr b <= p /\
      forall u b', (t < u)%nat -> Z.of_nat u < nb_tbs s -> tbs s !! u = Some b' -> p < tc_ptr b'
  else tb_find_pc s p = Ok None.
Proof.
  intros Hnb K. unfold tb_find_pc. destruct (Z.leb_spec (nb_tbs s) 0).
  - pose proof (k_none _ K ltac:(lia)). rewrite decide_False by lia. done.
  - destruct (decide _) as [Hp|Hp].
    + assert ((p <? code_gen_buffer s) || (code_gen_ptr s <=? p) = false) as ->.
      { apply orb_false_iff. split; [apply Z.ltb_ge | apply Z.leb_gt]; lia. }
      destruct (find_loop_ok (S (Z.to_nat (nb_tbs s))) s p 0 (nb_tbs s - 1)) as (t & b & -> & H1 & H2 & H3 & H4);
        try done; try lia. exists t, b. split_and!; done.
    + assert ((p <? code_gen_buffer s) || (code_gen_ptr s <=? p) = true) as ->; [|done].
      apply orb_true_iff. rewrite Z.ltb_lt, Z.leb_le. lia.
Qed.

Lemma codes_view s s' : codes_ok s -> tc_ptr <$> tbs s' = tc_ptr <$> tbs s -> nb_tbs s' = nb_tbs s ->
  code_gen_ptr s' = code_gen_ptr s -> code_gen_buffer s' = code_gen_buffer s ->
  code_gen_buffer_size s' = code_gen_buffer_size s -> codes_ok s'.
Proof.
  intros [] Et En Ep Eb Es.
  assert (V : forall i b', tbs s' !! i = Some b' -> exists b, tbs s !! i = Some b /\ tc_ptr b' = tc_ptr b)
    by (intros i b'; by apply (view_lookup tc_ptr s s')).
  split; rewrite ?En, ?Ep, ?Eb, ?Es; auto.
  - intros b' Hn E. destruct (V _ _ E) as (b & E0 & ->). auto.
  - intros i j bi bj Hij Hj Ei Ej. destruct (V _ _ Ei) as (b1 & E1 & ->), (V _ _ Ej) as (b2 & E2 & ->). eauto.
  - intros i b' Hi E. destruct (V _ _ E) as (b & E0 & ->). eauto.
Qed.

(** ** Making a block keeps the invariant *)

(** The configuration of the code buffer: room for one more block after the
    limit at which allocation fails. *)
Record room_ok (s : Exec) (room : Z) : Prop := {
  rm_blocks : 0 < code_gen_max_blocks s;
  rm_size : 0 < code_gen_buffer_max_size s;
  rm_room : code_gen_buffer_max_size s + room + CODE_GEN_ALIGN <= code_gen_buffer_size s
}.

Lemma room_same s s' room : room_ok s room -> code_gen_max_blocks s' = code_gen_max_blocks s ->
  code_gen_buffer_max_size s' = code_gen_buffer_max_size s -> code_gen_buffer_size s' = code_gen_buffer_size s -> room_ok s' room.
Proof. intros [] E1 E2 E3. split; by rewrite ?E1, ?E2, ?E3. Qed.

(** The state with the new block not counted. *)
Definition uncounted (s : Exec) : Exec := s <| nb_tbs := nb_tbs s - 1 |>.

Lemma alloc_codes s t s' : codes_ok s -> Z.of_nat t = nb_tbs s -> s' = s <| tbs := tbs s' |> <| nb_tbs := nb_tbs s + 1 |> ->
  (forall u, u <> t -> tbs s' !! u = tbs s !! u) -> codes_ok (uncounted s').
Proof.
  intros K Et E Ho. assert (Hn : nb_tbs s' - 1 = nb_tbs s) by (rewrite E; cbn; lia).
  assert (Ep : code_gen_ptr s' = code_gen_ptr s /\ code_gen_buffer s' = code_gen_buffer s /\ code_gen_buffer_size s' = code_gen_buffer_size s)
    by (by rewrite E).
  destruct Ep as (E1 & E2 & E3). destruct K. split; unfold uncounted; cbn; rewrite ?Hn, ?E1, ?E2, ?E3; auto.
  - intros b Hp Eb. rewrite Ho in Eb by lia. auto.
  - intros i j bi bj Hij Hj Ei Ej. rewrite Ho in Ei, Ej by lia. eauto.
  - intros i b Hi Eb. rewrite Ho in Eb by lia. eauto.
Qed.

(** The CPUs run what they ran, and their jump caches are as before, or empty. *)
Definition emptied (cs cs' : list CPUCommon) : Prop := map run_view cs' = map (fun e => (∅, current_tb e)) cs.
Definition caches_from (cs cs' : list CPUCommon) : Prop := map run_view cs' = map run_view cs \/ emptied cs cs'.

Lemma caches_from_length cs cs' : caches_from cs cs' -> length cs' = length cs.
Proof. intros [E|E]; apply (f_equal length) in E; by rewrite !length_map in E. Qed.

Lemma caches_from_current cs cs' : caches_from cs cs' -> map current_tb cs' = map current_tb cs.
Proof.
  assert (K : forall l, map current_tb l = map snd (map run_view l)) by (intros; by rewrite map_map).
  intros [E|E]; by rewrite K, E, ?map_map.
Qed.

Lemma emptied_at cs cs' k env' : emptied cs cs' -> cs' !! k = Some env' -> exists env, cs !! k = Some env /\ tb_jmp_cache env' = ∅.
Proof.
  intros E H. unfold emptied in E. change (map ?f ?l) with (f <$> l) in E.
  assert (H' : (run_view <$> cs') !! k = Some (run_view env')) by (by rewrite list_lookup_fmap, H).
  rewrite E, list_lookup_fmap in H'. apply fmap_Some in H' as (env & Ek & [= V _]). by exists env.
Qed.

Lemma caches_from_at cs cs' k env' : caches_from cs cs' -> cs' !! k = Some env' ->
  exists env, cs !! k = Some env /\ current_tb env' = current_tb env /\ (tb_jmp_cache env' = tb_jmp_cache env \/ tb_jmp_cache env' = ∅).
Proof.
  intros E H. destruct (lookup_lt_is_Some_2 cs k) as [env Ek]; [rewrite <- (caches_from_length _ _ E); by apply lookup_lt_Some in H|].
  exists env. split; [done|]. unfold caches_from in E. change (map ?f ?l) with (f <$> l) in E.
  assert (H' : (run_view <$> cs') !! k = Some (run_view env')) by (by rewrite list_lookup_fmap, H).
  destruct E as [E|E]; unfold emptied in E; change (map ?f ?l) with (f <$> l) in E; rewrite E, list_lookup_fmap, Ek in H'; injection H' as H1 H2; auto.
Qed.

Record allocated (s : Exec) (live live1 : gset nat) (pc0 : Z) (t : nat) (s1 : Exec) (b : TranslationBlock) : Prop := {
  a_cached : cached s1 live1;
  a_live : live1 = live \/ live1 = ∅ /\ tb_invalidated_flag s1 = 1;
  a_new : t ∉ live1;
  a_nb : nb_tbs s1 = Z.of_nat t + 1;
  a_codes : codes_ok (uncounted s1);
  a_at : tbs s1 !! t = Some b;
  a_pc : pc b = pc0;
  a_next : s2e_tb_next b = mkTwo None None;
  a_room : code_gen_ptr s1 - code_gen_buffer s1 < code_gen_buffer_max_size s1;
  a_other u : u <> t -> tbs s1 !! u = tbs s !! u;
  a_caches : caches_from (cpus s) (cpus s1);
  a_reused : t ∈ live -> emptied (cpus s) (cpus s1);
  a_rest : ram s1 = ram s /\ map tlb_table (cpus s1) = map tlb_table (cpus s) /\ code_gen_max_blocks s1 = code_gen_max_blocks s /\
    code_gen_buffer_max_size s1 = code_gen_buffer_max_size s /\ code_gen_buffer_size s1 = code_gen_buffer_size s
}.

Lemma alloc_or_flush_ok s live room pc0 : cached s live -> codes_ok s -> room_ok s room ->
  exists t s1 live1 b, alloc_or_flush s pc0 = Ok (t, s1) /\ allocated s live live1 pc0 t s1 b.
Proof.
  intros C K R. unfold alloc_or_flush.
  destruct (decide (nb_tbs s < code_gen_max_blocks s /\ code_gen_ptr s - code_gen_buffer s < code_gen_buffer_max_size s)) as [[H1 H2]|H].
  - destruct (alloc_ok s live pc0 C H1 H2) as (t & s1 & b & -> & Et & Nt & C1 & En & E & Hl & Ho & Eb & P1 & P2). cbn [res_bind].
    exists t, s1, live, b. split; [done|]. split; try done; [by left | lia | by apply (alloc_codes s t) | by rewrite E | rewrite E; by left | by rewrite E].
  - assert (tb_alloc s pc0 = Ok (None, s)) as ->.
    { unfold tb_alloc. destruct ((code_gen_max_blocks s <=? nb_tbs s) || (code_gen_buffer_max_size s <=? code_gen_ptr s - code_gen_buffer s)) eqn:D; [done|].
      exfalso. apply H. apply orb_false_iff in D as [D1%Z.leb_gt D2%Z.leb_gt]. done. }
    cbn [res_bind]. destruct (flush_ok s live C (k_high _ K)) as (s0 & -> & C0 & N0 & P0 & E0 & T0 & J0). cbn [res_bind].
    assert (K0 : codes_ok s0).
    { split; rewrite ?N0; try lia; rewrite ?P0, E0; cbn; try done; pose proof (k_low _ K); pose proof (k_high _ K); lia. }
    destruct (alloc_ok s0 ∅ pc0 C0) as (t & s1 & b & -> & Et & Nt & C1 & En & E & Hl & Ho & Eb & P1 & P2).
    { rewrite N0, E0. cbn. apply (rm_blocks _ _ R). }
    { rewrite P0, E0. cbn. pose proof (rm_size _ _ R). lia. }
    cbn [res_bind deref]. exists t, (s1 <| tb_invalidated_flag := 1 |>), ∅, b. split; [done|].
    split; try done; [|by right | cbn; lia | | | | | |].
    + apply (cached_local s1); try done. destruct (c_base _ _ C1). by split.
    + destruct (alloc_codes s0 t s1 K0 Et E Ho). by split.
    + cbn. rewrite E. cbn. rewrite P0, E0. cbn. pose proof (rm_size _ _ R). lia.
    + intros u Hu. cbn. rewrite Ho by done. by rewrite E0.
    + cbn. rewrite E. by right.
    + intros _. cbn. by rewrite E.
    + cbn. rewrite E. cbn. rewrite T0, E0. done.
Qed.

(** What the rest of the translator promises: blocks of at most a page, and code
    that fits in the room left. *)
Record translates (gen : TranslationBlock -> GenResult) (room : Z) : Prop := {
  tr_size b : 1 <= gen_size (gen b) <= 4096;
  tr_code b : 1 <= code_gen_size (gen b) <= room
}.

(** Code addresses are mapped page by page, to RAM. *)
Record maps_code (phys : Z -> Z) (m : Ram) : Prop := {
  mc_offset a : page_offset (phys a) = page_offset a;
  mc_page a b : page_start a = page_start b -> page_start (phys a) = page_start (phys b);
  mc_range a : 0 <= phys a < RAM_LIMIT;
  mc_ram a : ram_page m (page_start (phys a))
}.

Lemma maps_same phys m m' : maps_code phys m -> same_ram m m' -> maps_code phys m'.
Proof. intros [] S. split; [done | done | done |]. intros a. by apply (same_ram_page m m'). Qed.

Lemma align_up x : x - 15 <= Z.land x (Z.lnot (CODE_GEN_ALIGN - 1)) <= x.
Proof.
  change (CODE_GEN_ALIGN - 1) with (Z.ones 4). rewrite <- Z.ldiff_land, Z.ldiff_ones_r by lia.
  rewrite Z.shiftl_mul_pow2, Z.shiftr_div_pow2 by lia. change (2 ^ 4) with 16.
  pose proof (Z.div_mod x 16 ltac:(done)). pose proof (Z.mod_pos_bound x 16 ltac:(done)). lia.
Qed.

(** The second page of a block, as [tb_gen_code] and [tb_find_slow] compute it. *)
Lemma second_page p n : 0 <= p < 2 ^ 32 -> 1 <= n <= 4096 ->
  page_start (u32 (p + n - 1)) = page_start p \/ page_start (u32 (p + n - 1)) = u32 (page_start p + TARGET_PAGE_SIZE).
Proof.
  intros Hp Hn. rewrite !page_start_eq. unfold u32. change (2 ^ 32) with 4294967296 in *. change TARGET_PAGE_SIZE with 4096.
  Z.div_mod_to_equations. lia.
Qed.

Lemma spans p n : 0 <= p < 2 ^ 32 -> 1 <= n <= 4096 ->
  page_start p = page_start (u32 (p + n - 1)) <-> page_offset p + n <= 4096.
Proof.
  intros Hp Hn. rewrite !page_start_eq, page_offset_eq. unfold u32. change (2 ^ 32) with 4294967296 in *.
  Z.div_mod_to_equations. lia.
Qed.

Section GenOk.
Context (phys : Z -> Z) (gen : TranslationBlock -> GenResult) (room : Z) (HT : translates gen room).

(** The block a call of [tb_gen_code] makes. *)
Record made (s' : Exec) (t : nat) (pc0 cs_base0 flags0 cflags0 : Z) : Prop := {
  md_block : exists b, tbs s' !! t = Some b /\ pc b = pc0 /\ cs_base b = cs_base0 /\ flags b = flags0 /\ cflags b = u16 cflags0 /\
    1 <= size b <= 4096 /\ get2 (page_addr b) 0 = page_start (phys pc0) /\
    get2 (page_addr b) 1 = (if page_start pc0 =? page_start (u32 (pc0 + size b - 1)) then NO_PAGE
                            else phys (page_start (u32 (pc0 + size b - 1)))) /\
    s2e_tb_next b = mkTwo None None
}.

Lemma page_start_page m a : ram_page m (page_start (phys a)) -> maps_code phys m -> a mod 4096 = 0 -> ram_page m (phys a).
Proof.
  intros R M Ha. assert (page_start (phys a) = phys a) as <-; [|done]. pose proof (mc_offset _ _ M a) as E.
  rewrite !page_offset_eq in E. rewrite page_start_eq. pose proof (Z.div_mod (phys a) 4096 ltac:(done)). lia.
Qed.

Lemma gen_codes s t p q : codes_ok (uncounted s) -> nb_tbs s = Z.of_nat t + 1 -> (t < length (tbs s))%nat ->
  code_gen_ptr s < q -> q - code_gen_buffer s <= code_gen_buffer_size s -> p = code_gen_ptr s ->
  forall f, (forall b, tc_ptr (f b) = p) -> codes_ok ((tb_upd s t f) <| code_gen_ptr := q |>).
Proof.
  intros K En Ht Hq Hr -> f Hf. destruct K. unfold uncounted in *. cbn in *.
  assert (V : forall i b', tbs (tb_upd s t f) !! i = Some b' -> i = t /\ tc_ptr b' = code_gen_ptr s \/ i <> t /\ tbs s !! i = Some b').
  { intros i b'. rewrite lookup_upd. destruct (decide (t = i)) as [<-|]; [|by right]. intros (b & E & ->)%fmap_Some. left. by rewrite Hf. }
  split; cbn.
  - change (code_gen_buffer s <= q). lia.
  - done.
  - intros Hz. change (nb_tbs s = 0) in Hz. lia.
  - intros b Hn Eb. change (tc_ptr b = code_gen_buffer s). destruct (V _ _ Eb) as [[<- ->]|[Hne E]]; [apply k_none0; lia | apply k_zero0; [lia | done]].
  - intros i j bi bj Hij Hj Ei Ej. assert (Hj' : (j <= t)%nat) by (change (Z.of_nat j < nb_tbs s) in Hj; lia).
    destruct (V _ _ Ei) as [[-> _]|[Hi Ei']]; [lia|]. destruct (V _ _ Ej) as [[-> ->]|[Hne Ej']]; [apply (k_below0 i); [lia | done]|].
    apply (k_sorted0 i j); [done | lia | done | done].
  - intros i b Hi Eb. change (Z.of_nat i < nb_tbs s) in Hi. destruct (V _ _ Eb) as [[-> ->]|[Hne E]]; [done|].
    pose proof (k_below0 i b ltac:(lia) E). lia.
Qed.

End GenOk.

Lemma gen_code_ok phys gen room s live pc0 cs_base0 flags0 cflags0 : translates gen room -> maps_code phys (ram s) ->
  cached s live -> codes_ok s -> room_ok s room -> 0 <= pc0 < 2 ^ 32 ->
  exists t s' live1, tb_gen_code phys gen s pc0 cs_base0 flags0 cflags0 = Ok (t, s') /\
    (live1 = live \/ live1 = ∅ /\ tb_invalidated_flag s' = 1) /\ t ∉ live1 /\ cached s' ({[t]} ∪ live1) /\ codes_ok s' /\ room_ok s' room /\
    same_ram (ram s) (ram s') /\ caches_from (cpus s) (cpus s') /\ (t ∈ live -> emptied (cpus s) (cpus s')) /\ (forall u, u <> t -> tbs s' !! u = tbs s !! u) /\ made phys s' t pc0 cs_base0 flags0 cflags0.
Proof.
  intros HT HM C K R Hpc.
  destruct (alloc_or_flush_ok s live room pc0 C K R) as (t & s1 & live1 & b & A & [C1 L1 N1 B1 K1 E1 P1 X1 R1 O1 J1 U1 (Q1 & Q2 & Q3 & Q4 & Q5)]).
  unfold tb_gen_code. rewrite A. cbn [res_bind].
  set (f := fun b => b <| tc_ptr := code_gen_ptr s1 |> <| cs_base := cs_base0 |> <| flags := flags0 |> <| cflags := u16 cflags0 |>).
  assert (E2 : tbs (tb_upd s1 t f) !! t = Some (f b)) by (by rewrite lookup_upd, decide_True, E1).
  unfold tb_at. rewrite E2. cbn [res_bind]. set (g := gen (f b)). rewrite upd_upd. set (h := fun b => set_generated g (f b)).
  set (q := Z.land _ _). set (s3 := (tb_upd s1 t h) <| code_gen_ptr := q |>).
  destruct (tr_size _ _ HT (f b)) as [Z1 Z2]. destruct (tr_code _ _ HT (f b)) as [Z3 Z4]. fold g in Z1, Z2, Z3, Z4.
  assert (Hq : code_gen_ptr s1 < q /\ q <= code_gen_ptr s1 + code_gen_size g + 15).
  { pose proof (align_up (code_gen_ptr (tb_upd s1 t h) + code_gen_size g + CODE_GEN_ALIGN - 1)) as Hq. fold q in Hq.
    change (code_gen_ptr (tb_upd s1 t h)) with (code_gen_ptr s1) in Hq. unfold CODE_GEN_ALIGN in Hq. lia. }
  assert (K3 : codes_ok s3).
  { apply (gen_codes s1 t (code_gen_ptr s1) q); try done; [by apply lookup_lt_Some in E1 | lia |].
    pose proof (rm_room _ _ R). unfold CODE_GEN_ALIGN in *. lia. }
  assert (E3 : tbs s3 !! t = Some (h b)) by (cbn; by rewrite lookup_upd, decide_True, E1).
  assert (C3 : cached s3 live1).
  { apply (cached_local s1); try done; [|apply length_upd|].
    - destruct (c_base _ _ C1). split; cbn; rewrite ?length_upd; try done.
      intros u bu Hu. rewrite lookup_upd, decide_False by (by intros ->). by apply b_addrs0.
    - intros u Hu. cbn. by rewrite lookup_upd, decide_False by (by intros ->). }
  set (p2 := if negb _ then _ else _).
  assert (Lk : linkable s3 live1 t (h b) (phys pc0) p2).
  { split; try done.
    - change (Z.of_nat t < nb_tbs s1). lia.
    - change (pc (h b)) with (pc b). rewrite P1. symmetry. apply (mc_offset _ _ HM).
    - apply (mc_range _ _ HM).
    - change (ram s3) with (ram s1). rewrite Q1. apply (mc_ram _ _ HM).
    - change (pc (h b)) with (pc b). by rewrite P1.
    - change (pc (h b)) with (pc b). change (size (h b)) with (gen_size g). rewrite P1. change (ram s3) with (ram s1). rewrite Q1.
      pose proof (spans pc0 (gen_size g) Hpc ltac:(lia)) as Hs. unfold p2.
      destruct (Z.eqb_spec (page_start pc0) (page_start (u32 (pc0 + gen_size g - 1)))) as [D|D]; cbn [negb];
        [left; tauto | right; split_and!; [|apply (mc_range _ _ HM).. | lia]].
      apply page_start_page; [apply (mc_ram _ _ HM) | done|]. rewrite page_start_eq. by apply Z.mod_mul. }
  destruct (link_phys_ok s3 live1 t (h b) (phys pc0) p2 C3 Lk) as (s4 & -> & C4 & O4 & S4 & J4 & (b4 & E4 & A4 & X4)). cbn [res_bind].
  assert (K4 : kview b4 = kview (h b)).
  { destruct (view_lookup kview s3 s4 t b4 (o_code _ _ _ O4) E4) as (b0 & Eb0 & ->). congruence. }
  exists t, s4, live1. split_and!; [done | | done | done | | | | | | |].
  - destruct L1 as [L1|[L1 Fl]]; [by left | right]. split; [done|]. by rewrite (o_rest _ _ _ O4).
  - apply (codes_view s3); try (by rewrite (o_rest _ _ _ O4)); [done|].
    assert (V : forall s, tc_ptr <$> tbs s = (fun '(_, _, p, _, _, _) => p) <$> (kview <$> tbs s)) by (intros; by rewrite <- list_fmap_compose).
    by rewrite !V, (o_code _ _ _ O4).
  - apply (room_same s); [done | rewrite (o_rest _ _ _ O4); exact Q3 | rewrite (o_rest _ _ _ O4); exact Q4 | rewrite (o_rest _ _ _ O4); exact Q5].
  - change (ram s3) with (ram s1) in S4. by rewrite Q1 in S4.
  - change (cpus s3) with (cpus s1) in J4. unfold caches_from, emptied. by rewrite J4.
  - intros Hl. change (cpus s3) with (cpus s1) in J4. unfold emptied. rewrite J4. by apply U1.
  - intros u Hu. rewrite (o_other _ _ _ O4) by done. cbn. rewrite lookup_upd, decide_False by done. by apply O1.
  - split. exists b4. injection K4 as -> -> _ _ -> -> -> _ _ _. rewrite A4, X4. split_and!; try done. cbn. unfold p2.
    destruct (Z.eqb_spec (page_start pc0) (page_start (u32 (pc0 + gen_size g - 1)))); done.
Qed.

(** ** Lookup *)

(** Every byte of the block's code was read where it is mapped now. *)
Definition current (phys : Z -> Z) (b : TranslationBlock) : Prop :=
  forall i, 0 <= i < size b -> source b i = phys (u32 (pc b + i)).

(** The virtual page of a byte of a block. *)
Lemma byte_page p i : 0 <= p < 2 ^ 32 -> 0 <= i < 4096 ->
  page_offset (u32 (p + i)) = (p mod 4096 + i) mod 4096 /\
  page_start (u32 (p + i)) = if p mod 4096 + i <? 4096 then page_start p else u32 (page_start p + TARGET_PAGE_SIZE).
Proof.
  intros Hp Hi. rewrite !page_start_eq, page_offset_eq. unfold u32. change (2 ^ 32) with 4294967296 in *. change TARGET_PAGE_SIZE with 4096.
  destruct (Z.ltb_spec (p mod 4096 + i) 4096); split; Z.div_mod_to_equations; lia.
Qed.

Lemma split_address x : x = page_start x + page_offset x.
Proof. rewrite page_start_eq, page_offset_eq. pose proof (Z.div_mod x 4096 ltac:(done)). lia. Qed.

Lemma next_page_aligned p : page_start (u32 (page_start p + TARGET_PAGE_SIZE)) = u32 (page_start p + TARGET_PAGE_SIZE) /\
  page_offset (u32 (page_start p + TARGET_PAGE_SIZE)) = 0.
Proof.
  rewrite !page_start_eq, page_offset_eq. unfold u32. change (2 ^ 32) with (1048576 * 4096). change TARGET_PAGE_SIZE with 4096.
  split; Z.div_mod_to_equations; lia.
Qed.

Section Pages.
Context (phys : Z -> Z) (b : TranslationBlock) (m : Ram) (A : addrs_ok b) (M : maps_code phys m).

(** The two pages a block records say where all of its bytes were. *)
Lemma pages_current : get2 (page_addr b) 0 = page_start (phys (pc b)) ->
  (get2 (page_addr b) 1 <> NO_PAGE -> get2 (page_addr b) 1 = phys (u32 (page_start (pc b) + TARGET_PAGE_SIZE))) -> current phys b.
Proof.
  intros E0 E1 i Hi. destruct A as [Ap As _ A2]. destruct (byte_page (pc b) i Ap ltac:(lia)) as [Bo Bp].
  rewrite (split_address (phys (u32 (pc b + i)))), (mc_offset _ _ M), Bo. unfold source. pose proof (Z.mod_pos_bound (pc b) 4096 ltac:(done)).
  destruct (next_page_aligned (pc b)) as [Np No]. destruct (Z.ltb_spec (pc b mod 4096 + i) 4096).
  - rewrite (mc_page _ _ M _ (pc b) Bp), E0, (Z.mod_small (pc b mod 4096 + i)); lia.
  - rewrite <- Np in Bp. rewrite (mc_page _ _ M _ _ Bp). rewrite page_offset_eq in A2. destruct A2 as [[_ A2]|[[A2 _] _]]; [lia|].
    rewrite (E1 (aligned_no_page _ A2)). pose proof (split_address (phys (u32 (page_start (pc b) + TARGET_PAGE_SIZE)))) as Sp.
    rewrite (mc_offset _ _ M), No in Sp. rewrite <- (Z.mod_add (pc b mod 4096 + i) (-1) 4096) by done. rewrite (Z.mod_small (_ + _ * _)); lia.
Qed.

Lemma current_pages : current phys b -> get2 (page_addr b) 0 = page_start (phys (pc b)) /\
  (get2 (page_addr b) 1 <> NO_PAGE -> get2 (page_addr b) 1 = phys (u32 (page_start (pc b) + TARGET_PAGE_SIZE))).
Proof.
  intros Cu. destruct A as [Ap As [A0 _] A2]. pose proof (Z.mod_pos_bound (pc b) 4096 ltac:(done)) as Bo. rewrite page_offset_eq in A2. split.
  - pose proof (Cu 0 ltac:(lia)) as E. unfold source in E. rewrite !Z.add_0_r in E. unfold u32 in E. rewrite (Z.mod_small (pc b) (2 ^ 32)) in E by exact Ap.
    destruct (Z.ltb_spec (pc b mod 4096) 4096); [|lia]. rewrite <- E, page_start_eq. Z.div_mod_to_equations. lia.
  - intros Hn. destruct A2 as [[? _]|[_ A2]]; [done|]. pose proof (Cu (4096 - pc b mod 4096) ltac:(lia)) as E. unfold source in E.
    replace (pc b mod 4096 + (4096 - pc b mod 4096)) with 4096 in E by lia. cbn [Z.ltb Z.compare Pos.compare Pos.compare_cont] in E. rewrite Z.sub_diag, Z.add_0_r in E. rewrite E. f_equal. f_equal.
    rewrite page_start_eq. change TARGET_PAGE_SIZE with 4096. pose proof (Z.div_mod (pc b) 4096 ltac:(done)). lia.
Qed.
End Pages.

Section Lookup.
Context (phys : Z -> Z) (pc0 cs_base0 flags0 : Z).

(** The block is the translation of the code the CPU is at: it was made for the
    same address, segment base and flags, and each byte of its code was read
    where that byte of the CPU's code is mapped now. *)
Definition block_for (s : Exec) (t : nat) : Prop :=
  exists b, tbs s !! t = Some b /\ pc b = pc0 /\ cs_base b = cs_base0 /\ flags b = flags0 /\ current phys b.

(** The comparison of [tb_find_slow] decides this for the blocks in the cache. *)
Lemma matches_current b m : addrs_ok b -> maps_code phys m ->
  tb_matches phys b pc0 cs_base0 flags0 (page_start (phys pc0)) = true <->
  pc b = pc0 /\ cs_base b = cs_base0 /\ flags b = flags0 /\ current phys b.
Proof.
  intros A M. unfold tb_matches. rewrite !andb_true_iff, !Z.eqb_eq. split.
  - intros ((((<- & E0) & <-) & <-) & E1). split_and!; try done. apply (pages_current phys b m A M E0).
    intros Hn. by apply Z.eqb_neq in Hn; rewrite Hn in E1; apply Z.eqb_eq.
  - intros (<- & <- & <- & Cu). destruct (current_pages phys b A Cu) as [E0 E1]. split_and!; try done.
    destruct (Z.eqb_spec (get2 (page_addr b) 1) NO_PAGE) as [|Hn]; [done|]. cbn [negb]. apply Z.eqb_eq. auto.
Qed.

Lemma bucket_walk fuel s l p : maps_code phys (ram s) -> chain (hlink (hviews s).1 (hviews s).2) (HashNext <$> p) None (HashNext <$> l) ->
  (forall u, u ∈ l -> exists b, tbs s !! u = Some b /\ addrs_ok b) -> (length l < fuel)%nat ->
  exists o, find_in_bucket phys fuel s p pc0 cs_base0 flags0 (page_start (phys pc0)) = Ok o /\
    match o with Some t => t ∈ l /\ block_for s t | None => forall t, t ∈ l -> ~ block_for s t end.
Proof.
  intros HM. revert fuel p. induction l as [|u l IH]; intros [|fuel] p C R F; cbn in F; try lia; cbn [find_in_bucket].
  - destruct p; [done|]. exists None. split; [done|]. by intros t ?%elem_of_nil.
  - destruct C as [Cu C]. destruct p as [u'|]; [|done]. injection Cu as ->.
    destruct (R u ltac:(by left)) as (b & E & Ab). unfold tb_at. rewrite E. cbn [res_bind].
    pose proof (matches_current b (ram s) Ab HM) as Mc. destruct (tb_matches phys b pc0 cs_base0 flags0 (page_start (phys pc0))) eqn:M.
    + exists (Some u). split; [done|]. split; [by left | exists b; split; [done | by apply Mc]].
    + assert (Ex : hlink (hviews s).1 (hviews s).2 (HashNext u) = HashNext <$> phys_hash_next b).
      { unfold hlink, hviews. cbn [fst]. by rewrite (view_at phys_hash_next s u b E). }
      rewrite Ex in C.
      destruct (IH fuel (phys_hash_next b)) as (o & -> & Ho); [done | intros v Hv; apply R; by right | lia|].
      exists o. split; [done|]. destruct o as [t|]; [destruct Ho; split; [by right | done]|].
      intros t [->|Ht]%elem_of_cons; [|by apply Ho]. intros (b' & E' & M'). assert (b' = b) as -> by congruence. by apply Mc in M'.
Qed.

Lemma block_for_hash s live t : cached s live -> t ∈ live -> maps_code phys (ram s) -> block_for s t ->
  block_hash s t = tb_phys_hash_func (phys pc0).
Proof.
  intros C Ht M (b & E & <- & _ & _ & Cu). rewrite (at_hash s t b E). unfold phys_pc_of. f_equal.
  destruct (current_pages phys b (b_addrs _ _ (c_base _ _ C) t b Ht E) Cu) as [-> _]. rewrite <- (mc_offset _ _ M).
  apply phys_pc_split. pose proof (mc_range _ _ M (pc b)). unfold RAM_LIMIT in *. lia.
Qed.

(** The search in the hash table finds a live block for the code, if there is one. *)
Lemma find_in_bucket_ok s live : cached s live -> maps_code phys (ram s) ->
  exists o, find_in_bucket phys (list_bound s) s (tb_phys_hash s !! tb_phys_hash_func (phys pc0)) pc0 cs_base0 flags0 (page_start (phys pc0)) = Ok o /\
    match o with Some t => t ∈ live /\ block_for s t | None => forall t, t ∈ live -> ~ block_for s t end.
Proof.
  intros C M. destruct (c_hash _ _ C) as [H W]. set (h := tb_phys_hash_func (phys pc0)).
  destruct (bucket_walk (list_bound s) s (H h) (tb_phys_hash s !! h)) as (o & -> & Ho).
  - done.
  - apply (h_chain _ _ _ _ _ W).
  - intros u [Hu _]%(h_elem _ _ _ _ _ W). destruct (live_at s live u (c_wired _ _ C) Hu) as (b & E & _).
    exists b. split; [done|]. by apply (b_addrs _ _ (c_base _ _ C) u).
  - pose proof (hash_list_short s live H h W). unfold list_bound. lia.
  - exists o. split; [done|]. destruct o as [t|].
    + destruct Ho as [Ht B]. split; [|done]. by apply (h_elem _ _ _ _ _ W) in Ht as [? _].
    + intros t Ht B. apply (Ho t); [|done]. apply (h_elem _ _ _ _ _ W). split; [done|].
      by apply (block_for_hash s live).
Qed.

Lemma made_for s live t cflags0 : 0 <= pc0 < 2 ^ 32 -> cached s live -> t ∈ live -> maps_code phys (ram s) ->
  made phys s t pc0 cs_base0 flags0 cflags0 -> block_for s t.
Proof.
  intros Hpc C Ht M [(b & E & P1 & P2 & P3 & _ & P5 & P6 & P7 & _)]. exists b. split_and!; try done.
  apply (pages_current phys b (ram s)); [by apply (b_addrs _ _ (c_base _ _ C) t) | done | by rewrite P1|].
  rewrite P7, P1. destruct (Z.eqb_spec (page_start pc0) (page_start (u32 (pc0 + size b - 1)))) as [|Hd]; [done|].
  intros _. destruct (second_page pc0 (size b) Hpc P5) as [Eq|Eq]; [congruence | by rewrite Eq].
Qed.

End Lookup.

(** Entering a block in the jump cache of a CPU. *)
Definition enter (s : Exec) (k : nat) (pc0 : Z) (t : nat) : Exec :=
  s <| cpus := alter (fun env => env <| tb_jmp_cache := <[tb_jmp_cache_hash_func pc0 := t]> (tb_jmp_cache env) |>) k (cpus s) |>.

Lemma elem_of_alter {A} (f : A -> A) k (l : list A) x : x ∈ alter f k l -> x ∈ l \/ exists y, y ∈ l /\ x = f y.
Proof.
  intros (i & E)%list_elem_of_lookup. destruct (decide (i = k)) as [->|].
  - rewrite list_lookup_alter_eq in E. apply fmap_Some in E as (y & E & ->). right. exists y. split; [by eapply list_elem_of_lookup_2 | done].
  - rewrite list_lookup_alter_ne in E by done. left. by eapply list_elem_of_lookup_2.
Qed.

Lemma alter_field {A B} (f : A -> B) (g : A -> A) k (l : list A) : (forall x, f (g x) = f x) -> map f (alter g k l) = map f l.
Proof.
  intros H. apply list_eq. intros i. change (map f ?l) with (f <$> l). rewrite !list_lookup_fmap.
  destruct (decide (i = k)) as [->|]; [rewrite list_lookup_alter_eq | by rewrite list_lookup_alter_ne].
  destruct (l !! k); cbn; [by rewrite H | done].
Qed.

Lemma enter_tables s k pc0 t : map tlb_table (cpus (enter s k pc0 t)) = map tlb_table (cpus s).
Proof. by apply alter_field. Qed.

Lemma enter_current s k pc0 t : map current_tb (cpus (enter s k pc0 t)) = map current_tb (cpus s).
Proof. by apply alter_field. Qed.

Lemma enter_ok s live k t : cached s live -> t ∈ live -> cached (enter s k (block_pc s t) t) live.
Proof.
  intros [CB CW CH CP CC CM CG] Ht. split; try done.
  - destruct CB. by split.
  - by apply (wired_local s).
  - intros env h u He Hu. unfold enter in He. cbn in He. change (block_pc (enter _ _ _ _) u) with (block_pc s u).
    apply elem_of_alter in He as [He|(env0 & He & ->)]; [by apply (CC env)|]. cbn in Hu. rewrite lookup_insert in Hu.
    case_decide as D; [injection Hu as <-; by subst | by apply (CC env0)].
  - apply (guard_keeps s _ (links live)); try done. apply enter_tables.
Qed.

(** ** The lookups *)

(** Every entry of the jump cache is for the code that is mapped now. *)
Definition fresh (phys : Z -> Z) (s : Exec) (env : CPUCommon) : Prop :=
  forall h t b, tb_jmp_cache env !! h = Some t -> tbs s !! t = Some b -> current phys b.

(** Nothing has got into the jump caches from [s] to [s'], and the blocks that are
    still there are for the same code. *)
Definition older (s s' : Exec) : Prop :=
  length (cpus s') = length (cpus s) /\
  forall k env', cpus s' !! k = Some env' -> exists env, cpus s !! k = Some env /\
    forall h t b', tb_jmp_cache env' !! h = Some t -> tbs s' !! t = Some b' ->
      tb_jmp_cache env !! h = Some t /\ exists b, tbs s !! t = Some b /\ cview b' = cview b.

Lemma older_refl s : older s s.
Proof. split; [done|]. intros k env E. exists env. eauto. Qed.
Lemma older_trans s1 s2 s3 : older s1 s2 -> older s2 s3 -> older s1 s3.
Proof.
  intros [L1 H1] [L2 H2]. split; [congruence|]. intros k e3 E3. destruct (H2 k e3 E3) as (e2 & E2 & C2).
  destruct (H1 k e2 E2) as (e1 & E1 & C1). exists e1. split; [done|]. intros h t b3 Ht Eb3.
  destruct (C2 h t b3 Ht Eb3) as (Ht2 & b2 & Eb2 & V2). destruct (C1 h t b2 Ht2 Eb2) as (Ht1 & b1 & Eb1 & V1).
  split; [done|]. exists b1. split; [done | congruence].
Qed.

Lemma older_code s s' : cview <$> tbs s' = cview <$> tbs s -> length (cpus s') = length (cpus s) ->
  (forall k env', cpus s' !! k = Some env' -> exists env, cpus s !! k = Some env /\ tb_jmp_cache env' ⊆ tb_jmp_cache env) -> older s s'.
Proof.
  intros V L H. split; [done|]. intros k env' E'. destruct (H k env' E') as (env & E & Hs). exists env. split; [done|].
  intros h t b' Ht Eb'. split; [by eapply lookup_weaken | by apply (view_lookup cview s s')].
Qed.

Lemma older_same s s' : cview <$> tbs s' = cview <$> tbs s -> map tb_jmp_cache (cpus s') = map tb_jmp_cache (cpus s) -> older s s'.
Proof.
  intros V E. apply older_code; [done | apply (f_equal length) in E; by rewrite !length_map in E|]. intros k env' Ek.
  change (map ?f ?l) with (f <$> l) in E. assert (H : (tb_jmp_cache <$> cpus s) !! k = Some (tb_jmp_cache env')) by (rewrite <- E; by rewrite list_lookup_fmap, Ek).
  rewrite list_lookup_fmap in H. apply fmap_Some in H as (env & -> & ->). by exists env.
Qed.

Lemma older_gen s s' live t : cached s live -> caches_from (cpus s) (cpus s') -> (t ∈ live -> emptied (cpus s) (cpus s')) ->
  (forall u, u <> t -> tbs s' !! u = tbs s !! u) -> older s s'.
Proof.
  intros C J Nt O. split; [by apply caches_from_length|]. intros k env' E'.
  destruct (caches_from_at _ _ _ _ J E') as (env & E & _ & [Ej|Ej]); exists env; (split; [done|]); [|by rewrite Ej].
  intros h u b Hu Eb. rewrite <- Ej. split; [done|]. exists b. split; [|done]. rewrite <- O; [done|]. intros ->.
  destruct (decide (t ∈ live)) as [Hl|Hl].
  - destruct (emptied_at _ _ _ _ (Nt Hl) E') as (? & _ & Ee). by rewrite Ee in Hu.
  - apply Hl. rewrite Ej in Hu. by apply (c_caches _ _ C env h t); [eapply list_elem_of_lookup_2|].
Qed.

Lemma current_view phys b b' : cview b' = cview b -> current phys b -> current phys b'.
Proof.
  intros V Cu i Hi. rewrite (source_view b b' i V). injection V as V1 V2 _ _ _. rewrite V1. apply Cu. by rewrite <- V2.
Qed.

Lemma older_fresh phys s s' k env' : older s s' -> (forall env, cpus s !! k = Some env -> fresh phys s env) ->
  cpus s' !! k = Some env' -> fresh phys s' env'.
Proof.
  intros [_ H] F E h t b' Ht Eb'. destruct (H k env' E) as (env & Ek & C). destruct (C h t b' Ht Eb') as (Ht0 & b & Eb & V).
  by apply (current_view phys b b' V), (F env Ek h t b).
Qed.

(** The state of the translator between two blocks. *)
Record translator (room : Z) (s : Exec) (live : gset nat) : Prop := {
  t_cached : cached s live;
  t_codes : codes_ok s;
  t_room : room_ok s room
}.

Section Find.
Context (phys : Z -> Z) (gen : TranslationBlock -> GenResult) (room : Z) (HT : translates gen room).
Context (pc0 cs_base0 flags0 : Z) (Hpc : 0 <= pc0 < 2 ^ 32).

(** What a lookup for CPU [k] returns. *)
Record found (s : Exec) (live : gset nat) (k : nat) (t : nat) (s' : Exec) (live' : gset nat) : Prop := {
  f_translator : translator room s' live';
  f_live : t ∈ live';
  f_for : block_for phys pc0 cs_base0 flags0 s' t;
  f_old : (exists u, u ∈ live /\ block_for phys pc0 cs_base0 flags0 s u) -> live' = live;
  f_ram : same_ram (ram s) (ram s');
  f_kept : tb_invalidated_flag s' = 0 -> live ⊆ live';
  f_current : map current_tb (cpus s') = map current_tb (cpus s);
  f_fresh env : cpus s' !! k = Some env -> fresh phys s' env
}.

Lemma for_fresh s t b : tbs s !! t = Some b -> block_for phys pc0 cs_base0 flags0 s t ->
  current phys b.
Proof. intros E (b' & E' & _ & _ & _ & Cu). by assert (b' = b) as <- by congruence. Qed.

Lemma enter_fresh s k t env' : (forall env, cpus s !! k = Some env -> fresh phys s env) ->
  block_for phys pc0 cs_base0 flags0 s t -> cpus (enter s k pc0 t) !! k = Some env' -> fresh phys (enter s k pc0 t) env'.
Proof.
  intros F B. unfold enter. cbn. rewrite list_lookup_alter_eq. intros (env & E & ->)%fmap_Some h u b Hu Eb. cbn in Hu, Eb.
  rewrite lookup_insert in Hu. case_decide; [injection Hu as <-; by apply (for_fresh s t) | by apply (F env E h u)].
Qed.

Lemma find_slow_ok s live k : translator room s live -> maps_code phys (ram s) ->
  (forall env, cpus s !! k = Some env -> fresh phys s env) ->
  exists t s' live', tb_find_slow phys gen s k pc0 cs_base0 flags0 = Ok (t, s') /\ found s live k t s' live'.
Proof.
  intros [C K R] M F. unfold tb_find_slow. set (s0 := s <| tb_invalidated_flag := 0 |>).
  assert (C0 : cached s0 live) by (apply (cached_local s); try done; destruct (c_base _ _ C); by split).
  assert (K0 : codes_ok s0) by (by apply (codes_view s)). assert (R0 : room_ok s0 room) by (by apply (room_same s)).
  destruct (find_in_bucket_ok phys pc0 cs_base0 flags0 s0 live C0 M) as (o & -> & Ho). cbn [res_bind].
  destruct o as [t|]; cbn [res_bind].
  - destruct Ho as [Ht B]. exists t. fold (enter s0 k pc0 t). exists (enter s0 k pc0 t), live. split; [done|].
    assert (Ep : pc0 = block_pc s0 t).
    { destruct B as (b & E & <- & _). by rewrite (at_pc s0 t b E). }
    split; [split| done | done | done | apply same_ram_refl | done | exact (enter_current s0 k pc0 t) |].
    + rewrite Ep. by apply enter_ok.
    + by apply (codes_view s0).
    + by apply (room_same s0).
    + intros env. apply enter_fresh; [exact F | done].
  - destruct (gen_code_ok phys gen room s0 live pc0 cs_base0 flags0 0 HT M C0 K0 R0 Hpc)
      as (t & s1 & live1 & -> & L1 & N1 & C1 & K1 & R1 & S1 & J1 & _ & O1 & MD). cbn [res_bind].
    assert (B : block_for phys pc0 cs_base0 flags0 s1 t).
    { apply (made_for phys pc0 cs_base0 flags0 s1 ({[t]} ∪ live1) t 0); [done | done | set_solver | by apply (maps_same phys (ram s0)) | done]. }
    exists t. fold (enter s1 k pc0 t). exists (enter s1 k pc0 t), ({[t]} ∪ live1). split; [done|].
    assert (Ep : pc0 = block_pc s1 t).
    { destruct B as (b & E & <- & _). by rewrite (at_pc s1 t b E). }
    split; [split| set_solver | done | | done | | |].
    + rewrite Ep. apply enter_ok; [done | set_solver].
    + by apply (codes_view s1).
    + by apply (room_same s1).
    + intros (u & Hu & Bu). by destruct (Ho u Hu).
    + destruct L1 as [->|[_ Fl]]; [set_solver|]. change (tb_invalidated_flag s1 = 0 -> live ⊆ {[t]} ∪ live1). by rewrite Fl.
    + rewrite enter_current. by apply (caches_from_current (cpus s0)).
    + intros env. apply enter_fresh; [|done]. clear env. intros env Ek h u b Hu Eb.
      destruct (caches_from_at _ _ k env J1 Ek) as (env0 & E0 & _ & [Ej|Ej]); rewrite Ej in Hu; [|done].
      destruct (c_caches _ _ C0 env0 h u) as [Hul _]; [by eapply list_elem_of_lookup_2 | done|].
      destruct (decide (u = t)) as [->|Hne]; [by apply (for_fresh s1 t)|].
      rewrite O1 in Eb by done. by apply (F env0 E0 h u).
Qed.

End Find.

Lemma find_fast_ok phys gen room pc0 cs_base0 flags0 s live k env :
  translates gen room -> 0 <= pc0 < 2 ^ 32 -> translator room s live -> maps_code phys (ram s) ->
  cpus s !! k = Some env -> fresh phys s env ->
  exists t s' live', tb_find_fast phys gen s k pc0 cs_base0 flags0 = Ok (t, s') /\
    found phys room pc0 cs_base0 flags0 s live k t s' live'.
Proof.
  intros HT Hpc T M Ek F. unfold tb_find_fast. rewrite Ek. cbn [deref res_bind].
  assert (F' : forall env', cpus s !! k = Some env' -> fresh phys s env') by (intros env'; rewrite Ek; by intros [= <-]).
  destruct (tb_jmp_cache env !! tb_jmp_cache_hash_func pc0) as [t|] eqn:Et; [|by apply find_slow_ok].
  pose proof (t_cached _ _ _ T) as C.
  destruct (c_caches _ _ C env (tb_jmp_cache_hash_func pc0) t) as [Ht _]; [by eapply list_elem_of_lookup_2 | done|].
  destruct (live_at s live t (c_wired _ _ C) Ht) as (b & E & ->). cbn [res_bind].
  destruct (Z.eqb_spec (pc b) pc0) as [P1|]; [|by apply find_slow_ok].
  destruct (Z.eqb_spec (cs_base b) cs_base0) as [P2|]; [|by apply find_slow_ok].
  destruct (Z.eqb_spec (flags b) flags0) as [P3|]; [|by apply find_slow_ok]. cbn [negb orb].
  exists t, s, live. split; [done|]. split; [done | done | | done | apply same_ram_refl | done | done | done].
  exists b. split_and!; try done. by apply (F _ t b Et E).
Qed.

(** C13: The lookup before every block is right: with a jump cache that is
    up to date with the mapping of code, [tb_find_fast] always returns a block,
    the block is live and is the translation of the CPU's code (made for its
    address, segment base and flags, from the bytes at the physical addresses
    its code is mapped to now, on one page or two), a block that exists already
    is used again, and afterwards the cache, the lists and the code buffer are
    in order, also when the buffer had to be flushed for a new translation. *)
Theorem tb_find_fast_correct phys gen room pc0 cs_base0 flags0 s live k env :
  translates gen room -> 0 <= pc0 < 2 ^ 32 -> translator room s live -> maps_code phys (ram s) ->
  cpus s !! k = Some env -> fresh phys s env ->
  exists t s' live', tb_find_fast phys gen s k pc0 cs_base0 flags0 = Ok (t, s') /\
    found phys room pc0 cs_base0 flags0 s live k t s' live'.
Proof. apply find_fast_ok. Qed.

(** ** Changing the mapping of a page *)

Lemma empty_entry_page a f : f = addr_read \/ f = addr_write \/ f = addr_code -> page_start a <> tlb_page (f s_cputlb_empty_entry).
Proof.
  intros Hf E. assert (H : page_offset (page_start a) = 8); [|by rewrite page_offset_eq, page_start_eq, Z.mod_mul in H].
  rewrite E. by destruct Hf as [-> | [-> | ->]].
Qed.

Lemma flush_page_entry env a t e : t ∈ tlb_table (tlb_flush_page env a) -> t !! Z.to_nat (tlb_index (page_start a)) = Some e ->
  page_start a <> tlb_page (addr_read e) /\ page_start a <> tlb_page (addr_write e) /\ page_start a <> tlb_page (addr_code e).
Proof.
  unfold tlb_flush_page. cbn. intros (t0 & -> & _)%list_elem_of_fmap. unfold update_entry. rewrite list_lookup_alter_eq.
  intros (e0 & _ & ->)%fmap_Some.
  destruct (Z.eqb_spec (page_start a) (tlb_page (addr_read e0))), (Z.eqb_spec (page_start a) (tlb_page (addr_write e0))),
    (Z.eqb_spec (page_start a) (tlb_page (addr_code e0))); cbn [orb]; try done; split_and!; apply empty_entry_page; auto.
Qed.

Lemma page_before p a : 0 <= p < 2 ^ 32 -> u32 (page_start p + TARGET_PAGE_SIZE) = page_start a -> u32 (page_start a - TARGET_PAGE_SIZE) = page_start p.
Proof.
  intros Hp <-. rewrite page_start_eq. unfold u32. change (2 ^ 32) with 4294967296 in *. change TARGET_PAGE_SIZE with 4096.
  Z.div_mod_to_equations. lia.
Qed.

Lemma flush_page_ok phys phys' s live env a :
  cached s live -> env ∈ cpus s -> fresh phys s env ->
  (forall t b, t ∈ live -> tbs s !! t = Some b -> 0 <= pc b < 2 ^ 32) ->
  (forall x, page_start x <> page_start a -> phys' x = phys x) ->
  fresh phys' s (tlb_flush_page env a) /\
  forall t e, t ∈ tlb_table (tlb_flush_page env a) -> t !! Z.to_nat (tlb_index (page_start a)) = Some e ->
    page_start a <> tlb_page (addr_read e) /\ page_start a <> tlb_page (addr_write e) /\ page_start a <> tlb_page (addr_code e).
Proof.
  intros C He F Hr Hp. split; [|intros t e; apply flush_page_entry]. intros h t b Ht E.
  unfold tlb_flush_page in Ht. cbv zeta in Ht. apply flush_jmp_keeps in Ht as (Ht & N1 & N2). cbn [tb_jmp_cache] in Ht. destruct (c_caches _ _ C env h t He Ht) as [Hl ->].
  rewrite (at_pc s t b E) in *. pose proof (hash_func_page (pc b)) as Hh. pose proof (F _ t b Ht E) as M.
  assert (D1 : page_start (pc b) <> page_start a).
  { intros D. apply N1. by rewrite <- D, hash_page_start. }
  assert (D2 : u32 (page_start (pc b) + TARGET_PAGE_SIZE) <> page_start a).
  { intros D. apply N2. rewrite (page_before (pc b) a) by (done || by apply (Hr t)). by rewrite hash_page_start. }
  intros i Hi. rewrite (M i Hi). symmetry. apply Hp. pose proof (ad_size _ (b_addrs _ _ (c_base _ _ C) t b Hl E)).
  destruct (byte_page (pc b) i (Hr t b Hl E) ltac:(lia)) as [_ ->]. by destruct (_ <? _).
Qed.

(** When the mapping of one page changes, [tlb_flush_page] forgets what was
    known of it: no entry of the TLB is for the page any more, and no block
    whose code is on the page, or starts on the page before and may reach into
    it, is left in the CPU's jump cache, so that the cache is up to date with
    the new mapping. *)
Theorem tlb_flush_page_forgets phys phys' s live env a :
  cached s live -> env ∈ cpus s -> fresh phys s env ->
  (forall t b, t ∈ live -> tbs s !! t = Some b -> 0 <= pc b < 2 ^ 32) ->
  (forall x, page_start x <> page_start a -> phys' x = phys x) ->
  fresh phys' s (tlb_flush_page env a) /\
  forall t e, t ∈ tlb_table (tlb_flush_page env a) -> t !! Z.to_nat (tlb_index (page_start a)) = Some e ->
    page_start a <> tlb_page (addr_read e) /\ page_start a <> tlb_page (addr_write e) /\ page_start a <> tlb_page (addr_code e).
Proof. apply flush_page_ok. Qed.

End TbGen.
