(* ===== verification/TbSmc.v ===== *)
(** * Self-modifying code

    How src/s2e/qemu/exec.c notices that the guest writes to code that has been
    translated: the bitmaps of the bytes of a page with code, the invalidation
    of the blocks in a range of bytes, and the handlers for writes to pages that
    are write protected.  The state of a CPU that is in the middle of a block
    ([cpu_restore_state], [cpu_get_tb_cpu_state]) is a parameter; a store whose
    own block is invalidated does not happen, the instruction is started again. *)

From Stdlib Require Import ZifyBool.
From stdpp Require Import gmap.
From S2P Require Import Prelude Chains SoftTlb TbCache TbJumps TbLists TbInv TbGen.

Module TbSmc.
Import SoftTlb TbCache TbJumps TbLists TbInv TbGen.

(** ** Bitmaps *)

(** The loop that fills whole bytes, from byte [i] on. *)
Fixpoint fill_bytes (n : nat) (tab : list Z) (i : Z) : list Z :=
  match n with O => tab | S n => fill_bytes n (aset tab i 0xff) (i + 1) end.

Definition set_bits (tab : list Z) (start len : Z) : list Z :=
  let end_ := start + len in
  let i := Z.shiftr start 3 in
  let mask := Z.shiftl 0xff (Z.land start 7) in
  if Z.land start (Z.lnot 7) =? Z.land end_ (Z.lnot 7) then
    if start <? end_ then
      let mask := Z.land mask (Z.lnot (Z.shiftl 0xff (Z.land end_ 7))) in
      aset tab i (u8 (Z.lor (aget 0 tab i) mask))
    else tab
  else
    let tab := aset tab i (u8 (Z.lor (aget 0 tab i) mask)) in
    let start := Z.land (start + 8) (Z.lnot 7) in
    let end1 := Z.land end_ (Z.lnot 7) in
    let n := Z.shiftr (end1 - start) 3 in
    let tab := fill_bytes (Z.to_nat n) tab (i + 1) in
    if (if start <? end1 then end1 else start) <? end_ then
      let mask := Z.lnot (Z.shiftl 0xff (Z.land end_ 7)) in
      let i := i + 1 + Z.max 0 n in
      aset tab i (u8 (Z.lor (aget 0 tab i) mask))
    else tab.

(** The blocks of a page from [p] on, entered in the bitmap. *)
Fixpoint bitmap_loop (fuel : nat) (s : Exec) (p : option Ref) (bm : list Z) : Res (list Z) :=
  match fuel with
  | O => Fail Diverges
  | S fuel =>
      match p with
      | None => Ok bm
      | Some (tb, n) =>
          let* b := tb_at s tb in
          let '(tb_start, tb_end) := page_span b n in
          bitmap_loop fuel s (get2 (page_next b) n) (set_bits bm tb_start (tb_end - tb_start))
      end
  end.

Definition build_page_bitmap (s : Exec) (index : Z) : Res Exec :=
  let* p := deref (page_find s index) in
  let* bm := bitmap_loop (list_bound s) s (first_tb p) (replicate 512 0) in
  Ok (page_upd s index (fun p => p <| code_bitmap := Some bm |>)).

(** ** Invalidation of a range *)

Definition SMC_BITMAP_USE_THRESHOLD : Z := 10.
Definition CF_COUNT_MASK : Z := 0x7fff.

(** The physical addresses of the code of a block on its page [n]. *)
Definition phys_span (b : TranslationBlock) (n : Z) : Z * Z :=
  if n =? 0 then
    let tb_start := u32 (get2 (page_addr b) 0 + page_offset (pc b)) in
    (tb_start, u32 (tb_start + size b))
  else (get2 (page_addr b) 1, u32 (get2 (page_addr b) 1 + page_offset (u32 (pc b + size b)))).

Definition in_range (b : TranslationBlock) (n start end_ : Z) : bool :=
  let '(tb_start, tb_end) := phys_span b n in negb ((tb_end <=? start) || (end_ <=? tb_start)).

(** The variables of the loop: [current_tb_not_found], [current_tb] and, when
    [current_tb_modified], the state the CPU is restored to. *)
Record Current := mkCurrent {
  not_found : bool;
  current : option nat;
  modified : option (Z * Z * Z)
}.

Section Smc.
(** [irq] says whether the CPU has an interrupt request, [restore] what
    [cpu_restore_state] and [cpu_get_tb_cpu_state] find for a block. *)
Context (get_phys_addr_code : Z -> Z) (cpu_gen_code : TranslationBlock -> GenResult).
Context (irq : bool) (restore : nat -> Z * Z * Z).

(** The block the CPU is executing, for a write access. *)
Definition find_current (s : Exec) (env : option nat) (c : Current) : Res Current :=
  if not_found c then
    let* k := deref env in
    let* e := deref (cpus s !! k) in
    let* cur := if nz (mem_io_pc e) then tb_find_pc s (mem_io_pc e) else Ok None in
    Ok (mkCurrent false cur (modified c))
  else Ok c.

Definition check_current (s : Exec) (c : Current) (tb : nat) : Res Current :=
  if decide (current c = Some tb) then
    let* b := tb_at s tb in
    if negb (Z.land (cflags b) CF_COUNT_MASK =? 1) then Ok (mkCurrent (not_found c) (current c) (Some (restore tb)))
    else Ok c
  else Ok c.

(** [tb_phys_invalidate] with the CPU's current block put aside, and the
    interrupt that may have come in between. *)
Definition invalidate_aside (s : Exec) (env : option nat) (tb : nat) : Res Exec :=
  match env with
  | None => tb_phys_invalidate s tb NO_PAGE
  | Some k =>
      let* e := deref (cpus s !! k) in
      let saved_tb := current_tb e in
      let s := s <| cpus := alter (fun e => e <| current_tb := None |>) k (cpus s) |> in
      let* s := tb_phys_invalidate s tb NO_PAGE in
      let s := s <| cpus := alter (fun e => e <| current_tb := saved_tb |>) k (cpus s) |> in
      match saved_tb with
      | Some _ => if irq then cpu_unlink_tb s k else Ok s
      | None => Ok s
      end
  end.

Fixpoint range_loop (fuel : nat) (s : Exec) (env : option nat) (c : Current) (p : option Ref) (start end_ : Z)
    : Res (Current * Exec) :=
  match fuel with
  | O => Fail Diverges
  | S fuel =>
      match p with
      | None => Ok (c, s)
      | Some (tb, n) =>
          let* b := tb_at s tb in
          let tb_next := get2 (page_next b) n in
          if in_range b n start end_ then
            let* c := find_current s env c in
            let* c := check_current s c tb in
            let* s := invalidate_aside s env tb in
            range_loop fuel s env c tb_next start end_
          else range_loop fuel s env c tb_next start end_
      end
  end.

(** The result says whether the CPU is restarted at the beginning of the
    instruction ([cpu_resume_from_signal]). *)
Definition tb_invalidate_phys_page_range (s : Exec) (env : option nat) (start end_ : Z) (is_cpu_write_access : bool)
    : Res (bool * Exec) :=
  let index := Z.shiftr start TARGET_PAGE_BITS in
  match page_find s index with
  | None => Ok (false, s)
  | Some p =>
      let* s :=
        match code_bitmap p with
        | Some _ => Ok s
        | None =>
            let s := page_upd s index (fun p => p <| code_write_count := u32 (code_write_count p + 1) |>) in
            if (SMC_BITMAP_USE_THRESHOLD <=? u32 (code_write_count p + 1)) && is_cpu_write_access
            then build_page_bitmap s index else Ok s
        end in
      let* (c, s) := range_loop (list_bound s) s env (mkCurrent is_cpu_write_access None None) (first_tb p) start end_ in
      let* p := deref (page_find s index) in
      let* s :=
        match first_tb p with
        | Some _ => Ok s
        | None =>
            let s := page_upd s index invalidate_page_bitmap in
            if is_cpu_write_access then
              let* _ := deref env in
              Ok (s <| ram := tlb_unprotect_code_phys (ram s) start |>)
            else Ok s
        end in
      match modified c with
      | None => Ok (false, s)
      | Some (pc0, cs_base0, flags0) =>
          let* k := deref env in
          let s := s <| cpus := alter (fun e => e <| current_tb := None |>) k (cpus s) |> in
          let* (_, s) := tb_gen_code get_phys_addr_code cpu_gen_code s pc0 cs_base0 flags0 1 in
          Ok (true, s)
      end
  end.

Definition tb_invalidate_phys_page_fast (s : Exec) (env : option nat) (start len : Z) : Res (bool * Exec) :=
  match page_find s (Z.shiftr start TARGET_PAGE_BITS) with
  | None => Ok (false, s)
  | Some p =>
      match code_bitmap p with
      | Some bm =>
          let offset := page_offset start in
          let b := Z.shiftr (aget 0 bm (Z.shiftr offset 3)) (Z.land offset 7) in
          if nz (Z.land b (Z.shiftl 1 len - 1)) then tb_invalidate_phys_page_range s env start (start + len) true
          else Ok (false, s)
      | None => tb_invalidate_phys_page_range s env start (start + len) true
      end
  end.

(** ** Writes to pages that are not dirty *)

(** The code common to the handlers: the invalidation of [len] bytes, and the
    dirty flags after it. *)
Definition notdirty_invalidate (s : Exec) (k : nat) (ram_addr len : Z) : Res (bool * Exec) :=
  if negb (nz (Z.land (dirty_flags_of (ram s) ram_addr) CODE_DIRTY_FLAG))
  then tb_invalidate_phys_page_fast s (Some k) ram_addr len
  else Ok (false, s).

Definition notdirty_dirty (s : Exec) (k : nat) (ram_addr : Z) : Res Exec :=
  let dirty_flags := Z.lor (dirty_flags_of (ram s) ram_addr) (Z.land 0xff (Z.lnot CODE_DIRTY_FLAG)) in
  let s := s <| ram := set_dirty_flags (ram s) ram_addr dirty_flags |> in
  if dirty_flags =? 0xff then
    let* e := deref (cpus s !! k) in
    Ok (s <| cpus := alter (fun e => tlb_set_dirty e (mem_io_vaddr e)) k (cpus s) |>)
  else Ok s.

(** [notdirty_mem_writeb], [notdirty_mem_writew] and [notdirty_mem_writel], with
    [len] 1, 2 and 4; the store itself, at the pointer [qemu_get_ram_ptr] finds,
    is not modelled.  [true] when the store has not happened. *)
Definition notdirty_mem_write (s : Exec) (k : nat) (ram_addr len : Z) : Res (bool * Exec) :=
  let* (resumed, s) := notdirty_invalidate s k ram_addr len in
  if resumed then Ok (true, s)
  else
    let '(p, bs) := qemu_get_ram_ptr (ram_blocks (ram s)) ram_addr in
    let s := s <| ram := (ram s) <| ram_blocks := bs |> |> in
    if p =? 0 then Fail NullDeref
    else
      let* s := notdirty_dirty s k ram_addr in
      Ok (false, s).

(** The handler S2E's stores use, for every size: the pointer to store at. *)
Definition s2e_notdirty_mem_write (s : Exec) (k : nat) (ram_addr : Z) : Res (option Z * Exec) :=
  let* (resumed, s) := notdirty_invalidate s k ram_addr 4 in
  if resumed then Ok (None, s)
  else
    let* s := notdirty_dirty s k ram_addr in
    let '(p, bs) := qemu_get_ram_ptr (ram_blocks (ram s)) ram_addr in
    Ok (Some p, s <| ram := (ram s) <| ram_blocks := bs |> |>).

End Smc.

(** ** The bits [set_bits] sets *)

Lemma land_not7 x : Z.land x (Z.lnot 7) = x / 8 * 8.
Proof.
  change 7 with (Z.ones 3). rewrite <- Z.ldiff_land, Z.ldiff_ones_r by lia.
  by rewrite Z.shiftl_mul_pow2, Z.shiftr_div_pow2 by lia.
Qed.
Lemma shiftr_3 x : Z.shiftr x 3 = x / 8.
Proof. by rewrite Z.shiftr_div_pow2 by lia. Qed.

Lemma mask_bit s j : 0 <= s < 8 -> 0 <= j < 8 -> Z.testbit (Z.shiftl 0xff s) j = (s <=? j).
Proof.
  intros Hs Hj. change 0xff with (Z.ones 8). rewrite Z.shiftl_spec by lia. destruct (Z.leb_spec s j).
  - rewrite Z.testbit_ones_nonneg by lia. apply Z.ltb_lt. lia.
  - apply Z.testbit_neg_r. lia.
Qed.
Lemma u8_bit x j : 0 <= j < 8 -> Z.testbit (u8 x) j = Z.testbit x j.
Proof. intros Hj. unfold u8. change 256 with (2 ^ 8). apply Z.mod_pow2_bits_low. lia. Qed.

Lemma bitmap_aset bm i v k : 0 <= i < Z.of_nat (length bm) -> 0 <= k ->
  bitmap_bit (aset bm i v) k = if decide (k / 8 = i) then Z.testbit v (k mod 8) else bitmap_bit bm k.
Proof.
  intros Hi Hk. unfold bitmap_bit. change (nth ?n ?l 0) with (nth n l 0). fold (aget 0 (aset bm i v) (k / 8)). fold (aget 0 bm (k / 8)).
  case_decide as D; [subst; by rewrite aget_aset_eq|]. rewrite aget_aset_ne; [done | lia | by apply Z.div_pos | congruence].
Qed.

Lemma bit_fill n bm i k : 0 <= i -> i + Z.of_nat n <= Z.of_nat (length bm) -> 0 <= k ->
  bitmap_bit (fill_bytes n bm i) k = ((i <=? k / 8) && (k / 8 <? i + Z.of_nat n)) || bitmap_bit bm k.
Proof.
  revert bm i. induction n as [|n IH]; intros bm i Hi Hl Hk; cbn [fill_bytes].
  - replace ((i <=? k / 8) && (k / 8 <? i + Z.of_nat 0)) with false by lia. done.
  - rewrite IH by (rewrite ?aset_length; lia). rewrite bitmap_aset by lia. case_decide as D.
    + assert (Z.testbit 0xff (k mod 8) = true) as ->; [|rewrite orb_true_r; lia].
      change 0xff with (Z.ones 8). pose proof (Z.mod_pos_bound k 8 ltac:(done)). rewrite Z.testbit_ones_nonneg by lia. lia.
    + f_equal. lia.
Qed.

Lemma fill_length n bm i : length (fill_bytes n bm i) = length bm.
Proof. revert bm i. induction n as [|n IH]; intros bm i; [done|]. cbn. by rewrite IH, aset_length. Qed.

Lemma set_bits_length bm start len : length (set_bits bm start len) = length bm.
Proof.
  unfold set_bits. destruct (Z.land start (Z.lnot 7) =? _); [destruct (start <? _); [apply aset_length | done]|].
  cbv zeta. destruct ((if _ <? _ then _ else _) <? _); by rewrite ?aset_length, ?fill_length, ?aset_length.
Qed.

Lemma set_bits_bit bm start len k : length bm = 512%nat -> 0 <= start -> 0 <= len -> start + len <= 4096 -> 0 <= k < 4096 ->
  bitmap_bit (set_bits bm start len) k = ((start <=? k) && (k <? start + len)) || bitmap_bit bm k.
Proof.
  intros Hl H0 H1 H2 Hk. unfold set_bits. rewrite !land_not7, !land_7, !shiftr_3. set (e := start + len) in *.
  assert (Hb : forall x, 0 <= x -> 0 <= x / 8 /\ 0 <= x mod 8 < 8 /\ x = 8 * (x / 8) + x mod 8).
  { intros x Hx. pose proof (Z.div_mod x 8 ltac:(done)). pose proof (Z.mod_pos_bound x 8 ltac:(done)). pose proof (Z.div_pos x 8). lia. }
  destruct (Hb start H0) as (S1 & S2 & S3), (Hb e ltac:(lia)) as (E1 & E2 & E3), (Hb k ltac:(lia)) as (K1 & K2 & K3).
  assert (B : forall i, aget 0 bm i = nth (Z.to_nat i) bm 0) by done.
  destruct (Z.eqb_spec (start / 8 * 8) (e / 8 * 8)) as [D|D].
  - destruct (Z.ltb_spec start e) as [L|L].
    + rewrite bitmap_aset by lia. case_decide as Dk; [|destruct (Z.leb_spec start k), (Z.ltb_spec k e); cbn; done || lia].
      rewrite u8_bit, Z.lor_spec, Z.land_spec, Z.lnot_spec, !mask_bit by lia. unfold bitmap_bit. rewrite Dk, orb_comm. f_equal. lia.
    + replace ((start <=? k) && (k <? e)) with false by lia. done.
  - set (st := (start + 8) / 8 * 8). assert (Hst : st = (start / 8 + 1) * 8).
    { unfold st. replace (start + 8) with (start + 1 * 8) by lia. by rewrite Z.div_add. }
    replace (e / 8 * 8 - st) with ((e / 8 - start / 8 - 1) * 8) by lia. rewrite Z.div_mul by lia. set (n := e / 8 - start / 8 - 1).
    assert (Hn : 0 <= n) by lia. set (bm1 := aset bm _ _). assert (L1 : length bm1 = 512%nat) by (unfold bm1; by rewrite aset_length).
    set (bm2 := fill_bytes _ _ _).
    assert (B2 : bitmap_bit bm2 k = ((start <=? k) && (k <? e / 8 * 8)) || bitmap_bit bm k).
    { unfold bm2. rewrite bit_fill by (rewrite ?L1; lia). unfold bm1. rewrite bitmap_aset by lia. case_decide as Dk.
      - rewrite u8_bit, Z.lor_spec, mask_bit by lia. unfold bitmap_bit. rewrite Dk.
        fold (aget 0 bm (start / 8)). destruct (Z.testbit (aget 0 bm (start / 8)) (k mod 8)); lia.
      - f_equal. lia. }
    replace (if st <? e / 8 * 8 then e / 8 * 8 else st) with (e / 8 * 8) by (destruct (Z.ltb_spec st (e / 8 * 8)); lia).
    destruct (Z.ltb_spec (e / 8 * 8) e) as [L|L].
    + replace (start / 8 + 1 + Z.max 0 n) with (e / 8) by lia. rewrite bitmap_aset by (unfold bm2; rewrite ?fill_length, ?L1; lia).
      case_decide as Dk; [|rewrite B2; f_equal; lia].
      rewrite u8_bit, Z.lor_spec, Z.lnot_spec, mask_bit by lia.
      assert (Z.testbit (aget 0 bm2 (e / 8)) (k mod 8) = bitmap_bit bm2 k) as -> by (unfold bitmap_bit; by rewrite Dk).
      rewrite B2. destruct (bitmap_bit bm k); lia.
    + rewrite B2. f_equal. lia.
Qed.

(** ** The bitmap of a page *)

Lemma span_bounds b n : addrs_ok b -> 0 <= (page_span b n).1 <= (page_span b n).2 /\ (page_span b n).2 <= 4096.
Proof.
  intros A. pose proof (ad_size _ A). unfold page_span. change TARGET_PAGE_SIZE with 4096. rewrite !page_offset_eq.
  pose proof (Z.mod_pos_bound (pc b) 4096 ltac:(done)). pose proof (Z.mod_pos_bound (u32 (pc b + size b)) 4096 ltac:(done)).
  destruct (n =? 0); cbn; [destruct (Z.ltb_spec 4096 (pc b mod 4096 + size b))|]; lia.
Qed.

Lemma covers_span s t n b k : tbs s !! t = Some b -> covers s k (t, n) = ((page_span b n).1 <=? k) && (k <? (page_span b n).2).
Proof. intros E. unfold covers. cbn [fst snd]. rewrite E. by destruct (page_span b n). Qed.

(** The rest of a page list, from a pointer to one of its links on. *)
Definition rest_of (s : Exec) (p : option Ref) (l : list Ref) : Prop :=
  chain (plink (next_of s) (first_of s)) (pref <$> p) None (pref <$> l).

Lemma rest_cons s p t n l : rest_of s p ((t, n) :: l) -> p = Some (t, n) /\
  forall b, tbs s !! t = Some b -> rest_of s (get2 (page_next b) n) l.
Proof.
  intros [E C]. split.
  - destruct p as [[u m]|]; [|done]. by injection E as -> ->.
  - intros b Eb. unfold rest_of. change (pref (t, n)) with (PageNext t n) in C.
    assert (plink (next_of s) (first_of s) (PageNext t n) = pref <$> get2 (page_next b) n) as Ex; [|by rewrite Ex in C].
    unfold plink, next_of. by rewrite (view_at page_next s t b Eb).
Qed.
Lemma rest_nil s p : rest_of s p [] -> p = None.
Proof. by destruct p. Qed.
Lemma listed_rest s k l : listed s k l -> rest_of s (first_of s k) l.
Proof. done. Qed.

Lemma bitmap_loop_ok fuel s p l bm : rest_of s p l ->
  (forall r, r ∈ l -> exists b, tbs s !! r.1 = Some b /\ addrs_ok b) -> length bm = 512%nat -> (length l < fuel)%nat ->
  exists bm', bitmap_loop fuel s p bm = Ok bm' /\ length bm' = 512%nat /\
    forall k, 0 <= k < 4096 -> bitmap_bit bm' k = existsb (covers s k) l || bitmap_bit bm k.
Proof.
  revert fuel p bm. induction l as [|[t n] l IH]; intros [|fuel] p bm R A Hl F; cbn in F; try lia; cbn [bitmap_loop].
  - rewrite (rest_nil s p R). exists bm. split_and!; done.
  - destruct (rest_cons s p t n l R) as [-> R']. destruct (A (t, n)) as (b & E & Ab); [by left|]. cbn in E.
    unfold tb_at. rewrite E. cbn [res_bind]. pose proof (span_bounds b n Ab) as Hs.
    destruct (page_span b n) as [a e] eqn:Es. cbn [fst snd] in Hs.
    destruct (IH fuel (get2 (page_next b) n) (set_bits bm a (e - a))) as (bm' & -> & L' & B'); [by apply R' | | | lia|].
    + intros r Hr. apply A. by right.
    + by rewrite set_bits_length.
    + exists bm'. split_and!; [done | done|]. intros k Hk. rewrite B', set_bits_bit by (done || lia).
      cbn [existsb]. rewrite (covers_span s t n b) by done. rewrite Es. cbn [fst snd]. replace (a + (e - a)) with e by lia.
      destruct (existsb _ _), (bitmap_bit bm k); cbn; rewrite ?orb_true_r, ?orb_false_r; done.
Qed.

Lemma zero_bits k : bitmap_bit (replicate 512 0) k = false.
Proof.
  unfold bitmap_bit. destruct (decide (Z.to_nat (k / 8) < 512)%nat).
  - rewrite nth_lookup, lookup_replicate_2 by done. apply Z.testbit_0_l.
  - rewrite nth_overflow by (rewrite length_replicate; lia). apply Z.testbit_0_l.
Qed.

Lemma list_of s live k : cached s live -> exists l, listed s k l /\ (length l < list_bound s)%nat /\
  forall r, r ∈ l <-> links live r /\ block_page s r = Some k.
Proof.
  intros C. destruct (c_page _ _ C) as (P & W & _). exists (P k). split; [apply (p_chain _ _ _ _ _ W)|]. split.
  - pose proof (page_list_short s _ _ _ P k W). lia.
  - intros r. rewrite (p_elem _ _ _ _ _ W). split; intros [H1 H2]; [tauto|]. split_and!; [done | congruence | done].
Qed.

Lemma live_block s live t : cached s live -> t ∈ live -> exists b, tbs s !! t = Some b /\ addrs_ok b.
Proof.
  intros C Ht. destruct (live_at s live t (c_wired _ _ C) Ht) as (b & E & _). exists b. split; [done|].
  by apply (b_addrs _ _ (c_base _ _ C) t).
Qed.

(** A change of one page that keeps its list. *)
Lemma cached_page s live i f : cached s live -> (forall p, first_tb (f p) = first_tb p) ->
  (forall p bm l, page_find s i = Some p -> code_bitmap (f p) = Some bm -> listed s i l ->
    (forall bm', code_bitmap p = Some bm' -> bitmap_for s l bm') -> bitmap_for s l bm) ->
  cached (page_upd s i f) live.
Proof.
  intros [CB CW CH (P & W & B) CC CM CG] Hf Hb.
  assert (Ef : forall k, first_of (page_upd s i f) k = first_of s k).
  { intros k. unfold first_of. rewrite page_find_upd. case_decide; [|done]. subst. destruct (page_find s k); [apply Hf | done]. }
  split; try done.
  - destruct CB. split; try done. intros k l. by apply page_upd_l2.
  - by apply (wired_local s).
  - exists P. split; [eapply paged_ext; [exact W | done | done | done]|].
    intros k p bm Ep Eb. change (bitmap_for s (P k) bm). rewrite page_find_upd in Ep. destruct (decide (i = k)) as [<-|]; [|by apply (B k p)].
    apply fmap_Some in Ep as (p0 & E0 & ->). apply (Hb p0); [done | done | apply (p_chain _ _ _ _ _ W)|]. intros bm'. by apply B.
Qed.

Lemma build_bitmap_ok s live i p : cached s live -> page_find s i = Some p ->
  exists bm, build_page_bitmap s i = Ok (page_upd s i (fun p => p <| code_bitmap := Some bm |>)) /\
    cached (page_upd s i (fun p => p <| code_bitmap := Some bm |>)) live.
Proof.
  intros C Ep. destruct (list_of s live i C) as (l & L & Hl & He). unfold build_page_bitmap. rewrite Ep. cbn [deref res_bind].
  destruct (bitmap_loop_ok (list_bound s) s (first_tb p) l (replicate 512 0)) as (bm & -> & L1 & B1).
  - pose proof (listed_rest s i l L) as R. unfold first_of in R. by rewrite Ep in R.
  - intros r [[Hr _] _]%He. by apply (live_block s live).
  - apply length_replicate.
  - done.
  - exists bm. split; [done|]. apply cached_page; [done | done|]. intros p0 bm0 l0 _ [= <-] L0 _.
    assert (l0 = l) as ->.
    { destruct (c_page _ _ C) as (P & W & _). by rewrite (listed_paged s _ _ P i l0 W L0), (listed_paged s _ _ P i l W L). }
    split; [done|]. intros k Hk. by rewrite B1, zero_bits, orb_false_r.
Qed.

(** ** Changes that keep the lists *)

Lemma cached_frame s s' live : cached s live -> jmp_frame s s' -> Wired s' live -> cached s' live.
Proof.
  intros [CB CW CH CP CC CM CG] F W. destruct (frame_views s s' F) as (V & N & H & _). destruct F as [E F].
  assert (R : nb_tbs s' = nb_tbs s /\ code_gen_max_blocks s' = code_gen_max_blocks s /\ l1_map s' = l1_map s /\ cpus s' = cpus s /\ ram s' = ram s)
    by (by rewrite E).
  destruct R as (R1 & R2 & R3 & R4 & R5). split.
  - apply (base_keeps s s' live live); [done | done | done | done | done | rewrite R3; apply (b_l2 _ _ CB)].
  - done.
  - by apply (hash_keeps s).
  - apply (page_keeps s); [done | done | intros i; unfold page_find; by rewrite R3 | done].
  - by apply (caches_keeps s).
  - by rewrite R5.
  - apply (guard_keeps s s' (links live)); try done. by rewrite R4.
Qed.

(** Another current block of a CPU. *)
Definition set_current (s : Exec) (k : nat) (c : option nat) : Exec :=
  s <| cpus := alter (fun e => e <| current_tb := c |>) k (cpus s) |>.

Lemma set_current_ok s live k c : cached s live -> cached (set_current s k c) live.
Proof.
  intros C. apply (cached_local s); try done; [destruct (c_base _ _ C); by split | by apply alter_field | by apply alter_field].
Qed.

(** A block that is not live, from which nothing is chained. *)
Definition detached (s : Exec) (t : nat) : Prop :=
  (t < length (tbs s))%nat /\ link s (t, 0) = None /\ link s (t, 1) = None.

Lemma unchain_detached s t n : (t < length (tbs s))%nat -> is_jump (t, n) -> link s (t, n) = None -> unchain s t n = Ok (None, s).
Proof.
  intros Ht J E. destruct (jump_next s (t, n) J Ht) as (b & A & El). unfold unchain. cbn [fst] in A. rewrite A. cbn.
  cbn in El. by rewrite El, E.
Qed.

Lemma recursive_detached fuel s t : detached s t -> tb_reset_jump_recursive (S fuel) s t = Ok s.
Proof.
  intros (Ht & L0 & L1). cbn [tb_reset_jump_recursive].
  rewrite (unchain_detached s t 0) by (done || by left). cbn [res_bind].
  rewrite (unchain_detached s t 1) by (done || by right). done.
Qed.

(** The current block of the CPU is live, or not chained to anything. *)
Definition cpu_ok (s : Exec) (live : gset nat) (env : option nat) : Prop :=
  forall k, env = Some k -> exists e, cpus s !! k = Some e /\ forall t, current_tb e = Some t -> t ∈ live \/ detached s t.

(** The TLB of a CPU and the address of its last access. *)
Definition io_view (e : CPUCommon) := (tlb_table e, mem_io_vaddr e).

(** What invalidation keeps. *)
Record trimmed (s s' : Exec) : Prop := {
  tm_code : cview <$> tbs s' = cview <$> tbs s;
  tm_tc : tc_ptr <$> tbs s' = tc_ptr <$> tbs s;
  tm_ram : ram s' = ram s;
  tm_io : map io_view (cpus s') = map io_view (cpus s);
  tm_older : older s s';
  tm_pages i : is_Some (page_find s i) -> is_Some (page_find s' i);
  tm_gen : nb_tbs s' = nb_tbs s /\ code_gen_max_blocks s' = code_gen_max_blocks s /\ code_gen_ptr s' = code_gen_ptr s /\
    code_gen_buffer s' = code_gen_buffer s /\ code_gen_buffer_size s' = code_gen_buffer_size s /\
    code_gen_buffer_max_size s' = code_gen_buffer_max_size s
}.

Lemma tm_cpus s s' : trimmed s s' -> length (cpus s') = length (cpus s).
Proof. intros T. apply (tm_older _ _ T). Qed.
Lemma trimmed_refl s : trimmed s s.
Proof. split; try done. apply older_refl. Qed.
Lemma trimmed_trans s1 s2 s3 : trimmed s1 s2 -> trimmed s2 s3 -> trimmed s1 s3.
Proof.
  intros [? ? ? ? O1 P1 ?] [? ? ? ? O2 P2 ?]. split; try congruence; [by eapply older_trans | auto|]. naive_solver congruence.
Qed.
Lemma trimmed_codes s s' : trimmed s s' -> codes_ok s -> codes_ok s'.
Proof. intros [_ T _ _ _ _ (? & ? & ? & ? & ? & ?)] K. by apply (codes_view s). Qed.
Lemma trimmed_room s s' room : trimmed s s' -> room_ok s room -> room_ok s' room.
Proof. intros [_ _ _ _ _ _ (? & ? & ? & ? & ? & ?)] K. by apply (room_same s). Qed.
Lemma trimmed_frame s s' : jmp_frame s s' -> trimmed s s'.
Proof. intros F. destruct (frame_views s s' F) as (V & _ & _ & T). destruct F as [E _]. split; [done | done | by rewrite E | by rewrite E | apply older_same; [done | by rewrite E] | by rewrite E..]. Qed.
Lemma trimmed_current s k c : trimmed s (set_current s k c).
Proof. split; try done; [by apply alter_field | apply older_same; [done | by apply alter_field]]. Qed.

Lemma forget_older cs t h k e' (f := fun e => if decide (tb_jmp_cache e !! h = Some t) then e <| tb_jmp_cache := delete h (tb_jmp_cache e) |> else e) :
  map f cs !! k = Some e' -> exists e, cs !! k = Some e /\ tb_jmp_cache e' ⊆ tb_jmp_cache e.
Proof.
  change (map f cs) with (f <$> cs). rewrite list_lookup_fmap. intros (e & Ek & ->)%fmap_Some. exists e. split; [done|].
  unfold f. case_decide; [apply delete_subseteq | done].
Qed.

Lemma forget_io s t h : map io_view (cpus (forget_in_caches s t h)) = map io_view (cpus s).
Proof. unfold forget_in_caches. cbn. rewrite map_map. apply map_ext. intros e. by case_decide. Qed.

Lemma trimmed_invalidated s s' live t : invalidated s s' live t -> trimmed s s'.
Proof.
  intros [H1 H2 H3 H4 _ H5 _ _ _]. split; [done | done | by rewrite H3 | by rewrite H4, forget_io | | done | by rewrite H3].
  apply older_code; [done | rewrite H4; apply length_map|]. intros k e'. rewrite H4. apply forget_older.
Qed.

(** [s'] has the page lists of [s]. *)
Definition same_lists (s s' : Exec) : Prop := next_of s' = next_of s /\ forall i, page_find s' i = page_find s i.

Lemma same_listed s s' k l : same_lists s s' -> listed s k l -> listed s' k l.
Proof. intros [E1 E2]. apply listed_same; [done|]. intros i. unfold first_of. by rewrite E2. Qed.

Lemma current_at s k c e : cpus s !! k = Some e -> cpus (set_current s k c) !! k = Some (e <| current_tb := c |>).
Proof. intros E. unfold set_current. cbn. by rewrite list_lookup_alter_eq, E. Qed.

Lemma cpu_unlink_ok s live k : cached s live -> cpu_ok s live (Some k) ->
  exists s', cpu_unlink_tb s k = Ok s' /\ cached s' live /\ cpu_ok s' live (Some k) /\ trimmed s s' /\ same_lists s s'.
Proof.
  intros C Hc. destruct (Hc k eq_refl) as (e & Ek & Ht). unfold cpu_unlink_tb. rewrite Ek.
  destruct (current_tb e) as [t|] eqn:Et; [|exists s; split_and!; [done | done | done | apply trimmed_refl | done]].
  change (s <| cpus := alter (fun env => env <| current_tb := None |>) k (cpus s) |>) with (set_current s k None).
  set (s0 := set_current s k None). pose proof (set_current_ok s live k None C) as C0. fold s0 in C0.
  assert (E0 : forall s', cpus s' = cpus s0 -> cpu_ok s' live (Some k)).
  { intros s' Es k' [= <-]. exists (e <| current_tb := None |>). rewrite Es. split; [by apply current_at | done]. }
  assert (T0 : trimmed s s0) by apply trimmed_current.
  destruct (Ht t eq_refl) as [Hl|Hd].
  - destruct (recursive_ok (list_bound s0) s0 live t (c_wired _ _ C0) Hl (chained_bound s0)) as (s' & -> & W' & F & _).
    destruct F as [F _]. exists s'. split_and!; [done | by apply (cached_frame s0) | | |].
    + apply E0. destruct F as [-> _]. done.
    + eapply trimmed_trans; [done | by apply trimmed_frame].
    + destruct (frame_views s0 s' F) as (_ & N & _). destruct F as [E _]. split; [exact N | intros i; by rewrite E].
  - unfold list_bound. rewrite recursive_detached by exact Hd. exists s0. split_and!; [done | done | by apply E0 | done | done].
Qed.

Lemma invalidate_aside_ok irq s live env t : cached s live -> t ∈ live -> cpu_ok s live env ->
  exists s', invalidate_aside irq s env t = Ok s' /\ cached s' (live ∖ {[t]}) /\ cpu_ok s' (live ∖ {[t]}) env /\ trimmed s s' /\
    forall k l, listed s k l -> listed s' k (filter (fun y => y.1 <> t) l).
Proof.
  intros C Ht Hc. unfold invalidate_aside. destruct env as [k|].
  - destruct (Hc k eq_refl) as (e & Ek & He). rewrite Ek. cbn [deref res_bind].
    change (s <| cpus := alter (fun e => e <| current_tb := None |>) k (cpus s) |>) with (set_current s k None).
    set (s0 := set_current s k None). pose proof (set_current_ok s live k None C) as C0. fold s0 in C0.
    destruct (invalidate_ok s0 live t C0 Ht) as (s1 & -> & C1 & I1). cbn [res_bind].
    change (s1 <| cpus := alter (fun e0 => e0 <| current_tb := current_tb e |>) k (cpus s1) |>) with (set_current s1 k (current_tb e)).
    set (s2 := set_current s1 k (current_tb e)). pose proof (set_current_ok s1 _ k (current_tb e) C1) as C2. fold s2 in C2.
    assert (T2 : trimmed s s2).
    { eapply trimmed_trans; [apply trimmed_current|]. eapply trimmed_trans; [by eapply trimmed_invalidated | apply trimmed_current]. }
    assert (Hc2 : cpu_ok s2 (live ∖ {[t]}) (Some k)).
    { intros k' [= <-]. destruct (lookup_lt_is_Some_2 (cpus s1) k) as [e1 E1].
      { rewrite (tm_cpus _ _ (trimmed_invalidated _ _ _ _ I1)). unfold s0, set_current. cbn. rewrite length_alter. by apply lookup_lt_Some in Ek. }
      exists (e1 <| current_tb := current_tb e |>). split; [by apply current_at|]. cbn. intros u Eu.
      destruct (decide (u ∈ live)) as [Hu|Hu].
      - destruct (decide (u = t)) as [->|]; [right | left; set_solver]. split; [|split; apply (i_dead _ _ _ _ I1); by (left + right)].
        change ((t < length (tbs s1))%nat). rewrite (view_length cview s0 s1 (i_code _ _ _ _ I1)).
        destruct (live_block s live t C Ht) as (b & Eb & _). by apply lookup_lt_Some in Eb.
      - right. destruct (He u Eu) as [?|(H1 & H2 & H3)]; [done|]. split; [|split].
        + change ((u < length (tbs s1))%nat). by rewrite (view_length cview s0 s1 (i_code _ _ _ _ I1)).
        + change (link s1 (u, 0) = None). rewrite (i_others _ _ _ _ I1); [done | by left | done].
        + change (link s1 (u, 1) = None). rewrite (i_others _ _ _ _ I1); [done | by right; left | done]. }
    assert (L2 : forall k l, listed s k l -> listed s2 k (filter (fun y => y.1 <> t) l)) by (intros j l Hl; exact (i_lists _ _ _ _ I1 j l Hl)).
    destruct (current_tb e); [destruct irq|]; [|by exists s2..].
    destruct (cpu_unlink_ok s2 _ k C2 Hc2) as (s3 & -> & C3 & Hc3 & T3 & S3).
    exists s3. split_and!; [done | done | done | by eapply trimmed_trans|]. intros j l Hl. apply (same_listed s2); [done | by apply L2].
  - destruct (invalidate_ok s live t C Ht) as (s1 & -> & C1 & I1). exists s1.
    split_and!; [done | done | done | by eapply trimmed_invalidated | apply (i_lists _ _ _ _ I1)].
Qed.

(** ** The loop over the blocks of a page *)

Lemma find_pc_total s live p : cached s live -> codes_ok s -> exists o, tb_find_pc s p = Ok o.
Proof.
  intros C K. unfold tb_find_pc. destruct (Z.leb_spec (nb_tbs s) 0); [by eexists|].
  destruct ((p <? code_gen_buffer s) || (code_gen_ptr s <=? p)) eqn:D; [by eexists|].
  pose proof (b_nb _ _ (c_base _ _ C)). pose proof (b_length _ _ (c_base _ _ C)).
  destruct (find_loop_ok (S (Z.to_nat (nb_tbs s))) s p 0 (nb_tbs s - 1)) as (t & b & -> & _); try done; try lia. by eexists.
Qed.

Lemma find_current_ok s live env c : cached s live -> codes_ok s -> cpu_ok s live env -> (not_found c = true -> env <> None) ->
  exists c', find_current s env c = Ok c' /\ not_found c' = false /\ (not_found c = false -> c' = c) /\ modified c' = modified c.
Proof.
  intros C K Hc Hn. unfold find_current. destruct (not_found c) eqn:E; [|by exists c].
  destruct env as [k|]; [|by destruct Hn]. cbn [deref res_bind]. destruct (Hc k eq_refl) as (e & -> & _). cbn [deref res_bind].
  destruct (nz (mem_io_pc e)); [|by eexists]. destruct (find_pc_total s live (mem_io_pc e) C K) as [o ->]. by eexists.
Qed.

Lemma check_current_ok restore s live c t : cached s live -> t ∈ live ->
  exists c', check_current restore s c t = Ok c' /\ not_found c' = not_found c /\ (current c = None -> c' = c) /\
    (modified c' = modified c \/ modified c' = Some (restore t)).
Proof.
  intros C Ht. unfold check_current. case_decide; [|by exists c; auto].
  destruct (live_at s live t (c_wired _ _ C) Ht) as (b & _ & ->). cbn [res_bind]. destruct (negb _); eexists; split_and!; try done; try congruence; by (left + right).
Qed.

Definition hits (s : Exec) (start end_ : Z) (r : Ref) : bool :=
  match tbs s !! r.1 with Some b => in_range b r.2 start end_ | None => false end.

Lemma hits_view s s' a e r : cview <$> tbs s' = cview <$> tbs s -> hits s' a e r = hits s a e r.
Proof.
  intros E. unfold hits. destruct (tbs s' !! r.1) as [b'|] eqn:E'.
  - destruct (view_lookup cview s s' r.1 b' E E') as (b & -> & V). injection V as V1 V2 V3 _ _. unfold in_range, phys_span. by rewrite V1, V2, V3.
  - apply lookup_ge_None in E'. rewrite (view_length cview s s' E) in E'. by apply lookup_ge_None in E' as ->.
Qed.

Lemma rest_transfer s s' i p l0 l : rest_of s p l -> listed s' i (l0 ++ l) -> rest_of s' p l.
Proof.
  intros R L. unfold listed in L. rewrite fmap_app in L. apply chain_app in L as (mid & _ & L). unfold rest_of in *.
  destruct l as [|r l]; cbn in R, L |- *; [done|]. destruct R as [-> _], L as [_ L]. done.
Qed.

(** No block is on page [i] twice. *)
Definition once (s : Exec) (live : gset nat) (i : Z) : Prop :=
  forall t, t ∈ live -> block_page s (t, 0) = Some i -> block_page s (t, 1) = Some i -> False.

Lemma filter_all_elem {A} (P : A -> Prop) `{!forall x, Decision (P x)} (l : list A) : (forall x, x ∈ l -> P x) -> filter P l = l.
Proof.
  induction l as [|x l IH]; intros H0; [done|]. rewrite filter_cons_True by (apply H0; by left). f_equal. apply IH.
  intros y Hy. apply H0. by right.
Qed.

Lemma once_filter s live i l0 t n l : cached s live -> once s live i -> listed s i (l0 ++ (t, n) :: l) -> filter (fun y => y.1 <> t) l = l.
Proof.
  intros C O L. destruct (c_page _ _ C) as (P & W & _). pose proof (listed_paged s _ _ P i _ W L) as E.
  pose proof (p_nodup _ _ _ _ _ W i) as N. rewrite <- E in N. apply list.NoDup_app in N as (_ & _ & N). apply list.NoDup_cons in N as [N _].
  assert (M : forall r, r ∈ (t, n) :: l -> links live r /\ block_page s r = Some i).
  { intros r Hr. assert (Hi : r ∈ P i) by (rewrite <- E; set_solver). apply (p_elem _ _ _ _ _ W) in Hi. tauto. }
  destruct (M (t, n) ltac:(by left)) as [[Ht Jt] Bt].
  apply filter_all_elem. intros [u m] Hr Eu. cbn in Eu. subst u. destruct (M (t, m) ltac:(by right)) as [[_ Jm] Bm].
  destruct (decide (m = n)) as [->|Hne]; [done|].
  destruct Jt as [Q|Q], Jm as [Q'|Q']; cbn in Q, Q'; subst; try done; by apply (O t).
Qed.

Lemma range_loop_ok irq restore fuel s live env c p l0 l i start end_ :
  cached s live -> codes_ok s -> cpu_ok s live env -> (not_found c = true -> env <> None) ->
  listed s i (l0 ++ l) -> rest_of s p l -> once s live i -> (length l < fuel)%nat ->
  exists c' s' live', range_loop irq restore fuel s env c p start end_ = Ok (c', s') /\ cached s' live' /\
    cpu_ok s' live' env /\ trimmed s s' /\ (not_found c = false -> current c = None -> modified c = None -> modified c' = None) /\
    (forall x, modified c' = Some x -> modified c = Some x \/ exists t, x = restore t) /\
    (forall t, t ∈ live' <-> t ∈ live /\ forall n, (t, n) ∈ l -> hits s start end_ (t, n) = false).
Proof.
  revert s live c p l0 l. induction fuel as [|fuel IH]; intros s live c p l0 l C K Hc Hn L R O F; [lia|]. cbn [range_loop].
  destruct l as [|[t n] l].
  - rewrite (rest_nil s p R). exists c, s, live. split_and!; [done | done | done | apply trimmed_refl | done | by left |].
    intros t. split; [intros Ht; split; [done|]; by intros n ?%elem_of_nil | tauto].
  - destruct (rest_cons s p t n l R) as [-> R']. cbn in F.
    assert (Hl : links live (t, n) /\ block_page s (t, n) = Some i).
    { destruct (c_page _ _ C) as (P & W & _). assert (Hi : (t, n) ∈ P i) by (rewrite <- (listed_paged s _ _ P i _ W L); set_solver).
      apply (p_elem _ _ _ _ _ W) in Hi. tauto. }
    destruct Hl as [[Ht Jt] Bt]. cbn in Ht. destruct (live_at s live t (c_wired _ _ C) Ht) as (b & E & ->). cbn [res_bind].
    assert (Hh : hits s start end_ (t, n) = in_range b n start end_) by (unfold hits; cbn; by rewrite E).
    destruct (in_range b n start end_) eqn:Ir.
    + destruct (find_current_ok s live env c C K Hc Hn) as (c1 & Ef & N1 & M1 & X1). rewrite Ef. cbn [res_bind].
      destruct (check_current_ok restore s live c1 t C Ht) as (c2 & -> & N2 & M2 & X2). cbn [res_bind].
      destruct (invalidate_aside_ok irq s live env t C Ht Hc) as (s1 & -> & C1 & Hc1 & T1 & L1). cbn [res_bind].
      pose proof (L1 i _ L) as L1'. rewrite list.filter_app, filter_cons_False, (once_filter s live i l0 t n l) in L1' by (done || tauto).
      destruct (IH s1 (live ∖ {[t]}) c2 (get2 (page_next b) n) (filter (fun y => y.1 <> t) l0) l)
        as (c' & s' & live' & -> & C' & Hc' & T' & M' & X' & Hi'); try done.
      * by apply (trimmed_codes s).
      * by rewrite N2, N1.
      * eapply rest_transfer; [by apply R' | done].
      * intros u Hu. rewrite !(cview_page s s1 (tm_code _ _ T1)). apply O. set_solver.
      * lia.
      * exists c', s', live'. split_and!; [done | done | done | by eapply trimmed_trans | | |].
        -- intros H1 H2 H3. rewrite (M1 H1) in M2. rewrite (M2 H2) in M'. by apply M'.
        -- intros x Hx. destruct (X' x Hx) as [Y|]; [|by right]. rewrite <- X1. destruct X2 as [X2|X2]; rewrite X2 in Y; [by left | right].
           exists t. congruence.
        -- intros u. rewrite Hi', elem_of_difference, not_elem_of_singleton. setoid_rewrite (hits_view s s1 start end_ _ (tm_code _ _ T1)).
           setoid_rewrite elem_of_cons. split.
           ++ intros [[Hu Hne] Hx]. split; [done|]. intros m [[= -> ->]|Hm]; [done | by apply Hx].
           ++ intros [Hu Hx]. split_and!; [done | |intros m Hm; apply Hx; by right].
              intros ->. rewrite Hx in Hh by (by left). done.
    + destruct (IH s live c (get2 (page_next b) n) (l0 ++ [(t, n)]) l) as (c' & s' & live' & -> & C' & Hc' & T' & M' & X' & Hi'); try done.
      * by rewrite <- app_assoc.
      * by apply R'.
      * lia.
      * exists c', s', live'. split_and!; try done. intros u. rewrite Hi'. setoid_rewrite elem_of_cons. split.
        -- intros [Hu Hx]. split; [done|]. intros m [[= -> ->]|Hm]; [done | by apply Hx].
        -- intros [Hu Hx]. split; [done|]. intros m Hm. apply Hx. by right.
Qed.

(** ** The range *)

Lemma first_none s live i r : cached s live -> first_of s i = None -> links live r -> block_page s r = Some i -> False.
Proof.
  intros C E Hr B. destruct (list_of s live i C) as (l & L & _ & He). assert (Hi : r ∈ l) by (by apply He).
  pose proof (listed_rest s i l L) as R. rewrite E in R. destruct l as [|[t n] l]; [by apply elem_of_nil in Hi|].
  by destruct (rest_cons s None t n l R).
Qed.

Lemma unprotect_ok s live start : cached s live -> 0 <= start -> first_of s (Z.shiftr start TARGET_PAGE_BITS) = None ->
  cached (s <| ram := tlb_unprotect_code_phys (ram s) start |>) live /\ same_ram (ram s) (tlb_unprotect_code_phys (ram s) start).
Proof.
  intros C H0 E. set (m := tlb_unprotect_code_phys (ram s) start).
  assert (S : same_ram (ram s) m) by (split; [done | apply aset_length]). split; [|done]. pose proof C as [CB CW CH CP CC CM CG].
  split; try done.
  - destruct CB. by split.
  - by apply (wired_local s).
  - by apply (same_ram_ok (ram s)).
  - intros r i Hr B. destruct (CG r i Hr B) as [R [D N]]. split; [by apply (same_ram_page (ram s))|]. split; [|exact N].
    change (Z.testbit (aget 0 (aset (phys_ram_dirty (ram s)) (Z.shiftr start TARGET_PAGE_BITS)
      (u8 (Z.lor (dirty_flags_of (ram s) start) CODE_DIRTY_FLAG))) (Z.shiftr (i * 4096) TARGET_PAGE_BITS)) 1 = false).
    rewrite aget_aset_ne; [exact D | | |].
    + by apply Z.shiftr_nonneg.
    + apply Z.shiftr_nonneg. by apply (ram_page_pos (ram s)).
    + intros Ei. apply (first_none s live i r C); [|done..].
      rewrite Ei, Z.shiftr_div_pow2, Z.div_mul in E by done. done.
Qed.

(** What is left after the invalidation of a range of page [i]. *)
Definition kept (s : Exec) (live : gset nat) (i start end_ : Z) (live' : gset nat) : Prop :=
  forall t, t ∈ live' <-> t ∈ live /\ forall n, is_jump (t, n) -> block_page s (t, n) = Some i -> hits s start end_ (t, n) = false.

(** The outcome: either done, with the blocks outside of the range left, or the
    instruction is started again. *)
Record ranged (room : Z) (s : Exec) (live : gset nat) (env : option nat) (i start end_ : Z) (resumed : bool) (s' : Exec) (live' : gset nat) : Prop := {
  rg_translator : translator room s' live';
  rg_ram : same_ram (ram s) (ram s');
  rg_kept : resumed = false -> kept s live i start end_ live';
  rg_code : resumed = false -> cview <$> tbs s' = cview <$> tbs s;
  rg_cpu : cpu_ok s' live' env;
  rg_older : older s s';
  rg_io : resumed = false -> map io_view (cpus s') = map io_view (cpus s)
}.

Section Range.
Context (phys : Z -> Z) (gen : TranslationBlock -> GenResult) (room : Z) (irq : bool) (restore : nat -> Z * Z * Z).
Context (HT : translates gen room) (HR : forall t, 0 <= (restore t).1.1 < 2 ^ 32).

(** The head of the page, before the loop. *)
Definition count_write (s : Exec) (i : Z) (p : PageDesc) (w : bool) : Res Exec :=
  match code_bitmap p with
  | Some _ => Ok s
  | None =>
      let s := page_upd s i (fun p => p <| code_write_count := u32 (code_write_count p + 1) |>) in
      if (SMC_BITMAP_USE_THRESHOLD <=? u32 (code_write_count p + 1)) && w then build_page_bitmap s i else Ok s
  end.

Lemma count_write_ok s live i p w : cached s live -> page_find s i = Some p ->
  exists f, count_write s i p w = Ok (page_upd s i f) /\ cached (page_upd s i f) live /\ (forall p, first_tb (f p) = first_tb p).
Proof.
  intros C Ep. unfold count_write. destruct (code_bitmap p) as [bm|] eqn:Eb.
  - exists id. assert (page_upd s i id = s) as ->; [|done].
    unfold page_upd. destruct s. cbn. f_equal. apply map_eq. intros k. destruct (decide (Z.shiftr i 10 = k)) as [<-|].
    + rewrite lookup_alter_eq. destruct (l1_map0 !! _) as [l|]; [|done]. cbn. f_equal. by apply list_alter_id.
    + by rewrite lookup_alter_ne.
  - set (g := fun p => p <| code_write_count := u32 (code_write_count p + 1) |>).
    assert (C1 : cached (page_upd s i g) live) by (apply cached_page; [done | done|]; intros p0 bm l _ Ebm _ Hb; by apply Hb).
    destruct (_ && w); [|by exists g].
    destruct (build_bitmap_ok (page_upd s i g) live i (g p) C1) as (bm & -> & C2); [rewrite page_find_upd, decide_True, Ep by done; done|].
    exists (fun p => (g p) <| code_bitmap := Some bm |>). assert (page_upd (page_upd s i g) i (fun p0 => p0 <| code_bitmap := Some bm |>) =
      page_upd s i (fun p0 => (g p0) <| code_bitmap := Some bm |>)) as E; [|by rewrite <- E].
    unfold page_upd. destruct s. cbn. f_equal. apply map_eq. intros k. destruct (decide (Z.shiftr i 10 = k)) as [<-|].
    + rewrite !lookup_alter_eq. destruct (l1_map0 !! _) as [l|]; [|done]. cbn. f_equal.
      apply list_eq. intros j. destruct (decide (Z.to_nat (Z.land i (L2_SIZE - 1)) = j)) as [<-|].
      * rewrite !list_lookup_alter_eq. by destruct (l !! _).
      * by rewrite !list_lookup_alter_ne.
    + by rewrite !lookup_alter_ne.
Qed.

Lemma trimmed_page s i f : trimmed s (page_upd s i f).
Proof. split; try done; [by apply older_same|]. intros k [p E]. rewrite page_find_upd. case_decide; rewrite E; by eexists. Qed.

Lemma page_upd_first s i f k : (forall p, first_tb (f p) = first_tb p) -> first_of (page_upd s i f) k = first_of s k.
Proof. intros H. unfold first_of. rewrite page_find_upd. case_decide; [|done]. destruct (page_find s k); [apply H | done]. Qed.

(** After the loop: the page without code is not protected any more. *)
Definition finish_page (s : Exec) (env : option nat) (i start : Z) (w : bool) : Res Exec :=
  let* p := deref (page_find s i) in
  match first_tb p with
  | Some _ => Ok s
  | None =>
      let s := page_upd s i invalidate_page_bitmap in
      if w then
        let* _ := deref env in
        Ok (s <| ram := tlb_unprotect_code_phys (ram s) start |>)
      else Ok s
  end.

Lemma finish_page_ok s live env start w : cached s live -> 0 <= start -> (w = true -> env <> None) ->
  is_Some (page_find s (Z.shiftr start TARGET_PAGE_BITS)) ->
  exists s' m, finish_page s env (Z.shiftr start TARGET_PAGE_BITS) start w = Ok (s' <| ram := m |>) /\ cached (s' <| ram := m |>) live /\
    trimmed s s' /\ cpus s' = cpus s /\ same_ram (ram s) m /\ tbs s' = tbs s.
Proof.
  intros C H0 Hw [p Ep]. set (i := Z.shiftr start TARGET_PAGE_BITS) in *. unfold finish_page. rewrite Ep. cbn [deref res_bind].
  assert (Es : forall s : Exec, s = s <| ram := ram s |>) by (by intros []).
  destruct (first_tb p) eqn:Ef.
  - exists s, (ram s). rewrite <- Es. split_and!; [done | done | apply trimmed_refl | done | apply same_ram_refl | done].
  - set (s1 := page_upd s i invalidate_page_bitmap).
    assert (C1 : cached s1 live) by (by apply cached_page).
    assert (F1 : first_of s1 i = None) by (unfold s1; rewrite page_upd_first by done; unfold first_of; by rewrite Ep).
    destruct w.
    + destruct env as [k|]; [|by destruct Hw]. cbn [deref res_bind]. destruct (unprotect_ok s1 live start C1 H0 F1) as [C2 S2].
      exists s1. eexists. split; [done|]. split_and!; [done | apply trimmed_page | done | exact S2 | done].
    + exists s1, (ram s1). rewrite <- (Es s1). split_and!; [done | done | apply trimmed_page | done | apply same_ram_refl | done].
Qed.

Lemma kept_same s s' live i a e live' : cview <$> tbs s' = cview <$> tbs s -> kept s' live i a e live' -> kept s live i a e live'.
Proof.
  intros E K t. rewrite (K t). setoid_rewrite (hits_view s s' a e _ E). by setoid_rewrite (cview_page s s' E).
Qed.

Lemma range_ok s live env start end_ w : translator room s live -> maps_code phys (ram s) -> cpu_ok s live env -> (w = true -> env <> None) ->
  0 <= start -> once s live (Z.shiftr start TARGET_PAGE_BITS) ->
  exists resumed s' live', tb_invalidate_phys_page_range phys gen irq restore s env start end_ w = Ok (resumed, s') /\
    ranged room s live env (Z.shiftr start TARGET_PAGE_BITS) start end_ resumed s' live' /\ (w = false -> resumed = false).
Proof.
  intros [C K R] HM Hc Hw H0 O. set (i := Z.shiftr start TARGET_PAGE_BITS) in *. unfold tb_invalidate_phys_page_range. fold i.
  destruct (page_find s i) as [p|] eqn:Ep.
  2: { exists false, s, live. split; [done|]. split; [|done]. split; [done | apply same_ram_refl | | done | done | apply older_refl | done].
       intros _ t. split; [|tauto]. intros Ht. split; [done|]. intros n J B. exfalso. apply (first_none s live i (t, n) C); [|done | done].
       unfold first_of. by rewrite Ep. }
  fold (count_write s i p w). destruct (count_write_ok s live i p w C Ep) as (f & -> & C1 & Ff). cbn [res_bind].
  set (s1 := page_upd s i f) in *. assert (T1 : trimmed s s1) by apply trimmed_page.
  destruct (list_of s1 live i C1) as (l & L & Hl & He).
  destruct (range_loop_ok irq restore (list_bound s1) s1 live env (mkCurrent w None None) (first_tb p) [] l i start end_)
    as (c & s2 & live2 & -> & C2 & Hc2 & T2 & M2 & X2 & Hi2); try done.
  { by apply (trimmed_codes s). }
  { pose proof (listed_rest s1 i l L) as Rl. unfold s1 in Rl. rewrite page_upd_first in Rl by done. unfold first_of in Rl. by rewrite Ep in Rl. }
  cbn [res_bind]. fold (finish_page s2 env i start w).
  assert (T : trimmed s s2) by (by eapply trimmed_trans).
  destruct (finish_page_ok s2 live2 env start w C2 H0 Hw) as (s3 & m & A3 & C3 & T3 & Ec3 & S3 & Et3); [apply (tm_pages _ _ T); by eexists|].
  fold i in A3. unfold finish_page in A3 |- *. destruct (deref (page_find s2 i)) as [p2|]; [|done]. cbn [res_bind] in A3 |- *. rewrite A3. cbn [res_bind].
  set (s4 := s3 <| ram := m |>) in *.
  assert (K4 : codes_ok s4) by (apply (codes_view s3); try done; apply (trimmed_codes s); [by eapply trimmed_trans | done]).
  assert (R4 : room_ok s4 room) by (apply (room_same s3); try done; apply (trimmed_room s); [by eapply trimmed_trans | done]).
  assert (S4 : same_ram (ram s) (ram s4)) by (rewrite (tm_ram _ _ T) in S3; exact S3).
  assert (O4 : older s s4).
  { apply (older_trans s s2); [apply T|]. apply (older_trans s2 s3); [apply T3 | by apply older_same]. }
  assert (Kp : kept s live i start end_ live2).
  { apply (kept_same s s1); [apply T1|]. intros t. rewrite Hi2. split; intros [Ht Hx]; (split; [done|]); intros n.
    - intros J B. apply Hx. apply He. split; [|done]. by split.
    - intros Hn. apply He in Hn as [[_ J] B]. by apply Hx. }
  destruct (modified c) as [[[pc1 cs1] fl1]|] eqn:Em.
  - destruct w; [|specialize (M2 eq_refl eq_refl eq_refl); congruence]. destruct env as [k|]; [|by destruct Hw]. cbn [deref res_bind].
    change (s4 <| cpus := alter (fun e => e <| current_tb := None |>) k (cpus s4) |>) with (set_current s4 k None).
    set (s5 := set_current s4 k None).
    destruct (gen_code_ok phys gen room s5 live2 pc1 cs1 fl1 1 HT) as (t & s6 & live6 & -> & L6 & N6 & C6 & K6 & R6 & S6 & J6 & U6 & O6 & _).
    + by apply (maps_same phys (ram s)).
    + by apply set_current_ok.
    + by apply (codes_view s4).
    + by apply (room_same s4).
    + destruct (X2 _ eq_refl) as [?|[u Eu]]; [done|]. pose proof (HR u) as Hu. by rewrite <- Eu in Hu.
    + cbn [res_bind]. exists true, s6, ({[t]} ∪ live6). split; [done|]. split; [|done].
      split; [by split | by eapply same_ram_trans | done | done | | | done].
      * intros k' [= <-]. destruct (Hc2 k eq_refl) as (e & Ek & _).
        destruct (lookup_lt_is_Some_2 (cpus s6) k) as [e6 E6].
        { rewrite (caches_from_length _ _ J6). unfold s5, set_current. cbn. rewrite length_alter. change (cpus s4) with (cpus s3).
          rewrite Ec3. by apply lookup_lt_Some in Ek. }
        exists e6. split; [done|]. destruct (caches_from_at _ _ k e6 J6 E6) as (e5 & E5 & -> & _).
        unfold s5 in E5. rewrite (current_at s4 k None e) in E5 by (change (cpus s4) with (cpus s3); by rewrite Ec3). by injection E5 as <-.
      * apply (older_trans s s5); [apply (older_trans s s4); [done | by apply older_same, alter_field] |].
        by apply (older_gen s5 s6 live2 t); [apply set_current_ok|..].
  - exists false, s4, live2. split; [done|]. split; [|done]. split; [by split | done | done | | | done |].
    3: { intros _. change (map io_view (cpus s3) = map io_view (cpus s)). by rewrite Ec3, (tm_io _ _ T). }
    + intros _. change (cview <$> tbs s3 = cview <$> tbs s). by rewrite Et3, (tm_code _ _ T).
    + intros k Hk. destruct (Hc2 k Hk) as (e & Ek & Hcur). exists e. change (cpus s4) with (cpus s3). rewrite Ec3. split; [done|].
      intros t Et. destruct (Hcur t Et) as [?|(D1 & D2 & D3)]; [by left | right].
      unfold detached, link in *. change (tbs s4) with (tbs s3). by rewrite Et3.
Qed.

End Range.

(** ** Code at an address *)

(** A byte of the block's code was read from the physical address [x]. *)
Definition code_at (s : Exec) (t : nat) (x : Z) : Prop :=
  exists b i, tbs s !! t = Some b /\ 0 <= i < size b /\ source b i = x.

(** The same in terms of the spans on the pages of the block. *)
Definition spans_at (s : Exec) (t : nat) (x : Z) : Prop :=
  exists n, is_jump (t, n) /\ block_page s (t, n) = Some (x / 4096) /\ covers s (x mod 4096) (t, n) = true.

Lemma code_spans s live t x : cached s live -> t ∈ live -> code_at s t x -> spans_at s t x.
Proof.
  intros C Ht (b & i & E & Hi & <-). destruct (b_addrs _ _ (c_base _ _ C) t b Ht E) as [Ap As [A1 _] A2].
  unfold spans_at, block_page. cbn [fst snd]. rewrite E. setoid_rewrite (fun k n => covers_span s t n b k E).
  unfold source. rewrite page_offset_eq in A2. pose proof (Z.mod_pos_bound (pc b) 4096 ltac:(done)) as Bo.
  assert (D : forall p y, p mod 4096 = 0 -> 0 <= y < 4096 -> (p + y) / 4096 = p / 4096 /\ (p + y) mod 4096 = y)
    by (intros p y Hp Hy; Z.div_mod_to_equations; lia).
  destruct (Z.ltb_spec (pc b mod 4096 + i) 4096) as [Hl|Hl].
  - exists 0. destruct (D (get2 (page_addr b) 0) (pc b mod 4096 + i) A1 ltac:(lia)) as [-> ->]. cbn [Z.eqb andb].
    split; [by left|]. split; [by rewrite Z.shiftr_div_pow2|]. unfold page_span. cbn [Z.eqb fst snd]. rewrite !page_offset_eq.
    change TARGET_PAGE_SIZE with 4096. destruct (Z.ltb_spec 4096 (pc b mod 4096 + size b)); lia.
  - exists 1. destruct A2 as [[_ A2]|[[A2 _] A3]]; [lia|].
    destruct (D (get2 (page_addr b) 1) (pc b mod 4096 + i - 4096) A2 ltac:(lia)) as [-> ->]. split; [by right|].
    rewrite (proj2 (Z.eqb_neq _ _) (aligned_no_page _ A2)). split; [by rewrite Z.shiftr_div_pow2|].
    unfold page_span. cbn [Z.eqb Pos.eqb fst snd]. rewrite !page_offset_eq. unfold u32.
    assert (Em : (pc b + size b) mod 2 ^ 32 mod 4096 = pc b mod 4096 + size b - 4096)
      by (change (2 ^ 32) with 4294967296 in *; Z.div_mod_to_equations; lia). rewrite Em. lia.
Qed.

Lemma in_range_covers b n a e x : addrs_ok b -> is_jump (0%nat, n) -> (n = 1 -> get2 (page_addr b) 1 <> NO_PAGE) ->
  Z.shiftr (get2 (page_addr b) n) TARGET_PAGE_BITS = x / 4096 -> a <= x < e -> in_range b n a e = false ->
  ((page_span b n).1 <=? x mod 4096) && (x mod 4096 <? (page_span b n).2) = false.
Proof.
  intros A J Hn Hx Hr Hin. rewrite Z.shiftr_div_pow2 in Hx by done. change (2 ^ TARGET_PAGE_BITS) with 4096 in Hx.
  destruct A as [Ap As [A1 A2] A3]. unfold in_range, phys_span, page_span, RAM_LIMIT in *. change TARGET_PAGE_SIZE with 4096.
  rewrite !page_offset_eq in *. pose proof (Z.div_mod x 4096 ltac:(done)) as Dx. pose proof (Z.mod_pos_bound x 4096 ltac:(done)) as Bx.
  pose proof (Z.mod_pos_bound (pc b) 4096 ltac:(done)). pose proof (Z.mod_pos_bound (u32 (pc b + size b)) 4096 ltac:(done)).
  change (2 ^ 32) with 4294967296 in *.
  assert (U : forall y, 0 <= y < 4294967296 -> u32 y = y) by (intros y Hy; unfold u32; by apply Z.mod_small).
  destruct J as [Q|Q]; cbn in Q; subst n; cbn [Z.eqb fst snd] in *.
  - pose proof (Z.div_mod (get2 (page_addr b) 0) 4096 ltac:(done)). rewrite !U in Hin by (rewrite ?U; lia).
    destruct (Z.ltb_spec 4096 (pc b mod 4096 + size b)); lia.
  - destruct A3 as [[? _]|[[A3 A4] _]]; [by destruct Hn|].
    pose proof (Z.div_mod (get2 (page_addr b) 1) 4096 ltac:(done)). rewrite (U (get2 (page_addr b) 1 + _)) in Hin by lia. lia.
Qed.

Lemma hits_code s live t a e x : cached s live -> t ∈ live -> a <= x < e ->
  (forall n, is_jump (t, n) -> block_page s (t, n) = Some (x / 4096) -> hits s a e (t, n) = false) -> ~ code_at s t x.
Proof.
  intros C Ht Hx Hh (n & J & B & Cv)%(code_spans s live t x C Ht). destruct (live_block s live t C Ht) as (b & E & A). pose proof (Hh n J B) as Hin.
  unfold hits in Hin. cbn in Hin. rewrite E in Hin. rewrite (covers_span s t n b) in Cv by done.
  unfold block_page in B. cbn [fst snd] in B. rewrite E in B.
  rewrite (in_range_covers b n a e x) in Cv; [done | done | done | | | done | done].
  - intros ->. cbn [Z.eqb Pos.eqb andb] in B. intros En. apply Z.eqb_eq in En. by rewrite En in B.
  - destruct ((n =? 1) && (get2 (page_addr b) 1 =? NO_PAGE)); [done|]. by injection B.
Qed.

Lemma code_view s s' t x : cview <$> tbs s' = cview <$> tbs s -> code_at s' t x <-> code_at s t x.
Proof.
  intros E. assert (K : forall s1 s2, cview <$> tbs s2 = cview <$> tbs s1 -> code_at s2 t x -> code_at s1 t x).
  { intros s1 s2 V (b & i & Eb & Hi & <-). destruct (view_lookup cview s1 s2 t b V Eb) as (b1 & E1 & Vb).
    exists b1, i. split; [done|]. rewrite (source_view b1 b i Vb). injection Vb as _ V2 _ _ _. by rewrite <- V2. }
  split; by apply K.
Qed.

(** What an invalidation for a write to [w] bytes at [a] achieves. *)
Record cleaned (room : Z) (s : Exec) (live : gset nat) (k : nat) (a w : Z) (resumed : bool) (s' : Exec) (live' : gset nat) : Prop := {
  cl_translator : translator room s' live';
  cl_ram : same_ram (ram s) (ram s');
  cl_sub : resumed = false -> live' ⊆ live;
  cl_code : resumed = false -> cview <$> tbs s' = cview <$> tbs s;
  cl_none : resumed = false -> forall t x, t ∈ live' -> a <= x < a + w -> x / 4096 = a / 4096 -> ~ code_at s' t x;
  cl_cpu : cpu_ok s' live' (Some k);
  cl_older : older s s';
  cl_io : resumed = false -> map io_view (cpus s') = map io_view (cpus s)
}.

Lemma ranged_cleaned room s live k a e w resumed s' live' : cached s live -> a + w <= e ->
  ranged room s live (Some k) (Z.shiftr a TARGET_PAGE_BITS) a e resumed s' live' -> cleaned room s live k a w resumed s' live'.
Proof.
  intros C Hw [T R Kp Cd Cp Ol Io]. split; try done.
  - intros Hr t Ht. by apply (Kp Hr t) in Ht as [? _].
  - intros Hr t x Ht Hx Ex. rewrite (code_view s s' t x (Cd Hr)). apply (Kp Hr t) in Ht as [Ht Hh].
    apply (hits_code s live t a e); [done | done | lia|]. intros n J B. apply Hh; [done|]. rewrite B, Ex.
    by rewrite Z.shiftr_div_pow2.
Qed.

(** The bits of a store that is inside one byte of the bitmap. *)
Lemma bitmap_clear bm a w len j : 0 <= page_offset a -> page_offset a mod 8 + w <= 8 -> w <= len -> 0 <= j < w ->
  nz (Z.land (Z.shiftr (aget 0 bm (Z.shiftr (page_offset a) 3)) (Z.land (page_offset a) 7)) (Z.shiftl 1 len - 1)) = false ->
  bitmap_bit bm (page_offset a + j) = false.
Proof.
  intros H0 Hw Hl Hj Hz. rewrite shiftr_3, land_7 in Hz. set (o := page_offset a) in *. unfold nz in Hz. apply negb_false_iff, Z.eqb_eq in Hz.
  replace (Z.shiftl 1 len - 1) with (Z.ones len) in Hz by (by rewrite Z.ones_equiv, Z.shiftl_mul_pow2, Z.mul_1_l by lia).
  assert (Ht : Z.testbit (Z.land (Z.shiftr (aget 0 bm (o / 8)) (o mod 8)) (Z.ones len)) j = false) by (by rewrite Hz, Z.testbit_0_l).
  rewrite Z.land_spec, Z.testbit_ones_nonneg, Z.shiftr_spec in Ht by lia.
  assert (j <? len = true) as Hjl by lia. rewrite Hjl, andb_true_r in Ht. unfold bitmap_bit.
  pose proof (Z.div_mod o 8 ltac:(done)). pose proof (Z.mod_pos_bound o 8 ltac:(done)).
  replace (o + j) with ((o mod 8 + j) + o / 8 * 8) by lia. rewrite Z.div_add, Z.mod_add by lia.
  rewrite (Z.div_small (o mod 8 + j)), (Z.mod_small (o mod 8 + j)) by lia. rewrite Z.add_0_l, Z.add_comm. exact Ht.
Qed.

(** ** Stores to a page with code *)

Section Store.
Context (phys : Z -> Z) (gen : TranslationBlock -> GenResult) (room : Z) (irq : bool) (restore : nat -> Z * Z * Z).
Context (HT : translates gen room) (HR : forall t, 0 <= (restore t).1.1 < 2 ^ 32).

Lemma cleaned_same s live k a w : translator room s live -> cpu_ok s live (Some k) ->
  (forall t x, t ∈ live -> a <= x < a + w -> x / 4096 = a / 4096 -> ~ code_at s t x) -> cleaned room s live k a w false s live.
Proof. intros T Hc Hn. split; try done. apply older_refl. Qed.

Lemma offset_in_page a x w : a <= x < a + w -> x / 4096 = a / 4096 -> x mod 4096 = page_offset a + (x - a) /\ 0 <= page_offset a < 4096.
Proof.
  intros Hx E. rewrite page_offset_eq. pose proof (Z.div_mod a 4096 ltac:(done)). pose proof (Z.div_mod x 4096 ltac:(done)).
  pose proof (Z.mod_pos_bound a 4096 ltac:(done)). lia.
Qed.

Lemma phys_page_fast_ok s live k a w len : translator room s live -> maps_code phys (ram s) -> cpu_ok s live (Some k) -> 0 <= a ->
  once s live (a / 4096) -> w <= len -> a mod 8 + w <= 8 ->
  exists resumed s' live', tb_invalidate_phys_page_fast phys gen irq restore s (Some k) a len = Ok (resumed, s') /\
    cleaned room s live k a w resumed s' live'.
Proof.
  intros T HM Hc H0 O Hw H8. pose proof (t_cached _ _ _ T) as C.
  assert (Ei : Z.shiftr a TARGET_PAGE_BITS = a / 4096) by (by rewrite Z.shiftr_div_pow2).
  assert (Slow : exists resumed s' live', tb_invalidate_phys_page_range phys gen irq restore s (Some k) a (a + len) true = Ok (resumed, s') /\
    cleaned room s live k a w resumed s' live').
  { destruct (range_ok phys gen room irq restore HT HR s live (Some k) a (a + len) true T HM Hc) as (r & s' & live' & E & Rg & _);
      [done | done | by rewrite Ei|]. exists r, s', live'. split; [done|]. apply (ranged_cleaned _ _ _ _ _ (a + len)); [done | lia | done]. }
  unfold tb_invalidate_phys_page_fast. rewrite Ei. destruct (page_find s (a / 4096)) as [p|] eqn:Ep.
  - destruct (code_bitmap p) as [bm|] eqn:Eb; [|exact Slow].
    destruct (nz _) eqn:Ez; [exact Slow|]. exists false, s, live. split; [done|]. apply cleaned_same; [done | done|].
    intros t x Ht Hx Ex (n & J & B & Cv)%(code_spans s live t x C Ht). destruct (offset_in_page a x w Hx Ex) as [Em Ho].
    destruct (c_page _ _ C) as (P & W & Bm). destruct (Bm _ p bm Ep Eb) as [_ Hb].
    assert (Hi : (t, n) ∈ P (a / 4096)).
    { apply (p_elem _ _ _ _ _ W). rewrite Ex in B. split; [split; [by split | congruence] | done]. }
    assert (Hbit : bitmap_bit bm (x mod 4096) = true).
    { rewrite Hb by (by apply Z.mod_pos_bound). apply existsb_exists. exists (t, n). split; [by apply list_elem_of_In | done]. }
    rewrite Em in Hbit. rewrite (bitmap_clear bm a w len (x - a)) in Hbit; [done | lia | | done | lia | done].
    rewrite page_offset_eq. rewrite <- (Znumtheory.Zmod_div_mod 8 4096 a) by (done || by exists 512). lia.
  - exists false, s, live. split; [done|]. apply cleaned_same; [done | done|].
    intros t x Ht Hx Ex (n & J & B & Cv)%(code_spans s live t x C Ht). apply (first_none s live (a / 4096) (t, n) C); [|done | by rewrite <- Ex].
    unfold first_of. by rewrite Ep.
Qed.

(** No code on a page that is dirty for code. *)
Lemma dirty_no_code s live t x a : cached s live -> t ∈ live -> x / 4096 = a / 4096 ->
  Z.testbit (dirty_flags_of (ram s) a) 1 = true -> ~ code_at s t x.
Proof.
  intros C Ht Ex D (n & J & B & _)%(code_spans s live t x C Ht). destruct (c_guard _ _ C (t, n) (x / 4096) (conj Ht J) B) as [_ [P _]].
  unfold dirty_flags_of in *. rewrite Z.shiftr_div_pow2 in D, P by done. change (2 ^ TARGET_PAGE_BITS) with 4096 in *.
  rewrite Z.div_mul in P by done. congruence.
Qed.

Lemma code_flag m a : nz (Z.land (dirty_flags_of m a) CODE_DIRTY_FLAG) = Z.testbit (dirty_flags_of m a) 1.
Proof.
  set (d := dirty_flags_of m a). unfold nz. change CODE_DIRTY_FLAG with (Z.shiftl 1 1).
  destruct (Z.testbit d 1) eqn:E.
  - apply negb_true_iff, Z.eqb_neq. intros H. assert (Z.testbit (Z.land d (Z.shiftl 1 1)) 1 = true) by (by rewrite Z.land_spec, E). by rewrite H in *.
  - apply negb_false_iff, Z.eqb_eq. apply Z.bits_inj'. intros i Hi. rewrite Z.land_spec, Z.testbit_0_l.
    destruct (decide (i = 1)) as [->|]; [by rewrite E|].
    assert (Z.testbit (Z.shiftl 1 1) i = false) as ->; [|apply andb_false_r].
    change (Z.shiftl 1 1) with (2 ^ 1). rewrite Z.pow2_bits_eqb by lia. by apply Z.eqb_neq.
Qed.

Lemma notdirty_invalidate_ok s live k a w len : translator room s live -> maps_code phys (ram s) -> cpu_ok s live (Some k) -> 0 <= a ->
  once s live (a / 4096) -> w <= len -> a mod 8 + w <= 8 ->
  exists resumed s' live', notdirty_invalidate phys gen irq restore s k a len = Ok (resumed, s') /\
    cleaned room s live k a w resumed s' live'.
Proof.
  intros T HM Hc H0 O Hw H8. unfold notdirty_invalidate. rewrite code_flag.
  destruct (Z.testbit (dirty_flags_of (ram s) a) 1) eqn:E; cbn [negb]; [|by apply phys_page_fast_ok].
  exists false, s, live. split; [done|]. apply cleaned_same; [done | done|].
  intros t x Ht _ Ex. by apply (dirty_no_code s live t x a (t_cached _ _ _ T)).
Qed.

(** The TLB entries for the address the CPU is storing to lead to the page of [a]. *)
Definition io_page (s : Exec) (k : nat) (a : Z) : Prop :=
  forall e t te, cpus s !! k = Some e -> t ∈ tlb_table e -> te ∈ t ->
    addr_write te = Z.lor (page_start (mem_io_vaddr e)) TLB_NOTDIRTY ->
    u64 (page_start (mem_io_vaddr e) + addend te) = host_of (ram s) (page_start a).

Lemma set_dirty_direct e v te h : te ∈ map (tlb_set_dirty1 v) [e] -> direct te h ->
  direct e h \/ addr_write e = Z.lor v TLB_NOTDIRTY /\ u64 (page_start v + addend e) = h.
Proof.
  cbn. intros ->%list_elem_of_singleton. unfold tlb_set_dirty1. destruct (Z.eqb_spec (addr_write e) (Z.lor v TLB_NOTDIRTY)); [|by left].
  intros [_ D]. right. done.
Qed.

Lemma set_dirty_entry env v t te : t ∈ tlb_table (tlb_set_dirty env v) -> te ∈ t ->
  exists t0 e, t0 ∈ tlb_table env /\ e ∈ t0 /\ (te = e \/ te = tlb_set_dirty1 (page_start v) e).
Proof.
  unfold tlb_set_dirty. cbn. intros (t0 & -> & Ht)%list_elem_of_fmap Hte. unfold update_entry in Hte.
  apply elem_of_alter in Hte as [Hte|(e & He & ->)]; exists t0; eauto 6.
Qed.

Lemma set_dirty_no_direct s k a h (f := fun e => tlb_set_dirty e (mem_io_vaddr e)) :
  no_direct (cpus s) h -> io_page s k a -> h <> host_of (ram s) (page_start a) ->
  no_direct (alter f k (cpus s)) h.
Proof.
  intros N Io Hne env t te (i & Ei)%list_elem_of_lookup Ht Hte D. destruct (decide (i = k)) as [->|].
  - rewrite list_lookup_alter_eq in Ei. apply fmap_Some in Ei as (e0 & E0 & ->). unfold f in Ht.
    assert (He0 : e0 ∈ cpus s) by (by eapply list_elem_of_lookup_2).
    apply (set_dirty_entry e0 _ t te) in Ht as (t0 & e & Ht0 & He & [->| ->]); [by apply (N e0 t0 e) | | done].
    destruct (set_dirty_direct e (page_start (mem_io_vaddr e0)) (tlb_set_dirty1 (page_start (mem_io_vaddr e0)) e) h) as [D'|[A1 A2]];
      [by left | done | by apply (N e0 t0 e) |].
    apply Hne. rewrite <- A2. rewrite <- (Io e0 t0 e E0 Ht0 He A1). f_equal. f_equal. rewrite !page_start_eq. by rewrite Z.div_mul.
  - rewrite list_lookup_alter_ne in Ei by done. apply (N env t te); [by eapply list_elem_of_lookup_2 | done | done | done].
Qed.

Lemma dirty_bits m a i : mem_ok m -> 0 <= a -> ram_page m (i * 4096) ->
  Z.testbit (dirty_flags_of (set_dirty_flags m a (Z.lor (dirty_flags_of m a) 0xfd)) (i * 4096)) 1 = Z.testbit (dirty_flags_of m (i * 4096)) 1.
Proof.
  intros M H0 Hi. unfold dirty_flags_of at 1. change (phys_ram_dirty (set_dirty_flags ?m ?a ?v)) with
    (aset (phys_ram_dirty m) (Z.shiftr a TARGET_PAGE_BITS) (u8 v)). unfold dirty_flags_of.
  rewrite !Z.shiftr_div_pow2 by done. change (2 ^ TARGET_PAGE_BITS) with 4096.
  rewrite Z.div_mul by done. pose proof (ram_page_pos m _ M Hi). pose proof (m_dirty _ M _ Hi) as Hl. rewrite Z.div_mul in Hl by done.
  destruct (decide (a / 4096 = i)) as [<-|Hne].
  - rewrite aget_aset_eq by (split; [by apply Z.div_pos | done]). rewrite u8_bit, Z.lor_spec by lia. by rewrite orb_false_r.
  - rewrite aget_aset_ne; [done | by apply Z.div_pos | lia | done].
Qed.

Lemma notdirty_dirty_ok s live k a : translator room s live -> 0 <= a -> ram_page (ram s) (page_start a) -> (k < length (cpus s))%nat -> io_page s k a ->
  exists s', notdirty_dirty s k a = Ok s' /\ translator room s' live /\ same_ram (ram s) (ram s') /\ tbs s' = tbs s /\
    map run_view (cpus s') = map run_view (cpus s).
Proof.
  intros [C K R] H0 Ra Hk Io. unfold notdirty_dirty. change (Z.land 0xff (Z.lnot CODE_DIRTY_FLAG)) with 0xfd.
  set (v := Z.lor _ _). set (m := set_dirty_flags (ram s) a v). set (s1 := s <| ram := m |>).
  assert (S : same_ram (ram s) m) by (split; [done | apply aset_length]).
  pose proof C as [CB CW CH CP CC CM CG].
  assert (G : forall cs, (forall r i, links live r -> block_page s r = Some i -> no_direct cs (host_of m (i * 4096))) ->
    map tb_jmp_cache cs = map tb_jmp_cache (cpus s) -> cached (s1 <| cpus := cs |>) live).
  { intros cs N Ej. split; try done.
    - destruct CB. by split.
    - by apply (wired_local s).
    - by apply (caches_new s _ live).
    - by apply (same_ram_ok (ram s)).
    - intros r i Hr B. destruct (CG r i Hr B) as [Rp [D _]]. split; [by apply (same_ram_page (ram s))|].
      split; [|by apply (N r)]. change (Z.testbit (dirty_flags_of m (i * 4096)) 1 = false). unfold m, v. by rewrite dirty_bits. }
  assert (Ng : forall r i, links live r -> block_page s r = Some i -> no_direct (cpus s) (host_of m (i * 4096)))
    by (intros r i Hr B; exact (proj2 (proj2 (CG r i Hr B)))).
  assert (X : forall cs, codes_ok (s1 <| cpus := cs |>) /\ room_ok (s1 <| cpus := cs |>) room)
    by (intros cs; split; [by apply (codes_view s) | by apply (room_same s)]).
  destruct (Z.eqb_spec v 0xff) as [Ev|Ev].
  - destruct (lookup_lt_is_Some_2 (cpus s) k Hk) as [e Ek]. change (cpus s1) with (cpus s). rewrite Ek. cbn [deref res_bind].
    eexists. split; [done|]. set (cs := alter _ k _).
    split; [|split_and!; [done | done | by apply alter_field]]. split; [|apply (X cs) | apply (X cs)]. apply (G cs); [|by apply alter_field].
    intros r i Hr B. destruct (CG r i Hr B) as [Rp [D N]].
    apply (set_dirty_no_direct s k a); [by apply (Ng r) | done |].
    intros Eh. apply (host_of_inj (ram s)) in Eh; [|apply CM | done | done].
    assert (Hd : Z.testbit v 1 = false); [|by rewrite Ev in Hd].
    unfold v. rewrite Z.lor_spec, orb_false_r. rewrite <- D. unfold dirty_flags_of. rewrite Eh, page_start_eq.
    rewrite !Z.shiftr_div_pow2 by done. change (2 ^ TARGET_PAGE_BITS) with 4096. by rewrite Z.div_mul.
  - exists s1. split; [done|]. split; [|done]. assert (Es : s1 = s1 <| cpus := cpus s |>) by (by destruct s).
    split; [rewrite Es; by apply G | rewrite Es; apply X | rewrite Es; apply X].
Qed.

Lemma cpu_ok_same s s' live env : cpu_ok s live env -> tbs s' = tbs s -> map run_view (cpus s') = map run_view (cpus s) -> cpu_ok s' live env.
Proof.
  intros H Et Er k Hk. destruct (H k Hk) as (e & Ek & Hc). change (map ?f ?l) with (f <$> l) in Er.
  assert (Hl : (run_view <$> cpus s') !! k = Some (run_view e)) by (rewrite Er; by rewrite list_lookup_fmap, Ek).
  rewrite list_lookup_fmap in Hl. apply fmap_Some in Hl as (e' & Ek' & [= _ V]). exists e'. split; [done|].
  intros t Ht. rewrite <- V in Ht. unfold detached, link in *. rewrite Et. auto.
Qed.

Lemma io_page_after s s' k a : mem_ok (ram s) -> ram_page (ram s) (page_start a) -> same_ram (ram s) (ram s') ->
  map io_view (cpus s') = map io_view (cpus s) -> io_page s k a -> io_page s' k a.
Proof.
  intros M Ra S E Io e t te Ek. change (map io_view ?l) with (io_view <$> l) in E.
  assert (H : (io_view <$> cpus s) !! k = Some (io_view e)) by (rewrite <- E, list_lookup_fmap; by rewrite Ek).
  rewrite list_lookup_fmap in H. apply fmap_Some in H as (e0 & E0 & V). injection V as V1 V2. rewrite V1, V2.
  rewrite (same_ram_host (ram s)) by done. by apply Io.
Qed.

(** A store of [w] bytes at [a] by CPU [k], through the handler for pages that
    are not dirty. *)
Record store_ok (s : Exec) (live : gset nat) (k : nat) (a w : Z) : Prop := {
  so_translator : translator room s live;
  so_maps : maps_code phys (ram s);
  so_cpu : cpu_ok s live (Some k);
  so_addr : 0 <= a;
  so_ram : ram_page (ram s) (page_start a);
  so_io : io_page s k a;
  so_once : once s live (a / 4096);
  so_in_byte : a mod 8 + w <= 8
}.

Lemma invalidate_then_dirty s live k a w len : store_ok s live k a w -> w <= len ->
  exists resumed s1 live1, notdirty_invalidate phys gen irq restore s k a len = Ok (resumed, s1) /\
    translator room s1 live1 /\ same_ram (ram s) (ram s1) /\ cpu_ok s1 live1 (Some k) /\ older s s1 /\
    (resumed = false -> live1 ⊆ live /\ io_page s1 k a /\ (k < length (cpus s1))%nat /\
      forall t x, t ∈ live1 -> a <= x < a + w -> x / 4096 = a / 4096 -> ~ code_at s1 t x).
Proof.
  intros [T HM Hc H0 Ra Io O H8] Hw.
  destruct (notdirty_invalidate_ok s live k a w len T HM Hc H0 O Hw H8) as (r & s1 & live1 & -> & [T1 S1 Su Cd Nn Cp Ol I1]).
  exists r, s1, live1. split_and!; [done | done | done | done | done|]. intros Hr. split_and!; [by apply Su | | | by apply Nn].
  - apply (io_page_after s); [apply T | done | done | by apply I1 | done].
  - destruct (Cp k eq_refl) as (e & Ek & _). by apply lookup_lt_Some in Ek.
Qed.

Lemma reordered_ok s live bs : translator room s live -> bs ≡ₚ ram_blocks (ram s) ->
  translator room (s <| ram := (ram s) <| ram_blocks := bs |> |>) live.
Proof.
  intros [C K R] P. set (m := (ram s) <| ram_blocks := bs |>). assert (S : same_ram (ram s) m) by (by split).
  split; [|by apply (codes_view s) | by apply (room_same s)]. destruct C as [CB CW CH CP CC CM CG]. split; try done.
  - destruct CB. by split.
  - by apply (wired_local s).
  - by apply (same_ram_ok (ram s)).
  - intros r i Hr B. destruct (CG r i Hr B) as [Rp [D N]]. split; [by apply (same_ram_page (ram s))|]. split; [exact D|].
    change (no_direct (cpus s) (host_of m (i * 4096))). by rewrite (same_ram_host (ram s)).
Qed.

Lemma ram_ptr_at m a : mem_ok m -> ram_page m (page_start a) -> exists b, b ∈ ram_blocks m /\ block_has b a = true.
Proof.
  intros [R _] (_ & b & Hb & Ha). exists b. split; [done|]. destruct (rb_pages _ R b Hb) as (Po & Pl & _).
  apply block_has_spec in Ha. apply block_has_spec. rewrite page_start_eq in Ha. pose proof (Z.div_mod a 4096 ltac:(done)).
  pose proof (Z.mod_pos_bound a 4096 ltac:(done)). apply Z.mod_divide in Po as [j Ej], Pl as [l El]; [|done..]. lia.
Qed.

Lemma s2e_store_ok s live k a w : store_ok s live k a w -> w <= 4 ->
  exists p s' live', s2e_notdirty_mem_write phys gen irq restore s k a = Ok (p, s') /\ translator room s' live' /\
    same_ram (ram s) (ram s') /\ cpu_ok s' live' (Some k) /\ older s s' /\
    match p with
    | Some host => live' ⊆ live /\ (forall t x, t ∈ live' -> a <= x < a + w -> x / 4096 = a / 4096 -> ~ code_at s' t x) /\
        qemu_ram_addr_from_host (ram_blocks (ram s')) host = Ok a
    | None => True
    end.
Proof.
  intros SO Hw. destruct (invalidate_then_dirty s live k a w 4 SO Hw) as (r & s1 & live1 & A & T1 & S1 & Cp1 & Ol1 & H1).
  unfold s2e_notdirty_mem_write. rewrite A. cbn [res_bind]. destruct r; [by exists None, s1, live1|].
  destruct (H1 eq_refl) as (Su & Io & Hk & Nn). destruct SO as [_ _ _ H0 Ra _ _ _].
  assert (Ra1 : ram_page (ram s1) (page_start a)) by (by apply (same_ram_page (ram s))).
  destruct (notdirty_dirty_ok s1 live1 k a T1 H0 Ra1 Hk Io) as (s2 & -> & T2 & S2 & Et & Er). cbn [res_bind].
  assert (Ra2 : ram_page (ram s2) (page_start a)) by (by apply (same_ram_page (ram s1))).
  destruct (ram_ptr_at (ram s2) a (c_mem _ _ (t_cached _ _ _ T2)) Ra2) as (b & Hb & Ha).
  pose proof (get_ram_ptr_perm (ram_blocks (ram s2)) a) as P. pose proof (m_ram _ (c_mem _ _ (t_cached _ _ _ T2))) as Rk.
  pose proof (get_ram_ptr_some _ a b Rk Hb Ha) as Ep. destruct (qemu_get_ram_ptr (ram_blocks (ram s2)) a) as [host bs]. cbn [fst snd] in P, Ep.
  exists (Some host). eexists _, live1. split; [done|]. pose proof (reordered_ok s2 live1 bs T2 P) as T3. split_and!; [done | | | | done | |].
  - eapply same_ram_trans; [done|]. eapply same_ram_trans; [done|]. by split.
  - apply (cpu_ok_same s1 s2) in Cp1; [exact Cp1 | done | done].
  - apply (older_trans s s1); [done|]. apply (older_same s1); [cbn; by rewrite Et | by apply run_caches].
  - intros t x Ht Hx Ex Hc. apply (Nn t x Ht Hx Ex). apply (code_view s1 s2); [by rewrite Et | exact Hc].
  - cbn. rewrite (from_host_some bs host b); [f_equal; lia | by apply (ram_ok_perm (ram_blocks (ram s2))); [symmetry|] | by rewrite P|].
    apply host_in_spec. apply block_has_spec in Ha. lia.
Qed.

(** C6: A store to a write-protected page never leaves a stale translation: for
    a store of at most four bytes that does not cross a boundary of eight, to a
    page on which no block lies twice (with both of its pages; such a block
    makes the handler fail, [twin_page_invalidation_fails]), S2E's handler
    returns, and either the instruction is started again with
    the cache in order, or the handler returns the host address of the
    byte to store at and no block that is left was translated from any of the
    bytes stored to, whether the page's bitmap or the list of blocks decided; no
    block appears, and the lists, the code buffer and the write protection
    of the pages that still have code are in order. *)
Theorem s2e_store_no_stale s live k a w : store_ok s live k a w -> w <= 4 ->
  exists p s' live', s2e_notdirty_mem_write phys gen irq restore s k a = Ok (p, s') /\ translator room s' live' /\
    same_ram (ram s) (ram s') /\ cpu_ok s' live' (Some k) /\ older s s' /\
    match p with
    | Some host => live' ⊆ live /\ (forall t x, t ∈ live' -> a <= x < a + w -> x / 4096 = a / 4096 -> ~ code_at s' t x) /\
        qemu_ram_addr_from_host (ram_blocks (ram s')) host = Ok a
    | None => True
    end.
Proof. apply s2e_store_ok. Qed.

End Store.

End TbSmc.
