(* ===== verification/TbMachine.v ===== *)
(** * The translator at work

    The operations of [TbCache], [TbGen], [TbSmc] and [SoftTlb] as steps of one
    machine, the invariant of every state it reaches, and what follows for
    stores of the guest to its own code.  The last part runs the model on small
    states, also where the code does not do what it means to. *)

From Stdlib Require Import ZifyBool.
From stdpp Require Import gmap.
From S2P Require Import Prelude Chains SoftTlb TbCache TbJumps TbLists TbInv TbGen TbSmc.

Module TbMachine.
Import SoftTlb TbCache TbJumps TbLists TbInv TbGen TbSmc.

Lemma rb_of m p : mem_ok m -> ram_page m p -> 0 < host_of m p /\ host_of m p < 2 ^ 64.
Proof.
  intros [R _] (_ & b & Hb & Ha). unfold host_of. rewrite (get_ram_ptr_some _ p b) by done. destruct (rb_pages _ R b Hb) as (_ & _ & _ & H1 & H2).
  apply block_has_spec in Ha. lia.
Qed.

(** ** New TLB entries *)

(** A physical page is RAM, or ROM or a device. *)
Definition phys_page_ok (m : Ram) (pd : Z) : Prop :=
  page_offset pd = IO_MEM_RAM /\ ram_page m (page_start pd) \/ IO_MEM_ROM <= page_offset pd \/ nz (Z.land pd IO_MEM_ROMD) = true.

Lemma lor_flag_offset a f : 0 < f < 4096 -> page_offset (Z.lor a f) <> 0.
Proof.
  intros Hf. unfold page_offset. rewrite Z.land_lor_distr_l. intros [_ H]%Z.lor_eq_0_iff.
  change 4095 with (Z.ones 12) in H. rewrite Z.land_ones, Z.mod_small in H by lia. lia.
Qed.

(** The entry [tlb_set_page_exec] makes stores directly only to a page that is dirty. *)
Lemma new_entry_direct symbolic watch pm m env vaddr paddr prot mmu m' env' t te h :
  mem_ok m -> vaddr mod 4096 = 0 -> 0 <= vaddr < 2 ^ 32 ->
  (forall p, phys_page_find pm (Z.shiftr paddr TARGET_PAGE_BITS) = Some p -> phys_page_ok m (phys_offset p)) ->
  tlb_set_page_exec symbolic watch pm m env vaddr paddr prot mmu = (m', env') ->
  t ∈ tlb_table env' -> te ∈ t -> direct te h ->
  (exists t0, t0 ∈ tlb_table env /\ te ∈ t0) \/
  exists pd, ram_page m (page_start pd) /\ host_of m (page_start pd) = h /\ dirty_flags_of m pd = 0xff.
Proof.
  intros M Hv Hr Hp. unfold tlb_set_page_exec. set (pg := phys_page_find _ _) in *. set (pd := match pg with None => _ | Some p => phys_offset p end).
  assert (Hpd : phys_page_ok m pd) by (unfold pd; destruct pg as [p|]; [by apply Hp | right; by left]). clearbody pd.
  destruct (qemu_get_ram_ptr (ram_blocks m) (page_start pd)) as [ad bs] eqn:Eg.
  set (adr := if (IO_MEM_ROM <? page_offset pd) && _ then _ else vaddr). set (adr' := if existsb _ _ then _ else adr). set (w := if nz (Z.land prot PAGE_WRITE) then _ else _).
  set (rd := if symbolic paddr then _ else _). set (x := if nz (Z.land prot PAGE_EXEC) then _ else _). set (io := if existsb _ _ then _ else _).
  intros [= <- <-] Ht Hte [D1 D2]. cbn [tlb_table] in Ht.
  apply elem_of_alter in Ht as [Ht|(t0 & Ht0 & ->)]; [left; eauto|]. unfold update_entry in Hte.
  apply elem_of_alter in Hte as [Hte|(e & _ & ->)]; [left; eauto|]. right. exists pd. cbn [addr_write addend] in D1, D2.
  assert (Ew : w = vaddr /\ page_offset pd = IO_MEM_RAM /\ dirty_flags_of m pd = 0xff /\ nz (Z.land pd IO_MEM_ROMD) = false).
  { unfold w in D1 |- *. destruct (nz (Z.land prot PAGE_WRITE)); [|by vm_compute in D1].
    destruct ((page_offset pd =? IO_MEM_ROM) || nz (Z.land pd IO_MEM_ROMD)) eqn:E1; [by apply lor_flag_offset in D1|].
    apply orb_false_iff in E1 as [E1%Z.eqb_neq E2].
    destruct Hpd as [[Ho Hram]|[Ho|Ho]]; [| |congruence].
    - assert (Ea : adr = vaddr) by (unfold adr; by rewrite Ho). apply Z.eqb_eq in Ho as Ho'. rewrite Ho' in D1 |- *. cbn [andb] in D1 |- *.
      unfold cpu_physical_memory_is_dirty in *. change (dirty_flags_of (m <| ram_blocks := bs |>) pd) with (dirty_flags_of m pd) in *.
      destruct (Z.eqb_spec (dirty_flags_of m pd) 0xff) as [Ed|]; cbn [negb] in *; [|by apply lor_flag_offset in D1].
      unfold adr' in *. destruct (existsb _ _); [by apply lor_flag_offset in D1 | done].
    - exfalso. assert (Ea : adr = Z.lor vaddr TLB_MMIO).
      { unfold adr. rewrite E2. cbn [negb]. rewrite andb_true_r. assert (IO_MEM_ROM <? page_offset pd = true) as ->; [apply Z.ltb_lt; lia | done]. }
      assert (page_offset pd =? IO_MEM_RAM = false) as Er by (apply Z.eqb_neq; unfold IO_MEM_RAM, IO_MEM_ROM in *; lia). rewrite Er in D1. cbn [andb] in D1.
      unfold adr' in D1. rewrite Ea in D1. destruct (existsb _ _); [by apply lor_flag_offset in D1 | by apply lor_flag_offset in D1]. }
  destruct Ew as (Ew & Ho & Ed & En). rewrite Ew in D2.
  destruct Hpd as [[_ Hram]|[Hx|Hx]]; [|unfold IO_MEM_RAM, IO_MEM_ROM in *; lia | congruence].
  split; [done|]. split; [|done]. unfold host_of. rewrite Eg. cbn [fst]. rewrite <- D2, page_start_eq.
    destruct (rb_of m _ M Hram) as [B1 B2]. unfold host_of in B1, B2. rewrite Eg in B1, B2. cbn [fst] in B1, B2.
    replace (vaddr / 4096 * 4096) with vaddr by (pose proof (Z.div_mod vaddr 4096 ltac:(done)); lia).
    unfold u64. rewrite Zplus_mod_idemp_r. replace (vaddr + (ad - vaddr)) with ad by lia. symmetry. apply Z.mod_small. lia.
Qed.

(** ** Changing the TLB of a CPU *)

Definition set_cpu (s : Exec) (k : nat) (m : Ram) (env : CPUCommon) : Exec :=
  s <| ram := m |> <| cpus := <[k := env]> (cpus s) |>.

Lemma elem_of_set {A} (k : nat) (x y : A) (l : list A) : y ∈ <[k := x]> l -> y = x \/ y ∈ l.
Proof.
  intros (i & E)%list_elem_of_lookup. destruct (decide (i = k)) as [->|].
  - apply list_lookup_insert_Some in E as [(_ & <- & _)|[? _]]; [by left | done].
  - rewrite list_lookup_insert_ne in E by done. right. by eapply list_elem_of_lookup_2.
Qed.

Lemma set_cpu_ok room s live k m env env' : translator room s live -> cpus s !! k = Some env -> same_ram (ram s) m ->
  (forall p, dirty_flags_of m p = dirty_flags_of (ram s) p) ->
  (forall h t, tb_jmp_cache env' !! h = Some t -> tb_jmp_cache env !! h = Some t) ->
  (forall p t te, ram_page (ram s) p -> protected (ram s) (cpus s) p -> t ∈ tlb_table env' -> te ∈ t -> ~ direct te (host_of (ram s) p)) ->
  translator room (set_cpu s k m env') live.
Proof.
  intros [C K R] Ek S Hd Hj Ht. split; [|by apply (codes_view s) | by apply (room_same s)].
  destruct C as [CB CW CH CP CC CM CG]. split; try done.
  - destruct CB. by split.
  - by apply (wired_local s).
  - intros e h t He Hh. apply elem_of_set in He as [->|He]; [|by apply (CC e)]. apply (CC env); [by eapply list_elem_of_lookup_2 | auto].
  - by apply (same_ram_ok (ram s)).
  - intros r i Hr B. destruct (CG r i Hr B) as [Rp P]. split; [by apply (same_ram_page (ram s))|]. pose proof P as [D N].
    split; [change (Z.testbit (dirty_flags_of m (i * 4096)) 1 = false); by rewrite Hd|].
    change (no_direct (<[k := env']> (cpus s)) (host_of m (i * 4096))). rewrite (same_ram_host (ram s)) by done.
    intros e t te He Hte Hin. apply elem_of_set in He as [->|He]; [by apply (Ht (i * 4096) t te) | by apply (N e t te)].
Qed.

Lemma set_page_ok room symbolic watch pm s live k env vaddr paddr prot mmu m' env' :
  translator room s live -> cpus s !! k = Some env -> vaddr mod 4096 = 0 -> 0 <= vaddr < 2 ^ 32 ->
  (forall p, phys_page_find pm (Z.shiftr paddr TARGET_PAGE_BITS) = Some p -> phys_page_ok (ram s) (phys_offset p)) ->
  tlb_set_page_exec symbolic watch pm (ram s) env vaddr paddr prot mmu = (m', env') ->
  translator room (set_cpu s k m' env') live.
Proof.
  intros T Ek Hv Hr Hp E. pose proof (c_mem _ _ (t_cached _ _ _ T)) as M.
  assert (Em : m' = (ram s) <| ram_blocks := (qemu_get_ram_ptr (ram_blocks (ram s)) (page_start
    match phys_page_find pm (Z.shiftr paddr TARGET_PAGE_BITS) with None => IO_MEM_UNASSIGNED | Some p => phys_offset p end)).2 |> /\
    tb_jmp_cache env' = tb_jmp_cache env).
  { unfold tlb_set_page_exec in E. destruct (qemu_get_ram_ptr _ _). injection E as <- <-. done. }
  destruct Em as [Em Ej].
  apply (set_cpu_ok room s live k m' env env' T Ek).
  - rewrite Em. split; [apply get_ram_ptr_perm | done].
  - intros p. by rewrite Em.
  - intros h t. by rewrite Ej.
  - intros p t te Rp [D N] Ht Hte Hd.
    destruct (new_entry_direct _ _ _ _ _ _ _ _ _ _ _ t te _ M Hv Hr Hp E Ht Hte Hd) as [(t0 & Ht0 & Hin)|(pd & Rd & Eh & Ed)].
    + apply (N env t0 te); [by eapply list_elem_of_lookup_2 | done | done | done].
    + apply (host_of_inj (ram s)) in Eh; [|apply M | done | done]. subst p.
      unfold dirty_flags_of in D, Ed. rewrite page_start_eq in D. rewrite !Z.shiftr_div_pow2 in D, Ed by done.
      change (2 ^ TARGET_PAGE_BITS) with 4096 in *. rewrite Z.div_mul in D by done. by rewrite Ed in D.
Qed.

(** Write protection survives every refill of the TLB: a new entry made by
    [tlb_set_page_exec] for a page with translated code never lets stores go to
    it directly, and neither do the entries that are left, so that the lists,
    the code buffer and the protection of all pages with code stay in order. *)
Theorem tlb_set_page_keeps_guard room symbolic watch pm s live k env vaddr paddr prot mmu m' env' :
  translator room s live -> cpus s !! k = Some env -> vaddr mod 4096 = 0 -> 0 <= vaddr < 2 ^ 32 ->
  (forall p, phys_page_find pm (Z.shiftr paddr TARGET_PAGE_BITS) = Some p -> phys_page_ok (ram s) (phys_offset p)) ->
  tlb_set_page_exec symbolic watch pm (ram s) env vaddr paddr prot mmu = (m', env') ->
  translator room (set_cpu s k m' env') live.
Proof. apply set_page_ok. Qed.

(** ** The execution loop *)

(** One turn of the inner loop of [cpu_exec], from the lookup to the block the
    CPU [k] enters: [next_tb] is the exit the last block was left through, and
    [exit_request] says whether the CPU has been told to stop meanwhile. *)
Definition enter_block (get_phys_addr_code : Z -> Z) (cpu_gen_code : TranslationBlock -> GenResult) (s : Exec) (k : nat)
    (next_tb : option Ref) (exit_request : bool) (pc0 cs_base0 flags0 : Z) : Res (nat * Exec) :=
  let* (tb, s) := tb_find_fast get_phys_addr_code cpu_gen_code s k pc0 cs_base0 flags0 in
  let '(next_tb, s) := if nz (tb_invalidated_flag s) then (None, s <| tb_invalidated_flag := 0 |>) else (next_tb, s) in
  let* s :=
    match next_tb with
    | None => Ok s
    | Some (u, n) => let* b := tb_at s tb in if get2 (page_addr b) 1 =? NO_PAGE then tb_add_jump s u n tb else Ok s
    end in
  let s := set_current s k (Some tb) in
  Ok (tb, if exit_request then set_current s k None else s).

(** The block is on one of the lists of the hash table. *)
Definition on_hash (s : Exec) (t : nat) : Prop :=
  exists h l, chain (hlink (hviews s).1 (hviews s).2) (hlink (hviews s).1 (hviews s).2 (Bucket h)) None (HashNext <$> l) /\ t ∈ l.

Lemma on_hash_live s live t : hash_ok s live -> on_hash s t <-> t ∈ live.
Proof.
  intros [H W]. split.
  - intros (h & l & C & Ht). assert (l = H h) as ->; [|by apply (h_elem _ _ _ _ _ W) in Ht as [? _]].
    apply (inj (fmap HashNext)). exact (chain_functional _ _ _ _ C (h_chain _ _ _ _ _ W h)).
  - intros Ht. exists (block_hash s t), (H (block_hash s t)). split; [apply (h_chain _ _ _ _ _ W) | by apply (h_elem _ _ _ _ _ W)].
Qed.

(** C14: An invalidated block is found nowhere any more.  [tb_phys_invalidate] of
    a block in the cache returns; afterwards the block is in no bucket of the
    hash table, on no list of a page and in no jump cache, none of its exits is
    on the list of another block, and no exit of another block in the cache goes
    to it, while all other exits of such blocks go where they went; the other
    blocks are all still there, in order.  (The jumps of the block itself are
    left as they are, also one to itself: [self_jump_survives].) *)
Theorem tb_phys_invalidate_forgets s live t : cached s live -> t ∈ live ->
  exists s', tb_phys_invalidate s t NO_PAGE = Ok s' /\ cached s' (live ∖ {[t]}) /\
    ~ on_hash s' t /\
    (forall i l n, listed s' i l -> (t, n) ∉ l) /\
    (forall env h, env ∈ cpus s' -> tb_jmp_cache env !! h <> Some t) /\
    (forall n, is_jump (t, n) -> link s' (t, n) = None) /\
    (forall r, is_jump r -> r.1 ∈ live -> r.1 <> t -> target s' r = if decide (target s r = Some t) then None else target s r) /\
    (forall u, u <> t -> on_hash s u -> on_hash s' u).
Proof.
  intros C Ht. destruct (invalidate_ok s live t C Ht) as (s' & A & C' & I). exists s'.
  split_and!; [done | done | | | | apply (i_dead _ _ _ _ I) | apply (i_jumps _ _ _ _ I) |].
  - rewrite (on_hash_live s' (live ∖ {[t]})) by apply C'. set_solver.
  - intros i l n L Hn. destruct (c_page _ _ C') as (P & W & _). rewrite (listed_paged s' _ _ P i l W L) in Hn.
    apply (p_elem _ _ _ _ _ W) in Hn as [[[Hl _] _] _]. cbn in Hl. set_solver.
  - intros env h He Hh. destruct (c_caches _ _ C' env h t He Hh) as [Hl _]. set_solver.
  - intros u Hu. rewrite (on_hash_live s live), (on_hash_live s' (live ∖ {[t]})) by (apply C || apply C'). set_solver.
Qed.

Lemma translator_frame room s s' live : translator room s live -> jmp_frame s s' -> Wired s' live -> translator room s' live.
Proof.
  intros [C K R] F W. pose proof (trimmed_frame s s' F) as T.
  split; [by apply (cached_frame s) | by apply (trimmed_codes s) | by apply (trimmed_room s)].
Qed.

Lemma translator_current room s live k c : translator room s live -> translator room (set_current s k c) live.
Proof. intros [C K R]. split; [by apply set_current_ok | by apply (codes_view s) | by apply (room_same s)]. Qed.

Lemma translator_flag room s live v : translator room s live -> translator room (s <| tb_invalidated_flag := v |>) live.
Proof.
  intros [C K R]. split; [|by apply (codes_view s) | by apply (room_same s)].
  apply (cached_local s); try done. destruct (c_base _ _ C). by split.
Qed.

Section Loop.
Context (gen : TranslationBlock -> GenResult) (room : Z) (k : nat) (HT : translates gen room).

(** Between two blocks, and while one runs: the translator's lists are in order, the
    CPU's jump cache is up to date, and its current block is live or alone. *)
Record running (phys : Z -> Z) (s : Exec) (live : gset nat) : Prop := {
  rn_translator : translator room s live;
  rn_maps : maps_code phys (ram s);
  rn_cpu : cpu_ok s live (Some k);
  rn_fresh env : cpus s !! k = Some env -> fresh phys s env
}.

Lemma current_cpu s live e c : cpus s !! k = Some e -> (forall t, c = Some t -> t ∈ live) -> cpu_ok (set_current s k c) live (Some k).
Proof. intros E H k' [= <-]. exists (e <| current_tb := c |>). split; [by apply current_at|]. cbn. auto. Qed.

Lemma fresh_current phys s c : (forall env, cpus s !! k = Some env -> fresh phys s env) ->
  forall env, cpus (set_current s k c) !! k = Some env -> fresh phys (set_current s k c) env.
Proof. intros F env E. eapply older_fresh; [|exact F | exact E]. by apply older_same, alter_field. Qed.

Lemma running_current phys s live c : running phys s live -> (forall t, c = Some t -> t ∈ live) -> running phys (set_current s k c) live.
Proof.
  intros [T M C F] H. destruct (C k eq_refl) as (e & Ek & _). split; [by apply translator_current | done | by apply (current_cpu s live e) |].
  by apply fresh_current.
Qed.

Lemma running_older phys s s' live live' : running phys s live -> translator room s' live' -> same_ram (ram s) (ram s') ->
  cpu_ok s' live' (Some k) -> older s s' -> running phys s' live'.
Proof. intros [T M C F] T' S C' O. split; [done | by apply (maps_same phys (ram s)) | done | intros env; by apply (older_fresh phys s)]. Qed.

Lemma older_frame s s' : jmp_frame s s' -> older s s'.
Proof. intros F. apply (tm_older s s'). by apply trimmed_frame. Qed.

(** Entering a block from a state that is in order. *)
Lemma enter_block_ok phys s live next exit pc0 cs_base0 flags0 : running phys s live -> 0 <= pc0 < 2 ^ 32 ->
  (forall u n, next = Some (u, n) -> u ∈ live /\ is_jump (u, n)) ->
  exists t s' live', enter_block phys gen s k next exit pc0 cs_base0 flags0 = Ok (t, s') /\ running phys s' live' /\
    t ∈ live' /\ block_for phys pc0 cs_base0 flags0 s' t.
Proof.
  intros [T M C F] Hpc Hn. destruct (C k eq_refl) as (e & Ek & _). unfold enter_block.
  destruct (find_fast_ok phys gen room pc0 cs_base0 flags0 s live k e HT Hpc T M Ek (F e Ek)) as (t & s1 & live1 & -> & [T1 L1 B1 _ S1 K1 C1 F1]).
  cbn [res_bind]. set (p := if nz _ then _ else _). destruct p as [next' s2] eqn:Ep. subst p.
  assert (H2 : translator room s2 live1 /\ tbs s2 = tbs s1 /\ cpus s2 = cpus s1 /\ ram s2 = ram s1 /\
    forall u n, next' = Some (u, n) -> u ∈ live1 /\ is_jump (u, n)).
  { destruct (nz (tb_invalidated_flag s1)) eqn:Ef; injection Ep as <- <-.
    - split_and!; [by apply translator_flag | done..].
    - split_and!; [done..|]. intros u n Eu. apply negb_false_iff, Z.eqb_eq in Ef. destruct (Hn u n Eu). split; [by apply K1 | done]. }
  destruct H2 as (T2 & Et2 & Ec2 & Er2 & Hn2).
  assert (H3 : exists s3, match next' with
    | None => Ok s2
    | Some (u, n) => let* b := tb_at s2 t in if get2 (page_addr b) 1 =? NO_PAGE then tb_add_jump s2 u n t else Ok s2
    end = Ok s3 /\ jmp_frame s2 s3 /\ Wired s3 live1).
  { pose proof (c_wired _ _ (t_cached _ _ _ T2)) as W2. destruct next' as [[u n]|]; [|exists s2; split_and!; [done | apply jmp_frame_refl | done]].
    destruct (Hn2 u n eq_refl) as [Hu J]. destruct (live_at s2 live1 t W2 L1) as (b & _ & ->). cbn [res_bind].
    destruct (_ =? NO_PAGE); [|exists s2; split_and!; [done | apply jmp_frame_refl | done]].
    destruct (add_jump_ok s2 live1 u n t W2 Hu L1 J) as (s3 & -> & W3 & F3 & _). by exists s3. }
  destruct H3 as (s3 & -> & F3 & W3). cbn [res_bind]. set (s4 := if exit then _ else _). exists t, s4, live1. split; [done|].
  assert (R3 : cpus s3 = cpus s1 /\ ram s3 = ram s1 /\ cview <$> tbs s3 = cview <$> tbs s1).
  { destruct (frame_views s2 s3 F3) as (V & _). destruct F3 as [E3 _]. rewrite <- Et2, <- Ec2, <- Er2, V. by rewrite E3. }
  destruct R3 as (Ec3 & Er3 & V3).
  assert (exists e3, cpus s3 !! k = Some e3) as [e3 E3].
  { rewrite Ec3. apply (lookup_lt_is_Some_2 (cpus s1)). apply lookup_lt_Some in Ek. apply (f_equal length) in C1. rewrite !length_map in C1. lia. }
  assert (Rn : running phys (set_current s3 k (Some t)) live1).
  { split.
    - apply translator_current. by apply (translator_frame room s2).
    - apply (maps_same phys (ram s)); [done|]. change (same_ram (ram s) (ram s3)). by rewrite Er3.
    - apply (current_cpu s3 live1 e3); [done|]. by intros ? [= <-].
    - apply fresh_current. intros env. apply (older_fresh phys s1); [by apply older_same; [|rewrite Ec3] | exact F1]. }
  split_and!; [|done|].
  - unfold s4. destruct exit; [|done]. by apply running_current.
  - assert (H4 : cview <$> tbs s4 = cview <$> tbs s1) by (unfold s4; by destruct exit).
    destruct B1 as (b & Eb & P1 & P2 & P3 & Cu). destruct (view_lookup cview s4 s1 t b (eq_sym H4) Eb) as (b4 & E4 & V).
    exists b4. split; [done|]. pose proof (current_view phys b b4 (eq_sym V) Cu). injection V as V1 V2 V3' V4 V5. split_and!; first [done | congruence].
Qed.

End Loop.

(** ** Flushing the TLB *)

Lemma empty_not_direct h : ~ direct s_cputlb_empty_entry h.
Proof. by intros [D _]. Qed.

Lemma flush_entry env t te : t ∈ tlb_table (tlb_flush env) -> te ∈ t -> te = s_cputlb_empty_entry.
Proof. unfold tlb_flush. cbn. intros (t0 & -> & _)%list_elem_of_fmap (e & -> & _)%list_elem_of_fmap. done. Qed.

Lemma flush_page_entries env a t te : t ∈ tlb_table (tlb_flush_page env a) -> te ∈ t ->
  te = s_cputlb_empty_entry \/ exists t0, t0 ∈ tlb_table env /\ te ∈ t0.
Proof.
  unfold tlb_flush_page. cbn. intros (t0 & -> & Ht)%list_elem_of_fmap Hte. unfold update_entry in Hte.
  apply elem_of_alter in Hte as [Hte|(e & He & ->)]; [eauto|]. destruct (_ || _ || _); eauto.
Qed.

Section Remap.
Context (room : Z) (k : nat).

Lemma running_set phys phys' s live m env env' : running room k phys s live -> cpus s !! k = Some env -> same_ram (ram s) m ->
  maps_code phys' (ram s) -> translator room (set_cpu s k m env') live -> current_tb env' = current_tb env \/ current_tb env' = None ->
  fresh phys' s env' -> running room k phys' (set_cpu s k m env') live.
Proof.
  intros [T M C F] Ek S M' T' Hc Fr. assert (E' : cpus (set_cpu s k m env') !! k = Some env').
  { cbn. rewrite list_lookup_insert_eq; [done|]. by apply lookup_lt_Some in Ek. }
  split; [done | by apply (maps_same phys' (ram s)) | | intros e; rewrite E'; by intros [= <-]].
  intros k' [= <-]. exists env'. split; [done|]. destruct (C k eq_refl) as (e & Ek' & Hl). rewrite Ek in Ek'. injection Ek' as <-.
  intros t Ht. destruct Hc as [Hc|Hc]; [|congruence]. rewrite Hc in Ht. exact (Hl t Ht).
Qed.

Lemma remap_page_ok phys phys' s live env a : running room k phys s live -> cpus s !! k = Some env ->
  maps_code phys' (ram s) -> (forall x, page_start x <> page_start a -> phys' x = phys x) ->
  running room k phys' (set_cpu s k (ram s) (tlb_flush_page env a)) live.
Proof.
  intros R Ek M' Hp. pose proof R as [T M C F]. pose proof (t_cached _ _ _ T) as Ch.
  assert (He : env ∈ cpus s) by (by eapply list_elem_of_lookup_2).
  apply (running_set phys phys' s live (ram s) env); [done | done | apply same_ram_refl | done | | by right |].
  - apply (set_cpu_ok room s live k (ram s) env); [done | done | apply same_ram_refl | done | |].
    + intros h t Ht. unfold tlb_flush_page in Ht. cbv zeta in Ht. by apply flush_jmp_keeps in Ht as (Ht & _).
    + intros p t te _ [_ N] Ht Hte. destruct (flush_page_entries env a t te Ht Hte) as [->|(t0 & Ht0 & Hin)]; [apply empty_not_direct | by apply (N env t0 te)].
  - apply (flush_page_ok phys phys' s live env a); [done | done | by apply F | | done].
    intros t b Ht E. apply (ad_pc b). by apply (b_addrs _ _ (c_base _ _ Ch) t).
Qed.

Lemma remap_all_ok phys phys' s live env : running room k phys s live -> cpus s !! k = Some env -> maps_code phys' (ram s) ->
  running room k phys' (set_cpu s k (ram s) (tlb_flush env)) live.
Proof.
  intros R Ek M'. pose proof R as [T M C F].
  apply (running_set phys phys' s live (ram s) env); [done | done | apply same_ram_refl | done | | by right |].
  - apply (set_cpu_ok room s live k (ram s) env); [done | done | apply same_ram_refl | done | done |].
    intros p t te _ _ Ht Hte. rewrite (flush_entry env t te Ht Hte). apply empty_not_direct.
  - by intros h t b Ht.
Qed.

End Remap.

(** ** The steps of the machine *)

(** The state of the execution loop: [next_tb] is the exit the last block was left
    through, [mapping] the physical addresses of the code the CPU sees. *)
Record Mach := mkMach {
  exec : Exec;
  mapping : Z -> Z;
  next_tb : option Ref
}.

Section Steps.
Context (gen : TranslationBlock -> GenResult) (irq : bool) (restore : nat -> Z * Z * Z) (k : nat).

Inductive step (m : Mach) : Mach -> Prop :=
(** A turn of the loop: look up, chain, enter. *)
| step_enter exit pc0 cs_base0 flags0 t s' : 0 <= pc0 < 2 ^ 32 ->
    enter_block (mapping m) gen (exec m) k (next_tb m) exit pc0 cs_base0 flags0 = Ok (t, s') ->
    step m (mkMach s' (mapping m) None)
(** S2E unchains the block for a native run. *)
| step_native env t smask klee s' : cpus (exec m) !! k = Some env -> current_tb env = Some t -> on_hash (exec m) t -> prepare_native (exec m) t smask = Ok (klee, s') ->
    step m (mkMach s' (mapping m) (next_tb m))
(** The block has run and is left through one of its exits, or otherwise. *)
| step_leave u n : on_hash (exec m) u -> is_jump (u, n) -> step m (mkMach (set_current (exec m) k None) (mapping m) (Some (u, n)))
| step_return : step m (mkMach (set_current (exec m) k None) (mapping m) None)
(** While the block runs, it stores to a page that is not dirty ... *)
| step_store a w p s' : next_tb m = None -> 0 <= a -> 1 <= w <= 4 -> a mod 8 + w <= 8 ->
    ram_page (ram (exec m)) (page_start a) -> io_page (exec m) k a ->
    (forall t, on_hash (exec m) t -> block_page (exec m) (t, 0) = Some (a / 4096) -> block_page (exec m) (t, 1) <> Some (a / 4096)) ->
    s2e_notdirty_mem_write (mapping m) gen irq restore (exec m) k a = Ok (p, s') ->
    step m (mkMach s' (mapping m) None)
(** ... makes a TLB entry ... *)
| step_fill symbolic watch pm vaddr paddr prot mmu env ram' env' : cpus (exec m) !! k = Some env ->
    vaddr mod 4096 = 0 -> 0 <= vaddr < 2 ^ 32 ->
    (forall p, phys_page_find pm (Z.shiftr paddr TARGET_PAGE_BITS) = Some p -> phys_page_ok (ram (exec m)) (phys_offset p)) ->
    tlb_set_page_exec symbolic watch pm (ram (exec m)) env vaddr paddr prot mmu = (ram', env') ->
    step m (mkMach (set_cpu (exec m) k ram' env') (mapping m) (next_tb m))
(** ... or changes the mapping of a page, or all of it. *)
| step_remap_page a phys' env : cpus (exec m) !! k = Some env -> maps_code phys' (ram (exec m)) ->
    (forall x, page_start x <> page_start a -> phys' x = mapping m x) ->
    step m (mkMach (set_cpu (exec m) k (ram (exec m)) (tlb_flush_page env a)) phys' (next_tb m))
| step_remap_all phys' env : cpus (exec m) !! k = Some env -> maps_code phys' (ram (exec m)) ->
    step m (mkMach (set_cpu (exec m) k (ram (exec m)) (tlb_flush env)) phys' (next_tb m))
(** An interrupt is requested. *)
| step_unlink s' : cpu_unlink_tb (exec m) k = Ok s' -> step m (mkMach s' (mapping m) (next_tb m))
(** All blocks are thrown away between two of them. *)
| step_flush s' : tb_flush (set_current (exec m) k None) = Ok s' -> step m (mkMach s' (mapping m) None).

End Steps.

(** ** The invariant of the machine *)

(** The translator after [cpu_exec_init_all], with nothing translated. *)
Record booted (room : Z) (k : nat) (m : Mach) : Prop := {
  bt_blocks : Z.of_nat (length (tbs (exec m))) = code_gen_max_blocks (exec m);
  bt_empty : nb_tbs (exec m) = 0 /\ tb_phys_hash (exec m) = ∅ /\ l1_map (exec m) = ∅;
  bt_ptr : code_gen_ptr (exec m) = code_gen_buffer (exec m);
  bt_room : room_ok (exec m) room;
  bt_size : 0 <= code_gen_buffer_size (exec m);
  bt_caches env : env ∈ cpus (exec m) -> tb_jmp_cache env = ∅ /\ current_tb env = None;
  bt_cpu : (k < length (cpus (exec m)))%nat;
  bt_mem : mem_ok (ram (exec m));
  bt_maps : maps_code (mapping m) (ram (exec m));
  bt_next : next_tb m = None
}.

Lemma booted_cached room k m : booted room k m -> cached (exec m) ∅.
Proof.
  intros [B (E1 & E2 & E3) P R Z Cs Ck M Mp N]. set (s := exec m) in *. split.
  - pose proof (rm_blocks _ _ R). split; [lia | done | set_solver | | set_solver]. intros j l. rewrite E3. done.
  - apply wired_empty.
  - exists (fun _ => []). unfold hviews. rewrite E2. apply hashed_nil.
  - exists (fun _ => []). split.
    + eapply paged_ext; [apply (paged_nil _ (fun _ => None) (block_page s)); done | | unfold links; set_solver | done].
      intros i. unfold first_of, page_find. by rewrite E3.
    + intros i p bm. unfold page_find. by rewrite E3.
  - intros env h t He. destruct (Cs env He) as [-> _]. done.
  - done.
  - intros r i [Hr _]. set_solver.
Qed.

Section Invariant.
Context (gen : TranslationBlock -> GenResult) (irq : bool) (restore : nat -> Z * Z * Z) (room : Z) (k : nat).
Context (HT : translates gen room) (HR : forall t, 0 <= (restore t).1.1 < 2 ^ 32).

Definition sound (m : Mach) (live : gset nat) : Prop :=
  running room k (mapping m) (exec m) live /\ forall u n, next_tb m = Some (u, n) -> u ∈ live /\ is_jump (u, n).

Lemma booted_sound m : booted room k m -> sound m ∅.
Proof.
  intros B. pose proof (booted_cached room k m B) as C. destruct B as [B (E1 & E2 & E3) P R Z Cs Ck M Mp N].
  split; [|by rewrite N]. destruct (lookup_lt_is_Some_2 _ _ Ck) as [env Ek].
  destruct (Cs env ltac:(by eapply list_elem_of_lookup_2)) as [J U]. split; [split | done | |].
  - done.
  - split; try lia.
  - done.
  - intros k' [= <-]. exists env. split; [done|]. by rewrite U.
  - intros e He. rewrite Ek in He. injection He as <-. intros h t b. by rewrite J.
Qed.

Lemma sound_hash m live t : sound m live -> on_hash (exec m) t <-> t ∈ live.
Proof. intros [R _]. apply on_hash_live, (c_hash _ _ (t_cached _ _ _ (rn_translator _ _ _ _ _ R))). Qed.

Lemma native_sound m live env t smask klee s' : sound m live -> cpus (exec m) !! k = Some env -> current_tb env = Some t ->
  t ∈ live -> prepare_native (exec m) t smask = Ok (klee, s') -> sound (mkMach s' (mapping m) (next_tb m)) live.
Proof.
  intros [R N] Ek Ec Ht A. split; [|done]. pose proof (rn_translator _ _ _ _ _ R) as T.
  destruct (prepare_ok (exec m) live t smask (c_wired _ _ (t_cached _ _ _ T)) Ht) as (klee' & s1 & A' & W & [F _] & _).
  rewrite A in A'. injection A' as <- <-. pose proof F as [E _]. cbn [exec mapping].
  apply (running_older room k (mapping m) (exec m) s' live live); [done | by apply (translator_frame room (exec m)) | by rewrite E | | by apply older_frame].
  intros k' [= <-]. exists env. rewrite E. split; [done|]. intros u Hu. left. congruence.
Qed.

Lemma store_sound m live a w p s' : sound m live -> next_tb m = None -> 0 <= a -> 1 <= w <= 4 -> a mod 8 + w <= 8 ->
  ram_page (ram (exec m)) (page_start a) -> io_page (exec m) k a -> once (exec m) live (a / 4096) ->
  s2e_notdirty_mem_write (mapping m) gen irq restore (exec m) k a = Ok (p, s') ->
  exists live', sound (mkMach s' (mapping m) None) live'.
Proof.
  intros [R N] Hn H0 Hw H8 Ra Io O A. pose proof R as [T M C F].
  destruct (s2e_store_ok (mapping m) gen room irq restore HT HR (exec m) live k a w) as (p' & s1 & live1 & A' & T1 & S1 & C1 & O1 & _); [by split | lia |].
  rewrite A in A'. injection A' as <- <-. exists live1. split; [|done]. by apply (running_older room k (mapping m) (exec m) s' live live1).
Qed.

Lemma flush_sound m live s' : sound m live -> tb_flush (set_current (exec m) k None) = Ok s' -> sound (mkMach s' (mapping m) None) ∅.
Proof.
  intros [R _] A. destruct (rn_cpu _ _ _ _ _ R k eq_refl) as (e0 & Ek0 & _).
  apply (running_current room k _ _ _ None) in R; [|done]. pose proof (current_at _ _ None _ Ek0) as Ek1.
  set (s := set_current (exec m) k None) in *. clearbody s.
  destruct R as [[C K Rm] M Cp F].
  destruct (flush_ok s live C (k_high _ K)) as (s1 & A' & C1 & N1 & P1 & E1 & T1 & J1). rewrite A in A'. injection A' as <-.
  split; [|done]. cbn [exec mapping]. split; [split | | |].
  - done.
  - pose proof (k_low _ K). pose proof (k_high _ K).
    split; rewrite ?N1, ?P1; try lia; rewrite E1; cbn; try done; lia.
  - apply (room_same s); [done | by rewrite E1..].
  - by rewrite E1.
  - intros k' [= <-]. destruct (Cp k eq_refl) as (e & Ek & _). destruct (lookup_lt_is_Some_2 (cpus s') k) as [e' Ek'].
    { apply (f_equal length) in J1. rewrite !length_map in J1. rewrite J1. by apply lookup_lt_Some in Ek. }
    exists e'. split; [done|]. destruct (caches_from_at (cpus s) (cpus s') k e' (or_intror J1) Ek') as (e1 & Ec & -> & _).
    rewrite Ek1 in Ec. by injection Ec as <-.
  - intros env' E' h t b Ht. destruct (emptied_at (cpus s) (cpus s') k env' J1 E') as (? & _ & Ee). by rewrite Ee in Ht.
Qed.
Lemma step_sound m m' live : sound m live -> step gen irq restore k m m' -> exists live', sound m' live'.
Proof.
  intros S St. pose proof S as [R N]. destruct (rn_cpu _ _ _ _ _ R k eq_refl) as (e & Ek & He).
  destruct St as [exit pc0 cs0 fl0 t s' Hpc A | env t smask klee s' Ee Ec Ht A | u n Hu J | | a w p s' Hn H0 Hw H8 Ra Io O A
    | symbolic watch pm vaddr paddr prot mmu env m' env' Ee Hv Hr Hp A | a phys' env Ee M' Hp | phys' env Ee M' | s' A | s' A].
  - destruct (enter_block_ok gen room k HT (mapping m) (exec m) live (next_tb m) exit pc0 cs0 fl0 R Hpc N) as (t' & s1 & live1 & A' & R1 & _).
    rewrite A in A'. injection A' as <- <-. by exists live1.
  - exists live. apply (native_sound m live env t smask klee); try done. by apply (sound_hash m live).
  - exists live. split; [by apply running_current|]. intros ? ? [= <- <-]. by rewrite <- (sound_hash m live).
  - exists live. by split; [apply running_current|].
  - eapply store_sound; try done. intros t Ht B0 B1. by apply (O t); [apply (sound_hash m live)|..].
  - exists live. split; [|done]. pose proof (rn_translator _ _ _ _ _ R) as T.
    pose proof (set_page_ok _ _ _ _ _ _ _ _ _ _ _ _ _ _ T Ee Hv Hr Hp A) as T'.
    assert (Em : same_ram (ram (exec m)) m' /\ current_tb env' = current_tb env /\ tb_jmp_cache env' = tb_jmp_cache env).
    { unfold tlb_set_page_exec in A. pose proof (get_ram_ptr_perm (ram_blocks (ram (exec m))) (page_start
        match phys_page_find pm (Z.shiftr paddr TARGET_PAGE_BITS) with None => IO_MEM_UNASSIGNED | Some p => phys_offset p end)) as P.
      destruct (qemu_get_ram_ptr _ _). injection A as <- <-. by split. }
    destruct Em as (Em & Ec & Ej).
    apply (running_set room k (mapping m) (mapping m) (exec m) live m' env); [done | done | done | apply R | done | by left |].
    intros h t b. rewrite Ej. by apply (rn_fresh _ _ _ _ _ R env).
  - exists live. split; [by apply (remap_page_ok room k (mapping m)) | done].
  - exists live. split; [by apply (remap_all_ok room k (mapping m)) | done].
  - exists live. split; [|done]. pose proof (rn_translator _ _ _ _ _ R) as [C K Rm].
    destruct (cpu_unlink_ok (exec m) live k C (rn_cpu _ _ _ _ _ R)) as (s1 & A' & C1 & Cp1 & T1 & _). rewrite A in A'. injection A' as <-.
    apply (running_older room k (mapping m) (exec m) s' live live); [done | | by rewrite (tm_ram _ _ T1) | done | apply T1].
    split; [done | by apply (trimmed_codes (exec m)) | by apply (trimmed_room (exec m))].
  - exists ∅. by apply (flush_sound m live).
Qed.

Lemma reachable_sound m0 m : booted room k m0 -> rtc (step gen irq restore k) m0 m -> exists live, sound m live.
Proof.
  intros B R. assert (H : exists live, sound m0 live) by (exists ∅; by apply booted_sound). clear B.
  induction R as [|m1 m2 m3 St R IH]; [done|]. destruct H as [live S]. apply IH. by apply (step_sound m1 m2 live).
Qed.

(** C5: The translator is safe in every reachable state.  From the state after
    initialisation, whatever sequence of blocks is looked up, chained,
    unchained, run and left, and whatever stores, TLB refills, changes of the
    mapping, interrupts and flushes come in between (where the steps are: a
    block is left through an exit while it is in the cache, not after a store to
    its own code; stores through the handler have at most four bytes, do not
    cross a boundary of eight, and go to pages on which no block lies with both
    of its pages; code is mapped page by page to RAM; translations have at most
    a page of code and fit in the room left): (1) no page with
    translated code can be stored to directly through the TLB, so that every
    such store reaches the handler that invalidates the code; (2) every block in
    the jump cache of the CPU was translated from the physical bytes its code is
    mapped to now; (3) the next turn of the loop does not fail, and enters a
    block made for the CPU's address, segment base and flags from the bytes that
    its code is mapped to now. *)
Theorem translator_safe m0 m : booted room k m0 -> rtc (step gen irq restore k) m0 m ->
  (forall t n i, on_hash (exec m) t -> is_jump (t, n) -> block_page (exec m) (t, n) = Some i ->
    protected (ram (exec m)) (cpus (exec m)) (i * 4096)) /\
  (forall env, cpus (exec m) !! k = Some env -> fresh (mapping m) (exec m) env) /\
  (forall exit pc0 cs_base0 flags0, 0 <= pc0 < 2 ^ 32 ->
    exists t s', enter_block (mapping m) gen (exec m) k (next_tb m) exit pc0 cs_base0 flags0 = Ok (t, s') /\
      on_hash s' t /\ block_for (mapping m) pc0 cs_base0 flags0 s' t).
Proof.
  intros B St. destruct (reachable_sound m0 m B St) as [live S]. pose proof S as [R N]. split_and!.
  - intros t n i Ht J Bp. apply (sound_hash m live) in Ht; [|done].
    by destruct (c_guard _ _ (t_cached _ _ _ (rn_translator _ _ _ _ _ R)) (t, n) i (conj Ht J) Bp).
  - apply R.
  - intros exit pc0 cs0 fl0 Hpc.
    destruct (enter_block_ok gen room k HT (mapping m) (exec m) live (next_tb m) exit pc0 cs0 fl0 R Hpc N) as (t & s' & live' & A & R' & Ht & Bf).
    exists t, s'. split_and!; [done | | done].
    by apply (on_hash_live s' live'), Ht; apply (c_hash _ _ (t_cached _ _ _ (rn_translator _ _ _ _ _ R'))).
Qed.

End Invariant.

End TbMachine.
