(* ===== verification/TbRuns.v ===== *)
(** * Runs of the translator

    A small machine with 64 KB of RAM and room for four blocks, on which the
    operations of the translator are executed: instances of the theorems of
    [SoftTlb], [TbJumps], [TbGen], [TbSmc] and [TbMachine], and two cases in
    which the code does not do what it means to. *)

From Stdlib Require Import ZifyBool.
From stdpp Require Import gmap.
From S2P Require Import Prelude Chains SoftTlb TbCache TbJumps TbLists TbInv TbGen TbSmc TbMachine.

Module TbRuns.
Import SoftTlb TbCache TbJumps TbLists TbInv TbGen TbSmc TbMachine.

(** ** The machine *)

Definition demo_ram : Ram := mkRam [mkRAMBlock 0x10000000 0 0x10000] (replicate 16 0xff).
Definition demo_cpu : CPUCommon :=
  mkCPUCommon (replicate 2 (replicate 256 s_cputlb_empty_entry)) (replicate 2 (replicate 256 0)) ∅ None [] 0 0.
Definition blank : TranslationBlock :=
  mkTB 0 0 0 0 0 0 None (mkTwo None None) (mkTwo 0 0) (mkTwo 0 0) (mkTwo 0 0) (mkTwo None None) None (mkTwo None None) 0 0 0.
Definition demo_exec : Exec := mkExec (replicate 4 blank) 0 4 ∅ ∅ 0x20000000 4096 1024 0x20000000 0 0 0 [demo_cpu] demo_ram.

(** Code is mapped to RAM modulo its size; blocks are two bytes long, and those
    at odd multiples of 16 have a helper that reads memory. *)
Definition demo_phys (a : Z) : Z := a mod 0x10000.
Definition demo_gen (b : TranslationBlock) : GenResult :=
  mkGenResult 2 (mkTwo 8 12) 1 1 (if Z.testbit (pc b) 4 then 4 else 0) 32.
Definition demo_mach : Mach := mkMach demo_exec demo_phys None.

Lemma demo_translates : translates demo_gen 64.
Proof. split; intros b; cbn; lia. Qed.

Lemma demo_ram_page p : ram_page demo_ram p <-> p mod 4096 = 0 /\ 0 <= p < 0x10000.
Proof.
  unfold ram_page. split.
  - intros (H1 & b & Hb & Ha). cbn in Hb. apply list_elem_of_singleton in Hb as ->. apply block_has_spec in Ha. cbn in Ha. lia.
  - intros [H1 H2]. split; [done|]. eexists. split; [by left|]. apply block_has_spec. cbn. lia.
Qed.

Lemma demo_mem_ok : mem_ok demo_ram.
Proof.
  split.
  - split.
    + intros b ->%list_elem_of_singleton. cbn. split_and!; done || lia.
    + by intros b c a ->%list_elem_of_singleton ->%list_elem_of_singleton.
    + by intros b c a ->%list_elem_of_singleton ->%list_elem_of_singleton.
  - intros p [_ H]%demo_ram_page. cbn. apply Z.div_lt_upper_bound; lia.
Qed.

Lemma demo_maps m : same_ram demo_ram m -> maps_code demo_phys m.
Proof.
  intros S. apply (maps_same demo_phys demo_ram); [|done]. clear. split; intros a; unfold demo_phys.
  - rewrite !page_offset_eq. by rewrite <- Znumtheory.Zmod_div_mod by (done || by exists 16).
  - intros b. rewrite !page_start_eq. Z.div_mod_to_equations. lia.
  - pose proof (Z.mod_pos_bound a 0x10000 ltac:(done)). unfold RAM_LIMIT. lia.
  - rewrite page_start_eq. apply demo_ram_page. pose proof (Z.mod_pos_bound a 0x10000 ltac:(done)).
    split; [by apply Z.mod_mul|]. pose proof (Z.div_mod (a mod 0x10000) 4096 ltac:(done)).
    pose proof (Z.mod_pos_bound (a mod 0x10000) 4096 ltac:(done)). split; [|lia]. apply Z.mul_nonneg_nonneg; [apply Z.div_pos|]; lia.
Qed.

Lemma demo_booted : booted 64 0 demo_mach.
Proof.
  split; try done.
  - by intros env ->%list_elem_of_singleton.
  - cbn. lia.
  - apply demo_mem_ok.
  - by apply demo_maps.
Qed.

(** ** Executing steps *)

Definition restore0 (t : nat) : Z * Z * Z := (0, 0, 0).

(** Entering the block at an address, and leaving it through its first exit. *)
Definition enter (pc0 : Z) (m : Mach) : Mach :=
  match enter_block (mapping m) demo_gen (exec m) 0 (next_tb m) false pc0 0 0 with
  | Ok (_, s') => mkMach s' (mapping m) None
  | Fail _ => m
  end.
Definition leave (t : nat) (m : Mach) : Mach := mkMach (set_current (exec m) 0 None) (mapping m) (Some (t, 0)).

Notation demo_step := (step demo_gen false restore0 0).

(** Two blocks at 0x1000 and 0x1010, the first chained to the second. *)
Definition m1 : Mach := enter 0x1000 demo_mach.
Definition m2 : Mach := enter 0x1010 (leave 0 m1).

Lemma enter_step pc0 m : 0 <= pc0 < 2 ^ 32 ->
  (match enter_block (mapping m) demo_gen (exec m) 0 (next_tb m) false pc0 0 0 with Ok _ => true | Fail _ => false end) = true ->
  demo_step m (enter pc0 m).
Proof.
  intros H E. unfold enter. destruct (enter_block _ _ _ _ _ _ _ _ _) as [[t s']|] eqn:A; [|done]. by eapply step_enter.
Qed.

Lemma m1_reached : rtc demo_step demo_mach m1.
Proof. apply rtc_once, enter_step; [lia | by vm_compute]. Qed.

Lemma m1_on_hash : on_hash (exec m1) 0.
Proof. exists (tb_phys_hash_func 0x1000), [0%nat]. split; [by vm_compute | by left]. Qed.

Lemma m2_reached : rtc demo_step demo_mach m2.
Proof.
  etrans; [apply m1_reached|]. eapply rtc_l; [apply (step_leave _ _ _ _ m1 0 0); [apply m1_on_hash | by left]|].
  apply rtc_once, enter_step; [lia | by vm_compute].
Qed.

Lemma m2_on_hash : on_hash (exec m2) 0 /\ on_hash (exec m2) 1.
Proof.
  split; [exists (tb_phys_hash_func 0x1000), [0%nat] | exists (tb_phys_hash_func 0x1010), [1%nat]]; (split; [by vm_compute | by left]).
Qed.

Lemma restore0_ok t : 0 <= (restore0 t).1.1 < 2 ^ 32.
Proof. cbn. lia. Qed.

(** What is live after the steps. *)
Lemma m2_sound : exists live, sound 64 0 m2 live /\ 0%nat ∈ live /\ 1%nat ∈ live.
Proof.
  destruct (reachable_sound demo_gen false restore0 64 0 demo_translates restore0_ok demo_mach m2 demo_booted m2_reached) as [live S].
  exists live. split; [done|]. destruct m2_on_hash. split; by apply (sound_hash 64 0 m2 live).
Qed.

(** ** Instances of the theorems *)

Lemma translator_safe_witness :
  protected (ram (exec m2)) (cpus (exec m2)) 0x1000 /\
  exists t s', enter_block (mapping m2) demo_gen (exec m2) 0 (next_tb m2) false 0x1010 0 0 = Ok (t, s') /\
    on_hash s' t /\ block_for (mapping m2) 0x1010 0 0 s' t.
Proof.
  destruct (translator_safe demo_gen false restore0 64 0 demo_translates restore0_ok demo_mach m2 demo_booted m2_reached) as (H1 & _ & H3).
  split; [|apply H3; lia]. apply (H1 0%nat 0 1); [apply m2_on_hash | by left | by vm_compute].
Defined.

Lemma prepare_native_sound_witness : exists klee s', prepare_native (exec m2) 0 2 = Ok (klee, s') /\
  (klee = true <-> ~ clean (exec m2) 2 0) /\ (klee = false -> forall t, reach s' 0 t -> clean s' 2 t).
Proof.
  destruct m2_sound as (live & [R _] & H0 & H1).
  destruct (prepare_native_sound (exec m2) live 0 2 (c_wired _ _ (t_cached _ _ _ (rn_translator _ _ _ _ _ R))) H0 ltac:(done))
    as (klee & s' & A & _ & _ & B & C). exists klee, s'. exact (conj A (conj B C)).
Defined.

Lemma cpu_unlink_tb_stops_witness : exists s', cpu_unlink_tb (set_current (exec m2) 0 (Some 0%nat)) 0 = Ok s' /\
  isolated s' 1 /\ (forall t, reach s' 0 t -> t = 0%nat).
Proof.
  destruct m2_sound as (live & [R _] & H0 & H1). apply (running_current 64 0 _ _ _ (Some 0%nat)) in R; [|by intros t [= <-]].
  set (s := set_current (exec m2) 0 (Some 0%nat)) in *.
  assert (E : exists env, cpus s !! 0%nat = Some env /\ current_tb env = Some 0%nat) by (eexists; split; vm_compute; reflexivity).
  destruct E as (env & E1 & E2).
  destruct (cpu_unlink_tb_stops s live 0 env 0 (c_wired _ _ (t_cached _ _ _ (rn_translator _ _ _ _ _ R))) E1 E2 H0)
    as (s' & A & _ & _ & I & Q).
  exists s'. split; [exact A|]. split; [|exact Q]. apply I. apply (reach_jump s 0 0 0); [constructor | by left | by vm_compute].
Defined.

Lemma tb_add_jump_wired_witness : exists s', tb_add_jump (exec m2) 1 0 0 = Ok s' /\ target s' (1%nat, 0) = Some 0%nat.
Proof.
  destruct m2_sound as (live & [R _] & H0 & H1).
  destruct (tb_add_jump_wired (exec m2) live 1 0 0 (c_wired _ _ (t_cached _ _ _ (rn_translator _ _ _ _ _ R))) H1 H0 (or_introl eq_refl))
    as (s' & A & _ & T). exists s'. split; [exact A|]. rewrite T by (by left). by vm_compute.
Defined.

Lemma tb_find_fast_correct_witness : exists t s', tb_find_fast demo_phys demo_gen (exec m2) 0 0x1000 0 0 = Ok (t, s') /\
  block_for demo_phys 0x1000 0 0 s' t.
Proof.
  destruct m2_sound as (live & [[T M C F] _] & _). destruct (C 0%nat eq_refl) as (env & E & _).
  destruct (tb_find_fast_correct demo_phys demo_gen 64 0x1000 0 0 (exec m2) live 0 env demo_translates ltac:(lia) T M E (F env E))
    as (t & s' & live' & A & Fd). exists t, s'. split; [exact A | apply Fd].
Defined.

Lemma tlb_flush_page_forgets_witness : exists env, cpus (exec m2) !! 0%nat = Some env /\
  fresh (fun a => if page_start a =? 0x1000 then page_offset a else demo_phys a) (exec m2) (tlb_flush_page env 0x1234).
Proof.
  destruct m2_sound as (live & [[T M C F] _] & _). destruct (C 0%nat eq_refl) as (env & E & _). exists env. split; [exact E|].
  apply (tlb_flush_page_forgets demo_phys _ (exec m2) live env 0x1234); [apply T | by eapply list_elem_of_lookup_2 | by apply F | |].
  - intros t b Ht Eb. apply (ad_pc b). by apply (b_addrs _ _ (c_base _ _ (t_cached _ _ _ T)) t).
  - intros x Hx. change (page_start 0x1234) with 0x1000 in Hx. by apply Z.eqb_neq in Hx as ->.
Defined.
Lemma tb_find_pc_finds_witness : exists t b, tb_find_pc (exec m2) 0x20000030 = Ok (Some t) /\ tbs (exec m2) !! t = Some b /\ tc_ptr b <= 0x20000030.
Proof.
  destruct m2_sound as (live & [[T M C F] _] & _).
  assert (Hn : 0 <= nb_tbs (exec m2) <= Z.of_nat (length (tbs (exec m2)))) by (by vm_compute).
  pose proof (tb_find_pc_finds (exec m2) 0x20000030 Hn (t_codes _ _ _ T)) as H. clear -H.
  assert (E1 : code_gen_buffer (exec m2) = 0x20000000) by (vm_compute; reflexivity).
  assert (E2 : code_gen_ptr (exec m2) = 0x20000040) by (vm_compute; reflexivity).
  assert (Hp : code_gen_buffer (exec m2) <= 0x20000030 < code_gen_ptr (exec m2)) by (rewrite E1, E2; clear; lia).
  destruct (decide _) as [_|Hd] in H; [|by destruct (Hd Hp)]. destruct H as (t & b & A & _ & E & Ht & _). exists t, b. exact (conj A (conj E Ht)).
Defined.

Lemma ram_ptr_roundtrip_witness :
  let '(p, bs') := qemu_get_ram_ptr (ram_blocks demo_ram) 0x1234 in qemu_ram_addr_from_host bs' p = Ok 0x1234.
Proof.
  pose proof (ram_ptr_roundtrip (ram_blocks demo_ram) 0x1234 (mkRAMBlock 0x10000000 0 0x10000) (m_ram _ demo_mem_ok)
    ltac:(by left) eq_refl) as H.
  destruct (qemu_get_ram_ptr (ram_blocks demo_ram) 0x1234) as [p bs']. apply H.
Defined.

(** The page of the two blocks gets a TLB entry for writing. *)
Definition demo_map : PhysMap := <[0 := map (fun i => mkPhysPageDesc (i * 4096) 0) (seqZ 0 16)]> ∅.
Definition m2_cpu : CPUCommon := match cpus (exec m2) with e :: _ => e | [] => demo_cpu end.

Lemma demo_map_ok m p : same_ram demo_ram m -> phys_page_find demo_map (Z.shiftr 0x1000 TARGET_PAGE_BITS) = Some p -> phys_page_ok m (phys_offset p).
Proof.
  intros S. vm_compute (phys_page_find _ _). intros [= <-]. left. split; [done|]. apply (same_ram_page demo_ram m); [done|].
  change (page_start (phys_offset {| phys_offset := 4096; region_offset := 0 |})) with 0x1000. by apply demo_ram_page.
Qed.

Lemma m2_ram : same_ram demo_ram (ram (exec m2)).
Proof. split; by vm_compute. Qed.

Lemma tlb_set_page_keeps_guard_witness :
  let '(m', env') := tlb_set_page_exec (fun _ => false) 0 demo_map (ram (exec m2)) m2_cpu 0x5000 0x1000 3 0 in
  exists live, translator 64 (set_cpu (exec m2) 0 m' env') live /\ 1%nat ∈ live.
Proof.
  destruct (tlb_set_page_exec (fun _ => false) 0 demo_map (ram (exec m2)) m2_cpu 0x5000 0x1000 3 0) as [m' env'] eqn:A.
  destruct m2_sound as (live & [[T M C F] _] & _ & H1). exists live. split; [|exact H1].
  eapply (tlb_set_page_keeps_guard 64 (fun _ => false) 0 demo_map (exec m2) live 0 m2_cpu 0x5000 0x1000 3 0);
    [exact T | by vm_compute | done | lia | | exact A].
  intros p. apply demo_map_ok, m2_ram.
Defined.

(** A store to the first block, by a CPU whose TLB has nothing for the page. *)
Lemma m2_store : exists live, store_ok demo_phys 64 (exec m2) live 0 0x1000 4.
Proof.
  destruct m2_sound as (live & [[T M C F] _] & H0 & H1). exists live. split; [exact T | exact M | exact C | lia | | | | by vm_compute].
  - apply (same_ram_page demo_ram), demo_ram_page; [apply m2_ram | by vm_compute].
  - intros e t te Ek Ht Hte Hw. exfalso. assert (Ee : tlb_table e = tlb_table demo_cpu /\ mem_io_vaddr e = 0).
    { assert (Ev : io_view <$> cpus (exec m2) !! 0%nat = Some (tlb_table demo_cpu, 0)) by (vm_compute; reflexivity).
      rewrite Ek in Ev. injection Ev as E1 E2. exact (conj E1 E2). }
    destruct Ee as [E1 E2]. rewrite E1 in Ht. rewrite E2 in Hw. cbn [tlb_table demo_cpu] in Ht.
    apply elem_of_replicate in Ht as [-> _]. apply elem_of_replicate in Hte as [-> _]. by vm_compute in Hw.
  - intros t Ht B0 B1. assert (Hl : (t < 2)%nat).
    { pose proof (b_live _ _ (c_base _ _ (t_cached _ _ _ T)) t Ht) as Hb. change (nb_tbs (exec m2)) with 2 in Hb. lia. }
    destruct t as [|[|t]]; [by vm_compute in B1..|lia].
Qed.

Lemma s2e_store_no_stale_witness : exists p s' live',
  s2e_notdirty_mem_write demo_phys demo_gen false restore0 (exec m2) 0 0x1000 = Ok (p, s') /\ translator 64 s' live' /\
  (p <> None -> forall t, t ∈ live' -> ~ code_at s' t 0x1001).
Proof.
  destruct m2_store as [live SO].
  destruct (s2e_store_no_stale demo_phys demo_gen 64 false restore0 demo_translates restore0_ok (exec m2) live 0 0x1000 4 SO ltac:(lia))
    as (p & s' & live' & A & T & _ & _ & _ & H). exists p, s', live'. split; [exact A|]. split; [exact T|].
  destruct p as [h|]; [|by intros []]. intros _ t Ht. destruct H as (_ & H & _). by apply H; [| lia | vm_compute].
Defined.

Lemma tb_phys_invalidate_forgets_witness : exists s', tb_phys_invalidate (exec m2) 1 NO_PAGE = Ok s' /\ ~ on_hash s' 1 /\
  on_hash s' 0 /\ target (exec m2) (0%nat, 0) = Some 1%nat /\ target s' (0%nat, 0) = None.
Proof.
  destruct m2_sound as (live & [[T M C F] _] & H0 & H1).
  destruct (tb_phys_invalidate_forgets (exec m2) live 1 (t_cached _ _ _ T) H1) as (s' & A & _ & N & _ & _ & _ & J & O).
  assert (E : target (exec m2) (0%nat, 0) = Some 1%nat) by (vm_compute; reflexivity).
  exists s'. split; [exact A|]. split; [exact N|]. split; [apply O; [done | apply m2_on_hash]|]. split; [exact E|].
  rewrite J, E by (by left || exact H0 || done). by rewrite decide_True.
Defined.

(** ** Where the code does not do what it means to *)

Lemma nowhere s t : tb_phys_hash s = ∅ -> ~ on_hash s t.
Proof.
  intros E (h & l & C & Ht). unfold hviews in C. cbn [fst snd] in C. rewrite E in C.
  destruct l as [|u l]; [by apply elem_of_nil in Ht|]. by destruct C as [C _].
Qed.

(** With no symbolic register, native execution is not prepared: S2E gives
    a block with a helper that reads memory to the symbolic executor, but does
    not unchain such a block from one that it runs natively, so that the block
    at 0x1010 is run natively when it is reached through its predecessor. *)
Theorem native_run_reaches_helper : exists s', prepare_native (exec m2) 0 0 = Ok (false, s') /\
  reach s' 0 1 /\ ~ clean s' 0 1 /\ (exists s1, prepare_native s' 1 0 = Ok (true, s1)).
Proof.
  eexists. split; [vm_compute; reflexivity|]. split_and!.
  - apply (reach_jump _ 0 0 0); [constructor | by left | vm_compute; reflexivity].
  - intros (b & E & T). vm_compute in E. injection E as <-. by vm_compute in T.
  - eexists. vm_compute. reflexivity.
Qed.

(** A block that is chained to itself keeps its own jump when it is invalidated:
    its exits are taken off the lists first, and only the jumps that are still on
    its list are reset. *)
Definition m4 : Mach := enter 0x1000 (leave 0 m1).

Theorem self_jump_survives : rtc demo_step demo_mach m4 /\
  exists s', tb_phys_invalidate (exec m4) 0 NO_PAGE = Ok s' /\ ~ on_hash s' 0 /\ target s' (0%nat, 0) = Some 0%nat /\
    exists b, tbs s' !! 0%nat = Some b /\ jmp_addr s' (0%nat, 0) = tc_ptr b.
Proof.
  split.
  - etrans; [apply m1_reached|]. eapply rtc_l; [apply (step_leave _ _ _ _ m1 0 0); [apply m1_on_hash | by left]|].
    apply rtc_once, enter_step; [lia | by vm_compute].
  - eexists. split; [vm_compute; reflexivity|]. split_and!; [apply nowhere | | eexists; split]; vm_compute; reflexivity.
Qed.

(** Two virtual pages on one physical page, and a block that spans them. *)
Definition twin_phys (a : Z) : Z := page_offset a.
Definition twin_gen (b : TranslationBlock) : GenResult := mkGenResult 4 (mkTwo 8 12) 0 0 0 32.
Definition twin : Exec := match tb_gen_code twin_phys twin_gen demo_exec 0x1ffe 0 0 0 with Ok (_, s) => s | Fail _ => demo_exec end.

(** A block whose two pages are the same physical page is on the list of
    that page twice, and the invalidation of the page takes it off twice:
    [tb_invalidate_phys_page_range] follows a null pointer. *)
Theorem twin_page_invalidation_fails :
  tbs twin !! 0%nat <> None /\ block_page twin (0%nat, 0) = Some 0 /\ block_page twin (0%nat, 1) = Some 0 /\
  tb_invalidate_phys_page_range twin_phys twin_gen false restore0 twin None 0 4096 false = Fail NullDeref.
Proof. split_and!; vm_compute; congruence || reflexivity. Qed.

(** Two blocks in the same four bytes, the second chained to the first; the CPU
    is in the second one, and [mem_io_pc] is zero, as it is in S2E. *)
Definition m3 : Mach :=
  let m := enter 0x1000 (leave 1 (enter 0x1002 m1)) in mkMach (set_current (exec m) 0 (Some 1%nat)) demo_phys None.

(** A block that stores to its own code and to that of the block it is chained
    to goes on: the handler invalidates both, but does not stop the CPU, and
    the jump of the running block, which is on no list any more, still goes to
    the old translation of the other one. *)
Theorem running_block_reaches_stale : exists host s',
  s2e_notdirty_mem_write demo_phys demo_gen false restore0 (exec m3) 0 0x1000 = Ok (Some host, s') /\
  (exists e, cpus s' !! 0%nat = Some e /\ current_tb e = Some 1%nat) /\
  ~ on_hash s' 0 /\ ~ on_hash s' 1 /\ target s' (1%nat, 0) = Some 0%nat /\
  exists b, tbs s' !! 0%nat = Some b /\ jmp_addr s' (1%nat, 0) = tc_ptr b.
Proof.
  eexists _, _. split; [vm_compute; reflexivity|].
  split_and!; [eexists; split; vm_compute; reflexivity | apply nowhere | apply nowhere | | eexists; split]; vm_compute; reflexivity.
Qed.
End TbRuns.
