(* ===== verification/PhysMem.v ===== *)
(** * Physical memory accesses

    The accessors of src/s2e/qemu/exec.c the x86 MMU reads and updates page
    tables with ([ldl_phys], [ldq_phys], [stl_phys_notdirty]), and what they
    promise: a class of operations with its laws, which guest RAM discharges. *)

From stdpp Require Import gmap.
From S2P Require Import Prelude SoftTlb.

(** ** The interface *)

Class PhysMemory (M : Type) := {
  ldl_phys : M -> Z -> Z;
  ldq_phys : M -> Z -> Z;
  stl_phys_notdirty : M -> Z -> Z -> M
}.

(** [ram_at] are the addresses of RAM.  Two addresses may be the same memory. *)
Class PhysMemoryLaws (M : Type) `{PhysMemory M} (wf : M -> Prop) (ram_at : M -> Z -> Prop) := {
  ldl_range m a : 0 <= ldl_phys m a < 2 ^ 32;
  ldq_words m a : a mod 8 = 0 -> ldq_phys m a = ldl_phys m a + ldl_phys m (a + 4) * 2 ^ 32;
  st_wf m a v : wf m -> wf (stl_phys_notdirty m a v);
  st_ram m a v b : ram_at (stl_phys_notdirty m a v) b <-> ram_at m b;
  st_same m a v : wf m -> ram_at m a -> a mod 4 = 0 -> 0 <= v < 2 ^ 32 -> ldl_phys (stl_phys_notdirty m a v) a = v;
  st_other m a v b : wf m -> ram_at m a -> a mod 4 = 0 -> b mod 4 = 0 -> 0 <= v < 2 ^ 32 ->
    ldl_phys (stl_phys_notdirty m a v) b = ldl_phys m b \/
    ldl_phys m b = ldl_phys m a /\ ldl_phys (stl_phys_notdirty m a v) b = v
}.

Module PhysMem.
Import SoftTlb.

(** ** Guest RAM *)

(** The host's memory as bytes, the blocks of guest RAM in it, and the writes
    that went to devices (handler, address, value). *)
Record HostRam := mkHostRam {
  host_bytes : Z -> Z;
  host_blocks : list RAMBlock;
  io_writes : list (Z * Z * Z)
}.

Definition byte_at (m : HostRam) (h : Z) : Z := u8 (host_bytes m h).
Definition ldl_raw (m : HostRam) (p : Z) : Z :=
  byte_at m p + byte_at m (p + 1) * 2 ^ 8 + byte_at m (p + 2) * 2 ^ 16 + byte_at m (p + 3) * 2 ^ 24.
Definition ldq_raw (m : HostRam) (p : Z) : Z := ldl_raw m p + ldl_raw m (p + 4) * 2 ^ 32.
Definition stl_raw (m : HostRam) (p val : Z) : HostRam :=
  mkHostRam (fun h => if (p <=? h) && (h <? p + 4) then u8 (Z.shiftr val (8 * (h - p))) else host_bytes m h)
    (host_blocks m) (io_writes m).

Definition IO_MEM_SHIFT : Z := 3.
Definition IO_MEM_NB_ENTRIES : Z := 512.

Section Access.
(** The physical page table, and what the read handlers of devices return. *)
Context (l1_phys_map : PhysMap) (io_mem_read : Z -> Z -> Z).

Definition pd_of (addr : Z) : Z :=
  match phys_page_find l1_phys_map (Z.shiftr addr TARGET_PAGE_BITS) with None => IO_MEM_UNASSIGNED | Some p => phys_offset p end.
Definition is_io (pd : Z) : bool := (IO_MEM_ROM <? page_offset pd) && negb (nz (Z.land pd IO_MEM_ROMD)).
Definition io_index (pd : Z) : Z := Z.land (Z.shiftr pd IO_MEM_SHIFT) (IO_MEM_NB_ENTRIES - 1).
Definition io_addr (addr : Z) : Z :=
  match phys_page_find l1_phys_map (Z.shiftr addr TARGET_PAGE_BITS) with
  | None => addr
  | Some p => page_offset addr + region_offset p
  end.
Definition io_readl (addr d : Z) : Z := u32 (io_mem_read (io_index (pd_of addr)) (io_addr addr + d)).
Definition ram_ptr (m : HostRam) (addr : Z) : Z := (qemu_get_ram_ptr (host_blocks m) (page_start (pd_of addr))).1 + page_offset addr.

Definition ram_ldl_phys (m : HostRam) (addr : Z) : Z :=
  if is_io (pd_of addr) then io_readl addr 0 else ldl_raw m (ram_ptr m addr).
Definition ram_ldq_phys (m : HostRam) (addr : Z) : Z :=
  if is_io (pd_of addr) then Z.lor (io_readl addr 0) (Z.shiftl (io_readl addr 4) 32)
  else ldq_raw m (ram_ptr m addr).

(** No migration is under way ([in_migration] is 0). *)
Definition ram_stl_phys_notdirty (m : HostRam) (addr val : Z) : HostRam :=
  let pd := pd_of addr in
  if negb (page_offset pd =? IO_MEM_RAM) then
    mkHostRam (host_bytes m) (host_blocks m) (io_writes m ++ [(io_index pd, io_addr addr, val)])
  else
    let addr1 := page_start pd + page_offset addr in
    stl_raw m (qemu_get_ram_ptr (host_blocks m) addr1).1 val.

#[export] Instance HostRam_memory : PhysMemory HostRam := {
  ldl_phys := ram_ldl_phys;
  ldq_phys := ram_ldq_phys;
  stl_phys_notdirty := ram_stl_phys_notdirty
}.

(** ** The laws *)

Definition host_ok (m : HostRam) : Prop :=
  ram_ok (host_blocks m) /\ forall b, b ∈ host_blocks m -> rb_host b mod 4 = 0 /\ 4096 <= rb_host b.
Definition host_ram_at (m : HostRam) (addr : Z) : Prop :=
  page_offset (pd_of addr) = IO_MEM_RAM /\ exists b, b ∈ host_blocks m /\ block_has b (page_start (pd_of addr)) = true.

Lemma byte_range m h : 0 <= byte_at m h < 256.
Proof. apply u8_range. Qed.

Lemma raw_range m p : 0 <= ldl_raw m p < 2 ^ 32.
Proof.
  unfold ldl_raw. pose proof (byte_range m p). pose proof (byte_range m (p + 1)). pose proof (byte_range m (p + 2)).
  pose proof (byte_range m (p + 3)). change (2 ^ 8) with 256. change (2 ^ 16) with 65536. change (2 ^ 24) with 16777216. change (2 ^ 32) with 4294967296. lia.
Qed.

Lemma raw_split v : 0 <= v < 2 ^ 32 ->
  u8 v + u8 (Z.shiftr v 8) * 2 ^ 8 + u8 (Z.shiftr v 16) * 2 ^ 16 + u8 (Z.shiftr v 24) * 2 ^ 24 = v.
Proof.
  intros H. unfold u8. rewrite !Z.shiftr_div_pow2 by lia. change (2 ^ 8) with 256. change (2 ^ 16) with 65536. change (2 ^ 24) with 16777216.
  change (2 ^ 32) with 4294967296 in H. Z.div_mod_to_equations. lia.
Qed.

Lemma raw_stored m p v : 0 <= v < 2 ^ 32 -> ldl_raw (stl_raw m p v) p = v.
Proof.
  intros H. unfold ldl_raw, byte_at, stl_raw. cbn [host_bytes].
  assert (L : forall k, 0 <= k < 4 -> (p <=? p + k) && (p + k <? p + 4) = true) by (intros k Hk; apply andb_true_iff; lia).
  rewrite <- (raw_split v H) at 5. rewrite (L 1), (L 2), (L 3) by lia. pose proof (L 0 ltac:(lia)) as L0. rewrite Z.add_0_r in L0. rewrite L0.
  rewrite Z.sub_diag, !Z.add_simpl_l. rewrite !(u8_small (u8 _)) by apply u8_range. done.
Qed.

Lemma raw_apart m p v q : q + 4 <= p \/ p + 4 <= q -> ldl_raw (stl_raw m p v) q = ldl_raw m q.
Proof.
  intros H. unfold ldl_raw, byte_at, stl_raw. cbn [host_bytes].
  assert (L : forall k, 0 <= k < 4 -> (p <=? q + k) && (q + k <? p + 4) = false) by (intros k Hk; apply andb_false_iff; lia).
  rewrite (L 1), (L 2), (L 3) by lia. pose proof (L 0 ltac:(lia)) as L0. rewrite Z.add_0_r in L0. by rewrite L0.
Qed.

(** An aligned pair of words is on one page. *)
Lemma pair_page a : a mod 8 = 0 ->
  Z.shiftr (a + 4) TARGET_PAGE_BITS = Z.shiftr a TARGET_PAGE_BITS /\ page_offset (a + 4) = page_offset a + 4.
Proof.
  intros H. rewrite !page_offset_eq, !Z.shiftr_div_pow2 by done. change (2 ^ TARGET_PAGE_BITS) with 4096.
  Z.div_mod_to_equations. lia.
Qed.

Lemma not_io addr : page_offset (pd_of addr) = IO_MEM_RAM -> is_io (pd_of addr) = false.
Proof. unfold is_io. by intros ->. Qed.

Lemma ram_ptr_block m a b : ram_ok (host_blocks m) -> b ∈ host_blocks m -> block_has b (page_start (pd_of a)) = true ->
  ram_ptr m a = rb_host b + (page_start (pd_of a) + page_offset a - rb_offset b) /\
  (qemu_get_ram_ptr (host_blocks m) (page_start (pd_of a) + page_offset a)).1 = ram_ptr m a.
Proof.
  intros R Hb Ha. unfold ram_ptr. rewrite (get_ram_ptr_some _ _ b R Hb Ha). split; [lia|].
  rewrite (get_ram_ptr_some _ (page_start (pd_of a) + page_offset a) b R Hb); [lia|].
  apply block_has_spec in Ha. apply block_has_spec. destruct (rb_pages _ R b Hb) as (P1 & P2 & _).
  rewrite page_start_eq in *. rewrite page_offset_eq. pose proof (Z.mod_pos_bound a 4096 ltac:(done)).
  Z.div_mod_to_equations. lia.
Qed.

(** Aligned addresses have aligned pointers: two are equal or apart. *)
Lemma ram_ptr_aligned m a b : host_ok m -> b ∈ host_blocks m -> block_has b (page_start (pd_of a)) = true -> a mod 4 = 0 ->
  ram_ptr m a mod 4 = 0 /\ 4096 <= ram_ptr m a.
Proof.
  intros [R H] Hb Ha A. destruct (ram_ptr_block m a b R Hb Ha) as [-> _]. destruct (H b Hb) as [H1 H2].
  destruct (rb_pages _ R b Hb) as (P1 & _). apply block_has_spec in Ha. rewrite page_start_eq in *. rewrite page_offset_eq.
  pose proof (Z.mod_pos_bound a 4096 ltac:(done)). Z.div_mod_to_equations. lia.
Qed.

Lemma get_ram_ptr_none bs a : existsb (fun b => block_has b a) bs = false -> (qemu_get_ram_ptr bs a).1 = 0.
Proof.
  induction bs as [|p [|q next] IH]; [done | cbn; by destruct (block_has p a)|].
  rewrite get_ram_ptr_step. cbn [existsb] in *. destruct (block_has p a), (block_has q a); try done.
  intros H. specialize (IH H). by destruct (qemu_get_ram_ptr (q :: next) a).
Qed.

Lemma ram_ptr_none m a : existsb (fun b => block_has b (page_start (pd_of a))) (host_blocks m) = false -> ram_ptr m a = page_offset a.
Proof. unfold ram_ptr. intros H. by rewrite (get_ram_ptr_none _ _ H). Qed.

Lemma ram_ptr_apart m a b : host_ok m -> host_ram_at m a -> a mod 4 = 0 -> b mod 4 = 0 ->
  ram_ptr m b = ram_ptr m a \/ ram_ptr m b + 4 <= ram_ptr m a \/ ram_ptr m a + 4 <= ram_ptr m b.
Proof.
  intros O (_ & ba & Hba & Ha) A B. destruct (ram_ptr_aligned m a ba O Hba Ha A) as [P1 P2].
  assert (Q : ram_ptr m b mod 4 = 0); [|Z.div_mod_to_equations; lia].
  destruct (existsb (fun x => block_has x (page_start (pd_of b))) (host_blocks m)) eqn:E.
  - apply existsb_exists in E as (bb & Hbb%list_elem_of_In & Hb). by apply (ram_ptr_aligned m b bb).
  - rewrite (ram_ptr_none m b E), page_offset_eq. Z.div_mod_to_equations. lia.
Qed.

(** A store to RAM goes to the pointer loads from there use. *)
Lemma stl_ram m a v : host_ok m -> host_ram_at m a -> ram_stl_phys_notdirty m a v = stl_raw m (ram_ptr m a) v.
Proof.
  intros [R _] (E & b & Hb & Ha). unfold ram_stl_phys_notdirty. rewrite E. cbn. by rewrite (proj2 (ram_ptr_block m a b R Hb Ha)).
Qed.

Lemma stl_blocks m a v : host_blocks (ram_stl_phys_notdirty m a v) = host_blocks m.
Proof. unfold ram_stl_phys_notdirty. by destruct (negb _). Qed.

Lemma ldq_pair m a : a mod 8 = 0 -> ram_ldq_phys m a = ram_ldl_phys m a + ram_ldl_phys m (a + 4) * 2 ^ 32.
Proof.
  intros A. destruct (pair_page a A) as [P O]. unfold ram_ldq_phys, ram_ldl_phys, ram_ptr, io_readl, io_addr, pd_of. rewrite P, O.
  destruct (is_io _); [|unfold ldq_raw; by rewrite Z.add_assoc].
  set (d := io_index _). set (x := match phys_page_find _ _ with None => a | Some _ => _ end).
  replace (match phys_page_find _ _ with None => a + 4 | Some p => page_offset a + 4 + region_offset p end) with (x + 4)
    by (unfold x; destruct (phys_page_find _ _); lia).
  rewrite !Z.add_0_r, Z.lor_comm, lor_disjoint_add; [lia | lia | apply u32_range].
Qed.

#[export] Instance HostRam_laws : PhysMemoryLaws HostRam host_ok host_ram_at.
Proof.
  split; cbn [ldl_phys ldq_phys stl_phys_notdirty HostRam_memory].
  - intros m a. unfold ram_ldl_phys. destruct (is_io _); [apply u32_range | apply raw_range].
  - apply ldq_pair.
  - intros m a v. unfold host_ok. by rewrite stl_blocks.
  - intros m a v b. unfold host_ram_at. by rewrite stl_blocks.
  - intros m a v O R A V. rewrite stl_ram by done. unfold ram_ldl_phys. rewrite not_io by apply R. by apply raw_stored.
  - intros m a v b O R A B V. rewrite stl_ram by done. unfold ram_ldl_phys. rewrite (not_io a) by apply R.
    destruct (is_io (pd_of b)); [by left|].
    change (ram_ptr (stl_raw m (ram_ptr m a) v) b) with (ram_ptr m b).
    destruct (ram_ptr_apart m a b O R A B) as [->|H]; [right; split; [done | by apply raw_stored] | left; by apply raw_apart].
Qed.
End Access.
End PhysMem.
