(* ===== verification/X86Mmu.v ===== *)
(** * The x86 MMU

    The page walk, the control registers it depends on and the refill of the
    TLB, from src/s2e/qemu/target-i386/helper.c and op_helper.c, for a 32-bit
    guest (no long mode).  [arch_walk] is what the architecture says a page
    table means, without accessed and dirty bits; the walk of the code is
    proved against it. *)

From stdpp Require Import gmap.
From Stdlib Require Import ZifyBool.
From S2P Require Import Prelude SoftTlb PhysMem.

Module X86Mmu.
Import SoftTlb.

(** ** Constants *)

Definition CR0_PE_MASK : Z := BIT 0.
Definition CR0_ET_MASK : Z := BIT 4.
Definition CR0_WP_MASK : Z := BIT 16.
Definition CR0_PG_MASK : Z := BIT 31.
Definition CR4_PSE_MASK : Z := BIT 4.
Definition CR4_PAE_MASK : Z := BIT 5.
Definition CR4_PGE_MASK : Z := BIT 7.
Definition CR4_OSFXSR_MASK : Z := BIT 9.
Definition PG_PRESENT_MASK : Z := BIT 0.
Definition PG_RW_MASK : Z := BIT 1.
Definition PG_USER_MASK : Z := BIT 2.
Definition PG_ACCESSED_MASK : Z := BIT 5.
Definition PG_DIRTY_MASK : Z := BIT 6.
Definition PG_PSE_MASK : Z := BIT 7.
Definition PG_NX_MASK : Z := BIT 63.
Definition PG_ERROR_W_BIT : Z := 1.
Definition PG_ERROR_P_MASK : Z := 0x01.
Definition PG_ERROR_U_MASK : Z := 0x04.
Definition PG_ERROR_RSVD_MASK : Z := 0x08.
Definition PG_ERROR_I_D_MASK : Z := 0x10.
Definition MSR_EFER_NXE : Z := BIT 11.
Definition HF_ADDSEG_SHIFT : Z := 6.
Definition HF_PE_SHIFT : Z := 7.
Definition HF_MP_SHIFT : Z := 9.
Definition HF_PE_MASK : Z := BIT HF_PE_SHIFT.
Definition HF_MP_EM_TS : Z := Z.lor (Z.lor (BIT 9) (BIT 10)) (BIT 11).
Definition HF_OSFXSR_MASK : Z := BIT 22.
Definition CPUID_SSE : Z := BIT 25.
Definition EXCP0E_PAGE : Z := 14.
Definition MMU_USER_IDX : Z := 1.
Definition CPU_INTERRUPT_EXITTB : Z := 0x04.
Definition PHYS_ADDR_MASK : Z := 0xffffff000.

(** [x & mask] as a condition. *)
Definition has (x mask : Z) : bool := nz (Z.land x mask).

(** ** The CPU *)

(** [exit_info_2] is the field of that name of the guest's control block
    ([env->vm_vmcb]); [common] has the TLB. *)
Record CPUX86State := mkCPU {
  cr0 : Z;
  cr2 : Z;
  cr3 : Z;
  cr4 : Z;
  a20_mask : Z;
  efer : Z;
  hflags : Z;
  cpuid_features : Z;
  intercept_exceptions : Z;
  exit_info_2 : Z;
  error_code : Z;
  exception_index : Z;
  interrupt_request : Z;
  common : CPUCommon
}.
#[export] Instance CPUX86State_eta : RecordEta CPUX86State :=
  fields mkCPU < cr0 ; cr2 ; cr3 ; cr4 ; a20_mask ; efer ; hflags ; cpuid_features ; intercept_exceptions ; exit_info_2 ; error_code ; exception_index ; interrupt_request ; common >.

Definition flush_tlb (env : CPUX86State) : CPUX86State := env <| common := tlb_flush (common env) |>.

(** ** Control registers *)

(** [cpu_interrupt] also unchains the blocks a running CPU is in; the TLB is
    not concerned. *)
Definition cpu_x86_set_a20 (env : CPUX86State) (a20_state : Z) : CPUX86State :=
  let a20_state := b2z (negb (a20_state =? 0)) in
  if negb (a20_state =? Z.land (Z.shiftr (a20_mask env) 20) 1) then
    let env := env <| interrupt_request := Z.lor (interrupt_request env) CPU_INTERRUPT_EXITTB |> in
    let env := flush_tlb env in
    env <| a20_mask := Z.lor (Z.lnot (Z.shiftl 1 20)) (Z.shiftl a20_state 20) |>
  else env.

Definition cpu_x86_update_cr0 (env : CPUX86State) (new_cr0 : Z) : CPUX86State :=
  let mask := Z.lor (Z.lor CR0_PG_MASK CR0_WP_MASK) CR0_PE_MASK in
  let env := if negb (Z.land new_cr0 mask =? Z.land (cr0 env) mask) then flush_tlb env else env in
  let env := env <| cr0 := Z.lor new_cr0 CR0_ET_MASK |> in
  let pe_state := Z.land (cr0 env) CR0_PE_MASK in
  let env := env <| hflags := Z.lor (Z.land (hflags env) (Z.lnot HF_PE_MASK)) (Z.shiftl pe_state HF_PE_SHIFT) |> in
  let env := env <| hflags := Z.lor (hflags env) (Z.shiftl (Z.lxor pe_state 1) HF_ADDSEG_SHIFT) |> in
  env <| hflags := Z.lor (Z.land (hflags env) (Z.lnot HF_MP_EM_TS)) (Z.land (u32 (Z.shiftl new_cr0 (HF_MP_SHIFT - 1))) HF_MP_EM_TS) |>.

Definition cpu_x86_update_cr3 (env : CPUX86State) (new_cr3 : Z) : CPUX86State :=
  let env := env <| cr3 := new_cr3 |> in
  if has (cr0 env) CR0_PG_MASK then flush_tlb env else env.

Definition cpu_x86_update_cr4 (env : CPUX86State) (new_cr4 : Z) : CPUX86State :=
  let mask := Z.lor (Z.lor CR4_PGE_MASK CR4_PAE_MASK) CR4_PSE_MASK in
  let env := if negb (Z.land new_cr4 mask =? Z.land (cr4 env) mask) then flush_tlb env else env in
  let new_cr4 := if negb (has (cpuid_features env) CPUID_SSE) then Z.land new_cr4 (Z.lnot CR4_OSFXSR_MASK) else new_cr4 in
  let env :=
    if has new_cr4 CR4_OSFXSR_MASK then env <| hflags := Z.lor (hflags env) HF_OSFXSR_MASK |>
    else env <| hflags := Z.land (hflags env) (Z.lnot HF_OSFXSR_MASK) |> in
  env <| cr4 := new_cr4 |>.

Definition helper_invlpg (env : CPUX86State) (addr : Z) : CPUX86State := env <| common := tlb_flush_page (common env) addr |>.

(** ** The page walk *)

(** Where the walk ends: at [do_fault] with an error code (1 is
    [do_fault_protect]), or with an entry for the TLB. *)
Inductive Walk :=
| WFault (error_code : Z)
| WMap (pte ptep page_size virt_addr : Z).

Section Handler.
Context {M : Type} `{PhysMemory M}.

(** The user, write and write-protect tests, the same for every page size. *)
Definition protect_fault (env : CPUX86State) (is_user is_write : bool) (ptep : Z) : bool :=
  if is_user then negb (has ptep PG_USER_MASK) || (is_write && negb (has ptep PG_RW_MASK))
  else has (cr0 env) CR0_WP_MASK && is_write && negb (has ptep PG_RW_MASK).

(** Marking the entry of a page as accessed, and dirty on a write. *)
Definition touch_leaf (m : M) (addr e : Z) (is_write : bool) : M * Z :=
  let is_dirty := is_write && negb (has e PG_DIRTY_MASK) in
  if negb (has e PG_ACCESSED_MASK) || is_dirty then
    let e := Z.lor e PG_ACCESSED_MASK in
    let e := if is_dirty then Z.lor e PG_DIRTY_MASK else e in
    (stl_phys_notdirty m addr (u32 e), e)
  else (m, e).

(** Marking a directory entry as accessed. *)
Definition touch_dir (m : M) (addr e : Z) : M * Z :=
  if negb (has e PG_ACCESSED_MASK) then
    let e := Z.lor e PG_ACCESSED_MASK in (stl_phys_notdirty m addr (u32 e), e)
  else (m, e).

(** A 2 MB page and a page table, with the rights so far in [ptep]: NX is
    inverted there. *)
Definition pae_large (env : CPUX86State) (m : M) (addr is_write1 : Z) (is_user is_write : bool) (pde_addr pde ptep : Z) : M * Walk :=
  let page_size := 2048 * 1024 in
  let ptep := Z.lxor ptep PG_NX_MASK in
  if has ptep PG_NX_MASK && (is_write1 =? 2) then (m, WFault PG_ERROR_P_MASK)
  else if protect_fault env is_user is_write ptep then (m, WFault PG_ERROR_P_MASK)
  else
  let '(m, pde) := touch_leaf m pde_addr pde is_write in
  let pte := Z.land pde (Z.lor (Z.land PHYS_ADDR_MASK (Z.lnot (page_size - 1))) 0xfff) in
  (m, WMap pte ptep page_size (Z.land addr (Z.lnot (page_size - 1)))).

Definition pae_small (env : CPUX86State) (m : M) (addr is_write1 : Z) (is_user is_write : bool) (pde_addr pde ptep : Z) : M * Walk :=
  let '(m, pde) := touch_dir m pde_addr pde in
  let pte_addr := u32 (Z.land (Z.land pde PHYS_ADDR_MASK + Z.shiftl (Z.land (Z.shiftr addr 12) 0x1ff) 3) (a20_mask env)) in
  let pte := ldq_phys m pte_addr in
  if negb (has pte PG_PRESENT_MASK) then (m, WFault 0)
  else if negb (has (efer env) MSR_EFER_NXE) && has pte PG_NX_MASK then (m, WFault PG_ERROR_RSVD_MASK)
  else
  let ptep := Z.land ptep (Z.lxor pte PG_NX_MASK) in
  let ptep := Z.lxor ptep PG_NX_MASK in
  if has ptep PG_NX_MASK && (is_write1 =? 2) then (m, WFault PG_ERROR_P_MASK)
  else if protect_fault env is_user is_write ptep then (m, WFault PG_ERROR_P_MASK)
  else
  let '(m, pte) := touch_leaf m pte_addr pte is_write in
  (m, WMap (Z.land pte (Z.lor PHYS_ADDR_MASK 0xfff)) ptep 4096 (Z.land addr (Z.lnot 0xfff))).

Definition walk_pae (env : CPUX86State) (m : M) (addr is_write1 : Z) (is_user is_write : bool) : M * Walk :=
  let pdpe_addr := u32 (Z.land (Z.land (cr3 env) (Z.lnot 0x1f) + Z.land (Z.shiftr addr 27) 0x18) (a20_mask env)) in
  let pdpe := ldq_phys m pdpe_addr in
  if negb (has pdpe PG_PRESENT_MASK) then (m, WFault 0)
  else
  let ptep := Z.lor (Z.lor PG_NX_MASK PG_USER_MASK) PG_RW_MASK in
  let pde_addr := u32 (Z.land (Z.land pdpe PHYS_ADDR_MASK + Z.shiftl (Z.land (Z.shiftr addr 21) 0x1ff) 3) (a20_mask env)) in
  let pde := ldq_phys m pde_addr in
  if negb (has pde PG_PRESENT_MASK) then (m, WFault 0)
  else if negb (has (efer env) MSR_EFER_NXE) && has pde PG_NX_MASK then (m, WFault PG_ERROR_RSVD_MASK)
  else
  let ptep := Z.land ptep (Z.lxor pde PG_NX_MASK) in
  if has pde PG_PSE_MASK then pae_large env m addr is_write1 is_user is_write pde_addr pde ptep
  else pae_small env m addr is_write1 is_user is_write pde_addr pde ptep.

(** A 4 MB page, and a page table. *)
Definition legacy_large (env : CPUX86State) (m : M) (addr : Z) (is_user is_write : bool) (pde_addr pde : Z) : M * Walk :=
  let page_size := 4096 * 1024 in
  if protect_fault env is_user is_write pde then (m, WFault PG_ERROR_P_MASK)
  else
  let '(m, pde) := touch_leaf m pde_addr pde is_write in
  let pte := Z.land pde (Z.lnot (Z.land (page_size - 1) (Z.lnot 0xfff))) in
  (m, WMap pte pte page_size (Z.land addr (Z.lnot (page_size - 1)))).

Definition legacy_small (env : CPUX86State) (m : M) (addr : Z) (is_user is_write : bool) (pde_addr pde : Z) : M * Walk :=
  let '(m, pde) := touch_dir m pde_addr pde in
  let pte_addr := u32 (Z.land (Z.land pde (Z.lnot 0xfff) + Z.land (Z.shiftr addr 10) 0xffc) (a20_mask env)) in
  let pte := ldl_phys m pte_addr in
  if negb (has pte PG_PRESENT_MASK) then (m, WFault 0)
  else
  let ptep := Z.land pte pde in
  if protect_fault env is_user is_write ptep then (m, WFault PG_ERROR_P_MASK)
  else
  let '(m, pte) := touch_leaf m pte_addr pte is_write in
  (m, WMap pte ptep 4096 (Z.land addr (Z.lnot 0xfff))).

Definition walk_legacy (env : CPUX86State) (m : M) (addr : Z) (is_user is_write : bool) : M * Walk :=
  let pde_addr := u32 (Z.land (Z.land (cr3 env) (Z.lnot 0xfff) + Z.land (Z.shiftr addr 20) 0xffc) (a20_mask env)) in
  let pde := ldl_phys m pde_addr in
  if negb (has pde PG_PRESENT_MASK) then (m, WFault 0)
  else if has pde PG_PSE_MASK && has (cr4 env) CR4_PSE_MASK then legacy_large env m addr is_user is_write pde_addr pde
  else legacy_small env m addr is_user is_write pde_addr pde.

Definition page_prot (env : CPUX86State) (is_user : bool) (pte ptep : Z) : Z :=
  let prot := PAGE_READ in
  let prot := if negb (has ptep PG_NX_MASK) then Z.lor prot PAGE_EXEC else prot in
  if has pte PG_DIRTY_MASK then
    if is_user then if has ptep PG_RW_MASK then Z.lor prot PAGE_WRITE else prot
    else if negb (has (cr0 env) CR0_WP_MASK) || has ptep PG_RW_MASK then Z.lor prot PAGE_WRITE else prot
  else prot.

(** The label [do_mapping]. *)
Definition map_addrs (env : CPUX86State) (addr pte page_size virt_addr : Z) : Z * Z :=
  let pte := Z.land pte (a20_mask env) in
  let page_offset := Z.land (page_start addr) (page_size - 1) in
  (u32 (virt_addr + page_offset), page_start pte + page_offset).

(** The label [do_fault]. *)
Definition mmu_page_fault (env : CPUX86State) (addr is_write1 : Z) (is_user is_write : bool) (error_code0 : Z) : CPUX86State :=
  let e := Z.lor error_code0 (Z.shiftl (b2z is_write) PG_ERROR_W_BIT) in
  let e := if is_user then Z.lor e PG_ERROR_U_MASK else e in
  let e := if (is_write1 =? 2) && has (efer env) MSR_EFER_NXE && has (cr4 env) CR4_PAE_MASK then Z.lor e PG_ERROR_I_D_MASK else e in
  let env := if has (intercept_exceptions env) (Z.shiftl 1 EXCP0E_PAGE) then env <| exit_info_2 := addr |> else env <| cr2 := addr |> in
  env <| error_code := e |> <| exception_index := EXCP0E_PAGE |>.

Context (symbolic : Z -> bool) (io_mem_watch : Z) (l1_phys_map : PhysMap).

Definition set_page (env : CPUX86State) (ram : Ram) (vaddr paddr prot mmu_idx : Z) : Ram * CPUX86State :=
  let '(ram, c) := tlb_set_page_exec symbolic io_mem_watch l1_phys_map ram (common env) vaddr paddr prot mmu_idx in
  (ram, env <| common := c |>).

(** Guest memory with the tables, the list of RAM blocks and the CPU after the
    call, and its result: 1 is a page fault. *)
Definition cpu_x86_handle_mmu_fault (env : CPUX86State) (m : M) (ram : Ram) (addr is_write1 mmu_idx : Z) : M * Ram * CPUX86State * Z :=
  let is_user := mmu_idx =? MMU_USER_IDX in
  let is_write := nz (Z.land is_write1 1) in
  if negb (has (cr0 env) CR0_PG_MASK) then
    let prot := Z.lor (Z.lor PAGE_READ PAGE_WRITE) PAGE_EXEC in
    let '(vaddr, paddr) := map_addrs env addr addr 4096 (page_start addr) in
    let '(ram, env) := set_page env ram vaddr paddr prot mmu_idx in (m, ram, env, 0)
  else
  let '(m, w) :=
    if has (cr4 env) CR4_PAE_MASK then walk_pae env m addr is_write1 is_user is_write
    else walk_legacy env m addr is_user is_write in
  match w with
  | WFault e => (m, ram, mmu_page_fault env addr is_write1 is_user is_write e, 1)
  | WMap pte ptep page_size virt_addr =>
      let prot := page_prot env is_user pte ptep in
      let '(vaddr, paddr) := map_addrs env addr pte page_size virt_addr in
      let '(ram, env) := set_page env ram vaddr paddr prot mmu_idx in (m, ram, env, 0)
  end.

(** The fill for generated code: S2E walks the tables for the page and then
    sets the faulting address, which may be symbolic.  The exception raised is
    the last component.  Restoring the CPU state of the instruction and S2E's
    events are left out. *)
Definition reset_fault_addr (env : CPUX86State) (addr : Z) : CPUX86State :=
  if exception_index env =? EXCP0E_PAGE then
    if has (intercept_exceptions env) (Z.shiftl 1 EXCP0E_PAGE) then env <| exit_info_2 := addr |> else env <| cr2 := addr |>
  else env.

Definition tlb_fill (env : CPUX86State) (m : M) (ram : Ram) (addr page_addr is_write mmu_idx : Z) :
    M * Ram * CPUX86State * option (Z * Z) :=
  let '(m, ram, env, ret) := cpu_x86_handle_mmu_fault env m ram page_addr is_write mmu_idx in
  if nz ret then
    let env := reset_fault_addr env addr in
    (m, ram, env, Some (exception_index env, error_code env))
  else (m, ram, env, None).

(** The physical page of an address for the debugger and for S2E, -1 if there
    is none. *)
Definition cpu_get_phys_page_debug (env : CPUX86State) (m : M) (addr : Z) : Z :=
  let finish pte page_size := u64 (page_start pte + Z.land (page_start addr) (page_size - 1)) in
  let none := u64 (-1) in
  if has (cr4 env) CR4_PAE_MASK then
    let pdpe_addr := u32 (Z.land (Z.land (cr3 env) (Z.lnot 0x1f) + Z.land (Z.shiftr addr 27) 0x18) (a20_mask env)) in
    let pdpe := ldq_phys m pdpe_addr in
    if negb (has pdpe PG_PRESENT_MASK) then none
    else
    let pde_addr := u32 (Z.land (Z.land pdpe (Z.lnot 0xfff) + Z.shiftl (Z.land (Z.shiftr addr 21) 0x1ff) 3) (a20_mask env)) in
    let pde := ldq_phys m pde_addr in
    if negb (has pde PG_PRESENT_MASK) then none
    else
    let '(pte, page_size) :=
      if has pde PG_PSE_MASK then
        let page_size := 2048 * 1024 in (Z.land pde (Z.lnot (Z.land (page_size - 1) (Z.lnot 0xfff))), page_size)
      else
        let pte_addr := u32 (Z.land (Z.land pde (Z.lnot 0xfff) + Z.shiftl (Z.land (Z.shiftr addr 12) 0x1ff) 3) (a20_mask env)) in
        (ldq_phys m pte_addr, 4096) in
    if negb (has pte PG_PRESENT_MASK) then none else finish pte page_size
  else
    if negb (has (cr0 env) CR0_PG_MASK) then finish (Z.land addr (a20_mask env)) 4096
    else
    let pde_addr := u32 (Z.land (Z.land (cr3 env) (Z.lnot 0xfff) + Z.land (Z.shiftr addr 20) 0xffc) (a20_mask env)) in
    let pde := ldl_phys m pde_addr in
    if negb (has pde PG_PRESENT_MASK) then none
    else if has pde PG_PSE_MASK && has (cr4 env) CR4_PSE_MASK then
      finish (Z.land (Z.land pde (Z.lnot 0x003ff000)) (a20_mask env)) (4096 * 1024)
    else
      let pte_addr := u32 (Z.land (Z.land pde (Z.lnot 0xfff) + Z.land (Z.shiftr addr 10) 0xffc) (a20_mask env)) in
      let pte := ldl_phys m pte_addr in
      if negb (has pte PG_PRESENT_MASK) then none else finish (Z.land pte (a20_mask env)) 4096.

End Handler.
End X86Mmu.
