(* ===== verification/X86Walk.v ===== *)
(** * What a page table means, and the walk

    [arch_walk] reads a page table the way the architecture manuals describe
    it, as fields of entries; [ad_equiv] compares memories up to accessed and
    dirty bits, which the walk writes and the translation does not depend on.
    The walk of [X86Mmu] is proved to compute [arch_walk], to check rights, and
    to set the right bits. *)

From stdpp Require Import gmap.
From Stdlib Require Import ZifyBool.
From S2P Require Import Prelude SoftTlb PhysMem X86Mmu.

Module X86Walk.
Import SoftTlb X86Mmu.

(** ** The specification *)

Inductive Access := Read | Write | Fetch.
Definition access_code (k : Access) : Z := match k with Read => 0 | Write => 1 | Fetch => 2 end.
Definition writes (k : Access) : bool := match k with Write => true | _ => false end.

(** Bits [lo] to [lo + w - 1]. *)
Definition field (x lo w : Z) : Z := x / 2 ^ lo mod 2 ^ w.

(** A translation: the physical page, the rights, and the address of the entry
    that has the dirty bit. *)
Record Leaf := mkLeaf {
  frame : Z;
  lf_user : bool;
  lf_write : bool;
  lf_exec : bool;
  lf_large : bool;
  lf_entry : option Z
}.

Inductive Translation :=
| Missing
| Reserved
| Found (l : Leaf).

Section Spec.
Context {M : Type} `{PhysMemory M}.

(** The A20 gate clears bit 20 of physical addresses. *)
Definition phys (env : CPUX86State) (x : Z) : Z := Z.land x (a20_mask env).
Definition nxe (env : CPUX86State) : bool := Z.testbit (efer env) 11.

Definition dir_legacy (env : CPUX86State) (a : Z) : Z := phys env (field (cr3 env) 12 20 * 2 ^ 12 + field a 22 10 * 4).
Definition leaf_legacy (env : CPUX86State) (pde a : Z) : Z := phys env (field pde 12 20 * 2 ^ 12 + field a 12 10 * 4).
Definition ptr_pae (env : CPUX86State) (a : Z) : Z := phys env (field (cr3 env) 5 27 * 2 ^ 5 + field a 30 2 * 8).
Definition dir_pae (env : CPUX86State) (pdpe a : Z) : Z := phys env (field pdpe 12 24 * 2 ^ 12 + field a 21 9 * 8).
Definition leaf_pae (env : CPUX86State) (pde a : Z) : Z := phys env (field pde 12 24 * 2 ^ 12 + field a 12 9 * 8).

Definition arch_legacy (env : CPUX86State) (m : M) (a : Z) : Translation :=
  let pde := ldl_phys m (dir_legacy env a) in
  if negb (Z.testbit pde 0) then Missing
  else if Z.testbit pde 7 && Z.testbit (cr4 env) 4 then
    Found (mkLeaf (phys env (field pde 22 10 * 2 ^ 22 + field a 12 10 * 2 ^ 12)) (Z.testbit pde 2) (Z.testbit pde 1) true true (Some (dir_legacy env a)))
  else
    let pte := ldl_phys m (leaf_legacy env pde a) in
    if negb (Z.testbit pte 0) then Missing
    else Found (mkLeaf (phys env (field pte 12 20 * 2 ^ 12)) (Z.testbit pde 2 && Z.testbit pte 2) (Z.testbit pde 1 && Z.testbit pte 1) true false
                  (Some (leaf_legacy env pde a))).

Definition arch_pae (env : CPUX86State) (m : M) (a : Z) : Translation :=
  let pdpe := ldq_phys m (ptr_pae env a) in
  if negb (Z.testbit pdpe 0) then Missing
  else
  let pde := ldq_phys m (dir_pae env pdpe a) in
  if negb (Z.testbit pde 0) then Missing
  else if negb (nxe env) && Z.testbit pde 63 then Reserved
  else if Z.testbit pde 7 then
    Found (mkLeaf (phys env (field pde 21 15 * 2 ^ 21 + field a 12 9 * 2 ^ 12)) (Z.testbit pde 2) (Z.testbit pde 1) (negb (Z.testbit pde 63)) true
             (Some (dir_pae env pdpe a)))
  else
    let pte := ldq_phys m (leaf_pae env pde a) in
    if negb (Z.testbit pte 0) then Missing
    else if negb (nxe env) && Z.testbit pte 63 then Reserved
    else Found (mkLeaf (phys env (field pte 12 24 * 2 ^ 12)) (Z.testbit pde 2 && Z.testbit pte 2) (Z.testbit pde 1 && Z.testbit pte 1)
                  (negb (Z.testbit pde 63) && negb (Z.testbit pte 63)) false (Some (leaf_pae env pde a))).

(** Without paging every address is its own translation. *)
Definition arch_walk (env : CPUX86State) (m : M) (a : Z) : Translation :=
  if negb (Z.testbit (cr0 env) 31) then Found (mkLeaf (phys env (field a 12 20 * 2 ^ 12)) true true true false None)
  else if Z.testbit (cr4 env) 5 then arch_pae env m a
  else arch_legacy env m a.

(** Rights: the kernel may write everywhere unless CR0.WP is set. *)
Definition may_write (env : CPUX86State) (user : bool) (l : Leaf) : bool := lf_write l || (negb user && negb (Z.testbit (cr0 env) 16)).
Definition allowed (env : CPUX86State) (user : bool) (k : Access) (l : Leaf) : bool :=
  (negb user || lf_user l) && match k with Read => true | Write => may_write env user l | Fetch => lf_exec l end.

Definition leaf_bit (m : M) (l : Leaf) (i : Z) : bool := match lf_entry l with None => true | Some e => Z.testbit (ldl_phys m e) i end.

Definition arch_prot (env : CPUX86State) (user : bool) (dirty : bool) (l : Leaf) : Z :=
  PAGE_READ + (if dirty && may_write env user l then PAGE_WRITE else 0) + (if lf_exec l then PAGE_EXEC else 0).

(** The error code of a page fault. *)
Definition arch_error (env : CPUX86State) (user : bool) (k : Access) (cause : Z) : Z :=
  cause + (if writes k then 2 else 0) + (if user then 4 else 0) +
  match k with Fetch => if nxe env && Z.testbit (cr4 env) 5 then 0x10 else 0 | _ => 0 end.

(** ** Memories up to accessed and dirty bits *)

Definition ad_bit (i : Z) : bool := (i mod 32 =? 5) || (i mod 32 =? 6).
Definition same_but_ad (x y : Z) : Prop := forall i, 0 <= i -> ad_bit i = false -> Z.testbit x i = Z.testbit y i.
Definition ad_equiv (m m' : M) : Prop := forall a, a mod 4 = 0 -> same_but_ad (ldl_phys m a) (ldl_phys m' a).

(** [m'] is [m] with more of these bits set. *)
Definition grows (m m' : M) : Prop :=
  ad_equiv m m' /\ forall a i, a mod 4 = 0 -> Z.testbit (ldl_phys m a) i = true -> Z.testbit (ldl_phys m' a) i = true.

#[export] Instance ad_equiv_equivalence : Equivalence ad_equiv.
Proof.
  split; [by intros m a _ i | intros m m' E a A i Hi B; by rewrite (E a A i) |
    intros m1 m2 m3 E F a A i Hi B; by rewrite (E a A i), (F a A i)].
Qed.
#[export] Instance grows_preorder : PreOrder grows.
Proof. split; [by intros m|]. intros m1 m2 m3 [E G] [F I]. split; [by transitivity m2 | auto]. Qed.
End Spec.

(** ** Fields of entries *)

Lemma field_testbit x lo w i : 0 <= lo -> 0 <= w -> 0 <= i -> Z.testbit (field x lo w) i = (i <? w) && Z.testbit x (i + lo).
Proof.
  intros. unfold field. rewrite <- Z.shiftr_div_pow2 by done. destruct (Z.ltb_spec i w).
  - rewrite Z.mod_pow2_bits_low by lia. by rewrite Z.shiftr_spec by done.
  - by rewrite Z.mod_pow2_bits_high by lia.
Qed.

Lemma field_range x lo w : 0 <= w -> 0 <= field x lo w < 2 ^ w.
Proof. intros. apply Z.mod_pos_bound. by apply Z.pow_pos_nonneg. Qed.

Lemma field_ad x y lo w : same_but_ad x y -> 0 <= lo -> 0 <= w -> (forall i, lo <= i < lo + w -> ad_bit i = false) -> field x lo w = field y lo w.
Proof.
  intros E Hl Hw B. apply Z.bits_inj'. intros i Hi. rewrite !field_testbit by lia.
  destruct (Z.ltb_spec i w); [|done]. cbn. apply E; [lia | apply B; lia].
Qed.

(** Masks of consecutive bits are fields. *)
Lemma land_field x lo w : 0 <= lo -> 0 <= w -> Z.land x (Z.shiftl (Z.ones w) lo) = field x lo w * 2 ^ lo.
Proof.
  intros. rewrite <- Z.shiftl_mul_pow2 by done. apply Z.bits_inj'. intros i Hi. rewrite Z.land_spec, !Z.shiftl_spec by done.
  destruct (Z.ltb_spec (i - lo) 0); [rewrite !(Z.testbit_neg_r _ (i - lo)) by done; by rewrite andb_false_r|].
  rewrite field_testbit, Z.testbit_ones_nonneg by lia. replace (i - lo + lo) with i by lia. apply andb_comm.
Qed.

Lemma land_above x n : 0 <= n -> Z.land x (Z.lnot (Z.ones n)) = x / 2 ^ n * 2 ^ n.
Proof. intros. rewrite <- Z.ldiff_land, Z.ldiff_ones_r, Z.shiftr_div_pow2, Z.shiftl_mul_pow2 by done. done. Qed.

Lemma has_bit x i mask : 0 <= i -> mask = BIT i -> has x mask = Z.testbit x i.
Proof. intros Hi ->. by apply land_BIT_nz. Qed.
Lemma field_shiftr x n lo w : 0 <= n -> 0 <= lo -> field (Z.shiftr x n) lo w = field x (n + lo) w.
Proof.
  intros. pose proof (Z.pow_pos_nonneg 2 n ltac:(done) ltac:(done)). pose proof (Z.pow_pos_nonneg 2 lo ltac:(done) ltac:(done)).
  unfold field. by rewrite Z.shiftr_div_pow2, Z.div_div, Z.pow_add_r by lia.
Qed.

Lemma field_whole x lo w : 0 <= lo -> 0 <= w -> 0 <= x < 2 ^ (lo + w) -> field x lo w = x / 2 ^ lo.
Proof.
  intros. unfold field. apply Z.mod_small. rewrite Z.pow_add_r in * by done. pose proof (Z.pow_pos_nonneg 2 lo ltac:(done) ltac:(done)).
  split; [apply Z.div_pos; lia | apply Z.div_lt_upper_bound; lia].
Qed.

Lemma phys_u32 env x : 0 <= x < 2 ^ 32 -> u32 (Z.land x (a20_mask env)) = phys env x.
Proof. intros. apply u32_small. by apply land_range. Qed.

Lemma phys_aligned env x n : 0 <= n -> x mod 2 ^ n = 0 -> phys env x mod 2 ^ n = 0.
Proof.
  intros Hn E. unfold phys. rewrite <- !Z.land_ones in * by done. by rewrite <- Z.land_assoc, (Z.land_comm (a20_mask env)), Z.land_assoc, E.
Qed.

Lemma phys_page env x : page_start (phys env x) = phys env (page_start x).
Proof. unfold page_start, phys. by rewrite <- !Z.land_assoc, (Z.land_comm (a20_mask env)). Qed.

(** *** Where the code looks is where the architecture does *)

Section Addresses.
Context (env : CPUX86State) (Hcr3 : 0 <= cr3 env < 2 ^ 32).

Lemma base_legacy x : 0 <= x < 2 ^ 32 -> Z.land x (Z.lnot 0xfff) = field x 12 20 * 2 ^ 12.
Proof. intros. rewrite field_whole by done. apply (land_above x 12). done. Qed.
Lemma base_pae x : Z.land x PHYS_ADDR_MASK = field x 12 24 * 2 ^ 12.
Proof. by apply (land_field x 12 24). Qed.
Lemma index_legacy a n : 0 <= n -> Z.land (Z.shiftr a n) 0xffc = field a (n + 2) 10 * 4.
Proof. intros. change 0xffc with (Z.shiftl (Z.ones 10) 2). by rewrite land_field, field_shiftr. Qed.
Lemma index_pae a n : 0 <= n -> Z.shiftl (Z.land (Z.shiftr a n) 0x1ff) 3 = field a n 9 * 8.
Proof.
  intros. rewrite Z.shiftl_mul_pow2 by done. change 0x1ff with (Z.ones 9). rewrite Z.land_ones, Z.shiftr_div_pow2 by done. done.
Qed.

Lemma dir_legacy_addr a : u32 (Z.land (Z.land (cr3 env) (Z.lnot 0xfff) + Z.land (Z.shiftr a 20) 0xffc) (a20_mask env)) = dir_legacy env a.
Proof.
  rewrite base_legacy, index_legacy by done. change (20 + 2) with 22. apply phys_u32.
  pose proof (field_range (cr3 env) 12 20 ltac:(done)). pose proof (field_range a 22 10 ltac:(done)). lia.
Qed.
Lemma leaf_legacy_addr pde a : 0 <= pde < 2 ^ 32 ->
  u32 (Z.land (Z.land pde (Z.lnot 0xfff) + Z.land (Z.shiftr a 10) 0xffc) (a20_mask env)) = leaf_legacy env pde a.
Proof.
  intros. rewrite base_legacy, index_legacy by done. change (10 + 2) with 12. apply phys_u32.
  pose proof (field_range pde 12 20 ltac:(done)). pose proof (field_range a 12 10 ltac:(done)). lia.
Qed.
Lemma ptr_pae_addr a : u32 (Z.land (Z.land (cr3 env) (Z.lnot 0x1f) + Z.land (Z.shiftr a 27) 0x18) (a20_mask env)) = ptr_pae env a.
Proof.
  assert (Z.land (cr3 env) (Z.lnot 0x1f) = field (cr3 env) 5 27 * 2 ^ 5) as -> by (rewrite field_whole by done; by apply (land_above _ 5)).
  change 0x18 with (Z.shiftl (Z.ones 2) 3). rewrite land_field, field_shiftr by done. change (27 + 3) with 30. apply phys_u32.
  pose proof (field_range (cr3 env) 5 27 ltac:(done)). pose proof (field_range a 30 2 ltac:(done)). lia.
Qed.
Lemma dir_pae_addr pdpe a : field pdpe 12 24 < 2 ^ 20 ->
  u32 (Z.land (Z.land pdpe PHYS_ADDR_MASK + Z.shiftl (Z.land (Z.shiftr a 21) 0x1ff) 3) (a20_mask env)) = dir_pae env pdpe a.
Proof.
  intros. rewrite base_pae, index_pae by done. apply phys_u32.
  pose proof (field_range pdpe 12 24 ltac:(done)). pose proof (field_range a 21 9 ltac:(done)). lia.
Qed.
Lemma leaf_pae_addr pde a : field pde 12 24 < 2 ^ 20 ->
  u32 (Z.land (Z.land pde PHYS_ADDR_MASK + Z.shiftl (Z.land (Z.shiftr a 12) 0x1ff) 3) (a20_mask env)) = leaf_pae env pde a.
Proof.
  intros. rewrite base_pae, index_pae by done. apply phys_u32.
  pose proof (field_range pde 12 24 ltac:(done)). pose proof (field_range a 12 9 ltac:(done)). lia.
Qed.
End Addresses.

Lemma legacy_aligned env pde a : dir_legacy env a mod 4 = 0 /\ leaf_legacy env pde a mod 4 = 0.
Proof. split; apply (phys_aligned env _ 2); try done; Z.div_mod_to_equations; lia. Qed.
Lemma pae_aligned env pdpe pde a : ptr_pae env a mod 8 = 0 /\ dir_pae env pdpe a mod 8 = 0 /\ leaf_pae env pde a mod 8 = 0.
Proof. split_and!; apply (phys_aligned env _ 3); try done; Z.div_mod_to_equations; lia. Qed.

(** ** Marking entries *)

Lemma ad_bit_low i : 0 <= i < 32 -> ad_bit i = (i =? 5) || (i =? 6).
Proof. intros. unfold ad_bit. by rewrite Z.mod_small. Qed.

Lemma same_lor x k : (forall i, 0 <= i -> Z.testbit k i = true -> ad_bit i = true) -> same_but_ad x (Z.lor x k).
Proof.
  intros K i Hi B. rewrite Z.lor_spec. destruct (Z.testbit k i) eqn:E; [|by rewrite orb_false_r]. by rewrite (K i Hi E) in B.
Qed.

#[export] Instance same_but_ad_equivalence : Equivalence same_but_ad.
Proof. split; [done | intros x y E i Hi B; by rewrite (E i Hi B) | intros x y z E F i Hi B; by rewrite (E i Hi B), (F i Hi B)]. Qed.

(** The masks the walk adds: accessed, or accessed and dirty. *)
Definition mark (d : bool) : Z := if d then Z.lor PG_ACCESSED_MASK PG_DIRTY_MASK else PG_ACCESSED_MASK.
Lemma mark_bit d i : 0 <= i -> Z.testbit (mark d) i = (i =? 5) || (d && (i =? 6)).
Proof.
  intros Hi. unfold mark, PG_ACCESSED_MASK, PG_DIRTY_MASK. destruct d; rewrite ?Z.lor_spec, !BIT_testbit by done; rewrite !(Z.eqb_sym i); [done|].
  by rewrite orb_false_r.
Qed.
Lemma mark_ad d i : 0 <= i -> Z.testbit (mark d) i = true -> ad_bit i = true.
Proof. intros Hi. rewrite mark_bit by done. intros E. rewrite ad_bit_low by (destruct d; lia). destruct d; lia. Qed.

Section Marks.
Context {M : Type} `{PM : PhysMemory M} {wf : M -> Prop} {ram_at : M -> Z -> Prop} `{PL : !PhysMemoryLaws M wf ram_at}.

(** What a walk may do to memory: [w] tells whether it was for a write. *)
Record touched (m m' : M) (w : bool) : Prop := {
  t_wf : wf m';
  t_grows : grows m m';
  t_ram a : ram_at m' a <-> ram_at m a;
  t_clean a : w = false -> a mod 4 = 0 -> Z.testbit (ldl_phys m' a) 6 = Z.testbit (ldl_phys m a) 6
}.

Lemma touched_refl m w : wf m -> touched m m w.
Proof. by split. Qed.
Lemma touched_trans m1 m2 m3 w : touched m1 m2 false -> touched m2 m3 w -> touched m1 m3 w.
Proof.
  intros [W1 G1 R1 C1] [W2 G2 R2 C2]. split; [done | by transitivity m2 | intros a; by rewrite R2, R1 |].
  intros a Hw A. by rewrite C2, C1.
Qed.

Lemma mark_touched m a d (w : bool) : wf m -> ram_at m a -> a mod 4 = 0 -> (d = true -> w = true) ->
  let m' := stl_phys_notdirty m a (Z.lor (ldl_phys m a) (mark d)) in touched m m' w /\ ldl_phys m' a = Z.lor (ldl_phys m a) (mark d).
Proof.
  intros W R A D m'. pose proof (ldl_range (PhysMemoryLaws := PL) m a) as LR.
  assert (V : 0 <= Z.lor (ldl_phys m a) (mark d) < 2 ^ 32) by (apply lor_range; [done | done | by destruct d]).
  assert (S : ldl_phys m' a = Z.lor (ldl_phys m a) (mark d)) by (by apply st_same).
  assert (O : forall b, b mod 4 = 0 -> ldl_phys m' b = ldl_phys m b \/ ldl_phys m' b = Z.lor (ldl_phys m b) (mark d)).
  { intros b B. destruct (st_other m a _ b W R A B V) as [E|[E1 E2]]; [by left | right]. by rewrite E1. }
  split; [|done]. split; [by apply st_wf | split | intros b; by apply st_ram |].
  - intros b B. destruct (O b B) as [-> | ->]; [done | apply same_lor, mark_ad].
  - intros b i B E. destruct (O b B) as [-> | ->]; [done | by rewrite Z.lor_spec, E].
  - intros b -> B. destruct d; [by discriminate D|]. destruct (O b B) as [-> | ->]; [done|].
    rewrite Z.lor_spec, mark_bit by done. apply orb_false_r.
Qed.

(** Bits of an entry and of its low word are the same. *)
Lemma entry_low_bit m a e i : u32 e = ldl_phys m a -> 0 <= i < 32 -> Z.testbit (ldl_phys m a) i = Z.testbit e i.
Proof. intros <- Hi. unfold u32. by rewrite Z.mod_pow2_bits_low by lia. Qed.

Lemma u32_lor e k : 0 <= k < 2 ^ 32 -> u32 (Z.lor e k) = Z.lor (u32 e) k.
Proof.
  intros K. rewrite <- (u32_small k) at 2 by done. unfold u32. rewrite <- !Z.land_ones by done. by rewrite Z.land_lor_distr_l.
Qed.

Lemma touch_leaf_eq m a e w : touch_leaf m a e w =
  if Z.testbit e 5 && (negb w || Z.testbit e 6) then (m, e)
  else let e' := Z.lor e (mark (w && negb (Z.testbit e 6))) in (stl_phys_notdirty m a (u32 e'), e').
Proof.
  unfold touch_leaf. rewrite (has_bit e 5), (has_bit e 6) by done. unfold mark.
  destruct (Z.testbit e 5), w, (Z.testbit e 6); cbn [andb orb negb]; rewrite ?Z.lor_assoc; done.
Qed.

Lemma touch_dir_eq m a e : touch_dir m a e = touch_leaf m a e false.
Proof. unfold touch_dir, touch_leaf. cbn [andb]. by rewrite orb_false_r. Qed.

(** Marking an entry: memory only gains bits, and has the entry returned. *)
Lemma touch_leaf_ok m a e w m' e' : wf m -> ram_at m a -> a mod 4 = 0 -> u32 e = ldl_phys m a ->
  touch_leaf m a e w = (m', e') ->
  touched m m' w /\ u32 e' = ldl_phys m' a /\ same_but_ad e e' /\ Z.testbit e' 5 = true /\ Z.testbit e' 6 = Z.testbit e 6 || w /\
  (forall n, 32 <= n -> range n e -> range n e').
Proof.
  intros W R A U. rewrite touch_leaf_eq. destruct (_ && _) eqn:C; intros E; injection E as <- <-.
  - split_and!; [by apply touched_refl | done | done | lia | destruct w, (Z.testbit e 6); try done; lia | done].
  - set (d := w && negb (Z.testbit e 6)). rewrite u32_lor, U by (by destruct d).
    destruct (mark_touched m a d w W R A) as [T S]; [unfold d; by destruct w|].
    split_and!; [done | by rewrite S | apply same_lor, mark_ad | | |].
    + rewrite Z.lor_spec, mark_bit by done. apply orb_true_r.
    + rewrite Z.lor_spec, mark_bit by done. unfold d. by destruct w, (Z.testbit e 6).
    + intros n Hn He. apply lor_range; [lia | done | apply (range_weaken 32); [lia | by destruct d]].
Qed.

Lemma touch_settled m a e (w : bool) : Z.testbit e 5 = true -> (w = true -> Z.testbit e 6 = true) -> touch_leaf m a e w = (m, e).
Proof. intros A D. rewrite touch_leaf_eq, A. destruct w; [by rewrite D | done]. Qed.
End Marks.

(** ** The translation does not depend on the marks *)

Section Fields.
Context (x y : Z) (E : same_but_ad x y).

Lemma page_field_ad : field x 12 20 = field y 12 20.
Proof. apply field_ad; try done. intros i Hi. rewrite ad_bit_low; lia. Qed.
Lemma large_field_ad : field x 22 10 = field y 22 10.
Proof. apply field_ad; try done. intros i Hi. rewrite ad_bit_low; lia. Qed.
Lemma wide_page_field_ad : field x 12 24 = field y 12 24.
Proof. apply field_ad; try done. intros i Hi. unfold ad_bit. Z.div_mod_to_equations. lia. Qed.
Lemma wide_large_field_ad : field x 21 15 = field y 21 15.
Proof. apply field_ad; try done. intros i Hi. unfold ad_bit. Z.div_mod_to_equations. lia. Qed.
End Fields.

(** Rewrites every part of an entry the architecture looks at. *)
Ltac ad_fields E :=
  rewrite ?(E 0 ltac:(done) eq_refl), ?(E 1 ltac:(done) eq_refl), ?(E 2 ltac:(done) eq_refl), ?(E 7 ltac:(done) eq_refl),
    ?(E 63 ltac:(done) eq_refl), ?(page_field_ad _ _ E), ?(large_field_ad _ _ E), ?(wide_page_field_ad _ _ E), ?(wide_large_field_ad _ _ E).

Section Walk.
Context {M : Type} `{PM : PhysMemory M} {wf : M -> Prop} {ram_at : M -> Z -> Prop} `{PL : !PhysMemoryLaws M wf ram_at}.

Lemma ldq_range m a : a mod 8 = 0 -> 0 <= ldq_phys m a < 2 ^ 64.
Proof.
  intros A. rewrite (ldq_words (PhysMemoryLaws := PL)) by done. pose proof (ldl_range (PhysMemoryLaws := PL) m a).
  pose proof (ldl_range (PhysMemoryLaws := PL) m (a + 4)). lia.
Qed.

Lemma ldq_low m a : a mod 8 = 0 -> u32 (ldq_phys m a) = ldl_phys m a.
Proof.
  intros A. rewrite (ldq_words (PhysMemoryLaws := PL)) by done. unfold u32. rewrite Z_mod_plus_full.
  apply Z.mod_small, (ldl_range (PhysMemoryLaws := PL)).
Qed.

Lemma ldq_bit m a i : a mod 8 = 0 -> 0 <= i ->
  Z.testbit (ldq_phys m a) i = if i <? 32 then Z.testbit (ldl_phys m a) i else Z.testbit (ldl_phys m (a + 4)) (i - 32).
Proof.
  intros A Hi. rewrite (ldq_words (PhysMemoryLaws := PL)) by done. pose proof (ldl_range (PhysMemoryLaws := PL) m a) as R.
  rewrite Z.add_comm, <- lor_disjoint_add, Z.lor_spec, Z.shiftl_spec by done. destruct (Z.ltb_spec i 32).
  - by rewrite (Z.testbit_neg_r _ (i - 32)) by lia.
  - rewrite (testbit_high (ldl_phys m a) 32 i R) by lia. apply orb_false_r.
Qed.

Lemma ldq_ad m m' a : ad_equiv m m' -> a mod 8 = 0 -> same_but_ad (ldq_phys m a) (ldq_phys m' a).
Proof.
  intros E A i Hi B. rewrite !ldq_bit by done. destruct (Z.ltb_spec i 32).
  - apply E; [Z.div_mod_to_equations; lia | done | done].
  - apply E; [Z.div_mod_to_equations; lia | lia |]. unfold ad_bit in *. by replace ((i - 32) mod 32) with (i mod 32) by (Z.div_mod_to_equations; lia).
Qed.

#[export] Instance arch_legacy_proper env : Proper (ad_equiv ==> eq ==> eq) (arch_legacy env).
Proof.
  intros m m' E a ? <-. unfold arch_legacy. destruct (legacy_aligned env 0 a) as [A _].
  pose proof (E _ A) as D. ad_fields D. destruct (negb _); [done|]. destruct (_ && _); [done|].
  unfold leaf_legacy. ad_fields D. set (e := phys env (_ + field a 12 10 * 4)).
  assert (Ae : e mod 4 = 0) by apply (legacy_aligned env (ldl_phys m' (dir_legacy env a)) a).
  pose proof (E _ Ae) as F. by ad_fields F.
Qed.

#[export] Instance arch_pae_proper env : Proper (ad_equiv ==> eq ==> eq) (arch_pae env).
Proof.
  intros m m' E a ? <-. unfold arch_pae. destruct (pae_aligned env 0 0 a) as [A _]. pose proof (ldq_ad _ _ _ E A) as P.
  ad_fields P. destruct (negb _); [done|]. unfold dir_pae. ad_fields P. fold (dir_pae env (ldq_phys m' (ptr_pae env a)) a).
  destruct (pae_aligned env (ldq_phys m' (ptr_pae env a)) 0 a) as (_ & B & _). set (d := dir_pae _ _ _) in *.
  pose proof (ldq_ad _ _ _ E B) as D. ad_fields D. destruct (negb _); [done|]. destruct (negb _ && _); [done|]. destruct (Z.testbit _ 7); [done|].
  unfold leaf_pae. ad_fields D. fold (leaf_pae env (ldq_phys m' d) a).
  destruct (pae_aligned env 0 (ldq_phys m' d) a) as (_ & _ & C). pose proof (ldq_ad _ _ _ E C) as F. by ad_fields F.
Qed.

#[export] Instance arch_walk_proper env : Proper (ad_equiv ==> eq ==> eq) (arch_walk env).
Proof. intros m m' E a ? <-. unfold arch_walk. destruct (negb _); [done|]. destruct (Z.testbit _ 5); [by apply arch_pae_proper | by apply arch_legacy_proper]. Qed.

(** ** Rights and mappings, decoded *)

Lemma protect_fault_eq env user w ptep : protect_fault env user w ptep =
  negb ((negb user || Z.testbit ptep 2) && (negb w || Z.testbit ptep 1 || (negb user && negb (Z.testbit (cr0 env) 16)))).
Proof.
  unfold protect_fault. rewrite (has_bit ptep 2), (has_bit ptep 1), (has_bit (cr0 env) 16) by done.
  by destruct user, w, (Z.testbit ptep 2), (Z.testbit ptep 1), (Z.testbit (cr0 env) 16).
Qed.

Lemma allowed_eq env user k l : allowed env user k l =
  (negb user || lf_user l) && (negb (writes k) || lf_write l || (negb user && negb (Z.testbit (cr0 env) 16))) &&
  match k with Fetch => lf_exec l | _ => true end.
Proof. unfold allowed, may_write. destruct k; cbn; by rewrite ?andb_true_r. Qed.

Lemma page_prot_eq env user pte ptep l : Z.testbit ptep 1 = lf_write l -> Z.testbit ptep 63 = negb (lf_exec l) ->
  page_prot env user pte ptep = arch_prot env user (Z.testbit pte 6) l.
Proof.
  intros E1 E2. unfold page_prot, arch_prot, may_write.
  rewrite (has_bit ptep 63 PG_NX_MASK), (has_bit pte 6 PG_DIRTY_MASK), (has_bit ptep 1 PG_RW_MASK), (has_bit (cr0 env) 16 CR0_WP_MASK), E1, E2 by done.
  by destruct (lf_exec l), (Z.testbit pte 6), user, (lf_write l), (Z.testbit (cr0 env) 16).
Qed.

(** The offset of a page in a large page of [2 ^ n] bytes. *)
Lemma page_in_large a n : 12 <= n -> Z.land (page_start a) (2 ^ n - 1) = field a 12 (n - 12) * 2 ^ 12.
Proof.
  intros. rewrite <- Z.shiftl_mul_pow2 by done. change (page_start a) with (Z.land a (Z.lnot (Z.ones 12))). rewrite Z.sub_1_r, <- Z.ones_equiv.
  apply Z.bits_inj'. intros i Hi. rewrite !Z.land_spec, Z.lnot_spec, Z.shiftl_spec, !Z.testbit_ones_nonneg by lia.
  destruct (Z.ltb_spec i 12); [rewrite (Z.testbit_neg_r _ (i - 12)) by lia; by rewrite andb_false_r|].
  rewrite field_testbit by lia. replace (i - 12 + 12) with i by lia. rewrite andb_true_r, andb_comm. f_equal. lia.
Qed.

Lemma map_small env a pte : 0 <= a < 2 ^ 32 ->
  map_addrs env a pte 4096 (Z.land a (Z.lnot 0xfff)) = (page_start a, phys env (page_start pte)).
Proof.
  intros A. unfold map_addrs. change 4096 with (2 ^ 12). rewrite page_in_large by done. unfold field. rewrite Z.mod_1_r, Z.mul_0_l, !Z.add_0_r.
  change (Z.land pte (a20_mask env)) with (phys env pte). rewrite phys_page. f_equal. change (Z.land a (Z.lnot 0xfff)) with (page_start a).
  apply u32_small. rewrite page_start_eq. unfold range. Z.div_mod_to_equations. lia.
Qed.

Lemma map_large env a pte n : 12 <= n <= 32 -> 0 <= a < 2 ^ 32 -> a20_mask env = -1 ->
  map_addrs env a pte (2 ^ n) (Z.land a (Z.lnot (2 ^ n - 1))) = (page_start a, page_start pte + field a 12 (n - 12) * 2 ^ 12).
Proof.
  intros N A O. unfold map_addrs. rewrite page_in_large by lia. rewrite O, Z.land_m1_r. f_equal.
  rewrite Z.sub_1_r, <- Z.ones_equiv, land_above by lia. unfold field. rewrite page_start_eq.
  assert (E : a / 2 ^ n = a / 2 ^ 12 / 2 ^ (n - 12)).
  { rewrite Z.div_div by (try apply Z.pow_pos_nonneg; lia). rewrite <- Z.pow_add_r by lia. by replace (12 + (n - 12)) with n by lia. }
  rewrite E. change 4096 with (2 ^ 12). replace (2 ^ n) with (2 ^ 12 * 2 ^ (n - 12)) by (rewrite <- Z.pow_add_r by lia; f_equal; lia).
  pose proof (Z.div_mod (a / 2 ^ 12) (2 ^ (n - 12)) ltac:(apply Z.pow_nonzero; lia)).
  replace (a / 2 ^ 12 / 2 ^ (n - 12) * (2 ^ 12 * 2 ^ (n - 12)) + (a / 2 ^ 12) mod 2 ^ (n - 12) * 2 ^ 12) with (a / 2 ^ 12 * 2 ^ 12) by lia.
  apply u32_small. unfold range. Z.div_mod_to_equations. lia.
Qed.

Lemma page_legacy x : 0 <= x < 2 ^ 32 -> page_start x = field x 12 20 * 2 ^ 12.
Proof. apply base_legacy. Qed.

(** ** The walk *)

(** The entries the walk marks. *)
Definition entries (env : CPUX86State) (m : M) (a : Z) : list Z :=
  if negb (Z.testbit (cr0 env) 31) then []
  else if Z.testbit (cr4 env) 5 then
    let pdpe := ldq_phys m (ptr_pae env a) in
    let dir := dir_pae env pdpe a in
    let pde := ldq_phys m dir in
    if negb (Z.testbit pdpe 0 && Z.testbit pde 0) then []
    else if Z.testbit pde 7 then [dir] else [dir; leaf_pae env pde a]
  else
    let dir := dir_legacy env a in
    let pde := ldl_phys m dir in
    if negb (Z.testbit pde 0) then []
    else if Z.testbit pde 7 && Z.testbit (cr4 env) 4 then [dir] else [dir; leaf_legacy env pde a].

(** The tables of an address are in RAM and, with PAE, below 4 GB; large pages
    are used with the A20 gate open. *)
Record walkable (env : CPUX86State) (m : M) (a : Z) : Prop := {
  wk_cr3 : 0 <= cr3 env < 2 ^ 32;
  wk_addr : 0 <= a < 2 ^ 32;
  wk_ram e : e ∈ entries env m a -> ram_at m e;
  wk_pdpe : Z.testbit (cr0 env) 31 && Z.testbit (cr4 env) 5 = true -> field (ldq_phys m (ptr_pae env a)) 12 24 < 2 ^ 20;
  wk_pde : Z.testbit (cr0 env) 31 && Z.testbit (cr4 env) 5 = true -> let pde := ldq_phys m (dir_pae env (ldq_phys m (ptr_pae env a)) a) in
    Z.testbit pde 7 = false -> field pde 12 24 < 2 ^ 20;
  wk_a20 l : arch_walk env m a = Found l -> lf_large l = true -> a20_mask env = -1
}.

(** A mapping decodes to the page and the rights of a leaf. *)
Definition decodes (env : CPUX86State) (a : Z) (user dirty : bool) (l : Leaf) (w : Walk) : Prop :=
  exists pte ptep page_size virt_addr, w = WMap pte ptep page_size virt_addr /\
    map_addrs env a pte page_size virt_addr = (page_start a, frame l) /\ page_prot env user pte ptep = arch_prot env user dirty l.

(** A successful walk: the page and the protection for the TLB, and marks on
    every entry, the last of them dirty after a write. *)
Definition mapped (env : CPUX86State) (m m' : M) (a : Z) (user : bool) (k : Access) (l : Leaf) (w : Walk) : Prop :=
  decodes env a user (leaf_bit m' l 6) l w /\
  (forall e, e ∈ entries env m a -> Z.testbit (ldl_phys m' e) 5 = true) /\
  (writes k = true -> leaf_bit m' l 6 = true).

Definition walk_post (env : CPUX86State) (m : M) (a : Z) (user : bool) (k : Access) (t : Translation) (m' : M) (w : Walk) : Prop :=
  touched (wf := wf) (ram_at := ram_at) m m' (writes k) /\
  match t with
  | Missing => w = WFault 0
  | Reserved => w = WFault PG_ERROR_RSVD_MASK
  | Found l => if allowed env user k l then mapped env m m' a user k l w else w = WFault PG_ERROR_P_MASK
  end.

(** The end of the walk at the entry [e] of a page, with the rights in [ptep]:
    the tests, the marks, and the mapping [f] makes of the marked entry. *)
Definition may_access (env : CPUX86State) (user : bool) (k : Access) (u wr : bool) : bool :=
  (negb user || u) && (negb (writes k) || wr || (negb user && negb (Z.testbit (cr0 env) 16))).

Definition leaf_end (env : CPUX86State) (m : M) (user : bool) (w : bool) (addr e ptep : Z) (f : Z -> Walk) : M * Walk :=
  if protect_fault env user w ptep then (m, WFault PG_ERROR_P_MASK)
  else let '(m, e) := touch_leaf m addr e w in (m, f e).

Lemma leaf_end_ok env m user k addr e ptep f m' w : wf m -> ram_at m addr -> addr mod 4 = 0 -> u32 e = ldl_phys m addr ->
  leaf_end env m user (writes k) addr e ptep f = (m', w) ->
  touched (wf := wf) (ram_at := ram_at) m m' (writes k) /\
  if may_access env user k (Z.testbit ptep 2) (Z.testbit ptep 1) then
    exists e', w = f e' /\ same_but_ad e e' /\ Z.testbit (ldl_phys m' addr) 5 = true /\ Z.testbit (ldl_phys m' addr) 6 = Z.testbit e' 6 /\
      (writes k = true -> Z.testbit e' 6 = true) /\ (forall n, 32 <= n -> range n e -> range n e')
  else w = WFault PG_ERROR_P_MASK.
Proof.
  intros W R A U. unfold leaf_end. rewrite protect_fault_eq. fold (may_access env user k (Z.testbit ptep 2) (Z.testbit ptep 1)).
  destruct (may_access _ _ _ _ _); cbn [negb]; [|intros E; injection E as <- <-; split; [by apply touched_refl | done]].
  destruct (touch_leaf m addr e (writes k)) as [m1 e1] eqn:T. intros E; injection E as <- <-.
  destruct (touch_leaf_ok m addr e (writes k) m1 e1 W R A U T) as (T1 & T2 & T3 & T4 & T5 & T6). split; [done|]. exists e1.
  rewrite !(entry_low_bit m1 addr e1 _ T2) by done. split_and!; try done. intros Hw. rewrite T5, Hw. apply orb_true_r.
Qed.

Lemma page_of_bits pte e n w : 12 <= n -> 0 <= w ->
  (forall i, 12 <= i -> Z.testbit pte i = (n <=? i) && (i <? n + w) && Z.testbit e i) -> page_start pte = field e n w * 2 ^ n.
Proof.
  intros Hn Hw B. rewrite page_start_eq. change 4096 with (2 ^ 12). rewrite <- !Z.shiftl_mul_pow2, <- Z.shiftr_div_pow2 by lia.
  apply Z.bits_inj'. intros i Hi. rewrite !Z.shiftl_spec by done. destruct (Z.ltb_spec i 12); [by rewrite !Z.testbit_neg_r by lia|].
  rewrite Z.shiftr_spec by lia. replace (i - 12 + 12) with i by lia. rewrite B by lia. destruct (Z.leb_spec n i).
  - rewrite field_testbit by lia. replace (i - n + n) with i by lia. by replace (i - n <? w) with (i <? n + w) by lia.
  - by rewrite (Z.testbit_neg_r _ (i - n)) by lia.
Qed.

Lemma decode_large env a user e l pte ptep n w : 12 <= n <= 32 -> 0 <= w -> 0 <= a < 2 ^ 32 -> a20_mask env = -1 ->
  (forall i, 12 <= i -> Z.testbit pte i = (n <=? i) && (i <? n + w) && Z.testbit e i) ->
  frame l = phys env (field e n w * 2 ^ n + field a 12 (n - 12) * 2 ^ 12) ->
  Z.testbit ptep 1 = lf_write l -> Z.testbit ptep 63 = negb (lf_exec l) ->
  decodes env a user (Z.testbit pte 6) l (WMap pte ptep (2 ^ n) (Z.land a (Z.lnot (2 ^ n - 1)))).
Proof.
  intros N Hw A O B F Wr X. eexists _, _, _, _. split; [done|]. split; [|by apply page_prot_eq].
  rewrite map_large, (page_of_bits pte e n w), F by (done || lia). unfold phys. by rewrite O, Z.land_m1_r.
Qed.

Lemma decode_small env a user e l pte ptep w : 0 <= w -> 0 <= a < 2 ^ 32 ->
  (forall i, 12 <= i -> Z.testbit pte i = (i <? 12 + w) && Z.testbit e i) -> frame l = phys env (field e 12 w * 2 ^ 12) ->
  Z.testbit ptep 1 = lf_write l -> Z.testbit ptep 63 = negb (lf_exec l) ->
  decodes env a user (Z.testbit pte 6) l (WMap pte ptep 4096 (Z.land a (Z.lnot 0xfff))).
Proof.
  intros Hw A B F Wr X. eexists _, _, _, _. split; [done|]. split; [|by apply page_prot_eq].
  rewrite map_small, (page_of_bits pte e 12 w), F by (done || intros i Hi; rewrite B by done; lia). done.
Qed.

(** The bits of the masks. *)
Lemma legacy_large_bits e i : range 32 e -> 0 <= i ->
  Z.testbit (Z.land e (Z.lnot (Z.land (4096 * 1024 - 1) (Z.lnot 0xfff)))) i = ((i <? 12) || (22 <=? i) && (i <? 32)) && Z.testbit e i.
Proof.
  intros R Hi. change (4096 * 1024 - 1) with (Z.ones 22). change 0xfff with (Z.ones 12).
  rewrite Z.land_spec, Z.lnot_spec, Z.land_spec, Z.lnot_spec, !Z.testbit_ones_nonneg by lia.
  destruct (Z.ltb_spec i 32); [destruct (Z.testbit e i); lia|]. by rewrite (testbit_high e 32), andb_false_r by (done || lia).
Qed.
Lemma pae_large_bits e i : 0 <= i ->
  Z.testbit (Z.land e (Z.lor (Z.land PHYS_ADDR_MASK (Z.lnot (2048 * 1024 - 1))) 0xfff)) i = ((i <? 12) || (21 <=? i) && (i <? 36)) && Z.testbit e i.
Proof.
  intros Hi. change (2048 * 1024 - 1) with (Z.ones 21). change 0xfff with (Z.ones 12). change PHYS_ADDR_MASK with (Z.shiftl (Z.ones 24) 12).
  rewrite Z.land_spec, Z.lor_spec, Z.land_spec, Z.lnot_spec, Z.shiftl_spec, !Z.testbit_ones by lia. destruct (Z.testbit e i); lia.
Qed.
Lemma pae_small_bits e i : 0 <= i -> Z.testbit (Z.land e (Z.lor PHYS_ADDR_MASK 0xfff)) i = (i <? 36) && Z.testbit e i.
Proof. intros Hi. change (Z.lor PHYS_ADDR_MASK 0xfff) with (Z.ones 36). rewrite Z.land_spec, Z.testbit_ones by lia. destruct (Z.testbit e i); lia. Qed.

Lemma walk_leaf env m0 m a user k addr e ptep f l pre m' w :
  touched (wf := wf) (ram_at := ram_at) m0 m false -> ram_at m0 addr -> addr mod 4 = 0 -> u32 e = ldl_phys m addr ->
  leaf_end env m user (writes k) addr e ptep f = (m', w) ->
  entries env m0 a = pre ++ [addr] -> (forall x, x ∈ pre -> x mod 4 = 0 /\ Z.testbit (ldl_phys m x) 5 = true) ->
  lf_entry l = Some addr -> allowed env user k l = may_access env user k (Z.testbit ptep 2) (Z.testbit ptep 1) ->
  (forall e', same_but_ad e e' -> (forall n, 32 <= n -> range n e -> range n e') -> decodes env a user (Z.testbit e' 6) l (f e')) ->
  walk_post env m0 a user k (Found l) m' w.
Proof.
  intros T0 R A U E En Pre L Al D. destruct (leaf_end_ok env m user k addr e ptep f m' w) as [T1 P]; [apply T0 | by apply T0 | done | done | done|].
  split; [by apply (touched_trans _ m)|]. rewrite Al. destruct (may_access _ _ _ _ _); [|done].
  destruct P as (e' & -> & Se & B5 & B6 & Bw & Re). unfold mapped, leaf_bit. rewrite L, B6. split_and!; [by apply D | | done].
  intros x. rewrite En, elem_of_app, list_elem_of_singleton. intros [Hx| ->]; [|done]. destruct (Pre x Hx). by apply (t_grows _ _ _ T1).
Qed.

Lemma fault_post env m0 m a user k w t : touched (wf := wf) (ram_at := ram_at) m0 m false ->
  match t with Missing => w = WFault 0 | Reserved => w = WFault PG_ERROR_RSVD_MASK | Found l => allowed env user k l = false /\ w = WFault PG_ERROR_P_MASK end ->
  walk_post env m0 a user k t m w.
Proof.
  intros T P. split.
  - apply (touched_trans _ m); [done | apply touched_refl, T].
  - destruct t; [done | done |]. by destruct P as [-> ->].
Qed.

(** *** Two levels *)

Lemma entries_legacy env m a : Z.testbit (cr0 env) 31 = true -> Z.testbit (cr4 env) 5 = false -> let d := dir_legacy env a in let pde := ldl_phys m d in
  entries env m a = if negb (Z.testbit pde 0) then [] else if Z.testbit pde 7 && Z.testbit (cr4 env) 4 then [d] else [d; leaf_legacy env pde a].
Proof. intros P0 P4. unfold entries. by rewrite P0, P4. Qed.

Lemma legacy_large_ok env m a user k d pde m' w : wf m -> 0 <= a < 2 ^ 32 -> a20_mask env = -1 -> ram_at m d -> d mod 4 = 0 -> pde = ldl_phys m d ->
  entries env m a = [d] -> legacy_large env m a user (writes k) d pde = (m', w) ->
  walk_post env m a user k (Found (mkLeaf (phys env (field pde 22 10 * 2 ^ 22 + field a 12 10 * 2 ^ 12)) (Z.testbit pde 2) (Z.testbit pde 1) true true (Some d))) m' w.
Proof.
  intros W A O R Ad Ep En E. assert (Rd : range 32 pde) by (rewrite Ep; apply ldl_range).
  eapply (walk_leaf env m m a user k d pde pde _ _ []); [by apply touched_refl | done | done | by rewrite <- Ep; apply u32_small | exact E | done | set_solver | done | |].
  - rewrite allowed_eq. cbn. destruct k; by rewrite andb_true_r.
  - intros e S Re. pose proof (legacy_large_bits e) as B. specialize (Re 32 ltac:(done) Rd). cbv zeta.
    replace (Z.testbit e 6) with (Z.testbit (Z.land e (Z.lnot (Z.land (4096 * 1024 - 1) (Z.lnot 0xfff)))) 6) by (by rewrite B).
    change (4096 * 1024) with (2 ^ 22) at 2 3. apply (decode_large env a user e _ _ _ 22 10); try done.
    + intros i Hi. rewrite B by (done || lia). destruct (Z.testbit e i); lia.
    + cbn. by ad_fields S.
    + rewrite B by done. cbn. by ad_fields S.
    + by rewrite B by done.
Qed.

Lemma legacy_small_ok env m a user k d pde m' w : wf m -> 0 <= a < 2 ^ 32 -> ram_at m d -> d mod 4 = 0 -> pde = ldl_phys m d ->
  ram_at m (leaf_legacy env pde a) -> entries env m a = [d; leaf_legacy env pde a] -> legacy_small env m a user (writes k) d pde = (m', w) ->
  let pte := ldl_phys m (leaf_legacy env pde a) in
  walk_post env m a user k (if negb (Z.testbit pte 0) then Missing
    else Found (mkLeaf (phys env (field pte 12 20 * 2 ^ 12)) (Z.testbit pde 2 && Z.testbit pte 2) (Z.testbit pde 1 && Z.testbit pte 1) true false
                  (Some (leaf_legacy env pde a)))) m' w.
Proof.
  intros W A R Ad Ep Rl En. assert (Rd : range 32 pde) by (rewrite Ep; apply ldl_range).
  unfold legacy_small. rewrite touch_dir_eq. destruct (touch_leaf m d pde false) as [m1 pde1] eqn:T.
  destruct (touch_leaf_ok m d pde false m1 pde1) as (T1 & T2 & T3 & T4 & T5 & T6); [done | done | done | by rewrite <- Ep; apply u32_small | done|].
  specialize (T6 32 ltac:(done) Rd). rewrite leaf_legacy_addr by done.
  assert (leaf_legacy env pde1 a = leaf_legacy env pde a) as -> by (unfold leaf_legacy; by ad_fields T3).
  set (lf := leaf_legacy env pde a) in *. assert (Al : lf mod 4 = 0) by apply (legacy_aligned env pde a). cbv zeta.
  pose proof (proj1 (t_grows _ _ _ T1) lf Al) as S1. ad_fields S1. set (pte := ldl_phys m1 lf). assert (Re : range 32 pte) by apply ldl_range.
  rewrite (has_bit pte 0 PG_PRESENT_MASK) by done. destruct (Z.testbit pte 0) eqn:B1; cbn [negb]; [|intros E; injection E as <- <-; by apply fault_post].
  ad_fields T3. intros E. eapply (walk_leaf env m m1 a user k lf pte (Z.land pte pde1) _ _ [d]); [done | done | done | by apply u32_small | exact E | done | | done | |].
  - intros x Hx. apply list_elem_of_singleton in Hx as ->. split; [done|]. by rewrite (entry_low_bit m1 d pde1 5 T2).
  - rewrite allowed_eq. cbn. rewrite !Z.land_spec, !(andb_comm (Z.testbit pte _)). destruct k; by rewrite andb_true_r.
  - intros e S Rg. specialize (Rg 32 ltac:(done) Re). apply (decode_small env a user e _ _ _ 20); try done.
    + intros i Hi. destruct (Z.ltb_spec i (12 + 20)); [done|]. apply (testbit_high e 32); [done | done | lia].
    + cbn. by ad_fields S.
    + rewrite Z.land_spec. cbn. apply andb_comm.
    + rewrite Z.land_spec, (testbit_high pte 32) by done. done.
Qed.

Lemma walk_legacy_ok env m a user k m' w : wf m -> walkable env m a -> Z.testbit (cr0 env) 31 = true -> Z.testbit (cr4 env) 5 = false ->
  walk_legacy env m a user (writes k) = (m', w) -> walk_post env m a user k (arch_walk env m a) m' w.
Proof.
  intros W [C A R _ _ O] P0 P4. pose proof (entries_legacy env m a P0 P4) as En. cbv zeta in En. rewrite En in R.
  unfold arch_walk in *. rewrite P0, P4 in *. cbn [negb] in *. unfold walk_legacy, arch_legacy in *. rewrite dir_legacy_addr by done.
  assert (Ad : dir_legacy env a mod 4 = 0) by apply (legacy_aligned env 0 a).
  rewrite (has_bit _ 0 PG_PRESENT_MASK), (has_bit _ 7 PG_PSE_MASK), (has_bit (cr4 env) 4 CR4_PSE_MASK) by done.
  destruct (Z.testbit _ 0); cbn [negb] in *; [|intros E; injection E as <- <-; apply fault_post; [by apply touched_refl | done]].
  destruct (_ && _).
  - apply legacy_large_ok; try done; [by apply (O _ eq_refl) | apply R; set_solver].
  - apply legacy_small_ok; try done; apply R; set_solver.
Qed.

(** *** Three levels *)

(** Rights of a PAE entry: the NX bit is inverted while entries are combined. *)
Lemma pae_ptep pde : let ptep := Z.land (Z.lor (Z.lor PG_NX_MASK PG_USER_MASK) PG_RW_MASK) (Z.lxor pde PG_NX_MASK) in
  Z.testbit ptep 1 = Z.testbit pde 1 /\ Z.testbit ptep 2 = Z.testbit pde 2 /\ Z.testbit ptep 63 = negb (Z.testbit pde 63).
Proof. cbv zeta. rewrite !Z.land_spec, !Z.lxor_spec. cbn. by rewrite !xorb_false_r, xorb_true_r. Qed.
Lemma nx_flip x : Z.testbit (Z.lxor x PG_NX_MASK) 1 = Z.testbit x 1 /\ Z.testbit (Z.lxor x PG_NX_MASK) 2 = Z.testbit x 2 /\
  Z.testbit (Z.lxor x PG_NX_MASK) 63 = negb (Z.testbit x 63).
Proof. rewrite !Z.lxor_spec. cbn. by rewrite !xorb_false_r, xorb_true_r. Qed.

(** The test for execution. *)
Lemma fetch_fault env user k l b : b = negb (lf_exec l) -> b && (access_code k =? 2) = true -> allowed env user k l = false.
Proof. intros ->. rewrite allowed_eq. destruct k; cbn; rewrite ?andb_false_r; try done. destruct (lf_exec l); [done|]. intros _. apply andb_false_r. Qed.
Lemma fetch_fine env user k l b : b = negb (lf_exec l) -> b && (access_code k =? 2) = false ->
  allowed env user k l = may_access env user k (lf_user l) (lf_write l).
Proof. intros ->. rewrite allowed_eq. unfold may_access. destruct k; cbn; rewrite ?andb_true_r; try done. by destruct (lf_exec l); rewrite ?andb_true_r. Qed.

Lemma pae_large_ok env m a user k d pde m' w : wf m -> 0 <= a < 2 ^ 32 -> a20_mask env = -1 -> ram_at m d -> d mod 8 = 0 -> pde = ldq_phys m d ->
  entries env m a = [d] ->
  pae_large env m a (access_code k) user (writes k) d pde (Z.land (Z.lor (Z.lor PG_NX_MASK PG_USER_MASK) PG_RW_MASK) (Z.lxor pde PG_NX_MASK)) = (m', w) ->
  walk_post env m a user k (Found (mkLeaf (phys env (field pde 21 15 * 2 ^ 21 + field a 12 9 * 2 ^ 12)) (Z.testbit pde 2) (Z.testbit pde 1)
    (negb (Z.testbit pde 63)) true (Some d))) m' w.
Proof.
  intros W A O R Ad Ep En. assert (Ad4 : d mod 4 = 0) by (clear -Ad; Z.div_mod_to_equations; lia). unfold pae_large.
  destruct (pae_ptep pde) as (Q1 & Q2 & Q63). set (ptep := Z.land _ (Z.lxor pde PG_NX_MASK)) in *.
  destruct (nx_flip ptep) as (F1 & F2 & F63). rewrite Q1 in F1. rewrite Q2 in F2. rewrite Q63, negb_involutive in F63.
  rewrite (has_bit _ 63 PG_NX_MASK), F63 by done. set (l := mkLeaf _ _ _ _ _ _).
  assert (X : Z.testbit pde 63 = negb (lf_exec l)) by (cbn; by rewrite negb_involutive).
  destruct (_ && (access_code k =? 2)) eqn:Bx; intros E.
  { injection E as <- <-. apply fault_post; [by apply touched_refl|]. split; [by apply (fetch_fault _ _ _ _ _ X) | done]. }
  eapply (walk_leaf env m m a user k d pde (Z.lxor ptep PG_NX_MASK) _ l []);
    [by apply touched_refl | done | done | by rewrite Ep; apply ldq_low | exact E | done | set_solver | done | |].
  - rewrite F1, F2. apply (fetch_fine _ _ _ _ _ X Bx).
  - intros e S Re. pose proof (pae_large_bits e) as B. cbv zeta.
    replace (Z.testbit e 6) with (Z.testbit (Z.land e (Z.lor (Z.land PHYS_ADDR_MASK (Z.lnot (2048 * 1024 - 1))) 0xfff)) 6) by (by rewrite B).
    change (2048 * 1024) with (2 ^ 21) at 2 3. apply (decode_large env a user e _ _ _ 21 15); try done.
    + intros i Hi. rewrite B by (clear -Hi; lia). destruct (Z.testbit e i); clear -Hi; lia.
    + cbn. by ad_fields S.
    + by rewrite F63.
Qed.

Lemma pae_small_ok env m a user k d pde m' w : wf m -> 0 <= a < 2 ^ 32 -> ram_at m d -> d mod 8 = 0 -> pde = ldq_phys m d ->
  field pde 12 24 < 2 ^ 20 -> ram_at m (leaf_pae env pde a) -> entries env m a = [d; leaf_pae env pde a] ->
  pae_small env m a (access_code k) user (writes k) d pde (Z.land (Z.lor (Z.lor PG_NX_MASK PG_USER_MASK) PG_RW_MASK) (Z.lxor pde PG_NX_MASK)) = (m', w) ->
  let pte := ldq_phys m (leaf_pae env pde a) in
  walk_post env m a user k (if negb (Z.testbit pte 0) then Missing
    else if negb (nxe env) && Z.testbit pte 63 then Reserved
    else Found (mkLeaf (phys env (field pte 12 24 * 2 ^ 12)) (Z.testbit pde 2 && Z.testbit pte 2) (Z.testbit pde 1 && Z.testbit pte 1)
                  (negb (Z.testbit pde 63) && negb (Z.testbit pte 63)) false (Some (leaf_pae env pde a)))) m' w.
Proof.
  intros W A R Ad Ep Lo Rl En. assert (Ad4 : d mod 4 = 0) by (clear -Ad; Z.div_mod_to_equations; lia). unfold pae_small.
  rewrite touch_dir_eq. destruct (touch_leaf m d pde false) as [m1 pde1] eqn:T.
  destruct (touch_leaf_ok m d pde false m1 pde1) as (T1 & T2 & T3 & T4 & T5 & T6); [done | done | done | by rewrite Ep; apply ldq_low | done|].
  rewrite leaf_pae_addr by (by ad_fields T3 || by rewrite <- (wide_page_field_ad _ _ T3)).
  assert (leaf_pae env pde1 a = leaf_pae env pde a) as -> by (unfold leaf_pae; by ad_fields T3).
  set (lf := leaf_pae env pde a) in *. assert (Al : lf mod 8 = 0) by apply (pae_aligned env 0 pde a). cbv zeta.
  assert (Al4 : lf mod 4 = 0) by (clear -Al; Z.div_mod_to_equations; lia).
  pose proof (ldq_ad _ _ lf (proj1 (t_grows _ _ _ T1)) Al) as S1. ad_fields S1. set (pte := ldq_phys m1 lf).
  rewrite (has_bit pte 0 PG_PRESENT_MASK), (has_bit (efer env) 11 MSR_EFER_NXE), (has_bit pte 63 PG_NX_MASK) by done. fold (nxe env).
  destruct (Z.testbit pte 0); cbn [negb]; [|intros E; injection E as <- <-; by apply fault_post].
  destruct (negb (nxe env) && Z.testbit pte 63); [intros E; injection E as <- <-; by apply fault_post|].
  destruct (pae_ptep pde) as (Q1 & Q2 & Q63). set (pt0 := Z.land _ (Z.lxor pde PG_NX_MASK)) in *.
  destruct (nx_flip pte) as (G1 & G2 & G63). destruct (nx_flip (Z.land pt0 (Z.lxor pte PG_NX_MASK))) as (F1 & F2 & F63).
  rewrite Z.land_spec, Q1, G1 in F1. rewrite Z.land_spec, Q2, G2 in F2. rewrite Z.land_spec, Q63, G63 in F63.
  set (ptep := Z.lxor (Z.land pt0 _) _) in *. rewrite (has_bit ptep 63 PG_NX_MASK) by done. set (l := mkLeaf _ _ _ _ _ _).
  destruct (_ && (access_code k =? 2)) eqn:Bx; intros E.
  { injection E as <- <-. apply fault_post; [done|]. split; [by apply (fetch_fault _ _ _ l _ F63) | done]. }
  eapply (walk_leaf env m m1 a user k lf pte ptep _ l [d]); [done | done | done | by apply ldq_low | exact E | done | | done | |].
  - intros x Hx. apply list_elem_of_singleton in Hx as ->. split; [done|]. by rewrite (entry_low_bit m1 d pde1 5 T2).
  - rewrite F1, F2. apply (fetch_fine _ _ _ l _ F63 Bx).
  - intros e S Re. pose proof (pae_small_bits e) as B.
    replace (Z.testbit e 6) with (Z.testbit (Z.land e (Z.lor PHYS_ADDR_MASK 0xfff)) 6) by (by rewrite B).
    apply (decode_small env a user e _ _ _ 24); try done.
    + intros i Hi. rewrite B by (clear -Hi; lia). done.
    + cbn. by ad_fields S.
Qed.

Lemma entries_pae env m a : Z.testbit (cr0 env) 31 = true -> Z.testbit (cr4 env) 5 = true ->
  let pdpe := ldq_phys m (ptr_pae env a) in let d := dir_pae env pdpe a in let pde := ldq_phys m d in
  entries env m a = if negb (Z.testbit pdpe 0 && Z.testbit pde 0) then [] else if Z.testbit pde 7 then [d] else [d; leaf_pae env pde a].
Proof. intros P0 P4. unfold entries. by rewrite P0, P4. Qed.

Lemma walk_pae_ok env m a user k m' w : wf m -> walkable env m a -> Z.testbit (cr0 env) 31 = true -> Z.testbit (cr4 env) 5 = true ->
  walk_pae env m a (access_code k) user (writes k) = (m', w) -> walk_post env m a user k (arch_walk env m a) m' w.
Proof.
  intros W [C A R Lp Ld O] P0 P4. rewrite P0, P4 in Lp, Ld. specialize (Lp eq_refl). specialize (Ld eq_refl). cbv zeta in Ld. pose proof (entries_pae env m a P0 P4) as En. cbv zeta in En.
  rewrite En in R. unfold walk_pae. rewrite ptr_pae_addr, dir_pae_addr by done.
  unfold arch_walk in *. rewrite P0, P4 in *. cbn [negb] in *. unfold arch_pae in *.
  set (pdpe := ldq_phys m (ptr_pae env a)) in *. assert (Ad : dir_pae env pdpe a mod 8 = 0) by apply (pae_aligned env pdpe 0 a).
  set (d := dir_pae env pdpe a) in *. set (pde := ldq_phys m d) in *.
  rewrite (has_bit pdpe 0 PG_PRESENT_MASK), (has_bit pde 0 PG_PRESENT_MASK), (has_bit pde 7 PG_PSE_MASK), (has_bit pde 63 PG_NX_MASK),
    (has_bit (efer env) 11 MSR_EFER_NXE) by done. fold (nxe env).
  destruct (Z.testbit pdpe 0); cbn [negb] in *; [|intros E; injection E as <- <-; apply fault_post; [by apply touched_refl | done]].
  destruct (Z.testbit pde 0); cbn [negb andb] in *; [|intros E; injection E as <- <-; apply fault_post; [by apply touched_refl | done]].
  destruct (negb (nxe env) && Z.testbit pde 63); [intros E; injection E as <- <-; apply fault_post; [by apply touched_refl | done]|].
  destruct (Z.testbit pde 7).
  - apply pae_large_ok; try done; [by apply (O _ eq_refl) | apply R; set_solver].
  - apply pae_small_ok; try done; [apply R; set_solver | by apply Ld | apply R; set_solver].
Qed.

(** ** Walking again *)

#[export] Instance entries_proper env : Proper (ad_equiv ==> eq ==> eq) (entries env).
Proof.
  intros m m' E a ? <-. unfold entries. destruct (negb _); [done|]. destruct (Z.testbit (cr4 env) 5).
  - destruct (pae_aligned env 0 0 a) as [A _]. pose proof (ldq_ad _ _ _ E A) as P. ad_fields P.
    unfold dir_pae. ad_fields P. fold (dir_pae env (ldq_phys m' (ptr_pae env a)) a).
    destruct (pae_aligned env (ldq_phys m' (ptr_pae env a)) 0 a) as (_ & B & _). set (d := dir_pae _ _ _) in *.
    pose proof (ldq_ad _ _ _ E B) as D. unfold leaf_pae. by ad_fields D.
  - destruct (legacy_aligned env 0 a) as [A _]. pose proof (E _ A) as D. unfold leaf_legacy. by ad_fields D.
Qed.

Lemma walkable_touched env m m' w a : walkable env m a -> touched (wf := wf) (ram_at := ram_at) m m' w -> walkable env m' a.
Proof.
  intros [C A R Lp Ld O] [_ [G _] TR _]. destruct (pae_aligned env 0 0 a) as [Ap _]. pose proof (ldq_ad _ _ _ G Ap) as P.
  destruct (pae_aligned env (ldq_phys m' (ptr_pae env a)) 0 a) as (_ & B & _). pose proof (ldq_ad _ _ _ G B) as D.
  assert (Ed : dir_pae env (ldq_phys m' (ptr_pae env a)) a = dir_pae env (ldq_phys m (ptr_pae env a)) a) by (unfold dir_pae; by ad_fields P).
  split; [done | done | | | |].
  - intros e He. apply TR, R. by rewrite (entries_proper env _ _ G a a eq_refl).
  - intros Q. rewrite <- (wide_page_field_ad _ _ P). by apply Lp.
  - intros Q. cbv zeta. rewrite <- (wide_page_field_ad _ _ D), <- (D 7 ltac:(done) eq_refl), Ed. by apply Ld.
  - intros l Hl. apply O. by rewrite (arch_walk_proper env _ _ G a a eq_refl).
Qed.

(** Entries that are marked already are not written. *)
Lemma leaf_end_settled env m user w addr e ptep f : Z.testbit e 5 = true -> (w = true -> Z.testbit e 6 = true) ->
  (leaf_end env m user w addr e ptep f).1 = m.
Proof. intros A D. unfold leaf_end. destruct (protect_fault _ _ _ _); [done|]. by rewrite touch_settled. Qed.

Definition settled (env : CPUX86State) (m : M) (a : Z) (w : bool) : Prop :=
  (forall e, e ∈ entries env m a -> Z.testbit (ldl_phys m e) 5 = true) /\
  (w = true -> forall l, arch_walk env m a = Found l -> leaf_bit m l 6 = true).

Lemma legacy_settled env m a user w : walkable env m a -> Z.testbit (cr0 env) 31 = true -> Z.testbit (cr4 env) 5 = false -> settled env m a w ->
  (walk_legacy env m a user w).1 = m.
Proof.
  intros [C A R _ _ _] P0 P4 [S5 S6]. pose proof (entries_legacy env m a P0 P4) as En. cbv zeta in En. rewrite En in S5.
  unfold arch_walk in S6. rewrite P0, P4 in S6. cbn [negb] in S6. unfold walk_legacy, arch_legacy in *. rewrite dir_legacy_addr by done.
  set (d := dir_legacy env a) in *. set (pde := ldl_phys m d) in *. assert (Rd : 0 <= pde < 2 ^ 32) by apply ldl_range.
  rewrite (has_bit pde 0 PG_PRESENT_MASK), (has_bit pde 7 PG_PSE_MASK), (has_bit (cr4 env) 4 CR4_PSE_MASK) by done.
  destruct (Z.testbit pde 0); cbn [negb] in *; [|done]. destruct (_ && _).
  - apply leaf_end_settled; [apply S5; set_solver|]. intros Hw. apply (S6 Hw _ eq_refl).
  - unfold legacy_small. rewrite touch_dir_eq, touch_settled by (done || apply S5; set_solver). rewrite leaf_legacy_addr by done.
    set (pte := ldl_phys m (leaf_legacy env pde a)) in *. rewrite (has_bit pte 0 PG_PRESENT_MASK) by done.
    destruct (Z.testbit pte 0); cbn [negb] in *; [|done]. apply leaf_end_settled; [apply S5; set_solver|]. intros Hw. apply (S6 Hw _ eq_refl).
Qed.

Lemma pae_settled env m a k user w : walkable env m a -> Z.testbit (cr0 env) 31 = true -> Z.testbit (cr4 env) 5 = true -> settled env m a w ->
  (walk_pae env m a k user w).1 = m.
Proof.
  intros [C A R Lp Ld _] P0 P4 [S5 S6]. rewrite P0, P4 in Lp, Ld. specialize (Lp eq_refl). specialize (Ld eq_refl). cbv zeta in Ld.
  pose proof (entries_pae env m a P0 P4) as En. cbv zeta in En. rewrite En in S5. unfold arch_walk in S6. rewrite P0, P4 in S6. cbn [negb] in S6.
  unfold walk_pae, arch_pae in *. rewrite ptr_pae_addr, dir_pae_addr by done. set (pdpe := ldq_phys m (ptr_pae env a)) in *.
  assert (Ad : dir_pae env pdpe a mod 8 = 0) by apply (pae_aligned env pdpe 0 a). set (d := dir_pae env pdpe a) in *. set (pde := ldq_phys m d) in *.
  rewrite (has_bit pdpe 0 PG_PRESENT_MASK), (has_bit pde 0 PG_PRESENT_MASK), (has_bit pde 7 PG_PSE_MASK), (has_bit pde 63 PG_NX_MASK),
    (has_bit (efer env) 11 MSR_EFER_NXE) by done. fold (nxe env).
  destruct (Z.testbit pdpe 0); cbn [negb] in *; [|done]. destruct (Z.testbit pde 0); cbn [negb andb] in *; [|done].
  destruct (negb (nxe env) && Z.testbit pde 63); [done|].
  assert (Low : forall x i, x mod 8 = 0 -> 0 <= i < 32 -> Z.testbit (ldq_phys m x) i = Z.testbit (ldl_phys m x) i)
    by (intros x i Hx Hi; rewrite <- (ldq_low m x Hx); unfold u32; symmetry; apply Z.mod_pow2_bits_low; lia).
  assert (D5 : Z.testbit pde 5 = true) by (unfold pde; rewrite Low by done; apply S5; destruct (Z.testbit pde 7); set_solver).
  destruct (Z.testbit pde 7).
  - unfold pae_large. destruct (_ && (k =? 2)); [done|]. apply leaf_end_settled; [done|]. intros Hw. unfold pde. rewrite Low by done. apply (S6 Hw _ eq_refl).
  - unfold pae_small. rewrite touch_dir_eq, touch_settled by done. rewrite leaf_pae_addr by (by apply Ld).
    assert (Al : leaf_pae env pde a mod 8 = 0) by apply (pae_aligned env pdpe pde a). set (lf := leaf_pae env pde a) in *.
    rewrite (has_bit _ 0 PG_PRESENT_MASK), (has_bit (efer env) 11 MSR_EFER_NXE), (has_bit (ldq_phys m lf) 63 PG_NX_MASK) by done. fold (nxe env).
    destruct (Z.testbit (ldq_phys m lf) 0); cbn [negb] in *; [|done]. destruct (negb (nxe env) && Z.testbit (ldq_phys m lf) 63); [done|].
    destruct (_ && (k =? 2)); [done|]. apply leaf_end_settled; rewrite Low by done; [apply S5; set_solver|]. intros Hw. apply (S6 Hw _ eq_refl).
Qed.
End Walk.

End X86Walk.
