(* ===== verification/X86Tlb.v ===== *)
(** * The MMU and its TLB

    What [cpu_x86_handle_mmu_fault] does on every branch, in terms of
    [arch_walk]; which writes to control registers flush the TLB; and that the
    TLB of a running machine never allows an access the tables forbid. *)

From stdpp Require Import gmap.
From Stdlib Require Import ZifyBool.
From S2P Require Import Prelude SoftTlb TbCache TbGen TbMachine PhysMem X86Mmu X86Walk.

Module X86Tlb.
Import SoftTlb X86Mmu X86Walk.

(** ** The handler *)

(** The state a page fault leaves. *)
Definition arch_fault (env : CPUX86State) (a : Z) (user : bool) (k : Access) (cause : Z) : CPUX86State :=
  let env := if Z.testbit (intercept_exceptions env) 14 then env <| exit_info_2 := a |> else env <| cr2 := a |> in
  env <| error_code := arch_error env user k cause |> <| exception_index := EXCP0E_PAGE |>.

Lemma fault_eq env a user k c : c = 0 \/ c = PG_ERROR_P_MASK \/ c = PG_ERROR_RSVD_MASK ->
  mmu_page_fault env a (access_code k) user (writes k) c = arch_fault env a user k c.
Proof.
  intros Hc. unfold mmu_page_fault, arch_fault. rewrite (has_bit _ 14 (Z.shiftl 1 EXCP0E_PAGE)), (has_bit (efer env) 11 MSR_EFER_NXE),
    (has_bit (cr4 env) 5 CR4_PAE_MASK) by done. fold (nxe env).
  assert (E : forall env', efer env' = efer env -> cr4 env' = cr4 env -> arch_error env' user k c = arch_error env user k c)
    by (intros env' E1 E2; unfold arch_error, nxe; by rewrite E1, E2).
  destruct (Z.testbit (intercept_exceptions env) 14); rewrite E by done; f_equal; unfold arch_error;
    destruct k, user, (nxe env), (Z.testbit (cr4 env) 5), Hc as [->|[->| ->]]; done.
Qed.

(** The architecture's fault for a reserved bit, with the code the handler gives
    it: the bit for a present page is missing. *)
Definition reserved_fault (env : CPUX86State) (a : Z) (user : bool) (k : Access) : CPUX86State :=
  let env' := arch_fault env a user k (PG_ERROR_RSVD_MASK + PG_ERROR_P_MASK) in
  env' <| error_code := Z.ldiff (error_code env') PG_ERROR_P_MASK |>.

Lemma reserved_fault_eq env a user k : reserved_fault env a user k = arch_fault env a user k PG_ERROR_RSVD_MASK.
Proof.
  unfold reserved_fault, arch_fault, arch_error. cbn.
  destruct (Z.testbit (intercept_exceptions env) 14), k, user; cbn; try done; by destruct (nxe _ && _).
Qed.

Section Handler.
Context {M : Type} `{PM : PhysMemory M} {wf : M -> Prop} {ram_at : M -> Z -> Prop} `{PL : !PhysMemoryLaws M wf ram_at}.
Context (symbolic : Z -> bool) (watch : Z) (pm : PhysMap).

Notation walkable := (walkable (ram_at := ram_at)).
Notation touched := (touched (wf := wf) (ram_at := ram_at)).
Notation handle := (cpu_x86_handle_mmu_fault symbolic watch pm).

(** The result of the handler on a translation: the architecture's, but for
    the code of a reserved bit. *)
Definition handled (env : CPUX86State) (m : M) (ram : Ram) (a : Z) (k : Access) (mmu : Z) (t : Translation) (r : M * Ram * CPUX86State * Z) : Prop :=
  let '(m', ram', env', ret) := r in
  let user := mmu =? MMU_USER_IDX in
  let fault cause := ret = 1 /\ ram' = ram /\ env' = arch_fault env a user k cause in
  match t with
  | Missing => fault 0
  | Reserved => ret = 1 /\ ram' = ram /\ env' = reserved_fault env a user k
  | Found l =>
      if allowed env user k l then
        ret = 0 /\ (ram', env') = set_page symbolic watch pm env ram (page_start a) (frame l) (arch_prot env user (leaf_bit m' l 6) l) mmu /\
        settled env m' a (writes k)
      else fault PG_ERROR_P_MASK
  end.

Lemma settled_mapped env m m' a user k l w : arch_walk env m a = Found l -> touched m m' (writes k) -> mapped env m m' a user k l w ->
  settled env m' a (writes k).
Proof.
  intros El [_ [G _] _ _] (_ & S5 & S6). split.
  - intros e. rewrite <- (entries_proper env _ _ G a a eq_refl). apply S5.
  - intros Hw l'. rewrite <- (arch_walk_proper env _ _ G a a eq_refl), El. intros E. injection E as <-. auto.
Qed.

Lemma write_code k : nz (Z.land (access_code k) 1) = writes k.
Proof. by destruct k. Qed.

Lemma handle_ok env m ram a k mmu : wf m -> walkable env m a ->
  let r := handle env m ram a (access_code k) mmu in
  handled env m ram a k mmu (arch_walk env m a) r /\ touched m r.1.1.1 (writes k).
Proof.
  intros W WK r. unfold r, cpu_x86_handle_mmu_fault. rewrite write_code.
  rewrite (has_bit (cr0 env) 31 CR0_PG_MASK), (has_bit (cr4 env) 5 CR4_PAE_MASK) by done.
  destruct (Z.testbit (cr0 env) 31) eqn:P0; cbn [negb].
  - set (user := mmu =? MMU_USER_IDX).
    assert (Q : forall m' w, (if Z.testbit (cr4 env) 5 then walk_pae env m a (access_code k) user (writes k) else walk_legacy env m a user (writes k)) = (m', w) ->
      walk_post (wf := wf) (ram_at := ram_at) env m a user k (arch_walk env m a) m' w).
    { intros m' w. destruct (Z.testbit (cr4 env) 5) eqn:P4; [by apply walk_pae_ok | by apply walk_legacy_ok]. }
    destruct (if Z.testbit (cr4 env) 5 then _ else _) as [m' w]. destruct (Q m' w eq_refl) as [T P]. clear Q.
    destruct (arch_walk env m a) as [| |l] eqn:El; [subst w | subst w |]; cbn [fst].
    1: split; [split; [done|]; split; [done|]; apply fault_eq; auto | done].
    1: split; [split; [done|]; split; [done|]; rewrite reserved_fault_eq; apply fault_eq; auto | done].
    unfold handled. fold user. destruct (allowed env user k l); [|subst w; split; [split; [done|]; split; [done|]; apply fault_eq; auto | done]].
    pose proof (settled_mapped _ _ _ _ _ _ _ _ El T P) as S. destruct P as ((pte & ptep & sz & v & -> & Ea & Ep) & _).
    rewrite Ea, Ep. destruct (set_page _ _ _ _ _ _ _ _ _) as [ram' env'] eqn:Es. cbn. by rewrite Es.
  - destruct WK as [_ A _ _ _ _]. pose proof (map_small env a a A) as Em. change (Z.land a (Z.lnot 0xfff)) with (page_start a) in Em. rewrite Em.
    destruct (set_page _ _ _ _ _ _ _ _ _) as [ram' env'] eqn:Es. split; [|by apply touched_refl].
    unfold arch_walk. rewrite P0. cbn [negb handled]. rewrite allowed_eq. cbn [lf_user lf_write lf_exec]. rewrite !orb_true_r.
    replace (match k with Fetch => true | _ => true end) with true by (by destruct k). cbn [andb orb]. split; [done|]. split.
    + rewrite <- Es. by rewrite <- (page_legacy a A).
    + split; [unfold entries; rewrite P0; set_solver|]. intros _ l'. unfold arch_walk. rewrite P0. cbn [negb]. intros E. by injection E as <-.
Qed.

(** Once an access has been let through, letting it through again changes
    neither the tables nor the outcome. *)
Lemma handle_again env m ram a k mmu m' ram' env' : wf m -> walkable env m a ->
  handle env m ram a (access_code k) mmu = (m', ram', env', 0) -> handle env m' ram a (access_code k) mmu = (m', ram', env', 0).
Proof.
  intros W WK E. destruct (handle_ok env m ram a k mmu W WK) as [Hd T]. rewrite E in Hd, T. cbn [fst] in T.
  pose proof (arch_walk_proper env _ _ (proj1 (t_grows _ _ _ T)) a a eq_refl) as Ew.
  pose proof (walkable_touched _ _ _ _ _ WK T) as WK'. destruct (handle_ok env m' ram a k mmu (t_wf _ _ _ T) WK') as [Hd' _].
  rewrite <- Ew in Hd'. assert (Em : settled env m' a (writes k) -> (handle env m' ram a (access_code k) mmu).1.1.1 = m').
  { intros S. unfold cpu_x86_handle_mmu_fault. rewrite write_code, (has_bit (cr0 env) 31 CR0_PG_MASK), (has_bit (cr4 env) 5 CR4_PAE_MASK) by done.
    destruct (Z.testbit (cr0 env) 31) eqn:P0; cbn [negb]; [|by destruct (map_addrs _ _ _ _ _), (set_page _ _ _ _ _ _ _ _ _)].
    assert (Q : (if Z.testbit (cr4 env) 5 then walk_pae env m' a (access_code k) (mmu =? MMU_USER_IDX) (writes k)
      else walk_legacy env m' a (mmu =? MMU_USER_IDX) (writes k)).1 = m').
    { destruct (Z.testbit (cr4 env) 5) eqn:P4; [by apply (pae_settled (wf := wf) (ram_at := ram_at)) | by apply (legacy_settled (wf := wf) (ram_at := ram_at))]. }
    destruct (if Z.testbit (cr4 env) 5 then _ else _) as [m1 []]; [done|]. by destruct (map_addrs _ _ _ _ _), (set_page _ _ _ _ _ _ _ _ _). }
  destruct (handle env m' ram a (access_code k) mmu) as [[[m2 ram2] env2] ret2]. cbn [fst] in Em. unfold handled in *.
  destruct (arch_walk env m a) as [| |l]; [by destruct Hd | by destruct Hd |]. destruct (allowed _ _ _ _); [|by destruct Hd].
  destruct Hd as (_ & Es & S). destruct Hd' as (-> & Es' & _). specialize (Em S). subst m2. rewrite <- Es in Es'. by injection Es' as -> ->.
Qed.
End Handler.

(** ** Control registers *)

Definition flushed (c : CPUCommon) : Prop := forall t te, t ∈ tlb_table c -> te ∈ t -> te = s_cputlb_empty_entry.

(** Two CPUs that translate alike. *)
Definition same_walks (env env' : CPUX86State) : Prop :=
  (forall M (PM : PhysMemory M) (m : M) a, arch_walk env' m a = arch_walk env m a) /\
  forall user k l, allowed env' user k l = allowed env user k l.

Lemma same_walks_regs env env' : Z.testbit (cr0 env') 31 = Z.testbit (cr0 env) 31 -> Z.testbit (cr0 env') 16 = Z.testbit (cr0 env) 16 ->
  Z.testbit (cr4 env') 5 = Z.testbit (cr4 env) 5 -> Z.testbit (cr4 env') 4 = Z.testbit (cr4 env) 4 ->
  (Z.testbit (cr0 env) 31 = true -> cr3 env' = cr3 env) -> a20_mask env' = a20_mask env -> efer env' = efer env -> same_walks env env'.
Proof.
  intros E1 E2 E3 E4 E5 E6 E7. split.
  - intros M PM m a. unfold arch_walk. rewrite E1. assert (Ph : forall x, phys env' x = phys env x) by (intros x; unfold phys; by rewrite E6).
    destruct (Z.testbit (cr0 env) 31); cbn [negb]; [|by rewrite Ph]. specialize (E5 eq_refl). rewrite E3. destruct (Z.testbit (cr4 env) 5).
    + unfold arch_pae, ptr_pae, dir_pae, leaf_pae, nxe. by rewrite E5, E7, !Ph.
    + unfold arch_legacy, dir_legacy, leaf_legacy. by rewrite E5, E4, !Ph.
  - intros user k l. unfold allowed, may_write. by rewrite E2.
Qed.

Lemma flush_flushed env : flushed (common (flush_tlb env)).
Proof. intros t te Ht. by apply (TbMachine.flush_entry (common env)). Qed.

Definition safe_write (env env' : CPUX86State) : Prop := flushed (common env') \/ common env' = common env /\ same_walks env env'.

Lemma same_masked_bit x y mask i : Z.land x mask = Z.land y mask -> Z.testbit mask i = true -> Z.testbit x i = Z.testbit y i.
Proof. intros E Hm. apply (f_equal (fun z => Z.testbit z i)) in E. by rewrite !Z.land_spec, Hm, !andb_true_r in E. Qed.

Lemma set_a20_safe env v : safe_write env (cpu_x86_set_a20 env v).
Proof. unfold cpu_x86_set_a20. destruct (negb _); [left; apply flush_flushed | by right]. Qed.

Lemma update_cr0_safe env v : safe_write env (cpu_x86_update_cr0 env v).
Proof.
  unfold cpu_x86_update_cr0. destruct (Z.eqb_spec (Z.land v (Z.lor (Z.lor CR0_PG_MASK CR0_WP_MASK) CR0_PE_MASK)) (Z.land (cr0 env) (Z.lor (Z.lor CR0_PG_MASK CR0_WP_MASK) CR0_PE_MASK))) as [E|];
    cbn [negb]; [right | left; apply (flush_flushed env)].
  assert (B : forall i, 4 < i -> Z.testbit (Z.lor v CR0_ET_MASK) i = Z.testbit v i)
    by (intros i Hi; rewrite Z.lor_spec; unfold CR0_ET_MASK; rewrite BIT_testbit by done; replace (4 =? i) with false by lia; apply orb_false_r).
  split; [done|]. apply same_walks_regs; try done; (etrans; [by apply B | by apply (same_masked_bit _ _ _ _ E)]).
Qed.

Lemma update_cr3_safe env v : safe_write env (cpu_x86_update_cr3 env v).
Proof.
  unfold cpu_x86_update_cr3. rewrite (has_bit _ 31 CR0_PG_MASK) by done. destruct (Z.testbit _ 31) eqn:E; [left; apply flush_flushed | right].
  split; [done|]. apply same_walks_regs; try done. cbn in E. by rewrite E.
Qed.

Lemma update_cr4_safe env v : safe_write env (cpu_x86_update_cr4 env v).
Proof.
  unfold cpu_x86_update_cr4. destruct (Z.eqb_spec (Z.land v (Z.lor (Z.lor CR4_PGE_MASK CR4_PAE_MASK) CR4_PSE_MASK)) (Z.land (cr4 env) (Z.lor (Z.lor CR4_PGE_MASK CR4_PAE_MASK) CR4_PSE_MASK))) as [E|];
    cbn [negb]; [right | left; match goal with |- context [has ?x CR4_OSFXSR_MASK] => destruct (has x CR4_OSFXSR_MASK) end; apply (flush_flushed env)].
  set (v' := if negb _ then _ else v). assert (B : forall i, 0 <= i < 9 -> Z.testbit v' i = Z.testbit v i).
  { intros i Hi. unfold v'. destruct (negb _); [|done]. rewrite Z.land_spec, Z.lnot_spec, (BIT_testbit 9) by lia. destruct (Z.testbit v i); lia. }
  split; [by destruct (has v' _)|].
  apply same_walks_regs; try (by destruct (has v' _)); destruct (has v' _); (etrans; [by apply B | by apply (same_masked_bit _ _ _ _ E)]).
Qed.


(** ** New entries *)

Definition addr_for (k : Access) (te : CPUTLBEntry) : Z := match k with Read => addr_read te | Write => addr_write te | Fetch => addr_code te end.
Definition prot_for (k : Access) : Z := match k with Read => PAGE_READ | Write => PAGE_WRITE | Fetch => PAGE_EXEC end.

(** The host page behind a physical page. *)
Definition host_page (pm : PhysMap) (bs : list RAMBlock) (paddr : Z) : Z := (qemu_get_ram_ptr bs (page_start (PhysMem.pd_of pm paddr))).1.

Definition page_addr (v : Z) : Prop := v mod 4096 = 0 /\ 0 <= v < 2 ^ 32.

Lemma page_start_addr a : 0 <= a < 2 ^ 32 -> page_addr (page_start a).
Proof. intros A. rewrite page_start_eq. split; [by apply Z_mod_mult | Z.div_mod_to_equations; lia]. Qed.

Lemma field_page a lo w : 12 <= lo -> 0 <= w -> field (page_start a) lo w = field a lo w.
Proof.
  intros Hl Hw. apply Z.bits_inj'. intros i Hi. rewrite !field_testbit by lia. destruct (i <? w); [|done]. cbn.
  unfold page_start. rewrite Z.land_spec, Z.lnot_spec by lia. change 0xfff with (Z.ones 12). rewrite Z.testbit_ones_nonneg by lia.
  destruct (Z.testbit a (i + lo)); lia.
Qed.

Lemma tlb_page_flags v f : page_addr v -> Z.land f (Z.lor (Z.lnot 0xfff) TLB_INVALID_MASK) = 0 -> tlb_page (Z.lor v f) = v.
Proof.
  intros [A R] F. unfold tlb_page. rewrite Z.land_lor_distr_l, F, Z.lor_0_r, Z.land_lor_distr_r.
  assert (Z.land v (Z.lnot 0xfff) = v) as -> by (change (page_start v = v); rewrite page_start_eq; Z.div_mod_to_equations; lia).
  assert (Z.land v TLB_INVALID_MASK = 0) as ->; [|apply Z.lor_0_r].
  assert (L : Z.land v 0xfff = 0) by (rewrite <- A; apply (low_mask v 12); done).
  change TLB_INVALID_MASK with (Z.land 0xfff TLB_INVALID_MASK). by rewrite Z.land_assoc, L.
Qed.

(** The word an entry has for an access: the page with flags, or nothing. *)
Definition word_for (v : Z) (ok : bool) (x : Z) : Prop :=
  exists f, Z.land f (Z.lor (Z.lnot 0xfff) TLB_INVALID_MASK) = 0 /\ x = Z.lor (if ok then v else u32 (-1)) f.

Lemma word_lor v ok x f : word_for v ok x -> Z.land f (Z.lor (Z.lnot 0xfff) TLB_INVALID_MASK) = 0 -> word_for v ok (Z.lor x f).
Proof. intros (g & G & ->) F. exists (Z.lor g f). by rewrite Z.land_lor_distr_l, F, G, Z.lor_assoc. Qed.
Lemma word_page v : word_for v true v.
Proof. exists 0. by rewrite Z.lor_0_r. Qed.
Lemma word_none v : word_for v false (u32 (-1)).
Proof. by exists 0. Qed.

Lemma word_hit v ok x v' : page_addr v -> page_addr v' -> word_for v ok x -> tlb_page x = v' -> ok = true /\ v' = v.
Proof.
  intros A A' (f & F & ->). destruct ok; [by rewrite tlb_page_flags|]. unfold tlb_page. rewrite Z.land_lor_distr_l, F, Z.lor_0_r.
  intros <-. by destruct A' as [A' _].
Qed.

Lemma word_mmio v ok x : word_for v ok x -> word_for v ok (Z.lor x TLB_MMIO).
Proof. intros. by apply word_lor. Qed.
Lemma word_notdirty v ok x : word_for v ok x -> word_for v ok (Z.lor x TLB_NOTDIRTY).
Proof. intros. by apply word_lor. Qed.

#[local] Hint Resolve word_mmio word_notdirty word_page word_none : mmu.

Lemma new_entry symbolic watch pm m env v paddr prot mmu m' env' : tlb_set_page_exec symbolic watch pm m env v paddr prot mmu = (m', env') ->
  ram_blocks m' = (qemu_get_ram_ptr (ram_blocks m) (page_start (PhysMem.pd_of pm paddr))).2 /\
  exists te, tlb_table env' = alter (update_entry (tlb_index v) (fun _ => te)) (Z.to_nat mmu) (tlb_table env) /\
    addend te = u64 (host_page pm (ram_blocks m) paddr - v) /\ forall k, word_for v (nz (Z.land prot (prot_for k))) (addr_for k te).
Proof.
  unfold tlb_set_page_exec. fold (PhysMem.pd_of pm paddr). unfold host_page. set (pd := PhysMem.pd_of pm paddr).
  destruct (qemu_get_ram_ptr _ _) as [ad bs]. intros E. injection E as <- <-. split; [done|]. eexists. split; [done|]. split; [done|].
  set (a0 := if _ && _ then Z.lor v TLB_MMIO else v). assert (W0 : word_for v true a0) by (unfold a0; destruct (_ && _); auto with mmu).
  set (a1 := if existsb _ _ then Z.lor a0 TLB_MMIO else a0). assert (W1 : word_for v true a1) by (unfold a1; destruct (existsb _ _); auto with mmu).
  clearbody a0 a1. intros [ | | ]; cbn [addr_for prot_for addr_read addr_write addr_code]; destruct (nz (Z.land prot _)); [| | |auto with mmu..].
  - destruct (symbolic paddr); auto with mmu.
  - destruct (symbolic paddr); auto with mmu.
  - destruct (_ || _); [auto with mmu|]. destruct (_ && _); auto with mmu.
Qed.

(** ** The TLB agrees with the tables *)

Section Coherence.
Context {M : Type} `{PM : PhysMemory M} {wf : M -> Prop} {ram_at : M -> Z -> Prop} `{PL : !PhysMemoryLaws M wf ram_at}.
Context (symbolic : Z -> bool) (watch : Z) (pm : PhysMap).

Notation walkable := (walkable (ram_at := ram_at)).
Notation touched := (touched (wf := wf) (ram_at := ram_at)).

(** What hits on an entry promise: the tables allow the access, stores go to
    pages marked dirty, and the entry leads to the page the tables name. *)
Definition entry_ok (env : CPUX86State) (m : M) (bs : list RAMBlock) (user : bool) (j : nat) (te : CPUTLBEntry) : Prop :=
  forall v k, page_addr v -> tlb_page (addr_for k te) = v ->
    j = Z.to_nat (tlb_index v) /\
    exists l, arch_walk env m v = Found l /\ allowed env user k l = true /\ (k = Write -> leaf_bit m l 6 = true) /\
      addend te = u64 (host_page pm bs (frame l) - v).

Definition coherent (env : CPUX86State) (m : M) (ram : Ram) : Prop :=
  forall i t j te, tlb_table (common env) !! i = Some t -> t !! j = Some te -> entry_ok env m (ram_blocks ram) (Z.of_nat i =? MMU_USER_IDX) j te.

Lemma empty_ok env m bs user j : entry_ok env m bs user j s_cputlb_empty_entry.
Proof. intros v k A E. exfalso. destruct A as [A _]. rewrite <- E in A. by destruct k. Qed.

Lemma flushed_coherent env m ram : flushed (common env) -> coherent env m ram.
Proof.
  intros F i t j te Ht Hte. rewrite (F t te) by (by eapply list_elem_of_lookup_2). apply empty_ok.
Qed.

(** Memories in which a page has the same translation, and no dirty bit is lost. *)
Definition same_page (env : CPUX86State) (m m' : M) (v : Z) : Prop :=
  arch_walk env m' v = arch_walk env m v /\ forall l, arch_walk env m v = Found l -> leaf_bit m l 6 = true -> leaf_bit m' l 6 = true.

Lemma entry_same env env' m m' bs bs' user j te : same_walks env env' -> (forall v k, tlb_page (addr_for k te) = v -> page_addr v -> same_page env m m' v) ->
  (forall p, host_page pm bs' p = host_page pm bs p) -> entry_ok env m bs user j te -> entry_ok env' m' bs' user j te.
Proof.
  intros [S1 S2] P H E v k A Ev. destruct (E v k A Ev) as (-> & l & El & Al & Ed & Ea). split; [done|]. destruct (P v k Ev A) as [P1 P2].
  exists l. rewrite S1, P1, S2, H. split_and!; auto.
Qed.

Lemma coherent_same env env' m m' ram : same_walks env env' -> common env' = common env -> (forall v, page_addr v -> same_page env m m' v) ->
  coherent env m ram -> coherent env' m' ram.
Proof. intros S C P H i t j te. rewrite C. intros Ht Hte. eapply entry_same; [done | by intros; apply P | done | by eapply H]. Qed.

Lemma same_walks_refl env env' : cr0 env' = cr0 env -> cr3 env' = cr3 env -> cr4 env' = cr4 env -> a20_mask env' = a20_mask env -> efer env' = efer env -> same_walks env env'.
Proof. intros E1 E2 E3 E4 E5. apply same_walks_regs; by rewrite ?E1, ?E2, ?E3. Qed.

Lemma leaf_entry_aligned env (m : M) v l e : arch_walk env m v = Found l -> lf_entry l = Some e -> e mod 4 = 0.
Proof.
  unfold arch_walk. destruct (negb _); [intros E; by injection E as <-|].
  assert (A8 : forall x, x mod 8 = 0 -> x mod 4 = 0) by (intros x Hx; Z.div_mod_to_equations; lia). destruct (Z.testbit (cr4 env) 5).
  - unfold arch_pae. destruct (negb _); [done|]. destruct (negb _); [done|]. destruct (_ && _); [done|]. destruct (Z.testbit _ 7).
    + intros E. injection E as <-. cbn. intros E. injection E as <-. apply A8, (pae_aligned env (ldq_phys m (ptr_pae env v)) 0 v).
    + destruct (negb _); [done|]. destruct (_ && _); [done|]. intros E. injection E as <-. cbn. intros E. injection E as <-.
      apply A8, (pae_aligned env 0 (ldq_phys m (dir_pae env (ldq_phys m (ptr_pae env v)) v)) v).
  - unfold arch_legacy. destruct (negb _); [done|]. destruct (_ && _).
    + intros E. injection E as <-. cbn. intros E. injection E as <-. apply (legacy_aligned env 0 v).
    + destruct (negb _); [done|]. intros E. injection E as <-. cbn. intros E. injection E as <-. apply (legacy_aligned env (ldl_phys m (dir_legacy env v)) v).
Qed.

Lemma touched_same_page env m m' w v : touched m m' w -> same_page env m m' v.
Proof.
  intros T. pose proof (t_grows _ _ _ T) as [G B]. split; [symmetry; by apply arch_walk_proper|]. intros l El. unfold leaf_bit.
  destruct (lf_entry l) eqn:E; [|done]. apply B. by apply (leaf_entry_aligned env m v l).
Qed.

Lemma host_page_perm bs bs' p : ram_ok bs -> bs' ≡ₚ bs -> host_page pm bs' p = host_page pm bs p.
Proof.
  intros R P. unfold host_page. assert (R' : ram_ok bs') by (by apply (ram_ok_perm bs)). set (a := page_start _).
  destruct (existsb (fun b => block_has b a) bs) eqn:X.
  - apply existsb_exists in X as (b & Hb%list_elem_of_In & Hx). rewrite (get_ram_ptr_some bs a b), (get_ram_ptr_some bs' a b); try done. by rewrite P.
  - rewrite (PhysMem.get_ram_ptr_none bs a X), PhysMem.get_ram_ptr_none; [done|]. apply not_true_iff_false. intros (b & Hb%list_elem_of_In & Hx)%existsb_exists.
    rewrite P in Hb. apply not_true_iff_false in X. apply X, existsb_exists. exists b. by rewrite <- list_elem_of_In.
Qed.

(** The translation is that of the page: S2E may walk for the page address. *)
Lemma arch_walk_page env (m : M) a : arch_walk env m (page_start a) = arch_walk env m a.
Proof.
  unfold arch_walk. destruct (negb _); [by rewrite field_page|]. destruct (Z.testbit (cr4 env) 5).
  - unfold arch_pae, ptr_pae, dir_pae, leaf_pae. by rewrite !field_page.
  - unfold arch_legacy, dir_legacy, leaf_legacy. by rewrite !field_page.
Qed.

(** The rights in an entry are rights the tables give. *)
Lemma prot_allows env user d l k k' : allowed env user k l = true -> nz (Z.land (arch_prot env user d l) (prot_for k')) = true ->
  allowed env user k' l = true /\ (k' = Write -> d = true).
Proof.
  unfold allowed, arch_prot. destruct (negb user || lf_user l); [|done]. cbn [andb].
  destruct k', d, (may_write env user l), (lf_exec l); cbn; intros _ H; by try discriminate H.
Qed.

Lemma fill_entry_ok env (m' : M) bs a user k l d te : 0 <= a < 2 ^ 32 -> arch_walk env m' a = Found l -> allowed env user k l = true -> (d = true -> leaf_bit m' l 6 = true) ->
  addend te = u64 (host_page pm bs (frame l) - page_start a) ->
  (forall k', word_for (page_start a) (nz (Z.land (arch_prot env user d l) (prot_for k'))) (addr_for k' te)) ->
  entry_ok env m' bs user (Z.to_nat (tlb_index (page_start a))) te.
Proof.
  intros A El Al D Ea W v k' Hv Ev. destruct (word_hit _ _ _ _ (page_start_addr a A) Hv (W k') Ev) as [Hp ->]. split; [done|].
  destruct (prot_allows _ _ _ _ _ _ Al Hp). exists l. rewrite arch_walk_page. split_and!; auto.
Qed.

Lemma set_page_coherent env m m' w ram a k mmu l ram' env' : 0 <= a < 2 ^ 32 -> mmu = 0 \/ mmu = 1 -> ram_ok (ram_blocks ram) -> touched m m' w ->
  coherent env m ram -> arch_walk env m a = Found l -> allowed env (mmu =? MMU_USER_IDX) k l = true ->
  (ram', env') = set_page symbolic watch pm env ram (page_start a) (frame l) (arch_prot env (mmu =? MMU_USER_IDX) (leaf_bit m' l 6) l) mmu ->
  coherent env' m' ram' /\ ram_ok (ram_blocks ram').
Proof.
  intros A Hm R T C El Al. unfold set_page. destruct (tlb_set_page_exec _ _ _ _ _ _ _ _ _) as [r c] eqn:E. intros X. injection X as -> ->.
  destruct (new_entry _ _ _ _ _ _ _ _ _ _ _ E) as (Eb & te & Et & Ea & W). pose proof (get_ram_ptr_perm (ram_blocks ram) (page_start (PhysMem.pd_of pm (frame l)))) as P.
  rewrite <- Eb in P. split; [|by apply (ram_ok_perm (ram_blocks ram))].
  assert (S : same_walks env (env <| common := c |>)) by (by apply same_walks_refl).
  assert (Old : forall i t j te0, tlb_table (common env) !! i = Some t -> t !! j = Some te0 ->
    entry_ok (env <| common := c |>) m' (ram_blocks r) (Z.of_nat i =? MMU_USER_IDX) j te0).
  { intros i t j te0 Ht Hte. eapply entry_same; [done | by intros; eapply touched_same_page | intros p; by apply host_page_perm | by eapply C]. }
  intros i t j te0. cbn [common]. change (tlb_table (common (env <| common := c |>))) with (tlb_table c). rewrite Et, list_lookup_alter.
  case_decide as Di; [|apply Old]. subst i. intros (t0 & Et0 & ->)%fmap_Some. unfold update_entry. rewrite list_lookup_alter.
  case_decide as Dj; [|by apply Old]. subst j. intros (te1 & _ & ->)%fmap_Some. rewrite Z2Nat.id by lia.
  eapply (entry_same env); [done | intros; by split | intros p; by apply host_page_perm |].
  eapply fill_entry_ok; [done | by rewrite (proj1 (touched_same_page env _ _ _ a T)) | exact Al | | exact Ea | exact W]. done.
Qed.

Lemma fault_walks env addr a user k c : let env' := reset_fault_addr (arch_fault env a user k c) addr in same_walks env env' /\ common env' = common env.
Proof.
  unfold reset_fault_addr, arch_fault. destruct (Z.testbit (intercept_exceptions env) 14), (exception_index _ =? _); try destruct (has _ _);
    (split; [by apply same_walks_refl | done]).
Qed.

Lemma fill_coherent env m ram addr a k mmu m' ram' env' x : wf m -> ram_ok (ram_blocks ram) -> walkable env m a -> mmu = 0 \/ mmu = 1 -> coherent env m ram ->
  tlb_fill symbolic watch pm env m ram addr a (access_code k) mmu = (m', ram', env', x) -> coherent env' m' ram' /\ wf m' /\ ram_ok (ram_blocks ram').
Proof.
  intros W R WK Hm C. unfold tlb_fill. destruct (handle_ok symbolic watch pm env m ram a k mmu W WK) as [Hd T].
  destruct (cpu_x86_handle_mmu_fault _ _ _ _ _ _ _ _ _) as [[[m1 ram1] env1] ret]. cbn [fst] in T. unfold handled in Hd.
  assert (Flt : forall c, ret = 1 /\ ram1 = ram /\ env1 = arch_fault env a (mmu =? MMU_USER_IDX) k c ->
    (if nz ret then let env := reset_fault_addr env1 addr in (m1, ram1, env, Some (exception_index env, error_code env))
      else (m1, ram1, env1, None)) = (m', ram', env', x) -> coherent env' m' ram' /\ wf m' /\ ram_ok (ram_blocks ram')).
  { clear Hd. intros c (-> & -> & ->) E. destruct (fault_walks env addr a (mmu =? MMU_USER_IDX) k c) as [S Ec]. injection E as <- <- <- _.
    split; [|split; [apply T | done]]. apply (coherent_same env _ m); [done | done | by intros; eapply touched_same_page | done]. }
  destruct (arch_walk env m a) as [| |l] eqn:El; [by apply (Flt 0) | by rewrite reserved_fault_eq in Hd; apply (Flt PG_ERROR_RSVD_MASK) |].
  destruct (allowed _ _ _ _) eqn:Al; [|by apply (Flt PG_ERROR_P_MASK)]. destruct Hd as (-> & Es & _). intros E. injection E as <- <- <- <-.
  destruct (set_page_coherent env m m1 _ ram a k mmu l ram1 env1 (wk_addr _ _ _ WK) Hm R T C El Al Es). split; [done|]. split; [apply T | done].
Qed.

Lemma invlpg_coherent env m m' ram a : 0 <= a < 2 ^ 32 -> (forall v, page_addr v -> v <> page_start a -> same_page env m m' v) ->
  coherent env m ram -> coherent (helper_invlpg env a) m' ram.
Proof.
  intros A P C i t j te. change (tlb_table (common (helper_invlpg env a))) with (tlb_table (tlb_flush_page (common env) a)).
  unfold tlb_flush_page. cbn. rewrite list_lookup_fmap. intros (t0 & Et & ->)%fmap_Some. unfold update_entry. rewrite list_lookup_alter.
  assert (S : same_walks env (helper_invlpg env a)) by (by apply same_walks_refl).
  case_decide as D.
  - subst j. intros (te0 & Ete & ->)%fmap_Some. destruct (_ || _) eqn:Hit; [apply empty_ok|].
    eapply entry_same; [done | | done | exact (C i t0 _ te0 Et Ete)]. intros v k Ev Hv. apply P; [done|]. intros ->. destruct k; cbn in Ev; lia.
  - intros Ete. eapply entry_same; [done | | done | exact (C i t0 j te Et Ete)]. intros v k Ev Hv. apply P; [done|]. intros ->.
    destruct (C i t0 j te Et Ete _ k Hv Ev) as [-> _]. done.
Qed.

(** ** Runs *)

Record Mmu := mkMmu { cpu : CPUX86State; mem : M; blocks : Ram }.

(** The steps of a machine: fills of the TLB (by the [addr] and page of an
    access), writes to control registers, INVLPG, and stores of the guest,
    which either leave every translation alone or change the one page the guest
    then invalidates. *)
Inductive mmu_step : Mmu -> Mmu -> Prop :=
| step_fill env m ram addr a k mmu m' ram' env' x : walkable env m a -> mmu = 0 \/ mmu = 1 ->
    tlb_fill symbolic watch pm env m ram addr a (access_code k) mmu = (m', ram', env', x) -> mmu_step (mkMmu env m ram) (mkMmu env' m' ram')
| step_cr0 env m ram v : mmu_step (mkMmu env m ram) (mkMmu (cpu_x86_update_cr0 env v) m ram)
| step_cr3 env m ram v : mmu_step (mkMmu env m ram) (mkMmu (cpu_x86_update_cr3 env v) m ram)
| step_cr4 env m ram v : mmu_step (mkMmu env m ram) (mkMmu (cpu_x86_update_cr4 env v) m ram)
| step_a20 env m ram v : mmu_step (mkMmu env m ram) (mkMmu (cpu_x86_set_a20 env v) m ram)
| step_store env m ram m' : wf m' -> (forall v, page_addr v -> same_page env m m' v) -> mmu_step (mkMmu env m ram) (mkMmu env m' ram)
| step_invlpg env m ram a m' : wf m' -> 0 <= a < 2 ^ 32 -> (forall v, page_addr v -> v <> page_start a -> same_page env m m' v) ->
    mmu_step (mkMmu env m ram) (mkMmu (helper_invlpg env a) m' ram).

Definition mmu_inv (s : Mmu) : Prop := wf (mem s) /\ ram_ok (ram_blocks (blocks s)) /\ coherent (cpu s) (mem s) (blocks s).

Lemma safe_coherent env env' m ram : safe_write env env' -> coherent env m ram -> coherent env' m ram.
Proof. intros [F|[E S]] C; [by apply flushed_coherent | by apply (coherent_same env _ m)]. Qed.

Lemma mmu_step_inv s s' : mmu_inv s -> mmu_step s s' -> mmu_inv s'.
Proof.
  intros (W & R & C) St. destruct St; cbn in *.
  - destruct (fill_coherent _ _ _ _ _ _ _ _ _ _ _ W R H H0 C H1) as (? & ? & ?). done.
  - split; [done|]. split; [done|]. by eapply safe_coherent; [apply update_cr0_safe|].
  - split; [done|]. split; [done|]. by eapply safe_coherent; [apply update_cr3_safe|].
  - split; [done|]. split; [done|]. by eapply safe_coherent; [apply update_cr4_safe|].
  - split; [done|]. split; [done|]. by eapply safe_coherent; [apply set_a20_safe|].
  - split; [done|]. split; [done|]. by apply (coherent_same env _ m); [apply same_walks_refl| | |].
  - split; [done|]. split; [done|]. by apply (invlpg_coherent env m).
Qed.

Lemma mmu_run_inv s s' : mmu_inv s -> rtc mmu_step s s' -> mmu_inv s'.
Proof. intros I St. induction St as [|s s1 s' H _ IH]; [done|]. apply IH. by eapply mmu_step_inv. Qed.
End Coherence.

(** ** The translation for the debugger *)

Section Debug.
Context {M : Type} `{PM : PhysMemory M} {wf : M -> Prop} {ram_at : M -> Z -> Prop} `{PL : !PhysMemoryLaws M wf ram_at}.

(** With PAE [cpu_get_phys_page_debug] expects paging to be on, an open A20
    gate, and entries without bits above the 36 of a physical address. *)
Record plain_pae (env : CPUX86State) (m : M) (a : Z) : Prop := {
  pp_paging : Z.testbit (cr0 env) 31 = true;
  pp_a20 : a20_mask env = -1;
  pp_pdpe : ldq_phys m (ptr_pae env a) < 2 ^ 36;
  pp_pde : ldq_phys m (dir_pae env (ldq_phys m (ptr_pae env a)) a) < 2 ^ 36;
  pp_pte : ldq_phys m (leaf_pae env (ldq_phys m (dir_pae env (ldq_phys m (ptr_pae env a)) a)) a) < 2 ^ 36
}.

Definition debug_page (t : Translation) : Z := match t with Found l => frame l | _ => u64 (-1) end.

Lemma plain_page x : range 36 x -> page_start x = field x 12 24 * 2 ^ 12.
Proof. intros. rewrite field_whole by done. apply page_start_eq. Qed.

Lemma no_offset a : Z.land (page_start a) (4096 - 1) = 0.
Proof. change 4096 with (2 ^ 12). rewrite page_in_large by done. unfold field. by rewrite Z.mod_1_r. Qed.

Lemma phys_field_u64 env x w : 0 <= w <= 32 -> u64 (phys env (field x 12 w * 2 ^ 12)) = phys env (field x 12 w * 2 ^ 12).
Proof.
  intros. apply u64_small, land_range; [done|]. pose proof (field_range x 12 w ltac:(lia)).
  pose proof (Z.pow_le_mono_r 2 w 32 ltac:(done) ltac:(lia)). unfold range. lia.
Qed.

Lemma debug_legacy env m a : walkable (ram_at := ram_at) env m a -> Z.testbit (cr4 env) 5 = false ->
  cpu_get_phys_page_debug env m a = debug_page (arch_walk env m a).
Proof.
  intros [C A R _ _ O] P4. unfold cpu_get_phys_page_debug, arch_walk in *. rewrite (has_bit (cr4 env) 5 CR4_PAE_MASK), (has_bit (cr0 env) 31 CR0_PG_MASK), P4 by done.
  rewrite P4 in O. destruct (Z.testbit (cr0 env) 31); cbn [negb] in *.
  2: { rewrite no_offset, Z.add_0_r. fold (phys env a). rewrite phys_page, (page_legacy a A). by apply phys_field_u64. }
  unfold arch_legacy in *. rewrite dir_legacy_addr by done. set (pde := ldl_phys m (dir_legacy env a)) in *. assert (Rd : range 32 pde) by apply ldl_range.
  rewrite (has_bit pde 0 PG_PRESENT_MASK), (has_bit pde 7 PG_PSE_MASK), (has_bit (cr4 env) 4 CR4_PSE_MASK) by done.
  destruct (Z.testbit pde 0); [|done]. cbn [negb] in *. destruct (_ && _); cbn [debug_page].
  - specialize (O _ eq_refl eq_refl). unfold phys. cbn [frame]. rewrite O, !Z.land_m1_r. change (4096 * 1024) with (2 ^ 22). rewrite page_in_large by done.
    rewrite (page_of_bits _ pde 22 10) by (done || (intros i Hi; change 0x003ff000 with (Z.land (4096 * 1024 - 1) (Z.lnot 0xfff)); rewrite legacy_large_bits by (done || lia); destruct (Z.testbit pde i); lia)).
    apply u64_small. pose proof (field_range pde 22 10 ltac:(done)). pose proof (field_range a 12 10 ltac:(done)). unfold range. lia.
  - rewrite leaf_legacy_addr by done. set (pte := ldl_phys m (leaf_legacy env pde a)) in *. assert (Rl : range 32 pte) by apply ldl_range.
    rewrite (has_bit pte 0 PG_PRESENT_MASK) by done. destruct (Z.testbit pte 0); [|done]. cbn [negb frame debug_page].
    rewrite no_offset, Z.add_0_r. fold (phys env pte). rewrite phys_page, (page_legacy pte Rl). by apply phys_field_u64.
Qed.

Lemma debug_pae env m a : walkable (ram_at := ram_at) env m a -> Z.testbit (cr4 env) 5 = true -> plain_pae env m a ->
  cpu_get_phys_page_debug env m a = debug_page (arch_walk env m a).
Proof.
  intros [C A R Lp Ld _] P4 [P0 O H1 H2 H3]. rewrite P0, P4 in Lp, Ld. specialize (Lp eq_refl). specialize (Ld eq_refl). cbv zeta in Ld.
  unfold cpu_get_phys_page_debug, arch_walk. rewrite (has_bit (cr4 env) 5 CR4_PAE_MASK), P0, P4 by done. cbn [negb]. unfold arch_pae. rewrite ptr_pae_addr by done.
  destruct (pae_aligned env 0 0 a) as (A1 & _). set (pdpe := ldq_phys m (ptr_pae env a)) in *. assert (R1 : range 36 pdpe) by (split; [by apply ldq_range | done]).
  fold (page_start pdpe). rewrite (plain_page pdpe R1), <- (base_pae pdpe), dir_pae_addr by done. destruct (pae_aligned env pdpe 0 a) as (_ & A2 & _).
  set (d := dir_pae env pdpe a) in *. set (pde := ldq_phys m d) in *. assert (R2 : range 36 pde) by (split; [by apply ldq_range | done]).
  destruct (pae_aligned env pdpe pde a) as (_ & _ & A3). set (pte := ldq_phys m (leaf_pae env pde a)) in *. assert (R3 : range 36 pte) by (split; [by apply ldq_range | done]).
  rewrite (has_bit pdpe 0 PG_PRESENT_MASK), (has_bit pde 0 PG_PRESENT_MASK), (has_bit pde 7 PG_PSE_MASK) by done.
  rewrite (testbit_high pde 36 63 R2), andb_false_r by done. destruct (Z.testbit pdpe 0); [|done]. destruct (Z.testbit pde 0) eqn:B0; [|done]. cbn [negb].
  destruct (Z.testbit pde 7) eqn:BL.
  - assert (B : forall i, 0 <= i -> Z.testbit (Z.land pde (Z.lnot (Z.land (2048 * 1024 - 1) (Z.lnot 0xfff)))) i = ((i <? 12) || (21 <=? i) && (i <? 21 + 15)) && Z.testbit pde i).
    { intros i Hi. change (2048 * 1024 - 1) with (Z.ones 21). change 0xfff with (Z.ones 12).
      rewrite Z.land_spec, Z.lnot_spec, Z.land_spec, Z.lnot_spec, !Z.testbit_ones_nonneg by lia.
      destruct (Z.ltb_spec i 36); [destruct (Z.testbit pde i); lia|]. rewrite (testbit_high pde 36 i R2) by lia. by rewrite andb_false_r. }
    rewrite (has_bit _ 0 PG_PRESENT_MASK), B by done. cbn [Z.ltb Z.compare orb andb]. rewrite B0. cbn [negb debug_page frame].
    change (2048 * 1024) with (2 ^ 21) at 2. rewrite page_in_large by done. rewrite (page_of_bits _ pde 21 15) by (done || (intros i Hi; rewrite B by lia; destruct (Z.testbit pde i); lia)).
    unfold phys. rewrite O, Z.land_m1_r. apply u64_small. pose proof (field_range pde 21 15 ltac:(done)). pose proof (field_range a 12 9 ltac:(done)). unfold range. change (21 - 12) with 9. lia.
  - fold (page_start pde). rewrite (plain_page pde R2), <- (base_pae pde), leaf_pae_addr by (by apply Ld). fold pte.
    rewrite (has_bit pte 0 PG_PRESENT_MASK) by done. destruct (Z.testbit pte 0); [|done]. cbn [negb].
    rewrite (testbit_high pte 36 63 R3), andb_false_r by done. cbn [debug_page frame]. rewrite no_offset, Z.add_0_r, (plain_page pte R3).
    unfold phys. rewrite O, Z.land_m1_r. apply u64_small. pose proof (field_range pte 12 24 ltac:(done)). unfold range. lia.
Qed.
End Debug.

(** ** What the MMU promises *)

Section Theorems.
Context {M : Type} `{PM : PhysMemory M} {wf : M -> Prop} {ram_at : M -> Z -> Prop} `{PL : !PhysMemoryLaws M wf ram_at}.
Context (symbolic : Z -> bool) (watch : Z) (pm : PhysMap).

Notation walkable := (walkable (ram_at := ram_at)).
Notation touched := (touched (wf := wf) (ram_at := ram_at)).

(** C16: The MMU handler does what the architecture says, with and without paging,
    for 32-bit and PAE tables, small and large pages, on every branch but one.
    (The tables of the address are in RAM and, with PAE, below 4 GB, and large
    pages are used with the A20 gate open: [walkable].)  A missing entry, a
    reserved bit or a forbidden access raises a page fault with the address and
    the error code that tells which, and touches neither the TLB nor the RAM
    list; the one departure is that the code of a reserved bit lacks the bit for
    a present page ([reserved_fault]).  An allowed access makes a TLB entry from the page
    of the address to the frame in the tables, readable, executable unless NX
    is set, and writable only when the access rights permit it and the page is
    marked dirty; every entry of the path is then marked accessed, and the last
    one dirty after a write.  Tables in memory change in accessed and dirty
    bits only, which are only set, and only writes set a dirty bit. *)
Theorem mmu_fault_correct env m ram a k mmu : wf m -> walkable env m a ->
  let r := cpu_x86_handle_mmu_fault symbolic watch pm env m ram a (access_code k) mmu in
  handled symbolic watch pm env m ram a k mmu (arch_walk env m a) r /\ touched m r.1.1.1 (writes k).
Proof. apply handle_ok. Qed.

(** C17: The TLB never allows what the tables forbid.  From a flushed TLB, after
    any sequence of fills (each for an address whose tables are in RAM and, with
    PAE, below 4 GB, and whose page is small or A20 open: [walkable]), faults, writes to CR0, CR3, CR4 and the A20 gate,
    stores that leave the translations alone, and changes of the tables of one
    page followed by INVLPG, every entry that an access of the kernel or of user
    code could hit is one the tables now in force translate and allow, leads to
    the host page of the frame they name, and for stores that page is marked
    dirty. *)
Theorem mmu_tlb_coherent env m ram s : wf m -> ram_ok (ram_blocks ram) -> flushed (common env) ->
  rtc (mmu_step (wf := wf) (ram_at := ram_at) symbolic watch pm) (mkMmu env m ram) s ->
  forall i t j te v k, tlb_table (common (cpu s)) !! i = Some t -> t !! j = Some te -> page_addr v -> tlb_page (addr_for k te) = v ->
  exists l, arch_walk (cpu s) (mem s) v = Found l /\ allowed (cpu s) (Z.of_nat i =? MMU_USER_IDX) k l = true /\
    (k = Write -> leaf_bit (mem s) l 6 = true) /\ addend te = u64 (host_page pm (ram_blocks (blocks s)) (frame l) - v).
Proof.
  intros W R F St i t j te v k Ht Hte Hv Ev.
  destruct (mmu_run_inv symbolic watch pm (mkMmu env m ram) s) as (_ & _ & C); [|done|].
  - split; [done|]. split; [done|]. by apply flushed_coherent.
  - by apply (C i t j te Ht Hte v k Hv Ev).
Qed.

(** Letting an access through is idempotent: the same access again changes
    neither memory nor the outcome, since everything it would mark is marked. *)
Theorem mmu_walk_again env m ram a k mmu m' ram' env' : wf m -> walkable env m a ->
  cpu_x86_handle_mmu_fault symbolic watch pm env m ram a (access_code k) mmu = (m', ram', env', 0) ->
  cpu_x86_handle_mmu_fault symbolic watch pm env m' ram a (access_code k) mmu = (m', ram', env', 0).
Proof. apply handle_again. Qed.

(** C19: The translation used by the debugger and by S2E to read guest memory,
    a second implementation that marks nothing, agrees with the MMU: the frame
    of the page, or -1 when an entry is missing.  This is for addresses whose
    tables are in RAM and below 4 GB ([walkable]) and, with PAE, while paging is
    on, A20 is open and no entry has a bit above 35 set ([plain_pae]); outside
    these the two differ ([phys_page_debug_departs]). *)
Theorem phys_page_debug_agrees env m a : walkable env m a -> (Z.testbit (cr4 env) 5 = true -> plain_pae env m a) ->
  cpu_get_phys_page_debug env m a = match arch_walk env m a with Found l => frame l | _ => u64 (-1) end.
Proof. intros WK P. destruct (Z.testbit (cr4 env) 5) eqn:P4; [apply debug_pae; auto | by apply debug_legacy]. Qed.

Lemma set_cpu_same room s live n env : TbGen.translator room s live -> TbCache.cpus s !! n = Some env ->
  TbGen.translator room (TbMachine.set_cpu s n (TbCache.ram s) env) live.
Proof.
  intros T Ek. apply (TbMachine.set_cpu_ok room s live n (TbCache.ram s) env); [done | done | apply same_ram_refl | done | done |].
  intros p t te _ [_ N] Ht Hte. apply (N env t te); [by eapply list_elem_of_lookup_2 | done | done].
Qed.

(** C18: Filling the TLB from the guest's page tables keeps the translator in
    order, whatever the entries say (the tables of the address are in RAM and,
    with PAE, below 4 GB, large pages are used with A20 open ([walkable]), and
    the RAM pages of the physical page table exist): no entry lets stores go directly to a page
    with translated code, so that the write protection of all such pages, the
    lists of blocks and the code buffer stay as they should be, also when the
    walk ends in a fault. *)
Theorem mmu_fill_keeps_translator room s live n env m addr a k mmu m' ram' env' x :
  TbGen.translator room s live -> TbCache.cpus s !! n = Some (common env) -> wf m -> walkable env m a ->
  (forall i p, phys_page_find pm i = Some p -> TbMachine.phys_page_ok (TbCache.ram s) (phys_offset p)) ->
  tlb_fill symbolic watch pm env m (TbCache.ram s) addr a (access_code k) mmu = (m', ram', env', x) ->
  TbGen.translator room (TbMachine.set_cpu s n ram' (common env')) live.
Proof.
  intros T Ek W WK P. unfold tlb_fill. destruct (handle_ok symbolic watch pm env m (TbCache.ram s) a k mmu W WK) as [Hd _].
  destruct (cpu_x86_handle_mmu_fault _ _ _ _ _ _ _ _ _) as [[[m1 ram1] env1] ret]. unfold handled in Hd.
  assert (Flt : forall c, ret = 1 /\ ram1 = TbCache.ram s /\ env1 = arch_fault env a (mmu =? MMU_USER_IDX) k c ->
    (if nz ret then let env := reset_fault_addr env1 addr in (m1, ram1, env, Some (exception_index env, error_code env))
      else (m1, ram1, env1, None)) = (m', ram', env', x) -> TbGen.translator room (TbMachine.set_cpu s n ram' (common env')) live).
  { clear Hd. intros c (-> & -> & ->) E. destruct (fault_walks env addr a (mmu =? MMU_USER_IDX) k c) as [_ Ec]. injection E as _ <- <- _.
    rewrite Ec. by apply set_cpu_same. }
  destruct (arch_walk env m a) as [| |l]; [by apply (Flt 0) | by rewrite reserved_fault_eq in Hd; apply (Flt PG_ERROR_RSVD_MASK) |].
  destruct (allowed _ _ _ _); [|by apply (Flt PG_ERROR_P_MASK)]. destruct Hd as (-> & Es & _). intros E. injection E as _ <- <- _.
  unfold set_page in Es. destruct (tlb_set_page_exec _ _ _ _ _ _ _ _ _) as [r c] eqn:Et. injection Es as -> ->.
  destruct (page_start_addr a (wk_addr _ _ _ WK)) as [A1 A2]. eapply TbMachine.set_page_ok; [done | exact Ek | exact A1 | exact A2 | intros p; apply P | exact Et].
Qed.
End Theorems.
End X86Tlb.
