(* ===== verification/X86Run.v ===== *)
(** * Runs of the MMU

    A guest with its page tables in the 64 KB of RAM of [TbRuns], on which the
    MMU is executed: instances of the theorems of [X86Tlb], and the cases in
    which the code departs from the architecture. *)

From stdpp Require Import gmap.
From S2P Require Import Prelude SoftTlb TbCache TbGen TbMachine TbRuns PhysMem X86Mmu X86Walk X86Tlb.

Module X86Run.
Import SoftTlb X86Mmu X86Walk X86Tlb PhysMem.

(** ** The tables *)

Definition ram_host : Z := 0x10000000.

(** Words of guest RAM that are not 0: a directory at 0x1000 with a page table
    at 0x2000 and a large page, and PAE tables at 0x6000, 0x7000 and 0x8000. *)
Definition guest_words : list (Z * Z) :=
  [(0x1000, 0x2007); (0x1004, 0x800087); (0x2014, 0x3007); (0x2018, 0x4005); (0x201c, 0x5003);
   (0x6000, 0x7001); (0x6008, 0x7001); (0x600c, 1); (0x7000, 0x8007); (0x8028, 0x9007); (0x8030, 0xa007); (0x8034, 0x80000000); (0x803c, 1)].
Definition word_at (a : Z) : Z := match list_find (fun w => w.1 = a) guest_words with Some (_, (_, w)) => w | None => 0 end.
Definition guest : HostRam :=
  mkHostRam (fun h => let a := h - ram_host in Z.shiftr (word_at (a / 4 * 4)) (8 * (a mod 4))) [mkRAMBlock ram_host 0 0x10000] [].

#[local] Instance guest_mem : PhysMemory HostRam := HostRam_memory TbRuns.demo_map (fun _ _ => 0).
#[local] Instance guest_laws : PhysMemoryLaws HostRam host_ok (host_ram_at TbRuns.demo_map) := HostRam_laws TbRuns.demo_map (fun _ _ => 0).

(** Paging and write protection on, large pages, NX enabled. *)
Definition cpu0 : CPUX86State := mkCPU 0x80010011 0 0x1000 0x10 (-1) 0x800 0 0 0 0 0 0 0 TbRuns.demo_cpu.
Definition cpu_pae : CPUX86State := cpu0 <| cr3 := 0x6000 |> <| cr4 := 0x20 |>.

Lemma guest_ok : host_ok guest.
Proof. split; [apply (m_ram _ TbRuns.demo_mem_ok)|]. intros b ->%list_elem_of_singleton. done. Qed.

(** The physical pages of the machine are its RAM. *)
Lemma guest_page i p : phys_page_find TbRuns.demo_map i = Some p -> exists j, p = mkPhysPageDesc (j * 4096) 0 /\ 0 <= j < 16.
Proof.
  assert (L : forall x (t : list PhysPageDesc), TbRuns.demo_map !! x = Some t -> t = map (fun i => mkPhysPageDesc (i * 4096) 0) (seqZ 0 16)).
  { intros x t. unfold TbRuns.demo_map. intros [[_ <-]|[_ E]]%lookup_insert_Some; [done | by apply lookup_empty_Some in E]. }
  unfold phys_page_find. destruct (TbRuns.demo_map !! _) as [t|] eqn:E; [|done]. cbn [mbind option_bind]. rewrite (L _ _ E).
  rewrite list_lookup_fmap. intros (j & Hj & ->)%fmap_Some. exists j. split; [done|]. apply list_elem_of_lookup_2, elem_of_seqZ in Hj. lia.
Qed.

Lemma guest_pages_ok m i p : same_ram TbRuns.demo_ram m -> phys_page_find TbRuns.demo_map i = Some p -> TbMachine.phys_page_ok m (phys_offset p).
Proof.
  intros S (j & -> & Hj)%guest_page. left. cbn. rewrite page_offset_eq, page_start_eq, Z.mod_mul, Z.div_mul by done.
  split; [done|]. apply (same_ram_page TbRuns.demo_ram m); [done|]. apply TbRuns.demo_ram_page. split; [by apply Z.mod_mul | lia].
Qed.

Definition in_ram (a : Z) : bool :=
  (page_offset (pd_of TbRuns.demo_map a) =? IO_MEM_RAM) && existsb (fun b => block_has b (page_start (pd_of TbRuns.demo_map a))) (host_blocks guest).
Lemma in_ram_at a : in_ram a = true -> host_ram_at TbRuns.demo_map guest a.
Proof.
  intros [E (b & Hb%list_elem_of_In & Hx)%existsb_exists]%andb_true_iff. split; [by apply Z.eqb_eq | by exists b].
Qed.

(** Addresses the two CPUs can walk, by evaluation. *)
Definition walk_test (env : CPUX86State) (a : Z) : bool :=
  forallb in_ram (entries env guest a) && (0 <=? a) && (a <? 2 ^ 32) &&
  let pdpe := ldq_phys guest (ptr_pae env a) in
  let pde := ldq_phys guest (dir_pae env pdpe a) in
  (negb (Z.testbit (cr4 env) 5) || (field pdpe 12 24 <? 2 ^ 20) && (field pde 12 24 <? 2 ^ 20)).

Lemma test_walkable env a : a20_mask env = -1 -> 0 <= cr3 env < 2 ^ 32 -> walk_test env a = true -> walkable (ram_at := host_ram_at TbRuns.demo_map) env guest a.
Proof.
  intros O C. unfold walk_test. rewrite !andb_true_iff, Z.leb_le, Z.ltb_lt. intros (((R & A1) & A2) & L). split; try done.
  - intros e He. apply in_ram_at. by apply (proj1 (forallb_forall _ _) R), list_elem_of_In.
  - intros [_ P]%andb_true_iff. rewrite P in L. by apply andb_true_iff in L as [L%Z.ltb_lt _].
  - intros [_ P]%andb_true_iff. rewrite P in L. by apply andb_true_iff in L as [_ L%Z.ltb_lt].
Qed.

Lemma walk_5000 : walkable (ram_at := host_ram_at TbRuns.demo_map) cpu0 guest 0x5123.
Proof. apply test_walkable; [done | done | by vm_compute]. Qed.
Lemma walk_pae_6000 : walkable (ram_at := host_ram_at TbRuns.demo_map) cpu_pae guest 0x6123.
Proof. apply test_walkable; [done | done | by vm_compute]. Qed.
Lemma walk_pae_5000 : walkable (ram_at := host_ram_at TbRuns.demo_map) cpu_pae guest 0x5123.
Proof. apply test_walkable; [done | done | by vm_compute]. Qed.

Notation handle env m k mmu := (cpu_x86_handle_mmu_fault (fun _ => false) 0 TbRuns.demo_map env m TbRuns.demo_ram k mmu).

(** A user store to page 5 is let through and marks both entries; executing
    page 6 with NX set, in the PAE tables, is a fault with code 0x15. *)
Lemma mmu_fault_correct_witness :
  (let r := handle cpu0 guest 0x5123 1 1 in
   handled (fun _ => false) 0 TbRuns.demo_map cpu0 guest TbRuns.demo_ram 0x5123 Write 1 (arch_walk cpu0 guest 0x5123) r /\
   r.2 = 0 /\ ldl_phys r.1.1.1 0x1000 = 0x2027 /\ ldl_phys r.1.1.1 0x2014 = 0x3067) /\
  (let r := handle cpu_pae guest 0x6123 2 1 in
   handled (fun _ => false) 0 TbRuns.demo_map cpu_pae guest TbRuns.demo_ram 0x6123 Fetch 1 (arch_walk cpu_pae guest 0x6123) r /\
   r.2 = 1 /\ error_code r.1.2 = 0x15 /\ cr2 r.1.2 = 0x6123).
Proof.
  split.
  - pose proof (mmu_fault_correct (PM := guest_mem) (PL := guest_laws) (fun _ => false) 0 TbRuns.demo_map cpu0 guest TbRuns.demo_ram 0x5123 Write 1 guest_ok walk_5000) as H.
    cbv zeta in *. destruct H as [H _]. split; [exact H|]. split; [vm_compute; reflexivity|]. split; vm_compute; reflexivity.
  - pose proof (mmu_fault_correct (PM := guest_mem) (PL := guest_laws) (fun _ => false) 0 TbRuns.demo_map cpu_pae guest TbRuns.demo_ram 0x6123 Fetch 1 guest_ok walk_pae_6000) as H.
    cbv zeta in *. destruct H as [H _]. split; [exact H|]. split; [vm_compute; reflexivity|]. split; vm_compute; reflexivity.
Defined.
(** ** A run *)

Lemma quad {A B C D : Type} (r : A * B * C * D) : r = (r.1.1.1, r.1.1.2, r.1.2, r.2).
Proof. by destruct r as [[[? ?] ?] ?]. Qed.

(** A user store to page 5 fills the TLB, then the kernel clears CR0.TS. *)
Definition fill1 := tlb_fill (fun _ => false) 0 TbRuns.demo_map cpu0 guest TbRuns.demo_ram 0x5123 0x5123 1 1.
Definition run1 : Mmu := mkMmu (cpu_x86_update_cr0 fill1.1.2 0x80010001) fill1.1.1.1 fill1.1.1.2.

Lemma run1_steps : rtc (mmu_step (wf := host_ok) (ram_at := host_ram_at TbRuns.demo_map) (fun _ => false) 0 TbRuns.demo_map) (mkMmu cpu0 guest TbRuns.demo_ram) run1.
Proof.
  eapply rtc_l; [|apply rtc_once; exact (step_cr0 (PM := guest_mem) (fun _ => false) 0 TbRuns.demo_map fill1.1.2 fill1.1.1.1 fill1.1.1.2 0x80010001)].
  exact (step_fill (PM := guest_mem) (wf := host_ok) (ram_at := host_ram_at TbRuns.demo_map) (fun _ => false) 0 TbRuns.demo_map cpu0 guest TbRuns.demo_ram
    0x5123 0x5123 Write 1 _ _ _ _ walk_5000 (or_intror eq_refl) (quad fill1)).
Qed.

Definition run1_entry : CPUTLBEntry := match tlb_table (common (cpu run1)) !! 1%nat with Some t => nth 5 t s_cputlb_empty_entry | None => s_cputlb_empty_entry end.

Lemma cpu0_flushed : flushed (common cpu0).
Proof. intros t te Ht Hte. apply elem_of_replicate in Ht as [-> _]. by apply elem_of_replicate in Hte as [-> _]. Qed.

Lemma run1_lookup : exists t, tlb_table (common (cpu run1)) !! 1%nat = Some t /\ t !! 5%nat = Some run1_entry.
Proof. eexists. split; vm_compute; reflexivity. Qed.

Lemma mmu_tlb_coherent_witness : tlb_page (addr_for Write run1_entry) = 0x5000 /\
  exists l, arch_walk (cpu run1) (mem run1) 0x5000 = Found l /\ allowed (cpu run1) true Write l = true /\ leaf_bit (mem run1) l 6 = true /\
    addend run1_entry = u64 (host_page TbRuns.demo_map (ram_blocks (blocks run1)) (frame l) - 0x5000).
Proof.
  assert (E : tlb_page (addr_for Write run1_entry) = 0x5000) by (vm_compute; reflexivity). split; [exact E|].
  destruct run1_lookup as (t & Ht & Hte).
  destruct (mmu_tlb_coherent (PM := guest_mem) (PL := guest_laws) (fun _ => false) 0 TbRuns.demo_map cpu0 guest TbRuns.demo_ram run1
    guest_ok (m_ram _ TbRuns.demo_mem_ok) cpu0_flushed run1_steps 1 t 5 run1_entry 0x5000 Write Ht Hte (page_start_addr 0x5000 ltac:(lia)) E) as (l & H1 & H2 & H3 & H4).
  exists l. split; [exact H1|]. split; [exact H2|]. split; [exact (H3 eq_refl) | exact H4].
Defined.

Definition once := handle cpu0 guest 0x5123 1 1.

Lemma mmu_walk_again_witness : once.2 = 0 /\ handle cpu0 once.1.1.1 0x5123 1 1 = once.
Proof.
  assert (E : once.2 = 0) by (vm_compute; reflexivity). split; [exact E|].
  assert (Q : once = (once.1.1.1, once.1.1.2, once.1.2, 0)) by (rewrite <- E; apply quad). rewrite Q at 2.
  exact (mmu_walk_again (PM := guest_mem) (PL := guest_laws) (fun _ => false) 0 TbRuns.demo_map cpu0 guest TbRuns.demo_ram 0x5123 Write 1 _ _ _ guest_ok walk_5000 Q).
Defined.

Lemma plain_5000 : plain_pae cpu_pae guest 0x5123.
Proof. split; vm_compute; reflexivity. Qed.

Lemma phys_page_debug_agrees_witness :
  cpu_get_phys_page_debug cpu0 guest 0x5123 = 0x3000 /\ cpu_get_phys_page_debug cpu_pae guest 0x5123 = 0x9000.
Proof.
  rewrite (phys_page_debug_agrees (PL := guest_laws) cpu0 guest 0x5123 walk_5000) by (intros H; vm_compute in H; discriminate H).
  rewrite (phys_page_debug_agrees (PL := guest_laws) cpu_pae guest 0x5123 walk_pae_5000 (fun _ => plain_5000)).
  split; vm_compute; reflexivity.
Defined.

Lemma mmu_fill_keeps_translator_witness :
  let env := cpu0 <| common := TbRuns.m2_cpu |> in
  let r := tlb_fill (fun _ => false) 0 TbRuns.demo_map env guest (TbCache.ram (TbMachine.exec TbRuns.m2)) 0x5123 0x5123 1 1 in
  exists live, TbGen.translator 64 (TbMachine.set_cpu (TbMachine.exec TbRuns.m2) 0 r.1.1.2 (common r.1.2)) live /\ 1%nat ∈ live.
Proof.
  intros env r. destruct TbRuns.m2_sound as (live & [[T _ _ _] _] & _ & H1). exists live. split; [|exact H1].
  assert (WK : walkable (ram_at := host_ram_at TbRuns.demo_map) env guest 0x5123) by (destruct walk_5000; by split).
  eapply (mmu_fill_keeps_translator (PM := guest_mem) (PL := guest_laws) (fun _ => false) 0 TbRuns.demo_map 64 (TbMachine.exec TbRuns.m2) live 0 env guest 0x5123 0x5123 Write 1);
    [exact T | vm_compute; reflexivity | exact guest_ok | exact WK | | exact (quad r)].
  intros i p. apply guest_pages_ok, TbRuns.m2_ram.
Defined.

(** ** Where the code departs from the architecture *)

(** A PAE directory above 4 GB: entry 1 of the pointer table leads to
    0x100007000, where there is no memory, but the code reads 0x7000. *)
Theorem pae_table_address_truncated : arch_walk cpu_pae guest 0x40005123 = Missing /\ (handle cpu_pae guest 0x40005123 0 1).2 = 0.
Proof. split; vm_compute; reflexivity. Qed.

(** An NX bit while NX is disabled is reported as a reserved bit without the
    bit for a present page: 0xc, not the architecture's 0xd. *)
Theorem reserved_fault_lacks_present :
  let env := cpu_pae <| efer := 0 |> in
  arch_walk env guest 0x6123 = Reserved /\ error_code (handle env guest 0x6123 0 1).1.2 = 0xc /\
  arch_error env true Read (PG_ERROR_RSVD_MASK + PG_ERROR_P_MASK) = 0xd.
Proof. split; [|split]; vm_compute; reflexivity. Qed.

(** With the A20 gate closed bit 20 of an address in a large page stays set. *)
Theorem large_page_escapes_a20 :
  let env := cpu0 <| a20_mask := Z.lnot (Z.shiftl 1 20) |> in
  cpu_get_phys_page_debug env guest 0x500123 = 0x900000 /\ Z.testbit (phys env 0x900000) 20 = false /\
  map_addrs env 0x500123 0x800087 0x400000 0x400000 = (0x500000, 0x900000).
Proof. split; [|split]; vm_compute; reflexivity. Qed.

(** With PAE enabled and paging off the debugger's translation still walks the
    tables; with paging on it returns NX as part of the page's address. *)
Theorem phys_page_debug_departs :
  let off := cpu_pae <| cr0 := 0x11 |> in
  arch_walk off guest 0x5123 = Found (mkLeaf 0x5000 true true true false None) /\ cpu_get_phys_page_debug off guest 0x5123 = 0x9000 /\
  cpu_get_phys_page_debug cpu_pae guest 0x6123 = 0x800000000000a000.
Proof. split; [|split]; vm_compute; reflexivity. Qed.

End X86Run.
