(* ===== verification/Tcg.v ===== *)
(** * Intermediate code of the code generator

    The operations of src/s2e/qemu/tcg (tcg-opc.h, for a 64-bit x86 host and a
    32-bit guest), the buffers of a block under translation, and the passes of
    tcg.c over them: liveness analysis, which also removes dead operations, and
    S2E's computation of the registers a block touches. *)

From stdpp Require Import list sorting.
From S2P Require Import Prelude.

Module Tcg.

(** ** Operations *)

Definition TCG_OPF_BB_END : Z := 0x01.
Definition TCG_OPF_CALL_CLOBBER : Z := 0x02.
Definition TCG_OPF_SIDE_EFFECTS : Z := 0x04.
Definition TCG_CALL_PURE : Z := 0x0010.
Definition TCG_CALL_CONST : Z := 0x0020.
Definition TCG_CALL_DUMMY_ARG : Z := u64 (-1).
Definition TCG_MAX_TEMPS : Z := 512.
Definition TCG_TYPE_I32 : Z := 0.
Definition TCG_TYPE_I64 : Z := 1.
Definition TCG_TYPE_COUNT : Z := 2.

Inductive TCGOpcode :=
| INDEX_op_end | INDEX_op_nop | INDEX_op_nop1 | INDEX_op_nop2 | INDEX_op_nop3 | INDEX_op_nopn
| INDEX_op_discard | INDEX_op_set_label | INDEX_op_call | INDEX_op_jmp | INDEX_op_br | INDEX_op_mov_i32
| INDEX_op_movi_i32 | INDEX_op_ld8u_i32 | INDEX_op_ld8s_i32 | INDEX_op_ld16u_i32 | INDEX_op_ld16s_i32
| INDEX_op_ld_i32 | INDEX_op_st8_i32 | INDEX_op_st16_i32 | INDEX_op_st_i32 | INDEX_op_add_i32
| INDEX_op_sub_i32 | INDEX_op_mul_i32 | INDEX_op_div2_i32 | INDEX_op_divu2_i32 | INDEX_op_and_i32
| INDEX_op_or_i32 | INDEX_op_xor_i32 | INDEX_op_shl_i32 | INDEX_op_shr_i32 | INDEX_op_sar_i32
| INDEX_op_rotl_i32 | INDEX_op_rotr_i32 | INDEX_op_brcond_i32 | INDEX_op_ext8s_i32 | INDEX_op_ext16s_i32
| INDEX_op_ext8u_i32 | INDEX_op_ext16u_i32 | INDEX_op_bswap16_i32 | INDEX_op_bswap32_i32 | INDEX_op_not_i32
| INDEX_op_neg_i32 | INDEX_op_mov_i64 | INDEX_op_movi_i64 | INDEX_op_ld8u_i64 | INDEX_op_ld8s_i64
| INDEX_op_ld16u_i64 | INDEX_op_ld16s_i64 | INDEX_op_ld32u_i64 | INDEX_op_ld32s_i64 | INDEX_op_ld_i64
| INDEX_op_st8_i64 | INDEX_op_st16_i64 | INDEX_op_st32_i64 | INDEX_op_st_i64 | INDEX_op_add_i64
| INDEX_op_sub_i64 | INDEX_op_mul_i64 | INDEX_op_div2_i64 | INDEX_op_divu2_i64 | INDEX_op_and_i64
| INDEX_op_or_i64 | INDEX_op_xor_i64 | INDEX_op_shl_i64 | INDEX_op_shr_i64 | INDEX_op_sar_i64
| INDEX_op_rotl_i64 | INDEX_op_rotr_i64 | INDEX_op_brcond_i64 | INDEX_op_ext8s_i64 | INDEX_op_ext16s_i64
| INDEX_op_ext32s_i64 | INDEX_op_ext8u_i64 | INDEX_op_ext16u_i64 | INDEX_op_ext32u_i64 | INDEX_op_bswap16_i64
| INDEX_op_bswap32_i64 | INDEX_op_bswap64_i64 | INDEX_op_not_i64 | INDEX_op_neg_i64
| INDEX_op_debug_insn_start | INDEX_op_exit_tb | INDEX_op_goto_tb | INDEX_op_qemu_ld8u | INDEX_op_qemu_ld8s
| INDEX_op_qemu_ld16u | INDEX_op_qemu_ld16s | INDEX_op_qemu_ld32u | INDEX_op_qemu_ld32s | INDEX_op_qemu_ld64
| INDEX_op_qemu_st8 | INDEX_op_qemu_st16 | INDEX_op_qemu_st32 | INDEX_op_qemu_st64.

#[export] Instance TCGOpcode_eq : EqDecision TCGOpcode.
Proof. solve_decision. Defined.

Record TCGOpDef := mkTCGOpDef {
  nb_oargs : Z;
  nb_iargs : Z;
  nb_cargs : Z;
  op_flags : Z
}.

Definition tcg_op_defs (op : TCGOpcode) : TCGOpDef :=
  match op with
  | INDEX_op_end | INDEX_op_nop
      => mkTCGOpDef 0 0 0 0
  | INDEX_op_nop1 | INDEX_op_nopn | INDEX_op_set_label | INDEX_op_debug_insn_start
      => mkTCGOpDef 0 0 1 0
  | INDEX_op_nop2
      => mkTCGOpDef 0 0 2 0
  | INDEX_op_nop3
      => mkTCGOpDef 0 0 3 0
  | INDEX_op_discard
      => mkTCGOpDef 1 0 0 0
  | INDEX_op_call
      => mkTCGOpDef 0 1 2 TCG_OPF_SIDE_EFFECTS
  | INDEX_op_jmp
      => mkTCGOpDef 0 1 0 (Z.lor TCG_OPF_BB_END TCG_OPF_SIDE_EFFECTS)
  | INDEX_op_br | INDEX_op_exit_tb | INDEX_op_goto_tb
      => mkTCGOpDef 0 0 1 (Z.lor TCG_OPF_BB_END TCG_OPF_SIDE_EFFECTS)
  | INDEX_op_mov_i32 | INDEX_op_ext8s_i32 | INDEX_op_ext16s_i32 | INDEX_op_ext8u_i32 | INDEX_op_ext16u_i32
  | INDEX_op_bswap16_i32 | INDEX_op_bswap32_i32 | INDEX_op_not_i32 | INDEX_op_neg_i32 | INDEX_op_mov_i64
  | INDEX_op_ext8s_i64 | INDEX_op_ext16s_i64 | INDEX_op_ext32s_i64 | INDEX_op_ext8u_i64 | INDEX_op_ext16u_i64
  | INDEX_op_ext32u_i64 | INDEX_op_bswap16_i64 | INDEX_op_bswap32_i64 | INDEX_op_bswap64_i64
  | INDEX_op_not_i64 | INDEX_op_neg_i64
      => mkTCGOpDef 1 1 0 0
  | INDEX_op_movi_i32 | INDEX_op_movi_i64
      => mkTCGOpDef 1 0 1 0
  | INDEX_op_ld8u_i32 | INDEX_op_ld8s_i32 | INDEX_op_ld16u_i32 | INDEX_op_ld16s_i32 | INDEX_op_ld_i32
  | INDEX_op_ld8u_i64 | INDEX_op_ld8s_i64 | INDEX_op_ld16u_i64 | INDEX_op_ld16s_i64 | INDEX_op_ld32u_i64
  | INDEX_op_ld32s_i64 | INDEX_op_ld_i64
      => mkTCGOpDef 1 1 1 0
  | INDEX_op_st8_i32 | INDEX_op_st16_i32 | INDEX_op_st_i32 | INDEX_op_st8_i64 | INDEX_op_st16_i64
  | INDEX_op_st32_i64 | INDEX_op_st_i64
      => mkTCGOpDef 0 2 1 TCG_OPF_SIDE_EFFECTS
  | INDEX_op_add_i32 | INDEX_op_sub_i32 | INDEX_op_mul_i32 | INDEX_op_and_i32 | INDEX_op_or_i32
  | INDEX_op_xor_i32 | INDEX_op_shl_i32 | INDEX_op_shr_i32 | INDEX_op_sar_i32 | INDEX_op_rotl_i32
  | INDEX_op_rotr_i32 | INDEX_op_add_i64 | INDEX_op_sub_i64 | INDEX_op_mul_i64 | INDEX_op_and_i64
  | INDEX_op_or_i64 | INDEX_op_xor_i64 | INDEX_op_shl_i64 | INDEX_op_shr_i64 | INDEX_op_sar_i64
  | INDEX_op_rotl_i64 | INDEX_op_rotr_i64
      => mkTCGOpDef 1 2 0 0
  | INDEX_op_div2_i32 | INDEX_op_divu2_i32 | INDEX_op_div2_i64 | INDEX_op_divu2_i64
      => mkTCGOpDef 2 3 0 0
  | INDEX_op_brcond_i32 | INDEX_op_brcond_i64
      => mkTCGOpDef 0 2 2 (Z.lor TCG_OPF_BB_END TCG_OPF_SIDE_EFFECTS)
  | INDEX_op_qemu_ld8u | INDEX_op_qemu_ld8s | INDEX_op_qemu_ld16u | INDEX_op_qemu_ld16s | INDEX_op_qemu_ld32u
  | INDEX_op_qemu_ld32s | INDEX_op_qemu_ld64
      => mkTCGOpDef 1 1 1 (Z.lor TCG_OPF_CALL_CLOBBER TCG_OPF_SIDE_EFFECTS)
  | INDEX_op_qemu_st8 | INDEX_op_qemu_st16 | INDEX_op_qemu_st32 | INDEX_op_qemu_st64
      => mkTCGOpDef 0 2 1 (Z.lor TCG_OPF_CALL_CLOBBER TCG_OPF_SIDE_EFFECTS)
  end.

Definition nb_args (d : TCGOpDef) : Z := nb_iargs d + nb_oargs d + nb_cargs d.

(** ** Context and buffers *)

(** [temp_local] of each temporary; the globals come first. *)
Record TCGContext := mkTCGContext {
  nb_globals : Z;
  temp_local : list bool
}.
Definition nb_temps (s : TCGContext) : Z := Z.of_nat (length (temp_local s)).

Definition arg_at (params : list Z) (i : Z) : Res Z :=
  if i <? 0 then Fail OutOfBounds else match params !! Z.to_nat i with Some x => Ok x | None => Fail OutOfBounds end.
Definition set_arg (params : list Z) (i v : Z) : Res (list Z) :=
  if (i <? 0) || (Z.of_nat (length params) <=? i) then Fail OutOfBounds else Ok (<[Z.to_nat i := v]> params).

(** ** Liveness *)

Definition dead_at (dead_temps : list bool) (arg : Z) : Res bool :=
  if arg <? 0 then Fail OutOfBounds else match dead_temps !! Z.to_nat arg with Some x => Ok x | None => Fail OutOfBounds end.
Definition set_dead (dead_temps : list bool) (arg : Z) (v : bool) : Res (list bool) :=
  let* _ := dead_at dead_temps arg in Ok (<[Z.to_nat arg := v]> dead_temps).

Definition tcg_set_nop (opc : list TCGOpcode) (params : list Z) (op_index : nat) (args nb : Z) : Res (list TCGOpcode * list Z) :=
  if nb =? 0 then Ok (<[op_index := INDEX_op_nop]> opc, params)
  else
    let opc := <[op_index := INDEX_op_nopn]> opc in
    let* params := set_arg params args nb in
    let* params := set_arg params (args + nb - 1) nb in
    Ok (opc, params).

Definition globals_live (s : TCGContext) (dead_temps : list bool) : list bool :=
  imap (fun i d => if Z.of_nat i <? nb_globals s then false else d) dead_temps.
Definition tcg_la_bb_end (s : TCGContext) (dead_temps : list bool) : list bool :=
  imap (fun i _ => if Z.of_nat i <? nb_globals s then false else negb (default false (temp_local s !! i))) dead_temps.

(** The loops over [nb] arguments from [args] on. *)
Fixpoint all_dead (params : list Z) (args : Z) (nb : nat) (dead_temps : list bool) : Res bool :=
  match nb with
  | O => Ok true
  | S nb =>
      let* arg := arg_at params args in
      let* d := dead_at dead_temps arg in
      if d then all_dead params (args + 1) nb dead_temps else Ok false
  end.

Fixpoint outputs_dead (params : list Z) (args : Z) (nb : nat) (dead_temps : list bool) : Res (list bool) :=
  match nb with
  | O => Ok dead_temps
  | S nb =>
      let* arg := arg_at params args in
      let* dead_temps := set_dead dead_temps arg true in
      outputs_dead params (args + 1) nb dead_temps
  end.

(** [dummy]: the loop of a call skips alignment arguments. *)
Fixpoint inputs_live (dummy : bool) (params : list Z) (args : Z) (nb : nat) (i : Z) (dead_temps : list bool) (dead_iargs : Z) : Res (list bool * Z) :=
  match nb with
  | O => Ok (dead_temps, dead_iargs)
  | S nb =>
      let* arg := arg_at params args in
      if dummy && (arg =? TCG_CALL_DUMMY_ARG) then inputs_live dummy params (args + 1) nb (i + 1) dead_temps dead_iargs
      else
        let* d := dead_at dead_temps arg in
        let dead_iargs := if d then Z.lor dead_iargs (Z.shiftl 1 i) else dead_iargs in
        let* dead_temps := set_dead dead_temps arg false in
        inputs_live dummy params (args + 1) nb (i + 1) dead_temps dead_iargs
  end.

(** [op_dead_iargs] is not initialised. *)
Record LaState := mkLaState {
  gen_opc_buf : list TCGOpcode;
  gen_opparam_buf : list Z;
  la_args : Z;
  dead_temps : list bool;
  op_dead_iargs : list (option Z)
}.
#[export] Instance LaState_eta : RecordEta LaState :=
  fields mkLaState < gen_opc_buf ; gen_opparam_buf ; la_args ; dead_temps ; op_dead_iargs >.

Definition remove_op (op_index : nat) (st : LaState) (args nb : Z) : Res LaState :=
  let* (opc, params) := tcg_set_nop (gen_opc_buf st) (gen_opparam_buf st) op_index args nb in
  Ok (st <| gen_opc_buf := opc |> <| gen_opparam_buf := params |>).

Definition la_call (s : TCGContext) (op_index : nat) (st : LaState) : Res LaState :=
  let params := gen_opparam_buf st in
  let* nb := arg_at params (la_args st - 1) in
  let args := la_args st - nb in
  let* c := arg_at params args in
  let nbi := Z.land c 0xffff in
  let nbo := Z.shiftr c 16 in
  let* call_flags := arg_at params (args + 1 + nbo + nbi) in
  let* unused := if nz (Z.land call_flags TCG_CALL_PURE) then all_dead params (args + 1) (Z.to_nat nbo) (dead_temps st) else Ok false in
  let* st :=
    if unused then remove_op op_index st args nb
    else
      let* d := outputs_dead params (args + 1) (Z.to_nat nbo) (dead_temps st) in
      let d := if negb (nz (Z.land call_flags TCG_CALL_CONST)) then globals_live s d else d in
      let* (d, dead_iargs) := inputs_live true params (args + 1 + nbo) (Z.to_nat nbi) 0 d 0 in
      Ok (st <| dead_temps := d |> <| op_dead_iargs := <[op_index := Some (u16 dead_iargs)]> (op_dead_iargs st) |>) in
  Ok (st <| la_args := args |>).

Definition la_default (s : TCGContext) (def : TCGOpDef) (op_index : nat) (st : LaState) : Res LaState :=
  let params := gen_opparam_buf st in
  let args := la_args st - nb_args def in
  let* unused :=
    if negb (nz (Z.land (op_flags def) TCG_OPF_SIDE_EFFECTS)) && negb (nb_oargs def =? 0)
    then all_dead params args (Z.to_nat (nb_oargs def)) (dead_temps st) else Ok false in
  let* st :=
    if unused then remove_op op_index st args (nb_args def)
    else
      let* d := outputs_dead params args (Z.to_nat (nb_oargs def)) (dead_temps st) in
      let d :=
        if nz (Z.land (op_flags def) TCG_OPF_BB_END) then tcg_la_bb_end s d
        else if nz (Z.land (op_flags def) TCG_OPF_CALL_CLOBBER) then globals_live s d
        else d in
      let* (d, dead_iargs) := inputs_live false params (args + nb_oargs def) (Z.to_nat (nb_iargs def)) 0 d 0 in
      Ok (st <| dead_temps := d |> <| op_dead_iargs := <[op_index := Some (u16 dead_iargs)]> (op_dead_iargs st) |>) in
  Ok (st <| la_args := args |>).

Definition la_op (s : TCGContext) (op : TCGOpcode) (op_index : nat) (st : LaState) : Res LaState :=
  let def := tcg_op_defs op in
  match op with
  | INDEX_op_call => la_call s op_index st
  | INDEX_op_set_label => Ok (st <| la_args := la_args st - 1 |> <| dead_temps := tcg_la_bb_end s (dead_temps st) |>)
  | INDEX_op_debug_insn_start => Ok (st <| la_args := la_args st - nb_args def |>)
  | INDEX_op_nopn => let* nb := arg_at (gen_opparam_buf st) (la_args st - 1) in Ok (st <| la_args := la_args st - nb |>)
  | INDEX_op_discard =>
      let* arg := arg_at (gen_opparam_buf st) (la_args st - 1) in
      let* d := set_dead (dead_temps st) arg true in
      Ok (st <| la_args := la_args st - 1 |> <| dead_temps := d |>)
  | INDEX_op_end => Ok st
  | _ => la_default s def op_index st
  end.

(** From operation [n - 1] down to the first one. *)
Fixpoint la_loop (s : TCGContext) (n : nat) (st : LaState) : Res LaState :=
  match n with
  | O => Ok st
  | S op_index =>
      match gen_opc_buf st !! op_index with
      | None => Fail OutOfBounds
      | Some op => let* st := la_op s op op_index st in la_loop s op_index st
      end
  end.

(** The operations, [INDEX_op_end] included, their arguments, and the dead
    inputs of each. *)
Definition tcg_liveness_analysis (s : TCGContext) (opc : list TCGOpcode) (params : list Z) : Res (list TCGOpcode * list Z * list (option Z)) :=
  let nb_ops := length opc in
  let dead := replicate (length (temp_local s)) true in
  let* st := la_loop s nb_ops (mkLaState opc params (Z.of_nat (length params)) dead (replicate nb_ops None)) in
  if negb (la_args st =? 0) then Fail AbortCalled else Ok (gen_opc_buf st, gen_opparam_buf st, op_dead_iargs st).

(** ** Registers a block touches *)

Record TCGHelperInfo := mkTCGHelperInfo {
  hi_func : Z;
  hi_rmask : Z;
  hi_wmask : Z;
  hi_accesses_mem : Z
}.

Record HelperTable := mkHelperTable {
  helpers : list TCGHelperInfo;
  helpers_sorted : bool
}.
#[export] Instance HelperTable_eta : RecordEta HelperTable := fields mkHelperTable < helpers ; helpers_sorted >.

Definition tcg_register_helper_with_reg_mask (t : HelperTable) (func reg_rmask reg_wmask reg_accesses_mem : Z) : HelperTable :=
  t <| helpers := helpers t ++ [mkTCGHelperInfo func reg_rmask reg_wmask reg_accesses_mem] |>.
Definition tcg_register_helper (t : HelperTable) (func : Z) : HelperTable := tcg_register_helper_with_reg_mask t func (u64 (-1)) (u64 (-1)) 1.

Definition helper_cmp (th1 th2 : TCGHelperInfo) : Z :=
  if hi_func th1 <? hi_func th2 then -1 else if hi_func th1 =? hi_func th2 then 0 else 1.
Definition helper_le (th1 th2 : TCGHelperInfo) : Prop := helper_cmp th1 th2 <= 0.
#[export] Instance helper_le_dec th1 th2 : Decision (helper_le th1 th2).
Proof. unfold helper_le. apply _. Defined.
(** [qsort], as a stable sort. *)
Definition qsort_helpers (l : list TCGHelperInfo) : list TCGHelperInfo := merge_sort helper_le l.
(** The table a search leaves, and searches in; a second search leaves it as
    it is. *)
Definition helpers_in_order (t : HelperTable) : HelperTable :=
  if negb (helpers_sorted t) then mkHelperTable (qsort_helpers (helpers t)) true else t.

(** The binary search. *)
Fixpoint find_helper_loop (fuel : nat) (helpers : list TCGHelperInfo) (val m_min m_max : Z) : Res (option TCGHelperInfo) :=
  match fuel with
  | O => Fail Diverges
  | S fuel =>
      if m_min <=? m_max then
        let m := Z.shiftr (m_min + m_max) 1 in
        match helpers !! Z.to_nat m with
        | None => Fail OutOfBounds
        | Some th =>
            if hi_func th =? val then Ok (Some th)
            else if val <? hi_func th then find_helper_loop fuel helpers val m_min (m - 1)
            else find_helper_loop fuel helpers val (m + 1) m_max
        end
      else Ok None
  end.
Definition tcg_find_helper (t : HelperTable) (val : Z) : Res (option TCGHelperInfo) :=
  let l := helpers (helpers_in_order t) in
  find_helper_loop (S (length l)) l val 0 (Z.of_nat (length l) - 1).

Definition tcg_helper_get_reg_mask (helpers : HelperTable) (func : Z) : Res (Z * Z * Z) :=
  let* info := tcg_find_helper helpers func in
  match info with
  | Some info => if func =? 0 then Fail AssertFail else Ok (hi_rmask info, hi_wmask info, hi_accesses_mem info)
  | None => Ok (u64 (-1), u64 (-1), 0)
  end.

(** The masks so far, and the constants in temporaries. *)
Record MaskState := mkMaskState {
  rmask : Z;
  wmask : Z;
  accesses_mem : Z;
  consts : list Z;
  mask_args : Z
}.
#[export] Instance MaskState_eta : RecordEta MaskState := fields mkMaskState < rmask ; wmask ; accesses_mem ; consts ; mask_args >.

Definition set_const (consts : list Z) (i v : Z) : Res (list Z) := set_arg consts i v.

(** [1 << idx], an [int] that is extended to 64 bits. *)
Definition global_bit (idx : Z) : Z := u64 (s32 (Z.shiftl 1 idx)).

Fixpoint forget_outputs (params : list Z) (args : Z) (nb : nat) (c : list Z) : Res (list Z) :=
  match nb with
  | O => Ok c
  | S nb => let* arg := arg_at params args in let* c := set_const c arg 0 in forget_outputs params (args + 1) nb c
  end.

Fixpoint mask_inputs (s : TCGContext) (params : list Z) (args : Z) (nb : nat) (wm rm : Z) : Res Z :=
  match nb with
  | O => Ok rm
  | S nb =>
      let* idx := arg_at params args in
      let rm := if (idx <? nb_globals s) && (Z.land wm (global_bit idx) =? 0) then Z.lor rm (global_bit idx) else rm in
      mask_inputs s params (args + 1) nb wm rm
  end.

Fixpoint mask_outputs (s : TCGContext) (params : list Z) (args : Z) (nb : nat) (wm : Z) : Res Z :=
  match nb with
  | O => Ok wm
  | S nb =>
      let* idx := arg_at params args in
      let wm := if idx <? nb_globals s then Z.lor wm (global_bit idx) else wm in
      mask_outputs s params (args + 1) nb wm
  end.

Definition mask_op (s : TCGContext) (helpers : HelperTable) (params : list Z) (op : TCGOpcode) (st : MaskState) : Res MaskState :=
  let def := tcg_op_defs op in
  let* (st, nbo, nbi, nbc) :=
    match op with
    | INDEX_op_call =>
        let* arg_count := arg_at params (mask_args st) in
        let st := st <| mask_args := mask_args st + 1 |> in
        let nbo := Z.shiftr arg_count 16 in
        let nbi := Z.land arg_count 0xffff in
        let* func_arg := arg_at params (mask_args st + nbo + nbi - 1) in
        if negb (func_arg <? nb_globals s + nb_temps s) then Fail AssertFail
        else
        let* func := arg_at (consts st) func_arg in
        let* (fr, fw, fa) := tcg_helper_get_reg_mask helpers func in
        Ok (st <| rmask := Z.lor (rmask st) fr |> <| wmask := Z.lor (wmask st) fw |> <| accesses_mem := Z.lor (accesses_mem st) fa |>, nbo, nbi, nb_cargs def)
    | INDEX_op_nopn => let* nbc := arg_at params (mask_args st) in Ok (st, 0, 0, nbc)
    | _ => Ok (st, nb_oargs def, nb_iargs def, nb_cargs def)
    end in
  let args := mask_args st in
  let* c :=
    if bool_decide (op = INDEX_op_movi_i32 \/ op = INDEX_op_movi_i64) then
      let* t := arg_at params args in
      let* v := arg_at params (args + 1) in
      if negb (t <? nb_globals s + nb_temps s) then Fail AssertFail else set_const (consts st) t v
    else forget_outputs params args (Z.to_nat nbo) (consts st) in
  let* rm := mask_inputs s params (args + nbo) (Z.to_nat nbi) (wmask st) (rmask st) in
  let* wm := mask_outputs s params args (Z.to_nat nbo) (wmask st) in
  Ok (st <| consts := c |> <| rmask := rm |> <| wmask := wm |> <| mask_args := args + (nbi + nbo + nbc) |>).

Fixpoint mask_loop (s : TCGContext) (helpers : HelperTable) (params : list Z) (opc : list TCGOpcode) (st : MaskState) : Res MaskState :=
  match opc with
  | [] => Ok st
  | op :: opc => let* st := mask_op s helpers params op st in mask_loop s helpers params opc st
  end.

(** The array [temps] has room for [TCG_MAX_TEMPS] values, of which
    [nb_globals + nb_temps] are cleared. *)
Definition tcg_calc_regmask (s : TCGContext) (helpers : HelperTable) (opc : list TCGOpcode) (params : list Z) : Res (Z * Z * Z) :=
  if TCG_MAX_TEMPS <? nb_globals s + nb_temps s then Fail OutOfBounds
  else
  let* st := mask_loop s helpers params opc (mkMaskState 0 0 0 (replicate (Z.to_nat (nb_globals s + nb_temps s)) 0) 0) in
  Ok (rmask st, wmask st, accesses_mem st).
End Tcg.
