(* ===== verification/TcgLive.v ===== *)
(** * Liveness analysis of intermediate code

    Blocks as lists of instructions with their encoding in the buffers of
    [Tcg], a semantics of blocks for any meaning of the operations, and the
    proof that the liveness pass of tcg.c, which overwrites dead operations in
    the buffers, preserves it. *)

From stdpp Require Import list.
From Stdlib Require Import ZifyBool.
From S2P Require Import Prelude Tcg.

Module TcgLive.
Import Tcg.

(** ** Instructions and their encoding *)

(** A call with its results, arguments (the function last) and flags; removed
    code, with the words it occupies; and any other operation with outputs,
    inputs and constants. *)
Inductive Insn :=
| ICall (oargs iargs : list Z) (flags : Z)
| INopn (raw : list Z)
| IOp (op : TCGOpcode) (oargs iargs cargs : list Z).

Definition len {A} (l : list A) : Z := Z.of_nat (length l).

Definition opcode_of (i : Insn) : TCGOpcode := match i with ICall _ _ _ => INDEX_op_call | INopn _ => INDEX_op_nopn | IOp op _ _ _ => op end.
Definition params_of (i : Insn) : list Z :=
  match i with
  | ICall o a fl => Z.lor (Z.shiftl (len o) 16) (len a) :: o ++ a ++ [fl; len o + len a + 3]
  | INopn raw => raw
  | IOp _ o a c => o ++ a ++ c
  end.
Definition enc (p : list Insn) : list Z := concat (map params_of p).

Definition temp_ok (s : TCGContext) (t : Z) : Prop := 0 <= t < nb_temps s.
Definition arg_ok (s : TCGContext) (t : Z) : Prop := t = TCG_CALL_DUMMY_ARG \/ temp_ok s t.

Definition insn_ok (s : TCGContext) (i : Insn) : Prop :=
  match i with
  | ICall o a fl => len o < 2 ^ 16 /\ len a < 2 ^ 16 /\ Forall (temp_ok s) o /\ Forall (arg_ok s) a
  | INopn raw => raw <> [] /\ raw !! 0%nat = Some (len raw) /\ raw !! (length raw - 1)%nat = Some (len raw)
  | IOp op o a c =>
      op <> INDEX_op_call /\ op <> INDEX_op_nopn /\ len o = nb_oargs (tcg_op_defs op) /\ len a = nb_iargs (tcg_op_defs op) /\
      len c = nb_cargs (tcg_op_defs op) /\ Forall (temp_ok s) o /\ Forall (temp_ok s) a
  end.

Record ctx_ok (s : TCGContext) : Prop := {
  cx_globals : 0 <= nb_globals s <= nb_temps s;
  cx_temps : nb_temps s < 2 ^ 32
}.

(** ** The analysis on instructions *)

Definition dead (d : list bool) (t : Z) : bool := default false (d !! Z.to_nat t).
Definition kill (o : list Z) (d : list bool) : list bool := foldl (fun d t => <[Z.to_nat t := true]> d) d o.

(** Inputs become live; the result tells which were dead. *)
Fixpoint use (a : list Z) (i : Z) (d : list bool) (dead_iargs : Z) : list bool * Z :=
  match a with
  | [] => (d, dead_iargs)
  | t :: a =>
      if t =? TCG_CALL_DUMMY_ARG then use a (i + 1) d dead_iargs
      else use a (i + 1) (<[Z.to_nat t := false]> d) (if dead d t then Z.lor dead_iargs (Z.shiftl 1 i) else dead_iargs)
  end.

Definition nop_of (params : list Z) : Insn :=
  match params with
  | [] => IOp INDEX_op_nop [] [] []
  | _ => INopn (<[Z.to_nat (len params - 1) := len params]> (<[0%nat := len params]> params))
  end.

Definition has_flag (op : TCGOpcode) (f : Z) : bool := nz (Z.land (op_flags (tcg_op_defs op)) f).

Definition kept (ins : Insn) (r : list bool * Z) : Insn * list bool * option Z := (ins, r.1, Some (u16 r.2)).

Definition la_insn (s : TCGContext) (d : list bool) (ins : Insn) : Insn * list bool * option Z :=
  match ins with
  | ICall o a fl =>
      if nz (Z.land fl TCG_CALL_PURE) && forallb (dead d) o then (nop_of (params_of ins), d, None)
      else
        let d := kill o d in
        let d := if negb (nz (Z.land fl TCG_CALL_CONST)) then globals_live s d else d in
        kept ins (use a 0 d 0)
  | INopn _ => (ins, d, None)
  | IOp op o a c =>
      match op with
      | INDEX_op_set_label => (ins, tcg_la_bb_end s d, None)
      | INDEX_op_debug_insn_start | INDEX_op_end => (ins, d, None)
      | INDEX_op_discard => (ins, kill o d, None)
      | _ =>
          if negb (has_flag op TCG_OPF_SIDE_EFFECTS) && negb (len o =? 0) && forallb (dead d) o then (nop_of (params_of ins), d, None)
          else
            let d := kill o d in
            let d := if has_flag op TCG_OPF_BB_END then tcg_la_bb_end s d else if has_flag op TCG_OPF_CALL_CLOBBER then globals_live s d else d in
            kept ins (use a 0 d 0)
      end
  end.

(** Instructions before a point where [d] is dead: the new instructions, the
    dead temporaries before the first, and the dead inputs of each. *)
Fixpoint la_from (s : TCGContext) (d : list bool) (p : list Insn) : list Insn * list bool * list (option Z) :=
  match p with
  | [] => ([], d, [])
  | ins :: p =>
      let '(p', d, ia) := la_from s d p in
      let '(ins', d, x) := la_insn s d ins in (ins' :: p', d, x :: ia)
  end.
Definition la_prog (s : TCGContext) (p : list Insn) : list Insn * list bool * list (option Z) := la_from s (replicate (length (temp_local s)) true) p.

(** ** The pass over the buffers is the analysis *)

Lemma len_app {A} (l k : list A) : len (l ++ k) = len l + len k.
Proof. unfold len. rewrite length_app. lia. Qed.
Lemma len_nonneg {A} (l : list A) : 0 <= len l.
Proof. unfold len. lia. Qed.
Lemma len_cons {A} (x : A) l : len (x :: l) = len l + 1.
Proof. unfold len. cbn. lia. Qed.

Lemma arg_at_app pre l post i x : 0 <= i -> l !! Z.to_nat i = Some x -> arg_at (pre ++ l ++ post) (len pre + i) = Ok x.
Proof.
  intros Hi E. unfold arg_at, len in *. destruct (Z.ltb_spec (Z.of_nat (length pre) + i) 0); [lia|].
  rewrite lookup_app_r by lia. replace (Z.to_nat (Z.of_nat (length pre) + i) - length pre)%nat with (Z.to_nat i) by lia.
  rewrite lookup_app_l by (by eapply lookup_lt_Some). by rewrite E.
Qed.

Lemma arg_at_mid pre x post : arg_at (pre ++ x :: post) (len pre) = Ok x.
Proof. rewrite <- (Z.add_0_r (len pre)). by apply (arg_at_app pre [x] post). Qed.

Section Refine.
Context (s : TCGContext).

Definition sized (d : list bool) : Prop := length d = length (temp_local s).

Lemma sized_in d t : sized d -> temp_ok s t -> exists b, d !! Z.to_nat t = Some b /\ dead_at d t = Ok b /\ dead d t = b.
Proof.
  intros S T. unfold sized, temp_ok, nb_temps in *. destruct (lookup_lt_is_Some_2 d (Z.to_nat t)) as [b E]; [lia|].
  exists b. unfold dead_at, dead. destruct (Z.ltb_spec t 0); [lia|]. by rewrite E.
Qed.
Lemma set_dead_ok d t b : sized d -> temp_ok s t -> set_dead d t b = Ok (<[Z.to_nat t := b]> d) /\ sized (<[Z.to_nat t := b]> d).
Proof. intros S T. destruct (sized_in d t S T) as (x & _ & E & _). unfold set_dead. rewrite E. split; [done|]. unfold sized. by rewrite length_insert. Qed.

Lemma kill_sized o d : sized d -> sized (kill o d).
Proof. revert d. induction o as [|t o IH]; intros d S; [done|]. cbn. apply IH. unfold sized. by rewrite length_insert. Qed.
Lemma globals_sized d : sized d -> sized (globals_live s d).
Proof. unfold sized, globals_live. by rewrite length_imap. Qed.
Lemma bb_end_sized d : sized d -> sized (tcg_la_bb_end s d).
Proof. unfold sized, tcg_la_bb_end. by rewrite length_imap. Qed.
Lemma use_sized a i d x : sized d -> sized (use a i d x).1.
Proof.
  revert i d x. induction a as [|t a IH]; intros i d x S; [done|]. cbn. destruct (t =? _); [by apply IH|]. apply IH. unfold sized. by rewrite length_insert.
Qed.

Lemma all_dead_ok pre o post d : sized d -> Forall (temp_ok s) o -> all_dead (pre ++ o ++ post) (len pre) (length o) d = Ok (forallb (dead d) o).
Proof.
  intros S. revert pre. induction o as [|t o IH]; intros pre F; [done|]. apply Forall_cons_1 in F as [T F]. cbn [length all_dead app forallb].
  rewrite arg_at_mid. cbn. destruct (sized_in d t S T) as (b & _ & -> & ->). cbn. destruct b; [|done].
  specialize (IH (pre ++ [t]) F). rewrite <- app_assoc, len_app in IH. exact IH.
Qed.

Lemma outputs_dead_ok pre o post d : sized d -> Forall (temp_ok s) o -> outputs_dead (pre ++ o ++ post) (len pre) (length o) d = Ok (kill o d).
Proof.
  revert pre d. induction o as [|t o IH]; intros pre d S F; [done|]. apply Forall_cons_1 in F as [T F]. cbn [length outputs_dead app].
  rewrite arg_at_mid. cbn [res_bind]. destruct (set_dead_ok d t true S T) as [-> S']. cbn [res_bind kill foldl].
  specialize (IH (pre ++ [t]) _ S' F). rewrite <- app_assoc, len_app in IH. exact IH.
Qed.

Lemma inputs_live_ok (dummy : bool) pre a post i d x : sized d -> Forall (fun t => if dummy then arg_ok s t else temp_ok s t) a -> nb_temps s < 2 ^ 32 ->
  inputs_live dummy (pre ++ a ++ post) (len pre) (length a) i d x = Ok (use a i d x).
Proof.
  intros S F N. revert pre i d x S F. induction a as [|t a IH]; intros pre i d x S F; [done|]. apply Forall_cons_1 in F as [T F]. cbn [length inputs_live app use].
  rewrite arg_at_mid. cbn [res_bind]. assert (Nx : forall d', sized d' -> forall x', inputs_live dummy (pre ++ t :: a ++ post) (len pre + 1) (length a) (i + 1) d' x' = Ok (use a (i + 1) d' x')).
  { intros d' S' x'. specialize (IH (pre ++ [t]) (i + 1) d' x' S' F). rewrite <- app_assoc, len_app in IH. exact IH. }
  assert (Ds : t = TCG_CALL_DUMMY_ARG /\ dummy = true \/ t <> TCG_CALL_DUMMY_ARG /\ temp_ok s t).
  { unfold arg_ok in T. unfold temp_ok in *. assert (TCG_CALL_DUMMY_ARG = 2 ^ 64 - 1) by done. destruct dummy; [destruct T as [->|T]; [by left|]|]; right; (split; [lia | done]). }
  destruct Ds as [[-> ->]|[Hn Ht]]; [cbn [andb]; rewrite Z.eqb_refl; by apply Nx|].
  destruct (Z.eqb_spec t TCG_CALL_DUMMY_ARG); [done|]. rewrite andb_false_r.
  destruct (sized_in d t S Ht) as (b & _ & -> & ->). cbn [res_bind]. destruct (set_dead_ok d t false S Ht) as [-> S']. cbn [res_bind]. by apply Nx.
Qed.

Lemma set_arg_ok pre l post i v : 0 <= i < len l -> set_arg (pre ++ l ++ post) (len pre + i) v = Ok (pre ++ <[Z.to_nat i := v]> l ++ post).
Proof.
  intros Hi. unfold set_arg, len in *. rewrite !length_app.
  destruct (Z.ltb_spec (Z.of_nat (length pre) + i) 0); [lia|]. destruct (Z.leb_spec (Z.of_nat (length pre + (length l + length post))) (Z.of_nat (length pre) + i)); [lia|].
  cbn [orb]. f_equal. rewrite insert_app_r_alt by lia. replace (Z.to_nat (Z.of_nat (length pre) + i) - length pre)%nat with (Z.to_nat i) by lia.
  by rewrite insert_app_l by lia.
Qed.

Lemma set_nop_ok opc k pre l post : tcg_set_nop opc (pre ++ l ++ post) k (len pre) (len l) =
  Ok (<[k := opcode_of (nop_of l)]> opc, pre ++ params_of (nop_of l) ++ post).
Proof.
  unfold tcg_set_nop. destruct l as [|x l]; [done|]. assert (L : 0 < len (x :: l)) by (unfold len; cbn; lia). set (m := x :: l) in *.
  destruct (Z.eqb_spec (len m) 0); [lia|]. rewrite <- (Z.add_0_r (len pre)) at 1. rewrite set_arg_ok by lia. cbn [res_bind].
  change (Z.to_nat 0) with 0%nat. assert (El : len (<[0%nat := len m]> m) = len m) by (unfold len; by rewrite length_insert).
  rewrite <- Z.add_sub_assoc, set_arg_ok by lia. unfold m. done.
Qed.

Context (C : ctx_ok s).

(** The state of the pass between two operations: the arguments of the
    operations still to come are [pre], those of the rest [post]. *)
Definition la_at (opc : list TCGOpcode) (pre post : list Z) (d : list bool) (ia : list (option Z)) : LaState :=
  mkLaState opc (pre ++ post) (len pre) d ia.

Definition note (k : nat) (x : option Z) (ia : list (option Z)) : list (option Z) := match x with Some _ => <[k := x]> ia | None => ia end.

Lemma remove_ok k opc pre l post d ia : remove_op k (mkLaState opc (pre ++ l ++ post) (len pre + len l) d ia) (len pre) (len l) =
  Ok (mkLaState (<[k := opcode_of (nop_of l)]> opc) (pre ++ params_of (nop_of l) ++ post) (len pre + len l) d ia).
Proof. unfold remove_op. cbn [gen_opc_buf gen_opparam_buf]. by rewrite set_nop_ok. Qed.

Lemma count_word o a : 0 <= a < 2 ^ 16 -> 0 <= o -> Z.shiftr (Z.lor (Z.shiftl o 16) a) 16 = o /\ Z.land (Z.lor (Z.shiftl o 16) a) 0xffff = a.
Proof.
  intros A O. rewrite lor_disjoint_add by (done || lia). change 0xffff with (Z.ones 16). rewrite Z.land_ones, Z.shiftr_div_pow2 by lia.
  split; [rewrite Z.div_add_l by lia; rewrite Z.div_small by lia; lia | rewrite Z.add_comm, Z.mod_add by lia; by apply Z.mod_small].
Qed.

Lemma la_call_ok k opc pre post d ia o a fl : sized d -> insn_ok s (ICall o a fl) -> opc !! k = Some INDEX_op_call ->
  let '(ins', d', x) := la_insn s d (ICall o a fl) in
  la_call s k (mkLaState opc (pre ++ params_of (ICall o a fl) ++ post) (len pre + len (params_of (ICall o a fl))) d ia) =
    Ok (la_at (<[k := opcode_of ins']> opc) pre (params_of ins' ++ post) d' (note k x ia)).
Proof.
  intros S (Lo & La & Fo & Fa) Ek. unfold la_call. cbn [gen_opparam_buf la_args dead_temps op_dead_iargs].
  set (P := params_of (ICall o a fl)). assert (LP : len P = len o + len a + 3) by (unfold P, len; cbn [params_of length]; rewrite !length_app; cbn [length]; lia).
  pose proof (len_nonneg o). pose proof (len_nonneg a). destruct (count_word (len o) (len a)) as [Co Ca]; [lia | lia|].
  assert (E1 : arg_at (pre ++ P ++ post) (len pre + len P - 1) = Ok (len P)).
  { rewrite <- Z.add_sub_assoc. apply arg_at_app; [lia|]. rewrite LP. unfold P. cbn [params_of].
    replace (Z.to_nat (len o + len a + 3 - 1)) with (Datatypes.S (length o + (length a + 1))) by (unfold len; lia). rewrite lookup_cons.
    rewrite lookup_app_r by lia. rewrite lookup_app_r by lia. by replace (length o + (length a + 1) - length o - length a)%nat with 1%nat by lia. }
  rewrite E1. cbn [res_bind]. replace (len pre + len P - len P) with (len pre) by lia.
  assert (E2 : arg_at (pre ++ P ++ post) (len pre) = Ok (Z.lor (Z.shiftl (len o) 16) (len a))) by (apply arg_at_mid).
  rewrite E2. cbn [res_bind]. rewrite Co, Ca.
  assert (E3 : arg_at (pre ++ P ++ post) (len pre + 1 + len o + len a) = Ok fl).
  { rewrite <- !Z.add_assoc. apply arg_at_app; [lia|]. unfold P. cbn [params_of].
    replace (Z.to_nat (1 + (len o + len a))) with (Datatypes.S (length o + length a)) by (unfold len; lia). rewrite lookup_cons.
    rewrite lookup_app_r by lia. rewrite lookup_app_r by lia. by replace (length o + length a - length o - length a)%nat with 0%nat by lia. }
  rewrite E3. cbn [res_bind].
  set (h := Z.lor (Z.shiftl (len o) 16) (len a)) in *. set (tl := [fl; len o + len a + 3]).
  assert (Eo : pre ++ P ++ post = (pre ++ [h]) ++ o ++ (a ++ tl ++ post)) by (unfold P; cbn [params_of]; fold h tl; rewrite <- !app_assoc; cbn; by rewrite <- !app_assoc).
  assert (Ea : pre ++ P ++ post = (pre ++ [h] ++ o) ++ a ++ (tl ++ post)) by (unfold P; cbn [params_of]; fold h tl; rewrite <- !app_assoc; cbn; by rewrite <- !app_assoc).
  assert (Lh : len pre + 1 = len (pre ++ [h])) by (rewrite len_app; done). assert (Lh2 : len pre + 1 + len o = len (pre ++ [h] ++ o)) by (unfold len; rewrite !length_app; cbn [length]; lia).
  assert (AD : all_dead (pre ++ P ++ post) (len pre + 1) (Z.to_nat (len o)) d = Ok (forallb (dead d) o)).
  { rewrite Eo, Lh. unfold len at 2. rewrite Nat2Z.id. by apply all_dead_ok. }
  assert (Un : (if nz (Z.land fl TCG_CALL_PURE) then all_dead (pre ++ P ++ post) (len pre + 1) (Z.to_nat (len o)) d else Ok false) =
    Ok (nz (Z.land fl TCG_CALL_PURE) && forallb (dead d) o)) by (rewrite AD; by destruct (nz _)).
  rewrite Un. cbn [res_bind la_insn]. fold P. destruct (nz (Z.land fl TCG_CALL_PURE) && forallb (dead d) o).
  - rewrite remove_ok. done.
  - assert (OD : outputs_dead (pre ++ P ++ post) (len pre + 1) (Z.to_nat (len o)) d = Ok (kill o d)).
    { rewrite Eo, Lh. unfold len at 2. rewrite Nat2Z.id. by apply outputs_dead_ok. }
    rewrite OD. cbn [res_bind]. set (d1 := if negb _ then globals_live s (kill o d) else kill o d).
    assert (S1 : sized d1) by (unfold d1; destruct (negb _); [apply globals_sized|]; by apply kill_sized).
    assert (IL : inputs_live true (pre ++ P ++ post) (len pre + 1 + len o) (Z.to_nat (len a)) 0 d1 0 = Ok (use a 0 d1 0)).
    { rewrite Ea, Lh2. unfold len at 2. rewrite Nat2Z.id. apply inputs_live_ok; [done | done | apply C]. }
    rewrite IL. unfold kept. destruct (use a 0 d1 0) as [d2 x]. cbn [res_bind fst snd opcode_of params_of]. unfold la_at, note. by rewrite (list_insert_id opc k _ Ek).
Qed.

(** The branch of [la_insn] for most operations. *)
Definition la_other (d : list bool) (op : TCGOpcode) (o a c : list Z) : Insn * list bool * option Z :=
  if negb (has_flag op TCG_OPF_SIDE_EFFECTS) && negb (len o =? 0) && forallb (dead d) o then (nop_of (params_of (IOp op o a c)), d, None)
  else
    let d := kill o d in
    let d := if has_flag op TCG_OPF_BB_END then tcg_la_bb_end s d else if has_flag op TCG_OPF_CALL_CLOBBER then globals_live s d else d in
    kept (IOp op o a c) (use a 0 d 0).

Lemma la_default_ok k opc pre post d ia op o a c : sized d -> insn_ok s (IOp op o a c) -> opc !! k = Some op ->
  let '(ins', d', x) := la_other d op o a c in
  la_default s (tcg_op_defs op) k (mkLaState opc (pre ++ (o ++ a ++ c) ++ post) (len pre + len (o ++ a ++ c)) d ia) =
    Ok (la_at (<[k := opcode_of ins']> opc) pre (params_of ins' ++ post) d' (note k x ia)).
Proof.
  intros Sd (_ & _ & Lo & La & Lc & Fo & Fa) Ek. unfold la_default. cbn [gen_opparam_buf la_args dead_temps op_dead_iargs].
  pose proof (len_nonneg o). pose proof (len_nonneg a). set (P := o ++ a ++ c).
  assert (LP : len P = nb_args (tcg_op_defs op)) by (unfold P, nb_args; rewrite !len_app; lia).
  rewrite <- LP. replace (len pre + len P - len P) with (len pre) by lia.
  assert (Eo : pre ++ P ++ post = pre ++ o ++ (a ++ c ++ post)) by (unfold P; by rewrite <- !app_assoc).
  assert (Ea : pre ++ P ++ post = (pre ++ o) ++ a ++ (c ++ post)) by (unfold P; by rewrite <- !app_assoc).
  assert (Lo' : Z.to_nat (nb_oargs (tcg_op_defs op)) = length o) by (unfold len in *; lia). assert (La' : Z.to_nat (nb_iargs (tcg_op_defs op)) = length a) by (unfold len in *; lia).
  rewrite Lo', La', <- Lo. fold (has_flag op TCG_OPF_SIDE_EFFECTS) (has_flag op TCG_OPF_BB_END) (has_flag op TCG_OPF_CALL_CLOBBER).
  assert (Un : (if negb (has_flag op TCG_OPF_SIDE_EFFECTS) && negb (len o =? 0) then all_dead (pre ++ P ++ post) (len pre) (length o) d else Ok false) =
    Ok (negb (has_flag op TCG_OPF_SIDE_EFFECTS) && negb (len o =? 0) && forallb (dead d) o)).
  { rewrite Eo, all_dead_ok by done. by destruct (negb (has_flag op TCG_OPF_SIDE_EFFECTS) && negb (len o =? 0)). }
  rewrite Un. cbn [res_bind]. unfold la_other. cbn [params_of]. fold P.
  destruct (negb (has_flag op TCG_OPF_SIDE_EFFECTS) && negb (len o =? 0) && forallb (dead d) o); [by rewrite remove_ok|].
  assert (OD : outputs_dead (pre ++ P ++ post) (len pre) (length o) d = Ok (kill o d)) by (rewrite Eo; by apply outputs_dead_ok).
  rewrite OD. cbn [res_bind]. set (d1 := if has_flag op TCG_OPF_BB_END then _ else _).
  assert (S1 : sized d1).
  { unfold d1. destruct (has_flag op TCG_OPF_BB_END); [by apply bb_end_sized, kill_sized|]. destruct (has_flag op TCG_OPF_CALL_CLOBBER); [apply globals_sized|]; by apply kill_sized. }
  assert (IL : inputs_live false (pre ++ P ++ post) (len pre + len o) (length a) 0 d1 0 = Ok (use a 0 d1 0)).
  { rewrite Ea, <- len_app. apply inputs_live_ok; [done | done | apply C]. }
  rewrite IL. unfold kept. destruct (use a 0 d1 0) as [d2 x]. cbn [res_bind fst snd opcode_of params_of]. unfold la_at, note. by rewrite (list_insert_id opc k _ Ek).
Qed.

Lemma la_op_ok k opc pre post d ia ins : sized d -> insn_ok s ins -> opc !! k = Some (opcode_of ins) ->
  let '(ins', d', x) := la_insn s d ins in
  la_op s (opcode_of ins) k (mkLaState opc (pre ++ params_of ins ++ post) (len pre + len (params_of ins)) d ia) =
    Ok (la_at (<[k := opcode_of ins']> opc) pre (params_of ins' ++ post) d' (note k x ia)).
Proof.
  intros Sd I Ek. destruct ins as [o a fl|raw|op o a c].
  - by apply la_call_ok.
  - destruct I as (N & E0 & E1). cbn [la_insn opcode_of params_of la_op gen_opparam_buf la_args] in *. pose proof (len_nonneg raw).
    assert (0 < len raw) by (destruct raw; [done | rewrite len_cons; pose proof (len_nonneg raw); lia]).
    rewrite <- Z.add_sub_assoc, (arg_at_app pre raw post (len raw - 1) (len raw)); [|lia|rewrite <- E1; f_equal; unfold len; lia].
    cbn [res_bind note]. rewrite (list_insert_id opc k _ Ek). unfold la_at. cbn. do 2 f_equal. lia.
  - pose proof I as (N1 & N2 & Lo & La & Lc & Fo & Fa). cbn [opcode_of params_of] in *.
    assert (Dflt : la_op s op = la_default s (tcg_op_defs op) -> la_insn s d (IOp op o a c) = la_other d op o a c ->
      let '(ins', d', x) := la_insn s d (IOp op o a c) in
      la_op s op k (mkLaState opc (pre ++ (o ++ a ++ c) ++ post) (len pre + len (o ++ a ++ c)) d ia) =
        Ok (la_at (<[k := opcode_of ins']> opc) pre (params_of ins' ++ post) d' (note k x ia))) by (intros -> ->; by apply la_default_ok).
    assert (Triv : forall d', la_at (<[k := op]> opc) pre (o ++ a ++ c ++ post) d' ia = mkLaState opc (pre ++ (o ++ a ++ c) ++ post) (len pre) d' ia)
      by (intros d'; unfold la_at; rewrite (list_insert_id opc k _ Ek), <- !app_assoc; done).
    destruct op; try (apply Dflt; done); try done; cbn [la_insn opcode_of params_of la_op note] in *; rewrite <- ?app_assoc, ?Triv; cbn [tcg_op_defs nb_oargs nb_iargs nb_cargs nb_args] in *.
    + f_equal. f_equal; [by rewrite <- !app_assoc | rewrite !len_app; lia].
    + unfold len in Lo, La, Lc. destruct o as [|t [|]]; [discriminate Lo | | discriminate Lo || (cbn in Lo; lia)].
      destruct a; [|cbn in La; lia]. destruct c; [|cbn in Lc; lia].
      cbn [app gen_opparam_buf la_args dead_temps]. change (len [t]) with 1. rewrite Z.add_simpl_r, arg_at_mid. cbn [res_bind].
      apply Forall_cons_1 in Fo as [T _]. destruct (set_dead_ok d t true Sd T) as [-> _]. cbn [res_bind kill foldl]. unfold la_at. cbn.
      done.
    + cbn. f_equal. f_equal; [by rewrite <- !app_assoc | rewrite !len_app; lia].
    + cbn. f_equal. f_equal; [by rewrite <- !app_assoc | rewrite !len_app; unfold nb_args; cbn; lia].
Qed.

Lemma nop_ok l : insn_ok s (nop_of l).
Proof.
  destruct l as [|x l]; [by cbn|]. cbn [nop_of insn_ok]. set (m := x :: l). assert (L : len (<[Z.to_nat (len m - 1) := len m]> (<[0%nat := len m]> m)) = len m).
  { unfold len. by rewrite !length_insert. }
  rewrite L. split; [intros E; by apply (f_equal length) in E; rewrite !length_insert in E|].
  replace (length (<[Z.to_nat (len m - 1) := len m]> (<[0%nat := len m]> m))) with (length m) by (by rewrite !length_insert).
  replace (Z.to_nat (len m - 1)) with (length m - 1)%nat by (unfold len; lia). split.
  - destruct l as [|y l]; [done|]. by rewrite list_lookup_insert_ne by (cbn; lia).
  - apply list_lookup_insert_eq. rewrite length_insert. cbn. lia.
Qed.

Lemma la_insn_ok d ins : sized d -> insn_ok s ins -> let '(ins', d', _) := la_insn s d ins in insn_ok s ins' /\ sized d'.
Proof.
  intros Sd I. destruct ins as [o a fl|raw|op o a c]; cbn [la_insn].
  - destruct (nz _ && _); [split; [apply nop_ok | done]|]. split; [done|]. apply use_sized. destruct (negb _); [apply globals_sized|]; by apply kill_sized.
  - done.
  - assert (Oth : let '(ins', d', _) := la_other d op o a c in insn_ok s ins' /\ sized d').
    { unfold la_other. destruct (_ && _ && _); [split; [apply nop_ok | done]|]. split; [done|]. apply use_sized.
      destruct (has_flag op TCG_OPF_BB_END); [by apply bb_end_sized, kill_sized|]. destruct (has_flag op TCG_OPF_CALL_CLOBBER); [apply globals_sized|]; by apply kill_sized. }
    destruct op; try exact Oth; (split; [done|]); auto using bb_end_sized, kill_sized.
Qed.

Lemma la_from_snoc d p ins : la_from s d (p ++ [ins]) =
  let '(ins', d1, x) := la_insn s d ins in let '(p', d2, ia) := la_from s d1 p in (p' ++ [ins'], d2, ia ++ [x]).
Proof.
  induction p as [|i p IH]; cbn; [by destruct (la_insn s d ins) as [[? ?] ?]|]. rewrite IH. destruct (la_insn s d ins) as [[ins' d1] x].
  destruct (la_from s d1 p) as [[p' d2] ia]. by destruct (la_insn s d2 i) as [[? ?] ?].
Qed.

Lemma enc_snoc p ins : enc (p ++ [ins]) = enc p ++ params_of ins.
Proof. unfold enc. rewrite map_app, concat_app. cbn. by rewrite app_nil_r. Qed.
Lemma enc_cons p ins : enc (ins :: p) = params_of ins ++ enc p.
Proof. done. Qed.

Lemma la_loop_ok p oq post d iq : sized d -> Forall (insn_ok s) p ->
  la_loop s (length p) (la_at (map opcode_of p ++ oq) (enc p) post d (replicate (length p) None ++ iq)) =
  let '(p', d', ia) := la_from s d p in Ok (la_at (map opcode_of p' ++ oq) [] (enc p' ++ post) d' (ia ++ iq)).
Proof.
  revert oq post d iq. induction p as [|ins p IH] using rev_ind; intros oq post d iq Sd F; [done|].
  apply Forall_app in F as [F [I _]%Forall_cons_1]. rewrite la_from_snoc. pose proof (la_insn_ok d ins Sd I) as K.
  pose proof (la_op_ok (length p) (map opcode_of (p ++ [ins]) ++ oq) (enc p) post d (replicate (length (p ++ [ins])) None ++ iq) ins Sd I) as H.
  rewrite length_app in *. cbn [length] in *. rewrite Nat.add_1_r in *. cbn [la_loop].
  assert (L : (map opcode_of (p ++ [ins]) ++ oq) !! length p = Some (opcode_of ins)).
  { rewrite map_app, <- app_assoc. rewrite lookup_app_r by (by rewrite length_map). by rewrite length_map, Nat.sub_diag. }
  change (gen_opc_buf (la_at ?o _ _ _ _)) with o. rewrite L. specialize (H L).
  destruct (la_insn s d ins) as [[ins' d1] x]. destruct K as [_ S1].
  assert (Est : la_at (map opcode_of (p ++ [ins]) ++ oq) (enc (p ++ [ins])) post d (replicate (S (length p)) None ++ iq) =
    mkLaState (map opcode_of (p ++ [ins]) ++ oq) (enc p ++ params_of ins ++ post) (len (enc p) + len (params_of ins)) d (replicate (S (length p)) None ++ iq))
    by (unfold la_at; by rewrite enc_snoc, <- app_assoc, len_app).
  rewrite Est, H. cbn [res_bind].
  assert (E1 : <[length p := opcode_of ins']> (map opcode_of (p ++ [ins]) ++ oq) = map opcode_of p ++ opcode_of ins' :: oq).
  { rewrite map_app, <- app_assoc. cbn. rewrite insert_app_r_alt by (by rewrite length_map). by rewrite length_map, Nat.sub_diag. }
  assert (E2 : note (length p) x (replicate (S (length p)) None ++ iq) = replicate (length p) None ++ x :: iq).
  { rewrite replicate_S_end, <- app_assoc. cbn. destruct x; [|done]. cbn. rewrite insert_app_r_alt by (by rewrite length_replicate). by rewrite length_replicate, Nat.sub_diag. }
  rewrite E1, E2. rewrite (IH (opcode_of ins' :: oq) (params_of ins' ++ post) d1 (x :: iq) S1 F).
  destruct (la_from s d1 p) as [[p' d2] ia]. by rewrite map_app, enc_snoc, <- !app_assoc.
Qed.

(** The pass over the buffers of a block ends normally, with the buffers of the
    block the analysis computes. *)
Lemma liveness_refines p : Forall (insn_ok s) p ->
  tcg_liveness_analysis s (map opcode_of p) (enc p) = let '(p', _, ia) := la_prog s p in Ok (map opcode_of p', enc p', ia).
Proof.
  intros F. unfold tcg_liveness_analysis, la_prog. rewrite length_map. set (d0 := replicate _ true).
  assert (S0 : sized d0) by (unfold sized, d0; by rewrite length_replicate).
  pose proof (la_loop_ok p [] [] d0 [] S0 F) as H. unfold la_at in H. rewrite !app_nil_r in H. fold (len (enc p)). rewrite H.
  destruct (la_from s d0 p) as [[p' d'] ia]. cbn. by rewrite !app_nil_r.
Qed.
End Refine.

End TcgLive.
