(* ===== verification/TcgSem.v ===== *)
(** * What blocks of intermediate code do

    A semantics of blocks, for any meaning of the operations that respects what
    tcg.h says of their flags, and what the passes of [Tcg] mean for it: the
    liveness pass preserves the outcome of every run, the inputs it marks dead
    are not needed any more, and the registers S2E computes for a block are all
    it reads or writes. *)

From stdpp Require Import list sets.
From Stdlib Require Import ZifyBool.
From S2P Require Import Prelude Tcg TcgLive.

Module TcgSem.
Import Tcg TcgLive.

(** ** Meaning of operations *)

(** Where control goes at the end of a basic block. *)
Inductive Ctl :=
| CNext
| CLabel (l : Z)
| CLeave.

(** [W] is memory and everything else outside the temporaries.  Globals are
    given to calls and to guest memory accesses, which may change them and may
    leave the block with an exception (the last component). *)
Record Meaning (W : Type) := mkMeaning {
  m_pure : TCGOpcode -> list Z -> list Z -> W -> list Z;
  m_effect : TCGOpcode -> list Z -> list Z -> W -> W * list Z;
  m_access : TCGOpcode -> list Z -> list Z -> W -> list Z -> W * list Z * list Z * bool;
  m_control : TCGOpcode -> list Z -> list Z -> W -> W * Ctl;
  m_call : Z -> list Z -> W -> list Z -> W * list Z * list Z * bool;
  m_junk : Z -> Z
}.
Arguments m_pure {W}. Arguments m_effect {W}. Arguments m_access {W}. Arguments m_control {W}. Arguments m_call {W}. Arguments m_junk {W}.

(** The flags of calls, as tcg.h describes them: a pure function reads its
    arguments and globals and cannot raise exceptions, a const function does
    not use globals at all. *)
Class CallFlags {W : Type} (mn : Meaning W) := {
  call_pure fl args w gs : nz (Z.land fl TCG_CALL_PURE) = true -> exists vs, m_call mn fl args w gs = (w, gs, vs, false);
  call_const fl args w : nz (Z.land fl TCG_CALL_CONST) = true -> exists w' vs, forall gs, m_call mn fl args w gs = (w', gs, vs, false)
}.

Inductive Outcome (W : Type) :=
| OLeave (why : list Z) (w : W) (gs : list Z)
| OFell (w : W).
Arguments OLeave {W}. Arguments OFell {W}.

Inductive Step (W : Type) :=
| Next (pc : nat) (r : Z -> Z) (w : W)
| Stop (o : Outcome W).
Arguments Next {W}. Arguments Stop {W}.

Definition upd (r : Z -> Z) (t v : Z) : Z -> Z := fun i => if i =? t then v else r i.
Fixpoint set_outs (r : Z -> Z) (o vs : list Z) : Z -> Z :=
  match o with
  | [] => r
  | t :: o => set_outs (upd r t (hd 0 vs)) o (tl vs)
  end.
Definition val (r : Z -> Z) (a : Z) : Z := if a =? TCG_CALL_DUMMY_ARG then 0 else r a.

Definition is_label (l : Z) (i : Insn) : bool := match i with IOp INDEX_op_set_label _ _ [k] => k =? l | _ => false end.
Fixpoint find_label (p : list Insn) (l : Z) : option nat :=
  match p with
  | [] => None
  | i :: p => if is_label l i then Some 0%nat else S <$> find_label p l
  end.

Section Run.
Context {W : Type} (s : TCGContext) (mn : Meaning W).

Definition globals (r : Z -> Z) : list Z := map r (seqZ 0 (nb_globals s)).
Definition set_globals (r : Z -> Z) (gs : list Z) : Z -> Z :=
  fun i => if (0 <=? i) && (i <? nb_globals s) then nth (Z.to_nat i) gs 0 else r i.
Definition survives (t : Z) : bool := (t <? nb_globals s) || default false (temp_local s !! Z.to_nat t).
(** Other temporaries have no value after a basic block. *)
Definition bb_clear (r : Z -> Z) : Z -> Z := fun t => if survives t then r t else m_junk mn t.

Definition exec_op (p : list Insn) (pc : nat) (op : TCGOpcode) (o a c : list Z) (r : Z -> Z) (w : W) : Step W :=
  let ins := map (val r) a in
  if has_flag op TCG_OPF_BB_END then
    let '(w', k) := m_control mn op ins c w in
    match k with
    | CNext => Next (S pc) (bb_clear r) w'
    | CLabel l => match find_label p l with Some j => Next (S j) (bb_clear r) w' | None => Stop (OFell w') end
    | CLeave => Stop (OLeave (ins ++ c) w' (globals r))
    end
  else if has_flag op TCG_OPF_CALL_CLOBBER then
    let '(w', gs, vs, leave) := m_access mn op ins c w (globals r) in
    if leave : bool then Stop (OLeave ins w' gs) else Next (S pc) (set_outs (set_globals r gs) o vs) w'
  else if has_flag op TCG_OPF_SIDE_EFFECTS then
    let '(w', vs) := m_effect mn op ins c w in Next (S pc) (set_outs r o vs) w'
  else Next (S pc) (set_outs r o (m_pure mn op ins c w)) w.

Definition exec (p : list Insn) (pc : nat) (r : Z -> Z) (w : W) : Step W :=
  match p !! pc with
  | None => Stop (OFell w)
  | Some (ICall o a fl) =>
      let '(w', gs, vs, leave) := m_call mn fl (map (val r) a) w (globals r) in
      if leave : bool then Stop (OLeave [] w' gs) else Next (S pc) (set_outs (set_globals r gs) o vs) w'
  | Some (INopn _) => Next (S pc) r w
  | Some (IOp op o a c) =>
      match op with
      | INDEX_op_end => Stop (OFell w)
      | INDEX_op_debug_insn_start => Next (S pc) r w
      | INDEX_op_discard => Next (S pc) (set_outs r o (map (m_junk mn) o)) w
      | INDEX_op_set_label => Next (S pc) (bb_clear r) w
      | _ => exec_op p pc op o a c r w
      end
  end.

(** [n] steps from [pc]: the outcome, if the block has been left. *)
Fixpoint run (n : nat) (p : list Insn) (pc : nat) (r : Z -> Z) (w : W) : option (Outcome W) :=
  match n with
  | O => None
  | S n => match exec p pc r w with Stop o => Some o | Next pc r w => run n p pc r w end
  end.
End Run.
(** ** Agreement on live temporaries *)

Definition agree (d : list bool) (r r' : Z -> Z) : Prop := forall i, d !! i = Some false -> r (Z.of_nat i) = r' (Z.of_nat i).

Lemma agree_refl d r : agree d r r.
Proof. done. Qed.

(** Fewer temporaries are dead in [d'] than in [d]. *)
Definition livelier (d' d : list bool) : Prop := forall i, d !! i = Some false -> d' !! i = Some false.
Lemma agree_mono d' d r r' : livelier d' d -> agree d' r r' -> agree d r r'.
Proof. intros L A i Hi. by apply A, L. Qed.

Lemma insert_false_livelier t d : livelier (<[t := false]> d) d.
Proof.
  intros i E. destruct (decide (i = t)) as [->|]; [|by rewrite list_lookup_insert_ne]. apply list_lookup_insert_eq. by eapply lookup_lt_Some.
Qed.

Lemma use_livelier a i d x : livelier (use a i d x).1 d.
Proof.
  revert i d x. induction a as [|t a IH]; intros i d x k E; [done|]. cbn. destruct (t =? _); [by apply IH|]. by apply IH, insert_false_livelier.
Qed.

Lemma use_live s a i d x t : sized s d -> Forall (arg_ok s) a -> t ∈ a -> t <> TCG_CALL_DUMMY_ARG -> (use a i d x).1 !! Z.to_nat t = Some false.
Proof.
  intros Sd F. revert i d x Sd. induction F as [|u a U F IH]; intros i d x Sd Ht Hn; [by apply elem_of_nil in Ht|].
  cbn. apply elem_of_cons in Ht as [<-|Ht].
  - rewrite (proj2 (Z.eqb_neq t _) Hn). apply use_livelier. destruct U as [|U]; [done|]. destruct (sized_in s d t Sd U) as (b & E & _).
    apply list_lookup_insert_eq. by eapply lookup_lt_Some.
  - destruct (u =? _); [by apply IH|]. apply IH; [|done..]. unfold sized. by rewrite length_insert.
Qed.

Lemma use_vals s a i d x r r' : sized s d -> Forall (arg_ok s) a -> agree (use a i d x).1 r r' -> map (val r) a = map (val r') a.
Proof.
  intros Sd F A. apply map_ext_in. intros t Ht%list_elem_of_In. unfold val. destruct (Z.eqb_spec t TCG_CALL_DUMMY_ARG); [done|].
  pose proof (use_live s a i d x t Sd F Ht n) as E. apply A in E. assert (0 <= t).
  { rewrite Forall_forall in F. destruct (F t (proj1 (list_elem_of_In _ _) Ht)) as [|[? _]]; [done | lia]. }
  by rewrite Z2Nat.id in E.
Qed.

Lemma dead_lookup d t : dead d t = true -> d !! Z.to_nat t = Some true.
Proof. unfold dead. by destruct (d !! _) as [[]|]. Qed.

Lemma kill_live o d i : Forall (fun t => 0 <= t) o -> kill o d !! i = Some false <-> d !! i = Some false /\ ~ Z.of_nat i ∈ o.
Proof.
  intros F. revert d. induction F as [|t o T F IH]; intros d; cbn; [set_solver|].
  change (foldl _ ?x o) with (kill o x). rewrite IH, elem_of_cons.
  destruct (decide (Z.to_nat t = i)) as [<-|N].
  - rewrite list_lookup_insert_Some, Z2Nat.id by done. naive_solver.
  - rewrite list_lookup_insert_ne by done. assert (Z.of_nat i <> t) by lia. naive_solver.
Qed.

Lemma set_outs_other r o vs i : ~ i ∈ o -> set_outs r o vs i = r i.
Proof.
  revert r vs. induction o as [|t o IH]; intros r vs N; [done|]. cbn. rewrite IH by set_solver. unfold upd.
  destruct (Z.eqb_spec i t); [set_solver | done].
Qed.
Lemma set_outs_cong r r' o vs i : i ∈ o \/ r i = r' i -> set_outs r o vs i = set_outs r' o vs i.
Proof.
  revert r r' vs. induction o as [|t o IH]; intros r r' vs H; [set_solver|]. cbn. apply IH. unfold upd. destruct (Z.eqb_spec i t); [by right|]. set_solver.
Qed.
Lemma set_outs_agree o vs d r r' : Forall (fun t => 0 <= t) o -> agree (kill o d) r r' -> agree d (set_outs r o vs) (set_outs r' o vs).
Proof.
  intros F A i Hi. apply set_outs_cong. destruct (decide (Z.of_nat i ∈ o)) as [|N]; [by left|]. right. apply A, kill_live; done.
Qed.
Lemma set_outs_dead o vs d r r' : Forall (fun t => 0 <= t) o -> forallb (dead d) o = true -> agree d r r' -> agree d (set_outs r o vs) r'.
Proof.
  intros F Fd A i Hi. rewrite set_outs_other; [by apply A|]. intros Ho. rewrite forallb_forall in Fd.
  apply list_elem_of_In, Fd, dead_lookup in Ho. rewrite Nat2Z.id in Ho. congruence.
Qed.

Section Agree.
Context {W : Type} (s : TCGContext) (mn : Meaning W) (C : ctx_ok s).

Lemma globals_live_Some d i : globals_live s d !! i = Some false <-> is_Some (d !! i) /\ (Z.of_nat i < nb_globals s \/ d !! i = Some false).
Proof.
  unfold globals_live. rewrite list_lookup_imap. destruct (d !! i) as [b|]; cbn; [|naive_solver].
  destruct (Z.ltb_spec (Z.of_nat i) (nb_globals s)) as [H|H]; split; [eauto | done | eauto|]. intros [_ [?|?]]; [lia | done].
Qed.
Lemma bb_end_Some d i : tcg_la_bb_end s d !! i = Some false <-> is_Some (d !! i) /\ survives s (Z.of_nat i) = true.
Proof.
  unfold tcg_la_bb_end, survives. rewrite list_lookup_imap, Nat2Z.id. destruct (d !! i) as [b|]; cbn; [|naive_solver].
  destruct (Z.of_nat i <? nb_globals s); [naive_solver|]. cbn. destruct (default false _); naive_solver.
Qed.

Lemma globals_agree d r r' : sized s d -> agree (globals_live s d) r r' -> globals s r = globals s r'.
Proof.
  intros Sd A. apply map_ext_in. intros t Ht%list_elem_of_In%elem_of_seqZ. destruct C as [G _]. unfold nb_temps, sized in *.
  rewrite <- (Z2Nat.id t) by lia. apply A, globals_live_Some. split; [apply lookup_lt_is_Some; lia | left; lia].
Qed.
Lemma bb_end_globals d r r' : sized s d -> agree (tcg_la_bb_end s d) r r' -> globals s r = globals s r'.
Proof.
  intros Sd A. apply (globals_agree (tcg_la_bb_end s d)); [by apply bb_end_sized|]. intros i [Hs Hi]%globals_live_Some. apply A, bb_end_Some.
  destruct Hi as [Hi|Hi%bb_end_Some]; [|done]. split; [apply lookup_lt_is_Some; apply lookup_lt_is_Some in Hs; unfold tcg_la_bb_end in Hs; by rewrite length_imap in Hs|].
  unfold survives. destruct (Z.ltb_spec (Z.of_nat i) (nb_globals s)); [done | lia].
Qed.
Lemma bb_clear_agree d d' r r' : sized s d -> sized s d' -> agree (tcg_la_bb_end s d) r r' -> agree d' (bb_clear s mn r) (bb_clear s mn r').
Proof.
  intros Sd Sd' A i Hi. unfold bb_clear. destruct (survives s (Z.of_nat i)) eqn:E; [|done]. apply A, bb_end_Some. split; [|done].
  apply lookup_lt_is_Some. apply lookup_lt_Some in Hi. unfold sized in *. lia.
Qed.
Lemma set_globals_agree d r r' gs : sized s d -> agree (globals_live s d) r r' -> agree d (set_globals s r gs) (set_globals s r' gs).
Proof.
  intros Sd A i Hi. unfold set_globals. destruct (_ && _); [done|]. apply A, globals_live_Some. split; [by eexists | by right].
Qed.
Lemma set_globals_id r i : set_globals s r (globals s r) i = r i.
Proof.
  unfold set_globals. destruct (Z.leb_spec 0 i); [|done]. destruct (Z.ltb_spec i (nb_globals s)); [|done]. cbn. unfold globals.
  rewrite (nth_indep _ 0 (r 0)) by (rewrite length_map, length_seqZ; lia). rewrite map_nth.
  f_equal. rewrite (nth_lookup_Some _ _ _ i); [done|]. apply lookup_seqZ. lia.
Qed.

Lemma temps_nonneg o : Forall (temp_ok s) o -> Forall (fun t => 0 <= t) o.
Proof. apply Forall_impl. by intros t [? _]. Qed.
Lemma temps_args a : Forall (temp_ok s) a -> Forall (arg_ok s) a.
Proof. apply Forall_impl. by right. Qed.
End Agree.

(** ** The pass preserves every run *)

(** Operations that are not handled on their own. *)
Definition ordinary (op : TCGOpcode) : Prop :=
  ~ op ∈ [INDEX_op_set_label; INDEX_op_debug_insn_start; INDEX_op_end; INDEX_op_discard].
Lemma ordinary_dec op : ordinary op \/ op = INDEX_op_set_label \/ op = INDEX_op_debug_insn_start \/ op = INDEX_op_end \/ op = INDEX_op_discard.
Proof. unfold ordinary. destruct (decide (op ∈ [INDEX_op_set_label; INDEX_op_debug_insn_start; INDEX_op_end; INDEX_op_discard])); [right; set_solver | by left]. Qed.
Lemma ordinary_la s d op o a c : ordinary op -> la_insn s d (IOp op o a c) = la_other s d op o a c.
Proof. unfold ordinary. destruct op; try done; set_solver. Qed.
Lemma ordinary_exec {W} s (mn : Meaning W) q pc op o a c r w : ordinary op -> q !! pc = Some (IOp op o a c) -> exec s mn q pc r w = exec_op s mn q pc op o a c r w.
Proof. intros O E. unfold exec. rewrite E. unfold ordinary in O. destruct op; try done; set_solver. Qed.

Section Preserve.
Context {W : Type} (s : TCGContext) (mn : Meaning W) (C : ctx_ok s) (CF : CallFlags mn) (d0 : list bool).

(** The temporaries that are dead before instruction [pc]. *)
Definition dead_before (p : list Insn) (pc : nat) : list bool := (la_from s d0 (drop pc p)).1.2.

Lemma la_from_cons d ins p : la_from s d (ins :: p) =
  (let '(p', d1, ia) := la_from s d p in let '(ins', d2, x) := la_insn s d1 ins in (ins' :: p', d2, x :: ia)).
Proof. done. Qed.

Lemma dead_before_step p pc ins : p !! pc = Some ins -> dead_before p pc = (la_insn s (dead_before p (S pc)) ins).1.2.
Proof.
  intros E. unfold dead_before. rewrite (drop_S _ _ _ E), la_from_cons. destruct (la_from s d0 (drop (S pc) p)) as [[p' d1] ia].
  cbn [fst snd]. by destruct (la_insn s d1 ins) as [[? ?] ?].
Qed.

Lemma la_lookup p pc ins : p !! pc = Some ins ->
  (la_from s d0 p).1.1 !! pc = Some (la_insn s (dead_before p (S pc)) ins).1.1 /\ (la_from s d0 p).2 !! pc = Some (la_insn s (dead_before p (S pc)) ins).2.
Proof.
  revert pc. induction p as [|i p IH]; intros pc E; [done|]. rewrite la_from_cons. unfold dead_before in *. cbn [drop].
  destruct pc as [|pc]; cbn in E.
  - injection E as ->. rewrite drop_0. destruct (la_from s d0 p) as [[p' d1] ia]. cbn. by destruct (la_insn s d1 ins) as [[? ?] ?].
  - destruct (IH pc E) as [H1 H2]. destruct (la_from s d0 p) as [[p' d1] ia]. by destruct (la_insn s d1 i) as [[? ?] ?].
Qed.
Lemma la_lookup_None p pc : p !! pc = None -> (la_from s d0 p).1.1 !! pc = None.
Proof.
  revert pc. induction p as [|i p IH]; intros pc E; [done|]. destruct pc as [|pc]; [done|]. specialize (IH pc E).
  rewrite la_from_cons. destruct (la_from s d0 p) as [[p' d1] ia]. by destruct (la_insn s d1 i) as [[? ?] ?].
Qed.

Lemma dead_before_sized p pc : sized s d0 -> Forall (insn_ok s) p -> sized s (dead_before p pc).
Proof.
  intros S0 F. unfold dead_before. apply (Forall_drop _ pc) in F. induction F as [|i q I F IH]; [done|].
  rewrite la_from_cons. destruct (la_from s d0 q) as [[p' d1] ia]. pose proof (la_insn_ok s d1 i IH I) as H. by destruct (la_insn s d1 i) as [[? ?] ?], H.
Qed.

Lemma nop_of_not_label l ps : is_label l (nop_of ps) = false.
Proof. by destruct ps. Qed.
Lemma la_insn_label l d i : is_label l (la_insn s d i).1.1 = is_label l i.
Proof.
  destruct i as [o a fl|raw|op o a c]; cbn [la_insn]; [|done|].
  - destruct (nz _ && _); [|done]. apply nop_of_not_label.
  - destruct op; try done; cbn [is_label]; destruct (_ && _ && _); try done; apply nop_of_not_label.
Qed.
Lemma la_find_label l p : find_label (la_from s d0 p).1.1 l = find_label p l.
Proof.
  induction p as [|i p IH]; [done|]. rewrite la_from_cons. destruct (la_from s d0 p) as [[p' d1] ia]. cbn in IH |- *.
  pose proof (la_insn_label l d1 i) as L. destruct (la_insn s d1 i) as [[i' d2] x]. cbn in L |- *. by rewrite L, IH.
Qed.

Definition step_rel (p : list Insn) (x x' : Step W) : Prop :=
  match x, x' with
  | Next pc r w, Next pc' r' w' => pc = pc' /\ w = w' /\ agree (dead_before p pc) r r'
  | Stop o, Stop o' => o = o'
  | _, _ => False
  end.

Context (S0 : sized s d0) (p : list Insn) (F : Forall (insn_ok s) p).
Notation p' := (la_from s d0 p).1.1.
Notation D := (dead_before p).

Lemma D_sized pc : sized s (D pc).
Proof. by apply dead_before_sized. Qed.

Lemma call_sim pc o a fl r r' w :
  p !! pc = Some (ICall o a fl) -> insn_ok s (ICall o a fl) -> agree (D pc) r r' -> step_rel p (exec s mn p pc r w) (exec s mn p' pc r' w).
Proof.
  intros E (_ & _ & Fo & Fa) A. destruct (la_lookup p pc _ E) as [E' _]. rewrite (dead_before_step p pc _ E) in A.
  unfold exec. rewrite E, E'. pose proof (D_sized (S pc)) as Sd. set (d := D (S pc)) in *. cbn [la_insn] in *. apply temps_nonneg in Fo.
  destruct (nz (Z.land fl TCG_CALL_PURE) && forallb (dead d) o) eqn:Eu.
  - apply andb_prop in Eu as [Ep Ed]. destruct (call_pure fl (map (val r) a) w (globals s r) Ep) as [vs ->]. cbn [nop_of params_of].
    split_and!; [done..|]. apply set_outs_dead; [done..|]. intros i Hi. rewrite set_globals_id. by apply A.
  - clear Eu. cbn [kept fst snd] in *. set (dk := kill o d) in *. assert (Sk : sized s dk) by (by apply kill_sized).
    destruct (nz (Z.land fl TCG_CALL_CONST)) eqn:Ec; cbn [negb] in A.
    + rewrite (use_vals s a 0 dk 0 r r' Sk Fa A). destruct (call_const fl (map (val r') a) w Ec) as (w' & vs & Hc). rewrite !Hc.
      split_and!; [done..|]. apply set_outs_agree; [done|]. intros i Hi. rewrite !set_globals_id. apply A. by apply use_livelier.
    + pose proof (globals_sized s dk Sk) as Sg. rewrite (use_vals s a 0 _ 0 r r' Sg Fa A).
      apply (agree_mono _ _ _ _ (use_livelier a 0 _ 0)) in A. rewrite (globals_agree s C dk r r' Sk A).
      destruct (m_call mn fl (map (val r') a) w (globals s r')) as [[[w' gs] vs] []]; [done|]. split_and!; [done..|].
      apply set_outs_agree; [done|]. by apply set_globals_agree.
Qed.

Definition flag_dead (op : TCGOpcode) (d : list bool) : list bool :=
  if has_flag op TCG_OPF_BB_END then tcg_la_bb_end s d else if has_flag op TCG_OPF_CALL_CLOBBER then globals_live s d else d.

Lemma kept_sim pc op o a c r r' w : Forall (temp_ok s) o -> Forall (temp_ok s) a -> agree (use a 0 (flag_dead op (kill o (D (S pc)))) 0).1 r r' ->
  step_rel p (exec_op s mn p pc op o a c r w) (exec_op s mn p' pc op o a c r' w).
Proof.
  intros Fo%temps_nonneg Fa%temps_args A. pose proof (D_sized (S pc)) as Sd. set (d := D (S pc)) in *. assert (Sk : sized s (kill o d)) by (by apply kill_sized).
  assert (Sf : sized s (flag_dead op (kill o d))) by (unfold flag_dead; destruct (has_flag op _); [by apply bb_end_sized|]; destruct (has_flag op _); [by apply globals_sized | done]).
  unfold exec_op. rewrite (use_vals s a 0 _ 0 r r' Sf Fa A). apply (agree_mono _ _ _ _ (use_livelier a 0 _ 0)) in A. unfold flag_dead in *.
  destruct (has_flag op TCG_OPF_BB_END).
  - rewrite (bb_end_globals s C (kill o d) r r' Sk A). destruct (m_control mn op (map (val r') a) c w) as [w' [|l|]]; [|rewrite la_find_label | done].
    + split_and!; [done..|]. by apply (bb_clear_agree s mn (kill o d)).
    + destruct (find_label p l) as [j|]; [|done]. split_and!; [done..|]. apply (bb_clear_agree s mn (kill o d)); [done | apply D_sized | done].
  - destruct (has_flag op TCG_OPF_CALL_CLOBBER).
    + rewrite (globals_agree s C (kill o d) r r' Sk A). destruct (m_access mn op (map (val r') a) c w (globals s r')) as [[[w' gs] vs] []]; [done|].
      split_and!; [done..|]. apply set_outs_agree; [done|]. by apply set_globals_agree.
    + destruct (has_flag op TCG_OPF_SIDE_EFFECTS).
      * destruct (m_effect mn op (map (val r') a) c w) as [w' vs]. split_and!; [done..|]. by apply set_outs_agree.
      * split_and!; [done..|]. by apply set_outs_agree.
Qed.

Lemma exec_nop q pc ps r w : q !! pc = Some (nop_of ps) -> exec s mn q pc r w = Next (S pc) r w.
Proof. intros E. unfold exec. rewrite E. by destruct ps. Qed.
Lemma pure_flags op : has_flag op TCG_OPF_SIDE_EFFECTS = false -> has_flag op TCG_OPF_BB_END = false /\ has_flag op TCG_OPF_CALL_CLOBBER = false.
Proof. by destruct op. Qed.

Lemma op_sim pc op o a c r r' w : ordinary op -> p !! pc = Some (IOp op o a c) -> Forall (temp_ok s) o -> Forall (temp_ok s) a -> agree (D pc) r r' ->
  step_rel p (exec s mn p pc r w) (exec s mn p' pc r' w).
Proof.
  intros O E Fo Fa A. destruct (la_lookup p pc _ E) as [E' _]. rewrite (dead_before_step p pc _ E) in A. rewrite (ordinary_la s _ _ _ _ _ O) in *.
  rewrite (ordinary_exec s mn p pc _ _ _ _ _ _ O E). unfold la_other in *. destruct (_ && _ && _) eqn:Eu.
  - rewrite (exec_nop p' pc _ r' w E'). apply andb_prop in Eu as [[En%negb_true_iff _]%andb_prop Ed].
    destruct (pure_flags op En) as [H1 H2]. unfold exec_op. rewrite H1, H2, En. split_and!; [done..|]. by apply set_outs_dead; [apply (temps_nonneg s)|..].
  - rewrite (ordinary_exec s mn p' pc _ _ _ _ _ _ O E'). by apply kept_sim.
Qed.

Lemma exec_sim pc r r' w : agree (D pc) r r' -> step_rel p (exec s mn p pc r w) (exec s mn p' pc r' w).
Proof.
  intros A. destruct (p !! pc) as [ins|] eqn:E; [|unfold exec; by rewrite E, la_lookup_None].
  pose proof (Forall_lookup_1 _ _ _ _ F E) as I. destruct ins as [o a fl|raw|op o a c]; [by eapply call_sim| |].
  - destruct (la_lookup p pc _ E) as [E' _]. rewrite (dead_before_step p pc _ E) in A. unfold exec. rewrite E, E'. done.
  - destruct I as (_ & _ & _ & _ & _ & Fo & Fa). destruct (ordinary_dec op) as [O|K]; [by eapply op_sim|].
    destruct (la_lookup p pc _ E) as [E' _]. rewrite (dead_before_step p pc _ E) in A. unfold exec. rewrite E, E'.
    destruct K as [-> | [-> | [-> | ->]]]; [| done..|]; (split_and!; [done..|]).
    + apply (bb_clear_agree s mn (D (S pc))); [apply D_sized.. | done].
    + apply set_outs_agree; [by apply (temps_nonneg s) | done].
Qed.

Lemma run_sim n pc r r' w : agree (D pc) r r' -> run s mn n p pc r w = run s mn n p' pc r' w.
Proof.
  revert pc r r' w. induction n as [|n IH]; intros pc r r' w A; [done|]. cbn. pose proof (exec_sim pc r r' w A) as H.
  destruct (exec s mn p pc r w), (exec s mn p' pc r' w); cbn in H; [|done..|by subst]. destruct H as (-> & -> & A'). by apply IH.
Qed.
(** Two runs of one block need only agree on what is live. *)
Lemma run_agree n pc r r' w : agree (D pc) r r' -> run s mn n p pc r w = run s mn n p pc r' w.
Proof. intros A. rewrite (run_sim n pc r r' w A). symmetry. by apply run_sim. Qed.
End Preserve.

(** ** What the pass leaves *)

Lemma la_from_shape s d p : Forall2 (fun i i' => i' = i \/ i' = nop_of (params_of i)) p (la_from s d p).1.1.
Proof.
  induction p as [|i p IH]; [done|]. rewrite la_from_cons. destruct (la_from s d p) as [[p' d1] ia]. cbn in IH.
  assert (H : (la_insn s d1 i).1.1 = i \/ (la_insn s d1 i).1.1 = nop_of (params_of i)).
  { destruct i as [o a fl|raw|op o a c]; [| by left|].
    - cbn [la_insn]. destruct (_ && _); [by right | by left].
    - destruct (ordinary_dec op) as [O|K]; [|left; by destruct K as [-> | [-> | [-> | ->]]]].
      rewrite (ordinary_la _ _ _ _ _ _ O). unfold la_other. destruct (_ && _ && _); [by right | by left]. }
  destruct (la_insn s d1 i) as [[i' d2] x]. by constructor.
Qed.

Lemma start_sized s : sized s (replicate (length (temp_local s)) true).
Proof. unfold sized. by rewrite length_replicate. Qed.

(** C10: liveness analysis ends normally on the buffers of every well-formed
    block, only overwrites operations by operations that do nothing, in place
    and over the same words, and the block it leaves behaves like the one it
    was given: from every machine state, a run of any number of steps has the
    same outcome, for any meaning of the operations in which the functions
    called respect the flags of the calls. *)
Theorem liveness_preserves {W} (s : TCGContext) (mn : Meaning W) (p : list Insn) :
  CallFlags mn -> ctx_ok s -> Forall (insn_ok s) p ->
  exists p' ia, tcg_liveness_analysis s (map opcode_of p) (enc p) = Ok (map opcode_of p', enc p', ia) /\
    Forall2 (fun i i' => i' = i \/ i' = nop_of (params_of i)) p p' /\
    forall n r w, run s mn n p 0 r w = run s mn n p' 0 r w.
Proof.
  intros CF C F. pose proof (liveness_refines s C p F) as H. unfold la_prog in H. pose proof (start_sized s) as S0. set (d0 := replicate _ true) in *.
  pose proof (la_from_shape s d0 p) as Sh. pose proof (fun n r w => run_sim s mn C CF d0 S0 p F n 0 r r w (agree_refl _ _)) as R.
  destruct (la_from s d0 p) as [[p' d'] ia]. by exists p', ia.
Qed.

Definition inputs_of (i : Insn) : list Z := match i with ICall _ a _ => a | INopn _ => [] | IOp _ _ a _ => a end.
Definition outputs_of (i : Insn) : list Z := match i with ICall o _ _ => o | INopn _ => [] | IOp _ o _ _ => o end.
Definition ends_block (i : Insn) : bool := match i with IOp op _ _ _ => has_flag op TCG_OPF_BB_END | _ => false end.

Lemma use_bits a i d x j : 0 <= i -> Z.testbit (use a i d x).2 j = true -> Z.testbit x j = true \/
  exists t, i <= j /\ a !! Z.to_nat (j - i) = Some t /\ t <> TCG_CALL_DUMMY_ARG /\ exists d', livelier d' d /\ dead d' t = true.
Proof.
  revert i d x. induction a as [|t a IH]; intros i d x Hi H; [by left|]. cbn in H.
  assert (Nx : forall d' x', livelier d' d -> Z.testbit (use a (i + 1) d' x').2 j = true -> Z.testbit x' j = true \/
    exists u, i <= j /\ (t :: a) !! Z.to_nat (j - i) = Some u /\ u <> TCG_CALL_DUMMY_ARG /\ exists d', livelier d' d /\ dead d' u = true).
  { intros d' x' L H'. destruct (IH (i + 1) d' x' ltac:(lia) H') as [|(u & Hj & E & N & d'' & L' & Hd)]; [by left|]. right. exists u.
    split; [lia|]. replace (Z.to_nat (j - i)) with (S (Z.to_nat (j - (i + 1)))) by lia. split_and!; [done..|]. exists d''. split; [|done]. intros k Hk. by apply L', L. }
  destruct (Z.eqb_spec t TCG_CALL_DUMMY_ARG) as [|N]; [apply (Nx d x); [by intros ? | done]|].
  apply Nx in H as [H|]; [|by right|apply insert_false_livelier]. destruct (dead d t) eqn:Ed; [|by left].
  rewrite Z.lor_spec in H. apply orb_prop in H as [|H]; [by left|]. right. exists t. rewrite Z.shiftl_1_l in H. 
  assert (j = i) as -> by (destruct (Z.eq_dec j i); [done|]; rewrite Z.pow2_bits_false in H by lia; done).
  rewrite Z.sub_diag. split_and!; [lia | done..|]. exists d. split; [by intros ? | done].
Qed.

(** The temporaries dead between the results and the inputs of an instruction. *)
Definition mid_dead (s : TCGContext) (i : Insn) (d : list bool) : list bool :=
  match i with
  | ICall o _ fl => if negb (nz (Z.land fl TCG_CALL_CONST)) then globals_live s (kill o d) else kill o d
  | INopn _ => d
  | IOp op o _ _ => flag_dead s op (kill o d)
  end.

Lemma la_insn_iargs s d i m : (la_insn s d i).2 = Some m -> m = u16 (use (inputs_of i) 0 (mid_dead s i d) 0).2.
Proof.
  destruct i as [o a fl|raw|op o a c]; [| done|].
  - cbn [la_insn]. destruct (_ && _); [done|]. by intros [= <-].
  - destruct (ordinary_dec op) as [O|K]; [|by destruct K as [-> | [-> | [-> | ->]]]].
    rewrite (ordinary_la _ _ _ _ _ _ O). unfold la_other. destruct (_ && _ && _); [done|]. by intros [= <-].
Qed.

Lemma kill_dead o d t : 0 <= t -> Forall (fun t => 0 <= t) o -> dead (kill o d) t = true -> t ∈ o \/ d !! Z.to_nat t <> Some false.
Proof.
  intros T F Hd. destruct (decide (t ∈ o)) as [|N]; [by left|]. right. intros E. apply dead_lookup in Hd.
  pose proof (proj2 (kill_live o d (Z.to_nat t) F)) as H. rewrite Z2Nat.id in H by done. rewrite H in Hd; done.
Qed.

Lemma mid_dead_out s i d t : 0 <= t -> ends_block i = false -> Forall (fun t => 0 <= t) (outputs_of i) -> dead (mid_dead s i d) t = true ->
  t ∈ outputs_of i \/ d !! Z.to_nat t <> Some false.
Proof.
  intros T B F Hd. assert (G : forall e, dead (globals_live s e) t = true -> dead e t = true).
  { intros e H. apply dead_lookup in H. unfold globals_live in H. rewrite list_lookup_imap in H. unfold dead.
    destruct (e !! Z.to_nat t); [|done]. cbn in *. injection H as H. by destruct (Z.of_nat (Z.to_nat t) <? nb_globals s). }
  destruct i as [o a fl|raw|op o a c]; cbn in *.
  - destruct (negb _); [apply G in Hd|]; by apply kill_dead.
  - right. apply dead_lookup in Hd. congruence.
  - unfold flag_dead in Hd. rewrite B in Hd. destruct (has_flag op TCG_OPF_CALL_CLOBBER); [apply G in Hd|]; by apply kill_dead.
Qed.

Lemma insn_temps s i : insn_ok s i -> Forall (arg_ok s) (inputs_of i) /\ Forall (fun t => 0 <= t) (outputs_of i).
Proof.
  destruct i as [o a fl|raw|op o a c]; cbn [insn_ok inputs_of outputs_of]; [|done|].
  - intros (_ & _ & Fo & Fa). split; [done | by apply (temps_nonneg s)].
  - intros (_ & _ & _ & _ & _ & Fo & Fa). split; [by apply temps_args | by apply (temps_nonneg s)].
Qed.

Lemma dead_antitone d' d t : livelier d' d -> dead d' t = true -> is_Some (d !! Z.to_nat t) -> dead d t = true.
Proof.
  intros L H [b E]. apply dead_lookup in H. unfold dead. rewrite E. destruct b; [done|]. rewrite (L _ E) in H. done.
Qed.

Lemma mid_sized s i d : sized s d -> sized s (mid_dead s i d).
Proof.
  intros Sd. destruct i as [o a fl|raw|op o a c]; cbn; [|done|].
  - destruct (negb _); [apply globals_sized|]; by apply kill_sized.
  - unfold flag_dead. destruct (has_flag op _); [by apply bb_end_sized, kill_sized|]. destruct (has_flag op _); [apply globals_sized|]; by apply kill_sized.
Qed.

(** An input that is marked dead. *)
Lemma dead_bit s d i m j : sized s d -> insn_ok s i -> (la_insn s d i).2 = Some m -> Z.testbit m j = true ->
  exists t, inputs_of i !! Z.to_nat j = Some t /\ temp_ok s t /\ dead (mid_dead s i d) t = true.
Proof.
  intros Sd I Em%la_insn_iargs Hj. rewrite Em in Hj. unfold u16 in Hj. destruct (Z.lt_ge_cases j 0); [by rewrite Z.testbit_neg_r in Hj|].
  rewrite testbit_mod_pow2 in Hj by lia. apply andb_prop in Hj as [_ Hj].
  apply use_bits in Hj as [Hj|(t & _ & Et & N & d' & L & Hd)]; [by rewrite Z.bits_0 in Hj | | done]. rewrite Z.sub_0_r in Et. exists t.
  destruct (insn_temps s i I) as [Fa _]. pose proof (Forall_lookup_1 _ _ _ _ Fa Et) as [|T]; [done|]. split_and!; [done..|].
  apply (dead_antitone d'); [done..|]. destruct (sized_in s _ t (mid_sized s i d Sd) T) as (b & -> & _). done.
Qed.

(** the input bits the pass computes for an operation are sound.  An input
    of an operation that does not end a basic block is marked dead only when
    the operation overwrites it or the rest of the block does not depend on
    its value; one of an operation that ends a basic block only when it is
    neither global nor local, so that its value ends with the basic block. *)
Theorem dead_inputs_sound {W} (s : TCGContext) (mn : Meaning W) (p : list Insn) opc params ia pc i m j :
  CallFlags mn -> ctx_ok s -> Forall (insn_ok s) p -> tcg_liveness_analysis s (map opcode_of p) (enc p) = Ok (opc, params, ia) ->
  p !! pc = Some i -> ia !! pc = Some (Some m) -> Z.testbit m j = true ->
  exists t, inputs_of i !! Z.to_nat j = Some t /\
    if ends_block i then survives s t = false
    else t ∈ outputs_of i \/ forall n r w v, run s mn n p (S pc) (upd r t v) w = run s mn n p (S pc) r w.
Proof.
  intros CF C F E Ei Em Hj. rewrite (liveness_refines s C p F) in E. unfold la_prog in E. pose proof (start_sized s) as S0. set (d0 := replicate _ true) in *.
  destruct (la_lookup s d0 p pc i Ei) as [_ H]. assert (Eia : (la_from s d0 p).2 = ia) by (destruct (la_from s d0 p) as [[? ?] ?]; by injection E as _ _ <-).
  rewrite Eia, Em in H. injection H as H. pose proof (dead_before_sized s d0 p (S pc) S0 F) as Sd. set (d := dead_before s d0 p (S pc)) in *.
  pose proof (Forall_lookup_1 _ _ _ _ F Ei) as I. destruct (dead_bit s d i m j Sd I (eq_sym H) Hj) as (t & Et & T & Hd). exists t. split; [done|].
  destruct (ends_block i) eqn:B.
  - destruct i as [| |op o a c]; try done. cbn in Hd, B. unfold flag_dead in Hd. rewrite B in Hd. apply dead_lookup in Hd.
    unfold tcg_la_bb_end in Hd. rewrite list_lookup_imap in Hd. unfold survives. destruct T as [T _]. rewrite Z2Nat.id in Hd by done.
    destruct (kill o d !! _); [|done]. cbn in Hd. destruct (t <? nb_globals s); [done|]. cbn. injection Hd as Hd. by apply negb_true_iff in Hd.
  - destruct (insn_temps s i I) as [_ Fo]. destruct (mid_dead_out s i d t (proj1 T) B Fo Hd) as [|N]; [by left|]. right. intros n r w v.
    apply (run_agree s mn C CF d0 S0 p F). intros k Hk. unfold upd. destruct (Z.eqb_spec (Z.of_nat k) t) as [<-|]; [|done]. by rewrite Nat2Z.id in N.
Qed.

End TcgSem.
