(* ===== verification/TcgMask.v ===== *)
(** * Registers a block touches

    The search in the table of helpers, and the masks S2E computes for a block
    after the liveness pass ([Tcg.tcg_calc_regmask]): a block that touches no
    symbolic register, as S2EExecutor.cpp decides before native execution, runs
    the same whatever these registers hold, and leaves them alone. *)

From stdpp Require Import list sets sorting.
From Stdlib Require Import ZifyBool.
From S2P Require Import Prelude TbCache Tcg TcgLive TcgSem.

Module TcgMask.
Import Tcg TcgLive TcgSem.

(** ** The search *)

Definition sorted (helpers : list TCGHelperInfo) : Prop :=
  forall i j x y, (i < j)%nat -> helpers !! i = Some x -> helpers !! j = Some y -> hi_func x < hi_func y.

Section Find.
Context (helpers : list TCGHelperInfo).

(** The search ends, with an entry of the function it was asked for or with
    none. *)
Lemma find_loop_total fuel v lo hi : 0 <= lo -> hi < Z.of_nat (length helpers) -> Z.max 0 (hi - lo + 1) < Z.of_nat fuel ->
  exists r, find_helper_loop fuel helpers v lo hi = Ok r /\ match r with Some th => th ∈ helpers /\ hi_func th = v | None => True end.
Proof.
  revert lo hi. induction fuel as [|fuel IH]; intros lo hi Hl Hh Hf; [lia|]. cbn [find_helper_loop].
  destruct (Z.leb_spec lo hi) as [L|L]; [|by exists None]. rewrite Z.shiftr_div_pow2 by lia. change (2 ^ 1) with 2. set (m := (lo + hi) / 2).
  assert (Hm : lo <= m <= hi) by (unfold m; split; [apply Z.div_le_lower_bound | apply Z.div_le_upper_bound]; lia).
  destruct (lookup_lt_is_Some_2 helpers (Z.to_nat m)) as [th E]; [lia|]. rewrite E.
  destruct (Z.eqb_spec (hi_func th) v) as [Ev|]; [exists (Some th); split; [done|]; split; [by eapply list_elem_of_lookup_2 | done]|].
  destruct (v <? hi_func th); apply IH; lia.
Qed.

Lemma find_loop_found fuel v lo hi k th : sorted helpers -> 0 <= lo -> hi < Z.of_nat (length helpers) -> Z.max 0 (hi - lo + 1) < Z.of_nat fuel ->
  lo <= Z.of_nat k <= hi -> helpers !! k = Some th -> hi_func th = v -> find_helper_loop fuel helpers v lo hi = Ok (Some th).
Proof.
  intros So. revert lo hi. induction fuel as [|fuel IH]; intros lo hi Hl Hh Hf Hk Ek Ev; [lia|]. cbn [find_helper_loop].
  destruct (Z.leb_spec lo hi) as [L|L]; [|lia]. rewrite Z.shiftr_div_pow2 by lia. change (2 ^ 1) with 2. set (m := (lo + hi) / 2).
  assert (Hm : lo <= m <= hi) by (unfold m; split; [apply Z.div_le_lower_bound | apply Z.div_le_upper_bound]; lia).
  destruct (lookup_lt_is_Some_2 helpers (Z.to_nat m)) as [x E]; [lia|]. rewrite E.
  assert (Tri : (k < Z.to_nat m)%nat /\ hi_func th < hi_func x \/ k = Z.to_nat m \/ (Z.to_nat m < k)%nat /\ hi_func x < hi_func th).
  { destruct (Nat.lt_trichotomy k (Z.to_nat m)) as [K|[K|K]]; [left | by right; left | right; right]; (split; [done|]); by eapply So. }
  destruct Tri as [[K H]|[->|[K H]]].
  - destruct (Z.eqb_spec (hi_func x) v); [lia|]. destruct (Z.ltb_spec v (hi_func x)); [|lia]. apply IH; done || lia.
  - assert (x = th) as -> by congruence. rewrite Ev, Z.eqb_refl. done.
  - destruct (Z.eqb_spec (hi_func x) v); [lia|]. destruct (Z.ltb_spec v (hi_func x)); [lia|]. apply IH; done || lia.
Qed.

End Find.

Lemma helper_le_iff x y : helper_le x y <-> hi_func x <= hi_func y.
Proof. unfold helper_le, helper_cmp. destruct (Z.ltb_spec (hi_func x) (hi_func y)); [lia|]. destruct (Z.eqb_spec (hi_func x) (hi_func y)); lia. Qed.

Lemma qsort_sorted l : NoDup (map hi_func l) -> sorted (qsort_helpers l).
Proof.
  intros N. unfold qsort_helpers. set (R := helper_le).
  assert (Tr : Transitive R) by (intros x y z; unfold R; rewrite !helper_le_iff; lia). assert (To : Total R) by (intros x y; unfold R; rewrite !helper_le_iff; lia).
  pose proof (StronglySorted_merge_sort R l) as H. pose proof (merge_sort_Permutation R l) as P. rewrite <- P in N. revert H N. set (k := merge_sort R l). clearbody k. clear P.
  intros H N i j x y Hij Ex Ey. assert (L : R x y).
  { clear N. revert i j Hij Ex Ey. induction H as [|z k H IH Hz]; intros i j Hij Ex Ey; [done|]. destruct j as [|j]; [lia|]. cbn in Ey.
    destruct i as [|i]; [|by apply (IH i j); [lia|..]]. injection Ex as ->. by eapply Forall_lookup_1. }
  unfold R in L. rewrite helper_le_iff in L. assert (hi_func x <> hi_func y); [|lia]. intros E.
  assert (i = j); [|lia]. eapply (NoDup_lookup _ _ _ (hi_func x) N); rewrite list_lookup_fmap; [by rewrite Ex | by rewrite Ey, E].
Qed.

(** Functions are registered once; a table marked as sorted is. *)
Record table_ok (t : HelperTable) : Prop := {
  tb_once : NoDup (map hi_func (helpers t));
  tb_order : helpers_sorted t = true -> sorted (helpers t)
}.

Lemma in_order_ok t : table_ok t -> table_ok (helpers_in_order t) /\ sorted (helpers (helpers_in_order t)) /\ helpers (helpers_in_order t) ≡ₚ helpers t.
Proof.
  intros [N O]. unfold helpers_in_order. destruct (helpers_sorted t) eqn:E; cbn [negb]; [split_and!; [split; [done | intros _; by apply O] | by apply O | done]|].
  pose proof (qsort_sorted _ N) as So. pose proof (merge_sort_Permutation helper_le (helpers t)) as P. change (merge_sort _ _) with (qsort_helpers (helpers t)) in P.
  split_and!; [|done..]. split; [cbn; by rewrite P | done].
Qed.
Lemma find_helper_again t v : tcg_find_helper (helpers_in_order t) v = tcg_find_helper t v.
Proof. unfold tcg_find_helper, helpers_in_order. destruct (helpers_sorted t) eqn:E; cbn; [by rewrite E | done]. Qed.
Lemma register_ok t func rm wm am : table_ok t -> helpers_sorted t = false -> ~ func ∈ map hi_func (helpers t) ->
  table_ok (tcg_register_helper_with_reg_mask t func rm wm am) /\ helpers_sorted (tcg_register_helper_with_reg_mask t func rm wm am) = false.
Proof.
  intros [N O] E Nf. split; [|done]. split; cbn; [|by rewrite E]. rewrite map_app. apply list.NoDup_app. split_and!; [done | set_solver | apply NoDup_singleton].
Qed.

Lemma in_order_perm t : helpers (helpers_in_order t) ≡ₚ helpers t.
Proof. unfold helpers_in_order. destruct (helpers_sorted t); [done|]. apply merge_sort_Permutation. Qed.
Lemma find_helper_total t v : exists r, tcg_find_helper t v = Ok r /\ match r with Some th => th ∈ helpers t /\ hi_func th = v | None => True end.
Proof.
  destruct (find_loop_total (helpers (helpers_in_order t)) (S (length (helpers (helpers_in_order t)))) v 0 (Z.of_nat (length (helpers (helpers_in_order t))) - 1)) as (r & E & H); [lia..|].
  exists r. split; [done|]. destruct r; [|done]. by rewrite in_order_perm in H.
Qed.
Lemma reg_mask_total t v : ~ 0 ∈ map hi_func (helpers t) -> exists fr fw fa, tcg_helper_get_reg_mask t v = Ok (fr, fw, fa).
Proof.
  intros N. unfold tcg_helper_get_reg_mask. destruct (find_helper_total t v) as ([th|] & -> & H); cbn [res_bind]; [|eauto].
  destruct (Z.eqb_spec v 0) as [->|]; [|eauto]. destruct N. destruct H as [H <-]. by apply list_elem_of_fmap_2.
Qed.

(** The search ends with the entry of the function when it is registered
    and with none otherwise, in the table as registration built it or as an
    earlier search has sorted it. *)
Theorem find_helper_correct t v : table_ok t -> exists r, tcg_find_helper t v = Ok r /\ tcg_find_helper (helpers_in_order t) v = Ok r /\
  forall th, r = Some th <-> th ∈ helpers t /\ hi_func th = v.
Proof.
  intros T. destruct (in_order_ok t T) as (_ & So & P). rewrite find_helper_again. unfold tcg_find_helper. set (l := helpers (helpers_in_order t)) in *.
  destruct (find_loop_total l (S (length l)) v 0 (Z.of_nat (length l) - 1)) as (r & E & H); [lia..|].
  exists r. split_and!; [done..|]. intros th. rewrite <- P. split; [by intros ->|]. intros [[k Ek]%list_elem_of_lookup Ev]. pose proof (lookup_lt_Some _ _ _ Ek).
  rewrite (find_loop_found l _ v 0 _ k th So) in E; [by injection E as <- | lia..| done | done].
Qed.

(** ** The masks on instructions *)

(** The function of a call is its last argument. *)
Definition fn_of (a : list Z) : option Z := a !! (length a - 1)%nat.

Lemma len_zero {A} (l : list A) : len l = 0 -> l = [].
Proof. destruct l; [done|]. rewrite len_cons. pose proof (len_nonneg l). lia. Qed.
Lemma len_one {A} (l : list A) : len l = 1 -> exists x, l = [x].
Proof. destruct l as [|x l]; [done|]. rewrite len_cons. intros H. exists x. f_equal. apply len_zero. lia. Qed.

Section Masks.
Context (s : TCGContext) (helpers : HelperTable).

Definition in_mask (wm : Z) (a : list Z) (rm : Z) : Z :=
  foldl (fun rm idx => if (idx <? nb_globals s) && (Z.land wm (global_bit idx) =? 0) then Z.lor rm (global_bit idx) else rm) rm a.
Definition out_mask (o : list Z) (wm : Z) : Z := foldl (fun wm idx => if idx <? nb_globals s then Z.lor wm (global_bit idx) else wm) wm o.
Definition forget (o c : list Z) : list Z := foldl (fun c t => <[Z.to_nat t := 0]> c) c o.
Definition is_movi (op : TCGOpcode) : bool := bool_decide (op = INDEX_op_movi_i32 \/ op = INDEX_op_movi_i64).
Definition const_after (op : TCGOpcode) (o k c : list Z) : list Z := if is_movi op then <[Z.to_nat (hd 0 o) := hd 0 k]> c else forget o c.

(** The masks and the constants so far. *)
Definition Masks : Type := Z * Z * Z * list Z.

Definition mask_insn (i : Insn) (m : Masks) : Res Masks :=
  let '(rm, wm, am, c) := m in
  match i with
  | INopn _ => Ok m
  | ICall o a fl =>
      let* (fr, fw, fa) := tcg_helper_get_reg_mask helpers (default 0 (fn_of a ≫= fun t => c !! Z.to_nat t)) in
      Ok (in_mask (Z.lor wm fw) a (Z.lor rm fr), out_mask o (Z.lor wm fw), Z.lor am fa, forget o c)
  | IOp op o a k => Ok (in_mask wm a rm, out_mask o wm, am, const_after op o k c)
  end.
Fixpoint mask_prog (p : list Insn) (m : Masks) : Res Masks :=
  match p with
  | [] => Ok m
  | i :: p => let* m := mask_insn i m in mask_prog p m
  end.

Definition mask_at (m : Masks) (args : Z) : MaskState := let '(rm, wm, am, c) := m in mkMaskState rm wm am c args.
Definition csize (c : list Z) : Prop := len c = nb_globals s + nb_temps s.

Lemma forget_size o c : csize c -> csize (forget o c).
Proof. revert c. induction o as [|t o IH]; intros c L; [done|]. cbn. apply IH. unfold csize, len. by rewrite length_insert. Qed.
Lemma const_after_size op o k c : csize c -> csize (const_after op o k c).
Proof. intros L. unfold const_after. destruct (is_movi op); [unfold csize, len; by rewrite length_insert | by apply forget_size]. Qed.

Context (C : ctx_ok s).

Lemma set_const_ok c t v : csize c -> temp_ok s t -> set_const c t v = Ok (<[Z.to_nat t := v]> c).
Proof.
  intros L [T0 T1]. destruct C as [G _]. unfold set_const, set_arg. unfold csize, len in L. 
  destruct (Z.ltb_spec t 0); [lia|]. destruct (Z.leb_spec (Z.of_nat (length c)) t); [lia|]. done.
Qed.
Lemma forget_outputs_ok pre o post c : csize c -> Forall (temp_ok s) o -> forget_outputs (pre ++ o ++ post) (len pre) (length o) c = Ok (forget o c).
Proof.
  revert pre c. induction o as [|t o IH]; intros pre c L F; [done|]. apply Forall_cons_1 in F as [T F]. cbn [length forget_outputs app].
  rewrite arg_at_mid. cbn [res_bind]. rewrite set_const_ok by done. cbn [res_bind forget foldl].
  assert (L' : csize (<[Z.to_nat t := 0]> c)) by (unfold csize, len; by rewrite length_insert).
  specialize (IH (pre ++ [t]) _ L' F). rewrite <- app_assoc, len_app in IH. exact IH.
Qed.
Lemma in_mask_ok pre a post wm rm : mask_inputs s (pre ++ a ++ post) (len pre) (length a) wm rm = Ok (in_mask wm a rm).
Proof.
  revert pre rm. induction a as [|t a IH]; intros pre rm; [done|]. cbn [length mask_inputs app]. rewrite arg_at_mid. cbn [res_bind in_mask foldl].
  specialize (IH (pre ++ [t])). rewrite <- app_assoc, len_app in IH. apply IH.
Qed.
Lemma out_mask_ok pre o post wm : mask_outputs s (pre ++ o ++ post) (len pre) (length o) wm = Ok (out_mask o wm).
Proof.
  revert pre wm. induction o as [|t o IH]; intros pre wm; [done|]. cbn [length mask_outputs app]. rewrite arg_at_mid. cbn [res_bind out_mask foldl].
  specialize (IH (pre ++ [t])). rewrite <- app_assoc, len_app in IH. apply IH.
Qed.

(** The part of [mask_op] after the counts are known. *)
Lemma mask_tail_ok pre o a post c rm wm n m : csize c -> Forall (temp_ok s) o -> n = len o -> m = len a ->
  forget_outputs (pre ++ o ++ a ++ post) (len pre) (Z.to_nat n) c = Ok (forget o c) /\
  mask_inputs s (pre ++ o ++ a ++ post) (len pre + n) (Z.to_nat m) wm rm = Ok (in_mask wm a rm) /\
  mask_outputs s (pre ++ o ++ a ++ post) (len pre) (Z.to_nat n) wm = Ok (out_mask o wm).
Proof.
  intros L F -> ->. replace (Z.to_nat (len o)) with (length o) by (unfold len; lia). replace (Z.to_nat (len a)) with (length a) by (unfold len; lia). split_and!; [by apply forget_outputs_ok | | apply out_mask_ok].
  rewrite <- (len_app pre o). rewrite (app_assoc pre). apply in_mask_ok.
Qed.

(** A call names its function. *)
Definition call_named (i : Insn) : Prop := match i with ICall _ a _ => exists t, fn_of a = Some t /\ temp_ok s t | _ => True end.

Lemma temp_const c t : csize c -> temp_ok s t -> exists v, c !! Z.to_nat t = Some v /\ arg_at c t = Ok v /\ t <? nb_globals s + nb_temps s = true.
Proof.
  intros L [T0 T1]. destruct C as [G _]. unfold csize, len in L. destruct (lookup_lt_is_Some_2 c (Z.to_nat t)) as [v E]; [lia|].
  exists v. unfold arg_at. destruct (Z.ltb_spec t 0); [lia|]. rewrite E. split_and!; [done..|lia].
Qed.

Lemma mask_call_ok pre o a fl post rm wm am c : csize c -> insn_ok s (ICall o a fl) -> call_named (ICall o a fl) ->
  mask_op s helpers (pre ++ params_of (ICall o a fl) ++ post) INDEX_op_call (mask_at (rm, wm, am, c) (len pre)) =
  let* m := mask_insn (ICall o a fl) (rm, wm, am, c) in Ok (mask_at m (len pre + len (params_of (ICall o a fl)))).
Proof.
  intros L (Lo & La & Fo & _) (t & Et & T). set (P := params_of (ICall o a fl)). pose proof (len_nonneg o). pose proof (len_nonneg a).
  destruct (count_word (len o) (len a)) as [Co Ca]; [lia | lia|]. set (h := Z.lor (Z.shiftl (len o) 16) (len a)) in *. set (tl := [fl; len o + len a + 3]).
  assert (Eo : pre ++ P ++ post = (pre ++ [h]) ++ o ++ a ++ (tl ++ post)) by (unfold P; cbn [params_of]; fold h tl; rewrite <- !app_assoc; cbn; by rewrite <- !app_assoc).
  assert (LP : len P = len o + len a + 3) by (unfold P, len; cbn [params_of length]; rewrite !length_app; cbn [length]; lia).
  assert (Lh : len pre + 1 = len (pre ++ [h])) by (by rewrite len_app).
  assert (E1 : arg_at (pre ++ P ++ post) (len pre) = Ok h) by (apply arg_at_mid).
  assert (Hn : (length a <> 0)%nat) by (intros Ha; unfold fn_of in Et; apply lookup_lt_Some in Et; lia).
  assert (E2 : arg_at (pre ++ P ++ post) (len pre + 1 + len o + len a - 1) = Ok t).
  { rewrite Eo, Lh. rewrite (app_assoc (pre ++ [h])), <- (len_app (pre ++ [h]) o), <- Z.add_sub_assoc. unfold fn_of in Et. apply arg_at_app; [unfold len; lia|].
    by replace (Z.to_nat (len a - 1)) with (length a - 1)%nat by (unfold len; lia). }
  clearbody P h tl. destruct (temp_const c t L T) as (v & Ev & Ev' & Hb). unfold mask_op, mask_at. cbn [mask_args rmask wmask accesses_mem consts]. rewrite E1. cbn [res_bind]. rewrite Co, Ca. cbn -[arg_at]. rewrite E2. cbn [res_bind].
  rewrite Hb, Ev'. cbn [negb res_bind mask_insn]. rewrite Et. cbn. rewrite Ev. cbn.
  destruct (tcg_helper_get_reg_mask helpers v) as [[[fr fw] fa]|e]; [|done]. cbn. rewrite Eo, Lh.
  destruct (mask_tail_ok (pre ++ [h]) o a (tl ++ post) c (Z.lor rm fr) (Z.lor wm fw) _ _ L Fo eq_refl eq_refl) as (F1 & F2 & F3).
  rewrite bool_decide_false by (by intros [?|?]). rewrite F1. cbn [res_bind]. rewrite F2. cbn [res_bind]. rewrite F3. cbn [res_bind]. do 2 f_equal. rewrite LP, <- Lh. lia.
Qed.

Lemma mask_op_ok pre i post m : csize m.2 -> insn_ok s i -> call_named i ->
  mask_op s helpers (pre ++ params_of i ++ post) (opcode_of i) (mask_at m (len pre)) =
  let* m := mask_insn i m in Ok (mask_at m (len pre + len (params_of i))).
Proof.
  destruct m as [[[rm wm] am] c]. cbn [snd]. intros L I N. destruct i as [o a fl|raw|op o a k]; [by apply mask_call_ok| |].
  - destruct I as (Hr & E & _). cbn [params_of opcode_of mask_insn]. unfold mask_op, mask_at. cbn [mask_args].
    rewrite <- (Z.add_0_r (len pre)) at 1. rewrite (arg_at_app pre raw post 0 (len raw)) by done. cbn. done.
  - destruct I as (Nc & Nn & Lo & La & Lc & Fo & Fa). cbn [params_of opcode_of mask_insn].
    destruct (mask_tail_ok pre o a (k ++ post) c rm wm _ _ L Fo (eq_sym Lo) (eq_sym La)) as (E1 & E2 & E3).
    assert (Ep : pre ++ (o ++ a ++ k) ++ post = pre ++ o ++ a ++ k ++ post) by (by rewrite <- !app_assoc). rewrite Ep.
    assert (Lp : len (o ++ a ++ k) = nb_iargs (tcg_op_defs op) + nb_oargs (tcg_op_defs op) + nb_cargs (tcg_op_defs op)) by (rewrite !len_app; lia).
    unfold mask_op, mask_at. assert (Sel : forall X Y Z0 : Res (MaskState * Z * Z * Z), match op with INDEX_op_call => X | INDEX_op_nopn => Y | _ => Z0 end = Z0) by (by destruct op).
    rewrite Sel. cbn [res_bind mask_args consts wmask rmask]. unfold const_after, is_movi. destruct (bool_decide_reflect (op = INDEX_op_movi_i32 \/ op = INDEX_op_movi_i64)) as [M|M].
    + assert (D : tcg_op_defs op = mkTCGOpDef 1 0 1 0) by (by destruct M as [-> | ->]). rewrite D in *. cbn [nb_oargs nb_iargs nb_cargs] in *.
      destruct (len_one o Lo) as [t ->]. destruct (len_one k Lc) as [v ->]. apply len_zero in La as ->.
      apply Forall_cons_1 in Fo as [T _]. destruct (temp_const c t L T) as (_ & _ & _ & Hb). cbn [app hd] in *. rewrite arg_at_mid. cbn [res_bind].
      assert (Ev : arg_at (pre ++ t :: v :: post) (len pre + 1) = Ok v) by (by apply (arg_at_app pre [t; v] post 1)). rewrite Ev. cbn [res_bind]. rewrite Hb. cbn [negb].
      rewrite set_const_ok by done. cbn [res_bind]. rewrite E2. cbn [res_bind]. rewrite E3. cbn. done.
    + rewrite E1. cbn [res_bind]. rewrite E2. cbn [res_bind]. rewrite E3. cbn. do 2 f_equal. rewrite Lp. lia.
Qed.

Lemma mask_insn_size i m m' : csize m.2 -> mask_insn i m = Ok m' -> csize m'.2.
Proof.
  destruct m as [[[rm wm] am] c]. intros L. destruct i as [o a fl|raw|op o a k]; cbn [mask_insn].
  - destruct (tcg_helper_get_reg_mask _ _) as [[[fr fw] fa]|e]; [|done]. intros [= <-]. by apply forget_size.
  - by intros [= <-].
  - intros [= <-]. by apply const_after_size.
Qed.

Lemma mask_loop_ok pre p m : csize m.2 -> Forall (insn_ok s) p -> Forall call_named p ->
  mask_loop s helpers (pre ++ enc p) (map opcode_of p) (mask_at m (len pre)) = let* m := mask_prog p m in Ok (mask_at m (len pre + len (enc p))).
Proof.
  intros L F. revert pre m L. induction F as [|i p I F IH]; intros pre m L N; cbn [map mask_loop mask_prog]; [cbn; by rewrite Z.add_0_r|].
  apply Forall_cons_1 in N as [Ni N]. rewrite enc_cons, mask_op_ok by done. destruct (mask_insn i m) as [m'|e] eqn:E; [|done]. cbn [res_bind].
  specialize (IH (pre ++ params_of i) m' (mask_insn_size i m m' L E) N). rewrite <- app_assoc, len_app in IH. rewrite IH, len_app. by rewrite Z.add_assoc.
Qed.

(** The pass over the buffers is [mask_prog]. *)
Lemma calc_regmask_refines p : nb_globals s + nb_temps s <= TCG_MAX_TEMPS -> Forall (insn_ok s) p -> Forall call_named p ->
  tcg_calc_regmask s helpers (map opcode_of p) (enc p) =
  let* m := mask_prog p (0, 0, 0, replicate (Z.to_nat (nb_globals s + nb_temps s)) 0) in let '(rm, wm, am, _) := m in Ok (rm, wm, am).
Proof.
  intros B F N. unfold tcg_calc_regmask. destruct (Z.ltb_spec TCG_MAX_TEMPS (nb_globals s + nb_temps s)); [lia|].
  pose proof (mask_loop_ok [] p (0, 0, 0, replicate (Z.to_nat (nb_globals s + nb_temps s)) 0)) as R. cbn [app] in R. change (len (@nil Z)) with 0 in R. cbn [mask_at] in R.
  rewrite R; [|destruct C; cbn; unfold csize, len; rewrite length_replicate; lia | done..].
  destruct (mask_prog p _) as [[[[rm wm] am] c]|e]; done.
Qed.
End Masks.

(** ** Constants in temporaries *)

(** The constants temporaries hold since the last basic block began. *)
Definition known_after (k : Z -> option Z) (i : Insn) : Z -> option Z := fun t =>
  match i with
  | INopn _ => k t
  | ICall o _ _ => if bool_decide (t ∈ o) then None else k t
  | IOp op o _ c =>
      if has_flag op TCG_OPF_BB_END || bool_decide (op = INDEX_op_set_label) then None
      else if bool_decide (t ∈ o) then (if bool_decide (op = INDEX_op_movi_i64) then Some (hd 0 c) else None) else k t
  end.
Definition known_from (k : Z -> option Z) (p : list Insn) : Z -> option Z := foldl known_after k p.
Definition known_at (p : list Insn) (pc : nat) : Z -> option Z := known_from (fun _ => None) (take pc p).

(** The function of a call is a constant of its basic block, in a temporary:
    this is how [tcg_gen_helperN] emits calls. *)
Definition call_known (s : TCGContext) (k : Z -> option Z) (i : Insn) : bool :=
  match i with
  | ICall _ a _ =>
      match fn_of a with
      | Some t => (nb_globals s <=? t) && (t <? nb_temps s) && bool_decide (is_Some (k t))
      | None => false
      end
  | _ => true
  end.
Definition calls_known (s : TCGContext) (p : list Insn) : bool :=
  forallb (fun pc => match p !! pc with Some i => call_known s (known_at p pc) i | None => true end) (seq 0 (length p)).

Lemma calls_known_at s p pc i : calls_known s p = true -> p !! pc = Some i -> call_known s (known_at p pc) i = true.
Proof.
  unfold calls_known. rewrite forallb_forall. intros H E. specialize (H pc). rewrite E in H. apply H. apply in_seq. apply lookup_lt_Some in E. lia.
Qed.
Lemma calls_known_intro s p : (forall pc i, p !! pc = Some i -> call_known s (known_at p pc) i = true) -> calls_known s p = true.
Proof. intros H. apply forallb_forall. intros pc _. destruct (p !! pc) eqn:E; [by apply H | done]. Qed.
Lemma known_at_step p pc i : p !! pc = Some i -> known_at p (S pc) = known_after (known_at p pc) i.
Proof. intros E. unfold known_at, known_from. by rewrite (take_S_r _ _ _ E), foldl_app. Qed.
Lemma call_known_fn s k o a fl : call_known s k (ICall o a fl) = true -> exists t v, fn_of a = Some t /\ nb_globals s <= t /\ t < nb_temps s /\ k t = Some v.
Proof.
  cbn. destruct (fn_of a) as [t|]; [|done]. intros [[H1 H2]%andb_prop [v E]%bool_decide_eq_true]%andb_prop. exists t, v. split_and!; [done | lia | lia | done].
Qed.
Lemma calls_named s p : ctx_ok s -> calls_known s p = true -> Forall (call_named s) p.
Proof.
  intros [G _] K. apply Forall_lookup. intros pc i E. pose proof (calls_known_at s p pc i K E) as H. destruct i; try done.
  apply call_known_fn in H as (t & v & Et & H1 & H2 & _). exists t. split; [done|]. split; lia.
Qed.

(** *** The masks cover what instructions do *)

Definition bits_in (x y : Z) : Prop := forall g, Z.testbit x g = true -> Z.testbit y g = true.
#[export] Instance bits_in_preorder : PreOrder bits_in.
Proof. split; [by intros x g | intros x y z H1 H2 g Hg; by apply H2, H1]. Qed.
Lemma bits_in_lor_l x y : bits_in x (Z.lor x y).
Proof. intros g H. by rewrite Z.lor_spec, H. Qed.
Lemma bits_in_lor_r x y : bits_in y (Z.lor x y).
Proof. intros g H. by rewrite Z.lor_spec, H, orb_true_r. Qed.
#[export] Hint Resolve bits_in_lor_l bits_in_lor_r : core.

Lemma global_bit_pow g : 0 <= g < 31 -> global_bit g = 2 ^ g.
Proof.
  intros H. unfold global_bit, u64. rewrite Z.shiftl_1_l. pose proof (Z.pow_lt_mono_r 2 g 31). pose proof (Z.pow_pos_nonneg 2 g).
  rewrite s32_small by lia. apply Z.mod_small. lia.
Qed.
Lemma global_bit_test g : 0 <= g < 31 -> Z.testbit (global_bit g) g = true.
Proof. intros H. rewrite global_bit_pow by done. apply Z.pow2_bits_true. lia. Qed.
Lemma global_bit_land x g : 0 <= g < 31 -> Z.land x (global_bit g) = 0 \/ Z.testbit x g = true.
Proof.
  intros H. destruct (Z.testbit x g) eqn:E; [by right|]. left. rewrite global_bit_pow by done. apply Z.bits_inj'. intros j Hj. rewrite Z.land_spec, Z.bits_0.
  destruct (Z.eq_dec j g) as [->|]; [by rewrite E|]. rewrite Z.pow2_bits_false by lia. apply andb_false_r.
Qed.

Section Cover.
Context (s : TCGContext) (t : HelperTable) (NG : nb_globals s <= 31).

Lemma in_mask_grows wm a rm : bits_in rm (in_mask s wm a rm).
Proof. revert rm. induction a as [|g a IH]; intros rm; cbn; [done|]. destruct (_ && _); [|apply IH]. etrans; [|apply IH]. auto. Qed.
Lemma out_mask_grows o wm : bits_in wm (out_mask s o wm).
Proof. revert wm. induction o as [|g o IH]; intros wm; cbn; [done|]. destruct (_ <? _); [|apply IH]. etrans; [|apply IH]. auto. Qed.
Lemma in_mask_covers wm a rm g : g ∈ a -> 0 <= g < nb_globals s -> Z.testbit (in_mask s wm a rm) g = true \/ Z.testbit wm g = true.
Proof.
  intros Hg G. revert rm. induction a as [|x a IH]; intros rm; [by apply elem_of_nil in Hg|]. cbn. apply elem_of_cons in Hg as [<-|Hg]; [|by apply IH].
  destruct (global_bit_land wm g) as [E|E]; [lia | | by right]. left. destruct (Z.ltb_spec g (nb_globals s)); [|lia]. rewrite E. cbn.
  apply in_mask_grows, bits_in_lor_r. apply global_bit_test. lia.
Qed.
Lemma out_mask_covers o wm g : g ∈ o -> 0 <= g < nb_globals s -> Z.testbit (out_mask s o wm) g = true.
Proof.
  intros Hg G. revert wm. induction o as [|x o IH]; intros wm; [by apply elem_of_nil in Hg|]. cbn. apply elem_of_cons in Hg as [<-|Hg]; [|by apply IH].
  destruct (Z.ltb_spec g (nb_globals s)); [|lia]. apply out_mask_grows, bits_in_lor_r. apply global_bit_test. lia.
Qed.

(** What an instruction does is in the masks, when [k] is known before it. *)
Definition covered (k : Z -> option Z) (rm wm : Z) (i : Insn) : Prop :=
  (forall g, g ∈ inputs_of i -> 0 <= g < nb_globals s -> Z.testbit rm g = true \/ Z.testbit wm g = true) /\
  (forall g, g ∈ outputs_of i -> 0 <= g < nb_globals s -> Z.testbit wm g = true) /\
  (forall o a fl f v, i = ICall o a fl -> fn_of a = Some f -> 0 <= f -> k f = Some v ->
    exists fr fw fa, tcg_helper_get_reg_mask t v = Ok (fr, fw, fa) /\ bits_in fr rm /\ bits_in fw wm).

Lemma covered_grows k rm wm rm' wm' i : bits_in rm rm' -> bits_in wm wm' -> covered k rm wm i -> covered k rm' wm' i.
Proof.
  intros R X (H1 & H2 & H3). split_and!.
  - intros g Hg G. destruct (H1 g Hg G); [left; by apply R | right; by apply X].
  - intros g Hg G. by apply X, H2.
  - intros o a fl f v Ei Ef Hf Ek. destruct (H3 o a fl f v Ei Ef Hf Ek) as (fr & fw & fa & E & S1 & S2). exists fr, fw, fa. split_and!; [done | by etrans..].
Qed.

Definition holds (k : Z -> option Z) (c : list Z) : Prop := forall f v, 0 <= f -> k f = Some v -> c !! Z.to_nat f = Some v.

Lemma forget_other o c f : Forall (fun g => 0 <= g) o -> 0 <= f -> ~ f ∈ o -> forget o c !! Z.to_nat f = c !! Z.to_nat f.
Proof.
  intros F Hf. revert c. induction F as [|g o G F IH]; intros c N; [done|]. cbn. unfold forget in IH. rewrite IH by set_solver.
  apply list_lookup_insert_ne. intros E. apply N. assert (f = g) as -> by lia. set_solver.
Qed.

Lemma holds_step k c i rm wm am m' : csize s c -> ctx_ok s -> insn_ok s i -> holds k c -> mask_insn s t i (rm, wm, am, c) = Ok m' -> holds (known_after k i) m'.2.
Proof.
  intros L C I H E f v Hf Ek. destruct (insn_temps s i I) as [_ Fo]. destruct i as [o a fl|raw|op o a x]; cbn [mask_insn known_after outputs_of] in *.
  - destruct (tcg_helper_get_reg_mask _ _) as [[[fr fw] fa]|e]; [|done]. injection E as <-. cbn. case_bool_decide; [done|]. rewrite forget_other by done. by apply H.
  - injection E as <-. by apply H.
  - injection E as <-. cbn [snd]. destruct (_ || _); [done|]. unfold const_after, is_movi. destruct I as (_ & _ & Lo & _ & _ & To & _).
    case_bool_decide as Ho.
    + case_bool_decide as M; [|done]. subst op. injection Ek as <-. rewrite bool_decide_true by (by right). destruct (len_one o Lo) as [y ->]. cbn.
      apply list_elem_of_singleton in Ho as ->. apply list_lookup_insert_eq. apply Forall_cons_1 in To as [[T0 T1] _]. destruct C. unfold csize, len in L. lia.
    + case_bool_decide as M; [|rewrite forget_other by done; by apply H].
      assert (Lo' : len o = 1) by (by destruct M; subst op). destruct (len_one o Lo') as [y ->]. cbn. rewrite list_lookup_insert_ne; [by apply H|].
      intros Ey. apply Forall_cons_1 in Fo as [Y _]. apply Ho. apply list_elem_of_singleton. lia.
Qed.

Lemma mask_insn_covers k c i rm wm am m' : holds k c -> mask_insn s t i (rm, wm, am, c) = Ok m' ->
  bits_in rm m'.1.1.1 /\ bits_in wm m'.1.1.2 /\ covered k m'.1.1.1 m'.1.1.2 i.
Proof.
  intros H E. destruct i as [o a fl|raw|op o a x]; cbn [mask_insn] in E.
  - destruct (tcg_helper_get_reg_mask t _) as [[[fr fw] fa]|e] eqn:Em; [|done]. injection E as <-. cbn. split_and!; [etrans; [|apply in_mask_grows]; auto | etrans; [|apply out_mask_grows]; auto|]. split_and!.
    + intros g Hg G. destruct (in_mask_covers (Z.lor wm fw) a (Z.lor rm fr) g Hg G); [by left | right; by apply out_mask_grows].
    + intros g Hg G. by apply out_mask_covers.
    + intros o' a' fl' f v [= <- <- <-] Ef Hf Ek. rewrite Ef in Em. cbn in Em. rewrite (H f v Hf Ek) in Em. exists fr, fw, fa.
      split_and!; [done | etrans; [|apply in_mask_grows]; auto | etrans; [|apply out_mask_grows]; auto].
  - injection E as <-. split_and!; [done..|]. split_and!; [| |done]; intros g Hg; by apply elem_of_nil in Hg.
  - injection E as <-. cbn. split_and!; [apply in_mask_grows | apply out_mask_grows|]. split_and!; [| |done].
    + intros g Hg G. destruct (in_mask_covers wm a rm g Hg G); [by left | right; by apply out_mask_grows].
    + intros g Hg G. by apply out_mask_covers.
Qed.

Lemma mask_prog_covers p k m m' : ctx_ok s -> csize s m.2 -> Forall (insn_ok s) p -> holds k m.2 -> mask_prog s t p m = Ok m' ->
  bits_in m.1.1.1 m'.1.1.1 /\ bits_in m.1.1.2 m'.1.1.2 /\ forall pc i, p !! pc = Some i -> covered (known_from k (take pc p)) m'.1.1.1 m'.1.1.2 i.
Proof.
  intros C L F. revert k m L. induction F as [|i p I F IH]; intros k m L H E; cbn in E; [by injection E as <-|].
  destruct (mask_insn s t i m) as [m1|e] eqn:E1; [|done]. cbn in E. pose proof (mask_insn_size s t i m m1 L E1) as L1.
  destruct m as [[[rm wm] am] c]. pose proof (holds_step k c i rm wm am m1 L C I H E1) as H1. destruct (mask_insn_covers k c i rm wm am m1 H E1) as (G1 & G2 & Cv).
  destruct (IH _ m1 L1 H1 E) as (G3 & G4 & Cp). cbn [fst snd]. split_and!; [by etrans..|]. intros [|pc] j Ej; cbn in Ej.
  - injection Ej as <-. by eapply covered_grows.
  - by apply Cp.
Qed.

Lemma mask_prog_total p m : ~ 0 ∈ map hi_func (helpers t) -> exists m', mask_prog s t p m = Ok m'.
Proof.
  intros N. revert m. induction p as [|i p IH]; intros m; [by exists m|]. cbn. assert (Hi : exists m1, mask_insn s t i m = Ok m1).
  { destruct m as [[[rm wm] am] c]. destruct i as [o a fl|raw|op o a x]; cbn [mask_insn]; [|eauto..].
    destruct (reg_mask_total t (default 0 (fn_of a ≫= fun f => c !! Z.to_nat f)) N) as (fr & fw & fa & ->). cbn. eauto. }
  destruct Hi as [m1 ->]. apply IH.
Qed.
End Cover.

(** ** Runs that differ in symbolic registers *)

(** What the helpers' masks, guest memory accesses and constants mean: a helper
    reads at most the globals of its two masks and writes at most those of the
    second, an access to guest memory involves no global. *)
Class RegMasks {W : Type} (mn : Meaning W) (t : HelperTable) := {
  movi_value v w : m_pure mn INDEX_op_movi_i64 [] [v] w = [v];
  access_spares op ins c w : exists w' vs l, forall gs, m_access mn op ins c w gs = (w', gs, vs, l);
  helper_masks func fr fw fa fl args w gs gs' :
    tcg_helper_get_reg_mask t func = Ok (fr, fw, fa) -> fn_of args = Some func -> length gs = length gs' ->
    (forall g, Z.testbit fr (Z.of_nat g) = true \/ Z.testbit fw (Z.of_nat g) = true -> gs !! g = gs' !! g) ->
    exists w1 vs l gs1 gs2, m_call mn fl args w gs = (w1, gs1, vs, l) /\ m_call mn fl args w gs' = (w1, gs2, vs, l) /\
      forall g, if Z.testbit fw (Z.of_nat g) then gs1 !! g = gs2 !! g else gs1 !! g = gs !! g /\ gs2 !! g = gs' !! g
}.

Section Sound.
Context {W : Type} (s : TCGContext) (mn : Meaning W) (t : HelperTable) (RM : RegMasks mn t) (p : list Insn) (smask rm wm : Z).

Definition symbolic (i : Z) : bool := (0 <=? i) && (i <? nb_globals s) && Z.testbit smask i.

(** Two machines that differ only in symbolic registers, which hold what they
    held at the start. *)
Definition differ (r0 r0' r r' : Z -> Z) : Prop :=
  forall i, if symbolic i then r i = r0 i /\ r' i = r0' i else r i = r' i.
Definition differ_globals (r0 r0' : Z -> Z) (gs gs' : list Z) : Prop :=
  forall i, 0 <= i < nb_globals s ->
    if symbolic i then nth (Z.to_nat i) gs 0 = r0 i /\ nth (Z.to_nat i) gs' 0 = r0' i else nth (Z.to_nat i) gs 0 = nth (Z.to_nat i) gs' 0.
Definition outcome_rel (r0 r0' : Z -> Z) (x x' : Outcome W) : Prop :=
  match x, x' with
  | OLeave why w gs, OLeave why' w' gs' => why = why' /\ w = w' /\ differ_globals r0 r0' gs gs'
  | OFell w, OFell w' => w = w'
  | _, _ => False
  end.
Definition holds_known (pc : nat) (r : Z -> Z) : Prop := forall f v, nb_globals s <= f -> known_at p pc f = Some v -> r f = v.
Definition step_rel (r0 r0' : Z -> Z) (x x' : Step W) : Prop :=
  match x, x' with
  | Next pc r w, Next pc' r' w' => pc = pc' /\ w = w' /\ differ r0 r0' r r' /\ holds_known pc r
  | Stop o, Stop o' => outcome_rel r0 r0' o o'
  | _, _ => False
  end.

Context (Dr : Z.land smask rm = 0) (Dw : Z.land smask wm = 0).

Lemma untouched i : symbolic i = true -> 0 <= i < nb_globals s /\ Z.testbit rm i = false /\ Z.testbit wm i = false.
Proof.
  unfold symbolic. intros [[H1 H2]%andb_prop H3]%andb_prop. split; [lia|].
  pose proof (f_equal (fun x => Z.testbit x i) Dr) as E1. pose proof (f_equal (fun x => Z.testbit x i) Dw) as E2. cbn in E1, E2.
  rewrite Z.land_spec, Z.bits_0, H3 in E1. rewrite Z.land_spec, Z.bits_0, H3 in E2. done.
Qed.

Lemma differ_vals r0 r0' r r' a k i : differ r0 r0' r r' -> a = inputs_of i -> covered s t k rm wm i -> map (val r) a = map (val r') a.
Proof.
  intros D -> (H & _). apply map_ext_in. intros f Hf%list_elem_of_In. unfold val. destruct (_ =? _); [done|].
  specialize (D f). destruct (symbolic f) eqn:E; [|done]. apply untouched in E as (G & E1 & E2). destruct (H f Hf G); congruence.
Qed.

Lemma differ_outs r0 r0' r r' o vs k i : differ r0 r0' r r' -> o = outputs_of i -> covered s t k rm wm i -> differ r0 r0' (set_outs r o vs) (set_outs r' o vs).
Proof.
  intros D -> (_ & H & _) f. specialize (D f). destruct (symbolic f) eqn:E.
  - apply untouched in E as (G & E1 & E2). rewrite !set_outs_other; [done|..]; intros Ho; rewrite (H f Ho G) in E2; done.
  - apply set_outs_cong. by right.
Qed.

Lemma nth_globals r i : 0 <= i < nb_globals s -> nth (Z.to_nat i) (globals s r) 0 = r i.
Proof.
  intros H. pose proof (set_globals_id s r i) as E. unfold set_globals in E. destruct (Z.leb_spec 0 i); [|lia]. destruct (Z.ltb_spec i (nb_globals s)); [done | lia].
Qed.
Lemma differ_get r0 r0' r r' : differ r0 r0' r r' -> differ_globals r0 r0' (globals s r) (globals s r').
Proof. intros D i Hi. rewrite !nth_globals by done. apply D. Qed.
Lemma differ_set r0 r0' r r' gs gs' : differ r0 r0' r r' -> differ_globals r0 r0' gs gs' -> differ r0 r0' (set_globals s r gs) (set_globals s r' gs').
Proof.
  intros D G i. specialize (D i). specialize (G i). unfold set_globals. destruct (Z.leb_spec 0 i); [|done]. destruct (Z.ltb_spec i (nb_globals s)); [|done]. cbn. by apply G.
Qed.
Lemma differ_clear r0 r0' r r' : differ r0 r0' r r' -> differ r0 r0' (bb_clear s mn r) (bb_clear s mn r').
Proof.
  intros D i. specialize (D i). unfold bb_clear. destruct (symbolic i) eqn:E; [|destruct (survives s i); done].
  apply untouched in E as (G & _). unfold survives. by rewrite (proj2 (Z.ltb_lt i (nb_globals s)) (proj2 G)).
Qed.

(** *** Calls *)

Lemma fn_of_map (f : Z -> Z) a : fn_of (map f a) = f <$> fn_of a.
Proof. unfold fn_of. rewrite length_map. apply list_lookup_fmap. Qed.

Lemma call_differ r0 r0' r r' k o a fl f v w : differ r0 r0' r r' -> covered s t k rm wm (ICall o a fl) -> fn_of a = Some f -> f <> TCG_CALL_DUMMY_ARG -> 0 <= f -> k f = Some v -> r f = v ->
  exists w1 vs l gs1 gs2, m_call mn fl (map (val r) a) w (globals s r) = (w1, gs1, vs, l) /\ m_call mn fl (map (val r') a) w (globals s r') = (w1, gs2, vs, l) /\ differ_globals r0 r0' gs1 gs2.
Proof.
  intros D Cv Ef Nf Hf Ek Ev. pose proof (proj2 (proj2 Cv)) as H3. destruct (H3 o a fl f v eq_refl Ef Hf Ek) as (fr & fw & fa & Em & S1 & S2).
  rewrite <- (differ_vals r0 r0' r r' a k (ICall o a fl) D eq_refl Cv). assert (Efn : fn_of (map (val r) a) = Some v).
  { rewrite fn_of_map, Ef. cbn. unfold val. destruct (Z.eqb_spec f TCG_CALL_DUMMY_ARG); [done | by rewrite Ev]. }
  pose proof (differ_get r0 r0' r r' D) as Dg.
  destruct (helper_masks v fr fw fa fl (map (val r) a) w (globals s r) (globals s r') Em Efn) as (w1 & vs & l & gs1 & gs2 & E1 & E2 & G).
  - unfold globals. by rewrite !length_map.
  - intros g Hg. destruct (decide (Z.of_nat g < nb_globals s)) as [Lg|Lg].
    + specialize (D (Z.of_nat g)). unfold globals. rewrite !list_lookup_fmap. rewrite lookup_seqZ_lt, Z.add_0_l by lia.
      destruct (symbolic (Z.of_nat g)) eqn:E; [|by cbn; rewrite D]. apply untouched in E as (_ & E1 & E2). destruct Hg as [Hg|Hg]; [apply S1 in Hg | apply S2 in Hg]; congruence.
    + rewrite !lookup_ge_None_2; [done|..]; unfold globals; rewrite length_map, length_seqZ; lia.
  - exists w1, vs, l, gs1, gs2. split_and!; [done..|]. intros i Hi. specialize (Dg i Hi). specialize (G (Z.to_nat i)). rewrite Z2Nat.id in G by lia.
    rewrite !nth_lookup in *. destruct (Z.testbit fw i) eqn:Ew; [|by destruct G as [-> ->]].
    destruct (symbolic i) eqn:E; [|by rewrite G]. apply untouched in E as (_ & _ & E2'). apply S2 in Ew. congruence.
Qed.

(** *** Steps *)

Context (C : ctx_ok s) (F : Forall (insn_ok s) p) (K : calls_known s p = true).
Context (Cv : forall pc i, p !! pc = Some i -> covered s t (known_at p pc) rm wm i).

Lemma holds_next pc i r r' : p !! pc = Some i -> holds_known pc r ->
  (forall f, nb_globals s <= f -> ~ f ∈ outputs_of i -> r' f = r f) ->
  (forall f v, f ∈ outputs_of i -> known_after (known_at p pc) i f = Some v -> r' f = v) -> holds_known (S pc) r'.
Proof.
  intros E H Ho Hv f v Hf Ek. rewrite (known_at_step p pc i E) in Ek. destruct (decide (f ∈ outputs_of i)) as [I|N]; [by apply Hv|].
  rewrite Ho by done. apply H; [done|]. destruct i as [o a fl|raw|op o a c]; cbn in *; [by case_bool_decide | done|].
  destruct (_ || _); [done|]. by case_bool_decide.
Qed.
Lemma holds_none pc r : (forall f, known_at p pc f = None) -> holds_known pc r.
Proof. intros H f v _ E. by rewrite H in E. Qed.

Lemma find_label_Some q l j : find_label q l = Some j -> exists o a c, q !! j = Some (IOp INDEX_op_set_label o a c).
Proof.
  revert j. induction q as [|i q IH]; intros j E; [done|]. cbn in E. destruct (is_label l i) eqn:L.
  - injection E as <-. unfold is_label in L. destruct i as [| |[] o a c]; try done. by exists o, a, c.
  - destruct (find_label q l) as [j'|]; [|done]. injection E as <-. by apply IH.
Qed.
Lemma label_none l j f : find_label p l = Some j -> known_at p (S j) f = None.
Proof. intros (o & a & c & E)%find_label_Some. by rewrite (known_at_step p j _ E). Qed.

Lemma call_step r0 r0' r r' w pc o a fl : p !! pc = Some (ICall o a fl) -> differ r0 r0' r r' -> holds_known pc r ->
  step_rel r0 r0' (exec s mn p pc r w) (exec s mn p pc r' w).
Proof.
  intros E D H. unfold exec. rewrite E. destruct (call_known_fn s _ _ _ _ (calls_known_at s p pc _ K E)) as (f & v & Ef & H1 & H2 & Ek).
  destruct C as [G T]. assert (Nf : f <> TCG_CALL_DUMMY_ARG) by (intros ->; unfold TCG_CALL_DUMMY_ARG in *; assert (u64 (-1) = 2 ^ 64 - 1) by done; lia).
  destruct (call_differ r0 r0' r r' (known_at p pc) o a fl f v w D (Cv pc _ E) Ef Nf ltac:(lia) Ek (H f v H1 Ek)) as (w1 & vs & l & gs1 & gs2 & -> & -> & Dg).
  destruct l; [done|]. split_and!; [done | done | |].
  - eapply (differ_outs _ _ _ _ _ _ _ (ICall o a fl)); [by apply differ_set | done | by apply (Cv pc)].
  - apply (holds_next pc (ICall o a fl) r); [done..| |].
    + intros x Hx N. rewrite set_outs_other by done. unfold set_globals. destruct (Z.ltb_spec x (nb_globals s)); [lia|]. by rewrite andb_false_r.
    + intros x y Hx. cbn. by rewrite bool_decide_true.
Qed.

Lemma op_step r0 r0' r r' w pc op o a c : ordinary op -> p !! pc = Some (IOp op o a c) -> differ r0 r0' r r' -> holds_known pc r ->
  step_rel r0 r0' (exec_op s mn p pc op o a c r w) (exec_op s mn p pc op o a c r' w).
Proof.
  intros O E D H. unfold exec_op. rewrite <- (differ_vals r0 r0' r r' a _ (IOp op o a c) D eq_refl (Cv pc _ E)). set (ins := map (val r) a).
  pose proof (known_at_step p pc _ E) as Kn.
  assert (Hn : forall gs vs, (op = INDEX_op_movi_i64 -> vs = [hd 0 c]) -> holds_known (S pc) (set_outs (set_globals s r gs) o vs)).
  { intros gs vs Hvs. apply (holds_next pc (IOp op o a c) r); [done..| |].
    - intros x Hx N. rewrite set_outs_other by done. unfold set_globals. destruct (Z.ltb_spec x (nb_globals s)); [lia|]. by rewrite andb_false_r.
    - intros x y Hx. cbn in Hx |- *. destruct (_ || _); [done|]. rewrite bool_decide_true by done. case_bool_decide as M; [|done]. intros [= <-].
      rewrite (Hvs M). pose proof (Forall_lookup_1 _ _ _ _ F E) as (_ & _ & Lo & _). subst op. destruct (len_one o Lo) as [z ->]. apply list_elem_of_singleton in Hx as ->.
      cbn. unfold upd. by rewrite Z.eqb_refl. }
  assert (Do : forall r1 r1' vs, differ r0 r0' r1 r1' -> differ r0 r0' (set_outs r1 o vs) (set_outs r1' o vs)).
  { intros r1 r1' vs D1. by eapply (differ_outs _ _ _ _ _ _ _ (IOp op o a c)); [|done|apply (Cv pc)]. }
  destruct (has_flag op TCG_OPF_BB_END) eqn:B.
  - destruct (m_control mn op ins c w) as [w' [|l|]].
    + split_and!; [done | done | by apply differ_clear|]. apply holds_none. intros f. rewrite Kn. cbn. by rewrite B.
    + destruct (find_label p l) as [j|] eqn:L; [|done]. split_and!; [done | done | by apply differ_clear|]. apply holds_none. intros f. by eapply label_none.
    + split_and!; [done..|]. by apply differ_get.
  - destruct (has_flag op TCG_OPF_CALL_CLOBBER) eqn:X.
    + destruct (access_spares op ins c w) as (w' & vs & l & Ha). rewrite !Ha. destruct l; [split_and!; [done..|]; by apply differ_get|].
      split_and!; [done | done | |apply Hn; by intros ->]. apply Do, differ_set; [done | by apply differ_get].
    + assert (Hn' : forall vs, (op = INDEX_op_movi_i64 -> vs = [hd 0 c]) -> holds_known (S pc) (set_outs r o vs)).
      { intros vs Hvs f v Hf Ef. rewrite <- (Hn (globals s r) vs Hvs f v Hf Ef). apply set_outs_cong. right. by rewrite set_globals_id. }
      destruct (has_flag op TCG_OPF_SIDE_EFFECTS) eqn:Y.
      * destruct (m_effect mn op ins c w) as [w' vs]. split_and!; [done | done | by apply Do|]. apply Hn'. by intros ->.
      * split_and!; [done | done | by apply Do|]. apply Hn'. intros ->. pose proof (Forall_lookup_1 _ _ _ _ F E) as (_ & _ & _ & La & Lc & _).
        apply len_zero in La as ->. destruct (len_one c Lc) as [v ->]. apply movi_value.
Qed.

Lemma step_differ r0 r0' r r' w pc : differ r0 r0' r r' -> holds_known pc r -> step_rel r0 r0' (exec s mn p pc r w) (exec s mn p pc r' w).
Proof.
  intros D H. destruct (p !! pc) as [i|] eqn:E; [|unfold exec; by rewrite E]. destruct i as [o a fl|raw|op o a c]; [by eapply call_step| |].
  - unfold exec. rewrite E. split_and!; [done..|]. apply (holds_next pc (INopn raw) r); [done..|]. intros f v Hf. cbn in Hf. set_solver.
  - destruct (ordinary_dec op) as [O|Kop]; [rewrite !(ordinary_exec s mn p pc _ _ _ _ _ _ O E); by apply op_step|].
    pose proof (known_at_step p pc _ E) as Kn. unfold exec. rewrite E. destruct Kop as [-> | [-> | [-> | ->]]].
    + split_and!; [done | done | by apply differ_clear|]. apply holds_none. intros f. by rewrite Kn.
    + pose proof (Forall_lookup_1 _ _ _ _ F E) as (_ & _ & Lo & _). apply len_zero in Lo as ->.
      split_and!; [done..|]. apply (holds_next pc _ r r E); [done..|]. intros f v Hf. by apply elem_of_nil in Hf.
    + done.
    + split_and!; [done | done | |].
      * by eapply (differ_outs _ _ _ _ _ _ _ (IOp INDEX_op_discard o a c)); [|done|apply (Cv pc)].
      * apply (holds_next pc _ r _ E); [done | by intros; apply set_outs_other|]. intros f v Hf. cbn in Hf |- *. by repeat case_bool_decide.
Qed.

Lemma run_differ n r0 r0' r r' w pc : differ r0 r0' r r' -> holds_known pc r ->
  match run s mn n p pc r w, run s mn n p pc r' w with
  | Some x, Some x' => outcome_rel r0 r0' x x'
  | None, None => True
  | _, _ => False
  end.
Proof.
  revert r r' w pc. induction n as [|n IH]; intros r r' w pc D H; [done|]. cbn. pose proof (step_differ r0 r0' r r' w pc D H) as S1.
  destruct (exec s mn p pc r w), (exec s mn p pc r' w); cbn in S1; [|done..]. destruct S1 as (-> & -> & D' & H'). by apply IH.
Qed.
End Sound.

(** ** After the liveness pass *)

Section AfterLiveness.
Context (s : TCGContext) (C : ctx_ok s) (d0 : list bool) (S0 : sized s d0) (p : list Insn) (F : Forall (insn_ok s) p).
Notation p' := (la_from s d0 p).1.1.
Notation D := (dead_before s d0 p).

Lemma known_nop k ps f : known_after k (nop_of ps) f = k f.
Proof. destruct ps; [|done]. cbn. repeat case_bool_decide; done || set_solver. Qed.

Lemma mid_live i d f : 0 <= f -> Forall (fun g => 0 <= g) (outputs_of i) -> ends_block i = false -> ~ f ∈ outputs_of i -> d !! Z.to_nat f = Some false -> mid_dead s i d !! Z.to_nat f = Some false.
Proof.
  intros Hf Fo B N E. assert (Gl : forall e, e !! Z.to_nat f = Some false -> globals_live s e !! Z.to_nat f = Some false).
  { intros e He. apply globals_live_Some. split; [by eexists | by right]. }
  destruct i as [o a fl|raw|op o a c]; cbn in *; [| done|].
  - assert (He : kill o d !! Z.to_nat f = Some false) by (apply kill_live; [done|]; rewrite Z2Nat.id by done; done). destruct (negb _); auto.
  - unfold flag_dead. rewrite B. assert (He : kill o d !! Z.to_nat f = Some false) by (apply kill_live; [done|]; rewrite Z2Nat.id by done; done).
    destruct (has_flag op TCG_OPF_CALL_CLOBBER); auto.
Qed.

(** A known temporary that is live stays known: the operation that sets it is
    kept. *)
Lemma known_insn k k' d i f v : insn_ok s i -> 0 <= f -> d !! Z.to_nat f = Some false ->
  ((la_insn s d i).1.2 !! Z.to_nat f = Some false -> k f = Some v -> k' f = Some v) ->
  known_after k i f = Some v -> known_after k' (la_insn s d i).1.1 f = Some v.
Proof.
  intros I Hf Ed H Ek. destruct (insn_temps s i I) as [_ Fo].
  assert (Nd : forall o, forallb (dead d) o = true -> ~ f ∈ o).
  { intros o Hd Ho. rewrite forallb_forall in Hd. apply list_elem_of_In, Hd, dead_lookup in Ho. congruence. }
  destruct i as [o a fl|raw|op o a c].
  - cbn [known_after] in Ek. cbn [la_insn] in H |- *. case_bool_decide as Ho; [done|]. destruct (nz _ && _); [cbn [fst snd] in H |- *; rewrite known_nop; by apply H|].
    cbn [kept fst known_after]. rewrite bool_decide_false by done. apply H; [|done]. apply use_livelier. by apply (mid_live (ICall o a fl)).
  - by apply H.
  - destruct (ordinary_dec op) as [O|Kop].
    + rewrite (ordinary_la _ _ _ _ _ _ O) in *. unfold la_other in *. cbn [known_after] in Ek. destruct (has_flag op TCG_OPF_BB_END) eqn:B; [done|]. cbn [orb] in Ek.
      case_bool_decide as L; [done|]. destruct (_ && _ && _) eqn:U.
      * cbn [fst snd] in H |- *. rewrite known_nop. apply andb_prop in U as [_ U]. rewrite bool_decide_false in Ek by (by apply Nd). by apply H.
      * cbn [kept fst known_after] in *. rewrite B. cbn [orb]. rewrite bool_decide_false by done. case_bool_decide as Ho; [done|]. apply H; [|done].
        cbn [snd]. apply use_livelier. pose proof (mid_live (IOp op o a c) d f Hf Fo B Ho Ed) as M. cbn in M. unfold flag_dead in M. by rewrite B in M.
    + destruct Kop as [-> | [-> | [-> | ->]]]; cbn [la_insn fst snd known_after] in *; [done|..]; (destruct (_ || _); [done|]); (case_bool_decide as Ho; [by case_bool_decide|]); apply H; try done.
      apply kill_live; [done|]. by rewrite Z2Nat.id.
Qed.

Lemma known_after_liveness pc f v : (pc <= length p)%nat -> 0 <= f -> D pc !! Z.to_nat f = Some false -> known_at p pc f = Some v -> known_at p' pc f = Some v.
Proof.
  revert f v. induction pc as [|pc IH]; intros f v L Hf Ed Ek; [done|]. destruct (lookup_lt_is_Some_2 p pc) as [i Ei]; [lia|].
  destruct (la_lookup s d0 p pc i Ei) as [Ei' _]. rewrite (known_at_step p pc i Ei) in Ek. rewrite (known_at_step p' pc _ Ei').
  eapply known_insn; [by apply (Forall_lookup_1 _ _ _ _ F Ei) | done | done | | done]. rewrite <- (dead_before_step s d0 p pc i Ei). apply IH; [lia | done].
Qed.

Lemma calls_known_after : calls_known s p = true -> calls_known s p' = true.
Proof.
  intros K. apply calls_known_intro. intros pc i' E'. destruct (p !! pc) as [i|] eqn:E; [|by rewrite (la_lookup_None s d0 p pc E) in E'].
  destruct (la_lookup s d0 p pc i E) as [E1 _]. rewrite E1 in E'. injection E' as <-. pose proof (calls_known_at s p pc i K E) as Kc.
  pose proof (Forall_lookup_1 _ _ _ _ F E) as I. assert (Nop : forall k ps, call_known s k (nop_of ps) = true) by (intros k ps; by destruct ps).
  destruct i as [o a fl|raw|op o a c]; [|done|].
  - pose proof (dead_before_step s d0 p pc _ E) as Ed. cbn [la_insn] in Ed |- *. destruct (_ && _); [apply Nop|]. cbn [kept fst snd] in *.
    apply call_known_fn in Kc as (f & v & Ef & H1 & H2 & Ek). cbn. rewrite Ef. destruct I as (_ & _ & _ & Fa).
    assert (Hk : known_at p' pc f = Some v).
    { apply known_after_liveness; [apply lookup_lt_Some in E; lia | destruct C; lia | | done]. rewrite Ed. apply (use_live s); [|done | by eapply list_elem_of_lookup_2|].
      - pose proof (dead_before_sized s d0 p (S pc) S0 F) as Sd. destruct (negb _); [apply globals_sized|]; by apply kill_sized.
      - destruct C. unfold TCG_CALL_DUMMY_ARG. assert (u64 (-1) = 2 ^ 64 - 1) by done. lia. }
    rewrite Hk, bool_decide_true by done. lia.
  - destruct (ordinary_dec op) as [O|Kop]; [|by destruct Kop as [-> | [-> | [-> | ->]]]].
    rewrite (ordinary_la _ _ _ _ _ _ O). unfold la_other. destruct (_ && _ && _); [apply Nop | done].
Qed.

Lemma la_from_ok : Forall (insn_ok s) p'.
Proof.
  induction F as [|i q I Fq IH]; [done|]. rewrite la_from_cons. pose proof (dead_before_sized s d0 q 0 S0 Fq) as Sd. unfold dead_before in Sd. rewrite drop_0 in Sd.
  specialize (IH Fq). destruct (la_from s d0 q) as [[q' d1] ia]. pose proof (la_insn_ok s d1 i Sd I) as H. destruct (la_insn s d1 i) as [[i' d2] x]. by constructor; [apply H|].
Qed.
End AfterLiveness.

(** C9: S2E runs a block natively when the masks it computed after the liveness
    pass have no symbolic register.  For every well-formed block whose calls
    are emitted with their function as a constant, with at most 31 globals and so
    few temporaries that the array of constants holds them and the globals again
    (with more, [tcg_calc_regmask] overruns it: [regmask_overruns]), and every
    table of helpers whose masks are right, while guest memory accesses neither
    read nor change a global ([RegMasks]) and calls respect their flags
    ([CallFlags]): both passes end normally, and when the block does
    not touch the symbolic registers, two runs of the block as it was generated
    that differ in these registers have the same outcome (the same end, the
    same memory, the same other registers), and leave them as they were. *)
Theorem native_ignores_symbolic {W} (s : TCGContext) (mn : Meaning W) (t : HelperTable) (p : list Insn) :
  CallFlags mn -> RegMasks mn t -> ctx_ok s -> nb_globals s <= 31 -> nb_globals s + nb_temps s <= TCG_MAX_TEMPS -> ~ 0 ∈ map hi_func (helpers t) ->
  Forall (insn_ok s) p -> calls_known s p = true ->
  exists opc params ia rm wm am, tcg_liveness_analysis s (map opcode_of p) (enc p) = Ok (opc, params, ia) /\
    tcg_calc_regmask s t opc params = Ok (rm, wm, am) /\
    forall b smask, TbCache.reg_rmask b = rm -> TbCache.reg_wmask b = wm -> TbCache.touches b smask = false ->
    forall n r r' w, (forall i, symbolic s smask i = false -> r i = r' i) ->
      match run s mn n p 0 r w, run s mn n p 0 r' w with
      | Some x, Some x' => outcome_rel s smask r r' x x'
      | None, None => True
      | _, _ => False
      end.
Proof.
  intros CF RM C NG NT NZ F K. pose proof (liveness_refines s C p F) as EL. unfold la_prog in EL. pose proof (start_sized s) as S0. set (d0 := replicate _ true) in *.
  pose proof (calls_known_after s C d0 S0 p F K) as K'. pose proof (la_from_ok s d0 S0 p F) as F'.
  pose proof (fun n r w => run_sim s mn C CF d0 S0 p F n 0 r r w (agree_refl _ _)) as R.
  destruct (la_from s d0 p) as [[p' d'] ia]. cbn [fst] in *. set (m0 := (0, 0, 0, replicate (Z.to_nat (nb_globals s + nb_temps s)) 0)).
  pose proof (calc_regmask_refines s t C p' NT F' (calls_named s p' C K')) as EC. fold m0 in EC. destruct (mask_prog_total s t p' m0 NZ) as [m Em]. rewrite Em in EC.
  assert (L0 : csize s m0.2) by (destruct C; cbn; unfold csize, len; rewrite length_replicate; lia).
  destruct (mask_prog_covers s t NG p' (fun _ => None) m0 m C L0 F' ltac:(done) Em) as (_ & _ & Cv). destruct m as [[[rm wm] am] c]. cbn in Cv, EC.
  exists (map opcode_of p'), (enc p'), ia, rm, wm, am. split_and!; [done..|]. intros b smask <- <- Ht n r r' w A. rewrite !R.
  unfold TbCache.touches in Ht. apply orb_false_elim in Ht as [[H1 H2]%orb_false_elim _]. unfold nz in H1, H2. apply negb_false_iff, Z.eqb_eq in H1, H2.
  apply (run_differ s mn t RM p' smask (TbCache.reg_rmask b) (TbCache.reg_wmask b)); try done. intros i. destruct (symbolic s smask i) eqn:E; [done | by apply A].
Qed.

End TcgMask.
