(* ===== verification/TcgGen.v ===== *)
(** * Emission of intermediate code

    Temporaries of a block under translation and the emission of helper calls
    (src/s2e/qemu/tcg/tcg.c and tcg-op.h, for a 64-bit host): the free lists
    implement a set of temporaries in use, and a helper call is emitted in the
    form that [TcgMask] relies on. *)

From stdpp Require Import list sets.
From Stdlib Require Import ZifyBool.
From S2P Require Import Prelude Tcg TcgLive TcgSem TcgMask.

Module TcgGen.
Import Tcg TcgLive TcgSem TcgMask.

(** The fields of a temporary that matter before registers are allocated. *)
Record TCGTemp := mkTCGTemp {
  base_type : Z;
  is_local : bool;
  temp_allocated : bool;
  next_free_temp : Z
}.
#[export] Instance TCGTemp_eta : RecordEta TCGTemp := fields mkTCGTemp < base_type ; is_local ; temp_allocated ; next_free_temp >.

(** The context, with the array of temporaries, and the buffers up to
    [gen_opc_ptr] and [gen_opparam_ptr]. *)
Record Gen := mkGen {
  g_globals : Z;
  g_temps : Z;
  temps : list TCGTemp;
  first_free_temp : list Z;
  g_opc : list TCGOpcode;
  g_opparam : list Z
}.
#[export] Instance Gen_eta : RecordEta Gen := fields mkGen < g_globals ; g_temps ; temps ; first_free_temp ; g_opc ; g_opparam >.

Definition tcg_func_start (s : Gen) : Gen :=
  s <| g_temps := g_globals s |> <| first_free_temp := replicate (Z.to_nat (TCG_TYPE_COUNT * 2)) (-1) |> <| g_opc := [] |> <| g_opparam := [] |>.

Definition tcg_temp_alloc (n : Z) : Res unit := if TCG_MAX_TEMPS <? n then Fail AbortCalled else Ok tt.

Definition free_index (type : Z) (local : bool) : Z := if local then type + TCG_TYPE_COUNT else type.

Definition tcg_temp_new_internal (s : Gen) (type : Z) (local : bool) : Res (Z * Gen) :=
  let k := free_index type local in
  let* idx := arg_at (first_free_temp s) k in
  if negb (idx =? -1) then
    match temps s !! Z.to_nat idx with
    | None => Fail OutOfBounds
    | Some ts =>
        let s := s <| first_free_temp := <[Z.to_nat k := next_free_temp ts]> (first_free_temp s) |>
                   <| temps := <[Z.to_nat idx := ts <| temp_allocated := true |>]> (temps s) |> in
        if negb (Bool.eqb (is_local ts) local) then Fail AssertFail else Ok (idx, s)
    end
  else
    let idx := g_temps s in
    let* _ := tcg_temp_alloc (g_temps s + 1) in
    match temps s !! Z.to_nat (g_temps s) with
    | None => Fail OutOfBounds
    | Some ts =>
        Ok (idx, s <| temps := <[Z.to_nat (g_temps s) := ts <| base_type := type |> <| temp_allocated := true |> <| is_local := local |>]> (temps s) |>
                   <| g_temps := g_temps s + 1 |>)
    end.

Definition tcg_temp_free_internal (s : Gen) (idx : Z) : Res Gen :=
  if negb ((g_globals s <=? idx) && (idx <? g_temps s)) then Fail AssertFail
  else
    match temps s !! Z.to_nat idx with
    | None => Fail OutOfBounds
    | Some ts =>
        if negb (temp_allocated ts) then Fail AssertFail
        else
          let k := free_index (base_type ts) (is_local ts) in
          let* first := arg_at (first_free_temp s) k in
          Ok (s <| temps := <[Z.to_nat idx := ts <| temp_allocated := false |> <| next_free_temp := first |>]> (temps s) |>
                <| first_free_temp := <[Z.to_nat k := idx]> (first_free_temp s) |>)
    end.

(** [tcg_gen_op2i_i64], and [tcg_gen_movi_i64] through it. *)
Definition tcg_gen_op2i_i64 (s : Gen) (opc : TCGOpcode) (arg1 arg2 : Z) : Gen :=
  s <| g_opc := g_opc s ++ [opc] |> <| g_opparam := g_opparam s ++ [arg1; arg2] |>.
Definition tcg_gen_movi_i64 (s : Gen) (ret arg : Z) : Gen := tcg_gen_op2i_i64 s INDEX_op_movi_i64 ret arg.

Definition tcg_const_i64 (s : Gen) (val : Z) : Res (Z * Gen) :=
  let* (t0, s) := tcg_temp_new_internal s TCG_TYPE_I64 false in Ok (t0, tcg_gen_movi_i64 s t0 val).

Definition tcg_gen_callN (s : Gen) (func flags ret : Z) (args : list Z) : Gen :=
  let rets := if negb (ret =? TCG_CALL_DUMMY_ARG) then [ret] else [] in
  let nb_rets := len rets in
  let real_args := len args in
  s <| g_opc := g_opc s ++ [INDEX_op_call] |>
    <| g_opparam := g_opparam s ++ Z.lor (Z.shiftl nb_rets 16) (real_args + 1) :: rets ++ args ++ [func; flags; 1 + nb_rets + real_args + 3] |>.

Definition tcg_gen_helperN (s : Gen) (func flags ret : Z) (args : list Z) : Res Gen :=
  let* (fn, s) := tcg_const_i64 s func in
  tcg_temp_free_internal (tcg_gen_callN s fn flags ret args) fn.

(** ** Temporaries in use *)

(** The abstraction: type and kind of each temporary in use. *)
Definition in_use (s : Gen) (x : Z) : option (Z * bool) :=
  if (g_globals s <=? x) && (x <? g_temps s) then
    ts ← temps s !! Z.to_nat x; if temp_allocated ts then Some (base_type ts, is_local ts) else None
  else None.

(** A chain of free temporaries. *)
Fixpoint chain (ts : list TCGTemp) (start : Z) (l : list Z) : Prop :=
  match l with
  | [] => start = -1
  | x :: l => start = x /\ exists t, ts !! Z.to_nat x = Some t /\ chain ts (next_free_temp t) l
  end.

Definition free_at (s : Gen) (k : nat) (x : Z) : Prop :=
  g_globals s <= x < g_temps s /\ exists t, temps s !! Z.to_nat x = Some t /\ temp_allocated t = false /\ free_index (base_type t) (is_local t) = Z.of_nat k.

Definition list_ok (s : Gen) (k : nat) (start : Z) : Prop :=
  exists l, chain (temps s) start l /\ NoDup l /\ forall x, x ∈ l <-> free_at s k x.

Record alloc_ok (s : Gen) : Prop := {
  al_globals : 0 <= g_globals s <= g_temps s;
  al_temps : g_temps s <= TCG_MAX_TEMPS;
  al_array : len (temps s) = TCG_MAX_TEMPS;
  al_types x t : g_globals s <= x < g_temps s -> temps s !! Z.to_nat x = Some t -> base_type t = TCG_TYPE_I32 \/ base_type t = TCG_TYPE_I64;
  al_count : length (first_free_temp s) = 4%nat;
  al_lists k start : first_free_temp s !! k = Some start -> list_ok s k start
}.

Lemma func_start_ok s : 0 <= g_globals s <= TCG_MAX_TEMPS -> len (temps s) = TCG_MAX_TEMPS -> alloc_ok (tcg_func_start s) /\ forall x, in_use (tcg_func_start s) x = None.
Proof.
  intros G L. split.
  - split; cbn; try lia; [done|]. intros k start E. exists []. cbn. split; [|split; [constructor|]].
    + do 4 (destruct k as [|k]; [by injection E|]). done.
    + intros x. split; [by intros H%elem_of_nil|]. intros [? _]. cbn in *. lia.
  - intros x. unfold in_use. cbn. destruct (Z.leb_spec (g_globals s) x), (Z.ltb_spec x (g_globals s)); try done. lia.
Qed.

Lemma free_index_inj a la b lb : (a = TCG_TYPE_I32 \/ a = TCG_TYPE_I64) -> (b = TCG_TYPE_I32 \/ b = TCG_TYPE_I64) -> free_index a la = free_index b lb -> a = b /\ la = lb.
Proof. unfold free_index, TCG_TYPE_I32, TCG_TYPE_I64, TCG_TYPE_COUNT. intros A B. destruct la, lb; intros E; split; try done; lia. Qed.
Lemma free_index_range a la : (a = TCG_TYPE_I32 \/ a = TCG_TYPE_I64) -> 0 <= free_index a la < 4.
Proof. unfold free_index, TCG_TYPE_I32, TCG_TYPE_I64, TCG_TYPE_COUNT. destruct la; lia. Qed.

Lemma chain_frame ts n t start l : (forall x, x ∈ l -> Z.to_nat x <> n) -> chain ts start l -> chain (<[n := t]> ts) start l.
Proof.
  revert start. induction l as [|x l IH]; intros start N C; [done|]. destruct C as (-> & u & E & C). split; [done|]. exists u.
  rewrite list_lookup_insert_ne by (intros Q; apply (N x); [set_solver | done]). split; [done|]. apply IH; [set_solver | done].
Qed.

(** The class of a temporary, and what changes when entry [i] does. *)
Definition same_but (s s' : Gen) (i : Z) : Prop :=
  g_globals s' = g_globals s /\ g_temps s <= g_temps s' /\ (forall x, g_temps s <= x < g_temps s' -> x = i) /\
  forall x, 0 <= x -> x <> i -> temps s' !! Z.to_nat x = temps s !! Z.to_nat x.

Lemma free_at_same s s' i k x : 0 <= g_globals s -> same_but s s' i -> x <> i -> free_at s' k x <-> free_at s k x.
Proof.
  intros G (Eg & Lt & Hi & Ex) N. unfold free_at. rewrite Eg. split.
  - intros (R & t & Et & H). assert (x < g_temps s) by (destruct (Z.lt_ge_cases x (g_temps s)); [done|]; destruct N; apply Hi; lia).
    split; [lia|]. exists t. rewrite Ex in Et by lia. done.
  - intros (R & t & Et & H). split; [lia|]. exists t. rewrite Ex by lia. done.
Qed.
Lemma in_use_same s s' i x : 0 <= g_globals s -> same_but s s' i -> x <> i -> in_use s' x = in_use s x.
Proof.
  intros G (Eg & Lt & Hi & Ex) N. unfold in_use. rewrite Eg. destruct (Z.leb_spec (g_globals s) x); [|done]. rewrite Ex by (lia || done).
  destruct (Z.ltb_spec x (g_temps s')), (Z.ltb_spec x (g_temps s)); try done; [destruct N; apply Hi; lia | lia].
Qed.

Lemma list_ok_frame s s' i t' k start : 0 <= g_globals s -> same_but s s' i -> 0 <= i -> temps s' = <[Z.to_nat i := t']> (temps s) -> ~ free_at s k i -> ~ free_at s' k i -> list_ok s k start -> list_ok s' k start.
Proof.
  intros G Sb Hi Et N N' (l & Ch & Nd & El). exists l. rewrite Et. split_and!; [|done|].
  - apply chain_frame; [|done]. intros x Hx Q. apply N. apply El in Hx as F. destruct F as [F _]. assert (x = i) by lia. subst. by apply El.
  - intros x. destruct (decide (x = i)) as [->|Ne]; [|by rewrite (free_at_same s s' i)]. rewrite El. tauto.
Qed.

Lemma temp_in s x : alloc_ok s -> 0 <= x < TCG_MAX_TEMPS -> exists t, temps s !! Z.to_nat x = Some t.
Proof. intros A H. pose proof (al_array s A) as L. unfold len in L. apply lookup_lt_is_Some. lia. Qed.
Lemma first_in s k : alloc_ok s -> 0 <= k < 4 -> exists x, first_free_temp s !! Z.to_nat k = Some x /\ arg_at (first_free_temp s) k = Ok x.
Proof.
  intros A H. pose proof (al_count s A) as L. destruct (lookup_lt_is_Some_2 (first_free_temp s) (Z.to_nat k)) as [x E]; [lia|].
  exists x. split; [done|]. unfold arg_at. destruct (Z.ltb_spec k 0); [lia|]. by rewrite E.
Qed.

(** A change of one entry and one list keeps the invariant. *)
Lemma alloc_update s s' i t' k l start : alloc_ok s -> same_but s s' i -> 0 <= i -> g_temps s' <= TCG_MAX_TEMPS -> temps s' = <[Z.to_nat i := t']> (temps s) ->
  (base_type t' = TCG_TYPE_I32 \/ base_type t' = TCG_TYPE_I64) -> first_free_temp s' = <[k := start]> (first_free_temp s) ->
  (forall j, j <> k -> ~ free_at s j i /\ ~ free_at s' j i) ->
  chain (temps s') start l -> NoDup l -> (forall x, x ∈ l <-> free_at s' k x) -> alloc_ok s'.
Proof.
  intros A Sb Hi Lt Em Ty Ef Nf Ch Nd El. pose proof (al_globals s A) as G. destruct Sb as (Eg & Lg & Hn & Ex). split.
  - lia.
  - done.
  - rewrite Em. unfold len. rewrite length_insert. apply A.
  - intros z t Hz Et. destruct (decide (z = i)) as [->|Nz].
    + rewrite Em, list_lookup_insert_eq in Et; [by injection Et as <-|]. apply lookup_lt_Some in Et. by rewrite length_insert in Et.
    + assert (z < g_temps s) by (destruct (Z.lt_ge_cases z (g_temps s)); [done|]; destruct Nz; apply Hn; lia). rewrite Ex in Et by lia. eapply (al_types s A z); [lia | done].
  - rewrite Ef, length_insert. apply A.
  - intros j st Ej. rewrite Ef in Ej. destruct (decide (j = k)) as [->|Nj].
    + rewrite list_lookup_insert_eq in Ej by (apply lookup_lt_Some in Ej; by rewrite length_insert in Ej). injection Ej as <-. by exists l.
    + rewrite list_lookup_insert_ne in Ej by done. apply (list_ok_frame s s' i t'); try done; try (by apply Nf); [lia|]. by apply (al_lists s A).
Qed.

Lemma in_use_at s x t : g_globals s <= x < g_temps s -> temps s !! Z.to_nat x = Some t -> in_use s x = if temp_allocated t then Some (base_type t, is_local t) else None.
Proof. intros R E. unfold in_use. rewrite E. destruct (Z.leb_spec (g_globals s) x); [|lia]. destruct (Z.ltb_spec x (g_temps s)); [done | lia]. Qed.

(** Allocation from a free list. *)
Lemma temp_reuse s type local idx : alloc_ok s -> (type = TCG_TYPE_I32 \/ type = TCG_TYPE_I64) ->
  first_free_temp s !! Z.to_nat (free_index type local) = Some idx -> idx <> -1 ->
  exists s', tcg_temp_new_internal s type local = Ok (idx, s') /\ alloc_ok s' /\ same_but s s' idx /\ g_temps s' = g_temps s /\ in_use s idx = None /\ in_use s' idx = Some (type, local).
Proof.
  intros A T E Nx. pose proof (free_index_range type local T) as K. set (k := free_index type local) in *. destruct (first_in s k A K) as (x & Ex & Ax). assert (x = idx) as -> by congruence.
  destruct (al_lists s A _ _ E) as (l & Ch & Nd & El). destruct l as [|y l]; [cbn in Ch; lia|]. destruct Ch as (<- & ts & Ets & Ch). apply list.NoDup_cons in Nd as [Ni Nd].
  assert (Fr : free_at s (Z.to_nat k) idx) by (apply El; set_solver). destruct Fr as (R & ts' & Ets' & Al & Cl). assert (ts' = ts) as -> by congruence. clear Ets'.
  rewrite Z2Nat.id in Cl by lia. pose proof (al_types s A idx ts R Ets) as Ty. destruct (free_index_inj _ _ _ _ Ty T Cl) as [E1 E2].
  pose proof (al_globals s A) as G. unfold tcg_temp_new_internal. fold k. rewrite Ax. cbn [res_bind]. destruct (Z.eqb_spec idx (-1)); [done|]. cbn [negb]. rewrite Ets, E2, eqb_reflx. cbn [negb].
  set (s' := s <| first_free_temp := _ |> <| temps := _ |>). exists s'. assert (Sb : same_but s s' idx).
  { split_and!; [done | by cbn | cbn; lia|]. intros z Hz Nz. cbn. apply list_lookup_insert_ne. lia. }
  assert (Ei : temps s' !! Z.to_nat idx = Some (ts <| temp_allocated := true |>)) by (apply list_lookup_insert_eq; by eapply lookup_lt_Some).
  assert (Nf : forall j, ~ free_at s' j idx) by (intros j (_ & u & Eu & Au & _); rewrite Ei in Eu; injection Eu as <-; done).
  split_and!; [done | | done | done | by rewrite (in_use_at s idx ts R Ets), Al | by rewrite (in_use_at s' idx _ R Ei); cbn; rewrite E1, E2].
  apply (alloc_update s s' idx (ts <| temp_allocated := true |>) (Z.to_nat k) l (next_free_temp ts) A Sb); try done; [lia | apply (al_temps s A) | |..].
  - intros j Nj. split; [|done]. intros (_ & u & Eu & _ & Cu). rewrite Ets in Eu. injection Eu as <-. lia.
  - apply chain_frame; [|done]. intros z Hz Q. destruct (proj1 (El z) ltac:(set_solver)) as [Rz _]. assert (z = idx) by lia. by subst.
  - intros z. destruct (decide (z = idx)) as [->|Nz]; [pose proof (Nf (Z.to_nat k)); tauto|]. rewrite (free_at_same s s' idx) by (lia || done). rewrite <- El. set_solver.
Qed.

(** Allocation of a new temporary. *)
Lemma temp_fresh s type local : alloc_ok s -> (type = TCG_TYPE_I32 \/ type = TCG_TYPE_I64) ->
  first_free_temp s !! Z.to_nat (free_index type local) = Some (-1) -> g_temps s < TCG_MAX_TEMPS ->
  exists s', tcg_temp_new_internal s type local = Ok (g_temps s, s') /\ alloc_ok s' /\ same_but s s' (g_temps s) /\ g_temps s' = g_temps s + 1 /\ in_use s (g_temps s) = None /\ in_use s' (g_temps s) = Some (type, local).
Proof.
  intros A T E L. pose proof (free_index_range type local T) as K. set (k := free_index type local) in *. destruct (first_in s k A K) as (x & Ex & Ax). assert (x = -1) as -> by congruence.
  pose proof (al_globals s A) as G. destruct (temp_in s (g_temps s) A) as [ts Ets]; [lia|]. unfold tcg_temp_new_internal. fold k. rewrite Ax. cbn [res_bind Z.eqb negb].
  change (negb (-1 =? -1)) with false. cbn iota. unfold tcg_temp_alloc. destruct (Z.ltb_spec TCG_MAX_TEMPS (g_temps s + 1)); [lia|]. cbn [res_bind]. rewrite Ets.
  set (ts' := ts <| base_type := type |> <| temp_allocated := true |> <| is_local := local |>). set (s' := s <| temps := _ |> <| g_temps := _ |>). exists s'. assert (Sb : same_but s s' (g_temps s)).
  { split_and!; [done | cbn; lia | cbn; lia|]. intros z Hz Nz. cbn. apply list_lookup_insert_ne. lia. }
  assert (Ei : temps s' !! Z.to_nat (g_temps s) = Some ts') by (apply list_lookup_insert_eq; by eapply lookup_lt_Some).
  assert (Nf : forall j, ~ free_at s' j (g_temps s)) by (intros j (_ & u & Eu & Au & _); rewrite Ei in Eu; injection Eu as <-; done).
  assert (No : forall j, ~ free_at s j (g_temps s)) by (intros j [? _]; lia).
  destruct (al_lists s A _ _ E) as (l & Ch & Nd & El).
  split_and!; [done | | done | done | |].
  - apply (alloc_update s s' (g_temps s) ts' (Z.to_nat k) l (-1) A Sb); try done; [lia | by rewrite list_insert_id | |].
    + apply chain_frame; [|done]. intros z Hz Q. destruct (proj1 (El z) Hz) as [Rz _]. lia.
    + intros z. destruct (decide (z = g_temps s)) as [->|Nz]; [pose proof (Nf (Z.to_nat k)); pose proof (No (Z.to_nat k)); rewrite El; tauto|].
      rewrite (free_at_same s s' (g_temps s)) by (lia || done). apply El.
  - unfold in_use. destruct (Z.ltb_spec (g_temps s) (g_temps s)); [lia|]. by rewrite andb_false_r.
  - rewrite (in_use_at s' (g_temps s) ts'); [done | cbn; lia | done].
Qed.

Lemma temp_free s idx t : alloc_ok s -> g_globals s <= idx < g_temps s -> temps s !! Z.to_nat idx = Some t -> temp_allocated t = true ->
  exists s', tcg_temp_free_internal s idx = Ok s' /\ alloc_ok s' /\ same_but s s' idx /\ g_temps s' = g_temps s /\ in_use s' idx = None.
Proof.
  intros A R Et Al. pose proof (al_globals s A) as G. pose proof (al_types s A idx t R Et) as Ty. unfold tcg_temp_free_internal.
  destruct (Z.leb_spec (g_globals s) idx); [|lia]. destruct (Z.ltb_spec idx (g_temps s)); [|lia]. cbn [andb negb]. rewrite Et, Al. cbn [negb].
  pose proof (free_index_range (base_type t) (is_local t) Ty) as K. set (k := free_index _ _) in *. destruct (first_in s k A K) as (first & Ef & ->). cbn [res_bind].
  set (t' := t <| temp_allocated := false |> <| next_free_temp := first |>). set (s' := s <| temps := _ |> <| first_free_temp := _ |>). exists s'. assert (Sb : same_but s s' idx).
  { split_and!; [done | by cbn | cbn; lia|]. intros z Hz Nz. cbn. apply list_lookup_insert_ne. lia. }
  assert (Ei : temps s' !! Z.to_nat idx = Some t') by (apply list_lookup_insert_eq; by eapply lookup_lt_Some).
  destruct (al_lists s A _ _ Ef) as (l & Ch & Nd & El). assert (Ni : ~ idx ∈ l) by (rewrite El; intros (_ & u & Eu & Au & _); congruence).
  split_and!; [done | | done | done | by rewrite (in_use_at s' idx t' R Ei)].
  apply (alloc_update s s' idx t' (Z.to_nat k) (idx :: l) idx A Sb); try done; [lia | apply (al_temps s A) | | | by apply list.NoDup_cons|].
  - intros j Nj. split; intros (_ & u & Eu & Au & Cu); [congruence|]. rewrite Ei in Eu. injection Eu as <-. change (k = Z.of_nat j) in Cu. lia.
  - split; [done|]. exists t'. split; [done|]. apply chain_frame; [|done]. intros z Hz Q. destruct (proj1 (El z) Hz) as [Rz _]. assert (z = idx) by lia. by subst.
  - intros z. rewrite elem_of_cons, El. destruct (decide (z = idx)) as [->|Nz]; [|rewrite (free_at_same s s' idx) by (lia || done); tauto].
    split; [|by left]. intros _. split; [done|]. exists t'. split_and!; [done..|]. change (k = Z.of_nat (Z.to_nat k)). lia.
Qed.
Lemma temp_new_spec s type local : alloc_ok s -> type = TCG_TYPE_I32 \/ type = TCG_TYPE_I64 ->
  match tcg_temp_new_internal s type local with
  | Ok (idx, s') => alloc_ok s' /\ in_use s idx = None /\ (forall x, in_use s' x = if x =? idx then Some (type, local) else in_use s x) /\ g_globals s' = g_globals s /\
      (g_temps s' = g_temps s \/ g_temps s' = g_temps s + 1 /\ forall x, ~ free_at s (Z.to_nat (free_index type local)) x)
  | Fail e => e = AbortCalled /\ g_temps s = TCG_MAX_TEMPS /\ forall x, ~ free_at s (Z.to_nat (free_index type local)) x
  end.
Proof.
  intros A T. pose proof (al_globals s A) as G. destruct (first_in s _ A (free_index_range type local T)) as (idx & E & Ea). destruct (Z.eq_dec idx (-1)) as [->|N].
  - assert (Nf : forall x, ~ free_at s (Z.to_nat (free_index type local)) x).
    { destruct (al_lists s A _ _ E) as ([|y l] & Ch & _ & El); [intros x Hx; apply El in Hx; by apply elem_of_nil in Hx|].
      destruct Ch as [<- _]. destruct (proj1 (El (-1)) ltac:(set_solver)) as [? _]. lia. }
    destruct (Z.lt_ge_cases (g_temps s) TCG_MAX_TEMPS) as [L|L].
    + destruct (temp_fresh s type local A T E L) as (s' & -> & A' & Sb & Eg & U & U'). split_and!; [done | done | | apply Sb | by right].
      intros x. destruct (Z.eqb_spec x (g_temps s)) as [->|Nx]; [done|]. by apply (in_use_same s s' (g_temps s)); [lia|..].
    + pose proof (al_temps s A). unfold tcg_temp_new_internal. rewrite Ea. cbn. unfold tcg_temp_alloc. destruct (Z.ltb_spec TCG_MAX_TEMPS (g_temps s + 1)); [cbn; split_and!; [done | lia | done] | lia].
  - destruct (temp_reuse s type local idx A T E N) as (s' & -> & A' & Sb & Eg & U & U'). split_and!; [done | done | | apply Sb | by left].
    intros x. destruct (Z.eqb_spec x idx) as [->|Nx]; [done|]. by apply (in_use_same s s' idx); [lia|..].
Qed.

Lemma temp_free_spec s idx : alloc_ok s ->
  match tcg_temp_free_internal s idx with
  | Ok s' => alloc_ok s' /\ is_Some (in_use s idx) /\ (forall x, in_use s' x = if x =? idx then None else in_use s x) /\ g_globals s' = g_globals s /\ g_temps s' = g_temps s
  | Fail e => e = AssertFail /\ in_use s idx = None
  end.
Proof.
  intros A. pose proof (al_globals s A) as G. destruct (decide (g_globals s <= idx < g_temps s)) as [R|R].
  - pose proof (al_temps s A). destruct (temp_in s idx A) as [t Et]; [lia|]. rewrite (in_use_at s idx t R Et). destruct (temp_allocated t) eqn:Al.
    + destruct (temp_free s idx t A R Et Al) as (s' & -> & A' & Sb & Eg & U). split_and!; [done | done | | apply Sb | done].
      intros x. destruct (Z.eqb_spec x idx) as [->|Nx]; [done|]. by apply (in_use_same s s' idx); [lia|..].
    + unfold tcg_temp_free_internal. destruct (negb (_ && _)); [done|]. by rewrite Et, Al.
  - unfold tcg_temp_free_internal, in_use. destruct (Z.leb_spec (g_globals s) idx), (Z.ltb_spec idx (g_temps s)); cbn; done || lia.
Qed.

(** C12: the free lists implement the set of temporaries in use.  An allocation
    gives a temporary of the kind asked for that was not in use, and reuses a
    free one when there is one; it only fails, by [tcg_abort], when the array is
    full and none is free.  Freeing gives back one that is in use and is refused
    by an assertion otherwise.  Nothing else changes. *)
Theorem temps_refine s : alloc_ok s ->
  (forall type local, type = TCG_TYPE_I32 \/ type = TCG_TYPE_I64 ->
    match tcg_temp_new_internal s type local with
    | Ok (idx, s') => alloc_ok s' /\ in_use s idx = None /\ (forall x, in_use s' x = if x =? idx then Some (type, local) else in_use s x) /\
        (g_temps s' = g_temps s \/ g_temps s' = g_temps s + 1 /\ forall x, ~ free_at s (Z.to_nat (free_index type local)) x)
    | Fail e => e = AbortCalled /\ g_temps s = TCG_MAX_TEMPS /\ forall x, ~ free_at s (Z.to_nat (free_index type local)) x
    end) /\
  forall idx,
    match tcg_temp_free_internal s idx with
    | Ok s' => alloc_ok s' /\ is_Some (in_use s idx) /\ forall x, in_use s' x = if x =? idx then None else in_use s x
    | Fail e => e = AssertFail /\ in_use s idx = None
    end.
Proof.
  intros A. split.
  - intros type local T. pose proof (temp_new_spec s type local A T) as H. destruct (tcg_temp_new_internal s type local) as [[idx s']|e]; tauto.
  - intros idx. pose proof (temp_free_spec s idx A) as H. destruct (tcg_temp_free_internal s idx) as [s'|e]; tauto.
Qed.

(** ** Helper calls *)

Definition ctx_of (s : Gen) : TCGContext := mkTCGContext (g_globals s) (map is_local (take (Z.to_nat (g_temps s)) (temps s))).

(** The buffers hold a well-formed block whose calls name their functions. *)
Record emits (s : Gen) (p : list Insn) : Prop := {
  em_opc : g_opc s = map opcode_of p;
  em_opparam : g_opparam s = enc p;
  em_ok : Forall (insn_ok (ctx_of s)) p;
  em_calls : calls_known (ctx_of s) p = true
}.

Lemma ctx_temps s : alloc_ok s -> nb_temps (ctx_of s) = g_temps s.
Proof.
  intros A. pose proof (al_globals s A). pose proof (al_temps s A). pose proof (al_array s A) as L. unfold len in L.
  unfold nb_temps, ctx_of. cbn. rewrite length_map, length_take. lia.
Qed.
Lemma ctx_of_ok s : alloc_ok s -> ctx_ok (ctx_of s).
Proof.
  intros A. pose proof (al_globals s A). pose proof (al_temps s A) as L. split; rewrite (ctx_temps s A); [done|]. unfold TCG_MAX_TEMPS in L. lia.
Qed.

(** More temporaries keep a block well-formed. *)
Section Grow.
Context (c c' : TCGContext) (Eg : nb_globals c' = nb_globals c) (Lt : nb_temps c <= nb_temps c').
Lemma temp_ok_grow t : temp_ok c t -> temp_ok c' t.
Proof. unfold temp_ok. lia. Qed.
Lemma temps_ok_grow l : Forall (temp_ok c) l -> Forall (temp_ok c') l.
Proof. apply Forall_impl, temp_ok_grow. Qed.
Lemma insn_ok_grow i : insn_ok c i -> insn_ok c' i.
Proof.
  destruct i as [o a fl|raw|op o a k]; cbn; [|done|].
  - intros (? & ? & Fo & Fa). split_and!; [done.. | by apply temps_ok_grow|]. eapply Forall_impl; [|exact Fa]. intros x [?|?]; [by left | right; by apply temp_ok_grow].
  - intros (? & ? & ? & ? & ? & Fo & Fa). split_and!; [done.. | by apply temps_ok_grow | by apply temps_ok_grow].
Qed.
Lemma call_known_grow k i : call_known c k i = true -> call_known c' k i = true.
Proof.
  destruct i as [o a fl| |]; try done. intros (t & v & Et & H1 & H2 & Ek)%call_known_fn. cbn. rewrite Et, Ek, bool_decide_true by done. lia.
Qed.
End Grow.

Lemma known_at_app p q pc : (pc <= length p)%nat -> known_at (p ++ q) pc = known_at p pc.
Proof. intros L. unfold known_at. by rewrite take_app_le. Qed.

Lemma calls_known_app c p fn func o a fl : calls_known c p = true -> nb_globals c <= fn < nb_temps c ->
  calls_known c (p ++ [IOp INDEX_op_movi_i64 [fn] [] [func]; ICall o (a ++ [fn]) fl]) = true.
Proof.
  intros K R. apply calls_known_intro. intros pc i E. set (q := [_; _]) in *. destruct (Nat.lt_ge_cases pc (length p)) as [L|L].
  - rewrite lookup_app_l in E by done. rewrite known_at_app by lia. by apply (calls_known_at c p).
  - rewrite lookup_app_r in E by done. destruct (pc - length p)%nat as [|[|]] eqn:D; cbn in E; [by injection E as <-| |done].
    injection E as <-. assert (pc = S (length p)) as -> by lia. cbn. unfold fn_of. rewrite length_app. cbn. rewrite lookup_app_r by lia. replace (length a + 1 - 1 - length a)%nat with 0%nat by lia. cbn.
    assert (Ep : (p ++ q) !! length p = Some (IOp INDEX_op_movi_i64 [fn] [] [func])) by (by rewrite lookup_app_r, Nat.sub_diag).
    rewrite (known_at_step _ _ _ Ep). cbn. rewrite !(bool_decide_true (fn ∈ [fn])) by set_solver. cbn. rewrite bool_decide_true by done. lia.
Qed.

Lemma new_buffers s type local idx s' : tcg_temp_new_internal s type local = Ok (idx, s') -> g_opc s' = g_opc s /\ g_opparam s' = g_opparam s.
Proof.
  unfold tcg_temp_new_internal. destruct (arg_at _ _) as [x|e]; [|done]. cbn [res_bind]. destruct (negb (x =? -1)).
  - destruct (temps s !! _); [|done]. destruct (negb _); [done|]. by intros [= <- <-].
  - destruct (tcg_temp_alloc _); [|done]. cbn [res_bind]. destruct (temps s !! _); [|done]. by intros [= <- <-].
Qed.
Lemma free_buffers s idx s' : tcg_temp_free_internal s idx = Ok s' -> g_opc s' = g_opc s /\ g_opparam s' = g_opparam s.
Proof.
  unfold tcg_temp_free_internal. destruct (negb _); [done|]. destruct (temps s !! _); [|done]. destruct (negb _); [done|]. destruct (arg_at _ _); [|done]. by intros [= <-].
Qed.
Lemma alloc_buffers s x y : alloc_ok s -> alloc_ok (s <| g_opc := x |> <| g_opparam := y |>).
Proof. intros [A1 A2 A3 A4 A5 A6]. by split. Qed.

Definition rets_of (ret : Z) : list Z := if negb (ret =? TCG_CALL_DUMMY_ARG) then [ret] else [].

(** What is written to the buffers for a call is its encoding. *)
Lemma callN_enc s fn flags ret args : g_opc (tcg_gen_callN s fn flags ret args) = g_opc s ++ [opcode_of (ICall (rets_of ret) (args ++ [fn]) flags)] /\
  g_opparam (tcg_gen_callN s fn flags ret args) = g_opparam s ++ params_of (ICall (rets_of ret) (args ++ [fn]) flags).
Proof.
  split; [done|]. cbn [tcg_gen_callN params_of]. unfold tcg_gen_callN. cbn. fold (rets_of ret). rewrite len_app. change (len [fn]) with 1.
  rewrite <- app_assoc. cbn. do 4 f_equal. do 2 f_equal. f_equal. lia.
Qed.

(** C11: [tcg_gen_helperN] appends to the block under translation a constant
    with the address of the helper, in a temporary that was not in use, and the
    call in the encoding the later passes read; the block stays well-formed,
    with calls whose functions are known, and the temporary is given back.  It
    only fails when no temporary is left. *)
Theorem helper_call_emitted s p func flags ret args :
  alloc_ok s -> emits s p -> ret = TCG_CALL_DUMMY_ARG \/ temp_ok (ctx_of s) ret -> Forall (temp_ok (ctx_of s)) args -> len args < 2 ^ 16 - 1 ->
  match tcg_gen_helperN s func flags ret args with
  | Ok s' => exists fn, in_use s fn = None /\ alloc_ok s' /\ (forall x, in_use s' x = in_use s x) /\
      emits s' (p ++ [IOp INDEX_op_movi_i64 [fn] [] [func]; ICall (rets_of ret) (args ++ [fn]) flags])
  | Fail e => e = AbortCalled /\ g_temps s = TCG_MAX_TEMPS
  end.
Proof.
  intros A [Eo Ep F K] Hr Fa La. pose proof (al_globals s A) as G. unfold tcg_gen_helperN, tcg_const_i64. pose proof (temp_new_spec s TCG_TYPE_I64 false A (or_intror eq_refl)) as H.
  destruct (tcg_temp_new_internal s TCG_TYPE_I64 false) as [[fn s1]|e] eqn:E1; [|cbn; tauto]. destruct H as (A1 & U & U1 & Eg1 & Et1). destruct (new_buffers _ _ _ _ _ E1) as [B1 B2]. cbn [res_bind].
  set (s3 := tcg_gen_callN (tcg_gen_movi_i64 s1 fn func) fn flags ret args). destruct (callN_enc (tcg_gen_movi_i64 s1 fn func) fn flags ret args) as [C1 C2]. fold s3 in C1, C2.
  assert (A3 : alloc_ok s3) by (unfold s3; apply alloc_buffers, alloc_buffers, A1). assert (U3 : forall x, in_use s3 x = in_use s1 x) by done.
  assert (R : g_globals s1 <= fn < g_temps s1).
  { pose proof (U1 fn) as X. rewrite Z.eqb_refl in X. unfold in_use in X. destruct (Z.leb_spec (g_globals s1) fn), (Z.ltb_spec fn (g_temps s1)); cbn in X; done || lia. }
  pose proof (temp_free_spec s3 fn A3) as H. rewrite U3, U1, Z.eqb_refl in H. destruct (tcg_temp_free_internal s3 fn) as [s'|e] eqn:E3; [|by destruct H].
  destruct H as (A' & _ & U' & Eg' & Et'). destruct (free_buffers _ _ _ E3) as [D1 D2]. change (g_globals s3) with (g_globals s1) in Eg'. change (g_temps s3) with (g_temps s1) in Et'.
  exists fn. split_and!; [done | done | |].
  - intros x. rewrite U'. destruct (Z.eqb_spec x fn) as [->|N]; [done|]. rewrite U3, U1. by destruct (Z.eqb_spec x fn).
  - assert (Eg : nb_globals (ctx_of s') = nb_globals (ctx_of s)) by (cbn; lia).
    assert (Lt : nb_temps (ctx_of s) <= nb_temps (ctx_of s')) by (rewrite !ctx_temps by done; lia).
    assert (Tf : temp_ok (ctx_of s') fn) by (unfold temp_ok; rewrite ctx_temps by done; lia). split.
    + rewrite D1, C1, map_app. cbn. by rewrite B1, Eo, <- app_assoc.
    + rewrite D2, C2. unfold enc. rewrite map_app, concat_app. cbn [map concat params_of]. rewrite app_nil_r. cbn [tcg_gen_movi_i64 tcg_gen_op2i_i64]. cbn. rewrite B2, Ep, <- app_assoc. done.
    + apply Forall_app. split; [eapply Forall_impl; [|exact F]; intros i; by apply insn_ok_grow|]. constructor; [split_and!; try done; by constructor|]. constructor; [|done].
      assert (Lr : len (rets_of ret) <= 1) by (unfold rets_of; by destruct (negb _)).
      split_and!; [lia | rewrite len_app; change (len [fn]) with 1; lia | |].
      * unfold rets_of. destruct (Z.eqb_spec ret TCG_CALL_DUMMY_ARG); [done|]. constructor; [|done]. destruct Hr as [|Hr]; [done|]. by apply (temp_ok_grow (ctx_of s)).
      * apply temps_args, Forall_app. split; [by apply (temps_ok_grow (ctx_of s)) | by constructor].
    + apply calls_known_app; [|rewrite ctx_temps by done; cbn; lia]. apply calls_known_intro. intros pc i Ei. apply (call_known_grow (ctx_of s)); [done..|]. by apply (calls_known_at (ctx_of s) p).
Qed.

End TcgGen.
