(* ===== verification/TcgReg.v ===== *)
(** * Register allocation for intermediate code

    The register allocator of src/s2e/qemu/tcg/tcg.c and the operand
    constraints of the 64-bit x86 host (tcg/x86_64/tcg-target.c).  What it emits
    is a list of host operations ([Host]), one per call of a [tcg_out] function;
    how these are encoded in bytes is left open. *)

From stdpp Require Import list.
From Stdlib Require Import Ascii String.
From stdpp Require Import list.
From S2P Require Import Prelude Tcg TcgLive.

Module TcgReg.
Import Tcg TcgLive.
Open Scope string_scope.
Open Scope list_scope.
Open Scope Z_scope.

(** ** The host *)

Definition TCG_TARGET_NB_REGS : Z := 16.
Definition TCG_REG_RAX : Z := 0.
Definition TCG_REG_RCX : Z := 1.
Definition TCG_REG_RDX : Z := 2.
Definition TCG_REG_RBX : Z := 3.
Definition TCG_REG_RSP : Z := 4.
Definition TCG_REG_RBP : Z := 5.
Definition TCG_REG_RSI : Z := 6.
Definition TCG_REG_RDI : Z := 7.
Definition TCG_REG_R8 : Z := 8.
Definition TCG_REG_R9 : Z := 9.
Definition TCG_REG_R10 : Z := 10.
Definition TCG_REG_R11 : Z := 11.
Definition TCG_REG_R12 : Z := 12.
Definition TCG_REG_R13 : Z := 13.
Definition TCG_REG_R14 : Z := 14.
Definition TCG_REG_R15 : Z := 15.

Definition tcg_target_reg_alloc_order : list Z :=
  [TCG_REG_RBP; TCG_REG_RBX; TCG_REG_R12; TCG_REG_R13; TCG_REG_R14; TCG_REG_R15; TCG_REG_R10; TCG_REG_R11; TCG_REG_R9; TCG_REG_R8;
   TCG_REG_RCX; TCG_REG_RDX; TCG_REG_RSI; TCG_REG_RDI; TCG_REG_RAX].
Definition tcg_target_call_iarg_regs : list Z := [TCG_REG_RDI; TCG_REG_RSI; TCG_REG_RDX; TCG_REG_RCX; TCG_REG_R8; TCG_REG_R9].
Definition tcg_target_call_oarg_regs : list Z := [TCG_REG_RAX; TCG_REG_RDX].
Definition tcg_target_get_call_iarg_regs_count : Z := 6.
Definition tcg_target_available_regs : Z := 0xffff.
Definition tcg_target_call_clobber_regs : Z :=
  foldr (fun r m => Z.lor (Z.shiftl 1 r) m) 0
    [TCG_REG_RDI; TCG_REG_RSI; TCG_REG_RDX; TCG_REG_RCX; TCG_REG_R8; TCG_REG_R9; TCG_REG_RAX; TCG_REG_R10; TCG_REG_R11].
Definition TCG_STATIC_CALL_ARGS_SIZE : Z := 128.
Definition TCG_TARGET_STACK_ALIGN : Z := 16.
Definition TCG_TARGET_CALL_STACK_OFFSET : Z := 0.

(** *** Operand constraints *)

Definition TCG_CT_ALIAS : Z := 0x80.
Definition TCG_CT_IALIAS : Z := 0x40.
Definition TCG_CT_REG : Z := 0x01.
Definition TCG_CT_CONST : Z := 0x02.
Definition TCG_CT_CONST_S32 : Z := 0x100.
Definition TCG_CT_CONST_U32 : Z := 0x200.

Record TCGArgConstraint := mkCt {
  ct : Z;
  alias_index : Z;
  regs : Z
}.
#[export] Instance TCGArgConstraint_eta : RecordEta TCGArgConstraint := fields mkCt < ct ; alias_index ; regs >.

Definition regset_set (d r : Z) : Z := Z.lor d (Z.shiftl 1 r).
Definition regset_reset (d r : Z) : Z := Z.land d (Z.lnot (Z.shiftl 1 r)).
Definition regset_test (d r : Z) : bool := nz (Z.land (Z.shiftr d r) 1).
Definition ct_has (c : TCGArgConstraint) (f : Z) : bool := nz (Z.land (ct c) f).

Definition x86_64_op_defs (op : TCGOpcode) : list string :=
  match op with
  | INDEX_op_call | INDEX_op_jmp => ["ri"]
  | INDEX_op_mov_i32 | INDEX_op_mov_i64
  | INDEX_op_ld8u_i32 | INDEX_op_ld8s_i32 | INDEX_op_ld16u_i32 | INDEX_op_ld16s_i32 | INDEX_op_ld_i32
  | INDEX_op_st8_i32 | INDEX_op_st16_i32 | INDEX_op_st_i32
  | INDEX_op_ld8u_i64 | INDEX_op_ld8s_i64 | INDEX_op_ld16u_i64 | INDEX_op_ld16s_i64 | INDEX_op_ld32u_i64 | INDEX_op_ld32s_i64 | INDEX_op_ld_i64
  | INDEX_op_st8_i64 | INDEX_op_st16_i64 | INDEX_op_st32_i64 | INDEX_op_st_i64
  | INDEX_op_ext8s_i32 | INDEX_op_ext16s_i32 | INDEX_op_ext8s_i64 | INDEX_op_ext16s_i64 | INDEX_op_ext32s_i64
  | INDEX_op_ext8u_i32 | INDEX_op_ext16u_i32 | INDEX_op_ext8u_i64 | INDEX_op_ext16u_i64 | INDEX_op_ext32u_i64 => ["r"; "r"]
  | INDEX_op_movi_i32 | INDEX_op_movi_i64 => ["r"]
  | INDEX_op_add_i32 | INDEX_op_mul_i32 | INDEX_op_sub_i32 | INDEX_op_and_i32 | INDEX_op_or_i32 | INDEX_op_xor_i32 => ["r"; "0"; "ri"]
  | INDEX_op_div2_i32 | INDEX_op_divu2_i32 | INDEX_op_div2_i64 | INDEX_op_divu2_i64 => ["a"; "d"; "0"; "1"; "r"]
  | INDEX_op_shl_i32 | INDEX_op_shr_i32 | INDEX_op_sar_i32 | INDEX_op_rotl_i32 | INDEX_op_rotr_i32
  | INDEX_op_shl_i64 | INDEX_op_shr_i64 | INDEX_op_sar_i64 | INDEX_op_rotl_i64 | INDEX_op_rotr_i64 => ["r"; "0"; "ci"]
  | INDEX_op_brcond_i32 => ["r"; "ri"]
  | INDEX_op_brcond_i64 => ["r"; "re"]
  | INDEX_op_add_i64 | INDEX_op_mul_i64 | INDEX_op_sub_i64 | INDEX_op_or_i64 | INDEX_op_xor_i64 => ["r"; "0"; "re"]
  | INDEX_op_and_i64 => ["r"; "0"; "reZ"]
  | INDEX_op_bswap16_i32 | INDEX_op_bswap16_i64 | INDEX_op_bswap32_i32 | INDEX_op_bswap32_i64 | INDEX_op_bswap64_i64
  | INDEX_op_neg_i32 | INDEX_op_neg_i64 | INDEX_op_not_i32 | INDEX_op_not_i64 => ["r"; "0"]
  | INDEX_op_qemu_ld8u | INDEX_op_qemu_ld8s | INDEX_op_qemu_ld16u | INDEX_op_qemu_ld16s | INDEX_op_qemu_ld32u | INDEX_op_qemu_ld32s | INDEX_op_qemu_ld64 => ["r"; "L"]
  | INDEX_op_qemu_st8 | INDEX_op_qemu_st16 | INDEX_op_qemu_st32 | INDEX_op_qemu_st64 => ["L"; "L"]
  | _ => []
  end.

Definition target_parse_constraint (c : TCGArgConstraint) (x : ascii) : Res TCGArgConstraint :=
  let reg r := Ok (c <| ct := Z.lor (ct c) TCG_CT_REG |> <| regs := regset_set (regs c) r |>) in
  match x with
  | "a"%char => reg TCG_REG_RAX
  | "b"%char => reg TCG_REG_RBX
  | "c"%char => reg TCG_REG_RCX
  | "d"%char => reg TCG_REG_RDX
  | "S"%char => reg TCG_REG_RSI
  | "D"%char => reg TCG_REG_RDI
  | "q"%char => Ok (c <| ct := Z.lor (ct c) TCG_CT_REG |> <| regs := Z.lor (regs c) 0xf |>)
  | "r"%char => Ok (c <| ct := Z.lor (ct c) TCG_CT_REG |> <| regs := Z.lor (regs c) 0xffff |>)
  | "L"%char => Ok (c <| ct := Z.lor (ct c) TCG_CT_REG |> <| regs := regset_reset (regset_reset (Z.lor (regs c) 0xffff) TCG_REG_RSI) TCG_REG_RDI |>)
  | "e"%char => Ok (c <| ct := Z.lor (ct c) TCG_CT_CONST_S32 |>)
  | "Z"%char => Ok (c <| ct := Z.lor (ct c) TCG_CT_CONST_U32 |>)
  | _ => Fail HwError
  end.

Fixpoint parse_constraint (c : TCGArgConstraint) (str : string) : Res TCGArgConstraint :=
  match str with
  | EmptyString => Ok c
  | String x str =>
      let* c := if Ascii.eqb x "i"%char then Ok (c <| ct := Z.lor (ct c) TCG_CT_CONST |>) else target_parse_constraint c x in
      parse_constraint c str
  end.

(** A constraint that starts with a digit ties an input to an output. *)
Definition digit (str : string) : option Z :=
  match str with
  | String x _ => let n := Z.of_nat (Ascii.nat_of_ascii x) - 48 in if (0 <=? n) && (n <=? 9) then Some n else None
  | EmptyString => None
  end.

Definition add_constraint (def : TCGOpDef) (args_ct : list TCGArgConstraint) (i : Z) (str : string) : Res (list TCGArgConstraint) :=
  match digit str with
  | Some oarg =>
      if negb (oarg <? nb_oargs def) then Fail AssertFail
      else
        match args_ct !! Z.to_nat oarg with
        | None => Fail OutOfBounds
        | Some oc =>
            if negb (ct_has oc TCG_CT_REG) then Fail AssertFail
            else
              let args_ct := <[Z.to_nat oarg := oc <| ct := TCG_CT_ALIAS |> <| alias_index := i |>]> args_ct in
              Ok (args_ct ++ [oc <| ct := Z.lor (ct oc) TCG_CT_IALIAS |> <| alias_index := oarg |>])
        end
  | None => let* c := parse_constraint (mkCt 0 0 0) str in Ok (args_ct ++ [c])
  end.
Fixpoint add_constraints (def : TCGOpDef) (args_ct : list TCGArgConstraint) (i : Z) (strs : list string) : Res (list TCGArgConstraint) :=
  match strs with
  | [] => Ok args_ct
  | str :: strs => let* args_ct := add_constraint def args_ct i str in add_constraints def args_ct (i + 1) strs
  end.

Definition get_constraint_priority (args_ct : list TCGArgConstraint) (k : Z) : Z :=
  match args_ct !! Z.to_nat k with
  | None => 0
  | Some c =>
      if ct_has c TCG_CT_ALIAS then TCG_TARGET_NB_REGS - 1 + 1
      else if negb (ct_has c TCG_CT_REG) then 0
      else TCG_TARGET_NB_REGS - Z.of_nat (length (filter (fun i => regset_test (regs c) i = true) (seqZ 0 TCG_TARGET_NB_REGS))) + 1
  end.

(** The exchanges of the inner loop: the head against every later element. *)
Fixpoint sort_inner (args_ct : list TCGArgConstraint) (x : Z) (l : list Z) : Z * list Z :=
  match l with
  | [] => (x, [])
  | y :: l =>
      if get_constraint_priority args_ct x <? get_constraint_priority args_ct y then let '(h, l') := sort_inner args_ct y l in (h, x :: l')
      else let '(h, l') := sort_inner args_ct x l in (h, y :: l')
  end.
Fixpoint sort_outer (args_ct : list TCGArgConstraint) (n : nat) (l : list Z) : list Z :=
  match n, l with
  | S n, x :: l => let '(h, l') := sort_inner args_ct x l in h :: sort_outer args_ct n l'
  | _, _ => l
  end.
Definition sort_constraints (args_ct : list TCGArgConstraint) (start n : Z) : list Z := sort_outer args_ct (Z.to_nat n) (seqZ start n).

(** The constraints of an operation, its outputs and its inputs in order. *)
Record Constraints := mkConstraints {
  args_ct : list TCGArgConstraint;
  sorted_oargs : list Z;
  sorted_iargs : list Z
}.
Definition tcg_add_target_add_op_defs (op : TCGOpcode) : Res Constraints :=
  let def := tcg_op_defs op in
  let* cts := add_constraints def [] 0 (x86_64_op_defs op) in
  Ok (mkConstraints cts (sort_constraints cts 0 (nb_oargs def)) (sort_constraints cts (nb_oargs def) (nb_iargs def))).

Definition tcg_target_const_match (val : Z) (arg_ct : TCGArgConstraint) : bool :=
  if ct_has arg_ct TCG_CT_CONST then true
  else if ct_has arg_ct TCG_CT_CONST_S32 && (val =? u64 (s32 val)) then true
  else if ct_has arg_ct TCG_CT_CONST_U32 && (val =? u32 val) then true
  else false.
(** ** State of the allocator *)

Inductive ValType := TEMP_VAL_DEAD | TEMP_VAL_REG | TEMP_VAL_MEM | TEMP_VAL_CONST.
#[export] Instance ValType_eq : EqDecision ValType.
Proof. solve_decision. Defined.

Record Temp := mkTemp {
  type : Z;
  val_type : ValType;
  reg : Z;
  val : Z;
  mem_reg : Z;
  mem_offset : Z;
  fixed_reg : bool;
  mem_coherent : bool;
  mem_allocated : bool;
  is_temp_local : bool
}.
#[export] Instance Temp_eta : RecordEta Temp :=
  fields mkTemp < type ; val_type ; reg ; val ; mem_reg ; mem_offset ; fixed_reg ; mem_coherent ; mem_allocated ; is_temp_local >.

(** What is emitted, in the order of the calls.  With a call go the types of the
    parameters that are passed: the function knows them, they are not emitted. *)
Inductive Host :=
| OMov (ret arg : Z)
| OMovi (type ret arg : Z)
| OLd (type ret base offset : Z)
| OSt (type arg base offset : Z)
| OAddi (reg : Z) (v : Z)
| OLabel (l : Z)
| OOp (op : TCGOpcode) (new_args : list Z) (const_args : list bool)
| OCall (func : Z) (const_func : bool) (flags : Z) (params : list (option Z)).

Record RA := mkRA {
  ra_globals : Z;
  ra_temps : list Temp;
  reg_to_temp : list Z;
  reserved_regs : Z;
  current_frame_offset : Z;
  frame_end : Z;
  frame_reg : Z;
  code : list Host
}.
#[export] Instance RA_eta : RecordEta RA :=
  fields mkRA < ra_globals ; ra_temps ; reg_to_temp ; reserved_regs ; current_frame_offset ; frame_end ; frame_reg ; code >.

Definition tcg_out (s : RA) (i : Host) : RA := s <| code := code s ++ [i] |>.

Definition temp_at (s : RA) (t : Z) : Res Temp :=
  if t <? 0 then Fail OutOfBounds else match ra_temps s !! Z.to_nat t with Some ts => Ok ts | None => Fail OutOfBounds end.
Definition put_temp (s : RA) (t : Z) (ts : Temp) : RA := s <| ra_temps := <[Z.to_nat t := ts]> (ra_temps s) |>.
Definition put_reg (s : RA) (r t : Z) : RA := s <| reg_to_temp := <[Z.to_nat r := t]> (reg_to_temp s) |>.

Definition check_reg (s : RA) (r : Z) : Res unit :=
  let* k := arg_at (reg_to_temp s) r in
  if 0 <=? k then
    let* ts := temp_at s k in
    if bool_decide (val_type ts <> TEMP_VAL_REG) || negb (reg ts =? r) then Fail AbortCalled else Ok tt
  else Ok tt.
Definition check_temp (s : RA) (k : Z) : Res unit :=
  let* ts := temp_at s k in
  if bool_decide (val_type ts = TEMP_VAL_REG) && negb (fixed_reg ts) then
    let* k' := arg_at (reg_to_temp s) (reg ts) in if negb (k' =? k) then Fail AbortCalled else Ok tt
  else Ok tt.
Fixpoint all_ok (f : Z -> Res unit) (l : list Z) : Res unit :=
  match l with
  | [] => Ok tt
  | x :: l => let* _ := f x in all_ok f l
  end.
Definition check_regs (s : RA) : Res unit :=
  let* _ := all_ok (check_reg s) (seqZ 0 TCG_TARGET_NB_REGS) in
  all_ok (check_temp s) (seqZ 0 (Z.of_nat (length (ra_temps s)))).

Definition start_temp (nb_globals : Z) (i : nat) (ts : Temp) : Temp :=
  if Z.of_nat i <? nb_globals then ts <| val_type := if fixed_reg ts then TEMP_VAL_REG else TEMP_VAL_MEM |>
  else ts <| val_type := TEMP_VAL_DEAD |> <| mem_allocated := false |> <| fixed_reg := false |>.
Definition tcg_reg_alloc_start (s : RA) : RA :=
  s <| ra_temps := imap (start_temp (ra_globals s)) (ra_temps s) |> <| reg_to_temp := replicate (Z.to_nat TCG_TARGET_NB_REGS) (-1) |>.

(** ** Primitives *)

Definition temp_allocate_frame (s : RA) (temp : Z) : Res RA :=
  let* ts := temp_at s temp in
  let off := Z.land (current_frame_offset s + 8 - 1) (Z.lnot (8 - 1)) in
  let s := s <| current_frame_offset := off |> in
  if frame_end s <? off + 8 then Fail AbortCalled
  else
    let s := put_temp s temp (ts <| mem_offset := off |> <| mem_reg := frame_reg s |> <| mem_allocated := true |>) in
    Ok (s <| current_frame_offset := off + 8 |>).

(** The store of a register to the memory of a temporary. *)
Definition spill (s : RA) (temp r : Z) : Res RA :=
  let* ts := temp_at s temp in
  let* s := if negb (mem_allocated ts) then temp_allocate_frame s temp else Ok s in
  let* ts := temp_at s temp in
  Ok (tcg_out s (OSt (type ts) r (mem_reg ts) (mem_offset ts))).

Definition tcg_reg_free (s : RA) (r : Z) : Res RA :=
  let* temp := arg_at (reg_to_temp s) r in
  if negb (temp =? -1) then
    let* ts := temp_at s temp in
    if bool_decide (val_type ts <> TEMP_VAL_REG) then Fail AssertFail
    else
      let* s := if negb (mem_coherent ts) then spill s temp r else Ok s in
      let* ts := temp_at s temp in
      Ok (put_reg (put_temp s temp (ts <| val_type := TEMP_VAL_MEM |>)) r (-1))
  else Ok s.

Definition tcg_reg_alloc (s : RA) (reg1 reg2 : Z) : Res (Z * RA) :=
  let reg_ct := Z.land reg1 (Z.lnot reg2) in
  match List.find (fun r => regset_test reg_ct r && (nth (Z.to_nat r) (reg_to_temp s) 0 =? -1)) tcg_target_reg_alloc_order with
  | Some r => Ok (r, s)
  | None =>
      match List.find (regset_test reg_ct) tcg_target_reg_alloc_order with
      | Some r => let* s := tcg_reg_free s r in Ok (r, s)
      | None => Fail AbortCalled
      end
  end.

Definition temp_save (s : RA) (temp allocated_regs : Z) : Res RA :=
  let* ts := temp_at s temp in
  if negb (fixed_reg ts) then
    match val_type ts with
    | TEMP_VAL_REG => tcg_reg_free s (reg ts)
    | TEMP_VAL_DEAD => Ok (put_temp s temp (ts <| val_type := TEMP_VAL_MEM |>))
    | TEMP_VAL_CONST =>
        let* (r, s) := tcg_reg_alloc s tcg_target_available_regs allocated_regs in
        let* ts := temp_at s temp in
        let* s := if negb (mem_allocated ts) then temp_allocate_frame s temp else Ok s in
        let* ts := temp_at s temp in
        let s := tcg_out s (OMovi (type ts) r (val ts)) in
        let s := tcg_out s (OSt (type ts) r (mem_reg ts) (mem_offset ts)) in
        Ok (put_temp s temp (ts <| val_type := TEMP_VAL_MEM |>))
    | TEMP_VAL_MEM => Ok s
    end
  else Ok s.

Fixpoint for_temps (f : RA -> Z -> Res RA) (l : list Z) (s : RA) : Res RA :=
  match l with
  | [] => Ok s
  | t :: l => let* s := f s t in for_temps f l s
  end.

Definition save_globals (s : RA) (allocated_regs : Z) : Res RA :=
  for_temps (fun s i => temp_save s i allocated_regs) (seqZ 0 (ra_globals s)) s.

(** The register of a temporary is given up. *)
Definition drop_reg (s : RA) (ts : Temp) : RA := if bool_decide (val_type ts = TEMP_VAL_REG) then put_reg s (reg ts) (-1) else s.
Definition mark_dead (s : RA) (t : Z) : Res RA :=
  let* ts := temp_at s t in
  Ok (put_temp (drop_reg s ts) t (ts <| val_type := TEMP_VAL_DEAD |>)).

Definition bb_end_temp (allocated_regs : Z) (s : RA) (i : Z) : Res RA :=
  let* ts := temp_at s i in
  if is_temp_local ts then temp_save s i allocated_regs else mark_dead s i.
Definition tcg_reg_alloc_bb_end (s : RA) (allocated_regs : Z) : Res RA :=
  let* s := for_temps (bb_end_temp allocated_regs) (seqZ (ra_globals s) (Z.of_nat (length (ra_temps s)) - ra_globals s)) s in
  save_globals s allocated_regs.

(** ** Moves *)

Definition IS_DEAD_IARG (dead_iargs n : Z) : bool := nz (Z.land (Z.shiftr dead_iargs n) 1).

Definition tcg_reg_alloc_movi (s : RA) (dst v : Z) : Res RA :=
  let* ots := temp_at s dst in
  if fixed_reg ots then Ok (tcg_out s (OMovi (type ots) (reg ots) v))
  else Ok (put_temp (drop_reg s ots) dst (ots <| val_type := TEMP_VAL_CONST |> <| val := v |>)).

(** The destination is in register [r]. *)
Definition set_result (s : RA) (dst r : Z) : Res RA :=
  let* ots := temp_at s dst in
  Ok (put_temp (put_reg s r dst) dst (ots <| reg := r |> <| val_type := TEMP_VAL_REG |> <| mem_coherent := false |>)).

Definition mov_target (s : RA) (ots : Temp) (regs : Z) : Res (Z * RA) :=
  if bool_decide (val_type ots = TEMP_VAL_REG) then Ok (reg ots, s) else tcg_reg_alloc s regs (reserved_regs s).

Definition tcg_reg_alloc_mov (s : RA) (arg_ct : TCGArgConstraint) (dst src dead_iargs : Z) : Res RA :=
  let* ots := temp_at s dst in
  let* ts := temp_at s src in
  match val_type ts with
  | TEMP_VAL_REG =>
      if IS_DEAD_IARG dead_iargs 0 && negb (fixed_reg ts) && negb (fixed_reg ots) then
        let s := drop_reg s ots in
        let s := put_reg s (reg ts) (-1) in
        let s := put_temp s src (ts <| val_type := TEMP_VAL_DEAD |>) in
        set_result s dst (reg ts)
      else
        let* (r, s) := mov_target s ots (regs arg_ct) in
        let* ts := temp_at s src in
        let s := if negb (reg ts =? r) then tcg_out s (OMov r (reg ts)) else s in
        set_result s dst r
  | TEMP_VAL_MEM =>
      let* (r, s) := mov_target s ots (regs arg_ct) in
      let s := tcg_out s (OLd (type ts) r (mem_reg ts) (mem_offset ts)) in
      set_result s dst r
  | TEMP_VAL_CONST =>
      if fixed_reg ots then set_result (tcg_out s (OMovi (type ots) (reg ots) (val ts))) dst (reg ots)
      else Ok (put_temp (drop_reg s ots) dst (ots <| val_type := TEMP_VAL_CONST |> <| val := val ts |>))
  | TEMP_VAL_DEAD => Fail AbortCalled
  end.

(** ** Operations *)

Definition is_ct (cs : Constraints) (i : Z) : Res TCGArgConstraint := match args_ct cs !! Z.to_nat i with Some c => Ok c | None => Fail OutOfBounds end.

(** An input in register or constant form; the result is the state, the
    registers in use, and the new argument with its kind. *)
Definition move_input (s : RA) (t : Z) (ts : Temp) (c : TCGArgConstraint) (allocated_regs : Z) : Res (RA * Z * Z) :=
  let* (r, s) := tcg_reg_alloc s (regs c) allocated_regs in
  let s := tcg_out s (OMov r (reg ts)) in
  Ok (s, regset_set allocated_regs r, r).

Definition input_in_reg (s : RA) (args : list Z) (nb_oargs i dead_iargs t : Z) (c : TCGArgConstraint) (allocated_regs : Z) : Res (RA * Z * Z) :=
  let* ts := temp_at s t in
  if bool_decide (val_type ts <> TEMP_VAL_REG) then Fail AssertFail
  else
    let* must_copy :=
      if ct_has c TCG_CT_IALIAS then
        if fixed_reg ts then let* alias := arg_at args (alias_index c) in Ok (negb (t =? alias)) else Ok (negb (IS_DEAD_IARG dead_iargs (i - nb_oargs)))
      else Ok false in
    if negb must_copy && regset_test (regs c) (reg ts) then Ok (s, regset_set allocated_regs (reg ts), reg ts)
    else move_input s t ts c allocated_regs.

Definition load_input (s : RA) (t : Z) (ts : Temp) (c : TCGArgConstraint) (allocated_regs : Z) : Res RA :=
  let* (r, s) := tcg_reg_alloc s (regs c) allocated_regs in
  let s := if bool_decide (val_type ts = TEMP_VAL_MEM) then tcg_out s (OLd (type ts) r (mem_reg ts) (mem_offset ts)) else tcg_out s (OMovi (type ts) r (val ts)) in
  let* ts' := temp_at s t in
  let s := put_temp s t (ts' <| val_type := TEMP_VAL_REG |> <| reg := r |> <| mem_coherent := bool_decide (val_type ts = TEMP_VAL_MEM) |>) in
  Ok (put_reg s r t).

Definition alloc_input (s : RA) (cs : Constraints) (args : list Z) (nb_oargs dead_iargs i allocated_regs : Z) : Res (RA * Z * Z * bool) :=
  let* t := arg_at args i in
  let* c := is_ct cs i in
  let* ts := temp_at s t in
  match val_type ts with
  | TEMP_VAL_CONST =>
      if tcg_target_const_match (val ts) c then Ok (s, allocated_regs, val ts, true)
      else
        let* s := load_input s t ts c allocated_regs in
        let* (s, a, r) := input_in_reg s args nb_oargs i dead_iargs t c allocated_regs in Ok (s, a, r, false)
  | TEMP_VAL_MEM =>
      let* s := load_input s t ts c allocated_regs in
      let* (s, a, r) := input_in_reg s args nb_oargs i dead_iargs t c allocated_regs in Ok (s, a, r, false)
  | _ => let* (s, a, r) := input_in_reg s args nb_oargs i dead_iargs t c allocated_regs in Ok (s, a, r, false)
  end.

Fixpoint alloc_inputs (s : RA) (cs : Constraints) (args : list Z) (nb_oargs dead_iargs : Z) (order : list Z) (allocated_regs : Z) (new_args : list Z) (const_args : list bool) :
  Res (RA * Z * list Z * list bool) :=
  match order with
  | [] => Ok (s, allocated_regs, new_args, const_args)
  | i :: order =>
      let* (s, a, x, k) := alloc_input s cs args nb_oargs dead_iargs i allocated_regs in
      alloc_inputs s cs args nb_oargs dead_iargs order a (<[Z.to_nat i := x]> new_args) (<[Z.to_nat i := k]> const_args)
  end.

(** The inputs that are not needed any more. *)
Fixpoint dead_inputs (s : RA) (inputs : list Z) (i dead_iargs : Z) : Res RA :=
  match inputs with
  | [] => Ok s
  | t :: inputs =>
      let* s :=
        if IS_DEAD_IARG dead_iargs i then let* ts := temp_at s t in if negb (fixed_reg ts) then mark_dead s t else Ok s
        else Ok s in
      dead_inputs s inputs (i + 1) dead_iargs
  end.

Definition clobber_call_regs (s : RA) : Res RA :=
  for_temps (fun s r => if regset_test tcg_target_call_clobber_regs r then tcg_reg_free s r else Ok s) (seqZ 0 TCG_TARGET_NB_REGS) s.

(** A temporary gets a new value in register [r]. *)
Definition output_in_reg (s : RA) (t r : Z) : Res RA :=
  let* ts := temp_at s t in
  if negb (fixed_reg ts) then
    let s := drop_reg s ts in
    Ok (put_reg (put_temp s t (ts <| val_type := TEMP_VAL_REG |> <| reg := r |> <| mem_coherent := false |>)) r t)
  else Ok s.

Definition alloc_output (s : RA) (cs : Constraints) (args new_args : list Z) (i allocated_regs : Z) : Res (RA * Z * Z) :=
  let* t := arg_at args i in
  let* c := is_ct cs i in
  let* ts := temp_at s t in
  if ct_has c TCG_CT_ALIAS then
    let* r := arg_at new_args (alias_index c) in
    let* s := output_in_reg s t r in Ok (s, regset_set allocated_regs r, r)
  else if fixed_reg ts && regset_test (regs c) (reg ts) then Ok (s, allocated_regs, reg ts)
  else
    let* (r, s) := tcg_reg_alloc s (regs c) allocated_regs in
    let* s := output_in_reg s t r in Ok (s, regset_set allocated_regs r, r).

Fixpoint alloc_outputs (s : RA) (cs : Constraints) (args : list Z) (order : list Z) (allocated_regs : Z) (new_args : list Z) : Res (RA * list Z) :=
  match order with
  | [] => Ok (s, new_args)
  | i :: order =>
      let* (s, a, r) := alloc_output s cs args new_args i allocated_regs in
      alloc_outputs s cs args order a (<[Z.to_nat i := r]> new_args)
  end.

(** Outputs in fixed registers, after the operation. *)
Fixpoint move_outputs (s : RA) (outputs new_args : list Z) : Res RA :=
  match outputs, new_args with
  | t :: outputs, r :: new_args =>
      let* ts := temp_at s t in
      let s := if fixed_reg ts && negb (reg ts =? r) then tcg_out s (OMov (reg ts) r) else s in
      move_outputs s outputs new_args
  | [], _ => Ok s
  | _, [] => Fail OutOfBounds
  end.

Definition tcg_reg_alloc_op (s : RA) (cs : Constraints) (op : TCGOpcode) (o a c : list Z) (dead_iargs : Z) : Res RA :=
  let args := o ++ a ++ c in
  let nb := len o in
  let blank := map (fun _ => 0) (o ++ a) ++ c in
  let* (s, allocated_regs, new_args, const_args) :=
    alloc_inputs s cs args nb dead_iargs (sorted_iargs cs) (reserved_regs s) blank (map (fun _ => false) args) in
  let* (s, new_args) :=
    if has_flag op TCG_OPF_BB_END then let* s := tcg_reg_alloc_bb_end s allocated_regs in Ok (s, new_args)
    else
      let* s := dead_inputs s a 0 dead_iargs in
      let* s :=
        if has_flag op TCG_OPF_CALL_CLOBBER then let* s := clobber_call_regs s in save_globals s allocated_regs
        else Ok s in
      alloc_outputs s cs args (sorted_oargs cs) (reserved_regs s) new_args in
  move_outputs (tcg_out s (OOp op new_args const_args)) o new_args.


(** ** Calls *)

(** An argument on the stack. *)
Definition stack_arg (s : RA) (t stack_offset : Z) : Res RA :=
  if t =? TCG_CALL_DUMMY_ARG then Ok s
  else
    let* ts := temp_at s t in
    match val_type ts with
    | TEMP_VAL_REG => Ok (tcg_out s (OSt (type ts) (reg ts) TCG_REG_RSP stack_offset))
    | TEMP_VAL_MEM =>
        let* (r, s) := tcg_reg_alloc s tcg_target_available_regs (reserved_regs s) in
        let s := tcg_out s (OLd (type ts) r (mem_reg ts) (mem_offset ts)) in
        Ok (tcg_out s (OSt (type ts) r TCG_REG_RSP stack_offset))
    | TEMP_VAL_CONST =>
        let* (r, s) := tcg_reg_alloc s tcg_target_available_regs (reserved_regs s) in
        let s := tcg_out s (OMovi (type ts) r (val ts)) in
        Ok (tcg_out s (OSt (type ts) r TCG_REG_RSP stack_offset))
    | TEMP_VAL_DEAD => Fail AbortCalled
    end.
Fixpoint stack_args (s : RA) (l : list Z) (stack_offset : Z) : Res RA :=
  match l with
  | [] => Ok s
  | t :: l => let* s := stack_arg s t stack_offset in stack_args s l (stack_offset + 8)
  end.

(** An argument in register [r]. *)
Definition reg_arg (s : RA) (t r : Z) : Res RA :=
  let* s := tcg_reg_free s r in
  let* ts := temp_at s t in
  match val_type ts with
  | TEMP_VAL_REG => Ok (if negb (reg ts =? r) then tcg_out s (OMov r (reg ts)) else s)
  | TEMP_VAL_MEM => Ok (tcg_out s (OLd (type ts) r (mem_reg ts) (mem_offset ts)))
  | TEMP_VAL_CONST => Ok (tcg_out s (OMovi (type ts) r (val ts)))
  | TEMP_VAL_DEAD => Fail AbortCalled
  end.
Fixpoint reg_args (s : RA) (l rs : list Z) (allocated_regs : Z) : Res (RA * Z) :=
  match l, rs with
  | t :: l, r :: rs =>
      if t =? TCG_CALL_DUMMY_ARG then reg_args s l rs allocated_regs
      else let* s := reg_arg s t r in reg_args s l rs (regset_set allocated_regs r)
  | [], _ => Ok (s, allocated_regs)
  | _, [] => Fail OutOfBounds
  end.

(** The function: the state, the registers in use, the argument of the call
    and whether it is a constant. *)
Definition func_arg (s : RA) (t : Z) (c : TCGArgConstraint) (allocated_regs : Z) : Res (RA * Z * Z * bool) :=
  let* ts := temp_at s t in
  let in_new_reg emit :=
    let* (r, s) := tcg_reg_alloc s (regs c) allocated_regs in
    Ok (tcg_out s (emit r), regset_set allocated_regs r, r, false) in
  match val_type ts with
  | TEMP_VAL_MEM => in_new_reg (fun r => OLd (type ts) r (mem_reg ts) (mem_offset ts))
  | TEMP_VAL_REG =>
      if negb (regset_test (regs c) (reg ts)) then in_new_reg (fun r => OMov r (reg ts))
      else Ok (s, regset_set allocated_regs (reg ts), reg ts, false)
  | TEMP_VAL_CONST => if tcg_target_const_match (val ts) c then Ok (s, allocated_regs, val ts, true) else in_new_reg (fun r => OMovi (type ts) r (val ts))
  | TEMP_VAL_DEAD => Fail AbortCalled
  end.

Fixpoint call_outputs (s : RA) (o rs : list Z) : Res RA :=
  match o, rs with
  | t :: o, r :: rs =>
      let* ts := temp_at s t in
      let* k := arg_at (reg_to_temp s) r in
      if negb (k =? -1) then Fail AssertFail
      else
        let* s :=
          if fixed_reg ts then Ok (if negb (reg ts =? r) then tcg_out s (OMov (reg ts) r) else s)
          else output_in_reg s t r in
        call_outputs s o rs
  | [], _ => Ok s
  | _, [] => Fail OutOfBounds
  end.

(** The types of the parameters of a call; some are not passed. *)
Definition param_types (temps : list Temp) (params : list Z) : list (option Z) :=
  map (fun t => if t =? TCG_CALL_DUMMY_ARG then None else type <$> temps !! Z.to_nat t) params.

Definition tcg_reg_alloc_call (s : RA) (cs : Constraints) (o a : list Z) (flags dead_iargs : Z) : Res RA :=
  let nb_params := len a - 1 in
  let nb_regs := Z.min tcg_target_get_call_iarg_regs_count nb_params in
  let call_stack_size := Z.land ((nb_params - nb_regs) * 8 + TCG_TARGET_STACK_ALIGN - 1) (Z.lnot (TCG_TARGET_STACK_ALIGN - 1)) in
  let allocate_args := TCG_STATIC_CALL_ARGS_SIZE <? call_stack_size in
  let s := if allocate_args then tcg_out s (OAddi TCG_REG_RSP (- call_stack_size)) else s in
  let params := take (Z.to_nat nb_params) a in
  let* s := stack_args s (drop (Z.to_nat nb_regs) params) TCG_TARGET_CALL_STACK_OFFSET in
  let* (s, allocated_regs) := reg_args s (take (Z.to_nat nb_regs) params) tcg_target_call_iarg_regs (reserved_regs s) in
  let* fn := arg_at a (len a - 1) in
  let* c := is_ct cs 0 in
  let* (s, allocated_regs, func, const_func) := func_arg s fn c allocated_regs in
  let* s := dead_inputs s a 0 dead_iargs in
  let* s := clobber_call_regs s in
  let* s := if negb (nz (Z.land flags TCG_CALL_CONST)) then save_globals s allocated_regs else Ok s in
  let s := tcg_out s (OCall func const_func flags (param_types (ra_temps s) params)) in
  let s := if allocate_args then tcg_out s (OAddi TCG_REG_RSP call_stack_size) else s in
  call_outputs s o tcg_target_call_oarg_regs.

(** ** A block *)

Definition dead_of (x : option Z) : Res Z := match x with Some d => Ok d | None => Fail Uninitialised end.

Definition alloc_insn (s : RA) (i : Insn) (dead_iargs : option Z) : Res RA :=
  match i with
  | INopn _ => Ok s
  | ICall o a fl =>
      let* d := dead_of dead_iargs in
      let* cs := tcg_add_target_add_op_defs INDEX_op_call in
      tcg_reg_alloc_call s cs o a fl d
  | IOp op o a c =>
      match op, o, a, c with
      | INDEX_op_mov_i32, [dst], [src], _ | INDEX_op_mov_i64, [dst], [src], _ =>
          let* d := dead_of dead_iargs in
          let* cs := tcg_add_target_add_op_defs op in
          let* arg_ct := is_ct cs 0 in
          tcg_reg_alloc_mov s arg_ct dst src d
      | INDEX_op_movi_i32, [dst], _, [v] | INDEX_op_movi_i64, [dst], _, [v] => tcg_reg_alloc_movi s dst v
      | INDEX_op_debug_insn_start, _, _, _ | INDEX_op_nop, _, _, _ | INDEX_op_nop1, _, _, _ | INDEX_op_nop2, _, _, _ | INDEX_op_nop3, _, _, _ => Ok s
      | INDEX_op_discard, [t], _, _ => let* ts := temp_at s t in if negb (fixed_reg ts) then mark_dead s t else Ok s
      | INDEX_op_set_label, _, _, [l] => let* s := tcg_reg_alloc_bb_end s (reserved_regs s) in Ok (tcg_out s (OLabel l))
      | _, _, _, _ =>
          let* d := dead_of dead_iargs in
          let* cs := tcg_add_target_add_op_defs op in
          tcg_reg_alloc_op s cs op o a c d
      end
  end.

(** The loop of [tcg_gen_code_common] when no host address is searched for. *)
Fixpoint alloc_block (s : RA) (p : list Insn) (ia : list (option Z)) : Res RA :=
  match p, ia with
  | IOp INDEX_op_end _ _ _ :: _, _ => Ok s
  | i :: p, d :: ia =>
      let* s := alloc_insn s i d in
      let* _ := check_regs s in
      alloc_block s p ia
  | _, _ => Fail OutOfBounds
  end.
Definition tcg_gen_code (s : RA) (p : list Insn) (ia : list (option Z)) : Res RA := alloc_block (tcg_reg_alloc_start s) p ia.
End TcgReg.
