(* ===== verification/TcgRegInv.v ===== *)
(** * Invariant of the register allocator

    What the host operations the allocator emits do to registers and memory,
    when the tables of the allocator are in order, and when each temporary that
    matters is where they say; and the primitives of the allocator, which keep
    both. *)

From stdpp Require Import list sets.
From Stdlib Require Import ZifyBool.
From S2P Require Import Prelude Tcg TcgLive TcgReg.

Module TcgRegInv.
Import Tcg TcgLive TcgReg.

(** ** The host machine *)

(** Registers have 64 bits, memory is bytes, addressed by base register and
    offset; base registers do not change within a block. *)
Record HS := mkHS {
  hr : Z -> Z;
  hm : Z -> Z -> Z
}.
Definition set_hr (h : HS) (r v : Z) : HS := mkHS (fun x => if x =? r then v else hr h x) (hm h).

(** What a type keeps of a value, and how many bytes it takes. *)
Definition size (ty : Z) : Z := if ty =? TCG_TYPE_I32 then 4 else 8.
Definition trunc (ty x : Z) : Z := x mod 2 ^ (8 * size ty).
Fixpoint load_bytes (n : nat) (m : Z -> Z) (o : Z) : Z :=
  match n with
  | O => 0
  | S n => m o mod 2 ^ 8 + 2 ^ 8 * load_bytes n m (o + 1)
  end.
Definition load (ty : Z) (h : HS) (b o : Z) : Z := load_bytes (Z.to_nat (size ty)) (hm h b) o.
Definition store (ty : Z) (h : HS) (b o v : Z) : HS :=
  mkHS (hr h) (fun x y => if (x =? b) && (o <=? y) && (y <? o + size ty) then v / 2 ^ (8 * (y - o)) mod 2 ^ 8 else hm h x y).

(** [xor] and [movl] of a register clear its upper half, [movq] of 32 bits
    extends the sign. *)
Definition tcg_out_movi (ty arg : Z) : Z :=
  if u64 arg =? 0 then 0
  else if (u64 arg =? u32 arg) || (ty =? TCG_TYPE_I32) then u32 arg
  else if s64 arg =? s32 arg then u64 (s32 arg)
  else u64 arg.

(** A move copies the whole register; 32-bit loads clear the upper half of the
    register, and 32-bit stores leave the bytes after the four alone. *)
Definition exec1 (h : HS) (i : Host) : HS :=
  match i with
  | OMov r a => set_hr h r (hr h a)
  | OMovi ty r v => set_hr h r (tcg_out_movi ty v)
  | OLd ty r b o => set_hr h r (load ty h b o)
  | OSt ty a b o => store ty h b o (hr h a)
  | OAddi r v => mkHS (fun x => if x =? r then u64 (hr h x + v) else hr h x) (fun x y => hm h x (if x =? r then y + v else y))
  | _ => h
  end.
Definition execs (c : list Host) (h : HS) : HS := foldl exec1 h c.
Lemma execs_app c d h : execs (c ++ d) h = execs d (execs c h).
Proof. apply foldl_app. Qed.

(** From [s] to [s'] only such operations are emitted; they take [h] to [h']. *)
Definition simple (i : Host) : bool := match i with OOp _ _ _ | OCall _ _ _ _ | OLabel _ => false | _ => true end.
Definition emitted (s : RA) (h : HS) (s' : RA) (h' : HS) : Prop := exists c, code s' = code s ++ c /\ h' = execs c h /\ forallb simple c = true.
Lemma emitted_same s h s' : code s' = code s -> emitted s h s' h.
Proof. intros E. exists []. by rewrite app_nil_r. Qed.
Lemma emitted_one s h i : simple i = true -> emitted s h (tcg_out s i) (exec1 h i).
Proof. intros E. exists [i]. cbn. by rewrite E. Qed.
Lemma emitted_trans s h s1 h1 s2 h2 : emitted s h s1 h1 -> emitted s1 h1 s2 h2 -> emitted s h s2 h2.
Proof. intros (c & E & -> & F) (d & E' & -> & F'). exists (c ++ d). rewrite E', E, <- app_assoc, execs_app, forallb_app, F, F'. done. Qed.

(** *** Types *)

Lemma size_range ty : 4 <= size ty <= 8.
Proof. unfold size. destruct (ty =? TCG_TYPE_I32); lia. Qed.
Lemma trunc_trunc ty x : trunc ty (trunc ty x) = trunc ty x.
Proof. apply Zmod_mod. Qed.
(** The low half of a value of either type. *)
Lemma trunc_low ty x : trunc TCG_TYPE_I32 (trunc ty x) = trunc TCG_TYPE_I32 x.
Proof.
  unfold trunc, size. destruct (ty =? TCG_TYPE_I32); [apply Zmod_mod|]. change (TCG_TYPE_I32 =? TCG_TYPE_I32) with true. cbn iota.
  change (2 ^ (8 * 8)) with (2 ^ (8 * 4) * 2 ^ 32). rewrite Z.rem_mul_r, (Z.mul_comm (2 ^ (8 * 4))), Z_mod_plus_full by lia. apply Zmod_mod.
Qed.
Lemma trunc_zero ty : trunc ty 0 = 0.
Proof. apply Zmod_0_l. Qed.
Lemma movi_trunc ty x : trunc ty (tcg_out_movi ty x) = trunc ty x.
Proof.
  unfold tcg_out_movi. assert (T : trunc ty (u64 x) = trunc ty x).
  { unfold trunc, size. destruct (ty =? TCG_TYPE_I32); [|apply Zmod_mod]. exact (trunc_low TCG_TYPE_I64 x). }
  destruct (Z.eqb_spec (u64 x) 0) as [E|_]; [by rewrite <- T, E|]. destruct (Z.eqb_spec (u64 x) (u32 x)) as [E|_]; [by rewrite <- E|].
  destruct (Z.eqb_spec ty TCG_TYPE_I32) as [->|_]; [apply (trunc_trunc TCG_TYPE_I32)|]. cbn [orb]. destruct (Z.eqb_spec (s64 x) (s32 x)) as [E|_]; [|done]. rewrite <- E. unfold s64.
  rewrite <- T. f_equal. unfold u64. rewrite Zminus_mod, Zmod_mod, <- Zminus_mod. f_equal. lia.
Qed.

(** *** Memory *)

Lemma load_bytes_same n m m' o : (forall y, o <= y < o + Z.of_nat n -> m' y = m y) -> load_bytes n m' o = load_bytes n m o.
Proof. revert o. induction n as [|n IH]; intros o H; [done|]. cbn [load_bytes]. rewrite (H o), (IH (o + 1)); [done | intros y Hy; apply H; lia | lia]. Qed.
Lemma load_bytes_of n m o v : (forall y, o <= y < o + Z.of_nat n -> m y = v / 2 ^ (8 * (y - o)) mod 2 ^ 8) -> load_bytes n m o = v mod 2 ^ (8 * Z.of_nat n).
Proof.
  revert o v. induction n as [|n IH]; intros o v H; [symmetry; apply Z.mod_1_r|]. cbn [load_bytes]. rewrite (H o) by lia. rewrite Z.sub_diag, Z.div_1_r, Zmod_mod. rewrite (IH (o + 1) (v / 2 ^ 8)).
  - replace (8 * Z.of_nat (S n)) with (8 + 8 * Z.of_nat n) by lia. rewrite Z.pow_add_r by lia. by rewrite Z.rem_mul_r by lia.
  - intros y Hy. rewrite (H y) by lia. rewrite Z.div_div, <- Z.pow_add_r by lia. do 3 f_equal. lia.
Qed.
Lemma load_same ty h h' b o : (forall y, o <= y < o + size ty -> hm h' b y = hm h b y) -> load ty h' b o = load ty h b o.
Proof. intros H. apply load_bytes_same. intros y Hy. apply H. pose proof (size_range ty). lia. Qed.
Lemma load_store ty h b o v : load ty (store ty h b o v) b o = trunc ty v.
Proof.
  pose proof (size_range ty). unfold load, trunc. rewrite (load_bytes_of _ _ o v); [by rewrite Z2Nat.id by lia|]. intros y Hy. cbn [store hm]. rewrite Z.eqb_refl.
  destruct (Z.leb_spec o y); [|lia]. destruct (Z.ltb_spec y (o + size ty)); [done | lia].
Qed.
Lemma store_other ty h b o v x y : x <> b \/ y < o \/ o + size ty <= y -> hm (store ty h b o v) x y = hm h x y.
Proof. intros H. cbn [store hm]. destruct (Z.eqb_spec x b), (Z.leb_spec o y), (Z.ltb_spec y (o + size ty)); try done. lia. Qed.
Lemma load_fits ty h b o : trunc ty (load ty h b o) = load ty h b o.
Proof.
  pose proof (size_range ty) as Sz. apply Z.mod_small. unfold load. rewrite <- (Z2Nat.id (size ty)) at 3 by lia. generalize (Z.to_nat (size ty)) as n. intros n. revert o.
  induction n as [|n IH]; intros o; [cbn; lia|]. cbn [load_bytes]. specialize (IH (o + 1)). pose proof (Z.mod_pos_bound (hm h b o) (2 ^ 8) ltac:(lia)).
  replace (8 * Z.of_nat (S n)) with (8 + 8 * Z.of_nat n) by lia. rewrite Z.pow_add_r by lia. nia.
Qed.

Lemma set_hr_eq h r v : hr (set_hr h r v) r = v.
Proof. cbn. by rewrite Z.eqb_refl. Qed.
Lemma set_hr_ne h r v x : x <> r -> hr (set_hr h r v) x = hr h x.
Proof. intros N. cbn. by destruct (Z.eqb_spec x r). Qed.

(** ** Tables in order *)

Definition align8 (x : Z) : Z := Z.land (x + 8 - 1) (Z.lnot (8 - 1)).
(** The registers set aside: the stack pointer, by [tcg_target_init], and the one
    that holds the CPU state (R14), by [tcg_global_reg_new]. *)
Definition RESERVED : Z := 0x4010.
Definition reserved (r : Z) : bool := regset_test RESERVED r.
(** The memory of a temporary, what it holds, and whether two overlap. *)
Definition cell (ts : Temp) : Z * Z * Z := (type ts, mem_reg ts, mem_offset ts).
Definition slot (h : HS) (ts : Temp) : Z := load (type ts) h (mem_reg ts) (mem_offset ts).
Definition meets (ts ts' : Temp) : Prop :=
  mem_reg ts = mem_reg ts' /\ mem_offset ts < mem_offset ts' + size (type ts') /\ mem_offset ts' < mem_offset ts + size (type ts).
Lemma slot_cell h ts ts' : cell ts = cell ts' -> slot h ts = slot h ts'.
Proof. unfold slot. by intros [= -> -> ->]. Qed.
Lemma meets_cell ts ts' u u' : cell ts = cell u -> cell ts' = cell u' -> meets ts ts' -> meets u u'.
Proof. unfold meets. by intros [= -> -> ->] [= -> -> ->]. Qed.
Lemma meets_same ts ts' : cell ts = cell ts' -> meets ts ts'.
Proof. unfold meets. intros [= -> -> ->]. pose proof (size_range (type ts')). lia. Qed.
Lemma slot_fits h ts : trunc (type ts) (slot h ts) = slot h ts.
Proof. apply load_fits. Qed.

(** Temporaries that may still need a place in the frame. *)
Definition unplaced (l : list Temp) : Z := Z.of_nat (length (filter (fun ts => mem_allocated ts = false) l)).

Record ra_ok (s : RA) : Prop := {
  ok_regs : length (reg_to_temp s) = 16%nat;
  ok_globals : 0 <= ra_globals s <= len (ra_temps s);
  ok_reserved : reserved_regs s = RESERVED;
  ok_owner r k : reg_to_temp s !! r = Some k -> k <> -1 -> 0 <= k /\ exists ts, ra_temps s !! Z.to_nat k = Some ts /\ val_type ts = TEMP_VAL_REG /\ reg ts = Z.of_nat r;
  ok_reg k ts : ra_temps s !! k = Some ts -> val_type ts = TEMP_VAL_REG -> 0 <= reg ts < 16 /\
    (fixed_reg ts = false -> reg_to_temp s !! Z.to_nat (reg ts) = Some (Z.of_nat k) /\ reserved (reg ts) = false);
  ok_fixed k ts : ra_temps s !! k = Some ts -> fixed_reg ts = true -> val_type ts = TEMP_VAL_REG /\ reserved (reg ts) = true /\ Z.of_nat k < ra_globals s;
  ok_global k ts : ra_temps s !! k = Some ts -> Z.of_nat k < ra_globals s -> fixed_reg ts = false -> mem_allocated ts = true;
  ok_cells k k' ts ts' : ra_temps s !! k = Some ts -> ra_temps s !! k' = Some ts' -> mem_allocated ts = true -> mem_allocated ts' = true -> meets ts ts' -> k = k';
  ok_fresh k ts : ra_temps s !! k = Some ts -> mem_allocated ts = true -> mem_reg ts = frame_reg s -> current_frame_offset s < mem_offset ts + size (type ts) -> mem_offset ts < frame_end s -> False;
  ok_stack k ts : ra_temps s !! k = Some ts -> mem_allocated ts = true -> mem_reg ts <> TCG_REG_RSP;
  ok_frame : frame_reg s <> TCG_REG_RSP;
  ok_room : align8 (current_frame_offset s) + 8 * unplaced (ra_temps s) <= frame_end s;
  ok_fixed_reg k ts : ra_temps s !! k = Some ts -> fixed_reg ts = true -> reg ts <> TCG_REG_RSP
}.

(** ** Temporaries in place *)

Definition located (h : HS) (ts : Temp) (v : Z) : Prop :=
  match val_type ts with
  | TEMP_VAL_REG => trunc (type ts) (hr h (reg ts)) = v /\ (fixed_reg ts = false -> mem_coherent ts = true -> mem_allocated ts = true /\ slot h ts = v)
  | TEMP_VAL_MEM => mem_allocated ts = true /\ slot h ts = v
  | TEMP_VAL_CONST => trunc (type ts) (val ts) = v
  | TEMP_VAL_DEAD => False
  end.
Lemma located_fits h ts v : located h ts v -> trunc (type ts) v = v.
Proof. unfold located. destruct (val_type ts); [done | intros [<- _]; apply trunc_trunc | intros [_ <-]; apply slot_fits | intros <-; apply trunc_trunc]. Qed.

(** [X] are the temporaries that matter, [v] their values. *)
Definition places (X : Z -> Prop) (s : RA) (h : HS) (v : Z -> Z) : Prop :=
  forall k ts, ra_temps s !! k = Some ts -> X (Z.of_nat k) -> located h ts (v (Z.of_nat k)).

(** What changes when a primitive runs: the registers of [keep] and the places
    of [ks] on the call stack are left alone, temporaries keep their kind and
    their memory, and may move from a register to memory, or, those of [dd], be
    marked dead. *)
Definition moved (b : bool) (ts ts' : Temp) : Prop :=
  type ts' = type ts /\ fixed_reg ts' = fixed_reg ts /\ is_temp_local ts' = is_temp_local ts /\
  (mem_allocated ts = true -> mem_allocated ts' = true /\ cell ts' = cell ts) /\
  reg ts' = reg ts /\ val ts' = val ts /\ (val_type ts' = val_type ts \/ val_type ts' = TEMP_VAL_MEM \/ b = true /\ val_type ts' = TEMP_VAL_DEAD).

Record evd (dd : nat -> bool) (keep ks : Z -> bool) (s : RA) (h : HS) (s' : RA) (h' : HS) : Prop := {
  ev_code : emitted s h s' h';
  ev_globals : ra_globals s' = ra_globals s;
  ev_len : length (ra_temps s') = length (ra_temps s);
  ev_temps k ts : ra_temps s !! k = Some ts -> exists ts', ra_temps s' !! k = Some ts' /\ moved (dd k) ts ts';
  ev_free r : reg_to_temp s !! r = Some (-1) -> reg_to_temp s' !! r = Some (-1);
  ev_keep r : keep r = true -> hr h' r = hr h r;
  ev_stack o : ks o = true -> hm h' TCG_REG_RSP o = hm h TCG_REG_RSP o
}.

Notation ev := (evd (fun _ => false)).

Lemma moved_refl b ts : moved b ts ts.
Proof. split_and!; try done; by left. Qed.
Lemma moved_trans b x y z : moved b x y -> moved b y z -> moved b x z.
Proof.
  intros (A1 & A2 & A3 & A4 & A5 & A6 & A7) (B1 & B2 & B3 & B4 & B5 & B6 & B7). split_and!; try congruence.
  - intros M. destruct (A4 M) as [M' E]. destruct (B4 M') as [M'' E']. split; [done | congruence].
  - destruct B7 as [B7|B7]; [rewrite B7; done | by right].
Qed.
Lemma moved_weaken (b b' : bool) x y : (b = true -> b' = true) -> moved b x y -> moved b' x y.
Proof. intros W (A1 & A2 & A3 & A4 & A5 & A6 & A7). split_and!; try done. destruct A7 as [A7|[A7|[A7 A8]]]; [by left | by right; left | right; right; auto]. Qed.
Lemma ev_refl dd keep ks s h : evd dd keep ks s h s h.
Proof. split; try done; [by apply emitted_same|]. intros k ts E. exists ts. split; [done | apply moved_refl]. Qed.
Lemma ev_trans dd keep ks s h s1 h1 s2 h2 : evd dd keep ks s h s1 h1 -> evd dd keep ks s1 h1 s2 h2 -> evd dd keep ks s h s2 h2.
Proof.
  intros [A1 A2 A3 A4 A5 A6 A7] [B1 B2 B3 B4 B5 B6 B7]. split.
  - by eapply emitted_trans.
  - congruence.
  - congruence.
  - intros k ts Hk. destruct (A4 k ts Hk) as (t1 & H1 & M1). destruct (B4 k t1 H1) as (t2 & H2 & M2). exists t2. split; [done | by eapply moved_trans].
  - auto.
  - intros r Hr. rewrite B6, A6; done.
  - intros o Ho. by rewrite B7, A7.
Qed.
Lemma ev_weaken (dd dd' : nat -> bool) (keep keep' ks ks' : Z -> bool) s h s' h' : (forall k, dd k = true -> dd' k = true) -> (forall r, keep' r = true -> keep r = true) -> (forall o, ks' o = true -> ks o = true) ->
  evd dd keep ks s h s' h' -> evd dd' keep' ks' s h s' h'.
Proof.
  intros W K K' [A1 A2 A3 A4 A5 A6 A7]. split; auto. intros k ts E. destruct (A4 k ts E) as (ts' & E' & M). exists ts'. split; [done|]. eapply moved_weaken; [|exact M]. apply W.
Qed.

(** ** Changes of the tables *)

Lemma unplaced_insert l k ts ts' : l !! k = Some ts ->
  unplaced (<[k := ts']> l) = unplaced l - (if mem_allocated ts then 0 else 1) + (if mem_allocated ts' then 0 else 1).
Proof.
  unfold unplaced. revert k. induction l as [|x l IH]; intros k E; [done|]. destruct k as [|k].
  - injection E as ->. change (<[0%nat := ts']> (ts :: l)) with (ts' :: l). rewrite !filter_cons. destruct (mem_allocated ts), (mem_allocated ts'); repeat (destruct (decide _); try done); cbn [length]; lia.
  - change (<[S k := ts']> (x :: l)) with (x :: <[k := ts']> l). rewrite !filter_cons. specialize (IH k E). destruct (decide (mem_allocated x = false)); cbn [length]; lia.
Qed.
Lemma unplaced_nonneg l : 0 <= unplaced l.
Proof. unfold unplaced. lia. Qed.
Lemma unplaced_pos l k ts : l !! k = Some ts -> mem_allocated ts = false -> 0 < unplaced l.
Proof. intros E M. pose proof (unplaced_insert l k ts (ts <| mem_allocated := true |>) E) as H. rewrite M in H. change (mem_allocated (ts <| mem_allocated := true |>)) with true in H. cbn iota in H. pose proof (unplaced_nonneg (<[k := ts <| mem_allocated := true |>]> l)). lia. Qed.

Lemma align8_div x : align8 x = 8 * ((x + 7) / 8).
Proof.
  unfold align8. replace (x + 8 - 1) with (x + 7) by lia. change (Z.lnot (8 - 1)) with (Z.lnot (Z.ones 3)). rewrite <- Z.ldiff_land, Z.ldiff_ones_r by lia.
  rewrite Z.shiftl_mul_pow2, Z.shiftr_div_pow2 by lia. change (2 ^ 3) with 8. lia.
Qed.
Lemma align8_ge x : x <= align8 x.
Proof. rewrite align8_div. pose proof (Z.mod_pos_bound (x + 7) 8). pose proof (Z.div_mod (x + 7) 8). lia. Qed.
Lemma align8_next x : align8 (align8 x + 8) = align8 x + 8.
Proof. rewrite !align8_div. replace (8 * ((x + 7) / 8) + 8 + 7) with (7 + ((x + 7) / 8 + 1) * 8) by lia. rewrite Z.div_add by lia. change (7 / 8) with 0. lia. Qed.

Lemma ok_out s i : ra_ok s -> ra_ok (tcg_out s i).
Proof. intros []. by split. Qed.

(** Entry [k] changes, but not its memory. *)
Definition same_memory (ts ts' : Temp) : Prop := fixed_reg ts' = fixed_reg ts /\ mem_allocated ts' = mem_allocated ts /\ cell ts' = cell ts.

Lemma ok_put s k ts ts' rtt : ra_ok s -> ra_temps s !! k = Some ts -> fixed_reg ts = false -> same_memory ts ts' -> length rtt = 16%nat ->
  (forall r j, rtt !! r = Some j -> j <> -1 -> 0 <= j /\ exists u, <[k := ts']> (ra_temps s) !! Z.to_nat j = Some u /\ val_type u = TEMP_VAL_REG /\ reg u = Z.of_nat r) ->
  (forall j u, <[k := ts']> (ra_temps s) !! j = Some u -> val_type u = TEMP_VAL_REG -> 0 <= reg u < 16 /\ (fixed_reg u = false -> rtt !! Z.to_nat (reg u) = Some (Z.of_nat j) /\ reserved (reg u) = false)) ->
  ra_ok (s <| ra_temps := <[k := ts']> (ra_temps s) |> <| reg_to_temp := rtt |>).
Proof.
  intros A E Fx (M1 & M2 & M3) L Ow Rg. assert (Old : forall j u, <[k := ts']> (ra_temps s) !! j = Some u -> exists u0, ra_temps s !! j = Some u0 /\ (j = k /\ u = ts' /\ u0 = ts \/ u = u0) /\ fixed_reg u = fixed_reg u0 /\ mem_allocated u = mem_allocated u0 /\ cell u = cell u0).
  { intros j u Ej. apply list_lookup_insert_Some in Ej as [(<- & <- & _)|[N Ej]]; [exists ts; split; [done|]; split; [by left | done] | exists u; split; [done|]; split; [by right | done]]. }
  split; cbn -[len align8 unplaced reserved cell Z.mul Z.add insert lookup].
  - done.
  - unfold len. rewrite length_insert. apply (ok_globals s A).
  - apply (ok_reserved s A).
  - exact Ow.
  - exact Rg.
  - intros j u Ej Fu. destruct (Old j u Ej) as (u0 & E0 & [(-> & -> & ->)|Eu] & F0 & _); [congruence|]. subst u0. by eapply (ok_fixed s A).
  - intros j u Ej Hj Fu. destruct (Old j u Ej) as (u0 & E0 & _ & F0 & M0 & _). rewrite M0. eapply (ok_global s A); [done | done | congruence].
  - intros j j' u u' Ej Ej' Mu Mu' Ec. destruct (Old j u Ej) as (u0 & E0 & _ & _ & M0 & C0). destruct (Old j' u' Ej') as (u0' & E0' & _ & _ & M0' & C0').
    eapply (ok_cells s A); [exact E0 | exact E0' | congruence | congruence | by eapply meets_cell].
  - intros j u Ej Mu Mr Mo. destruct (Old j u Ej) as (u0 & E0 & _ & _ & M0 & C0). injection C0 as Ct C1 C2. rewrite Ct, C2 in *. eapply (ok_fresh s A); [exact E0 | congruence | congruence | done].
  - intros j u Ej Mu. destruct (Old j u Ej) as (u0 & E0 & _ & _ & M0 & C0). injection C0 as _ C1 C2. rewrite C1. eapply (ok_stack s A); [exact E0 | congruence].
  - apply (ok_frame s A).
  - rewrite (unplaced_insert _ _ _ _ E), M2. pose proof (ok_room s A). destruct (mem_allocated ts); lia.
  - intros j u Ej Fu. destruct (Old j u Ej) as (u0 & E0 & [(-> & -> & ->)|Eu] & F0 & _); [congruence|]. subst u0. by eapply (ok_fixed_reg s A).
Qed.
(** A temporary leaves its register, if it has one. *)
Lemma ok_leave s k ts ts' : ra_ok s -> ra_temps s !! k = Some ts -> fixed_reg ts = false -> same_memory ts ts' -> val_type ts' <> TEMP_VAL_REG ->
  ra_ok (put_temp (drop_reg s ts) (Z.of_nat k) ts').
Proof.
  intros A E Fx M N. pose proof (ok_regs s A) as L. unfold put_temp. rewrite Nat2Z.id.
  assert (G : forall rtt, length rtt = 16%nat ->
    (forall r j, rtt !! r = Some j -> j <> -1 -> reg_to_temp s !! r = Some j /\ Z.to_nat j <> k) ->
    (forall r j, reg_to_temp s !! r = Some j -> j <> Z.of_nat k -> rtt !! r = Some j) ->
    ra_ok (s <| ra_temps := <[k := ts']> (ra_temps s) |> <| reg_to_temp := rtt |>)).
  { intros rtt Lr Ow Rg. apply (ok_put s k ts ts' rtt A E Fx M Lr).
    - intros r j Ej Nj. destruct (Ow r j Ej Nj) as [Eo Nk]. destruct (ok_owner s A r j Eo Nj) as (Hj & u & Eu & Hu). split; [done|]. exists u.
      by rewrite list_lookup_insert_ne.
    - intros j u Ej Vu. destruct (decide (j = k)) as [->|Nj].
      + apply list_lookup_insert_Some in Ej as [(_ & <- & _)|[? _]]; done.
      + rewrite list_lookup_insert_ne in Ej by done. destruct (ok_reg s A j u Ej Vu) as [R H]. split; [done|]. intros Fu. destruct (H Fu) as [H1 H2]. split; [|done]. apply Rg; [done | lia]. }
  unfold drop_reg. case_bool_decide as V.
  - destruct (ok_reg s A k ts E V) as [R H]. destruct (H Fx) as [Ho Hr]. refine (G (<[Z.to_nat (reg ts) := -1]> (reg_to_temp s)) _ _ _).
    + by rewrite length_insert.
    + intros r j Ej Nj. apply list_lookup_insert_Some in Ej as [(_ & ? & _)|[Nr Ej]]; [congruence|]. split; [done|]. intros <-.
      destruct (ok_owner s A r j Ej Nj) as (Hj & u & Eu & _ & Er). rewrite E in Eu. injection Eu as <-. lia.
    + intros r j Ej Nj. rewrite list_lookup_insert_ne; [done|]. intros <-. congruence.
  - refine (G (reg_to_temp s) L _ _); [|done]. intros r j Ej Nj. split; [done|]. intros <-. destruct (ok_owner s A r j Ej Nj) as (_ & u & Eu & Vu & _). rewrite E in Eu. injection Eu as <-. done.
Qed.

(** A temporary enters a free register. *)
Lemma ok_enter s k ts ts' r : ra_ok s -> ra_temps s !! k = Some ts -> fixed_reg ts = false -> same_memory ts ts' -> val_type ts <> TEMP_VAL_REG ->
  0 <= r -> reg_to_temp s !! Z.to_nat r = Some (-1) -> reserved r = false -> val_type ts' = TEMP_VAL_REG -> reg ts' = r ->
  ra_ok (put_reg (put_temp s (Z.of_nat k) ts') r (Z.of_nat k)).
Proof.
  intros A E Fx M N Hr Er Rr V' R'. pose proof (ok_regs s A) as L. unfold put_temp, put_reg. rewrite Nat2Z.id. pose proof (lookup_lt_Some _ _ _ Er) as Lr.
  refine (ok_put s k ts ts' (<[Z.to_nat r := Z.of_nat k]> (reg_to_temp s)) A E Fx M _ _ _).
  - by rewrite length_insert.
  - intros x j Ej Nj. apply list_lookup_insert_Some in Ej as [(<- & <- & _)|[Nx Ej]].
    + split; [lia|]. exists ts'. rewrite Nat2Z.id, list_lookup_insert_eq by (by eapply lookup_lt_Some). split_and!; [done | done | lia].
    + destruct (ok_owner s A x j Ej Nj) as (Hj & u & Eu & Vu & Ru). split; [done|]. exists u. rewrite list_lookup_insert_ne; [done|].
      intros Q. rewrite <- Q, E in Eu. injection Eu as <-. done.
  - intros j u Ej Vu. apply list_lookup_insert_Some in Ej as [(<- & <- & _)|[Nj Ej]].
    + rewrite R'. split; [lia|]. intros _. split; [|done]. by apply list_lookup_insert_eq.
    + destruct (ok_reg s A j u Ej Vu) as [R H]. split; [done|]. intros Fu. destruct (H Fu) as [H1 H2]. split; [|done].
      rewrite list_lookup_insert_ne; [done|]. intros Q. rewrite <- Q, Er in H1. injection H1. lia.
Qed.

(** ** Emission *)

Section Emit.
Context (X : Z -> Prop) (v : Z -> Z) (keep ks : Z -> bool).

Lemma ev_out s h i : simple i = true -> (forall r, keep r = true -> hr (exec1 h i) r = hr h r) -> (forall o, ks o = true -> hm (exec1 h i) TCG_REG_RSP o = hm h TCG_REG_RSP o) ->
  ev keep ks s h (tcg_out s i) (exec1 h i).
Proof. intros Si K K'. split; try done; [by apply emitted_one|]. intros k ts E. exists ts. split; [done | apply moved_refl]. Qed.

(** A register that holds no temporary of [X] may be written. *)
Lemma emit_reg s h i r w : exec1 h i = set_hr h r w -> simple i = true -> ra_ok s -> places X s h v -> keep r = false ->
  (forall k ts, ra_temps s !! k = Some ts -> X (Z.of_nat k) -> val_type ts = TEMP_VAL_REG -> reg ts <> r) ->
  ra_ok (tcg_out s i) /\ places X (tcg_out s i) (exec1 h i) v /\ evd (fun _ => false) keep ks s h (tcg_out s i) (exec1 h i).
Proof.
  intros Ei Si A P Kr N. split_and!; [by apply ok_out | |].
  - intros k ts E Xk. specialize (P k ts E Xk). rewrite Ei. unfold located in *. destruct (val_type ts) eqn:V; try done. rewrite set_hr_ne by (by eapply N). exact P.
  - apply ev_out; [done|..]; rewrite Ei; [|done]. intros x Kx. apply set_hr_ne. congruence.
Qed.
Lemma free_reg_unused s r : ra_ok s -> 0 <= r -> reg_to_temp s !! Z.to_nat r = Some (-1) -> reserved r = false ->
  forall k ts, ra_temps s !! k = Some ts -> X (Z.of_nat k) -> val_type ts = TEMP_VAL_REG -> reg ts <> r.
Proof.
  intros A Hr Er Rr k ts E _ V Q. destruct (ok_reg s A k ts E V) as [R H].
  destruct (fixed_reg ts) eqn:Fx; [destruct (ok_fixed s A k ts E Fx) as (_ & Hx & _); congruence|]. destruct (H eq_refl) as [H1 _]. rewrite Q, Er in H1. injection H1. lia.
Qed.

(** A store to memory that is not that of [u]. *)
Lemma store_slot ty h b o w u : mem_reg u <> b \/ mem_offset u + size (type u) <= o \/ o + size ty <= mem_offset u -> slot (store ty h b o w) u = slot h u.
Proof. intros H. apply load_same. intros y Hy. apply store_other. lia. Qed.

(** A store of the value of a temporary to its memory. *)
Lemma emit_store s h k ts r : ra_ok s -> places X s h v -> ra_temps s !! k = Some ts -> mem_allocated ts = true -> (X (Z.of_nat k) -> trunc (type ts) (hr h r) = v (Z.of_nat k)) ->
  let i := OSt (type ts) r (mem_reg ts) (mem_offset ts) in
  ra_ok (tcg_out s i) /\ places X (tcg_out s i) (exec1 h i) v /\ ev keep ks s h (tcg_out s i) (exec1 h i) /\ slot (exec1 h i) ts = trunc (type ts) (hr h r) /\
    forall u, ~ meets u ts -> slot (exec1 h i) u = slot h u.
Proof.
  intros A P E M Hv i. assert (Hm : slot (exec1 h i) ts = trunc (type ts) (hr h r)) by apply load_store.
  assert (Ho : forall u, ~ meets u ts -> slot (exec1 h i) u = slot h u) by (intros u N; apply store_slot; unfold meets in N; lia).
  split_and!; [by apply ok_out | | | done | done].
  - intros j u Ej Xj. specialize (P j u Ej Xj). unfold located in *. change (ra_temps s !! j = Some u) in Ej.
    assert (Q : forall w, mem_allocated u = true /\ slot h u = w -> (j = k -> trunc (type ts) (hr h r) = w) -> mem_allocated u = true /\ slot (exec1 h i) u = w).
    { intros w [Mu Hu] Hw. split; [done|]. destruct (decide (j = k)) as [->|Nj]; [rewrite E in Ej; injection Ej as <-; rewrite Hm; by apply Hw|]. rewrite Ho; [done|]. intros Q. apply Nj. by eapply (ok_cells s A). }
    destruct (val_type u); [done | | |done].
    + destruct P as [P1 P2]. split; [done|]. intros Fx Co. apply Q; [by apply P2|]. intros ->. by apply Hv.
    + apply Q; [done|]. intros ->. by apply Hv.
  - apply ev_out; [done | done|]. intros o _. apply store_other. left. apply not_eq_sym. by apply (ok_stack s A k).
Qed.

(** A store to the call stack. *)
Lemma emit_stack s h ty r o : ra_ok s -> places X s h v -> (forall y, o <= y -> ks y = false) ->
  let i := OSt ty r TCG_REG_RSP o in
  ra_ok (tcg_out s i) /\ places X (tcg_out s i) (exec1 h i) v /\ ev keep ks s h (tcg_out s i) (exec1 h i) /\ load ty (exec1 h i) TCG_REG_RSP o = trunc ty (hr h r).
Proof.
  intros A P Ko i. split_and!; [by apply ok_out | | | apply load_store].
  - intros j u Ej Xj. specialize (P j u Ej Xj). unfold located in *. change (ra_temps s !! j = Some u) in Ej.
    assert (Q : forall w, mem_allocated u = true /\ slot h u = w -> mem_allocated u = true /\ slot (exec1 h i) u = w).
    { intros w [Mu <-]. split; [done|]. apply store_slot. left. by apply (ok_stack s A j). }
    destruct (val_type u); [done | | by apply Q | done]. destruct P as [P1 P2]. split; [done|]. intros Fx Co. by apply Q, P2.
  - apply ev_out; [done | done|]. intros x Kx. apply store_other. right. left. destruct (Z.lt_ge_cases x o) as [|G]; [done|]. rewrite (Ko x G) in Kx. done.
Qed.
End Emit.

(** ** The primitives *)

Lemma temp_at_ok s k ts : ra_temps s !! k = Some ts -> temp_at s (Z.of_nat k) = Ok ts.
Proof. intros E. unfold temp_at. destruct (Z.ltb_spec (Z.of_nat k) 0); [lia|]. by rewrite Nat2Z.id, E. Qed.
Lemma owner_ok s r : ra_ok s -> 0 <= r < 16 -> exists k, reg_to_temp s !! Z.to_nat r = Some k /\ arg_at (reg_to_temp s) r = Ok k.
Proof.
  intros A R. pose proof (ok_regs s A) as L. destruct (lookup_lt_is_Some_2 (reg_to_temp s) (Z.to_nat r)) as [k E]; [lia|]. exists k. split; [done|].
  unfold arg_at. destruct (Z.ltb_spec r 0); [lia|]. by rewrite E.
Qed.

Lemma regset_test_bit d r : 0 <= r -> regset_test d r = Z.testbit d r.
Proof.
  intros H. unfold regset_test, nz. change 1 with (Z.ones 1). rewrite Z.land_ones by lia. change (2 ^ 1) with 2. rewrite <- Z.bit0_mod, Z.shiftr_spec, Z.add_0_l by lia. by destruct (Z.testbit d r).
Qed.
Lemma regset_set_test d r x : 0 <= r -> 0 <= x -> regset_test (regset_set d r) x = (x =? r) || regset_test d x.
Proof.
  intros Hr Hx. rewrite !regset_test_bit by done. unfold regset_set. rewrite Z.lor_spec, Z.shiftl_1_l. destruct (Z.eqb_spec x r) as [->|N].
  - rewrite Z.pow2_bits_true by done. apply orb_true_r.
  - rewrite Z.pow2_bits_false by lia. apply orb_false_r.
Qed.
Lemma regset_andnot_test a b r : 0 <= r -> regset_test (Z.land a (Z.lnot b)) r = regset_test a r && negb (regset_test b r).
Proof. intros H. rewrite !regset_test_bit by done. rewrite Z.land_spec, Z.lnot_spec by done. done. Qed.
Lemma order_range r : In r tcg_target_reg_alloc_order -> 0 <= r < 16.
Proof. cbn. unfold TCG_REG_RAX, TCG_REG_RCX, TCG_REG_RDX, TCG_REG_RBX, TCG_REG_RBP, TCG_REG_RSI, TCG_REG_RDI, TCG_REG_R8, TCG_REG_R9, TCG_REG_R10, TCG_REG_R11, TCG_REG_R12, TCG_REG_R13, TCG_REG_R14, TCG_REG_R15. lia. Qed.

Section Prims.
Context (X : Z -> Prop) (v : Z -> Z) (keep ks : Z -> bool).
Notation good s h := (ra_ok s /\ places X s h v).

(** New places in the frame. *)
Lemma frame_good s h k ts : good s h -> ra_temps s !! k = Some ts -> fixed_reg ts = false -> mem_allocated ts = false ->
  exists s' ts', temp_allocate_frame s (Z.of_nat k) = Ok s' /\ good s' h /\ ev keep ks s h s' h /\ ra_temps s' !! k = Some ts' /\
    mem_allocated ts' = true /\ val_type ts' = val_type ts /\ reg ts' = reg ts /\ val ts' = val ts /\ fixed_reg ts' = false /\ reg_to_temp s' = reg_to_temp s /\ ra_temps s' = <[k := ts']> (ra_temps s) /\ type ts' = type ts.
Proof.
  intros [A P] E Fx M. set (off := align8 (current_frame_offset s)). pose proof (unplaced_pos _ _ _ E M) as U. pose proof (ok_room s A) as R. fold off in R.
  pose proof (align8_ge (current_frame_offset s)) as Ge. fold off in Ge.
  set (ts' := ts <| mem_offset := off |> <| mem_reg := frame_reg s |> <| mem_allocated := true |>).
  set (s' := s <| current_frame_offset := off + 8 |> <| ra_temps := <[k := ts']> (ra_temps s) |>).
  assert (Ef : temp_allocate_frame s (Z.of_nat k) = Ok s').
  { unfold temp_allocate_frame. rewrite (temp_at_ok s k ts E). cbn [res_bind]. fold (align8 (current_frame_offset s)). fold off. unfold put_temp. rewrite Nat2Z.id. cbn.
    destruct (Z.ltb_spec (frame_end s) (off + 8)); [lia | done]. }
  assert (Old : forall j u, ra_temps s' !! j = Some u -> j = k /\ u = ts' \/ j <> k /\ ra_temps s !! j = Some u).
  { intros j u Ej. apply list_lookup_insert_Some in Ej as [(<- & <- & _)|[N Ej]]; [by left | right; split; [congruence | done]]. }
  assert (Ek : ra_temps s' !! k = Some ts') by (apply list_lookup_insert_eq; by eapply lookup_lt_Some).
  exists s', ts'. split_and!; try done.
  - split; cbn -[len align8 unplaced reserved cell Z.mul Z.add insert lookup ts']; [apply (ok_regs s A) | | apply (ok_reserved s A) | | | | | | | | apply (ok_frame s A) | |].
    + unfold len. rewrite length_insert. apply (ok_globals s A).
    + intros r j Ej Nj. destruct (ok_owner s A r j Ej Nj) as (Hj & u & Eu & Vu & Ru). split; [done|]. destruct (decide (Z.to_nat j = k)) as [Q|N].
      * exists ts'. rewrite Q in *. rewrite E in Eu. injection Eu as ->. split; [exact Ek | done].
      * exists u. by rewrite list_lookup_insert_ne.
    + intros j u Ej Vu. destruct (Old j u Ej) as [[-> ->]|[N Eu]]; [apply (ok_reg s A k ts E Vu) | by apply (ok_reg s A)].
    + intros j u Ej Fu. destruct (Old j u Ej) as [[-> ->]|[N Eu]]; [cbn in Fu; congruence | by apply (ok_fixed s A)].
    + intros j u Ej Gj Fu. destruct (Old j u Ej) as [[-> ->]|[N Eu]]; [done | by apply (ok_global s A j)].
    + assert (Nw : forall j u, ra_temps s !! j = Some u -> mem_allocated u = true -> ~ meets u ts' /\ ~ meets ts' u).
      { intros j u Ej Mu. pose proof (size_range (type ts')) as Sz. pose proof (size_range (type u)) as Su. split; intros (C1 & C2 & C3); change (mem_offset ts') with off in *; (eapply (ok_fresh s A); [done | done | done | lia | lia]). }
      intros j j' u u' Ej Ej' Mu Mu' Ec. destruct (Old j u Ej) as [[-> ->]|[N Eu]], (Old j' u' Ej') as [[-> ->]|[N' Eu']]; [done | | |by eapply (ok_cells s A)].
      * by destruct (Nw j' u' Eu' Mu').
      * by destruct (Nw j u Eu Mu).
    + intros j u Ej Mu Mr Mo Mf. destruct (Old j u Ej) as [[-> ->]|[N Eu]].
      * pose proof (size_range (type ts')). change (mem_offset ts') with off in *. lia.
      * eapply (ok_fresh s A); [done..|lia|done].
    + intros j u Ej Mu. destruct (Old j u Ej) as [[-> ->]|[N Eu]]; [apply (ok_frame s A) | by apply (ok_stack s A j)].
    + rewrite (unplaced_insert _ _ _ _ E), M. change (mem_allocated ts') with true. cbn iota. unfold off. rewrite align8_next. fold off. lia.
    + intros j u Ej Fu. destruct (Old j u Ej) as [[-> ->]|[N Eu]]; [cbn in Fu; congruence | by eapply (ok_fixed_reg s A)].
  - intros j u Ej Xj. destruct (Old j u Ej) as [[-> ->]|[N Eu]]; [|by apply P]. specialize (P k ts E Xj). unfold located in *. cbn in *.
    destruct (val_type ts); [done | | | done].
    + destruct P as [P1 P2]. split; [done|]. intros _ Co. destruct (P2 Fx Co). congruence.
    + destruct P. congruence.
  - split; try done; [by apply emitted_same | cbn; by rewrite length_insert|]. intros j u Ej. destruct (decide (j = k)) as [->|N].
    + rewrite E in Ej. injection Ej as <-. exists ts'. split; [done|]. split_and!; try done; [intros; congruence | by left].
    + exists u. split; [|apply moved_refl]. cbn. by rewrite list_lookup_insert_ne.
Qed.

(** The value of a register goes to the memory of a temporary. *)
Lemma spill_good s h k ts r : good s h -> ra_temps s !! k = Some ts -> fixed_reg ts = false -> (X (Z.of_nat k) -> trunc (type ts) (hr h r) = v (Z.of_nat k)) ->
  exists s' ts' h', spill s (Z.of_nat k) r = Ok s' /\ good s' h' /\ ev keep ks s h s' h' /\ ra_temps s' !! k = Some ts' /\
    mem_allocated ts' = true /\ (X (Z.of_nat k) -> slot h' ts' = v (Z.of_nat k)) /\
    val_type ts' = val_type ts /\ reg ts' = reg ts /\ val ts' = val ts /\ fixed_reg ts' = false /\ reg_to_temp s' = reg_to_temp s /\ hr h' = hr h /\ ra_temps s' = <[k := ts']> (ra_temps s) /\
    forall u, ~ meets u ts' -> slot h' u = slot h u.
Proof.
  intros G E Fx Hv. unfold spill. rewrite (temp_at_ok s k ts E). cbn [res_bind].
  assert (H : exists s1 ts1, (if negb (mem_allocated ts) then temp_allocate_frame s (Z.of_nat k) else Ok s) = Ok s1 /\ good s1 h /\ ev keep ks s h s1 h /\ ra_temps s1 !! k = Some ts1 /\
    mem_allocated ts1 = true /\ val_type ts1 = val_type ts /\ reg ts1 = reg ts /\ val ts1 = val ts /\ fixed_reg ts1 = false /\ reg_to_temp s1 = reg_to_temp s /\ ra_temps s1 = <[k := ts1]> (ra_temps s) /\ type ts1 = type ts).
  { destruct (mem_allocated ts) eqn:M; cbn [negb]; [|by apply frame_good]. exists s, ts. split_and!; try done; try apply G; [apply ev_refl | by rewrite list_insert_id]. }
  destruct H as (s1 & ts1 & -> & [A1 P1] & V1 & E1 & M1 & F1 & F2 & F3 & F4 & F5 & F6 & F7). cbn [res_bind]. rewrite (temp_at_ok s1 k ts1 E1). cbn [res_bind]. rewrite <- F7 in Hv.
  destruct (emit_store X v keep ks s1 h k ts1 r A1 P1 E1 M1 Hv) as (A2 & P2 & V2 & Hm & Ho).
  eexists _, ts1, _. split; [done|]. split; [by split|]. split; [by eapply ev_trans|]. split_and!; try done. intros Xk. by rewrite Hm, Hv.
Qed.

(** A temporary leaves its place for its memory. *)
Lemma leave_good s h k ts : good s h -> ra_temps s !! k = Some ts -> fixed_reg ts = false ->
  (X (Z.of_nat k) -> mem_allocated ts = true /\ slot h ts = v (Z.of_nat k)) ->
  let s' := put_temp (drop_reg s ts) (Z.of_nat k) (ts <| val_type := TEMP_VAL_MEM |>) in
  good s' h /\ ev keep ks s h s' h /\ (val_type ts = TEMP_VAL_REG -> reg_to_temp s' !! Z.to_nat (reg ts) = Some (-1)).
Proof.
  intros [A P] E Fx Hv s'. set (ts' := ts <| val_type := TEMP_VAL_MEM |>) in *. assert (Et : ra_temps s' = <[k := ts']> (ra_temps s)) by (unfold s', put_temp, drop_reg; rewrite Nat2Z.id; by case_bool_decide).
  assert (Er : reg_to_temp s' = if bool_decide (val_type ts = TEMP_VAL_REG) then <[Z.to_nat (reg ts) := -1]> (reg_to_temp s) else reg_to_temp s) by (unfold s', put_temp, drop_reg; by case_bool_decide).
  assert (Ec : code s' = code s /\ ra_globals s' = ra_globals s) by (unfold s', put_temp, drop_reg; by case_bool_decide).
  split_and!; [by apply ok_leave | | |].
  - intros j u Ej Xj. rewrite Et in Ej. apply list_lookup_insert_Some in Ej as [(<- & <- & _)|[N Ej]]; [|by apply P]. exact (Hv Xj).
  - split; try done; try apply Ec.
    + apply emitted_same, Ec.
    + by rewrite Et, length_insert.
    + intros j u Ej. rewrite Et. destruct (decide (j = k)) as [->|N]; [|exists u; rewrite list_lookup_insert_ne by done; split; [done | apply moved_refl]].
      rewrite E in Ej. injection Ej as <-. exists ts'. rewrite list_lookup_insert_eq by (by eapply lookup_lt_Some). split; [done|]. split_and!; try done. by right; left.
    + intros r Hr. rewrite Er. case_bool_decide; [|done]. destruct (decide (r = Z.to_nat (reg ts))) as [->|N]; [by apply list_lookup_insert_eq, (lookup_lt_Some _ _ _ Hr) | by rewrite list_lookup_insert_ne].
  - intros V. rewrite Er, bool_decide_true by done. destruct (ok_reg s A k ts E V) as [R H]. destruct (H Fx) as [Ho _]. apply list_lookup_insert_eq. by eapply lookup_lt_Some.
Qed.

(** Freeing register [r] changes the temporary it holds and no other. *)
Definition untouched (r : Z) (s : RA) (h : HS) (s' : RA) (h' : HS) : Prop :=
  forall j u, ra_temps s !! j = Some u -> (val_type u = TEMP_VAL_REG -> reg u <> r) -> ra_temps s' !! j = Some u /\ (mem_allocated u = true -> slot h' u = slot h u).

Lemma free_good s h r : good s h -> 0 <= r < 16 -> reserved r = false ->
  exists s' h', tcg_reg_free s r = Ok s' /\ good s' h' /\ ev keep ks s h s' h' /\ reg_to_temp s' !! Z.to_nat r = Some (-1) /\ hr h' = hr h /\
    untouched r s h s' h'.
Proof.
  intros [A P] R Rr. destruct (owner_ok s r A R) as (k & Ek & Ea). unfold tcg_reg_free. rewrite Ea. cbn [res_bind].
  destruct (Z.eqb_spec k (-1)) as [->|Nk]; cbn [negb]; [exists s, h; split_and!; try done; apply ev_refl|].
  destruct (ok_owner s A _ _ Ek Nk) as (Hk & ts & E & V & Rg). rewrite Z2Nat.id in Rg by lia. destruct (Z_of_nat_complete k Hk) as [n ->]. rewrite Nat2Z.id in E.
  assert (Fx : fixed_reg ts = false) by (destruct (fixed_reg ts) eqn:Fx; [|done]; destruct (ok_fixed s A n ts E Fx) as (_ & Q & _); congruence).
  rewrite (temp_at_ok s n ts E). cbn [res_bind]. rewrite bool_decide_false by (by intros []).
  assert (H : exists s1 ts1 h1, (if negb (mem_coherent ts) then spill s (Z.of_nat n) r else Ok s) = Ok s1 /\ good s1 h1 /\ ev keep ks s h s1 h1 /\ ra_temps s1 !! n = Some ts1 /\
    (X (Z.of_nat n) -> mem_allocated ts1 = true /\ slot h1 ts1 = v (Z.of_nat n)) /\ val_type ts1 = TEMP_VAL_REG /\ reg ts1 = r /\ fixed_reg ts1 = false /\ hr h1 = hr h /\ ra_temps s1 = <[n := ts1]> (ra_temps s) /\
    ((forall u, ~ meets u ts1 -> slot h1 u = slot h u) /\ mem_allocated ts1 = true \/ h1 = h)).
  { assert (Hx : X (Z.of_nat n) -> trunc (type ts) (hr h r) = v (Z.of_nat n) /\ (fixed_reg ts = false -> mem_coherent ts = true -> mem_allocated ts = true /\ slot h ts = v (Z.of_nat n))).
    { intros Xn. specialize (P n ts E Xn). unfold located in P. rewrite V, Rg in P. exact P. }
    destruct (mem_coherent ts) eqn:Co; cbn [negb].
    - exists s, ts, h. split_and!; try done; [apply ev_refl | | by rewrite list_insert_id | by right]. intros Xn. by apply Hx.
    - destruct (spill_good s h n ts r (conj A P) E Fx (fun Xn => proj1 (Hx Xn))) as (s1 & ts1 & h1 & -> & G1 & V1 & E1 & M1 & Hm & Q1 & Q2 & Q3 & Q4 & Q5 & Q6 & Q7 & Q8).
      exists s1, ts1, h1. split_and!; try done; try congruence; try apply G1; [|by left]. intros Xn. split; [done | by apply Hm]. }
  destruct H as (s1 & ts1 & h1 & -> & G1 & V1 & E1 & M1 & W1 & R1 & F1 & Hh & Et & Hm). cbn [res_bind]. rewrite (temp_at_ok s1 n ts1 E1). cbn [res_bind].
  destruct (leave_good s1 h1 n ts1 G1 E1 F1 M1) as (G2 & V2 & Hf). specialize (Hf W1). unfold drop_reg in *. rewrite bool_decide_true in * by done. rewrite R1 in *.
  eexists _, h1. split; [reflexivity|]. split; [exact G2|]. split; [by eapply ev_trans|]. split_and!; [done | done|].
  intros j u Ej Nu. assert (j <> n) by (intros ->; rewrite E in Ej; injection Ej as <-; by apply Nu). split; [cbn; rewrite Nat2Z.id, Et; by rewrite !list_lookup_insert_ne|].
  intros Mu. destruct Hm as [[Hm Ma]| ->]; [|done]. apply Hm. intros Q. assert (j = n); [|done]. eapply (ok_cells s1 (proj1 G1) j n u ts1); [rewrite Et; by rewrite list_lookup_insert_ne | done..].
Qed.

(** A register of [reg1] that is not in [reg2]. *)
Lemma alloc_good s h reg1 reg2 : good s h -> (forall r, 0 <= r -> reserved r = true -> regset_test reg2 r = true) ->
  (exists r, r ∈ tcg_target_reg_alloc_order /\ regset_test reg1 r = true /\ regset_test reg2 r = false) ->
  exists r s' h', tcg_reg_alloc s reg1 reg2 = Ok (r, s') /\ good s' h' /\ ev keep ks s h s' h' /\ reg_to_temp s' !! Z.to_nat r = Some (-1) /\ hr h' = hr h /\
    0 <= r < 16 /\ reserved r = false /\ regset_test reg1 r = true /\ regset_test reg2 r = false /\
    untouched r s h s' h'.
Proof.
  intros G Rs (r0 & I0 & T0 & U0). unfold tcg_reg_alloc. destruct (List.find _ tcg_target_reg_alloc_order) as [r|] eqn:F1.
  - apply find_some in F1 as [I [H1 H2]%andb_prop]. apply order_range in I as R. rewrite regset_andnot_test in H1 by lia. apply andb_prop in H1 as [H1 H3%negb_true_iff].
    destruct (owner_ok s r (proj1 G) R) as (k & Ek & _). rewrite (nth_lookup_Some _ _ _ _ Ek) in H2. apply Z.eqb_eq in H2 as ->.
    exists r, s, h. split_and!; try done; try apply G; try lia; [apply ev_refl|]. destruct (reserved r) eqn:Q; [|done]. rewrite (Rs r) in H3 by (lia || done). done.
  - destruct (List.find (regset_test _) tcg_target_reg_alloc_order) as [r|] eqn:F2.
    + apply find_some in F2 as [I H1]. apply order_range in I as R. rewrite regset_andnot_test in H1 by lia. apply andb_prop in H1 as [H1 H3%negb_true_iff].
      assert (Rr : reserved r = false) by (destruct (reserved r) eqn:Q; [|done]; rewrite (Rs r) in H3 by (lia || done); done).
      destruct (free_good s h r G R Rr) as (s' & h' & -> & G' & V' & O' & Hh & Hu). cbn [res_bind]. exists r, s', h'. by split_and!; try apply G'; try lia.
    + apply list_elem_of_In in I0. pose proof (find_none _ _ F2 r0 I0) as N. apply order_range in I0. rewrite regset_andnot_test, T0, U0 in N by lia. done.
Qed.

(** *** Saving *)

Context (allocated : Z) (Hk : forall r, 0 <= r -> regset_test allocated r = false -> keep r = false)
  (Hrs : forall r, 0 <= r -> reserved r = true -> regset_test allocated r = true)
  (Hfree : exists r, r ∈ tcg_target_reg_alloc_order /\ regset_test tcg_target_available_regs r = true /\ regset_test allocated r = false).

Lemma save_good s h k ts : good s h -> ra_temps s !! k = Some ts ->
  exists s' h' ts', temp_save s (Z.of_nat k) allocated = Ok s' /\ good s' h' /\ ev keep ks s h s' h' /\ ra_temps s' !! k = Some ts' /\ (fixed_reg ts = false -> val_type ts' = TEMP_VAL_MEM).
Proof.
  intros G E. destruct G as [A P]. unfold temp_save. rewrite (temp_at_ok s k ts E). cbn [res_bind]. destruct (fixed_reg ts) eqn:Fx; cbn [negb]; [exists s, h, ts; split_and!; try done; apply ev_refl|].
  destruct (val_type ts) eqn:V.
  - assert (Nx : ~ X (Z.of_nat k)) by (intros Xk; specialize (P k ts E Xk); unfold located in P; by rewrite V in P).
    destruct (leave_good s h k ts (conj A P) E Fx (fun Xk => False_ind _ (Nx Xk))) as (G1 & V1 & _). unfold drop_reg in *. rewrite bool_decide_false in * by congruence.
    eexists _, h, (ts <| val_type := TEMP_VAL_MEM |>). split; [reflexivity|]. split; [exact G1|]. split; [exact V1|]. split; [|done]. cbn. rewrite Nat2Z.id. apply list_lookup_insert_eq. by eapply lookup_lt_Some.
  - destruct (ok_reg s A k ts E V) as [R H]. destruct (H Fx) as [Ho Rr]. destruct (free_good s h (reg ts) (conj A P) R Rr) as (s' & h' & Ef & G' & V' & O' & Hh & Hu).
    destruct (ev_temps _ _ _ _ _ _ _ V' k ts E) as (ts' & Et' & M). exists s', h', ts'. split_and!; try done; try apply G'. intros _.
    destruct M as (_ & M2 & _ & _ & M6 & _ & [M5|[M5|[M5 _]]]); [|done|done]. rewrite V in M5. destruct (ok_reg s' (proj1 G') k ts' Et' M5) as [R' H']. rewrite M2 in H'. destruct (H' Fx) as [Ho' _].
    rewrite M6, O' in Ho'. injection Ho'. lia.
  - exists s, h, ts. split_and!; try done. apply ev_refl.
  - destruct (alloc_good s h tcg_target_available_regs allocated (conj A P) Hrs Hfree) as (r & s1 & h1 & -> & [A1 P1] & V1 & O1 & Hh1 & R & Rr & T1 & T2 & Hu). cbn [res_bind].
    assert (E1 : ra_temps s1 !! k = Some ts) by (apply Hu; congruence). rewrite (temp_at_ok s1 k ts E1). cbn [res_bind].
    assert (Hf : exists s2 ts2, (if negb (mem_allocated ts) then temp_allocate_frame s1 (Z.of_nat k) else Ok s1) = Ok s2 /\ good s2 h1 /\ ev keep ks s1 h1 s2 h1 /\ ra_temps s2 !! k = Some ts2 /\
      mem_allocated ts2 = true /\ val_type ts2 = val_type ts /\ val ts2 = val ts /\ fixed_reg ts2 = false /\ reg_to_temp s2 = reg_to_temp s1 /\ type ts2 = type ts).
    { destruct (mem_allocated ts) eqn:M; cbn [negb].
      - exists s1, ts. split_and!; try done. apply ev_refl.
      - destruct (frame_good s1 h1 k ts (conj A1 P1) E1 Fx M) as (s2 & ts2 & -> & G2 & V2 & E2 & M2 & Q1 & Q2 & Q3 & Q4 & Q5 & Q6 & Q7). exists s2, ts2. split_and!; try done; apply G2. }
    destruct Hf as (s2 & ts2 & -> & [A2 P2] & V2 & E2 & M2 & Q1 & Q3 & Q4 & Q5 & Q6). cbn [res_bind]. rewrite (temp_at_ok s2 k ts2 E2). cbn [res_bind].
    destruct (emit_reg X v keep ks s2 h1 (OMovi (type ts2) r (val ts2)) r (tcg_out_movi (type ts2) (val ts2)) eq_refl eq_refl A2 P2) as (A3 & P3 & V3); [apply Hk; [lia | done] | apply free_reg_unused; [done | lia | congruence | done]|].
    set (s3 := tcg_out s2 _) in *. set (h3 := exec1 h1 _) in *. assert (Hr3 : hr h3 r = tcg_out_movi (type ts2) (val ts2)) by (apply set_hr_eq).
    assert (E3 : ra_temps s3 !! k = Some ts2) by done.
    assert (Hv3 : X (Z.of_nat k) -> trunc (type ts2) (hr h3 r) = v (Z.of_nat k)) by (intros Xk; rewrite Hr3, movi_trunc, Q3, Q6; specialize (P k ts E Xk); unfold located in P; by rewrite V in P).
    destruct (emit_store X v keep ks s3 h3 k ts2 r A3 P3 E3 M2 Hv3) as (A4 & P4 & V4 & Hm & _).
    destruct (leave_good _ _ k ts2 (conj A4 P4) E3 Q4) as (G5 & V5 & _); [intros Xk; split; [done | by rewrite Hm, Hv3]|].
    unfold drop_reg in *. rewrite bool_decide_false in * by congruence.
    eexists _, _, (ts2 <| val_type := TEMP_VAL_MEM |>). split; [reflexivity|]. split; [exact G5|]. split; [repeat (eapply ev_trans; [eassumption|]); apply ev_refl|]. split; [|done]. cbn. rewrite Nat2Z.id. apply list_lookup_insert_eq. by eapply lookup_lt_Some.
Qed.

Lemma mem_stays dd s h s' h' k ts ts' : evd dd keep ks s h s' h' -> dd k = false -> ra_temps s !! k = Some ts -> ra_temps s' !! k = Some ts' -> val_type ts = TEMP_VAL_MEM -> val_type ts' = TEMP_VAL_MEM.
Proof.
  intros V Hd E E' M. destruct (ev_temps _ _ _ _ _ _ _ V k ts E) as (u & Eu & (_ & _ & _ & _ & _ & _ & Q)). rewrite E' in Eu. injection Eu as <-. destruct Q as [Q|[Q|[Q _]]]; congruence.
Qed.
Lemma same_kind dd s h s' h' k ts ts' : evd dd keep ks s h s' h' -> ra_temps s !! k = Some ts -> ra_temps s' !! k = Some ts' -> fixed_reg ts' = fixed_reg ts /\ is_temp_local ts' = is_temp_local ts.
Proof. intros V E E'. destruct (ev_temps _ _ _ _ _ _ _ V k ts E) as (u & Eu & (_ & F & L & _)). rewrite E' in Eu. by injection Eu as <-. Qed.

Definition in_memory (s : RA) (k : nat) : Prop := forall ts, ra_temps s !! k = Some ts -> fixed_reg ts = false -> val_type ts = TEMP_VAL_MEM.
Lemma in_memory_stays dd s h s' h' k : evd dd keep ks s h s' h' -> dd k = false -> in_memory s k -> in_memory s' k.
Proof.
  intros V Hd I ts' E' Fx. pose proof (lookup_lt_Some _ _ _ E') as L. rewrite (ev_len _ _ _ _ _ _ _ V) in L. apply lookup_lt_is_Some in L as [ts E].
  destruct (same_kind _ _ _ _ _ _ _ _ V E E') as [F _]. eapply mem_stays; [done..|]. apply I; [done | congruence].
Qed.

Lemma save_all l s h : good s h -> (forall k, k ∈ l -> (k < length (ra_temps s))%nat) ->
  exists s' h', for_temps (fun s i => temp_save s i allocated) (map Z.of_nat l) s = Ok s' /\ good s' h' /\ ev keep ks s h s' h' /\ forall k, k ∈ l -> in_memory s' k.
Proof.
  revert s h. induction l as [|k l IH]; intros s h G L; [exists s, h; split_and!; try done; try apply G; [apply ev_refl | intros k Kn; by apply elem_of_nil in Kn]|].
  destruct (lookup_lt_is_Some_2 (ra_temps s) k) as [ts E]; [apply L; set_solver|]. destruct (save_good s h k ts G E) as (s1 & h1 & ts1 & E1 & G1 & V1 & T1 & M1).
  destruct (IH s1 h1 G1) as (s2 & h2 & E2 & G2 & V2 & M2); [intros j Hj; rewrite (ev_len _ _ _ _ _ _ _ V1); apply L; set_solver|].
  exists s2, h2. cbn [map for_temps]. rewrite E1. cbn [res_bind]. split_and!; [done | apply G2 | apply G2 | by eapply ev_trans|]. intros j Hj. apply elem_of_cons in Hj as [->|Hj]; [|by apply M2].
  apply (in_memory_stays (fun _ => false) s1 h1 s2 h2); [done..|]. intros u Eu Fu. rewrite T1 in Eu. injection Eu as <-. apply M1. destruct (same_kind _ _ _ _ _ _ _ _ V1 E T1). congruence.
Qed.

Lemma seqZ_nat a n : 0 <= a -> 0 <= n -> seqZ a n = map Z.of_nat (seq (Z.to_nat a) (Z.to_nat n)).
Proof.
  intros A N. apply list_eq. intros i. change (map Z.of_nat ?l) with (Z.of_nat <$> l). rewrite list_lookup_fmap. destruct (decide (Z.of_nat i < n)) as [L|L].
  - rewrite lookup_seqZ_lt, lookup_seq_lt by lia. cbn. f_equal. lia.
  - rewrite lookup_seqZ_ge, lookup_seq_ge by lia. done.
Qed.

Lemma save_globals_good s h : good s h -> exists s' h', save_globals s allocated = Ok s' /\ good s' h' /\ ev keep ks s h s' h' /\ forall k, Z.of_nat k < ra_globals s -> in_memory s' k.
Proof.
  intros G. destruct (ok_globals s (proj1 G)) as [G0 G1]. unfold save_globals. rewrite seqZ_nat by lia. unfold len in G1.
  destruct (save_all (seq (Z.to_nat 0) (Z.to_nat (ra_globals s))) s h G) as (s' & h' & E & G' & V & M); [intros k Kn; apply elem_of_seq in Kn; lia|].
  exists s', h'. split_and!; try done; try apply G'. intros k Kn. apply M, elem_of_seq. lia.
Qed.

(** A temporary that does not matter is marked dead. *)
Lemma dead_good dd s h k ts : good s h -> ra_temps s !! k = Some ts -> fixed_reg ts = false -> ~ X (Z.of_nat k) -> dd k = true ->
  exists s' ts', mark_dead s (Z.of_nat k) = Ok s' /\ good s' h /\ evd dd keep ks s h s' h /\ ra_temps s' = <[k := ts']> (ra_temps s) /\ val_type ts' = TEMP_VAL_DEAD.
Proof.
  intros [A P] E Fx Nx Hd. unfold mark_dead. rewrite (temp_at_ok s k ts E). cbn [res_bind]. set (ts' := ts <| val_type := TEMP_VAL_DEAD |>). set (s' := put_temp (drop_reg s ts) (Z.of_nat k) ts').
  assert (Et : ra_temps s' = <[k := ts']> (ra_temps s)) by (unfold s', put_temp, drop_reg; rewrite Nat2Z.id; by case_bool_decide).
  assert (Er : reg_to_temp s' = if bool_decide (val_type ts = TEMP_VAL_REG) then <[Z.to_nat (reg ts) := -1]> (reg_to_temp s) else reg_to_temp s) by (unfold s', put_temp, drop_reg; by case_bool_decide).
  assert (Ec : code s' = code s /\ ra_globals s' = ra_globals s) by (unfold s', put_temp, drop_reg; by case_bool_decide).
  exists s', ts'. split_and!; try done.
  - by apply ok_leave.
  - intros j u Ej Xj. rewrite Et in Ej. apply list_lookup_insert_Some in Ej as [(<- & <- & _)|[N Ej]]; [done | by apply P].
  - split; try done; try apply Ec.
    + apply emitted_same, Ec.
    + by rewrite Et, length_insert.
    + intros j u Ej. rewrite Et. destruct (decide (j = k)) as [->|N]; [|exists u; rewrite list_lookup_insert_ne by done; split; [done | apply moved_refl]].
      rewrite E in Ej. injection Ej as <-. exists ts'. rewrite list_lookup_insert_eq by (by eapply lookup_lt_Some). split; [done|]. split_and!; try done. by right; right.
    + intros r Hr. rewrite Er. case_bool_decide; [|done]. destruct (decide (r = Z.to_nat (reg ts))) as [->|N]; [by apply list_lookup_insert_eq, (lookup_lt_Some _ _ _ Hr) | by rewrite list_lookup_insert_ne].
Qed.
End Prims.

End TcgRegInv.
