(* ===== verification/TcgRegOp.v ===== *)
(** * The register allocator on operations

    Each function of [TcgReg] that handles an operation returns, keeps the
    tables of the allocator in order, and what it emits gives the operation the
    values of its inputs and leaves every temporary that matters in its
    place. *)

From stdpp Require Import list sets.
From Stdlib Require Import ZifyBool.
From S2P Require Import Prelude Tcg TcgLive TcgSem TcgReg TcgRegInv.

Module TcgRegOp.
Import Tcg TcgLive TcgReg TcgRegInv.

(** ** What lasts *)

(** From one state of the allocator to a later one in the same block. *)
Record grows (s s' : RA) : Prop := {
  gr_code : exists c, code s' = code s ++ c;
  gr_globals : ra_globals s' = ra_globals s;
  gr_len : length (ra_temps s') = length (ra_temps s);
  gr_temps k ts : ra_temps s !! k = Some ts -> exists ts', ra_temps s' !! k = Some ts' /\ fixed_reg ts' = fixed_reg ts /\ (fixed_reg ts = true -> reg ts' = reg ts) /\
    is_temp_local ts' = is_temp_local ts /\ (mem_allocated ts = true -> mem_allocated ts' = true /\ cell ts' = cell ts);
  gr_type k ts ts' : ra_temps s !! k = Some ts -> ra_temps s' !! k = Some ts' -> type ts' = type ts
}.
#[export] Instance grows_preorder : PreOrder grows.
Proof.
  split.
  - intros s. split; try done; [exists []; by rewrite app_nil_r | intros k ts E; by exists ts | intros k ts ts' E E'; congruence].
  - intros s1 s2 s3 [(c & Ec) A2 A3 A4 A5] [(d & Ed) B2 B3 B4 B5]. split; try congruence; [exists (c ++ d); by rewrite Ed, Ec, <- app_assoc| |intros k ts ts' E E'; destruct (A4 k ts E) as (t1 & E1 & _); rewrite (B5 k t1 ts' E1 E'); by eapply A5].
    intros k ts E. destruct (A4 k ts E) as (t1 & E1 & F1 & R1 & L1 & M1). destruct (B4 k t1 E1) as (t2 & E2 & F2 & R2 & L2 & M2). exists t2. split_and!; try congruence.
    + intros Fx. rewrite R2; [auto | congruence].
    + intros M. destruct (M1 M) as [M1' C1]. destruct (M2 M1') as [M2' C2]. split; [done | congruence].
Qed.
Lemma ev_grows dd keep ks s h s' h' : evd dd keep ks s h s' h' -> grows s s'.
Proof.
  intros [(c & Ec & _ & _) A2 A3 A4 _ _ _]. split; try done; [by exists c| |].
  - intros k ts E. destruct (A4 k ts E) as (t1 & E1 & (M1 & M2 & M3 & M4 & M5 & _)). exists t1. by split_and!.
  - intros k ts ts' E E'. destruct (A4 k ts E) as (t1 & E1 & (M1 & _)). congruence.
Qed.

Lemma grows_out s i : grows s (tcg_out s i).
Proof. split; try done; [by exists [i] | intros k ts E; by exists ts | intros k ts ts' E; cbn; congruence]. Qed.

Lemma places_weaken (X X' : Z -> Prop) s h v v' : places X s h v -> (forall t, X' t -> X t /\ v' t = v t) -> places X' s h v'.
Proof. intros P W k ts E Xk. destruct (W _ Xk) as [Xk' ->]. by apply P. Qed.

Lemma places_put (X X' : Z -> Prop) s s' h v v' k ts' : places X s h v -> ra_temps s' = <[k := ts']> (ra_temps s) ->
  (forall j, j <> k -> X' (Z.of_nat j) -> X (Z.of_nat j) /\ v' (Z.of_nat j) = v (Z.of_nat j)) -> (X' (Z.of_nat k) -> located h ts' (v' (Z.of_nat k))) -> places X' s' h v'.
Proof.
  intros P Et W L j u Ej Xj. rewrite Et in Ej. apply list_lookup_insert_Some in Ej as [(<- & <- & _)|[N Ej]]; [by apply L|]. destruct (W j ltac:(congruence) Xj) as [Xj' ->]. by apply P.
Qed.

(** ** End of a basic block *)

Section BbEnd.
Context (X : Z -> Prop) (v : Z -> Z) (keep ks : Z -> bool) (allocated : Z) (Hk : forall r, 0 <= r -> regset_test allocated r = false -> keep r = false)
  (Hrs : forall r, 0 <= r -> reserved r = true -> regset_test allocated r = true)
  (Hfree : exists r, r ∈ tcg_target_reg_alloc_order /\ regset_test tcg_target_available_regs r = true /\ regset_test allocated r = false).
Notation good s h := (ra_ok s /\ places X s h v).

(** Temporaries that end with the basic block. *)
Definition mortal (s : RA) (k : nat) : bool := match ra_temps s !! k with Some ts => negb (is_temp_local ts) && (ra_globals s <=? Z.of_nat k) | None => false end.

Lemma bb_end_loop s0 l s h : good s h -> (forall t, X t -> mortal s0 (Z.to_nat t) = false) -> (forall k, k ∈ l -> (k < length (ra_temps s0))%nat /\ ra_globals s0 <= Z.of_nat k) ->
  (forall k ts0 ts, ra_temps s0 !! k = Some ts0 -> ra_temps s !! k = Some ts -> is_temp_local ts = is_temp_local ts0) -> length (ra_temps s) = length (ra_temps s0) -> ra_globals s = ra_globals s0 ->
  exists s' h', for_temps (bb_end_temp allocated) (map Z.of_nat l) s = Ok s' /\ good s' h' /\ evd (mortal s0) keep ks s h s' h' /\ forall k, k ∈ l -> mortal s0 k = false -> in_memory s' k.
Proof.
  intros G Xm. revert s h G. induction l as [|k l IH]; intros s h G L Lo Le Ge.
  { exists s, h. split_and!; try done; try apply G; [apply ev_refl | intros k Kn; by apply elem_of_nil in Kn]. }
  destruct (L k ltac:(set_solver)) as [Lk Gk]. destruct (lookup_lt_is_Some_2 (ra_temps s0) k Lk) as [ts0 E0]. destruct (lookup_lt_is_Some_2 (ra_temps s) k) as [ts E]; [lia|].
  assert (Fx : fixed_reg ts = false) by (destruct (fixed_reg ts) eqn:Fx; [|done]; destruct (ok_fixed s (proj1 G) k ts E Fx) as (_ & _ & ?); lia).
  assert (H1 : exists s1 h1, bb_end_temp allocated s (Z.of_nat k) = Ok s1 /\ good s1 h1 /\ evd (mortal s0) keep ks s h s1 h1 /\ (mortal s0 k = false -> in_memory s1 k)).
  { unfold bb_end_temp. rewrite (temp_at_ok s k ts E). cbn [res_bind]. destruct (is_temp_local ts) eqn:Il.
    - destruct (save_good X v keep ks allocated Hk Hrs Hfree s h k ts G E) as (s1 & h1 & ts1 & E1 & G1 & V1 & T1 & M1). exists s1, h1. split_and!; try done; try apply G1; [eapply ev_weaken; [| | |exact V1]; done|].
      intros _ u Eu _. rewrite T1 in Eu. injection Eu as <-. by apply M1.
    - assert (Mk : mortal s0 k = true) by (unfold mortal; rewrite E0; rewrite <- (Lo k ts0 ts E0 E), Il; cbn; lia).
      destruct (dead_good X v keep ks (mortal s0) s h k ts G E Fx) as (s1 & ts1 & E1 & G1 & V1 & _ & _); [intros Xk; apply Xm in Xk; rewrite Nat2Z.id in Xk; congruence | done|].
      exists s1, h. split_and!; try done; try apply G1. congruence. }
  destruct H1 as (s1 & h1 & E1 & G1 & V1 & M1). destruct (IH s1 h1 G1) as (s2 & h2 & E2 & G2 & V2 & M2).
  { intros j Hj. apply L. set_solver. }
  { intros j u0 u1 Eu0 Eu1. pose proof (lookup_lt_Some _ _ _ Eu0) as Lj. rewrite <- Le in Lj. apply lookup_lt_is_Some in Lj as [u Eu]. destruct (same_kind _ _ _ _ _ _ _ _ _ _ V1 Eu Eu1) as [_ ->]. by eapply Lo. }
  { rewrite (ev_len _ _ _ _ _ _ _ V1). done. }
  { rewrite (ev_globals _ _ _ _ _ _ _ V1). done. }
  exists s2, h2. cbn [map for_temps]. rewrite E1. cbn [res_bind]. split_and!; [done | apply G2 | apply G2 | by eapply ev_trans|]. intros j Hj Mj. apply elem_of_cons in Hj as [->|Hj]; [|by apply M2].
  eapply (in_memory_stays keep ks (mortal s0) s1 h1 s2 h2); [done | done | by apply M1].
Qed.

Lemma bb_end_good s h : good s h -> (forall t, X t -> mortal s (Z.to_nat t) = false) ->
  exists s' h', tcg_reg_alloc_bb_end s allocated = Ok s' /\ good s' h' /\ evd (mortal s) keep ks s h s' h' /\ forall k, mortal s k = false -> in_memory s' k.
Proof.
  intros G Xm. destruct (ok_globals s (proj1 G)) as [G0 G1]. unfold len in G1. unfold tcg_reg_alloc_bb_end. rewrite seqZ_nat by lia.
  destruct (bb_end_loop s (seq (Z.to_nat (ra_globals s)) (Z.to_nat (Z.of_nat (length (ra_temps s)) - ra_globals s))) s h G Xm) as (s1 & h1 & -> & Gd1 & V1 & M1); [| | done | done|].
  { intros k Hk'. apply elem_of_seq in Hk'. split; lia. }
  { intros k ts0 ts E0 E. rewrite E0 in E. by injection E as <-. }
  cbn [res_bind]. destruct (save_globals_good X v keep ks allocated Hk Hrs Hfree s1 h1 Gd1) as (s2 & h2 & E2 & Gd2 & V2 & M2). exists s2, h2.
  split_and!; [done | apply Gd2 | apply Gd2 | |].
  - eapply ev_trans; [exact V1|]. eapply ev_weaken; [| | |exact V2]; done.
  - intros k Mk. destruct (decide (Z.of_nat k < ra_globals s)) as [Lk|Lk]; [apply M2; by rewrite (ev_globals _ _ _ _ _ _ _ V1)|].
    destruct (decide (k < length (ra_temps s))%nat) as [Ln|Ln].
    + eapply (in_memory_stays keep ks (fun _ => false) s1 h1 s2 h2); [done | done|]. apply M1; [|done]. apply elem_of_seq. lia.
    + intros ts E. apply lookup_lt_Some in E. rewrite (ev_len _ _ _ _ _ _ _ V2), (ev_len _ _ _ _ _ _ _ V1) in E. lia.
Qed.
End BbEnd.
(** ** Moves *)

Definition upd (v : Z -> Z) (t x : Z) : Z -> Z := TcgSem.TcgSem.upd v t x.
Lemma upd_eq v t x : upd v t x t = x.
Proof. unfold upd, TcgSem.TcgSem.upd. by rewrite Z.eqb_refl. Qed.
Lemma upd_ne v t x y : y <> t -> upd v t x y = v y.
Proof. unfold upd, TcgSem.TcgSem.upd. by destruct (Z.eqb_spec y t). Qed.

(** The tables when one entry changes. *)
Lemma grows_put s s' k ts ts' : ra_temps s !! k = Some ts -> ra_temps s' = <[k := ts']> (ra_temps s) -> (exists c, code s' = code s ++ c) -> ra_globals s' = ra_globals s ->
  fixed_reg ts' = fixed_reg ts -> (fixed_reg ts = true -> reg ts' = reg ts) -> is_temp_local ts' = is_temp_local ts -> (mem_allocated ts = true -> mem_allocated ts' = true /\ cell ts' = cell ts) -> type ts' = type ts -> grows s s'.
Proof.
  intros E Et Ec Eg F R L M Ty. split; [done | done | by rewrite Et, length_insert| |].
  - intros j u Ej. rewrite Et. destruct (decide (j = k)) as [->|N].
    + rewrite E in Ej. injection Ej as <-. exists ts'. by rewrite list_lookup_insert_eq by (by eapply lookup_lt_Some).
    + exists u. by rewrite list_lookup_insert_ne.
  - intros j u u' Ej Ej'. rewrite Et in Ej'. apply list_lookup_insert_Some in Ej' as [(<- & <- & _)|[_ Ej']]; congruence.
Qed.

Lemma drop_fields s ts : ra_temps (drop_reg s ts) = ra_temps s /\ code (drop_reg s ts) = code s /\ ra_globals (drop_reg s ts) = ra_globals s.
Proof. unfold drop_reg. by case_bool_decide. Qed.

Section Moves.
Context (X X' : Z -> Prop) (v : Z -> Z).

(** A constant is remembered, not loaded. *)
Lemma const_good s h k ts c : ra_ok s -> places X s h v -> ra_temps s !! k = Some ts -> fixed_reg ts = false -> (forall t, X' t -> t = Z.of_nat k \/ X t) ->
  let s' := put_temp (drop_reg s ts) (Z.of_nat k) (ts <| val_type := TEMP_VAL_CONST |> <| val := c |>) in
  ra_ok s' /\ places X' s' h (upd v (Z.of_nat k) (trunc (type ts) c)) /\ grows s s' /\ code s' = code s.
Proof.
  intros A P E Fx W s'. destruct (drop_fields s ts) as (D1 & D2 & D3). split_and!; [by apply ok_leave | | | by cbn; rewrite D2].
  - eapply places_put; [exact P | cbn; by rewrite Nat2Z.id, D1 | |].
    + intros j N Xj. destruct (W _ Xj) as [Q|Q]; [lia|]. split; [done | apply upd_ne; lia].
    + intros _. cbn. by rewrite upd_eq.
  - eapply (grows_put s s' k ts _ E); [cbn; by rewrite Nat2Z.id, D1 | exists []; cbn; by rewrite D2, app_nil_r | cbn; by rewrite D3 | done..].
Qed.

Lemma movi_good s h k ts c : ra_ok s -> places X s h v -> ra_temps s !! k = Some ts -> fixed_reg ts = false -> (forall t, X' t -> t = Z.of_nat k \/ X t) ->
  exists s', tcg_reg_alloc_movi s (Z.of_nat k) c = Ok s' /\ ra_ok s' /\ places X' s' h (upd v (Z.of_nat k) (trunc (type ts) c)) /\ grows s s' /\ code s' = code s.
Proof.
  intros A P E Fx W. unfold tcg_reg_alloc_movi. rewrite (temp_at_ok s k ts E). cbn [res_bind]. rewrite Fx. eexists. split; [reflexivity|]. by apply const_good.
Qed.

(** The destination enters register [r], its own or a free one. *)
Definition may_enter (s : RA) (ts : Temp) (r : Z) : Prop :=
  val_type ts = TEMP_VAL_REG /\ r = reg ts \/ 0 <= r /\ reg_to_temp s !! Z.to_nat r = Some (-1) /\ reserved r = false.

Lemma take_reg_ok s k ts r : ra_ok s -> ra_temps s !! k = Some ts -> fixed_reg ts = false -> may_enter s ts r ->
  ra_ok (put_reg (put_temp (drop_reg s ts) (Z.of_nat k) (ts <| val_type := TEMP_VAL_REG |> <| reg := r |> <| mem_coherent := false |>)) r (Z.of_nat k)).
Proof.
  intros A E Fx H. set (ts' := ts <| val_type := TEMP_VAL_REG |> <| reg := r |> <| mem_coherent := false |>). set (ts1 := ts <| val_type := TEMP_VAL_DEAD |>).
  pose proof (ok_leave s k ts ts1 A E Fx ltac:(done) ltac:(done)) as A1. set (s1 := put_temp (drop_reg s ts) (Z.of_nat k) ts1) in *.
  assert (E1 : ra_temps s1 !! k = Some ts1).
  { unfold s1. cbn. rewrite Nat2Z.id, (proj1 (drop_fields s ts)). apply list_lookup_insert_eq. by eapply lookup_lt_Some. }
  assert (Q : put_reg (put_temp s1 (Z.of_nat k) ts') r (Z.of_nat k) = put_reg (put_temp (drop_reg s ts) (Z.of_nat k) ts') r (Z.of_nat k)).
  { unfold s1, put_temp, put_reg. rewrite !Nat2Z.id. cbn. by rewrite list_insert_insert_eq. }
  rewrite <- Q. assert (Hr : 0 <= r /\ reg_to_temp s1 !! Z.to_nat r = Some (-1) /\ reserved r = false).
  { destruct H as [[V ->]|(Hr & Er & Rr)].
    - destruct (ok_reg s A k ts E V) as [R Ow]. destruct (Ow Fx) as [Ho Rr]. split_and!; [lia | | done]. unfold s1, drop_reg. rewrite bool_decide_true by done. cbn. apply list_lookup_insert_eq. by eapply lookup_lt_Some.
    - split_and!; [done | | done]. unfold s1, drop_reg. case_bool_decide; [|done]. cbn. destruct (decide (Z.to_nat (reg ts) = Z.to_nat r)) as [->|N]; [by apply list_lookup_insert_eq, (lookup_lt_Some _ _ _ Er) | by rewrite list_lookup_insert_ne]. }
  destruct Hr as (H1 & H2 & H3). by apply (ok_enter s1 k ts1).
Qed.

Lemma enter_good s h k ts r : ra_ok s -> places X s h v -> ra_temps s !! k = Some ts -> fixed_reg ts = false -> may_enter s ts r -> (forall t, X' t -> t = Z.of_nat k \/ X t) ->
  let s' := put_reg (put_temp (drop_reg s ts) (Z.of_nat k) (ts <| val_type := TEMP_VAL_REG |> <| reg := r |> <| mem_coherent := false |>)) r (Z.of_nat k) in
  ra_ok s' /\ places X' s' h (upd v (Z.of_nat k) (trunc (type ts) (hr h r))) /\ grows s s' /\ code s' = code s.
Proof.
  intros A P E Fx M W s'. destruct (drop_fields s ts) as (D1 & D2 & D3). split_and!; [by apply take_reg_ok | | | by cbn; rewrite D2].
  - eapply places_put; [exact P | cbn; by rewrite Nat2Z.id, D1 | |].
    + intros j N Xj. destruct (W _ Xj) as [Q|Q]; [lia|]. split; [done | apply upd_ne; lia].
    + intros _. cbn. by rewrite upd_eq.
  - eapply (grows_put s s' k ts _ E); [cbn; by rewrite Nat2Z.id, D1 | exists []; cbn; by rewrite D2, app_nil_r | cbn; by rewrite D3 | done..| |done|done|done]. congruence.
Qed.

Lemma set_result_eq s k ts r : ra_temps s !! k = Some ts -> (val_type ts = TEMP_VAL_REG -> r = reg ts) ->
  set_result s (Z.of_nat k) r = Ok (put_reg (put_temp (drop_reg s ts) (Z.of_nat k) (ts <| val_type := TEMP_VAL_REG |> <| reg := r |> <| mem_coherent := false |>)) r (Z.of_nat k)).
Proof.
  intros E M. unfold set_result. rewrite (temp_at_ok s k ts E). cbn [res_bind]. f_equal. unfold drop_reg. case_bool_decide as V; [|done].
  rewrite <- (M V). unfold put_temp, put_reg. cbn. by rewrite list_insert_insert_eq.
Qed.
End Moves.

Lemma may_enter_free s d ots r (Y : Z -> Prop) : ra_ok s -> ra_temps s !! d = Some ots -> fixed_reg ots = false -> may_enter s ots r -> ~ Y (Z.of_nat d) ->
  forall k ts, ra_temps s !! k = Some ts -> Y (Z.of_nat k) -> val_type ts = TEMP_VAL_REG -> reg ts <> r.
Proof.
  intros A E Fx M Nd k ts Ek Yk V Q. destruct M as [[Vo ->]|(Hr & Er & Rr)]; [|by eapply (free_reg_unused Y s r A Hr Er Rr k ts)].
  destruct (ok_reg s A d ots E Vo) as [_ Hd]. destruct (Hd Fx) as [Od Rd]. destruct (ok_reg s A k ts Ek V) as [_ Hk].
  destruct (fixed_reg ts) eqn:Fk; [destruct (ok_fixed s A k ts Ek Fk) as (_ & Rk & _); congruence|]. destruct (Hk eq_refl) as [Ok' _]. rewrite Q, Od in Ok'. injection Ok' as Ok'. assert (d = k) as -> by lia. done.
Qed.

(** What a function that handles an operation does: it returns, the tables stay
    in order and what it emits puts the temporaries of [X'] in their places. *)
Definition handles (X' : Z -> Prop) (s : RA) (h : HS) (v' : Z -> Z) (r : Res RA) : Prop :=
  exists s' h', r = Ok s' /\ emitted s h s' h' /\ ra_ok s' /\ places X' s' h' v' /\ grows s s'.

Lemma handles_after X' dd keep ks s h s1 h1 v' r : evd dd keep ks s h s1 h1 -> handles X' s1 h1 v' r -> handles X' s h v' r.
Proof.
  intros V (s' & h' & Er & Ec & A & P & G). exists s', h'. split_and!; try done.
  - eapply emitted_trans; [apply V | done].
  - etrans; [by eapply ev_grows | done].
Qed.

(** Register [r] gets the value, by the operation [i] or because it holds it. *)
Lemma mov_write (X0 X' : Z -> Prop) v s h d ots r i w : ra_ok s -> places X0 s h v -> ra_temps s !! d = Some ots -> fixed_reg ots = false -> may_enter s ots r -> (val_type ots = TEMP_VAL_REG -> r = reg ots) ->
  ~ X0 (Z.of_nat d) -> (forall t, X' t -> t = Z.of_nat d \/ X0 t) -> exec1 h i = set_hr h r w -> simple i = true -> handles X' s h (upd v (Z.of_nat d) (trunc (type ots) w)) (set_result (tcg_out s i) (Z.of_nat d) r).
Proof.
  intros A P E Fx M Mr Nd W Ei Si. destruct (emit_reg X0 v (fun _ => false) (fun _ => false) s h i r w Ei Si A P eq_refl (may_enter_free s d ots r X0 A E Fx M Nd)) as (A1 & P1 & V1).
  eapply handles_after; [exact V1|]. destruct (enter_good X0 X' v (tcg_out s i) (exec1 h i) d ots r A1 P1 E Fx M W) as (A2 & P2 & G2 & C2). rewrite (set_result_eq (tcg_out s i) d ots r E Mr).
  eexists _, _. split; [reflexivity|]. split_and!; [by apply emitted_same | done | | done]. rewrite Ei, set_hr_eq in P2. by rewrite Ei.
Qed.
Lemma mov_keep (X0 X' : Z -> Prop) v s h d ots r w : ra_ok s -> places X0 s h v -> ra_temps s !! d = Some ots -> fixed_reg ots = false -> may_enter s ots r -> (val_type ots = TEMP_VAL_REG -> r = reg ots) ->
  (forall t, X' t -> t = Z.of_nat d \/ X0 t) -> hr h r = w -> handles X' s h (upd v (Z.of_nat d) (trunc (type ots) w)) (set_result s (Z.of_nat d) r).
Proof.
  intros A P E Fx M Mr W <-. destruct (enter_good X0 X' v s h d ots r A P E Fx M W) as (A2 & P2 & G2 & C2). rewrite (set_result_eq _ d ots r E Mr).
  eexists _, _. split; [reflexivity|]. split_and!; [by apply emitted_same | done..].
Qed.

Lemma mov_target_good (X : Z -> Prop) v s h d ots ct : ra_ok s -> places X s h v -> ra_temps s !! d = Some ots -> fixed_reg ots = false -> regset_test ct TCG_REG_RBP = true ->
  exists r s1 h1, mov_target s ots ct = Ok (r, s1) /\ ra_ok s1 /\ places X s1 h1 v /\ evd (fun _ => false) (fun _ => false) (fun _ => false) s h s1 h1 /\ may_enter s1 ots r /\ (val_type ots = TEMP_VAL_REG -> r = reg ots) /\
    ra_temps s1 !! d = Some ots /\ hr h1 = hr h /\ forall j u, ra_temps s !! j = Some u -> val_type u <> TEMP_VAL_REG -> ra_temps s1 !! j = Some u.
Proof.
  intros A P E Fx T. unfold mov_target. case_bool_decide as V.
  - exists (reg ots), s, h. split_and!; try done; [apply ev_refl | by left].
  - rewrite (ok_reserved s A). destruct (alloc_good X v (fun _ => false) (fun _ => false) s h ct RESERVED (conj A P)) as (r & s1 & h1 & -> & [A1 P1] & V1 & O1 & Hh & R & Rr & T1 & T2 & Hu); [done | exists TCG_REG_RBP; split_and!; [set_solver | done | done]|].
    exists r, s1, h1. split_and!; try done; [|by apply Hu|intros j u Ej Nu; by apply Hu]. right. split_and!; [lia | done | done].
Qed.

Definition rest (s : RA) := (ra_globals s, reserved_regs s, current_frame_offset s, frame_end s, frame_reg s, code s).
Lemma RA_eq (a b : RA) : rest a = rest b -> ra_temps a = ra_temps b -> reg_to_temp a = reg_to_temp b -> a = b.
Proof. destruct a, b. unfold rest. cbn. congruence. Qed.

(** The source dies: its register goes to the destination. *)
Lemma steal_regs (l : list Z) (o r : nat) (b : bool) x : <[r := x]> (<[r := -1]> (if b then <[o := -1]> l else l)) = <[r := x]> (if b then <[o := -1]> (<[r := -1]> l) else <[r := -1]> l).
Proof.
  destruct b; [|done]. rewrite list_insert_insert_eq. destruct (decide (o = r)) as [->|N]; [by rewrite !list_insert_insert_eq|].
  rewrite (list_insert_insert_ne l o r) by done. by rewrite list_insert_insert_eq.
Qed.
Lemma mov_steal (X X' : Z -> Prop) v s h d m ots ts : ra_ok s -> places X s h v -> ra_temps s !! d = Some ots -> ra_temps s !! m = Some ts -> fixed_reg ots = false -> fixed_reg ts = false ->
  val_type ts = TEMP_VAL_REG -> (forall t, X' t -> t = Z.of_nat d \/ X t /\ t <> Z.of_nat m) ->
  handles X' s h (upd v (Z.of_nat d) (trunc (type ots) (hr h (reg ts)))) (set_result (put_temp (put_reg (drop_reg s ots) (reg ts) (-1)) (Z.of_nat m) (ts <| val_type := TEMP_VAL_DEAD |>)) (Z.of_nat d) (reg ts)).
Proof.
  intros A P Ed Em Fd Fm V W. set (tsd := ts <| val_type := TEMP_VAL_DEAD |>). set (X1 := fun t => X t /\ t <> Z.of_nat m).
  destruct (ok_reg s A m ts Em V) as [R Ho]. destruct (Ho Fm) as [Hm Rr]. pose proof (places_weaken X X1 s h v v P ltac:(by intros t [? _])) as P1.
  destruct (dead_good X1 v (fun _ => false) (fun _ => false) (fun k => bool_decide (k = m)) s h m ts (conj A P1) Em Fm) as (s1 & ts1 & E1 & [A1 Q1] & V1 & _); [by intros [_ ?] | by rewrite bool_decide_true|].
  unfold mark_dead in E1. rewrite (temp_at_ok s m ts Em) in E1. cbn [res_bind] in E1. injection E1 as E1. fold tsd in E1.
  assert (T1 : ra_temps s1 = <[m := tsd]> (ra_temps s)) by (rewrite <- E1; cbn; by rewrite Nat2Z.id, (proj1 (drop_fields s ts))).
  assert (R1 : reg_to_temp s1 = <[Z.to_nat (reg ts) := -1]> (reg_to_temp s)) by (rewrite <- E1; unfold drop_reg; by rewrite bool_decide_true by done).
  assert (H : exists u, ra_temps s1 !! d = Some u /\ fixed_reg u = false /\ (u = ots \/ d = m /\ u = tsd) /\ type u = type ots).
  { rewrite T1. destruct (decide (d = m)) as [->|N]; [exists tsd; rewrite list_lookup_insert_eq by (by eapply lookup_lt_Some); split_and!; [done | done | by right | unfold tsd; rewrite Ed in Em; by injection Em as <-] | exists ots; rewrite list_lookup_insert_ne by done; split_and!; try done; by left]. }
  destruct H as (u & Eu & Fu & Hu & Tu). eapply handles_after; [exact V1|]. set (s0 := put_temp _ _ _).
  assert (M1 : may_enter s1 u (reg ts)) by (right; split_and!; [lia | rewrite R1; apply list_lookup_insert_eq; by eapply lookup_lt_Some | done]).
  destruct (enter_good X1 X' v s1 h d u (reg ts) A1 Q1 Eu Fu M1 W) as (A2 & P2 & G2 & C2). rewrite Tu in P2.
  eexists _, h. split; [|split_and!; [by apply emitted_same | exact A2 | exact P2 | exact G2]].
  assert (E0 : ra_temps s0 !! d = Some u) by (change (ra_temps s0) with (<[Z.to_nat (Z.of_nat m) := tsd]> (ra_temps (drop_reg s ots))); by rewrite Nat2Z.id, (proj1 (drop_fields s ots)), <- T1).
  unfold set_result. rewrite (temp_at_ok s0 d u E0). cbn [res_bind]. f_equal.
  assert (Er : <[Z.to_nat (reg ts) := Z.of_nat d]> (reg_to_temp s0) = <[Z.to_nat (reg ts) := Z.of_nat d]> (reg_to_temp (drop_reg s1 u))).
  { unfold drop_reg, put_reg. rewrite R1. pose proof (steal_regs (reg_to_temp s) (Z.to_nat (reg ots)) (Z.to_nat (reg ts)) (bool_decide (val_type ots = TEMP_VAL_REG)) (Z.of_nat d)) as Q.
    change (reg_to_temp s0) with (<[Z.to_nat (reg ts) := -1]> (reg_to_temp (drop_reg s ots))). unfold drop_reg, put_reg. destruct Hu as [->|[-> ->]].
    - case_bool_decide; cbn; rewrite ?R1; exact Q.
    - rewrite Ed in Em. injection Em as <-. rewrite bool_decide_true by done. rewrite bool_decide_false by done. cbn. by rewrite R1, !list_insert_insert_eq. }
  assert (Et : ra_temps s0 = ra_temps (drop_reg s1 u)) by (rewrite (proj1 (drop_fields s1 u)), T1; change (ra_temps s0) with (<[Z.to_nat (Z.of_nat m) := tsd]> (ra_temps (drop_reg s ots))); by rewrite Nat2Z.id, (proj1 (drop_fields s ots))).
  apply RA_eq; [|unfold put_temp, put_reg; change (ra_temps (?x <| reg_to_temp := _ |>)) with (ra_temps x); change (ra_temps (?x <| ra_temps := ?y |>)) with y; f_equal; exact Et | exact Er]. unfold rest. cbn [put_temp put_reg]. rewrite <- E1. unfold s0, drop_reg. by repeat case_bool_decide.
Qed.

(** A move, to a temporary that is not in a fixed register; [x] is what the type
    of the destination keeps of the value. *)
Lemma mov_good (X X' : Z -> Prop) v s h d m ots ts c dead x : (forall y, trunc (type ts) y = v (Z.of_nat m) -> trunc (type ots) y = x) -> ra_ok s -> places X s h v -> ra_temps s !! d = Some ots -> ra_temps s !! m = Some ts -> fixed_reg ots = false -> X (Z.of_nat m) ->
  regset_test (regs c) TCG_REG_RBP = true -> (forall t, X' t -> t = Z.of_nat d \/ X t /\ (IS_DEAD_IARG dead 0 = true -> t <> Z.of_nat m)) ->
  handles X' s h (upd v (Z.of_nat d) x) (tcg_reg_alloc_mov s c (Z.of_nat d) (Z.of_nat m) dead).
Proof.
  intros Hx A P Ed Em Fx Xm Tc W. pose proof (P m ts Em Xm) as L. pose proof (located_fits _ _ _ L) as Lf. unfold tcg_reg_alloc_mov. rewrite (temp_at_ok s d ots Ed), (temp_at_ok s m ts Em). cbn [res_bind].
  set (X0 := fun t => X t /\ t <> Z.of_nat d). assert (W0 : forall t, X' t -> t = Z.of_nat d \/ X0 t).
  { intros t Xt. destruct (Z.eq_dec t (Z.of_nat d)); [by left|]. right. destruct (W t Xt) as [?|[? _]]; done. }
  assert (Wk : forall s1 h1, places X s1 h1 v -> places X0 s1 h1 v) by (intros s1 h1 P1; eapply places_weaken; [exact P1|]; by intros t [? _]).
  unfold located in L. destruct (val_type ts) eqn:V; [done | | |].
  - destruct (IS_DEAD_IARG dead 0 && negb (fixed_reg ts)) eqn:D; rewrite Fx; cbn [negb andb].
    + apply andb_prop in D as [D Ft%negb_true_iff]. rewrite <- (Hx (hr h (reg ts)) (proj1 L)). apply (mov_steal X X'); try done. intros t Xt. destruct (W t Xt) as [?|[? N]]; [by left|]. right. split; [done | by apply N].
    + destruct (mov_target_good X v s h d ots (regs c) A P Ed Fx Tc) as (r & s1 & h1 & -> & A1 & P1 & V1 & M1 & Mr & E1 & Hh & Hu). cbn [res_bind].
      destruct (ev_temps _ _ _ _ _ _ _ V1 m ts Em) as (t1 & Em1 & (_ & _ & _ & _ & Rt & _)). rewrite (temp_at_ok s1 m t1 Em1). cbn [res_bind]. eapply handles_after; [exact V1|]. destruct L as [L _].
      destruct (Z.eqb_spec (reg t1) r) as [Q|Q]; cbn [negb].
      * rewrite <- (Hx _ L). eapply (mov_keep X0); try done; [by apply Wk|]. by rewrite <- Q, Rt, Hh.
      * rewrite <- (Hx _ L). eapply (mov_write X0); try done; [by apply Wk | by intros [_ ?]|]. cbn. by rewrite Rt, Hh.
  - destruct (mov_target_good X v s h d ots (regs c) A P Ed Fx Tc) as (r & s1 & h1 & -> & A1 & P1 & V1 & M1 & Mr & E1 & Hh & Hu). cbn [res_bind]. eapply handles_after; [exact V1|].
    assert (Em1 : ra_temps s1 !! m = Some ts) by (apply Hu; [done | congruence]). specialize (P1 m ts Em1 Xm) as L1. unfold located in L1. rewrite V in L1. destruct L1 as [_ L1].
    rewrite <- (Hx _ Lf). eapply (mov_write X0); try done; [by apply Wk | by intros [_ ?]|]. cbn. unfold slot in L1. by rewrite L1.
  - rewrite Fx. destruct (const_good X X' v s h d ots (val ts) A P Ed Fx) as (A1 & P1 & G1 & C1); [intros t Xt; destruct (W t Xt) as [?|[? _]]; [by left | by right]|].
    eexists _, h. split; [reflexivity|]. split_and!; [by apply emitted_same | done | by rewrite <- (Hx _ L) | done].
Qed.

End TcgRegOp.
