(* ===== verification/TcgRegArgs.v ===== *)
(** * Operands of an operation

    The register allocator on the inputs and the outputs of an operation: the
    inputs hold their values in registers or constants that meet the
    constraints of the host, and the outputs are in registers that hold nothing
    that is needed. *)

From stdpp Require Import list sets.
From Stdlib Require Import ZifyBool.
From S2P Require Import Prelude Tcg TcgLive TcgReg TcgRegInv TcgRegOp.

Module TcgRegArgs.
Import Tcg TcgLive TcgReg TcgRegInv TcgRegOp.

(** ** Steps that may load temporaries *)

(** As [evd], but temporaries may also come to registers outside [keep]. *)
Record runs (keep ks : Z -> bool) (s : RA) (h : HS) (s' : RA) (h' : HS) : Prop := {
  rn_code : emitted s h s' h';
  rn_grows : grows s s';
  rn_owner r : keep r = true -> 0 <= r < 16 -> reserved r = false -> reg_to_temp s' !! Z.to_nat r = reg_to_temp s !! Z.to_nat r \/ reg_to_temp s' !! Z.to_nat r = Some (-1);
  rn_keep r : keep r = true -> 0 <= r < 16 -> hr h' r = hr h r;
  rn_stack o : ks o = true -> hm h' TCG_REG_RSP o = hm h TCG_REG_RSP o
}.

Lemma runs_refl keep ks s h : runs keep ks s h s h.
Proof. split; try done; [by apply emitted_same | by left]. Qed.
Lemma runs_trans keep ks s h s1 h1 s2 h2 : runs keep ks s h s1 h1 -> runs keep ks s1 h1 s2 h2 -> runs keep ks s h s2 h2.
Proof.
  intros [A1 A2 A3 A4 A5] [B1 B2 B3 B4 B5]. split.
  - by eapply emitted_trans.
  - by etrans.
  - intros r K R N. destruct (B3 r K R N) as [->|]; [by apply A3 | by right].
  - intros r K R. by rewrite B4, A4.
  - intros o K. by rewrite B5, A5.
Qed.
Lemma runs_weaken (keep keep' ks ks' : Z -> bool) s h s' h' : (forall r, 0 <= r < 16 -> keep' r = true -> keep r = true) -> (forall o, ks' o = true -> ks o = true) ->
  runs keep ks s h s' h' -> runs keep' ks' s h s' h'.
Proof. intros K K' [A1 A2 A3 A4 A5]. split; auto. Qed.

Lemma ev_owner dd keep ks s h s' h' r : ra_ok s -> ra_ok s' -> evd dd keep ks s h s' h' -> 0 <= r < 16 -> reserved r = false ->
  reg_to_temp s' !! Z.to_nat r = reg_to_temp s !! Z.to_nat r \/ reg_to_temp s' !! Z.to_nat r = Some (-1).
Proof.
  intros A A' V R N. destruct (owner_ok s' r A' R) as (o & Eo & _). rewrite Eo. destruct (Z.eq_dec o (-1)) as [->|No]; [by right|]. left.
  destruct (ok_owner s' A' _ _ Eo No) as (Ho & u' & Eu' & Vu & Ru). rewrite Z2Nat.id in Ru by lia. destruct (Z_of_nat_complete o Ho) as [k ->]. rewrite Nat2Z.id in Eu'.
  pose proof (lookup_lt_Some _ _ _ Eu') as L. rewrite (ev_len _ _ _ _ _ _ _ V) in L. apply lookup_lt_is_Some in L as [u Eu]. destruct (ev_temps _ _ _ _ _ _ _ V k u Eu) as (w & Ew & (_ & Fx & _ & _ & Rg & _ & Q)).
  rewrite Eu' in Ew. injection Ew as <-. assert (Vk : val_type u = TEMP_VAL_REG) by (destruct Q as [Q|[Q|[_ Q]]]; congruence).
  destruct (ok_reg s A k u Eu Vk) as [_ H]. destruct (fixed_reg u) eqn:F; [destruct (ok_fixed s A k u Eu F) as (_ & Q1 & _); congruence|]. destruct (H eq_refl) as [H1 _]. rewrite <- H1. f_equal. congruence.
Qed.
Lemma ev_runs dd keep ks s h s' h' : ra_ok s -> ra_ok s' -> evd dd keep ks s h s' h' -> runs keep ks s h s' h'.
Proof. intros A A' V. split; [apply V | by eapply ev_grows | intros r _; by eapply ev_owner | intros r K _; by apply V | apply V]. Qed.

(** ** Enough registers *)

Definition room (regs al : Z) : Prop := exists r, r ∈ tcg_target_reg_alloc_order /\ regset_test regs r = true /\ regset_test al r = false.
Definition covers (al : Z) : Prop := forall r, 0 <= r -> reserved r = true -> regset_test al r = true.

(** Registers of a class that can be allocated, and whether two classes have
    one in common. *)
Definition avail (R : Z) : list Z := List.filter (fun r => regset_test R r && negb (reserved r)) tcg_target_reg_alloc_order.
Definition overlap (R R' : Z) : bool := existsb (fun r => regset_test R' r) (avail R).
Definition regs_at (cs : Constraints) (i : Z) : Z := match is_ct cs i with Ok c => regs c | Fail _ => 0 end.
(** There is a register of the class, and one for operand [i], whatever the
    operands [pre] have taken. *)
Definition room_in (cs : Constraints) (R : Z) (pre : list Z) : bool := (length (List.filter (fun j => overlap R (regs_at cs j)) pre) <? length (avail R))%nat.
Definition room_check (cs : Constraints) (pre : list Z) (i : Z) : bool := room_in cs (regs_at cs i) pre.

Lemma avail_In R r : In r (avail R) <-> In r tcg_target_reg_alloc_order /\ regset_test R r = true /\ reserved r = false.
Proof. unfold avail. rewrite filter_In, andb_true_iff, negb_true_iff. tauto. Qed.
Lemma order_NoDup : List.NoDup tcg_target_reg_alloc_order.
Proof. apply NoDup_ListNoDup. by apply (bool_decide_unpack _). Qed.

Lemma room_in_ok cs R pre al (pick : Z -> Z) : room_in cs R pre = true ->
  (forall r, 0 <= r -> regset_test al r = true -> reserved r = true \/ exists j, In j pre /\ pick j = r /\ regset_test (regs_at cs j) r = true) ->
  room R al.
Proof.
  intros Rc Ha. apply Nat.ltb_lt in Rc. destruct (existsb (fun r => negb (regset_test al r)) (avail R)) eqn:Ex.
  - apply existsb_exists in Ex as (r & Ir & Nr%negb_true_iff). apply avail_In in Ir as (I & T & _). exists r. split_and!; [by apply list_elem_of_In | done | done].
  - exfalso. assert (Inc : incl (avail R) (map pick (List.filter (fun j => overlap R (regs_at cs j)) pre))).
    { intros r Ir. assert (T : regset_test al r = true). { destruct (regset_test al r) eqn:T; [done|]. assert (Q : existsb (fun r => negb (regset_test al r)) (avail R) = true) by (apply existsb_exists; exists r; by rewrite T). congruence. }
      pose proof Ir as Ir'. apply avail_In in Ir' as (I & T' & Nr). apply order_range in I as B. destruct (Ha r ltac:(lia) T) as [Q|(j & Ij & <- & Tj)]; [congruence|].
      apply in_map, filter_In. split; [done|]. apply existsb_exists. by exists (pick j). }
    assert (Nd : List.NoDup (avail R)) by (apply List.NoDup_filter, order_NoDup). pose proof (NoDup_incl_length Nd Inc) as Le. rewrite length_map in Le. lia.
Qed.

(** ** Inputs *)

(** The contents of an operand, and when they are value [x] of temporary [t]. *)
Definition holds (h : HS) (x : Z) (const : bool) : Z := if const then x else hr h x.
Definition held (s : RA) (t y x : Z) : Prop := forall ts, ra_temps s !! Z.to_nat t = Some ts -> trunc (type ts) y = x.

Section Inputs.
Context (X : Z -> Prop) (v : Z -> Z) (ks : Z -> bool).
Notation good s h := (ra_ok s /\ places X s h v).

Lemma move_input_good s h k ts c al : good s h -> covers al -> room (regs c) al -> ra_temps s !! k = Some ts -> trunc (type ts) (hr h (reg ts)) = v (Z.of_nat k) ->
  exists s' h' r, move_input s (Z.of_nat k) ts c al = Ok (s', regset_set al r, r) /\ good s' h' /\ runs (regset_test al) ks s h s' h' /\ trunc (type ts) (hr h' r) = v (Z.of_nat k) /\
    0 <= r < 16 /\ regset_test (regs c) r = true /\ reserved r = false /\ reg_to_temp s' !! Z.to_nat r = Some (-1).
Proof.
  intros G Ca Rm E Hv. destruct (alloc_good X v (regset_test al) ks s h (regs c) al G Ca Rm) as (r & s1 & h1 & Ea & [A1 P1] & V1 & O1 & Hh & R & Rr & T1 & T2 & _). unfold move_input. rewrite Ea. cbn [res_bind].
  destruct (emit_reg X v (regset_test al) ks s1 h1 (OMov r (reg ts)) r (hr h1 (reg ts)) eq_refl eq_refl A1 P1 T2) as (A2 & P2 & V2); [apply free_reg_unused; [done | lia | done | done]|].
  eexists _, _, r. split; [reflexivity|]. split; [split; [exact A2 | exact P2]|]. split_and!; try done; try lia.
  - eapply runs_trans; [eapply ev_runs; [apply G | exact A1 | exact V1] | eapply ev_runs; [exact A1 | exact A2 | exact V2]].
  - cbn [exec1]. by rewrite set_hr_eq, Hh.
Qed.

Lemma load_input_good s h k ts c al : good s h -> covers al -> room (regs c) al -> ra_temps s !! k = Some ts -> X (Z.of_nat k) -> val_type ts <> TEMP_VAL_REG ->
  exists s' h' ts', load_input s (Z.of_nat k) ts c al = Ok s' /\ good s' h' /\ runs (regset_test al) ks s h s' h' /\ ra_temps s' !! k = Some ts' /\ val_type ts' = TEMP_VAL_REG /\ fixed_reg ts' = false /\ type ts' = type ts.
Proof.
  intros G Ca Rm E Xk Nv. assert (Fx : fixed_reg ts = false) by (destruct (fixed_reg ts) eqn:F; [|done]; by destruct (ok_fixed s (proj1 G) k ts E F)).
  destruct (alloc_good X v (regset_test al) ks s h (regs c) al G Ca Rm) as (r & s1 & h1 & Ea & [A1 P1] & V1 & O1 & Hh & R & Rr & T1 & T2 & Hu). unfold load_input. rewrite Ea. cbn [res_bind].
  destruct (Hu k ts E) as [E1 _]; [congruence|]. pose proof (P1 k ts E1 Xk) as L.
  set (i := if bool_decide (val_type ts = TEMP_VAL_MEM) then OLd (type ts) r (mem_reg ts) (mem_offset ts) else OMovi (type ts) r (val ts)).
  assert (Ei : exists w, exec1 h1 i = set_hr h1 r w /\ trunc (type ts) w = v (Z.of_nat k)).
  { pose proof (located_fits _ _ _ L) as Lf. unfold i, located in *. case_bool_decide as M; [rewrite M in L; eexists; split; [reflexivity|]; fold (slot h1 ts); by rewrite (proj2 L)|].
    destruct (val_type ts); try done. eexists. split; [reflexivity|]. by rewrite movi_trunc. }
  destruct Ei as (w & Ei & Hw).
  assert (Si : simple i = true) by (unfold i; by case_bool_decide).
  assert (Es : (if bool_decide (val_type ts = TEMP_VAL_MEM) then tcg_out s1 (OLd (type ts) r (mem_reg ts) (mem_offset ts)) else tcg_out s1 (OMovi (type ts) r (val ts))) = tcg_out s1 i) by (unfold i; by case_bool_decide).
  rewrite Es. destruct (emit_reg X v (regset_test al) ks s1 h1 i r w Ei Si A1 P1 T2) as (A2 & P2 & V2); [apply free_reg_unused; [done | lia | done | done]|].
  assert (E2 : ra_temps (tcg_out s1 i) !! k = Some ts) by done. rewrite (temp_at_ok _ k ts E2). cbn [res_bind].
  set (ts' := ts <| val_type := TEMP_VAL_REG |> <| reg := r |> <| mem_coherent := bool_decide (val_type ts = TEMP_VAL_MEM) |>). set (s' := put_reg (put_temp (tcg_out s1 i) (Z.of_nat k) ts') r (Z.of_nat k)).
  assert (A3 : ra_ok s') by (apply (ok_enter (tcg_out s1 i) k ts ts' r); try done; lia).
  assert (Et : ra_temps s' = <[k := ts']> (ra_temps s1)) by (unfold s'; cbn; by rewrite Nat2Z.id).
  assert (Ek : ra_temps s' !! k = Some ts') by (rewrite Et; apply list_lookup_insert_eq; by eapply lookup_lt_Some).
  exists s', (exec1 h1 i), ts'. split; [done|]. split; [split; [exact A3|]|].
  - eapply (places_put X X (tcg_out s1 i)); [exact P2 | exact Et | done|]. intros _. unfold located. cbn [val_type ts']. change (val_type ts') with TEMP_VAL_REG. cbn iota. rewrite Ei. split; [change (reg ts') with r; by rewrite set_hr_eq|].
    intros _ Co. change (mem_coherent ts') with (bool_decide (val_type ts = TEMP_VAL_MEM)) in Co. apply bool_decide_eq_true in Co. unfold located in L. rewrite Co in L. exact L.
  - split_and!; [|done..]. eapply runs_trans; [eapply ev_runs; [apply G | exact A1 | exact V1]|]. eapply runs_trans; [eapply ev_runs; [exact A1 | exact A2 | exact V2]|]. split; try done.
    + by apply emitted_same.
    + eapply (grows_put _ s' k ts ts' E2); [exact Et | exists []; by rewrite app_nil_r | done | done | congruence | done | done | done].
    + intros x Kx Rx Nx. left. unfold s', put_reg. cbn. apply list_lookup_insert_ne. intros Q. assert (x = r) by lia. congruence.
Qed.
(** The register of an input that an output replaces holds nothing that is
    needed after the operation. *)
Definition disposable (s : RA) (t r : Z) (dead : bool) : Prop :=
  reserved r = false /\ forall o, reg_to_temp s !! Z.to_nat r = Some o -> o = -1 \/ o = t /\ dead = true.

Definition fits (s : RA) (c : TCGArgConstraint) (t r : Z) (dead : bool) : Prop :=
  0 <= r < 16 /\ regset_test (regs c) r = true /\ (ct_has c TCG_CT_IALIAS = true -> disposable s t r dead).

Lemma in_reg_good s h k ts c al args nb i dead : good s h -> covers al -> room (regs c) al -> ra_temps s !! k = Some ts -> X (Z.of_nat k) -> val_type ts = TEMP_VAL_REG ->
  (ct_has c TCG_CT_IALIAS = true -> exists x, arg_at args (alias_index c) = Ok x /\ (fixed_reg ts = true -> Z.of_nat k <> x)) ->
  exists s' h' r, input_in_reg s args nb i dead (Z.of_nat k) c al = Ok (s', regset_set al r, r) /\ good s' h' /\ runs (regset_test al) ks s h s' h' /\ trunc (type ts) (hr h' r) = v (Z.of_nat k) /\
    fits s' c (Z.of_nat k) r (IS_DEAD_IARG dead (i - nb)).
Proof.
  intros G Ca Rm E Xk V Hal. pose proof (proj2 G k ts E Xk) as L. unfold located in L. rewrite V in L. destruct L as [L _]. destruct (ok_reg s (proj1 G) k ts E V) as [R Ow].
  unfold input_in_reg. rewrite (temp_at_ok s k ts E). cbn [res_bind]. rewrite bool_decide_false by (by intros []).
  set (mc := if ct_has c TCG_CT_IALIAS then _ else _). assert (Hm : exists b, mc = Ok b /\ (b = false -> ct_has c TCG_CT_IALIAS = true -> fixed_reg ts = false /\ IS_DEAD_IARG dead (i - nb) = true)).
  { unfold mc. destruct (ct_has c TCG_CT_IALIAS); [|by exists false]. destruct (Hal eq_refl) as (x & Ex & Nx). destruct (fixed_reg ts).
    - rewrite Ex. cbn [res_bind]. eexists. split; [reflexivity|]. intros Q. specialize (Nx eq_refl). lia.
    - eexists. split; [reflexivity|]. by intros ->%negb_false_iff. }
  clearbody mc. destruct Hm as (b & -> & Hb). cbn [res_bind]. destruct (negb b && regset_test (regs c) (reg ts)) eqn:Q.
  - apply andb_prop in Q as [Q1%negb_true_iff Q2]. exists s, h, (reg ts). split; [done|]. split; [exact G|]. split; [apply runs_refl|]. split; [done|]. split; [lia|]. split; [done|]. intros Ia. destruct (Hb Q1 Ia) as [Fx D]. destruct (Ow Fx) as [Ho Rr].
    split; [done|]. intros o Eo. right. split; [congruence | done].
  - destruct (move_input_good s h k ts c al G Ca Rm E L) as (s' & h' & r & Em & G' & Rn & Hr & R' & T & Rr & Fr). exists s', h', r. split; [done|]. split; [exact G'|]. split; [done|]. split; [done|]. split; [lia|]. split; [done|].
    intros _. split; [done|]. intros o Eo. left. congruence.
Qed.

(** An input has been handled. *)
Definition input_done (s : RA) (h : HS) (k : nat) (ty : Z) (c : TCGArgConstraint) (al i dead : Z) (res : Res (RA * Z * Z * bool)) : Prop :=
  exists s' h' al' x b, res = Ok (s', al', x, b) /\ good s' h' /\ runs (regset_test al) ks s h s' h' /\ trunc ty (holds h' x b) = v (Z.of_nat k) /\
    if b then al' = al /\ tcg_target_const_match x c = true else al' = regset_set al x /\ fits s' c (Z.of_nat k) x (IS_DEAD_IARG dead i).
Lemma in_reg_done s h k ty c al i dead s' h' r : good s' h' -> runs (regset_test al) ks s h s' h' -> trunc ty (hr h' r) = v (Z.of_nat k) -> fits s' c (Z.of_nat k) r (IS_DEAD_IARG dead i) ->
  input_done s h k ty c al i dead (Ok (s', regset_set al r, r, false)).
Proof. intros G R H F. eexists s', h', _, r, false. split; [reflexivity|]. split; [exact G|]. split; [exact R|]. split; [exact H|]. split; [done | exact F]. Qed.

Lemma alloc_input_good s h k ts c al cs args nb i dead : good s h -> covers al -> room (regs c) al -> arg_at args i = Ok (Z.of_nat k) -> is_ct cs i = Ok c -> ra_temps s !! k = Some ts -> X (Z.of_nat k) ->
  (ct_has c TCG_CT_IALIAS = true -> exists x, arg_at args (alias_index c) = Ok x /\ (fixed_reg ts = true -> Z.of_nat k <> x)) ->
  input_done s h k (type ts) c al (i - nb) dead (alloc_input s cs args nb dead i al).
Proof.
  intros G Ca Rm Ea Ec E Xk Hal. pose proof (proj2 G k ts E Xk) as L. unfold alloc_input. rewrite Ea, Ec. cbn [res_bind]. rewrite (temp_at_ok s k ts E). cbn [res_bind].
  assert (Ld : val_type ts <> TEMP_VAL_REG -> input_done s h k (type ts) c al (i - nb) dead (let* s := load_input s (Z.of_nat k) ts c al in let* (s, a, r) := input_in_reg s args nb i dead (Z.of_nat k) c al in Ok (s, a, r, false))).
  { intros Nv. destruct (load_input_good s h k ts c al G Ca Rm E Xk Nv) as (s1 & h1 & ts1 & -> & G1 & R1 & E1 & V1 & F1 & T1). cbn [res_bind].
    destruct (in_reg_good s1 h1 k ts1 c al args nb i dead G1 Ca Rm E1 Xk V1) as (s2 & h2 & r & -> & G2 & R2 & H2 & B2 & T2 & D2).
    { intros Ia. destruct (Hal Ia) as (x & Ex & _). exists x. split; [done | congruence]. }
    cbn [res_bind]. eapply in_reg_done; [exact G2 | by eapply runs_trans | by rewrite <- T1 | by split_and!; try lia]. }
  destruct (val_type ts) eqn:V; [by unfold located in L; rewrite V in L | | by apply Ld |].
  - destruct (in_reg_good s h k ts c al args nb i dead G Ca Rm E Xk V Hal) as (s' & h' & r & -> & G' & Rn & Hr & Hf). by eapply in_reg_done.
  - destruct (tcg_target_const_match (val ts) c) eqn:Cm; [|by apply Ld]. exists s, h, al, (val ts), true. unfold located in L. rewrite V in L. split_and!; try done; try apply G. apply runs_refl.
Qed.

(** *** All inputs *)

Section Loop.
Context (cs : Constraints) (args : list Z) (nb dead : Z) (s0 : RA).

(** What is known of the operand at position [i]. *)
Record operand (i : Z) (t : Z) (c : TCGArgConstraint) : Prop := {
  op_pos : 0 <= i;
  op_arg : arg_at args i = Ok t;
  op_ct : is_ct cs i = Ok c;
  op_temp : 0 <= t < len (ra_temps s0);
  op_value : X t;
  op_alias : ct_has c TCG_CT_IALIAS = true -> exists x u, arg_at args (alias_index c) = Ok x /\ ra_temps s0 !! Z.to_nat x = Some u /\ fixed_reg u = false
}.

Definition input_ok (s : RA) (h : HS) (al : Z) (na : list Z) (ca : list bool) (i : Z) : Prop :=
  exists t c x b, operand i t c /\ na !! Z.to_nat i = Some x /\ ca !! Z.to_nat i = Some b /\ held s0 t (holds h x b) (v t) /\
    if b then tcg_target_const_match x c = true else regset_test al x = true /\ fits s c t x (IS_DEAD_IARG dead (i - nb)).

Record inputs_ok (pre : list Z) (s : RA) (h : HS) (al : Z) (na : list Z) (ca : list bool) : Prop := {
  io_covers : covers al;
  io_al r : 0 <= r -> regset_test al r = true -> reserved r = true \/ exists j, In j pre /\ nth (Z.to_nat j) na (-1) = r /\ regset_test (regs_at cs j) r = true;
  io_in i : In i pre -> input_ok s h al na ca i
}.

Lemma input_ok_runs s h s' h' al al' na na' ca ca' i : runs (regset_test al) ks s h s' h' -> (forall r, 0 <= r -> regset_test al r = true -> regset_test al' r = true) ->
  na' !! Z.to_nat i = na !! Z.to_nat i -> ca' !! Z.to_nat i = ca !! Z.to_nat i -> input_ok s h al na ca i -> input_ok s' h' al' na' ca' i.
Proof.
  intros Rn Ha En Ec (t & c & x & b & O & Ex & Eb & H & F). exists t, c, x, b. rewrite En, Ec. split_and!; try done.
  - destruct b; [done|]. intros u Eu. specialize (H u Eu). cbn [holds] in *. by rewrite (rn_keep _ _ _ _ _ _ Rn) by apply F.
  - destruct b; [done|]. destruct F as [F1 (F2 & F3 & F4)]. split; [apply Ha; [lia | done]|]. split; [done|]. split; [done|]. intros Ia. destruct (F4 Ia) as [N D]. split; [done|]. intros o Eo.
    destruct (rn_owner _ _ _ _ _ _ Rn x F1 F2 N) as [Q|Q]; [apply D; congruence | left; congruence].
Qed.

Lemma inputs_good order pre s h al na ca : good s h -> grows s0 s -> inputs_ok pre s h al na ca -> NoDup (pre ++ order) ->
  (forall p i q, order = p ++ i :: q -> room_check cs (pre ++ p) i = true) -> (forall i, In i (pre ++ order) -> 0 <= i) ->
  (forall i, In i order -> (Z.to_nat i < length na)%nat /\ (Z.to_nat i < length ca)%nat /\ exists t c, operand i t c) ->
  exists s' h' al' na' ca', alloc_inputs s cs args nb dead order al na ca = Ok (s', al', na', ca') /\ good s' h' /\ runs (regset_test al) ks s h s' h' /\ inputs_ok (pre ++ order) s' h' al' na' ca' /\
    length na' = length na /\ length ca' = length ca /\ forall j, 0 <= j -> ~ In j order -> na' !! Z.to_nat j = na !! Z.to_nat j.
Proof.
  revert pre s h al na ca. induction order as [|i order IH]; intros pre s h al na ca G Gr Io Nd Rc Pos Op.
  { exists s, h, al, na, ca. rewrite app_nil_r. split_and!; try done; try apply G. apply runs_refl. }
  destruct (Op i ltac:(by left)) as (Ln & Lc & t & c & O). pose proof O as [O1 O2 O3 O4 O5 O6].
  assert (Rm : room (regs c) al).
  { pose proof (room_in_ok cs (regs_at cs i) pre al (fun j => nth (Z.to_nat j) na (-1))) as Q. specialize (Rc [] i order eq_refl). rewrite app_nil_r in Rc. specialize (Q Rc (io_al _ _ _ _ _ _ Io)). unfold regs_at in Q. by rewrite O3 in Q. }
  destruct (Z_of_nat_complete t ltac:(lia)) as [k ->]. destruct (lookup_lt_is_Some_2 (ra_temps s) k) as [ts E]; [rewrite (gr_len _ _ Gr); unfold len in O4; lia|].
  destruct (alloc_input_good s h k ts c al cs args nb i dead G (io_covers _ _ _ _ _ _ Io) Rm O2 O3 E O5) as (s1 & h1 & al1 & x & b & Ea & G1 & R1 & H1 & F1).
  { intros Ia. destruct (O6 Ia) as (x & u & Ex & Eu & Fu). exists x. split; [done|]. intros Fx <-. rewrite Nat2Z.id in Eu. destruct (gr_temps _ _ Gr k u Eu) as (u' & Eu' & Fu' & _). congruence. }
  cbn [alloc_inputs]. rewrite Ea. cbn [res_bind]. set (na1 := <[Z.to_nat i := x]> na). set (ca1 := <[Z.to_nat i := b]> ca).
  assert (Ha : forall r, 0 <= r -> regset_test al r = true -> regset_test al1 r = true).
  { intros r Hr T. destruct b; [destruct F1 as [-> _]; done|]. destruct F1 as [-> (Bx & _)]. rewrite regset_set_test by lia. rewrite T. apply orb_true_r. }
  assert (Ni : forall j, In j pre -> Z.to_nat j <> Z.to_nat i).
  { intros j Ij Q. assert (0 <= j) by (apply Pos, in_app_iff; by left). assert (j = i) as -> by lia. apply list.NoDup_app in Nd as (_ & Nd & _). apply (Nd i); [by apply list_elem_of_In | set_solver]. }
  destruct (IH (pre ++ [i]) s1 h1 al1 na1 ca1 G1) as (s2 & h2 & al2 & na2 & ca2 & E2 & G2 & R2 & Io2 & Ln2 & Lc2 & Ot2).
  - etrans; [exact Gr | apply R1].
  - split.
    + intros r Hr Rr. apply Ha; [done|]. by apply Io.
    + intros r Hr T. destruct b.
      * destruct F1 as [-> _]. destruct (io_al _ _ _ _ _ _ Io r Hr T) as [Q|(j & Ij & Nj & Tj)]; [by left|]. right. exists j. split_and!; [apply in_app_iff; by left | | done]. unfold na1. rewrite nth_lookup, list_lookup_insert_ne, <- nth_lookup; [done|]. by apply not_eq_sym, Ni.
      * destruct F1 as [-> (Bx & Tx & _)]. rewrite regset_set_test in T by lia. apply orb_true_iff in T as [T|T].
        -- apply Z.eqb_eq in T as ->. right. exists i. split_and!; [apply in_app_iff; right; by left | unfold na1; rewrite nth_lookup, list_lookup_insert_eq by done; done | unfold regs_at; by rewrite O3].
        -- destruct (io_al _ _ _ _ _ _ Io r Hr T) as [Q|(j & Ij & Nj & Tj)]; [by left|]. right. exists j. split_and!; [apply in_app_iff; by left | | done]. unfold na1. rewrite nth_lookup, list_lookup_insert_ne, <- nth_lookup; [done|]. by apply not_eq_sym, Ni.
    + intros j Ij. apply in_app_iff in Ij as [Ij|[<-|[]]].
      * eapply input_ok_runs; [exact R1 | exact Ha | | | by apply Io]; apply list_lookup_insert_ne, not_eq_sym, Ni; done.
      * exists (Z.of_nat k), c, x, b. split_and!; [done | by apply list_lookup_insert_eq | by apply list_lookup_insert_eq | intros u Eu; rewrite Nat2Z.id in Eu; by rewrite <- (gr_type _ _ Gr k u ts Eu E)|]. destruct b; [apply F1|]. destruct F1 as [-> F1]. split; [|done]. destruct F1 as [B _]. rewrite regset_set_test, Z.eqb_refl by lia. done.
  - by rewrite <- app_assoc.
  - intros p j q ->. rewrite <- app_assoc. by apply (Rc (i :: p) j q).
  - intros j Ij. apply Pos. rewrite <- app_assoc in Ij. exact Ij.
  - intros j Ij. unfold na1, ca1. rewrite !length_insert. apply Op. by right.
  - exists s2, h2, al2, na2, ca2. rewrite <- app_assoc in Io2. unfold na1, ca1 in *. rewrite length_insert in Ln2. rewrite length_insert in Lc2. split; [exact E2|]. split; [exact G2|]. split.
    { eapply runs_trans; [exact R1|]. eapply runs_weaken; [| |exact R2]; [|done]. intros r Hr. apply Ha. lia. }
    split; [exact Io2|]. split; [done|]. split; [done|]. intros j Hj Nj. rewrite Ot2; [|done | intros Q; apply Nj; by right]. apply list_lookup_insert_ne. intros Q. apply Nj. left. lia.
Qed.
End Loop.
End Inputs.

(** ** Inputs that die *)

Definition kept (a : list Z) (i dead t : Z) : Prop := forall j, a !! j = Some t -> IS_DEAD_IARG dead (i + Z.of_nat j) = false.

Lemma dead_not_reg dd keep ks s h s' h' k ts ts' : evd dd keep ks s h s' h' -> ra_temps s !! k = Some ts -> ra_temps s' !! k = Some ts' -> val_type ts <> TEMP_VAL_REG -> val_type ts' <> TEMP_VAL_REG.
Proof. intros V E E' N. destruct (ev_temps _ _ _ _ _ _ _ V k ts E) as (u & Eu & (_ & _ & _ & _ & _ & _ & Q)). rewrite E' in Eu. injection Eu as <-. destruct Q as [Q|[Q|[_ Q]]]; congruence. Qed.

Lemma dead_inputs_good (X : Z -> Prop) v keep ks a i dead s h : ra_ok s /\ places X s h v -> (forall j t, a !! j = Some t -> IS_DEAD_IARG dead (i + Z.of_nat j) = true -> 0 <= t < len (ra_temps s) /\ ~ X t) ->
  exists s', dead_inputs s a i dead = Ok s' /\ (ra_ok s' /\ places X s' h v) /\ evd (fun _ => true) keep ks s h s' h /\
    forall j k ts', a !! j = Some (Z.of_nat k) -> IS_DEAD_IARG dead (i + Z.of_nat j) = true -> ra_temps s' !! k = Some ts' -> fixed_reg ts' = false -> val_type ts' <> TEMP_VAL_REG.
Proof.
  revert i s. induction a as [|t a IH]; intros i s G Hd; [exists s; split; [done|]; split; [done|]; split; [apply ev_refl | done]|]. cbn [dead_inputs].
  assert (H : exists s1, (if IS_DEAD_IARG dead i then let* ts := temp_at s t in if negb (fixed_reg ts) then mark_dead s t else Ok s else Ok s) = Ok s1 /\ (ra_ok s1 /\ places X s1 h v) /\ evd (fun _ => true) keep ks s h s1 h /\
    (IS_DEAD_IARG dead i = true -> forall ts', ra_temps s1 !! Z.to_nat t = Some ts' -> fixed_reg ts' = false -> val_type ts' <> TEMP_VAL_REG)).
  { destruct (IS_DEAD_IARG dead i) eqn:D; [|exists s; split; [done|]; split; [done|]; split; [apply ev_refl | done]]. destruct (Hd 0%nat t eq_refl) as [B Nx]; [by rewrite Z.add_0_r|].
    destruct (Z_of_nat_complete t ltac:(lia)) as [k ->]. destruct (lookup_lt_is_Some_2 (ra_temps s) k) as [ts E]; [unfold len in B; lia|]. rewrite Nat2Z.id, (temp_at_ok s k ts E). cbn [res_bind].
    destruct (fixed_reg ts) eqn:Fx; cbn [negb].
    - exists s. split; [done|]. split; [done|]. split; [apply ev_refl|]. intros _ ts' E' F'. congruence.
    - destruct (dead_good X v keep ks (fun _ => true) s h k ts G E Fx Nx eq_refl) as (s1 & ts1 & E1 & G1 & V1 & T1 & D1). exists s1. split; [done|]. split; [done|]. split; [done|].
      intros _ ts' E' _. rewrite T1, list_lookup_insert_eq in E' by (by eapply lookup_lt_Some). injection E' as <-. congruence. }
  destruct H as (s1 & E1 & G1 & V1 & D1). rewrite E1. cbn [res_bind]. destruct (IH (i + 1) s1 G1) as (s2 & E2 & G2 & V2 & D2).
  { intros j u Ej Dj. replace (i + 1 + Z.of_nat j) with (i + Z.of_nat (S j)) in Dj by lia. unfold len. rewrite (ev_len _ _ _ _ _ _ _ V1). apply (Hd (S j) u); [done | by rewrite <- Dj]. }
  exists s2. split; [done|]. split; [done|]. split; [by eapply ev_trans|]. intros [|j] k ts' Ej Dj E' F'.
  - injection Ej as ->. rewrite Z.add_0_r in Dj. pose proof (lookup_lt_Some _ _ _ E') as L. rewrite (ev_len _ _ _ _ _ _ _ V2) in L. apply lookup_lt_is_Some in L as [u Eu].
    eapply dead_not_reg; [exact V2 | exact Eu | exact E'|]. apply (D1 Dj); [by rewrite Nat2Z.id|]. destruct (same_kind _ _ _ _ _ _ _ _ _ _ V2 Eu E'). congruence.
  - apply (D2 j k ts' Ej); [|done|done]. rewrite <- Dj. f_equal. lia.
Qed.

(** Registers that outputs take over are free now. *)
Lemma disposable_free keep ks (a : list Z) dead s h s' : ra_ok s -> ra_ok s' -> evd (fun _ => true) keep ks s h s' h ->
  (forall j k ts', a !! j = Some (Z.of_nat k) -> IS_DEAD_IARG dead (0 + Z.of_nat j) = true -> ra_temps s' !! k = Some ts' -> fixed_reg ts' = false -> val_type ts' <> TEMP_VAL_REG) ->
  forall j t r, a !! j = Some t -> 0 <= r < 16 -> disposable s t r (IS_DEAD_IARG dead (Z.of_nat j)) -> reg_to_temp s' !! Z.to_nat r = Some (-1).
Proof.
  intros A A' V D j t r Ej B [N O]. destruct (owner_ok s' r A' B) as (o & Eo & _). destruct (ev_owner _ _ _ _ _ _ _ r A A' V B N) as [Q|Q]; [|done]. rewrite Q in *.
  destruct (O o Eo) as [->|[-> Dj]]; [done|]. destruct (Z.eq_dec t (-1)) as [->|Nt]; [done|]. rewrite <- Q in Eo. destruct (ok_owner s' A' _ _ Eo Nt) as (Ht & u & Eu & Vu & Ru). exfalso.
  destruct (Z_of_nat_complete t Ht) as [k ->]. rewrite Nat2Z.id in Eu. apply (D j k u Ej Dj Eu); [|done]. destruct (fixed_reg u) eqn:F; [|done]. destruct (ok_fixed s' A' k u Eu F) as (_ & Q1 & _). rewrite Z2Nat.id in Ru by lia. congruence.
Qed.

(** ** Registers a call destroys *)

Lemma free_list (X : Z -> Prop) v keep ks (p : Z -> bool) l s h : ra_ok s /\ places X s h v -> (forall r, In r l -> 0 <= r < 16) -> (forall r, In r l -> p r = true -> reserved r = false) ->
  exists s' h', for_temps (fun s r => if p r then tcg_reg_free s r else Ok s) l s = Ok s' /\ (ra_ok s' /\ places X s' h' v) /\ ev keep ks s h s' h' /\ hr h' = hr h /\
    forall r, In r l -> p r = true -> reg_to_temp s' !! Z.to_nat r = Some (-1).
Proof.
  intros G L Np. revert s h G L Np. induction l as [|r l IH]; intros s h G L Np; [exists s, h; split; [done|]; split; [done|]; split; [apply ev_refl | done]|].
  assert (H : exists s1 h1, (if p r then tcg_reg_free s r else Ok s) = Ok s1 /\ (ra_ok s1 /\ places X s1 h1 v) /\ ev keep ks s h s1 h1 /\ hr h1 = hr h /\ (p r = true -> reg_to_temp s1 !! Z.to_nat r = Some (-1))).
  { destruct (p r) eqn:Pr; [|exists s, h; split; [done|]; split; [done|]; split; [apply ev_refl | done]].
    destruct (free_good X v keep ks s h r G (L r ltac:(by left)) (Np r ltac:(by left) Pr)) as (s1 & h1 & E1 & G1 & V1 & F1 & Hh & _). by exists s1, h1. }
  destruct H as (s1 & h1 & E1 & G1 & V1 & H1 & F1). destruct (IH s1 h1 G1 ltac:(intros x Ix; apply L; by right) ltac:(intros x Ix; apply Np; by right)) as (s2 & h2 & E2 & G2 & V2 & H2 & F2).
  exists s2, h2. cbn [for_temps]. rewrite E1. cbn [res_bind]. split; [done|]. split; [done|]. split; [by eapply ev_trans|]. split; [congruence|].
  intros x [<-|Ix] Px; [|by apply F2]. apply (ev_free _ _ _ _ _ _ _ V2). by apply F1.
Qed.
Lemma clobbered_range r : 0 <= r < 16 -> In r (seqZ 0 TCG_TARGET_NB_REGS).
Proof. intros H. apply list_elem_of_In, elem_of_seqZ. exact H. Qed.
Lemma clobber_reserved r : 0 <= r < 16 -> regset_test tcg_target_call_clobber_regs r = true -> reserved r = false.
Proof.
  intros B%clobbered_range H. assert (Q : forallb (fun r => negb (regset_test tcg_target_call_clobber_regs r && reserved r)) (seqZ 0 TCG_TARGET_NB_REGS) = true) by done.
  rewrite forallb_forall in Q. specialize (Q r B). rewrite H in Q. by apply negb_true_iff in Q.
Qed.
Lemma clobber_good (X : Z -> Prop) v keep ks s h : ra_ok s /\ places X s h v ->
  exists s' h', clobber_call_regs s = Ok s' /\ (ra_ok s' /\ places X s' h' v) /\ ev keep ks s h s' h' /\ hr h' = hr h /\
    forall r, 0 <= r < 16 -> regset_test tcg_target_call_clobber_regs r = true -> reg_to_temp s' !! Z.to_nat r = Some (-1).
Proof.
  intros G. destruct (free_list X v keep ks (regset_test tcg_target_call_clobber_regs) (seqZ 0 TCG_TARGET_NB_REGS) s h G) as (s' & h' & E & G' & V & H & F).
  - intros r Ir. by apply list_elem_of_In, elem_of_seqZ in Ir.
  - intros r Ir. apply clobber_reserved. by apply list_elem_of_In, elem_of_seqZ in Ir.
  - exists s', h'. split; [done|]. split; [done|]. split; [done|]. split; [done|]. intros r B. by apply F, clobbered_range.
Qed.

(** ** Outputs *)

(** Temporary [t] will be in register [r]. *)
Definition taken (s : RA) (t r : Z) : Prop :=
  exists ts, ra_temps s !! Z.to_nat t = Some ts /\ val_type ts = TEMP_VAL_REG /\ reg ts = r /\ mem_coherent ts = false /\ fixed_reg ts = false.
Definition free_reg (s : RA) (r : Z) : Prop := 0 <= r < 16 /\ reserved r = false /\ reg_to_temp s !! Z.to_nat r = Some (-1).

Section Outputs.
Context (Y : Z -> Prop) (v : Z -> Z) (cs : Constraints) (args o : list Z) (s0 : RA).
Notation good s h := (ra_ok s /\ places Y s h v).
Notation none := (fun _ : Z => false).

(** From the state before the outputs to a later one: registers do not change,
    and temporaries that are not outputs may only move to memory. *)
Record outs (pre : Z -> Prop) (s : RA) (h : HS) (s' : RA) (h' : HS) : Prop := {
  ou_code : emitted s h s' h';
  ou_grows : grows s s';
  ou_hr : hr h' = hr h;
  ou_temps k ts : ra_temps s !! k = Some ts -> ~ In (Z.of_nat k) o -> exists ts', ra_temps s' !! k = Some ts' /\ moved false ts ts';
  ou_hm k ts : ra_temps s !! k = Some ts -> mem_allocated ts = true -> val_type ts <> TEMP_VAL_REG \/ pre (Z.of_nat k) -> slot h' ts = slot h ts
}.
Lemma outs_refl pre s h : outs pre s h s h.
Proof. split; try done; [by apply emitted_same|]. intros k ts E _. exists ts. split; [done | apply moved_refl]. Qed.

(** An output enters a register that is free. *)
Lemma output_good s h k ts r : good s h -> ra_temps s !! k = Some ts -> fixed_reg ts = false -> free_reg s r -> ~ Y (Z.of_nat k) ->
  exists s' ts', output_in_reg s (Z.of_nat k) r = Ok s' /\ good s' h /\ grows s s' /\ code s' = code s /\ ra_temps s' = <[k := ts']> (ra_temps s) /\ taken s' (Z.of_nat k) r /\ cell ts' = cell ts /\ mem_allocated ts' = mem_allocated ts /\
    forall x, free_reg s x -> x <> r -> free_reg s' x.
Proof.
  intros [A P] E Fx (B & N & F) Ny. unfold output_in_reg. rewrite (temp_at_ok s k ts E). cbn [res_bind]. rewrite Fx. cbn [negb].
  set (ts' := ts <| val_type := TEMP_VAL_REG |> <| reg := r |> <| mem_coherent := false |>). set (s' := put_reg (put_temp (drop_reg s ts) (Z.of_nat k) ts') r (Z.of_nat k)).
  destruct (enter_good Y Y v s h k ts r A P E Fx) as (A1 & P1 & G1 & C1); [right; split_and!; [lia | done | done] | by right|]. fold ts' in A1, P1, G1, C1. fold s' in A1, P1, G1, C1.
  assert (Et : ra_temps s' = <[k := ts']> (ra_temps s)) by (unfold s'; cbn; by rewrite Nat2Z.id, (proj1 (drop_fields s ts))).
  exists s', ts'. split; [done|]. split; [split; [done|]|].
  - eapply places_weaken; [exact P1|]. intros t Yt. split; [done|]. symmetry. apply upd_ne. congruence.
  - split_and!; try done.
    + exists ts'. rewrite Et, Nat2Z.id, list_lookup_insert_eq by (by eapply lookup_lt_Some). by split_and!.
    + intros x (Bx & Nx & Fr) Q. split_and!; [lia.. | done|]. unfold s', put_reg. cbn. rewrite list_lookup_insert_ne by lia. unfold drop_reg. case_bool_decide; [|done]. cbn.
      destruct (decide (Z.to_nat (reg ts) = Z.to_nat x)) as [->|]; [by apply list_lookup_insert_eq, (lookup_lt_Some _ _ _ Fr) | by rewrite list_lookup_insert_ne].
Qed.

Definition is_alias (i : Z) : bool := match is_ct cs i with Ok c => ct_has c TCG_CT_ALIAS | Fail _ => false end.
Definition alias_of (i : Z) : Z := match is_ct cs i with Ok c => alias_index c | Fail _ => -1 end.

(** What is known of the output at position [i]. *)
Record result (i t : Z) (c : TCGArgConstraint) : Prop := {
  rs_pos : 0 <= i;
  rs_arg : arg_at args i = Ok t;
  rs_ct : is_ct cs i = Ok c;
  rs_in : In t o;
  rs_temp : exists u, ra_temps s0 !! Z.to_nat t = Some u /\ fixed_reg u = false /\ 0 <= t;
  rs_dead : ~ Y t
}.

Record outputs_ok (pre : list Z) (s : RA) (al : Z) (na : list Z) : Prop := {
  oo_covers : covers al;
  oo_al r : 0 <= r -> regset_test al r = true -> reserved r = true \/ exists j, In j pre /\ nth (Z.to_nat j) na (-1) = r /\ regset_test (regs_at cs j) r = true;
  oo_out j : In j pre -> exists t c r, result j t c /\ na !! Z.to_nat j = Some r /\ taken s t r /\ 0 <= r < 16 /\ reserved r = false /\ regset_test al r = true /\ regset_test (regs c) r = true
}.
Definition pre_temps (pre : list Z) (t : Z) : Prop := exists j, In j pre /\ arg_at args j = Ok t.

Lemma taken_insert s s' k ts' t r : ra_temps s' = <[k := ts']> (ra_temps s) -> t <> Z.of_nat k -> 0 <= t -> taken s t r -> taken s' t r.
Proof. intros Et N Ht (u & Eu & H). exists u. rewrite Et, list_lookup_insert_ne by lia. done. Qed.

Lemma pre_taken pre s al na t : outputs_ok pre s al na -> pre_temps pre t -> exists r, taken s t r /\ 0 <= r < 16 /\ reserved r = false /\ regset_test al r = true /\ 0 <= t.
Proof.
  intros Oo (j & Ij & Aj). destruct (oo_out _ _ _ _ Oo j Ij) as (t' & c & r & R & _ & T & B & N & Ta & _). rewrite (rs_arg _ _ _ R) in Aj. injection Aj as ->. exists r. destruct (rs_temp _ _ _ R) as (u & _ & _ & Ht). done.
Qed.

(** The register of an output: that of the input it replaces, or a new one. *)
Lemma output_reg_good pre s h al na c : good s h -> outputs_ok pre s al na ->
  (if ct_has c TCG_CT_ALIAS then exists r, arg_at na (alias_index c) = Ok r /\ free_reg s r /\ regset_test (regs c) r = true else room (regs c) al) ->
  exists r s1 h1, (if ct_has c TCG_CT_ALIAS then let* r := arg_at na (alias_index c) in Ok (r, s) else tcg_reg_alloc s (regs c) al) = Ok (r, s1) /\ good s1 h1 /\ outs (pre_temps pre) s h s1 h1 /\ free_reg s1 r /\ regset_test (regs c) r = true /\
    (forall k ts, ra_temps s !! k = Some ts -> val_type ts <> TEMP_VAL_REG \/ pre_temps pre (Z.of_nat k) -> ra_temps s1 !! k = Some ts) /\
    (ct_has c TCG_CT_ALIAS = true -> arg_at na (alias_index c) = Ok r /\ s1 = s).
Proof.
  intros G Oo H. destruct (ct_has c TCG_CT_ALIAS).
  - destruct H as (r & Er & F & T). rewrite Er. exists r, s, h. cbn [res_bind]. split_and!; try done; try apply G; try apply F; apply outs_refl.
  - destruct (alloc_good Y v none none s h (regs c) al G (oo_covers _ _ _ _ Oo) H) as (r & s1 & h1 & Ea & G1 & V1 & F1 & Hh & B & N & T1 & T2 & Un). exists r, s1, h1.
    assert (Keep : forall k ts, ra_temps s !! k = Some ts -> val_type ts <> TEMP_VAL_REG \/ pre_temps pre (Z.of_nat k) -> val_type ts = TEMP_VAL_REG -> reg ts <> r).
    { intros k ts E [Nv|Pk] V; [done|]. destruct (pre_taken pre s al na _ Oo Pk) as (r' & (u & Eu & _ & Ru & _) & B' & _ & Ta & _). rewrite Nat2Z.id, E in Eu. injection Eu as <-. congruence. }
    split; [done|]. split; [exact G1|]. split; [|split; [done|]; split; [done|]; split; [|done]].
    + split; [apply V1 | by eapply ev_grows | done | |].
      * intros k ts E _. by apply (ev_temps _ _ _ _ _ _ _ V1).
      * intros k ts E M Q. apply (Un k ts E); [|done]. by eapply Keep.
    + intros k ts E Q. apply (Un k ts E). by eapply Keep.
Qed.

Lemma outs_step pre s h s1 h1 s2 k ts' : outs (pre_temps pre) s h s1 h1 -> In (Z.of_nat k) o -> ra_temps s2 = <[k := ts']> (ra_temps s1) -> grows s1 s2 -> code s2 = code s1 -> outs (pre_temps pre) s h s2 h1.
Proof.
  intros [A1 A2 A3 A4 A5] It Et G C. split; [eapply emitted_trans; [exact A1 | by apply emitted_same] | by etrans | done | | done].
  intros j u Ej Nj. rewrite Et, list_lookup_insert_ne by (intros ->; done). by apply A4.
Qed.

Lemma alloc_output_good pre s h al na i t c : good s h -> grows s0 s -> outputs_ok pre s al na -> result i t c -> ~ pre_temps pre t ->
  (if ct_has c TCG_CT_ALIAS then exists r, arg_at na (alias_index c) = Ok r /\ free_reg s r /\ regset_test (regs c) r = true else room (regs c) al) ->
  exists s' h' r, alloc_output s cs args na i al = Ok (s', regset_set al r, r) /\ good s' h' /\ outs (pre_temps pre) s h s' h' /\ taken s' t r /\ 0 <= r < 16 /\ reserved r = false /\ regset_test (regs c) r = true /\
    (forall k ts, ra_temps s !! k = Some ts -> val_type ts <> TEMP_VAL_REG \/ pre_temps pre (Z.of_nat k) -> Z.of_nat k <> t -> ra_temps s' !! k = Some ts) /\
    (ct_has c TCG_CT_ALIAS = true -> arg_at na (alias_index c) = Ok r /\ forall x, free_reg s x -> x <> r -> free_reg s' x).
Proof.
  intros G Gr Oo R Np H. destruct (output_reg_good pre s h al na c G Oo H) as (r & s1 & h1 & E1 & G1 & O1 & F1 & T1 & K1 & A1).
  destruct (rs_temp _ _ _ R) as (u0 & Eu0 & Fu0 & Ht). destruct (Z_of_nat_complete t Ht) as [k ->]. rewrite Nat2Z.id in Eu0.
  destruct (gr_temps _ _ Gr k u0 Eu0) as (u & Eu & Fu & _). destruct (gr_temps _ _ (ou_grows _ _ _ _ _ O1) k u Eu) as (u1 & Eu1 & Fu1 & _).
  destruct (output_good s1 h1 k u1 r G1 Eu1 ltac:(congruence) F1 (rs_dead _ _ _ R)) as (s2 & ts2 & E2 & G2 & Gr2 & C2 & Et2 & T2 & Ce2 & Ma2 & Fr2).
  assert (Ea : alloc_output s cs args na i al = Ok (s2, regset_set al r, r)).
  { unfold alloc_output. rewrite (rs_arg _ _ _ R), (rs_ct _ _ _ R). cbn [res_bind]. rewrite (temp_at_ok s k u Eu). cbn [res_bind]. destruct (ct_has c TCG_CT_ALIAS).
    - destruct (A1 eq_refl) as [-> ->]. cbn [res_bind]. by rewrite E2.
    - assert (fixed_reg u = false) as -> by congruence. cbn [andb]. rewrite E1. cbn [res_bind]. by rewrite E2. }
  exists s2, h1, r. destruct F1 as (B & N & F). split; [done|]. split; [exact G2|]. split; [eapply outs_step; [exact O1 | apply R | exact Et2 | done | done]|]. split; [done|]. split; [lia|]. split; [done|]. split; [done|]. split.
  - intros j w Ej Q Nj. rewrite Et2, list_lookup_insert_ne by (intros ->; done). by apply K1.
  - intros Al. destruct (A1 Al) as [Er ->]. split; [done|]. intros x. apply Fr2.
Qed.
Lemma outs_join pre i t s h s1 h1 s2 h2 : arg_at args i = Ok t -> outs (pre_temps pre) s h s1 h1 ->
  (forall k ts, ra_temps s !! k = Some ts -> val_type ts <> TEMP_VAL_REG \/ pre_temps pre (Z.of_nat k) -> Z.of_nat k <> t -> ra_temps s1 !! k = Some ts) ->
  outs (pre_temps (pre ++ [i])) s1 h1 s2 h2 -> outs (pre_temps pre) s h s2 h2.
Proof.
  intros Ai [A1 A2 A3 A4 A5] K [B1 B2 B3 B4 B5]. split.
  - by eapply emitted_trans.
  - by etrans.
  - congruence.
  - intros k ts E N. destruct (A4 k ts E N) as (t1 & E1 & M1). destruct (B4 k t1 E1 N) as (t2 & E2 & M2). exists t2. split; [done | by eapply moved_trans].
  - intros k ts E M Q. rewrite <- (A5 k ts E M Q). destruct (gr_temps _ _ A2 k ts E) as (t1 & E1 & _ & _ & _ & M1). destruct (M1 M) as [Ma Ce]. rewrite <- !(slot_cell _ _ _ Ce). apply (B5 k t1 E1 Ma).
    destruct (Z.eq_dec (Z.of_nat k) t) as [<-|Nt]; [right; exists i; split; [apply in_app_iff; right; by left | done]|]. rewrite (K k ts E Q Nt) in E1. injection E1 as <-.
    destruct Q as [Q|(j & Ij & Aj)]; [by left|]. right. exists j. split; [apply in_app_iff; by left | done].
Qed.

Lemma outputs_ok_step pre s h s' h' al na i t c r : outputs_ok pre s al na -> result i t c -> ~ pre_temps pre t -> (Z.to_nat i < length na)%nat -> (forall j, In j pre -> 0 <= j /\ j <> i) ->
  (forall k ts, ra_temps s !! k = Some ts -> val_type ts <> TEMP_VAL_REG \/ pre_temps pre (Z.of_nat k) -> Z.of_nat k <> t -> ra_temps s' !! k = Some ts) ->
  taken s' t r -> 0 <= r < 16 -> reserved r = false -> regset_test (regs c) r = true -> outs (pre_temps pre) s h s' h' -> outputs_ok (pre ++ [i]) s' (regset_set al r) (<[Z.to_nat i := r]> na).
Proof.
  intros Oo R Np Ln Nj K T B N Tr O. pose proof (rs_pos _ _ _ R) as Hi.
  assert (Same : forall j, In j pre -> <[Z.to_nat i := r]> na !! Z.to_nat j = na !! Z.to_nat j) by (intros j Ij; destruct (Nj j Ij); apply list_lookup_insert_ne; lia). split.
  - intros x Hx Rx. rewrite regset_set_test by lia. rewrite (oo_covers _ _ _ _ Oo x Hx Rx). apply orb_true_r.
  - intros x Hx Tx. rewrite regset_set_test in Tx by lia. apply orb_true_iff in Tx as [Tx|Tx].
    + apply Z.eqb_eq in Tx as ->. right. exists i. split_and!; [apply in_app_iff; right; by left | rewrite nth_lookup, list_lookup_insert_eq by done; done | unfold regs_at; by rewrite (rs_ct _ _ _ R)].
    + destruct (oo_al _ _ _ _ Oo x Hx Tx) as [Q|(j & Ij & Ej & Tj)]; [by left|]. right. exists j. split_and!; [apply in_app_iff; by left | | done]. by rewrite nth_lookup, Same, <- nth_lookup.
  - intros j Ij. apply in_app_iff in Ij as [Ij|[<-|[]]].
    + destruct (oo_out _ _ _ _ Oo j Ij) as (t' & c' & r' & R' & E' & T' & B' & N' & A' & Q'). exists t', c', r'. rewrite Same by done. split_and!; try done; try lia.
      * destruct T' as (u & Eu & Hu). exists u. split; [|done]. destruct (rs_temp _ _ _ R') as (_ & _ & _ & Ht'). apply K; [done | right; exists j; split; [done|]; rewrite Z2Nat.id by done; apply R'|].
        rewrite Z2Nat.id by done. intros ->. apply Np. exists j. split; [done | apply R'].
      * rewrite regset_set_test by lia. rewrite A'. apply orb_true_r.
    + exists t, c, r. split_and!; try done; try lia; [by apply list_lookup_insert_eq|]. rewrite regset_set_test by lia. by rewrite Z.eqb_refl.
Qed.

Definition alias_reg (s : RA) (na : list Z) (i r : Z) : Prop := arg_at na (alias_of i) = Ok r /\ free_reg s r /\ regset_test (regs_at cs i) r = true.

Lemma outputs_good order pre s h al na : good s h -> grows s0 s -> outputs_ok pre s al na -> NoDup (pre ++ order) -> (forall i j t, In i (pre ++ order) -> In j (pre ++ order) -> arg_at args i = Ok t -> arg_at args j = Ok t -> i = j) ->
  (forall p i q, order = p ++ i :: q -> is_alias i = false -> room_check cs (pre ++ p) i = true /\ forallb (fun j => negb (is_alias j)) q = true) ->
  (forall i, In i pre -> 0 <= i) -> (forall i, In i order -> (Z.to_nat i < length na)%nat /\ exists t c, result i t c) ->
  (forall i, In i order -> is_alias i = true -> 0 <= alias_of i /\ ~ In (alias_of i) order /\ exists r, alias_reg s na i r) ->
  (forall i j r, In i order -> In j order -> is_alias i = true -> is_alias j = true -> alias_reg s na i r -> alias_reg s na j r -> i = j) ->
  exists s' h' al' na', alloc_outputs s cs args order al na = Ok (s', na') /\ good s' h' /\ outs (pre_temps pre) s h s' h' /\ outputs_ok (pre ++ order) s' al' na' /\ length na' = length na /\
    (forall j, 0 <= j -> ~ In j order -> na' !! Z.to_nat j = na !! Z.to_nat j) /\ (forall i, In i order -> is_alias i = true -> na' !! Z.to_nat i = na !! Z.to_nat (alias_of i)).
Proof.
  revert pre s h al na. induction order as [|i order IH]; intros pre s h al na G Gr Oo Nd Inj St Pos Rs Al Di.
  { exists s, h, al, na. rewrite app_nil_r. split; [done|]. split; [done|]. split; [apply outs_refl|]. by split_and!; try apply Oo. }
  destruct (Rs i ltac:(by left)) as (Ln & t & c & R). pose proof (rs_ct _ _ _ R) as Ec. pose proof (rs_pos _ _ _ R) as Hi.
  assert (Ai : is_alias i = ct_has c TCG_CT_ALIAS) by (unfold is_alias; by rewrite Ec). assert (Ax : alias_of i = alias_index c) by (unfold alias_of; by rewrite Ec). assert (Rg : regs_at cs i = regs c) by (unfold regs_at; by rewrite Ec).
  assert (Ni : ~ In i pre /\ ~ In i order).
  { apply list.NoDup_app in Nd as (_ & N1 & N2). apply list.NoDup_cons in N2 as [N2 _]. split; intros Q; [apply (N1 i); [by apply list_elem_of_In | set_solver] | by apply N2, list_elem_of_In]. }
  assert (Np : ~ pre_temps pre t) by (intros (j & Ij & Aj); apply (proj1 Ni); rewrite (Inj i j t); [done | apply in_app_iff; right; by left | apply in_app_iff; by left | apply R | done]).
  destruct (alloc_output_good pre s h al na i t c G Gr Oo R Np) as (s1 & h1 & r & E1 & G1 & O1 & T1 & B1 & N1 & R1 & K1 & A1).
  { rewrite <- Ai. destruct (is_alias i) eqn:Q.
    - destruct (Al i ltac:(by left) Q) as (_ & _ & r & E & F & T). exists r. rewrite <- Ax, <- Rg. done.
    - destruct (St [] i order eq_refl Q) as [Rc _]. rewrite app_nil_r in Rc. rewrite <- Rg. apply (room_in_ok cs (regs_at cs i) pre al (fun j => nth (Z.to_nat j) na (-1)) Rc). apply Oo. }
  rewrite <- Ai, <- Ax in A1. set (na1 := <[Z.to_nat i := r]> na).
  assert (Same : forall j, 0 <= j -> j <> i -> na1 !! Z.to_nat j = na !! Z.to_nat j) by (intros j Hj Q; apply list_lookup_insert_ne; lia).
  assert (Ar : forall j x, In j order -> is_alias j = true -> alias_reg s1 na1 j x -> arg_at na (alias_of j) = Ok x).
  { intros j x Ij Q (E & _). destruct (Al j ltac:(by right) Q) as (H0 & Nj & _). unfold arg_at in *. destruct (alias_of j <? 0); [done|]. rewrite Same in E; [done | done|]. intros W. apply Nj. left. congruence. }
  assert (Ng : is_alias i = false -> forall j, In j order -> is_alias j = true -> False).
  { intros Q j Ij Qj. destruct (St [] i order eq_refl Q) as [_ F]. rewrite forallb_forall in F. specialize (F j Ij). by rewrite Qj in F. }
  assert (Al1 : forall j x, In j order -> is_alias j = true -> alias_reg s na j x -> alias_reg s1 na1 j x).
  { intros j x Ij Qj (E & F & T). destruct (is_alias i) eqn:Q; [|by destruct (Ng eq_refl j Ij Qj)]. destruct (A1 eq_refl) as [Er Fr]. split_and!; [|apply Fr; [done|] | done].
    - destruct (Al j ltac:(by right) Qj) as (H0 & Nj & _). unfold arg_at in *. destruct (alias_of j <? 0); [done|]. rewrite Same; [done | done|]. intros W. apply Nj. left. congruence.
    - intros ->. apply (proj2 Ni). destruct (Al i ltac:(by left) Q) as (_ & _ & ri & Ei & Fi & Ti). assert (ri = r) as -> by congruence.
      assert (i = j) as -> by (apply (Di i j r); [by left | by right | done | done | done | done]). done. }
  destruct (IH (pre ++ [i]) s1 h1 (regset_set al r) na1 G1) as (s2 & h2 & al2 & na2 & E2 & G2 & O2 & Oo2 & L2 & S2 & W2).
  - etrans; [exact Gr | apply O1].
  - eapply outputs_ok_step; try done. intros j Ij. split; [by apply Pos|]. intros ->. by apply (proj1 Ni).
  - by rewrite <- app_assoc.
  - intros j j' t' Ij Ij'. rewrite <- app_assoc in Ij, Ij'. by apply Inj.
  - intros p j q ->. rewrite <- app_assoc. by apply (St (i :: p) j q).
  - intros j Ij. apply in_app_iff in Ij as [Ij|[<-|[]]]; [by apply Pos | done].
  - intros j Ij. unfold na1. rewrite length_insert. apply Rs. by right.
  - intros j Ij Qj. destruct (Al j ltac:(by right) Qj) as (H0 & Nj & x & Hx). split; [done|]. split; [intros Q; apply Nj; by right|]. exists x. by apply Al1.
  - intros j j' x Ij Ij' Qj Qj' Hx Hx'. destruct (Al j ltac:(by right) Qj) as (_ & _ & y & Hy). destruct (Al j' ltac:(by right) Qj') as (_ & _ & y' & Hy').
    pose proof (Ar j x Ij Qj Hx) as Q1. pose proof (Ar j' x Ij' Qj' Hx') as Q2. destruct Hy as (Ey & Hy), Hy' as (Ey' & Hy'). assert (y = x) as -> by congruence. assert (y' = x) as -> by congruence.
    apply (Di j j' x); [by right | by right | done | done | done | done].
  - exists s2, h2, al2, na2. rewrite <- app_assoc in Oo2. cbn [alloc_outputs]. rewrite E1. cbn [res_bind]. fold na1. unfold na1 in L2. rewrite length_insert in L2.
    split; [exact E2|]. split; [exact G2|]. split; [eapply outs_join; [apply R | exact O1 | exact K1 | exact O2]|]. split; [exact Oo2|]. split; [done|]. split.
    + intros j Hj Nj. rewrite S2; [|done | intros Q; apply Nj; by right]. apply Same; [done|]. intros ->. apply Nj. by left.
    + intros j [<-|Ij] Qj.
      * rewrite S2; [|done | apply (proj2 Ni)]. unfold na1. rewrite list_lookup_insert_eq by done. destruct (A1 Qj) as [Er _]. unfold arg_at in Er. destruct (alias_of i <? 0); [done|]. destruct (na !! Z.to_nat (alias_of i)); [congruence | done].
      * rewrite (W2 j Ij Qj). destruct (Al j ltac:(by right) Qj) as (H0 & Nj & _). apply Same; [done|]. intros W. apply Nj. left. congruence.
Qed.
End Outputs.

End TcgRegArgs.
