(* ===== verification/TcgRegInsn.v ===== *)
(** * Register allocation for one operation

    What the operand constraints of the 64-bit x86 host guarantee, and that the
    functions of tcg.c that handle operations and calls return, with the inputs
    in the places the host code takes them from and with tables that are right
    after any operation that writes its outputs where the allocator put them. *)

From stdpp Require Import list sets.
From Stdlib Require Import ZifyBool.
From S2P Require Import Prelude Tcg TcgLive TcgReg TcgRegInv TcgRegOp TcgRegArgs.

Module TcgRegInsn.
Import Tcg TcgLive TcgReg TcgRegInv TcgRegOp TcgRegArgs.

(** ** The constraints of the host *)

Fixpoint inputs_room (cs : Constraints) (pre order : list Z) : bool :=
  match order with
  | [] => true
  | i :: order => room_check cs pre i && inputs_room cs (pre ++ [i]) order
  end.
Fixpoint outputs_room (cs : Constraints) (pre order : list Z) : bool :=
  match order with
  | [] => true
  | i :: order => (is_alias cs i || room_check cs pre i && forallb (fun j => negb (is_alias cs j)) order) && outputs_room cs (pre ++ [i]) order
  end.
Definition ialias (cs : Constraints) (i : Z) : bool := match is_ct cs i with Ok c => ct_has c TCG_CT_IALIAS | Fail _ => false end.
Definition never_const (cs : Constraints) (i : Z) : bool :=
  match is_ct cs i with Ok c => negb (ct_has c (Z.lor TCG_CT_CONST (Z.lor TCG_CT_CONST_S32 TCG_CT_CONST_U32))) | Fail _ => false end.
Definition order_ok (l : list Z) (a n : Z) : bool := bool_decide (NoDup l) && forallb (fun i => (a <=? i) && (i <? a + n)) l && (len l =? n).

Definition constraints_ok (cs : Constraints) (no ni : Z) : bool :=
  (len (args_ct cs) =? no + ni) && (0 <=? no) && (0 <=? ni) && order_ok (sorted_iargs cs) no ni && order_ok (sorted_oargs cs) 0 no &&
  inputs_room cs [] (sorted_iargs cs) && outputs_room cs [] (sorted_oargs cs) && (ni <? len (avail tcg_target_available_regs)) &&
  forallb (fun i => negb (ialias cs i) || (0 <=? alias_of cs i) && (alias_of cs i <? no)) (sorted_iargs cs) &&
  forallb (fun i => negb (is_alias cs i) || (no <=? alias_of cs i) && (alias_of cs i <? no + ni) && ialias cs (alias_of cs i) && never_const cs (alias_of cs i) && (regs_at cs i =? regs_at cs (alias_of cs i)) &&
    forallb (fun j => (i =? j) || negb (is_alias cs j) || negb (overlap (regs_at cs i) (regs_at cs j))) (sorted_oargs cs)) (sorted_oargs cs).

(** Operations that are given to the host with operands. *)
Definition host_op (op : TCGOpcode) : bool := (len (x86_64_op_defs op) =? nb_oargs (tcg_op_defs op) + nb_iargs (tcg_op_defs op)) && negb (bool_decide (op = INDEX_op_call)).

Lemma constraints_good op : host_op op = true -> exists cs, tcg_add_target_add_op_defs op = Ok cs /\ constraints_ok cs (nb_oargs (tcg_op_defs op)) (nb_iargs (tcg_op_defs op)) = true.
Proof. destruct op; intros H; vm_compute in H; try discriminate H; eexists; (split; [vm_compute; reflexivity | vm_compute; reflexivity]). Qed.

Record ct_facts (cs : Constraints) (no ni : Z) : Prop := {
  cf_len : len (args_ct cs) = no + ni;
  cf_no : 0 <= no;
  cf_ni : 0 <= ni;
  cf_inodup : NoDup (sorted_iargs cs);
  cf_irange i : In i (sorted_iargs cs) <-> no <= i < no + ni;
  cf_onodup : NoDup (sorted_oargs cs);
  cf_orange i : In i (sorted_oargs cs) <-> 0 <= i < no;
  cf_iroom p i q : sorted_iargs cs = p ++ i :: q -> room_check cs p i = true;
  cf_oroom p i q : sorted_oargs cs = p ++ i :: q -> is_alias cs i = false -> room_check cs p i = true /\ forallb (fun j => negb (is_alias cs j)) q = true;
  cf_spare : room_in cs tcg_target_available_regs (sorted_iargs cs) = true;
  cf_ialias i : In i (sorted_iargs cs) -> ialias cs i = true -> 0 <= alias_of cs i < no;
  cf_oalias i : In i (sorted_oargs cs) -> is_alias cs i = true -> no <= alias_of cs i < no + ni /\ ialias cs (alias_of cs i) = true /\ never_const cs (alias_of cs i) = true /\ regs_at cs i = regs_at cs (alias_of cs i);
  cf_apart i j : In i (sorted_oargs cs) -> In j (sorted_oargs cs) -> is_alias cs i = true -> is_alias cs j = true -> i <> j -> overlap (regs_at cs i) (regs_at cs j) = false
}.

Lemma order_ok_range l a n : 0 <= n -> order_ok l a n = true -> NoDup l /\ forall i, In i l <-> a <= i < a + n.
Proof.
  intros Hn H. unfold order_ok in H. rewrite !andb_true_iff, bool_decide_eq_true, forallb_forall, Z.eqb_eq in H. destruct H as [[Nd F] L]. split; [done|].
  assert (Sub : forall i, In i l -> a <= i < a + n) by (intros i Ii; specialize (F i Ii); lia). intros i. split; [apply Sub|]. intros B.
  assert (P : l ≡ₚ seqZ a n).
  { apply submseteq_length_Permutation; [apply NoDup_submseteq; [done|]; intros x Hx%list_elem_of_In; apply elem_of_seqZ; by apply Sub | rewrite length_seqZ; unfold len in L; lia]. }
  apply list_elem_of_In. rewrite P. by apply elem_of_seqZ.
Qed.
Lemma inputs_room_split cs pre order p i q : inputs_room cs pre order = true -> order = p ++ i :: q -> room_check cs (pre ++ p) i = true.
Proof.
  revert pre p. induction order as [|x order IH]; intros pre p H E; [by destruct p|]. cbn [inputs_room] in H. apply andb_prop in H as [H1 H2]. destruct p as [|y p]; injection E as -> E; [by rewrite app_nil_r|].
  specialize (IH _ p H2 E). by rewrite <- app_assoc in IH.
Qed.
Lemma outputs_room_split cs pre order p i q : outputs_room cs pre order = true -> order = p ++ i :: q -> is_alias cs i = false -> room_check cs (pre ++ p) i = true /\ forallb (fun j => negb (is_alias cs j)) q = true.
Proof.
  revert pre p. induction order as [|x order IH]; intros pre p H E A; [by destruct p|]. cbn [outputs_room] in H. apply andb_prop in H as [H1 H2]. destruct p as [|y p]; injection E as -> E.
  - rewrite app_nil_r. subst q. rewrite A in H1. by apply andb_prop in H1.
  - specialize (IH _ p H2 E A). by rewrite <- app_assoc in IH.
Qed.
Lemma constraints_facts cs no ni : constraints_ok cs no ni = true -> ct_facts cs no ni.
Proof.
  unfold constraints_ok. rewrite !andb_true_iff. intros (((((((((L & No) & Ni) & Oi) & Oo) & Ri) & Ro) & Sp) & Ia) & Al).
  destruct (order_ok_range _ no ni (proj1 (Z.leb_le _ _) Ni) Oi) as [Ndi Ini]. destruct (order_ok_range _ 0 no (proj1 (Z.leb_le _ _) No) Oo) as [Ndo Ino]. cbn [Z.add] in Ino. rewrite forallb_forall in Ia, Al.
  assert (Au : forall i, In i (sorted_oargs cs) -> is_alias cs i = true -> ((no <=? alias_of cs i) && (alias_of cs i <? no + ni) && ialias cs (alias_of cs i) && never_const cs (alias_of cs i) && (regs_at cs i =? regs_at cs (alias_of cs i)) &&
    forallb (fun j => (i =? j) || negb (is_alias cs j) || negb (overlap (regs_at cs i) (regs_at cs j))) (sorted_oargs cs)) = true) by (intros i Ii Q; specialize (Al i Ii); by rewrite Q in Al).
  apply Z.eqb_eq in L. apply Z.leb_le in No, Ni. apply Z.ltb_lt in Sp.
  split; [done | done | done | done | done | done | exact Ino | | | | | |].
  - intros p i q E. by apply (inputs_room_split cs [] _ p i q Ri).
  - intros p i q E. by apply (outputs_room_split cs [] _ p i q Ro).
  - apply Nat.ltb_lt. eapply Nat.le_lt_trans; [apply List.filter_length_le|]. unfold order_ok in Oi. apply andb_prop in Oi as [_ Oi%Z.eqb_eq]. clear - Oi Sp. unfold len in *. lia.
  - intros i Ii Q. specialize (Ia i Ii). rewrite Q in Ia. cbn [negb orb] in Ia. apply andb_prop in Ia as [Ia1%Z.leb_le Ia2%Z.ltb_lt]. done.
  - intros i Ii Q. specialize (Au i Ii Q). rewrite !andb_true_iff in Au. destruct Au as (((((A1 & A2) & A3) & A4) & A5) & _). split_and!; [by apply Z.leb_le | by apply Z.ltb_lt | done | done | by apply Z.eqb_eq].
  - intros i j Ii Ij Qi Qj N. specialize (Au i Ii Qi). rewrite !andb_true_iff in Au. destruct Au as [_ F]. rewrite forallb_forall in F. specialize (F j Ij). rewrite Qj in F. destruct (Z.eqb_spec i j); [done|]. cbn [negb orb] in F. by apply negb_true_iff.
Qed.

(** ** What the host accepts *)

(** Operands as the encoder of the operation takes them: constants and registers
    that meet the constraints, outputs in distinct registers and in the register
    of the input they are tied to. *)
Definition input_fits (cs : Constraints) (na : list Z) (ca : list bool) (i : Z) : bool :=
  match is_ct cs i, (na !! Z.to_nat i : option Z), (ca !! Z.to_nat i : option bool) with
  | Ok d, Some x, Some b => if b then tcg_target_const_match x d else (0 <=? x) && (x <? 16) && regset_test (regs d) x
  | _, _, _ => false
  end.
Definition output_fits (cs : Constraints) (na : list Z) (ca : list bool) (i : Z) : bool :=
  match is_ct cs i, (na !! Z.to_nat i : option Z) with
  | Ok d, Some r => (0 <=? r) && (r <? 16) && regset_test (regs d) r &&
      (negb (ct_has d TCG_CT_ALIAS) || bool_decide (na !! Z.to_nat (alias_index d) = Some r) && bool_decide (ca !! Z.to_nat (alias_index d) = Some false))
  | _, _ => false
  end.
Definition op_fits (cs : Constraints) (na : list Z) (ca : list bool) (no ni : nat) : bool :=
  forallb (input_fits cs na ca) (seqZ (Z.of_nat no) (Z.of_nat ni)) && forallb (output_fits cs na ca) (seqZ 0 (Z.of_nat no)) && bool_decide (NoDup (take no na)).

(** The contents of the inputs. *)
Definition reads (h : HS) (na : list Z) (ca : list bool) (no ni : nat) : list Z := zip_with (holds h) (take ni (drop no na)) (take ni (drop no ca)).

(** ** After an operation *)

(** What the host does for an operation or a call with outputs [o] in registers
    [ro]: registers and places of temporaries change only there, in the registers
    calls destroy ([creg]) and in the memory of globals ([cglob]); [v2] are the
    values after it. *)
Record after (creg cglob : bool) (o ro : list Z) (v : Z -> Z) (s : RA) (h h2 : HS) (v2 : Z -> Z) : Prop := {
  af_regs r : 0 <= r < 16 -> ~ In r ro -> (creg = true -> regset_test tcg_target_call_clobber_regs r = false) -> hr h2 r = hr h r;
  af_out j t r : o !! j = Some t -> ro !! j = Some r -> hr h2 r = v2 t;
  af_mem k ts : ra_temps s !! k = Some ts -> mem_allocated ts = true -> (cglob = true -> ra_globals s <= Z.of_nat k) -> slot h2 ts = slot h ts;
  af_vals k ts : ra_temps s !! k = Some ts -> ~ In (Z.of_nat k) o -> (cglob = true -> ra_globals s <= Z.of_nat k \/ fixed_reg ts = true) -> v2 (Z.of_nat k) = v (Z.of_nat k);
  af_globals k ts : cglob = true -> ra_temps s !! k = Some ts -> Z.of_nat k < ra_globals s -> fixed_reg ts = false -> ~ In (Z.of_nat k) o -> slot h2 ts = trunc (type ts) (v2 (Z.of_nat k))
}.

Section After.
Context (X : Z -> Prop) (v : Z -> Z) (o ro : list Z) (creg cglob : bool) (s4 s5 : RA) (h5 : HS) (A4 : ra_ok s4) (A5 : ra_ok s5) (Gr : grows s4 s5)
  (Hc : creg = true -> forall r, 0 <= r < 16 -> regset_test tcg_target_call_clobber_regs r = true -> reg_to_temp s4 !! Z.to_nat r = Some (-1))
  (Hg : cglob = true -> forall k, Z.of_nat k < ra_globals s4 -> in_memory s4 k)
  (P5 : places (fun t => X t /\ ~ In t o) s5 h5 v)
  (Mv : forall k ts, ra_temps s4 !! k = Some ts -> ~ In (Z.of_nat k) o -> exists ts', ra_temps s5 !! k = Some ts' /\ moved false ts ts')
  (Ho : forall j t, o !! j = Some t -> 0 <= t /\ exists r, ro !! j = Some r /\ taken s5 t r /\ reserved r = false) (Lo : length ro = length o).

(** A register that holds a temporary which is not an output. *)
Lemma other_reg k ts : ra_temps s5 !! k = Some ts -> ~ In (Z.of_nat k) o -> val_type ts = TEMP_VAL_REG -> ~ In (reg ts) ro /\ (creg = true -> regset_test tcg_target_call_clobber_regs (reg ts) = false).
Proof.
  intros E No V. destruct (ok_reg s5 A5 k ts E V) as [B Ow]. split.
  - intros Ir. apply list_elem_of_In, list_elem_of_lookup in Ir as [j Ej]. destruct (lookup_lt_is_Some_2 o j) as [t Et]; [rewrite <- Lo; by eapply lookup_lt_Some|].
    destruct (Ho j t Et) as (Ht & r & Er & (w & Ew & Vw & Rw & _ & Fw) & Nr). rewrite Ej in Er. injection Er as <-. destruct (fixed_reg ts) eqn:Fx; [destruct (ok_fixed s5 A5 k ts E Fx) as (_ & Q & _); congruence|]. destruct (Ow eq_refl) as [Ok _].
    destruct (ok_reg s5 A5 _ w Ew Vw) as [_ Oww]. destruct (Oww Fw) as [Ok' _]. rewrite Rw, Ok in Ok'. injection Ok' as Q. assert (Z.of_nat k = t) as <- by lia. apply No, list_elem_of_In. by eapply list_elem_of_lookup_2.
  - intros C. destruct (regset_test tcg_target_call_clobber_regs (reg ts)) eqn:T; [|done]. specialize (Hc C (reg ts) ltac:(lia) T). pose proof (clobber_reserved (reg ts) ltac:(lia) T) as Nr.
    destruct (fixed_reg ts) eqn:Fx; [destruct (ok_fixed s5 A5 k ts E Fx) as (_ & Q & _); congruence|]. pose proof (lookup_lt_Some _ _ _ E) as Lt. rewrite (gr_len _ _ Gr) in Lt. apply lookup_lt_is_Some in Lt as [ts4 E4].
    destruct (Mv k ts4 E4 No) as (u & Eu & (_ & F4 & _ & _ & R4 & _ & V4)). rewrite E in Eu. injection Eu as <-. assert (V4' : val_type ts4 = TEMP_VAL_REG) by (destruct V4 as [V4|[V4|[? _]]]; congruence).
    destruct (ok_reg s4 A4 k ts4 E4 V4') as [_ O4]. destruct (O4 ltac:(congruence)) as [O4' _]. rewrite <- R4, Hc in O4'. injection O4'. lia.
Qed.
Lemma global_in_memory k ts : ra_temps s5 !! k = Some ts -> ~ In (Z.of_nat k) o -> cglob = true -> Z.of_nat k < ra_globals s5 -> fixed_reg ts = false -> val_type ts = TEMP_VAL_MEM.
Proof.
  intros E No C Hk Fx. pose proof (lookup_lt_Some _ _ _ E) as Lt. rewrite (gr_len _ _ Gr) in Lt. apply lookup_lt_is_Some in Lt as [ts4 E4]. destruct (Mv k ts4 E4 No) as (u & Eu & (_ & F4 & _ & _ & _ & _ & V4)).
  rewrite E in Eu. injection Eu as <-. rewrite (gr_globals _ _ Gr) in Hk. specialize (Hg C k Hk ts4 E4 ltac:(congruence)). destruct V4 as [V4|[V4|[? _]]]; congruence.
Qed.

Lemma after_places h2 v2 : after creg cglob o ro v s5 h5 h2 v2 -> places (fun t => (In t o \/ X t) /\ held s5 t (v2 t) (v2 t)) s5 h2 v2.
Proof.
  intros [Hr Hout Hm Hv Hgl] k ts E [Xk Fv]. assert (Ft : trunc (type ts) (v2 (Z.of_nat k)) = v2 (Z.of_nat k)) by (apply Fv; by rewrite Nat2Z.id). destruct (in_dec Z.eq_dec (Z.of_nat k) o) as [Io|No].
  { apply list_elem_of_In, list_elem_of_lookup in Io as [j Ej]. destruct (Ho j _ Ej) as (_ & r & Er & (u & Eu & Vu & Ru & Cu & Fu) & _). rewrite Nat2Z.id, E in Eu. injection Eu as <-.
    unfold located. rewrite Vu. split; [rewrite Ru, (Hout j _ r Ej Er); exact Ft | congruence]. }
  destruct Xk as [?|Xk]; [done|]. pose proof (P5 k ts E (conj Xk No)) as L. pose proof (global_in_memory k ts E No) as Gm. unfold located in *. destruct (val_type ts) eqn:V; [done | | |].
  - destruct (ok_reg s5 A5 k ts E V) as [B _]. destruct (other_reg k ts E No V) as [N1 N2]. destruct L as [L1 L2].
    assert (Nt : cglob = true -> fixed_reg ts = false -> ra_globals s5 <= Z.of_nat k) by (intros C Fx; destruct (decide (Z.of_nat k < ra_globals s5)) as [Q|Q]; [specialize (Gm C Q Fx); congruence | lia]).
    assert (Vk : v2 (Z.of_nat k) = v (Z.of_nat k)) by (apply (Hv k ts E No); intros C; destruct (fixed_reg ts) eqn:Fx; [by right | left; by apply Nt]).
    rewrite Vk. split; [by rewrite Hr|]. intros Fx Co. destruct (L2 Fx Co) as [Ma Q]. split; [done|]. rewrite (Hm k ts E Ma); [done | intros C; by apply Nt].
  - destruct L as [Ma L]. split; [done|]. assert (Fx : fixed_reg ts = false) by (destruct (fixed_reg ts) eqn:Fx; [|done]; destruct (ok_fixed s5 A5 k ts E Fx); congruence).
    destruct cglob; [|rewrite (Hm k ts E Ma), (Hv k ts E No); done]. destruct (decide (Z.of_nat k < ra_globals s5)) as [Q|Q]; [by rewrite (Hgl k ts)|].
    rewrite (Hm k ts E Ma), (Hv k ts E No); [done | intros _; left; lia | intros _; lia].
  - assert (Fx : fixed_reg ts = false) by (destruct (fixed_reg ts) eqn:Fx; [|done]; destruct (ok_fixed s5 A5 k ts E Fx); congruence).
    rewrite (Hv k ts E No); [done|]. intros C. left. destruct (decide (Z.of_nat k < ra_globals s5)) as [Q|Q]; [specialize (Gm C Q Fx); congruence | lia].
Qed.
End After.

(** ** The operands of an operation *)

Section Op.
Context (X : Z -> Prop) (v : Z -> Z) (ks : Z -> bool) (op : TCGOpcode) (o a c : list Z) (cs : Constraints) (dead : Z) (CF : ct_facts cs (len o) (len a)).
Notation args := (o ++ a ++ c).
Notation good s h := (ra_ok s /\ places X s h v).

(** The temporaries of the operation: inputs have values, outputs are not in
    fixed registers. *)
Record operands (s : RA) : Prop := {
  os_in t : In t a -> X t /\ 0 <= t < len (ra_temps s);
  os_out t : In t o -> 0 <= t /\ exists u, ra_temps s !! Z.to_nat t = Some u /\ fixed_reg u = false;
  os_nodup : NoDup o
}.

Lemma is_ct_some i : 0 <= i < len o + len a -> exists d, is_ct cs i = Ok d.
Proof.
  intros B. unfold is_ct. pose proof (cf_len _ _ _ CF) as L. unfold len in *. destruct (lookup_lt_is_Some_2 (args_ct cs) (Z.to_nat i)) as [d ->]; [lia | by exists d].
Qed.
Lemma arg_in j t : a !! j = Some t -> arg_at args (len o + Z.of_nat j) = Ok t.
Proof.
  intros E. unfold arg_at, len. destruct (Z.ltb_spec (Z.of_nat (length o) + Z.of_nat j) 0); [lia|]. rewrite lookup_app_r by lia. replace (Z.to_nat (Z.of_nat (length o) + Z.of_nat j) - length o)%nat with j by lia.
  rewrite lookup_app_l by (by eapply lookup_lt_Some). by rewrite E.
Qed.
Lemma arg_out j t : o !! j = Some t -> arg_at args (Z.of_nat j) = Ok t.
Proof. intros E. unfold arg_at. destruct (Z.ltb_spec (Z.of_nat j) 0); [lia|]. rewrite Nat2Z.id, lookup_app_l by (by eapply lookup_lt_Some). by rewrite E. Qed.
Lemma in_index i : len o <= i < len o + len a -> exists j t, i = len o + Z.of_nat j /\ a !! j = Some t /\ In t a.
Proof.
  intros B. unfold len in *. destruct (lookup_lt_is_Some_2 a (Z.to_nat (i - Z.of_nat (length o)))) as [t E]; [lia|]. exists (Z.to_nat (i - Z.of_nat (length o))), t. split_and!; [lia | done|]. apply list_elem_of_In. by eapply list_elem_of_lookup_2.
Qed.
Lemma out_index i : 0 <= i < len o -> exists j t, i = Z.of_nat j /\ o !! j = Some t /\ In t o.
Proof.
  intros B. unfold len in *. destruct (lookup_lt_is_Some_2 o (Z.to_nat i)) as [t E]; [lia|]. exists (Z.to_nat i), t. split_and!; [lia | done|]. apply list_elem_of_In. by eapply list_elem_of_lookup_2.
Qed.

Lemma operand_ok s i : operands s -> In i (sorted_iargs cs) -> exists t d, operand X cs args s i t d.
Proof.
  intros Os Ii. apply (cf_irange _ _ _ CF) in Ii as B. destruct (in_index i B) as (j & t & -> & Ej & It). destruct (is_ct_some (len o + Z.of_nat j)) as [d Ed]; [unfold len in *; lia|].
  destruct (os_in s Os t It) as [Xt Bt]. exists t, d. split; try done; [unfold len in *; lia | by apply arg_in|].
  intros Ia. pose proof (cf_ialias _ _ _ CF _ Ii) as H. unfold ialias, alias_of in H. rewrite Ed in H. specialize (H Ia). destruct (out_index _ H) as (j' & t' & -> & Ej' & It').
  destruct (os_out s Os t' It') as (Ht' & u & Eu & Fu). exists t', u. split; [by apply arg_out | done].
Qed.

Lemma covers_reserved : covers RESERVED.
Proof. by intros r _ H. Qed.

Lemma op_inputs s h : good s h -> operands s ->
  exists s1 h1 al na ca, alloc_inputs s cs args (len o) dead (sorted_iargs cs) (reserved_regs s) (map (fun _ => 0) (o ++ a) ++ c) (map (fun _ => false) args) = Ok (s1, al, na, ca) /\
    good s1 h1 /\ runs (regset_test RESERVED) ks s h s1 h1 /\ inputs_ok X v cs args (len o) dead s (sorted_iargs cs) s1 h1 al na ca /\ length na = length args /\ length ca = length args /\
    drop (length o + length a) na = c.
Proof.
  intros G Os. rewrite (ok_reserved s (proj1 G)). set (na0 := map (fun _ => 0) (o ++ a) ++ c). set (ca0 := map (fun _ => false) args).
  assert (Ln : length na0 = length args) by (unfold na0; rewrite !length_app, length_map, length_app; lia). assert (Lc : length ca0 = length args) by (apply length_map).
  destruct (inputs_good X v ks cs args (len o) dead s (sorted_iargs cs) [] s h RESERVED na0 ca0 G) as (s1 & h1 & al & na & ca & E & G1 & R1 & I1 & L1 & L2 & S1).
  - done.
  - split; [exact covers_reserved | by left | done].
  - apply CF.
  - intros p i q Q. by apply (cf_iroom _ _ _ CF p i q).
  - intros i Ii. apply (cf_irange _ _ _ CF) in Ii. unfold len in *. lia.
  - intros i Ii. rewrite Ln, Lc, !length_app. pose proof Ii as B. apply (cf_irange _ _ _ CF) in B. unfold len in *. split; [lia|]. split; [lia|]. by apply operand_ok.
  - exists s1, h1, al, na, ca. split; [exact E|]. split; [exact G1|]. split; [exact R1|]. split; [exact I1|]. split; [congruence|]. split; [congruence|].
    assert (D0 : drop (length o + length a) na0 = c) by (unfold na0; rewrite drop_app_ge by (rewrite length_map, length_app; lia); rewrite length_map, length_app, Nat.sub_diag; done).
    rewrite <- D0. apply list_eq. intros i. rewrite !lookup_drop. specialize (S1 (Z.of_nat (length o + length a + i)) ltac:(lia)). rewrite Nat2Z.id in S1. apply S1. intros Q. apply (cf_irange _ _ _ CF) in Q. unfold len in Q. lia.
Qed.

Lemma spare_room s s1 h1 al na ca : inputs_ok X v cs args (len o) dead s (sorted_iargs cs) s1 h1 al na ca -> room tcg_target_available_regs al.
Proof. intros I. apply (room_in_ok cs _ (sorted_iargs cs) al (fun j => nth (Z.to_nat j) na (-1)) (cf_spare _ _ _ CF)). apply I. Qed.

Lemma inputs_read s s1 h1 al na ca h5 na5 : inputs_ok X v cs args (len o) dead s (sorted_iargs cs) s1 h1 al na ca -> length na = length args -> length ca = length args ->
  (forall r, regset_test al r = true -> hr h5 r = hr h1 r) -> drop (length o) na5 = drop (length o) na ->
  Forall2 (fun y t => held s t y (v t)) (reads h5 na5 ca (length o) (length a)) a /\ forallb (input_fits cs na5 ca) (seqZ (len o) (len a)) = true.
Proof.
  intros I Ln Lc Hh Ed. assert (Q : forall j t, a !! j = Some t -> exists x b, na5 !! (length o + j)%nat = Some x /\ ca !! (length o + j)%nat = Some b /\ held s t (holds h5 x b) (v t) /\ input_fits cs na5 ca (len o + Z.of_nat j) = true).
  { intros j t Ej. pose proof (lookup_lt_Some _ _ _ Ej) as Lj. destruct (io_in _ _ _ _ _ _ _ _ _ _ _ _ _ I (len o + Z.of_nat j)) as (t' & d & x & b & O & Ex & Eb & H & F); [apply (cf_irange _ _ _ CF); unfold len; lia|].
    pose proof (op_arg _ _ _ _ _ _ _ O) as Ar. rewrite (arg_in j t Ej) in Ar. injection Ar as <-. unfold input_fits. rewrite (op_ct _ _ _ _ _ _ _ O).
    replace (Z.to_nat (len o + Z.of_nat j)) with (length o + j)%nat in * by (unfold len; lia). assert (E5 : na5 !! (length o + j)%nat = Some x) by (rewrite <- lookup_drop, Ed, lookup_drop; done). rewrite E5, Eb. exists x, b.
    destruct b; [by split_and!|]. cbn [holds] in *. destruct F as [F1 (F2 & F3 & _)]. split_and!; try done; [intros u Eu; rewrite Hh by done; by apply H | rewrite F3; lia]. }
  split.
  - unfold reads. apply Forall2_same_length_lookup_2; [rewrite length_zip_with, !length_take, !length_drop; assert (Ld : length (drop (length o) na5) = length (drop (length o) na)) by (by rewrite Ed); rewrite !length_drop in Ld; rewrite !length_app in *; lia|].
    intros j y t Ey Ej. destruct (Q j t Ej) as (x & b & E5 & Eb & H & _). pose proof (lookup_lt_Some _ _ _ Ej) as Lj. rewrite lookup_zip_with, !lookup_take_lt, !lookup_drop, E5, Eb in Ey by done. injection Ey as <-. exact H.
  - apply forallb_forall. intros i Ii. apply list_elem_of_In, elem_of_seqZ in Ii. destruct (in_index i Ii) as (j & t & -> & Ej & _). by destruct (Q j t Ej) as (x & b & _ & _ & _ & F).
Qed.

(** *** Before the outputs *)

Definition live_on (t : Z) : Prop := X t /\ kept a 0 dead t.
Notation clob := (has_flag op TCG_OPF_CALL_CLOBBER).

Lemma op_prepare s s1 h1 al na ca : good s1 h1 -> grows s s1 -> operands s -> inputs_ok X v cs args (len o) dead s (sorted_iargs cs) s1 h1 al na ca ->
  exists s4 h4, (let* s := dead_inputs s1 a 0 dead in if clob then let* s := clobber_call_regs s in save_globals s al else Ok s) = Ok s4 /\
    (ra_ok s4 /\ places live_on s4 h4 v) /\ emitted s1 h1 s4 h4 /\ grows s1 s4 /\ (forall r, regset_test al r = true -> hr h4 r = hr h1 r) /\
    (forall j t x, a !! j = Some t -> 0 <= x < 16 -> disposable s1 t x (IS_DEAD_IARG dead (Z.of_nat j)) -> reg_to_temp s4 !! Z.to_nat x = Some (-1)) /\
    (clob = true -> (forall r, 0 <= r < 16 -> regset_test tcg_target_call_clobber_regs r = true -> reg_to_temp s4 !! Z.to_nat r = Some (-1)) /\ forall k, Z.of_nat k < ra_globals s -> in_memory s4 k).
Proof.
  intros [A1 P1] Gr Os I. pose proof (places_weaken X live_on s1 h1 v v P1 ltac:(by intros t [? _])) as Q1. set (keep := regset_test al).
  destruct (dead_inputs_good live_on v keep ks a 0 dead s1 h1 (conj A1 Q1)) as (s2 & E2 & G2 & V2 & D2).
  { intros j t Ej Dj. destruct (os_in s Os t) as [_ B]; [apply list_elem_of_In; by eapply list_elem_of_lookup_2|]. split; [unfold len in *; by rewrite (gr_len _ _ Gr)|]. intros [_ K]. specialize (K j Ej). congruence. }
  pose proof (disposable_free keep ks a dead s1 h1 s2 A1 (proj1 G2) V2 D2) as Fr. rewrite E2. cbn [res_bind]. destruct (has_flag op TCG_OPF_CALL_CLOBBER).
  - destruct (clobber_good live_on v keep ks s2 h1 G2) as (s3 & h3 & -> & G3 & V3 & H3 & F3). cbn [res_bind].
    destruct (save_globals_good live_on v keep ks al (fun r _ H => H) (io_covers _ _ _ _ _ _ _ _ _ _ _ _ _ I) (spare_room s s1 h1 al na ca I) s3 h3 G3) as (s4 & h4 & -> & G4 & V4 & M4).
    exists s4, h4. split; [done|]. split; [exact G4|]. split; [eapply emitted_trans; [apply V2|]; eapply emitted_trans; [apply V3 | apply V4]|].
    split; [etrans; [by eapply ev_grows|]; etrans; by eapply ev_grows|]. split; [intros r Hr; rewrite (ev_keep _ _ _ _ _ _ _ V4 r Hr), H3; done|].
    split; [intros j t x Ej B Dp; apply (ev_free _ _ _ _ _ _ _ V4), (ev_free _ _ _ _ _ _ _ V3); by eapply Fr|]. intros _. split; [intros r B Hr; apply (ev_free _ _ _ _ _ _ _ V4); by apply F3|].
    intros k Hk. apply M4. rewrite (ev_globals _ _ _ _ _ _ _ V3), (ev_globals _ _ _ _ _ _ _ V2), (gr_globals _ _ Gr). done.
  - exists s2, h1. split; [done|]. split; [exact G2|]. split; [apply V2|]. split; [by eapply ev_grows|]. split; [done|]. split; [exact Fr | done].
Qed.

(** *** The outputs *)

Lemma never_const_match i d x : is_ct cs i = Ok d -> never_const cs i = true -> tcg_target_const_match x d = false.
Proof.
  intros Ed N. unfold never_const in N. rewrite Ed in N. apply negb_true_iff in N. unfold ct_has, nz in N. apply negb_false_iff, Z.eqb_eq in N.
  assert (Z0 : forall f, Z.land (Z.lor TCG_CT_CONST (Z.lor TCG_CT_CONST_S32 TCG_CT_CONST_U32)) f = f -> ct_has d f = false).
  { intros f Hf. unfold ct_has, nz. rewrite <- Hf, Z.land_assoc, N, Z.land_0_l. done. }
  unfold tcg_target_const_match. rewrite (Z0 TCG_CT_CONST eq_refl), (Z0 TCG_CT_CONST_S32 eq_refl), (Z0 TCG_CT_CONST_U32 eq_refl). done.
Qed.
Lemma in_order r : 0 <= r < 16 -> reserved r = false -> In r tcg_target_reg_alloc_order.
Proof.
  intros B%clobbered_range N. assert (Q : forallb (fun r => reserved r || bool_decide (r ∈ tcg_target_reg_alloc_order)) (seqZ 0 TCG_TARGET_NB_REGS) = true) by done.
  rewrite forallb_forall in Q. specialize (Q r B). rewrite N in Q. cbn [orb] in Q. apply bool_decide_eq_true in Q. by apply list_elem_of_In.
Qed.

Definition after_out (t : Z) : Prop := live_on t /\ ~ In t o.

Lemma op_outputs s s1 h1 s4 h4 al na ca : operands s -> grows s s4 -> inputs_ok X v cs args (len o) dead s (sorted_iargs cs) s1 h1 al na ca -> length na = length args -> ra_ok s4 /\ places live_on s4 h4 v ->
  (forall j t x, a !! j = Some t -> 0 <= x < 16 -> disposable s1 t x (IS_DEAD_IARG dead (Z.of_nat j)) -> reg_to_temp s4 !! Z.to_nat x = Some (-1)) ->
  exists s5 h5 al5 na5, alloc_outputs s4 cs args (sorted_oargs cs) (reserved_regs s4) na = Ok (s5, na5) /\ (ra_ok s5 /\ places after_out s5 h5 v) /\ outs o (pre_temps args []) s4 h4 s5 h5 /\
    outputs_ok after_out cs args o s (sorted_oargs cs) s5 al5 na5 /\ length na5 = length na /\ drop (length o) na5 = drop (length o) na /\
    (forall i, In i (sorted_oargs cs) -> is_alias cs i = true -> na5 !! Z.to_nat i = na !! Z.to_nat (alias_of cs i) /\ ca !! Z.to_nat (alias_of cs i) = Some false).
Proof.
  intros Os Gr I Ln [A4 P4] Fr. pose proof (places_weaken live_on after_out s4 h4 v v P4 ltac:(by intros t [? _])) as Q4. rewrite (ok_reserved s4 A4).
  assert (Al : forall i, In i (sorted_oargs cs) -> is_alias cs i = true -> exists r, alias_reg cs s4 na i r /\ ca !! Z.to_nat (alias_of cs i) = Some false).
  { intros i Ii Qi. destruct (cf_oalias _ _ _ CF i Ii Qi) as (B & Qa & Qn & Qr). apply (cf_irange _ _ _ CF) in B as Ia.
    destruct (io_in _ _ _ _ _ _ _ _ _ _ _ _ _ I _ Ia) as (t & d & x & b & O & Ex & Eb & _ & F). pose proof (op_ct _ _ _ _ _ _ _ O) as Ed. unfold ialias in Qa. rewrite Ed in Qa.
    destruct b; [by rewrite (never_const_match _ _ _ Ed Qn) in F|]. destruct F as [_ (Bx & Tx & Dx)]. specialize (Dx Qa). destruct (in_index _ B) as (j & t' & Ej & Ea & _).
    pose proof (op_arg _ _ _ _ _ _ _ O) as Ar. rewrite Ej, (arg_in j t' Ea) in Ar. injection Ar as ->. replace (alias_of cs i - len o) with (Z.of_nat j) in Dx by lia.
    exists x. split; [|done]. split; [unfold arg_at; destruct (Z.ltb_spec (alias_of cs i) 0); [unfold len in *; lia | by rewrite Ex]|]. split; [|rewrite Qr; unfold regs_at; by rewrite Ed].
    split; [lia|]. split; [apply Dx | by eapply Fr]. }
  destruct (outputs_good after_out v cs args o s (sorted_oargs cs) [] s4 h4 RESERVED na (conj A4 Q4) Gr) as (s5 & h5 & al5 & na5 & E5 & G5 & O5 & Oo5 & L5 & S5 & W5).
  - split; [exact covers_reserved | by left | done].
  - apply CF.
  - intros i j t Ii Ij Ei Ej. cbn [app] in Ii, Ij. apply (cf_orange _ _ _ CF) in Ii, Ij. destruct (out_index i Ii) as (m & t1 & -> & Em & _). destruct (out_index j Ij) as (n & t2 & -> & En & _).
    rewrite (arg_out m t1 Em) in Ei. rewrite (arg_out n t2 En) in Ej. injection Ei as ->. injection Ej as ->. f_equal. by eapply (NoDup_lookup o); [apply Os | |].
  - intros p i q. by apply (cf_oroom _ _ _ CF).
  - done.
  - intros i Ii. pose proof Ii as B. apply (cf_orange _ _ _ CF) in B. rewrite Ln, !length_app. split; [unfold len in *; lia|]. destruct (out_index i B) as (m & t & -> & Em & It). destruct (is_ct_some (Z.of_nat m)) as [d Ed]; [unfold len in *; lia|].
    destruct (os_out s Os t It) as (Ht & u & Eu & Fu). exists t, d. split; try done; [lia | by apply arg_out | by exists u | by intros [_ ?]].
  - intros i Ii Qi. destruct (cf_oalias _ _ _ CF i Ii Qi) as (B & _). split; [unfold len in *; lia|]. split; [intros Q; apply (cf_orange _ _ _ CF) in Q; lia|]. destruct (Al i Ii Qi) as (r & Hr & _). by exists r.
  - intros i j r Ii Ij Qi Qj (Ei & (B & N & _) & Ti) (Ej & _ & Tj). destruct (Z.eq_dec i j); [done|]. pose proof (cf_apart _ _ _ CF i j Ii Ij Qi Qj n) as Ov. exfalso. enough (overlap (regs_at cs i) (regs_at cs j) = true) by congruence.
    apply existsb_exists. exists r. split; [|done]. apply avail_In. split_and!; [by apply in_order | done | done].
  - exists s5, h5, al5, na5. split; [exact E5|]. split; [exact G5|]. split; [exact O5|]. split; [exact Oo5|]. split; [done|]. split.
    + apply list_eq. intros i. rewrite !lookup_drop. specialize (S5 (Z.of_nat (length o + i)) ltac:(lia)). rewrite Nat2Z.id in S5. apply S5. intros Q. apply (cf_orange _ _ _ CF) in Q. unfold len in Q. lia.
    + intros i Ii Qi. split; [by apply W5|]. destruct (Al i Ii Qi) as (_ & _ & ?). done.
Qed.

(** *** The operation *)

Lemma move_outputs_none l s na : (forall t, In t l -> 0 <= t /\ exists u, ra_temps s !! Z.to_nat t = Some u /\ fixed_reg u = false) -> (length l <= length na)%nat -> move_outputs s l na = Ok s.
Proof.
  revert na. induction l as [|t l IH]; intros na H L; [done|]. destruct na as [|r na]; [cbn in L; lia|]. cbn [move_outputs]. destruct (H t ltac:(by left)) as (Ht & u & Eu & Fu).
  destruct (Z_of_nat_complete t Ht) as [k ->]. rewrite Nat2Z.id in Eu. rewrite (temp_at_ok s k u Eu). cbn [res_bind]. rewrite Fu. cbn [andb]. apply IH; [intros x Ix; apply H; by right | cbn in L; lia].
Qed.
Lemma operands_grow s s' t : operands s -> grows s s' -> In t o -> 0 <= t /\ exists u, ra_temps s' !! Z.to_nat t = Some u /\ fixed_reg u = false.
Proof. intros Os Gr It. destruct (os_out s Os t It) as (Ht & u & Eu & Fu). split; [done|]. destruct (gr_temps _ _ Gr _ u Eu) as (u' & Eu' & Fu' & _). exists u'. split; [done | congruence]. Qed.

Lemma outputs_fit s s5 al5 na5 ca : outputs_ok after_out cs args o s (sorted_oargs cs) s5 al5 na5 -> ra_ok s5 -> operands s ->
  (forall i, In i (sorted_oargs cs) -> is_alias cs i = true -> na5 !! Z.to_nat i = na5 !! Z.to_nat (alias_of cs i) /\ ca !! Z.to_nat (alias_of cs i) = Some false) ->
  forallb (output_fits cs na5 ca) (seqZ 0 (len o)) = true /\ NoDup (take (length o) na5).
Proof.
  intros Oo A5 Os Al. assert (Q : forall j, (j < length o)%nat -> exists t d r, o !! j = Some t /\ is_ct cs (Z.of_nat j) = Ok d /\ na5 !! j = Some r /\ taken s5 t r /\ 0 <= r < 16 /\ regset_test (regs d) r = true).
  { intros j Lj. destruct (oo_out _ _ _ _ _ _ _ _ _ Oo (Z.of_nat j)) as (t & d & r & R & Er & T & B & N & _ & Tr); [apply (cf_orange _ _ _ CF); unfold len; lia|]. rewrite Nat2Z.id in Er.
    destruct (lookup_lt_is_Some_2 o j Lj) as [t' Et]. pose proof (rs_arg _ _ _ _ _ _ _ _ R) as Ar. rewrite (arg_out j t' Et) in Ar. injection Ar as ->. exists t, d, r. split_and!; try done; [apply R | lia | lia]. }
  split.
  - apply forallb_forall. intros i Ii. pose proof Ii as B. apply list_elem_of_In, elem_of_seqZ in B. apply (cf_orange _ _ _ CF) in B as Io. destruct (Q (Z.to_nat i)) as (t & d & r & Et & Ed & Er & _ & Br & Tr); [unfold len in B; lia|].
    rewrite Z2Nat.id in Ed by lia. unfold output_fits. rewrite Ed, Er, Tr. destruct (ct_has d TCG_CT_ALIAS) eqn:Ad; cbn [negb orb]; [|lia].
    destruct (Al i Io) as [A1 A2]; [unfold is_alias; by rewrite Ed|]. unfold alias_of in A1, A2. rewrite Ed in A1, A2. rewrite <- A1, Er, A2, !bool_decide_true by done. lia.
  - apply NoDup_alt. intros i j r Ei Ej. apply lookup_take_Some in Ei as [Ei Li], Ej as [Ej Lj]. destruct (Q i Li) as (t & _ & r1 & Et & _ & Er & (u & Eu & Vu & Ru & _ & Fu) & _). destruct (Q j Lj) as (t' & _ & r2 & Et' & _ & Er' & (u' & Eu' & Vu' & Ru' & _ & Fu') & _).
    assert (r1 = r) as -> by congruence. assert (r2 = r) as -> by congruence. destruct (ok_reg s5 A5 _ u Eu Vu) as [_ O1]. destruct (O1 Fu) as [O1' _]. destruct (ok_reg s5 A5 _ u' Eu' Vu') as [_ O2]. destruct (O2 Fu') as [O2' _].
    rewrite Ru in O1'. rewrite Ru', O1' in O2'. injection O2' as O2'. assert (In t o) by (apply list_elem_of_In; by eapply list_elem_of_lookup_2). assert (In t' o) by (apply list_elem_of_In; by eapply list_elem_of_lookup_2).
    destruct (os_out s Os t) as [H1 _]; [done|]. destruct (os_out s Os t') as [H2 _]; [done|]. assert (t = t') as <- by lia. eapply (NoDup_lookup o); [apply Os | done | done].
Qed.

Lemma op_good s h : good s h -> operands s -> has_flag op TCG_OPF_BB_END = false ->
  exists s5 h5 na ca, tcg_reg_alloc_op s cs op o a c dead = Ok (tcg_out s5 (OOp op na ca)) /\ emitted s h s5 h5 /\ ra_ok s5 /\ grows s s5 /\
    op_fits cs na ca (length o) (length a) = true /\ Forall2 (fun y t => held s t y (v t)) (reads h5 na ca (length o) (length a)) a /\ drop (length o + length a) na = c /\
    (forall k ts, ra_temps s5 !! k = Some ts -> live_on (Z.of_nat k) -> if fixed_reg ts then trunc (type ts) (hr h5 (reg ts)) = v (Z.of_nat k) else clob = true -> Z.of_nat k < ra_globals s -> slot h5 ts = v (Z.of_nat k)) /\
    forall h2 v2, after clob clob o (take (length o) na) v s5 h5 h2 v2 -> places (fun t => (In t o \/ live_on t) /\ held s5 t (v2 t) (v2 t)) s5 h2 v2.
Proof.
  intros G Os Nb. destruct (op_inputs s h G Os) as (s1 & h1 & al & na & ca & E1 & G1 & R1 & I1 & Ln & Lc & Dc). assert (Gr1 : grows s s1) by apply R1.
  destruct (op_prepare s s1 h1 al na ca G1 Gr1 Os I1) as (s4 & h4 & E4 & G4 & Em4 & Gr4 & H4 & Fr4 & Cl4). assert (Gr4' : grows s s4) by (by etrans).
  destruct (op_outputs s s1 h1 s4 h4 al na ca Os Gr4' I1 Ln G4 Fr4) as (s5 & h5 & al5 & na5 & E5 & G5 & O5 & Oo5 & L5 & D5 & A5). assert (Gr5 : grows s s5) by (etrans; [exact Gr4' | apply O5]).
  destruct (inputs_read s s1 h1 al na ca h5 na5 I1 Ln Lc) as [Rd If]; [intros r Hr; rewrite (ou_hr _ _ _ _ _ _ O5); by apply H4 | done|].
  destruct (outputs_fit s s5 al5 na5 ca Oo5 (proj1 G5) Os) as [Of Nd].
  { intros i Ii Qi. destruct (A5 i Ii Qi) as [-> Q]. split; [|done]. destruct (cf_oalias _ _ _ CF i Ii Qi) as (B & _). assert (Q' : Z.to_nat (alias_of cs i) = (length o + (Z.to_nat (alias_of cs i) - length o))%nat) by (unfold len in B; lia).
    rewrite Q', <- !lookup_drop, D5. done. }
  exists s5, h5, na5, ca. split.
  { unfold tcg_reg_alloc_op. rewrite E1. cbn [res_bind]. rewrite Nb. revert E4. destruct (dead_inputs s1 a 0 dead) as [s2|]; [|done]. cbn [res_bind]. intros ->. cbn [res_bind]. rewrite E5. cbn [res_bind].
    apply move_outputs_none; [intros t It; exact (operands_grow s s5 t Os Gr5 It) | rewrite L5, Ln, length_app; lia]. }
  split; [eapply emitted_trans; [apply R1|]; eapply emitted_trans; [exact Em4 | apply O5]|]. split; [apply G5|]. split; [exact Gr5|].
  split; [unfold op_fits; fold (len o); fold (len a); rewrite If, Of, bool_decide_true; done|]. split; [exact Rd|].
  split; [rewrite <- Dc; rewrite <- !drop_drop; by rewrite D5|]. split.
  - intros k ts E Lk. destruct (fixed_reg ts) eqn:Fx.
    + assert (No : ~ In (Z.of_nat k) o) by (intros Io; destruct (operands_grow s s5 _ Os Gr5 Io) as (_ & u & Eu & Fu); rewrite Nat2Z.id in Eu; congruence).
      pose proof (proj2 G5 k ts E (conj Lk No)) as L. unfold located in L. destruct (ok_fixed s5 (proj1 G5) k ts E Fx) as (V & _). rewrite V in L. apply L.
    + intros C Hk. destruct (Cl4 C) as [_ M]. pose proof (lookup_lt_Some _ _ _ E) as Lt. rewrite (gr_len _ _ (ou_grows _ _ _ _ _ _ O5)) in Lt. apply lookup_lt_is_Some in Lt as [ts4 T4].
      destruct (gr_temps _ _ (ou_grows _ _ _ _ _ _ O5) k ts4 T4) as (u & Eu & Fu & _ & _ & Mu). rewrite E in Eu. injection Eu as <-. specialize (M k Hk ts4 T4 ltac:(congruence)).
      pose proof (proj2 G4 k ts4 T4 Lk) as L. unfold located in L. rewrite M in L. destruct L as [Ma L]. destruct (Mu Ma) as [_ Ce]. rewrite (slot_cell _ _ _ Ce), (ou_hm _ _ _ _ _ _ O5 k ts4 T4 Ma); [done | left; congruence].
  - assert (Gl4 : ra_globals s4 = ra_globals s) by apply Gr4'.
    apply (after_places live_on v o (take (length o) na5) clob clob s4 s5 h5 (proj1 G4) (proj1 G5) (ou_grows _ _ _ _ _ _ O5) (fun C => proj1 (Cl4 C)) ltac:(rewrite Gl4; exact (fun C => proj2 (Cl4 C))) (proj2 G5) (ou_temps _ _ _ _ _ _ O5)).
    + intros j t Et. destruct (oo_out _ _ _ _ _ _ _ _ _ Oo5 (Z.of_nat j)) as (t' & d & r & R & Er & T & _ & N & _); [apply (cf_orange _ _ _ CF); apply lookup_lt_Some in Et; unfold len; lia|].
      pose proof (rs_arg _ _ _ _ _ _ _ _ R) as Ar. rewrite (arg_out j t Et) in Ar. injection Ar as <-. destruct (rs_temp _ _ _ _ _ _ _ _ R) as (_ & _ & _ & Ht). split; [done|]. exists r. rewrite Nat2Z.id in Er. split; [|done]. apply lookup_take_Some. split; [done | by eapply lookup_lt_Some].
    + rewrite length_take, L5, Ln, length_app. lia.
Qed.

(** *** The end of a basic block *)

Lemma mortal_grows s s' k : grows s s' -> mortal s' k = mortal s k.
Proof.
  intros Gr. unfold mortal. rewrite (gr_globals _ _ Gr). destruct (ra_temps s !! k) as [ts|] eqn:E.
  - destruct (gr_temps _ _ Gr k ts E) as (u & -> & _ & _ & -> & _). done.
  - apply lookup_ge_None in E. rewrite <- (gr_len _ _ Gr) in E. apply lookup_ge_None in E. by rewrite E.
Qed.

Lemma op_end_good s h : good s h -> operands s -> has_flag op TCG_OPF_BB_END = true -> o = [] ->
  exists s5 h5 na ca, tcg_reg_alloc_op s cs op o a c dead = Ok (tcg_out s5 (OOp op na ca)) /\ emitted s h s5 h5 /\ ra_ok s5 /\ grows s s5 /\
    op_fits cs na ca (length o) (length a) = true /\ Forall2 (fun y t => held s t y (v t)) (reads h5 na ca (length o) (length a)) a /\ drop (length o + length a) na = c /\
    places (fun t => X t /\ mortal s (Z.to_nat t) = false) s5 h5 v /\ forall k, mortal s k = false -> in_memory s5 k.
Proof.
  intros G Os Be Eo. destruct (op_inputs s h G Os) as (s1 & h1 & al & na & ca & E1 & G1 & R1 & I1 & Ln & Lc & Dc). assert (Gr1 : grows s s1) by apply R1. set (Xs := fun t => X t /\ mortal s (Z.to_nat t) = false).
  pose proof (places_weaken X Xs s1 h1 v v (proj2 G1) ltac:(by intros t [? _])) as Q1.
  destruct (bb_end_good Xs v (regset_test al) ks al (fun r _ H => H) (io_covers _ _ _ _ _ _ _ _ _ _ _ _ _ I1) (spare_room s s1 h1 al na ca I1) s1 h1 (conj (proj1 G1) Q1)) as (s5 & h5 & E5 & G5 & V5 & M5).
  { intros t [_ H]. by rewrite (mortal_grows s s1). }
  destruct (inputs_read s s1 h1 al na ca h5 na I1 Ln Lc) as [Rd If]; [intros r Hr; by apply V5 | done|].
  exists s5, h5, na, ca. split.
  { unfold tcg_reg_alloc_op. rewrite E1. cbn [res_bind]. rewrite Be, E5. cbn [res_bind]. by rewrite Eo. }
  split; [eapply emitted_trans; [apply R1 | apply V5]|]. split; [apply G5|]. split; [etrans; [exact Gr1 | by eapply ev_grows]|].
  split; [unfold op_fits; fold (len o); fold (len a); rewrite If; clear - Eo; rewrite Eo; rewrite bool_decide_true; [done | constructor]|]. split; [exact Rd|]. split; [exact Dc|]. split; [apply G5|].
  intros k Mk. apply M5. by rewrite (mortal_grows s s1).
Qed.
End Op.

End TcgRegInsn.
