(* ===== verification/TcgRegCall.v ===== *)
(** * Register allocation for calls

    The arguments of a call are where the calling convention of the host wants
    them, the function can be called from its register or constant, and the
    tables are right after any function that keeps to the convention. *)

From stdpp Require Import list sets.
From Stdlib Require Import ZifyBool.
From S2P Require Import Prelude Tcg TcgLive TcgSem TcgReg TcgRegInv TcgRegOp TcgRegArgs TcgRegInsn.

Module TcgRegCall.
Import Tcg TcgLive TcgReg TcgRegInv TcgRegOp TcgRegArgs TcgRegInsn.

(** The value of a temporary goes to a register. *)
Definition fetch (ts : Temp) (r : Z) : Host :=
  match val_type ts with
  | TEMP_VAL_REG => OMov r (reg ts)
  | TEMP_VAL_MEM => OLd (type ts) r (mem_reg ts) (mem_offset ts)
  | _ => OMovi (type ts) r (val ts)
  end.
Lemma fetch_exec h ts r x : located h ts x -> exists w, exec1 h (fetch ts r) = set_hr h r w /\ trunc (type ts) w = x.
Proof.
  intros L. pose proof (located_fits _ _ _ L) as Lf. unfold located, fetch in *. destruct (val_type ts); [done | | |]; (eexists; split; [reflexivity|]); [apply L | fold (slot h ts); by rewrite (proj2 L) | by rewrite movi_trunc].
Qed.
Lemma fetch_simple ts r : simple (fetch ts r) = true.
Proof. unfold fetch. by destruct (val_type ts). Qed.

(** Temporaries keep their types. *)
Lemma held_back s s' t y x : grows s s' -> held s' t y x -> held s t y x.
Proof. intros Gr H ts E. destruct (gr_temps _ _ Gr _ ts E) as (ts' & E' & _). rewrite <- (gr_type _ _ Gr _ ts ts' E E'). by apply H. Qed.
Lemma held_on s s' t y x : grows s s' -> held s t y x -> held s' t y x.
Proof.
  intros Gr H ts' E'. pose proof (lookup_lt_Some _ _ _ E') as L. rewrite (gr_len _ _ Gr) in L. apply lookup_lt_is_Some in L as [ts E]. rewrite (gr_type _ _ Gr _ ts ts' E E'). by apply H.
Qed.

Lemma held_at s k ts y x : ra_temps s !! k = Some ts -> trunc (type ts) y = x -> held s (Z.of_nat k) y x.
Proof. intros E H u Eu. rewrite Nat2Z.id, E in Eu. by injection Eu as <-. Qed.

Section Args.
Context (X : Z -> Prop) (v : Z -> Z).
Notation good s h := (ra_ok s /\ places X s h v).
Definition arg_known (s : RA) (t : Z) : Prop := t <> TCG_CALL_DUMMY_ARG -> X t /\ 0 <= t < len (ra_temps s).

(** *** On the stack *)

Lemma stack_arg_good keep (ks : Z -> bool) s h t off : good s h -> arg_known s t -> (forall r, keep r = false) -> (forall y, off <= y -> ks y = false) ->
  exists s' h', stack_arg s t off = Ok s' /\ good s' h' /\ ev keep ks s h s' h' /\ (t <> TCG_CALL_DUMMY_ARG -> forall ts, ra_temps s !! Z.to_nat t = Some ts -> load (type ts) h' TCG_REG_RSP off = v t).
Proof.
  intros G Ar Hk Ko. unfold stack_arg. destruct (Z.eqb_spec t TCG_CALL_DUMMY_ARG) as [->|N]; [exists s, h; split; [done|]; split; [done|]; split; [apply ev_refl | done]|].
  destruct (Ar N) as [Xt B]. destruct (Z_of_nat_complete t ltac:(lia)) as [k ->]. destruct (lookup_lt_is_Some_2 (ra_temps s) k) as [ts E]; [unfold len in B; lia|]. rewrite (temp_at_ok s k ts E). cbn [res_bind].
  pose proof (proj2 G k ts E Xt) as L. rewrite Nat2Z.id.
  assert (St : forall s1 h1 r, good s1 h1 -> ev keep ks s h s1 h1 -> trunc (type ts) (hr h1 r) = v (Z.of_nat k) -> exists s' h', Ok (tcg_out s1 (OSt (type ts) r TCG_REG_RSP off)) = Ok s' /\ good s' h' /\ ev keep ks s h s' h' /\ (Z.of_nat k <> TCG_CALL_DUMMY_ARG -> forall u, ra_temps s !! k = Some u -> load (type u) h' TCG_REG_RSP off = v (Z.of_nat k))).
  { intros s1 h1 r [A1 P1] V1 Hr. destruct (emit_stack X v keep ks s1 h1 (type ts) r off A1 P1 Ko) as (A2 & P2 & V2 & H2). eexists _, _. split; [reflexivity|]. split; [split; [exact A2 | exact P2]|]. split; [by eapply ev_trans|]. intros _ u Eu. rewrite E in Eu. injection Eu as <-. by rewrite H2. }
  assert (Ld : val_type ts <> TEMP_VAL_REG -> exists s' h', (let* (r, s) := tcg_reg_alloc s tcg_target_available_regs (reserved_regs s) in Ok (tcg_out (tcg_out s (fetch ts r)) (OSt (type ts) r TCG_REG_RSP off))) = Ok s' /\
    good s' h' /\ ev keep ks s h s' h' /\ (Z.of_nat k <> TCG_CALL_DUMMY_ARG -> forall u, ra_temps s !! k = Some u -> load (type u) h' TCG_REG_RSP off = v (Z.of_nat k))).
  { intros Nv. rewrite (ok_reserved s (proj1 G)). destruct (alloc_good X v keep ks s h tcg_target_available_regs RESERVED G covers_reserved) as (r & s1 & h1 & -> & [A1 P1] & V1 & F1 & Hh & Br & Nr & _ & _ & Un); [exists TCG_REG_RBP; split_and!; [set_solver | done | done]|]. cbn [res_bind].
    destruct (Un k ts E) as [E1 _]; [congruence|]. destruct (fetch_exec h1 ts r _ (P1 k ts E1 Xt)) as (w & Fe & Hw).
    destruct (emit_reg X v keep ks s1 h1 (fetch ts r) r _ Fe (fetch_simple ts r) A1 P1 (Hk r)) as (A2 & P2 & V2); [apply free_reg_unused; [done | lia | done | done]|].
    apply (St _ (exec1 h1 (fetch ts r))); [by split | by eapply ev_trans | by rewrite Fe, set_hr_eq]. }
  unfold fetch, located in *. destruct (val_type ts) eqn:V; [done | | by apply Ld | by apply Ld]. apply (St s h); [done | apply ev_refl | apply L].
Qed.

Lemma stack_args_good keep l s h off : good s h -> (forall t, In t l -> arg_known s t) -> (forall r, keep r = false) ->
  exists s' h', stack_args s l off = Ok s' /\ good s' h' /\ ev keep (fun x => x <? off) s h s' h' /\ forall j t, l !! j = Some t -> t <> TCG_CALL_DUMMY_ARG -> forall ts, ra_temps s !! Z.to_nat t = Some ts -> load (type ts) h' TCG_REG_RSP (off + 8 * Z.of_nat j) = v t.
Proof.
  intros G Ar Hk. revert s h off G Ar. induction l as [|t l IH]; intros s h off G Ar; [exists s, h; split; [done|]; split; [done|]; split; [apply ev_refl | done]|]. cbn [stack_args].
  destruct (stack_arg_good keep (fun x => x <? off) s h t off G (Ar t ltac:(by left)) Hk ltac:(lia)) as (s1 & h1 & -> & G1 & V1 & H1). cbn [res_bind].
  destruct (IH s1 h1 (off + 8) G1) as (s2 & h2 & -> & G2 & V2 & H2); [intros u Iu Nu; unfold len; rewrite (ev_len _ _ _ _ _ _ _ V1); apply (Ar u); [by right | done]|].
  exists s2, h2. split; [done|]. split; [exact G2|]. split; [eapply ev_trans; [exact V1|]; eapply ev_weaken; [| | |exact V2]; [done | done | intros x Hx; lia]|].
  intros [|j] u Ej Nu ts Et; [injection Ej as ->|].
  - replace (off + 8 * Z.of_nat 0) with off by lia. rewrite <- (H1 Nu ts Et). apply load_same. intros y Hy. pose proof (size_range (type ts)). apply (ev_stack _ _ _ _ _ _ _ V2). lia.
  - replace (off + 8 * Z.of_nat (S j)) with (off + 8 + 8 * Z.of_nat j) by lia. destruct (ev_temps _ _ _ _ _ _ _ V1 _ ts Et) as (ts1 & E1 & (<- & _)). by apply (H2 j u).
Qed.

(** *** In registers *)

Lemma reg_arg_good (keep : Z -> bool) ks s h t r : good s h -> X t -> 0 <= t < len (ra_temps s) -> 0 <= r < 16 -> reserved r = false -> keep r = false ->
  exists s' h', reg_arg s t r = Ok s' /\ good s' h' /\ ev keep ks s h s' h' /\ held s t (hr h' r) (v t).
Proof.
  intros G Xt B Br Nr Kr. destruct (free_good X v keep ks s h r G Br Nr) as (s1 & h1 & E1 & [A1 P1] & V1 & F1 & Hh & _). unfold reg_arg. rewrite E1. cbn [res_bind].
  destruct (Z_of_nat_complete t ltac:(lia)) as [k ->]. destruct (lookup_lt_is_Some_2 (ra_temps s1) k) as [ts E]; [rewrite (ev_len _ _ _ _ _ _ _ V1); unfold len in B; lia|]. rewrite (temp_at_ok s1 k ts E). cbn [res_bind].
  pose proof (P1 k ts E Xt) as L. destruct (fetch_exec h1 ts r _ L) as (w & Fe & Hw).
  assert (Ty : forall u, ra_temps s !! Z.to_nat (Z.of_nat k) = Some u -> type u = type ts) by (intros u Eu; rewrite Nat2Z.id in Eu; destruct (ev_temps _ _ _ _ _ _ _ V1 _ u Eu) as (u1 & E2 & (<- & _)); congruence).
  destruct (emit_reg X v keep ks s1 h1 (fetch ts r) r _ Fe (fetch_simple ts r) A1 P1 Kr) as (A2 & P2 & V2); [apply free_reg_unused; [done | lia | done | done]|].
  assert (Q : exists s' h', Ok (tcg_out s1 (fetch ts r)) = Ok s' /\ good s' h' /\ ev keep ks s h s' h' /\ held s (Z.of_nat k) (hr h' r) (v (Z.of_nat k))).
  { eexists _, _. split; [reflexivity|]. split; [split; [exact A2 | exact P2]|]. split; [by eapply ev_trans|]. intros u Eu. by rewrite (Ty u Eu), Fe, set_hr_eq. }
  unfold fetch, located in *. destruct (val_type ts) eqn:V; [done | | exact Q | exact Q]. destruct (Z.eqb_spec (reg ts) r) as [Er|]; cbn [negb]; [|exact Q].
  exists s1, h1. split; [done|]. split; [done|]. split; [done|]. intros u Eu. rewrite (Ty u Eu), <- Er. apply L.
Qed.

Lemma reg_args_good (keep : Z -> bool) ks l rs s h al : good s h -> (forall t, In t l -> arg_known s t) -> (length l <= length rs)%nat -> List.NoDup rs -> (forall r, In r rs -> 0 <= r < 16 /\ reserved r = false /\ keep r = false) -> covers al ->
  exists s' h' al', reg_args s l rs al = Ok (s', al') /\ good s' h' /\ ev keep ks s h s' h' /\ covers al' /\ (forall r, 0 <= r -> regset_test al' r = true -> regset_test al r = true \/ In r rs) /\ (forall r, 0 <= r -> regset_test al r = true -> regset_test al' r = true) /\
    forall j t r, l !! j = Some t -> rs !! j = Some r -> t <> TCG_CALL_DUMMY_ARG -> held s t (hr h' r) (v t) /\ regset_test al' r = true.
Proof.
  revert rs keep s h al. induction l as [|t l IH]; intros rs keep s h al G Ar Ll Nd Hr Ca.
  { exists s, h, al. split; [by destruct rs|]. split; [done|]. split; [apply ev_refl|]. split; [done|]. split; [by left|]. split; done. }
  destruct rs as [|r rs]; [cbn in Ll; lia|]. cbn [reg_args]. apply List.NoDup_cons_iff in Nd as [Nr Nd]. destruct (Hr r ltac:(by left)) as (Br & Nres & Kr).
  destruct (Z.eqb_spec t TCG_CALL_DUMMY_ARG) as [->|N].
  - destruct (IH rs keep s h al G) as (s' & h' & al' & -> & G' & V' & C' & A' & I' & H'); [intros u Iu; apply Ar; by right | cbn in Ll; lia | done | intros x Ix; apply Hr; by right | done|].
    exists s', h', al'. split; [done|]. split; [done|]. split; [done|]. split; [done|]. split; [intros x Hx T; destruct (A' x Hx T); [by left | right; by right]|]. split; [done|]. intros [|j] u x Ej Ex Nu; [injection Ej; congruence|]. by eapply H'.
  - destruct (Ar t ltac:(by left) N) as [Xt B]. destruct (reg_arg_good keep ks s h t r G Xt B Br Nres Kr) as (s1 & h1 & -> & G1 & V1 & H1). cbn [res_bind]. set (keep1 := fun x => keep x || (x =? r)).
    assert (Ca1 : covers (regset_set al r)) by (intros x Hx Rx; rewrite regset_set_test by lia; rewrite (Ca x Hx Rx); apply orb_true_r).
    destruct (IH rs keep1 s1 h1 (regset_set al r) G1) as (s' & h' & al' & -> & G' & V' & C' & A' & I' & H').
    + intros u Iu Nu. unfold len. rewrite (ev_len _ _ _ _ _ _ _ V1). apply (Ar u); [by right | done].
    + cbn in Ll. lia.
    + done.
    + intros x Ix. destruct (Hr x ltac:(by right)) as (Bx & Nx & Kx). split_and!; [lia.. | done|]. unfold keep1. rewrite Kx. cbn [orb]. destruct (Z.eqb_spec x r) as [->|]; done.
    + done.
    + exists s', h', al'. split; [done|]. split; [done|]. split; [eapply ev_trans; [exact V1|]; eapply ev_weaken; [| | |exact V']; [done | intros x Kx; unfold keep1; by rewrite Kx | done]|]. split; [done|].
      split; [intros x Hx T; destruct (A' x Hx T) as [Q|Q]; [|right; by right]; rewrite regset_set_test in Q by lia; apply orb_true_iff in Q as [Q|Q]; [right; left; lia | by left]|].
      split; [intros x Hx T; apply I'; [done|]; rewrite regset_set_test by lia; rewrite T; apply orb_true_r|].
      intros [|j] u x Ej Ex Nu; [injection Ej as ->; injection Ex as ->|destruct (H' j u x Ej Ex Nu) as [Hh Ht]; split; [by eapply held_back; [by eapply ev_grows|] | done]]. split; [rewrite (ev_keep _ _ _ _ _ _ _ V'); [done | unfold keep1; rewrite Z.eqb_refl; apply orb_true_r]|]. apply I'; [lia|]. rewrite regset_set_test by lia. by rewrite Z.eqb_refl.
Qed.

(** *** The function *)

Lemma func_arg_good ks s h t c al : good s h -> X t -> 0 <= t < len (ra_temps s) -> covers al -> room (regs c) al ->
  exists s' h' al' x b, func_arg s t c al = Ok (s', al', x, b) /\ good s' h' /\ ev (regset_test al) ks s h s' h' /\ held s t (holds h' x b) (v t) /\
    if b then al' = al /\ tcg_target_const_match x c = true else al' = regset_set al x /\ 0 <= x < 16 /\ regset_test (regs c) x = true.
Proof.
  intros G Xt B Ca Rm. destruct (Z_of_nat_complete t ltac:(lia)) as [k ->]. destruct (lookup_lt_is_Some_2 (ra_temps s) k) as [ts E]; [unfold len in B; lia|]. pose proof (proj2 G k ts E Xt) as L.
  assert (New : exists s' h' al' x b, (let* (r, s) := tcg_reg_alloc s (regs c) al in Ok (tcg_out s (fetch ts r), regset_set al r, r, false)) = Ok (s', al', x, b) /\ good s' h' /\ ev (regset_test al) ks s h s' h' /\ held s (Z.of_nat k) (holds h' x b) (v (Z.of_nat k)) /\
    if b then al' = al /\ tcg_target_const_match x c = true else al' = regset_set al x /\ 0 <= x < 16 /\ regset_test (regs c) x = true).
  { destruct (alloc_good X v (regset_test al) ks s h (regs c) al G Ca Rm) as (r & s1 & h1 & -> & [A1 P1] & V1 & F1 & Hh & Br & Nr & T1 & T2 & Un). cbn [res_bind].
    assert (Fe : exists w, exec1 h1 (fetch ts r) = set_hr h1 r w /\ trunc (type ts) w = v (Z.of_nat k)).
    { destruct (decide (val_type ts = TEMP_VAL_REG)) as [V|V]; [|destruct (Un k ts E) as [E1 _]; [congruence|]; exact (fetch_exec h1 ts r _ (P1 k ts E1 Xt))].
      unfold fetch, located in *. rewrite V in *. eexists. split; [reflexivity|]. by rewrite Hh, (proj1 L). }
    destruct Fe as (w & Fe & Hw).
    destruct (emit_reg X v (regset_test al) ks s1 h1 (fetch ts r) r _ Fe (fetch_simple ts r) A1 P1 T2) as (A2 & P2 & V2); [apply free_reg_unused; [done | lia | done | done]|].
    eexists _, _, _, r, false. split; [reflexivity|]. split; [split; [exact A2 | exact P2]|]. split; [by eapply ev_trans|]. cbn [holds]. split; [apply (held_at s k ts _ _ E); by rewrite Fe, set_hr_eq | done]. }
  unfold func_arg. rewrite (temp_at_ok s k ts E). cbn [res_bind]. unfold fetch, located in *. destruct (val_type ts) eqn:V; [done | | exact New|].
  - destruct (regset_test (regs c) (reg ts)) eqn:T; cbn [negb]; [|exact New]. eexists s, h, _, (reg ts), false. split; [reflexivity|]. split; [done|]. split; [apply ev_refl|]. split; [apply (held_at s k ts _ _ E), L|].
    destruct (ok_reg s (proj1 G) k ts E V) as [Bq _]. done.
  - destruct (tcg_target_const_match (val ts) c) eqn:Cm; [|exact New]. eexists s, h, al, (val ts), true. split; [reflexivity|]. split; [done|]. split; [apply ev_refl|]. split; [by apply (held_at s k ts _ _ E) | done].
Qed.

(** *** The results *)

Lemma call_outputs_good o rs s h : good s h -> (forall t, In t o -> ~ X t /\ 0 <= t /\ exists u, ra_temps s !! Z.to_nat t = Some u /\ fixed_reg u = false) -> List.NoDup o -> List.NoDup rs -> (length o <= length rs)%nat ->
  (forall r, In r rs -> free_reg s r) ->
  exists s', call_outputs s o rs = Ok s' /\ good s' h /\ grows s s' /\ code s' = code s /\ (forall k ts, ra_temps s !! k = Some ts -> ~ In (Z.of_nat k) o -> ra_temps s' !! k = Some ts) /\
    forall j t, o !! j = Some t -> exists r, rs !! j = Some r /\ taken s' t r.
Proof.
  revert rs s. induction o as [|t o IH]; intros rs s G Ho No Nr Ll Fr; [exists s; split; [by destruct rs|]; done|]. destruct rs as [|r rs]; [cbn in Ll; lia|]. cbn [call_outputs].
  apply List.NoDup_cons_iff in No as [No No'], Nr as [Nr Nr']. destruct (Ho t ltac:(by left)) as (Nx & Ht & u & Eu & Fu). destruct (Z_of_nat_complete t Ht) as [k ->]. rewrite Nat2Z.id in Eu. rewrite (temp_at_ok s k u Eu). cbn [res_bind].
  destruct (Fr r ltac:(by left)) as (Br & Nres & Fo). unfold arg_at. destruct (Z.ltb_spec r 0); [lia|]. rewrite Fo. cbn [res_bind negb Z.eqb Pos.eqb]. rewrite Fu.
  destruct (output_good X v s h k u r G Eu Fu (Fr r ltac:(by left)) Nx) as (s1 & ts1 & -> & G1 & Gr1 & C1 & Et1 & T1 & _ & _ & Fr1). cbn [res_bind].
  destruct (IH rs s1 G1) as (s2 & -> & G2 & Gr2 & C2 & K2 & O2).
  - intros t It. destruct (Ho t ltac:(by right)) as (Nt & Htt & w & Ew & Fw). split; [done|]. split; [done|]. exists w. split; [|done]. rewrite Et1, list_lookup_insert_ne; [done|]. intros Q. apply No. by replace (Z.of_nat k) with t by lia.
  - done.
  - done.
  - cbn in Ll. lia.
  - intros x Ix. apply Fr1; [apply Fr; by right|]. by intros ->.
  - exists s2. split; [done|]. split; [done|]. split; [by etrans|]. split; [congruence|]. split.
    + intros j w Ej Nj. apply K2; [rewrite Et1, list_lookup_insert_ne; [done|]; intros ->; apply Nj; by left | intros Q; apply Nj; by right].
    + intros [|j] w Ej; [|by apply O2]. injection Ej as <-. exists r. split; [done|]. destruct T1 as (w & Ew & Hw). exists w. split; [|done]. rewrite Nat2Z.id in *. by apply K2.
Qed.

Lemma addi_good keep (ks : Z -> bool) s h x : good s h -> (forall y, ks y = false) -> keep TCG_REG_RSP = false ->
  let i := OAddi TCG_REG_RSP x in good (tcg_out s i) (exec1 h i) /\ ev keep ks s h (tcg_out s i) (exec1 h i).
Proof.
  intros [A P] Hs Hk i. split; [split; [by apply ok_out|]|].
  - intros k ts E Xk. specialize (P k ts E Xk). change (ra_temps s !! k = Some ts) in E. assert (Mem : mem_allocated ts = true -> slot (exec1 h i) ts = slot h ts).
    { intros Ma. apply load_same. intros y _. cbn. pose proof (ok_stack s A k ts E Ma). by destruct (Z.eqb_spec (mem_reg ts) TCG_REG_RSP). }
    unfold located in *. destruct (val_type ts) eqn:V; [done | | destruct P; split; [done | by rewrite Mem] | done]. destruct P as [P1 P2]. split.
    + assert (reg ts <> TCG_REG_RSP). { destruct (fixed_reg ts) eqn:Fx; [by apply (ok_fixed_reg s A k ts)|]. destruct (ok_reg s A k ts E V) as [_ H]. destruct (H Fx) as [_ Nr]. intros Q. rewrite Q in Nr. done. }
      cbn. by destruct (Z.eqb_spec (reg ts) TCG_REG_RSP).
    + intros Fx Co. destruct (P2 Fx Co) as [Ma Q]. split; [done | by rewrite Mem].
  - apply ev_out; [done | |]; [|intros y Ky; by rewrite Hs in Ky]. intros r Kr. cbn. destruct (Z.eqb_spec r TCG_REG_RSP) as [->|]; [congruence | done].
Qed.
End Args.

(** ** A call *)

(** Parameter [j], of type [ty], as the function finds it. *)
Definition host_arg (h : HS) (j : nat) (ty : option Z) : Z :=
  match ty with
  | Some ty =>
      match tcg_target_call_iarg_regs !! j with
      | Some r => trunc ty (hr h r)
      | None => load ty h TCG_REG_RSP (TCG_TARGET_CALL_STACK_OFFSET + 8 * (Z.of_nat j - tcg_target_get_call_iarg_regs_count))
      end
  | None => 0
  end.
Definition host_args (h : HS) (params : list (option Z)) : list Z := imap (host_arg h) params.
Lemma param_types_grows s s' params : grows s s' -> param_types (ra_temps s') params = param_types (ra_temps s) params.
Proof.
  intros Gr. apply map_ext. intros t. destruct (t =? TCG_CALL_DUMMY_ARG); [done|]. destruct (ra_temps s !! Z.to_nat t) as [ts|] eqn:E.
  - destruct (gr_temps _ _ Gr _ ts E) as (ts' & E' & _). rewrite E'. cbn. by rewrite (gr_type _ _ Gr _ ts ts' E E').
  - apply lookup_ge_None in E. rewrite <- (gr_len _ _ Gr) in E. apply lookup_ge_None in E. by rewrite E.
Qed.

Section Call.
Context (X : Z -> Prop) (v : Z -> Z) (o params : list Z) (fn flags dead : Z) (cs : Constraints) (c : TCGArgConstraint) (Ec : is_ct cs 0 = Ok c) (Tc : regset_test (regs c) TCG_REG_RBP = true).
Notation good s h := (ra_ok s /\ places X s h v).
Notation a := (params ++ [fn]).
Notation nb_regs := (Z.min tcg_target_get_call_iarg_regs_count (len params)).

Lemma iarg_regs r : In r tcg_target_call_iarg_regs -> 0 <= r < 16 /\ reserved r = false.
Proof.
  intros I. assert (Q : forallb (fun r => (0 <=? r) && (r <? 16) && negb (reserved r)) tcg_target_call_iarg_regs = true) by done. rewrite forallb_forall in Q. specialize (Q r I).
  rewrite !andb_true_iff, negb_true_iff in Q. lia.
Qed.

Lemma call_args s h : good s h -> (forall t, In t params -> arg_known X s t) -> X fn -> 0 <= fn < len (ra_temps s) -> fn <> TCG_CALL_DUMMY_ARG ->
  exists s2 al s3 h3 al3 x b, (let* s := stack_args s (drop (Z.to_nat nb_regs) params) TCG_TARGET_CALL_STACK_OFFSET in reg_args s (take (Z.to_nat nb_regs) params) tcg_target_call_iarg_regs (reserved_regs s)) = Ok (s2, al) /\
    func_arg s2 fn c al = Ok (s3, al3, x, b) /\ good s3 h3 /\ ev (fun _ => false) (fun _ => false) s h s3 h3 /\ covers al3 /\ room tcg_target_available_regs al3 /\
    forall h6, (forall r, regset_test al3 r = true -> hr h6 r = hr h3 r) -> (forall y, hm h6 TCG_REG_RSP y = hm h3 TCG_REG_RSP y) -> host_args h6 (param_types (ra_temps s) params) = map (TcgSem.TcgSem.val v) params /\ held s fn (holds h6 x b) (v fn).
Proof.
  intros G Ar Xf Bf Nf. set (n := Z.to_nat nb_regs). assert (Hn : n = Nat.min 6 (length params)) by (unfold n, len; change tcg_target_get_call_iarg_regs_count with 6; lia).
  destruct (stack_args_good X v (fun _ => false) (drop n params) s h TCG_TARGET_CALL_STACK_OFFSET G) as (s1 & h1 & -> & G1 & V1 & H1); [intros t It; apply Ar; rewrite <- (take_drop n params); apply in_app_iff; by right | done|].
  cbn [res_bind]. rewrite (ok_reserved s1 (proj1 G1)).
  destruct (reg_args_good X v (fun _ => false) (fun _ => true) (take n params) tcg_target_call_iarg_regs s1 h1 RESERVED G1) as (s2 & h2 & al & E2 & G2 & V2 & C2 & A2 & I2 & H2).
  { intros t It. unfold arg_known, len. rewrite (ev_len _ _ _ _ _ _ _ V1). apply Ar. rewrite <- (take_drop n params). apply in_app_iff. by left. }
  { rewrite length_take. cbn. lia. }
  { apply NoDup_ListNoDup. by apply (bool_decide_unpack _). }
  { intros r Ir. destruct (iarg_regs r Ir). done. }
  { exact covers_reserved. }
  assert (Free : forall r, In r [TCG_REG_RBP; TCG_REG_RBX] -> regset_test al r = false).
  { intros r Ir. destruct (regset_test al r) eqn:T; [|done]. destruct (A2 r ltac:(destruct Ir as [<-|[<-|[]]]; done) T) as [Q|Q]; destruct Ir as [<-|[<-|[]]]; try done; cbn in Q; unfold TCG_REG_RBP, TCG_REG_RBX, TCG_REG_RDI, TCG_REG_RSI, TCG_REG_RDX, TCG_REG_RCX, TCG_REG_R8, TCG_REG_R9 in Q; lia. }
  destruct (func_arg_good X v (fun _ => true) s2 h2 fn c al G2 Xf) as (s3 & h3 & al3 & x & b & E3 & G3 & V3 & H3 & F3).
  { unfold len. rewrite (ev_len _ _ _ _ _ _ _ V2), (ev_len _ _ _ _ _ _ _ V1). exact Bf. }
  { done. }
  { exists TCG_REG_RBP. split_and!; [set_solver | done | apply Free; by left]. }
  exists s2, al, s3, h3, al3, x, b. split; [exact E2|]. split; [exact E3|]. split; [exact G3|].
  split; [eapply ev_trans; [eapply ev_weaken; [| | |exact V1]; done|]; eapply ev_trans; (eapply ev_weaken; [| | |eassumption]; done)|].
  assert (Mono : forall r, 0 <= r -> regset_test al r = true -> regset_test al3 r = true).
  { intros r Hr T. destruct b; [by destruct F3 as [-> _]|]. destruct F3 as (-> & Bx & _). rewrite regset_set_test by lia. rewrite T. apply orb_true_r. }
  split; [intros r Hr Rr; apply Mono; [done | by apply C2]|]. split.
  { destruct b; [destruct F3 as [-> _]; exists TCG_REG_RBP; split_and!; [set_solver | done | apply Free; by left]|]. destruct F3 as (-> & Bx & _).
    destruct (Z.eq_dec x TCG_REG_RBP) as [->|Nx]; [exists TCG_REG_RBX | exists TCG_REG_RBP]; (split_and!; [set_solver | done | rewrite regset_set_test by (done || lia); rewrite Free by (cbn; tauto)]); [done|]. destruct (Z.eqb_spec TCG_REG_RBP x); [congruence | done]. }
  assert (Gr12 : grows s s1 /\ grows s s2) by (split; [|etrans]; by eapply ev_grows). destruct Gr12 as [Gr1 Gr2].
  intros h6 Hr Hm. split.
  - apply list_eq. intros j. unfold host_args, param_types. rewrite list_lookup_imap. change (map ?f params) with (f <$> params). rewrite !list_lookup_fmap. destruct (params !! j) as [t|] eqn:Ej; [|done]. cbn [fmap option_fmap option_map]. f_equal. unfold TcgSem.TcgSem.val.
    destruct (Z.eqb_spec t TCG_CALL_DUMMY_ARG) as [->|Nt]; [done|]. pose proof (lookup_lt_Some _ _ _ Ej) as Lj. destruct (Ar t) as [_ Bt]; [apply list_elem_of_In; by eapply list_elem_of_lookup_2 | done|].
    destruct (lookup_lt_is_Some_2 (ra_temps s) (Z.to_nat t)) as [ts Et]; [unfold len in Bt; lia|]. rewrite Et. cbn [fmap option_fmap option_map host_arg]. destruct (tcg_target_call_iarg_regs !! j) as [r|] eqn:Er.
    + assert (Lr : (j < 6)%nat) by (apply lookup_lt_Some in Er; exact Er). destruct (H2 j t r) as [Hv T]; [rewrite lookup_take_lt by lia; done | done | done|].
      assert (Br : 0 <= r < 16) by (apply iarg_regs; apply list_elem_of_In; by eapply list_elem_of_lookup_2). rewrite Hr by (apply Mono; [lia | done]). rewrite (ev_keep _ _ _ _ _ _ _ V3 r T). by apply (held_back _ _ _ _ _ Gr1 Hv).
    + apply lookup_ge_None in Er. cbn in Er. specialize (H1 (j - n)%nat t). rewrite lookup_drop in H1. replace (n + (j - n))%nat with j in H1 by lia. rewrite <- (H1 Ej Nt ts Et). change tcg_target_get_call_iarg_regs_count with 6. replace (Z.of_nat j - 6) with (Z.of_nat (j - n)) by lia.
      apply load_same. intros y _. rewrite Hm, (ev_stack _ _ _ _ _ _ _ V3) by done. by rewrite (ev_stack _ _ _ _ _ _ _ V2) by done.
  - apply (held_back _ _ _ _ _ Gr2). intros u Eu. rewrite <- (H3 u Eu). f_equal. destruct b; [done|]. cbn [holds]. apply Hr. destruct F3 as (-> & Bx & _). rewrite regset_set_test by lia. by rewrite Z.eqb_refl.
Qed.

(** The results are not in fixed registers, and only arguments that are passed
    may die. *)
Record call_ok (s : RA) : Prop := {
  ck_params t : In t params -> arg_known X s t;
  ck_fn : X fn /\ 0 <= fn < len (ra_temps s) /\ fn <> TCG_CALL_DUMMY_ARG;
  ck_dead j t : a !! j = Some t -> IS_DEAD_IARG dead (Z.of_nat j) = true -> t <> TCG_CALL_DUMMY_ARG;
  ck_out t : In t o -> 0 <= t /\ exists u, ra_temps s !! Z.to_nat t = Some u /\ fixed_reg u = false;
  ck_nodup : List.NoDup o;
  ck_few : (length o <= 2)%nat
}.
Notation live := (live_on X a dead).
Notation const := (nz (Z.land flags TCG_CALL_CONST)).

(** Dead arguments, registers calls destroy and globals. *)
Lemma call_prepare s s3 h3 al3 : call_ok s -> good s3 h3 -> grows s s3 -> covers al3 -> room tcg_target_available_regs al3 ->
  exists s6 h6, (let* s := dead_inputs s3 a 0 dead in let* s := clobber_call_regs s in if negb const then save_globals s al3 else Ok s) = Ok s6 /\
    (ra_ok s6 /\ places live s6 h6 v) /\ emitted s3 h3 s6 h6 /\ grows s3 s6 /\ (forall r, regset_test al3 r = true -> hr h6 r = hr h3 r) /\ (forall y, hm h6 TCG_REG_RSP y = hm h3 TCG_REG_RSP y) /\
    (forall r, 0 <= r < 16 -> regset_test tcg_target_call_clobber_regs r = true -> reg_to_temp s6 !! Z.to_nat r = Some (-1)) /\ (negb const = true -> forall k, Z.of_nat k < ra_globals s6 -> in_memory s6 k).
Proof.
  intros Ck [A3 P3] Gr Ca Rm. pose proof (places_weaken X live s3 h3 v v P3 ltac:(by intros t [? _])) as Q3. set (keep := regset_test al3). set (ks := fun _ : Z => true).
  destruct (dead_inputs_good live v keep ks a 0 dead s3 h3 (conj A3 Q3)) as (s4 & -> & G4 & V4 & _).
  { intros j t Ej Dj. split; [|intros [_ K]; specialize (K j Ej); congruence]. unfold len. rewrite (gr_len _ _ Gr). pose proof (ck_dead s Ck j t Ej Dj) as Nt. apply list_elem_of_lookup_2, list_elem_of_In, in_app_iff in Ej as [It|[<-|[]]]; [by apply (ck_params s Ck t It Nt) | apply (ck_fn s Ck)]. }
  cbn [res_bind]. destruct (clobber_good live v keep ks s4 h3 G4) as (s5 & h5 & -> & G5 & V5 & H5 & F5). cbn [res_bind]. destruct (negb (nz (Z.land flags TCG_CALL_CONST))).
  - destruct (save_globals_good live v keep ks al3 (fun r _ H => H) Ca Rm s5 h5 G5) as (s6 & h6 & -> & G6 & V6 & M6). exists s6, h6. split; [done|]. split; [exact G6|].
    split; [eapply emitted_trans; [apply V4|]; eapply emitted_trans; [apply V5 | apply V6]|]. split; [etrans; [by eapply ev_grows|]; etrans; by eapply ev_grows|].
    split; [intros r Hr; rewrite (ev_keep _ _ _ _ _ _ _ V6 r Hr), H5; done|]. split; [intros y; rewrite (ev_stack _ _ _ _ _ _ _ V6 y eq_refl); by apply V5|].
    split; [intros r B T; apply (ev_free _ _ _ _ _ _ _ V6); by apply F5|]. intros _ k Hk. apply M6. by rewrite (ev_globals _ _ _ _ _ _ _ V6) in Hk.
  - exists s5, h5. split; [done|]. split; [exact G5|]. split; [eapply emitted_trans; [apply V4 | apply V5]|]. split; [etrans; by eapply ev_grows|]. split; [intros r _; by rewrite H5|]. split; [intros y; by apply V5|]. split; [exact F5 | done].
Qed.

Notation oregs := (take (length o) tcg_target_call_oarg_regs).

Lemma oarg_regs r : In r tcg_target_call_oarg_regs -> 0 <= r < 16 /\ regset_test tcg_target_call_clobber_regs r = true.
Proof. intros [<-|[<-|[]]]; done. Qed.

Lemma call_good s h : good s h -> call_ok s ->
  exists s6 h6 x b tail s', tcg_reg_alloc_call s cs o a flags dead = Ok s' /\ emitted s h s6 h6 /\ code s' = code s6 ++ OCall x b flags (param_types (ra_temps s) params) :: tail /\ forallb simple tail = true /\ ra_ok s' /\ grows s s' /\
    host_args h6 (param_types (ra_temps s) params) = map (TcgSem.TcgSem.val v) params /\ held s fn (holds h6 x b) (v fn) /\
    (forall k ts, ra_temps s' !! k = Some ts -> live (Z.of_nat k) -> if fixed_reg ts then trunc (type ts) (hr h6 (reg ts)) = v (Z.of_nat k) else negb const = true -> Z.of_nat k < ra_globals s -> slot h6 ts = v (Z.of_nat k)) /\
    forall h2 v2, after true (negb const) o oregs v s' h6 h2 v2 -> places (fun t => (In t o \/ live t) /\ held s' t (v2 t) (v2 t)) s' (execs tail h2) v2.
Proof.
  intros G Ck. set (size := Z.land ((len params - nb_regs) * 8 + TCG_TARGET_STACK_ALIGN - 1) (Z.lnot (TCG_TARGET_STACK_ALIGN - 1))). set (big := TCG_STATIC_CALL_ARGS_SIZE <? size).
  assert (H0 : exists s0 h0, (if big then tcg_out s (OAddi TCG_REG_RSP (- size)) else s) = s0 /\ good s0 h0 /\ ev (fun _ => false) (fun _ => false) s h s0 h0).
  { destruct big; [|exists s, h; split; [done|]; split; [done | apply ev_refl]]. eexists _, _. split; [reflexivity|]. by apply addi_good. }
  destruct H0 as (s0 & h0 & E0 & G0 & V0). assert (Gr0 : grows s s0) by (by eapply ev_grows). destruct (ck_fn s Ck) as (Xf & Bf & Nf).
  destruct (call_args s0 h0 G0) as (s2 & al & s3 & h3 & al3 & x & b & E2 & E3 & G3 & V3 & C3 & R3 & H3); [intros t It Nt; unfold len; rewrite (gr_len _ _ Gr0); by apply (ck_params s Ck) | done | unfold len; by rewrite (gr_len _ _ Gr0) | done|].
  assert (Gr3 : grows s s3) by (etrans; [exact Gr0 | by eapply ev_grows]).
  destruct (call_prepare s s3 h3 al3 Ck G3 Gr3 C3 R3) as (s6 & h6 & E6 & [A6 P6] & Em6 & Gr6 & Hr6 & Hm6 & F6 & M6). assert (Gr36 : grows s s6) by (by etrans).
  set (tail := if big then [OAddi TCG_REG_RSP size] else []). set (s7 := s6 <| code := code s6 ++ OCall x b flags (param_types (ra_temps s) params) :: tail |>).
  assert (A7 : ra_ok s7) by (by destruct A6; split). set (Y := fun t => live t /\ ~ In t o).
  assert (P7 : places Y s7 h6 v) by (intros k ts E [L _]; by apply P6).
  assert (Gr7 : grows s6 s7) by (split; try done; [by exists (OCall x b flags (param_types (ra_temps s) params) :: tail) | intros k ts E; by exists ts | intros k ts ts' E; cbn; congruence]).
  destruct (call_outputs_good Y v o tcg_target_call_oarg_regs s7 h6 (conj A7 P7)) as (s' & E' & G' & Gr' & C' & K' & O').
  { intros t It. destruct (ck_out s Ck t It) as (Ht & u & Eu & Fu). split; [by intros [_ ?]|]. split; [done|]. destruct (gr_temps _ _ Gr36 _ u Eu) as (u' & Eu' & Fu' & _). exists u'. split; [done | congruence]. }
  { apply (ck_nodup s Ck). }
  { apply NoDup_ListNoDup. by apply (bool_decide_unpack _). }
  { apply (ck_few s Ck). }
  { intros r Ir. destruct (oarg_regs r Ir) as [B T]. split; [done|]. split; [by apply clobber_reserved | by apply F6]. }
  assert (Gr'' : grows s s') by (etrans; [exact Gr36|]; by etrans).
  assert (Same : forall k ts, ra_temps s' !! k = Some ts -> ~ In (Z.of_nat k) o -> ra_temps s6 !! k = Some ts).
  { intros k ts E No. pose proof (lookup_lt_Some _ _ _ E) as Lt. rewrite (gr_len _ _ Gr') in Lt. apply lookup_lt_is_Some in Lt as [u Eu]. pose proof (K' k u Eu No) as E1. rewrite E in E1. injection E1 as <-. exact Eu. }
  exists s6, h6, x, b, tail, s'. split.
  { unfold tcg_reg_alloc_call. assert (La : len a - 1 = len params) by (unfold len; rewrite length_app; cbn; lia). rewrite La. fold size. fold big. rewrite E0. rewrite (take_app_length' params [fn]) by (unfold len; lia).
    revert E2. destruct (stack_args s0 _ _) as [s1|]; [|done]. cbn [res_bind]. intros ->. cbn [res_bind]. assert (Ef : arg_at a (len params) = Ok fn) by (unfold arg_at, len; destruct (Z.ltb_spec (Z.of_nat (length params)) 0); [lia|]; rewrite Nat2Z.id, lookup_app_r, Nat.sub_diag by lia; done).
    rewrite Ef. cbn [res_bind]. rewrite Ec. cbn [res_bind]. rewrite E3. cbn [res_bind]. revert E6. destruct (dead_inputs s3 a 0 dead) as [s4|]; [|done]. cbn [res_bind]. destruct (clobber_call_regs s4) as [s5|]; [|done]. cbn [res_bind]. intros ->. cbn [res_bind].
    rewrite <- E'. f_equal. rewrite (param_types_grows s s6) by done. unfold s7, tail, tcg_out. destruct big; [|done]. cbn. by rewrite <- app_assoc. }
  split; [eapply emitted_trans; [apply V0|]; eapply emitted_trans; [apply V3 | exact Em6]|]. split; [exact C'|]. split; [unfold tail; by destruct big|]. split; [apply G'|]. split; [exact Gr''|].
  rewrite (param_types_grows s s0) in H3 by done. destruct (H3 h6 Hr6 Hm6) as [H3a H3b]. split; [done|]. split; [by apply (held_back _ _ _ _ _ Gr0)|]. split.
  - intros k ts E Lk. destruct (fixed_reg ts) eqn:Fx.
    + assert (No : ~ In (Z.of_nat k) o). { intros Io. destruct (ck_out s Ck _ Io) as (_ & u & Eu & Fu). rewrite Nat2Z.id in Eu. destruct (gr_temps _ _ Gr'' k u Eu) as (u' & Eu' & Fu' & _). congruence. }
      pose proof (Same k ts E No) as E6'. pose proof (P6 k ts E6' Lk) as L. unfold located in L. destruct (ok_fixed s6 A6 k ts E6' Fx) as (V & _). rewrite V in L. apply L.
    + intros Cg Hk. pose proof (lookup_lt_Some _ _ _ E) as Lt. rewrite (gr_len _ _ Gr') in Lt. apply lookup_lt_is_Some in Lt as [u Eu]. change (ra_temps s6 !! k = Some u) in Eu. destruct (gr_temps _ _ Gr' k u Eu) as (u' & Eu' & Fu' & _ & _ & Mu). rewrite E in Eu'. injection Eu' as <-.
      assert (Hk6 : Z.of_nat k < ra_globals s6) by (by rewrite (gr_globals _ _ Gr36)). specialize (M6 Cg k Hk6 u Eu ltac:(congruence)). pose proof (P6 k u Eu Lk) as L. unfold located in L. rewrite M6 in L. destruct L as [Ma L]. destruct (Mu Ma) as [_ Ce]. by rewrite (slot_cell _ _ _ Ce).
  - intros h2 v2 Af. assert (P2 : places (fun t => (In t o \/ live t) /\ held s' t (v2 t) (v2 t)) s' h2 v2).
    { refine (after_places live v o oregs true (negb const) s6 s' h6 A6 (proj1 G') ltac:(by etrans) (fun _ => F6) M6 (proj2 G') _ _ _ h2 v2 Af).
      - intros k ts E No. exists ts. split; [by apply K' | apply moved_refl].
      - intros j t Ej. destruct (ck_out s Ck t) as [Ht _]; [apply list_elem_of_In; by eapply list_elem_of_lookup_2|]. split; [done|]. destruct (O' j t Ej) as (r & Er & T). exists r. split_and!; [apply lookup_take_Some; split; [done | by eapply lookup_lt_Some] | done|].
        destruct (oarg_regs r) as [B Tr]; [apply list_elem_of_In; by eapply list_elem_of_lookup_2|]. by apply clobber_reserved.
      - rewrite length_take. pose proof (ck_few s Ck). cbn. lia. }
    unfold tail. destruct big; [|exact P2]. apply (addi_good _ v2 (fun _ => false) (fun _ => false) s' h2 size); [split; [apply G' | exact P2] | done | done].
Qed.
End Call.

End TcgRegCall.
