(* ===== verification/TcgHost.v ===== *)
(** * Host code of a block

    A semantics of the host operations the register allocator emits, for any
    meaning of the operations of the intermediate code, and the proof that the
    code generated for a block does what the block does. *)

From stdpp Require Import list sets relations.
From Stdlib Require Import ZifyBool.
From S2P Require Import Prelude Tcg TcgLive TcgSem TcgReg TcgRegInv TcgRegOp TcgRegArgs TcgRegInsn TcgRegCall.

Module TcgHost.
Import Tcg TcgLive TcgReg TcgRegInv TcgRegOp TcgRegArgs TcgRegInsn TcgRegCall.
Import TcgSem.TcgSem.
Notation val := TcgSem.TcgSem.val.

(** ** Host code *)

Inductive HStep (W : Type) :=
| HNext (pc : nat) (h : HS) (w : W)
| HStop (o : Outcome W).
Arguments HNext {W}. Arguments HStop {W}.

Fixpoint set_regs (h : HS) (rs vs : list Z) : HS :=
  match rs with
  | [] => h
  | r :: rs => set_regs (set_hr h r (hd 0 vs)) rs (tl vs)
  end.

Definition host_label (l : Z) (i : Host) : bool := match i with OLabel k => k =? l | _ => false end.
Fixpoint find_host_label (c : list Host) (l : Z) : option nat :=
  match c with
  | [] => None
  | i :: c => if host_label l i then Some 0%nat else S <$> find_host_label c l
  end.

(** The types of the inputs of operations: those the name says, pointers for the
    addresses of [ld] and [st], the addresses and values of a 32-bit guest for its
    accesses.  Extensions are given values of either type (tcg_gen_extu_i32_i64):
    they read the low half. *)
Definition is_i64 (op : TCGOpcode) : bool :=
  match op with
  | INDEX_op_add_i64 | INDEX_op_mul_i64 | INDEX_op_sub_i64 | INDEX_op_and_i64 | INDEX_op_or_i64 | INDEX_op_xor_i64
  | INDEX_op_div2_i64 | INDEX_op_divu2_i64 | INDEX_op_shl_i64 | INDEX_op_shr_i64 | INDEX_op_sar_i64 | INDEX_op_rotl_i64 | INDEX_op_rotr_i64
  | INDEX_op_brcond_i64 | INDEX_op_bswap16_i64 | INDEX_op_bswap32_i64 | INDEX_op_bswap64_i64 | INDEX_op_neg_i64 | INDEX_op_not_i64
  | INDEX_op_ld8u_i64 | INDEX_op_ld8s_i64 | INDEX_op_ld16u_i64 | INDEX_op_ld16s_i64 | INDEX_op_ld32u_i64 | INDEX_op_ld32s_i64 | INDEX_op_ld_i64
  | INDEX_op_st8_i64 | INDEX_op_st16_i64 | INDEX_op_st32_i64 | INDEX_op_st_i64 | INDEX_op_jmp | INDEX_op_mov_i64 | INDEX_op_movi_i64 => true
  | _ => false
  end.
Definition op_type (op : TCGOpcode) : Z := if is_i64 op then TCG_TYPE_I64 else TCG_TYPE_I32.
Definition reads_low (op : TCGOpcode) : bool :=
  match op with
  | INDEX_op_ext8s_i64 | INDEX_op_ext16s_i64 | INDEX_op_ext32s_i64 | INDEX_op_ext8u_i64 | INDEX_op_ext16u_i64 | INDEX_op_ext32u_i64 => true
  | _ => false
  end.
Definition op_itypes (op : TCGOpcode) : list Z :=
  match op with
  | INDEX_op_ld8u_i32 | INDEX_op_ld8s_i32 | INDEX_op_ld16u_i32 | INDEX_op_ld16s_i32 | INDEX_op_ld_i32 => [TCG_TYPE_I64]
  | INDEX_op_st8_i32 | INDEX_op_st16_i32 | INDEX_op_st_i32 => [TCG_TYPE_I32; TCG_TYPE_I64]
  | INDEX_op_qemu_st64 => [TCG_TYPE_I64; TCG_TYPE_I32]
  | _ => replicate (Z.to_nat (nb_iargs (tcg_op_defs op))) (op_type op)
  end.

Section Host.
Context {W : Type} (mn : Meaning W).
(** The globals of the block, and what a call leaves in registers it may destroy
    and on the stack. *)
Context (gts : list Temp) (junk : HS -> HS).

Definition global_at (h : HS) (ts : Temp) : Z := if fixed_reg ts then trunc (type ts) (hr h (reg ts)) else slot h ts.
Definition host_globals (h : HS) : list Z := map (global_at h) gts.
Fixpoint put_globals (l : list Temp) (gs : list Z) (h : HS) : HS :=
  match l with
  | [] => h
  | ts :: l => put_globals l (tl gs) (if fixed_reg ts then h else store (type ts) h (mem_reg ts) (mem_offset ts) (hd 0 gs))
  end.
Definition clobber (h : HS) : HS :=
  mkHS (fun r => if regset_test tcg_target_call_clobber_regs r then hr (junk h) r else hr h r) (fun b y => if b =? TCG_REG_RSP then hm (junk h) b y else hm h b y).

(** An operation is carried out when its operands are such as the encoder takes,
    and reads as much of them as its types say;
    the code for a guest access calls a function, as a call does. *)
Definition host_op_step (code : list Host) (pc : nat) (op : TCGOpcode) (na : list Z) (ca : list bool) (h : HS) (w : W) : option (HStep W) :=
  match tcg_add_target_add_op_defs op with
  | Fail _ => None
  | Ok cs =>
      let no := Z.to_nat (nb_oargs (tcg_op_defs op)) in
      let ni := Z.to_nat (nb_iargs (tcg_op_defs op)) in
      let ins := zip_with trunc (op_itypes op) (reads h na ca no ni) in
      let c := drop (no + ni) na in
      if negb (op_fits cs na ca no ni) then None
      else if has_flag op TCG_OPF_BB_END then
        let '(w', k) := m_control mn op ins c w in
        Some match k with
             | CNext => HNext (S pc) h w'
             | CLabel l => match find_host_label code l with Some j => HNext (S j) h w' | None => HStop (OFell w') end
             | CLeave => HStop (OLeave (ins ++ c) w' (host_globals h))
             end
      else if has_flag op TCG_OPF_CALL_CLOBBER then
        let '(w', gs, vs, leave) := m_access mn op ins c w (host_globals h) in
        Some (if leave : bool then HStop (OLeave ins w' gs) else HNext (S pc) (set_regs (put_globals gts gs (clobber h)) (take no na) vs) w')
      else if has_flag op TCG_OPF_SIDE_EFFECTS then
        let '(w', vs) := m_effect mn op ins c w in Some (HNext (S pc) (set_regs h (take no na) vs) w')
      else Some (HNext (S pc) (set_regs h (take no na) (m_pure mn op ins c w)) w)
  end.

Definition hstep (code : list Host) (pc : nat) (h : HS) (w : W) : option (HStep W) :=
  match code !! pc with
  | None => Some (HStop (OFell w))
  | Some (OLabel _) => Some (HNext (S pc) h w)
  | Some (OOp op na ca) => host_op_step code pc op na ca h w
  | Some (OCall x b fl params) =>
      let '(w', gs, vs, leave) := m_call mn fl (host_args h params ++ [trunc TCG_TYPE_I64 (holds h x b)]) w (host_globals h) in
      Some (if leave : bool then HStop (OLeave [] w' gs) else HNext (S pc) (set_regs (put_globals gts gs (clobber h)) tcg_target_call_oarg_regs vs) w')
  | Some i => Some (HNext (S pc) (exec1 h i) w)
  end.

(** [n] steps: the outcome, if the block has been left. *)
Fixpoint hrun (n : nat) (code : list Host) (pc : nat) (h : HS) (w : W) : option (Outcome W) :=
  match n with
  | O => None
  | S n => match hstep code pc h w with Some (HStop o) => Some o | Some (HNext pc h w) => hrun n code pc h w | None => None end
  end.

Definition hcfg : Type := nat * HS * W.
Definition hgo (code : list Host) (a b : hcfg) : Prop := hstep code a.1.1 a.1.2 a.2 = Some (HNext b.1.1 b.1.2 b.2).
Lemma hgo_run code a b o n : rtc (hgo code) a b -> hrun n code b.1.1 b.1.2 b.2 = Some o -> exists m, hrun m code a.1.1 a.1.2 a.2 = Some o.
Proof. induction 1 as [a|a b c H _ IH]; intros R; [by exists n|]. destruct (IH R) as [m Hm]. exists (S m). cbn. by rewrite H. Qed.

(** Simple operations run through. *)
Lemma run_simple code c pc h w : take (length c) (drop pc code) = c -> forallb simple c = true -> rtc (hgo code) (pc, h, w) ((pc + length c)%nat, execs c h, w).
Proof.
  revert pc h. induction c as [|i c IH]; intros pc h E F; [rewrite Nat.add_0_r; apply rtc_refl|]. cbn in F. apply andb_prop in F as [Si F].
  destruct (code !! pc) as [x|] eqn:Ex; [|apply lookup_ge_None in Ex; rewrite drop_ge in E by done; by destruct i]. rewrite (drop_S _ _ _ Ex) in E. cbn in E. injection E as -> E.
  eapply rtc_l; [|replace (pc + length (i :: c))%nat with (S pc + length c)%nat by (cbn; lia); by apply IH]. unfold hgo. cbn. unfold hstep. rewrite Ex. by destruct i.
Qed.

(** ** What operations and calls do to the places of temporaries *)

Lemma set_regs_other h rs vs x : ~ In x rs -> hr (set_regs h rs vs) x = hr h x.
Proof. revert h vs. induction rs as [|r rs IH]; intros h vs N; [done|]. cbn [set_regs]. rewrite IH by (intros Q; apply N; by right). apply set_hr_ne. intros ->. apply N. by left. Qed.
Lemma set_regs_hm h rs vs : hm (set_regs h rs vs) = hm h.
Proof. revert h vs. induction rs as [|r rs IH]; intros h vs; [done|]. cbn [set_regs]. by rewrite IH. Qed.
Lemma set_regs_nth h rs vs j r : NoDup rs -> rs !! j = Some r -> hr (set_regs h rs vs) r = nth j vs 0.
Proof.
  revert h vs j. induction rs as [|x rs IH]; intros h vs j Nd E; [done|]. apply list.NoDup_cons in Nd as [N Nd]. destruct j as [|j]; cbn [set_regs].
  - injection E as ->. rewrite set_regs_other by (by intros Q%list_elem_of_In). rewrite set_hr_eq. by destruct vs.
  - rewrite (IH _ _ j Nd E). by destruct vs, j.
Qed.
Lemma set_outs_nth v o vs j t : NoDup o -> o !! j = Some t -> set_outs v o vs t = nth j vs 0.
Proof.
  revert v vs j. induction o as [|x o IH]; intros v vs j Nd E; [done|]. apply list.NoDup_cons in Nd as [N Nd]. destruct j as [|j]; cbn [set_outs].
  - injection E as ->. rewrite set_outs_other by done. unfold TcgSem.TcgSem.upd. rewrite Z.eqb_refl. by destruct vs.
  - rewrite (IH _ _ j Nd E). by destruct vs, j.
Qed.

Lemma after_pure o ro v s h vs : NoDup o -> NoDup ro -> after false false o ro v s h (set_regs h ro vs) (set_outs v o vs).
Proof.
  intros No Nr. split.
  - intros r _ N _. by apply set_regs_other.
  - intros j t r Et Er. by rewrite (set_regs_nth h ro vs j r Nr Er), (set_outs_nth v o vs j t No Et).
  - intros k ts _ _ _. apply load_same. intros y _. by rewrite set_regs_hm.
  - intros k ts _ N _. apply set_outs_other. by intros Q%list_elem_of_In.
  - done.
Qed.

(** *** Globals *)

(** The globals the host knows are those of the tables. *)
Record linked (s : RA) : Prop := {
  lk_len : len gts = ra_globals s;
  lk_temp k g : gts !! k = Some g -> exists ts, ra_temps s !! k = Some ts /\ fixed_reg ts = fixed_reg g /\ (fixed_reg g = true -> reg ts = reg g) /\ (fixed_reg g = false -> mem_allocated ts = true /\ cell ts = cell g) /\ type ts = type g
}.
Lemma linked_grows s s' : linked s -> grows s s' -> linked s'.
Proof.
  intros [L T] Gr. split; [by rewrite (gr_globals _ _ Gr)|]. intros k g Eg. destruct (T k g Eg) as (ts & E & F & R & M & Ty). destruct (gr_temps _ _ Gr k ts E) as (ts' & E' & F' & R' & _ & M'). exists ts'. split_and!; [done | congruence | | |].
  - intros Fg. rewrite R' by congruence. by apply R.
  - intros Fg. destruct (M Fg) as [Ma C]. destruct (M' Ma) as [Ma' C']. split; [done | congruence].
  - by rewrite (gr_type _ _ Gr k ts ts' E E').
Qed.

Lemma put_globals_hr l gs h : hr (put_globals l gs h) = hr h.
Proof. revert gs h. induction l as [|ts l IH]; intros gs h; [done|]. cbn [put_globals]. rewrite IH. by destruct (fixed_reg ts). Qed.
Lemma put_globals_other l gs h u : (forall ts, In ts l -> fixed_reg ts = false -> ~ meets u ts) -> slot (put_globals l gs h) u = slot h u.
Proof.
  revert gs h. induction l as [|ts l IH]; intros gs h N; [done|]. cbn [put_globals]. rewrite IH by (intros x Ix; apply N; by right). destruct (fixed_reg ts) eqn:F; [done|].
  specialize (N ts ltac:(by left) F). apply store_slot. unfold meets in N. lia.
Qed.
Lemma put_globals_nth l gs h k ts : (forall i j t u, l !! i = Some t -> l !! j = Some u -> fixed_reg t = false -> fixed_reg u = false -> meets t u -> i = j) -> l !! k = Some ts -> fixed_reg ts = false ->
  slot (put_globals l gs h) ts = trunc (type ts) (nth k gs 0).
Proof.
  revert gs h k. induction l as [|u l IH]; intros gs h k Inj E F; [done|]. cbn [put_globals]. destruct k as [|k].
  - injection E as ->. rewrite put_globals_other; [rewrite F; unfold slot; rewrite load_store; by destruct gs|]. intros u Iu Fu Q. apply list_elem_of_In, list_elem_of_lookup in Iu as [j Ej].
    enough (0%nat = S j) by done. by apply (Inj 0%nat (S j) ts u).
  - rewrite (IH _ _ k); [by destruct gs, k | | done | done]. intros i j t w Ei Ej Ft Fw C. enough (S i = S j) by congruence. by apply (Inj (S i) (S j) t w).
Qed.

Lemma gts_distinct s : ra_ok s -> linked s -> forall i j t u, gts !! i = Some t -> gts !! j = Some u -> fixed_reg t = false -> fixed_reg u = false -> meets t u -> i = j.
Proof.
  intros A L i j t u Ei Ej Ft Fu C. destruct (lk_temp s L i t Ei) as (ti & Ti & _ & _ & Mi & _). destruct (lk_temp s L j u Ej) as (tj & Tj & _ & _ & Mj & _). destruct (Mi Ft) as [Ma Ca], (Mj Fu) as [Mb Cb].
  apply (ok_cells s A i j ti tj); [done | done | done | done|]. by eapply meets_cell; [symmetry; exact Ca | symmetry; exact Cb|].
Qed.
Lemma global_meets s k ts j g : ra_ok s -> linked s -> ra_temps s !! k = Some ts -> mem_allocated ts = true -> gts !! j = Some g -> fixed_reg g = false -> meets ts g -> k = j.
Proof.
  intros A L E M Ej Fg C. destruct (lk_temp s L j g Ej) as (u & Eu & _ & _ & Mu & _). destruct (Mu Fg) as [Ma Ca]. apply (ok_cells s A k j ts u); [done | done | done | done|]. by eapply meets_cell; [reflexivity | symmetry; exact Ca|].
Qed.
Lemma other_cell s k ts : ra_ok s -> linked s -> ra_temps s !! k = Some ts -> mem_allocated ts = true -> ra_globals s <= Z.of_nat k -> forall g, In g gts -> fixed_reg g = false -> ~ meets ts g.
Proof.
  intros A L E M Hk g Ig Fg C. apply list_elem_of_In, list_elem_of_lookup in Ig as [j Ej]. assert (k = j) as -> by (by eapply global_meets). apply lookup_lt_Some in Ej. pose proof (lk_len s L) as Ll. unfold len in Ll. lia.
Qed.

Lemma clobber_hm s h k ts : ra_ok s -> ra_temps s !! k = Some ts -> mem_allocated ts = true -> slot (clobber h) ts = slot h ts.
Proof. intros A E M. apply load_same. intros y _. cbn. pose proof (ok_stack s A k ts E M). by destruct (Z.eqb_spec (mem_reg ts) TCG_REG_RSP). Qed.
Lemma set_regs_slot h rs vs ts : slot (set_regs h rs vs) ts = slot h ts.
Proof. apply load_same. intros y _. by rewrite set_regs_hm. Qed.

Section Called.
Context (ctx : TCGContext) (o ro rs : list Z) (v : Z -> Z) (s : RA) (h : HS) (A : ra_ok s) (Lk : linked s) (Ng : nb_globals ctx = ra_globals s) (No : NoDup o) (Nr : NoDup rs) (Lo : length ro = length o)
  (Hpre : forall j r, ro !! j = Some r -> rs !! j = Some r) (Hrs : forall r, In r rs -> In r ro \/ regset_test tcg_target_call_clobber_regs r = true).

Lemma called_regs gs vs r : 0 <= r < 16 -> ~ In r ro -> regset_test tcg_target_call_clobber_regs r = false -> hr (set_regs (put_globals gts gs (clobber h)) rs vs) r = hr h r.
Proof. intros B N C. rewrite set_regs_other, put_globals_hr; [unfold clobber; cbn [hr]; by rewrite C|]. intros Q. destruct (Hrs r Q); [done | congruence]. Qed.
Lemma called_out gs vs v1 j t r : o !! j = Some t -> ro !! j = Some r -> hr (set_regs (put_globals gts gs (clobber h)) rs vs) r = set_outs v1 o vs t.
Proof. intros Et Er. by rewrite (set_regs_nth _ rs vs j r Nr (Hpre j r Er)), (set_outs_nth v1 o vs j t No Et). Qed.
Lemma global_index k ts : ra_temps s !! k = Some ts -> Z.of_nat k < ra_globals s -> exists g, gts !! k = Some g /\ fixed_reg ts = fixed_reg g /\ (fixed_reg g = true -> reg ts = reg g) /\ (fixed_reg g = false -> mem_allocated ts = true /\ cell ts = cell g) /\ type ts = type g.
Proof.
  intros E Hk. pose proof (lk_len s Lk) as L. unfold len in L. destruct (lookup_lt_is_Some_2 gts k) as [g Eg]; [lia|]. destruct (lk_temp s Lk k g Eg) as (u & Eu & H). rewrite E in Eu. injection Eu as <-. by exists g.
Qed.
Lemma set_globals_other v1 gs t : ra_globals s <= t -> set_globals ctx v1 gs t = v1 t.
Proof. intros H. unfold set_globals. rewrite Ng. destruct (Z.ltb_spec t (ra_globals s)); [lia|]. by rewrite andb_false_r. Qed.
Lemma set_globals_nth v1 gs k : Z.of_nat k < ra_globals s -> set_globals ctx v1 gs (Z.of_nat k) = nth k gs 0.
Proof. intros H. unfold set_globals. rewrite Ng. destruct (Z.leb_spec 0 (Z.of_nat k)); [|lia]. destruct (Z.ltb_spec (Z.of_nat k) (ra_globals s)); [|lia]. cbn. by rewrite Nat2Z.id. Qed.

Lemma after_called gs vs : (forall k g, gts !! k = Some g -> fixed_reg g = true -> nth k gs 0 = v (Z.of_nat k)) ->
  after true true o ro v s h (set_regs (put_globals gts gs (clobber h)) rs vs) (set_outs (set_globals ctx v gs) o vs).
Proof.
  intros Fg. split.
  - intros r B N C. apply called_regs; auto.
  - intros j t r. apply called_out.
  - intros k ts E M Hk. rewrite set_regs_slot, put_globals_other; [by apply (clobber_hm s h k) | apply (other_cell s k); auto].
  - intros k ts E N H. rewrite set_outs_other by (by intros Q%list_elem_of_In). destruct (decide (Z.of_nat k < ra_globals s)) as [Hk|Hk]; [|apply set_globals_other; lia].
    rewrite set_globals_nth by done. destruct (global_index k ts E Hk) as (g & Eg & F & _). destruct (H eq_refl) as [?|Fx]; [lia|]. apply (Fg k g Eg). congruence.
  - intros k ts _ E Hk Fx N. rewrite set_regs_slot, set_outs_other by (by intros Q%list_elem_of_In). rewrite set_globals_nth by done. destruct (global_index k ts E Hk) as (g & Eg & F & _ & M & Ty). destruct (M ltac:(congruence)) as [_ Ce]. rewrite (slot_cell _ _ _ Ce), Ty.
    apply put_globals_nth; [by apply (gts_distinct s) | done | congruence].
Qed.

Lemma put_same k ts vs : ra_temps s !! k = Some ts -> mem_allocated ts = true -> slot (set_regs (put_globals gts (host_globals h) (clobber h)) rs vs) ts = slot h ts.
Proof.
  intros E M. rewrite set_regs_slot. destruct (decide (Z.of_nat k < ra_globals s)) as [Hk|Hk]; [|rewrite put_globals_other; [by apply (clobber_hm s h k) | apply (other_cell s k); auto; lia]].
  destruct (global_index k ts E Hk) as (g & Eg & F & _ & Mg & Ty). destruct (fixed_reg g) eqn:Fg.
  - rewrite put_globals_other; [by apply (clobber_hm s h k)|]. intros u Iu Fu C. apply list_elem_of_In, list_elem_of_lookup in Iu as [j Ej]. assert (k = j) as -> by (by eapply global_meets). congruence.
  - destruct (Mg eq_refl) as [_ Ce]. rewrite !(slot_cell _ _ _ Ce), (put_globals_nth gts _ _ k g (gts_distinct s A Lk) Eg Fg). unfold host_globals. rewrite nth_lookup. change (map ?f gts) with (f <$> gts). rewrite list_lookup_fmap, Eg. cbn. unfold global_at. rewrite Fg. apply slot_fits.
Qed.

Lemma after_const vs : after true false o ro v s h (set_regs (put_globals gts (host_globals h) (clobber h)) rs vs) (set_outs (set_globals ctx v (globals ctx v)) o vs).
Proof.
  split.
  - intros r B N C. apply called_regs; auto.
  - intros j t r. apply called_out.
  - intros k ts E M _. by apply (put_same k).
  - intros k ts E N _. rewrite set_outs_other by (by intros Q%list_elem_of_In). apply set_globals_id.
  - done.
Qed.
End Called.
End Host.

End TcgHost.
