(* ===== verification/TcgBlock.v ===== *)
(** * Code generation for a block

    From a block of intermediate code through the liveness pass and the register
    allocator to host code: code generation ends normally, and the host code
    leaves the block as the block does. *)

From stdpp Require Import list sets relations.
From Stdlib Require Import ZifyBool.
From S2P Require Import Prelude Tcg TcgLive TcgSem TcgReg TcgRegInv TcgRegOp TcgRegArgs TcgRegInsn TcgRegCall TcgHost.

Module TcgBlock.
Import Tcg TcgLive TcgReg TcgRegInv TcgRegOp TcgRegArgs TcgRegInsn TcgRegCall.
Import TcgSem.TcgSem TcgHost.TcgHost.

(** ** What is asked of meaning and block *)

(** Moves move what their type keeps, extensions read the low half of their
    input, branches go to labels they name, and functions and guest accesses leave
    globals in fixed registers alone. *)
Class HostMeaning {W : Type} (mn : Meaning W) (gts : list Temp) := {
  hmn_mov op x c w : op = INDEX_op_mov_i32 \/ op = INDEX_op_mov_i64 -> m_pure mn op [x] c w = [trunc (op_type op) x];
  hmn_movi op x w : op = INDEX_op_movi_i32 \/ op = INDEX_op_movi_i64 -> m_pure mn op [] [x] w = [trunc (op_type op) x];
  hmn_low op ins c w : reads_low op = true -> m_pure mn op (map (trunc TCG_TYPE_I32) ins) c w = m_pure mn op ins c w;
  hmn_label op ins c w w' l : m_control mn op ins c w = (w', CLabel l) -> In l c;
  hmn_access op ins c w gs w' gs' vs b k g : m_access mn op ins c w gs = (w', gs', vs, b) -> gts !! k = Some g -> fixed_reg g = true -> nth k gs' 0 = nth k gs 0;
  hmn_call fl args w gs w' gs' vs b k g : m_call mn fl args w gs = (w', gs', vs, b) -> gts !! k = Some g -> fixed_reg g = true -> nth k gs' 0 = nth k gs 0
}.

(** Operations that are handled without operands. *)
Definition alone (op : TCGOpcode) : bool :=
  match op with
  | INDEX_op_mov_i32 | INDEX_op_mov_i64 | INDEX_op_movi_i32 | INDEX_op_movi_i64 | INDEX_op_debug_insn_start | INDEX_op_nop | INDEX_op_nop1 | INDEX_op_nop2 | INDEX_op_nop3
  | INDEX_op_discard | INDEX_op_set_label => true
  | _ => false
  end.

Section Block.
Context (ctx : TCGContext) (s0 : RA) (p : list Insn) (Df : nat -> Z -> Prop).

Definition writable (o : list Z) : Prop := NoDup o /\ forall t ts, In t o -> ra_temps s0 !! Z.to_nat t = Some ts -> fixed_reg ts = false.
(** Temporaries have the types of the operands they are: for moves the
    destination, and for 64-bit moves the source too; tcg_gen_trunc_i64_i32 is a
    32-bit move of a 64-bit value. *)
Definition has_type (ty t : Z) : Prop := forall ts, ra_temps s0 !! Z.to_nat t = Some ts -> type ts = ty.
Definition op_typed (op : TCGOpcode) (o a : list Z) : Prop :=
  match op with
  | INDEX_op_mov_i32 | INDEX_op_movi_i32 => Forall (has_type TCG_TYPE_I32) o
  | INDEX_op_mov_i64 | INDEX_op_movi_i64 => Forall (has_type TCG_TYPE_I64) (o ++ a)
  | _ => reads_low op = true \/ Forall2 has_type (op_itypes op) a
  end.
Definition generable (i : Insn) : Prop :=
  match i with
  | ICall o a _ => writable o /\ (length o <= 2)%nat /\ exists params fn, a = params ++ [fn] /\ fn <> TCG_CALL_DUMMY_ARG /\ has_type TCG_TYPE_I64 fn
  | INopn _ => True
  | IOp op o a c => writable o /\ op <> INDEX_op_end /\ (alone op = true \/ host_op op = true) /\ op_typed op o a
  end.

(** Value [x] fits the type of temporary [t]; all temporaries that have a value
    hold one that fits; and so it is all along a run. *)
Definition fits (t x : Z) : Prop := held s0 t x x.
Definition typed (pc : nat) (r : Z -> Z) : Prop := forall t, Df pc t -> fits t (r t).
Fixpoint typed_run {W : Type} (mn : Meaning W) (n pc : nat) (r : Z -> Z) (w : W) : Prop :=
  typed pc r /\
  match n with
  | O => True
  | S n => match exec ctx mn p pc r w with Next pc r w => typed_run mn n pc r w | Stop _ => True end
  end.

(** Which temporaries have a value: globals always, others from where they are
    written, and after a basic block only globals and local temporaries. *)
Record defined : Prop := {
  df_start t : Df 0 t -> 0 <= t < nb_globals ctx;
  df_globals pc t : (pc <= length p)%nat -> 0 <= t < nb_globals ctx -> Df pc t;
  df_inputs pc i t : p !! pc = Some i -> In t (inputs_of i) -> t <> TCG_CALL_DUMMY_ARG -> Df pc t;
  df_next pc i t : p !! pc = Some i -> Df (S pc) t ->
    match i with
    | IOp INDEX_op_discard o _ _ => Df pc t /\ ~ In t o
    | IOp INDEX_op_set_label _ _ _ => Df pc t /\ survives ctx t = true
    | IOp op o _ _ => if has_flag op TCG_OPF_BB_END then Df pc t /\ survives ctx t = true else In t o \/ Df pc t
    | _ => In t (outputs_of i) \/ Df pc t
    end;
  df_jump pc op o a c l j t : p !! pc = Some (IOp op o a c) -> has_flag op TCG_OPF_BB_END = true -> In l c -> find_label p l = Some j -> Df (S j) t -> Df pc t /\ survives ctx t = true
}.

Record block_ok : Prop := {
  bk_ctx : ctx_ok ctx;
  bk_insns : Forall (insn_ok ctx) p;
  bk_end : exists q, p = q ++ [IOp INDEX_op_end [] [] []] /\ Forall generable q;
  bk_temps : length (ra_temps s0) = length (temp_local ctx);
  bk_globals : ra_globals s0 = nb_globals ctx;
  bk_local k ts : ra_temps s0 !! k = Some ts -> nb_globals ctx <= Z.of_nat k -> temp_local ctx !! k = Some (is_temp_local ts);
  bk_defined : defined
}.

Context (B : block_ok) (A0 : ra_ok s0).
Notation d0 := (replicate (length (temp_local ctx)) true).
Notation D := (dead_before ctx d0 p).
Notation p' := (la_from ctx d0 p).1.1.
Notation ia := (la_from ctx d0 p).2.

(** The temporaries that are in place before instruction [pc]. *)
Definition X (pc : nat) (t : Z) : Prop := 0 <= t /\ D pc !! Z.to_nat t = Some false /\ Df pc t.

Lemma Dsz pc : sized ctx (D pc).
Proof. apply dead_before_sized; [apply start_sized | apply (bk_insns B)]. Qed.
Lemma insn_at pc i : p !! pc = Some i -> insn_ok ctx i.
Proof. intros E. by eapply Forall_lookup_1; [apply (bk_insns B) | exact E]. Qed.

(** *** Instructions the pass keeps *)

Definition keeps (pc : nat) (i : Insn) (m : Z) : Prop := p !! pc = Some i /\ p' !! pc = Some i /\ ia !! pc = Some (Some m) /\ D pc = (use (inputs_of i) 0 (mid_dead ctx i (D (S pc))) 0).1 /\ (la_insn ctx (D (S pc)) i).2 = Some m.

Lemma la_cases pc i : p !! pc = Some i -> (match i with IOp op _ _ _ => ordinary op | INopn _ => False | _ => True end) ->
  (exists m, keeps pc i m) \/ p' !! pc = Some (nop_of (params_of i)) /\ ia !! pc = Some None /\ D pc = D (S pc) /\ forallb (dead (D (S pc))) (outputs_of i) = true /\ ends_block i = false.
Proof.
  intros E O. destruct (la_lookup ctx d0 p pc i E) as [E1 E2]. pose proof (dead_before_step ctx d0 p pc i E) as E3. unfold keeps. rewrite E, E1, E2, E3. destruct i as [o a fl|raw|op o a c]; [|done|].
  - cbn [la_insn]. destruct (nz _ && _) eqn:Q; [right; apply andb_prop in Q as [_ Q]; by split_and!|]. left. eexists. split_and!; try reflexivity.
  - rewrite (ordinary_la ctx _ op o a c O). unfold la_other. destruct (_ && _ && _) eqn:Q; [|left; eexists; split_and!; reflexivity]. right. apply andb_prop in Q as [[Q1 _]%andb_prop Q]. split_and!; try done.
    cbn. apply negb_true_iff in Q1. by destruct (pure_flags op Q1).
Qed.

Lemma dead_iarg_bit m n : 0 <= n -> IS_DEAD_IARG m n = Z.testbit m n.
Proof. apply regset_test_bit. Qed.

Lemma mid_kept pc i m t : keeps pc i m -> 0 <= t -> mid_dead ctx i (D (S pc)) !! Z.to_nat t = Some false -> D pc !! Z.to_nat t = Some false /\ kept (inputs_of i) 0 m t.
Proof.
  intros (E & _ & _ & Ed & Em) Ht L. split; [rewrite Ed; by apply use_livelier|]. intros j Ej. rewrite Z.add_0_l, dead_iarg_bit by lia. destruct (Z.testbit m (Z.of_nat j)) eqn:T; [|done].
  destruct (dead_bit ctx (D (S pc)) i m (Z.of_nat j) (Dsz _) (insn_at pc i E) Em T) as (t' & Et & _ & Q). rewrite Nat2Z.id, Ej in Et. injection Et as <-. apply dead_lookup in Q. congruence.
Qed.
Lemma input_known pc i m t : keeps pc i m -> In t (inputs_of i) -> t <> TCG_CALL_DUMMY_ARG -> X pc t /\ temp_ok ctx t.
Proof.
  intros (E & _ & _ & Ed & Em) It Nt. destruct (insn_temps ctx i (insn_at pc i E)) as [Fa _]. assert (T : temp_ok ctx t) by (rewrite Forall_forall in Fa; by destruct (Fa t It)).
  split; [|done]. split; [apply T|]. split; [|by apply (df_inputs (bk_defined B) pc i)]. rewrite Ed. apply (use_live ctx); [apply mid_sized, Dsz | done | by apply list_elem_of_In | done].
Qed.
Lemma live_kept pc i m t : keeps pc i m -> ends_block i = false -> X (S pc) t -> In t (outputs_of i) \/ live_on (X pc) (inputs_of i) m t.
Proof.
  intros K Eb (Ht & L & Dt). destruct K as (E & K). pose proof (conj E K) as KK. destruct (in_dec Z.eq_dec t (outputs_of i)) as [|N]; [by left|]. right.
  assert (Dp : Df pc t).
  { pose proof (df_next (bk_defined B) pc i t E Dt) as H. destruct i as [o a fl|raw|op o a c]; cbn in N, Eb; [by destruct H | by destruct H|]. destruct op; cbn in H, Eb; try rewrite Eb in H; try (by destruct H); try discriminate Eb. }
  assert (M : mid_dead ctx i (D (S pc)) !! Z.to_nat t = Some false).
  { destruct (insn_temps ctx i (insn_at pc i E)) as [_ Fo]. assert (Kl : kill (outputs_of i) (D (S pc)) !! Z.to_nat t = Some false) by (apply kill_live; [done|]; split; [done|]; rewrite Z2Nat.id by done; by intros Q%list_elem_of_In).
    assert (Gl : globals_live ctx (kill (outputs_of i) (D (S pc))) !! Z.to_nat t = Some false) by (apply globals_live_Some; split; [by eexists | by right]).
    destruct i as [o a fl|raw|op o a c]; cbn in *; [by destruct (negb _) | done|]. unfold flag_dead. rewrite Eb. by destruct (has_flag op TCG_OPF_CALL_CLOBBER). }
  destruct (mid_kept pc i m t KK Ht M) as [H1 H2]. done.
Qed.

Definition uses_globals (i : Insn) : bool :=
  match i with
  | ICall _ _ fl => negb (nz (Z.land fl TCG_CALL_CONST))
  | INopn _ => false
  | IOp op _ _ _ => has_flag op TCG_OPF_BB_END || has_flag op TCG_OPF_CALL_CLOBBER
  end.
Lemma global_lookup d t : sized ctx d -> 0 <= t < nb_globals ctx -> is_Some (d !! Z.to_nat t).
Proof. intros Sd Ht. apply lookup_lt_is_Some. pose proof (cx_globals ctx (bk_ctx B)). unfold sized, nb_temps in *. lia. Qed.
Lemma globals_known pc i m t : keeps pc i m -> uses_globals i = true -> 0 <= t < nb_globals ctx -> live_on (X pc) (inputs_of i) m t.
Proof.
  intros K U Ht. pose proof K as (E & _). assert (Lp : (pc <= length p)%nat) by (apply lookup_lt_Some in E; lia).
  assert (Sk : sized ctx (kill (outputs_of i) (D (S pc)))) by (apply kill_sized, Dsz). pose proof (global_lookup _ t Sk Ht) as Ks.
  assert (M : mid_dead ctx i (D (S pc)) !! Z.to_nat t = Some false).
  { assert (Gl : globals_live ctx (kill (outputs_of i) (D (S pc))) !! Z.to_nat t = Some false) by (apply globals_live_Some; split; [done | left; lia]).
    destruct i as [o a fl|raw|op o a c]; cbn in *; [by rewrite U | done|]. unfold flag_dead. destruct (has_flag op TCG_OPF_BB_END); [|by destruct (has_flag op TCG_OPF_CALL_CLOBBER)].
    apply bb_end_Some. split; [done|]. unfold survives. rewrite Z2Nat.id by lia. destruct (Z.ltb_spec t (nb_globals ctx)); [done | lia]. }
  destruct (mid_kept pc i m t K ltac:(lia) M) as [H1 H2]. split; [|done]. split; [lia|]. split; [done | by apply (df_globals (bk_defined B))].
Qed.
Lemma survivor_known pc op o a c m t : keeps pc (IOp op o a c) m -> has_flag op TCG_OPF_BB_END = true -> temp_ok ctx t -> survives ctx t = true -> Df pc t -> X pc t.
Proof.
  intros K Be T Sv Dt. assert (M : mid_dead ctx (IOp op o a c) (D (S pc)) !! Z.to_nat t = Some false).
  { cbn. unfold flag_dead. rewrite Be. apply bb_end_Some. rewrite Z2Nat.id by apply T. split; [|done]. apply lookup_lt_is_Some. pose proof (kill_sized ctx o _ (Dsz (S pc))) as Sk. unfold sized, temp_ok, nb_temps in *. lia. }
  destruct (mid_kept pc _ m t K (proj1 T) M) as [H1 _]. split; [apply T | done].
Qed.

Lemma X_range pc t : X pc t -> temp_ok ctx t.
Proof. intros (Ht & L & _). apply lookup_lt_Some in L. pose proof (Dsz pc) as Sd. unfold sized, temp_ok, nb_temps in *. lia. Qed.

Section At.
Context (pc : nat) (s : RA) (As : ra_ok s) (Gs : grows s0 s).

Lemma temp_range t : temp_ok ctx t -> 0 <= t < len (ra_temps s).
Proof. intros T. unfold len. rewrite (gr_len _ _ Gs), (bk_temps B). unfold temp_ok, nb_temps in T. lia. Qed.
Lemma out_writable o t : writable o -> Forall (temp_ok ctx) o -> In t o -> 0 <= t /\ exists u, ra_temps s !! Z.to_nat t = Some u /\ fixed_reg u = false.
Proof.
  intros [_ Wr] F It. assert (T : temp_ok ctx t) by (rewrite Forall_forall in F; by apply F). split; [apply T|]. destruct (lookup_lt_is_Some_2 (ra_temps s0) (Z.to_nat t)) as [u0 E0]; [rewrite (bk_temps B); unfold temp_ok, nb_temps in T; lia|].
  destruct (gr_temps _ _ Gs _ u0 E0) as (u & Eu & Fu & _). exists u. split; [done|]. rewrite Fu. by eapply Wr.
Qed.
Lemma not_dummy t : temp_ok ctx t -> t <> TCG_CALL_DUMMY_ARG.
Proof. intros T ->. pose proof (cx_temps ctx (bk_ctx B)). unfold temp_ok in T. change TCG_CALL_DUMMY_ARG with (2 ^ 64 - 1) in T. lia. Qed.
Lemma mortal_survives k : (k < length (temp_local ctx))%nat -> mortal s k = negb (survives ctx (Z.of_nat k)).
Proof.
  intros L. unfold mortal, survives. rewrite (gr_globals _ _ Gs), (bk_globals B), Nat2Z.id. destruct (lookup_lt_is_Some_2 (ra_temps s0) k) as [u0 E0]; [by rewrite (bk_temps B)|].
  destruct (gr_temps _ _ Gs k u0 E0) as (u & -> & _ & _ & Lu & _). destruct (Z.ltb_spec (Z.of_nat k) (nb_globals ctx)) as [H|H].
  - destruct (Z.leb_spec (nb_globals ctx) (Z.of_nat k)); [lia|]. by rewrite andb_false_r.
  - destruct (Z.leb_spec (nb_globals ctx) (Z.of_nat k)); [|lia]. rewrite andb_true_r. rewrite (bk_local B k u0 E0 H), Lu. done.
Qed.

Lemma operands_known op o a c m : keeps pc (IOp op o a c) m -> writable o -> operands (X pc) o a s.
Proof.
  intros K Wr. pose proof K as (E & _). pose proof (insn_at pc _ E) as (_ & _ & _ & _ & _ & Fo & Fa). split.
  - intros t It. assert (T : temp_ok ctx t) by (rewrite Forall_forall in Fa; by apply Fa). split; [|by apply temp_range]. by apply (input_known pc _ m t K It), not_dummy.
  - intros t It. by apply (out_writable o).
  - apply Wr.
Qed.
End At.

Lemma temps_here s a : grows s0 s -> Forall (temp_ok ctx) a -> Forall (fun t => is_Some (ra_temps s !! Z.to_nat t)) a.
Proof. intros Gs. apply Forall_impl. intros t T. apply lookup_lt_is_Some. rewrite (gr_len _ _ Gs), (bk_temps B). unfold temp_ok, nb_temps in T. lia. Qed.

(** ** Steps of the host code *)

Section Sim.
Context {W : Type} (mn : Meaning W) (junk : HS -> HS) (CF : CallFlags mn).
Notation gts := (take (Z.to_nat (nb_globals ctx)) (ra_temps s0)).
Context (HM : HostMeaning mn gts).
Notation go C := (hgo mn gts junk C).
Notation hst C := (hstep mn gts junk C).

Lemma start_linked : linked gts s0.
Proof.
  pose proof (ok_globals s0 A0) as [G1 G2]. rewrite (bk_globals B) in G1, G2. split.
  - unfold len in *. rewrite length_take, (bk_globals B). lia.
  - intros k g Eg. apply lookup_take_Some in Eg as [Eg Lk]. exists g. split_and!; try done. intros Fx. split; [|done]. apply (ok_global s0 A0 k g Eg); [rewrite (bk_globals B); lia | done].
Qed.

Lemma host_globals_eq s h v : linked gts s -> ra_globals s = nb_globals ctx -> (forall k ts, ra_temps s !! k = Some ts -> Z.of_nat k < nb_globals ctx -> if fixed_reg ts then trunc (type ts) (hr h (reg ts)) = v (Z.of_nat k) else slot h ts = v (Z.of_nat k)) ->
  host_globals gts h = globals ctx v.
Proof.
  intros L Ng H. pose proof (lk_len _ s L) as Ll. rewrite Ng in Ll. unfold len in Ll. unfold host_globals, globals. apply list_eq. intros k. change (map (global_at h) gts) with (global_at h <$> gts). change (map v ?l) with (v <$> l). rewrite !list_lookup_fmap.
  destruct (gts !! k) as [g|] eqn:Eg.
  - pose proof (lookup_lt_Some _ _ _ Eg) as Lk. rewrite lookup_seqZ_lt by lia. cbn. f_equal. destruct (lk_temp _ s L k g Eg) as (ts & E & F & R & M & Ty). specialize (H k ts E ltac:(lia)). unfold global_at. rewrite F in H. destruct (fixed_reg g).
    + by rewrite <- R, <- Ty.
    + destruct (M eq_refl) as [_ Ce]. by rewrite <- (slot_cell _ _ _ Ce).
  - apply lookup_ge_None in Eg. rewrite lookup_seqZ_ge by lia. done.
Qed.

Lemma emit_reach s h s' h' C w : emitted s h s' h' -> code s' `prefix_of` C -> rtc (go C) (length (code s), h, w) (length (code s'), h', w).
Proof.
  intros (c & Ec & -> & Sc) [k ->]. rewrite Ec, length_app. apply run_simple; [|done]. rewrite <- app_assoc, drop_app_length, take_app_length. done.
Qed.
Lemma code_at s i C : code (tcg_out s i) `prefix_of` C -> code s `prefix_of` C /\ C !! length (code s) = Some i.
Proof. intros [k ->]. cbn. rewrite <- app_assoc. split; [by eexists|]. rewrite lookup_app_r, Nat.sub_diag by lia. done. Qed.

(** What host code does for instruction [pc]: it reaches the end of the code of
    the instruction with the values of the next, or leaves with the outcome. *)
Definition follows (C : list Host) (pc : nat) (s : RA) (h : HS) (w : W) (s' : RA) (x : Step W) : Prop :=
  match x with
  | Next pc' r' w' => pc' = S pc /\ ((forall t, X (S pc) t -> fits t (r' t)) -> exists h', rtc (go C) (length (code s), h, w) (length (code s'), h', w') /\ places (X (S pc)) s' h' r')
  | Stop o => exists b, rtc (go C) (length (code s), h, w) b /\ hst C b.1.1 b.1.2 b.2 = Some (HStop o)
  end.

Definition nolabel (c : list Host) : bool := forallb (fun i => match i with OLabel _ => false | _ => true end) c.
Lemma simple_nolabel c : forallb simple c = true -> nolabel c = true.
Proof. unfold nolabel. rewrite !forallb_forall. intros H i Ii. specialize (H i Ii). by destruct i. Qed.

(** What is emitted for an instruction: labels only for labels, at the end. *)
Definition segment (i : Insn) (c : list Host) : Prop := nolabel c = true /\ (forall l, is_label l i = false) \/ exists l c', i = IOp INDEX_op_set_label [] [] [l] /\ c = c' ++ [OLabel l] /\ nolabel c' = true.

(** Instruction [pc] is handled. *)
Definition handled (pc : nat) (i : Insn) (x : option Z) (s : RA) (h : HS) (r : Z -> Z) : Prop :=
  exists s' cd, alloc_insn s i x = Ok s' /\ code s' = code s ++ cd /\ segment i cd /\ ra_ok s' /\ grows s s' /\ (exists h2 v2, places (X (S pc)) s' h2 v2) /\
    forall w C, code s' `prefix_of` C -> follows C pc s h w s' (exec ctx mn p' pc r w).

(** Instructions for which only simple code is emitted. *)
Lemma handled_simple pc i x s h r v' : (forall l, is_label l i = false) -> handles (X (S pc)) s h v' (alloc_insn s i x) -> (forall w, exec ctx mn p' pc r w = Next (S pc) v' w) -> handled pc i x s h r.
Proof.
  intros Nl (s' & h' & Er & Em & A & P & G) Ex. pose proof Em as (cd & Ec & Eh & Sc). exists s', cd. split; [done|]. split; [done|]. split; [left; split; [by apply simple_nolabel | done]|]. split; [done|]. split; [done|]. split; [by exists h', v'|].
  intros w C Pc. rewrite Ex. split; [done|]. intros _. exists h'. split; [by eapply emit_reach | done].
Qed.
Lemma handles_same (X' : Z -> Prop) s h v v' (Y : Z -> Prop) : ra_ok s -> places Y s h v -> (forall t, X' t -> Y t /\ v' t = v t) -> handles X' s h v' (Ok s).
Proof. intros A P Wk. exists s, h. split; [done|]. split; [by apply emitted_same|]. split; [done|]. split; [by eapply places_weaken | done]. Qed.

Lemma alloc_insn_op s op o a c d cs : alone op = false -> tcg_add_target_add_op_defs op = Ok cs -> alloc_insn s (IOp op o a c) (Some d) = tcg_reg_alloc_op s cs op o a c d.
Proof. intros N E. destruct op; try discriminate N; cbn [alloc_insn dead_of res_bind]; rewrite E; reflexivity. Qed.
Lemma alone_ordinary op : alone op = false -> op <> INDEX_op_end -> ordinary op.
Proof. intros N E. unfold ordinary. intros Q. repeat (apply elem_of_cons in Q as [->|Q]; [done|]). by apply elem_of_nil in Q. Qed.

Lemma globals_nth r k g : gts !! k = Some g -> nth k (globals ctx r) 0 = r (Z.of_nat k).
Proof. intros Eg. apply lookup_take_Some in Eg as [_ Lk]. unfold globals. rewrite nth_lookup. change (map r ?l) with (r <$> l). rewrite list_lookup_fmap, lookup_seqZ_lt by lia. done. Qed.
Lemma fits_outputs cs na ca no ni : op_fits cs na ca no ni = true -> NoDup (take no na) /\ length (take no na) = no.
Proof.
  unfold op_fits. rewrite !andb_true_iff, bool_decide_eq_true, !forallb_forall. intros [[_ F] Nd]. split; [done|]. rewrite length_take. destruct no as [|n]; [lia|]. specialize (F (Z.of_nat n)). unfold output_fits in F.
  assert (I : In (Z.of_nat n) (seqZ 0 (Z.of_nat (S n)))) by (apply list_elem_of_In, elem_of_seqZ; lia). specialize (F I). destruct (is_ct cs (Z.of_nat n)); [|done]. destruct (na !! Z.to_nat (Z.of_nat n)) eqn:Q; [|done]. apply lookup_lt_Some in Q. lia.
Qed.

(** What is in place fits its type. *)
Lemma places_fit pc s h r t : grows s0 s -> places (X pc) s h r -> X pc t -> fits t (r t).
Proof.
  intros Gs P Xt. pose proof (X_range pc t Xt) as T. unfold fits. eapply (held_back s0 s); [exact Gs|]. intros ts E. assert (Z.of_nat (Z.to_nat t) = t) as Et by (unfold temp_ok in T; lia).
  specialize (P (Z.to_nat t) ts E). rewrite Et in P. by eapply located_fits, P.
Qed.
Lemma set_outs_nil r o t : In t o -> set_outs r o [] t = 0.
Proof.
  revert r. induction o as [|x o IH]; intros r It; [done|]. cbn [set_outs hd tl]. destruct (in_dec Z.eq_dec t o) as [Io|No]; [by apply IH|]. rewrite set_outs_other by (by intros Q%list_elem_of_In).
  destruct It as [->|]; [|done]. unfold TcgSem.TcgSem.upd. by rewrite Z.eqb_refl.
Qed.
Lemma fits_zero t : fits t 0.
Proof. intros ts _. apply trunc_zero. Qed.
Lemma outs_fit pc s h r r1 o t : grows s0 s -> places (X pc) s h r -> (forall u, r1 u = r u) -> In t o \/ X pc t -> fits t (set_outs r1 o [] t).
Proof.
  intros Gs P Er H. destruct (in_dec Z.eq_dec t o) as [Io|No]; [rewrite set_outs_nil by done; apply fits_zero|]. rewrite set_outs_other, Er by (by intros Q%list_elem_of_In). destruct H; [done | by eapply places_fit].
Qed.

(** Operands that hold values of temporaries of the right types. *)
Lemma typed_reads s op o a r ys : grows s0 s -> alone op = false -> op_typed op o a -> len a = nb_iargs (tcg_op_defs op) -> Forall (fun t => is_Some (ra_temps s !! Z.to_nat t)) a -> Forall2 (fun y t => held s t y (r t)) ys a ->
  zip_with trunc (op_itypes op) ys = if reads_low op then map (trunc TCG_TYPE_I32) (map r a) else map r a.
Proof.
  intros Gs Al Ty La Fa Fy. assert (H : reads_low op = true \/ Forall2 has_type (op_itypes op) a) by (destruct op; try discriminate Al; exact Ty). destruct (reads_low op) eqn:Lw.
  - assert (Q : op_itypes op = [TCG_TYPE_I32] /\ nb_iargs (tcg_op_defs op) = 1) by (by destruct op). destruct Q as [-> Q]. rewrite Q in La. destruct a as [|t [|]]; [done | | unfold len in La; cbn in La; lia].
    apply Forall2_cons_inv_r in Fy as (y & ys' & Hy & Fy & ->). apply Forall2_nil_inv_r in Fy as ->. apply Forall_cons_1 in Fa as [[ts Et] _]. cbn. f_equal. rewrite <- (Hy ts Et). by rewrite trunc_low.
  - destruct H as [|H]; [done|]. clear - Gs H Fa Fy. revert ys Fy. induction H as [|ty t tys a Ht H IH]; intros ys Fy; [apply Forall2_nil_inv_r in Fy as ->; done|]. apply Forall2_cons_inv_r in Fy as (y & ys' & Hy & Fy & ->). apply Forall_cons_1 in Fa as [[ts Et] Fa].
    cbn. rewrite (IH Fa ys' Fy). f_equal. pose proof (lookup_lt_Some _ _ _ Et) as L. rewrite (gr_len _ _ Gs) in L. apply lookup_lt_is_Some in L as [t0 E0]. rewrite <- (Hy ts Et), (gr_type _ _ Gs _ t0 ts E0 Et), (Ht t0 E0). done.
Qed.
Lemma type_here s k ts ty : grows s0 s -> ra_temps s !! k = Some ts -> has_type ty (Z.of_nat k) -> type ts = ty.
Proof.
  intros Gs E Ty. pose proof (lookup_lt_Some _ _ _ E) as L. rewrite (gr_len _ _ Gs) in L. apply lookup_lt_is_Some in L as [t0 E0]. rewrite (gr_type _ _ Gs _ t0 ts E0 E). apply Ty. by rewrite Nat2Z.id.
Qed.
Lemma low_pure op : has_flag op TCG_OPF_SIDE_EFFECTS = true -> reads_low op = false.
Proof. by destruct op. Qed.

Lemma op_handled pc op o a c m s h r : keeps pc (IOp op o a c) m -> alone op = false -> op <> INDEX_op_end -> host_op op = true -> writable o -> op_typed op o a -> has_flag op TCG_OPF_BB_END = false ->
  ra_ok s -> grows s0 s -> places (X pc) s h r -> handled pc (IOp op o a c) (Some m) s h r.
Proof.
  intros K Al Ne Ho Wr Ot Nb As Gs P. pose proof K as (E & E' & _). pose proof (insn_at pc _ E) as (_ & _ & Lo & La & Lc & Fo & Fa). destruct (constraints_good op Ho) as (cs & Ecs & Cok). rewrite <- Lo, <- La in Cok. pose proof (constraints_facts cs _ _ Cok) as Cf.
  pose proof (operands_known pc s Gs op o a c m K Wr) as Os. destruct (op_good (X pc) r (fun _ => false) op o a c cs m Cf s h (conj As P) Os Nb) as (s5 & h5 & na & ca & Ea & Em & A5 & G5 & Fit & Rd & Dc & Gl & Af).
  assert (Gs5 : grows s0 s5) by (by etrans). assert (Lk5 : linked gts s5) by (by eapply linked_grows; [apply start_linked|]). assert (Ng5 : ra_globals s5 = nb_globals ctx) by (rewrite (gr_globals _ _ Gs5); apply (bk_globals B)).
  pose proof (fits_outputs cs na ca (length o) (length a) Fit) as [Nd Lr].
  assert (Lv : forall t, X (S pc) t -> In t o \/ live_on (X pc) a m t) by (intros t Xt; by apply (live_kept pc _ m t K Nb)).
  assert (Pl : forall vs, has_flag op TCG_OPF_CALL_CLOBBER = false -> (forall t, X (S pc) t -> fits t (set_outs r o vs t)) -> places (X (S pc)) s5 (set_regs h5 (take (length o) na) vs) (set_outs r o vs)).
  { intros vs Nc Fv. eapply places_weaken; [apply Af; rewrite Nc; apply after_pure; [apply Wr | done]|]. intros t Xt. split; [|done]. split; [by apply Lv | by apply (held_on s0 s5), Fv]. }
  assert (Pg : forall gs vs, has_flag op TCG_OPF_CALL_CLOBBER = true -> (forall k g, gts !! k = Some g -> fixed_reg g = true -> nth k gs 0 = r (Z.of_nat k)) -> (forall t, X (S pc) t -> fits t (set_outs (set_globals ctx r gs) o vs t)) ->
    places (X (S pc)) s5 (set_regs (put_globals gts gs (clobber junk h5)) (take (length o) na) vs) (set_outs (set_globals ctx r gs) o vs)).
  { intros gs vs Cl Fg Fv. eapply places_weaken; [apply Af; rewrite Cl; apply after_called; try done; [apply Wr | by left]|]. intros t Xt. split; [|done]. split; [by apply Lv | by apply (held_on s0 s5), Fv]. }
  assert (Hg : has_flag op TCG_OPF_CALL_CLOBBER = true -> host_globals gts h5 = globals ctx r).
  { intros Cl. apply (host_globals_eq s5); [done | done|]. intros k ts Ek Hk. pose proof (globals_known pc _ m (Z.of_nat k) K ltac:(cbn; rewrite Cl; apply orb_true_r) ltac:(lia)) as Lg. specialize (Gl k ts Ek Lg). destruct (fixed_reg ts); [done|]. apply Gl; [done|]. rewrite (gr_globals _ _ Gs), (bk_globals B). done. }
  destruct Em as (cd & Ec & Eh & Sc). pose proof (ex_intro _ cd (conj Ec (conj Eh Sc)) : emitted s h s5 h5) as Em.
  exists (tcg_out s5 (OOp op na ca)), (cd ++ [OOp op na ca]). split; [by rewrite (alloc_insn_op s op o a c m cs Al Ecs)|]. split; [cbn; by rewrite Ec, app_assoc|].
  split; [left; split; [unfold nolabel; rewrite forallb_app; fold (nolabel cd); by rewrite simple_nolabel | by destruct op]|]. split; [by apply ok_out|].
  split; [etrans; [exact G5|]; apply grows_out|]. split.
  { assert (Kn : forall t, X (S pc) t -> In t o \/ X pc t) by (intros t Xt; destruct (Lv t Xt) as [|[? _]]; [by left | by right]).
    destruct (has_flag op TCG_OPF_CALL_CLOBBER) eqn:Cl; eexists _, _.
    - apply (Pg (globals ctx r) [] eq_refl (fun k g Eg _ => globals_nth r k g Eg)). intros t Xt. eapply (outs_fit pc s h r); [done | done | apply set_globals_id | by apply Kn].
    - apply (Pl [] eq_refl). intros t Xt. eapply (outs_fit pc s h r r); [done | done | done | by apply Kn]. }
  intros w C Pc. destruct (code_at _ _ _ Pc) as [Pc5 Cat]. pose proof (emit_reach s h s5 h5 C w Em Pc5) as Rc. rewrite (ordinary_exec ctx mn p' pc op o a c r w (alone_ordinary op Al Ne) E').
  assert (Vals : map (val r) a = map r a). { apply map_ext_in. intros t It. unfold TcgSem.TcgSem.val. destruct (Z.eqb_spec t TCG_CALL_DUMMY_ARG) as [->|]; [|done]. rewrite Forall_forall in Fa. by destruct (not_dummy _ (Fa _ It)). }
  assert (St : hst C (length (code s5)) h5 w = host_op_step mn gts junk C (length (code s5)) op na ca h5 w) by (unfold hstep; by rewrite Cat).
  assert (No : Z.to_nat (nb_oargs (tcg_op_defs op)) = length o) by (rewrite <- Lo; unfold len; lia). assert (Ni : Z.to_nat (nb_iargs (tcg_op_defs op)) = length a) by (rewrite <- La; unfold len; lia).
  assert (Ins : zip_with trunc (op_itypes op) (reads h5 na ca (length o) (length a)) = if reads_low op then map (trunc TCG_TYPE_I32) (map r a) else map r a) by (apply (typed_reads s op o); try done; by apply temps_here).
  unfold host_op_step in St. rewrite Ecs, No, Ni, Fit, Ins, Dc in St. cbn [negb] in St. rewrite Nb in St. unfold exec_op. rewrite Nb, Vals.
  assert (Fin : forall h' r' w', hst C (length (code s5)) h5 w = Some (HNext (S (length (code s5))) h' w') -> ((forall t, X (S pc) t -> fits t (r' t)) -> places (X (S pc)) s5 h' r') -> follows C pc s h w (tcg_out s5 (OOp op na ca)) (Next (S pc) r' w')).
  { intros h' r' w' Hs Ph. split; [done|]. intros Fv. exists h'. split; [|exact (Ph Fv)]. eapply rtc_r; [exact Rc|]. unfold hgo. cbn [fst snd]. rewrite Hs. cbn. by rewrite length_app, Nat.add_1_r. }
  destruct (has_flag op TCG_OPF_CALL_CLOBBER) eqn:Cl; [|destruct (has_flag op TCG_OPF_SIDE_EFFECTS) eqn:Se].
  - rewrite low_pure in St by (clear - Cl; by destruct op). rewrite Hg in St by done. destruct (m_access mn op (map r a) c w (globals ctx r)) as [[[w' gs] vs] lv] eqn:Ma. destruct lv; [eexists; split; [exact Rc | exact St]|].
    eapply Fin; [exact St|]. intros Fv. apply Pg; [done | | exact Fv]. intros k g Eg Fg. rewrite (hmn_access op _ _ _ _ _ _ _ _ k g Ma Eg Fg). by apply (globals_nth r k g).
  - rewrite low_pure in St by done. destruct (m_effect mn op (map r a) c w) as [w' vs]. eapply Fin; [exact St|]. by apply Pl.
  - assert (Pu : m_pure mn op (if reads_low op then map (trunc TCG_TYPE_I32) (map r a) else map r a) c w = m_pure mn op (map r a) c w) by (destruct (reads_low op) eqn:Lw; [by apply hmn_low | done]).
    rewrite Pu in St. eapply Fin; [exact St|]. by apply Pl.
Qed.

Lemma call_cs : exists cs c, tcg_add_target_add_op_defs INDEX_op_call = Ok cs /\ is_ct cs 0 = Ok c /\ regset_test (regs c) TCG_REG_RBP = true.
Proof. do 2 eexists. by vm_compute. Qed.

Lemma call_known pc o params fn fl m s : keeps pc (ICall o (params ++ [fn]) fl) m -> writable o -> (length o <= 2)%nat -> fn <> TCG_CALL_DUMMY_ARG -> grows s0 s -> call_ok (X pc) o params fn m s.
Proof.
  intros K Wr Lo Nf Gs. pose proof K as (E & _ & _ & _ & Em). pose proof (insn_at pc _ E) as (_ & _ & Fo & Fa).
  assert (In : forall t, In t (params ++ [fn]) -> t <> TCG_CALL_DUMMY_ARG -> X pc t /\ 0 <= t < len (ra_temps s)) by (intros t It Nt; destruct (input_known pc _ m t K It Nt) as [Xt T]; split; [done | by apply temp_range]). split.
  - intros t It Nt. apply In; [apply in_app_iff; by left | done].
  - destruct (In fn ltac:(apply in_app_iff; right; by left) Nf). done.
  - intros j t Ej Dj. rewrite dead_iarg_bit in Dj by lia. destruct (dead_bit ctx (D (S pc)) _ m (Z.of_nat j) (Dsz _) (insn_at pc _ E) Em Dj) as (t' & Et & T & _). cbn [inputs_of] in Et. rewrite Nat2Z.id, Ej in Et. injection Et as <-. by apply not_dummy.
  - intros t It. by apply (out_writable s Gs o).
  - apply NoDup_ListNoDup, Wr.
  - done.
Qed.

Lemma call_handled pc o params fn fl m s h r : keeps pc (ICall o (params ++ [fn]) fl) m -> writable o -> (length o <= 2)%nat -> fn <> TCG_CALL_DUMMY_ARG -> has_type TCG_TYPE_I64 fn ->
  ra_ok s -> grows s0 s -> places (X pc) s h r -> handled pc (ICall o (params ++ [fn]) fl) (Some m) s h r.
Proof.
  intros K Wr Lo Nf Tf As Gs P. pose proof K as (E & E' & _). destruct call_cs as (cs & c & Ecs & Ec & Tc). pose proof (call_known pc o params fn fl m s K Wr Lo Nf Gs) as Ck.
  destruct (call_good (X pc) r o params fn fl m cs c Ec Tc s h (conj As P) Ck) as (s6 & h6 & x & b & tail & s' & Ea & Em & Cd & St & A' & G' & Hp & Hf & Gl & Af). set (oregs := take (length o) tcg_target_call_oarg_regs) in *.
  assert (Gs' : grows s0 s') by (by etrans). assert (Lk' : linked gts s') by (by eapply linked_grows; [apply start_linked|]). assert (Ng' : ra_globals s' = nb_globals ctx) by (rewrite (gr_globals _ _ Gs'); apply (bk_globals B)).
  assert (Nr : NoDup tcg_target_call_oarg_regs) by (by apply (bool_decide_unpack _)). assert (Lr : length oregs = length o) by (unfold oregs; rewrite length_take; cbn; lia).
  assert (Pre : forall j y, oregs !! j = Some y -> tcg_target_call_oarg_regs !! j = Some y) by (intros j y Q; apply lookup_take_Some in Q; apply Q). assert (Rs : forall y, In y tcg_target_call_oarg_regs -> In y oregs \/ regset_test tcg_target_call_clobber_regs y = true) by (intros y Iy; right; by apply oarg_regs).
  assert (Lv : forall t, X (S pc) t -> In t o \/ live_on (X pc) (params ++ [fn]) m t) by (intros t Xt; by apply (live_kept pc _ m t K eq_refl)).
  assert (Wk : forall h2 v2, places (fun t => (In t o \/ live_on (X pc) (params ++ [fn]) m t) /\ held s' t (v2 t) (v2 t)) s' h2 v2 -> (forall t, X (S pc) t -> fits t (v2 t)) -> places (X (S pc)) s' h2 v2).
  { intros h2 v2 Q Fv. eapply places_weaken; [exact Q|]. intros t Xt. split; [|done]. split; [by apply Lv | by apply (held_on s0 s'), Fv]. }
  assert (Pc : forall vs, nz (Z.land fl TCG_CALL_CONST) = true -> (forall t, X (S pc) t -> fits t (set_outs (set_globals ctx r (globals ctx r)) o vs t)) -> places (X (S pc)) s' (execs tail (set_regs (put_globals gts (host_globals gts h6) (clobber junk h6)) tcg_target_call_oarg_regs vs)) (set_outs (set_globals ctx r (globals ctx r)) o vs)).
  { intros vs Cn Fv. apply Wk; [|exact Fv]. apply Af. rewrite Cn. apply after_const; try done. apply Wr. }
  assert (Pg : forall gs vs, nz (Z.land fl TCG_CALL_CONST) = false -> (forall k g, gts !! k = Some g -> fixed_reg g = true -> nth k gs 0 = r (Z.of_nat k)) -> (forall t, X (S pc) t -> fits t (set_outs (set_globals ctx r gs) o vs t)) ->
    places (X (S pc)) s' (execs tail (set_regs (put_globals gts gs (clobber junk h6)) tcg_target_call_oarg_regs vs)) (set_outs (set_globals ctx r gs) o vs)).
  { intros gs vs Cn Fg Fv. apply Wk; [|exact Fv]. apply Af. rewrite Cn. apply after_called; try done. apply Wr. }
  assert (Hg : nz (Z.land fl TCG_CALL_CONST) = false -> host_globals gts h6 = globals ctx r).
  { intros Cn. apply (host_globals_eq s'); [done | done|]. intros k ts Ek Hk. pose proof (globals_known pc _ m (Z.of_nat k) K ltac:(cbn; by rewrite Cn) ltac:(lia)) as Lg. specialize (Gl k ts Ek Lg). destruct (fixed_reg ts); [done|]. apply Gl; [by rewrite Cn|]. rewrite (gr_globals _ _ Gs), (bk_globals B). done. }
  destruct Em as (cd & Ec6 & Eh & Sc). pose proof (ex_intro _ cd (conj Ec6 (conj Eh Sc)) : emitted s h s6 h6) as Em.
  exists s', (cd ++ OCall x b fl (param_types (ra_temps s) params) :: tail). split; [cbn [alloc_insn dead_of res_bind]; rewrite Ecs; exact Ea|]. split; [by rewrite Cd, Ec6, <- app_assoc|].
  split; [left; split; [unfold nolabel; rewrite forallb_app; cbn [forallb andb]; fold (nolabel cd); fold (nolabel tail); by rewrite !simple_nolabel | done]|]. split; [done|]. split; [done|]. split.
  { assert (Fv : forall t, X (S pc) t -> fits t (set_outs (set_globals ctx r (globals ctx r)) o [] t)).
    { intros t Xt. eapply (outs_fit pc s h r); [done | done | apply set_globals_id|]. destruct (Lv t Xt) as [|[? _]]; [by left | by right]. }
    destruct (nz (Z.land fl TCG_CALL_CONST)) eqn:Cn; eexists _, _; [exact (Pc [] eq_refl Fv) | exact (Pg (globals ctx r) [] eq_refl (fun k g Eg _ => globals_nth r k g Eg) Fv)]. }
  intros w C PC. assert (P6 : code s6 `prefix_of` C) by (etrans; [|exact PC]; rewrite Cd; by eexists). pose proof (emit_reach s h s6 h6 C w Em P6) as Rc.
  assert (Cat : C !! length (code s6) = Some (OCall x b fl (param_types (ra_temps s) params))) by (destruct PC as [k ->]; rewrite Cd, <- app_assoc, lookup_app_r, Nat.sub_diag by lia; done).
  assert (Tl : forall h2 w2, rtc (go C) (S (length (code s6)), h2, w2) (length (code s'), execs tail h2, w2)).
  { intros h2 w2. replace (length (code s')) with (S (length (code s6)) + length tail)%nat by (rewrite Cd, length_app; cbn; lia). apply run_simple; [|done]. destruct PC as [k ->]. rewrite Cd, <- app_assoc. cbn [app].
    rewrite (app_assoc (code s6) [_] (tail ++ k) : code s6 ++ OCall x b fl (param_types (ra_temps s) params) :: tail ++ k = _), drop_app_length' by (rewrite length_app; cbn; lia). by rewrite take_app_length. }
  assert (Ha : host_args h6 (param_types (ra_temps s) params) ++ [trunc TCG_TYPE_I64 (holds h6 x b)] = map (val r) (params ++ [fn])).
  { rewrite map_app, Hp. f_equal. cbn. f_equal. unfold TcgSem.TcgSem.val. destruct (Z.eqb_spec fn TCG_CALL_DUMMY_ARG) as [|_]; [done|]. destruct (ck_fn _ _ _ _ _ _ Ck) as (_ & Bf & _).
    destruct (lookup_lt_is_Some_2 (ra_temps s0) (Z.to_nat fn)) as [ts Et]; [rewrite <- (gr_len _ _ Gs); unfold len in Bf; lia|]. rewrite <- (Tf ts Et). by apply (held_back s0 s fn _ _ Gs Hf). }
  unfold follows, exec. rewrite E'. assert (Hs : hst C (length (code s6)) h6 w = (let '(w', gs, vs, leave) := m_call mn fl (map (val r) (params ++ [fn])) w (host_globals gts h6) in
    Some (if leave : bool then HStop (OLeave [] w' gs) else HNext (S (length (code s6))) (set_regs (put_globals gts gs (clobber junk h6)) tcg_target_call_oarg_regs vs) w'))) by (unfold hstep; rewrite Cat, Ha; done).
  assert (Fin : forall h' r' w', hst C (length (code s6)) h6 w = Some (HNext (S (length (code s6))) h' w') -> ((forall t, X (S pc) t -> fits t (r' t)) -> places (X (S pc)) s' (execs tail h') r') -> follows C pc s h w s' (Next (S pc) r' w')).
  { intros h' r' w' Q Ph. split; [done|]. intros Fv. exists (execs tail h'). split; [|exact (Ph Fv)]. etrans; [exact Rc|]. apply (rtc_l _ _ (S (length (code s6)), h', w')); [unfold hgo; cbn [fst snd]; exact Q|]. apply Tl. }
  destruct (nz (Z.land fl TCG_CALL_CONST)) eqn:Cn.
  - destruct (call_const fl (map (val r) (params ++ [fn])) w Cn) as (w' & vs & Hc). rewrite Hc in Hs. rewrite Hc. eapply Fin; [exact Hs | by apply Pc].
  - rewrite Hg in Hs by done. destruct (m_call mn fl (map (val r) (params ++ [fn])) w (globals ctx r)) as [[[w' gs] vs] lv] eqn:Mc. destruct lv; [eexists; split; [exact Rc | exact Hs]|].
    eapply Fin; [exact Hs|]. intros Fv. apply Pg; [done | | exact Fv]. intros k g Eg Fg. rewrite (hmn_call fl _ _ _ _ _ _ _ k g Mc Eg Fg). by apply (globals_nth r k g).
Qed.

Ltac solve_ordinary := unfold ordinary; set_solver.

(** *** Instructions without operands of their own *)

Lemma removed_handled pc i s h r : p !! pc = Some i -> p' !! pc = Some (nop_of (params_of i)) -> D pc = D (S pc) -> forallb (dead (D (S pc))) (outputs_of i) = true -> ends_block i = false ->
  (match i with IOp op _ _ _ => ordinary op | _ => True end) -> ra_ok s -> places (X pc) s h r -> handled pc (nop_of (params_of i)) None s h r.
Proof.
  intros E E' Ed Dd Eb Or As P. apply (handled_simple pc _ _ s h r r).
  - intros l. apply nop_of_not_label.
  - assert (Q : alloc_insn s (nop_of (params_of i)) None = Ok s) by (by destruct (params_of i)). rewrite Q. apply (handles_same _ s h r r (X pc)); [done | done|]. intros t (Ht & L & Dt). split; [|done]. split; [done|]. split; [by rewrite Ed|].
    assert (No : ~ In t (outputs_of i)) by (intros Io; rewrite forallb_forall in Dd; specialize (Dd t Io); apply dead_lookup in Dd; congruence).
    pose proof (df_next (bk_defined B) pc i t E Dt) as H. destruct i as [o a fl|raw|op o a c]; cbn in No, Eb; [by destruct H | by destruct H|]. destruct op; cbn in H, Eb; try rewrite Eb in H; try (by destruct H); try discriminate Eb.
  - intros w. by apply (exec_nop ctx mn p' pc (params_of i)).
Qed.

Lemma pure_exec pc op o a c r w : ordinary op -> p' !! pc = Some (IOp op o a c) -> has_flag op TCG_OPF_SIDE_EFFECTS = false -> exec ctx mn p' pc r w = Next (S pc) (set_outs r o (m_pure mn op (map (val r) a) c w)) w.
Proof. intros O E Ns. rewrite (ordinary_exec ctx mn p' pc op o a c r w O E). unfold exec_op. destruct (pure_flags op Ns) as [-> ->]. by rewrite Ns. Qed.

Lemma X_out pc op o a c m t d : keeps pc (IOp op o a c) m -> has_flag op TCG_OPF_BB_END = false -> o = [d] -> X (S pc) t -> t = d \/ live_on (X pc) a m t.
Proof. intros K Nb -> Xt. destruct (live_kept pc _ m t K Nb Xt) as [[->|[]]|Q]; [by left | by right]. Qed.

Lemma mov_handled pc op d x m s h r : op = INDEX_op_mov_i32 \/ op = INDEX_op_mov_i64 -> keeps pc (IOp op [d] [x] []) m -> writable [d] -> op_typed op [d] [x] -> ra_ok s -> grows s0 s -> places (X pc) s h r -> handled pc (IOp op [d] [x] []) (Some m) s h r.
Proof.
  intros Op K Wr Ot As Gs P. pose proof K as (E & E' & _). pose proof (insn_at pc _ E) as (_ & _ & _ & _ & _ & Fo & Fa). assert (Tx : temp_ok ctx x) by (rewrite Forall_forall in Fa; apply Fa; by left).
  destruct (input_known pc _ m x K ltac:(by left) (not_dummy x Tx)) as [Xx _]. destruct (out_writable s Gs [d] d Wr Fo ltac:(by left)) as (Hd & ots & Ed & Fd). pose proof (temp_range s Gs x Tx) as Bx.
  destruct (Z_of_nat_complete d Hd) as [nd ->]. destruct (Z_of_nat_complete x ltac:(lia)) as [nx ->]. rewrite Nat2Z.id in Ed. destruct (lookup_lt_is_Some_2 (ra_temps s) nx) as [ts Ex]; [unfold len in Bx; lia|].
  assert (Cs : exists cs c, tcg_add_target_add_op_defs op = Ok cs /\ is_ct cs 0 = Ok c /\ regset_test (regs c) TCG_REG_RBP = true) by (destruct Op as [->| ->]; do 2 eexists; by vm_compute). destruct Cs as (cs & c & Ecs & Ec & Tc).
  assert (Ea : alloc_insn s (IOp op [Z.of_nat nd] [Z.of_nat nx] []) (Some m) = tcg_reg_alloc_mov s c (Z.of_nat nd) (Z.of_nat nx) m) by (destruct Op as [->| ->]; cbn [alloc_insn dead_of res_bind]; rewrite Ecs; cbn [res_bind]; by rewrite Ec).
  assert (Hx : forall y, trunc (type ts) y = r (Z.of_nat nx) -> trunc (type ots) y = trunc (op_type op) (r (Z.of_nat nx))).
  { intros y <-. destruct Op as [->| ->]; cbn in Ot.
    - apply Forall_cons_1 in Ot as [Td _]. rewrite (type_here s nd ots _ Gs Ed Td). symmetry. apply trunc_low.
    - apply Forall_cons_1 in Ot as [Td Ot]. apply Forall_cons_1 in Ot as [Ts _]. rewrite (type_here s nd ots _ Gs Ed Td), (type_here s nx ts _ Gs Ex Ts). symmetry. apply trunc_trunc. }
  apply (handled_simple pc _ _ s h r (TcgRegOp.upd r (Z.of_nat nd) (trunc (op_type op) (r (Z.of_nat nx))))).
  - intros l. by destruct Op as [->| ->].
  - rewrite Ea. apply (mov_good (X pc) (X (S pc)) r s h nd nx ots ts c m _ Hx); try done. intros t Xt. destruct (X_out pc op _ _ _ m t (Z.of_nat nd) K ltac:(by destruct Op as [->| ->]) eq_refl Xt) as [->|[Q1 Q2]]; [by left|]. right. split; [done|].
    intros Dd ->. specialize (Q2 0%nat eq_refl). change (0 + Z.of_nat 0) with 0 in Q2. congruence.
  - intros w. assert (Or : ordinary op) by (destruct Op as [->| ->]; solve_ordinary). rewrite (pure_exec pc op _ _ _ r w Or E') by (by destruct Op as [->| ->]). cbn [map]. rewrite (hmn_mov op _ _ w Op). cbn [set_outs hd tl]. unfold TcgSem.TcgSem.val.
    destruct (Z.eqb_spec (Z.of_nat nx) TCG_CALL_DUMMY_ARG) as [Q|_]; [by destruct (not_dummy _ Tx) | done].
Qed.

Lemma movi_handled pc op d x m s h r : op = INDEX_op_movi_i32 \/ op = INDEX_op_movi_i64 -> keeps pc (IOp op [d] [] [x]) m -> writable [d] -> op_typed op [d] [] -> ra_ok s -> grows s0 s -> places (X pc) s h r -> handled pc (IOp op [d] [] [x]) (Some m) s h r.
Proof.
  intros Op K Wr Ot As Gs P. pose proof K as (E & E' & _). pose proof (insn_at pc _ E) as (_ & _ & _ & _ & _ & Fo & _). destruct (out_writable s Gs [d] d Wr Fo ltac:(by left)) as (Hd & ots & Ed & Fd).
  destruct (Z_of_nat_complete d Hd) as [nd ->]. rewrite Nat2Z.id in Ed.
  assert (Td : type ots = op_type op) by (apply (type_here s nd ots _ Gs Ed); destruct Op as [->| ->]; by apply Forall_cons_1 in Ot as [Td _]).
  apply (handled_simple pc _ _ s h r (TcgRegOp.upd r (Z.of_nat nd) (trunc (op_type op) x))).
  - intros l. by destruct Op as [->| ->].
  - destruct (movi_good (X pc) (X (S pc)) r s h nd ots x As P Ed Fd) as (s' & Es & A' & P' & G' & C').
    { intros t Xt. destruct (X_out pc op _ _ _ m t (Z.of_nat nd) K ltac:(by destruct Op as [->| ->]) eq_refl Xt) as [->|[Q1 Q2]]; [by left | by right]. }
    assert (Ea : alloc_insn s (IOp op [Z.of_nat nd] [] [x]) (Some m) = Ok s') by (by destruct Op as [->| ->]). rewrite Ea. rewrite Td in P'. exists s', h. split; [done|]. split; [by apply emitted_same | done].
  - intros w. assert (Or : ordinary op) by (destruct Op as [->| ->]; solve_ordinary). rewrite (pure_exec pc op _ _ _ r w Or E') by (by destruct Op as [->| ->]). cbn [map]. by rewrite (hmn_movi op x w Op).
Qed.

Lemma nop_handled pc op a c m s h r : In op [INDEX_op_nop; INDEX_op_nop1; INDEX_op_nop2; INDEX_op_nop3] -> keeps pc (IOp op [] a c) m -> ra_ok s -> places (X pc) s h r -> handled pc (IOp op [] a c) (Some m) s h r.
Proof.
  intros Op K As P. pose proof K as (E & E' & _). assert (Cs : forall Q : TCGOpcode -> Prop, Q INDEX_op_nop -> Q INDEX_op_nop1 -> Q INDEX_op_nop2 -> Q INDEX_op_nop3 -> Q op) by (intros Q ? ? ? ?; by destruct Op as [<-|[<-|[<-|[<-|[]]]]]).
  apply (handled_simple pc _ _ s h r r).
  - intros l. by apply (Cs (fun op => is_label l (IOp op [] a c) = false)).
  - assert (Q : alloc_insn s (IOp op [] a c) (Some m) = Ok s) by (by apply (Cs (fun op => alloc_insn s (IOp op [] a c) (Some m) = Ok s))). rewrite Q. apply (handles_same _ s h r r (X pc)); [done | done|].
    intros t Xt. split; [|done]. destruct (live_kept pc _ m t K ltac:(by apply (Cs (fun op => has_flag op TCG_OPF_BB_END = false))) Xt) as [[]|Q']. apply Q'.
  - intros w. rewrite (pure_exec pc op [] a c r w); [done | by apply (Cs ordinary); solve_ordinary | done | by apply (Cs (fun op => has_flag op TCG_OPF_SIDE_EFFECTS = false))].
Qed.

Lemma debug_handled pc o a c s h r : p !! pc = Some (IOp INDEX_op_debug_insn_start o a c) -> ra_ok s -> places (X pc) s h r -> handled pc (IOp INDEX_op_debug_insn_start o a c) None s h r.
Proof.
  intros E As P. destruct (la_lookup ctx d0 p pc _ E) as [E' _]. pose proof (dead_before_step ctx d0 p pc _ E) as Ed. cbn in E', Ed. pose proof (insn_at pc _ E) as (_ & _ & Lo & _). apply (handled_simple pc _ _ s h r r); [done | |].
  - apply (handles_same _ s h r r (X pc)); [done | done|]. intros t (Ht & L & Dt). split; [|done]. split; [done|]. split; [by rewrite Ed|]. pose proof (df_next (bk_defined B) pc _ t E Dt) as H. cbn in H. destruct o; [by destruct H|]. cbn in Lo. unfold len in Lo. cbn in Lo. lia.
  - intros w. unfold exec. by rewrite E'.
Qed.
Lemma nopn_handled pc raw s h r : p !! pc = Some (INopn raw) -> ra_ok s -> places (X pc) s h r -> handled pc (INopn raw) None s h r.
Proof.
  intros E As P. destruct (la_lookup ctx d0 p pc _ E) as [E' _]. pose proof (dead_before_step ctx d0 p pc _ E) as Ed. cbn in E', Ed. apply (handled_simple pc _ _ s h r r); [done | |].
  - apply (handles_same _ s h r r (X pc)); [done | done|]. intros t (Ht & L & Dt). split; [|done]. split; [done|]. split; [by rewrite Ed|]. by destruct (df_next (bk_defined B) pc _ t E Dt).
  - intros w. unfold exec. by rewrite E'.
Qed.

Lemma discard_handled pc t a c s h r : p !! pc = Some (IOp INDEX_op_discard [t] a c) -> writable [t] -> ra_ok s -> grows s0 s -> places (X pc) s h r -> handled pc (IOp INDEX_op_discard [t] a c) None s h r.
Proof.
  intros E Wr As Gs P. destruct (la_lookup ctx d0 p pc _ E) as [E' _]. pose proof (dead_before_step ctx d0 p pc _ E) as Ed. cbn [la_insn fst snd] in E', Ed. pose proof (insn_at pc _ E) as (_ & _ & _ & _ & _ & Fo & _).
  destruct (out_writable s Gs [t] t Wr Fo ltac:(by left)) as (Ht & ts & Et & Ft). destruct (Z_of_nat_complete t Ht) as [k ->]. rewrite Nat2Z.id in Et.
  assert (Xn : forall u, X (S pc) u -> X pc u /\ u <> Z.of_nat k).
  { intros u (Hu & L & Du). destruct (df_next (bk_defined B) pc _ u E Du) as [Dp N]. split; [|intros ->; apply N; by left]. split; [done|]. split; [|done]. rewrite Ed. apply kill_live; [by apply (temps_nonneg ctx)|]. split; [done|]. rewrite Z2Nat.id by done. by intros Q%list_elem_of_In. }
  apply (handled_simple pc _ _ s h r (set_outs r [Z.of_nat k] (map (m_junk mn) [Z.of_nat k]))); [done | |].
  - assert (P1 : places (X (S pc)) s h r) by (eapply places_weaken; [exact P|]; intros u Xu; split; [by apply Xn | done]).
    destruct (dead_good (X (S pc)) r (fun _ => false) (fun _ => false) (fun _ => true) s h k ts (conj As P1) Et Ft) as (s1 & ts1 & E1 & [A1 Q1] & V1 & _); [intros Q; by destruct (Xn _ Q) | done|].
    assert (Ea : alloc_insn s (IOp INDEX_op_discard [Z.of_nat k] a c) None = Ok s1) by (cbn [alloc_insn]; rewrite (temp_at_ok s k ts Et); cbn [res_bind]; rewrite Ft; exact E1). rewrite Ea.
    exists s1, h. split; [done|]. split; [apply V1|]. split; [done|]. split; [|by eapply ev_grows]. eapply places_weaken; [exact Q1|]. intros u Xu. split; [done|]. apply set_outs_other. intros Q. apply list_elem_of_In in Q as [<-|[]]. by destruct (Xn _ Xu).
  - intros w. unfold exec. by rewrite E'.
Qed.

(** All that lives on is in memory at a label. *)
Lemma label_handled pc l s h r : p !! pc = Some (IOp INDEX_op_set_label [] [] [l]) -> ra_ok s -> grows s0 s -> places (X pc) s h r ->
  handled pc (IOp INDEX_op_set_label [] [] [l]) None s h r /\ forall s', alloc_insn s (IOp INDEX_op_set_label [] [] [l]) None = Ok s' -> forall k, (k < length (temp_local ctx))%nat -> survives ctx (Z.of_nat k) = true -> in_memory s' k.
Proof.
  intros E As Gs P. destruct (la_lookup ctx d0 p pc _ E) as [E' _]. pose proof (dead_before_step ctx d0 p pc _ E) as Ed. cbn [la_insn fst snd] in E', Ed.
  assert (Xn : forall u, X (S pc) u -> X pc u /\ survives ctx u = true).
  { intros u (Hu & L & Du). destruct (df_next (bk_defined B) pc _ u E Du) as [Dp Sv]. split; [|done]. split; [done|]. split; [|done]. rewrite Ed. apply bb_end_Some. rewrite Z2Nat.id by done. split; [by eexists | done]. }
  assert (P1 : places (X (S pc)) s h r) by (eapply places_weaken; [exact P|]; intros u Xu; split; [by apply Xn | done]).
  destruct (bb_end_good (X (S pc)) r (regset_test RESERVED) (fun _ => false) RESERVED (fun x _ H => H) covers_reserved ltac:(exists TCG_REG_RBP; split_and!; [set_solver | done | done]) s h (conj As P1)) as (s1 & h1 & E1 & [A1 Q1] & V1 & M1).
  { intros u Xu. destruct (Xn u Xu) as [Xp Sv]. pose proof (X_range pc u Xp) as T. unfold temp_ok, nb_temps in T. rewrite (mortal_survives s Gs) by lia. rewrite Z2Nat.id by lia. by rewrite Sv. }
  assert (Ea : alloc_insn s (IOp INDEX_op_set_label [] [] [l]) None = Ok (tcg_out s1 (OLabel l))) by (cbn [alloc_insn]; rewrite (ok_reserved s As), E1; done).
  pose proof (ev_code _ _ _ _ _ _ _ V1) as Em. destruct Em as (cd & Ec & Eh & Sc). pose proof (ex_intro _ cd (conj Ec (conj Eh Sc)) : emitted s h s1 h1) as Em.
  assert (Pb : places (X (S pc)) s1 h1 (bb_clear ctx mn r)) by (eapply places_weaken; [exact Q1|]; intros u Xu; split; [done|]; unfold bb_clear; by rewrite (proj2 (Xn u Xu))). split.
  - exists (tcg_out s1 (OLabel l)), (cd ++ [OLabel l]). split; [done|]. split; [cbn; by rewrite Ec, app_assoc|]. split; [right; exists l, cd; split_and!; [done | done | by apply simple_nolabel]|]. split; [by apply ok_out|].
    split; [etrans; [by eapply ev_grows|]; apply grows_out|]. split; [by exists h1, (bb_clear ctx mn r)|].
    intros w C Pc. destruct (code_at _ _ _ Pc) as [Pc1 Cat]. unfold follows, exec. rewrite E'. split; [done|]. intros _. exists h1. split; [|exact Pb]. eapply rtc_r; [by eapply emit_reach|]. unfold hgo. cbn [fst snd]. unfold hstep. rewrite Cat. cbn. by rewrite length_app, Nat.add_1_r.
  - intros s' Q k Lk Sv. rewrite Ea in Q. injection Q as <-. intros ts Ek Fx. apply (M1 k); [rewrite (mortal_survives s Gs) by done; by rewrite Sv | exact Ek | done].
Qed.

(** *** The end of a basic block *)

Lemma bb_end_no_outputs op : has_flag op TCG_OPF_BB_END = true -> nb_oargs (tcg_op_defs op) = 0.
Proof. by destruct op. Qed.

Definition branch_step (C : list Host) (n : nat) (op : TCGOpcode) (a c : list Z) (r : Z -> Z) (h : HS) (w : W) : HStep W :=
  let '(w', k) := m_control mn op (map (val r) a) c w in
  match k with
  | CNext => HNext (S n) h w'
  | CLabel l => match find_host_label C l with Some j => HNext (S j) h w' | None => HStop (OFell w') end
  | CLeave => HStop (OLeave (map (val r) a ++ c) w' (globals ctx r))
  end.

(** Instruction [pc], which ends a basic block, is handled: its operands are
    ready, and all that lives on is in memory. *)
Lemma branch_handled pc op o a c m s h r : keeps pc (IOp op o a c) m -> alone op = false -> op <> INDEX_op_end -> host_op op = true -> writable o -> op_typed op o a -> has_flag op TCG_OPF_BB_END = true ->
  ra_ok s -> grows s0 s -> places (X pc) s h r ->
  exists s5 h5 na ca cd, alloc_insn s (IOp op o a c) (Some m) = Ok (tcg_out s5 (OOp op na ca)) /\ code s5 = code s ++ cd /\ forallb simple cd = true /\ emitted s h s5 h5 /\ ra_ok s5 /\ grows s s5 /\ places (fun t => X pc t /\ survives ctx t = true) s5 h5 r /\
    (forall k, (k < length (temp_local ctx))%nat -> survives ctx (Z.of_nat k) = true -> in_memory s5 k) /\
    forall C w, code (tcg_out s5 (OOp op na ca)) `prefix_of` C -> hst C (length (code s5)) h5 w = Some (branch_step C (length (code s5)) op a c r h5 w).
Proof.
  intros K Al Ne Ho Wr Ot Be As Gs P. pose proof K as (E & E' & _). pose proof (insn_at pc _ E) as (_ & _ & Lo & La & Lc & Fo & Fa). destruct (constraints_good op Ho) as (cs & Ecs & Cok). rewrite <- Lo, <- La in Cok. pose proof (constraints_facts cs _ _ Cok) as Cf.
  assert (Eo : o = []) by (rewrite (bb_end_no_outputs op Be) in Lo; destruct o; [done | unfold len in Lo; cbn in Lo; lia]).
  pose proof (operands_known pc s Gs op o a c m K Wr) as Os. destruct (op_end_good (X pc) r (fun _ => false) op o a c cs m Cf s h (conj As P) Os Be Eo) as (s5 & h5 & na & ca & Ea & Em & A5 & G5 & Fit & Rd & Dc & P5 & M5).
  assert (Gs5 : grows s0 s5) by (by etrans). assert (Lk5 : linked gts s5) by (by eapply linked_grows; [apply start_linked|]). assert (Ng5 : ra_globals s5 = nb_globals ctx) by (rewrite (gr_globals _ _ Gs5); apply (bk_globals B)).
  assert (Sv : forall k, (k < length (temp_local ctx))%nat -> survives ctx (Z.of_nat k) = true -> mortal s k = false) by (intros k Lk Q; rewrite (mortal_survives s Gs) by done; by rewrite Q).
  assert (Ps : places (fun t => X pc t /\ survives ctx t = true) s5 h5 r).
  { eapply places_weaken; [exact P5|]. intros t [Xt Q]. split; [|done]. split; [done|]. pose proof (X_range pc t Xt) as T. unfold temp_ok, nb_temps in T. apply Sv; [lia|]. by rewrite Z2Nat.id by lia. }
  destruct Em as (cd & Ec & Eh & Sc). exists s5, h5, na, ca, cd. split; [by rewrite (alloc_insn_op s op o a c m cs Al Ecs)|]. split; [done|]. split; [done|]. split; [by exists cd|]. split; [done|]. split; [done|]. split; [done|]. split; [intros k Lk Q; by apply M5, Sv|].
  assert (Hg : host_globals gts h5 = globals ctx r).
  { apply (host_globals_eq s5); [done | done|]. intros k ts Ek Hk. pose proof (globals_known pc _ m (Z.of_nat k) K ltac:(cbn; by rewrite Be) ltac:(lia)) as [Xk _]. assert (Qs : survives ctx (Z.of_nat k) = true) by (unfold survives; destruct (Z.ltb_spec (Z.of_nat k) (nb_globals ctx)); [done | lia]).
    pose proof (Ps k ts Ek (conj Xk Qs)) as L. pose proof (X_range pc _ Xk) as T. unfold temp_ok, nb_temps in T. unfold located in L. destruct (fixed_reg ts) eqn:Fx; [destruct (ok_fixed s5 A5 k ts Ek Fx) as (V & _); rewrite V in L; apply L|].
    rewrite (M5 k (Sv k ltac:(lia) Qs) ts Ek Fx) in L. apply L. }
  intros C w Pc. destruct (code_at _ _ _ Pc) as [_ Cat]. assert (Vals : map (val r) a = map r a). { apply map_ext_in. intros t It. unfold TcgSem.TcgSem.val. destruct (Z.eqb_spec t TCG_CALL_DUMMY_ARG) as [->|]; [|done]. rewrite Forall_forall in Fa. by destruct (not_dummy _ (Fa _ It)). }
  assert (No : Z.to_nat (nb_oargs (tcg_op_defs op)) = length o) by (rewrite <- Lo; unfold len; lia). assert (Ni : Z.to_nat (nb_iargs (tcg_op_defs op)) = length a) by (rewrite <- La; unfold len; lia).
  assert (Ins : zip_with trunc (op_itypes op) (reads h5 na ca (length o) (length a)) = map r a) by (rewrite (typed_reads s op o a r) by (done || by apply temps_here); rewrite low_pure; [done | clear - Be; by destruct op]).
  unfold hstep. rewrite Cat. unfold host_op_step. rewrite Ecs, No, Ni, Fit, Ins, Dc. cbn [negb]. rewrite Be. unfold branch_step. rewrite Vals, Hg. by destruct (m_control mn op (map r a) c w) as [w' []].
Qed.

(** ** Every instruction *)

Definition advances (pc : nat) (i : Insn) (x : option Z) (s : RA) : Prop :=
  exists s' cd, alloc_insn s i x = Ok s' /\ code s' = code s ++ cd /\ segment i cd /\ ra_ok s' /\ grows s s' /\ exists h2 v2, places (X (S pc)) s' h2 v2.
Lemma handled_advances pc i x s h r : handled pc i x s h r -> advances pc i x s.
Proof. intros (s' & cd & E & C & Sg & A & G & P & _). by exists s', cd. Qed.

Lemma len_nil {T} (l : list T) : len l = 0 -> l = [].
Proof. destruct l; [done|]. unfold len. cbn. lia. Qed.
Lemma one_arg {T} (l : list T) : len l = 1 -> exists x, l = [x].
Proof. destruct l as [|x [|]]; unfold len; cbn; [lia | by exists x | lia]. Qed.

Lemma insn_handled pc i s h r : p !! pc = Some i -> generable i -> ends_block i = false -> ra_ok s -> grows s0 s -> places (X pc) s h r ->
  exists i' x, p' !! pc = Some i' /\ ia !! pc = Some x /\ handled pc i' x s h r.
Proof.
  intros E Gn Eb As Gs P. destruct i as [o a fl|raw|op o a c].
  - destruct (la_cases pc _ E I) as [[m K]|(E1 & E2 & E3 & E4 & E5)].
    + destruct Gn as (Wr & Lo & params & fn & -> & Nf & Tf). exists (ICall o (params ++ [fn]) fl), (Some m). split; [apply K|]. split; [apply K|]. by apply call_handled.
    + do 2 eexists. split; [exact E1|]. split; [exact E2|]. by apply removed_handled.
  - destruct (la_lookup ctx d0 p pc _ E) as [E1 E2]. do 2 eexists. split; [exact E1|]. split; [exact E2|]. by apply nopn_handled.
  - destruct Gn as (Wr & Ne & Al & Ot). pose proof (insn_at pc _ E) as (_ & _ & Lo & La & Lc & _). destruct (ordinary_dec op) as [Or|K].
    + destruct (la_cases pc _ E Or) as [[m K]|(E1 & E2 & E3 & E4 & E5)]; [|do 2 eexists; split; [exact E1|]; split; [exact E2|]; by apply removed_handled].
      exists (IOp op o a c), (Some m). split; [apply K|]. split; [apply K|]. destruct (alone op) eqn:Ao; [|apply op_handled; try done; by destruct Al].
      destruct op; try discriminate Ao; cbn in Lo, La, Lc; try (by exfalso; unfold ordinary in Or; set_solver);
        try (apply len_nil in Lo as ->; apply nop_handled; [cbn; tauto | done | done | done]);
        apply one_arg in Lo as [d ->]; first [apply one_arg in La as [x ->]; apply len_nil in Lc as ->; by apply mov_handled; [auto|..] | apply len_nil in La as ->; apply one_arg in Lc as [x ->]; by apply movi_handled; [auto|..]].
    + destruct (la_lookup ctx d0 p pc _ E) as [E1 E2]. do 2 eexists. split; [exact E1|]. split; [exact E2|]. destruct K as [-> | [-> | [-> | ->]]]; cbn in Lo, La, Lc.
      * apply len_nil in Lo as ->. apply len_nil in La as ->. apply one_arg in Lc as [l ->]. by apply label_handled.
      * by apply debug_handled.
      * done.
      * apply one_arg in Lo as [t ->]. by apply discard_handled.
Qed.

Lemma branch_advances pc op o a c m s h r : keeps pc (IOp op o a c) m -> alone op = false -> op <> INDEX_op_end -> host_op op = true -> writable o -> op_typed op o a -> has_flag op TCG_OPF_BB_END = true ->
  ra_ok s -> grows s0 s -> places (X pc) s h r -> advances pc (IOp op o a c) (Some m) s.
Proof.
  intros K Al Ne Ho Wr Ot Be As Gs P. destruct (branch_handled pc op o a c m s h r K Al Ne Ho Wr Ot Be As Gs P) as (s5 & h5 & na & ca & cd & Ea & Ec & Sc & Em & A5 & G5 & P5 & M5 & _). pose proof K as (E & _).
  exists (tcg_out s5 (OOp op na ca)), (cd ++ [OOp op na ca]). split; [done|]. split; [cbn; by rewrite Ec, app_assoc|]. split; [left; split; [unfold nolabel; rewrite forallb_app; fold (nolabel cd); by rewrite simple_nolabel | by destruct op]|].
  split; [by apply ok_out|]. split; [etrans; [exact G5|]; apply grows_out|]. exists h5, r. eapply places_weaken; [exact P5|]. intros t Xt. split; [|done]. pose proof (X_range _ t Xt) as T. destruct Xt as (_ & _ & Dt).
  pose proof (df_next (bk_defined B) pc _ t E Dt) as H. assert (Hd : Df pc t /\ survives ctx t = true) by (destruct op; try discriminate Be; exact H). destruct Hd as [Dp Sv]. split; [|done]. by eapply survivor_known.
Qed.

Lemma branch_cases pc op o a c : p !! pc = Some (IOp op o a c) -> generable (IOp op o a c) -> has_flag op TCG_OPF_BB_END = true -> exists m, keeps pc (IOp op o a c) m /\ alone op = false /\ op <> INDEX_op_end /\ host_op op = true /\ writable o /\ op_typed op o a.
Proof.
  intros E (Wr & Ne & Al & Ot) Be. assert (Ao : alone op = false) by (by destruct op). destruct (la_cases pc _ E (alone_ordinary op Ao Ne)) as [[m K]|(_ & _ & _ & _ & Q)]; [|cbn in Q; congruence].
  exists m. split_and!; try done. destruct Al; [congruence | done].
Qed.

Lemma insn_advances pc i s h r : p !! pc = Some i -> generable i -> ra_ok s -> grows s0 s -> places (X pc) s h r -> exists i' x, p' !! pc = Some i' /\ ia !! pc = Some x /\ advances pc i' x s.
Proof.
  intros E Gn As Gs P. destruct (ends_block i) eqn:Eb.
  - destruct i as [| |op o a c]; [done | done|]. destruct (branch_cases pc op o a c E Gn Eb) as (m & K & Ao & Ne & Ho & Wr & Ot). exists (IOp op o a c), (Some m). split; [apply K|]. split; [apply K|]. by eapply branch_advances.
  - destruct (insn_handled pc i s h r E Gn Eb As Gs P) as (i' & x & E1 & E2 & H). exists i', x. split; [done|]. split; [done|]. by eapply handled_advances.
Qed.

(** ** The states of the allocator *)

Fixpoint state_at (pc : nat) : Res RA :=
  match pc with
  | O => Ok s0
  | S pc => let* s := state_at pc in match p' !! pc, ia !! pc with Some i, Some x => alloc_insn s i x | _, _ => Fail OutOfBounds end
  end.

Context (S0 : forall k ts, ra_temps s0 !! k = Some ts -> Z.of_nat k < nb_globals ctx -> fixed_reg ts = false -> val_type ts = TEMP_VAL_MEM) (C0 : code s0 = []).

Lemma start_places h r : host_globals gts h = globals ctx r -> places (X 0) s0 h r.
Proof.
  intros Hg k ts Ek (Hk & _ & Dk). apply (df_start (bk_defined B)) in Dk. assert (Eg : gts !! k = Some ts) by (apply lookup_take_Some; split; [done | lia]).
  assert (Q : global_at h ts = r (Z.of_nat k)). { assert (H : host_globals gts h !! k = globals ctx r !! k) by (by rewrite Hg). unfold host_globals, globals in H. change (map (global_at h) gts) with (global_at h <$> gts) in H. change (map r ?l) with (r <$> l) in H. rewrite !list_lookup_fmap, Eg, lookup_seqZ_lt in H by lia. cbn in H. by injection H as H. }
  unfold global_at in Q. unfold located. destruct (fixed_reg ts) eqn:Fx.
  - destruct (ok_fixed s0 A0 k ts Ek Fx) as (V & _). rewrite V. split; [done | congruence].
  - rewrite (S0 k ts Ek ltac:(lia) Fx). split; [|done]. apply (ok_global s0 A0 k ts Ek); [rewrite (bk_globals B); lia | done].
Qed.
Lemma start_places_some : exists h r, places (X 0) s0 h r.
Proof.
  set (h := mkHS (fun _ => 0) (fun _ _ => 0)). exists h, (fun t => nth (Z.to_nat t) (host_globals gts h) 0). apply start_places. unfold globals. apply list_eq. intros k. change (map ?f (seqZ ?x ?y)) with (f <$> seqZ x y). rewrite list_lookup_fmap.
  pose proof (ok_globals s0 A0) as [G1 G2]. rewrite (bk_globals B) in G1, G2. unfold len in G2. assert (L : length (host_globals gts h) = Z.to_nat (nb_globals ctx)) by (unfold host_globals; rewrite length_map, length_take; lia). destruct (decide (Z.of_nat k < nb_globals ctx)) as [Lk|Lk].
  - destruct (lookup_lt_is_Some_2 (host_globals gts h) k) as [x Ex]; [lia|]. rewrite lookup_seqZ_lt by lia. cbn. by rewrite Z.add_0_l, Nat2Z.id, Ex, (nth_lookup_Some _ _ _ _ Ex).
  - rewrite lookup_seqZ_ge by lia. apply lookup_ge_None. lia.
Qed.

Context (q : list Insn) (Eq : p = q ++ [IOp INDEX_op_end [] [] []]) (Gq : Forall generable q).
Lemma q_at pc : (pc < length q)%nat -> exists i, p !! pc = Some i /\ generable i.
Proof.
  intros L. destruct (lookup_lt_is_Some_2 q pc L) as [i Ei]. exists i. split; [rewrite Eq, lookup_app_l by done; done | by eapply Forall_lookup_1].
Qed.

Lemma states pc : (pc <= length q)%nat -> exists s, state_at pc = Ok s /\ ra_ok s /\ grows s0 s /\ exists h v, places (X pc) s h v.
Proof.
  induction pc as [|pc IH]; intros L; [exists s0; split; [done|]; split; [done|]; split; [done | apply start_places_some]|]. destruct (IH ltac:(lia)) as (s & Es & As & Gs & h & v & P). destruct (q_at pc ltac:(lia)) as (i & Ei & Gi).
  destruct (insn_advances pc i s h v Ei Gi As Gs P) as (i' & x & E1 & E2 & s' & cd & Ea & _ & _ & A' & G' & P'). exists s'. cbn [state_at]. rewrite Es. cbn [res_bind]. rewrite E1, E2. split; [done|]. split; [done|]. split; [by etrans | done].
Qed.
Lemma state_step pc s : (pc < length q)%nat -> state_at pc = Ok s -> exists s' i' x cd, state_at (S pc) = Ok s' /\ p' !! pc = Some i' /\ ia !! pc = Some x /\ alloc_insn s i' x = Ok s' /\ code s' = code s ++ cd /\ segment i' cd /\ grows s s' /\ ra_ok s'.
Proof.
  intros L Es. destruct (states pc ltac:(lia)) as (s1 & Es1 & As & Gs & h & v & P). rewrite Es in Es1. injection Es1 as <-. destruct (q_at pc ltac:(lia)) as (i & Ei & Gi).
  destruct (insn_advances pc i s h v Ei Gi As Gs P) as (i' & x & E1 & E2 & s' & cd & Ea & Ec & Sg & A' & G' & P'). exists s', i', x, cd. cbn [state_at]. rewrite Es. cbn [res_bind]. rewrite E1, E2. by split_and!.
Qed.
Lemma state_mono a b sa sb : (a <= b <= length q)%nat -> state_at a = Ok sa -> state_at b = Ok sb -> grows sa sb.
Proof.
  intros [Lab Lb] Ea. revert sb Lb. induction Lab as [|b Lab IH]; intros sb Lb Eb; [rewrite Ea in Eb; by injection Eb as <-|]. destruct (states b ltac:(lia)) as (s & Es & _). destruct (state_step b s ltac:(lia) Es) as (s' & i' & x & cd & Es' & _ & _ & _ & _ & _ & G & _).
  rewrite Eb in Es'. injection Es' as <-. etrans; [apply (IH s); [lia | done] | done].
Qed.

(** ** Labels *)

Lemma find_label_app a b l : find_label (a ++ b) l = match find_label a l with Some j => Some j | None => (fun j => (length a + j)%nat) <$> find_label b l end.
Proof.
  induction a as [|i a IH]; cbn; [by destruct (find_label b l)|]. destruct (is_label l i); [done|]. rewrite IH. destruct (find_label a l); [done|]. by destruct (find_label b l).
Qed.
Lemma find_host_label_app a b l : find_host_label (a ++ b) l = match find_host_label a l with Some j => Some j | None => (fun j => (length a + j)%nat) <$> find_host_label b l end.
Proof.
  induction a as [|i a IH]; cbn; [by destruct (find_host_label b l)|]. destruct (host_label l i); [done|]. rewrite IH. destruct (find_host_label a l); [done|]. by destruct (find_host_label b l).
Qed.
Lemma nolabel_find c l : nolabel c = true -> find_host_label c l = None.
Proof. induction c as [|i c IH]; [done|]. cbn. intros [H1 H2]%andb_prop. destruct i; try done; cbn; by rewrite IH. Qed.
Lemma find_label_at a l j : find_label a l = Some j -> exists i, a !! j = Some i /\ is_label l i = true.
Proof. revert j. induction a as [|i a IH]; intros j E; [done|]. cbn in E. destruct (is_label l i) eqn:Q; [injection E as <-; by exists i|]. destruct (find_label a l) as [k|]; [|done]. injection E as <-. by apply IH. Qed.

(** The label of the host code is at the end of the code of the label. *)
Lemma labels pc s l : (pc <= length q)%nat -> state_at pc = Ok s ->
  match find_label (take pc p') l with
  | None => find_host_label (code s) l = None
  | Some j => (j < pc)%nat /\ exists sj n, state_at (S j) = Ok sj /\ find_host_label (code s) l = Some n /\ S n = length (code sj)
  end.
Proof.
  revert s. induction pc as [|pc IH]; intros s L Es; [cbn in Es; injection Es as <-; by rewrite C0|]. destruct (states pc ltac:(lia)) as (s1 & Es1 & _). destruct (state_step pc s1 ltac:(lia) Es1) as (s' & i' & x & cd & Es' & Ei & _ & _ & Ec & Sg & _).
  rewrite Es in Es'. injection Es' as <-. rewrite (take_S_r _ _ _ Ei), find_label_app. specialize (IH s1 ltac:(lia) Es1). rewrite Ec, find_host_label_app. destruct (find_label (take pc p') l) as [j|].
  - destruct IH as (Lj & sj & n & Ej & En & Sn). split; [lia|]. exists sj, n. by rewrite En.
  - rewrite IH. assert (Lt : length (take pc p') = pc) by (rewrite length_take; apply lookup_lt_Some in Ei; lia). destruct Sg as [[Nl Ni]|(l' & c' & -> & -> & Nl)].
    + cbn. rewrite (Ni l), (nolabel_find cd l Nl). done.
    + cbn. destruct (Z.eqb_spec l' l) as [->|Nll]; cbn [fmap option_fmap option_map].
      * rewrite find_host_label_app, (nolabel_find c' l Nl). cbn. rewrite Z.eqb_refl. cbn. rewrite Lt, Nat.add_0_r. split; [lia|]. exists s, (length (code s1) + (length c' + 0))%nat. split; [done|]. split; [done|]. rewrite Ec, !length_app. cbn. lia.
      * rewrite find_host_label_app, (nolabel_find c' l Nl). cbn. by destruct (Z.eqb_spec l' l).
Qed.

(** ** The block *)

Context (sE : RA) (EsE : state_at (length q) = Ok sE).
Notation C := (code sE).

Lemma p'_end : p' !! length q = Some (IOp INDEX_op_end [] [] []) /\ ia !! length q = Some None.
Proof.
  assert (E : p !! length q = Some (IOp INDEX_op_end [] [] [])) by (rewrite Eq, lookup_app_r, Nat.sub_diag by lia; done). by destruct (la_lookup ctx d0 p _ _ E) as [E1 E2].
Qed.
Lemma p'_len : length p' = S (length q).
Proof. pose proof (la_from_shape ctx d0 p) as F. apply Forall2_length in F. rewrite <- F, Eq, length_app. cbn. lia. Qed.
Lemma state_prefix pc s : (pc <= length q)%nat -> state_at pc = Ok s -> code s `prefix_of` C.
Proof. intros L Es. destruct (gr_code _ _ (state_mono pc (length q) s sE ltac:(lia) Es EsE)) as [c Ec]. by exists c. Qed.

Lemma block_labels l : match find_label p' l with
  | None => find_host_label C l = None
  | Some j => (j < length q)%nat /\ exists sj n, state_at (S j) = Ok sj /\ find_host_label C l = Some n /\ S n = length (code sj)
  end.
Proof.
  pose proof (labels (length q) sE l ltac:(lia) EsE) as H. destruct p'_end as [Pe _]. assert (Q : find_label p' l = find_label (take (length q) p') l).
  { rewrite <- (take_drop (length q) p') at 1. rewrite (drop_S _ _ _ Pe), drop_ge by (rewrite p'_len; lia). rewrite find_label_app. by destruct (find_label (take (length q) p') l). }
  by rewrite Q.
Qed.

(** At a label the temporaries that live on are where every jump to it has left
    them. *)
Lemma jump_places pc s5 h5 r j sj l : (pc < length q)%nat -> state_at (S pc) = Ok s5 -> places (fun t => X pc t /\ survives ctx t = true) s5 h5 r ->
  (forall k, (k < length (temp_local ctx))%nat -> survives ctx (Z.of_nat k) = true -> in_memory s5 k) -> find_label p' l = Some j -> state_at (S j) = Ok sj -> (j < length q)%nat ->
  (forall t, Df (S j) t -> X (S j) t -> X pc t /\ survives ctx t = true) -> places (X (S j)) sj h5 (bb_clear ctx mn r).
Proof.
  intros Lp Es P5 M5 Fl Esj Lj Hd k tj Ek Xk. assert (Xk' := Xk). destruct Xk' as (_ & _ & Dk). destruct (Hd _ Dk Xk) as [Xp Sv]. pose proof (X_range _ _ Xk) as T. unfold temp_ok, nb_temps in T.
  unfold bb_clear. rewrite Sv. destruct (states (S pc) ltac:(lia)) as (u & Eu & A5 & G5 & _). rewrite Es in Eu. injection Eu as <-. destruct (states (S j) ltac:(lia)) as (u & Eu & Aj & Gj & hj & vj & Pj). rewrite Esj in Eu. injection Eu as <-.
  assert (Mj : in_memory sj k).
  { destruct (find_label_at _ _ _ Fl) as (i & Ei & Il). destruct (q_at j Lj) as (i0 & Ei0 & _). assert (E0 : exists l', i0 = IOp INDEX_op_set_label [] [] [l']).
    { destruct (la_lookup ctx d0 p j i0 Ei0) as [E1 _]. rewrite E1 in Ei. injection Ei as <-. rewrite la_insn_label in Il. pose proof (insn_at j i0 Ei0) as Io. destruct i0 as [| |op o a c]; [done | done|]. destruct op; try done. destruct Io as (_ & _ & Lo & La & Lc & _). cbn in Lo, La, Lc. apply len_nil in Lo as ->. apply len_nil in La as ->. apply one_arg in Lc as [l' ->]. by exists l'. }
    destruct E0 as [l' ->]. destruct (la_lookup ctx d0 p j _ Ei0) as [E1 E2]. cbn [la_insn fst snd] in E1, E2. destruct (states j ltac:(lia)) as (s1 & Es1 & As1 & Gs1 & h1 & v1 & P1). destruct (label_handled j l' s1 h1 v1 Ei0 As1 Gs1 P1) as [_ Lm].
    apply (Lm sj); [|lia | done]. cbn [state_at] in Esj. rewrite Es1 in Esj. cbn [res_bind] in Esj. by rewrite E1, E2 in Esj. }
  destruct (lookup_lt_is_Some_2 (ra_temps s5) k) as [t5 E5]; [rewrite (gr_len _ _ G5), (bk_temps B); lia|]. pose proof (P5 k t5 E5 (conj Xp Sv)) as L5. pose proof (Pj k tj Ek Xk) as Lj'.
  assert (Link : type tj = type t5 /\ fixed_reg tj = fixed_reg t5 /\ (fixed_reg t5 = true -> reg tj = reg t5) /\ (mem_allocated tj = true -> mem_allocated t5 = true -> cell tj = cell t5)).
  { destruct (Nat.le_ge_cases (S j) (S pc)) as [Le|Le].
    - pose proof (state_mono (S j) (S pc) sj s5 ltac:(lia) Esj Es) as Gm. destruct (gr_temps _ _ Gm k tj Ek) as (u & Eu & F & R & _ & M). rewrite E5 in Eu. injection Eu as <-. split_and!; [symmetry; by apply (gr_type _ _ Gm k) | done | intros Q; symmetry; apply R; congruence | intros Q _; by destruct (M Q)].
    - pose proof (state_mono (S pc) (S j) s5 sj ltac:(lia) Es Esj) as Gm. destruct (gr_temps _ _ Gm k t5 E5) as (u & Eu & F & R & _ & M). rewrite Ek in Eu. injection Eu as <-. split_and!; [by apply (gr_type _ _ Gm k) | done | done | intros _ Q; by destruct (M Q)]. }
  destruct Link as (Lt & Lf & Lr & Lc). unfold located in *. destruct (fixed_reg t5) eqn:Fx.
  - destruct (ok_fixed s5 A5 k t5 E5 Fx) as (V5 & _). destruct (ok_fixed sj Aj k tj Ek ltac:(congruence)) as (Vj & _). rewrite V5 in L5. rewrite Vj. split; [rewrite (Lr eq_refl), Lt; apply L5 | congruence].
  - rewrite (Mj tj Ek ltac:(congruence)) in *. rewrite (M5 k ltac:(lia) Sv t5 E5 Fx) in L5. destruct Lj' as [Mk _], L5 as [M5' L5]. split; [done|]. by rewrite (slot_cell _ _ _ (Lc Mk M5')).
Qed.

Lemma branch_sim pc op o a c s h r w x : (pc < length q)%nat -> p !! pc = Some (IOp op o a c) -> has_flag op TCG_OPF_BB_END = true -> state_at pc = Ok s -> places (X pc) s h r -> exec ctx mn p' pc r w = x ->
  match x with
  | Stop out => exists b, rtc (go C) (length (code s), h, w) b /\ hst C b.1.1 b.1.2 b.2 = Some (HStop out)
  | Next pc2 r2 w2 => exists s2 h2, (pc2 <= length q)%nat /\ state_at pc2 = Ok s2 /\ places (X pc2) s2 h2 r2 /\ rtc (go C) (length (code s), h, w) (length (code s2), h2, w2)
  end.
Proof.
  intros Lp Ei Be Es P <-. destruct (q_at pc Lp) as (i & Ei' & Gi). rewrite Ei in Ei'. injection Ei' as <-. destruct (states pc ltac:(lia)) as (u & Eu & As & Gs & _). rewrite Es in Eu. injection Eu as <-.
  destruct (branch_cases pc op o a c Ei Gi Be) as (m & K & Ao & Ne & Ho & Wr & Ot). destruct (branch_handled pc op o a c m s h r K Ao Ne Ho Wr Ot Be As Gs P) as (s5 & h5 & na & ca & cd & Ea & Ec & Sc & Em & A5 & G5 & P5 & M5 & Hs). pose proof K as (_ & E' & E2 & _).
  assert (Es' : state_at (S pc) = Ok (tcg_out s5 (OOp op na ca))) by (cbn [state_at]; rewrite Es; cbn [res_bind]; rewrite E', E2; exact Ea). pose proof (state_prefix (S pc) _ ltac:(lia) Es') as Pc. destruct (code_at _ _ _ Pc) as [Pc5 _].
  pose proof (emit_reach s h s5 h5 C w Em Pc5) as Rc. specialize (Hs C w Pc). unfold branch_step in Hs. rewrite (ordinary_exec ctx mn p' pc op o a c r w (alone_ordinary op Ao Ne) E'). unfold exec_op. rewrite Be.
  destruct (m_control mn op (map (val r) a) c w) as [w' k] eqn:Mc. destruct k as [|l|].
  - exists (tcg_out s5 (OOp op na ca)), h5. split; [lia|]. split; [done|]. split.
    + eapply (places_weaken _ (X (S pc)) s5 h5 r (bb_clear ctx mn r) P5). intros t Xt. pose proof (X_range _ t Xt) as T. destruct Xt as (_ & _ & Dt). pose proof (df_next (bk_defined B) pc _ t Ei Dt) as H.
      assert (Hd : Df pc t /\ survives ctx t = true) by (destruct op; try discriminate Be; exact H). destruct Hd as [Dp Sv]. split; [split; [by eapply survivor_known | done]|]. unfold bb_clear. by rewrite Sv.
    + eapply rtc_r; [exact Rc|]. unfold hgo. cbn [fst snd]. rewrite Hs. cbn. by rewrite length_app, Nat.add_1_r.
  - pose proof (block_labels l) as Bl. destruct (find_label p' l) as [j|] eqn:Fl; [|rewrite Bl in Hs; by eexists; split; [exact Rc|]]. destruct Bl as (Lj & sj & n & Esj & Fn & Sn). rewrite Fn in Hs. exists sj, h5. split; [lia|]. split; [done|]. split.
    + apply (jump_places pc (tcg_out s5 (OOp op na ca)) h5 r j sj l); try done. intros t Dt Xt. rewrite la_find_label in Fl. destruct (df_jump (bk_defined B) pc op o a c l j t Ei Be (hmn_label op _ _ _ _ _ Mc) Fl Dt) as [Dp Sv]. split; [|done]. eapply survivor_known; try done. by eapply X_range.
    + eapply rtc_r; [exact Rc|]. unfold hgo. cbn [fst snd]. by rewrite Hs, Sn.
  - eexists. split; [exact Rc | exact Hs].
Qed.

(** The block after the liveness pass, with what is live: a run of the block in
    which values fit is one of it too. *)
Fixpoint live_run (n pc : nat) (r : Z -> Z) (w : W) : Prop :=
  (forall t, X pc t -> fits t (r t)) /\
  match n with
  | O => True
  | S n => match exec ctx mn p' pc r w with Next pc r w => live_run n pc r w | Stop _ => True end
  end.
Lemma typed_live n pc r r' w : agree (D pc) r r' -> typed_run mn n pc r w -> live_run n pc r' w.
Proof.
  revert pc r r' w. induction n as [|n IH]; intros pc r r' w A [Ty Tn]; (split; [intros t (Ht & L & Dt); specialize (A (Z.to_nat t) L); rewrite Z2Nat.id in A by done; rewrite <- A; by apply Ty|]); [done|].
  pose proof (exec_sim ctx mn (bk_ctx B) CF d0 (start_sized ctx) p (bk_insns B) pc r r' w A) as H. destruct (exec ctx mn p pc r w), (exec ctx mn p' pc r' w); cbn in H; try done. destruct H as (<- & <- & A'). by apply (IH _ _ _ _ A').
Qed.

Lemma block_sim n pc r w s h out : (pc <= length q)%nat -> state_at pc = Ok s -> places (X pc) s h r -> live_run n pc r w -> run ctx mn n p' pc r w = Some out -> exists m, hrun mn gts junk m C (length (code s)) h w = Some out.
Proof.
  revert pc r w s h. induction n as [|n IH]; intros pc r w s h Lp Es P Lr R; [done|]. cbn [run] in R. destruct Lr as [_ Lr].
  assert (Stp : forall b o', rtc (go C) (length (code s), h, w) b -> hst C b.1.1 b.1.2 b.2 = Some (HStop o') -> exists m, hrun mn gts junk m C (length (code s)) h w = Some o').
  { intros b o' Rc Hs. apply (hgo_run mn gts junk C (length (code s), h, w) b o' 1 Rc). cbn. by rewrite Hs. }
  assert (Go : forall pc2 r2 w2 s2 h2, (pc2 <= length q)%nat -> state_at pc2 = Ok s2 -> places (X pc2) s2 h2 r2 -> rtc (go C) (length (code s), h, w) (length (code s2), h2, w2) -> live_run n pc2 r2 w2 -> run ctx mn n p' pc2 r2 w2 = Some out -> exists m, hrun mn gts junk m C (length (code s)) h w = Some out).
  { intros pc2 r2 w2 s2 h2 L2 Es2 P2 Rc Lv R2. destruct (IH pc2 r2 w2 s2 h2 L2 Es2 P2 Lv R2) as [m Hm]. by apply (hgo_run mn gts junk C (length (code s), h, w) (length (code s2), h2, w2) out m Rc). }
  destruct (decide (pc = length q)) as [->|Np].
  { rewrite EsE in Es. injection Es as <-. assert (Ex : exec ctx mn p' (length q) r w = Stop (OFell w)) by (unfold exec; by rewrite (proj1 p'_end)). rewrite Ex in R. injection R as <-. eapply Stp; [apply rtc_refl|]. cbn. unfold hstep. by rewrite (proj2 (lookup_ge_None C (length C))). }
  assert (Lq : (pc < length q)%nat) by lia. destruct (q_at pc Lq) as (i & Ei & Gi). destruct (ends_block i) eqn:Eb.
  - destruct i as [| |op o a c]; [done | done|]. pose proof (branch_sim pc op o a c s h r w _ Lq Ei Eb Es P eq_refl) as Bs. destruct (exec ctx mn p' pc r w) as [pc2 r2 w2|o'].
    + destruct Bs as (s2 & h2 & L2 & Es2 & P2 & Rc). by eapply Go.
    + destruct Bs as (b & Rc & Hs). injection R as <-. by eapply Stp.
  - destruct (states pc ltac:(lia)) as (u & Eu & As & Gs & _). rewrite Es in Eu. injection Eu as <-. destruct (insn_handled pc i s h r Ei Gi Eb As Gs P) as (i' & x & E1 & E2 & s' & cd & Ea & _ & _ & _ & _ & _ & Fo).
    assert (Es' : state_at (S pc) = Ok s') by (cbn [state_at]; rewrite Es; cbn [res_bind]; by rewrite E1, E2). specialize (Fo w C (state_prefix (S pc) s' ltac:(lia) Es')). destruct (exec ctx mn p' pc r w) as [pc2 r2 w2|o'].
    + destruct Fo as (-> & Fo). assert (Fv : forall t, X (S pc) t -> fits t (r2 t)) by (clear - Lr; destruct n; apply Lr). destruct (Fo Fv) as (h' & Rc & P'). apply (Go (S pc) r2 w2 s' h'); [lia | done..].
    + destruct Fo as (b & Rc & Hs). injection R as <-. by eapply Stp.
Qed.
End Sim.
End Block.

End TcgBlock.
