(* ===== verification/TcgCode.v ===== *)
(** * Code generation preserves blocks

    The tables at the start of a block, the consistency check of the allocator,
    and the theorem about the whole of code generation. *)

From stdpp Require Import list sets relations.
From Stdlib Require Import ZifyBool.
From S2P Require Import Prelude Tcg TcgLive TcgSem TcgReg TcgRegInv TcgRegOp TcgRegArgs TcgRegInsn TcgRegCall TcgHost TcgBlock.

Module TcgCode.
Import Tcg TcgLive TcgReg TcgRegInv TcgRegOp TcgRegArgs TcgRegInsn TcgRegCall.
Import TcgSem.TcgSem TcgHost.TcgHost TcgBlock.TcgBlock.

(** ** The start of a block *)

(** The globals are in registers that are set aside or have memory of their own,
    outside the frame, and the frame has room for all temporaries. *)
Record init_ok (s : RA) : Prop := {
  in_globals : 0 <= ra_globals s <= len (ra_temps s);
  in_reserved : reserved_regs s = RESERVED;
  in_fixed k ts : ra_temps s !! k = Some ts -> Z.of_nat k < ra_globals s -> fixed_reg ts = true -> 0 <= reg ts < 16 /\ reserved (reg ts) = true /\ reg ts <> TCG_REG_RSP;
  in_memory_of k ts : ra_temps s !! k = Some ts -> Z.of_nat k < ra_globals s -> fixed_reg ts = false -> mem_allocated ts = true;
  in_cells k k' ts ts' : ra_temps s !! k = Some ts -> ra_temps s !! k' = Some ts' -> Z.of_nat k < ra_globals s -> Z.of_nat k' < ra_globals s -> mem_allocated ts = true -> mem_allocated ts' = true -> meets ts ts' -> k = k';
  in_fresh k ts : ra_temps s !! k = Some ts -> Z.of_nat k < ra_globals s -> mem_allocated ts = true -> mem_reg ts = frame_reg s -> current_frame_offset s < mem_offset ts + size (type ts) -> mem_offset ts < frame_end s -> False;
  in_stack k ts : ra_temps s !! k = Some ts -> Z.of_nat k < ra_globals s -> mem_allocated ts = true -> mem_reg ts <> TCG_REG_RSP;
  in_frame : frame_reg s <> TCG_REG_RSP;
  in_room : align8 (current_frame_offset s) + 8 * len (ra_temps s) <= frame_end s;
  in_code : code s = []
}.

Lemma start_lookup s k u : ra_temps (tcg_reg_alloc_start s) !! k = Some u -> exists ts, ra_temps s !! k = Some ts /\ u = start_temp (ra_globals s) k ts.
Proof. cbn. rewrite list_lookup_imap. destruct (ra_temps s !! k) as [ts|]; [|done]. cbn. intros [= <-]. by exists ts. Qed.
Lemma start_global s k u : ra_temps (tcg_reg_alloc_start s) !! k = Some u -> mem_allocated u = true \/ fixed_reg u = true \/ val_type u = TEMP_VAL_REG ->
  exists ts, ra_temps s !! k = Some ts /\ Z.of_nat k < ra_globals s /\ u = ts <| val_type := if fixed_reg ts then TEMP_VAL_REG else TEMP_VAL_MEM |>.
Proof.
  intros E H. destruct (start_lookup s k u E) as (ts & Et & ->). exists ts. unfold start_temp in *. destruct (Z.ltb_spec (Z.of_nat k) (ra_globals s)); [done|]. cbn in H. by destruct H as [?|[?|?]].
Qed.

Lemma start_ok s : init_ok s -> ra_ok (tcg_reg_alloc_start s).
Proof.
  intros I. assert (Free : forall r k, reg_to_temp (tcg_reg_alloc_start s) !! r = Some k -> k = -1) by (intros r k E; cbn in E; apply lookup_replicate in E as [-> _]; done). split.
  - cbn. by rewrite length_replicate.
  - cbn -[len]. unfold len. rewrite length_imap. apply (in_globals s I).
  - apply (in_reserved s I).
  - intros r k E N. by destruct N; apply (Free r k).
  - intros k u E V. destruct (start_global s k u E (or_intror (or_intror V))) as (ts & Et & Hk & ->). cbn in V. destruct (fixed_reg ts) eqn:F; [|done]. destruct (in_fixed s I k ts Et Hk F) as (Br & _). split; [exact Br|]. intros Q. cbn in Q. congruence.
  - intros k u E F. destruct (start_global s k u E (or_intror (or_introl F))) as (ts & Et & Hk & ->). cbn in F. rewrite F. destruct (in_fixed s I k ts Et Hk F) as (_ & Rr & _). split_and!; [done | exact Rr | exact Hk].
  - intros k u E Hk F. destruct (start_lookup s k u E) as (ts & Et & ->). change (Z.of_nat k < ra_globals s) in Hk. unfold start_temp in *. destruct (Z.ltb_spec (Z.of_nat k) (ra_globals s)); [|lia]. cbn in *. by apply (in_memory_of s I k ts).
  - intros k k' u u' E E' M M' Ce. destruct (start_global s k u E (or_introl M)) as (ts & Et & Hk & ->). destruct (start_global s k' u' E' (or_introl M')) as (ts' & Et' & Hk' & ->). by apply (in_cells s I k k' ts ts').
  - intros k u E M Fr Of Oe. destruct (start_global s k u E (or_introl M)) as (ts & Et & Hk & ->). by apply (in_fresh s I k ts).
  - intros k u E M. destruct (start_global s k u E (or_introl M)) as (ts & Et & Hk & ->). by apply (in_stack s I k ts).
  - apply (in_frame s I).
  - pose proof (in_room s I) as R. change (align8 (current_frame_offset s) + 8 * unplaced (ra_temps (tcg_reg_alloc_start s)) <= frame_end s). enough (unplaced (ra_temps (tcg_reg_alloc_start s)) <= len (ra_temps s)) by lia.
    unfold unplaced, len. cbn -[Z.of_nat]. rewrite <- (length_imap (start_temp (ra_globals s)) (ra_temps s)). apply inj_le, length_filter.
  - intros k u E F. destruct (start_global s k u E (or_intror (or_introl F))) as (ts & Et & Hk & ->). by apply (in_fixed s I k ts).
Qed.
Lemma start_memory s k u : init_ok s -> ra_temps (tcg_reg_alloc_start s) !! k = Some u -> Z.of_nat k < ra_globals s -> fixed_reg u = false -> val_type u = TEMP_VAL_MEM.
Proof. intros I E Hk F. destruct (start_lookup s k u E) as (ts & Et & ->). unfold start_temp in *. destruct (Z.ltb_spec (Z.of_nat k) (ra_globals s)); [|lia]. cbn in *. by rewrite F. Qed.

(** ** The check of the tables *)

Lemma all_ok_all f l : (forall x, In x l -> f x = Ok tt) -> all_ok f l = Ok tt.
Proof. induction l as [|x l IH]; intros H; [done|]. cbn. rewrite (H x ltac:(by left)). cbn. apply IH. intros y Iy. apply H. by right. Qed.
Lemma check_regs_ok s : ra_ok s -> check_regs s = Ok tt.
Proof.
  intros A. unfold check_regs. rewrite (all_ok_all (check_reg s)); cbn [res_bind].
  - apply all_ok_all. intros t It. apply list_elem_of_In, elem_of_seqZ in It. destruct (Z_of_nat_complete t ltac:(lia)) as [k ->]. destruct (lookup_lt_is_Some_2 (ra_temps s) k) as [ts E]; [lia|]. unfold check_temp. rewrite (temp_at_ok s k ts E). cbn [res_bind].
    case_bool_decide as V; [|done]. destruct (fixed_reg ts) eqn:F; [done|]. cbn [negb andb]. destruct (ok_reg s A k ts E V) as [B O]. destruct (O F) as [Ow _]. destruct (owner_ok s (reg ts) A B) as (k' & E1 & ->). cbn [res_bind]. rewrite Ow in E1. injection E1 as <-. by rewrite Z.eqb_refl.
  - intros r Ir. apply list_elem_of_In, elem_of_seqZ in Ir. destruct (owner_ok s r A Ir) as (k & Ek & Ea). unfold check_reg. rewrite Ea. cbn [res_bind]. destruct (Z.leb_spec 0 k) as [Hk|]; [|done].
    destruct (ok_owner s A _ _ Ek ltac:(lia)) as (_ & ts & E & V & R). destruct (Z_of_nat_complete k Hk) as [n ->]. rewrite Nat2Z.id in E. rewrite (temp_at_ok s n ts E). cbn [res_bind]. rewrite bool_decide_false by (by intros []). rewrite R, Z2Nat.id, Z.eqb_refl by lia. done.
Qed.

(** ** A block *)

Definition not_end (i : Insn) : bool := match i with IOp INDEX_op_end _ _ _ => false | _ => true end.
Lemma alloc_block_cons s i p x ia : not_end i = true -> alloc_block s (i :: p) (x :: ia) = (let* s := alloc_insn s i x in let* _ := check_regs s in alloc_block s p ia).
Proof. intros N. destruct i as [| |op o a c]; [done | done|]. by destruct op. Qed.

Section Code.
Context (ctx : TCGContext) (s0 : RA) (p : list Insn) (Df : nat -> Z -> Prop) (B : block_ok ctx s0 p Df) (A0 : ra_ok s0).
Context {W : Type} (mn : Meaning W) (junk : HS -> HS) (CF : CallFlags mn).
Notation gts := (take (Z.to_nat (nb_globals ctx)) (ra_temps s0)).
Context (HM : HostMeaning mn gts).
Context (S0 : forall k ts, ra_temps s0 !! k = Some ts -> Z.of_nat k < nb_globals ctx -> fixed_reg ts = false -> val_type ts = TEMP_VAL_MEM) (C0 : code s0 = []).
Context (q : list Insn) (Eq : p = q ++ [IOp INDEX_op_end [] [] []]) (Gq : Forall (generable s0) q).
Notation d0 := (replicate (length (temp_local ctx)) true).
Notation p' := (la_from ctx d0 p).1.1.
Notation ia := (la_from ctx d0 p).2.
Notation state := (state_at ctx s0 p).

Lemma la_not_end pc i i' : p !! pc = Some i -> generable s0 i -> p' !! pc = Some i' -> not_end i' = true.
Proof.
  intros E G E'. pose proof (la_from_shape ctx d0 p) as F. destruct (Forall2_lookup_l _ _ _ _ _ F E) as (i2 & E2 & H). rewrite E' in E2. injection E2 as <-. destruct H as [->| ->].
  - destruct i as [| |op o a c]; [done | done|]. destruct G as (_ & N & _). by destruct op.
  - unfold nop_of. by repeat case_match.
Qed.

(** The loop goes through the states of the block, and its check of the tables
    never fails. *)
Lemma block_runs n pc s sE : (n + pc = length q)%nat -> state pc = Ok s -> state (length q) = Ok sE -> alloc_block s (drop pc p') (drop pc ia) = Ok sE.
Proof.
  revert pc s. induction n as [|n IH]; intros pc s L Es EE.
  - cbn in L. subst pc. rewrite Es in EE. injection EE as <-. destruct (p'_end ctx p q Eq) as [Pe Ie]. by rewrite (drop_S _ _ _ Pe), (drop_S _ _ _ Ie).
  - destruct (q_at s0 p q Eq Gq pc ltac:(lia)) as (i & Ei & Gi). destruct (state_step ctx s0 p Df B A0 mn junk CF HM S0 q Eq Gq pc s ltac:(lia) Es) as (s' & i' & x & cd & Es' & Ep & Ex & Ea & _ & _ & _ & A').
    rewrite (drop_S _ _ _ Ep), (drop_S _ _ _ Ex), alloc_block_cons by (by eapply la_not_end). rewrite Ea. cbn [res_bind]. rewrite (check_regs_ok s' A'). cbn [res_bind]. apply IH; [lia | done | done].
Qed.
End Code.

(** The globals of a block as the tables have them when its code starts. *)
Definition block_globals (ctx : TCGContext) (s : RA) : list Temp := take (Z.to_nat (nb_globals ctx)) (ra_temps (tcg_reg_alloc_start s)).

(** C8: code generation preserves blocks.  For every block of operations the
    x86_64 host has, whose operands have the types of the operations and none of
    whose outputs is a global in a fixed register, whose temporaries are written
    before they are read, and for which the frame has room for all temporaries,
    the liveness pass and the register allocator end normally (no [abort], no
    failed assertion, no frame overflow, and the consistency check of the tables
    passes after every instruction), and the host code leaves the block as the
    block does: from every host state whose globals have the values of the machine
    state, every run of the block in which each value fits the type of its
    temporary has a run of the host code with the same outcome, that is, the same
    way out, the same values, the same globals and the same world.  Registers of
    the host have 64 bits and its memory is bytes: spills, reloads, constants and
    arguments move 4 or 8 bytes as their type says, and the upper half of a
    register that holds a 32-bit value is arbitrary.  Whatever the meaning of the
    operations, as long as functions respect the flags of their calls
    ([CallFlags]), moves move, extensions read the low half of their input,
    branches go to labels they name, and functions and guest accesses leave globals
    in fixed registers alone ([HostMeaning]). *)
Theorem tcg_gen_code_preserves {W} (ctx : TCGContext) (mn : Meaning W) (junk : HS -> HS) (s : RA) (p : list Insn) (Df : nat -> Z -> Prop) :
  CallFlags mn -> HostMeaning mn (block_globals ctx s) -> init_ok s -> block_ok ctx (tcg_reg_alloc_start s) p Df ->
  exists p' ia s', tcg_liveness_analysis ctx (map opcode_of p) (enc p) = Ok (map opcode_of p', enc p', ia) /\
    tcg_gen_code s p' ia = Ok s' /\
    forall n r w h out, host_globals (block_globals ctx s) h = globals ctx r -> typed_run ctx (tcg_reg_alloc_start s) p Df mn n 0 r w -> run ctx mn n p 0 r w = Some out ->
      exists m, hrun mn (block_globals ctx s) junk m (code s') 0 h w = Some out.
Proof.
  intros CF HM I B. pose proof (start_ok s I) as A0. pose proof (bk_ctx _ _ _ _ B) as Cx. pose proof (bk_insns _ _ _ _ B) as Fp. destruct (bk_end _ _ _ _ B) as (q & Eq & Gq).
  assert (S0 : forall k ts, ra_temps (tcg_reg_alloc_start s) !! k = Some ts -> Z.of_nat k < nb_globals ctx -> fixed_reg ts = false -> val_type ts = TEMP_VAL_MEM).
  { intros k ts E Hk. rewrite <- (bk_globals _ _ _ _ B) in Hk. by apply (start_memory s k ts I E). }
  pose proof (in_code s I : code (tcg_reg_alloc_start s) = []) as C0. destruct (states ctx _ p Df B A0 mn junk CF HM S0 q Eq Gq (length q) ltac:(lia)) as (sE & EsE & _).
  set (d0 := replicate (length (temp_local ctx)) true). exists (la_from ctx d0 p).1.1, (la_from ctx d0 p).2, sE. split_and!.
  - rewrite (liveness_refines ctx Cx p Fp). unfold la_prog. by destruct (la_from ctx _ p) as [[p' d'] ia].
  - exact (block_runs ctx _ p Df B A0 mn junk CF HM S0 q Eq Gq (length q) 0 _ sE ltac:(lia) eq_refl EsE).
  - intros n r w h out Hg Ty R. rewrite (run_sim ctx mn Cx CF d0 (start_sized ctx) p Fp n 0 r r w (agree_refl _ _)) in R.
    pose proof (block_sim ctx _ p Df B A0 mn junk CF HM S0 C0 q Eq Gq sE EsE n 0 r w _ h out ltac:(lia) eq_refl (start_places ctx _ p Df B A0 S0 h r Hg) (typed_live ctx _ p Df B mn CF n 0 r r w (agree_refl _ _) Ty) R) as H. by rewrite C0 in H.
Qed.

End TcgCode.
