(* ===== verification/TcgRun.v ===== *)
(** * A block of intermediate code

    A concrete meaning of the operations, a table of two helpers and a block
    that calls them, on which the theorems about the passes of tcg.c apply; and
    where the masks S2E computes differ from what is said of them. *)

From stdpp Require Import list sets.
From S2P Require Import Prelude TbCache Tcg TcgLive TcgSem TcgMask TcgGen TcgReg TcgRegInv TcgHost TcgBlock TcgCode.

Module TcgRun.
Import Tcg TcgLive TcgSem TcgMask TcgGen.

(** ** Meaning *)

Definition sum (l : list Z) : Z := foldr Z.add 0 l.

(** The world is a log of effects.  Function 100 reads global 1, function 200
    reads and writes global 2. *)
Definition demo_call (fl : Z) (args w gs : list Z) : list Z * list Z * list Z * bool :=
  if nz (Z.land fl TCG_CALL_CONST) then (w, gs, [u32 (sum args)], false)
  else if bool_decide (fn_of args = Some 100) then (w, gs, [nth 1 gs 0], false)
  else if negb (nz (Z.land fl TCG_CALL_PURE)) && bool_decide (fn_of args = Some 200) then (args ++ w, <[2%nat := u32 (nth 2 gs 0 + 1)]> gs, [], false)
  else (w, gs, [u32 (sum args)], false).

Definition demo_meaning : Meaning (list Z) := {|
  m_pure op ins c w := match op with INDEX_op_movi_i32 | INDEX_op_movi_i64 => c | INDEX_op_add_i32 => [u32 (sum ins)] | _ => ins end;
  m_effect op ins c w := (ins ++ c ++ w, []);
  m_access op ins c w gs := (ins ++ w, gs, [u32 (sum ins)], false);
  m_control op ins c w :=
    match op, ins, c with
    | INDEX_op_br, _, [l] => (w, CLabel l)
    | INDEX_op_brcond_i32, [x; y], [_; l] => (w, if x =? y then CLabel l else CNext)
    | INDEX_op_goto_tb, _, _ => (w, CNext)
    | _, _, _ => (w, CLeave)
    end;
  m_call := demo_call;
  m_junk _ := -1
|}.

#[export] Instance demo_flags : CallFlags demo_meaning.
Proof.
  split.
  - intros fl args w gs H. cbn. unfold demo_call. rewrite H. destruct (nz (Z.land fl TCG_CALL_CONST)); [eexists; reflexivity|]. case_bool_decide; cbn; eexists; reflexivity.
  - intros fl args w H. exists w, [u32 (sum args)]. intros gs. cbn. unfold demo_call. by rewrite H.
Qed.

Definition demo_helpers : HelperTable :=
  tcg_register_helper_with_reg_mask (tcg_register_helper_with_reg_mask (mkHelperTable [] false) 200 4 4 0) 100 2 0 0.

Lemma demo_table : table_ok demo_helpers.
Proof. split; [|done]. cbn. repeat constructor; set_solver. Qed.

#[export] Instance demo_masks : RegMasks demo_meaning demo_helpers.
Proof.
  split; [done | intros; do 3 eexists; reflexivity|]. intros func fr fw fa fl args w gs gs' Em Ef L G. cbn. unfold demo_call.
  assert (Same : forall vs : list Z, exists w1 vs' l gs1 gs2, (w, gs, vs, false) = (w1, gs1, vs', l) /\ (w, gs', vs, false) = (w1, gs2, vs', l) /\
    forall g, if Z.testbit fw (Z.of_nat g) then gs1 !! g = gs2 !! g else gs1 !! g = gs !! g /\ gs2 !! g = gs' !! g).
  { intros vs. exists w, vs, false, gs, gs'. split_and!; [done..|]. intros g. destruct (Z.testbit fw (Z.of_nat g)) eqn:E; [|done]. apply G. by right. }
  destruct (nz (Z.land fl TCG_CALL_CONST)); [apply Same|]. rewrite Ef. case_bool_decide as E1.
  - injection E1 as ->. vm_compute in Em. injection Em as <- <- <-. rewrite !nth_lookup. rewrite (G 1%nat) by (by left). apply Same.
  - destruct (negb _); [|apply Same]. case_bool_decide as E2; [|apply Same]. injection E2 as ->. vm_compute in Em. injection Em as <- <- <-.
    cbn [andb]. rewrite !nth_lookup, (G 2%nat) by (by left). do 5 eexists. split_and!; [reflexivity..|]. intros g. destruct (decide (g = 2%nat)) as [->|N].
    + cbn. destruct (decide (2 < length gs)%nat); [rewrite !list_lookup_insert_eq by lia; done|]. by rewrite !list_insert_ge, G by (lia || by left).
    + rewrite !list_lookup_insert_ne by done. destruct (Z.testbit 4 (Z.of_nat g)) eqn:T; [apply G; by left | done].
Qed.

(** ** The block *)

(** Four globals, two temporaries and a local temporary. *)
Definition demo_ctx : TCGContext := mkTCGContext 4 [false; false; false; false; false; false; true].

Definition demo_block : list Insn := [
  IOp INDEX_op_debug_insn_start [] [] [4096];
  IOp INDEX_op_movi_i64 [4] [] [100];
  ICall [5] [4] TCG_CALL_PURE;
  IOp INDEX_op_movi_i64 [4] [] [100];
  ICall [6] [4] TCG_CALL_PURE;
  IOp INDEX_op_movi_i64 [4] [] [200];
  ICall [] [6; 4] 0;
  IOp INDEX_op_movi_i32 [5] [] [7];
  IOp INDEX_op_brcond_i32 [] [6; 5] [0; 1];
  IOp INDEX_op_mov_i32 [2] [6] [];
  IOp INDEX_op_set_label [] [] [1];
  IOp INDEX_op_exit_tb [] [] [0];
  IOp INDEX_op_end [] [] []].

Lemma demo_ctx_ok : ctx_ok demo_ctx.
Proof. by split. Qed.
Lemma demo_block_ok : Forall (insn_ok demo_ctx) demo_block.
Proof. repeat constructor; done || by right. Qed.
(** ** The theorems on the block *)

Lemma liveness_preserves_witness :
  exists p' ia, tcg_liveness_analysis demo_ctx (map opcode_of demo_block) (enc demo_block) = Ok (map opcode_of p', enc p', ia) /\
    Forall2 (fun i i' => i' = i \/ i' = nop_of (params_of i)) demo_block p' /\
    forall n r w, run demo_ctx demo_meaning n demo_block 0 r w = run demo_ctx demo_meaning n p' 0 r w.
Proof. exact (liveness_preserves demo_ctx demo_meaning demo_block demo_flags demo_ctx_ok demo_block_ok). Defined.

(** The first call and its function are removed, the function of the second is
    not needed after the call. *)
Example demo_liveness : exists params ia, tcg_liveness_analysis demo_ctx (map opcode_of demo_block) (enc demo_block) =
  Ok ([INDEX_op_debug_insn_start; INDEX_op_nopn; INDEX_op_nopn; INDEX_op_movi_i64; INDEX_op_call; INDEX_op_movi_i64; INDEX_op_call;
       INDEX_op_movi_i32; INDEX_op_brcond_i32; INDEX_op_mov_i32; INDEX_op_set_label; INDEX_op_exit_tb; INDEX_op_end], params, ia) /\ ia !! 4%nat = Some (Some 1).
Proof. do 2 eexists. by vm_compute. Qed.

Lemma dead_inputs_sound_witness : inputs_of (ICall [6] [4] TCG_CALL_PURE) !! 0%nat = Some 4 /\
  (4 ∈ [6] \/ forall n r w v, run demo_ctx demo_meaning n demo_block 5 (upd r 4 v) w = run demo_ctx demo_meaning n demo_block 5 r w).
Proof.
  split; [done|].
  destruct (dead_inputs_sound demo_ctx demo_meaning demo_block _ _ _ 4 (ICall [6] [4] TCG_CALL_PURE) 1 0 demo_flags demo_ctx_ok demo_block_ok
    ltac:(vm_compute; reflexivity) eq_refl eq_refl eq_refl) as (t & Et & H).
  injection Et as <-. exact H.
Defined.

Lemma find_helper_correct_witness : exists r, tcg_find_helper demo_helpers 100 = Ok r /\ r = Some (mkTCGHelperInfo 100 2 0 0).
Proof.
  destruct (find_helper_correct demo_helpers 100 demo_table) as (r & E & _ & H). exists r. split; [done|]. apply H. split; [set_solver | done].
Defined.

(** The block of the translator, with the masks of [demo_block]. *)
Definition demo_tb : TbCache.TranslationBlock :=
  TbCache.mkTB 0 0 0 0 0 0 None (TbCache.mkTwo None None) (TbCache.mkTwo 0 0) (TbCache.mkTwo 0 0) (TbCache.mkTwo 0 0) (TbCache.mkTwo None None) None
    (TbCache.mkTwo None None) 6 4 0.
Definition demo_regs (ebx : Z) : Z -> Z := fun i => if i =? 3 then ebx else 10 + i.

(** Symbolic register 3 does not change what the block does. *)
Lemma native_ignores_symbolic_witness : TbCache.touches demo_tb 8 = false /\ exists x x',
  run demo_ctx demo_meaning 20 demo_block 0 (demo_regs 13) [] = Some x /\ run demo_ctx demo_meaning 20 demo_block 0 (demo_regs 99) [] = Some x' /\
  outcome_rel demo_ctx 8 (demo_regs 13) (demo_regs 99) x x'.
Proof.
  split; [reflexivity|].
  destruct (native_ignores_symbolic demo_ctx demo_meaning demo_helpers demo_block demo_flags demo_masks demo_ctx_ok ltac:(by cbn) ltac:(by cbn) ltac:(cbn; set_solver)
    demo_block_ok eq_refl) as (opc & params & ia & rm & wm & am & E1 & E2 & H).
  vm_compute in E1. injection E1 as <- <- <-. vm_compute in E2. injection E2 as <- <- <-.
  specialize (H demo_tb 8 eq_refl eq_refl eq_refl 20%nat (demo_regs 13) (demo_regs 99) []).
  do 2 eexists. split; [reflexivity|]. split; [reflexivity|]. apply H. intros i Hi. unfold demo_regs. destruct (Z.eqb_spec i 3) as [->|]; [discriminate Hi | reflexivity].
Defined.

(** ** Where the masks differ from what is said of them *)

(** Globals are also temporaries: the array of constants, which is cleared for
    globals and temporaries, is overrun in a context with as many temporaries as
    are allowed. *)
Theorem regmask_overruns : exists s, ctx_ok s /\ nb_temps s <= TCG_MAX_TEMPS /\ tcg_calc_regmask s demo_helpers [] [] = Fail OutOfBounds.
Proof. exists (mkTCGContext 13 (replicate 512 false)). split; [split; vm_compute; split; congruence|]. by vm_compute. Qed.

(** A branch over a write: the register is read after it. *)
Definition skip_block : list Insn := [
  IOp INDEX_op_brcond_i32 [] [1; 1] [0; 1];
  IOp INDEX_op_mov_i32 [2] [1] [];
  IOp INDEX_op_set_label [] [] [1];
  IOp INDEX_op_mov_i32 [3] [2] [];
  IOp INDEX_op_exit_tb [] [] [0];
  IOp INDEX_op_end [] [] []].

(** The read mask is not the set of registers a block reads before it writes
    them: a write that may be skipped hides a read after it. *)
Theorem rmask_misses_read : Forall (insn_ok demo_ctx) skip_block /\
  tcg_calc_regmask demo_ctx demo_helpers (map opcode_of skip_block) (enc skip_block) = Ok (2, 12, 0) /\
  forall v, run demo_ctx demo_meaning 5 skip_block 0 (fun i => if i =? 2 then v else 0) [] = Some (OLeave [0] [] [0; 0; v; v]).
Proof. split; [repeat constructor; done|]. split; [by vm_compute|]. intros v. by vm_compute. Qed.
(** ** Emission *)

Definition demo_gen : Gen := tcg_func_start (mkGen 4 4 (replicate 512 (mkTCGTemp 0 false false 0)) [] [] []).

Lemma demo_gen_ok : alloc_ok demo_gen.
Proof. apply func_start_ok; by vm_compute. Qed.

Lemma temps_refine_witness : exists s', tcg_temp_new_internal demo_gen TCG_TYPE_I64 true = Ok (4, s') /\ alloc_ok s' /\ in_use s' 4 = Some (TCG_TYPE_I64, true).
Proof.
  destruct (temps_refine demo_gen demo_gen_ok) as [H _]. specialize (H TCG_TYPE_I64 true (or_intror eq_refl)).
  assert (E : exists s', tcg_temp_new_internal demo_gen TCG_TYPE_I64 true = Ok (4, s')) by (eexists; reflexivity).
  destruct E as [s' E]. rewrite E in H. destruct H as (A & _ & U & _). exists s'. split; [exact E|]. split; [exact A|]. rewrite U. reflexivity.
Defined.

Lemma helper_call_emitted_witness : exists s' fn, tcg_gen_helperN demo_gen 100 TCG_CALL_PURE 2 [3] = Ok s' /\
  emits s' ([] ++ [IOp INDEX_op_movi_i64 [fn] [] [100]; ICall (rets_of 2) ([3] ++ [fn]) TCG_CALL_PURE]).
Proof.
  assert (H : emits demo_gen []) by (split; done).
  pose proof (helper_call_emitted demo_gen [] 100 TCG_CALL_PURE 2 [3] demo_gen_ok H ltac:(right; by vm_compute) ltac:(constructor; [by vm_compute | constructor]) ltac:(by vm_compute)) as E.
  assert (R : exists s', tcg_gen_helperN demo_gen 100 TCG_CALL_PURE 2 [3] = Ok s') by (eexists; vm_compute; reflexivity).
  destruct R as [s' R]. rewrite R in E. destruct E as (fn & _ & _ & _ & Em). exists s', fn. split; [exact R | exact Em].
Defined.

(** The temporary of the first helper call serves the second one. *)
Example demo_two_calls : exists s1 s2, tcg_gen_helperN demo_gen 100 TCG_CALL_PURE 2 [] = Ok s1 /\ tcg_gen_helperN s1 200 0 TCG_CALL_DUMMY_ARG [2] = Ok s2 /\
  g_opparam s2 = [4; 100; 65537; 2; 4; 16; 5; 4; 200; 2; 2; 4; 0; 5] /\ g_temps s2 = 5.
Proof. do 2 eexists. split; [vm_compute; reflexivity|]. split; [vm_compute; reflexivity|]. split; vm_compute; reflexivity. Qed.

(** ** Host code for the block *)

(** The same meaning on a machine with words of 32 and 64 bits. *)
Definition host_meaning : Meaning (list Z) := {|
  m_pure op ins c w :=
    match op with
    | INDEX_op_movi_i32 | INDEX_op_movi_i64 => map (TcgRegInv.trunc (TcgHost.op_type op)) c
    | INDEX_op_add_i32 => [u32 (sum ins)]
    | _ => map (TcgRegInv.trunc (TcgHost.op_type op)) ins
    end;
  m_effect := m_effect demo_meaning;
  m_access := m_access demo_meaning;
  m_control := m_control demo_meaning;
  m_call := m_call demo_meaning;
  m_junk := m_junk demo_meaning
|}.
#[export] Instance host_flags : CallFlags host_meaning.
Proof. split; [exact (@call_pure _ demo_meaning demo_flags) | exact (@call_const _ demo_meaning demo_flags)]. Qed.

(** The CPU state is global 0, in the register set aside for it; the other
    globals are 32-bit fields of it, one next to the other, and the frame is part
    of it too.  Of the temporaries one is for functions, the others are 32-bit
    values. *)
Definition demo_global (off : Z) : TcgReg.Temp := TcgReg.mkTemp TCG_TYPE_I32 TcgReg.TEMP_VAL_DEAD 0 0 TcgReg.TCG_REG_R14 off false false true false.
Definition demo_temp (ty : Z) (local : bool) : TcgReg.Temp := TcgReg.mkTemp ty TcgReg.TEMP_VAL_DEAD 0 0 0 0 false false false local.
Definition demo_tables : TcgReg.RA :=
  TcgReg.mkRA 4 [TcgReg.mkTemp TCG_TYPE_I64 TcgReg.TEMP_VAL_DEAD TcgReg.TCG_REG_R14 0 0 0 true false false false; demo_global 0; demo_global 4; demo_global 8;
      demo_temp TCG_TYPE_I64 false; demo_temp TCG_TYPE_I32 false; demo_temp TCG_TYPE_I32 true]
    [] TcgRegInv.RESERVED 1000 2000 TcgReg.TCG_REG_R14 [].

(** The temporaries that have a value before each instruction. *)
Definition demo_values : list (list Z) :=
  [[0; 1; 2; 3]; [0; 1; 2; 3]; [0; 1; 2; 3; 4]; [0; 1; 2; 3; 4; 5]; [0; 1; 2; 3; 4; 5]; [0; 1; 2; 3; 4; 5; 6]; [0; 1; 2; 3; 4; 5; 6]; [0; 1; 2; 3; 4; 5; 6]; [0; 1; 2; 3; 4; 5; 6];
    [0; 1; 2; 3; 6]; [0; 1; 2; 3; 6]; [0; 1; 2; 3; 6]; [0; 1; 2; 3; 6]; [0; 1; 2; 3; 6]].
Definition demo_defined (pc : nat) (t : Z) : Prop := In t (nth pc demo_values []).

#[export] Instance demo_host : TcgBlock.HostMeaning host_meaning (TcgCode.block_globals demo_ctx demo_tables).
Proof.
  split.
  - intros op x c w [-> | ->]; done.
  - intros op x w [-> | ->]; done.
  - intros op ins c w H. assert (Q : m_pure host_meaning op ins c w = map (TcgRegInv.trunc TCG_TYPE_I32) ins) by (by destruct op). assert (Q' : m_pure host_meaning op (map (TcgRegInv.trunc TCG_TYPE_I32) ins) c w = map (TcgRegInv.trunc TCG_TYPE_I32) (map (TcgRegInv.trunc TCG_TYPE_I32) ins)) by (by destruct op).
    rewrite Q, Q', map_map. apply map_ext. intros x. apply TcgRegInv.trunc_trunc.
  - intros op ins c w w' l H. cbn in H. destruct op; try discriminate H.
    + destruct c as [|? [|? ?]]; try discriminate H. injection H as _ ->. by left.
    + destruct ins as [|x [|y [|? ?]]]; try discriminate H. destruct c as [|? [|? [|? ?]]]; try discriminate H. destruct (x =? y); [|discriminate H]. injection H as _ ->. right. by left.
  - intros op ins c w gs w' gs' vs b k g H _ _. cbn in H. by injection H as _ <- _ _.
  - intros fl args w gs w' gs' vs b k g H Ek Fx. assert (k = 0%nat) as ->.
    { do 4 (destruct k as [|k]; [first [done | vm_compute in Ek; injection Ek as <-; discriminate Fx]|]). vm_compute in Ek. discriminate Ek. }
    cbn in H. unfold demo_call in H. repeat case_match; injection H as _ <- _ _; try done. destruct gs as [|? [|? [|? ?]]]; done.
Qed.

Lemma demo_tables_ok : TcgCode.init_ok demo_tables.
Proof.
  split; try done.
  - intros k ts E Hk F. do 4 (destruct k as [|k]; [first [injection E as <-; done | injection E as <-; by split_and!]|]). cbn in Hk. lia.
  - intros k ts E Hk F. do 4 (destruct k as [|k]; [injection E as <-; done|]). cbn in Hk. lia.
  - intros k k' ts ts' E E' Hk Hk' M M' (C1 & C2 & C3). cbn in Hk, Hk'. do 4 (destruct k as [|k]; [injection E as <-; do 4 (destruct k' as [|k']; [injection E' as <-; first [done | discriminate M | discriminate M' | cbn in C2, C3; lia]|]); lia|]). lia.
  - intros k ts E Hk M F Of Oe. cbn in Hk. do 4 (destruct k as [|k]; [injection E as <-; first [discriminate M | cbn in Of; lia]|]). lia.
  - intros k ts E Hk M. cbn in Hk. do 4 (destruct k as [|k]; [injection E as <-; first [discriminate M | done]|]). lia.
Qed.

Lemma demo_defined_ok : TcgBlock.defined demo_ctx demo_block demo_defined.
Proof.
  split.
  - intros t H. cbn in *. lia.
  - intros pc t L Ht. cbn in L, Ht. unfold demo_defined. do 14 (destruct pc as [|pc]; [cbn; lia|]). lia.
  - intros pc i t E It Nt. unfold demo_defined. do 13 (destruct pc as [|pc]; [injection E as <-; cbn in *; lia|]). done.
  - intros pc i t E H. unfold demo_defined in *. do 13 (destruct pc as [|pc]; [injection E as <-; cbn in *; repeat destruct H as [<-|H]; try done; vm_compute; intuition auto|]). done.
  - intros pc op o a c l j t E Be Il Fl H. unfold demo_defined in *. do 13 (destruct pc as [|pc]; [cbn in E; try discriminate E; injection E as <- <- <- <-; try discriminate Be; cbn in Il; repeat destruct Il as [<-|Il]; try done; try discriminate Fl; injection Fl as <-; cbn in *; repeat destruct H as [<-|H]; try done; vm_compute; intuition auto|]). done.
Qed.

Lemma demo_generable : TcgBlock.block_ok demo_ctx (TcgReg.tcg_reg_alloc_start demo_tables) demo_block demo_defined.
Proof.
  split; [exact demo_ctx_ok | exact demo_block_ok | | done | done | | exact demo_defined_ok].
  - exists (take 12 demo_block). split; [done|]. assert (Wr : forall o, NoDup o -> (forall t, In t o -> 1 <= t) -> TcgBlock.writable (TcgReg.tcg_reg_alloc_start demo_tables) o).
    { intros o Nd Ho. split; [done|]. intros t ts It E. specialize (Ho t It). destruct (Z.to_nat t) as [|k] eqn:Q; [lia|]. do 6 (destruct k as [|k]; [vm_compute in E; by injection E as <-|]). done. }
    assert (N1 : forall t, 1 <= t -> TcgBlock.writable (TcgReg.tcg_reg_alloc_start demo_tables) [t]) by (intros t Ht; apply Wr; [apply NoDup_singleton | intros u [<-|[]]; done]).
    assert (N0 : TcgBlock.writable (TcgReg.tcg_reg_alloc_start demo_tables) []) by (apply Wr; [constructor | done]).
    assert (Ht : forall ty t, TcgReg.type <$> TcgReg.ra_temps (TcgReg.tcg_reg_alloc_start demo_tables) !! Z.to_nat t = Some ty -> TcgBlock.has_type (TcgReg.tcg_reg_alloc_start demo_tables) ty t) by (intros ty t Q ts E; rewrite E in Q; by injection Q).
    assert (Hc : forall params, exists ps fn, params ++ [4] = ps ++ [fn] /\ fn <> TCG_CALL_DUMMY_ARG /\ TcgBlock.has_type (TcgReg.tcg_reg_alloc_start demo_tables) TCG_TYPE_I64 fn) by (intros params; exists params, 4; split_and!; [done | done | by apply Ht]).
    repeat apply Forall_cons_2; try apply Forall_nil_2; cbn [TcgBlock.generable]; (split; [first [exact N0 | by apply N1]|]); (split; [done || (cbn; lia)|]); try exact (Hc []); try exact (Hc [6]); (split; [first [by left | by right]|]); cbn [TcgBlock.op_typed app];
      first [by right | repeat constructor; by apply Ht | right; repeat constructor; by apply Ht].
  - intros k ts E Hk. cbn in Hk. do 7 (destruct k as [|k]; [first [lia | vm_compute in E; by injection E as <-]|]). vm_compute in E. discriminate E.
Qed.

(** The code of the block: the constants of movi are operands of what uses them,
    the result of the first call that is left is stored in the frame before the
    second one destroys its register, and loaded where it is used. *)
Example demo_code : match tcg_liveness_analysis demo_ctx (map opcode_of demo_block) (enc demo_block) with
  | Ok (_, _, ia) =>
      TcgReg.code <$> (match TcgReg.tcg_gen_code demo_tables (la_prog demo_ctx demo_block).1.1 ia with Ok s => Some s | Fail _ => None end)
  | Fail _ => None
  end = Some [TcgReg.OCall 100 true TCG_CALL_PURE []; TcgReg.OMov 7 0; TcgReg.OSt TCG_TYPE_I32 0 14 1000; TcgReg.OCall 200 true 0 [Some TCG_TYPE_I32]; TcgReg.OLd TCG_TYPE_I32 5 14 1000;
    TcgReg.OOp INDEX_op_brcond_i32 [5; 7; 0; 1] [false; true; false; false]; TcgReg.OLd TCG_TYPE_I32 5 14 1000; TcgReg.OSt TCG_TYPE_I32 5 14 4; TcgReg.OLabel 1; TcgReg.OOp INDEX_op_exit_tb [0] [false]].
Proof. by vm_compute. Qed.

(** A run: global 1 is [0x12345678], global 2 is [0xffffffff]. *)
Definition demo_machine : TcgRegInv.HS := TcgRegInv.mkHS (fun _ => 2 ^ 40 + 5) (fun _ y => nth (Z.to_nat y) [0x78; 0x56; 0x34; 0x12; 0xff; 0xff; 0xff; 0xff] 0).
Definition demo_start : Z -> Z := fun t => nth (Z.to_nat t) [2 ^ 40 + 5; 0x12345678; 0xffffffff; 0] 0.

Definition fits_type (t x : Z) : bool := match TcgReg.ra_temps (TcgReg.tcg_reg_alloc_start demo_tables) !! Z.to_nat t with Some ts => TcgRegInv.trunc (TcgReg.type ts) x =? x | None => true end.
Fixpoint check_run (n pc : nat) (r : Z -> Z) (w : list Z) : bool :=
  forallb (fun t => fits_type t (r t)) (nth pc demo_values []) &&
  match n with
  | O => true
  | S n => match exec demo_ctx host_meaning demo_block pc r w with Next pc r w => check_run n pc r w | Stop _ => true end
  end.
Lemma check_run_ok n pc r w : check_run n pc r w = true -> TcgBlock.typed_run demo_ctx (TcgReg.tcg_reg_alloc_start demo_tables) demo_block demo_defined host_meaning n pc r w.
Proof.
  revert pc r w. induction n as [|n IH]; intros pc r w H; apply andb_prop in H as [H Hn]; (split; [intros t Dt ts E; rewrite forallb_forall in H; specialize (H t Dt); unfold fits_type in H; rewrite E in H; by apply Z.eqb_eq|]); [done|].
  destruct (exec demo_ctx host_meaning demo_block pc r w); [by apply IH | done].
Qed.

(** Global 1 is given to function 200, which counts in global 2; it is not 7, so
    it is moved to global 2 before the block is left. *)
Lemma tcg_gen_code_preserves_witness : exists p' ia s' m,
  tcg_liveness_analysis demo_ctx (map opcode_of demo_block) (enc demo_block) = Ok (map opcode_of p', enc p', ia) /\ TcgReg.tcg_gen_code demo_tables p' ia = Ok s' /\
  TcgHost.hrun host_meaning (TcgCode.block_globals demo_ctx demo_tables) (fun h => h) m (TcgReg.code s') 0 demo_machine [] = Some (OLeave [0] [0x12345678; 200] [2 ^ 40 + 5; 0x12345678; 0x12345678; 0]).
Proof.
  destruct (TcgCode.tcg_gen_code_preserves demo_ctx host_meaning (fun h => h) demo_tables demo_block demo_defined host_flags demo_host demo_tables_ok demo_generable) as (p' & ia & s' & E1 & E2 & H).
  destruct (H 20%nat demo_start [] demo_machine (OLeave [0] [0x12345678; 200] [2 ^ 40 + 5; 0x12345678; 0x12345678; 0])) as [m Hm].
  - vm_compute. reflexivity.
  - apply check_run_ok. vm_compute. reflexivity.
  - vm_compute. reflexivity.
  - exists p', ia, s', m. split; [exact E1|]. split; [exact E2 | exact Hm].
Defined.

End TcgRun.
