(* ===== verification/Machine.v ===== *)
(** * The snapshot of a PC

    The devices of the preceding files under S2E's state switch
    (Snapshot.v): what [saveDeviceState] followed by [restoreDeviceState]
    gives back, device by device. *)

From stdpp Require Import strings.
From S2P Require Import Prelude DevState Savevm Snapshot Pic Pit Dma Rtc Ps2 Apic ApicDelivery Ioapic.
Import Buffer.

(** ** The devices of the PC *)

Definition pic_pair (s s0 : Pic.PicState) (H : Pic.pic_wf s) : DevPair :=
  mkDevPair _ Pic.vmstate_pic Pic.pic_fields Pic.pic_descr_ok s s0 (Pic.pic_state_valid s H).

Definition pit_pair now (s s0 : Pit.PITState) (Hn : 0 <= now < 2 ^ 62) (H : Pit.pit_wf now s)
    : DevPair :=
  mkDevPair _ Pit.vmstate_pit Pit.pit_fields Pit.pit_descr_ok s s0 (Pit.pit_state_valid now s Hn H).

Definition rtc_pair e (s s0 : Rtc.RTCState) (H : Rtc.rtc_wf s) : DevPair :=
  mkDevPair _ (Rtc.vmstate_rtc e) Rtc.rtc_fields (Rtc.rtc_descr_ok e) s s0 (Rtc.rtc_state_valid e s H).

Definition kbd_pair (s s0 : Ps2.PS2KbdState) (H : Ps2.kbd_wf s) : DevPair :=
  mkDevPair _ Ps2.vmstate_ps2_keyboard Ps2.kbd_fields Ps2.kbd_descr_ok s s0 (Ps2.kbd_state_valid s H).

Definition mouse_pair (s s0 : Ps2.PS2MouseState) (H : Ps2.mouse_wf s) : DevPair :=
  mkDevPair _ Ps2.vmstate_ps2_mouse Ps2.mouse_fields Ps2.mouse_descr_ok s s0 (Ps2.mouse_state_valid s H).

Definition dma_pair {W : Type} `{!Dma.TransferHandlers W} i (s s0 : Dma.DmaState W) (Hi : 0 <= i)
    (H : Dma.cont_wf (Dma.cont s i)) : DevPair :=
  mkDevPair _ (Dma.vmstate_dma i) (Dma.dma_fields i) (Dma.dma_descr_ok i) s s0
    (Dma.dma_state_valid i s Hi H).

Definition apic_pair (s s0 : Apic.APICState) (H : Apic.apic_wf s) (Ht : timer_valid (Apic.timer s)) : DevPair :=
  mkDevPair _ Apic.vmstate_apic Apic.apic_fields Apic.apic_descr_ok s s0 (Apic.apic_state_valid s H Ht).

Definition ioapic_pair (s s0 : Ioapic.IOAPICState) (H : Ioapic.ioapic_wf s) : DevPair :=
  mkDevPair _ Ioapic.vmstate_ioapic Ioapic.ioapic_fields Ioapic.ioapic_descr_ok s s0
    (Ioapic.ioapic_state_valid s H).

(** ** Sizes of the saved data *)

Lemma pic_size s s0 H : length (dp_enc (pic_pair s s0 H)) = 16%nat.
Proof. reflexivity. Qed.
Lemma pit_size now s s0 Hn H : length (dp_enc (pit_pair now s s0 Hn H)) = 104%nat.
Proof. reflexivity. Qed.
Lemma rtc_size e s s0 H : length (dp_enc (rtc_pair e s s0 H)) = 205%nat.
Proof.
  change (length ((Rtc.cmos_data s ++ []) ++ fields_enc (F := S2EDeviceState) (tail Rtc.rtc_fields) s) = 205%nat).
  rewrite !length_app, (proj1 (Rtc.rtc_cmos s H)). reflexivity.
Qed.

Lemma common_size (s : Ps2.PS2State) :
  Ps2.common_wf s -> length (fields_enc (F := S2EDeviceState) Ps2.common_fields s) = 272%nat.
Proof.
  intros [[Hl _ _ _ _] _].
  change (length (be32 (u32 (Ps2.write_cmd s)) ++ [] ++ be32 (u32 (Ps2.rptr (Ps2.queue s))) ++ [] ++
    be32 (u32 (Ps2.wptr (Ps2.queue s))) ++ [] ++ be32 (u32 (Ps2.count (Ps2.queue s))) ++ [] ++
    (Ps2.data (Ps2.queue s) ++ []) ++ []) = 272%nat).
  rewrite !length_app, Hl. reflexivity.
Qed.

Lemma kbd_size s s0 H : length (dp_enc (kbd_pair s s0 H)) = 284%nat.
Proof.
  change (length ((fields_enc (F := S2EDeviceState) Ps2.common_fields (Ps2.kcommon s) ++ []) ++
    fields_enc (F := S2EDeviceState) (tail Ps2.kbd_fields) s) = 284%nat).
  rewrite !length_app, common_size by apply H. reflexivity.
Qed.

Lemma mouse_size s s0 H : length (dp_enc (mouse_pair s s0 H)) = 291%nat.
Proof.
  change (length ((fields_enc (F := S2EDeviceState) Ps2.common_fields (Ps2.common s) ++ []) ++
    fields_enc (F := S2EDeviceState) (tail Ps2.mouse_fields) s) = 291%nat).
  rewrite !length_app, common_size by apply H. reflexivity.
Qed.

Lemma apic_size s s0 H Ht : length (dp_enc (apic_pair s s0 H Ht)) = 181%nat.
Proof. reflexivity. Qed.
Lemma ioapic_size s s0 H : length (dp_enc (ioapic_pair s s0 H)) = 198%nat.
Proof. reflexivity. Qed.

(** ** The PC *)

Record PC := mkPC {
  pc_pic0 : Pic.PicState;
  pc_pic1 : Pic.PicState;
  pc_pit : Pit.PITState;
  pc_rtc : Rtc.RTCState;
  pc_kbd : Ps2.PS2KbdState;
  pc_mouse : Ps2.PS2MouseState;
  pc_apic : Apic.APICState;
  pc_ioapic : Ioapic.IOAPICState
}.

Record pc_wf (now : Z) (s : PC) : Prop := {
  pcw_pic0 : Pic.pic_wf (pc_pic0 s);
  pcw_pic1 : Pic.pic_wf (pc_pic1 s);
  pcw_pit : Pit.pit_wf now (pc_pit s);
  pcw_rtc : Rtc.rtc_wf (pc_rtc s);
  pcw_kbd : Ps2.kbd_wf (pc_kbd s);
  pcw_mouse : Ps2.mouse_wf (pc_mouse s);
  pcw_apic : Apic.apic_wf (pc_apic s);
  pcw_timer : timer_valid (Apic.timer (pc_apic s));
  pcw_ioapic : Ioapic.ioapic_wf (pc_ioapic s)
}.

Notation device vmsd s := (mkDevice (F := S2EDeviceState) _ vmsd s).

(** The snapshotted devices, in the order of the registry; [e] is the machine
    around the clock when the state is loaded. *)
Definition pc_devices (e : Rtc.RtcEnv) (s : PC) : list (Device S2EDeviceState) :=
  [device Pic.vmstate_pic (pc_pic0 s); device Pic.vmstate_pic (pc_pic1 s);
   device Pit.vmstate_pit (pc_pit s); device (Rtc.vmstate_rtc e) (pc_rtc s);
   device Ps2.vmstate_ps2_keyboard (pc_kbd s); device Ps2.vmstate_ps2_mouse (pc_mouse s);
   device Apic.vmstate_apic (pc_apic s); device Ioapic.vmstate_ioapic (pc_ioapic s)].

#[local] Existing Instances Pic.PicState_eta Pit.PITChannelState_eta Rtc.RTCState_eta
  Ps2.PS2KbdState_eta Ps2.PS2MouseState_eta Ps2.PS2State_eta Dma.dma_cont_eta Apic.APICState_eta.

Definition pit_restored (s s0 : Pit.PITState) : Pit.PITState :=
  Pit.mkPIT
    [(Pit.restored (Pit.chan s 0) (Pit.chan s0 0)) <| Pit.irq_timer := Pit.irq_timer (Pit.chan s 0) |>;
     Pit.restored (Pit.chan s 1) (Pit.chan s0 1); Pit.restored (Pit.chan s 2) (Pit.chan s0 2)].

(** The clock after the switch: its registers, calendar and periodic timer are
    those of [s], its base year and output lines those of [s0]; both second
    timers are armed 0.99 s from now, whatever they were; the timer of
    coalesced interrupts is armed anew where it is in use.  The reinjection
    count, and the coalescing timer where it is not in use, are left over from
    [s0]. *)
Definition rtc_restored (e : Rtc.RtcEnv) (s s0 : Rtc.RTCState) : Rtc.RTCState :=
  let next := s64 (Rtc.now e + 990000000) in
  s <| Rtc.base_year := Rtc.base_year s0 |> <| Rtc.irq := Rtc.irq s0 |>
    <| Rtc.sqw_irq := Rtc.sqw_irq s0 |>
    <| Rtc.irq_reinject_on_ack_count := Rtc.irq_reinject_on_ack_count s0 |>
    <| Rtc.coalesced_timer :=
         if Rtc.rtc_td_hack e then Rtc.coalesced_timer (Rtc.rtc_coalesced_timer_update e s)
         else Rtc.coalesced_timer s0 |>
    <| Rtc.next_second_time := next |> <| Rtc.second_timer := Some next |>
    <| Rtc.second_timer2 := Some next |>.

(** The local APIC: its CPU and place on the bus are wiring; its start-up vector
    and whether the CPU waits for a start-up message are left over from [s0]. *)
Definition apic_restored (s s0 : Apic.APICState) : Apic.APICState :=
  s <| Apic.cpu_env := Apic.cpu_env s0 |> <| Apic.idx := Apic.idx s0 |>
    <| Apic.sipi_vector := Apic.sipi_vector s0 |>
    <| Apic.wait_for_sipi := Apic.wait_for_sipi s0 |>.

(** State [s] after a switch away and back over [s0]. *)
Definition pc_restored (e : Rtc.RtcEnv) (s s0 : PC) : PC :=
  mkPC ((pc_pic0 s) <| Pic.elcr_mask := Pic.elcr_mask (pc_pic0 s0) |>)
       ((pc_pic1 s) <| Pic.elcr_mask := Pic.elcr_mask (pc_pic1 s0) |>)
       (pit_restored (pc_pit s) (pc_pit s0))
       (rtc_restored e (pc_rtc s) (pc_rtc s0))
       ((pc_kbd s) <| Ps2.kcommon := (Ps2.kcommon (pc_kbd s))
          <| Ps2.irq_log := Ps2.irq_log (Ps2.kcommon (pc_kbd s0)) |> |>)
       ((pc_mouse s) <| Ps2.common := (Ps2.common (pc_mouse s))
          <| Ps2.irq_log := Ps2.irq_log (Ps2.common (pc_mouse s0)) |> |>)
       (apic_restored (pc_apic s) (pc_apic s0)) (pc_ioapic s).

Lemma rtc_restored_ok e s s0 :
  (load_result (F := S2EDeviceState) (Rtc.vmstate_rtc e) Rtc.rtc_fields s s0).2 = rtc_restored e s s0.
Proof.
  rewrite Rtc.rtc_load_result. unfold Rtc.rtc_post_load, rtc_restored, Rtc.rtc_coalesced_timer_update.
  destruct e as [? ? [] ?], s; cbn; [|done]. by destruct (_ =? 0).
Qed.

Lemma pit_restored_ok now now0 s s0 :
  Pit.pit_wf now s -> Pit.pit_wf now0 s0 ->
  (load_result (F := S2EDeviceState) Pit.vmstate_pit Pit.pit_fields s s0).2 = pit_restored s s0.
Proof.
  intros [Hl _ H0 _] [Hl0 _ _ _]. destruct s as [cs], s0 as [ds]. cbn in Hl, Hl0.
  destruct cs as [|c0 [|c1 [|c2 [|]]]], ds as [|d0 [|d1 [|d2 [|]]]]; try done.
  rewrite Pit.pit_load_result by exact H0. done.
Qed.


(** ** Concrete states *)

Definition fresh_buffer : S2EDeviceState := mkDeviceState None 0 0.

Definition demo_apic : Apic.APICState := Apic.apic_init_reset (Apic.apic_zero Apic.demo_cpu).

Definition boot_pc : PC :=
  mkPC (Pic.pics0 Pic.i8259_init) (Pic.pics1 Pic.i8259_init) (Pit.pit_reset Pit.pit_init 0)
    Rtc.demo_rtc Ps2.ps2_kbd_init Ps2.ps2_mouse_init demo_apic Ioapic.ioapic_init.

(** The same with requests pending at the master controller. *)
Definition busy_pc : PC :=
  mkPC (Pic.pics0 Pic.demo_requests) (Pic.pics1 Pic.i8259_init) (Pit.pit_reset Pit.pit_init 0)
    Rtc.demo_rtc Ps2.ps2_kbd_init Ps2.ps2_mouse_init demo_apic Ioapic.ioapic_init.

Lemma demo_rtc_wf : Rtc.rtc_wf Rtc.demo_rtc.
Proof.
  constructor; try (vm_compute; split; congruence).
  - apply Rtc.demo_rtc_ok.
  - vm_compute. repeat split; congruence.
Qed.

Lemma ps2_zero_wf : Ps2.common_wf Ps2.ps2_zero.
Proof. split; [apply Ps2.zero_inv | done]. Qed.

Lemma demo_apic_wf : Apic.apic_wf demo_apic.
Proof. apply Apic.reset_tables_wf; unfold range; cbn; lia. Qed.

Lemma pc_wf_of_pics (p : Pic.PicState2) :
  Pic.pics_inv true p ->
  pc_wf 0 (mkPC (Pic.pics0 p) (Pic.pics1 Pic.i8259_init) (Pit.pit_reset Pit.pit_init 0)
    Rtc.demo_rtc Ps2.ps2_kbd_init Ps2.ps2_mouse_init demo_apic Ioapic.ioapic_init).
Proof.
  intros [[H _] _]. constructor; cbn [pc_pic0 pc_pic1 pc_pit pc_rtc pc_kbd pc_mouse pc_apic pc_ioapic].
  - done.
  - apply (Pic.init_inv (line2 := true)).
  - apply Pit.init_wf. lia.
  - apply demo_rtc_wf.
  - split; [apply ps2_zero_wf|]. done.
  - constructor; try apply ps2_zero_wf; done.
  - apply demo_apic_wf.
  - done.
  - apply Ioapic.reset_wf.
Qed.

Lemma boot_pc_wf : pc_wf 0 boot_pc.
Proof. apply pc_wf_of_pics, Pic.init_inv. Qed.

Lemma busy_pc_wf : pc_wf 0 busy_pc.
Proof. apply pc_wf_of_pics, Pic.reachable_inv, Pic.demo_reachable. Qed.


(** The two controllers register under the same name. *)
Lemma vmstate_register_find_witness :
  let m := device Pic.vmstate_pic (pc_pic0 boot_pc) in
  let sl := device Pic.vmstate_pic (pc_pic1 boot_pc) in
  let r := vmstate_register (mkRegistry [] 0) (-1) 0 0 m in
  calculate_new_instance_id r "i8259" = 1 /\
  exists se, find_se (savevm_handlers (vmstate_register r (-1) 0 1 sl)) "i8259" 1 = Some se /\
    se_device se = sl /\ section_id se = 1.
Proof.
  intros m sl r. split; [reflexivity|].
  refine (proj1 (proj2 (vmstate_register_find r 0 1 sl _ _))); [|reflexivity].
  repeat constructor; cbn; lia.
Defined.

(** ** The DMA controllers *)

(** The request and terminal-count bits of a DMA controller are not part
    of its saved state.  Whatever the saved state [s], after a switch away and
    back the [status] byte of the controller is the one the other execution
    state left there; everything else the guest can read is that of [s], and
    [DMA_run] then serves the channels by the foreign [status]. *)
Theorem dma_snapshot_status (W : Type) `{!Dma.TransferHandlers W} i (s s0 : Dma.DmaState W) d l :
  written d l -> 0 <= i < Z.of_nat (length (Dma.dma_controllers s0)) ->
  Dma.cont_wf (Dma.cont s i) -> Dma.cont_wf (Dma.cont s0 i) ->
  restoreDeviceState (saveDeviceState d [device (Dma.vmstate_dma i) s]).1
      [device (Dma.vmstate_dma i) s0] =
    Ok [device (Dma.vmstate_dma i)
          (Dma.DMA_run (Dma.set_cont s0 i
             ((Dma.cont s i) <| Dma.status := Dma.status (Dma.cont s0 i) |>
                <| Dma.regs := zip_with Dma.keep_handler (Dma.regs (Dma.cont s i))
                                 (Dma.regs (Dma.cont s0 i)) |>)))].
Proof.
  intros Hw Hi Hc Hc0. set (p := dma_pair i s s0 (proj1 Hi) Hc).
  destruct (save_restore [p] d l Hw) as [_ E].
  { change (length (concat (map dp_enc [p]))) with 75%nat. unfold cap. lia. }
  change (map dp_saved [p]) with [device (Dma.vmstate_dma i) s] in E.
  change (map dp_target [p]) with [device (Dma.vmstate_dma i) s0] in E. rewrite E.
  cbn [map]. unfold dp_loaded. cbn [p dma_pair dp_type dp_vmsd dp_fields dp_s dp_s0].
  by rewrite Dma.dma_load_result.
Qed.

(** The controllers of [Dma.demo_dma] (a request on channel 2) switched out by
    a state without requests: the request is gone. *)
Lemma dma_snapshot_status_witness :
  let s := Dma.demo_dma in
  let s0 := Dma.mkDma [Dma.cont0; Dma.cont0] false 0 in
  Dma.status (Dma.cont s 0) = 0x60 /\
  exists s', restoreDeviceState
      (saveDeviceState fresh_buffer [device (@Dma.vmstate_dma _ _ _ Dma.counting 0) s]).1
      [device (@Dma.vmstate_dma _ _ _ Dma.counting 0) s0] =
    Ok [device (@Dma.vmstate_dma _ _ _ Dma.counting 0) s'] /\
    Dma.status (Dma.cont s' 0) = 0 /\ Dma.mask (Dma.cont s' 0) = 2.
Proof.
  intros s s0. split; [reflexivity|]. eexists. split.
  - apply (@dma_snapshot_status Z Dma.counting 0 s s0 fresh_buffer []);
      [done | cbn; lia | apply Dma.demo_dma_wf | apply Dma.cont0_wf].
  - split; vm_compute; reflexivity.
Defined.

(** ** The APICs *)

(** The start-up protocol of a CPU is not part of its APIC's saved state.
    After a switch away and back the I/O APIC is exactly as it was, and so are
    all registers and the timer of the local APIC; but the start-up vector and
    the flag that says whether the CPU waits for a start-up message are those
    the other execution state left behind. *)
Theorem apic_snapshot_startup (s s0 : Apic.APICState) (io io0 : Ioapic.IOAPICState) d l :
  written d l -> Apic.apic_wf s -> timer_valid (Apic.timer s) -> Apic.apic_wf s0 ->
  Ioapic.ioapic_wf io -> Ioapic.ioapic_wf io0 ->
  restoreDeviceState
      (saveDeviceState d [device Apic.vmstate_apic s; device Ioapic.vmstate_ioapic io]).1
      [device Apic.vmstate_apic s0; device Ioapic.vmstate_ioapic io0] =
    Ok [device Apic.vmstate_apic
          (apic_restored s s0);
        device Ioapic.vmstate_ioapic io].
Proof.
  intros Hw Hs Ht Hs0 Hio Hio0. set (ps := [apic_pair s s0 Hs Ht; ioapic_pair io io0 Hio]).
  destruct (save_restore ps d l Hw) as [_ E].
  { change (length (concat (map dp_enc ps))) with 379%nat. unfold cap. lia. }
  change (map dp_saved ps) with [device Apic.vmstate_apic s; device Ioapic.vmstate_ioapic io] in E.
  change (map dp_target ps) with [device Apic.vmstate_apic s0; device Ioapic.vmstate_ioapic io0] in E.
  rewrite E. unfold ps. cbn [map]. unfold dp_loaded.
  cbn [apic_pair ioapic_pair dp_type dp_vmsd dp_fields dp_s dp_s0].
  by rewrite Apic.apic_load_result, Ioapic.ioapic_load_result.
Qed.

(** A CPU that waits for its start-up message (vector 0x9a has arrived),
    switched out by a state in which the CPU runs: the message is ignored. *)
Definition waiting_apic : Apic.APICState :=
  Apic.apic_startup demo_apic 0x9a.

Lemma waiting_apic_wf : Apic.apic_wf waiting_apic.
Proof.
  apply (Apic.startup_keeps 0x9a 0), demo_apic_wf.
Qed.

Lemma apic_snapshot_startup_witness :
  exists s0 s', Apic.apic_at ApicDelivery.two_cpus 0 = Some s0 /\
    restoreDeviceState (saveDeviceState fresh_buffer
        [device Apic.vmstate_apic waiting_apic; device Ioapic.vmstate_ioapic Ioapic.ioapic_init]).1
      [device Apic.vmstate_apic s0; device Ioapic.vmstate_ioapic Ioapic.ioapic_init] =
      Ok [device Apic.vmstate_apic s'; device Ioapic.vmstate_ioapic Ioapic.ioapic_init] /\
    Apic.wait_for_sipi waiting_apic = 1 /\
    Apic.apic_sipi s' = Apic.cpu_reset_interrupt s' Apic.CPU_INTERRUPT_SIPI.
Proof.
  destruct (Apic.apic_at ApicDelivery.two_cpus 0) as [s0|] eqn:E; [|vm_compute in E; discriminate E].
  exists s0. eexists. split; [reflexivity|]. split; [|split; [reflexivity|]].
  - apply (apic_snapshot_startup waiting_apic s0 Ioapic.ioapic_init Ioapic.ioapic_init fresh_buffer []);
      [done | apply waiting_apic_wf | done | | apply Ioapic.reset_wf | apply Ioapic.reset_wf].
    apply (Apic.bo_apics _ (Apic.bus_reachable_ok _ ApicDelivery.two_cpus_reachable) 0 s0); [lia | exact E].
  - vm_compute in E. injection E as <-. reflexivity.
Defined.
